(* ===== verification/_CoqProject ===== *)
-Q . S2P
Prelude.v
SeekSequence.v
PatchParser.v
PatchGrammar.v
StreamingPatchParser.v
Paths.v
PathOps.v
Permissions.v
AccessResolution.v
SandboxRoots.v
PermissionProfile.v
Utf8.v
FileSystem.v
Replacements.v
ApplyPatch.v
ExecPolicyRule.v
ExecPolicy.v
ExecPolicyParser.v
StreamText.v
InlineTags.v
TaggedLines.v
AgentPath.v
AgentRegistry.v
HeadTailBuffer.v
Truncate.v
ContextHistory.v
Transcript.v
Fragments.v
Rollout.v
Resume.v
TableDetect.v
StreamController.v
StreamLines.v
CommitTick.v
IpAddr.v
NetworkPolicy.v
MitmHooks.v
NetworkConfig.v
NetworkConstraints.v
NetworkProxy.v
NetworkSafety.v
NetworkFront.v
NetworkDoors.v
NetworkEnv.v
ShellCommand.v
CommandSafety.v
ExecApproval.v
NetworkApproval.v
NetworkApprovalRuns.v
GuardianRequests.v
GuardianPrompt.v
GuardianSelection.v
GuardianReview.v
GuardianSessions.v
GuardianSessionRuns.v
GuardianSessionEnds.v
Orchestrator.v
ToolRuntimes.v
PatchInvocation.v
Template.v
ByteText.v
TextKeys.v
TextArea.v
TextAreaEdits.v
TextAreaMoves.v
TextAreaInput.v
TextAreaVim.v
TextAreaElements.v
TextAreaCalls.v
PasteBurst.v
ComposerText.v
SlashCommands.v
MentionCodec.v
ComposerHistory.v
Composer.v
ComposerInput.v
ComposerTyping.v
ComposerBursts.v
ComposerSubmit.v
ComposerPromises.v
