(* ===== verification/Prelude.v ===== *)
(** * A verification of the core of Codex

    The repository is a coding agent: a model proposes file edits and commands, and
    the Rust workspace [codex-rs] decides what is applied and what is run.  This
    development models the parts that carry those decisions as executable functions
    and proves what they promise.  Each definition keeps the name of the function it
    translates; each component is a module.

    ** The parts and how they interact

    - Patches ([apply-patch]).  The model writes a patch; it is parsed as a whole
      ([parser.rs]) or while it arrives ([streaming_parser.rs]); the lines of each
      chunk are found in the file ([seek_sequence.rs]), turned into replacements and
      applied ([lib.rs]) through the file-system interface ([file-system/src/lib.rs]),
      at paths resolved by [utils/absolute-path].  A call of [apply_patch], also one made
      through a shell script, is recognised and its patch turned into the changes that are
      shown for approval ([invocation.rs]).
    - Command policy ([execpolicy]).  Policy files declare rules ([parser.rs]); a
      command is checked against them ([policy.rs], [rule.rs]); an approval is
      appended as a new rule ([amend.rs]).
    - Command safety ([shell-command]).  A shell invocation is reduced to its plain
      commands ([bash.rs], [shell_detect.rs]), which are then looked up in the lists of
      safe and of dangerous commands ([command_safety]).
    - Streamed text ([utils/stream-parser]).  Bytes become text ([utf8_stream.rs]);
      citations ([inline_hidden_tag.rs], [citation.rs]) and plan blocks
      ([tagged_line_parser.rs], [proposed_plan.rs]) are taken out of it, in this order
      ([assistant_text.rs]).
    - Agents ([core/src/agent], [protocol/src/agent_path.rs]).  A session spawns agents
      under paths, within a limit; a spawn reserves a slot, a path and a nickname and
      is then committed or dropped.
    - Command output ([core/src/unified_exec/head_tail_buffer.rs]): the start and the
      end of an output are kept, the middle is dropped.
    - Prompt templates ([utils/template]).
    - Permissions ([protocol/src/permissions.rs], [protocol/src/models.rs],
      [sandboxing/src/policy_transforms.rs]).  A session has a profile with a file-system
      policy; a command may request more, a user may grant part of it; the sandboxes
      receive the writable roots and the denied reads of the result.
    - The transcript ([core/src/context_manager]).  Items are recorded with their outputs
      truncated ([utils/string], [utils/output-truncation]); before a request the
      transcript is normalised; turns are rolled back and old items trimmed.  Texts the
      program injects ([context-fragments], [core/src/context]) are told apart from the
      turns of the user.
    - Rollouts ([core/src/session/rollout_reconstruction.rs],
      [core/src/thread_rollout_truncation.rs], [core/src/compact.rs]): the persisted log of
      a thread, from which a transcript is rebuilt, forked or compacted.
    - The streamed display ([tui/src/streaming], [tui/src/table_detect.rs]).  The source is
      rendered again with every line; lines of a table are held back; stable lines are
      queued and committed by ticks whose pace follows the backlog.
    - The network proxy ([network-proxy]).  Requests of sandboxed commands come in over
      HTTP, SOCKS or an intercepted tunnel; the shared state decides about hosts, methods,
      local addresses and hooks, within constraints an administrator manages, and asks a
      decider about what the lists miss.
    - Approvals ([core/src/exec_policy.rs], [core/src/safety.rs], [core/src/tools]).  A
      command or patch gets a requirement from the policies; the orchestrator asks hooks,
      the automatic reviewer or the user, chooses the sandbox, attempts, and may retry
      without one; the decider of the proxy asks about hosts while commands run.
    - The automatic reviewer ([core/src/guardian]).  In place of the user a second model is
      shown the transcript and the planned action and answers with an assessment; a
      circuit breaker interrupts a turn whose requests are refused too often.  The reviews
      share a session of that model, or run in one of their own ([review_session.rs]).
    - The text area of the composer ([tui/src/bottom_pane/textarea.rs], [textarea/vim.rs]).
      Keys, matched against the bindings ([key_hint.rs], [keymap.rs]), move the cursor and
      edit a text in which elements (placeholders of images and pastes) are units; a kill
      buffer is cut to and yanked from; a vim layer has operators, motions and text objects;
      the text is wrapped ([wrapping.rs]) and scrolled to keep the cursor visible.
    - The composer ([tui/src/bottom_pane/chat_composer.rs] and its modules).  The draft is a
      text area with large pastes, images and mentions behind its elements; keys that arrive
      fast are collected as pastes ([paste_burst.rs]); keys go to a popup that is shown, to the
      interactive search of the history ([history_search.rs]) or to the draft; a message that starts as a slash
      command ([slash_input.rs]) is dispatched, another is submitted with its pastes put
      in, and remembered ([chat_composer_history.rs], [mention_codec.rs]).

    ** Files

    - [Prelude]: results, strings as lists of scalar values, the string functions of
      the standard library, shared lemmas, tactics and the hint database [rust].
    - [SeekSequence.Seek]: [seek_sequence] over list positions; the four passes are
      one function of the normalisation they use.
    - [PatchParser.Patch]: [parse_patch] with its errors and line numbers, by
      structural recursion on the lines; [PatchGrammar.Grammar]: an independent
      description of patches in canonical form, with its printer.
    - [StreamingPatchParser.Streaming]: the state machine over characters.
    - [Paths.Path]: Unix paths and [AbsolutePathBuf].  [Utf8]: UTF-8 coding.
    - [FileSystem]: the trait as the class [ExecutorFileSystem], what it promises as the
      class [FileSystemLaws], and an in-memory instance that satisfies them.
    - [Replacements.Replace]: [compute_replacements], [apply_replacements] (a panic of
      [Vec::insert] is [None]) and the text part of [derive_new_contents_from_chunks].
    - [ApplyPatch.Apply]: [apply_patch] down to every file operation and the delta it
      reports, over any instance of the file-system class and of [Write].
    - [ExecPolicyRule.Rule], [ExecPolicy.Policy], [ExecPolicyParser.PolicyParser]:
      rules and hosts, the policy, policy files and amendments.
    - [StreamText.Stream]: the trait [StreamTextParser] as a class, independence of the
      cut into chunks as the class [ChunkInvariant], and the byte adapter, proved for
      any parser of that class; [InlineTags.Inline] and [TaggedLines.Tagged] give the
      instances.
    - [AgentPath.AgentPath], [AgentRegistry.Registry]: paths; the registry as a state,
      its methods as functions, a session as the step relation [step], and the
      compare-and-exchange loop as the step relation [cas_step].
    - [HeadTailBuffer.HeadTail]: the capped buffer with saturating counters.
    - [ShellCommand.Shell], [CommandSafety.Safety]: scripts and the two lists.
    - [Template.Template]: the templates of prompts.
    - [PathOps.PathOps]: more of [std::path], and the record [Env] of what is asked of the
      system.  [Permissions.Permissions]: policies, their operations and the legacy
      policy; [AccessResolution.Access], [SandboxRoots.Roots]: what a policy grants and
      what the sandboxes receive; [PermissionProfile.Profile]: profiles, merged,
      intersected and applied.
    - [Truncate.Truncate]: truncation by bytes, characters and tokens.
      [ContextHistory.History]: items and the [ContextManager]; [Transcript.Transcript]:
      what it promises.  [Fragments.Fragments]: the trait of fragments as the class
      [ContextualUserFragment] with its instances.
    - [Rollout.Rollout]: turn items, compaction, cutting and reconstruction;
      [Resume.Resume]: what they promise, against a forward replay.
    - [TableDetect.TableDetect]: tables, fences and the holdback scanner;
      [StreamController.Stream]: collector, queue, core and controllers;
      [StreamLines.StreamLines]: what is displayed; [CommitTick.CommitTick]: the chunking
      policy and the ticks.
    - [IpAddr.Ip], [NetworkPolicy.NetPolicy], [MitmHooks.Mitm], [NetworkConfig.NetConfig],
      [NetworkConstraints.NetState], [NetworkProxy.Proxy]: addresses, host patterns, hooks,
      settings, managed constraints, the shared state and its decisions;
      [NetworkSafety.NetSafety]: what they promise.  [NetworkFront.Front]: the handlers of
      the doors, in a monad over the world; [NetworkDoors.Doors]: what passes them.
      [NetworkEnv.NetEnv]: listeners and the environment of child processes.
    - [ExecApproval.Approval]: the requirement of a command, amendments, the assessment of
      patches.  [NetworkApproval.NetApproval]: the service of network approvals and the
      handler of a request as a program of atomic steps, with the step relation of all
      handlers; [NetworkApprovalRuns.ApprovalRuns]: its runs.  [Orchestrator.Orchestrator]:
      a tool call over the classes [World] and [ToolRuntime]; [ToolRuntimes.Runtimes]: the
      instances of the shell, unified-exec and patch tools, and the approval cache.
    - [GuardianRequests.GuardianRequest]: what the reviewer is asked, and its JSON;
      [GuardianPrompt.GuardianPrompt]: the entries of the transcript, their selection and
      rendering, the prompt, the reading of an assessment; [GuardianSelection.Selection]:
      what the selection shows.  [GuardianReview.Guardian]: the circuit breaker and one
      review, in a state monad over the class [ReviewWorld].  [GuardianSessions]: the
      manager of the review sessions and a review as a program of atomic steps, in the step
      relation of all reviews; [GuardianSessionRuns.SessionRuns],
      [GuardianSessionEnds.SessionEnds]: its invariants, and how its runs end.
    - [PatchInvocation.Invocation]: the recognition of calls, over the class [BashQuery] of
      the tree-sitter query, and the changes shown for a patch.
    - [ByteText.ByteText]: texts under byte positions, where slicing off a boundary panics.
      [TextKeys.Keys]: keys and bindings.  [TextArea]: the state, its elements, kills,
      wrapping and scrolling, over the class [Unicode]; [TextAreaEdits.Edits],
      [TextAreaMoves.Moves], [TextAreaInput.Input], [TextAreaVim.VimInput]: edits, motions,
      keys and the vim layer with what each keeps; [TextAreaElements.Elements]: the
      operations on elements; [TextAreaCalls]: any sequence of calls, what each key of the
      editor is for, and the promises.
    - [PasteBurst.Burst]: the detector of bursts.  [ComposerText.ComposerText]: texts with
      elements, and their reading as lists of pieces, on which pastes are put in.
      [SlashCommands.Slash], [MentionCodec.Mentions], [ComposerHistory.History]: commands,
      mentions in the history, the history.  [Composer.Composer]: the draft, over the
      classes [Desktop] and [PopupWidgets]; [ComposerInput.ComposerInput]: pastes, keys, the
      interactive search and submission; what an open popup does with a key is an argument.  [ComposerTyping], [ComposerBursts.Bursts], [ComposerSubmit.Submit]: what
      inserts, bursts and submission do to the text that was typed;
      [ComposerPromises.Composing]: runs of inputs at any times, and what they promise.

    ** What the theorems show

    - Patches: a patch in the canonical printed form is parsed to what it denotes; the streaming parser gives what the
      batch parser gives, however the text is cut, and keeps its invariant; a search
      finds the first place of the strictest pass; replacements are those the chunks
      ask for, and applying them in the order of the code is one simultaneous splice
      and never panics; a successful application refines a map-level specification
      of the hunks; a delta marked exact, also after a failure in the middle, accounts
      for every change; a rejected patch changes nothing.  Resolved paths are absolute,
      normal, and mean what reading the path component by component means.
    - Policy: a check returns the strictest matching decision; adding an overlay never
      relaxes a decision; accepted policy files satisfy their own examples; a host
      executable matches only at a registered path; later network rules win.
    - Safety: no command is both safe and dangerous; a script is read whole, so that
      no command of it escapes the lists; approved git commands read only.
    - Streams: every parser, the byte adapter around them and the combined assistant
      parser give the same for every cut into chunks, and what they give is described
      on the whole text.
    - Agents: the counter is the number of open reservations and agents; the limit
      holds, also under every interleaving of the atomic operations; a dropped
      reservation is undone; paths form a tree.
    - Output: the buffer keeps exactly the two ends and counts exactly the rest.
    - Templates: rendering succeeds exactly when the values are those of the
      placeholders, and substitutes them.
    - Permissions: the access of a path is that of the most specific entry above it, the
      stricter one among equals; metadata stays protected unless named; full-disk access
      is what it says; merged and intersected profiles grant no more than both sides;
      denials survive every rebuilding; the writable roots and the denied reads handed to
      the sandboxes agree with the policy; every path of a policy stays absolute and
      normal; profiles survive their conversions.
    - Transcript: a prompt is the transcript with the outputs that its calls lack and without
      those whose call is missing; calls and outputs stay paired after trimming; a rollback stops exactly at a turn; truncation keeps the two ends
      within its budget; an injected fragment is never taken for a turn.
    - Rollouts: unless rollbacks drop every checkpoint, the backward scan and its replay give
      what a replay of the whole log gives; the fork positions are the turns of that replay; compaction keeps the newest
      messages within its budget.
    - Display: the incremental table scan agrees with the scan of the whole source; for
      any cut into deltas and any ticks the lines emitted are those of the finished
      answer; the counters stay in order under every operation; ticks drain the queues in
      order, and a severe backlog at once.
    - Network: a managed allowlist that users may not extend bounds what every configuration
      lets through; changes of the policy that run at once are not lost, and stay within the
      constraints; no door lets a request
      pass that the policy refuses, local hosts need an entry of their own, refusals are
      recorded, and the listeners stay on loopback.
    - Approvals: what runs without a question is allowed by rules or harmless under the
      policies; an accepted amendment settles its command; an attempt without the sandbox
      has consent, given in the call or remembered for the session; refusals end a call and registrations are released; in every
      interleaving of the handlers a host passes only when somebody approved it, it is
      decided once, and, while no handler is dropped, every request is answered.
    - Reviewer: only an answer that says so approves, everything else fails closed; every
      review is reported and counted once; the circuit breaker interrupts a turn exactly at
      the first refusal that crosses a limit; the words of the user come first in the
      prompt, within its budgets, and a shortened action is marked as such.  In every
      interleaving of the reviews each session is offered every entry of the transcript (what
      the budgets leave out is noted, and not offered again), none uses the shared session
      while another does, forks end with their review, and every review can finish: the
      deadline and the cancellation move it on wherever it waits.
    - Calls of patches: the changes shown for approval are those the patch makes, when no
      path is named twice; an approved patch writes only at paths that
      the policy allows.
    - Text area: each key of the editor does what it is for (types at the cursor, removes one
      step, a word, a part of the line, yanks, moves) and keeps every element that it does
      not remove with its text; no sequence of calls panics; a yank gives what the last kill
      took; the cursor is on the screen after every scroll.
    - Composer: in runs of characters, pastes, ticks and Enter, at any times, the text
      with its pastes followed by what is held is what was typed; no input of a run panics,
      and Enter submits exactly what was typed, trimmed; a message that cannot be sent is
      put back; a quiet tick leaves nothing held; mentions survive the history.  The runs
      leave out Enter while a first character is held and pastes of the terminal while
      characters are held, for which two lemmas show that characters are lost, and keys while
      a popup or the search is open.

    ** Conventions, bounds and parameters

    A [char] is a number, a [str] a list of them; positions that only slice are list
    positions, byte lengths are computed where they are observable.  Errors are values
    of [result] or of sum types.  Recursion is structural, except the loop of the inline
    tag parser (fuel: buffered length plus one, [Inline.drain_fuel]), the loop of the
    template parser (source length plus one, [Template.parse_loop_fuel]), the walks over
    syntax trees (fuel: number of nodes plus one, [Shell.walk_spec]) and shell detection
    (fuel: length of the path, which shrinks at each call), and the loops of the text area
    that widen a range over the elements it touches (fuel: two per element plus two; the
    second pass already changes nothing), and the walks of the composer over texts and
    histories (fuel: the length of the text, the offsets that are left).  Times are
    nanoseconds, as arguments of the operations.  Counters of the registry
    wrap and counters of the buffer saturate at 64 bits.  Arguments stand for what is not in the
    repository: the home and current directories, the file system and the writers
    (with their laws), shlex, the calls a Starlark script makes, JSON strings, random
    choice, thread identifiers, the tree-sitter parser, the answers of the system about
    paths ([Env]), glob matchers, recognisers of JSON and XML, serialised lengths, image
    sizes, the format of floating-point numbers, the Markdown renderer, the glob engine, the
    host parser of the url crate, DNS, the certificate store, the reloader of the proxy's
    configuration, what tools run, the answers of hooks, reviewers and users, the tree-sitter
    query for patch scripts, the printer of diffs, the reading of images, file URLs and
    shell words by the composer ([Desktop]), the widgets of its popups ([PopupWidgets]) and
    what they do with keys, and
    the segmentation, width and wrapping of Unicode text (with their laws, which a concrete
    instance satisfies).  Token
    estimates use the floating-point operations of [SpecFloat]; sizes are [usize] or [i64]
    with their saturation.  Unix only: code under
    [cfg(windows)] is left out.

    ** Not modelled

    The asynchronous session loop, sockets and TLS, and persistence in files and SQLite:
    their logic lies in the runtimes and services they drive.  Configuration, the protocol
    and its JSON-RPC servers: derived serialisation.  The widgets of the terminal interface
    and their rendering, the completion popups of the composer and its external editor, the reading of key bindings from the configuration.  The clients of models, MCP, logins and
    connectors: calls of external services.  The system calls of the sandboxes and the
    code for Windows, which the modelled platform leaves out.  The arguments of the
    command-line programs, the standalone executable of [apply-patch] among them. *)
From Stdlib Require Export Ascii.
From stdpp Require Export prelude strings pretty list.

(** * Results

    Rust's [Result<T, E>], with the error type first so that [result E] is a
    monad for stdpp's [x ← e; k] notation; [?] in the source is that bind. *)
Inductive result (E T : Type) : Type :=
| Ok (value : T)
| Err (error : E).
Arguments Ok {E T} value.
Arguments Err {E T} error.

#[global] Instance result_ret E : MRet (result E) := fun _ x => Ok x.
#[global] Instance result_bind E : MBind (result E) :=
  fun _ _ f r => match r with Ok x => f x | Err e => Err e end.
#[global] Instance result_fmap E : FMap (result E) :=
  fun _ _ f r => match r with Ok x => Ok (f x) | Err e => Err e end.

#[global] Instance result_eq_dec `{EqDecision E, EqDecision T} : EqDecision (result E T).
Proof. solve_decision. Defined.

(** [Result::map_err]. *)
Definition map_err {E F T} (f : E -> F) (r : result E T) : result F T :=
  match r with Ok x => Ok x | Err e => Err (f e) end.

(** [Result::ok]. *)
Definition ok {E T} (r : result E T) : option T :=
  match r with Ok x => Some x | Err _ => None end.

(** [Option::ok_or]. *)
Definition ok_or {E T} (o : option T) (e : E) : result E T :=
  match o with Some x => Ok x | None => Err e end.

Definition is_ok {E T} (r : result E T) : bool :=
  match r with Ok _ => true | Err _ => false end.

(** [iter().map(f).collect::<Result<Vec<_>, _>>()]: stops at the first error. *)
Fixpoint try_map {A E B} (f : A -> result E B) (l : list A) : result E (list B) :=
  match l with
  | [] => Ok []
  | a :: l' => b ← f a; bs ← try_map f l'; Ok (b :: bs)
  end.

(** * Characters and strings

    A Rust [char] is a Unicode scalar value, an [N]; a [str] is the list of its
    scalar values.  String positions which the source uses only to slice are
    positions in that list; where a byte count is observable the UTF-8 length
    [Str.len] is used. *)
Abbreviation char := N (only parsing).
Abbreviation str := (list N).

Definition lit (s : string) : str := map N_of_ascii (String.list_ascii_of_string s).
Definition ch (a : ascii) : char := N_of_ascii a.
Arguments lit : simpl never.
Arguments ch : simpl never.

Declare Scope rust_scope.
Delimit Scope rust_scope with rust.
Notation "$ s" := (lit s%string) (at level 1, s at level 0, format "$ s") : rust_scope.
Open Scope rust_scope.

(** The double quote, which a string literal of this file cannot hold. *)
Definition dquote : char := 34%N.
Definition newline : char := 10%N.
Definition carriage_return : char := 13%N.

Module Str.

(** [char::is_whitespace]: the Unicode [White_Space] property. *)
Definition is_whitespace (c : char) : bool :=
  ((9 <=? c) && (c <=? 13) || (c =? 32) || (c =? 133) || (c =? 160) || (c =? 5760)
   || (8192 <=? c) && (c <=? 8202) || (c =? 8232) || (c =? 8233) || (c =? 8239)
   || (c =? 8287) || (c =? 12288))%N.

(** [char::is_ascii_digit], [is_ascii_alphanumeric], [to_ascii_lowercase]. *)
Definition is_ascii_digit (c : char) : bool := ((48 <=? c) && (c <=? 57))%N.
Definition is_ascii_alphanumeric (c : char) : bool :=
  (is_ascii_digit c || (65 <=? c) && (c <=? 90) || (97 <=? c) && (c <=? 122))%N.
Definition char_to_ascii_lowercase (c : char) : char :=
  (if (65 <=? c) && (c <=? 90) then c + 32 else c)%N.
Definition to_ascii_lowercase (s : str) : str := map char_to_ascii_lowercase s.
Definition eq_ignore_ascii_case (s t : str) : bool :=
  bool_decide (to_ascii_lowercase s = to_ascii_lowercase t).

(** [trim_start_matches], [trim_end_matches] with a character predicate. *)
Fixpoint trim_start_by (p : char -> bool) (s : str) : str :=
  match s with
  | [] => []
  | c :: s' => if p c then trim_start_by p s' else s
  end.
Fixpoint trim_end_by (p : char -> bool) (s : str) : str :=
  match s with
  | [] => []
  | c :: s' =>
      match trim_end_by p s' with
      | [] => if p c then [] else [c]
      | t => c :: t
      end
  end.
Definition trim_start (s : str) : str := trim_start_by is_whitespace s.
Definition trim_end (s : str) : str := trim_end_by is_whitespace s.
Definition trim (s : str) : str := trim_end (trim_start s).

Definition is_empty (s : str) : bool := match s with [] => true | _ => false end.

(** [str::strip_prefix], [strip_suffix], [starts_with], [ends_with]. *)
Fixpoint strip_prefix (p s : str) : option str :=
  match p, s with
  | [], _ => Some s
  | a :: p', b :: s' => if (a =? b)%N then strip_prefix p' s' else None
  | _ :: _, [] => None
  end.
Definition strip_suffix (p s : str) : option str :=
  reverse <$> strip_prefix (reverse p) (reverse s).
Definition starts_with (p s : str) : bool :=
  match strip_prefix p s with Some _ => true | None => false end.
Definition ends_with (p s : str) : bool :=
  match strip_suffix p s with Some _ => true | None => false end.

(** [str::find] of a substring: the position of the first occurrence. *)
Fixpoint find (needle s : str) : option nat :=
  if starts_with needle s then Some 0
  else match s with [] => None | _ :: s' => S <$> find needle s' end.
Definition contains (needle s : str) : bool :=
  match find needle s with Some _ => true | None => false end.
Definition contains_char (c : char) (s : str) : bool := existsb (N.eqb c) s.

(** [str::split] on a character: never empty. *)
Fixpoint split (c : char) (s : str) : list str :=
  match s with
  | [] => [[]]
  | x :: s' =>
      if (x =? c)%N then [] :: split c s'
      else match split c s' with h :: t => (x :: h) :: t | [] => [[x]] end
  end.
(** [str::split_once], [rsplit_once] on a character. *)
Fixpoint split_once (c : char) (s : str) : option (str * str) :=
  match s with
  | [] => None
  | x :: s' =>
      if (x =? c)%N then Some ([], s')
      else '(a, b) ← split_once c s'; Some (x :: a, b)
  end.
Definition rsplit_once (c : char) (s : str) : option (str * str) :=
  '(a, b) ← split_once c (reverse s); Some (reverse b, reverse a).
(** [str::split_once] on a substring. *)
Definition split_once_str (needle s : str) : option (str * str) :=
  i ← find needle s; Some (take i s, drop (i + length needle) s).

(** [str::lines]: the line terminator is [\n] or [\r\n], and a final line
    without terminator counts only when it is not empty. *)
Definition strip_cr (s : str) : str :=
  match strip_suffix [carriage_return] s with Some t => t | None => s end.
Fixpoint lines_of (pieces : list str) : list str :=
  match pieces with
  | [] => []
  | [last] => if is_empty last then [] else [last]
  | p :: rest => strip_cr p :: lines_of rest
  end.
Definition lines (s : str) : list str := lines_of (split newline s).

(** [slice::join]. *)
Fixpoint join (sep : str) (l : list str) : str :=
  match l with
  | [] => []
  | [x] => x
  | x :: l' => x ++ sep ++ join sep l'
  end.

(** [char::len_utf8] and [str::len]: sizes in bytes of the UTF-8 encoding. *)
Definition len_utf8 (c : char) : N :=
  (if c <? 128 then 1 else if c <? 2048 then 2 else if c <? 65536 then 3 else 4)%N.
Fixpoint len (s : str) : N :=
  match s with [] => 0%N | c :: s' => (len_utf8 c + len s')%N end.

(** [Display] of an unsigned integer. *)
Definition show_N (n : N) : str := lit (pretty n).
Definition show_nat (n : nat) : str := show_N (N.of_nat n).

(** ** Lemmas on strings *)

Lemma strip_prefix_Some p s r : strip_prefix p s = Some r <-> s = p ++ r.
Proof.
  revert s; induction p as [|a p IH]; intros s; simpl; [naive_solver|].
  destruct s as [|b s]; [naive_solver|].
  destruct (N.eqb_spec a b) as [->|Hne]; [|naive_solver].
  rewrite IH. naive_solver.
Qed.

Lemma strip_prefix_app p r : strip_prefix p (p ++ r) = Some r.
Proof. by apply strip_prefix_Some. Qed.

Lemma strip_suffix_Some p s r : strip_suffix p s = Some r <-> s = r ++ p.
Proof.
  unfold strip_suffix. rewrite fmap_Some. split.
  - intros (t & Ht & ->). apply strip_prefix_Some in Ht.
    rewrite <- (reverse_involutive s), Ht, reverse_app, reverse_involutive. done.
  - intros ->. exists (reverse r). rewrite reverse_involutive. split; [|done].
    rewrite reverse_app. apply strip_prefix_app.
Qed.

Lemma starts_with_spec p s : starts_with p s = true <-> p `prefix_of` s.
Proof.
  unfold starts_with. split.
  - destruct (strip_prefix p s) as [r|] eqn:E; [|done].
    intros _. apply strip_prefix_Some in E as ->. by exists r.
  - intros [r ->]. by rewrite strip_prefix_app.
Qed.

Lemma starts_with_false p s : starts_with p s = false <-> ~ p `prefix_of` s.
Proof. rewrite <- starts_with_spec. by destruct (starts_with p s). Qed.

Lemma ends_with_spec p s : ends_with p s = true <-> p `suffix_of` s.
Proof.
  unfold ends_with. split.
  - destruct (strip_suffix p s) as [r|] eqn:E; [|done].
    intros _. apply strip_suffix_Some in E as ->. by exists r.
  - intros [r ->]. destruct (strip_suffix p (r ++ p)) eqn:E; [done|].
    by rewrite (proj2 (strip_suffix_Some p (r ++ p) r) eq_refl) in E.
Qed.

Lemma is_empty_spec s : is_empty s = true <-> s = [].
Proof. by destruct s. Qed.

(** [find] returns the least position at which the needle occurs. *)
Lemma find_Some needle s i :
  find needle s = Some i <->
  needle `prefix_of` drop i s /\ i <= length s /\
  forall j, j < i -> ~ needle `prefix_of` drop j s.
Proof.
  revert i; induction s as [|c s IH]; intros i; simpl.
  - destruct (starts_with needle []) eqn:E.
    + apply starts_with_spec in E. split.
      * intros [= <-]. split_and!; [done|lia|intros j ?; lia].
      * intros (_ & ? & _). f_equal; lia.
    + apply starts_with_false in E. rewrite drop_nil. naive_solver.
  - destruct (starts_with needle (c :: s)) eqn:E.
    + apply starts_with_spec in E. split.
      * intros [= <-]. split_and!; [done|lia|intros j ?; lia].
      * intros (_ & _ & Hmin). destruct i; [done|].
        by destruct (Hmin 0 ltac:(lia)).
    + apply starts_with_false in E. rewrite fmap_Some. split.
      * intros (i' & Hi' & ->). apply IH in Hi' as (? & ? & Hmin).
        split_and!; [done|lia|]. intros [|j] ?; [done|]. apply Hmin. lia.
      * intros (Hp & ? & Hmin). destruct i as [|i]; [done|].
        exists i. split; [|done]. apply IH. split_and!; [done|lia|].
        intros j ?. apply (Hmin (S j)). lia.
Qed.

Lemma find_None needle s :
  find needle s = None <-> forall j, j <= length s -> ~ needle `prefix_of` drop j s.
Proof.
  induction s as [|c s IH]; simpl.
  - destruct (starts_with needle []) eqn:E.
    + apply starts_with_spec in E. split; [done|]. intros H. by destruct (H 0 ltac:(lia)).
    + apply starts_with_false in E. split; [|done]. intros _ j ?. by rewrite drop_nil.
  - destruct (starts_with needle (c :: s)) eqn:E.
    + apply starts_with_spec in E. split; [done|]. intros H. by destruct (H 0 ltac:(lia)).
    + apply starts_with_false in E. rewrite fmap_None, IH. split.
      * intros H [|j] ?; [done|]. apply H. lia.
      * intros H j ?. apply (H (S j)). lia.
Qed.

Lemma find_bound needle s i : find needle s = Some i -> i + length needle <= length s.
Proof.
  intros H. apply find_Some in H as ((r & Hr) & ? & _).
  apply (f_equal length) in Hr. rewrite length_drop, length_app in Hr. lia.
Qed.

Lemma split_ne c s : split c s <> [].
Proof. destruct s as [|x s]; simpl; [done|]. case_match; [done|]. by case_match. Qed.

Lemma split_app_sep c a b :
  c ∉ a -> split c (a ++ c :: b) = a :: split c b.
Proof.
  induction a as [|x a IH]; intros Hc; simpl.
  - by rewrite N.eqb_refl.
  - apply not_elem_of_cons in Hc as [Hx Ha].
    destruct (N.eqb_spec x c) as [->|_]; [done|]. by rewrite IH.
Qed.

Lemma split_no_sep c a : c ∉ a -> split c a = [a].
Proof.
  induction a as [|x a IH]; intros Hc; simpl; [done|].
  apply not_elem_of_cons in Hc as [Hx Ha].
  destruct (N.eqb_spec x c) as [->|_]; [done|]. by rewrite IH.
Qed.

(** Joining the pieces of a [split] with the separator gives the string back,
    and no piece holds the separator. *)
Lemma join_split c s : join [c] (split c s) = s.
Proof.
  induction s as [|x s IH]; simpl; [done|].
  destruct (N.eqb_spec x c) as [->|_].
  - destruct (split c s) as [|h t] eqn:E; [by destruct (split_ne c s)|].
    simpl in *. by rewrite IH.
  - destruct (split c s) as [|h t] eqn:E; [by destruct (split_ne c s)|].
    destruct t; simpl in *; by rewrite IH.
Qed.

Lemma split_pieces c s : Forall (fun p => c ∉ p) (split c s).
Proof.
  induction s as [|x s IH]; simpl.
  - apply Forall_singleton, not_elem_of_nil.
  - destruct (N.eqb_spec x c) as [->|Hne].
    + constructor; [apply not_elem_of_nil|done].
    + destruct (split c s) as [|h t] eqn:E.
      * constructor; [|done]. rewrite list_elem_of_singleton. congruence.
      * inversion IH; subst. constructor; [|done]. apply not_elem_of_cons. by split.
Qed.

Lemma split_join c ls :
  ls <> [] -> Forall (fun p => c ∉ p) ls -> split c (join [c] ls) = ls.
Proof.
  induction ls as [|a ls IH]; [done|]. intros _ Hls. inversion Hls; subst.
  destruct ls as [|b ls]; simpl; [by apply split_no_sep|].
  rewrite split_app_sep by done. f_equal. by apply IH.
Qed.

Lemma split_app c a b : split c (a ++ c :: b) = split c a ++ split c b.
Proof.
  induction a as [|x a IH]; simpl; [by rewrite N.eqb_refl|].
  rewrite IH. destruct (x =? c)%N; [done|].
  destruct (split c a) as [|h t] eqn:E; [by destruct (split_ne c a)|done].
Qed.

Lemma join_snoc sep ls l : ls <> [] -> join sep (ls ++ [l]) = join sep ls ++ sep ++ l.
Proof.
  induction ls as [|a ls IH]; [done|]. intros _. destruct ls as [|b ls]; [done|].
  change (a ++ sep ++ join sep ((b :: ls) ++ [l]) = (a ++ sep ++ join sep (b :: ls)) ++ sep ++ l).
  rewrite IH by done. by rewrite <- !app_assoc.
Qed.

Lemma trim_start_by_nil_iff p s : trim_start_by p s = [] <-> Forall (fun c => p c = true) s.
Proof.
  induction s as [|c s IH]; simpl; [split; [constructor|done]|].
  rewrite Forall_cons, <- IH. destruct (p c); naive_solver.
Qed.

Lemma trim_end_by_nil_iff p s : trim_end_by p s = [] <-> Forall (fun c => p c = true) s.
Proof.
  induction s as [|c s IH]; simpl; [split; [constructor|done]|].
  rewrite Forall_cons, <- IH.
  destruct (trim_end_by p s); [destruct (p c); naive_solver|naive_solver].
Qed.

(** What [trim_start]/[trim_end] remove is whitespace, and nothing they keep at
    the trimmed end is. *)
Lemma trim_start_by_spec p s :
  exists w, s = w ++ trim_start_by p s /\ Forall (fun c => p c = true) w.
Proof.
  induction s as [|c s IH]; simpl; [by exists []|].
  destruct (p c) eqn:Hc; [|by exists []].
  destruct IH as (w & Hw & Hp). exists (c :: w). split; [|by constructor].
  simpl. by f_equal.
Qed.

Lemma trim_end_by_spec p s :
  exists w, s = trim_end_by p s ++ w /\ Forall (fun c => p c = true) w.
Proof.
  induction s as [|c s IH]; simpl; [by exists []|].
  destruct IH as (w & Hw & Hp).
  destruct (trim_end_by p s) as [|d t] eqn:E.
  - destruct (p c) eqn:Hc.
    + exists (c :: s). split; [done|]. constructor; [done|]. by rewrite Hw.
    + exists w. simpl in *. by rewrite Hw.
  - exists w. split; [|done]. simpl in *. by rewrite Hw.
Qed.

Lemma trim_end_by_cons_keep p c s :
  p c = false -> trim_end_by p (c :: s) = c :: trim_end_by p s.
Proof. intros Hc. simpl. rewrite Hc. by destruct (trim_end_by p s). Qed.

Lemma trim_end_head c s : trim_end (c :: s) = [] \/ exists t, trim_end (c :: s) = c :: t.
Proof.
  unfold trim_end. simpl. destruct (trim_end_by is_whitespace s); [|by right; eexists].
  destruct (is_whitespace c); [by left|by right; eexists].
Qed.

Lemma trim_end_cons_keep c s : is_whitespace c = false -> trim_end (c :: s) = c :: trim_end s.
Proof. apply trim_end_by_cons_keep. Qed.

Lemma trim_cons_keep c s : is_whitespace c = false -> trim (c :: s) = c :: trim_end s.
Proof.
  intros Hc. unfold trim, trim_start. simpl. rewrite Hc. by apply trim_end_cons_keep.
Qed.

Lemma trim_end_by_app_keep p a b :
  trim_end_by p b <> [] -> trim_end_by p (a ++ b) = a ++ trim_end_by p b.
Proof.
  intros Hb. induction a as [|c a IH]; [done|]. simpl. rewrite IH.
  destruct (a ++ trim_end_by p b) eqn:E; [|done].
  apply app_eq_nil in E as [_ ?]. done.
Qed.

Lemma trim_end_by_snoc_keep p s c : p c = false -> trim_end_by p (s ++ [c]) = s ++ [c].
Proof.
  intros Hc. rewrite trim_end_by_app_keep; simpl; rewrite Hc; done.
Qed.

Lemma trim_end_by_app_drop p a b :
  Forall (fun c => p c = true) b -> trim_end_by p (a ++ b) = trim_end_by p a.
Proof.
  intros Hb. induction a as [|c a IH]; simpl; [by apply trim_end_by_nil_iff|].
  by rewrite IH.
Qed.

Lemma trim_start_app a b : trim_start a <> [] -> trim_start (a ++ b) = trim_start a ++ b.
Proof.
  unfold trim_start. induction a as [|c a IH]; simpl; [done|].
  destruct (is_whitespace c); [done|]. done.
Qed.
Lemma trim_start_app_drop a b :
  Forall (fun c => is_whitespace c = true) a -> trim_start (a ++ b) = trim_start b.
Proof. unfold trim_start. induction 1 as [|c a Hc _ IH]; simpl; [done|]. by rewrite Hc. Qed.

Lemma trim_end_by_idemp p s : trim_end_by p (trim_end_by p s) = trim_end_by p s.
Proof.
  destruct (trim_end_by_spec p s) as (w & Hs & Hw).
  rewrite Hs at 2. by rewrite trim_end_by_app_drop.
Qed.

Lemma len_app a b : len (a ++ b) = (len a + len b)%N.
Proof. induction a as [|c a IH]; simpl; [done|]. rewrite IH. lia. Qed.

Lemma len_utf8_bounds c : (1 <= len_utf8 c <= 4)%N.
Proof. unfold len_utf8. repeat case_match; lia. Qed.

Lemma len_nil_iff s : len s = 0%N <-> s = [].
Proof.
  split; [|by intros ->]. destruct s as [|c s]; [done|]. simpl.
  pose proof (len_utf8_bounds c). lia.
Qed.

Lemma len_ge_length s : (N.of_nat (length s) <= len s)%N.
Proof.
  induction s as [|c s IH]; simpl; [done|]. pose proof (len_utf8_bounds c). lia.
Qed.

End Str.

(** The order of strings and of lists of them: by bytes, which for UTF-8 is by scalar
    values. *)
Fixpoint lex_leb {A} (lt eq : A -> A -> bool) (a b : list A) : bool :=
  match a, b with
  | [], _ => true
  | _ :: _, [] => false
  | x :: a', y :: b' => lt x y || eq x y && lex_leb lt eq a' b'
  end.
Definition str_leb : str -> str -> bool := lex_leb N.ltb N.eqb.
Definition str_ltb (a b : str) : bool := str_leb a b && negb (bool_decide (a = b)).

(** ** Lemmas on results and options *)

Lemma bind_Ok {E A B} (r : result E A) (f : A -> result E B) b :
  r ≫= f = Ok b <-> exists a, r = Ok a /\ f a = Ok b.
Proof. destruct r; simpl; naive_solver. Qed.

Lemma bind_Err {E A B} (r : result E A) (f : A -> result E B) e :
  r ≫= f = Err e <-> r = Err e \/ exists a, r = Ok a /\ f a = Err e.
Proof. destruct r; simpl; naive_solver. Qed.

Lemma fmap_Ok {E A B} (f : A -> B) (r : result E A) b :
  f <$> r = Ok b <-> exists a, r = Ok a /\ b = f a.
Proof. destruct r; simpl; naive_solver. Qed.

Lemma try_map_Ok {A E B} (f : A -> result E B) l bs :
  try_map f l = Ok bs <-> Forall2 (fun a b => f a = Ok b) l bs.
Proof.
  revert bs; induction l as [|a l IH]; intros bs; simpl.
  - split; [intros [= <-]; constructor|by inversion 1].
  - rewrite bind_Ok. setoid_rewrite bind_Ok. split.
    + intros (b & ? & bs' & ?%IH & [= <-]). by constructor.
    + inversion 1 as [|? b ? bs']; subst. exists b. split; [done|].
      exists bs'. split; [by apply IH|done].
Qed.

(** * Boolean predicates up to the order of a list *)

Lemma flat_map_perm {A B} (g : A -> list B) l l' : l ≡ₚ l' -> flat_map g l ≡ₚ flat_map g l'.
Proof.
  induction 1 as [|x l l' _ IH|x y l|l1 l2 l3 _ IH1 _ IH2]; simpl; [done| | |by rewrite IH1].
  - by rewrite IH.
  - by rewrite !app_assoc, (Permutation_app_comm (g y)).
Qed.
Lemma forallb_perm {A} (f : A -> bool) l l' : l ≡ₚ l' -> forallb f l = forallb f l'.
Proof.
  induction 1 as [|x l l' _ IH|x y l|l1 l2 l3 _ IH1 _ IH2]; simpl; [done| | |congruence].
  - by rewrite IH.
  - by destruct (f x), (f y).
Qed.
Lemma filterb_perm {A} (f : A -> bool) l l' : l ≡ₚ l' -> List.filter f l ≡ₚ List.filter f l'.
Proof.
  induction 1 as [|x l l' _ IH|x y l|l1 l2 l3 _ IH1 _ IH2]; simpl; [done| | |by rewrite IH1].
  - destruct (f x); by rewrite IH.
  - destruct (f x), (f y); try done. apply perm_swap.
Qed.

(** * Automation *)

(** Case analysis on the scrutinees of the goal and of a hypothesis, with the
    equations kept and the impossible cases closed. *)
Ltac case_all :=
  repeat (case_match; simplify_eq/=; try done).
Ltac case_all_in H :=
  repeat (simplify_eq/=; try done;
          match type of H with
          | context [match ?x with _ => _ end] => destruct x eqn:?
          end); simplify_eq/=; try done.

(** Inverts a chain of binds that returned [Ok]. *)
Ltac inv_bind :=
  repeat match goal with
  | H : mbind _ _ = Ok _ |- _ =>
      let x := fresh "x" in let Hx := fresh "Hx" in
      apply bind_Ok in H; destruct H as (x & Hx & H)
  | H : Ok _ = Ok _ |- _ => injection H as H; subst
  | H : mret _ = Ok _ |- _ => injection H as H; subst
  end.

(** Operations on strings are opened by their lemmas, not by [simpl]. *)
Arguments Str.strip_prefix : simpl never.
Arguments Str.strip_suffix : simpl never.
Arguments Str.starts_with : simpl never.
Arguments Str.ends_with : simpl never.
Arguments Str.find : simpl never.
Arguments Str.trim : simpl never.
Arguments Str.trim_start : simpl never.
Arguments Str.trim_end : simpl never.

Create HintDb rust.
Create Rewrite HintDb rust.
#[export] Hint Resolve Str.strip_prefix_app Str.len_utf8_bounds Str.split_ne : rust.
#[export] Hint Rewrite Str.join_split Str.len_app : rust.

(** * Input and output errors

    [std::io::Error]: its kind, which the code branches on, and its message. *)
Module Io.

Inductive ErrorKind :=
| NotFound
| PermissionDenied
| AlreadyExists
| InvalidInput
| InvalidData
| NotADirectory
| IsADirectory
| DirectoryNotEmpty
| StorageFull
| Unsupported
| Other.

Record Error := new { kind : ErrorKind; message : str }.

#[global] Instance kind_eq_dec : EqDecision ErrorKind.
Proof. solve_decision. Defined.
#[global] Instance error_eq_dec : EqDecision Error.
Proof. solve_decision. Defined.

End Io.
