(* ===== verification/SeekSequence.v ===== *)
(** The fuzzy line search of the patch engine
    ([codex-rs/apply-patch/src/seek_sequence.rs]): four passes of decreasing
    strictness over the windows of a file that could hold the pattern. *)
From S2P Require Import Prelude.

Module Seek.

(** ** Definitions *)

(** The punctuation table of [normalise]. *)
Definition normalise_char (c : char) : char :=
  (if (8208 <=? c) && (c <=? 8213) || (c =? 8722) then 45
   else if (8216 <=? c) && (c <=? 8219) then 39
   else if (8220 <=? c) && (c <=? 8223) then 34
   else if (c =? 160) || (8194 <=? c) && (c <=? 8202) || (c =? 8239) || (c =? 8287)
           || (c =? 12288) then 32
   else c)%N.
Definition normalise (s : str) : str := map normalise_char (Str.trim s).

(** One inner loop: every pattern line equals the file line below it once both
    went through [f]; [window] is the file from the candidate line on. *)
Fixpoint lines_match (f : str -> str) (window pattern : list str) : bool :=
  match pattern, window with
  | [], _ => true
  | p :: pattern', l :: window' =>
      if decide (f l = f p) then lines_match f window' pattern' else false
  | _ :: _, [] => false
  end.

(** One outer loop [for i in a..=b]. *)
Fixpoint first_match (test : nat -> bool) (range : list nat) : option nat :=
  match range with
  | [] => None
  | i :: range' => if test i then Some i else first_match test range'
  end.
Definition inclusive_range (a b : nat) : list nat := seq a (S b - a).

Definition pass (f : str -> str) (lines pattern : list str) (search_start : nat) : option nat :=
  first_match (fun i => lines_match f (drop i lines) pattern)
              (inclusive_range search_start (length lines - length pattern)).

Definition search_start_of (lines pattern : list str) (start : nat) (eof : bool) : nat :=
  if eof && (length pattern <=? length lines) then length lines - length pattern else start.

Definition seek_sequence (lines pattern : list str) (start : nat) (eof : bool) : option nat :=
  match pattern with
  | [] => Some start
  | _ =>
      if length lines <? length pattern then None
      else
        let search_start := search_start_of lines pattern start eof in
        match pass id lines pattern search_start with
        | Some i => Some i
        | None =>
            match pass Str.trim_end lines pattern search_start with
            | Some i => Some i
            | None =>
                match pass Str.trim lines pattern search_start with
                | Some i => Some i
                | None => pass normalise lines pattern search_start
                end
            end
        end
  end.

(** ** The specification

    [matches_at f lines pattern i]: the pattern lies inside the file at line
    [i], up to [f]. *)
Definition matches_at (f : str -> str) (lines pattern : list str) (i : nat) : Prop :=
  i + length pattern <= length lines /\
  f <$> take (length pattern) (drop i lines) = f <$> pattern.

(** ** Lemmas *)

Lemma lines_match_spec f window pattern :
  lines_match f window pattern = true <->
  length pattern <= length window /\ f <$> take (length pattern) window = f <$> pattern.
Proof.
  revert window; induction pattern as [|p ps IH]; intros [|l ls]; csimpl.
  - split; [intros _; split; [lia|done]|done].
  - split; [intros _; split; [lia|done]|done].
  - split; [done|]. intros [? _]; lia.
  - destruct (decide (f l = f p)) as [Hlp|Hlp].
    + rewrite IH, Hlp. split; [intros [? H]; split; [lia|by rewrite H]|].
      intros [? [= ?]]. split; [lia|done].
    + split; [done|]. intros [_ [= ? _]]. done.
Qed.

Lemma first_match_Some test a n i :
  first_match test (seq a n) = Some i <->
  a <= i < a + n /\ test i = true /\ forall j, a <= j < i -> test j = false.
Proof.
  revert a; induction n as [|n IH]; intros a; simpl.
  - split; [done|]. intros [? _]; lia.
  - destruct (test a) eqn:Ha.
    + split.
      * intros [= <-]. split_and!; [lia|lia|done|intros j ?; lia].
      * intros (? & ? & Hmin). f_equal.
        destruct (decide (a = i)) as [|Hne]; [done|].
        rewrite Hmin in Ha by lia. done.
    + rewrite IH. split.
      * intros (? & ? & Hmin). split_and!; [lia|lia|done|].
        intros j ?. destruct (decide (j = a)) as [->|]; [done|]. apply Hmin. lia.
      * intros (? & Hi & Hmin). destruct (decide (i = a)) as [->|]; [congruence|].
        split_and!; [lia|lia|done|]. intros j ?. apply Hmin. lia.
Qed.

Lemma first_match_None test a n :
  first_match test (seq a n) = None <-> forall j, a <= j < a + n -> test j = false.
Proof.
  revert a; induction n as [|n IH]; intros a; simpl.
  - split; [|done]. intros _ j ?; lia.
  - destruct (test a) eqn:Ha.
    + split; [done|]. intros H. rewrite H in Ha by lia. done.
    + rewrite IH. split; intros H j ?.
      * destruct (decide (j = a)) as [->|]; [done|]. apply H. lia.
      * apply H. lia.
Qed.

Lemma window_spec f lines pattern i :
  i <= length lines -> 0 < length pattern ->
  lines_match f (drop i lines) pattern = true <-> matches_at f lines pattern i.
Proof.
  intros. rewrite lines_match_spec, length_drop. unfold matches_at.
  split; intros [? ?]; split; try done; lia.
Qed.

(** One pass returns the first admissible window that matches up to [f]. *)
Lemma pass_Some f lines pattern a i :
  0 < length pattern <= length lines ->
  pass f lines pattern a = Some i <->
  a <= i /\ matches_at f lines pattern i /\
  forall j, a <= j < i -> ~ matches_at f lines pattern j.
Proof.
  intros Hlen. unfold pass, inclusive_range. rewrite first_match_Some. split.
  - intros (? & Hi & Hmin). apply window_spec in Hi; [|lia|lia].
    split_and!; [lia|done|]. intros j ? Hj.
    apply window_spec in Hj; [|destruct Hi; lia|lia]. rewrite Hmin in Hj by lia. done.
  - intros (? & Hi & Hmin). destruct Hi as [Hb Hi].
    split_and!; [lia|lia|by apply window_spec; [lia|lia|split]|].
    intros j ?. apply not_true_is_false. intros Hj.
    apply window_spec in Hj; [|lia|lia]. by apply (Hmin j).
Qed.

Lemma pass_None f lines pattern a :
  0 < length pattern <= length lines ->
  pass f lines pattern a = None <->
  forall j, a <= j -> ~ matches_at f lines pattern j.
Proof.
  intros Hlen. unfold pass, inclusive_range. rewrite first_match_None. split.
  - intros H j ? Hj. pose proof (proj1 Hj).
    assert (lines_match f (drop j lines) pattern = true) as Ht
      by (apply window_spec; [lia|lia|done]).
    rewrite H in Ht by lia. done.
  - intros H j ?. apply not_true_is_false. intros Hj.
    apply window_spec in Hj; [|lia|lia]. apply (H j); [lia|done].
Qed.

(** Each pass is more permissive than the one before it. *)
Definition coarser (f g : str -> str) : Prop := forall s t, f s = f t -> g s = g t.

Lemma trim_from_trim_end s : Str.trim s = Str.trim_start (Str.trim_end s).
Proof.
  unfold Str.trim, Str.trim_start, Str.trim_end.
  induction s as [|c s IH]; simpl; [done|].
  destruct (Str.is_whitespace c) eqn:Hc.
  - rewrite IH. destruct (Str.trim_end_by _ s) eqn:E; simpl; [done|].
    by rewrite Hc.
  - simpl. destruct (Str.trim_end_by _ s) eqn:E; rewrite ?Hc; simpl; by rewrite Hc.
Qed.

Lemma coarser_id f : coarser id f.
Proof. intros s t H. unfold id in H. by rewrite H. Qed.
Lemma coarser_refl f : coarser f f.
Proof. by intros s t H. Qed.
Lemma coarser_trim_end_trim : coarser Str.trim_end Str.trim.
Proof. intros s t H. rewrite !trim_from_trim_end. congruence. Qed.
Lemma coarser_trim_normalise : coarser Str.trim normalise.
Proof. intros s t H. unfold normalise. congruence. Qed.
Lemma coarser_trim_end_normalise : coarser Str.trim_end normalise.
Proof. intros s t H. by apply coarser_trim_normalise, coarser_trim_end_trim. Qed.

Lemma fmap_coarser f g (l k : list str) : coarser f g -> f <$> l = f <$> k -> g <$> l = g <$> k.
Proof.
  intros Hfg. revert k; induction l as [|a l IH]; intros [|b k]; simpl; try done.
  intros [= ? ?]. f_equal; [by apply Hfg|by apply IH].
Qed.

Lemma matches_at_coarser f g lines pattern i :
  coarser f g -> matches_at f lines pattern i -> matches_at g lines pattern i.
Proof. intros Hfg [? ?]. split; [done|]. by apply (fmap_coarser f). Qed.

#[export] Hint Resolve coarser_id coarser_refl coarser_trim_end_trim coarser_trim_normalise
  coarser_trim_end_normalise : rust.

Lemma search_start_of_eof lines pattern s1 s2 :
  length pattern <= length lines ->
  search_start_of lines pattern s1 true = search_start_of lines pattern s2 true.
Proof. intros ?. unfold search_start_of. by rewrite (proj2 (Nat.leb_le _ _)). Qed.

(** The result of [seek_sequence] is the result of the strictest pass that has one. *)
Lemma seek_sequence_cases lines pattern start eof :
  0 < length pattern <= length lines ->
  seek_sequence lines pattern start eof =
  let a := search_start_of lines pattern start eof in
  match pass id lines pattern a with
  | Some i => Some i
  | None => match pass Str.trim_end lines pattern a with
            | Some i => Some i
            | None => match pass Str.trim lines pattern a with
                      | Some i => Some i
                      | None => pass normalise lines pattern a
                      end
            end
  end.
Proof.
  intros [? ?]. unfold seek_sequence. destruct pattern; [simpl in *; lia|].
  destruct (Nat.ltb_spec (length lines) (length (l :: pattern))); [lia|done].
Qed.

Lemma seek_sequence_sound_aux lines pattern start eof i :
  0 < length pattern ->
  seek_sequence lines pattern start eof = Some i ->
  length pattern <= length lines /\
  search_start_of lines pattern start eof <= i /\
  matches_at normalise lines pattern i.
Proof.
  intros Hpos Hs.
  assert (length pattern <= length lines) as Hle.
  { unfold seek_sequence in Hs. destruct pattern; [simpl in *; lia|].
    destruct (Nat.ltb_spec (length lines) (length (l :: pattern))); [done|lia]. }
  split; [done|]. rewrite seek_sequence_cases in Hs by lia. simpl in Hs.
  case_all_in Hs;
    match goal with H : pass ?f _ _ _ = Some _ |- _ => apply pass_Some in H end;
    try lia; destruct_and?; (split; [done|]);
    (eapply matches_at_coarser; [|eassumption]); auto with rust.
Qed.

(** Bounds used by the callers: the matched window lies inside the file. *)
Lemma seek_sequence_bound lines pattern start eof i :
  start <= length lines ->
  seek_sequence lines pattern start eof = Some i ->
  i + length pattern <= length lines.
Proof.
  intros Hs H. destruct pattern as [|p ps].
  - injection H as <-. simpl. lia.
  - apply seek_sequence_sound_aux in H as (? & ? & [? _]); simpl in *; lia.
Qed.

(** ** Properties *)

(** A match reported for a non-empty pattern lies inside the file, at or
    after the line the search started from, and its lines equal the pattern's
    after trimming and Unicode-punctuation normalisation. *)
Theorem seek_sequence_sound lines pattern start eof i
    (Hp : 0 < length pattern) (Hs : seek_sequence lines pattern start eof = Some i) :
  i + length pattern <= length lines /\
  search_start_of lines pattern start eof <= i /\
  normalise <$> take (length pattern) (drop i lines) = normalise <$> pattern.
Proof. apply seek_sequence_sound_aux in Hs as (? & ? & [? ?]); [by split_and!|done]. Qed.

Lemma seek_sequence_sound_witness :
  seek_sequence [$"a"; $"  b "; $"c"] [$"b"; $"c"] 0 false = Some 1 /\
  1 + 2 <= 3 /\ normalise <$> [$"  b "; $"c"] = normalise <$> [$"b"; $"c"].
Proof.
  split; [vm_compute; reflexivity|].
  destruct (seek_sequence_sound [$"a"; $"  b "; $"c"] [$"b"; $"c"] 0 false 1
              ltac:(simpl; lia) ltac:(vm_compute; reflexivity)) as (H1 & _ & H2).
  exact (conj H1 H2).
Defined.

(** The search is complete and prefers the strictest reading: it fails only
    when no window from the start line on matches even after normalisation, and
    when some window matches exactly the result is the first exact match, whatever
    looser matches precede it. *)
Theorem seek_sequence_complete lines pattern start eof
    (Hp : 0 < length pattern <= length lines) :
  let a := search_start_of lines pattern start eof in
  (seek_sequence lines pattern start eof = None <->
   forall j, a <= j -> ~ matches_at normalise lines pattern j) /\
  (forall i, a <= i -> matches_at id lines pattern i ->
     (forall j, a <= j < i -> ~ matches_at id lines pattern j) ->
     seek_sequence lines pattern start eof = Some i).
Proof.
  intros a. rewrite !seek_sequence_cases by lia. simpl. fold a. split.
  - split.
    + intros H. case_all_in H. by apply pass_None.
    + intros H.
      assert (forall f, coarser f normalise -> pass f lines pattern a = None) as Hf.
      { intros f Hf. apply pass_None; [done|]. intros j ? Hj.
        apply (H j); [done|]. by eapply matches_at_coarser. }
      rewrite !Hf by auto with rust. done.
  - intros i ? ? ?. by rewrite (proj2 (pass_Some id lines pattern a i Hp)).
Qed.

Lemma seek_sequence_complete_witness :
  seek_sequence [$" x"; $"x"] [$"x"] 0 false = Some 1.
Proof.
  destruct (seek_sequence_complete [$" x"; $"x"] [$"x"] 0 false ltac:(simpl; lia))
    as [_ H].
  apply H; [unfold search_start_of; simpl; lia|split; [simpl; lia|reflexivity]|].
  intros [|j] Hj [_ Hm]; [discriminate Hm|lia].
Defined.

(** With the end-of-file flag the line the search is asked to start from
    has no influence: only the window that ends the file is tried, so a pattern
    that occurs only earlier is not found. *)
Theorem seek_sequence_eof_no_fallback lines pattern start i
    (Hp : 0 < length pattern) (Hs : seek_sequence lines pattern start true = Some i) :
  i = length lines - length pattern /\
  forall start', seek_sequence lines pattern start' true = Some i.
Proof.
  pose proof (seek_sequence_sound_aux _ _ _ _ _ Hp Hs) as (Hl & Hi & [Hb _]).
  split.
  - unfold search_start_of in Hi. rewrite (proj2 (Nat.leb_le _ _) Hl) in Hi. simpl in Hi. lia.
  - intros start'. rewrite <- Hs, !seek_sequence_cases by lia.
    by rewrite (search_start_of_eof _ _ start' start).
Qed.

Lemma seek_sequence_eof_no_fallback_witness :
  seek_sequence [$"a"; $"b"] [$"b"] 0 true = Some 1 /\ (1 = 2 - 1 /\
  (forall start', seek_sequence [$"a"; $"b"] [$"b"] start' true = Some 1)) /\
  seek_sequence [$"a"; $"b"] [$"a"] 0 true = None.
Proof.
  split; [vm_compute; reflexivity|]. split; [|vm_compute; reflexivity].
  apply (seek_sequence_eof_no_fallback [$"a"; $"b"] [$"b"] 0 1);
    [simpl; lia|vm_compute; reflexivity].
Defined.

End Seek.
