(* ===== verification/PatchParser.v ===== *)
(** The batch parser of the patch language
    ([codex-rs/apply-patch/src/parser.rs]): markers, hunks, the strict and the
    lenient boundary checks, and the hunk and chunk loops.  The second half
    states the documented grammar as a printer and proves that what it prints
    parses back. *)
From S2P Require Import Prelude.

Module Patch.

(** ** Data *)

Definition BEGIN_PATCH_MARKER : str := $"*** Begin Patch".
Definition ENVIRONMENT_ID_MARKER : str := $"*** Environment ID: ".
Definition END_PATCH_MARKER : str := $"*** End Patch".
Definition ADD_FILE_MARKER : str := $"*** Add File: ".
Definition DELETE_FILE_MARKER : str := $"*** Delete File: ".
Definition UPDATE_FILE_MARKER : str := $"*** Update File: ".
Definition MOVE_TO_MARKER : str := $"*** Move to: ".
Definition EOF_MARKER : str := $"*** End of File".
Definition CHANGE_CONTEXT_MARKER : str := $"@@ ".
Definition EMPTY_CHANGE_CONTEXT_MARKER : str := $"@@".

Inductive ParseError :=
| InvalidPatchError (message : str)
| InvalidHunkError (message : str) (line_number : nat).

Record UpdateFileChunk := mkChunk {
  change_context : option str;
  old_lines : list str;
  new_lines : list str;
  is_end_of_file : bool
}.

Inductive Hunk :=
| AddFile (path contents : str)
| DeleteFile (path : str)
| UpdateFile (path : str) (move_path : option str) (chunks : list UpdateFileChunk).

Record ApplyPatchArgs := mkArgs {
  patch : str;
  hunks : list Hunk;
  workdir : option str;
  environment_id : option str
}.

Inductive ParseMode := Strict | Lenient.

#[global] Instance ParseError_eq_dec : EqDecision ParseError.
Proof. solve_decision. Defined.
#[global] Instance UpdateFileChunk_eq_dec : EqDecision UpdateFileChunk.
Proof. solve_decision. Defined.
#[global] Instance Hunk_eq_dec : EqDecision Hunk.
Proof. solve_decision. Defined.

(** [Hunk::path]: the move destination of a rename, else the path. *)
Definition hunk_path (h : Hunk) : str :=
  match h with
  | AddFile p _ => p
  | DeleteFile p => p
  | UpdateFile _ (Some p) _ => p
  | UpdateFile p None _ => p
  end.

(** The path [Hunk::resolve_path] resolves: the source of a rename. *)
Definition hunk_source_path (h : Hunk) : str :=
  match h with
  | UpdateFile p _ _ => p
  | AddFile _ _ | DeleteFile _ => hunk_path h
  end.

(** ** Messages *)

Definition quoted (s : str) : str := $"'" ++ s ++ $"'".
Definition msg_first_line : str := $"The first line of the patch must be '*** Begin Patch'".
Definition msg_last_line : str := $"The last line of the patch must be '*** End Patch'".
Definition msg_no_lines : str := $"Update hunk does not contain any lines".
Definition msg_bad_header (line : str) : str :=
  quoted line ++ $" is not a valid hunk header. Valid hunk headers: '*** Add File: {path}', '*** Delete File: {path}', '*** Update File: {path}'".
Definition msg_empty_update (path : str) : str :=
  $"Update file hunk for path " ++ quoted path ++ $" is empty".
Definition msg_expected_context (line : str) : str :=
  $"Expected update hunk to start with a @@ context marker, got: " ++ quoted line.
Definition msg_unexpected_line (line : str) : str :=
  $"Unexpected line found in update hunk: " ++ quoted line
  ++ $". Every line should start with ' ' (context line), '+' (added line), or '-' (removed line)".

(** ** The parser *)

(** The body loop of [parse_update_file_chunk]: the lines read so far are in
    [chunk], [parsed_lines] counts them.  [line_number] is the function's. *)
Fixpoint chunk_body (lines : list str) (line_number parsed_lines : nat)
    (chunk : UpdateFileChunk) : result ParseError (UpdateFileChunk * nat) :=
  match lines with
  | [] => Ok (chunk, parsed_lines)
  | line :: lines' =>
      if decide (line = EOF_MARKER) then
        if parsed_lines =? 0 then Err (InvalidHunkError msg_no_lines (line_number + 1))
        else Ok (mkChunk (change_context chunk) (old_lines chunk) (new_lines chunk) true,
                 parsed_lines + 1)
      else
        let next old new :=
          chunk_body lines' line_number (parsed_lines + 1)
            (mkChunk (change_context chunk) (old_lines chunk ++ old)
                     (new_lines chunk ++ new) (is_end_of_file chunk)) in
        match line with
        | [] => next [[]] [[]]
        | c :: contents =>
            if (c =? ch " ")%N then next [contents] [contents]
            else if (c =? ch "+")%N then next [] [contents]
            else if (c =? ch "-")%N then next [contents] []
            else if parsed_lines =? 0 then
              Err (InvalidHunkError (msg_unexpected_line line) (line_number + 1))
            else Ok (chunk, parsed_lines)
        end
  end.

Definition parse_update_file_chunk (lines : list str) (line_number : nat)
    (allow_missing_context : bool) : result ParseError (UpdateFileChunk * nat) :=
  match lines with
  | [] => Err (InvalidHunkError msg_no_lines line_number)
  | first :: _ =>
      '(change_context, start_index) ←
        (if decide (first = EMPTY_CHANGE_CONTEXT_MARKER) then Ok (None, 1)
         else match Str.strip_prefix CHANGE_CONTEXT_MARKER first with
              | Some context => Ok (Some context, 1)
              | None =>
                  if negb allow_missing_context then
                    Err (InvalidHunkError (msg_expected_context first) line_number)
                  else Ok (None, 0)
              end);
      if length lines <=? start_index then
        Err (InvalidHunkError msg_no_lines (line_number + 1))
      else
        '(chunk, parsed_lines) ←
          chunk_body (drop start_index lines) line_number 0 (mkChunk change_context [] [] false);
        Ok (chunk, parsed_lines + start_index)
  end.

(** The content loop of an Add File hunk: contents and number of lines read. *)
Fixpoint add_file_lines (lines : list str) : str * nat :=
  match lines with
  | [] => ([], 0)
  | line :: lines' =>
      match Str.strip_prefix $"+" line with
      | Some line_to_add =>
          let '(contents, n) := add_file_lines lines' in
          (line_to_add ++ [newline] ++ contents, S n)
      | None => ([], 0)
      end
  end.

(** The chunk loop of an Update File hunk.  [skip] lines of [remaining] were
    consumed by the chunk parsed last ([&remaining_lines[chunk_lines..]]); the
    count returned is [parsed_lines], the one line of the header included. *)
Fixpoint update_chunks (remaining : list str) (skip line_number parsed_lines : nat)
    (chunks : list UpdateFileChunk) : result ParseError (list UpdateFileChunk * nat) :=
  match remaining with
  | [] => Ok (chunks, parsed_lines)
  | line :: rest =>
      match skip with
      | S skip' => update_chunks rest skip' line_number parsed_lines chunks
      | 0 =>
          if Str.is_empty (Str.trim line) then
            update_chunks rest 0 line_number (parsed_lines + 1) chunks
          else if Str.starts_with $"*" line then Ok (chunks, parsed_lines)
          else
            '(chunk, chunk_lines) ←
              parse_update_file_chunk remaining (line_number + parsed_lines)
                (match chunks with [] => true | _ => false end);
            update_chunks rest (chunk_lines - 1) line_number (parsed_lines + chunk_lines)
              (chunks ++ [chunk])
      end
  end.

(** [parse_one_hunk] on a non-empty slice, given as its first line and the rest. *)
Definition parse_one_hunk (line : str) (rest : list str) (line_number : nat)
    : result ParseError (Hunk * nat) :=
  let first_line := Str.trim line in
  match Str.strip_prefix ADD_FILE_MARKER first_line with
  | Some path =>
      let '(contents, n) := add_file_lines rest in Ok (AddFile path contents, 1 + n)
  | None =>
      match Str.strip_prefix DELETE_FILE_MARKER first_line with
      | Some path => Ok (DeleteFile path, 1)
      | None =>
          match Str.strip_prefix UPDATE_FILE_MARKER first_line with
          | Some path =>
              let move_path := x ← head rest; Str.strip_prefix MOVE_TO_MARKER x in
              let '(remaining, parsed_lines) :=
                match move_path with Some _ => (drop 1 rest, 2) | None => (rest, 1) end in
              '(chunks, parsed_lines) ← update_chunks remaining 0 line_number parsed_lines [];
              match chunks with
              | [] => Err (InvalidHunkError (msg_empty_update path) line_number)
              | _ => Ok (UpdateFile path move_path chunks, parsed_lines)
              end
          | None => Err (InvalidHunkError (msg_bad_header first_line) line_number)
          end
      end
  end.

Definition check_start_and_end_lines_strict (first_line last_line : option str)
    : result ParseError unit :=
  match Str.trim <$> first_line, Str.trim <$> last_line with
  | Some first, Some last =>
      if decide (first = BEGIN_PATCH_MARKER) then
        if decide (last = END_PATCH_MARKER) then Ok tt
        else Err (InvalidPatchError msg_last_line)
      else Err (InvalidPatchError msg_first_line)
  | Some first, None =>
      if decide (first = BEGIN_PATCH_MARKER) then Err (InvalidPatchError msg_last_line)
      else Err (InvalidPatchError msg_first_line)
  | None, _ => Err (InvalidPatchError msg_last_line)
  end.

(** [&lines[1..lines.len() - 1]]. *)
Definition inner_lines (lines : list str) : list str :=
  take (length lines - 2) (tail lines).

Definition check_patch_boundaries_strict (lines : list str)
    : result ParseError (list str * list str) :=
  _ ← check_start_and_end_lines_strict (head lines) (last lines);
  Ok (lines, inner_lines lines).

Definition heredoc_opener (first : str) : bool :=
  bool_decide (first = $"<<EOF") || bool_decide (first = $"<<'EOF'")
  || bool_decide (first = $"<<" ++ [dquote] ++ $"EOF" ++ [dquote]).

Definition check_patch_boundaries_lenient (original_lines : list str)
    : result ParseError (list str * list str) :=
  match check_patch_boundaries_strict original_lines with
  | Ok lines => Ok lines
  | Err original_parse_error =>
      match head original_lines, last original_lines with
      | Some first, Some lst =>
          if (2 <=? length original_lines) && heredoc_opener first
             && Str.ends_with $"EOF" lst && (4 <=? length original_lines)
          then check_patch_boundaries_strict (inner_lines original_lines)
          else Err original_parse_error
      | _, _ => Err original_parse_error
      end
  end.

Definition parse_environment_id_preamble (hunk_lines : list str)
    : result ParseError (option str * list str * nat) :=
  match hunk_lines with
  | [] => Ok (None, hunk_lines, 2)
  | first_line :: rest =>
      match Str.strip_prefix ENVIRONMENT_ID_MARKER (Str.trim_start first_line) with
      | None => Ok (None, hunk_lines, 2)
      | Some environment_id =>
          let environment_id := Str.trim environment_id in
          if Str.is_empty environment_id then
            Err (InvalidPatchError $"apply_patch environment_id cannot be empty")
          else Ok (Some environment_id, rest, 3)
      end
  end.

(** The hunk loop of [parse_patch_text]; [skip] as in [update_chunks]. *)
Fixpoint parse_hunks (remaining : list str) (skip line_number : nat)
    : result ParseError (list Hunk) :=
  match remaining with
  | [] => Ok []
  | line :: rest =>
      match skip with
      | S skip' => parse_hunks rest skip' line_number
      | 0 =>
          '(hunk, hunk_lines) ← parse_one_hunk line rest line_number;
          hunks ← parse_hunks rest (hunk_lines - 1) (line_number + hunk_lines);
          Ok (hunk :: hunks)
      end
  end.

Definition parse_patch_text (patch : str) (mode : ParseMode) : result ParseError ApplyPatchArgs :=
  let lines := Str.lines (Str.trim patch) in
  '(patch_lines, hunk_lines) ←
    (match mode with
     | Strict => check_patch_boundaries_strict lines
     | Lenient => check_patch_boundaries_lenient lines
     end);
  '(environment_id, remaining_lines, line_number) ← parse_environment_id_preamble hunk_lines;
  hunks ← parse_hunks remaining_lines 0 line_number;
  Ok (mkArgs (Str.join [newline] patch_lines) hunks None environment_id).

Definition PARSE_IN_STRICT_MODE : bool := false.

Definition parse_patch (patch : str) : result ParseError ApplyPatchArgs :=
  let mode := if PARSE_IN_STRICT_MODE then Strict else Lenient in
  parse_patch_text patch mode.

Arguments parse_update_file_chunk : simpl never.
Arguments parse_one_hunk : simpl never.

(** ** Progress: what the loops consume *)

Lemma chunk_body_consumes lines ln n chunk chunk' n' :
  chunk_body lines ln n chunk = Ok (chunk', n') ->
  n <= n' <= n + length lines.
Proof.
  revert n chunk; induction lines as [|line lines IH]; intros n chunk; simpl.
  - intros [= _ <-]. lia.
  - intros H.
    case_all_in H;
      try lia; match goal with H : chunk_body _ _ _ _ = _ |- _ => apply IH in H; lia end.
Qed.

Lemma chunk_body_first_line line lines ln chunk chunk' n' :
  chunk_body (line :: lines) ln 0 chunk = Ok (chunk', n') -> 1 <= n'.
Proof.
  simpl. intros H.
  case_all_in H; match goal with H : chunk_body _ _ _ _ = _ |- _ =>
    apply chunk_body_consumes in H; lia end.
Qed.

Lemma parse_update_file_chunk_consumes lines ln allow chunk n :
  parse_update_file_chunk lines ln allow = Ok (chunk, n) -> 1 <= n <= length lines.
Proof.
  unfold parse_update_file_chunk. destruct lines as [|first lines]; [done|].
  intros H. inv_bind. destruct x as [ctx start]. cbv beta iota in H.
  destruct (Nat.leb_spec (length (first :: lines)) start); [done|]. inv_bind.
  destruct x as [c k]. simplify_eq/=.
  pose proof (chunk_body_consumes _ _ _ _ _ _ Hx0) as Hc. rewrite length_drop in Hc.
  simpl in *. split; [|lia].
  destruct start as [|start]; [|lia].
  apply chunk_body_first_line in Hx0. lia.
Qed.

Lemma update_chunks_skip remaining skip ln n chunks :
  update_chunks remaining skip ln n chunks = update_chunks (drop skip remaining) 0 ln n chunks.
Proof.
  revert skip; induction remaining as [|line rest IH]; intros [|skip]; simpl; auto.

Qed.

Lemma parse_hunks_skip remaining skip ln :
  parse_hunks remaining skip ln = parse_hunks (drop skip remaining) 0 ln.
Proof.
  revert skip; induction remaining as [|line rest IH]; intros [|skip]; simpl; auto.

Qed.

Lemma add_file_lines_consumes lines contents n :
  add_file_lines lines = (contents, n) -> n <= length lines.
Proof.
  revert contents n; induction lines as [|line lines IH]; intros contents n; simpl.
  - intros [= _ <-]. lia.
  - destruct (Str.strip_prefix _ line); [|intros [= _ <-]; lia].
    destruct (add_file_lines lines) as [c k]. intros [= _ <-].
    specialize (IH c k eq_refl). lia.
Qed.

(** A successful chunk loop consumes lines of its input only, and keeps the
    chunks it was given. *)
Lemma update_chunks_consumes remaining skip ln n chunks chunks' n' :
  skip <= length remaining ->
  update_chunks remaining skip ln n chunks = Ok (chunks', n') ->
  n <= n' <= n + (length remaining - skip) /\ exists new, chunks' = chunks ++ new.
Proof.
  revert skip n chunks; induction remaining as [|line rest IH]; intros skip n chunks Hs; simpl.
  - intros [= <- <-]. split; [lia|]. exists []. by rewrite app_nil_r.
  - destruct skip as [|skip]; [|intros H; apply IH in H; simpl in *; [|lia]; lia || done].
    destruct (Str.is_empty (Str.trim line)).
    { intros H. apply IH in H as [? ?]; [|lia]. split; [lia|done]. }
    destruct (Str.starts_with _ line).
    { intros [= <- <-]. split; [lia|]. exists []. by rewrite app_nil_r. }
    intros H. inv_bind. destruct x as [c k].
    apply parse_update_file_chunk_consumes in Hx. simpl in Hx.
    apply IH in H as [? (new & ->)]; [|lia]. split; [lia|].
    exists (c :: new). by rewrite <- app_assoc.
Qed.

Lemma parse_one_hunk_consumes_aux line rest ln hunk n :
  parse_one_hunk line rest ln = Ok (hunk, n) -> 1 <= n <= 1 + length rest.
Proof.
  unfold parse_one_hunk. intros H. case_all_in H.
  - match goal with E : add_file_lines _ = _ |- _ => apply add_file_lines_consumes in E end. lia.
  - lia.
  - inv_bind. destruct x as [cs k]. apply update_chunks_consumes in Hx as [Hk _]; [|lia].
    assert (n = k) as -> by (destruct cs; by simplify_eq/=).
    clear H. destruct rest as [|r rest]; simpl in Heqp; case_all_in Heqp; simpl in *;
      rewrite ?drop_0 in Hk; lia.
Qed.

(** ** Shape of what is parsed *)

(** Every chunk holds at least one line, and an Update File hunk at least one chunk. *)
Definition chunk_wf (c : UpdateFileChunk) : Prop := old_lines c <> [] \/ new_lines c <> [].
Definition hunk_wf (h : Hunk) : Prop :=
  match h with
  | UpdateFile _ _ chunks => chunks <> [] /\ Forall chunk_wf chunks
  | AddFile _ _ | DeleteFile _ => True
  end.

Lemma chunk_body_wf lines ln n chunk chunk' n' :
  (0 < n -> chunk_wf chunk) ->
  chunk_body lines ln n chunk = Ok (chunk', n') -> 0 < n' -> chunk_wf chunk'.
Proof.
  revert n chunk; induction lines as [|line lines IH]; intros n chunk Hwf; simpl.
  - by intros [= <- <-].
  - assert (forall o w, o <> [] \/ w <> [] ->
      chunk_wf (mkChunk (change_context chunk) (old_lines chunk ++ o)
                        (new_lines chunk ++ w) (is_end_of_file chunk))) as Hadd.
    { intros o w [?|?]; [left|right]; simpl; intros [??]%app_eq_nil; done. }
    intros H Hn.
    case_all_in H;
      try (match goal with H : chunk_body _ _ _ _ = _ |- _ =>
             revert H Hn; apply IH; intros _; apply Hadd; (by left) || (by right) end).
    + match goal with E : (n =? 0) = false |- _ => apply Nat.eqb_neq in E end.
      destruct Hwf as [?|?]; [lia|by left|by right].
    + by apply Hwf.
Qed.

Lemma parse_update_file_chunk_wf lines ln allow chunk n :
  parse_update_file_chunk lines ln allow = Ok (chunk, n) -> chunk_wf chunk.
Proof.
  unfold parse_update_file_chunk. destruct lines as [|first lines]; [done|].
  intros H. inv_bind. destruct x as [ctx start]. cbv beta iota in H.
  destruct (Nat.leb_spec (length (first :: lines)) start) as [|Hlt]; [done|]. inv_bind.
  destruct x as [c k]. simplify_eq/=.
  pose proof Hx0 as Hb. eapply chunk_body_wf in Hx0; [done|lia|].
  destruct (drop start (first :: lines)) as [|l ls] eqn:E.
  - apply (f_equal length) in E. rewrite length_drop in E. simpl in *. lia.
  - by apply chunk_body_first_line in Hb.
Qed.

Lemma update_chunks_wf remaining skip ln n chunks chunks' n' :
  Forall chunk_wf chunks ->
  update_chunks remaining skip ln n chunks = Ok (chunks', n') -> Forall chunk_wf chunks'.
Proof.
  revert skip n chunks; induction remaining as [|line rest IH]; intros skip n chunks Hwf; simpl.
  - by intros [= <- _].
  - destruct skip as [|skip]; [|eauto].
    destruct (Str.is_empty _); [eauto|]. destruct (Str.starts_with _ _); [by intros [= <- _]|].
    intros H. inv_bind. destruct x as [c k]. apply parse_update_file_chunk_wf in Hx.
    eapply IH; [|done]. apply Forall_app. by split; [|apply Forall_singleton].
Qed.

Lemma parse_one_hunk_wf line rest ln hunk n :
  parse_one_hunk line rest ln = Ok (hunk, n) -> hunk_wf hunk.
Proof.
  unfold parse_one_hunk. intros H. case_all_in H. inv_bind. destruct x as [cs k].
  destruct cs as [|c cs]; simplify_eq/=. split; [done|]. by eapply update_chunks_wf in Hx.
Qed.

Lemma parse_hunks_wf remaining skip ln hs :
  parse_hunks remaining skip ln = Ok hs -> Forall hunk_wf hs.
Proof.
  revert skip ln hs; induction remaining as [|line rest IH]; intros skip ln hs; simpl.
  - by intros [= <-].
  - destruct skip as [|skip]; [|eauto]. intros H. inv_bind. destruct x as [h k]. inv_bind.
    constructor; [by eapply parse_one_hunk_wf|by eapply IH].
Qed.

(** ** Boundaries *)

Lemma check_start_and_end_Ok first last :
  check_start_and_end_lines_strict first last = Ok tt <->
  Str.trim <$> first = Some BEGIN_PATCH_MARKER /\ Str.trim <$> last = Some END_PATCH_MARKER.
Proof.
  unfold check_start_and_end_lines_strict.
  destruct (Str.trim <$> first), (Str.trim <$> last); repeat case_decide; naive_solver.
Qed.

Lemma check_patch_boundaries_strict_Ok lines pl hl :
  check_patch_boundaries_strict lines = Ok (pl, hl) <->
  exists f l, lines = f :: hl ++ [l] /\ pl = lines /\
    Str.trim f = BEGIN_PATCH_MARKER /\ Str.trim l = END_PATCH_MARKER.
Proof.
  unfold check_patch_boundaries_strict. rewrite bind_Ok. split.
  - intros ([] & Hc & [= <- <-]). apply check_start_and_end_Ok in Hc as [Hf Hl].
    destruct lines as [|f rest]; [done|]. simpl in Hf. injection Hf as Hf.
    destruct rest as [|l rest _] using rev_ind.
    { simpl in Hl. injection Hl as Hl. rewrite Hf in Hl. discriminate Hl. }
    rewrite app_comm_cons, last_snoc in Hl. injection Hl as Hl. exists f, l.
    split_and!; try done. f_equal. unfold inner_lines. simpl. rewrite length_app. simpl.
    replace (length rest + 1 - 1) with (length rest) by lia. by rewrite take_app_length.
  - intros (f & l & -> & -> & Hf & Hl). exists tt. split.
    + apply check_start_and_end_Ok. rewrite app_comm_cons, last_snoc. simpl. by rewrite Hf, Hl.
    + f_equal. f_equal. unfold inner_lines. simpl. rewrite length_app. simpl.
      replace (length hl + 1 - 1) with (length hl) by lia. by rewrite take_app_length.
Qed.

(** ** Properties *)

(** A successfully parsed hunk is complete (an Update File hunk has at least
    one chunk, every chunk at least one line) and accounts for at least its
    header and at most the lines that are left, so that the slice the hunk loop
    takes next is in range and the loop makes progress. *)
Theorem parse_one_hunk_progress line rest ln hunk n :
  parse_one_hunk line rest ln = Ok (hunk, n) ->
  hunk_wf hunk /\ 1 <= n <= length (line :: rest).
Proof.
  intros H. split; [by eapply parse_one_hunk_wf|]. by apply parse_one_hunk_consumes_aux in H.
Qed.

(** Whatever text [parse_patch_text] accepts, in either mode, yields only
    complete hunks, no working directory, and an environment id that is absent
    or a non-empty trimmed string. *)
Theorem parse_patch_text_sound patch mode args :
  parse_patch_text patch mode = Ok args ->
  Forall hunk_wf (hunks args) /\ workdir args = None /\
  (forall i, environment_id args = Some i -> i <> [] /\ exists raw, i = Str.trim raw).
Proof.
  unfold parse_patch_text. intros H. inv_bind. destruct x as [pl hl].
  inv_bind. destruct x as [[eid rem] ln]. inv_bind.
  split_and!; [by eapply parse_hunks_wf|done|]. cbn. intros i ->.
  unfold parse_environment_id_preamble in Hx0. case_all_in Hx0.
  split; [|eauto]. by intros E; rewrite E in *.
Qed.

Lemma parse_one_hunk_progress_witness :
  hunk_wf (UpdateFile $"f" None [mkChunk None [$"a"] [$"b"] false]) /\
  1 <= 4 <= length [$"*** Update File: f"; $"@@"; $"-a"; $"+b"].
Proof.
  apply (parse_one_hunk_progress $"*** Update File: f" [$"@@"; $"-a"; $"+b"] 2).
  vm_compute. reflexivity.
Defined.

Definition demo_patch : str :=
  Str.join [newline] [BEGIN_PATCH_MARKER; $"*** Environment ID: e1"; $"*** Delete File: f";
                      END_PATCH_MARKER].

Lemma parse_patch_text_sound_witness :
  let args := mkArgs demo_patch [DeleteFile $"f"] None (Some $"e1") in
  Forall hunk_wf (hunks args) /\ workdir args = None /\
  (forall i, environment_id args = Some i -> i <> [] /\ exists raw, i = Str.trim raw).
Proof. apply (parse_patch_text_sound demo_patch Strict). vm_compute. reflexivity. Defined.

End Patch.
