(* ===== verification/PatchGrammar.v ===== *)
(** The patch language of [parser.rs] in its canonical printed form (every chunk under a
    header of its own, no empty updates), as a syntax tree with a printer and a denotation
    into hunks, and the properties of the batch parser against it. *)
From S2P Require Import Prelude PatchParser.
Import Patch.

Module Grammar.

(** ** Syntax *)

Inductive change_line :=
| Context (s : str)
| Added (s : str)
| Removed (s : str).

Record chunk_src := mkChunkSrc {
  src_context : option str;
  src_body : list change_line;
  src_eof : bool
}.

Inductive hunk_src :=
| SrcAdd (path : str) (contents : list str)
| SrcDelete (path : str)
| SrcUpdate (path : str) (move_to : option str) (chunks : list chunk_src).

(** ** Printer: the lines of the grammar's productions *)

Definition print_change (c : change_line) : str :=
  match c with
  | Context s => ch " " :: s
  | Added s => ch "+" :: s
  | Removed s => ch "-" :: s
  end.
Definition print_context (c : option str) : str :=
  match c with
  | None => EMPTY_CHANGE_CONTEXT_MARKER
  | Some s => CHANGE_CONTEXT_MARKER ++ s
  end.
Definition print_chunk (c : chunk_src) : list str :=
  print_context (src_context c) :: (print_change <$> src_body c)
  ++ (if src_eof c then [EOF_MARKER] else []).
Definition print_move (m : option str) : list str :=
  match m with None => [] | Some p => [MOVE_TO_MARKER ++ p] end.
Definition print_hunk (h : hunk_src) : list str :=
  match h with
  | SrcAdd p ls => (ADD_FILE_MARKER ++ p) :: (cons (ch "+") <$> ls)
  | SrcDelete p => [DELETE_FILE_MARKER ++ p]
  | SrcUpdate p m cs =>
      (UPDATE_FILE_MARKER ++ p) :: print_move m ++ concat (print_chunk <$> cs)
  end.
Definition print_hunks (hs : list hunk_src) : list str := concat (print_hunk <$> hs).
Definition print_environment (e : option str) : list str :=
  match e with None => [] | Some i => [ENVIRONMENT_ID_MARKER ++ i] end.
Definition print_lines (e : option str) (hs : list hunk_src) : list str :=
  BEGIN_PATCH_MARKER :: (print_environment e ++ print_hunks hs) ++ [END_PATCH_MARKER].
Definition print_patch (e : option str) (hs : list hunk_src) : str :=
  Str.join [newline] (print_lines e hs).

(** ** Denotation: the hunks a syntax tree stands for *)

Definition old_of (c : change_line) : list str :=
  match c with Context s | Removed s => [s] | Added _ => [] end.
Definition new_of (c : change_line) : list str :=
  match c with Context s | Added s => [s] | Removed _ => [] end.
Definition denote_chunk (c : chunk_src) : UpdateFileChunk :=
  mkChunk (src_context c) (concat (old_of <$> src_body c)) (concat (new_of <$> src_body c))
          (src_eof c).
Definition denote_contents (ls : list str) : str := concat ((fun l => l ++ [newline]) <$> ls).
Definition denote_hunk (h : hunk_src) : Hunk :=
  match h with
  | SrcAdd p ls => AddFile p (denote_contents ls)
  | SrcDelete p => DeleteFile p
  | SrcUpdate p m cs => UpdateFile p m (denote_chunk <$> cs)
  end.

(** ** Well-formedness *)

(** A line of text: no line feed inside, no carriage return at its end. *)
Definition line_wf (s : str) : Prop := (newline ∉ s) /\ last s <> Some carriage_return.
(** A name on a marker line: not empty, no line feed, no whitespace at its end. *)
Definition name_wf (s : str) : Prop :=
  (newline ∉ s) /\ exists r c, s = r ++ [c] /\ Str.is_whitespace c = false.
Definition change_wf (c : change_line) : Prop :=
  match c with Context s | Added s | Removed s => line_wf s end.
Definition chunk_src_wf (c : chunk_src) : Prop :=
  from_option name_wf True (src_context c) /\ src_body c <> [] /\ Forall change_wf (src_body c).
Definition hunk_src_wf (h : hunk_src) : Prop :=
  match h with
  | SrcAdd p ls => name_wf p /\ Forall line_wf ls
  | SrcDelete p => name_wf p
  | SrcUpdate p m cs =>
      name_wf p /\ from_option name_wf True m /\ cs <> [] /\ Forall chunk_src_wf cs
  end.
Definition environment_wf (e : option str) : Prop :=
  from_option (fun i => name_wf i /\ Str.trim i = i) True e.

(** ** Lemmas: single lines *)

Lemma name_wf_ne s : name_wf s -> s <> [].
Proof. intros (_ & r & c & -> & _). by destruct r. Qed.

Lemma name_wf_line s : name_wf s -> line_wf s.
Proof.
  intros (Hn & r & c & -> & Hc). split; [done|]. rewrite last_snoc. intros [= ->].
  discriminate Hc.
Qed.

Lemma name_wf_app p s : newline ∉ p -> name_wf s -> name_wf (p ++ s).
Proof.
  intros Hp (Hn & r & c & -> & Hc). split; [set_solver|].
  exists (p ++ r), c. by rewrite app_assoc.
Qed.

Lemma name_wf_trim_end s : name_wf s -> Str.trim_end s = s.
Proof. intros (_ & r & c & -> & Hc). by apply Str.trim_end_by_snoc_keep. Qed.

(** A marker followed by a name is left alone by [trim]. *)
Lemma trim_marker p s :
  from_option Str.is_whitespace true (head p) = false -> newline ∉ p -> name_wf s ->
  Str.trim (p ++ s) = p ++ s.
Proof.
  destruct p as [|c p]; [done|]. intros Hc Hp Hs. simpl. rewrite Str.trim_cons_keep, <- Str.trim_end_cons_keep by done.
  apply (name_wf_trim_end ((c :: p) ++ s)). by apply name_wf_app.
Qed.

Ltac no_newline := refine (bool_decide_eq_true_1 _ _); vm_compute; reflexivity.

Lemma line_wf_cons c s : c <> newline -> c <> carriage_return -> line_wf s -> line_wf (c :: s).
Proof.
  intros H1 H2 [H3 H4]. split; [set_solver|]. destruct s; simpl in *; [congruence|done].
Qed.

Lemma line_wf_marker p s : newline ∉ p -> name_wf s -> line_wf (p ++ s).
Proof. intros ? ?. by apply name_wf_line, name_wf_app. Qed.

Lemma print_change_line c : change_wf c -> line_wf (print_change c).
Proof. destruct c; apply line_wf_cons; done. Qed.

Lemma line_wf_lit s :
  bool_decide ((newline ∉ s) /\ last s <> Some carriage_return) = true -> line_wf s.
Proof. apply bool_decide_eq_true_1. Qed.

Lemma name_wf_lit (s : str) :
  bool_decide (newline ∉ s) && from_option (fun c => negb (Str.is_whitespace c)) false (last s)
    = true ->
  name_wf s.
Proof.
  intros [Hs Hl]%andb_true_iff. apply bool_decide_eq_true in Hs. split; [done|].
  destruct (last s) as [c|] eqn:E; [|done]. apply last_Some in E as [r ->].
  exists r, c. split; [done|]. simpl in Hl. by apply negb_true_iff in Hl.
Qed.

Lemma print_chunk_lines c : chunk_src_wf c -> Forall line_wf (print_chunk c).
Proof.
  intros (Hc & _ & Hb). unfold print_chunk. constructor.
  - destruct (src_context c) as [s|]; cbn [print_context].
    + by apply line_wf_marker; [no_newline|].
    + apply line_wf_lit. reflexivity.
  - apply Forall_app. split.
    + apply Forall_fmap. eapply Forall_impl; [done|]. apply print_change_line.
    + destruct (src_eof c); [|done]. by apply Forall_singleton, line_wf_lit.
Qed.

Lemma print_hunk_lines h : hunk_src_wf h -> Forall line_wf (print_hunk h).
Proof.
  destruct h as [p ls|p|p m cs]; cbn [print_hunk hunk_src_wf].
  - intros [Hp Hl]. constructor; [by apply line_wf_marker; [no_newline|]|].
    apply Forall_fmap. eapply Forall_impl; [done|]. intros l Hw. by apply line_wf_cons.
  - intros Hp. by apply Forall_singleton, line_wf_marker; [no_newline|].
  - intros (Hp & Hm & _ & Hc). constructor; [by apply line_wf_marker; [no_newline|]|].
    apply Forall_app. split.
    + destruct m; cbn [print_move]; [|done].
      by apply Forall_singleton, line_wf_marker; [no_newline|].
    + apply Forall_concat, Forall_fmap. eapply Forall_impl; [done|]. apply print_chunk_lines.
Qed.

Lemma print_lines_wf e hs :
  environment_wf e -> Forall hunk_src_wf hs -> Forall line_wf (print_lines e hs).
Proof.
  intros He Hh. unfold print_lines. constructor; [apply line_wf_lit; reflexivity|].
  apply Forall_app. split; [|by apply Forall_singleton, line_wf_lit].
  apply Forall_app. split.
  - destruct e; cbn [print_environment]; [|done]. destruct He.
    by apply Forall_singleton, line_wf_marker; [no_newline|].
  - apply Forall_concat, Forall_fmap. eapply Forall_impl; [done|]. apply print_hunk_lines.
Qed.

(** ** Lemmas: lines of a text *)

Lemma strip_cr_line s : line_wf s -> Str.strip_cr s = s.
Proof.
  intros [_ Hl]. unfold Str.strip_cr. destruct (Str.strip_suffix _ s) as [t|] eqn:E; [|done].
  apply Str.strip_suffix_Some in E as ->. by rewrite last_snoc in Hl.
Qed.

Lemma lines_of_wf ls l :
  Forall line_wf (ls ++ [l]) -> l <> [] -> Str.lines_of (ls ++ [l]) = ls ++ [l].
Proof.
  intros Hw Hl. induction ls as [|a ls IH]; simpl; [by destruct l|].
  inversion Hw; subst. rewrite IH by done. destruct (ls ++ [l]) eqn:E; [by destruct ls|].
  by rewrite strip_cr_line.
Qed.

Lemma lines_join ls l :
  Forall line_wf (ls ++ [l]) -> l <> [] ->
  Str.lines (Str.join [newline] (ls ++ [l])) = ls ++ [l].
Proof.
  intros Hw Hl. unfold Str.lines. rewrite Str.split_join; [by apply lines_of_wf|by destruct ls|].
  eapply Forall_impl; [done|]. by intros s [? _].
Qed.

Lemma print_patch_ends e hs :
  exists t u, print_patch e hs = ch "*" :: t /\ print_patch e hs = u ++ [ch "h"].
Proof.
  unfold print_patch, print_lines. set (m := print_environment e ++ print_hunks hs).
  rewrite app_comm_cons, Str.join_snoc by done.
  assert (exists t, Str.join [newline] (BEGIN_PATCH_MARKER :: m) = ch "*" :: t) as [t Ht].
  { destruct m; simpl; unfold BEGIN_PATCH_MARKER; by eexists. }
  rewrite Ht. eexists _, (ch "*" :: t ++ [newline] ++ $"*** End Patc").
  split; [by simpl|]. simpl. rewrite <- app_assoc. by simpl.
Qed.

Lemma trim_print_patch e hs : Str.trim (print_patch e hs) = print_patch e hs.
Proof.
  destruct (print_patch_ends e hs) as (t & u & Ht & Hu).
  rewrite Ht, Str.trim_cons_keep, <- Str.trim_end_cons_keep by done. rewrite <- Ht, Hu. by apply Str.trim_end_by_snoc_keep.
Qed.

Lemma lines_print_patch e hs :
  environment_wf e -> Forall hunk_src_wf hs ->
  Str.lines (Str.trim (print_patch e hs)) = print_lines e hs.
Proof.
  intros He Hh. rewrite trim_print_patch. unfold print_patch.
  pose proof (print_lines_wf e hs He Hh) as Hw. unfold print_lines in *.
  rewrite app_comm_cons in *. by apply lines_join.
Qed.

(** ** Lemmas: chunks *)

(** What may follow a chunk body: nothing, or a line of the next construct. *)
Definition stops (tail : list str) : Prop :=
  match tail with
  | [] => True
  | l :: _ => l <> EOF_MARKER /\ exists c r, l = c :: r /\ (c = ch "*" \/ c = ch "@")
  end.
(** What may follow a hunk: nothing, or a hunk header. *)
Definition stops_hunk (tail : list str) : Prop :=
  match tail with
  | [] => True
  | l :: _ => l <> EOF_MARKER /\ exists r, l = ch "*" :: r
  end.

Lemma stops_hunk_stops tail : stops_hunk tail -> stops tail.
Proof. destruct tail; [done|]. intros [? (r & ->)]. split; [done|]. by eexists _, r; eauto. Qed.

Lemma chunk_body_step c lines ln n k :
  chunk_body (print_change c :: lines) ln n k =
  chunk_body lines ln (n + 1)
    (mkChunk (change_context k) (old_lines k ++ old_of c) (new_lines k ++ new_of c)
             (is_end_of_file k)).
Proof. destruct c; cbn [chunk_body print_change]; rewrite decide_False by done; done. Qed.

Lemma chunk_body_print body rest ln n k :
  chunk_body ((print_change <$> body) ++ rest) ln n k =
  chunk_body rest ln (n + length body)
    (mkChunk (change_context k) (old_lines k ++ concat (old_of <$> body))
             (new_lines k ++ concat (new_of <$> body)) (is_end_of_file k)).
Proof.
  revert n k; induction body as [|c body IH]; intros n k.
  - destruct k; csimpl. by rewrite !app_nil_r, Nat.add_0_r.
  - rewrite !fmap_cons, <- app_comm_cons, chunk_body_step, IH. simpl.
    rewrite <- !app_assoc. f_equal. lia.
Qed.

Lemma chunk_body_stop tail ln n k :
  stops tail -> 0 < n -> chunk_body tail ln n k = Ok (k, n).
Proof.
  intros Ht Hn. destruct tail as [|l tail]; [done|]. destruct Ht as (Hne & c & r & -> & Hc).
  cbn [chunk_body]. rewrite decide_False by done.
  destruct (Nat.eqb_spec n 0); [lia|]. by destruct Hc as [-> | ->].
Qed.

Lemma print_chunk_length c : 2 <= length (print_chunk c) \/ src_body c = [].
Proof.
  unfold print_chunk. simpl. rewrite length_app, length_fmap.
  destruct (src_body c); [by right|left; simpl; lia].
Qed.

Lemma parse_chunk_print c tail ln allow :
  chunk_src_wf c -> stops tail ->
  parse_update_file_chunk (print_chunk c ++ tail) ln allow =
  Ok (denote_chunk c, length (print_chunk c)).
Proof.
  intros (Hctx & Hbody & _) Ht. unfold parse_update_file_chunk, print_chunk.
  rewrite <- !app_comm_cons. set (rest := ((print_change <$> src_body c) ++ _) ++ tail).
  assert ((if decide (print_context (src_context c) = EMPTY_CHANGE_CONTEXT_MARKER)
           then Ok (None, 1)
           else match Str.strip_prefix CHANGE_CONTEXT_MARKER (print_context (src_context c)) with
                | Some context => Ok (Some context, 1)
                | None => if negb allow then
                    Err (InvalidHunkError (msg_expected_context (print_context (src_context c))) ln)
                  else Ok (None, 0)
                end) = Ok (src_context c, 1)) as ->.
  { destruct (src_context c) as [s|]; cbn [print_context]; [|by rewrite decide_True].
    rewrite decide_False, Str.strip_prefix_app; [done|].
    intros H. apply (f_equal length) in H. rewrite length_app in H.
    change (3 + length s = 2) in H. lia. }
  cbn [mbind result_bind].
  assert (length rest <> 0) as Hrest.
  { unfold rest. rewrite !length_app, length_fmap. by destruct (src_body c). }
  destruct (Nat.leb_spec (length (print_context (src_context c) :: rest)) 1) as [Hle|_];
    [simpl in Hle; lia|].
  rewrite (skipn_cons 0), drop_0. unfold rest. rewrite <- app_assoc, chunk_body_print. simpl.
  assert (0 < length (src_body c)) by (destruct (src_body c); simpl in *; [done|lia]).
  unfold denote_chunk. rewrite length_app, length_fmap.
  destruct (src_eof c); simpl.
  - destruct (Nat.eqb_spec (length (src_body c)) 0); [lia|]. cbn. do 2 f_equal. lia.
  - rewrite chunk_body_stop by done. cbn. do 2 f_equal. lia.
Qed.

Lemma print_context_head ctx : exists r, print_context ctx = ch "@" :: r.
Proof. destruct ctx; by eexists. Qed.

Lemma update_chunks_at l rest ln n acc :
  update_chunks ((ch "@" :: l) :: rest) 0 ln n acc =
  ('(chunk, k) ← parse_update_file_chunk ((ch "@" :: l) :: rest) (ln + n)
                   (match acc with [] => true | _ => false end);
   update_chunks rest (k - 1) ln (n + k) (acc ++ [chunk])).
Proof.
  cbn [update_chunks]. by rewrite Str.trim_cons_keep.
Qed.

Lemma stops_chunks cs tail : stops_hunk tail -> stops (concat (print_chunk <$> cs) ++ tail).
Proof.
  intros Ht. destruct cs as [|c cs]; [by apply stops_hunk_stops|]. simpl.
  destruct (print_context_head (src_context c)) as [r Hr]. rewrite Hr.
  split; [done|]. eexists _, r. eauto.
Qed.

Lemma update_chunks_print cs tail ln n acc :
  Forall chunk_src_wf cs -> stops_hunk tail ->
  update_chunks (concat (print_chunk <$> cs) ++ tail) 0 ln n acc =
  Ok (acc ++ (denote_chunk <$> cs), n + length (concat (print_chunk <$> cs))).
Proof.
  intros Hcs Ht. revert n acc; induction Hcs as [|c cs Hc Hcs IH]; intros n acc.
  - csimpl. rewrite app_nil_r, Nat.add_0_r. destruct tail as [|l tail]; [done|].
    destruct Ht as [_ (r & ->)]. cbn [update_chunks].
    by rewrite Str.trim_cons_keep.
  - rewrite !fmap_cons. cbn [concat]. rewrite <- app_assoc.
    pose proof (stops_chunks cs tail Ht) as Hs.
    pose proof (parse_chunk_print c _ (ln + n) (match acc with [] => true | _ => false end) Hc Hs)
      as Hp.
    destruct (print_context_head (src_context c)) as [r Hr].
    assert (print_chunk c = (ch "@" :: r) :: List.tl (print_chunk c)) as Hsplit
      by (unfold print_chunk; by rewrite Hr).
    rewrite Hsplit in Hp |- *. rewrite <- app_comm_cons in Hp |- *.
    rewrite update_chunks_at, Hp. cbn [mbind result_bind].
    rewrite update_chunks_skip, drop_app_length' by (rewrite Hsplit; simpl; lia).
    rewrite IH, <- app_assoc, length_app. do 2 f_equal. lia.
Qed.

(** ** Lemmas: hunks *)

Lemma add_file_lines_print ls tail :
  stops_hunk tail ->
  add_file_lines ((cons (ch "+") <$> ls) ++ tail) = (denote_contents ls, length ls).
Proof.
  intros Ht. induction ls as [|l ls IH].
  - destruct tail as [|x tail]; [done|]. by destruct Ht as [_ (r & ->)].
  - rewrite fmap_cons, <- app_comm_cons. cbn [add_file_lines].
    change (Str.strip_prefix $"+" (ch "+" :: l)) with (Some l). rewrite IH. unfold denote_contents. csimpl.
    by rewrite <- app_assoc.
Qed.

Lemma parse_one_hunk_print h tail ln :
  hunk_src_wf h -> stops_hunk tail ->
  exists first rest, print_hunk h = first :: rest /\
    parse_one_hunk first (rest ++ tail) ln = Ok (denote_hunk h, length (print_hunk h)).
Proof.
  intros Hh Ht. destruct h as [p ls|p|p m cs]; simpl in Hh; eexists _, _; split; try reflexivity.
  - destruct Hh as [Hp _]. unfold parse_one_hunk. rewrite trim_marker by (done || no_newline).
    rewrite Str.strip_prefix_app, add_file_lines_print by done. csimpl.
    by rewrite length_fmap.
  - unfold parse_one_hunk. rewrite trim_marker by (done || no_newline). done.
  - destruct Hh as (Hp & Hm & Hne & Hcs). unfold parse_one_hunk.
    rewrite trim_marker by (done || no_newline).
    change (Str.strip_prefix ADD_FILE_MARKER (UPDATE_FILE_MARKER ++ p)) with (@None str).
    change (Str.strip_prefix DELETE_FILE_MARKER (UPDATE_FILE_MARKER ++ p)) with (@None str).
    rewrite Str.strip_prefix_app. cbv beta iota zeta.
    assert (denote_chunk <$> cs <> []) as Hd by (by destruct cs).
    destruct m as [m|]; cbn [print_move app head mbind option_bind].
    + rewrite Str.strip_prefix_app, (skipn_cons 0), drop_0, update_chunks_print by done.
      cbn [mbind result_bind]. rewrite app_nil_l.
      destruct (denote_chunk <$> cs) eqn:E; [done|]. rewrite <- E. by cbn.
    + assert ((x ← head (concat (print_chunk <$> cs) ++ tail);
               Str.strip_prefix MOVE_TO_MARKER x) = None) as ->.
      { destruct cs as [|c cs]; [done|]. simpl.
        destruct (print_context_head (src_context c)) as [r ->]. done. }
      rewrite update_chunks_print by done. cbn [mbind result_bind]. rewrite app_nil_l.
      destruct (denote_chunk <$> cs) eqn:E; [done|]. rewrite <- E. by cbn.
Qed.

Lemma print_hunk_head h : exists r rest, print_hunk h = (ch "*" :: r) :: rest /\
  ch "*" :: r <> EOF_MARKER /\
  Str.strip_prefix ENVIRONMENT_ID_MARKER (Str.trim_start (ch "*" :: r)) = None.
Proof. destruct h; eexists _, _; (split; [reflexivity|]); by vm_compute. Qed.

Lemma stops_hunks hs : stops_hunk (print_hunks hs).
Proof.
  destruct hs as [|h hs]; [done|]. unfold print_hunks. simpl.
  destruct (print_hunk_head h) as (r & rest & -> & ? & _). simpl. eauto.
Qed.

Lemma parse_hunks_print hs ln :
  Forall hunk_src_wf hs -> parse_hunks (print_hunks hs) 0 ln = Ok (denote_hunk <$> hs).
Proof.
  intros Hhs. revert ln; induction Hhs as [|h hs Hh Hhs IH]; intros ln; [done|].
  unfold print_hunks. rewrite !fmap_cons. cbn [concat]. fold (print_hunks hs).
  destruct (parse_one_hunk_print h (print_hunks hs) ln Hh (stops_hunks hs))
    as (first & rest & Hsplit & Hp).
  rewrite Hsplit. rewrite <- app_comm_cons. cbn [parse_hunks]. rewrite Hp.
  cbn [mbind result_bind]. rewrite parse_hunks_skip, Hsplit. cbn [length].
  rewrite drop_app_length' by lia. by rewrite IH.
Qed.

Lemma parse_environment_print e hs :
  environment_wf e ->
  parse_environment_id_preamble (print_environment e ++ print_hunks hs) =
  Ok (e, print_hunks hs, match e with None => 2 | Some _ => 3 end).
Proof.
  intros He. unfold parse_environment_id_preamble. destruct e as [i|]; cbn [print_environment app].
  - destruct He as [Hi Ht].
    change (Str.trim_start (ENVIRONMENT_ID_MARKER ++ i)) with (ENVIRONMENT_ID_MARKER ++ i).
    rewrite Str.strip_prefix_app, Ht. apply name_wf_ne in Hi. by destruct i.
  - destruct hs as [|h hs]; [done|]. unfold print_hunks. simpl.
    destruct (print_hunk_head h) as (r & rest & -> & _ & He'). simpl. by rewrite He'.
Qed.

Lemma boundaries_print e hs :
  check_patch_boundaries_strict (print_lines e hs) =
  Ok (print_lines e hs, print_environment e ++ print_hunks hs).
Proof.
  apply check_patch_boundaries_strict_Ok. unfold print_lines.
  by eexists _, _; split_and!.
Qed.

Lemma parse_print_aux e hs mode :
  environment_wf e -> Forall hunk_src_wf hs ->
  parse_patch_text (print_patch e hs) mode =
  Ok (mkArgs (print_patch e hs) (denote_hunk <$> hs) None e).
Proof.
  intros He Hh. unfold parse_patch_text. rewrite lines_print_patch by done.
  assert ((match mode with
           | Strict => check_patch_boundaries_strict (print_lines e hs)
           | Lenient => check_patch_boundaries_lenient (print_lines e hs)
           end) = Ok (print_lines e hs, print_environment e ++ print_hunks hs)) as ->.
  { unfold check_patch_boundaries_lenient. rewrite boundaries_print. by destruct mode. }
  cbn [mbind result_bind]. rewrite parse_environment_print by done.
  cbn [mbind result_bind]. by rewrite parse_hunks_print.
Qed.

(** ** Heredoc wrappers *)

Lemma heredoc_opener_cases o :
  heredoc_opener o = true ->
  line_wf o /\ Str.trim o <> BEGIN_PATCH_MARKER /\ exists t, o = ch "<" :: t.
Proof.
  unfold heredoc_opener. intros [[H|H]%orb_true_iff|H]%orb_true_iff;
    apply bool_decide_eq_true in H as ->;
    (split_and!; [apply line_wf_lit; reflexivity|done|eexists; reflexivity]).
Qed.

Lemma ends_with_eof_ne s : Str.ends_with $"EOF" s = true -> s <> [].
Proof. intros H ->. discriminate H. Qed.

Lemma join_cons sep a ls : ls <> [] -> Str.join sep (a :: ls) = a ++ sep ++ Str.join sep ls.
Proof. by destruct ls. Qed.

Lemma lines_wrapped e hs opener closer :
  environment_wf e -> Forall hunk_src_wf hs -> heredoc_opener opener = true ->
  line_wf closer -> Str.trim closer = closer -> Str.ends_with $"EOF" closer = true ->
  Str.lines (Str.trim (opener ++ [newline] ++ print_patch e hs ++ [newline] ++ closer)) =
  opener :: print_lines e hs ++ [closer].
Proof.
  intros He Hh Ho Hc Ht Hend. destruct (heredoc_opener_cases _ Ho) as (Hw & _ & t & Ht').
  pose proof (ends_with_eof_ne _ Hend) as Hne.
  assert (opener ++ [newline] ++ print_patch e hs ++ [newline] ++ closer =
          Str.join [newline] ((opener :: print_lines e hs) ++ [closer])) as ->.
  { change ((opener :: print_lines e hs) ++ [closer]) with (opener :: (print_lines e hs ++ [closer])).
    rewrite join_cons by (by destruct (print_lines e hs)). by rewrite Str.join_snoc. }
  rewrite app_comm_cons. rewrite <- lines_join at 2.
  - f_equal. apply Str.ends_with_spec in Hend as [pre ->].
    assert (exists u, Str.join [newline] ((opener :: print_lines e hs) ++ [pre ++ $"EOF"]) =
              u ++ [ch "F"]) as [u Hu].
    { rewrite Str.join_snoc by done.
      exists (Str.join [newline] (opener :: print_lines e hs) ++ [newline] ++ pre ++ $"EO").
      rewrite <- (app_assoc _ _ [ch "F"]), <- (app_assoc _ _ [ch "F"]), <- (app_assoc _ _ [ch "F"]).
      reflexivity. }
    rewrite Hu. destruct u as [|x u].
    { rewrite Str.join_snoc in Hu by done. apply (f_equal length) in Hu.
      rewrite !length_app in Hu. simpl in Hu. lia. }
    assert (x = ch "<") as ->.
    { rewrite <- app_comm_cons, join_cons in Hu by (by destruct (print_lines e hs)).
      rewrite Ht' in Hu. by injection Hu. }
    rewrite <- app_comm_cons, Str.trim_cons_keep, <- Str.trim_end_cons_keep by done.
    rewrite app_comm_cons. by apply Str.trim_end_by_snoc_keep.
  - apply Forall_app. split; [|by apply Forall_singleton].
    constructor; [done|by apply print_lines_wf].
  - done.
Qed.

Lemma boundaries_wrapped e hs opener closer :
  heredoc_opener opener = true ->
  check_patch_boundaries_strict (opener :: print_lines e hs ++ [closer]) =
  Err (InvalidPatchError msg_first_line).
Proof.
  intros Ho. destruct (heredoc_opener_cases _ Ho) as (_ & Hb & _).
  unfold check_patch_boundaries_strict, check_start_and_end_lines_strict.
  rewrite app_comm_cons, last_snoc. simpl. by rewrite decide_False.
Qed.

Lemma inner_wrapped o ls c : inner_lines (o :: ls ++ [c]) = ls.
Proof.
  unfold inner_lines. simpl. rewrite length_app. simpl.
  replace (length ls + 1 - 1) with (length ls) by lia. by rewrite take_app_length.
Qed.

(** ** Properties *)

(** C6: Every patch in the canonical printed form of the grammar (each chunk under one
    [@@] header of its own, and no update without chunks or chunk without lines;
    names are trimmed and not empty, and lines end in no carriage return) is
    parsed, in strict and in lenient mode, to exactly the hunks it denotes: paths, move targets, added
    contents, and per chunk the context, the old lines, the new lines and the
    end-of-file flag, in order; the environment id is kept and the returned
    patch text is the input.  The other forms of the documented grammar are not covered:
    a first chunk without header, several headers in a row, and empty updates, some of
    which the parser refuses. *)
Theorem parse_print_roundtrip e hs md :
  environment_wf e -> Forall hunk_src_wf hs ->
  parse_patch_text (print_patch e hs) md =
  Ok (mkArgs (print_patch e hs) (denote_hunk <$> hs) None e).
Proof. apply parse_print_aux. Qed.

(** A patch wrapped in a shell heredoc (an opening line [<<EOF] with or without
    quotes, and a last line that ends in [EOF]) is accepted by [parse_patch] with
    the result of the patch itself, while strict parsing of the wrapped text is
    refused with the error about the first line. *)
Theorem heredoc_wrapper_is_transparent e hs opener closer :
  environment_wf e -> Forall hunk_src_wf hs ->
  heredoc_opener opener = true -> line_wf closer -> Str.trim closer = closer ->
  Str.ends_with $"EOF" closer = true ->
  let wrapped := opener ++ [newline] ++ print_patch e hs ++ [newline] ++ closer in
  parse_patch wrapped = parse_patch (print_patch e hs) /\
  parse_patch_text wrapped Strict = Err (InvalidPatchError msg_first_line).
Proof.
  intros He Hh Ho Hc Ht Hend wrapped.
  assert (Str.lines (Str.trim wrapped) = opener :: print_lines e hs ++ [closer]) as Hl
    by (by apply lines_wrapped).
  assert (check_patch_boundaries_strict (opener :: print_lines e hs ++ [closer]) =
          Err (InvalidPatchError msg_first_line)) as Hs by (by apply boundaries_wrapped).
  split.
  - unfold parse_patch. simpl. rewrite parse_print_aux by done. unfold parse_patch_text.
    rewrite Hl. unfold check_patch_boundaries_lenient. rewrite Hs.
    assert (last (opener :: print_lines e hs ++ [closer]) = Some closer) as ->
      by (by rewrite app_comm_cons, last_snoc).
    assert (4 <= length (opener :: print_lines e hs ++ [closer])) as H4.
    { unfold print_lines. simpl. rewrite !length_app. simpl. lia. }
    rewrite !(proj2 (Nat.leb_le _ _)) by lia. cbn [head]. rewrite Ho, Hend. cbn [andb].
    rewrite inner_wrapped, boundaries_print. cbn [mbind result_bind].
    rewrite parse_environment_print by done. cbn [mbind result_bind].
    by rewrite parse_hunks_print.
  - unfold parse_patch_text. by rewrite Hl, Hs.
Qed.

(** ** Witnesses *)

Definition demo_hunks : list hunk_src :=
  [SrcAdd $"a.txt" [$"one"; []; $"two"];
   SrcUpdate $"b.txt" (Some $"c.txt")
     [mkChunkSrc (Some $"fn f") [Context $"x"; Removed $"y"; Added $"z"] true];
   SrcDelete $"d"].

Lemma demo_hunks_wf : Forall hunk_src_wf demo_hunks.
Proof.
  repeat first [apply name_wf_lit; reflexivity | apply line_wf_lit; reflexivity | done | constructor].
Qed.

Lemma parse_print_roundtrip_witness :
  parse_patch_text (print_patch (Some $"env-1") demo_hunks) Lenient =
  Ok (mkArgs (print_patch (Some $"env-1") demo_hunks) (denote_hunk <$> demo_hunks) None
        (Some $"env-1")).
Proof.
  apply parse_print_roundtrip; [|exact demo_hunks_wf].
  split; [apply name_wf_lit; reflexivity|reflexivity].
Defined.

Lemma heredoc_wrapper_is_transparent_witness :
  let wrapped := $"<<'EOF'" ++ [newline] ++ print_patch None demo_hunks ++ [newline] ++ $"EOF" in
  parse_patch wrapped = parse_patch (print_patch None demo_hunks) /\
  parse_patch_text wrapped Strict = Err (InvalidPatchError msg_first_line).
Proof.
  apply heredoc_wrapper_is_transparent;
    [exact I|exact demo_hunks_wf|reflexivity|apply line_wf_lit; reflexivity|reflexivity..].
Defined.

End Grammar.
