(* ===== verification/StreamingPatchParser.v ===== *)
(** The incremental patch parser that feeds the live preview
    ([codex-rs/apply-patch/src/streaming_parser.rs]) as a state machine over
    characters, its reachable states, and its agreement with the batch parser
    on every patch of the grammar, however the text is cut into deltas. *)
From S2P Require Import Prelude PatchParser PatchGrammar.
Import Patch.

Module Streaming.

(** ** State *)

Inductive StreamingParserMode :=
| NotStarted
| StartedPatch
| InAddFile
| InDeleteFile
| InUpdateFile (hunk_line_number : nat)
| EndedPatch.

Record StreamingPatchParser := mkParser {
  line_buffer : str;
  mode : StreamingParserMode;
  hunks : list Hunk;
  line_number : nat
}.

Definition default : StreamingPatchParser := mkParser [] NotStarted [] 0.

Definition set_mode (st : StreamingPatchParser) (m : StreamingParserMode) :=
  mkParser (line_buffer st) m (hunks st) (line_number st).
Definition set_hunks (st : StreamingPatchParser) (hs : list Hunk) :=
  mkParser (line_buffer st) (mode st) hs (line_number st).

(** ** Line handlers *)

Definition is_environment_id_preamble_line (line : str) : bool :=
  Str.starts_with ENVIRONMENT_ID_MARKER line.

Definition chunk_is_blank (c : UpdateFileChunk) : bool :=
  match old_lines c, new_lines c with [], [] => true | _, _ => false end.
Definition last_chunk_is_blank (chunks : list UpdateFileChunk) : bool :=
  from_option chunk_is_blank false (last chunks).

Definition ensure_update_hunk_is_not_empty (st : StreamingPatchParser) (line : str)
    : result ParseError unit :=
  match last (hunks st) with
  | Some (UpdateFile path _ chunks) =>
      match chunks, mode st with
      | [], InUpdateFile hunk_line_number =>
          Err (InvalidHunkError (msg_empty_update path) hunk_line_number)
      | _, _ =>
          if last_chunk_is_blank chunks then
            if decide (line = END_PATCH_MARKER) then
              Err (InvalidHunkError msg_no_lines (line_number st))
            else Err (InvalidHunkError (msg_unexpected_line line) (line_number st))
          else Ok tt
      end
  | _ => Ok tt
  end.

(** Returns the new state when the line was a header or the end marker, [None]
    (the source's [Ok(false)]) when it was neither. *)
Definition handle_hunk_headers_and_end_patch (st : StreamingPatchParser) (trimmed : str)
    : result ParseError (option StreamingPatchParser) :=
  if decide (trimmed = END_PATCH_MARKER) then
    _ ← ensure_update_hunk_is_not_empty st trimmed;
    Ok (Some (set_mode st EndedPatch))
  else
    match Str.strip_prefix ADD_FILE_MARKER trimmed with
    | Some path =>
        _ ← ensure_update_hunk_is_not_empty st trimmed;
        Ok (Some (set_mode (set_hunks st (hunks st ++ [AddFile path []])) InAddFile))
    | None =>
        match Str.strip_prefix DELETE_FILE_MARKER trimmed with
        | Some path =>
            _ ← ensure_update_hunk_is_not_empty st trimmed;
            Ok (Some (set_mode (set_hunks st (hunks st ++ [DeleteFile path])) InDeleteFile))
        | None =>
            match Str.strip_prefix UPDATE_FILE_MARKER trimmed with
            | Some path =>
                _ ← ensure_update_hunk_is_not_empty st trimmed;
                Ok (Some (set_mode (set_hunks st (hunks st ++ [UpdateFile path None []]))
                                   (InUpdateFile (line_number st))))
            | None => Ok None
            end
        end
    end.

(** Replaces the last hunk ([hunks.last_mut()]). *)
Definition set_last {A} (l : list A) (x : A) : list A := take (length l - 1) l ++ [x].

Definition empty_chunk (ctx : option str) : UpdateFileChunk := mkChunk ctx [] [] false.

(** [if chunks.is_empty() { push an empty chunk }; chunks.last_mut() <- f]. *)
Definition edit_last_chunk (f : UpdateFileChunk -> UpdateFileChunk) (chunks : list UpdateFileChunk)
    : list UpdateFileChunk :=
  let chunks := match chunks with [] => [empty_chunk None] | _ => chunks end in
  match last chunks with
  | Some c => set_last chunks (f c)
  | None => chunks
  end.

Definition push_old_new (old new : list str) (c : UpdateFileChunk) : UpdateFileChunk :=
  mkChunk (change_context c) (old_lines c ++ old) (new_lines c ++ new) (is_end_of_file c).
Definition set_eof (c : UpdateFileChunk) : UpdateFileChunk :=
  mkChunk (change_context c) (old_lines c) (new_lines c) true.

(** The body of an Update File hunk, after the header check: the new move path
    and chunks, or the error. *)
Definition update_hunk_line (line update_line : str) (ln : nat) (move_path : option str)
    (chunks : list UpdateFileChunk) : result ParseError (option str * list UpdateFileChunk) :=
  let move_to :=
    match chunks, move_path with
    | [], None => Str.strip_prefix MOVE_TO_MARKER update_line
    | _, _ => None
    end in
  match move_to with
  | Some p => Ok (Some p, chunks)
  | None =>
      if (bool_decide (update_line = EMPTY_CHANGE_CONTEXT_MARKER)
          || Str.starts_with CHANGE_CONTEXT_MARKER update_line)
         && last_chunk_is_blank chunks
      then Err (InvalidHunkError (msg_unexpected_line line) ln)
      else if decide (update_line = EMPTY_CHANGE_CONTEXT_MARKER) then
        Ok (move_path, chunks ++ [empty_chunk None])
      else
        match Str.strip_prefix CHANGE_CONTEXT_MARKER update_line with
        | Some ctx => Ok (move_path, chunks ++ [empty_chunk (Some ctx)])
        | None =>
            if decide (update_line = EOF_MARKER) then
              if last_chunk_is_blank chunks then Err (InvalidHunkError msg_no_lines ln)
              else Ok (move_path,
                       match last chunks with
                       | Some c => set_last chunks (set_eof c)
                       | None => chunks
                       end)
            else
              match line with
              | [] => Ok (move_path, edit_last_chunk (push_old_new [[]] [[]]) chunks)
              | c :: rest =>
                  if (c =? ch " ")%N then
                    Ok (move_path, edit_last_chunk (push_old_new [rest] [rest]) chunks)
                  else if (c =? ch "+")%N then
                    Ok (move_path, edit_last_chunk (push_old_new [] [rest]) chunks)
                  else if (c =? ch "-")%N then
                    Ok (move_path, edit_last_chunk (push_old_new [rest] []) chunks)
                  else if from_option (fun c => negb (chunk_is_blank c)) false (last chunks) then
                    Err (InvalidHunkError (msg_expected_context line) ln)
                  else Err (InvalidHunkError (msg_unexpected_line line) ln)
              end
        end
  end.

Definition process_line (st : StreamingPatchParser) (line : str)
    : result ParseError StreamingPatchParser :=
  let trimmed := Str.trim line in
  let bad_header := Err (InvalidHunkError (msg_bad_header trimmed) (line_number st)) in
  match mode st with
  | NotStarted =>
      if decide (trimmed = BEGIN_PATCH_MARKER) then Ok (set_mode st StartedPatch)
      else Err (InvalidPatchError msg_first_line)
  | StartedPatch =>
      if is_environment_id_preamble_line line then Ok st
      else
        handled ← handle_hunk_headers_and_end_patch st trimmed;
        match handled with Some st' => Ok st' | None => bad_header end
  | InAddFile =>
      handled ← handle_hunk_headers_and_end_patch st trimmed;
      match handled with
      | Some st' => Ok st'
      | None =>
          match Str.strip_prefix $"+" line, last (hunks st) with
          | Some line_to_add, Some (AddFile path contents) =>
              Ok (set_hunks st (set_last (hunks st)
                                  (AddFile path (contents ++ line_to_add ++ [newline]))))
          | _, _ => bad_header
          end
      end
  | InDeleteFile =>
      handled ← handle_hunk_headers_and_end_patch st trimmed;
      match handled with Some st' => Ok st' | None => bad_header end
  | InUpdateFile _ =>
      let update_line := Str.trim_end line in
      handled ← handle_hunk_headers_and_end_patch st update_line;
      match handled with
      | Some st' => Ok st'
      | None =>
          match last (hunks st) with
          | Some (UpdateFile path move_path chunks) =>
              '(move_path, chunks) ←
                update_hunk_line line update_line (line_number st) move_path chunks;
              Ok (set_hunks st (set_last (hunks st) (UpdateFile path move_path chunks)))
          | _ => Err (InvalidHunkError (msg_unexpected_line line) (line_number st))
          end
      end
  | EndedPatch => Ok st
  end.

(** ** Entry points *)

(** One character of [push_delta]: the state after it, and the error that ends
    the loop.  An error leaves the buffer taken and the line counted. *)
Definition push_char (st : StreamingPatchParser) (c : char)
    : StreamingPatchParser * result ParseError unit :=
  if (c =? newline)%N then
    let line := Str.strip_cr (line_buffer st) in
    let st := mkParser [] (mode st) (hunks st) (line_number st + 1) in
    match process_line st line with
    | Ok st' => (st', Ok tt)
    | Err e => (st, Err e)
    end
  else (mkParser (line_buffer st ++ [c]) (mode st) (hunks st) (line_number st), Ok tt).

Fixpoint push_chars (st : StreamingPatchParser) (delta : str)
    : StreamingPatchParser * result ParseError unit :=
  match delta with
  | [] => (st, Ok tt)
  | c :: delta' =>
      match push_char st c with
      | (st', Ok _) => push_chars st' delta'
      | (st', Err e) => (st', Err e)
      end
  end.

Definition push_delta (st : StreamingPatchParser) (delta : str)
    : StreamingPatchParser * result ParseError (list Hunk) :=
  let '(st', r) := push_chars st delta in
  (st', match r with Ok _ => Ok (hunks st') | Err e => Err e end).

Definition finish (st : StreamingPatchParser)
    : StreamingPatchParser * result ParseError (list Hunk) :=
  let '(st', r) :=
    match line_buffer st with
    | [] => (st, Ok tt)
    | line =>
        let st := mkParser [] (mode st) (hunks st) (line_number st + 1) in
        if decide (Str.trim line = END_PATCH_MARKER) then
          match ensure_update_hunk_is_not_empty st (Str.trim line) with
          | Ok _ => (set_mode st EndedPatch, Ok tt)
          | Err e => (st, Err e)
          end
        else
          match process_line st line with
          | Ok st' => (st', Ok tt)
          | Err e => (st, Err e)
          end
    end in
  (st', match r with
        | Err e => Err e
        | Ok _ =>
            match mode st' with
            | EndedPatch => Ok (hunks st')
            | _ => Err (InvalidPatchError msg_last_line)
            end
        end).

Arguments process_line : simpl never.
Arguments handle_hunk_headers_and_end_patch : simpl never.
Arguments update_hunk_line : simpl never.

(** ** Reachable states *)

Definition step (st st' : StreamingPatchParser) : Prop :=
  exists c r, push_char st c = (st', r).
Definition reachable (st : StreamingPatchParser) : Prop := rtc step default st.

(** The hunk being read: its chunks but the last one hold a line. *)
Definition open_hunk_wf (h : Hunk) : Prop :=
  match h with
  | UpdateFile _ _ chunks =>
      chunks = [] \/ exists cs c, chunks = cs ++ [c] /\ Forall chunk_wf cs
  | AddFile _ _ | DeleteFile _ => True
  end.

(** The mode names the kind of the last hunk; the hunks before it are complete. *)
Definition mode_matches (m : StreamingParserMode) (h : Hunk) : Prop :=
  match m, h with
  | InAddFile, AddFile _ _ | InDeleteFile, DeleteFile _ | InUpdateFile _, UpdateFile _ _ _ => True
  | _, _ => False
  end.
Definition inv (st : StreamingPatchParser) : Prop :=
  match mode st with
  | NotStarted | StartedPatch => hunks st = []
  | InAddFile | InDeleteFile | InUpdateFile _ =>
      exists hs h, hunks st = hs ++ [h] /\ mode_matches (mode st) h /\
        Forall hunk_wf hs /\ open_hunk_wf h
  | EndedPatch => Forall hunk_wf (hunks st)
  end.

(** ** Lemmas: lists of hunks and chunks *)

Lemma set_last_snoc {A} (l : list A) x y : set_last (l ++ [x]) y = l ++ [y].
Proof.
  unfold set_last. rewrite length_app. simpl.
  replace (length l + 1 - 1) with (length l) by lia. by rewrite take_app_length.
Qed.

Lemma chunk_is_blank_wf c : chunk_is_blank c = false <-> chunk_wf c.
Proof.
  unfold chunk_is_blank, chunk_wf.
  destruct (old_lines c), (new_lines c); naive_solver.
Qed.

Lemma last_chunk_is_blank_snoc cs c : last_chunk_is_blank (cs ++ [c]) = chunk_is_blank c.
Proof. unfold last_chunk_is_blank. by rewrite last_snoc. Qed.

Lemma edit_last_chunk_snoc f cs c : edit_last_chunk f (cs ++ [c]) = cs ++ [f c].
Proof.
  unfold edit_last_chunk. destruct (cs ++ [c]) eqn:E; [by destruct cs|].
  rewrite <- E, last_snoc. apply set_last_snoc.
Qed.

Lemma ensure_closes st line hs h :
  ensure_update_hunk_is_not_empty st line = Ok tt ->
  hunks st = hs ++ [h] -> mode_matches (mode st) h -> open_hunk_wf h -> hunk_wf h.
Proof.
  unfold ensure_update_hunk_is_not_empty. intros He Hh Hm Hw. rewrite Hh, last_snoc in He.
  destruct h as [| |p mv cs]; [done..|]. simpl in *.
  destruct (mode st) eqn:Em; try done.
  destruct Hw as [->|(cs' & c & -> & Hcs)]; [done|].
  split; [by destruct cs'|]. apply Forall_app. split; [done|]. apply Forall_singleton.
  apply chunk_is_blank_wf. rewrite <- last_chunk_is_blank_snoc with (cs := cs').
  destruct (cs' ++ [c]) eqn:E; [by destruct cs'|].
  rewrite <- E in *. destruct (last_chunk_is_blank (cs' ++ [c])); [|done].
  by case_decide.
Qed.

Lemma ensure_all_wf st line :
  inv st -> ensure_update_hunk_is_not_empty st line = Ok tt -> Forall hunk_wf (hunks st).
Proof.
  unfold inv. intros Hi He. destruct (mode st) eqn:Em; try (by rewrite Hi); try done.
  all: destruct Hi as (hs & h & Hh & Hm & Hs & Hw); rewrite Hh; apply Forall_app;
    (split; [done|]); apply Forall_singleton; eapply ensure_closes; eauto; by rewrite Em.
Qed.

(** ** Preservation of the invariant *)

Lemma handle_headers_inv st trimmed st' :
  inv st -> handle_hunk_headers_and_end_patch st trimmed = Ok (Some st') -> inv st'.
Proof.
  intros Hi. unfold handle_hunk_headers_and_end_patch. intros H.
  case_all_in H; inv_bind; destruct x; simplify_eq;
    pose proof (ensure_all_wf _ _ Hi Hx) as Hall; try done.
  all: unfold inv; simpl; eexists _, _; split_and!; try done; by left.
Qed.

Lemma edit_last_chunk_open f chunks :
  (chunks = [] \/ exists cs c, chunks = cs ++ [c] /\ Forall chunk_wf cs) ->
  exists cs c, edit_last_chunk f chunks = cs ++ [c] /\ Forall chunk_wf cs.
Proof.
  intros [->|(cs & c & -> & Hcs)].
  - exists [], (f (empty_chunk None)). by split; [|constructor].
  - exists cs, (f c). by rewrite edit_last_chunk_snoc.
Qed.

Lemma update_hunk_line_open line ul ln mv chunks mv' chunks' p :
  open_hunk_wf (UpdateFile p mv chunks) ->
  update_hunk_line line ul ln mv chunks = Ok (mv', chunks') ->
  open_hunk_wf (UpdateFile p mv' chunks').
Proof.
  intros Hw. unfold update_hunk_line. intros H.
  assert (forall f, open_hunk_wf (UpdateFile p mv' (edit_last_chunk f chunks))) as Hedit
    by (intros f; right; by apply edit_last_chunk_open).
  assert (forall ctx, last_chunk_is_blank chunks = false ->
            open_hunk_wf (UpdateFile p mv' (chunks ++ [empty_chunk ctx]))) as Hpush.
  { intros ctx Hb. right. exists chunks, (empty_chunk ctx). split; [done|].
    destruct Hw as [->|(cs & c & -> & Hcs)]; [done|]. apply Forall_app.
    split; [done|]. apply Forall_singleton, chunk_is_blank_wf.
    by rewrite <- last_chunk_is_blank_snoc with (cs := cs). }
  assert (open_hunk_wf (UpdateFile p mv' (match last chunks with
            | Some c => set_last chunks (set_eof c) | None => chunks end))) as Heof.
  { destruct Hw as [->|(cs & c & -> & Hcs)]; [by left|right].
    rewrite last_snoc, set_last_snoc. eauto. }
  destruct (last_chunk_is_blank chunks) eqn:Eb.
  all: rewrite ?andb_true_r, ?andb_false_r in H.
  all: repeat (simplify_eq/=; try done; try (by auto);
         match type of H with
         | context [match ?x with _ => _ end] => destruct x eqn:?
         | context [if ?x then _ else _] => destruct x eqn:?
         end); simplify_eq/=; try done; auto.
  all: match goal with
       | Hb : _ || Str.starts_with _ ?u = false, Hs : Str.strip_prefix _ ?u = Some _ |- _ =>
           apply orb_false_iff in Hb as [_ Hb]; unfold Str.starts_with in Hb;
           by rewrite Hs in Hb
       | Hb : bool_decide _ || _ = false |- _ =>
           by rewrite bool_decide_eq_true_2 in Hb
       end.
Qed.

Lemma process_line_inv st line st' :
  inv st -> process_line st line = Ok st' -> inv st'.
Proof.
  intros Hi. unfold process_line. intros H. destruct (mode st) eqn:Em.
  - case_decide; [|done]. injection H as <-. unfold inv in *. by rewrite Em in Hi.
  - destruct (is_environment_id_preamble_line line); [by injection H as <-|].
    inv_bind. destruct x; [|done]. simplify_eq. by eapply handle_headers_inv.
  - inv_bind. destruct x; [simplify_eq; by eapply handle_headers_inv|].
    case_all_in H. unfold inv in *. rewrite Em in Hi. simpl. rewrite Em.
    destruct Hi as (hs & h & Hh & Hm & Hs & Hw). rewrite Hh, set_last_snoc.
    by eexists _, _.
  - inv_bind. destruct x; [|done]. simplify_eq. by eapply handle_headers_inv.
  - inv_bind. destruct x; [simplify_eq; by eapply handle_headers_inv|].
    case_all_in H. inv_bind. destruct x as [mv' cs']. simplify_eq.
    unfold inv in *. rewrite Em in Hi. simpl. rewrite Em.
    destruct Hi as (hs & h & Hh & Hm & Hs & Hw). rewrite Hh, last_snoc in *. simplify_eq.
    rewrite set_last_snoc. eexists _, _. split_and!; try done.
    by eapply update_hunk_line_open.
  - by injection H as <-.
Qed.

Lemma push_char_inv st c st' r : inv st -> push_char st c = (st', r) -> inv st'.
Proof.
  intros Hi. unfold push_char. destruct (c =? newline)%N; [|by intros [= <- _]].
  destruct (process_line _ _) eqn:E; intros [= <- _]; [|done].
  by eapply process_line_inv in E.
Qed.

Lemma reachable_inv st : reachable st -> inv st.
Proof.
  intros Hr. apply (rtc_ind_r inv default) with (1 := eq_refl) in Hr; [done|].
  intros st1 st2 _ (c & r & Hp) Hi. by eapply push_char_inv.
Qed.

Lemma finish_inv st st' r : inv st -> finish st = (st', r) -> inv st'.
Proof.
  intros Hi. unfold finish. destruct (line_buffer st) as [|c b]; [by intros [= <- _]|].
  case_decide as Ht.
  - destruct (ensure_update_hunk_is_not_empty _ _) as [[]|] eqn:E; intros [= <- _]; [|done].
    apply ensure_all_wf in E; [|done]. done.
  - destruct (process_line _ _) eqn:E; intros [= <- _]; [|done].
    by eapply process_line_inv in E.
Qed.

Lemma finish_Ok_ended st st' hs :
  finish st = (st', Ok hs) -> mode st' = EndedPatch /\ hs = hunks st'.
Proof.
  unfold finish. destruct (match line_buffer st with [] => _ | _ => _ end) as [st1 r].
  destruct r; [|done]. destruct (mode st1) eqn:E; intros [= <- <-]; done.
Qed.

(** ** Running over complete lines *)

(** What [push_char] does at the end of a line. *)
Definition bump (st : StreamingPatchParser) : StreamingPatchParser :=
  mkParser [] (mode st) (hunks st) (line_number st + 1).
Fixpoint run_lines (st : StreamingPatchParser) (lines : list str)
    : result ParseError StreamingPatchParser :=
  match lines with
  | [] => Ok st
  | l :: ls => st' ← process_line (bump st) l; run_lines st' ls
  end.

Lemma run_lines_app st a b :
  run_lines st (a ++ b) = (st' ← run_lines st a; run_lines st' b).
Proof.
  revert st; induction a as [|l a IH]; intros st; simpl; [done|].
  destruct (process_line (bump st) l); simpl; [apply IH|done].
Qed.

(** The last hunk is complete: the next header is accepted. *)
Definition closed (hs : list Hunk) : Prop :=
  match last hs with
  | Some (UpdateFile _ _ chunks) => chunks <> [] /\ last_chunk_is_blank chunks = false
  | _ => True
  end.

Lemma ensure_closed st line :
  closed (hunks st) -> ensure_update_hunk_is_not_empty st line = Ok tt.
Proof.
  unfold closed, ensure_update_hunk_is_not_empty. destruct (last (hunks st)) as [h|]; [|done].
  destruct h as [| |p mv cs]; [done..|]. intros [Hne ->]. by destruct cs.
Qed.

(** Modes in which a hunk header is expected next. *)
Definition header_mode (m : StreamingParserMode) : Prop :=
  match m with StartedPatch | InAddFile | InDeleteFile | InUpdateFile _ => True | _ => False end.

Import Grammar.

Ltac marker_line :=
  rewrite ?trim_marker by (done || no_newline);
  rewrite ?name_wf_trim_end by (apply name_wf_app; [no_newline|done]).

Lemma process_add_header st p :
  header_mode (mode st) -> closed (hunks st) -> name_wf p ->
  process_line st (ADD_FILE_MARKER ++ p) =
  Ok (set_mode (set_hunks st (hunks st ++ [AddFile p []])) InAddFile).
Proof.
  intros Hm Hc Hp. unfold process_line. marker_line.
  assert (handle_hunk_headers_and_end_patch st (ADD_FILE_MARKER ++ p) =
    Ok (Some (set_mode (set_hunks st (hunks st ++ [AddFile p []])) InAddFile))) as H.
  { unfold handle_hunk_headers_and_end_patch. rewrite decide_False by done.
    by rewrite Str.strip_prefix_app, ensure_closed. }
  destruct (mode st); try done; by rewrite H.
Qed.

Lemma process_delete_header st p :
  header_mode (mode st) -> closed (hunks st) -> name_wf p ->
  process_line st (DELETE_FILE_MARKER ++ p) =
  Ok (set_mode (set_hunks st (hunks st ++ [DeleteFile p])) InDeleteFile).
Proof.
  intros Hm Hc Hp. unfold process_line. marker_line.
  assert (handle_hunk_headers_and_end_patch st (DELETE_FILE_MARKER ++ p) =
    Ok (Some (set_mode (set_hunks st (hunks st ++ [DeleteFile p])) InDeleteFile))) as H.
  { unfold handle_hunk_headers_and_end_patch. rewrite decide_False by done.
    change (Str.strip_prefix ADD_FILE_MARKER (DELETE_FILE_MARKER ++ p)) with (@None str).
    by rewrite Str.strip_prefix_app, ensure_closed. }
  destruct (mode st); try done; by rewrite H.
Qed.

Lemma process_update_header st p :
  header_mode (mode st) -> closed (hunks st) -> name_wf p ->
  process_line st (UPDATE_FILE_MARKER ++ p) =
  Ok (set_mode (set_hunks st (hunks st ++ [UpdateFile p None []])) (InUpdateFile (line_number st))).
Proof.
  intros Hm Hc Hp. unfold process_line. marker_line.
  assert (handle_hunk_headers_and_end_patch st (UPDATE_FILE_MARKER ++ p) =
    Ok (Some (set_mode (set_hunks st (hunks st ++ [UpdateFile p None []]))
                       (InUpdateFile (line_number st))))) as H.
  { unfold handle_hunk_headers_and_end_patch. rewrite decide_False by done.
    change (Str.strip_prefix ADD_FILE_MARKER (UPDATE_FILE_MARKER ++ p)) with (@None str).
    change (Str.strip_prefix DELETE_FILE_MARKER (UPDATE_FILE_MARKER ++ p)) with (@None str).
    by rewrite Str.strip_prefix_app, ensure_closed. }
  destruct (mode st); try done; by rewrite H.
Qed.

Lemma process_end st :
  header_mode (mode st) -> closed (hunks st) ->
  process_line st END_PATCH_MARKER = Ok (set_mode st EndedPatch).
Proof.
  intros Hm Hc. unfold process_line.
  change (Str.trim END_PATCH_MARKER) with END_PATCH_MARKER.
  change (Str.trim_end END_PATCH_MARKER) with END_PATCH_MARKER.
  assert (handle_hunk_headers_and_end_patch st END_PATCH_MARKER =
    Ok (Some (set_mode st EndedPatch))) as H.
  { unfold handle_hunk_headers_and_end_patch. by rewrite decide_True, ensure_closed. }
  destruct (mode st); try done; by rewrite H.
Qed.

(** A line that starts with none of the marker characters is not a header. *)
Lemma headers_none st c s :
  c <> ch "*" -> handle_hunk_headers_and_end_patch st (c :: s) = Ok None.
Proof.
  intros Hc. unfold handle_hunk_headers_and_end_patch.
  rewrite decide_False by (intros [= -> _]; done).
  assert (forall m, head m = Some (ch "*") -> Str.strip_prefix m (c :: s) = None) as Hn.
  { intros [|x m]; [done|]. intros [= ->]. unfold Str.strip_prefix.
    destruct (N.eqb_spec (ch "*") c); [congruence|done]. }
  by rewrite !Hn.
Qed.

Lemma headers_none_nil st : handle_hunk_headers_and_end_patch st [] = Ok None.
Proof. reflexivity. Qed.

Lemma headers_none_move st s :
  handle_hunk_headers_and_end_patch st (MOVE_TO_MARKER ++ s) = Ok None.
Proof. unfold handle_hunk_headers_and_end_patch. by rewrite decide_False. Qed.

Lemma headers_none_eof st : handle_hunk_headers_and_end_patch st EOF_MARKER = Ok None.
Proof. reflexivity. Qed.

(** ** Add File bodies *)

Lemma run_add_lines st hs p acc ls :
  mode st = InAddFile -> hunks st = hs ++ [AddFile p acc] ->
  run_lines st (cons (ch "+") <$> ls) =
  Ok (mkParser (match ls with [] => line_buffer st | _ => [] end) InAddFile
        (hs ++ [AddFile p (acc ++ denote_contents ls)]) (line_number st + length ls)).
Proof.
  revert st acc; induction ls as [|l ls IH]; intros st acc Hm Hh.
  - unfold denote_contents. csimpl. rewrite app_nil_r, Nat.add_0_r, <- Hh, <- Hm.
    by destruct st.
  - rewrite fmap_cons. cbn [run_lines]. unfold process_line.
    cbn [bump mode hunks line_number]. rewrite Hm.
    rewrite Str.trim_cons_keep, headers_none by done. cbn [mbind result_bind].
    change (Str.strip_prefix $"+" (ch "+" :: l)) with (Some l).
    rewrite Hh, last_snoc. cbn [mbind result_bind]. rewrite set_last_snoc.
    erewrite IH by done. cbn. unfold denote_contents. csimpl.
    f_equal. f_equal; [by destruct ls|by rewrite <- !app_assoc|lia].
Qed.

(** ** Update File bodies *)

Lemma process_update_body st n hs p mv cs line mv' cs' :
  mode st = InUpdateFile n -> hunks st = hs ++ [UpdateFile p mv cs] ->
  handle_hunk_headers_and_end_patch st (Str.trim_end line) = Ok None ->
  update_hunk_line line (Str.trim_end line) (line_number st) mv cs = Ok (mv', cs') ->
  process_line st line = Ok (set_hunks st (hs ++ [UpdateFile p mv' cs'])).
Proof.
  intros Hm Hh Hn Hu. unfold process_line. rewrite Hm, Hn. cbn [mbind result_bind].
  rewrite Hh, last_snoc, Hu. cbn [mbind result_bind]. by rewrite set_last_snoc.
Qed.

Lemma update_line_context ctx line ln mv cs :
  from_option name_wf True ctx -> last_chunk_is_blank cs = false ->
  update_hunk_line line (print_context ctx) ln mv cs = Ok (mv, cs ++ [empty_chunk ctx]).
Proof.
  intros Hc Hb. unfold update_hunk_line. rewrite Hb, andb_false_r.
  assert ((match cs, mv with
           | [], None => Str.strip_prefix MOVE_TO_MARKER (print_context ctx)
           | _, _ => None
           end) = None) as ->.
  { destruct cs, mv; try done. by destruct ctx. }
  destruct ctx as [s|]; cbn [print_context].
  - rewrite decide_False, Str.strip_prefix_app; [done|].
    intros H. apply (f_equal length) in H. rewrite length_app in H.
    change (3 + length s = 2) in H. lia.
  - by rewrite decide_True.
Qed.

(** Lines that start with a change character match none of the markers. *)
Lemma change_line_no_marker c u m :
  u = [] \/ (exists t, u = c :: t) -> c = ch " " \/ c = ch "+" \/ c = ch "-" ->
  head m = Some (ch "*") \/ head m = Some (ch "@") ->
  u <> m /\ Str.strip_prefix m u = None.
Proof.
  intros Hu Hc Hm. destruct m as [|x m]; [naive_solver|]. simpl in Hm.
  destruct Hu as [->|[t ->]]; [by split|].
  destruct Hm as [[= ->]|[= ->]], Hc as [->|[->| ->]];
    (split; [intros H; discriminate H|reflexivity]).
Qed.

Lemma process_change st n hs p mv cs k c :
  mode st = InUpdateFile n -> hunks st = hs ++ [UpdateFile p mv (cs ++ [k])] ->
  process_line st (print_change c) =
  Ok (set_hunks st (hs ++ [UpdateFile p mv (cs ++ [push_old_new (old_of c) (new_of c) k])])).
Proof.
  intros Hm Hh.
  assert (exists x s, print_change c = x :: s /\ (x = ch " " \/ x = ch "+" \/ x = ch "-"))
    as (x & s & Hx & Hcase) by (destruct c; simpl; eauto 7).
  assert (Str.trim_end (x :: s) = [] \/ exists t, Str.trim_end (x :: s) = x :: t) as Hu
    by apply Str.trim_end_head.
  pose proof (fun m => change_line_no_marker x (Str.trim_end (x :: s)) m Hu Hcase) as Hno.
  eapply process_update_body; [done..| |].
  - rewrite Hx. unfold handle_hunk_headers_and_end_patch.
    rewrite decide_False by (apply Hno; by left).
    by rewrite !(fun m H => proj2 (Hno m H)) by (by left).
  - rewrite Hx. unfold update_hunk_line.
    destruct (cs ++ [k]) eqn:E; [by destruct cs|]. rewrite <- E.
    rewrite bool_decide_eq_false_2 by (apply Hno; by right).
    rewrite decide_False by (apply Hno; by right).
    unfold Str.starts_with. rewrite (proj2 (Hno CHANGE_CONTEXT_MARKER (or_intror eq_refl))).
    rewrite decide_False by (apply Hno; by left). cbn [orb andb].
    rewrite !edit_last_chunk_snoc. destruct c; cbn in Hx; by simplify_eq.
Qed.

Lemma run_changes st n hs p mv cs k body :
  mode st = InUpdateFile n -> hunks st = hs ++ [UpdateFile p mv (cs ++ [k])] ->
  line_buffer st = [] ->
  run_lines st (print_change <$> body) =
  Ok (mkParser [] (InUpdateFile n)
        (hs ++ [UpdateFile p mv (cs ++ [push_old_new (concat (old_of <$> body))
                                          (concat (new_of <$> body)) k])])
        (line_number st + length body)).
Proof.
  revert st k; induction body as [|c body IH]; intros st k Hm Hh Hb.
  - csimpl. unfold push_old_new. rewrite !app_nil_r, Nat.add_0_r.
    destruct st, k; simpl in *; by subst.
  - rewrite !fmap_cons. cbn [run_lines].
    erewrite process_change; [|exact Hm|exact Hh]. cbn [mbind result_bind].
    erewrite IH; [|exact Hm|reflexivity|reflexivity]. cbn.
    unfold push_old_new. cbn. rewrite <- !app_assoc. do 2 f_equal. lia.
Qed.

Lemma body_not_blank body ctx :
  body <> [] ->
  chunk_is_blank (push_old_new (concat (old_of <$> body)) (concat (new_of <$> body))
                    (empty_chunk ctx)) = false.
Proof.
  destruct body as [|x body]; [done|]. intros _. apply chunk_is_blank_wf.
  unfold chunk_wf. destruct x; cbn; auto.
Qed.

Lemma run_chunk st n hs p mv cs c :
  mode st = InUpdateFile n -> hunks st = hs ++ [UpdateFile p mv cs] ->
  chunk_src_wf c -> last_chunk_is_blank cs = false ->
  run_lines st (print_chunk c) =
  Ok (mkParser [] (InUpdateFile n) (hs ++ [UpdateFile p mv (cs ++ [denote_chunk c])])
        (line_number st + length (print_chunk c))).
Proof.
  intros Hm Hh (Hctx & Hne & Hbody) Hb. unfold print_chunk. cbn [run_lines].
  assert (Str.trim_end (print_context (src_context c)) = print_context (src_context c)) as Htrim.
  { destruct (src_context c) as [s|]; [|done]. cbn [print_context].
    apply name_wf_trim_end, name_wf_app; [no_newline|done]. }
  erewrite process_update_body; [|exact Hm|exact Hh| |].
  2: { rewrite Htrim. destruct (print_context_head (src_context c)) as [r ->].
       by apply headers_none. }
  2: { rewrite Htrim. by apply update_line_context. }
  cbn [mbind result_bind]. rewrite run_lines_app.
  erewrite run_changes; [|exact Hm|reflexivity|reflexivity]. cbn [mbind result_bind].
  unfold denote_chunk. cbn [length]. rewrite length_app, length_fmap.
  destruct (src_eof c).
  - cbn [run_lines]. erewrite process_update_body with (cs' := cs ++ [mkChunk _ _ _ _]);
      [|reflexivity|reflexivity|apply headers_none_eof|].
    2: { change (Str.trim_end EOF_MARKER) with EOF_MARKER. unfold update_hunk_line.
         rewrite last_chunk_is_blank_snoc, last_snoc, set_last_snoc.
         assert (chunk_is_blank (push_old_new (concat (old_of <$> src_body c))
           (concat (new_of <$> src_body c)) (empty_chunk (src_context c))) = false) as ->.
         { by apply body_not_blank. }
         by destruct cs. }
    unfold set_hunks, bump. cbn. do 2 f_equal. lia.
  - cbn. do 2 f_equal. lia.
Qed.

Lemma denote_chunk_not_blank cs c :
  chunk_src_wf c -> last_chunk_is_blank (cs ++ [denote_chunk c]) = false.
Proof.
  intros (_ & Hne & _). rewrite last_chunk_is_blank_snoc.
  apply (body_not_blank _ (src_context c)) in Hne. exact Hne.
Qed.

Lemma run_chunks st n hs p mv cs srcs :
  mode st = InUpdateFile n -> hunks st = hs ++ [UpdateFile p mv cs] -> line_buffer st = [] ->
  Forall chunk_src_wf srcs -> last_chunk_is_blank cs = false ->
  run_lines st (concat (print_chunk <$> srcs)) =
  Ok (mkParser [] (InUpdateFile n) (hs ++ [UpdateFile p mv (cs ++ (denote_chunk <$> srcs))])
        (line_number st + length (concat (print_chunk <$> srcs)))).
Proof.
  revert st cs; induction srcs as [|c srcs IH]; intros st cs Hm Hh Hlb Hw Hb.
  - csimpl. rewrite app_nil_r, Nat.add_0_r. destruct st; simpl in *; by subst.
  - inversion Hw; subst. rewrite !fmap_cons. cbn [concat]. rewrite run_lines_app.
    erewrite run_chunk by done. cbn [mbind result_bind].
    erewrite IH; [|reflexivity|reflexivity|reflexivity|done|by apply denote_chunk_not_blank].
    cbn [line_number]. rewrite <- app_assoc, length_app. do 2 f_equal. lia.
Qed.

(** ** Hunks *)

Definition mode_of (h : hunk_src) (n : nat) : StreamingParserMode :=
  match h with
  | SrcAdd _ _ => InAddFile
  | SrcDelete _ => InDeleteFile
  | SrcUpdate _ _ _ => InUpdateFile n
  end.

Lemma denote_hunk_closed hs h : hunk_src_wf h -> closed (hs ++ [denote_hunk h]).
Proof.
  unfold closed. rewrite last_snoc. destruct h as [| |p m cs]; [done..|]. simpl.
  intros (_ & _ & Hne & Hw). destruct cs as [|c cs _] using rev_ind; [done|].
  rewrite fmap_app. apply Forall_app in Hw as [_ Hc]. inversion Hc; subst.
  split; [by destruct (denote_chunk <$> cs)|]. by apply denote_chunk_not_blank.
Qed.

Lemma run_hunk st h :
  header_mode (mode st) -> closed (hunks st) -> hunk_src_wf h ->
  run_lines st (print_hunk h) =
  Ok (mkParser [] (mode_of h (line_number st + 1)) (hunks st ++ [denote_hunk h])
        (line_number st + length (print_hunk h))).
Proof.
  intros Hm Hc Hh. destruct h as [p ls|p|p m cs]; simpl in Hh; cbn [print_hunk run_lines].
  - destruct Hh as [Hp _]. rewrite process_add_header by done. cbn [mbind result_bind].
    erewrite run_add_lines by done. cbn. rewrite length_fmap.
    f_equal. f_equal; [by destruct ls|lia].
  - by rewrite process_delete_header.
  - destruct Hh as (Hp & Hmv & Hne & Hcs). rewrite process_update_header by done.
    cbn [mbind result_bind]. rewrite run_lines_app. destruct m as [m|]; cbn [print_move run_lines].
    + assert (name_wf (MOVE_TO_MARKER ++ m)) as Hn by (apply name_wf_app; [no_newline|done]).
      erewrite process_update_body with (mv' := Some m) (cs' := []);
        [|reflexivity|reflexivity|rewrite name_wf_trim_end by done; apply headers_none_move|].
      2: { rewrite name_wf_trim_end by done. unfold update_hunk_line.
           by rewrite Str.strip_prefix_app. }
      cbn [mbind result_bind]. erewrite run_chunks; [|done..]. cbn. do 2 f_equal. lia.
    + cbn [mbind result_bind]. erewrite run_chunks; [|done..]. cbn. do 2 f_equal. lia.
Qed.

Lemma run_hunks st hs :
  header_mode (mode st) -> closed (hunks st) -> line_buffer st = [] -> Forall hunk_src_wf hs ->
  exists m n, header_mode m /\ closed (hunks st ++ (denote_hunk <$> hs)) /\
    run_lines st (print_hunks hs) = Ok (mkParser [] m (hunks st ++ (denote_hunk <$> hs)) n).
Proof.
  intros Hm Hc Hlb Hw. revert st Hm Hc Hlb; induction Hw as [|h hs Hh Hw IH]; intros st Hm Hc Hlb.
  - exists (mode st), (line_number st). csimpl. rewrite app_nil_r.
    split_and!; [done..|]. destruct st; simpl in *; by subst.
  - unfold print_hunks. rewrite !fmap_cons. cbn [concat]. fold (print_hunks hs).
    rewrite run_lines_app, run_hunk by done. cbn [mbind result_bind].
    destruct (IH (mkParser [] (mode_of h (line_number st + 1)) (hunks st ++ [denote_hunk h])
                    (line_number st + length (print_hunk h)))) as (m & n & ? & Hcl & Hr);
      [by destruct h|by apply denote_hunk_closed|done|].
    cbn [hunks] in *. rewrite <- app_assoc in *. eauto.
Qed.

(** ** From characters to lines *)

Lemma push_chars_app st a b :
  push_chars st (a ++ b) =
  match push_chars st a with (st', Ok _) => push_chars st' b | r => r end.
Proof.
  revert st; induction a as [|c a IH]; intros st; simpl; [done|].
  destruct (push_char st c) as [st' [|]]; [apply IH|done].
Qed.

Lemma push_chars_no_newline st l :
  newline ∉ l ->
  push_chars st l = (mkParser (line_buffer st ++ l) (mode st) (hunks st) (line_number st), Ok tt).
Proof.
  revert st; induction l as [|c l IH]; intros st Hl; simpl.
  - rewrite app_nil_r. by destruct st.
  - apply not_elem_of_cons in Hl as [Hc Hl]. unfold push_char.
    destruct (N.eqb_spec c newline); [done|]. rewrite IH by done. simpl. by rewrite <- app_assoc.
Qed.

Lemma process_line_buffer st line st' :
  process_line st line = Ok st' -> line_buffer st' = line_buffer st.
Proof.
  assert (forall t st', handle_hunk_headers_and_end_patch st t = Ok (Some st') ->
            line_buffer st' = line_buffer st) as Hh.
  { intros t st1. unfold handle_hunk_headers_and_end_patch. intros H.
    case_all_in H; inv_bind; by simplify_eq. }
  unfold process_line. intros H.
  destruct (mode st); case_all_in H; try done; inv_bind;
    repeat (case_all_in H; inv_bind); simplify_eq/=; eauto.
Qed.

Lemma push_chars_lines st ls st' :
  line_buffer st = [] -> Forall line_wf ls -> run_lines st ls = Ok st' ->
  push_chars st (concat ((fun l => l ++ [newline]) <$> ls)) = (st', Ok tt) /\ line_buffer st' = [].
Proof.
  intros Hb Hw. revert st Hb; induction Hw as [|l ls Hl Hw IH]; intros st Hb; cbn [run_lines].
  - intros [= <-]. done.
  - intros H. inv_bind. rewrite fmap_cons. cbn [concat].
    rewrite <- app_assoc, push_chars_app, push_chars_no_newline by apply Hl. rewrite Hb. simpl.
    unfold push_char. cbn [line_buffer mode hunks line_number].
    rewrite N.eqb_refl, strip_cr_line by done. unfold bump in Hx. rewrite Hx.
    apply IH; [|done]. apply process_line_buffer in Hx. done.
Qed.

(** The caller's loop: one [push_delta] per delta, stopping at the first error. *)
Fixpoint feed (st : StreamingPatchParser) (deltas : list str)
    : StreamingPatchParser * result ParseError unit :=
  match deltas with
  | [] => (st, Ok tt)
  | d :: ds =>
      match push_delta st d with
      | (st', Ok _) => feed st' ds
      | (st', Err e) => (st', Err e)
      end
  end.

Lemma feed_concat st ds : feed st ds = push_chars st (concat ds).
Proof.
  revert st; induction ds as [|d ds IH]; intros st; simpl; [done|].
  rewrite push_chars_app. unfold push_delta.
  destruct (push_chars st d) as [st' [|]]; simpl; [apply IH|done].
Qed.

Lemma join_newline ls l :
  Str.join [newline] (ls ++ [l]) = concat ((fun l => l ++ [newline]) <$> ls) ++ l.
Proof.
  induction ls as [|a ls IH]; [done|]. rewrite fmap_cons. cbn [concat].
  rewrite <- !app_assoc, <- IH, <- app_comm_cons. by destruct ls.
Qed.

Lemma run_print e hs :
  environment_wf e -> Forall hunk_src_wf hs ->
  exists m n, header_mode m /\ closed (denote_hunk <$> hs) /\
    run_lines default (BEGIN_PATCH_MARKER :: print_environment e ++ print_hunks hs) =
    Ok (mkParser [] m (denote_hunk <$> hs) n).
Proof.
  intros He Hh. cbn [run_lines].
  change (process_line (bump default) BEGIN_PATCH_MARKER) with
    (Ok (E := ParseError) (mkParser [] StartedPatch [] 1)). cbn [mbind result_bind].
  rewrite run_lines_app.
  assert (run_lines (mkParser [] StartedPatch [] 1) (print_environment e) =
    Ok (mkParser [] StartedPatch [] (match e with None => 1 | Some _ => 2 end))) as ->.
  { destruct e as [i|]; cbn [print_environment run_lines]; [|done].
    unfold process_line. cbn [bump mode]. unfold is_environment_id_preamble_line, Str.starts_with.
    by rewrite Str.strip_prefix_app. }
  cbn [mbind result_bind].
  by apply (run_hunks (mkParser [] StartedPatch [] _) hs).
Qed.

Lemma feed_print e hs ds :
  environment_wf e -> Forall hunk_src_wf hs -> concat ds = print_patch e hs ->
  exists st, feed default ds = (st, Ok tt) /\ (finish st).2 = Ok (denote_hunk <$> hs).
Proof.
  intros He Hh Hds. rewrite feed_concat, Hds. unfold print_patch, print_lines.
  destruct (run_print e hs He Hh) as (m & n & Hm & Hc & Hr).
  pose proof (print_lines_wf e hs He Hh) as Hw. unfold print_lines in Hw.
  rewrite app_comm_cons in *. apply Forall_app in Hw as [Hw _].
  rewrite join_newline, push_chars_app.
  destruct (push_chars_lines default _ _ eq_refl Hw Hr) as [-> _].
  rewrite push_chars_no_newline by no_newline. eexists. split; [done|].
  unfold finish. cbn [line_buffer mode hunks line_number app].
  change (Str.trim END_PATCH_MARKER) with END_PATCH_MARKER.
  destruct END_PATCH_MARKER eqn:E; [done|]. rewrite <- E in *.
  rewrite decide_True, ensure_closed by done. done.
Qed.

(** ** Properties *)

(** C5: However a well-formed patch is cut into deltas, feeding them to the
    streaming parser succeeds, and [finish] returns exactly the hunks the batch
    parser returns for the whole text, which are the hunks the patch denotes. *)
Theorem streaming_agrees_with_batch e hs ds md :
  environment_wf e -> Forall hunk_src_wf hs -> concat ds = print_patch e hs ->
  exists st args, feed default ds = (st, Ok tt) /\
    parse_patch_text (print_patch e hs) md = Ok args /\
    (finish st).2 = Ok (Patch.hunks args) /\ Patch.hunks args = denote_hunk <$> hs.
Proof.
  intros He Hh Hds. destruct (feed_print e hs ds He Hh Hds) as (st & Hf & Hr).
  exists st. eexists. split_and!; [done|by apply parse_print_aux|done|done].
Qed.

(** In every state the streaming parser can reach, by any characters and
    any errors on the way, the mode names the kind of the hunk being read and
    all hunks before it are complete; whatever [finish] returns successfully
    contains only complete hunks (every Update File hunk has a chunk, and every
    chunk a line), and leaves the parser in [EndedPatch]. *)
Theorem streaming_invariant st st' hs :
  reachable st ->
  inv st /\ (finish st = (st', Ok hs) -> mode st' = EndedPatch /\ Forall hunk_wf hs).
Proof.
  intros Hr. apply reachable_inv in Hr. split; [done|]. intros Hf.
  pose proof (finish_inv _ _ _ Hr Hf) as Hi. apply finish_Ok_ended in Hf as [Hm ->].
  split; [done|]. unfold inv in Hi. by rewrite Hm in Hi.
Qed.

(** After the end marker the parser ignores everything: any further text is
    accepted and leaves the hunks unchanged. *)
Theorem ended_patch_is_absorbing st delta st' r :
  mode st = EndedPatch -> push_delta st delta = (st', r) ->
  mode st' = EndedPatch /\ hunks st' = hunks st /\ r = Ok (hunks st).
Proof.
  intros Hm. unfold push_delta. destruct (push_chars st delta) as [st1 r1] eqn:E.
  intros [= <- <-].
  enough (mode st1 = EndedPatch /\ hunks st1 = hunks st /\ r1 = Ok tt) as (-> & -> & ->) by done.
  revert st Hm E; induction delta as [|c delta IH]; intros st Hm; simpl; [by intros [= <- <-]|].
  assert (exists st2, push_char st c = (st2, Ok tt) /\ mode st2 = EndedPatch
            /\ hunks st2 = hunks st) as (st2 & -> & Hm2 & <-); [|by apply IH].
  unfold push_char, process_line. cbn [mode]. rewrite Hm.
  destruct (c =? newline)%N; by eexists.
Qed.

(** ** Witnesses *)

(** Cut after every third character. *)
Fixpoint cut3 (fuel : nat) (s : str) : list str :=
  match fuel with 0 => [s] | S fuel' => take 3 s :: cut3 fuel' (drop 3 s) end.

Lemma streaming_agrees_with_batch_witness :
  exists st args, feed default (cut3 20 (print_patch None demo_hunks)) = (st, Ok tt) /\
    parse_patch_text (print_patch None demo_hunks) Strict = Ok args /\
    (finish st).2 = Ok (Patch.hunks args) /\ Patch.hunks args = denote_hunk <$> demo_hunks.
Proof.
  apply streaming_agrees_with_batch; [exact I|exact demo_hunks_wf|vm_compute; reflexivity].
Defined.

Lemma streaming_invariant_witness :
  inv default /\ (finish default = (default, Ok []) -> mode default = EndedPatch /\ Forall hunk_wf []).
Proof. apply streaming_invariant. apply rtc_refl. Defined.

Lemma ended_patch_is_absorbing_witness :
  exists st', push_delta (mkParser [] EndedPatch [DeleteFile $"a"] 6) (($"junk") ++ [newline]) =
      (st', Ok [DeleteFile $"a"]) /\
    mode st' = EndedPatch /\ hunks st' = [DeleteFile $"a"] /\
    Ok (E := ParseError) [DeleteFile $"a"] = Ok [DeleteFile $"a"].
Proof.
  exists (mkParser [] EndedPatch [DeleteFile $"a"] 7). split; [vm_compute; reflexivity|].
  apply (ended_patch_is_absorbing (mkParser [] EndedPatch [DeleteFile $"a"] 6) (($"junk") ++ [newline])
           (mkParser [] EndedPatch [DeleteFile $"a"] 7) (Ok [DeleteFile $"a"]));
    vm_compute; reflexivity.
Defined.

End Streaming.
