(* ===== verification/Paths.v ===== *)
(** Unix paths ([std::path]) and the absolute, normalised paths of
    [utils/absolute-path]: [absolutize.rs] and the constructors of
    [AbsolutePathBuf] in [lib.rs].  A path is a string; the home directory and the
    current directory, which the code asks the operating system for, are arguments. *)
From S2P Require Import Prelude.

Module Path.

Definition sep : char := ch "/".
Definition dot : str := $".".
Definition dotdot : str := $"..".

(** ** [std::path] on Unix *)

Inductive Component :=
| RootDir
| CurDir
| ParentDir
| Normal (s : str).

#[global] Instance component_eq_dec : EqDecision Component.
Proof. solve_decision. Defined.

Definition is_absolute (path : str) : bool := Str.starts_with [sep] path.

(** A piece between separators; [.] counts only at the start of a relative path. *)
Definition piece_component (start : bool) (p : str) : option Component :=
  if Str.is_empty p then None
  else if decide (p = dot) then (if start then Some CurDir else None)
  else if decide (p = dotdot) then Some ParentDir
  else Some (Normal p).

Definition components (path : str) : list Component :=
  match Str.strip_prefix [sep] path with
  | Some rest => RootDir :: omap (piece_component false) (Str.split sep rest)
  | None =>
      match Str.split sep path with
      | [] => []
      | p :: ps => omap (piece_component true) [p] ++ omap (piece_component false) ps
      end
  end.

(** [PathBuf::push] and [Path::join]. *)
Definition push (path p : str) : str :=
  if is_absolute p then p
  else match last path with
       | Some c => if (c =? sep)%N then path ++ p else path ++ [sep] ++ p
       | None => p
       end.

(** Drops the trailing pieces which are not components. *)
Fixpoint trim_pieces (start : bool) (ps : list str) : list str :=
  match ps with
  | [] => []
  | p :: ps' =>
      match trim_pieces false ps' with
      | [] => match piece_component start p with None => [] | Some _ => [p] end
      | t => p :: t
      end
  end.

Definition parent (path : str) : option str :=
  let rooted := is_absolute path in
  let body := Str.split sep (if rooted then tail path else path) in
  match trim_pieces (negb rooted) body with
  | [] => None
  | t =>
      let rest := trim_pieces (negb rooted) (take (length t - 1) t) in
      Some ((if rooted then [sep] else []) ++ Str.join [sep] rest)
  end.

(** [PathBuf::pop]: a path without parent is left alone. *)
Definition pop (path : str) : str := from_option id path (parent path).

Definition file_name (path : str) : option str :=
  match last (components path) with Some (Normal s) => Some s | _ => None end.

(** ** absolutize.rs *)

Definition normalize_step (normalized : str) (component : Component) : str :=
  match component with
  | CurDir => normalized
  | ParentDir => pop normalized
  | RootDir => push normalized [sep]
  | Normal s => push normalized s
  end.

Definition normalize_path (path : str) : str :=
  let normalized := fold_left normalize_step (components path) [] in
  if Str.is_empty normalized then dot else normalized.

Definition path_with_base (path base_path : str) : str :=
  if is_absolute path then path else push base_path path.

Definition absolutize_from (path base_path : str) : str :=
  normalize_path (path_with_base path base_path).

Definition absolutize (current_dir : result Io.Error str) (path : str) : result Io.Error str :=
  if is_absolute path then Ok (normalize_path path)
  else cwd ← current_dir; Ok (absolutize_from path cwd).

(** ** AbsolutePathBuf *)

Definition maybe_expand_home_directory (home_dir : option str) (path : str) : str :=
  match home_dir, Str.strip_prefix $"~" path with
  | Some home, Some rest =>
      if Str.is_empty rest then home
      else match Str.strip_prefix [sep] rest with
           | Some rest => push home (Str.trim_start_by (N.eqb sep) rest)
           | None => path
           end
  | _, _ => path
  end.

(** [normalize_path_for_platform] off Windows. *)
Definition normalize_path_for_platform (path : str) : str := path.

Definition resolve_path_against_base (home_dir : option str) (path base_path : str) : str :=
  let expanded := maybe_expand_home_directory home_dir path in
  let expanded := normalize_path_for_platform expanded in
  let base_path := normalize_path_for_platform base_path in
  absolutize_from expanded base_path.

Definition from_absolute_path (home_dir : option str) (current_dir : result Io.Error str)
    (path : str) : result Io.Error str :=
  let expanded := maybe_expand_home_directory home_dir path in
  let expanded := normalize_path_for_platform expanded in
  absolutize current_dir expanded.

Definition from_absolute_path_checked (home_dir : option str) (path : str)
    : result Io.Error str :=
  let expanded := maybe_expand_home_directory home_dir path in
  let expanded := normalize_path_for_platform expanded in
  if negb (is_absolute expanded) then
    Err (Io.new Io.InvalidInput ($"path is not absolute: " ++ path))
  else Ok (absolutize_from expanded [sep]).

Definition relative_to_current_dir (home_dir : option str) (current_dir : result Io.Error str)
    (path : str) : result Io.Error str :=
  cwd ← current_dir; Ok (resolve_path_against_base home_dir path cwd).

Definition join (home_dir : option str) (self path : str) : str :=
  resolve_path_against_base home_dir path self.

Arguments push : simpl never.
Arguments pop : simpl never.
Arguments is_absolute : simpl never.

(** ** Normal form

    An absolute normalised path is a stack of names. *)

Definition name_ok (p : str) : Prop := p <> [] /\ (sep ∉ p) /\ p <> dot /\ p <> dotdot.
Definition render (ps : list str) : str := sep :: Str.join [sep] ps.
Definition normal (path : str) : Prop := exists ps, Forall name_ok ps /\ path = render ps.

(** The lexical reading of pieces: [..] drops a name, the root has no parent. *)
Definition lexical_step (stack : list str) (p : str) : list str :=
  if Str.is_empty p then stack
  else if decide (p = dot) then stack
  else if decide (p = dotdot) then take (length stack - 1) stack
  else stack ++ [p].
Definition lexical (stack pieces : list str) : list str := fold_left lexical_step pieces stack.

Lemma is_absolute_spec path : is_absolute path = true <-> exists rest, path = sep :: rest.
Proof. unfold is_absolute. rewrite Str.starts_with_spec. by split; intros [r ->]; exists r. Qed.

Lemma is_absolute_render ps : is_absolute (render ps) = true.
Proof. apply is_absolute_spec. by eexists. Qed.

Lemma name_ok_component p : name_ok p -> piece_component false p = Some (Normal p).
Proof.
  intros (? & _ & ? & ?). unfold piece_component. destruct p; [done|]. simpl.
  by rewrite !decide_False.
Qed.

Lemma name_ok_lexical st p : name_ok p -> lexical_step st p = st ++ [p].
Proof.
  intros (? & _ & ? & ?). unfold lexical_step. destruct p; [done|]. simpl.
  by rewrite !decide_False.
Qed.

Lemma lexical_names st ps : Forall name_ok ps -> lexical st ps = st ++ ps.
Proof.
  intros H. revert st; induction H as [|p ps Hp Hps IH]; intros st; simpl.
  - by rewrite app_nil_r.
  - rewrite name_ok_lexical, IH by done. by rewrite <- app_assoc.
Qed.

Lemma lexical_ok st ps :
  Forall name_ok st -> Forall (fun p => sep ∉ p) ps -> Forall name_ok (lexical st ps).
Proof.
  intros Hst Hps. revert st Hst; induction Hps as [|p ps Hp Hps IH]; intros st Hst; simpl; [done|].
  apply IH. unfold lexical_step. destruct (Str.is_empty p) eqn:E; [done|].
  repeat case_decide; [done|by apply Forall_take|]. apply Forall_app. split; [done|].
  apply Forall_singleton. by split_and!; [intros ->|..].
Qed.

Lemma trim_pieces_names ps : Forall name_ok ps -> trim_pieces false ps = ps.
Proof.
  induction 1 as [|p ps Hp Hps IH]; simpl; [done|]. rewrite IH, name_ok_component by done.
  by destruct ps.
Qed.

Lemma split_join_names ps :
  ps <> [] -> Forall name_ok ps -> Str.split sep (Str.join [sep] ps) = ps.
Proof.
  intros Hne H. apply Str.split_join; [done|]. eapply Forall_impl; [done|]. by intros p (_ & ? & _).
Qed.

Lemma parent_render_snoc ps p :
  Forall name_ok (ps ++ [p]) -> parent (render (ps ++ [p])) = Some (render ps).
Proof.
  intros H. unfold parent. rewrite is_absolute_render. cbn [render tail negb].
  rewrite split_join_names, trim_pieces_names by (done || by destruct ps).
  destruct (ps ++ [p]) as [|x l] eqn:E; [by destruct ps|]. rewrite <- E in *.
  rewrite length_app. simpl. replace (length ps + 1 - 1) with (length ps) by lia.
  apply Forall_app in H as [H _]. by rewrite take_app_length, trim_pieces_names.
Qed.

Lemma parent_root : parent (render []) = None.
Proof. reflexivity. Qed.

Lemma pop_render ps :
  Forall name_ok ps -> pop (render ps) = render (take (length ps - 1) ps).
Proof.
  intros H. unfold pop. destruct ps as [|p ps _] using rev_ind; [done|].
  rewrite parent_render_snoc by done. simpl. rewrite length_app. simpl.
  replace (length ps + 1 - 1) with (length ps) by lia. by rewrite take_app_length.
Qed.

Lemma not_absolute_name p : sep ∉ p -> is_absolute p = false.
Proof.
  intros H. destruct (is_absolute p) eqn:E; [|done].
  apply is_absolute_spec in E as [r ->]. set_solver.
Qed.

Lemma last_render_snoc ps p : name_ok p -> exists c, last (render (ps ++ [p])) = Some c /\ c <> sep.
Proof.
  intros (Hne & Hs & _). destruct p as [|c p _] using rev_ind; [done|].
  exists c. split; [|set_solver].
  assert (exists u, render (ps ++ [p ++ [c]]) = u ++ [c]) as [u ->]; [|by rewrite last_snoc].
  unfold render. destruct ps as [|q ps].
  - by exists (sep :: p).
  - assert (Str.join [sep] ((q :: ps) ++ [p ++ [c]]) =
            (Str.join [sep] (q :: ps) ++ [sep] ++ p) ++ [c]) as ->.
    { rewrite Str.join_snoc by done. by rewrite <- !app_assoc. }
    by exists (sep :: (Str.join [sep] (q :: ps) ++ [sep] ++ p)).
Qed.

Lemma push_render ps p :
  Forall name_ok ps -> name_ok p -> push (render ps) p = render (ps ++ [p]).
Proof.
  intros Hps Hp. unfold push. rewrite not_absolute_name by apply Hp.
  destruct ps as [|q ps _] using rev_ind; [done|].
  apply Forall_app in Hps as [_ Hq]. inversion Hq; subst.
  destruct (last_render_snoc ps q) as (c & -> & Hc); [done|].
  destruct (N.eqb_spec c sep); [done|]. unfold render.
  rewrite (Str.join_snoc _ (ps ++ [q])) by (by destruct ps). done.
Qed.

Lemma fold_components stack pieces :
  Forall name_ok stack -> Forall (fun p => sep ∉ p) pieces ->
  fold_left normalize_step (omap (piece_component false) pieces) (render stack) =
  render (lexical stack pieces).
Proof.
  intros Hst Hps. revert stack Hst; induction Hps as [|p ps Hp Hps IH]; intros st Hst; [done|].
  unfold lexical. cbn [fold_left]. fold (lexical (lexical_step st p) ps).
  assert (Forall name_ok (lexical_step st p)) as Hst'
    by (apply (lexical_ok st [p]); [done|by apply Forall_singleton]).
  rewrite <- IH by done. csimpl. clear IH.
  unfold piece_component, lexical_step in *. destruct (Str.is_empty p) eqn:E; [done|].
  repeat case_decide; simpl; [done|by rewrite pop_render|].
  rewrite push_render; [done..|]. split_and!; try done. by intros ->.
Qed.

Lemma render_ne ps : Str.is_empty (render ps) = false.
Proof. done. Qed.

(** [normalize_path] on an absolute path is the lexical reading of its pieces. *)
Lemma normalize_absolute path :
  is_absolute path = true -> normalize_path path = render (lexical [] (Str.split sep path)).
Proof.
  intros H. apply is_absolute_spec in H as [rest ->]. unfold normalize_path, components.
  change (Str.strip_prefix [sep] (sep :: rest)) with (Some rest).
  pose proof (fold_components [] (Str.split sep rest) (Forall_nil_2 _) (Str.split_pieces sep rest))
    as Hf.
  cbn [fold_left]. change (normalize_step [] RootDir) with (render []). rewrite Hf.
  by rewrite render_ne.
Qed.

Lemma push_absolute base p : is_absolute base = true -> is_absolute (push base p) = true.
Proof.
  intros H. unfold push. destruct (is_absolute p) eqn:E; [done|].
  apply is_absolute_spec in H as [r ->]. apply is_absolute_spec.
  destruct (last (sep :: r)) as [c|] eqn:El; [|by rewrite last_cons in El; destruct (last r)].
  destruct (c =? sep)%N; by eexists.
Qed.

Lemma split_push base p :
  is_absolute base = true -> is_absolute p = false ->
  lexical [] (Str.split sep (push base p)) =
  lexical (lexical [] (Str.split sep base)) (Str.split sep p).
Proof.
  intros Hb Hp. unfold push. rewrite Hp. apply is_absolute_spec in Hb as [r Hr].
  destruct (last base) as [c|] eqn:El; [|rewrite Hr, last_cons in El; by destruct (last r)].
  apply last_Some in El as [b ->].
  destruct (N.eqb_spec c sep) as [->|Hc].
  - rewrite <- app_assoc. simpl. rewrite !Str.split_app. unfold lexical.
    by rewrite !fold_left_app.
  - change ((b ++ [c]) ++ [sep] ++ p) with ((b ++ [c]) ++ sep :: p).
    rewrite Str.split_app. unfold lexical. by rewrite fold_left_app.
Qed.

Lemma path_with_base_absolute path base :
  is_absolute base = true -> is_absolute (path_with_base path base) = true.
Proof.
  intros H. unfold path_with_base. destruct (is_absolute path) eqn:E; [done|].
  by apply push_absolute.
Qed.

Lemma absolutize_from_spec path base :
  is_absolute base = true ->
  absolutize_from path base =
  render (if is_absolute path then lexical [] (Str.split sep path)
          else lexical (lexical [] (Str.split sep base)) (Str.split sep path)).
Proof.
  intros H. unfold absolutize_from. rewrite normalize_absolute by by apply path_with_base_absolute.
  f_equal. unfold path_with_base. destruct (is_absolute path) eqn:E; [done|]. by apply split_push.
Qed.

Lemma absolutize_from_normal path base :
  is_absolute base = true -> normal (absolutize_from path base).
Proof.
  intros H. rewrite absolutize_from_spec by done. eexists. split; [|done].
  destruct (is_absolute path); repeat apply lexical_ok; try apply Str.split_pieces; constructor.
Qed.

Lemma lexical_render ps : Forall name_ok ps -> lexical [] (Str.split sep (render ps)) = ps.
Proof.
  intros H. destruct ps as [|p ps]; [done|].
  change (Str.split sep (render (p :: ps))) with ([] :: Str.split sep (Str.join [sep] (p :: ps))).
  rewrite split_join_names by done. by apply (lexical_names [] (p :: ps)).
Qed.

Lemma render_inj ps qs : render ps = render qs -> Forall name_ok ps -> Forall name_ok qs -> ps = qs.
Proof.
  intros E Hp Hq. rewrite <- (lexical_render ps Hp), <- (lexical_render qs Hq). by rewrite E.
Qed.

Lemma absolutize_from_fixed path base : normal path -> absolutize_from path base = path.
Proof.
  intros (ps & Hps & ->). unfold absolutize_from, path_with_base. rewrite is_absolute_render.
  by rewrite normalize_absolute, lexical_render by (done || apply is_absolute_render).
Qed.

Lemma expand_home_absolute home path :
  is_absolute path = true -> maybe_expand_home_directory home path = path.
Proof. intros H. apply is_absolute_spec in H as [r ->]. by destruct home. Qed.

Lemma normal_absolute path : normal path -> is_absolute path = true.
Proof. intros (ps & _ & ->). apply is_absolute_render. Qed.

Lemma resolve_normal home path base :
  is_absolute base = true -> normal (resolve_path_against_base home path base).
Proof. apply absolutize_from_normal. Qed.

Lemma resolve_fixed home path base :
  normal path -> resolve_path_against_base home path base = path.
Proof.
  intros H. unfold resolve_path_against_base, normalize_path_for_platform.
  rewrite expand_home_absolute by by apply normal_absolute. by apply absolutize_from_fixed.
Qed.

(** ** Properties *)

(** Resolving a path against an absolute base always gives an absolute path in
    normal form (names without [.], [..] or empty pieces), resolving the result
    again against any base leaves it alone, and the parent that [AbsolutePathBuf]
    computes is absent only for the root and is otherwise again in normal form. *)
Theorem resolve_is_absolute_and_normal home path base :
  is_absolute base = true ->
  let r := resolve_path_against_base home path base in
  is_absolute r = true /\ normal r /\
  (forall home' base', resolve_path_against_base home' r base' = r) /\
  (parent r = None <-> r = [sep]) /\ (forall p, parent r = Some p -> normal p).
Proof.
  intros Hb r. assert (normal r) as Hr by by apply resolve_normal.
  split_and!; [by apply normal_absolute|done|intros; by apply resolve_fixed|..].
  all: destruct Hr as (ps & Hps & ->); destruct ps as [|p ps _] using rev_ind; [done|].
  - rewrite parent_render_snoc by done. split; [done|].
    intros E%(render_inj _ []); [by destruct ps|done|constructor].
  - rewrite parent_render_snoc by done. intros q [= <-]. apply Forall_app in Hps as [Hps _].
    by exists ps.
Qed.

(** What resolution computes, on every path without a leading tilde: the names of
    the path read after those of the base (or alone, when the path is absolute),
    where [.] and empty pieces are skipped and [..] drops the name before it, and
    nothing at the root. *)
Theorem resolve_is_lexical home path base :
  is_absolute base = true -> Str.starts_with $"~" path = false ->
  resolve_path_against_base home path base =
  render (if is_absolute path then lexical [] (Str.split sep path)
          else lexical (lexical [] (Str.split sep base)) (Str.split sep path)).
Proof.
  intros Hb Ht. unfold resolve_path_against_base, normalize_path_for_platform.
  assert (maybe_expand_home_directory home path = path) as ->.
  { unfold maybe_expand_home_directory, Str.starts_with in *.
    destruct home, (Str.strip_prefix $"~" path); done. }
  by apply absolutize_from_spec.
Qed.

Lemma resolve_is_absolute_and_normal_witness :
  let r := resolve_path_against_base (Some $"/home/u") $"~/../x/./y//z/.." $"/base" in
  is_absolute r = true /\ normal r /\
  (forall home' base', resolve_path_against_base home' r base' = r) /\
  (parent r = None <-> r = [sep]) /\ (forall p, parent r = Some p -> normal p).
Proof. apply resolve_is_absolute_and_normal. reflexivity. Defined.

Lemma resolve_is_lexical_witness :
  resolve_path_against_base None $"../b/./c" $"/x/y" = render [$"x"; $"b"; $"c"].
Proof.
  etrans; [apply (resolve_is_lexical None $"../b/./c" $"/x/y"); reflexivity|].
  vm_compute. reflexivity.
Defined.

End Path.
