(* ===== verification/PathOps.v ===== *)
(** The rest of [std::path] the sandbox policies use (comparison, prefixes and
    ancestors, all component by component), the questions the code asks the
    operating system, and [canonicalize_preserving_symlinks] of
    [utils/absolute-path/src/lib.rs]. *)
From S2P Require Import Prelude Paths.

Module PathOps.
Import Path.

(** ** Comparison by components *)

Definition path_eqb (a b : str) : bool := bool_decide (components a = components b).

(** [Path::starts_with]. *)
Definition starts_with (path base : str) : bool :=
  bool_decide (components base `prefix_of` components path).

Definition component_str (c : Component) : str :=
  match c with RootDir => [sep] | CurDir => dot | ParentDir => dotdot | Normal s => s end.

(** [Path::strip_prefix]: the components that remain. *)
Fixpoint strip_components (base path : list Component) : option (list Component) :=
  match base, path with
  | [], _ => Some path
  | b :: base', p :: path' => if decide (b = p) then strip_components base' path' else None
  | _ :: _, [] => None
  end.
Definition strip_prefix (path base : str) : option (list Component) :=
  strip_components (components base) (components path).

(** [Components::as_path] on components without the root. *)
Definition as_path (cs : list Component) : str := Str.join [sep] (component_str <$> cs).

(** The derived order of [Component], and [Path::cmp]. *)
Definition component_rank (c : Component) : N :=
  match c with RootDir => 0 | CurDir => 1 | ParentDir => 2 | Normal _ => 3 end%N.
Definition component_ltb (a b : Component) : bool :=
  match a, b with
  | Normal s, Normal t => str_ltb s t
  | _, _ => (component_rank a <? component_rank b)%N
  end.
Definition component_eqb (a b : Component) : bool := bool_decide (a = b).
Definition path_leb (a b : str) : bool :=
  lex_leb component_ltb component_eqb (components a) (components b).

(** [Path::ancestors]: the path, its parent, and so on; each step shortens the path. *)
Fixpoint ancestors_from (fuel : nat) (path : str) : list str :=
  match fuel with
  | 0 => []
  | S fuel =>
      path :: match parent path with Some p => ancestors_from fuel p | None => [] end
  end.
Definition ancestors (path : str) : list str := ancestors_from (S (length path)) path.

(** ** The operating system *)

(** What the code reads from the process and the disk; an answer of
    [None] of [symlink_metadata] is an error of the call.  Off Windows
    [dunce::canonicalize] is [std::fs::canonicalize]. *)
Record Env := {
  home_dir : option str;
  current_dir : result Io.Error str;
  var_os : str -> option str;
  is_dir : str -> bool;
  is_file : str -> bool;
  exists_ : str -> bool;
  read_to_string : str -> result Io.Error str;
  symlink_metadata : str -> option bool;  (** whether the file type is a symbolic link *)
  canonicalize : str -> result Io.Error str;
}.

Definition from_absolute_path (env : Env) (path : str) : result Io.Error str :=
  Path.from_absolute_path env.(home_dir) env.(current_dir) path.
Definition join (env : Env) (self path : str) : str := Path.join env.(home_dir) self path.
Definition resolve_path_against_base (env : Env) (path base : str) : str :=
  Path.resolve_path_against_base env.(home_dir) path base.

(** ** utils/absolute-path *)

Definition should_preserve_logical_path (env : Env) (logical : str) : bool :=
  existsb (fun ancestor =>
    match env.(symlink_metadata) ancestor with
    | None => false
    | Some is_symlink =>
        is_symlink && bool_decide (is_Some (p ← parent ancestor; parent p))
    end) (ancestors logical).

Definition canonicalize_preserving_symlinks (env : Env) (path : str) : result Io.Error str :=
  logical ← from_absolute_path env path;
  let preserve_logical_path := should_preserve_logical_path env logical in
  match env.(canonicalize) path with
  | Ok canonical =>
      if preserve_logical_path && negb (path_eqb canonical logical) then Ok logical
      else Ok canonical
  | Err _ => Ok logical
  end.

Definition canonicalize_existing_preserving_symlinks (env : Env) (path : str)
    : result Io.Error str :=
  logical ← from_absolute_path env path;
  canonical ← env.(canonicalize) path;
  if should_preserve_logical_path env logical && negb (path_eqb canonical logical)
  then Ok logical else Ok canonical.

(** ** Normal paths *)

#[global] Instance Normal_inj : Inj (=) (=) Normal.
Proof. by intros ? ? [= ->]. Qed.

Lemma components_render ps :
  Forall name_ok ps -> components (render ps) = RootDir :: (Normal <$> ps).
Proof.
  intros H. unfold components, render.
  change (Str.strip_prefix [sep] (sep :: Str.join [sep] ps)) with (Some (Str.join [sep] ps)).
  f_equal. destruct ps as [|p ps]; [done|]. rewrite split_join_names by done.
  induction H as [|q qs Hq Hqs IH]; [done|]. csimpl.
  rewrite name_ok_component by done. by f_equal.
Qed.

Lemma prefix_normals ps qs : (Normal <$> ps) `prefix_of` (Normal <$> qs) <-> ps `prefix_of` qs.
Proof.
  split; intros [k E].
  - apply fmap_app_inv in E as (k1 & k2 & E1 & -> & ->). exists k2.
    apply (inj (fmap Normal)) in E1. by subst.
  - exists (Normal <$> k). by rewrite E, fmap_app.
Qed.

Lemma starts_with_render ps qs :
  Forall name_ok ps -> Forall name_ok qs ->
  starts_with (render ps) (render qs) = bool_decide (qs `prefix_of` ps).
Proof.
  intros Hp Hq. unfold starts_with. rewrite !components_render by done.
  apply bool_decide_ext. rewrite <- prefix_normals. split.
  - apply prefix_cons_inv_2.
  - apply prefix_cons.
Qed.

Lemma path_eqb_normal a b : normal a -> normal b -> path_eqb a b = true <-> a = b.
Proof.
  intros (ps & Hp & ->) (qs & Hq & ->). unfold path_eqb. rewrite bool_decide_eq_true.
  split; [|by intros ->]. rewrite !components_render by done.
  intros [= E%(inj (fmap Normal))]. by subst.
Qed.

Lemma starts_with_refl path : starts_with path path = true.
Proof. by apply bool_decide_eq_true. Qed.

Lemma starts_with_trans a b c :
  starts_with a b = true -> starts_with b c = true -> starts_with a c = true.
Proof. unfold starts_with. rewrite !bool_decide_eq_true. intros. by etrans. Qed.

(** Two prefixes of one path with as many components are the same path. *)
Lemma starts_with_same_length path a b :
  starts_with path a = true -> starts_with path b = true ->
  length (components a) = length (components b) -> components a = components b.
Proof.
  unfold starts_with. rewrite !bool_decide_eq_true. intros [k Ha] [l Hb] E.
  rewrite Ha in Hb. by apply app_inj_1 in Hb as [? _].
Qed.

Lemma strip_components_Some base path rest :
  strip_components base path = Some rest <-> path = base ++ rest.
Proof.
  revert path; induction base as [|b base IH]; intros [|p path]; simpl.
  1-2: naive_solver. { naive_solver. }
  case_decide as E; [rewrite IH|]; naive_solver.
Qed.

Lemma strip_prefix_starts_with path base :
  is_Some (strip_prefix path base) <-> starts_with path base = true.
Proof.
  unfold strip_prefix, starts_with. rewrite bool_decide_eq_true. split.
  - intros [rest E%strip_components_Some]. by exists rest.
  - intros [rest E]. exists rest. by apply strip_components_Some.
Qed.

(** To show that a literal path is in normal form. *)
Lemma normal_check path : is_absolute path = true -> normalize_path path = path -> normal path.
Proof.
  intros Ha <-. rewrite normalize_absolute by done. eexists. split; [|done].
  apply lexical_ok; [constructor|apply Str.split_pieces].
Qed.

Lemma from_absolute_path_normal env path :
  is_absolute path = true -> exists p, from_absolute_path env path = Ok p /\ normal p.
Proof.
  intros H. unfold from_absolute_path, Path.from_absolute_path, absolutize,
    normalize_path_for_platform. rewrite expand_home_absolute, H by done.
  eexists. split; [done|]. rewrite normalize_absolute by done. eexists. split; [|done].
  apply lexical_ok; [constructor|apply Str.split_pieces].
Qed.

Lemma from_absolute_path_fixed env path : normal path -> from_absolute_path env path = Ok path.
Proof.
  intros H. pose proof (normal_absolute _ H) as Ha.
  unfold from_absolute_path, Path.from_absolute_path, absolutize, normalize_path_for_platform.
  rewrite expand_home_absolute, Ha by done. f_equal. destruct H as (ps & Hps & ->).
  by rewrite normalize_absolute, lexical_render.
Qed.

Lemma join_normal env self path : normal self -> normal (join env self path).
Proof. intros H. apply resolve_normal. by apply normal_absolute. Qed.

Lemma join_name env ps name :
  Forall name_ok ps -> name_ok name -> Str.starts_with $"~" name = false ->
  join env (render ps) name = render (ps ++ [name]).
Proof.
  intros Hps Hn Ht. unfold join, Path.join, Path.resolve_path_against_base,
    normalize_path_for_platform.
  assert (maybe_expand_home_directory (home_dir env) name = name) as ->.
  { unfold maybe_expand_home_directory, Str.starts_with in *.
    destruct (home_dir env), (Str.strip_prefix $"~" name); done. }
  rewrite absolutize_from_spec, not_absolute_name by (apply is_absolute_render || apply Hn).
  rewrite lexical_render, Str.split_no_sep by (done || apply Hn).
  f_equal. apply (lexical_names ps [name]). by apply Forall_singleton.
Qed.

(** ** Resolution depends on the components only *)

Definition below (pieces : list str) : list Component := omap (piece_component false) pieces.

Lemma components_absolute rest : components (sep :: rest) = RootDir :: below (Str.split sep rest).
Proof. done. Qed.

Lemma components_relative path :
  is_absolute path = false ->
  exists p ps, Str.split sep path = p :: ps /\
    components path = omap (piece_component true) [p] ++ below ps.
Proof.
  intros H. unfold is_absolute, Str.starts_with in H. unfold components.
  destruct (Str.strip_prefix [sep] path); [done|].
  destruct (Str.split sep path) as [|p ps] eqn:E; [by apply Str.split_ne in E|].
  by exists p, ps.
Qed.

Lemma is_absolute_components path :
  is_absolute path = true <-> head (components path) = Some RootDir.
Proof.
  split.
  - intros [rest ->]%is_absolute_spec. done.
  - destruct (is_absolute path) eqn:E; [done|].
    destruct (components_relative path E) as (p & ps & _ & ->).
    assert (forall b q, piece_component b q <> Some RootDir) as Hno.
    { intros b q. unfold piece_component. repeat case_match; congruence. }
    assert (forall l, head (below l) <> Some RootDir) as Hb.
    { induction l as [|q l IH]; [done|]. unfold below. simpl.
      destruct (piece_component false q) eqn:Eq; [|done]. simpl. intros [= ->]. by apply Hno in Eq. }
    csimpl. destruct (piece_component true p) eqn:Ep; simpl; [|intros Hh; by apply Hb in Hh].
    intros [= ->]. by apply Hno in Ep.
Qed.

(** The pieces of a relative path seen from inside another path. *)
Lemma below_split path :
  is_absolute path = false ->
  below (Str.split sep path) = List.filter (fun c => negb (bool_decide (c = CurDir))) (components path).
Proof.
  intros H. destruct (components_relative path H) as (p & ps & Hs & ->). rewrite Hs.
  assert (forall l, List.filter (fun c => negb (bool_decide (c = CurDir))) (below l) = below l) as Hb.
  { unfold below. induction l as [|q l IH]; [done|]. csimpl.
    destruct (piece_component false q) as [c|] eqn:Eq; [|done]. simpl. rewrite IH.
    destruct (bool_decide_reflect (c = CurDir)) as [->|]; [|done].
    unfold piece_component in Eq. repeat case_match; congruence. }
  rewrite List.filter_app, Hb. change (p :: ps) with ([p] ++ ps). unfold below. rewrite omap_app.
  f_equal. csimpl. unfold piece_component. destruct (Str.is_empty p); [done|].
  by repeat case_decide.
Qed.

Lemma below_app a b : below (a ++ b) = below a ++ below b.
Proof. apply omap_app. Qed.

Lemma is_absolute_app x q : x <> [] -> is_absolute (x ++ q) = is_absolute x.
Proof.
  destruct x as [|c x]; [done|]. intros _. unfold is_absolute, Str.starts_with, Str.strip_prefix.
  cbn [app]. by destruct (sep =? c)%N.
Qed.

Lemma components_app_sep x q :
  x <> [] -> components (x ++ sep :: q) = components x ++ below (Str.split sep q).
Proof.
  intros Hne. destruct (is_absolute x) eqn:Ea.
  - apply is_absolute_spec in Ea as [rest ->].
    change ((sep :: rest) ++ sep :: q) with (sep :: (rest ++ sep :: q)).
    by rewrite !components_absolute, Str.split_app, below_app.
  - assert (is_absolute (x ++ sep :: q) = false) as Ea' by by rewrite is_absolute_app.
    destruct (components_relative _ Ea) as (p1 & ps1 & Hs1 & ->).
    destruct (components_relative _ Ea') as (p2 & ps2 & Hs2 & ->).
    rewrite Str.split_app, Hs1 in Hs2. simplify_eq/=. by rewrite below_app, app_assoc.
Qed.

Lemma components_push base p :
  base <> [] -> is_absolute p = false ->
  components (push base p) = components base ++ below (Str.split sep p).
Proof.
  intros Hne Hp. unfold push. rewrite Hp.
  destruct (last base) as [c|] eqn:El; [|by apply last_None in El].
  destruct (N.eqb_spec c sep) as [->|Hc]; [|by apply components_app_sep].
  apply last_Some in El as [b ->]. rewrite <- app_assoc. change ([sep] ++ p) with (sep :: p).
  destruct b as [|x b]; [done|]. rewrite !components_app_sep by done. simpl. by rewrite app_nil_r.
Qed.

Lemma normalize_path_components a b :
  components a = components b -> normalize_path a = normalize_path b.
Proof. unfold normalize_path. by intros ->. Qed.

Lemma is_absolute_ext a b : components a = components b -> is_absolute a = is_absolute b.
Proof. intros E. apply Bool.eq_true_iff_eq. by rewrite !is_absolute_components, E. Qed.

Lemma absolutize_from_components a b base :
  base <> [] -> components a = components b -> absolutize_from a base = absolutize_from b base.
Proof.
  intros Hne E. apply normalize_path_components. unfold path_with_base.
  rewrite (is_absolute_ext a b) by done. destruct (is_absolute b) eqn:Eb; [done|].
  rewrite !components_push by (done || by rewrite (is_absolute_ext a b)).
  by rewrite !below_split, E by (done || by rewrite (is_absolute_ext a b)).
Qed.

Lemma split_trim_start s : below (Str.split sep (Str.trim_start_by (N.eqb sep) s)) = below (Str.split sep s).
Proof.
  induction s as [|c s IH]; [done|]. cbn [Str.trim_start_by].
  destruct (N.eqb_spec sep c) as [<-|Hc]; [|done]. rewrite IH. done.
Qed.

Lemma trim_start_relative s : is_absolute (Str.trim_start_by (N.eqb sep) s) = false.
Proof.
  induction s as [|c s IH]; [done|]. cbn [Str.trim_start_by]. destruct (N.eqb_spec sep c) as [<-|Hc]; [done|].
  destruct (is_absolute (c :: s)) eqn:E; [|done]. apply is_absolute_spec in E as [r [= ? ?]]. by subst.
Qed.

Definition tilde : str := $"~".

(** A path starts with the component [~] exactly when its first piece is [~]. *)
Lemma tilde_components path cs :
  components path = Normal tilde :: cs <-> exists ps, Str.split sep path = tilde :: ps /\ cs = below ps.
Proof.
  split.
  - intros E. assert (is_absolute path = false) as Ha.
    { apply not_true_iff_false. rewrite is_absolute_components, E. done. }
    destruct (components_relative path Ha) as (p & ps & Hs & Ec). rewrite Ec in E.
    exists ps. destruct path as [|c path]; [by injection Hs as <- <-; simplify_eq/=|].
    assert (p <> []) as Hp.
    { intros ->. pose proof (Str.join_split sep (c :: path)) as Hj. rewrite Hs in Hj.
      destruct ps; [done|]. injection Hj as <- _. by rewrite (proj2 (is_absolute_spec _)) in Ha by eauto. }
    csimpl in E. unfold piece_component in E. destruct (Str.is_empty p) eqn:Ee; [by destruct p|].
    repeat case_decide; simplify_eq/=. done.
  - intros (ps & Hs & ->). destruct (is_absolute path) eqn:Ha.
    { apply is_absolute_spec in Ha as [r ->].
      change (Str.split sep (sep :: r)) with ([] :: Str.split sep r) in Hs. done. }
    destruct (components_relative path Ha) as (p & ps' & Hs' & ->). rewrite Hs in Hs'.
    by simplify_eq.
Qed.

Lemma split_tilde path ps :
  Str.split sep path = tilde :: ps ->
  (path = tilde /\ ps = []) \/ exists r, path = tilde ++ sep :: r /\ ps = Str.split sep r.
Proof.
  intros Hs. pose proof (Str.join_split sep path) as Hj. rewrite Hs in Hj.
  destruct ps as [|q ps]; [by left|]. right. exists (Str.join [sep] (q :: ps)). split; [done|].
  subst path. change (Str.join [sep] (tilde :: q :: ps)) with (tilde ++ sep :: Str.join [sep] (q :: ps)) in Hs.
  rewrite Str.split_app in Hs. by injection Hs.
Qed.

Lemma expand_other h path :
  (forall cs, components path <> Normal tilde :: cs) ->
  maybe_expand_home_directory (Some h) path = path.
Proof.
  intros Hno. unfold maybe_expand_home_directory.
  destruct (Str.strip_prefix $"~" path) as [rest|] eqn:Hp; [|done].
  apply Str.strip_prefix_Some in Hp as ->.
  destruct rest as [|c r]; [exfalso; by eapply (Hno [])|]. cbn [Str.is_empty].
  destruct (Str.strip_prefix [sep] (c :: r)) as [r'|] eqn:Hr; [|done].
  apply Str.strip_prefix_Some in Hr as Hr. rewrite Hr in Hno. exfalso.
  eapply Hno, tilde_components. exists (Str.split sep r'). split; [|done].
  apply (Str.split_app sep tilde).
Qed.

(** What the expansion of the home directory does to the components. *)
Lemma expand_components home path :
  home <> Some [] ->
  components (maybe_expand_home_directory home path) =
  match home, components path with
  | Some h, Normal n :: cs => if decide (n = tilde) then components h ++ cs else components path
  | _, cs => cs
  end.
Proof.
  intros Hne. destruct home as [h|]; [|done].
  destruct (components path) as [|[| | |n] cs] eqn:E.
  5: destruct (decide (n = tilde)) as [->|Hn].
  5: { apply tilde_components in E as (ps & Hs & ->).
       destruct (split_tilde _ _ Hs) as [[-> ->]|(r & -> & ->)]; [by rewrite app_nil_r|].
       change (maybe_expand_home_directory (Some h) (tilde ++ sep :: r))
         with (push h (Str.trim_start_by (N.eqb sep) r)).
       rewrite components_push, split_trim_start by (congruence || apply trim_start_relative). done. }
  all: rewrite expand_other; [done|]; congruence.
Qed.

(** Two spellings of a path with the same components resolve to the same path. *)
Lemma resolve_components env a b base :
  base <> [] -> home_dir env <> Some [] -> components a = components b ->
  resolve_path_against_base env a base = resolve_path_against_base env b base.
Proof.
  intros Hb Hh E. apply absolutize_from_components; [done|].
  unfold normalize_path_for_platform. by rewrite !expand_components, E.
Qed.

End PathOps.
