(* ===== verification/Permissions.v ===== *)
(** The sandbox policies of [protocol/src/permissions.rs]: which paths an agent may
    read and write.  A policy is a list of entries; the access of a path is that of
    the most specific entry above it.  The file holds the data, the operations of
    [FileSystemSandboxPolicy] and the conversion from and to the legacy
    [SandboxPolicy] of [protocol/src/protocol.rs].  An [AbsolutePathBuf] is the string
    it wraps; what is read from the process and the disk is the record [Env]. *)
From S2P Require Import Prelude Paths PathOps.
From stdpp Require Import sorting.

Module Permissions.
Import Path PathOps.

(** ** Data *)

Definition PROTECTED_METADATA_GIT_PATH_NAME : str := $".git".
Definition PROTECTED_METADATA_AGENTS_PATH_NAME : str := $".agents".
Definition PROTECTED_METADATA_CODEX_PATH_NAME : str := $".codex".
Definition PROTECTED_METADATA_PATH_NAMES : list str :=
  [PROTECTED_METADATA_GIT_PATH_NAME; PROTECTED_METADATA_AGENTS_PATH_NAME;
   PROTECTED_METADATA_CODEX_PATH_NAME].

Definition is_protected_metadata_name (name : str) : bool :=
  existsb (fun metadata_name => bool_decide (name = metadata_name)) PROTECTED_METADATA_PATH_NAMES.
Definition is_protected_metadata_directory_name (name : str) : bool :=
  bool_decide (name = PROTECTED_METADATA_AGENTS_PATH_NAME) ||
  bool_decide (name = PROTECTED_METADATA_CODEX_PATH_NAME).

Inductive NetworkSandboxPolicy := NetRestricted | NetEnabled.
Definition network_is_enabled (n : NetworkSandboxPolicy) : bool :=
  match n with NetEnabled => true | NetRestricted => false end.

Inductive FileSystemAccessMode := Read | Write | Deny.
#[global] Instance access_eq_dec : EqDecision FileSystemAccessMode.
Proof. solve_decision. Defined.

(** The derived order: [deny] beats [write], and [write] beats [read]. *)
Definition access_rank (a : FileSystemAccessMode) : nat :=
  match a with Read => 0 | Write => 1 | Deny => 2 end.

Definition can_read (a : FileSystemAccessMode) : bool :=
  match a with Deny => false | _ => true end.
Definition can_write (a : FileSystemAccessMode) : bool :=
  match a with Write => true | _ => false end.

Inductive FileSystemSpecialPath :=
| Root
| Minimal
| ProjectRoots (subpath : option str)
| Tmpdir
| SlashTmp
| Unknown (path : str) (subpath : option str).

Inductive FileSystemPath :=
| PathEntry (path : str)
| GlobPattern (pattern : str)
| Special (value : FileSystemSpecialPath).

Record FileSystemSandboxEntry := mkEntry {
  entry_path : FileSystemPath;
  access : FileSystemAccessMode;
}.

Inductive FileSystemSandboxKind := Restricted | Unrestricted | ExternalSandbox.

Record FileSystemSandboxPolicy := mkPolicy {
  kind : FileSystemSandboxKind;
  glob_scan_max_depth : option N;
  entries : list FileSystemSandboxEntry;
}.

Record ResolvedFileSystemEntry := mkResolved {
  resolved_path : str;
  resolved_access : FileSystemAccessMode;
}.

(** [PartialEq] as derived: paths are compared by components. *)
Definition opt_path_eqb (a b : option str) : bool :=
  match a, b with
  | Some a, Some b => path_eqb a b
  | None, None => true
  | _, _ => false
  end.
Definition special_eqb (a b : FileSystemSpecialPath) : bool :=
  match a, b with
  | Root, Root | Minimal, Minimal | Tmpdir, Tmpdir | SlashTmp, SlashTmp => true
  | ProjectRoots a, ProjectRoots b => opt_path_eqb a b
  | Unknown p a, Unknown q b => bool_decide (p = q) && opt_path_eqb a b
  | _, _ => false
  end.
Definition fs_path_eqb (a b : FileSystemPath) : bool :=
  match a, b with
  | PathEntry a, PathEntry b => path_eqb a b
  | GlobPattern a, GlobPattern b => bool_decide (a = b)
  | Special a, Special b => special_eqb a b
  | _, _ => false
  end.
Definition entry_eqb (a b : FileSystemSandboxEntry) : bool :=
  fs_path_eqb (entry_path a) (entry_path b) && bool_decide (access a = access b).

Definition is_restricted (p : FileSystemSandboxPolicy) : bool :=
  match kind p with Restricted => true | _ => false end.

(** The legacy policy and the roots it stands for ([protocol.rs]). *)
Inductive SandboxPolicy :=
| DangerFullAccess
| ReadOnly (network_access : bool)
| LegacyExternalSandbox (network_access : bool)
| WorkspaceWrite (writable_roots : list str) (network_access : bool)
    (exclude_tmpdir_env_var exclude_slash_tmp : bool).

Record WritableRoot := mkRoot {
  root : str;
  read_only_subpaths : list str;
  protected_metadata_names : list str;
}.

(** ** Entries and their targets *)

Definition read_only_file_system_entries : list FileSystemSandboxEntry :=
  [mkEntry (Special Root) Read].

Definition restricted (es : list FileSystemSandboxEntry) : FileSystemSandboxPolicy :=
  mkPolicy Restricted None es.
Definition read_only : FileSystemSandboxPolicy := restricted read_only_file_system_entries.
Definition unrestricted : FileSystemSandboxPolicy := mkPolicy Unrestricted None [].
Definition external_sandbox : FileSystemSandboxPolicy := mkPolicy ExternalSandbox None [].

Definition special_paths_share_target (lhs rhs : FileSystemSpecialPath) : bool :=
  match lhs, rhs with
  | Root, Root | Minimal, Minimal | Tmpdir, Tmpdir | SlashTmp, SlashTmp => true
  | ProjectRoots lhs, ProjectRoots rhs => opt_path_eqb lhs rhs
  | Unknown lhs lhs_subpath, Unknown rhs rhs_subpath =>
      bool_decide (lhs = rhs) && opt_path_eqb lhs_subpath rhs_subpath
  | _, _ => false
  end.

Definition special_path_matches_absolute_path (value : FileSystemSpecialPath) (path : str) : bool :=
  match value with
  | Root => match parent path with None => true | Some _ => false end
  | SlashTmp => path_eqb path $"/tmp"
  | _ => false
  end.

Definition file_system_paths_share_target (lhs rhs : FileSystemPath) : bool :=
  match lhs, rhs with
  | PathEntry lhs, PathEntry rhs => path_eqb lhs rhs
  | Special lhs, Special rhs => special_paths_share_target lhs rhs
  | PathEntry path, Special value | Special value, PathEntry path =>
      special_path_matches_absolute_path value path
  | GlobPattern lhs, GlobPattern rhs => bool_decide (lhs = rhs)
  | GlobPattern _, _ | _, GlobPattern _ => false
  end.

Definition has_root_access (self : FileSystemSandboxPolicy)
    (predicate : FileSystemAccessMode -> bool) : bool :=
  is_restricted self &&
  existsb (fun entry =>
    match entry_path entry with Special Root => predicate (access entry) | _ => false end)
    (entries self).

Definition is_deny (entry : FileSystemSandboxEntry) : bool := bool_decide (access entry = Deny).

Definition has_denied_read_restrictions (self : FileSystemSandboxPolicy) : bool :=
  is_restricted self && existsb is_deny (entries self).

Definition has_same_target_write_override (self : FileSystemSandboxPolicy)
    (entry : FileSystemSandboxEntry) : bool :=
  existsb (fun candidate =>
    can_write (access candidate) &&
    (access_rank (access entry) <? access_rank (access candidate)) &&
    file_system_paths_share_target (entry_path candidate) (entry_path entry)) (entries self).

Definition narrows_write (self : FileSystemSandboxPolicy) (entry : FileSystemSandboxEntry) : bool :=
  if can_write (access entry) then false
  else match entry_path entry with
       | PathEntry _ => negb (has_same_target_write_override self entry)
       | GlobPattern _ => true
       | Special value =>
           match value with
           | Root => bool_decide (access entry = Deny)
           | Minimal | Unknown _ _ => false
           | _ => negb (has_same_target_write_override self entry)
           end
       end.
Definition has_write_narrowing_entries (self : FileSystemSandboxPolicy) : bool :=
  is_restricted self && existsb (narrows_write self) (entries self).

Definition has_full_disk_read_access (self : FileSystemSandboxPolicy) : bool :=
  match kind self with
  | Unrestricted | ExternalSandbox => true
  | Restricted => has_root_access self can_read && negb (has_denied_read_restrictions self)
  end.

Definition has_full_disk_write_access (self : FileSystemSandboxPolicy) : bool :=
  match kind self with
  | Unrestricted | ExternalSandbox => true
  | Restricted => has_root_access self can_write && negb (has_write_narrowing_entries self)
  end.

Definition include_platform_defaults (self : FileSystemSandboxPolicy) : bool :=
  negb (has_full_disk_read_access self) && is_restricted self &&
  existsb (fun entry =>
    match entry_path entry with Special Minimal => can_read (access entry) | _ => false end)
    (entries self).

(** [for deny_entry in ... { if !entries.any(==) { push } }]. *)
Definition push_entry_unique (es : list FileSystemSandboxEntry) (entry : FileSystemSandboxEntry)
    : list FileSystemSandboxEntry :=
  if existsb (fun existing => entry_eqb existing entry) es then es else es ++ [entry].

Definition set_entries (p : FileSystemSandboxPolicy) (es : list FileSystemSandboxEntry) :=
  mkPolicy (kind p) (glob_scan_max_depth p) es.

Definition preserve_deny_read_restrictions_from (self existing : FileSystemSandboxPolicy)
    : FileSystemSandboxPolicy :=
  let has_deny_read_entries := existsb is_deny (entries existing) in
  let self :=
    match kind self with
    | Unrestricted =>
        if has_deny_read_entries then restricted [mkEntry (Special Root) Write] else self
    | _ => self
    end in
  if negb (is_restricted self) then self
  else
    let depth := match glob_scan_max_depth self with
                 | None => glob_scan_max_depth existing
                 | some => some
                 end in
    mkPolicy (kind self) depth
      (fold_left push_entry_unique (List.filter is_deny (entries existing)) (entries self)).

Definition append_default_read_only_entry_if_no_explicit_rule
    (es : list FileSystemSandboxEntry) (path : FileSystemPath) : list FileSystemSandboxEntry :=
  if existsb (fun entry => file_system_paths_share_target (entry_path entry) path) es then es
  else es ++ [mkEntry path Read].
Definition append_default_read_only_path_if_no_explicit_rule
    (es : list FileSystemSandboxEntry) (path : str) : list FileSystemSandboxEntry :=
  append_default_read_only_entry_if_no_explicit_rule es (PathEntry path).
Definition append_default_read_only_project_root_subpath_if_no_explicit_rule
    (es : list FileSystemSandboxEntry) (subpath : str) : list FileSystemSandboxEntry :=
  append_default_read_only_entry_if_no_explicit_rule es (Special (ProjectRoots (Some subpath))).

Definition PROJECT_ROOTS_GLOB_PATTERN_PREFIX : str := $"codex-project-roots://".
Definition project_roots_glob_pattern (subpath : str) : str :=
  PROJECT_ROOTS_GLOB_PATTERN_PREFIX ++ subpath.
Definition parse_project_roots_glob_pattern (pattern : str) : option str :=
  Str.strip_prefix PROJECT_ROOTS_GLOB_PATTERN_PREFIX pattern.

(** [Iterator::max_by_key]: the last of the greatest. *)
Definition max_by_key {A} (le : A -> A -> bool) (l : list A) : option A :=
  fold_left (fun best x =>
    match best with
    | None => Some x
    | Some b => if le b x then Some x else best
    end) l None.

Definition resolved_entry_precedence (entry : ResolvedFileSystemEntry)
    : nat * FileSystemAccessMode :=
  (length (components (resolved_path entry)), resolved_access entry).
Definition precedence_leb (a b : ResolvedFileSystemEntry) : bool :=
  let '(sa, aa) := resolved_entry_precedence a in
  let '(sb, ab) := resolved_entry_precedence b in
  (sa <? sb) || ((sa =? sb) && (access_rank aa <=? access_rank ab)).

Definition metadata_path_name (name : str) : option str :=
  List.find (fun metadata_name => bool_decide (name = metadata_name)) PROTECTED_METADATA_PATH_NAMES.

Definition has_explicit_resolved_path_entry (es : list ResolvedFileSystemEntry) (path : str) : bool :=
  existsb (fun entry => path_eqb (resolved_path entry) path) es.

(** A stable insertion sort, for [sort_by]. *)
Fixpoint insert_by {A} (le : A -> A -> bool) (x : A) (l : list A) : list A :=
  match l with
  | [] => [x]
  | y :: l' => if le x y then x :: l else y :: insert_by le x l'
  end.
Definition sort_by {A} (le : A -> A -> bool) (l : list A) : list A :=
  foldr (insert_by le) [] l.

(** [Vec::dedup]: drops an element equal to the one before it. *)
Fixpoint dedup_by {A} (eqb : A -> A -> bool) (l : list A) : list A :=
  match l with
  | [] => []
  | x :: l' =>
      match dedup_by eqb l' with
      | y :: t => if eqb x y then x :: t else x :: y :: t
      | [] => [x]
      end
  end.

(** ** Operations that ask the system *)

Section env.
Context (env : Env).

(** The last ancestor of an absolute path is the root, so neither panic of the code
    can happen; the [Err] branch stands for the second one. *)
Definition absolute_root_path_for_cwd (cwd : str) : str :=
  let root := from_option id cwd (last (ancestors cwd)) in
  match from_absolute_path env root with Ok p => p | Err _ => root end.

Definition resolve_file_system_special_path (value : FileSystemSpecialPath) (cwd : option str)
    : option str :=
  match value with
  | Root | Minimal | Unknown _ _ => None
  | ProjectRoots subpath =>
      cwd ← cwd;
      match subpath with
      | Some subpath => Some (resolve_path_against_base env subpath cwd)
      | None => Some cwd
      end
  | Tmpdir =>
      tmpdir ← env.(var_os) $"TMPDIR";
      if Str.is_empty tmpdir then None else ok (from_absolute_path env tmpdir)
  | SlashTmp =>
      slash_tmp ← ok (from_absolute_path env $"/tmp");
      if negb (env.(is_dir) slash_tmp) then None else Some slash_tmp
  end.

Definition resolve_file_system_path (path : FileSystemPath) (cwd : option str) : option str :=
  match path with
  | PathEntry path => Some path
  | GlobPattern _ => None
  | Special value => resolve_file_system_special_path value cwd
  end.

Definition resolve_entry_path (path : FileSystemPath) (cwd : option str) : option str :=
  match path with
  | Special Root => absolute_root_path_for_cwd <$> cwd
  | _ => resolve_file_system_path path cwd
  end.

Definition resolve_project_roots_glob_pattern (subpath root : str) : str :=
  resolve_path_against_base env subpath root.

Definition resolve_candidate_path (path cwd : str) : option str :=
  if is_absolute path then ok (from_absolute_path env path)
  else cwd ← ok (from_absolute_path env cwd); Some (join env cwd path).

Definition resolved_entries_with_cwd (self : FileSystemSandboxPolicy) (cwd : str)
    : list ResolvedFileSystemEntry :=
  let cwd_absolute := ok (from_absolute_path env cwd) in
  omap (fun entry =>
    (fun path => mkResolved path (access entry)) <$>
      resolve_entry_path (entry_path entry) cwd_absolute) (entries self).

Definition resolve_access_with_cwd (self : FileSystemSandboxPolicy) (path cwd : str)
    : FileSystemAccessMode :=
  match kind self with
  | Unrestricted | ExternalSandbox => Write
  | Restricted =>
      match resolve_candidate_path path cwd with
      | None => Deny
      | Some path =>
          from_option resolved_access Deny
            (max_by_key precedence_leb
               (List.filter (fun entry => starts_with path (resolved_path entry))
                  (resolved_entries_with_cwd self cwd)))
      end
  end.

Definition can_read_path_with_cwd (self : FileSystemSandboxPolicy) (path cwd : str) : bool :=
  can_read (resolve_access_with_cwd self path cwd).

(** ** Protected metadata *)

Definition metadata_child (target : str) (entry : ResolvedFileSystemEntry) : option (str * str) :=
  relative_path ← strip_prefix target (resolved_path entry);
  first_component ← head relative_path;
  metadata_name ← metadata_path_name (component_str first_component);
  Some (join env (resolved_path entry) metadata_name, metadata_name).
Definition metadata_child_of_writable_root (policy : FileSystemSandboxPolicy) (target cwd : str)
    : option (str * str) :=
  head (omap (metadata_child target)
    (List.filter (fun entry => can_write (resolved_access entry))
       (resolved_entries_with_cwd policy cwd))).

Definition has_explicit_write_entry_for_metadata_path (policy : FileSystemSandboxPolicy)
    (protected_metadata_path target cwd : str) : bool :=
  existsb (fun entry =>
    can_write (resolved_access entry) &&
    starts_with target (resolved_path entry) &&
    starts_with (resolved_path entry) protected_metadata_path)
    (resolved_entries_with_cwd policy cwd).

Definition is_metadata_write_denied (self : FileSystemSandboxPolicy) (path cwd : str) : bool :=
  if negb (is_restricted self) then false
  else match resolve_candidate_path path cwd with
       | None => true
       | Some target =>
           match metadata_child_of_writable_root self target cwd with
           | None => false
           | Some (protected_metadata_path, _) =>
               negb (has_explicit_write_entry_for_metadata_path self protected_metadata_path
                       target cwd)
           end
       end.

Definition can_write_path_with_cwd (self : FileSystemSandboxPolicy) (path cwd : str) : bool :=
  if negb (can_write (resolve_access_with_cwd self path cwd)) then false
  else if has_full_disk_write_access self then true
  else negb (is_metadata_write_denied self path cwd).

Definition forbidden_agent_metadata_write (path cwd : str) (policy : FileSystemSandboxPolicy)
    : option str :=
  if negb (is_restricted policy) then None
  else
    target ← resolve_candidate_path path cwd;
    '(protected_metadata_path, metadata_name) ← metadata_child_of_writable_root policy target cwd;
    if has_explicit_write_entry_for_metadata_path policy protected_metadata_path target cwd
    then None
    else if negb (can_write_path_with_cwd policy target cwd) then Some metadata_name
    else None.

(** ** Project roots *)

Definition materialize_entry_with_cwd (cwd : option str) (entry : FileSystemSandboxEntry)
    : FileSystemSandboxEntry :=
  match entry_path entry with
  | Special (ProjectRoots _) =>
      match resolve_file_system_path (entry_path entry) cwd with
      | Some path => mkEntry (PathEntry path) (access entry)
      | None => entry
      end
  | GlobPattern pattern =>
      match cwd, parse_project_roots_glob_pattern pattern with
      | Some cwd, Some subpath =>
          mkEntry (GlobPattern (resolve_project_roots_glob_pattern subpath cwd)) (access entry)
      | _, _ => entry
      end
  | Special _ => entry
  | PathEntry _ => entry
  end.
Definition materialize_project_roots_with_cwd (self : FileSystemSandboxPolicy) (cwd : str)
    : FileSystemSandboxPolicy :=
  let cwd := ok (from_absolute_path env cwd) in
  set_entries self (materialize_entry_with_cwd cwd <$> entries self).

Definition materialize_entry (workspace_roots : list str) (entry : FileSystemSandboxEntry)
    : list FileSystemSandboxEntry :=
  match entry_path entry with
  | Special (ProjectRoots subpath) =>
      (fun root =>
         mkEntry (PathEntry match subpath with
                            | Some subpath => resolve_path_against_base env subpath root
                            | None => root
                            end) (access entry)) <$> workspace_roots
  | GlobPattern pattern =>
      match parse_project_roots_glob_pattern pattern with
      | Some subpath =>
          (fun root =>
             mkEntry (GlobPattern (resolve_project_roots_glob_pattern subpath root))
               (access entry)) <$> workspace_roots
      | None => [mkEntry (GlobPattern pattern) (access entry)]
      end
  | PathEntry path => [mkEntry (PathEntry path) (access entry)]
  | Special value => [mkEntry (Special value) (access entry)]
  end.
Definition materialize_project_roots_with_workspace_roots (self : FileSystemSandboxPolicy)
    (workspace_roots : list str) : FileSystemSandboxPolicy :=
  set_entries self (flat_map (materialize_entry workspace_roots) (entries self)).

Definition with_materialized_project_roots_for_workspace_roots (self : FileSystemSandboxPolicy)
    (workspace_roots : list str) : FileSystemSandboxPolicy :=
  let materialized := materialize_project_roots_with_workspace_roots self workspace_roots in
  set_entries self (fold_left push_entry_unique (entries materialized) (entries self)).

(** ** Additional roots *)

Definition push_entry (self : FileSystemSandboxPolicy) (entry : FileSystemSandboxEntry) :=
  set_entries self (entries self ++ [entry]).

Definition with_additional_readable_roots (self : FileSystemSandboxPolicy) (cwd : str)
    (additional_readable_roots : list str) : FileSystemSandboxPolicy :=
  if has_full_disk_read_access self then self
  else fold_left (fun self path =>
         if can_read_path_with_cwd self path cwd then self
         else push_entry self (mkEntry (PathEntry path) Read)) additional_readable_roots self.

Definition with_additional_writable_roots (self : FileSystemSandboxPolicy) (cwd : str)
    (additional_writable_roots : list str) : FileSystemSandboxPolicy :=
  fold_left (fun self path =>
    if can_write_path_with_cwd self path cwd then self
    else push_entry self (mkEntry (PathEntry path) Write)) additional_writable_roots self.

(** ** Effective paths *)

(** The [for] loop over the ancestors, with its three [continue]s. *)
Fixpoint normalize_effective_loop (raw_path : str) (ancestors : list str) : option str :=
  match ancestors with
  | [] => None
  | ancestor :: rest =>
      match env.(symlink_metadata) ancestor with
      | None => normalize_effective_loop raw_path rest
      | Some _ =>
          match canonicalize_preserving_symlinks env ancestor with
          | Err _ => normalize_effective_loop raw_path rest
          | Ok normalized_ancestor =>
              match strip_prefix raw_path ancestor with
              | None => normalize_effective_loop raw_path rest
              | Some suffix =>
                  match from_absolute_path env (push normalized_ancestor (as_path suffix)) with
                  | Ok normalized_path => Some normalized_path
                  | Err _ => normalize_effective_loop raw_path rest
                  end
              end
          end
      end
  end.
Definition normalize_effective_absolute_path (path : str) : str :=
  from_option id path (normalize_effective_loop path (ancestors path)).

Fixpoint dedup_loop (seen paths : list str) : list str :=
  match paths with
  | [] => []
  | path :: paths' =>
      if existsb (path_eqb path) seen then dedup_loop seen paths'
      else path :: dedup_loop (path :: seen) paths'
  end.
Definition dedup_absolute_paths (paths : list str) (normalize_effective_paths : bool) : list str :=
  dedup_loop []
    (if normalize_effective_paths then normalize_effective_absolute_path <$> paths else paths).

(** ** Default read-only subpaths *)

Definition is_git_pointer_file (path : str) : bool :=
  env.(is_file) path && bool_decide (file_name path = Some PROTECTED_METADATA_GIT_PATH_NAME).

Definition resolve_gitdir_from_file (dot_git : str) : option str :=
  contents ← ok (env.(read_to_string) dot_git);
  let trimmed := Str.trim contents in
  '(prefix, gitdir_raw) ← Str.split_once (ch ":") trimmed;
  if negb (bool_decide (Str.trim prefix = $"gitdir")) then None
  else
    let gitdir_raw := Str.trim gitdir_raw in
    if Str.is_empty gitdir_raw then None
    else
      base ← parent dot_git;
      let gitdir_path := resolve_path_against_base env gitdir_raw base in
      if negb (env.(exists_) gitdir_path) then None else Some gitdir_path.

Definition default_read_only_subpaths_for_writable_root (writable_root : str)
    (protect_missing_dot_codex : bool) : list str :=
  let top_level_git := join env writable_root PROTECTED_METADATA_GIT_PATH_NAME in
  let top_level_git_is_file := env.(is_file) top_level_git in
  let top_level_git_is_dir := env.(is_dir) top_level_git in
  let git :=
    if top_level_git_is_dir || top_level_git_is_file then
      (if top_level_git_is_file && is_git_pointer_file top_level_git then
         option_list (resolve_gitdir_from_file top_level_git)
       else []) ++ [top_level_git]
    else [] in
  let top_level_agents := join env writable_root PROTECTED_METADATA_AGENTS_PATH_NAME in
  let agents := if env.(is_dir) top_level_agents then [top_level_agents] else [] in
  let top_level_codex := join env writable_root PROTECTED_METADATA_CODEX_PATH_NAME in
  let codex :=
    if protect_missing_dot_codex || env.(is_dir) top_level_codex then [top_level_codex] else [] in
  dedup_absolute_paths (git ++ agents ++ codex) false.

(** [for protected_path in default_read_only_subpaths_for_writable_root(..) { append }]. *)
Definition append_default_subpaths (es : list FileSystemSandboxEntry) (writable_root : str)
    (protect_missing_dot_codex : bool) : list FileSystemSandboxEntry :=
  fold_left append_default_read_only_path_if_no_explicit_rule
    (default_read_only_subpaths_for_writable_root writable_root protect_missing_dot_codex) es.

Definition with_additional_legacy_workspace_writable_roots (self : FileSystemSandboxPolicy)
    (additional_writable_roots : list str) : FileSystemSandboxPolicy :=
  if negb (is_restricted self) then self
  else set_entries self
    (fold_left (fun es path =>
       let es :=
         if existsb (fun entry =>
              can_write (access entry) &&
              match entry_path entry with
              | PathEntry existing => path_eqb existing path
              | _ => false
              end) es
         then es else es ++ [mkEntry (PathEntry path) Write] in
       append_default_subpaths es path false) additional_writable_roots (entries self)).

(** ** From the legacy policy *)

Definition workspace_write_entries (writable_roots : list str)
    (exclude_tmpdir_env_var exclude_slash_tmp : bool) : list FileSystemSandboxEntry :=
  [mkEntry (Special Root) Read; mkEntry (Special (ProjectRoots None)) Write] ++
  (if negb exclude_slash_tmp then [mkEntry (Special SlashTmp) Write] else []) ++
  (if negb exclude_tmpdir_env_var then [mkEntry (Special Tmpdir) Write] else []) ++
  ((fun path => mkEntry (PathEntry path) Write) <$> writable_roots).

Definition append_roots_subpaths (es : list FileSystemSandboxEntry) (writable_roots : list str)
    : list FileSystemSandboxEntry :=
  fold_left (fun es writable_root => append_default_subpaths es writable_root false)
    writable_roots es.

Definition workspace_write (writable_roots : list str)
    (exclude_tmpdir_env_var exclude_slash_tmp : bool) : FileSystemSandboxPolicy :=
  let es := workspace_write_entries writable_roots exclude_tmpdir_env_var exclude_slash_tmp in
  let es := append_default_read_only_project_root_subpath_if_no_explicit_rule es $".git" in
  let es := append_default_read_only_project_root_subpath_if_no_explicit_rule es $".agents" in
  let es := append_default_read_only_project_root_subpath_if_no_explicit_rule es $".codex" in
  restricted (append_roots_subpaths es writable_roots).

Definition legacy_has_full_network_access (p : SandboxPolicy) : bool :=
  match p with
  | DangerFullAccess => true
  | LegacyExternalSandbox network_access => network_access
  | ReadOnly network_access => network_access
  | WorkspaceWrite _ network_access _ _ => network_access
  end.
Definition network_from_legacy (value : SandboxPolicy) : NetworkSandboxPolicy :=
  if legacy_has_full_network_access value then NetEnabled else NetRestricted.

Definition from_legacy (value : SandboxPolicy) : FileSystemSandboxPolicy :=
  match value with
  | DangerFullAccess => unrestricted
  | LegacyExternalSandbox _ => external_sandbox
  | ReadOnly _ => restricted [mkEntry (Special Root) Read]
  | WorkspaceWrite writable_roots _ exclude_tmpdir_env_var exclude_slash_tmp =>
      workspace_write writable_roots exclude_tmpdir_env_var exclude_slash_tmp
  end.

Definition append_cwd_subpaths (es : list FileSystemSandboxEntry) (cwd : str)
    : list FileSystemSandboxEntry :=
  match from_absolute_path env cwd with
  | Ok cwd_root => append_default_subpaths es cwd_root true
  | Err _ => es
  end.

Definition from_legacy_sandbox_policy_for_cwd (sandbox_policy : SandboxPolicy) (cwd : str)
    : FileSystemSandboxPolicy :=
  let file_system_policy := from_legacy sandbox_policy in
  match sandbox_policy with
  | WorkspaceWrite writable_roots _ _ _ =>
      set_entries file_system_policy
        (append_roots_subpaths (append_cwd_subpaths (entries file_system_policy) cwd)
           writable_roots)
  | _ => file_system_policy
  end.

Definition from_legacy_sandbox_policy_preserving_deny_entries (sandbox_policy : SandboxPolicy)
    (cwd : str) (existing : FileSystemSandboxPolicy) : FileSystemSandboxPolicy :=
  let rebuilt := from_legacy_sandbox_policy_for_cwd sandbox_policy cwd in
  if negb (is_restricted rebuilt) then rebuilt
  else mkPolicy (kind rebuilt) (glob_scan_max_depth existing)
         (fold_left push_entry_unique (List.filter is_deny (entries existing)) (entries rebuilt)).

Definition legacy_runtime_file_system_policy_for_cwd (sandbox_policy : SandboxPolicy) (cwd : str)
    : FileSystemSandboxPolicy :=
  match sandbox_policy with
  | WorkspaceWrite writable_roots _ exclude_tmpdir_env_var exclude_slash_tmp =>
      restricted
        (append_roots_subpaths
           (append_cwd_subpaths
              (workspace_write_entries writable_roots exclude_tmpdir_env_var exclude_slash_tmp) cwd)
           writable_roots)
  | _ => from_legacy sandbox_policy
  end.

(** ** Roots for the sandboxes *)

Definition get_readable_roots_with_cwd (self : FileSystemSandboxPolicy) (cwd : str) : list str :=
  if has_full_disk_read_access self then []
  else dedup_absolute_paths
         (resolved_path <$>
            List.filter (fun entry => can_read_path_with_cwd self (resolved_path entry) cwd)
              (List.filter (fun entry => can_read (resolved_access entry))
                 (resolved_entries_with_cwd self cwd))) true.

Definition protected_metadata_names_for_writable_root (policy : FileSystemSandboxPolicy)
    (root : str) (raw_writable_roots : list str) (cwd : str) : list str :=
  List.filter (fun metadata_name =>
    let metadata_paths :=
      join env root metadata_name ::
      ((fun raw_root => join env raw_root metadata_name) <$> raw_writable_roots) in
    forallb (fun metadata_path => negb (can_write_path_with_cwd policy metadata_path cwd))
      metadata_paths) PROTECTED_METADATA_PATH_NAMES.

(** The path of the carve-out below [root] as it is spelled, not resolved. *)
Definition raw_carveout_path (root : str) (raw_writable_roots : list str) (path : str)
    : option str :=
  if bool_decide (is_Some (parent root)) then
    if path_eqb path root then None
    else if starts_with path root then Some path
    else head (omap (fun raw_root =>
           suffix ← strip_prefix path raw_root;
           if Str.is_empty (as_path suffix) then None else Some (join env root (as_path suffix)))
         raw_writable_roots)
  else None.

Definition carveout (root : str) (raw_writable_roots : list str) (path : str) : option str :=
  let effective_path := normalize_effective_absolute_path path in
  match raw_carveout_path root raw_writable_roots path with
  | Some raw => Some raw
  | None =>
      if path_eqb effective_path root || negb (starts_with effective_path root) then None
      else Some effective_path
  end.

Definition writable_root_for (self : FileSystemSandboxPolicy) (cwd : str)
    (resolved_entries : list ResolvedFileSystemEntry) (writable_entries : list str) (root : str)
    : WritableRoot :=
  let raw_writable_roots :=
    List.filter (fun path => path_eqb (normalize_effective_absolute_path path) root)
      writable_entries in
  let names := protected_metadata_names_for_writable_root self root raw_writable_roots cwd in
  let protect_missing_dot_codex :=
    match from_absolute_path env cwd with
    | Ok cwd => path_eqb (normalize_effective_absolute_path cwd) root
    | Err _ => false
    end in
  let defaults :=
    List.filter (fun path => negb (has_explicit_resolved_path_entry resolved_entries path))
      (default_read_only_subpaths_for_writable_root root protect_missing_dot_codex) in
  let carveouts :=
    omap (fun entry => carveout root raw_writable_roots (resolved_path entry))
      (List.filter (fun entry => negb (can_write_path_with_cwd self (resolved_path entry) cwd))
         (List.filter (fun entry => negb (can_write (resolved_access entry))) resolved_entries)) in
  mkRoot root (dedup_absolute_paths (defaults ++ carveouts) false) names.

Definition get_writable_roots_with_cwd (self : FileSystemSandboxPolicy) (cwd : str)
    : list WritableRoot :=
  if has_full_disk_write_access self then []
  else
    let resolved_entries := resolved_entries_with_cwd self cwd in
    let writable_entries :=
      resolved_path <$>
        List.filter (fun entry => can_write_path_with_cwd self (resolved_path entry) cwd)
          (List.filter (fun entry => can_write (resolved_access entry)) resolved_entries) in
    writable_root_for self cwd resolved_entries writable_entries <$>
      dedup_absolute_paths writable_entries true.

Definition path_contains_protected_metadata_name (self : WritableRoot) (path : str) : bool :=
  match strip_prefix path (root self) with
  | None => false
  | Some relative_path =>
      match head relative_path with
      | None => false
      | Some first_component =>
          existsb (fun name => bool_decide (component_str first_component = name))
            (protected_metadata_names self)
      end
  end.
Definition is_path_writable (self : WritableRoot) (path : str) : bool :=
  if negb (starts_with path (root self)) then false
  else if existsb (starts_with path) (read_only_subpaths self) then false
  else negb (path_contains_protected_metadata_name self path).

Definition get_unreadable_roots_with_cwd (self : FileSystemSandboxPolicy) (cwd : str) : list str :=
  if negb (is_restricted self) then []
  else
    let root := absolute_root_path_for_cwd <$> ok (from_absolute_path env cwd) in
    dedup_absolute_paths
      (resolved_path <$>
         List.filter (fun entry => negb (opt_path_eqb root (Some (resolved_path entry))))
           (List.filter (fun entry => negb (can_read_path_with_cwd self (resolved_path entry) cwd))
              (List.filter (fun entry => bool_decide (resolved_access entry = Deny))
                 (resolved_entries_with_cwd self cwd)))) true.

Definition get_unreadable_globs_with_cwd (self : FileSystemSandboxPolicy) (cwd : str) : list str :=
  if negb (is_restricted self) then []
  else
    let patterns :=
      omap (fun entry =>
        match entry_path entry with
        | GlobPattern pattern => Some (resolve_path_against_base env pattern cwd)
        | PathEntry _ | Special _ => None
        end) (List.filter is_deny (entries self)) in
    dedup_by (fun a b => bool_decide (a = b)) (sort_by str_leb patterns).

(** ** To the legacy policy *)

Record LegacyScan := mkScan {
  workspace_root_writable : bool;
  scan_writable_roots : list str;
  tmpdir_writable : bool;
  slash_tmp_writable : bool;
  unbridgeable_root_write : bool;
}.

Definition legacy_scan_step (cwd_absolute : option str) (s : LegacyScan)
    (entry : FileSystemSandboxEntry) : LegacyScan :=
  let '(mkScan ws roots tmp stmp unb) := s in
  let writes := can_write (access entry) in
  match entry_path entry with
  | GlobPattern _ => s
  | PathEntry path =>
      if writes then
        match cwd_absolute with
        | Some cwd =>
            if path_eqb cwd path then mkScan true roots tmp stmp unb
            else mkScan ws (roots ++ [path]) tmp stmp unb
        | None => mkScan ws (roots ++ [path]) tmp stmp unb
        end
      else s
  | Special value =>
      match value with
      | Root => match access entry with Write => mkScan ws roots tmp stmp true | _ => s end
      | Minimal => s
      | ProjectRoots subpath =>
          match subpath, writes with
          | None, true => mkScan true roots tmp stmp unb
          | _, _ =>
              match resolve_file_system_special_path value cwd_absolute with
              | Some path => if writes then mkScan ws (roots ++ [path]) tmp stmp unb else s
              | None => s
              end
          end
      | Tmpdir => if writes then mkScan ws roots true stmp unb else s
      | SlashTmp => if writes then mkScan ws roots tmp true unb else s
      | Unknown _ _ => s
      end
  end.

Definition legacy_scan (self : FileSystemSandboxPolicy) (cwd_absolute : option str) : LegacyScan :=
  fold_left (legacy_scan_step cwd_absolute) (entries self) (mkScan false [] false false false).

Definition unsupported_writes : Io.Error :=
  Io.new Io.InvalidInput $"permissions profile requests filesystem writes outside the workspace root, which is not supported until the runtime enforces FileSystemSandboxPolicy directly".

Definition full_access_legacy (network_policy : NetworkSandboxPolicy) : SandboxPolicy :=
  if network_is_enabled network_policy then DangerFullAccess else LegacyExternalSandbox false.

Definition to_legacy_sandbox_policy (self : FileSystemSandboxPolicy)
    (network_policy : NetworkSandboxPolicy) (cwd : str) : result Io.Error SandboxPolicy :=
  match kind self with
  | ExternalSandbox => Ok (LegacyExternalSandbox (network_is_enabled network_policy))
  | Unrestricted => Ok (full_access_legacy network_policy)
  | Restricted =>
      let cwd_absolute := ok (from_absolute_path env cwd) in
      let '(mkScan ws roots tmp stmp unb) := legacy_scan self cwd_absolute in
      if has_full_disk_write_access self then Ok (full_access_legacy network_policy)
      else if ws then
        Ok (WorkspaceWrite (dedup_absolute_paths roots false) (network_is_enabled network_policy)
              (negb tmp) (negb stmp))
      else if unb || negb (match roots with [] => true | _ => false end) || tmp || stmp then
        Err unsupported_writes
      else Ok (ReadOnly (network_is_enabled network_policy))
  end.

(** [SandboxPolicy::get_writable_roots_with_cwd]. *)
Definition legacy_get_writable_roots_with_cwd (self : SandboxPolicy) (cwd : str)
    : list WritableRoot :=
  match self with
  | DangerFullAccess | LegacyExternalSandbox _ | ReadOnly _ => []
  | WorkspaceWrite writable_roots _ exclude_tmpdir_env_var exclude_slash_tmp =>
      let cwd_root := ok (from_absolute_path env cwd) in
      let slash_tmp :=
        if negb exclude_slash_tmp then
          match from_absolute_path env $"/tmp" with
          | Ok slash_tmp => if env.(is_dir) slash_tmp then [slash_tmp] else []
          | Err _ => []
          end
        else [] in
      let tmpdir :=
        if negb exclude_tmpdir_env_var then
          match env.(var_os) $"TMPDIR" with
          | Some tmpdir =>
              if Str.is_empty tmpdir then [] else option_list (ok (from_absolute_path env tmpdir))
          | None => []
          end
        else [] in
      (fun writable_root =>
         let protect_missing_dot_codex :=
           match cwd_root with Some cwd_root => path_eqb cwd_root writable_root | None => false end in
         mkRoot writable_root
           (default_read_only_subpaths_for_writable_root writable_root protect_missing_dot_codex)
           []) <$> (writable_roots ++ option_list cwd_root ++ slash_tmp ++ tmpdir)
  end.

(** ** Comparing policies *)

Record FileSystemSemanticSignature := mkSignature {
  sig_full_disk_read : bool;
  sig_full_disk_write : bool;
  sig_platform_defaults : bool;
  sig_readable_roots : list str;
  sig_writable_roots : list WritableRoot;
  sig_unreadable_roots : list str;
  sig_unreadable_globs : list str;
}.

Definition sorted_absolute_paths (paths : list str) : list str := sort_by path_leb paths.
Definition sorted_writable_roots (roots : list WritableRoot) : list WritableRoot :=
  sort_by (fun l r => path_leb (root l) (root r))
    ((fun r =>
        mkRoot (root r) (sorted_absolute_paths (read_only_subpaths r))
          (dedup_by (fun a b => bool_decide (a = b)) (sort_by str_leb (protected_metadata_names r))))
     <$> roots).

Definition semantic_signature (self : FileSystemSandboxPolicy) (cwd : str)
    : FileSystemSemanticSignature :=
  mkSignature (has_full_disk_read_access self) (has_full_disk_write_access self)
    (include_platform_defaults self)
    (sorted_absolute_paths (get_readable_roots_with_cwd self cwd))
    (sorted_writable_roots (get_writable_roots_with_cwd self cwd))
    (sorted_absolute_paths (get_unreadable_roots_with_cwd self cwd))
    (get_unreadable_globs_with_cwd self cwd).

Definition list_eqb {A} (eqb : A -> A -> bool) (l k : list A) : bool :=
  (length l =? length k) && forallb (fun '(a, b) => eqb a b) (combine l k).
Definition root_eqb (a b : WritableRoot) : bool :=
  path_eqb (root a) (root b) && list_eqb path_eqb (read_only_subpaths a) (read_only_subpaths b) &&
  bool_decide (protected_metadata_names a = protected_metadata_names b).
Definition signature_eqb (a b : FileSystemSemanticSignature) : bool :=
  eqb (sig_full_disk_read a) (sig_full_disk_read b) &&
  eqb (sig_full_disk_write a) (sig_full_disk_write b) &&
  eqb (sig_platform_defaults a) (sig_platform_defaults b) &&
  list_eqb path_eqb (sig_readable_roots a) (sig_readable_roots b) &&
  list_eqb root_eqb (sig_writable_roots a) (sig_writable_roots b) &&
  list_eqb path_eqb (sig_unreadable_roots a) (sig_unreadable_roots b) &&
  bool_decide (sig_unreadable_globs a = sig_unreadable_globs b).

Definition is_semantically_equivalent_to (self other : FileSystemSandboxPolicy) (cwd : str) : bool :=
  signature_eqb (semantic_signature self cwd) (semantic_signature other cwd).

Definition protected_metadata_names_need_direct_runtime_enforcement
    (policy : FileSystemSandboxPolicy) (legacy_policy : SandboxPolicy) (cwd : str) : bool :=
  let legacy_roots := legacy_get_writable_roots_with_cwd legacy_policy cwd in
  existsb (fun writable_root =>
    match List.find (fun candidate => path_eqb (root candidate) (root writable_root))
            legacy_roots with
    | None => negb (match protected_metadata_names writable_root with [] => true | _ => false end)
    | Some legacy_root =>
        existsb (fun metadata_name =>
          let metadata_path := join env (root writable_root) metadata_name in
          negb (existsb (fun subpath => path_eqb subpath metadata_path)
                  (read_only_subpaths legacy_root))) (protected_metadata_names writable_root)
    end) (get_writable_roots_with_cwd policy cwd).

Definition needs_direct_runtime_enforcement (self : FileSystemSandboxPolicy)
    (network_policy : NetworkSandboxPolicy) (cwd : str) : bool :=
  if negb (is_restricted self) then false
  else match to_legacy_sandbox_policy self network_policy cwd with
       | Err _ => true
       | Ok legacy_policy =>
           if protected_metadata_names_need_direct_runtime_enforcement self legacy_policy cwd
           then true
           else negb (signature_eqb (semantic_signature self cwd)
                  (semantic_signature (legacy_runtime_file_system_policy_for_cwd legacy_policy cwd)
                     cwd))
       end.

(** ** Read checks of direct tools *)

Definition push_unique (candidates : list str) (candidate : str) : list str :=
  if existsb (fun existing => path_eqb existing candidate) candidates then candidates
  else candidates ++ [candidate].

Definition normalized_and_canonical_candidates (path : str) : list str :=
  let candidates :=
    match from_absolute_path env path with
    | Ok normalized => push_unique [] normalized
    | Err _ => push_unique [] path
    end in
  match env.(canonicalize) path with
  | Ok canonical =>
      match from_absolute_path env canonical with
      | Ok canonical_absolute => push_unique candidates canonical_absolute
      | Err _ => candidates
      end
  | Err _ => candidates
  end.

(** [globset]: a pattern compiles to a predicate on paths, or to a message. *)
Context (build_glob_matcher : str -> result str (str -> bool)).

Record ReadDenyMatcher := mkMatcher {
  denied_candidates : list (list str);
  deny_read_matchers : list (str -> bool);
  invalid_pattern : bool;
}.

Inductive InvalidDenyReadGlobBehavior := FailClosed | ReturnError.

Fixpoint build_matchers (behavior : InvalidDenyReadGlobBehavior) (patterns : list str)
    (matchers : list (str -> bool)) (invalid : bool) : result str (list (str -> bool) * bool) :=
  match patterns with
  | [] => Ok (matchers, invalid)
  | pattern :: patterns' =>
      match build_glob_matcher pattern with
      | Ok matcher => build_matchers behavior patterns' (matchers ++ [matcher]) invalid
      | Err err =>
          match behavior with
          | FailClosed => build_matchers behavior patterns' matchers true
          | ReturnError =>
              Err ($"invalid deny-read glob pattern `" ++ pattern ++ $"`: " ++ err)
          end
      end
  end.

Definition build (policy : FileSystemSandboxPolicy) (cwd : str)
    (behavior : InvalidDenyReadGlobBehavior) : result str (option ReadDenyMatcher) :=
  if negb (has_denied_read_restrictions policy) then Ok None
  else
    let denied := normalized_and_canonical_candidates <$> get_unreadable_roots_with_cwd policy cwd in
    '(matchers, invalid) ←
      build_matchers behavior (get_unreadable_globs_with_cwd policy cwd) [] false;
    Ok (Some (mkMatcher denied matchers invalid)).

(** [ReadDenyMatcher::new]; [None] outside is the [unreachable!]. *)
Definition matcher_new (policy : FileSystemSandboxPolicy) (cwd : str)
    : option (option ReadDenyMatcher) := ok (build policy cwd FailClosed).
Definition matcher_try_new (policy : FileSystemSandboxPolicy) (cwd : str)
    : result str (option ReadDenyMatcher) := build policy cwd ReturnError.

Definition is_read_denied (self : ReadDenyMatcher) (path : str) : bool :=
  if invalid_pattern self then true
  else
    let path_candidates := normalized_and_canonical_candidates path in
    if existsb (fun denied =>
         existsb (fun candidate =>
           existsb (fun denied_candidate =>
             path_eqb candidate denied_candidate || starts_with candidate denied_candidate)
             denied) path_candidates) (denied_candidates self)
    then true
    else existsb (fun matcher => existsb matcher path_candidates) (deny_read_matchers self).

End env.

End Permissions.
