(* ===== verification/AccessResolution.v ===== *)
(** What a sandbox policy grants: the entry that decides the access of a path, the
    metadata that stays protected, what full-disk access means, and how the
    operations that rebuild a policy change the access of paths. *)
From S2P Require Import Prelude Paths PathOps Permissions.

Module Access.
Import Path PathOps Permissions.

(** ** The greatest element *)

Lemma max_by_key_from {A} (le : A -> A -> bool) l b :
  (forall x y, le x y = true \/ le y x = true) ->
  (forall x y z, le x y = true -> le y z = true -> le x z = true) ->
  exists m, fold_left (fun best x => match best with
                                     | None => Some x
                                     | Some b => if le b x then Some x else best
                                     end) l (Some b) = Some m /\
    (m = b \/ m ∈ l) /\ le b m = true /\ forall x, x ∈ l -> le x m = true.
Proof.
  intros Htot Htrans. assert (forall x, le x x = true) as Hrefl by (intros x; by destruct (Htot x x)).
  revert b; induction l as [|y l IH]; intros b; simpl; [by exists b; set_solver|].
  destruct (le b y) eqn:E.
  - destruct (IH y) as (m & -> & Hin & Hy & Hall). exists m. split_and!; try done.
    + set_solver.
    + by eapply Htrans.
    + intros x [->|Hx]%elem_of_cons; [done|by apply Hall].
  - destruct (IH b) as (m & -> & Hin & Hy & Hall). exists m. split_and!; try done.
    + set_solver.
    + intros x [->|Hx]%elem_of_cons; [|by apply Hall].
      destruct (Htot b y); [congruence|]. by eapply Htrans.
Qed.

Lemma max_by_key_spec {A} (le : A -> A -> bool) l :
  (forall x y, le x y = true \/ le y x = true) ->
  (forall x y z, le x y = true -> le y z = true -> le x z = true) ->
  match max_by_key le l with
  | None => l = []
  | Some m => m ∈ l /\ forall x, x ∈ l -> le x m = true
  end.
Proof.
  intros Htot Htrans. destruct l as [|b l]; [done|]. unfold max_by_key. simpl.
  destruct (max_by_key_from le l b Htot Htrans) as (m & -> & Hin & Hb & Hall).
  split; [set_solver|]. intros x [->|Hx]%elem_of_cons; auto.
Qed.

(** [precedence_leb] as a proposition. *)
Definition precedes (a b : ResolvedFileSystemEntry) : Prop :=
  length (components (resolved_path a)) < length (components (resolved_path b)) \/
  (length (components (resolved_path a)) = length (components (resolved_path b)) /\
   access_rank (resolved_access a) <= access_rank (resolved_access b)).

Lemma precedence_leb_spec a b : precedence_leb a b = true <-> precedes a b.
Proof.
  unfold precedence_leb, precedes, resolved_entry_precedence.
  rewrite orb_true_iff, andb_true_iff, Nat.ltb_lt, Nat.eqb_eq, Nat.leb_le. done.
Qed.

Lemma precedence_total a b : precedence_leb a b = true \/ precedence_leb b a = true.
Proof. rewrite !precedence_leb_spec. unfold precedes. lia. Qed.

Lemma precedence_trans a b c :
  precedence_leb a b = true -> precedence_leb b c = true -> precedence_leb a c = true.
Proof. rewrite !precedence_leb_spec. unfold precedes. lia. Qed.

(** ** The entry that decides *)

(** The access [a] is that of an entry above [target] which lies below every other
    entry above [target], and at its own path no entry has a stronger access; when no
    entry lies above [target], access is denied. *)
Definition decides (target : str) (es : list ResolvedFileSystemEntry)
    (a : FileSystemAccessMode) : Prop :=
  (exists e, e ∈ es /\ starts_with target (resolved_path e) = true /\ resolved_access e = a /\
     forall e', e' ∈ es -> starts_with target (resolved_path e') = true ->
       starts_with (resolved_path e) (resolved_path e') = true /\
       (path_eqb (resolved_path e') (resolved_path e) = true ->
        access_rank (resolved_access e') <= access_rank a)) \/
  (a = Deny /\ forall e, e ∈ es -> starts_with target (resolved_path e) = false).

Definition access_of (target : str) (es : list ResolvedFileSystemEntry) : FileSystemAccessMode :=
  from_option resolved_access Deny
    (max_by_key precedence_leb
       (List.filter (fun entry => starts_with target (resolved_path entry)) es)).

Lemma elem_filter {A} (f : A -> bool) l x : x ∈ List.filter f l <-> x ∈ l /\ f x = true.
Proof. rewrite !list_elem_of_In. apply filter_In. Qed.

Lemma existsb_elem {A} (f : A -> bool) l : existsb f l = true <-> exists x, x ∈ l /\ f x = true.
Proof. rewrite existsb_exists. by setoid_rewrite list_elem_of_In. Qed.

Lemma existsb_elem_false {A} (f : A -> bool) l :
  existsb f l = false <-> forall x, x ∈ l -> f x = false.
Proof.
  rewrite <- not_true_iff_false, existsb_elem. split.
  - intros H x Hx. apply not_true_iff_false. eauto.
  - intros H (x & Hx & E). by rewrite (H x Hx) in E.
Qed.

Lemma access_rank_inj a b : access_rank a = access_rank b -> a = b.
Proof. by destruct a, b. Qed.

(** Of two prefixes of one path the one with fewer components is a prefix of the other. *)
Lemma starts_with_shorter target a b :
  starts_with target a = true -> starts_with target b = true ->
  length (components b) <= length (components a) -> starts_with a b = true.
Proof.
  unfold starts_with. rewrite !bool_decide_eq_true. intros Ha Hb Hlen.
  destruct (prefix_weak_total _ _ _ Ha Hb) as [H|]; [|done].
  apply prefix_length_eq in H as ->; [done|lia].
Qed.

Lemma starts_with_length a b :
  starts_with a b = true -> length (components b) <= length (components a).
Proof. unfold starts_with. rewrite bool_decide_eq_true. apply prefix_length. Qed.

Lemma path_eqb_spec a b : path_eqb a b = true <-> components a = components b.
Proof. apply bool_decide_eq_true. Qed.

Lemma access_of_decides target es : decides target es (access_of target es).
Proof.
  unfold access_of, decides.
  pose proof (max_by_key_spec precedence_leb
    (List.filter (fun entry => starts_with target (resolved_path entry)) es)
    precedence_total precedence_trans) as H.
  destruct (max_by_key _ _) as [m|]; simpl.
  - destruct H as [[Hm Hpm]%elem_filter Hall]. left. exists m. split_and!; try done.
    intros e' He' Hp'. assert (precedes e' m) as Hle.
    { apply precedence_leb_spec, Hall. by apply elem_filter. }
    split; [|by intros E%path_eqb_spec; destruct Hle as [?|[_ ?]]; [rewrite E in *; lia|]].
    eapply starts_with_shorter; [done..|]. destruct Hle as [?|[? _]]; lia.
  - right. split; [done|]. intros e He.
    destruct (starts_with target (resolved_path e)) eqn:E; [|done].
    assert (e ∈ List.filter (fun entry => starts_with target (resolved_path entry)) es) as Hin
      by by apply elem_filter.
    rewrite H in Hin. by apply not_elem_of_nil in Hin.
Qed.

Lemma decides_unique target es a b : decides target es a -> decides target es b -> a = b.
Proof.
  intros [(e & He & Hp & <- & Hall)|[-> Hno]] [(f & Hf & Hq & <- & Hall')|[-> Hno']]; try done.
  - destruct (Hall f Hf Hq) as [Hef Hr], (Hall' e He Hp) as [Hfe Hr'].
    assert (components (resolved_path e) = components (resolved_path f)) as E.
    { apply (starts_with_same_length target); [done..|].
      apply starts_with_length in Hef, Hfe. lia. }
    apply access_rank_inj. apply Nat.le_antisymm; [apply Hr'|apply Hr]; by apply path_eqb_spec.
  - by rewrite (Hno' e He) in Hp.
  - by rewrite (Hno f Hf) in Hq.
Qed.

Lemma access_of_iff target es a : access_of target es = a <-> decides target es a.
Proof.
  split; [intros <-; apply access_of_decides|].
  intros H. eapply decides_unique; [apply access_of_decides|done].
Qed.

Lemma resolve_access_restricted env policy path cwd :
  kind policy = Restricted ->
  resolve_access_with_cwd env policy path cwd =
  from_option (fun target => access_of target (resolved_entries_with_cwd env policy cwd)) Deny
    (resolve_candidate_path env path cwd).
Proof. unfold resolve_access_with_cwd. intros ->. by destruct (resolve_candidate_path _ _ _). Qed.

(** ** Resolved paths are in normal form

    The current directory is absolute and the home directory, if any, is not the
    empty string; the paths of a policy are [AbsolutePathBuf]s. *)

Record env_ok (env : Env) : Prop := {
  current_dir_absolute : forall c, current_dir env = Ok c -> is_absolute c = true;
  home_dir_ne : home_dir env <> Some [];
}.
Definition entry_ok (e : FileSystemSandboxEntry) : Prop :=
  match entry_path e with PathEntry path => normal path | _ => True end.
Definition policy_ok (p : FileSystemSandboxPolicy) : Prop := Forall entry_ok (entries p).
Definition cwd_ok (cwd : option str) : Prop := forall c, cwd = Some c -> normal c.

Lemma from_absolute_path_Ok env path p :
  env_ok env -> from_absolute_path env path = Ok p -> normal p.
Proof.
  intros He. unfold from_absolute_path, Path.from_absolute_path, absolutize,
    normalize_path_for_platform. destruct (is_absolute _) eqn:Ea.
  - intros [= <-]. rewrite normalize_absolute by done. eexists. split; [|done].
    apply lexical_ok; [constructor|apply Str.split_pieces].
  - intros (cwd & Hc & [= <-])%bind_Ok. apply absolutize_from_normal.
    by eapply current_dir_absolute.
Qed.

Lemma cwd_ok_from env cwd : env_ok env -> cwd_ok (ok (from_absolute_path env cwd)).
Proof.
  intros He c. destruct (from_absolute_path env cwd) as [q|] eqn:E; [|done].
  intros [= ->]. by eapply from_absolute_path_Ok.
Qed.

Lemma candidate_normal env path cwd target :
  env_ok env -> resolve_candidate_path env path cwd = Some target -> normal target.
Proof.
  intros He. unfold resolve_candidate_path. destruct (is_absolute path).
  - apply (cwd_ok_from env path He).
  - destruct (ok (from_absolute_path env cwd)) as [c|] eqn:E; [|done]. intros [= <-].
    apply join_normal. by eapply (cwd_ok_from env cwd).
Qed.

Lemma candidate_fixed env target cwd :
  normal target -> resolve_candidate_path env target cwd = Some target.
Proof.
  intros H. unfold resolve_candidate_path. rewrite normal_absolute by done.
  by rewrite from_absolute_path_fixed.
Qed.

Lemma candidate_Some env path cwd c :
  from_absolute_path env cwd = Ok c -> is_Some (resolve_candidate_path env path cwd).
Proof.
  intros Hc. unfold resolve_candidate_path. destruct (is_absolute path) eqn:E.
  - by destruct (from_absolute_path_normal env path E) as (p & -> & _).
  - by rewrite Hc.
Qed.

Lemma last_ancestors ps n :
  Forall name_ok ps -> length ps <= n -> last (ancestors_from (S n) (render ps)) = Some [sep].
Proof.
  revert n; induction ps as [|p ps IH] using rev_ind; intros n Hps Hn; [done|].
  rewrite length_app in Hn. simpl in Hn. destruct n as [|n]; [lia|].
  change (ancestors_from (S (S n)) ?x) with
    (x :: match parent x with Some p => ancestors_from (S n) p | None => [] end).
  rewrite parent_render_snoc by done. apply Forall_app in Hps as [Hps _].
  rewrite last_cons, IH by (done || lia). done.
Qed.

Lemma length_join_names ps : Forall name_ok ps -> length ps <= S (length (Str.join [sep] ps)).
Proof.
  induction 1 as [|p ps Hp Hps IH]; [simpl; lia|]. destruct ps as [|q ps]; [simpl; lia|].
  change (Str.join [sep] (p :: q :: ps)) with (p ++ [sep] ++ Str.join [sep] (q :: ps)).
  rewrite !length_app. simpl in *. lia.
Qed.

Lemma absolute_root_is_slash env cwd : normal cwd -> absolute_root_path_for_cwd env cwd = [sep].
Proof.
  intros (ps & Hps & ->). unfold absolute_root_path_for_cwd, ancestors.
  rewrite last_ancestors by (done || by apply length_join_names).
  cbn [from_option id]. by rewrite (from_absolute_path_fixed env [sep]) by by exists [].
Qed.

Lemma special_normal env value cwd p :
  env_ok env -> cwd_ok cwd ->
  resolve_file_system_special_path env value cwd = Some p -> normal p.
Proof.
  intros He Hc. destruct value as [| |[sub|]| | |]; simpl; try done.
  - destruct cwd as [c|]; [|done]. intros [= <-]. apply resolve_normal, normal_absolute. by apply Hc.
  - destruct cwd as [c|]; [|done]. intros [= <-]. by apply Hc.
  - destruct (var_os env _) as [t|]; [|done]. simpl. destruct (Str.is_empty t); [done|].
    by apply cwd_ok_from.
  - intros (q & Hq & H)%bind_Some. destruct (negb _); [done|]. injection H as <-.
    by eapply cwd_ok_from.
Qed.

Lemma slash_normal : normal [sep].
Proof. by exists []. Qed.

Lemma entry_path_normal env e cwd p :
  env_ok env -> cwd_ok cwd -> entry_ok e ->
  resolve_entry_path env (entry_path e) cwd = Some p -> normal p.
Proof.
  intros He Hc Hok. unfold entry_ok in Hok. unfold resolve_entry_path, resolve_file_system_path.
  destruct (entry_path e) as [q|q|[| | | | |]]; [by intros [= <-]|done| |by apply special_normal..].
  destruct cwd as [c|]; [|done]. intros [= <-].
  rewrite absolute_root_is_slash by by apply Hc. apply slash_normal.
Qed.

Lemma elem_resolved env policy cwd r :
  r ∈ resolved_entries_with_cwd env policy cwd <->
  exists e, e ∈ entries policy /\ access e = resolved_access r /\
    resolve_entry_path env (entry_path e) (ok (from_absolute_path env cwd)) = Some (resolved_path r).
Proof.
  unfold resolved_entries_with_cwd. rewrite list_elem_of_omap. split.
  - intros (e & He & Hr). apply fmap_Some in Hr as (p & Hp & ->). eauto.
  - intros (e & He & Ha & Hp). exists e. split; [done|]. rewrite Hp, Ha. by destruct r.
Qed.

Lemma resolved_normal env policy cwd r :
  env_ok env -> policy_ok policy -> r ∈ resolved_entries_with_cwd env policy cwd ->
  normal (resolved_path r).
Proof.
  intros He Hp (e & Hin & _ & Hr)%elem_resolved. unfold policy_ok in Hp.
  rewrite Forall_forall in Hp. eapply entry_path_normal; [done|by apply cwd_ok_from|by apply Hp|done].
Qed.

(** ** Adding entries *)

(** Entries of one access mode can only move a path to that mode. *)
Lemma access_of_added target es es' a :
  (forall e, e ∈ es -> e ∈ es') -> (forall e, e ∈ es' -> e ∈ es \/ resolved_access e = a) ->
  access_of target es' = a \/ access_of target es' = access_of target es.
Proof.
  intros Hsub Hnew. destruct (access_of_decides target es') as [(e & He & Hp & Ha & Hall)|[Hd Hno]].
  - destruct (Hnew e He) as [Hin|]; [|left; congruence]. right. symmetry. apply access_of_iff.
    left. exists e. split_and!; auto.
  - right. rewrite Hd. symmetry. apply access_of_iff. right. split; auto.
Qed.

(** An entry above the path is overruled only by an entry strictly below it, or by a
    stronger one at the same path. *)
Lemma access_of_above target es d :
  d ∈ es -> starts_with target (resolved_path d) = true ->
  access_rank (resolved_access d) <= access_rank (access_of target es) \/
  exists e, e ∈ es /\ starts_with target (resolved_path e) = true /\
    resolved_access e = access_of target es /\
    starts_with (resolved_path e) (resolved_path d) = true /\
    path_eqb (resolved_path e) (resolved_path d) = false.
Proof.
  intros Hd Hp. destruct (access_of_decides target es) as [(e & He & Hpe & Ha & Hall)|[_ Hno]];
    [|by rewrite (Hno d Hd) in Hp].
  destruct (Hall d Hd Hp) as [Hs Hr]. destruct (path_eqb (resolved_path e) (resolved_path d)) eqn:E.
  - left. apply Hr. apply path_eqb_spec. symmetry. by apply path_eqb_spec.
  - right. by exists e.
Qed.

Lemma opt_path_eqb_spec a b :
  opt_path_eqb a b = true <-> components <$> a = components <$> b.
Proof.
  destruct a, b; simpl; try done. rewrite path_eqb_spec. split; [by intros ->|by intros [= ->]].
Qed.

(** Entries that the code takes for equal resolve alike. *)
Lemma special_shared env a b cwd :
  env_ok env -> cwd_ok cwd -> special_paths_share_target a b = true ->
  resolve_file_system_special_path env a cwd = resolve_file_system_special_path env b cwd.
Proof.
  intros He Hc. destruct a as [| |sa| | |], b as [| |sb| | |]; try done. simpl.
  rewrite opt_path_eqb_spec. intros E. destruct cwd as [c|]; [|done]. simpl.
  destruct sa as [sa|], sb as [sb|]; simplify_eq/=; [|done]. f_equal.
  apply resolve_components; [|by apply home_dir_ne|congruence].
  destruct (Hc c eq_refl) as (ps & _ & ->). done.
Qed.

Lemma special_eqb_share a b : special_eqb a b = special_paths_share_target a b.
Proof. by destruct a, b. Qed.

Lemma entry_eqb_resolve env a b cwd :
  env_ok env -> cwd_ok cwd -> entry_ok a -> entry_ok b -> entry_eqb a b = true ->
  access a = access b /\
  resolve_entry_path env (entry_path a) cwd = resolve_entry_path env (entry_path b) cwd.
Proof.
  intros He Hc Ha Hb. unfold entry_eqb. rewrite andb_true_iff, bool_decide_eq_true.
  intros [E ->]. split; [done|]. unfold entry_ok in *.
  destruct (entry_path a) as [p|p|p], (entry_path b) as [q|q|q]; try done; simpl in E.
  - apply path_eqb_normal in E as ->; done.
  - rewrite special_eqb_share in E. simpl. rewrite <- (special_shared env p q) by done.
    destruct p, q; done.
Qed.

Definition resolves (env : Env) (cwd : str) (e : FileSystemSandboxEntry)
    (r : ResolvedFileSystemEntry) : Prop :=
  access e = resolved_access r /\
  resolve_entry_path env (entry_path e) (ok (from_absolute_path env cwd)) = Some (resolved_path r).

Lemma push_unique_resolved env cwd es x e r :
  env_ok env -> Forall entry_ok es -> entry_ok x -> e ∈ push_entry_unique es x ->
  resolves env cwd e r -> (exists e', e' ∈ es /\ resolves env cwd e' r) \/ resolves env cwd x r.
Proof. intros He Hes Hx. unfold push_entry_unique. destruct (existsb _ es); set_solver. Qed.

Lemma push_unique_keeps env cwd es x r :
  env_ok env -> Forall entry_ok es -> entry_ok x ->
  (exists e, e ∈ es /\ resolves env cwd e r) \/ resolves env cwd x r ->
  exists e, e ∈ push_entry_unique es x /\ resolves env cwd e r.
Proof.
  intros He Hes Hx. unfold push_entry_unique. destruct (existsb _ es) eqn:E; [|set_solver].
  intros [?|[Hr1 Hr2]]; [done|]. apply existsb_elem in E as (y & Hy & E).
  rewrite Forall_forall in Hes.
  destruct (entry_eqb_resolve env y x (ok (from_absolute_path env cwd)) He) as [H1 H2];
    [by apply cwd_ok_from|by apply Hes|done..|].
  exists y. split; [done|]. split; congruence.
Qed.

Lemma push_unique_ok es x : Forall entry_ok es -> entry_ok x -> Forall entry_ok (push_entry_unique es x).
Proof.
  intros. unfold push_entry_unique. destruct (existsb _ es); [done|].
  apply Forall_app. split; [done|]. by apply Forall_singleton.
Qed.

Lemma push_all_ok es xs :
  Forall entry_ok es -> Forall entry_ok xs -> Forall entry_ok (fold_left push_entry_unique xs es).
Proof.
  intros Hes Hxs. revert es Hes; induction Hxs as [|x xs Hx Hxs IH]; intros es Hes; [done|].
  apply IH. by apply push_unique_ok.
Qed.

Lemma push_all_resolved env cwd es xs r :
  env_ok env -> Forall entry_ok es -> Forall entry_ok xs ->
  (exists e, e ∈ fold_left push_entry_unique xs es /\ resolves env cwd e r) <->
  (exists e, e ∈ es /\ resolves env cwd e r) \/ (exists e, e ∈ xs /\ resolves env cwd e r).
Proof.
  intros He Hes Hxs. revert es Hes; induction Hxs as [|x xs Hx Hxs IH]; intros es Hes; simpl.
  - set_solver.
  - rewrite IH by by apply push_unique_ok.
    assert ((exists e, e ∈ push_entry_unique es x /\ resolves env cwd e r) <->
            (exists e, e ∈ es /\ resolves env cwd e r) \/ resolves env cwd x r) as ->;
      [|set_solver].
    split; [|by apply push_unique_keeps]. intros (e & Hin & Hr).
    by eapply push_unique_resolved.
Qed.

Lemma elem_resolves env policy cwd r :
  r ∈ resolved_entries_with_cwd env policy cwd <->
  exists e, e ∈ entries policy /\ resolves env cwd e r.
Proof. apply elem_resolved. Qed.

(** ** Properties *)

(** C13: The access a restricted policy gives to a path it can resolve is the access
    of the deepest entry above the path; between entries for the same path deny beats
    write and write beats read; without any entry above the path access is denied.
    The order of the entries does not matter. *)
Theorem most_specific_entry_decides env policy path cwd target a :
  kind policy = Restricted -> resolve_candidate_path env path cwd = Some target ->
  resolve_access_with_cwd env policy path cwd = a <->
  decides target (resolved_entries_with_cwd env policy cwd) a.
Proof.
  intros Hk Ht. rewrite resolve_access_restricted, Ht by done. apply access_of_iff.
Qed.

Lemma root_resolves env cwd c a :
  env_ok env -> from_absolute_path env cwd = Ok c ->
  resolves env cwd (mkEntry (Special Root) a) (mkResolved [sep] a).
Proof.
  intros He Hc. split; [done|]. simpl. rewrite Hc. simpl.
  rewrite absolute_root_is_slash; [done|by eapply from_absolute_path_Ok].
Qed.

Lemma above_root target : normal target -> starts_with target [sep] = true.
Proof.
  intros (ps & Hps & ->). change [sep] with (render []).
  rewrite starts_with_render by (done || constructor). apply bool_decide_eq_true, prefix_nil.
Qed.

Lemma deny_filter es e : e ∈ List.filter is_deny es <-> e ∈ es /\ access e = Deny.
Proof. rewrite elem_filter. unfold is_deny. by rewrite bool_decide_eq_true. Qed.

Lemma filter_ok f es : Forall entry_ok es -> Forall entry_ok (List.filter f es).
Proof. rewrite !Forall_forall. intros H e [? _]%elem_filter. by apply H. Qed.

(** The entries of a restricted policy after the deny entries of another were added. *)
Lemma denials_added env cwd es existing target :
  env_ok env -> Forall entry_ok es -> policy_ok existing ->
  let es' := fold_left push_entry_unique (List.filter is_deny (entries existing)) es in
  let before := resolved_entries_with_cwd env (restricted es) cwd in
  let after := resolved_entries_with_cwd env (restricted es') cwd in
  (access_of target after = Deny \/ access_of target after = access_of target before) /\
  (forall d, d ∈ resolved_entries_with_cwd env existing cwd -> resolved_access d = Deny ->
     starts_with target (resolved_path d) = true ->
     access_of target after = Deny \/
     exists e, e ∈ before /\ starts_with target (resolved_path e) = true /\
       starts_with (resolved_path e) (resolved_path d) = true /\
       path_eqb (resolved_path e) (resolved_path d) = false).
Proof.
  intros He Hes Hex es' before after.
  assert (forall r, r ∈ after <-> r ∈ before \/
            exists e, e ∈ List.filter is_deny (entries existing) /\ resolves env cwd e r) as Hafter.
  { intros r. unfold after, before. rewrite !elem_resolves. simpl. unfold es'.
    apply push_all_resolved; [done..|]. by apply filter_ok. }
  assert (forall r, r ∈ after -> r ∈ before \/ resolved_access r = Deny) as Hnew.
  { intros r [?|(e & Hin & Ha & _)]%Hafter; [by left|right].
    rewrite <- Ha. by apply deny_filter in Hin as [_ ?]. }
  split; [apply access_of_added; [|done]; intros; apply Hafter; by left|].
  intros d Hd Hdeny Hp. apply elem_resolves in Hd as (x & Hx & Hr).
  assert (d ∈ after) as Hda.
  { apply Hafter. right. exists x. split; [|done]. apply deny_filter. split; [done|].
    destruct Hr as [-> _]. done. }
  destruct (access_of_above target after d Hda Hp) as [Hr'|(e & Hin & Hpe & Ha & Hs & Hne)].
  - left. rewrite Hdeny in Hr'. destruct (access_of target after); simpl in *; lia || done.
  - destruct (Hnew e Hin) as [?|Hd']; [by right; exists e|left; congruence].
Qed.

Lemma resolved_root_write env cwd c :
  env_ok env -> from_absolute_path env cwd = Ok c ->
  resolved_entries_with_cwd env (restricted [mkEntry (Special Root) Write]) cwd =
  [mkResolved [sep] Write].
Proof.
  intros He Hc. unfold resolved_entries_with_cwd. rewrite Hc. csimpl.
  rewrite absolute_root_is_slash; [done|by eapply from_absolute_path_Ok].
Qed.

(** The same from full-disk write access: every path below a deny entry is denied. *)
Lemma denials_added_to_full env cwd c existing target :
  env_ok env -> policy_ok existing -> from_absolute_path env cwd = Ok c -> normal target ->
  let es' := fold_left push_entry_unique (List.filter is_deny (entries existing))
               [mkEntry (Special Root) Write] in
  let after := resolved_entries_with_cwd env (restricted es') cwd in
  (access_of target after = Deny \/ access_of target after = Write) /\
  (forall d, d ∈ resolved_entries_with_cwd env existing cwd -> resolved_access d = Deny ->
     starts_with target (resolved_path d) = true -> access_of target after = Deny).
Proof.
  intros He Hex Hc Hn es' after.
  destruct (denials_added env cwd [mkEntry (Special Root) Write] existing target He
    ltac:(by repeat constructor) Hex) as [H1 H2].
  rewrite (resolved_root_write env cwd c He Hc) in *.
  assert (access_of target [mkResolved [sep] Write] = Write) as Ew.
  { unfold access_of. simpl. by rewrite above_root. }
  rewrite Ew in H1. split; [done|]. intros d Hd Hdeny Hpd.
  destruct (H2 d Hd Hdeny Hpd) as [?|(e & ->%list_elem_of_singleton & _ & Hs & Hne)]; [done|].
  exfalso. simpl in *. assert (normal (resolved_path d)) as Hnd by by eapply resolved_normal.
  apply not_true_iff_false in Hne. apply Hne, path_eqb_spec.
  apply (starts_with_same_length [sep]); [apply starts_with_refl|done|].
  apply starts_with_length in Hs. apply above_root, starts_with_length in Hnd. lia.
Qed.

Lemma no_deny_resolved env existing cwd d :
  existsb is_deny (entries existing) = false ->
  d ∈ resolved_entries_with_cwd env existing cwd -> resolved_access d <> Deny.
Proof.
  intros Ed (x & Hx & Ha & _)%elem_resolved. rewrite existsb_elem_false in Ed.
  specialize (Ed x Hx). apply bool_decide_eq_false in Ed. congruence.
Qed.

(** When the allow side of a policy is replaced, the deny entries of the old
    policy survive: [preserve_deny_read_restrictions_from] grants nothing (the access
    of every path is what it was or is denied), and a path below a deny entry of the
    old policy is denied unless the new policy itself has an entry strictly below that
    deny entry and above the path. *)
Theorem preserved_denials_hold env policy existing path cwd c target :
  env_ok env -> policy_ok policy -> policy_ok existing -> kind policy <> ExternalSandbox ->
  from_absolute_path env cwd = Ok c -> resolve_candidate_path env path cwd = Some target ->
  let policy' := preserve_deny_read_restrictions_from policy existing in
  let before := resolve_access_with_cwd env policy path cwd in
  let after := resolve_access_with_cwd env policy' path cwd in
  (after = Deny \/ after = before) /\
  (forall d, d ∈ resolved_entries_with_cwd env existing cwd -> resolved_access d = Deny ->
     starts_with target (resolved_path d) = true ->
     after = Deny \/
     exists e, e ∈ resolved_entries_with_cwd env policy cwd /\
       starts_with target (resolved_path e) = true /\
       starts_with (resolved_path e) (resolved_path d) = true /\
       path_eqb (resolved_path e) (resolved_path d) = false).
Proof.
  intros He Hp Hex Hk Hc Ht policy' before after.
  assert (normal target) as Hn by by eapply candidate_normal.
  unfold after, before, policy', preserve_deny_read_restrictions_from, is_restricted.
  destruct (kind policy) eqn:Ek; [| |done].
  - rewrite Ek. cbn [negb]. rewrite !resolve_access_restricted, Ht by done.
    apply (denials_added env cwd (entries policy) existing target He Hp Hex).
  - unfold resolve_access_with_cwd at 3. rewrite Ek.
    destruct (existsb is_deny (entries existing)) eqn:Ed; simpl.
    + destruct (denials_added_to_full env cwd c existing target) as [H1 H2]; [done..|].
      rewrite !resolve_access_restricted, Ht by done. split; [exact H1|].
      intros d Hd Hdeny Hpd. left. by eapply H2.
    + rewrite Ek. simpl. unfold resolve_access_with_cwd. rewrite Ek. split; [by right|].
      intros d Hd Hdeny. by apply no_deny_resolved in Hd.
Qed.

(** ** Full-disk access *)

Lemma root_entry env policy cwd c f :
  env_ok env -> from_absolute_path env cwd = Ok c -> has_root_access policy f = true ->
  exists a, f a = true /\ mkResolved [sep] a ∈ resolved_entries_with_cwd env policy cwd.
Proof.
  intros He Hc. unfold has_root_access. rewrite andb_true_iff, existsb_elem.
  intros [_ ([[p|p|[]] a] & Hin & Hf)]; try done. exists a. split; [done|].
  apply elem_resolves. eexists. split; [done|]. by eapply root_resolves.
Qed.

(** A write entry that overrides a read entry resolves to the same path; the case of
    [/tmp] written as a special path needs [/tmp] to be there. *)
Lemma override_resolves env x y cwd p :
  env_ok env -> cwd_ok cwd -> entry_ok x -> entry_ok y ->
  is_dir env $"/tmp" = true -> cwd <> None ->
  file_system_paths_share_target (entry_path y) (entry_path x) = true ->
  resolve_entry_path env (entry_path x) cwd = Some p ->
  resolve_entry_path env (entry_path y) cwd = Some p.
Proof.
  intros He Hc Hx Hy Htmp Hcwd. unfold entry_ok in *.
  assert (normal $"/tmp") as Hnt by by apply normal_check.
  assert (resolve_file_system_special_path env SlashTmp cwd = Some $"/tmp") as Est.
  { simpl. rewrite from_absolute_path_fixed by done. simpl. by rewrite Htmp. }
  assert (forall q, normal q -> parent q = None -> q = [sep]) as Hroot.
  { intros q (ps & Hps & ->) Hpar. destruct ps as [|n ps _] using rev_ind; [done|].
    by rewrite parent_render_snoc in Hpar. }
  destruct cwd as [c|]; [|done].
  destruct (entry_path y) as [q|q|[]], (entry_path x) as [q'|q'|[]]; try done; simpl.
  - intros E [= <-]. f_equal. by apply path_eqb_normal in E.
  - destruct (parent q) eqn:E; [done|]. intros _ [= <-].
    rewrite absolute_root_is_slash by by apply Hc. by rewrite (Hroot q).
  - intros E Hp. apply path_eqb_normal in E as ->; [|done..].
    change (resolve_file_system_special_path env SlashTmp (Some c) = Some p) in Hp. congruence.
  - destruct (parent q') eqn:E; [done|]. intros _ [= <-].
    rewrite absolute_root_is_slash by by apply Hc. by rewrite (Hroot q').
  - intros E Hp. change (resolve_file_system_special_path env (ProjectRoots subpath) (Some c) = Some p).
    by rewrite (special_shared env (ProjectRoots subpath) (ProjectRoots subpath0)).
  - intros E [= <-]. apply path_eqb_normal in E as ->; done.
Qed.


Lemma overridden env policy cwd c x r :
  env_ok env -> policy_ok policy -> is_dir env $"/tmp" = true ->
  from_absolute_path env cwd = Ok c -> x ∈ entries policy -> resolves env cwd x r ->
  has_same_target_write_override policy x = true ->
  resolved_access r = Read /\
  mkResolved (resolved_path r) Write ∈ resolved_entries_with_cwd env policy cwd.
Proof.
  intros He Hp Htmp Hc Hx [Ha Hres] H. unfold policy_ok in Hp. rewrite Forall_forall in Hp.
  apply existsb_elem in H as (y & Hy & H). rewrite !andb_true_iff in H.
  destruct H as [[Hw Hlt] Hsh]. apply Nat.ltb_lt in Hlt.
  assert (access y = Write) as Hyw by by destruct (access y).
  rewrite Hyw, Ha in Hlt. split; [destruct (resolved_access r); simpl in *; lia || done|].
  apply elem_resolves. exists y. split; [done|]. split; [done|].
  eapply (override_resolves env x y); [done|by apply cwd_ok_from|by apply Hp|by apply Hp|done| |done|done].
  by rewrite Hc.
Qed.

(** Without a narrowing entry, a resolved entry that does not write is overridden by a
    write entry at the same path. *)
Lemma not_narrowed env policy cwd c r :
  env_ok env -> policy_ok policy -> is_dir env $"/tmp" = true ->
  from_absolute_path env cwd = Ok c ->
  kind policy = Restricted -> has_full_disk_write_access policy = true ->
  r ∈ resolved_entries_with_cwd env policy cwd -> resolved_access r <> Write ->
  resolved_access r = Read /\
  mkResolved (resolved_path r) Write ∈ resolved_entries_with_cwd env policy cwd.
Proof.
  intros He Hp Htmp Hc Hk. unfold has_full_disk_write_access. rewrite Hk.
  rewrite andb_true_iff, negb_true_iff. intros [Hroot Hnar] Hr Hnw.
  unfold has_write_narrowing_entries, is_restricted in Hnar. rewrite Hk in Hnar. simpl in Hnar.
  apply elem_resolves in Hr as (x & Hx & Hr).
  assert (narrows_write policy x = false) as Hx' by (by eapply existsb_elem_false in Hnar).
  assert (access x <> Write) as Hxw by (destruct Hr as [-> _]; done).
  pose proof (overridden env policy cwd c x r He Hp Htmp Hc Hx Hr) as Hover.
  unfold narrows_write in Hx'. destruct (can_write (access x)) eqn:Ew; [by destruct (access x)|].
  destruct Hr as [Ha Hres].
  destruct (entry_path x) as [q|q|[]] eqn:Ep; try done; try (apply Hover; by apply negb_false_iff).
  apply bool_decide_eq_false in Hx'. simpl in Hres. rewrite Hc in Hres. simpl in Hres.
  rewrite absolute_root_is_slash in Hres by (by eapply from_absolute_path_Ok).
  destruct (root_entry env policy cwd c can_write) as (a' & Hw & Hin); [done..|].
  split; [rewrite <- Ha; by destruct (access x)|]. injection Hres as <-. by destruct a'.
Qed.

Lemma full_disk_read_covers env policy cwd c path :
  env_ok env -> from_absolute_path env cwd = Ok c -> has_full_disk_read_access policy = true ->
  can_read_path_with_cwd env policy path cwd = true.
Proof.
  intros He Hc. destruct (candidate_Some env path cwd c Hc) as [target Ht].
  assert (normal target) as Hn by by eapply candidate_normal.
  unfold can_read_path_with_cwd, has_full_disk_read_access. destruct (kind policy) eqn:Hk;
    [|unfold resolve_access_with_cwd; by rewrite Hk..].
  rewrite andb_true_iff, negb_true_iff. intros [Hroot Hdeny].
  rewrite resolve_access_restricted, Ht by done. cbn [from_option].
  unfold has_denied_read_restrictions, is_restricted in Hdeny. rewrite Hk in Hdeny.
  destruct (root_entry env policy cwd c can_read) as (a & Ha & Hin); [done..|].
  destruct (access_of_decides target (resolved_entries_with_cwd env policy cwd))
    as [(e & Hie & _ & <- & _)|[_ Hno]].
  - apply (no_deny_resolved _ _ _ _ Hdeny) in Hie. by destruct (resolved_access e).
  - specialize (Hno _ Hin). simpl in Hno. by rewrite above_root in Hno.
Qed.

Lemma full_disk_write_covers env policy cwd c path :
  env_ok env -> policy_ok policy -> from_absolute_path env cwd = Ok c ->
  is_dir env $"/tmp" = true -> has_full_disk_write_access policy = true ->
  can_write_path_with_cwd env policy path cwd = true.
Proof.
  intros He Hp Hc Htmp Hf. destruct (candidate_Some env path cwd c Hc) as [target Ht].
  assert (normal target) as Hn by by eapply candidate_normal.
  unfold can_write_path_with_cwd. rewrite Hf. destruct (kind policy) eqn:Hk;
    [|unfold resolve_access_with_cwd; by rewrite Hk..].
  rewrite resolve_access_restricted, Ht by done. cbn [from_option].
  destruct (access_of_decides target (resolved_entries_with_cwd env policy cwd))
    as [(e & Hie & Hpe & <- & Hall)|[_ Hno]].
  - destruct (decide (resolved_access e = Write)) as [->|Hne]; [done|exfalso].
    destruct (not_narrowed env policy cwd c e) as [Hr Hin]; [done..|].
    destruct (Hall _ Hin Hpe) as [_ Hle]. rewrite Hr in Hle. simpl in Hle.
    specialize (Hle (proj2 (path_eqb_spec _ _) eq_refl)). lia.
  - assert (has_root_access policy can_write = true) as Hroot.
    { unfold has_full_disk_write_access in Hf. rewrite Hk in Hf. by apply andb_true_iff in Hf as [? _]. }
    destruct (root_entry env policy cwd c can_write) as (a & Ha & Hin); [done..|].
    specialize (Hno _ Hin). simpl in Hno. by rewrite above_root in Hno.
Qed.

(** What the two full-disk predicates promise holds for every path: with full-disk
    read access every path can be read, and with full-disk write access, even next to
    entries that ask for less but are overridden, every path can be written.  The
    second needs [/tmp] to be a directory, because a policy may write the same place
    as a path and as the special path. *)
Theorem full_disk_access_covers_every_path env policy cwd c path :
  env_ok env -> policy_ok policy -> from_absolute_path env cwd = Ok c ->
  (has_full_disk_read_access policy = true -> can_read_path_with_cwd env policy path cwd = true) /\
  (has_full_disk_write_access policy = true -> is_dir env $"/tmp" = true ->
   can_write_path_with_cwd env policy path cwd = true).
Proof.
  intros He Hp Hc. split.
  - by eapply full_disk_read_covers.
  - intros Hf Htmp. by eapply full_disk_write_covers.
Qed.

(** ** Protected metadata *)

Lemma metadata_name_ok name :
  name ∈ PROTECTED_METADATA_PATH_NAMES -> name_ok name /\ Str.starts_with $"~" name = false.
Proof.
  intros H. repeat (apply elem_of_cons in H as [->|H]); [..|by apply not_elem_of_nil in H].
  all: split; [|done]; repeat split; try done.
  all: by apply (bool_decide_unpack _).
Qed.

Lemma metadata_path_name_spec name n :
  metadata_path_name name = Some n <-> name = n /\ n ∈ PROTECTED_METADATA_PATH_NAMES.
Proof.
  unfold metadata_path_name. split.
  - intros [Hin H]%find_some. apply bool_decide_eq_true in H. by rewrite list_elem_of_In.
  - intros [-> Hin]. repeat (apply elem_of_cons in Hin as [->|Hin]); [done..|].
    by apply not_elem_of_nil in Hin.
Qed.

Lemma metadata_child_spec env target w p n :
  normal target -> normal (resolved_path w) ->
  metadata_child env target w = Some (p, n) <->
  n ∈ PROTECTED_METADATA_PATH_NAMES /\ p = join env (resolved_path w) n /\
  starts_with target p = true.
Proof.
  intros (ts & Hts & ->) (ws & Hws & Ew). unfold metadata_child, strip_prefix. rewrite Ew.
  rewrite !components_render by done. simpl.
  assert (forall m, m ∈ PROTECTED_METADATA_PATH_NAMES ->
    starts_with (render ts) (join env (render ws) m) = bool_decide (ws ++ [m] `prefix_of` ts)) as Hj.
  { intros m [Hm Htl]%metadata_name_ok. rewrite join_name by done. apply starts_with_render; [done|].
    apply Forall_app. split; [done|]. by apply Forall_singleton. }
  split.
  - intros (rest & Hr & H)%bind_Some. apply strip_components_Some in Hr.
    apply bind_Some in H as (c & Hc & H). apply bind_Some in H as (m & Hm & [= <- <-]).
    apply metadata_path_name_spec in Hm as [Hcm Hm]. split_and!; [done..|].
    rewrite Hj by done. apply bool_decide_eq_true.
    apply fmap_app_inv in Hr as (l1 & l2 & E1 & E2 & ->). apply (inj (fmap Normal)) in E1 as <-.
    subst rest. destruct l2 as [|x l2]; [done|]. injection Hc as <-. simpl in Hcm. subst x.
    exists l2. by rewrite <- app_assoc.
  - intros (Hm & -> & Hp). rewrite Hj in Hp by done. apply bool_decide_eq_true in Hp as [l ->].
    assert (strip_components (Normal <$> ws) (Normal <$> (ws ++ [n]) ++ l) =
            Some (Normal n :: (Normal <$> l))) as ->.
    { apply strip_components_Some. by rewrite !fmap_app, <- app_assoc. }
    simpl. by rewrite (proj2 (metadata_path_name_spec n n)).
Qed.

(** A writable entry of the policy. *)
Definition writable_entry (env : Env) (policy : FileSystemSandboxPolicy) (cwd : str)
    (w : ResolvedFileSystemEntry) : Prop :=
  w ∈ resolved_entries_with_cwd env policy cwd /\ resolved_access w = Write.

(** The target lies at or below the protected metadata path [p] of a writable entry. *)
Definition below_metadata (env : Env) (policy : FileSystemSandboxPolicy) (cwd target p n : str)
    : Prop :=
  exists w, writable_entry env policy cwd w /\ n ∈ PROTECTED_METADATA_PATH_NAMES /\
    p = join env (resolved_path w) n /\ starts_with target p = true.

Lemma metadata_child_of_writable_root_spec env policy cwd target :
  env_ok env -> policy_ok policy -> normal target ->
  match metadata_child_of_writable_root env policy target cwd with
  | Some (p, n) => below_metadata env policy cwd target p n
  | None => forall p n, ~ below_metadata env policy cwd target p n
  end.
Proof.
  intros He Hp Hn. unfold metadata_child_of_writable_root.
  set (ws := List.filter _ _).
  assert (forall w, w ∈ ws <-> writable_entry env policy cwd w) as Hws.
  { intros w. unfold ws, writable_entry. rewrite elem_filter.
    destruct (resolved_access w); naive_solver. }
  assert (forall p n, (p, n) ∈ omap (metadata_child env target) ws <->
            below_metadata env policy cwd target p n) as Hin.
  { intros p n. rewrite list_elem_of_omap. unfold below_metadata.
    assert (forall w, writable_entry env policy cwd w -> normal (resolved_path w)) as Hnw.
    { intros w [Hw _]. by eapply resolved_normal. }
    split; intros (w & Hw & H); exists w.
    - apply Hws in Hw. split; [done|]. apply metadata_child_spec; auto.
    - split; [by apply Hws|]. apply metadata_child_spec; auto. }
  destruct (omap (metadata_child env target) ws) as [|[p n] l] eqn:E; simpl.
  - intros p n H%Hin. by apply not_elem_of_nil in H.
  - apply Hin. apply elem_of_cons. by left.
Qed.

(** An entry that writes explicitly at or below the metadata path [p]. *)
Definition explicit_metadata_write (env : Env) (policy : FileSystemSandboxPolicy)
    (cwd target p : str) : Prop :=
  exists e, writable_entry env policy cwd e /\ starts_with target (resolved_path e) = true /\
    starts_with (resolved_path e) p = true.

Lemma explicit_write_spec env policy p target cwd :
  has_explicit_write_entry_for_metadata_path env policy p target cwd = true <->
  explicit_metadata_write env policy cwd target p.
Proof.
  unfold has_explicit_write_entry_for_metadata_path, explicit_metadata_write, writable_entry.
  rewrite existsb_elem. split; intros (e & H); exists e; rewrite !andb_true_iff in *.
  - destruct H as [? [[Hw ?] ?]]. split_and!; try done. by destruct (resolved_access e).
  - destruct H as [[? ->] [? ?]]. done.
Qed.

(** C27: Git, agent and Codex metadata below a writable root stays protected: unless the
    whole disk is writable, a path at or below such a metadata path is not writable
    when no write entry inside protected metadata covers it, and then
    [forbidden_agent_metadata_write] names a protected directory; conversely a write
    it forbids is below the named metadata of a writable entry and is not writable. *)
Theorem metadata_stays_protected env policy path cwd target :
  env_ok env -> policy_ok policy -> kind policy = Restricted ->
  has_full_disk_write_access policy = false ->
  resolve_candidate_path env path cwd = Some target ->
  (forall p n, below_metadata env policy cwd target p n ->
     (forall p' n', below_metadata env policy cwd target p' n' ->
        ~ explicit_metadata_write env policy cwd target p') ->
     can_write_path_with_cwd env policy path cwd = false /\
     exists m, forbidden_agent_metadata_write env path cwd policy = Some m) /\
  (forall m, forbidden_agent_metadata_write env path cwd policy = Some m ->
     can_write_path_with_cwd env policy path cwd = false /\
     exists p, below_metadata env policy cwd target p m).
Proof.
  intros He Hp Hk Hfd Ht. assert (normal target) as Hn by by eapply candidate_normal.
  pose proof (metadata_child_of_writable_root_spec env policy cwd target He Hp Hn) as Hm.
  assert (forall q, resolve_candidate_path env q cwd = Some target ->
    can_write_path_with_cwd env policy q cwd =
    can_write (access_of target (resolved_entries_with_cwd env policy cwd)) &&
    negb (is_metadata_write_denied env policy target cwd)) as Hcw.
  { intros q Hq. unfold can_write_path_with_cwd, is_metadata_write_denied.
    rewrite resolve_access_restricted, Hq, Hfd by done. simpl.
    rewrite candidate_fixed by done. by destruct (can_write _). }
  rewrite (Hcw path Ht).
  unfold forbidden_agent_metadata_write, is_metadata_write_denied, is_restricted.
  rewrite Hk, Ht. simpl. rewrite (Hcw target), candidate_fixed by (try apply candidate_fixed; done).
  destruct (metadata_child_of_writable_root env policy target cwd) as [[p n]|] eqn:E; simpl.
  - unfold is_metadata_write_denied, is_restricted. rewrite Hk, candidate_fixed, E by done. simpl.
    destruct (has_explicit_write_entry_for_metadata_path env policy p target cwd) eqn:Ee; simpl.
    + split; [|done]. intros p' n' _ Hno. exfalso. by eapply Hno, explicit_write_spec.
    + rewrite andb_false_r. simpl. split; [by eauto|]. intros m [= <-]. eauto.
  - split; [|done]. intros p n Hb. by apply Hm in Hb.
Qed.

(** The decision takes the first writable entry that has the path below its metadata, so
    it depends on the order of the entries: the [.git] of the inner root is protected
    in one order of the same two entries and writable in the other. *)
Example metadata_protection_depends_on_order :
  let env := Build_Env None (Ok $"/w") (fun _ => None) (fun _ => true) (fun _ => false)
               (fun _ => true) (fun _ => Err (Io.new Io.NotFound [])) (fun _ => Some false) Ok in
  let outer := mkEntry (PathEntry $"/a") Write in
  let inner := mkEntry (PathEntry $"/a/.git/b") Write in
  can_write_path_with_cwd env (restricted [outer; inner]) $"/a/.git/b/.git/c" $"/w" = true /\
  can_write_path_with_cwd env (restricted [inner; outer]) $"/a/.git/b/.git/c" $"/w" = false.
Proof. by vm_compute. Qed.

(** ** Additional roots *)

(** [with_additional_writable_roots] appends write entries for some of the roots. *)
Lemma additional_entries env policy cwd roots :
  exists added, (forall R, R ∈ added -> R ∈ roots) /\
    with_additional_writable_roots env policy cwd roots =
    set_entries policy (entries policy ++ ((fun R => mkEntry (PathEntry R) Write) <$> added)).
Proof.
  unfold with_additional_writable_roots. revert policy.
  induction roots as [|R roots IH]; intros policy; simpl.
  - exists []. simpl. rewrite app_nil_r. by destruct policy.
  - destruct (can_write_path_with_cwd env policy R cwd).
    + destruct (IH policy) as (added & Hin & E). exists added. split; [set_solver|done].
    + destruct (IH (push_entry policy (mkEntry (PathEntry R) Write))) as (added & Hin & E).
      exists (R :: added). split; [set_solver|]. rewrite E. unfold push_entry, set_entries. simpl.
      by rewrite <- app_assoc.
Qed.

(** Entries appended with paths change the resolved entries by those paths. *)
Lemma resolved_append env policy cwd (l : list str) a r :
  r ∈ resolved_entries_with_cwd env
        (set_entries policy (entries policy ++ ((fun R => mkEntry (PathEntry R) a) <$> l))) cwd <->
  r ∈ resolved_entries_with_cwd env policy cwd \/ (resolved_path r ∈ l /\ resolved_access r = a).
Proof.
  rewrite !elem_resolves. unfold resolves. simpl. setoid_rewrite elem_of_app.
  setoid_rewrite list_elem_of_fmap. split.
  - intros (e & [He|(R & -> & HR)] & Ha & Hp); [left; eauto|right]. simpl in *. by simplify_eq.
  - intros [(e & He & H)|[HR Ha]]; [eauto|]. eexists. split; [right; eauto|]. done.
Qed.

Lemma additional_access env policy cwd roots path :
  kind policy = Restricted ->
  let policy' := with_additional_writable_roots env policy cwd roots in
  resolve_access_with_cwd env policy' path cwd = Write \/
  resolve_access_with_cwd env policy' path cwd = resolve_access_with_cwd env policy path cwd.
Proof.
  intros Hk policy'. destruct (additional_entries env policy cwd roots) as (added & _ & E).
  unfold policy'. rewrite E, !resolve_access_restricted by done.
  destruct (resolve_candidate_path env path cwd) as [target|]; [|by right]. simpl.
  apply access_of_added; intros e He; [apply resolved_append; by left|].
  apply resolved_append in He as [?|[_ ?]]; auto.
Qed.

Lemma pushed_root_access env policy cwd R :
  env_ok env -> policy_ok policy -> kind policy = Restricted -> normal R ->
  (forall d, d ∈ resolved_entries_with_cwd env policy cwd -> resolved_access d = Deny ->
     resolved_path d <> R) ->
  resolve_access_with_cwd env (push_entry policy (mkEntry (PathEntry R) Write)) R cwd = Write.
Proof.
  intros He Hp Hk HR Hno. unfold push_entry.
  rewrite resolve_access_restricted, candidate_fixed by done. simpl.
  set (es := resolved_entries_with_cwd _ _ _).
  assert (forall r, r ∈ es <-> r ∈ resolved_entries_with_cwd env policy cwd \/
            (resolved_path r ∈ [R] /\ resolved_access r = Write)) as Hes
    by (intros r; apply (resolved_append env policy cwd [R] Write)).
  destruct (access_of_decides R es) as [(e & Hin & Hpe & <- & Hall)|[_ Hnone]].
  - assert (mkResolved R Write ∈ es) as HRin by (apply Hes; right; set_solver).
    destruct (Hall _ HRin (starts_with_refl R)) as [Hs Hr]. simpl in *.
    assert (components R = components (resolved_path e)) as Ec.
    { apply (starts_with_same_length R); [apply starts_with_refl|done|].
      apply starts_with_length in Hs, Hpe. lia. }
    specialize (Hr (proj2 (path_eqb_spec _ _) Ec)).
    apply Hes in Hin as [Hin|[_ ?]]; [|done].
    destruct (resolved_access e) eqn:Ea; simpl in Hr; [lia|done|exfalso].
    apply (Hno e Hin Ea). apply path_eqb_normal; [by eapply resolved_normal|done|].
    by apply path_eqb_spec.
  - specialize (Hnone (mkResolved R Write) ltac:(apply Hes; right; set_solver)).
    simpl in Hnone. by rewrite starts_with_refl in Hnone.
Qed.

Lemma added_root_writable env policy cwd roots R :
  env_ok env -> policy_ok policy -> kind policy = Restricted -> Forall normal roots -> R ∈ roots ->
  (forall d, d ∈ resolved_entries_with_cwd env policy cwd -> resolved_access d = Deny ->
     resolved_path d <> R) ->
  resolve_access_with_cwd env (with_additional_writable_roots env policy cwd roots) R cwd = Write.
Proof.
  intros He Hp Hk Hroots. revert policy Hp Hk.
  induction Hroots as [|R' roots HR' Hroots IH]; intros policy Hp Hk Hin Hno; [set_solver|].
  assert (forall q, resolve_access_with_cwd env q R cwd = Write -> kind q = Restricted ->
    resolve_access_with_cwd env (with_additional_writable_roots env q cwd roots) R cwd = Write) as Hkeep.
  { intros q Hq Hkq. destruct (additional_access env q cwd roots R Hkq) as [?|E]; [done|].
    by rewrite E. }
  unfold with_additional_writable_roots in *. simpl.
  destruct (can_write_path_with_cwd env policy R' cwd) eqn:Ew.
  + apply elem_of_cons in Hin as [->|Hin]; [|by apply IH]. apply Hkeep; [|done].
    unfold can_write_path_with_cwd in Ew. destruct (resolve_access_with_cwd env policy R' cwd); done.
  + apply elem_of_cons in Hin as [->|Hin]; [apply Hkeep; [by apply pushed_root_access|done]|].
    apply IH; [|done|done|].
    * apply Forall_app. split; [done|]. by apply Forall_singleton.
    * intros d [Hd|[_ Hw]]%(resolved_append env policy cwd [R'] Write) Hdeny;
        [by apply Hno|congruence].
Qed.

(** Adding writable roots to a restricted policy only adds write access: the access of
    a path becomes write or stays as it was, and it stays as it was outside the roots; a
    new root is writable afterwards, except when the policy denies that very path. *)
Theorem added_roots_become_writable env policy cwd roots :
  env_ok env -> policy_ok policy -> kind policy = Restricted -> Forall normal roots ->
  let policy' := with_additional_writable_roots env policy cwd roots in
  (forall path, resolve_access_with_cwd env policy' path cwd = Write \/
     resolve_access_with_cwd env policy' path cwd = resolve_access_with_cwd env policy path cwd) /\
  (forall path target, resolve_candidate_path env path cwd = Some target ->
     Forall (fun R => starts_with target R = false) roots ->
     resolve_access_with_cwd env policy' path cwd = resolve_access_with_cwd env policy path cwd) /\
  (forall R, R ∈ roots ->
     (forall d, d ∈ resolved_entries_with_cwd env policy cwd -> resolved_access d = Deny ->
        resolved_path d <> R) ->
     resolve_access_with_cwd env policy' R cwd = Write).
Proof.
  intros He Hp Hk Hroots policy'. split; [intros path; by apply additional_access|]. split.
  - intros path target Ht Hout. destruct (additional_entries env policy cwd roots) as (added & Hin & E).
    unfold policy'. rewrite E, !resolve_access_restricted, Ht by done. simpl.
    apply access_of_iff. rewrite Forall_forall in Hout.
    destruct (access_of_decides target (resolved_entries_with_cwd env policy cwd))
      as [(e & Hie & Hpe & Ha & Hall)|[-> Hno]]; [left; exists e|right]; split_and!; try done.
    + apply resolved_append. by left.
    + intros e' [He'|[HR _]]%resolved_append Hpe'; [by apply Hall|].
      by rewrite (Hout _ (Hin _ HR)) in Hpe'.
    + intros e [He'|[HR _]]%resolved_append; [by apply Hno|]. by apply Hout, Hin.
  - intros R HR Hno. by apply added_root_writable.
Qed.

(** ** Materialised project roots *)

Lemma materialized_entry env e c c' :
  normal c -> normal c' ->
  let e' := materialize_entry_with_cwd env (Some c) e in
  access e' = access e /\
  resolve_entry_path env (entry_path e') (Some c') = resolve_entry_path env (entry_path e) (Some c).
Proof.
  intros Hc Hc'. unfold materialize_entry_with_cwd. destruct e as [[p|p|[| |[s|]| | |]] a]; try done.
  - simpl. by destruct (parse_project_roots_glob_pattern p).
  - simpl. by rewrite !absolute_root_is_slash.
Qed.

Lemma materialized_entries env policy cwd cwd' c c' :
  env_ok env -> from_absolute_path env cwd = Ok c -> from_absolute_path env cwd' = Ok c' ->
  resolved_entries_with_cwd env (materialize_project_roots_with_cwd env policy cwd) cwd' =
  resolved_entries_with_cwd env policy cwd.
Proof.
  intros He Hc Hc'. unfold resolved_entries_with_cwd, materialize_project_roots_with_cwd.
  rewrite Hc, Hc'. cbn [ok entries set_entries].
  induction (entries policy) as [|e es IH]; [done|]. csimpl. rewrite IH.
  destruct (materialized_entry env e c c') as [-> ->]; [by eapply from_absolute_path_Ok..|done].
Qed.

(** A policy whose project roots were made concrete keeps its meaning when the
    working directory changes: for every absolute path, the access the materialised
    policy gives under any later directory is the one the symbolic policy gave under the
    directory it was materialised with. *)
Theorem materialized_policy_survives_cwd env policy cwd cwd' c c' path :
  env_ok env -> from_absolute_path env cwd = Ok c -> from_absolute_path env cwd' = Ok c' ->
  is_absolute path = true ->
  resolve_access_with_cwd env (materialize_project_roots_with_cwd env policy cwd) path cwd' =
  resolve_access_with_cwd env policy path cwd.
Proof.
  intros He Hc Hc' Ha. unfold resolve_access_with_cwd.
  rewrite (materialized_entries env policy cwd cwd' c c') by done.
  unfold resolve_candidate_path. rewrite Ha. done.
Qed.

(** ** Instances of the properties *)

(** A machine without symbolic links whose working directory is [/w]. *)
Definition plain_env : Env :=
  Build_Env (Some $"/home/u") (Ok $"/w") (fun _ => None) (fun p => bool_decide (p = $"/tmp"))
    (fun _ => false) (fun _ => true) (fun _ => Err (Io.new Io.NotFound [])) (fun _ => Some false) Ok.

Lemma plain_env_ok : env_ok plain_env.
Proof. split; [by intros c [= <-]|done]. Qed.

Ltac check_policy := repeat constructor; by apply normal_check.

Definition sample : FileSystemSandboxPolicy :=
  restricted [mkEntry (Special Root) Read; mkEntry (Special (ProjectRoots None)) Write;
              mkEntry (PathEntry $"/w/secret") Deny].

Lemma sample_ok : policy_ok sample.
Proof. check_policy. Qed.

Lemma most_specific_entry_decides_witness :
  resolve_access_with_cwd plain_env sample $"secret/key" $"/w" = Deny <->
  decides $"/w/secret/key" (resolved_entries_with_cwd plain_env sample $"/w") Deny.
Proof. by apply most_specific_entry_decides. Defined.

Lemma preserved_denials_hold_witness :
  let after := resolve_access_with_cwd plain_env
                 (preserve_deny_read_restrictions_from unrestricted sample) $"/w/secret/key" $"/w" in
  after = Deny \/ after = Write.
Proof.
  apply (preserved_denials_hold plain_env unrestricted sample $"/w/secret/key" $"/w" $"/w" $"/w/secret/key");
    [apply plain_env_ok|constructor|apply sample_ok|done|reflexivity|reflexivity].
Defined.

Definition overridden_policy : FileSystemSandboxPolicy :=
  restricted [mkEntry (Special Root) Write; mkEntry (PathEntry $"/x") Read; mkEntry (PathEntry $"/x") Write].

Lemma full_disk_access_covers_every_path_witness :
  can_read_path_with_cwd plain_env overridden_policy $"/x/y" $"/w" = true /\
  can_write_path_with_cwd plain_env overridden_policy $"/x/y" $"/w" = true.
Proof.
  destruct (full_disk_access_covers_every_path plain_env overridden_policy $"/w" $"/w" $"/x/y") as [Hr Hw];
    [apply plain_env_ok|check_policy|reflexivity|].
  split; [apply Hr|apply Hw]; vm_compute; reflexivity.
Defined.

(** Without [/tmp] the predicate claims more than the policy grants. *)
Example full_disk_write_without_tmp :
  let env := Build_Env None (Ok $"/w") (fun _ => None) (fun _ => false) (fun _ => false)
               (fun _ => true) (fun _ => Err (Io.new Io.NotFound [])) (fun _ => Some false) Ok in
  let policy := restricted [mkEntry (Special Root) Write; mkEntry (PathEntry $"/tmp") Read;
                            mkEntry (Special SlashTmp) Write] in
  has_full_disk_write_access policy = true /\
  can_write_path_with_cwd env policy $"/tmp/x" $"/w" = false.
Proof. by vm_compute. Qed.

Lemma metadata_stays_protected_witness :
  (forall m, forbidden_agent_metadata_write plain_env $".git/config" $"/w" sample = Some m ->
     can_write_path_with_cwd plain_env sample $".git/config" $"/w" = false /\
     exists p, below_metadata plain_env sample $"/w" $"/w/.git/config" p m) /\
  forbidden_agent_metadata_write plain_env $".git/config" $"/w" sample = Some $".git".
Proof.
  split; [|vm_compute; reflexivity].
  apply (metadata_stays_protected plain_env sample $".git/config" $"/w" $"/w/.git/config");
    [apply plain_env_ok|apply sample_ok|done|vm_compute; reflexivity..].
Defined.

Lemma added_roots_become_writable_witness :
  resolve_access_with_cwd plain_env
    (with_additional_writable_roots plain_env sample $"/w" [$"/data"]) $"/data" $"/w" = Write.
Proof.
  apply (added_roots_become_writable plain_env sample $"/w" [$"/data"]);
    [apply plain_env_ok|apply sample_ok|done|by apply Forall_singleton, normal_check|set_solver|].
  intros d Hd Ha E. vm_compute in Hd.
  repeat (apply elem_of_cons in Hd as [->|Hd]; [by vm_compute in E|]). by apply not_elem_of_nil in Hd.
Defined.

Lemma materialized_policy_survives_cwd_witness :
  resolve_access_with_cwd plain_env (materialize_project_roots_with_cwd plain_env sample $"/w")
    $"/w/file" $"/elsewhere" = resolve_access_with_cwd plain_env sample $"/w/file" $"/w".
Proof.
  apply (materialized_policy_survives_cwd plain_env sample $"/w" $"/elsewhere" $"/w" $"/elsewhere");
    [apply plain_env_ok|reflexivity..].
Defined.

End Access.
