(* ===== verification/SandboxRoots.v ===== *)
(** What the sandboxes receive from a policy: the writable roots with their
    carve-outs, the matcher of denied reads, the legacy policy; and the type
    invariant that every path of a policy stays absolute and in normal form. *)
From S2P Require Import Prelude Paths PathOps Permissions AccessResolution.

Module Roots.
Import Path PathOps Permissions Access.

(** ** Deduplication *)

Lemma dedup_loop_elem seen l p : p ∈ dedup_loop seen l -> p ∈ l.
Proof.
  revert seen; induction l as [|q l IH]; intros seen; simpl; [done|].
  destruct (existsb (path_eqb q) seen); set_solver.
Qed.

Lemma path_eqb_refl p : path_eqb p p = true.
Proof. by apply path_eqb_spec. Qed.

Lemma dedup_loop_keeps seen l p :
  p ∈ l -> exists q, q ∈ dedup_loop seen l ++ seen /\ path_eqb p q = true.
Proof.
  revert seen; induction l as [|x l IH]; intros seen; simpl; [set_solver|].
  intros [->|Hin]%elem_of_cons; destruct (existsb (path_eqb x) seen) eqn:E.
  - apply existsb_elem in E as (q & Hq & E). exists q. set_solver.
  - exists x. split; [set_solver|apply path_eqb_refl].
  - by apply IH.
  - destruct (IH (x :: seen) Hin) as (q & Hq & E'). exists q. split; [set_solver|done].
Qed.

Lemma dedup_paths_elem env l b p :
  p ∈ dedup_absolute_paths env l b ->
  if b then exists q, q ∈ l /\ p = normalize_effective_absolute_path env q else p ∈ l.
Proof. unfold dedup_absolute_paths. intros H%dedup_loop_elem. destruct b; set_solver. Qed.

Lemma dedup_keeps env l p :
  p ∈ l -> exists q, q ∈ dedup_absolute_paths env l false /\ path_eqb p q = true.
Proof.
  intros H. unfold dedup_absolute_paths.
  destruct (dedup_loop_keeps [] l p H) as (q & Hq & E). exists q. by rewrite app_nil_r in Hq.
Qed.

Lemma dedup_keeps_effective env l p :
  p ∈ l -> exists q, q ∈ dedup_absolute_paths env l true /\
    path_eqb (normalize_effective_absolute_path env p) q = true.
Proof.
  intros H. unfold dedup_absolute_paths.
  destruct (dedup_loop_keeps [] (normalize_effective_absolute_path env <$> l)
    (normalize_effective_absolute_path env p)) as (q & Hq & E); [set_solver|].
  exists q. by rewrite app_nil_r in Hq.
Qed.

(** ** Normal paths *)

Lemma effective_normal env p : env_ok env -> normal p -> normal (normalize_effective_absolute_path env p).
Proof.
  intros He Hp. unfold normalize_effective_absolute_path.
  destruct (normalize_effective_loop env p (ancestors p)) as [q|] eqn:E; [|done]. simpl.
  revert E. generalize (ancestors p). intros l. induction l as [|a l IH]; simpl; [done|].
  destruct (symlink_metadata env a); [|done].
  destruct (canonicalize_preserving_symlinks env a); [|done].
  destruct (strip_prefix p a); [|done].
  destruct (from_absolute_path env _) eqn:E; [|done].
  intros [= ->]. by eapply from_absolute_path_Ok.
Qed.

Lemma dedup_normal env l b :
  env_ok env -> Forall normal l -> Forall normal (dedup_absolute_paths env l b).
Proof.
  intros He Hl. rewrite Forall_forall in *. intros p Hp%dedup_paths_elem. destruct b; [|auto].
  destruct Hp as (q & Hq & ->). apply effective_normal; auto.
Qed.

Lemma parent_normal p q : normal p -> parent p = Some q -> normal q.
Proof.
  intros (ps & Hps & ->). destruct ps as [|n ps _] using rev_ind; [done|].
  rewrite parent_render_snoc by done. intros [= <-]. apply Forall_app in Hps as [? _]. by exists ps.
Qed.

Lemma gitdir_normal env p q : normal p -> resolve_gitdir_from_file env p = Some q -> normal q.
Proof.
  intros Hp. unfold resolve_gitdir_from_file. intros (? & _ & H)%bind_Some.
  apply bind_Some in H as ([a b] & _ & H). destruct (negb _); [done|].
  destruct (Str.is_empty _); [done|]. apply bind_Some in H as (base & Hb & H).
  destruct (negb _); [done|]. injection H as <-. apply resolve_normal, normal_absolute.
  by eapply parent_normal.
Qed.

Lemma default_subpaths_normal env w b :
  env_ok env -> normal w -> Forall normal (default_read_only_subpaths_for_writable_root env w b).
Proof.
  intros He Hw. unfold default_read_only_subpaths_for_writable_root. apply dedup_normal; [done|].
  assert (forall n, normal (join env w n)) as Hj by (intros; by apply join_normal).
  repeat apply Forall_app_2; repeat case_match; repeat constructor; auto.
  apply Forall_app_2; [|by repeat constructor].
  destruct (_ && _); [|done]. destruct (resolve_gitdir_from_file _ _) eqn:E; simpl; [|done].
  repeat constructor. by eapply gitdir_normal in E.
Qed.

Lemma append_ok es p : Forall entry_ok es -> entry_ok (mkEntry p Read) ->
  Forall entry_ok (append_default_read_only_entry_if_no_explicit_rule es p).
Proof.
  intros Hes Hp. unfold append_default_read_only_entry_if_no_explicit_rule.
  destruct (existsb _ es); [done|]. apply Forall_app_2; [done|]. by repeat constructor.
Qed.

Lemma append_subpaths_ok env es w b :
  env_ok env -> normal w -> Forall entry_ok es -> Forall entry_ok (append_default_subpaths env es w b).
Proof.
  intros He Hw. unfold append_default_subpaths.
  pose proof (default_subpaths_normal env w b He Hw) as Hl. revert es.
  induction Hl as [|p l Hp Hl IH]; intros es Hes; [done|]. simpl. apply IH. by apply append_ok.
Qed.

Lemma append_roots_ok env es roots :
  env_ok env -> Forall normal roots -> Forall entry_ok es ->
  Forall entry_ok (append_roots_subpaths env es roots).
Proof.
  intros He Hr. revert es. induction Hr as [|r roots Hr Hrs IH]; intros es Hes; [done|].
  simpl. apply IH. by apply append_subpaths_ok.
Qed.

Lemma append_cwd_ok env es cwd :
  env_ok env -> Forall entry_ok es -> Forall entry_ok (append_cwd_subpaths env es cwd).
Proof.
  intros He Hes. unfold append_cwd_subpaths. destruct (from_absolute_path env cwd) eqn:E; [|done].
  apply append_subpaths_ok; [done| |done]. by eapply from_absolute_path_Ok.
Qed.

Lemma workspace_entries_ok roots t s :
  Forall normal roots -> Forall entry_ok (workspace_write_entries roots t s).
Proof.
  intros Hr. unfold workspace_write_entries. repeat apply Forall_app_2.
  - by repeat constructor.
  - destruct s; by repeat constructor.
  - destruct t; by repeat constructor.
  - by apply Forall_fmap.
Qed.

Definition legacy_ok (p : SandboxPolicy) : Prop :=
  match p with WorkspaceWrite roots _ _ _ => Forall normal roots | _ => True end.

Lemma from_legacy_ok env p : env_ok env -> legacy_ok p -> policy_ok (from_legacy env p).
Proof.
  intros He. unfold policy_ok. destruct p; simpl; try (by repeat constructor).
  intros Hr. apply append_roots_ok; [done..|]. do 3 (apply append_ok; [|done]).
  by apply workspace_entries_ok.
Qed.

Lemma from_legacy_cwd_ok env p cwd :
  env_ok env -> legacy_ok p -> policy_ok (from_legacy_sandbox_policy_for_cwd env p cwd).
Proof.
  intros He Hp. pose proof (from_legacy_ok env p He Hp) as H. destruct p; try done.
  unfold policy_ok. simpl. apply append_roots_ok; [done..|]. by apply append_cwd_ok.
Qed.

Lemma materialize_cwd_ok env p cwd :
  env_ok env -> policy_ok p -> policy_ok (materialize_project_roots_with_cwd env p cwd).
Proof.
  intros He Hp. unfold policy_ok, materialize_project_roots_with_cwd. simpl.
  pose proof (cwd_ok_from env cwd He) as Hc. revert Hc. generalize (ok (from_absolute_path env cwd)).
  intros c Hc. apply Forall_fmap. eapply Forall_impl; [done|].
  intros [[q|q|[| |s| | |]] a] Hok; try done; unfold compose, materialize_entry_with_cwd.
  - simpl. destruct c, (parse_project_roots_glob_pattern q); done.
  - cbn [entry_path resolve_file_system_path].
    destruct (resolve_file_system_special_path _ _ _) eqn:E; [|done].
    unfold entry_ok. simpl. by eapply special_normal.
Qed.

Lemma materialize_roots_ok env p roots :
  policy_ok p -> Forall normal roots ->
  policy_ok (materialize_project_roots_with_workspace_roots env p roots).
Proof.
  intros Hp Hr. unfold policy_ok. simpl. induction Hp as [|e es He Hes IH]; simpl; [done|].
  apply Forall_app_2; [|done]. destruct e as [[q|q|[| |s| | |]] a]; try by repeat constructor.
  - unfold materialize_entry. simpl. destruct (parse_project_roots_glob_pattern q);
      [|by repeat constructor]. apply Forall_fmap. by eapply Forall_impl.
  - unfold materialize_entry. simpl. apply Forall_fmap. eapply Forall_impl; [done|].
    intros r Hn. unfold compose, entry_ok. simpl. destruct s; [|done].
    by apply resolve_normal, normal_absolute.
Qed.

Lemma additional_writable_ok env p cwd roots :
  policy_ok p -> Forall normal roots -> policy_ok (with_additional_writable_roots env p cwd roots).
Proof.
  intros Hp Hr. destruct (additional_entries env p cwd roots) as (added & Hin & ->).
  unfold policy_ok. simpl. apply Forall_app_2; [done|]. apply Forall_fmap.
  rewrite Forall_forall in *. intros R HR. by apply Hr, Hin.
Qed.

Lemma additional_readable_ok env p cwd roots :
  policy_ok p -> Forall normal roots -> policy_ok (with_additional_readable_roots env p cwd roots).
Proof.
  intros Hp Hr. unfold with_additional_readable_roots. destruct (has_full_disk_read_access p); [done|].
  revert p Hp. induction Hr as [|R roots HR Hr IH]; intros p Hp; simpl; [done|].
  apply IH. destruct (can_read_path_with_cwd env p R cwd); [done|].
  apply Forall_app_2; [done|]. by repeat constructor.
Qed.

Lemma additional_legacy_ok env p roots :
  env_ok env -> policy_ok p -> Forall normal roots ->
  policy_ok (with_additional_legacy_workspace_writable_roots env p roots).
Proof.
  intros He Hp Hr. unfold with_additional_legacy_workspace_writable_roots.
  destruct (negb (is_restricted p)); [done|]. unfold policy_ok. simpl.
  revert Hp. unfold policy_ok. generalize (entries p).
  induction Hr as [|R roots HR Hr IH]; intros es Hes; simpl; [done|].
  apply IH, append_subpaths_ok; [done..|]. destruct (existsb _ es); [done|].
  apply Forall_app_2; [done|]. by repeat constructor.
Qed.

Lemma preserve_deny_ok p existing :
  policy_ok p -> policy_ok existing -> policy_ok (preserve_deny_read_restrictions_from p existing).
Proof.
  intros Hp Hex. unfold preserve_deny_read_restrictions_from. set (q := match kind p with Unrestricted => _ | _ => p end).
  assert (policy_ok q) as Hq.
  { unfold q. destruct (kind p); try done. destruct (existsb _ _); [|done]. by repeat constructor. }
  destruct (negb (is_restricted q)); [done|]. unfold policy_ok. simpl.
  apply push_all_ok; [done|]. by apply filter_ok.
Qed.

Definition root_ok (r : WritableRoot) : Prop :=
  normal (root r) /\ Forall normal (read_only_subpaths r).

Lemma resolved_paths_normal env p cwd f :
  env_ok env -> policy_ok p ->
  Forall normal (resolved_path <$> List.filter f (resolved_entries_with_cwd env p cwd)).
Proof.
  intros He Hp. apply Forall_fmap, Forall_forall. intros r [Hr _]%elem_filter.
  unfold compose. by eapply resolved_normal.
Qed.

Lemma filter_filter {A} (f g : A -> bool) l :
  List.filter f (List.filter g l) = List.filter (fun x => g x && f x) l.
Proof.
  induction l as [|x l IH]; [done|]. simpl. destruct (g x); simpl; [|done].
  destruct (f x); by rewrite IH.
Qed.

Lemma carveout_normal env w raws p q :
  env_ok env -> normal w -> normal p -> carveout env w raws p = Some q -> normal q.
Proof.
  intros He Hw Hp. unfold carveout. destruct (raw_carveout_path env w raws p) as [r|] eqn:E.
  - intros [= <-]. revert E. unfold raw_carveout_path. destruct (bool_decide _); [|done].
    destruct (path_eqb p w); [done|]. destruct (starts_with p w); [by intros [= <-]|].
    intros E. apply head_Some_elem_of in E. apply list_elem_of_omap in E as (x & _ & E).
    apply bind_Some in E as (s & _ & E). destruct (Str.is_empty _); [done|]. injection E as <-.
    by apply join_normal.
  - destruct (_ || _); [done|]. intros [= <-]. by apply effective_normal.
Qed.

Lemma writable_roots_ok env p cwd :
  env_ok env -> policy_ok p -> Forall root_ok (get_writable_roots_with_cwd env p cwd).
Proof.
  intros He Hp. unfold get_writable_roots_with_cwd. destruct (has_full_disk_write_access p); [done|].
  apply Forall_fmap. rewrite filter_filter.
  eapply Forall_impl; [apply dedup_normal; [done|by apply resolved_paths_normal]|].
  intros w Hw. unfold compose, root_ok. simpl. split; [done|]. apply dedup_normal; [done|].
  apply Forall_app_2; apply Forall_forall.
  - intros q [Hq _]%elem_filter. revert q Hq. apply Forall_forall. by apply default_subpaths_normal.
  - intros q (r & Hr & Hc)%list_elem_of_omap. rewrite filter_filter in Hr.
    apply elem_filter in Hr as [Hr _]. eapply carveout_normal; [done..| |done].
    by eapply resolved_normal.
Qed.

(** C40: The type invariant of [AbsolutePathBuf] is kept: starting from a policy whose
    paths are absolute and in normal form, every operation that rebuilds the policy
    and every list of roots handed to a sandbox has only such paths. *)
Theorem policy_paths_stay_normal env policy existing legacy cwd roots :
  env_ok env -> policy_ok policy -> policy_ok existing -> legacy_ok legacy -> Forall normal roots ->
  Forall policy_ok
    [preserve_deny_read_restrictions_from policy existing;
     materialize_project_roots_with_cwd env policy cwd;
     materialize_project_roots_with_workspace_roots env policy roots;
     with_materialized_project_roots_for_workspace_roots env policy roots;
     with_additional_readable_roots env policy cwd roots;
     with_additional_writable_roots env policy cwd roots;
     with_additional_legacy_workspace_writable_roots env policy roots;
     from_legacy env legacy;
     from_legacy_sandbox_policy_for_cwd env legacy cwd;
     from_legacy_sandbox_policy_preserving_deny_entries env legacy cwd existing;
     legacy_runtime_file_system_policy_for_cwd env legacy cwd] /\
  Forall normal (get_readable_roots_with_cwd env policy cwd) /\
  Forall normal (get_unreadable_roots_with_cwd env policy cwd) /\
  Forall root_ok (get_writable_roots_with_cwd env policy cwd).
Proof.
  intros He Hp Hex Hl Hr. split_and!.
  - repeat (apply Forall_cons; split); [..|done].
    + by apply preserve_deny_ok.
    + by apply materialize_cwd_ok.
    + by apply materialize_roots_ok.
    + apply push_all_ok; [done|]. by apply materialize_roots_ok.
    + by apply additional_readable_ok.
    + by apply additional_writable_ok.
    + by apply additional_legacy_ok.
    + by apply from_legacy_ok.
    + by apply from_legacy_cwd_ok.
    + unfold from_legacy_sandbox_policy_preserving_deny_entries.
      pose proof (from_legacy_cwd_ok env legacy cwd He Hl). destruct (negb _); [done|].
      apply push_all_ok; [done|]. by apply filter_ok.
    + pose proof (from_legacy_ok env legacy He Hl). destruct legacy; try done.
      apply append_roots_ok; [done..|]. by apply append_cwd_ok, workspace_entries_ok.
  - unfold get_readable_roots_with_cwd. destruct (has_full_disk_read_access policy); [done|].
    rewrite filter_filter. apply dedup_normal; [done|]. by apply resolved_paths_normal.
  - unfold get_unreadable_roots_with_cwd. destruct (negb _); [done|].
    rewrite !filter_filter. apply dedup_normal; [done|]. by apply resolved_paths_normal.
  - by apply writable_roots_ok.
Qed.

(** ** The legacy policy *)

(** Read entries that are appended do not change the scan nor give root write access. *)
Definition silent (e : FileSystemSandboxEntry) : Prop := access e = Read.

Lemma append_silent es p :
  exists l, append_default_read_only_entry_if_no_explicit_rule es p = es ++ l /\ Forall silent l.
Proof.
  unfold append_default_read_only_entry_if_no_explicit_rule. destruct (existsb _ es).
  - exists []. by rewrite app_nil_r.
  - eexists. split; [done|]. by repeat constructor.
Qed.

Lemma fold_silent {A} (f : list FileSystemSandboxEntry -> A -> list FileSystemSandboxEntry) xs es :
  (forall es x, exists l, f es x = es ++ l /\ Forall silent l) ->
  exists l, fold_left f xs es = es ++ l /\ Forall silent l.
Proof.
  intros Hf. revert es. induction xs as [|x xs IH]; intros es; simpl.
  - exists []. by rewrite app_nil_r.
  - destruct (Hf es x) as (l & -> & Hl). destruct (IH (es ++ l)) as (l' & -> & Hl').
    exists (l ++ l'). split; [by rewrite app_assoc|]. by apply Forall_app_2.
Qed.

Lemma subpaths_silent env es w b :
  exists l, append_default_subpaths env es w b = es ++ l /\ Forall silent l.
Proof. apply fold_silent. intros. apply append_silent. Qed.

Lemma legacy_entries_silent env roots net t s cwd :
  exists l, entries (from_legacy_sandbox_policy_for_cwd env (WorkspaceWrite roots net t s) cwd) =
            workspace_write_entries roots t s ++ l /\ Forall silent l.
Proof.
  assert (forall es, exists l, append_roots_subpaths env es roots = es ++ l /\ Forall silent l) as Hr.
  { intros es. apply fold_silent. intros. apply subpaths_silent. }
  assert (forall es, exists l, append_cwd_subpaths env es cwd = es ++ l /\ Forall silent l) as Hc.
  { intros es. unfold append_cwd_subpaths. destruct (from_absolute_path env cwd);
      [apply subpaths_silent|]. exists []. by rewrite app_nil_r. }
  unfold from_legacy_sandbox_policy_for_cwd, from_legacy, workspace_write,
    append_default_read_only_project_root_subpath_if_no_explicit_rule.
  generalize (workspace_write_entries roots t s). intros base. cbn [entries set_entries restricted].
  destruct (append_silent base (Special (ProjectRoots (Some $".git")))) as (l1 & -> & H1).
  destruct (append_silent (base ++ l1) (Special (ProjectRoots (Some $".agents")))) as (l2 & -> & H2).
  destruct (append_silent ((base ++ l1) ++ l2) (Special (ProjectRoots (Some $".codex"))))
    as (l3 & -> & H3).
  destruct (Hr (((base ++ l1) ++ l2) ++ l3)) as (l4 & -> & H4).
  destruct (Hc ((((base ++ l1) ++ l2) ++ l3) ++ l4)) as (l5 & -> & H5).
  destruct (Hr (((((base ++ l1) ++ l2) ++ l3) ++ l4) ++ l5)) as (l6 & -> & H6).
  exists (l1 ++ l2 ++ l3 ++ l4 ++ l5 ++ l6). split; [by rewrite <- !app_assoc|].
  by repeat apply Forall_app_2.
Qed.

Lemma scan_silent env cwd l s :
  Forall silent l -> fold_left (legacy_scan_step env cwd) l s = s.
Proof.
  intros H. revert s. induction H as [|e l He Hl IH]; intros s; simpl; [done|].
  rewrite IH. unfold legacy_scan_step, silent in *. destruct s, e as [[p|p|[| |[q|]| | |]] a].
  all: simpl in *; subst a; try done; by destruct cwd.
Qed.

(** The writable roots of the legacy policy, without the working directory. *)
Definition other_roots (cwd : option str) (roots : list str) : list str :=
  match cwd with
  | Some cwd => List.filter (fun path => negb (path_eqb cwd path)) roots
  | None => roots
  end.

Lemma scan_roots env cwd roots l t s u :
  fold_left (legacy_scan_step env cwd) ((fun path => mkEntry (PathEntry path) Write) <$> roots)
    (mkScan true l t s u) = mkScan true (l ++ other_roots cwd roots) t s u.
Proof.
  revert l. induction roots as [|r roots IH]; intros l; simpl.
  - destruct cwd; by rewrite app_nil_r.
  - destruct cwd as [c|]; simpl in *; [destruct (path_eqb c r); simpl|]; rewrite IH; try done.
    + by rewrite <- app_assoc.
    + by rewrite <- app_assoc.
Qed.

Lemma workspace_no_root_write roots t s l :
  Forall silent l -> has_root_access (restricted (workspace_write_entries roots t s ++ l)) can_write = false.
Proof.
  intros Hl. unfold has_root_access. simpl. apply existsb_elem_false.
  intros e [He|He]%elem_of_app.
  - 
    apply elem_of_app in He as [He|[He|He]%elem_of_app].
    + destruct s; [by apply not_elem_of_nil in He|]. by apply list_elem_of_singleton in He as ->.
    + destruct t; [by apply not_elem_of_nil in He|]. by apply list_elem_of_singleton in He as ->.
    + by apply list_elem_of_fmap in He as (p & -> & _).
  - rewrite Forall_forall in Hl. specialize (Hl e He). unfold silent in Hl. rewrite Hl.
    by destruct (entry_path e) as [| |[]].
Qed.

(** A legacy sandbox policy survives the conversion to entries and back, with its
    network setting: the result is the same policy, except that its extra writable
    roots lose duplicates and the working directory, which is writable anyway. *)
Lemma legacy_policy_round_trip env legacy cwd :
  to_legacy_sandbox_policy env (from_legacy_sandbox_policy_for_cwd env legacy cwd)
    (network_from_legacy legacy) cwd =
  Ok match legacy with
     | WorkspaceWrite roots network_access t s =>
         WorkspaceWrite
           (dedup_absolute_paths env (other_roots (ok (from_absolute_path env cwd)) roots) false)
           network_access t s
     | _ => legacy
     end.
Proof.
  destruct legacy as [|[]|[]|roots net t s]; try done.
  destruct (legacy_entries_silent env roots net t s cwd) as (l & El & Hl).
  assert (from_legacy_sandbox_policy_for_cwd env (WorkspaceWrite roots net t s) cwd =
          restricted (workspace_write_entries roots t s ++ l)) as -> by (unfold restricted; by rewrite <- El).
  assert (has_full_disk_write_access (restricted (workspace_write_entries roots t s ++ l)) = false) as Hw
    by (unfold has_full_disk_write_access; simpl kind; by rewrite workspace_no_root_write).
  unfold to_legacy_sandbox_policy, legacy_scan. rewrite Hw. cbn [kind restricted entries].
  rewrite fold_left_app, scan_silent by done.
  unfold workspace_write_entries. rewrite !fold_left_app.
  destruct s, t; simpl; rewrite scan_roots; by destruct net.
Qed.

(** ** Writable roots *)

(** The entry that decides a path also decides its own path. *)
Lemma decider_at_itself target es e :
  e ∈ es -> starts_with target (resolved_path e) = true ->
  (forall e', e' ∈ es -> starts_with target (resolved_path e') = true ->
     starts_with (resolved_path e) (resolved_path e') = true /\
     (path_eqb (resolved_path e') (resolved_path e) = true ->
      access_rank (resolved_access e') <= access_rank (resolved_access e))) ->
  access_of (resolved_path e) es = resolved_access e.
Proof.
  intros Hin Hp Hall. apply access_of_iff. left. exists e. split_and!; [done|apply starts_with_refl|done|].
  intros e' He' Hp'. apply Hall; [done|]. by eapply starts_with_trans.
Qed.

Lemma can_write_access env p path cwd :
  can_write_path_with_cwd env p path cwd = true -> resolve_access_with_cwd env p path cwd = Write.
Proof. unfold can_write_path_with_cwd. by destruct (resolve_access_with_cwd env p path cwd). Qed.

Lemma starts_with_eqb_r path a b :
  path_eqb a b = true -> starts_with path a = true -> starts_with path b = true.
Proof. unfold starts_with. intros E%path_eqb_spec. by rewrite E. Qed.

Lemma is_path_writable_inv r target :
  is_path_writable r target = true ->
  starts_with target (root r) = true /\
  (forall q, q ∈ read_only_subpaths r -> starts_with target q = false).
Proof.
  unfold is_path_writable. destruct (starts_with target (root r)); [|done]. simpl.
  destruct (existsb (starts_with target) (read_only_subpaths r)) eqn:E; [done|].
  by rewrite existsb_elem_false in E.
Qed.

Section no_symlinks.
Context (env : Env) (Henv : env_ok env).
(** Without symbolic links a path is its own effective path. *)
Context (Heff : forall p, normal p -> normalize_effective_absolute_path env p = p).

Lemma carveout_below w raws p :
  normal w -> normal p -> starts_with p w = true -> p <> w -> carveout env w raws p = Some p.
Proof.
  intros Hw Hp Hs Hne. unfold carveout, raw_carveout_path. rewrite Heff by done.
  assert (path_eqb p w = false) as -> by (apply not_true_iff_false; by rewrite path_eqb_normal).
  rewrite Hs. by destruct (bool_decide _).
Qed.

Lemma writable_root_in policy cwd r :
  policy_ok policy -> r ∈ get_writable_roots_with_cwd env policy cwd ->
  has_full_disk_write_access policy = false /\
  exists w ws, w ∈ resolved_entries_with_cwd env policy cwd /\ resolved_path w = root r /\
    can_write_path_with_cwd env policy (root r) cwd = true /\
    r = writable_root_for env policy cwd (resolved_entries_with_cwd env policy cwd) ws (root r).
Proof.
  intros Hp. unfold get_writable_roots_with_cwd.
  destruct (has_full_disk_write_access policy); [by intros ?%not_elem_of_nil|].
  rewrite filter_filter. intros (q & Hr & Hq)%list_elem_of_fmap. split; [done|].
  apply dedup_paths_elem in Hq as (q' & Hq' & Eq). apply list_elem_of_fmap in Hq' as (w & Hqw & Hw).
  apply elem_filter in Hw as [Hw Hf]. apply andb_true_iff in Hf as [_ Hc].
  assert (normal (resolved_path w)) as Hn by by eapply resolved_normal.
  rewrite Hqw, Heff in Eq by done. subst q.
  assert (root r = resolved_path w) as E by by rewrite Hr.
  exists w. eexists. rewrite E. split_and!; try done.
Qed.

(** A path decided by a non-writing entry strictly below a writable root is carved out. *)
Lemma carved_out policy cwd ws W e :
  policy_ok policy -> normal W -> e ∈ resolved_entries_with_cwd env policy cwd ->
  resolved_access e <> Write -> resolve_access_with_cwd env policy (resolved_path e) cwd <> Write ->
  starts_with (resolved_path e) W = true -> resolved_path e <> W ->
  exists q, q ∈ read_only_subpaths
    (writable_root_for env policy cwd (resolved_entries_with_cwd env policy cwd) ws W) /\
    path_eqb (resolved_path e) q = true.
Proof.
  intros Hp HW He Ha Hnw Hs Hne. simpl. apply dedup_keeps. apply elem_of_app. right.
  apply list_elem_of_omap. exists e. split.
  - rewrite filter_filter. apply elem_filter. split; [done|]. apply andb_true_iff. split.
    + by destruct (resolved_access e).
    + apply negb_true_iff, not_true_iff_false. by intros ?%can_write_access.
  - apply carveout_below; [done| |done..]. by eapply resolved_normal.
Qed.

Lemma writable_roots_grant_only_write policy cwd r target :
  policy_ok policy -> kind policy = Restricted -> normal target ->
  r ∈ get_writable_roots_with_cwd env policy cwd -> is_path_writable r target = true ->
  resolve_access_with_cwd env policy target cwd = Write.
Proof.
  intros Hp Hk Ht Hr [Hs Hro]%is_path_writable_inv.
  destruct (writable_root_in policy cwd r Hp Hr) as (Hfd & w & ws & Hw & Ew & Hc & Er).
  rewrite resolve_access_restricted, candidate_fixed by done. cbn [from_option].
  assert (normal (root r)) as Hn by (rewrite <- Ew; by eapply resolved_normal).
  destruct (access_of_decides target (resolved_entries_with_cwd env policy cwd))
    as [(e & He & Hpe & Ea & Hall)|[_ Hno]]; [|specialize (Hno w Hw); rewrite Ew in Hno; congruence].
  rewrite <- Ea in *. destruct (decide (resolved_access e = Write)) as [->|Hna]; [done|exfalso].
  assert (normal (resolved_path e)) as Hne by by eapply resolved_normal.
  assert (resolve_access_with_cwd env policy (resolved_path e) cwd = resolved_access e) as Hself.
  { rewrite resolve_access_restricted, candidate_fixed by done. by eapply decider_at_itself. }
  assert (resolved_path e <> root r) as Hd.
  { intros E. apply can_write_access in Hc. congruence. }
  destruct (carved_out policy cwd ws (root r) e) as (q & Hq & Eq); [done..|congruence| |done|].
  { rewrite <- Ew. apply Hall; [done|by rewrite Ew]. }
  rewrite <- Er in Hq. specialize (Hro q Hq). by rewrite (starts_with_eqb_r _ _ _ Eq) in Hro.
Qed.

(** A path that a root lets through is outside of the metadata protected below it. *)
Lemma outside_metadata r target name :
  normal (root r) -> normal target -> name ∈ PROTECTED_METADATA_PATH_NAMES -> name ∈ protected_metadata_names r ->
  is_path_writable r target = true -> starts_with target (join env (root r) name) = false.
Proof.
  intros Hr Ht Hm Hin Hw. unfold is_path_writable in Hw. destruct (negb _); [done|]. destruct (existsb _ _); [done|].
  apply negb_true_iff in Hw. apply not_true_iff_false. intros Hs. apply not_true_iff_false in Hw. apply Hw.
  assert (metadata_child env target (mkResolved (root r) Write) = Some (join env (root r) name, name)) as Hc
    by by apply metadata_child_spec.
  unfold metadata_child in Hc. simpl in Hc. unfold path_contains_protected_metadata_name.
  destruct (strip_prefix target (root r)) as [rest|]; [|done]. simpl in Hc. destruct (head rest) as [c|]; [|done]. simpl in Hc.
  destruct (metadata_path_name (component_str c)) as [m|] eqn:E; [|done]. simpl in Hc. injection Hc as _ ->.
  apply metadata_path_name_spec in E as [-> _]. apply existsb_exists. exists name. split; [by apply list_elem_of_In|].
  by apply bool_decide_eq_true.
Qed.
(** Without links, the names protected below a root are those the policy does not let write. *)
Lemma protected_names_in policy cwd r name :
  policy_ok policy -> r ∈ get_writable_roots_with_cwd env policy cwd -> name ∈ PROTECTED_METADATA_PATH_NAMES ->
  can_write_path_with_cwd env policy (join env (root r) name) cwd = false -> name ∈ protected_metadata_names r.
Proof.
  intros Hp Hr Hm Hc. revert Hr. unfold get_writable_roots_with_cwd.
  destruct (has_full_disk_write_access policy); [by intros ?%not_elem_of_nil|]. rewrite filter_filter.
  intros (q & -> & Hq)%list_elem_of_fmap. cbn [writable_root_for root protected_metadata_names] in *.
  assert (Forall normal (dedup_absolute_paths env (resolved_path <$>
    List.filter (fun x => can_write (resolved_access x) && can_write_path_with_cwd env policy (resolved_path x) cwd)
      (resolved_entries_with_cwd env policy cwd)) true)) as Hns.
  { apply dedup_normal; [done|]. by apply resolved_paths_normal. }
  rewrite Forall_forall in Hns. pose proof (Hns q Hq) as Hqn.
  unfold protected_metadata_names_for_writable_root. apply elem_filter. split; [done|]. apply forallb_forall.
  intros x Hx. apply negb_true_iff. apply list_elem_of_In, elem_of_cons in Hx as [->|Hx]; [done|].
  apply list_elem_of_fmap in Hx as (w & -> & Hw). apply elem_filter in Hw as [Hw He].
  assert (normal w) as Hwn.
  { apply list_elem_of_fmap in Hw as (e & -> & Hw). apply elem_filter in Hw as [Hw _]. by eapply resolved_normal. }
  rewrite Heff in He by done. apply path_eqb_normal in He as ->; done.
Qed.

End no_symlinks.

(** C35: The writable roots handed to the sandboxes are sound for the entries of the policy and
    for the metadata below each root: without symbolic links, a path that some root with its
    read-only subpaths and protected names lets through is one to which the entries give write
    access ([resolve_access_with_cwd]), and it is not at or below the [.git], [.agents] or
    [.codex] of that root when the policy does not let that path be written.  (Of two
    nested roots the outer one does not protect the metadata of the inner one, although
    [can_write_path_with_cwd] refuses it: see [nested_root_loses_metadata_protection].) *)
Theorem writable_roots_are_sound env policy cwd r path target :
  env_ok env -> (forall p, normal p -> normalize_effective_absolute_path env p = p) ->
  policy_ok policy -> kind policy = Restricted ->
  resolve_candidate_path env path cwd = Some target ->
  r ∈ get_writable_roots_with_cwd env policy cwd -> is_path_writable r target = true ->
  resolve_access_with_cwd env policy path cwd = Write /\
  forall name, name ∈ PROTECTED_METADATA_PATH_NAMES ->
    can_write_path_with_cwd env policy (join env (root r) name) cwd = false ->
    starts_with target (join env (root r) name) = false.
Proof.
  intros He Heff Hp Hk Ht Hr Hw. assert (normal target) as Hn by by eapply candidate_normal. split.
  - rewrite resolve_access_restricted, Ht by done. cbn [from_option].
    rewrite <- (writable_roots_grant_only_write env He Heff policy cwd r target) by done.
    by rewrite resolve_access_restricted, candidate_fixed.
  - intros name Hm Hc. pose proof (writable_roots_ok env policy cwd He Hp) as Hroots. rewrite Forall_forall in Hroots.
    apply outside_metadata; [by apply Hroots|done|done|by eapply protected_names_in|done].
Qed.

(** The roots do not carry all of the metadata protection: the outer one of two nested
    writable roots lets through the [.git] of the inner one, which the policy protects. *)
Example nested_root_loses_metadata_protection :
  let policy := restricted [mkEntry (PathEntry $"/a") Write; mkEntry (PathEntry $"/a/b") Write] in
  can_write_path_with_cwd plain_env policy $"/a/b/.git/hooks" $"/w" = false /\
  existsb (fun r => is_path_writable r $"/a/b/.git/hooks")
    (get_writable_roots_with_cwd plain_env policy $"/w") = true.
Proof. by vm_compute. Qed.

(** ** Denied reads *)

Lemma push_unique_elem l p q : q ∈ l \/ path_eqb q p = true ->
  exists q', q' ∈ push_unique l p /\ path_eqb q q' = true.
Proof.
  unfold push_unique. intros H. destruct (existsb (fun e => path_eqb e p) l) eqn:E.
  - destruct H as [H|H]; [exists q; split; [done|apply path_eqb_refl]|].
    apply existsb_elem in E as (x & Hx & E). exists x. split; [done|].
    apply path_eqb_spec. apply path_eqb_spec in E, H. congruence.
  - destruct H as [H|H]; [exists q; split; [set_solver|apply path_eqb_refl]|].
    exists p. split; [set_solver|done].
Qed.

(** The lexical absolute form of a path is among its candidates. *)
Lemma candidates_lexical env path p :
  from_absolute_path env path = Ok p ->
  exists q, q ∈ normalized_and_canonical_candidates env path /\ path_eqb p q = true.
Proof.
  intros H. unfold normalized_and_canonical_candidates. rewrite H.
  assert (p ∈ push_unique [] p) as Hin by set_solver.
  destruct (canonicalize env path); [|exists p; split; [done|apply path_eqb_refl]].
  destruct (from_absolute_path env value); [|exists p; split; [done|apply path_eqb_refl]].
  apply push_unique_elem. by left.
Qed.

Lemma starts_with_eqb_l a b path :
  path_eqb a b = true -> starts_with a path = true -> starts_with b path = true.
Proof. unfold starts_with. intros E%path_eqb_spec. by rewrite E. Qed.

(** A deny entry is not readable at its own path, so it is an unreadable root. *)
Lemma deny_entry_unreadable env policy cwd d :
  env_ok env -> policy_ok policy -> kind policy = Restricted ->
  d ∈ resolved_entries_with_cwd env policy cwd -> resolved_access d = Deny ->
  can_read_path_with_cwd env policy (resolved_path d) cwd = false.
Proof.
  intros He Hp Hk Hd Ha. assert (normal (resolved_path d)) as Hn by by eapply resolved_normal.
  unfold can_read_path_with_cwd. rewrite resolve_access_restricted, candidate_fixed by done.
  cbn [from_option].
  destruct (access_of_above (resolved_path d) (resolved_entries_with_cwd env policy cwd) d Hd
    (starts_with_refl _)) as [Hr|(e & He' & Hpe & _ & Hs & Hne)].
  - rewrite Ha in Hr. destruct (access_of _ _); simpl in *; lia || done.
  - exfalso. apply not_true_iff_false in Hne. apply Hne, path_eqb_spec.
    apply (starts_with_same_length (resolved_path d)); [done|apply starts_with_refl|].
    apply starts_with_length in Hs, Hpe. lia.
Qed.

Lemma unreadable_root env policy cwd d :
  env_ok env -> policy_ok policy -> kind policy = Restricted ->
  d ∈ resolved_entries_with_cwd env policy cwd -> resolved_access d = Deny ->
  resolved_path d <> [sep] ->
  exists q, q ∈ get_unreadable_roots_with_cwd env policy cwd /\
    path_eqb (normalize_effective_absolute_path env (resolved_path d)) q = true.
Proof.
  intros He Hp Hk Hd Ha Hne. unfold get_unreadable_roots_with_cwd, is_restricted. rewrite Hk. simpl.
  apply dedup_keeps_effective. rewrite !filter_filter.
  apply list_elem_of_fmap. exists d. split; [done|]. apply elem_filter. split; [done|].
  rewrite Ha, bool_decide_true by done. rewrite deny_entry_unreadable by done. simpl.
  apply negb_true_iff. destruct (from_absolute_path env cwd) as [c|] eqn:E; [|done]. simpl.
  rewrite absolute_root_is_slash by by eapply from_absolute_path_Ok.
  apply not_true_iff_false. rewrite path_eqb_normal; [congruence|apply slash_normal|].
  by eapply resolved_normal.
Qed.

Section matcher.
Context (env : Env) (glob : str -> result str (str -> bool)).

Lemma build_matchers_closed patterns ms b :
  exists ms' b', build_matchers glob FailClosed patterns ms b = Ok (ms', b') /\
    (forall m, m ∈ ms -> m ∈ ms') /\ (b = true -> b' = true) /\
    (forall p, p ∈ patterns -> match glob p with Ok m => m ∈ ms' | Err _ => b' = true end).
Proof.
  revert ms b. induction patterns as [|p patterns IH]; intros ms b; simpl.
  { exists ms, b. set_solver. }
  destruct (glob p) as [m|err] eqn:E.
  - destruct (IH (ms ++ [m]) b) as (ms' & b' & -> & H1 & H2 & H3). exists ms', b'.
    split_and!; try done. { set_solver. }
    intros q [->|Hq]%elem_of_cons; [|by apply H3]. rewrite E. apply H1. set_solver.
  - destruct (IH ms true) as (ms' & b' & -> & H1 & H2 & H3). exists ms', b'.
    split_and!; try done; auto. intros q [->|Hq]%elem_of_cons; [|by apply H3]. rewrite E. auto.
Qed.

Lemma build_matchers_error patterns ms b :
  is_ok (build_matchers glob ReturnError patterns ms b) = forallb (fun p => is_ok (glob p)) patterns.
Proof.
  revert ms. induction patterns as [|p patterns IH]; intros ms; simpl; [done|].
  destruct (glob p); simpl; [by rewrite IH|done].
Qed.

Lemma matcher_exact_deny m path p denied q :
  denied ∈ denied_candidates m -> q ∈ denied -> from_absolute_path env path = Ok p ->
  starts_with p q = true -> is_read_denied env m path = true.
Proof.
  intros Hd Hq Hp Hs. unfold is_read_denied. destruct (invalid_pattern m); [done|].
  destruct (existsb _ (denied_candidates m)) eqn:E; [done|exfalso].
  rewrite existsb_elem_false in E. specialize (E denied Hd).
  destruct (candidates_lexical env path p Hp) as (c & Hc & Ec).
  rewrite existsb_elem_false in E. specialize (E c Hc).
  rewrite existsb_elem_false in E. specialize (E q Hq).
  apply orb_false_iff in E as [_ E]. by rewrite (starts_with_eqb_l p c) in E.
Qed.

End matcher.

(** Direct reads respect the deny entries.  The matcher is built exactly when the
    policy denies something, and its [unreachable!] is not reached; a path at or below a
    denied path (other than the root, and not renamed by symbolic links) is denied, even
    where the file does not exist; a path that matches a deny pattern is denied; one
    malformed pattern denies every read, and makes [try_new] fail. *)
Theorem denied_reads_are_refused env glob policy cwd :
  env_ok env -> policy_ok policy ->
  exists matcher, matcher_new env glob policy cwd = Some matcher /\
    (matcher = None <-> has_denied_read_restrictions policy = false) /\
    (has_denied_read_restrictions policy = true ->
     is_ok (matcher_try_new env glob policy cwd) =
     forallb (fun p => is_ok (glob p)) (get_unreadable_globs_with_cwd env policy cwd)) /\
    forall m, matcher = Some m ->
      (forall d path p, d ∈ resolved_entries_with_cwd env policy cwd -> resolved_access d = Deny ->
         resolved_path d <> [sep] ->
         normalize_effective_absolute_path env (resolved_path d) = resolved_path d ->
         from_absolute_path env path = Ok p -> starts_with p (resolved_path d) = true ->
         is_read_denied env m path = true) /\
      (forall pattern path, pattern ∈ get_unreadable_globs_with_cwd env policy cwd ->
         match glob pattern with
         | Ok matches => existsb matches (normalized_and_canonical_candidates env path) = true ->
                         is_read_denied env m path = true
         | Err _ => is_read_denied env m path = true
         end).
Proof.
  intros He Hp. unfold matcher_new, matcher_try_new, build.
  destruct (has_denied_read_restrictions policy) eqn:Hd; simpl; [|by exists None].
  destruct (build_matchers_closed glob (get_unreadable_globs_with_cwd env policy cwd) [] false)
    as (ms & b & Eb & _ & _ & Hms).
  rewrite Eb. simpl. eexists. split; [done|]. split_and!; [done| |].
  { intros _. rewrite <- (build_matchers_error glob _ [] false).
    by destruct (build_matchers glob ReturnError _ [] false) as [[]|]. }
  intros m [= <-]. split.
  - intros d path p Hin Ha Hne Hself Hpath Hs.
    assert (kind policy = Restricted) as Hk.
    { unfold has_denied_read_restrictions, is_restricted in Hd. by destruct (kind policy). }
    destruct (unreadable_root env policy cwd d) as (q & Hq & Eq); [done..|]. rewrite Hself in Eq.
    assert (Forall normal (get_unreadable_roots_with_cwd env policy cwd)) as Hroots.
    { unfold get_unreadable_roots_with_cwd. destruct (negb _); [done|].
      rewrite !filter_filter. apply dedup_normal; [done|]. by apply resolved_paths_normal. }
    rewrite Forall_forall in Hroots.
    destruct (candidates_lexical env q q) as (c & Hc & Ec);
      [apply from_absolute_path_fixed; by apply Hroots|].
    eapply (matcher_exact_deny env _ path p _ c); [|done|done|].
    + simpl. apply list_elem_of_fmap. by exists q.
    + eapply starts_with_eqb_r; [done|]. by eapply starts_with_eqb_r.
  - intros pattern path Hpat. specialize (Hms pattern Hpat). unfold is_read_denied. simpl.
    destruct (glob pattern) as [g|]; [|by rewrite Hms]. intros Hg.
    destruct b; [done|]. destruct (existsb _ (_ <$> _)); [done|].
    apply existsb_elem. by exists g.
Qed.

(** ** Instances of the properties *)

Lemma policy_paths_stay_normal_witness :
  Forall root_ok (get_writable_roots_with_cwd plain_env sample $"/w") /\
  (root <$> get_writable_roots_with_cwd plain_env sample $"/w") = [$"/w"].
Proof.
  split; [|vm_compute; reflexivity].
  apply (policy_paths_stay_normal plain_env sample sample DangerFullAccess $"/w" []);
    [apply plain_env_ok|apply sample_ok|apply sample_ok|exact I|constructor].
Defined.

Lemma push_empty p : p <> [] -> components (push p []) = components p.
Proof. intros Hp. rewrite components_push by done. simpl. by rewrite app_nil_r. Qed.

Lemma plain_effective p : normal p -> normalize_effective_absolute_path plain_env p = p.
Proof.
  intros Hp. unfold normalize_effective_absolute_path, ancestors. simpl.
  unfold canonicalize_preserving_symlinks. rewrite from_absolute_path_fixed by done.
  cbn [mbind result_bind canonicalize plain_env].
  assert (p <> []) as Hne by (by destruct Hp as (ps & _ & ->)).
  destruct (_ && _); unfold strip_prefix.
  all: assert (strip_components (components p) (components p) = Some []) as ->
    by (apply strip_components_Some; by rewrite app_nil_r).
  all: assert (from_absolute_path plain_env (push p (as_path [])) = Ok p) as ->; [|done].
  all: unfold from_absolute_path, Path.from_absolute_path, absolutize, normalize_path_for_platform.
  all: assert (is_absolute (push p (as_path [])) = true) as Ha
    by (rewrite (is_absolute_ext _ p); [by apply normal_absolute|by apply push_empty]).
  all: rewrite expand_home_absolute, Ha by done; f_equal.
  all: rewrite (normalize_path_components _ p) by by apply push_empty.
  all: destruct Hp as (ps & Hps & ->); by rewrite normalize_absolute, lexical_render.
Qed.

Lemma writable_roots_are_sound_witness :
  resolve_access_with_cwd plain_env sample $"src/main.rs" $"/w" = Write /\
  forall name, name ∈ PROTECTED_METADATA_PATH_NAMES ->
    can_write_path_with_cwd plain_env sample (join plain_env $"/w" name) $"/w" = false ->
    starts_with $"/w/src/main.rs" (join plain_env $"/w" name) = false.
Proof.
  apply (writable_roots_are_sound plain_env sample $"/w"
    (mkRoot $"/w" [$"/w/.codex"; $"/w/secret"] PROTECTED_METADATA_PATH_NAMES)
    $"src/main.rs" $"/w/src/main.rs");
    [apply plain_env_ok|apply plain_effective|apply sample_ok|reflexivity|reflexivity| |reflexivity].
  vm_compute. apply list_elem_of_here.
Defined.

Lemma denied_reads_are_refused_witness :
  exists m, matcher_new plain_env (fun _ => Err []) sample $"/w" = Some (Some m) /\
    is_read_denied plain_env m $"/w/secret/missing" = true.
Proof.
  destruct (denied_reads_are_refused plain_env (fun _ => Err []) sample $"/w")
    as ([m|] & E & Hn & _ & H); [apply plain_env_ok|apply sample_ok| |by specialize (proj1 Hn eq_refl)].
  exists m. split; [exact E|].
  apply (proj1 (H m eq_refl) (mkResolved $"/w/secret" Deny) $"/w/secret/missing" $"/w/secret/missing");
    [|reflexivity|done|apply plain_effective; by apply normal_check|reflexivity|reflexivity].
  vm_compute. do 2 apply list_elem_of_further. apply list_elem_of_here.
Defined.

End Roots.
