(* ===== verification/PermissionProfile.v ===== *)
(** Permission profiles ([protocol/src/models.rs]) and how they are merged, intersected
    and applied ([sandboxing/src/policy_transforms.rs], and the part of
    [sandboxing/src/manager.rs] that chooses a sandbox).  A profile owns a policy of
    [Permissions]; an additional profile is what a command requests and a user grants. *)
From S2P Require Import Prelude Paths PathOps Permissions AccessResolution SandboxRoots.

Module Profile.
Import Path PathOps Permissions.

(** ** Data *)

Inductive SandboxPermissions := UseDefault | RequireEscalated | WithAdditionalPermissions.
Definition requires_escalated_permissions (p : SandboxPermissions) : bool :=
  match p with RequireEscalated => true | _ => false end.
Definition requests_sandbox_override (p : SandboxPermissions) : bool :=
  match p with UseDefault => false | _ => true end.
Definition uses_additional_permissions (p : SandboxPermissions) : bool :=
  match p with WithAdditionalPermissions => true | _ => false end.

(** [NonZeroUsize] is [positive]; [usize::from] and [NonZeroUsize::new]. *)
Definition to_usize (n : positive) : N := Npos n.
Definition nonzero (n : N) : option positive :=
  match n with N0 => None | Npos p => Some p end.

Record FileSystemPermissions := mkFs {
  fs_entries : list FileSystemSandboxEntry;
  fs_glob_scan_max_depth : option positive;
}.
Definition fs_is_empty (p : FileSystemPermissions) : bool :=
  match fs_entries p with [] => true | _ => false end.
Definition fs_default : FileSystemPermissions := mkFs [] None.

Definition from_read_write_roots (read write : option (list str)) : FileSystemPermissions :=
  mkFs
    (from_option (fmap (fun path => mkEntry (PathEntry path) Read)) [] read ++
     from_option (fmap (fun path => mkEntry (PathEntry path) Write)) [] write) None.

Definition explicit_path_entries (self : FileSystemPermissions)
    : list (str * FileSystemAccessMode) :=
  omap (fun entry =>
    match entry_path entry with
    | PathEntry path => Some (path, access entry)
    | GlobPattern _ | Special _ => None
    end) (fs_entries self).

(** The loop of [as_legacy_permissions], with its two early returns. *)
Fixpoint legacy_roots (es : list FileSystemSandboxEntry) (read write : list str)
    : option (list str * list str) :=
  match es with
  | [] => Some (read, write)
  | entry :: es' =>
      match entry_path entry with
      | PathEntry path =>
          match access entry with
          | Read => legacy_roots es' (read ++ [path]) write
          | Write => legacy_roots es' read (write ++ [path])
          | Deny => None
          end
      | _ => None
      end
  end.
Definition then_some_ne (l : list str) : option (list str) :=
  match l with [] => None | _ => Some l end.
Definition as_legacy_permissions (self : FileSystemPermissions)
    : option (option (list str) * option (list str)) :=
  match fs_glob_scan_max_depth self with
  | Some _ => None
  | None =>
      '(read, write) ← legacy_roots (fs_entries self) [] [];
      Some (then_some_ne read, then_some_ne write)
  end.

Record NetworkPermissions := mkNet { enabled : option bool }.
Definition net_is_empty (n : NetworkPermissions) : bool :=
  match enabled n with None => true | Some _ => false end.

Record AdditionalPermissionProfile := mkAdditional {
  network : option NetworkPermissions;
  file_system : option FileSystemPermissions;
}.
Definition additional_is_empty (p : AdditionalPermissionProfile) : bool :=
  match network p, file_system p with None, None => true | _, _ => false end.

Inductive SandboxEnforcement := EnfManaged | EnfDisabled | EnfExternal.
Definition enforcement_from_legacy (p : SandboxPolicy) : SandboxEnforcement :=
  match p with
  | DangerFullAccess => EnfDisabled
  | LegacyExternalSandbox _ => EnfExternal
  | ReadOnly _ | WorkspaceWrite _ _ _ _ => EnfManaged
  end.

Inductive ManagedFileSystemPermissions :=
| ManagedRestricted (es : list FileSystemSandboxEntry) (glob_scan_max_depth : option positive)
| ManagedUnrestricted.

(** [None] is the [unreachable!]. *)
Definition from_sandbox_policy (p : FileSystemSandboxPolicy) : option ManagedFileSystemPermissions :=
  match kind p with
  | Restricted => Some (ManagedRestricted (entries p) (d ← glob_scan_max_depth p; nonzero d))
  | Unrestricted => Some ManagedUnrestricted
  | ExternalSandbox => None
  end.
Definition to_sandbox_policy (m : ManagedFileSystemPermissions) : FileSystemSandboxPolicy :=
  match m with
  | ManagedRestricted es depth => mkPolicy Restricted (to_usize <$> depth) es
  | ManagedUnrestricted => unrestricted
  end.

Inductive PermissionProfile :=
| Managed (file_system : ManagedFileSystemPermissions) (network : NetworkSandboxPolicy)
| Disabled
| External (network : NetworkSandboxPolicy).

Definition profile_default : PermissionProfile := Managed (ManagedRestricted [] None) NetRestricted.

Definition enforcement (p : PermissionProfile) : SandboxEnforcement :=
  match p with Managed _ _ => EnfManaged | Disabled => EnfDisabled | External _ => EnfExternal end.
Definition file_system_sandbox_policy (p : PermissionProfile) : FileSystemSandboxPolicy :=
  match p with
  | Managed fs _ => to_sandbox_policy fs
  | Disabled => unrestricted
  | External _ => external_sandbox
  end.
Definition network_sandbox_policy (p : PermissionProfile) : NetworkSandboxPolicy :=
  match p with Managed _ n | External n => n | Disabled => NetEnabled end.
Definition to_runtime_permissions (p : PermissionProfile)
    : FileSystemSandboxPolicy * NetworkSandboxPolicy :=
  (file_system_sandbox_policy p, network_sandbox_policy p).

Definition from_runtime_permissions_with_enforcement (e : SandboxEnforcement)
    (fs : FileSystemSandboxPolicy) (net : NetworkSandboxPolicy) : option PermissionProfile :=
  match kind fs, e with
  | ExternalSandbox, _ => Some (External net)
  | Unrestricted, EnfDisabled => Some Disabled
  | Restricted, _ | Unrestricted, _ =>
      m ← from_sandbox_policy fs; Some (Managed m net)
  end.
Definition from_runtime_permissions (fs : FileSystemSandboxPolicy) (net : NetworkSandboxPolicy)
    : option PermissionProfile :=
  let enforcement :=
    match kind fs with
    | Restricted | Unrestricted => EnfManaged
    | ExternalSandbox => EnfExternal
    end in
  from_runtime_permissions_with_enforcement enforcement fs net.

Definition permissions_from_policy (value : FileSystemSandboxPolicy) : FileSystemPermissions :=
  let es := match kind value with
            | Restricted => entries value
            | Unrestricted | ExternalSandbox => [mkEntry (Special Root) Write]
            end in
  mkFs es (d ← glob_scan_max_depth value; nonzero d).
Definition policy_from_permissions (value : FileSystemPermissions) : FileSystemSandboxPolicy :=
  mkPolicy Restricted (to_usize <$> fs_glob_scan_max_depth value) (fs_entries value).

(** The profile of a rollout written before enforcement was explicit. *)
Definition profile_from_old_rollout (net : option NetworkPermissions)
    (fs : option FileSystemPermissions) : option PermissionProfile :=
  let fs_policy := match fs with None => restricted [] | Some fs => policy_from_permissions fs end in
  let net_policy := if from_option id false (n ← net; enabled n) then NetEnabled else NetRestricted in
  from_runtime_permissions fs_policy net_policy.

(** ** Merging *)

Inductive GlobScanDepth := Bounded (n : N) | Unbounded.

Definition effective_glob_scan_depth (es : list FileSystemSandboxEntry) (depth : option N)
    : option GlobScanDepth :=
  if existsb (fun entry =>
       is_deny entry && match entry_path entry with GlobPattern _ => true | _ => false end) es
  then Some (match depth with Some depth => Bounded depth | None => Unbounded end)
  else None.

Definition merge_glob_scan_max_depth (left_entries : list FileSystemSandboxEntry)
    (left_depth : option N) (right_entries : list FileSystemSandboxEntry) (right_depth : option N)
    : option N :=
  match effective_glob_scan_depth left_entries left_depth,
        effective_glob_scan_depth right_entries right_depth with
  | Some Unbounded, _ | _, Some Unbounded => None
  | Some (Bounded l), Some (Bounded r) => Some (N.max l r)
  | Some (Bounded depth), None | None, Some (Bounded depth) => Some depth
  | None, None => None
  end.

Definition merge_permission_entries (base permissions : list FileSystemSandboxEntry)
    : list FileSystemSandboxEntry :=
  fold_left push_entry_unique (base ++ permissions) [].

Definition merge_file_system_policy_with_additional_permissions (fs : FileSystemSandboxPolicy)
    (additional : FileSystemPermissions) : FileSystemSandboxPolicy :=
  match kind fs with
  | Restricted =>
      mkPolicy (kind fs)
        (merge_glob_scan_max_depth (entries fs) (glob_scan_max_depth fs) (fs_entries additional)
           (to_usize <$> fs_glob_scan_max_depth additional))
        (fold_left push_entry_unique (fs_entries additional) (entries fs))
  | Unrestricted | ExternalSandbox => fs
  end.

Definition effective_file_system_sandbox_policy (fs : FileSystemSandboxPolicy)
    (additional : option AdditionalPermissionProfile) : FileSystemSandboxPolicy :=
  match additional with
  | None => fs
  | Some additional =>
      match file_system additional with
      | None => fs
      | Some permissions =>
          if fs_is_empty permissions then fs
          else merge_file_system_policy_with_additional_permissions fs permissions
      end
  end.

Definition merge_network_access (base : bool) (additional : AdditionalPermissionProfile) : bool :=
  base || from_option id false (n ← network additional; enabled n).

Definition effective_network_sandbox_policy (net : NetworkSandboxPolicy)
    (additional : option AdditionalPermissionProfile) : NetworkSandboxPolicy :=
  match additional with
  | Some permissions =>
      if merge_network_access (network_is_enabled net) permissions then NetEnabled else NetRestricted
  | None => net
  end.

Definition effective_permission_profile (p : PermissionProfile)
    (additional : option AdditionalPermissionProfile) : option PermissionProfile :=
  let '(fs, net) := to_runtime_permissions p in
  from_runtime_permissions_with_enforcement (enforcement p)
    (effective_file_system_sandbox_policy fs additional)
    (effective_network_sandbox_policy net additional).

Definition network_on (n : option NetworkPermissions) : bool :=
  match n with Some (mkNet (Some true)) => true | _ => false end.

Definition merge_permission_profiles (base permissions : option AdditionalPermissionProfile)
    : option AdditionalPermissionProfile :=
  match permissions with
  | None => base
  | Some permissions =>
      let merged :=
        match base with
        | Some base =>
            let network :=
              if network_on (network base) || network_on (network permissions)
              then Some (mkNet (Some true)) else None in
            let file_system :=
              match file_system base, file_system permissions with
              | Some base, Some permissions =>
                  let merged :=
                    mkFs (merge_permission_entries (fs_entries base) (fs_entries permissions))
                      (d ← merge_glob_scan_max_depth (fs_entries base)
                             (to_usize <$> fs_glob_scan_max_depth base) (fs_entries permissions)
                             (to_usize <$> fs_glob_scan_max_depth permissions);
                       nonzero d) in
                  if negb (fs_is_empty merged) then Some merged else None
              | Some base, None => Some base
              | None, Some permissions => Some permissions
              | None, None => None
              end in
            mkAdditional network file_system
        | None => permissions
        end in
      if negb (additional_is_empty merged) then Some merged else None
  end.

Definition should_require_platform_sandbox (fs : FileSystemSandboxPolicy)
    (net : NetworkSandboxPolicy) (has_managed_network_requirements : bool) : bool :=
  if has_managed_network_requirements then true
  else if negb (network_is_enabled net) then
    match kind fs with ExternalSandbox => false | _ => true end
  else match kind fs with
       | Restricted => negb (has_full_disk_write_access fs)
       | Unrestricted | ExternalSandbox => false
       end.

Inductive SandboxablePreference := Auto | Require | Forbid.

(** [select_initial]; the sandbox of the platform, if it has one, is an argument, and
    [None] is [SandboxType::None]. *)
Definition select_initial {SandboxType} (get_platform_sandbox : option SandboxType)
    (fs : FileSystemSandboxPolicy) (net : NetworkSandboxPolicy) (pref : SandboxablePreference)
    (has_managed_network_requirements : bool) : option SandboxType :=
  match pref with
  | Forbid => None
  | Require => get_platform_sandbox
  | Auto =>
      if should_require_platform_sandbox fs net has_managed_network_requirements
      then get_platform_sandbox else None
  end.

(** ** Operations that ask the system *)

Section env.
Context (env : Env).

Definition profile_read_only : option PermissionProfile :=
  fs ← from_sandbox_policy read_only; Some (Managed fs NetRestricted).
Definition workspace_write_with (writable_roots : list str) (net : NetworkSandboxPolicy)
    (exclude_tmpdir_env_var exclude_slash_tmp : bool) : option PermissionProfile :=
  fs ← from_sandbox_policy
         (workspace_write env writable_roots exclude_tmpdir_env_var exclude_slash_tmp);
  Some (Managed fs net).
Definition profile_workspace_write : option PermissionProfile :=
  workspace_write_with [] NetRestricted false false.

Definition profile_materialize_with_workspace_roots (p : PermissionProfile) (roots : list str)
    : option PermissionProfile :=
  match p with
  | Managed fs net =>
      m ← from_sandbox_policy
            (materialize_project_roots_with_workspace_roots env (to_sandbox_policy fs) roots);
      Some (Managed m net)
  | Disabled => Some Disabled
  | External net => Some (External net)
  end.

Definition profile_from_legacy (p : SandboxPolicy) : option PermissionProfile :=
  from_runtime_permissions_with_enforcement (enforcement_from_legacy p) (from_legacy env p)
    (network_from_legacy p).
Definition profile_from_legacy_for_cwd (p : SandboxPolicy) (cwd : str) : option PermissionProfile :=
  from_runtime_permissions_with_enforcement (enforcement_from_legacy p)
    (from_legacy_sandbox_policy_for_cwd env p cwd) (network_from_legacy p).
Definition profile_to_legacy (p : PermissionProfile) (cwd : str) : result Io.Error SandboxPolicy :=
  match p with
  | Managed fs net => to_legacy_sandbox_policy env (to_sandbox_policy fs) net cwd
  | Disabled => Ok DangerFullAccess
  | External net => Ok (LegacyExternalSandbox (network_is_enabled net))
  end.

Definition with_managed_mitm_ca_readable_root (p : PermissionProfile) (bundle : option str)
    (cwd : str) : option PermissionProfile :=
  match bundle with
  | None => Some p
  | Some path =>
      let '(fs, net) := to_runtime_permissions p in
      from_runtime_permissions_with_enforcement (enforcement p)
        (with_additional_readable_roots env fs cwd [path]) net
  end.

(** [compatibility_workspace_write_policy] of [manager.rs]. *)
Definition compatibility_workspace_write_policy (fs : FileSystemSandboxPolicy)
    (net : NetworkSandboxPolicy) (cwd : str) : SandboxPolicy :=
  let cwd_abs := ok (from_absolute_path env cwd) in
  let writable_roots :=
    List.filter (fun root => negb (opt_path_eqb cwd_abs (Some root)))
      (root <$> get_writable_roots_with_cwd env fs cwd) in
  let tmpdir_writable :=
    match env.(var_os) $"TMPDIR" with
    | Some tmpdir =>
        if Str.is_empty tmpdir then false
        else match from_absolute_path env tmpdir with
             | Ok tmpdir => can_write_path_with_cwd env fs tmpdir cwd
             | Err _ => false
             end
    | None => false
    end in
  let slash_tmp_writable :=
    env.(is_dir) $"/tmp" && can_write_path_with_cwd env fs $"/tmp" cwd in
  WorkspaceWrite writable_roots (network_is_enabled net) (negb tmpdir_writable)
    (negb slash_tmp_writable).
Definition compatibility_sandbox_policy_for_permission_profile (p : PermissionProfile) (cwd : str)
    : SandboxPolicy :=
  match profile_to_legacy p cwd with
  | Ok legacy => legacy
  | Err _ => let '(fs, net) := to_runtime_permissions p in
             compatibility_workspace_write_policy fs net cwd
  end.

Fixpoint normalize_entries (es acc : list FileSystemSandboxEntry)
    : result str (list FileSystemSandboxEntry) :=
  match es with
  | [] => Ok acc
  | entry :: es' =>
      match entry_path entry with
      | GlobPattern _ =>
          if is_deny entry then normalize_entries es' (push_entry_unique acc entry)
          else Err $"glob file system permissions only support deny-read entries"
      | PathEntry path =>
          let path :=
            from_option id path
              (canonical ← ok (canonicalize_preserving_symlinks env path);
               ok (from_absolute_path env canonical)) in
          normalize_entries es' (push_entry_unique acc (mkEntry (PathEntry path) (access entry)))
      | Special value =>
          normalize_entries es' (push_entry_unique acc (mkEntry (Special value) (access entry)))
      end
  end.

Definition normalize_additional_permissions (p : AdditionalPermissionProfile)
    : result str AdditionalPermissionProfile :=
  let net := n ← network p; if negb (net_is_empty n) then Some n else None in
  match file_system p with
  | None => Ok (mkAdditional net None)
  | Some fs =>
      es ← normalize_entries (fs_entries fs) [];
      let fs := mkFs es (fs_glob_scan_max_depth fs) in
      Ok (mkAdditional net (if negb (fs_is_empty fs) then Some fs else None))
  end.

(** ** Intersecting a request with a grant *)

Definition resolve_permission_path (path : FileSystemPath) (cwd : str) : option str :=
  match path with
  | PathEntry path => Some path
  | GlobPattern _ => None
  | Special value =>
      match value with
      | Root => root ← last (ancestors cwd); ok (from_absolute_path env root)
      | ProjectRoots subpath =>
          cwd ← ok (from_absolute_path env cwd);
          Some match subpath with
               | Some subpath => resolve_path_against_base env subpath cwd
               | None => cwd
               end
      | Tmpdir =>
          tmpdir ← env.(var_os) $"TMPDIR";
          if Str.is_empty tmpdir then None else ok (from_absolute_path env tmpdir)
      | SlashTmp =>
          path ← ok (from_absolute_path env $"/tmp");
          if env.(is_dir) path then Some path else None
      | Minimal | Unknown _ _ => None
      end
  end.

Definition materialize_cwd_dependent_entry (entry : FileSystemSandboxEntry) (cwd : str)
    : FileSystemSandboxEntry :=
  match entry_path entry with
  | Special (ProjectRoots _) =>
      match resolve_permission_path (entry_path entry) cwd with
      | Some path => mkEntry (PathEntry path) (access entry)
      | None => entry
      end
  | GlobPattern pattern =>
      mkEntry (GlobPattern (resolve_path_against_base env pattern cwd)) (access entry)
  | PathEntry _ | Special _ => entry
  end.

Definition access_covers (requested granted : FileSystemAccessMode) : bool :=
  match granted with
  | Read => can_read requested
  | Write => can_write requested
  | Deny => false
  end.

Definition paths_overlap (l r : str) : bool := starts_with l r || starts_with r l.

Definition is_glob_char (c : char) : bool :=
  ((c =? ch "*") || (c =? ch "?") || (c =? ch "[") || (c =? ch "]"))%N.
(** The text before the first glob character, and whether there is one. *)
Fixpoint before_glob (s : str) : str * bool :=
  match s with
  | [] => ([], false)
  | c :: s' => if is_glob_char c then ([], true)
               else let '(p, found) := before_glob s' in (c :: p, found)
  end.
Definition ends_with_separator (s : str) : bool :=
  match last s with Some c => ((c =? sep) || (c =? ch "\"))%N | None => false end.
Definition glob_static_prefix_path (pattern cwd : str) : option str :=
  let resolved_pattern := resolve_path_against_base env pattern cwd in
  prefix ←
    match before_glob resolved_pattern with
    | ([], true) => None
    | (prefix, true) => if ends_with_separator prefix then Some prefix else parent prefix
    | (_, false) => Some resolved_pattern
    end;
  ok (from_absolute_path env prefix).

Definition deny_entry_constrains_accepted_grant (deny_entry : FileSystemSandboxEntry)
    (accepted_entries : list FileSystemSandboxEntry) (cwd : str) : bool :=
  existsb (fun entry =>
    match resolve_permission_path (entry_path entry) cwd with
    | None => false
    | Some grant_path =>
        match entry_path deny_entry with
        | GlobPattern pattern =>
            match glob_static_prefix_path pattern cwd with
            | Some prefix => paths_overlap prefix grant_path
            | None => false
            end
        | PathEntry _ | Special _ =>
            match resolve_permission_path (entry_path deny_entry) cwd with
            | Some deny_path => paths_overlap deny_path grant_path
            | None => false
            end
        end
    end) (List.filter (fun entry => can_read (access entry)) accepted_entries).

(** The retained entries and the output after the loop. *)
Definition retain_constraining_deny_entries (source_entries accepted_entries : list FileSystemSandboxEntry)
    (cwd : str) (output_entries : list FileSystemSandboxEntry)
    : list FileSystemSandboxEntry * list FileSystemSandboxEntry :=
  let retained :=
    (fun entry => materialize_cwd_dependent_entry entry cwd) <$>
      List.filter (fun entry => deny_entry_constrains_accepted_grant entry accepted_entries cwd)
        (List.filter is_deny source_entries) in
  (retained, fold_left push_entry_unique retained output_entries).

Definition granted_file_system_entry_within_request (requested : FileSystemPermissions)
    (requested_policy : FileSystemSandboxPolicy) (matcher : option ReadDenyMatcher)
    (granted_entry : FileSystemSandboxEntry) (cwd : str) : bool :=
  if negb (can_read (access granted_entry)) then false
  else match resolve_permission_path (entry_path granted_entry) cwd with
       | Some path =>
           if match matcher with Some m => is_read_denied env m path | None => false end then false
           else access_covers (resolve_access_with_cwd env requested_policy path cwd)
                  (access granted_entry)
       | None =>
           existsb (fun requested_entry =>
             access_covers (access requested_entry) (access granted_entry) &&
             fs_path_eqb (entry_path requested_entry) (entry_path granted_entry))
             (fs_entries requested)
       end.

Context (build_glob_matcher : str -> result str (str -> bool)).

Definition intersect_file_system (requested_fs granted_fs : FileSystemPermissions) (cwd : str)
    : FileSystemPermissions :=
  let requested_policy := restricted (fs_entries requested_fs) in
  let matcher := mjoin (matcher_new env build_glob_matcher requested_policy cwd) in
  let accepted_entries :=
    fold_left push_entry_unique
      ((fun entry => materialize_cwd_dependent_entry entry cwd) <$>
         List.filter (fun entry =>
           granted_file_system_entry_within_request requested_fs requested_policy matcher entry cwd)
           (fs_entries granted_fs)) [] in
  let '(requested_retained, es) :=
    retain_constraining_deny_entries (fs_entries requested_fs) accepted_entries cwd
      accepted_entries in
  let '(granted_retained, es) :=
    retain_constraining_deny_entries (fs_entries granted_fs) accepted_entries cwd es in
  mkFs es
    (d ← merge_glob_scan_max_depth requested_retained
           (to_usize <$> fs_glob_scan_max_depth requested_fs) granted_retained
           (to_usize <$> fs_glob_scan_max_depth granted_fs);
     nonzero d).

Definition intersect_permission_profiles (requested granted : AdditionalPermissionProfile)
    (cwd : str) : AdditionalPermissionProfile :=
  let file_system :=
    match file_system requested with
    | Some requested_fs =>
        let fs := intersect_file_system requested_fs
                    (from_option id fs_default (file_system granted)) cwd in
        if negb (fs_is_empty fs) then Some fs else None
    | None => None
    end in
  let network :=
    if network_on (network requested) && network_on (network granted)
    then Some (mkNet (Some true)) else None in
  mkAdditional network file_system.

End env.

(** ** Lemmas *)

Import Access Roots.

Lemma permission_path_is_entry_path env p cwd :
  normal cwd ->
  resolve_permission_path env p cwd = resolve_entry_path env p (ok (from_absolute_path env cwd)).
Proof.
  intros Hn. destruct p as [p|p|[| |s| | |]]; try done; simpl.
  - rewrite (from_absolute_path_fixed env cwd) by done. simpl. rewrite absolute_root_is_slash by done. destruct Hn as (ps & Hps & ->).
    unfold ancestors. rewrite last_ancestors by (done || by apply length_join_names). simpl.
    by rewrite (from_absolute_path_fixed env [sep] slash_normal).
  - rewrite (from_absolute_path_fixed env cwd) by done. simpl. by destruct s.
  - destruct (ok (from_absolute_path env $"/tmp")); [|done]. simpl. by destruct (is_dir env l).
Qed.

Lemma materialized_resolves env cwd e r :
  normal cwd ->
  resolves env cwd (materialize_cwd_dependent_entry env e cwd) r <-> resolves env cwd e r.
Proof.
  intros Hn. unfold materialize_cwd_dependent_entry, resolves.
  destruct (entry_path e) as [p|p|[| |s| | |]] eqn:E; try by rewrite E.
  { simpl. naive_solver. }
  rewrite (permission_path_is_entry_path env _ cwd Hn).
  destruct (resolve_entry_path env (Special (ProjectRoots s)) (ok (from_absolute_path env cwd))) eqn:Er;
    [|by rewrite E, Er]. simpl. naive_solver.
Qed.

Lemma materialized_ok env e cwd :
  env_ok env -> normal cwd -> entry_ok e -> entry_ok (materialize_cwd_dependent_entry env e cwd).
Proof.
  intros He Hn Hok. unfold materialize_cwd_dependent_entry.
  destruct (entry_path e) as [p|p|[| |s| | |]] eqn:E; try done.
  rewrite (permission_path_is_entry_path env _ cwd Hn).
  destruct (resolve_entry_path env (Special (ProjectRoots s)) _) as [q|] eqn:Er; [|done].
  unfold entry_ok. simpl. eapply (entry_path_normal env e); [done|by apply cwd_ok_from|done|].
  by rewrite E.
Qed.

(** The entries of an intersection, as they resolve. *)
Section intersection.
Context (env : Env) (He : env_ok env) (cwd : str) (Hcwd : normal cwd).
Context (glob : str -> result str (str -> bool)).
Context (rfs gfs : FileSystemPermissions).
Context (Hr : Forall entry_ok (fs_entries rfs)) (Hg : Forall entry_ok (fs_entries gfs)).

Let requested := restricted (fs_entries rfs).
Let granted := restricted (fs_entries gfs).
Let matcher := mjoin (matcher_new env glob requested cwd).
Definition accepted : list FileSystemSandboxEntry :=
  fold_left push_entry_unique
    ((fun entry => materialize_cwd_dependent_entry env entry cwd) <$>
       List.filter (fun entry =>
         granted_file_system_entry_within_request env rfs requested matcher entry cwd)
         (fs_entries gfs)) [].
Let result_policy := restricted (fs_entries (intersect_file_system env glob rfs gfs cwd)).

Lemma accepted_source_ok f es :
  Forall entry_ok es ->
  Forall entry_ok ((fun entry => materialize_cwd_dependent_entry env entry cwd) <$> List.filter f es).
Proof.
  intros H. apply Forall_fmap. eapply Forall_impl; [by apply (filter_ok f)|].
  intros e Hok. by apply materialized_ok.
Qed.

Lemma accepted_ok : Forall entry_ok accepted.
Proof. apply push_all_ok; [constructor|]. by apply accepted_source_ok. Qed.

(** An accepted entry that resolves is a granted one which the request covers. *)
Lemma accepted_resolves e r :
  e ∈ accepted -> resolves env cwd e r ->
  r ∈ resolved_entries_with_cwd env granted cwd /\ can_read (resolved_access r) = true /\
  access_covers (resolve_access_with_cwd env requested (resolved_path r) cwd) (resolved_access r) = true.
Proof.
  intros Hin Hres. assert (exists e, e ∈ accepted /\ resolves env cwd e r) as H by eauto.
  apply push_all_resolved in H as [(x & Hx & _)|(x & Hx & Hx')];
    [by apply not_elem_of_nil in Hx| |done|constructor|by apply accepted_source_ok].
  apply list_elem_of_fmap in Hx as (g & -> & Hgin). apply elem_filter in Hgin as [Hgin Hw].
  apply (proj1 (materialized_resolves env cwd g r Hcwd)) in Hx' as [Ha Hp]. unfold granted_file_system_entry_within_request in Hw.
  rewrite permission_path_is_entry_path, Hp in Hw by done.
  destruct (can_read (access g)) eqn:Hread; [|done]. cbn [negb] in Hw.
  destruct (match matcher with Some m => _ | None => _ end); [done|]. rewrite Ha in *.
  split_and!; try done. apply elem_resolves. exists g. by split.
Qed.

(** The deny entries of a source that overlap an accepted grant are retained. *)
Lemma retained_deny source out e d r :
  e ∈ accepted -> can_read (access e) = true -> Forall entry_ok source -> Forall entry_ok out ->
  resolves env cwd e r ->
  d ∈ resolved_entries_with_cwd env (restricted source) cwd -> resolved_access d = Deny ->
  starts_with (resolved_path d) (resolved_path r) = true ->
  exists x, x ∈ snd (retain_constraining_deny_entries env source accepted cwd out) /\
    resolves env cwd x d.
Proof.
  intros Hin Hread Hsrc Hout [_ Hr'] Hd Hdeny Hover. apply elem_resolves in Hd as (x & Hx & Hxr).
  cbn [snd retain_constraining_deny_entries].
  apply push_all_resolved; [done|done|rewrite filter_filter; by apply accepted_source_ok|].
  right. exists (materialize_cwd_dependent_entry env x cwd). split; [|by apply materialized_resolves].
  apply list_elem_of_fmap. exists x. split; [done|]. rewrite filter_filter. apply elem_filter.
  destruct Hxr as [Hxa Hxp]. split; [done|]. apply andb_true_iff. split.
  - unfold is_deny. rewrite Hxa. by apply bool_decide_eq_true.
  - unfold deny_entry_constrains_accepted_grant. apply existsb_elem. exists e. split.
    + by apply elem_filter.
    + rewrite permission_path_is_entry_path, Hr' by done.
      assert (resolve_permission_path env (entry_path x) cwd = Some (resolved_path d)) as Hxp'
        by by rewrite permission_path_is_entry_path.
      destruct (entry_path x) as [q|q|q]; [|done|]; rewrite Hxp'; unfold paths_overlap; by rewrite Hover.
Qed.

Lemma retained_keeps source out x :
  x ∈ out -> x ∈ snd (retain_constraining_deny_entries env source accepted cwd out).
Proof.
  cbn [snd retain_constraining_deny_entries].
  generalize ((fun entry => materialize_cwd_dependent_entry env entry cwd) <$>
    List.filter (fun entry => deny_entry_constrains_accepted_grant env entry accepted cwd)
      (List.filter is_deny source)). intros l. revert out.
  induction l as [|y l IH]; intros out Hx; [done|]. simpl. apply IH.
  unfold push_entry_unique. destruct (existsb _ out); [done|]. apply elem_of_app. by left.
Qed.

Lemma retained_new source out x r :
  Forall entry_ok source -> Forall entry_ok out ->
  x ∈ snd (retain_constraining_deny_entries env source accepted cwd out) -> resolves env cwd x r ->
  (exists y, y ∈ out /\ resolves env cwd y r) \/ resolved_access r = Deny.
Proof.
  intros Hsrc Hout Hx Hres. cbn [snd retain_constraining_deny_entries] in Hx.
  match type of Hx with x ∈ fold_left _ ?l _ =>
    assert (exists y, y ∈ fold_left push_entry_unique l out /\ resolves env cwd y r) as H by eauto end.
  apply push_all_resolved in H as [H|(y & Hy & Hyr)];
    [by left| |done|done|rewrite filter_filter; by apply accepted_source_ok].
  right. apply list_elem_of_fmap in Hy as (z & -> & Hz). apply elem_filter in Hz as [Hz _].
  apply deny_filter in Hz as [_ Hz]. apply (proj1 (materialized_resolves env cwd z r Hcwd)) in Hyr as [Ha _]. congruence.
Qed.

Let from_request := snd (retain_constraining_deny_entries env (fs_entries rfs) accepted cwd accepted).

Lemma result_entries :
  fs_entries (intersect_file_system env glob rfs gfs cwd) =
  snd (retain_constraining_deny_entries env (fs_entries gfs) accepted cwd from_request).
Proof. reflexivity. Qed.

Lemma from_request_ok : Forall entry_ok from_request.
Proof.
  apply push_all_ok; [apply accepted_ok|]. rewrite filter_filter. by apply accepted_source_ok.
Qed.

Lemma result_resolves r :
  r ∈ resolved_entries_with_cwd env result_policy cwd ->
  (exists e, e ∈ accepted /\ resolves env cwd e r) \/ resolved_access r = Deny.
Proof.
  intros (x & Hx & Hres)%elem_resolves. cbn [entries restricted result_policy] in Hx.
  rewrite result_entries in Hx.
  apply (retained_new (fs_entries gfs) from_request x r Hg from_request_ok) in Hx as [(y & Hy & Hyr)|?];
    [|by right|done].
  by apply (retained_new (fs_entries rfs) accepted y r Hr accepted_ok).
Qed.

(** A deny entry of either side at or below an accepted grant is in the result. *)
Lemma result_denies e r d :
  e ∈ accepted -> resolves env cwd e r -> can_read (resolved_access r) = true ->
  d ∈ resolved_entries_with_cwd env requested cwd \/ d ∈ resolved_entries_with_cwd env granted cwd ->
  resolved_access d = Deny -> starts_with (resolved_path d) (resolved_path r) = true ->
  d ∈ resolved_entries_with_cwd env result_policy cwd.
Proof.
  intros Hin Hres Hread Hd Hdeny Hover. assert (can_read (access e) = true) as Hread' by by destruct Hres as [-> _].
  apply elem_resolves. cbn [entries restricted result_policy]. rewrite result_entries.
  destruct Hd as [Hd|Hd].
  - destruct (retained_deny (fs_entries rfs) accepted e d r) as (x & Hx & Hxd); try done; [apply accepted_ok|].
    exists x. split; [|done]. by apply retained_keeps.
  - by apply (retained_deny (fs_entries gfs) from_request e d r); try apply from_request_ok.
Qed.

(** No deny entry of either side lies between the entry that grants a path and the path. *)
Lemma no_deny_below_grant target e d :
  e ∈ resolved_entries_with_cwd env result_policy cwd -> can_read (resolved_access e) = true ->
  (forall e', e' ∈ resolved_entries_with_cwd env result_policy cwd ->
     starts_with target (resolved_path e') = true ->
     starts_with (resolved_path e) (resolved_path e') = true /\
     (path_eqb (resolved_path e') (resolved_path e) = true ->
      access_rank (resolved_access e') <= access_rank (resolved_access e))) ->
  d ∈ resolved_entries_with_cwd env requested cwd \/ d ∈ resolved_entries_with_cwd env granted cwd ->
  starts_with target (resolved_path d) = true ->
  starts_with (resolved_path d) (resolved_path e) = true -> resolved_access d <> Deny.
Proof.
  intros Hin Hread Hall Hd Hpd Hover Hdeny.
  destruct (result_resolves e Hin) as [(x & Hx & Hxr)|E]; [|by rewrite E in Hread].
  assert (d ∈ resolved_entries_with_cwd env result_policy cwd) as Hdin by by eapply result_denies.
  destruct (Hall d Hdin Hpd) as [Hs Hrank].
  assert (components (resolved_path d) = components (resolved_path e)) as E.
  { apply (starts_with_same_length (resolved_path d)); [apply starts_with_refl|done|].
    apply starts_with_length in Hs, Hover. lia. }
  apply path_eqb_spec in E. specialize (Hrank E). rewrite Hdeny in Hrank.
  destruct (resolved_access e); simpl in *; lia || done.
Qed.

Lemma intersection_reads target :
  can_read (access_of target (resolved_entries_with_cwd env result_policy cwd)) = true ->
  can_read (access_of target (resolved_entries_with_cwd env requested cwd)) = true /\
  can_read (access_of target (resolved_entries_with_cwd env granted cwd)) = true.
Proof.
  intros Hread. destruct (access_of_decides target (resolved_entries_with_cwd env result_policy cwd))
    as [(e & Hin & Hpe & Ha & Hall)|[E _]]; [|by rewrite E in Hread].
  rewrite <- Ha in *. destruct (result_resolves e Hin) as [(x & Hx & Hxr)|E]; [|by rewrite E in Hread].
  destruct (accepted_resolves x e Hx Hxr) as (Hgin & _ & Hcov).
  assert (normal (resolved_path e)) as Hn by by eapply (resolved_normal env granted).
  assert (forall d, d ∈ resolved_entries_with_cwd env requested cwd \/
            d ∈ resolved_entries_with_cwd env granted cwd ->
          starts_with target (resolved_path d) = true ->
          starts_with (resolved_path d) (resolved_path e) = true -> can_read (resolved_access d) = true) as Hno.
  { intros d Hd Hpd Hs. pose proof (no_deny_below_grant target e d Hin Hread Hall Hd Hpd Hs).
    by destruct (resolved_access d). }
  split.
  - rewrite resolve_access_restricted, candidate_fixed in Hcov by done. cbn [from_option] in Hcov.
    assert (can_read (access_of (resolved_path e) (resolved_entries_with_cwd env requested cwd)) = true) as Hc
      by (destruct (resolved_access e), (access_of (resolved_path e) _); done).
    destruct (access_of_decides target (resolved_entries_with_cwd env requested cwd))
      as [(r1 & Hr1 & Hp1 & <- & Hall1)|[_ Hnone]].
    + destruct (Nat.le_ge_cases (length (components (resolved_path r1))) (length (components (resolved_path e)))) as [Hl|Hl].
      * assert (starts_with (resolved_path e) (resolved_path r1) = true) as Hs by by eapply starts_with_shorter.
        assert (access_of (resolved_path e) (resolved_entries_with_cwd env requested cwd) = resolved_access r1) as <-;
          [|done].
        apply access_of_iff. left. exists r1. split_and!; try done.
        intros e' He' Hp'. apply Hall1; [done|]. by apply (starts_with_trans _ (resolved_path e)).
      * apply Hno; [by left|done|]. by apply (starts_with_shorter target).
    + destruct (access_of_decides (resolved_path e) (resolved_entries_with_cwd env requested cwd))
        as [(r0 & Hr0 & Hp0 & _ & _)|[E _]]; [|by rewrite E in Hc].
      specialize (Hnone r0 Hr0). by rewrite (starts_with_trans target (resolved_path e)) in Hnone.
  - destruct (access_of_decides target (resolved_entries_with_cwd env granted cwd))
      as [(g1 & Hg1 & Hp1 & <- & Hall1)|[_ Hnone]].
    + apply Hno; [by right|done|]. by apply Hall1.
    + specialize (Hnone e Hgin). congruence.
Qed.

End intersection.

Lemma intersect_nothing env glob rfs cwd :
  fs_entries (intersect_file_system env glob rfs fs_default cwd) = [].
Proof.
  unfold intersect_file_system. cbn [fs_entries fs_default List.filter fmap list_fmap fold_left].
  cbn [retain_constraining_deny_entries].
  assert (forall l, List.filter (fun entry => deny_entry_constrains_accepted_grant env entry [] cwd) l = []) as Hn.
  { induction l as [|x l IH]; [done|]. simpl. by rewrite IH. }
  by rewrite !Hn.
Qed.

(** ** Properties *)

(** C26: What a user grants is never read more widely than was asked for: after a request
    was intersected with a grant, a path that the result lets read is one that the
    request, taken as a policy, lets read, and one that the grant lets read; the network
    is allowed only if both allow it. *)
Theorem intersection_stays_within env glob requested granted cwd :
  env_ok env -> normal cwd ->
  (forall fs, file_system requested = Some fs -> Forall entry_ok (fs_entries fs)) ->
  (forall fs, file_system granted = Some fs -> Forall entry_ok (fs_entries fs)) ->
  let result := intersect_permission_profiles env glob requested granted cwd in
  (network_on (network result) = true ->
   network_on (network requested) = true /\ network_on (network granted) = true) /\
  (forall fs path, file_system result = Some fs ->
     can_read_path_with_cwd env (restricted (fs_entries fs)) path cwd = true ->
     exists rfs gfs, file_system requested = Some rfs /\ file_system granted = Some gfs /\
       can_read_path_with_cwd env (restricted (fs_entries rfs)) path cwd = true /\
       can_read_path_with_cwd env (restricted (fs_entries gfs)) path cwd = true).
Proof.
  intros He Hn Hr Hg result. split.
  { unfold result, intersect_permission_profiles. simpl.
    destruct (network_on (network requested)), (network_on (network granted)); done. }
  intros fs path Hfs Hread. unfold result, intersect_permission_profiles in Hfs. simpl in Hfs.
  destruct (file_system requested) as [rfs|] eqn:Er; [|done].
  destruct (file_system granted) as [gfs|] eqn:Eg; simpl in Hfs.
  - destruct (negb _); [|done]. injection Hfs as <-. exists rfs, gfs. split_and!; [done..| |].
    all: unfold can_read_path_with_cwd in *; rewrite resolve_access_restricted in * by done.
    all: destruct (resolve_candidate_path env path cwd) as [target|]; [|done]; cbn [from_option] in *.
    all: apply (intersection_reads env He cwd Hn glob rfs gfs (Hr _ eq_refl) (Hg _ eq_refl) target Hread).
  - unfold fs_is_empty in Hfs. by rewrite intersect_nothing in Hfs.
Qed.

(** Write access is not bounded by the request in the same way: a read entry of the
    request below a directory it asks to write is dropped, and the result writes there. *)
Example intersection_drops_read_narrowing :
  let requested := mkAdditional None (Some (mkFs [mkEntry (PathEntry $"/a") Write;
                                                  mkEntry (PathEntry $"/a/x") Read] None)) in
  let granted := mkAdditional None (Some (mkFs [mkEntry (PathEntry $"/a") Write] None)) in
  resolve_access_with_cwd plain_env
    (restricted [mkEntry (PathEntry $"/a") Write; mkEntry (PathEntry $"/a/x") Read]) $"/a/x/f" $"/w" = Read /\
  (fun fs => resolve_access_with_cwd plain_env (restricted (fs_entries fs)) $"/a/x/f" $"/w") <$>
    file_system (intersect_permission_profiles plain_env (fun _ => Err []) requested granted $"/w")
  = Some Write.
Proof. by vm_compute. Qed.

Lemma runtime_profile_exists e fs net :
  is_Some (from_runtime_permissions_with_enforcement e fs net).
Proof.
  unfold from_runtime_permissions_with_enforcement, from_sandbox_policy.
  destruct (kind fs) eqn:E, e; rewrite ?E; eauto.
Qed.

Lemma nonzero_to_usize d : (n ← (to_usize <$> d); nonzero n) = d.
Proof. by destruct d. Qed.

Lemma runtime_round_trip p :
  from_runtime_permissions_with_enforcement (enforcement p) (file_system_sandbox_policy p)
    (network_sandbox_policy p) = Some p.
Proof. destruct p as [[es d|] n| |n]; try done. simpl. cbn. by destruct d. Qed.

Lemma legacy_profile_policy env legacy cwd :
  exists p, profile_from_legacy_for_cwd env legacy cwd = Some p /\
    profile_to_legacy env p cwd =
    to_legacy_sandbox_policy env (from_legacy_sandbox_policy_for_cwd env legacy cwd)
      (network_from_legacy legacy) cwd.
Proof.
  destruct legacy as [|b|b|roots b t s]; try (eexists; split; [done|]; by destruct b || done).
Qed.

(** A permission profile survives being split into the two runtime policies and put
    together again (also as the effective profile without additional permissions), the
    [unreachable!] of the conversion is not reached for any policy, and a profile made
    from a legacy policy converts back to that policy, up to duplicates and the working
    directory among its roots. *)
Theorem profile_round_trips env p legacy cwd :
  from_runtime_permissions_with_enforcement (enforcement p) (fst (to_runtime_permissions p))
    (snd (to_runtime_permissions p)) = Some p /\
  effective_permission_profile p None = Some p /\
  (forall e fs net, is_Some (from_runtime_permissions_with_enforcement e fs net)) /\
  (q ← profile_from_legacy_for_cwd env legacy cwd; Some (profile_to_legacy env q cwd)) =
  Some (Ok match legacy with
           | WorkspaceWrite roots network_access t s =>
               WorkspaceWrite
                 (dedup_absolute_paths env (other_roots (ok (from_absolute_path env cwd)) roots) false)
                 network_access t s
           | _ => legacy
           end).
Proof.
  split_and!.
  - apply runtime_round_trip.
  - apply runtime_round_trip.
  - apply runtime_profile_exists.
  - destruct (legacy_profile_policy env legacy cwd) as (q & -> & E). simpl.
    by rewrite E, legacy_policy_round_trip.
Qed.

(** In automatic mode a command runs without the platform's sandbox only when there is
    nothing to enforce: unless the file system is sandboxed from outside, no network
    requirement is managed, the network is enabled, and every path is writable. *)
Theorem unsandboxed_only_if_unrestricted {T} (platform : T) env fs net managed cwd c path :
  env_ok env -> policy_ok fs -> from_absolute_path env cwd = Ok c -> is_dir env $"/tmp" = true ->
  select_initial (Some platform) fs net Auto managed = None ->
  managed = false /\
  (kind fs = ExternalSandbox \/
   (network_is_enabled net = true /\ can_write_path_with_cwd env fs path cwd = true)).
Proof.
  intros He Hp Hc Htmp. unfold select_initial, should_require_platform_sandbox.
  destruct managed; [done|]. destruct (network_is_enabled net) eqn:En; simpl.
  - intros H. split; [done|]. right. split; [done|]. eapply full_disk_write_covers; [done..|].
    unfold has_full_disk_write_access. destruct (kind fs) eqn:Ek; [|done..].
    unfold has_full_disk_write_access in H. rewrite Ek in H. by destruct (_ && _).
  - destruct (kind fs) eqn:Ek; [done|done|]. by auto.
Qed.

(** ** Instances of the properties *)

Definition requested_sample : AdditionalPermissionProfile :=
  mkAdditional (Some (mkNet (Some true)))
    (Some (mkFs [mkEntry (PathEntry $"/a") Write; mkEntry (PathEntry $"/a/key") Deny] None)).
Definition granted_sample : AdditionalPermissionProfile :=
  mkAdditional None (Some (mkFs [mkEntry (PathEntry $"/a") Read; mkEntry (PathEntry $"/b") Write] None)).

Lemma intersection_stays_within_witness :
  exists fs, file_system (intersect_permission_profiles plain_env (fun _ => Err []) requested_sample
                            granted_sample $"/w") = Some fs /\
    can_read_path_with_cwd plain_env (restricted (fs_entries fs)) $"/a/f" $"/w" = true /\
    exists rfs gfs, file_system requested_sample = Some rfs /\ file_system granted_sample = Some gfs /\
      can_read_path_with_cwd plain_env (restricted (fs_entries rfs)) $"/a/f" $"/w" = true /\
      can_read_path_with_cwd plain_env (restricted (fs_entries gfs)) $"/a/f" $"/w" = true.
Proof.
  exists (mkFs [mkEntry (PathEntry $"/a") Read; mkEntry (PathEntry $"/a/key") Deny] None).
  split; [vm_compute; reflexivity|]. split; [vm_compute; reflexivity|].
  eapply (intersection_stays_within plain_env (fun _ => Err []) requested_sample granted_sample $"/w");
    [apply plain_env_ok|by apply normal_check| | | |].
  - intros fs [= <-]. check_policy.
  - intros fs [= <-]. check_policy.
  - vm_compute. reflexivity.
  - vm_compute. reflexivity.
Defined.

Lemma unsandboxed_only_if_unrestricted_witness :
  can_write_path_with_cwd plain_env overridden_policy $"/x/y" $"/w" = true.
Proof.
  destruct (unsandboxed_only_if_unrestricted tt plain_env overridden_policy NetEnabled false $"/w" $"/w" $"/x/y")
    as [_ [H|[_ H]]]; [apply plain_env_ok|check_policy|reflexivity|reflexivity|reflexivity|done|exact H].
Defined.

End Profile.
