(* ===== verification/Utf8.v ===== *)
(** UTF-8: the encoding of strings ([String::into_bytes]) and the validation of
    [std::str::from_utf8], with the error it reports: the length of the valid
    prefix and, unless the input merely ends inside a character, the length of the
    invalid sequence.  Components that read bytes ([ExecutorFileSystem],
    [Utf8StreamParser]) branch on that error. *)
From Stdlib Require Import Lia ZifyN.
From S2P Require Import Prelude.

Module Utf8.

Abbreviation bytes := (list N).

Record Utf8Error := mkUtf8Error { valid_up_to : nat; error_len : option nat }.
#[global] Instance utf8error_eq_dec : EqDecision Utf8Error.
Proof. solve_decision. Defined.

Definition scalar (c : char) : Prop := (c < 55296 \/ 57344 <= c < 1114112)%N.
#[global] Instance scalar_dec c : Decision (scalar c).
Proof. unfold scalar. apply _. Defined.

Definition encode_char (c : char) : bytes :=
  if (c <? 128)%N then [c]
  else if (c <? 2048)%N then [192 + c / 64; 128 + c mod 64]%N
  else if (c <? 65536)%N then [224 + c / 4096; 128 + (c / 64) mod 64; 128 + c mod 64]%N
  else [240 + c / 262144; 128 + (c / 4096) mod 64; 128 + (c / 64) mod 64; 128 + c mod 64]%N.
Definition encode (s : str) : bytes := concat (encode_char <$> s).

Definition between (lo b hi : N) : bool := ((lo <=? b) && (b <=? hi))%N.
Definition is_cont (b : N) : bool := between 128 b 191.

(** [UTF8_CHAR_WIDTH]. *)
Definition char_width (b : N) : nat :=
  if (b <? 128)%N then 1
  else if between 194 b 223 then 2
  else if between 224 b 239 then 3
  else if between 240 b 244 then 4
  else 0.
(** The second byte of a three or four byte sequence: no overlong forms, no
    surrogates, nothing above the last scalar value. *)
Definition second_of_three (b0 b1 : N) : bool :=
  if (b0 =? 224)%N then between 160 b1 191
  else if (b0 =? 237)%N then between 128 b1 159
  else is_cont b1.
Definition second_of_four (b0 b1 : N) : bool :=
  if (b0 =? 240)%N then between 144 b1 191
  else if (b0 =? 244)%N then between 128 b1 143
  else is_cont b1.

(** The valid prefix, decoded, and the error that ended it, if any. *)
Fixpoint decode (bs : bytes) (pos : nat) : str * option Utf8Error :=
  let bad n := ([], Some (mkUtf8Error pos (Some n))) in
  let incomplete := ([], Some (mkUtf8Error pos None)) in
  let keep c r := (c :: fst r, snd r) in
  match bs with
  | [] => ([], None)
  | b0 :: r0 =>
      match char_width b0 with
      | 1 => keep b0 (decode r0 (pos + 1))
      | 2 =>
          match r0 with
          | [] => incomplete
          | b1 :: r1 =>
              if negb (is_cont b1) then bad 1
              else keep ((b0 - 192) * 64 + (b1 - 128))%N (decode r1 (pos + 2))
          end
      | 3 =>
          match r0 with
          | [] => incomplete
          | b1 :: r1 =>
              if negb (second_of_three b0 b1) then bad 1
              else match r1 with
                   | [] => incomplete
                   | b2 :: r2 =>
                       if negb (is_cont b2) then bad 2
                       else keep ((b0 - 224) * 4096 + (b1 - 128) * 64 + (b2 - 128))%N
                                 (decode r2 (pos + 3))
                   end
          end
      | 4 =>
          match r0 with
          | [] => incomplete
          | b1 :: r1 =>
              if negb (second_of_four b0 b1) then bad 1
              else match r1 with
                   | [] => incomplete
                   | b2 :: r2 =>
                       if negb (is_cont b2) then bad 2
                       else match r2 with
                            | [] => incomplete
                            | b3 :: r3 =>
                                if negb (is_cont b3) then bad 3
                                else keep ((b0 - 240) * 262144 + (b1 - 128) * 4096
                                           + (b2 - 128) * 64 + (b3 - 128))%N
                                          (decode r3 (pos + 4))
                            end
                   end
          end
      | _ => bad 1
      end
  end.

Definition from_utf8 (bs : bytes) : result Utf8Error str :=
  match decode bs 0 with
  | (s, None) => Ok s
  | (_, Some e) => Err e
  end.

(** ** Round trip *)

Ltac byte_lia :=
  unfold second_of_three, second_of_four, char_width; unfold is_cont; unfold between;
  repeat match goal with
  | |- context [(?a <? ?b)%N] => destruct (N.ltb_spec a b)
  | |- context [(?a <=? ?b)%N] => destruct (N.leb_spec a b)
  | |- context [(?a =? ?b)%N] => destruct (N.eqb_spec a b)
  end; cbn [negb andb]; try reflexivity; try (exfalso; Z.to_euclidean_division_equations; lia).

Lemma decode_encode_char c rest pos :
  scalar c ->
  decode (encode_char c ++ rest) pos =
  (c :: fst (decode rest (pos + length (encode_char c))),
   snd (decode rest (pos + length (encode_char c)))).
Proof.
  intros Hs. unfold encode_char.
  destruct (N.ltb_spec c 128).
  { cbn [app decode length]. assert (char_width c = 1) as -> by (unfold char_width; byte_lia). done. }
  destruct (N.ltb_spec c 2048).
  { cbn [app decode length]. set (q := (c / 64)%N). set (r := (c mod 64)%N).
    assert (c = q * 64 + r /\ r < 64)%N as [Hc Hr]
      by (subst q r; Z.to_euclidean_division_equations; lia).
    clearbody q r.
    assert (char_width (192 + q) = 2) as -> by (unfold char_width; byte_lia).
    assert (is_cont (128 + r) = true) as -> by byte_lia. cbn [negb].
    replace ((192 + q - 192) * 64 + (128 + r - 128))%N with c by lia. done. }
  destruct (N.ltb_spec c 65536).
  { cbn [app decode length].
    set (q := (c / 4096)%N). set (m := ((c / 64) mod 64)%N). set (r := (c mod 64)%N).
    assert (c = q * 4096 + m * 64 + r /\ r < 64 /\ m < 64)%N as (Hc & Hr & Hm)
      by (subst q m r; Z.to_euclidean_division_equations; lia).
    clearbody q m r. unfold scalar in Hs.
    assert (char_width (224 + q) = 3) as -> by (unfold char_width; byte_lia).
    assert (second_of_three (224 + q) (128 + m) = true) as -> by byte_lia.
    assert (is_cont (128 + r) = true) as -> by byte_lia. cbn [negb].
    replace ((224 + q - 224) * 4096 + (128 + m - 128) * 64 + (128 + r - 128))%N with c by lia.
    done. }
  cbn [app decode length].
  set (q := (c / 262144)%N). set (l := ((c / 4096) mod 64)%N). set (m := ((c / 64) mod 64)%N).
  set (r := (c mod 64)%N).
  assert (c = q * 262144 + l * 4096 + m * 64 + r /\ r < 64 /\ m < 64 /\ l < 64)%N
    as (Hc & Hr & Hm & Hl) by (subst q l m r; Z.to_euclidean_division_equations; lia).
  clearbody q l m r. unfold scalar in Hs.
  assert (char_width (240 + q) = 4) as -> by (unfold char_width; byte_lia).
  assert (second_of_four (240 + q) (128 + l) = true) as -> by byte_lia.
  assert (is_cont (128 + m) = true) as -> by byte_lia.
  assert (is_cont (128 + r) = true) as -> by byte_lia. cbn [negb].
  replace ((240 + q - 240) * 262144 + (128 + l - 128) * 4096 + (128 + m - 128) * 64
           + (128 + r - 128))%N with c by lia.
  done.
Qed.

Lemma decode_encode s rest pos :
  Forall scalar s ->
  decode (encode s ++ rest) pos =
  (s ++ fst (decode rest (pos + length (encode s))), snd (decode rest (pos + length (encode s)))).
Proof.
  intros Hs. revert pos; induction Hs as [|c s Hc Hs IH]; intros pos.
  - cbn. rewrite Nat.add_0_r. by destruct (decode rest pos).
  - unfold encode. rewrite fmap_cons. cbn [concat]. fold (encode s).
    rewrite <- app_assoc, decode_encode_char, IH by done. rewrite length_app. simpl.
    by rewrite !Nat.add_assoc.
Qed.

Lemma from_utf8_encode s : Forall scalar s -> from_utf8 (encode s) = Ok s.
Proof.
  intros Hs. unfold from_utf8. pose proof (decode_encode s [] 0 Hs) as H.
  rewrite app_nil_r in H. rewrite H. cbn. by rewrite app_nil_r.
Qed.

(** ** Decoding in pieces *)

Definition shift (k : nat) (e : option Utf8Error) : option Utf8Error :=
  (fun e => mkUtf8Error (k + valid_up_to e) (error_len e)) <$> e.

(** A byte list decodes character by character: one constructor per way the
    first character can read. *)
Inductive decodes : bytes -> str -> option Utf8Error -> Prop :=
| dec_nil : decodes [] [] None
| dec_char bs rest c s e :
    (forall more pos, decode (bs ++ more) pos =
       (c :: fst (decode more (pos + length bs)), snd (decode more (pos + length bs)))) ->
    scalar c -> bs <> [] -> decodes rest s e -> decodes (bs ++ rest) (c :: s) (shift (length bs) e)
| dec_bad bs n :
    (forall more pos, decode (bs ++ more) pos = ([], Some (mkUtf8Error pos (Some n)))) ->
    decodes bs [] (Some (mkUtf8Error 0 (Some n)))
| dec_incomplete bs :
    bs <> [] -> (forall pos, decode bs pos = ([], Some (mkUtf8Error pos None))) ->
    decodes bs [] (Some (mkUtf8Error 0 None)).

Lemma shift_comp a b e : shift a (shift b e) = shift (a + b) e.
Proof. destruct e as [[v l]|]; [|done]. unfold shift. cbn. do 2 f_equal. lia. Qed.

Lemma decodes_decode bs s e pos : decodes bs s e -> decode bs pos = (s, shift pos e).
Proof.
  intros H. revert pos; induction H as [|bs rest c s e Hd Hsc Hne H IH|bs n Hd|bs Hne Hd]; intros pos.
  - done.
  - rewrite Hd, IH. cbn. f_equal. by rewrite shift_comp.
  - rewrite <- (app_nil_r bs), Hd. cbn. by rewrite Nat.add_0_r.
  - rewrite Hd. cbn. by rewrite Nat.add_0_r.
Qed.

Ltac decode_head :=
  intros; cbn [decode app]; repeat match goal with
  | H : ?x = _ |- context [?x] => rewrite H
  end; cbn [negb length]; done.

Ltac scalar_lia :=
  unfold scalar; unfold char_width, second_of_three, second_of_four, is_cont, between in *;
  repeat match goal with
  | H : context [if ?b then _ else _] |- _ => destruct b eqn:?
  | H : _ && _ = true |- _ => apply andb_true_iff in H as [? ?]
  | H : (_ <=? _)%N = true |- _ => apply N.leb_le in H
  | H : (_ =? _)%N = true |- _ => apply N.eqb_eq in H
  | H : (_ =? _)%N = false |- _ => apply N.eqb_neq in H
  | H : (_ <? _)%N = true |- _ => apply N.ltb_lt in H
  | H : (_ <? _)%N = false |- _ => apply N.ltb_ge in H
  end; try discriminate; lia.

Lemma decodes_total bs : exists s e, decodes bs s e.
Proof.
  induction bs as [bs IH] using (induction_ltof1 _ (@length N)). unfold ltof in IH.
  assert (forall h c rest, scalar c -> h <> [] -> bs = h ++ rest ->
    (forall more pos, decode (h ++ more) pos =
       (c :: fst (decode more (pos + length h)), snd (decode more (pos + length h)))) ->
    exists s e, decodes bs s e) as Hchar.
  { intros h c rest Hc Hh -> Hd. destruct (IH rest) as (s & e & Hr).
    - rewrite length_app. destruct h; simpl; [done|lia].
    - exists (c :: s), (shift (length h) e). by apply dec_char. }
  assert (forall n, (forall more pos, decode (bs ++ more) pos = ([], Some (mkUtf8Error pos (Some n)))) ->
    exists s e, decodes bs s e) as Hbad by (intros n H; eexists _, _; by eapply dec_bad).
  assert (bs <> [] -> (forall pos, decode bs pos = ([], Some (mkUtf8Error pos None))) ->
    exists s e, decodes bs s e) as Hinc by (intros H1 H2; eexists _, _; by eapply dec_incomplete).
  destruct bs as [|b0 r0]; [eexists _, _; apply dec_nil|].
  destruct (char_width b0) as [|[|[|[|[|w]]]]] eqn:Ew.
  - apply (Hbad 1). decode_head.
  - apply (Hchar [b0] b0 r0); [scalar_lia|done..|]. decode_head.
  - destruct r0 as [|b1 r1]; [apply Hinc; [done|decode_head]|].
    destruct (is_cont b1) eqn:E1; [|apply (Hbad 1); decode_head].
    eapply (Hchar [b0; b1]); [|done|reflexivity|decode_head]. scalar_lia.
  - destruct r0 as [|b1 r1]; [apply Hinc; [done|decode_head]|].
    destruct (second_of_three b0 b1) eqn:E1; [|apply (Hbad 1); decode_head].
    destruct r1 as [|b2 r2]; [apply Hinc; [done|decode_head]|].
    destruct (is_cont b2) eqn:E2; [|apply (Hbad 2); decode_head].
    eapply (Hchar [b0; b1; b2]); [|done|reflexivity|decode_head]. scalar_lia.
  - destruct r0 as [|b1 r1]; [apply Hinc; [done|decode_head]|].
    destruct (second_of_four b0 b1) eqn:E1; [|apply (Hbad 1); decode_head].
    destruct r1 as [|b2 r2]; [apply Hinc; [done|decode_head]|].
    destruct (is_cont b2) eqn:E2; [|apply (Hbad 2); decode_head].
    destruct r2 as [|b3 r3]; [apply Hinc; [done|decode_head]|].
    destruct (is_cont b3) eqn:E3; [|apply (Hbad 3); decode_head].
    eapply (Hchar [b0; b1; b2; b3]); [|done|reflexivity|decode_head]. scalar_lia.
  - exfalso. unfold char_width in Ew. repeat case_match; lia.
Qed.

(** Decoding continues where the valid prefix ended, unless it met an invalid
    sequence, which no further byte can repair. *)
Lemma decode_app bs more s e pos :
  decodes bs s e ->
  decode (bs ++ more) pos =
  match e with
  | None => (s ++ fst (decode more (pos + length bs)), snd (decode more (pos + length bs)))
  | Some (mkUtf8Error v (Some n)) => (s, Some (mkUtf8Error (pos + v) (Some n)))
  | Some (mkUtf8Error v None) =>
      (s ++ fst (decode (drop v bs ++ more) (pos + v)), snd (decode (drop v bs ++ more) (pos + v)))
  end.
Proof.
  intros H. revert pos; induction H as [|bs rest c s e Hd Hsc Hne H IH|bs n Hd|bs Hne Hd]; intros pos.
  - cbn. rewrite Nat.add_0_r. by destruct (decode more pos).
  - rewrite <- app_assoc, Hd, IH. destruct e as [[v [n|]]|]; cbn.
    + by rewrite Nat.add_assoc.
    + rewrite drop_app, (drop_ge bs) by lia. replace (length bs + v - length bs) with v by lia.
      simpl. by rewrite Nat.add_assoc.
    + by rewrite length_app, Nat.add_assoc.
  - rewrite Hd. by rewrite Nat.add_0_r.
  - cbn. rewrite drop_0, Nat.add_0_r. by destruct (decode (bs ++ more) pos).
Qed.

(** The prefix before an error is valid, and what follows it starts the error. *)
Lemma decodes_prefix bs s v l :
  decodes bs s (Some (mkUtf8Error v l)) ->
  v <= length bs /\ decodes (take v bs) s None /\ decodes (drop v bs) [] (Some (mkUtf8Error 0 l)).
Proof.
  intros H. remember (Some (mkUtf8Error v l)) as e eqn:He. revert v He.
  induction H as [|bs rest c s e Hd Hsc Hne H IH|bs n Hd|bs Hne Hd]; intros v He; simplify_eq.
  - destruct e as [[v' l']|]; [|done]. cbn in He. simplify_eq.
    destruct (IH v' eq_refl) as (? & Ht & Hr). rewrite length_app. split; [lia|].
    rewrite take_app, drop_app. replace (length bs + v' - length bs) with v' by lia.
    rewrite (take_ge bs), (drop_ge bs) by lia. split; [|done].
    change None with (shift (length bs) None). by apply dec_char.
  - split; [lia|]. rewrite drop_0. split; [constructor|by constructor].
  - split; [lia|]. rewrite drop_0. split; [constructor|by constructor].
Qed.

Lemma decodes_scalar bs s e : decodes bs s e -> Forall scalar s.
Proof. induction 1; by constructor. Qed.

Lemma from_utf8_decodes bs s e :
  decodes bs s e -> from_utf8 bs = match e with None => Ok s | Some err => Err err end.
Proof.
  intros H. unfold from_utf8. rewrite (decodes_decode _ _ _ 0 H). by destruct e as [[]|].
Qed.

Lemma from_utf8_scalar bs s : from_utf8 bs = Ok s -> Forall scalar s.
Proof.
  destruct (decodes_total bs) as (s' & e & H). rewrite (from_utf8_decodes _ _ _ H).
  destruct e; [done|]. intros [= <-]. by eapply decodes_scalar.
Qed.

End Utf8.
