(* ===== verification/FileSystem.v ===== *)
(** The file system interface of [codex-rs/file-system/src/lib.rs]: the operations
    of [ExecutorFileSystem] the patch engine calls, as a class over the state of the
    file system, the laws it relies on, and an in-memory instance of both.

    An instance stands for a file system together with the sandbox context that is
    passed unchanged to every call.  The laws speak about the text view of a file
    system in which distinct normalised paths name distinct files (no links). *)
From stdpp Require Import gmap.
From S2P Require Import Prelude Utf8 Paths.

Module Fs.

Record CreateDirectoryOptions := mkCreateDirectoryOptions { create_recursive : bool }.
Record RemoveOptions := mkRemoveOptions { remove_recursive : bool; force : bool }.
Record FileMetadata := mkFileMetadata {
  is_directory : bool;
  is_file : bool;
  is_symlink : bool;
  created_at_ms : Z;
  modified_at_ms : Z
}.

Class ExecutorFileSystem (FileSys : Type) := {
  read_file : FileSys -> str -> result Io.Error Utf8.bytes;
  get_metadata : FileSys -> str -> result Io.Error FileMetadata;
  write_file : FileSys -> str -> Utf8.bytes -> FileSys * result Io.Error unit;
  create_directory : FileSys -> str -> CreateDirectoryOptions -> FileSys * result Io.Error unit;
  remove : FileSys -> str -> RemoveOptions -> FileSys * result Io.Error unit
}.

Definition msg_utf8 (e : Utf8.Utf8Error) : str :=
  match Utf8.error_len e with
  | Some n => $"invalid utf-8 sequence of " ++ Str.show_nat n ++ $" bytes from index "
              ++ Str.show_nat (Utf8.valid_up_to e)
  | None => $"incomplete utf-8 byte sequence from index " ++ Str.show_nat (Utf8.valid_up_to e)
  end.

(** The trait's default method. *)
Definition read_file_text `{ExecutorFileSystem FileSys} (st : FileSys) (path : str) : result Io.Error str :=
  bs ← read_file st path;
  map_err (fun err => Io.new Io.InvalidData (msg_utf8 err)) (Utf8.from_utf8 bs).

(** ** Views *)

(** What reading as text shows of a file system. *)
Definition view : Type := str -> option str.
Definition text `{ExecutorFileSystem FileSys} (st : FileSys) : view := fun path => ok (read_file_text st path).
Definition set (path : str) (x : option str) (v : view) : view :=
  fun q => if decide (q = path) then x else v q.

#[global] Instance view_equiv : Equiv view := pointwise_relation str (=).
#[global] Instance view_equivalence : Equivalence (≡@{view}).
Proof. unfold equiv, view_equiv. apply _. Qed.
#[global] Instance set_proper path x : Proper ((≡) ==> (≡)) (set path x).
Proof. intros v w H q. unfold set. case_decide; [done|apply H]. Qed.

Lemma set_same path x v : set path x v path = x.
Proof. unfold set. by rewrite decide_True. Qed.
Lemma set_other path x v q : q <> path -> set path x v q = v q.
Proof. intros. unfold set. by rewrite decide_False. Qed.
Lemma set_set path x y v : set path x (set path y v) ≡ set path x v.
Proof. intros q. unfold set. by case_decide. Qed.
Lemma set_id path v : set path (v path) v ≡ v.
Proof. intros q. unfold set. by case_decide; subst. Qed.

(** ** Laws *)

Class FileSystemLaws (FileSys : Type) `{ExecutorFileSystem FileSys} := {
  write_ok st path s st' :
    Forall Utf8.scalar s -> write_file st path (Utf8.encode s) = (st', Ok tt) ->
    text st' path = Some s;
  write_other st path bs st' r q :
    write_file st path bs = (st', r) -> q <> path -> text st' q = text st q;
  create_directory_text st path options st' r :
    create_directory st path options = (st', r) -> text st' ≡ text st;
  remove_ok st path options st' :
    remove st path options = (st', Ok tt) -> text st' path = None;
  remove_other st path st' r q f :
    remove st path (mkRemoveOptions false f) = (st', r) -> q <> path -> text st' q = text st q;
  remove_err st path options st' e :
    remove st path options = (st', Err e) -> text st' path = None \/ text st' path = text st path
}.

Section laws.
Context `{FileSystemLaws FileSys}.

Lemma write_text st path s st' :
  Forall Utf8.scalar s -> write_file st path (Utf8.encode s) = (st', Ok tt) ->
  text st' ≡ set path (Some s) (text st).
Proof.
  intros Hs Hw q. unfold set. case_decide as Hq; [subst; by eapply write_ok|].
  by eapply write_other.
Qed.

Lemma remove_text st path f st' :
  remove st path (mkRemoveOptions false f) = (st', Ok tt) -> text st' ≡ set path None (text st).
Proof.
  intros Hr q. unfold set. case_decide as Hq; [subst; by eapply remove_ok|].
  by eapply remove_other.
Qed.

Lemma text_scalar st path s : text st path = Some s -> Forall Utf8.scalar s.
Proof.
  unfold text, read_file_text. destruct (read_file st path) as [bs|]; simpl; [|done].
  destruct (Utf8.from_utf8 bs) eqn:E; simpl; [|done]. intros [= <-]. by eapply Utf8.from_utf8_scalar.
Qed.

Lemma read_text st path : ok (read_file_text st path) = text st path.
Proof. done. Qed.
End laws.

(** ** A file system in memory *)

Record Memory := mkMemory { files : gmap str Utf8.bytes; directories : gset str }.

Definition not_found : Io.Error := Io.new Io.NotFound $"No such file or directory".
Definition metadata_of (dir : bool) : FileMetadata := mkFileMetadata dir (negb dir) false 0 0.

(** A path and all its ancestors; each parent is shorter than its path. *)
Fixpoint ancestors (fuel : nat) (path : str) : list str :=
  path :: match fuel, Path.parent path with
          | S fuel', Some p => ancestors fuel' p
          | _, _ => []
          end.

#[global] Instance memory_file_system : ExecutorFileSystem Memory := {
  read_file st path := ok_or (files st !! path)
    (if decide (path ∈ directories st) then Io.new Io.IsADirectory $"Is a directory"
     else not_found);
  get_metadata st path :=
    if decide (path ∈ directories st) then Ok (metadata_of true)
    else match files st !! path with Some _ => Ok (metadata_of false) | None => Err not_found end;
  write_file st path bs :=
    if decide (path ∈ directories st) then (st, Err (Io.new Io.IsADirectory $"Is a directory"))
    else match Path.parent path with
         | None => (st, Err not_found)
         | Some p =>
             if decide (p ∈ directories st) then
               (mkMemory (<[path := bs]> (files st)) (directories st), Ok tt)
             else (st, Err not_found)
         end;
  create_directory st path options :=
    (mkMemory (files st)
       (list_to_set (if create_recursive options then ancestors (length path) path else [path])
        ∪ directories st), Ok tt);
  remove st path options :=
    match files st !! path with
    | Some _ => (mkMemory (delete path (files st)) (directories st), Ok tt)
    | None => (st, Err not_found)
    end
}.

Lemma memory_text_files (st st' : Memory) q :
  files st !! q = files st' !! q -> text st q = text st' q.
Proof.
  intros E. unfold text, read_file_text. simpl. rewrite E. by destruct (files st' !! q).
Qed.

#[global] Instance memory_laws : FileSystemLaws Memory.
Proof.
  split; simpl.
  - intros st path s st' Hs Hw. case_all_in Hw. unfold text, read_file_text. simpl.
    rewrite lookup_insert_eq. simpl. by rewrite Utf8.from_utf8_encode.
  - intros st path bs st' r q Hw Hq. apply memory_text_files. case_all_in Hw.
    by rewrite lookup_insert_ne.
  - intros st path options st' r [= <- _] q. by apply memory_text_files.
  - intros st path options st' Hr. case_all_in Hr. unfold text, read_file_text. simpl.
    by rewrite lookup_delete_eq.
  - intros st path st' r q f Hr Hq. apply memory_text_files. case_all_in Hr.
    by rewrite lookup_delete_ne.
  - intros st path options st' e Hr. case_all_in Hr. by right.
Qed.

End Fs.
