(* ===== verification/Replacements.v ===== *)
(** Turning the chunks of an Update File hunk into new file contents:
    [compute_replacements], [apply_replacements] and the text part of
    [derive_new_contents_from_chunks] of [codex-rs/apply-patch/src/lib.rs]. *)
From Stdlib Require Import Sorting.Sorted.
From S2P Require Import Prelude SeekSequence PatchParser.
Import Patch.

Module Replace.

(** [(start_index, old_len, new_lines)]. *)
Definition replacement : Type := nat * nat * list str.
Definition start_of (r : replacement) : nat := r.1.1.
Definition old_len (r : replacement) : nat := r.1.2.
Definition new_segment (r : replacement) : list str := r.2.
Definition end_of (r : replacement) : nat := start_of r + old_len r.

(** [last().is_some_and(String::is_empty)]. *)
Definition ends_with_empty (lines : list str) : bool := from_option Str.is_empty false (last lines).
(** [&l[..l.len() - 1]]. *)
Definition pop_last (lines : list str) : list str := take (length lines - 1) lines.

Definition msg_context (ctx path : str) : str :=
  $"Failed to find context '" ++ ctx ++ $"' in " ++ path.
Definition msg_lines (path : str) (old : list str) : str :=
  $"Failed to find expected lines in " ++ path ++ $":" ++ [newline] ++ Str.join [newline] old.

(** The search for a chunk that has old lines: the replacement, or nothing. *)
Definition locate (original_lines : list str) (line_index : nat) (chunk : UpdateFileChunk)
    : option replacement :=
  let pattern := old_lines chunk in
  let new_slice := new_lines chunk in
  let eof := is_end_of_file chunk in
  match Seek.seek_sequence original_lines pattern line_index eof with
  | Some start_idx => Some (start_idx, length pattern, new_slice)
  | None =>
      if ends_with_empty pattern then
        let pattern := pop_last pattern in
        let new_slice := if ends_with_empty new_slice then pop_last new_slice else new_slice in
        start_idx ← Seek.seek_sequence original_lines pattern line_index eof;
        Some (start_idx, length pattern, new_slice)
      else None
  end.

(** The chunk loop, before the sort. *)
Fixpoint chunk_replacements (original_lines : list str) (path : str) (line_index : nat)
    (chunks : list UpdateFileChunk) : result str (list replacement) :=
  match chunks with
  | [] => Ok []
  | chunk :: chunks' =>
      line_index ←
        match change_context chunk with
        | None => Ok line_index
        | Some ctx_line =>
            match Seek.seek_sequence original_lines [ctx_line] line_index false with
            | Some idx => Ok (idx + 1)
            | None => Err (msg_context ctx_line path)
            end
        end;
      match old_lines chunk with
      | [] =>
          let insertion_idx :=
            if ends_with_empty original_lines then length original_lines - 1
            else length original_lines in
          rs ← chunk_replacements original_lines path line_index chunks';
          Ok ((insertion_idx, 0, new_lines chunk) :: rs)
      | _ =>
          match locate original_lines line_index chunk with
          | Some r =>
              rs ← chunk_replacements original_lines path (end_of r) chunks';
              Ok (r :: rs)
          | None => Err (msg_lines path (old_lines chunk))
          end
      end
  end.

(** [sort_by_key] is stable: an element goes before those with an equal key that
    come after it in the list. *)
Fixpoint insert_by_start (r : replacement) (rs : list replacement) : list replacement :=
  match rs with
  | [] => [r]
  | r' :: rs' => if start_of r <=? start_of r' then r :: rs else r' :: insert_by_start r rs'
  end.
Definition sort_by_start (rs : list replacement) : list replacement :=
  foldr insert_by_start [] rs.

(** The error is the message of [ApplyPatchError::ComputeReplacements]. *)
Definition compute_replacements (original_lines : list str) (path : str)
    (chunks : list UpdateFileChunk) : result str (list replacement) :=
  rs ← chunk_replacements original_lines path 0 chunks; Ok (sort_by_start rs).

(** [Vec::remove] under the guard of the source, [n] times. *)
Fixpoint remove_lines (n i : nat) (lines : list str) : list str :=
  match n with
  | 0 => lines
  | S n' => remove_lines n' i (if i <? length lines then delete i lines else lines)
  end.

(** [Vec::insert], which panics beyond the end: [None]. *)
Definition vec_insert (i : nat) (x : str) (lines : list str) : option (list str) :=
  if i <=? length lines then Some (take i lines ++ x :: drop i lines) else None.
Fixpoint insert_lines (i : nat) (segment lines : list str) : option (list str) :=
  match segment with
  | [] => Some lines
  | x :: segment' => lines ← vec_insert i x lines; insert_lines (S i) segment' lines
  end.

(** The loop of [apply_replacements] over the replacements in reverse. *)
Definition apply_one (r : replacement) (lines : list str) : option (list str) :=
  insert_lines (start_of r) (new_segment r) (remove_lines (old_len r) (start_of r) lines).
Fixpoint apply_replacements (lines : list str) (replacements : list replacement)
    : option (list str) :=
  match replacements with
  | [] => Some lines
  | r :: rs => lines ← apply_replacements lines rs; apply_one r lines
  end.

(** [derive_new_contents_from_chunks] on the text it has read: [None] is a
    panic, the error the message of [ComputeReplacements]. *)
Definition split_contents (contents : str) : list str :=
  let lines := Str.split newline contents in
  if ends_with_empty lines then pop_last lines else lines.
Definition join_contents (new_lines : list str) : str :=
  Str.join [newline] (if ends_with_empty new_lines then new_lines else new_lines ++ [[]]).
Definition new_contents_from_chunks (original_contents path : str)
    (chunks : list UpdateFileChunk) : option (result str str) :=
  let original_lines := split_contents original_contents in
  match compute_replacements original_lines path chunks with
  | Err message => Some (Err message)
  | Ok replacements =>
      new_lines ← apply_replacements original_lines replacements;
      Some (Ok (join_contents new_lines))
  end.

(** ** Specification: splicing from left to right *)

(** [chain n pos rs]: the regions lie in order and apart, between [pos] and [n]. *)
Fixpoint chain (n pos : nat) (rs : list replacement) : Prop :=
  match rs with
  | [] => pos <= n
  | r :: rs' => pos <= start_of r /\ chain n (end_of r) rs'
  end.

(** Copies the lines before each region and puts its new segment in its place. *)
Fixpoint splice (lines : list str) (pos : nat) (rs : list replacement) : list str :=
  match rs with
  | [] => drop pos lines
  | r :: rs' =>
      take (start_of r - pos) (drop pos lines) ++ new_segment r ++ splice lines (end_of r) rs'
  end.

(** ** Lemmas: one replacement *)

Lemma remove_lines_spec n i lines :
  i <= length lines -> remove_lines n i lines = take i lines ++ drop (i + n) lines.
Proof.
  revert lines; induction n as [|n IH]; intros lines Hi; simpl.
  - by rewrite Nat.add_0_r, take_drop.
  - destruct (Nat.ltb_spec i (length lines)).
    + rewrite delete_take_drop, IH by (rewrite length_app, length_take, length_drop; lia).
      rewrite take_app_length' by (rewrite length_take; lia). f_equal.
      rewrite drop_app_ge by (rewrite length_take; lia). rewrite length_take, drop_drop.
      f_equal. lia.
    + rewrite IH by done. f_equal. by rewrite !drop_ge by lia.
Qed.

Lemma insert_lines_spec i segment lines :
  i <= length lines -> insert_lines i segment lines = Some (take i lines ++ segment ++ drop i lines).
Proof.
  revert i lines; induction segment as [|x segment IH]; intros i lines Hi; simpl.
  - by rewrite take_drop.
  - unfold vec_insert. rewrite (proj2 (Nat.leb_le _ _) Hi). simpl.
    rewrite IH by (rewrite length_app, length_take; simpl; rewrite length_drop; lia).
    f_equal. replace (take i lines ++ x :: drop i lines)
      with ((take i lines ++ [x]) ++ drop i lines) by (by rewrite <- app_assoc).
    rewrite take_app_length' by (rewrite length_app, length_take; simpl; lia).
    rewrite drop_app_length' by (rewrite length_app, length_take; simpl; lia).
    by rewrite <- app_assoc.
Qed.

Lemma apply_one_spec r lines :
  start_of r <= length lines ->
  apply_one r lines =
  Some (take (start_of r) lines ++ new_segment r ++ drop (end_of r) lines).
Proof.
  intros H. unfold apply_one. rewrite remove_lines_spec by done.
  rewrite insert_lines_spec by (rewrite length_app, length_take; lia).
  rewrite take_app_length', drop_app_length' by (rewrite length_take; lia). done.
Qed.

(** ** Lemmas: no panic *)

(** Starts in ascending order, none beyond [n]. *)
Definition ascending (n : nat) (rs : list replacement) : Prop :=
  StronglySorted (fun a b => start_of a <= start_of b) rs /\
  Forall (fun r => start_of r <= n) rs.

Lemma apply_replacements_prefix rs lines pos :
  ascending (length lines) rs -> Forall (fun r => pos <= start_of r) rs -> pos <= length lines ->
  exists out, apply_replacements lines rs = Some out /\ take pos out = take pos lines /\
    pos <= length out.
Proof.
  intros [Hs Hn] Hp Hpos. revert pos Hp Hpos; induction Hs as [|r rs Hs IH Hr]; intros pos Hp Hpos.
  - by exists lines.
  - inversion Hn; subst. inversion Hp; subst. simpl.
    destruct (IH ltac:(done) (start_of r)) as (out & -> & Ht & Hl); [done|done|]. simpl.
    rewrite apply_one_spec by done. eexists. split; [done|]. split.
    + rewrite take_app_le by (rewrite length_take; lia). rewrite take_take.
      replace (min pos (start_of r)) with pos by lia.
      apply (f_equal (take pos)) in Ht. rewrite !take_take in Ht.
      by replace (min pos (start_of r)) with pos in Ht by lia.
    + rewrite !length_app, length_take. lia.
Qed.

Lemma insert_by_start_Forall (P : replacement -> Prop) r rs :
  P r -> Forall P rs -> Forall P (insert_by_start r rs).
Proof.
  intros Hr H. induction H as [|r' rs Hr' H IH]; simpl; [by constructor|].
  case_match; by repeat constructor.
Qed.

Lemma sort_by_start_Forall (P : replacement -> Prop) rs : Forall P rs -> Forall P (sort_by_start rs).
Proof. induction 1; simpl; [done|]. by apply insert_by_start_Forall. Qed.

Lemma insert_by_start_sorted r rs :
  StronglySorted (fun a b => start_of a <= start_of b) rs ->
  StronglySorted (fun a b => start_of a <= start_of b) (insert_by_start r rs).
Proof.
  induction 1 as [|r' rs Hs IH Hr']; simpl; [by repeat constructor|].
  destruct (Nat.leb_spec (start_of r) (start_of r')).
  - constructor; [by constructor|]. constructor; [done|].
    eapply Forall_impl; [exact Hr'|]. simpl. lia.
  - constructor; [done|]. apply insert_by_start_Forall; [simpl; lia|done].
Qed.

Lemma sort_by_start_sorted rs :
  StronglySorted (fun a b => start_of a <= start_of b) (sort_by_start rs).
Proof. induction rs; simpl; [constructor|by apply insert_by_start_sorted]. Qed.

Lemma length_pop_last l : length (pop_last l) = length l - 1.
Proof. unfold pop_last. rewrite length_take. lia. Qed.

Lemma locate_bound lines li chunk r :
  li <= length lines -> locate lines li chunk = Some r -> end_of r <= length lines.
Proof.
  intros Hl. unfold locate. intros H.
  destruct (Seek.seek_sequence lines (old_lines chunk) li (is_end_of_file chunk)) as [i|] eqn:E.
  - simplify_eq. by apply Seek.seek_sequence_bound in E.
  - destruct (ends_with_empty (old_lines chunk)); [|done].
    apply bind_Some in H as (i & Hi & ?). simplify_eq.
    by apply Seek.seek_sequence_bound in Hi.
Qed.

Lemma context_bound lines path li ctx li' :
  li <= length lines ->
  (match ctx with
   | None => Ok li
   | Some c => match Seek.seek_sequence lines [c] li false with
               | Some idx => Ok (idx + 1)
               | None => Err (msg_context c path)
               end
   end) = Ok li' -> li <= li' <= length lines.
Proof.
  intros Hl. destruct ctx as [c|]; [|intros [= <-]; lia].
  destruct (Seek.seek_sequence lines [c] li false) as [i|] eqn:E; [|done]. intros [= <-].
  pose proof (Seek.seek_sequence_bound _ _ _ _ _ Hl E).
  apply Seek.seek_sequence_sound_aux in E as (_ & Hi & _); [|simpl; lia].
  unfold Seek.search_start_of in Hi. simpl in *. lia.
Qed.

Lemma chunk_replacements_bound lines path li chunks rs :
  li <= length lines -> chunk_replacements lines path li chunks = Ok rs ->
  Forall (fun r => end_of r <= length lines) rs.
Proof.
  revert li rs; induction chunks as [|c chunks IH]; intros li rs Hl; simpl.
  - by intros [= <-].
  - intros H. apply bind_Ok in H as (li' & Hli & H). apply context_bound in Hli; [|done].
    destruct (old_lines c) eqn:Eo.
    + inv_bind. constructor; [|eapply IH, Hx; lia]. unfold end_of, start_of, old_len. simpl.
      case_match; lia.
    + destruct (locate lines li' c) as [r|] eqn:Er; [|done]. inv_bind.
      apply locate_bound in Er; [|lia]. constructor; [done|]. eapply IH, Hx. lia.
Qed.

Lemma compute_replacements_ascending lines path chunks rs :
  compute_replacements lines path chunks = Ok rs -> ascending (length lines) rs.
Proof.
  unfold compute_replacements. intros H. inv_bind. split; [apply sort_by_start_sorted|].
  apply sort_by_start_Forall. apply chunk_replacements_bound in Hx; [|lia].
  eapply Forall_impl; [exact Hx|]. unfold end_of. simpl. lia.
Qed.

Lemma apply_replacements_total lines path chunks rs :
  compute_replacements lines path chunks = Ok rs ->
  exists out, apply_replacements lines rs = Some out.
Proof.
  intros H. apply compute_replacements_ascending in H.
  destruct (apply_replacements_prefix rs lines 0) as (out & ? & _); [done| |lia|by exists out].
  apply Forall_forall. intros; lia.
Qed.

(** ** Lemmas: the result is the splice *)

Lemma chain_bound n pos rs : chain n pos rs -> pos <= n.
Proof.
  revert pos; induction rs as [|r rs IH]; intros pos; simpl; [done|].
  intros [? Hc]. apply IH in Hc. unfold end_of in Hc. lia.
Qed.

Lemma apply_replacements_splice lines pos rs :
  chain (length lines) pos rs ->
  apply_replacements lines rs = Some (take pos lines ++ splice lines pos rs).
Proof.
  revert pos; induction rs as [|r rs IH]; intros pos Hc; simpl.
  - by rewrite take_drop.
  - destruct Hc as [Hr Hc]. pose proof (chain_bound _ _ _ Hc). rewrite (IH _ Hc). simpl.
    assert (start_of r <= end_of r) by (unfold end_of; lia).
    rewrite apply_one_spec by (rewrite length_app, length_take; lia). f_equal.
    rewrite take_app_le, take_take by (rewrite length_take; lia).
    rewrite drop_app_length' by (rewrite length_take; lia).
    replace (min (start_of r) (end_of r)) with (start_of r) by lia.
    rewrite (app_assoc (take pos lines)), take_take_drop. f_equal. f_equal. lia.
Qed.

(** ** Lemmas: when the regions are apart *)

(** A chunk placed by a forward search, and an addition placed at the very end. *)
Definition forward (lines : list str) (c : UpdateFileChunk) : Prop :=
  is_end_of_file c = false /\ (old_lines c = [] -> ends_with_empty lines = false).

Lemma locate_forward lines li chunk r :
  is_end_of_file chunk = false -> locate lines li chunk = Some r -> li <= start_of r.
Proof.
  assert (forall pattern i, Seek.seek_sequence lines pattern li false = Some i -> li <= i) as Hs.
  { intros [|p ps] i Hi; [by injection Hi as <-|].
    apply Seek.seek_sequence_sound_aux in Hi as (_ & Hi & _); [done|simpl; lia]. }
  intros He. unfold locate. rewrite He. intros H.
  destruct (Seek.seek_sequence lines (old_lines chunk) li false) as [i|] eqn:E.
  - simplify_eq. by apply Hs in E.
  - destruct (ends_with_empty (old_lines chunk)); [|done].
    apply bind_Some in H as (i & Hi & ?). simplify_eq. by apply Hs in Hi.
Qed.

Lemma insert_chain n pos r rs :
  pos <= start_of r -> Forall (fun r' => end_of r <= start_of r') rs -> end_of r <= n ->
  chain n pos rs -> chain n pos (insert_by_start r rs).
Proof.
  intros Hp Hf Hn Hc. destruct rs as [|r' rs]; simpl; [done|]. inversion Hf; subst.
  rewrite (proj2 (Nat.leb_le _ _)) by (unfold end_of in *; lia). simpl in *. tauto.
Qed.

Lemma insert_chain_end n pos r rs :
  start_of r = n -> old_len r = 0 -> chain n pos rs -> chain n pos (insert_by_start r rs).
Proof.
  intros Hs Hl. assert (end_of r = n) as He by (unfold end_of; lia).
  revert pos; induction rs as [|r' rs IH]; intros pos Hc; simpl in *.
  - rewrite He, Hs. lia.
  - destruct Hc as [Hp Hc]. pose proof (chain_bound _ _ _ Hc).
    destruct (Nat.leb_spec (start_of r) (start_of r')); simpl; [|by auto].
    assert (end_of r <= start_of r') by lia. rewrite Hs. unfold end_of in *. split; [lia|]. auto.
Qed.

Lemma chunk_replacements_chain lines path li chunks rs :
  li <= length lines -> Forall (forward lines) chunks ->
  chunk_replacements lines path li chunks = Ok rs ->
  chain (length lines) li (sort_by_start rs) /\ Forall (fun r => li <= start_of r) rs.
Proof.
  intros Hl Hf. revert li rs Hl; induction Hf as [|c chunks [He Ho] Hf IH]; intros li rs Hl; simpl.
  - intros [= <-]. simpl. by split.
  - intros H. apply bind_Ok in H as (li' & Hli & H). apply context_bound in Hli; [|done].
    assert (forall r rs, li' <= start_of r -> end_of r <= length lines ->
      chain (length lines) (end_of r) (sort_by_start rs) ->
      Forall (fun r' => end_of r <= start_of r') rs ->
      chain (length lines) li (sort_by_start (r :: rs)) /\
      Forall (fun r => li <= start_of r) (r :: rs)) as Hput.
    { intros r rs0 Hr Hre Hc Hall. split.
      - simpl. apply insert_chain; [lia|by apply sort_by_start_Forall|done|].
        destruct (sort_by_start rs0); simpl in *; [lia|]. unfold end_of in Hc. split; [lia|tauto].
      - constructor; [lia|]. eapply Forall_impl; [exact Hall|]. unfold end_of. simpl. lia. }
    destruct (old_lines c) eqn:Eo.
    + inv_bind. rewrite (Ho eq_refl). destruct (IH li' x) as [Hc Hall]; [lia|done|].
      split.
      * simpl. apply insert_chain_end; [done..|].
        destruct (sort_by_start x); simpl in *; [lia|]. split; [lia|tauto].
      * constructor; [unfold start_of; simpl; lia|].
        eapply Forall_impl; [exact Hall|]. intros r Hr. cbv beta in *. lia.
    + destruct (locate lines li' c) as [r|] eqn:Er; [|done]. inv_bind.
      assert (end_of r <= length lines) by (eapply locate_bound; [|exact Er]; lia). apply locate_forward in Er; [|done].
      destruct (IH (end_of r) x) as [Hc Hall]; [lia|done|]. by apply Hput.
Qed.

(** ** Lemmas: what each replacement stands for *)

(** [r] is chunk [c] placed in the file: an addition at the end, or the chunk's
    old lines found at the region up to [Seek.normalise]; a final empty line that
    stands for the end of the file may have been left out. *)
Definition explains (lines : list str) (c : UpdateFileChunk) (r : replacement) : Prop :=
  if decide (old_lines c = []) then
    old_len r = 0 /\ new_segment r = new_lines c /\
    start_of r = length lines - (if ends_with_empty lines then 1 else 0)
  else exists pattern,
    Seek.matches_at Seek.normalise lines pattern (start_of r) /\ old_len r = length pattern /\
    (pattern = old_lines c /\ new_segment r = new_lines c \/
     old_lines c = pattern ++ [[]] /\
     (new_segment r = new_lines c \/ new_lines c = new_segment r ++ [[]])).

Lemma ends_with_empty_snoc l : ends_with_empty l = true -> l = pop_last l ++ [[]].
Proof.
  unfold ends_with_empty, pop_last. destruct l as [|x l _] using rev_ind; [done|].
  rewrite last_snoc, length_app. simpl. intros Hx%Str.is_empty_spec. subst.
  replace (length l + 1 - 1) with (length l) by lia. by rewrite take_app_length.
Qed.

Lemma matches_at_seek lines pattern li eof i :
  li <= length lines -> Seek.seek_sequence lines pattern li eof = Some i ->
  Seek.matches_at Seek.normalise lines pattern i.
Proof.
  intros Hl H. destruct pattern as [|p ps].
  - injection H as <-. split; [simpl; lia|done].
  - by apply Seek.seek_sequence_sound_aux in H as (_ & _ & ?); [|simpl; lia].
Qed.

Lemma locate_explains lines li c r :
  li <= length lines -> old_lines c <> [] -> locate lines li c = Some r -> explains lines c r.
Proof.
  intros Hl Ho. unfold locate, explains. rewrite decide_False by done. intros H.
  destruct (Seek.seek_sequence lines (old_lines c) li (is_end_of_file c)) as [i|] eqn:E.
  - simplify_eq. exists (old_lines c). split_and!; [by eapply matches_at_seek|done|by left].
  - destruct (ends_with_empty (old_lines c)) eqn:Ee; [|done].
    apply bind_Some in H as (i & Hi & ?). simplify_eq. exists (pop_last (old_lines c)).
    split_and!; [by eapply matches_at_seek|done|right]. split; [by apply ends_with_empty_snoc|].
    unfold new_segment. simpl. destruct (ends_with_empty (new_lines c)) eqn:En; [|by left].
    right. by apply ends_with_empty_snoc.
Qed.

Lemma chunk_replacements_explain lines path li chunks rs :
  li <= length lines -> chunk_replacements lines path li chunks = Ok rs ->
  Forall2 (explains lines) chunks rs.
Proof.
  revert li rs; induction chunks as [|c chunks IH]; intros li rs Hl; simpl.
  - intros [= <-]. constructor.
  - intros H. apply bind_Ok in H as (li' & Hli & H). apply context_bound in Hli; [|done].
    destruct (old_lines c) eqn:Eo.
    + inv_bind. constructor; [|eapply IH, Hx; lia]. unfold explains. rewrite decide_True by done.
      split_and!; [done..|]. unfold start_of. simpl. case_match; lia.
    + destruct (locate lines li' c) as [r|] eqn:Er; [|done]. inv_bind. constructor.
      * eapply locate_explains; [|by rewrite Eo|exact Er]. lia.
      * eapply IH, Hx. eapply locate_bound; [|exact Er]. lia.
Qed.

Lemma insert_by_start_perm r rs : insert_by_start r rs ≡ₚ r :: rs.
Proof.
  induction rs as [|r' rs IH]; simpl; [done|]. case_match; [done|]. rewrite IH.
  by apply Permutation_swap.
Qed.

Lemma sort_by_start_perm rs : sort_by_start rs ≡ₚ rs.
Proof. induction rs as [|r rs IH]; simpl; [done|]. by rewrite insert_by_start_perm, IH. Qed.

Lemma join_contents_newline ls :
  join_contents ls = [] \/ exists s, join_contents ls = s ++ [newline].
Proof.
  assert (forall l, exists s, l = [] \/ Str.join [newline] (l ++ [[]]) = s ++ [newline]) as H.
  { intros [|x l]; [by exists []; left|]. exists (Str.join [newline] (x :: l)). right.
    by rewrite Str.join_snoc by done. }
  unfold join_contents. destruct (ends_with_empty ls) eqn:E.
  - apply ends_with_empty_snoc in E. rewrite E.
    destruct (H (pop_last ls)) as [s [->|Hs]]; [by left|right; eauto].
  - destruct (H ls) as [s [->|Hs]]; [by left|right; eauto].
Qed.

(** ** Lemmas: characters of the result *)

Section characters.
Variable P : char -> Prop.
Hypothesis P_newline : P newline.
Local Abbreviation good := (Forall (Forall P)).

Lemma split_chars c s : Forall P s -> good (Str.split c s).
Proof.
  induction 1 as [|x s Hx Hs IH]; simpl; [by repeat constructor|].
  destruct (x =? c)%N; [by constructor|]. destruct (Str.split c s); [by repeat constructor|].
  inversion IH; subst. by repeat constructor.
Qed.

Lemma join_chars ls : good ls -> Forall P (Str.join [newline] ls).
Proof.
  induction 1 as [|l ls Hl Hls IH]; simpl; [done|]. destruct ls; [done|].
  apply Forall_app. split; [done|]. by constructor.
Qed.

Lemma pop_last_good ls : good ls -> good (pop_last ls).
Proof. apply Forall_take. Qed.

Lemma apply_one_good r lines out :
  good lines -> good (new_segment r) -> start_of r <= length lines ->
  apply_one r lines = Some out -> good out.
Proof.
  intros Hl Hr Hs. rewrite apply_one_spec by done. intros [= <-].
  repeat (apply Forall_app; split); [by apply Forall_take|done|by apply Forall_drop].
Qed.

Lemma apply_replacements_good rs lines out :
  good lines -> Forall (fun r => good (new_segment r)) rs -> ascending (length lines) rs ->
  apply_replacements lines rs = Some out -> good out.
Proof.
  intros Hl Hr [Hs Hn]. revert out; induction Hs as [|r rs Hs IH Hle]; intros out; simpl.
  - by intros [= <-].
  - inversion Hr; subst. inversion Hn; subst. intros (out' & Ho & H')%bind_Some.
    destruct (apply_replacements_prefix rs lines (start_of r)) as (o & Ho' & _ & ?);
      [by split|done|done|]. rewrite Ho' in Ho. simplify_eq.
    eapply apply_one_good, H'; [by apply IH|done|done].
Qed.

Lemma locate_good lines li c r :
  good (new_lines c) -> locate lines li c = Some r -> good (new_segment r).
Proof.
  intros Hc. unfold locate. destruct (Seek.seek_sequence lines (old_lines c) li _).
  - intros [= <-]. done.
  - destruct (ends_with_empty (old_lines c)); [|done]. intros (i & _ & [= <-])%bind_Some.
    unfold new_segment. simpl.
    destruct (ends_with_empty (new_lines c)); [by apply pop_last_good|done].
Qed.

Lemma chunk_replacements_good lines path li chunks rs :
  Forall (fun c => good (new_lines c)) chunks -> chunk_replacements lines path li chunks = Ok rs ->
  Forall (fun r => good (new_segment r)) rs.
Proof.
  intros Hc. revert li rs; induction Hc as [|c chunks Hc Hcs IH]; intros li rs; simpl.
  - by intros [= <-].
  - intros H. apply bind_Ok in H as (li' & _ & H). destruct (old_lines c).
    + inv_bind. constructor; [done|by eapply IH].
    + destruct (locate lines li' c) as [r|] eqn:Er; [|done]. inv_bind.
      constructor; [|by eapply IH]. by eapply locate_good.
Qed.

Lemma new_contents_chars contents path chunks text :
  Forall P contents -> Forall (fun c => good (new_lines c)) chunks ->
  new_contents_from_chunks contents path chunks = Some (Ok text) -> Forall P text.
Proof.
  intros Hc Hch. unfold new_contents_from_chunks.
  destruct (compute_replacements _ _ _) as [rs|] eqn:E; [|done].
  intros (out & Ho & [= <-])%bind_Some. unfold join_contents. apply join_chars.
  assert (good out) as Hout.
  { eapply apply_replacements_good, Ho.
    - unfold split_contents. case_match; [apply pop_last_good|]; by apply split_chars.
    - unfold compute_replacements in E. inv_bind. apply sort_by_start_Forall.
      by eapply chunk_replacements_good.
    - by eapply compute_replacements_ascending. }
  case_match; [done|]. apply Forall_app. split; [done|]. by repeat constructor.
Qed.
End characters.

(** ** Properties *)

(** Applying the chunks of a hunk to a file never panics, whatever the file and
    the chunks are (the search may find regions that overlap): every insertion
    index is inside the vector.  The outcome is either the search error, or new
    contents that are empty or end in a line feed. *)
Theorem new_contents_never_panic contents path chunks :
  match new_contents_from_chunks contents path chunks with
  | None => False
  | Some (Err message) =>
      compute_replacements (split_contents contents) path chunks = Err message
  | Some (Ok text) => text = [] \/ exists s, text = s ++ [newline]
  end.
Proof.
  unfold new_contents_from_chunks.
  destruct (compute_replacements (split_contents contents) path chunks) as [rs|] eqn:E; [|done].
  destruct (apply_replacements_total _ _ _ _ E) as [out ->]. apply join_contents_newline.
Qed.

(** Each chunk yields exactly one replacement, which stands for that chunk: the
    replaced region holds the chunk's old lines up to trimming and punctuation,
    and the new segment is the chunk's new lines; the list that is applied is a
    permutation of these, in ascending order and inside the file. *)
Theorem replacements_explain_chunks lines path chunks rs :
  compute_replacements lines path chunks = Ok rs ->
  ascending (length lines) rs /\
  exists rs0, rs ≡ₚ rs0 /\ Forall2 (explains lines) chunks rs0.
Proof.
  intros H. split; [by eapply compute_replacements_ascending|].
  unfold compute_replacements in H. inv_bind. exists x. split; [apply sort_by_start_perm|].
  eapply chunk_replacements_explain, Hx. lia.
Qed.

(** C7: When the chunks are searched forward (no end-of-file chunk) and additions go
    to the very end (the file does not end in an empty line), the regions do not
    overlap, and the reverse-order removals and insertions of the loop compute the
    left-to-right splice: every line outside the regions is kept, in order, and
    each region is replaced by its new segment. *)
Theorem apply_replacements_is_splice lines path chunks rs :
  Forall (forward lines) chunks -> compute_replacements lines path chunks = Ok rs ->
  chain (length lines) 0 rs /\ apply_replacements lines rs = Some (splice lines 0 rs).
Proof.
  intros Hf H. unfold compute_replacements in H. inv_bind.
  apply chunk_replacements_chain in Hx as [Hc _]; [|lia|done].
  split; [done|]. by rewrite (apply_replacements_splice _ 0).
Qed.

(** The condition on additions is needed: *)
Definition lost_chunks : list UpdateFileChunk :=
  [mkChunk None [$"a"; []] [$"b"; []] false; mkChunk None [] [$"added"] false].

(** An addition is placed before a final empty line of the file; when another
    chunk of the hunk replaces that line the two regions overlap, and the added
    text is lost although the application succeeds. *)
Theorem addition_can_be_lost :
  new_contents_from_chunks ($"a" ++ [newline; newline]) $"f" lost_chunks =
  Some (Ok ($"b" ++ [newline; newline])).
Proof. vm_compute. reflexivity. Qed.

(** ** Witnesses *)

Definition demo_lines : list str := [$"one"; $"two"; $"three"].
Definition demo_chunks : list UpdateFileChunk :=
  [mkChunk (Some $"one") [$"two"] [$"2"; $"2b"] false; mkChunk None [] [$"four"] false].
Definition demo_replacements : list replacement :=
  [(1, 1, [$"2"; $"2b"]); (3, 0, [$"four"])].

Lemma replacements_explain_chunks_witness :
  ascending 3 demo_replacements /\
  exists rs0, demo_replacements ≡ₚ rs0 /\ Forall2 (explains demo_lines) demo_chunks rs0.
Proof. apply (replacements_explain_chunks demo_lines $"f"). vm_compute. reflexivity. Defined.

Lemma apply_replacements_is_splice_witness :
  chain 3 0 demo_replacements /\
  apply_replacements demo_lines demo_replacements = Some (splice demo_lines 0 demo_replacements).
Proof.
  apply (apply_replacements_is_splice demo_lines $"f" demo_chunks).
  - repeat constructor; by intros.
  - vm_compute. reflexivity.
Defined.

End Replace.
