(* ===== verification/ApplyPatch.v ===== *)
(** Applying a parsed patch to a file system: [apply_patch], [apply_hunks],
    [apply_hunks_to_files] and their helpers in [codex-rs/apply-patch/src/lib.rs],
    over the [ExecutorFileSystem] interface.  The record of what was committed
    ([AppliedPatchDelta]) is related to the change of the file system. *)
From S2P Require Import Prelude Utf8 Paths FileSystem PatchParser Replacements.
Import Patch Fs.

Module Apply.

(** ** Errors *)

Record IoError := mkIoError { context : str; source : Io.Error }.

(** [Panicked] stands for a panic while the chunks are applied; it does not occur. *)
Inductive ApplyPatchError :=
| ParseErr (e : ParseError)
| IoErr (e : IoError)
| ComputeReplacements (message : str)
| ImplicitInvocation
| Panicked.

Definition show_parse_error (e : ParseError) : str :=
  match e with
  | InvalidPatchError m => $"invalid patch: " ++ m
  | InvalidHunkError m n => $"invalid hunk at line " ++ Str.show_nat n ++ $", " ++ m
  end.
Definition show_error (e : ApplyPatchError) : str :=
  match e with
  | ParseErr e => show_parse_error e
  | IoErr e => context e ++ $": " ++ Io.message (source e)
  | ComputeReplacements m => m
  | ImplicitInvocation =>
      $"patch detected without explicit call to apply_patch. Rerun as [" ++ [dquote]
      ++ $"apply_patch" ++ [dquote] ++ $", " ++ [dquote] ++ $"<patch>" ++ [dquote] ++ $"]"
  | Panicked => $"panic"
  end.
(** [ApplyPatchError::from(io::Error)]. *)
Definition from_io (e : Io.Error) : ApplyPatchError := IoErr (mkIoError $"I/O error" e).

(** [anyhow::Error] as it is built here: an I/O error with at most one context, an
    [ApplyPatchError], or a message. *)
Inductive anyhow :=
| AnyIo (ctx : option str) (e : Io.Error)
| AnyApply (e : ApplyPatchError)
| AnyMessage (m : str).
Definition show_anyhow (e : anyhow) : str :=
  match e with
  | AnyIo (Some ctx) _ => ctx
  | AnyIo None e => Io.message e
  | AnyApply e => show_error e
  | AnyMessage m => m
  end.
Definition with_context {T} (ctx : str) (r : result Io.Error T) : result anyhow T :=
  map_err (AnyIo (Some ctx)) r.

(** ** The committed changes *)

Inductive AppliedPatchFileChange :=
| Add (content : str) (overwritten_content : option str)
| Delete (content : str)
| Update (move_path : option str) (old_content : str) (overwritten_move_content : option str)
    (new_content : str).
Record AppliedPatchChange := mkChange { change_path : str; change : AppliedPatchFileChange }.
Record AppliedPatchDelta := mkDelta { changes : list AppliedPatchChange; exact : bool }.

Definition empty_delta : AppliedPatchDelta := mkDelta [] true.
Definition append (d other : AppliedPatchDelta) : AppliedPatchDelta :=
  mkDelta (changes d ++ changes other) (exact d && exact other).
Definition push_change (d : AppliedPatchDelta) (p : str) (c : AppliedPatchFileChange)
    : AppliedPatchDelta :=
  mkDelta (changes d ++ [mkChange p c]) (exact d).
Definition set_exact (d : AppliedPatchDelta) (b : bool) : AppliedPatchDelta :=
  mkDelta (changes d) b.
(** [delta.changes[index] = change]. *)
Definition replace_change (d : AppliedPatchDelta) (index : nat) (p : str)
    (c : AppliedPatchFileChange) : AppliedPatchDelta :=
  mkDelta (<[index := mkChange p c]> (changes d)) (exact d).

Record ApplyPatchFailure := mkFailure { error : ApplyPatchError; delta : AppliedPatchDelta }.
Definition without_delta (e : ApplyPatchError) : ApplyPatchFailure := mkFailure e empty_delta.

Record AffectedPaths := mkAffected {
  added : list str;
  modified : list str;
  deleted : list str
}.
Record AppliedPatch := mkApplied { original_contents : str; new_contents : str }.

(** ** Writers *)

(** [std::io::Write] as [writeln!] uses it. *)
Class Write (W : Type) := write_str : W -> str -> W * result Io.Error unit.
Definition writeln `{Write W} (w : W) (s : str) : W * result Io.Error unit :=
  write_str w (s ++ [newline]).
Fixpoint writelns `{Write W} (w : W) (l : list str) : W * result Io.Error unit :=
  match l with
  | [] => (w, Ok tt)
  | s :: l' => match writeln w s with (w', Ok _) => writelns w' l' | r => r end
  end.
Definition summary_lines (affected : AffectedPaths) : list str :=
  $"Success. Updated the following files:"
  :: (app $"A " <$> added affected) ++ (app $"M " <$> modified affected)
  ++ (app $"D " <$> deleted affected).
Definition print_summary `{Write W} (affected : AffectedPaths) (out : W)
    : W * result Io.Error unit :=
  writelns out (summary_lines affected).

(** ** Operations on the file system *)

Section operations.
Context `{ExecutorFileSystem FileSys}.
Variable home_dir : option str.

Definition ensure_not_directory (path : str) (st : FileSys) : result Io.Error unit :=
  metadata ← get_metadata st path;
  if is_directory metadata then Err (Io.new Io.InvalidInput $"path is a directory") else Ok tt.

Definition remove_failure_was_side_effect_free (path : str) (expected_content : option str)
    (st : FileSys) : bool :=
  match expected_content with
  | Some expected =>
      match read_file_text st path with Ok content => bool_decide (content = expected) | Err _ => false end
  | None => false
  end.

Definition note_existing_path_delta_support (path : str) (st : FileSys) (exact : bool) : bool :=
  match get_metadata st path with
  | Ok metadata => if is_file metadata && negb (is_symlink metadata) then exact else false
  | Err source => if decide (Io.kind source = Io.NotFound) then exact else false
  end.

Definition read_optional_file_text_for_delta (path : str) (st : FileSys) (exact : bool)
    : option str * bool :=
  let exact := note_existing_path_delta_support path st exact in
  match read_file_text st path with
  | Ok content => (Some content, exact)
  | Err source => if decide (Io.kind source = Io.NotFound) then (None, exact) else (None, false)
  end.

Definition msg_write (path : str) : str := $"Failed to write file " ++ path.
Definition msg_parents (path : str) : str :=
  $"Failed to create parent directories for " ++ path.
Definition msg_delete (path : str) : str := $"Failed to delete file " ++ path.
Definition msg_remove_original (path : str) : str := $"Failed to remove original " ++ path.
Definition msg_read (path : str) : str := $"Failed to read file to update " ++ path.

Definition write_file_with_missing_parent_retry (st : FileSys) (path_abs : str)
    (contents : Utf8.bytes) : FileSys * result anyhow unit :=
  match write_file st path_abs contents with
  | (st, Ok _) => (st, Ok tt)
  | (st, Err err) =>
      if decide (Io.kind err = Io.NotFound) then
        let '(st, made) :=
          match Path.parent path_abs with
          | Some parent_abs => create_directory st parent_abs (mkCreateDirectoryOptions true)
          | None => (st, Ok tt)
          end in
        match made with
        | Err e => (st, Err (AnyIo (Some (msg_parents path_abs)) e))
        | Ok _ =>
            let '(st, r) := write_file st path_abs contents in
            (st, with_context (msg_write path_abs) r)
        end
      else (st, Err (AnyIo (Some (msg_write path_abs)) err))
  end.

Definition derive_new_contents_from_chunks (path_abs : str) (chunks : list UpdateFileChunk)
    (st : FileSys) : result ApplyPatchError AppliedPatch :=
  original ←
    map_err (fun err => IoErr (mkIoError (msg_read path_abs) err)) (read_file_text st path_abs);
  match Replace.new_contents_from_chunks original path_abs chunks with
  | None => Err Panicked
  | Some (Err message) => Err (ComputeReplacements message)
  | Some (Ok text) => Ok (mkApplied original text)
  end.

Definition remove_options : RemoveOptions := mkRemoveOptions false false.

(** ** Hunks

    Each case returns the file system, the delta so far and the outcome. *)

Definition apply_add (path_abs contents : str) (st : FileSys) (d : AppliedPatchDelta)
    : FileSys * AppliedPatchDelta * result anyhow unit :=
  let '(overwritten_content, ex) := read_optional_file_text_for_delta path_abs st (exact d) in
  let d := set_exact d ex in
  match write_file_with_missing_parent_retry st path_abs (Utf8.encode contents) with
  | (st, Err e) => (st, set_exact d false, Err e)
  | (st, Ok _) => (st, push_change d path_abs (Add contents overwritten_content), Ok tt)
  end.

Definition apply_delete (path_abs : str) (st : FileSys) (d : AppliedPatchDelta)
    : FileSys * AppliedPatchDelta * result anyhow unit :=
  let d := set_exact d (note_existing_path_delta_support path_abs st (exact d)) in
  let deleted_content := ok (read_file_text st path_abs) in
  let d := match deleted_content with None => set_exact d false | Some _ => d end in
  match ensure_not_directory path_abs st with
  | Err e => (st, d, Err (AnyIo (Some (msg_delete path_abs)) e))
  | Ok _ =>
      match remove st path_abs remove_options with
      | (st, Err e) =>
          (st, set_exact d (exact d && remove_failure_was_side_effect_free path_abs deleted_content st),
           Err (AnyIo (Some (msg_delete path_abs)) e))
      | (st, Ok _) =>
          (st, match deleted_content with
               | Some content => push_change d path_abs (Delete content)
               | None => d
               end, Ok tt)
      end
  end.

Definition apply_update (cwd path_abs : str) (move_path : option str)
    (chunks : list UpdateFileChunk) (st : FileSys) (d : AppliedPatchDelta)
    : FileSys * AppliedPatchDelta * result anyhow unit :=
  let d := set_exact d (note_existing_path_delta_support path_abs st (exact d)) in
  match derive_new_contents_from_chunks path_abs chunks st with
  | Err e => (st, d, Err (AnyApply e))
  | Ok (mkApplied original new) =>
      match move_path with
      | Some dest =>
          let dest_abs := Path.resolve_path_against_base home_dir dest cwd in
          let '(overwritten_move_content, ex) :=
            read_optional_file_text_for_delta dest_abs st (exact d) in
          let d := set_exact d ex in
          match write_file_with_missing_parent_retry st dest_abs (Utf8.encode new) with
          | (st, Err e) => (st, set_exact d false, Err e)
          | (st, Ok _) =>
              let dest_write_change_index := length (changes d) in
              let d := push_change d dest_abs (Add new overwritten_move_content) in
              match ensure_not_directory path_abs st with
              | Err e => (st, d, Err (AnyIo (Some (msg_remove_original path_abs)) e))
              | Ok _ =>
                  match remove st path_abs remove_options with
                  | (st, Err e) =>
                      (st, set_exact d (exact d
                             && remove_failure_was_side_effect_free path_abs (Some original) st),
                       Err (AnyIo (Some (msg_remove_original path_abs)) e))
                  | (st, Ok _) =>
                      (st, replace_change d dest_write_change_index path_abs
                             (Update (Some dest_abs) original overwritten_move_content new), Ok tt)
                  end
              end
          end
      | None =>
          match write_file st path_abs (Utf8.encode new) with
          | (st, Err e) => (st, set_exact d false, Err (AnyIo (Some (msg_write path_abs)) e))
          | (st, Ok _) => (st, push_change d path_abs (Update None original None new), Ok tt)
          end
      end
  end.

(** [Hunk::resolve_path]. *)
Definition resolve_path (cwd : str) (hunk : Hunk) : str :=
  Path.resolve_path_against_base home_dir (hunk_source_path hunk) cwd.

Definition apply_hunk (cwd : str) (hunk : Hunk) (st : FileSys) (d : AppliedPatchDelta)
    : FileSys * AppliedPatchDelta * result anyhow unit :=
  let path_abs := resolve_path cwd hunk in
  match hunk with
  | AddFile _ contents => apply_add path_abs contents st d
  | DeleteFile _ => apply_delete path_abs st d
  | UpdateFile _ move_path chunks => apply_update cwd path_abs move_path chunks st d
  end.

Definition note_affected (hunk : Hunk) (a : AffectedPaths) : AffectedPaths :=
  match hunk with
  | AddFile _ _ => mkAffected (added a ++ [hunk_path hunk]) (modified a) (deleted a)
  | DeleteFile _ => mkAffected (added a) (modified a) (deleted a ++ [hunk_path hunk])
  | UpdateFile _ _ _ => mkAffected (added a) (modified a ++ [hunk_path hunk]) (deleted a)
  end.

Fixpoint hunk_loop (cwd : str) (hunks : list Hunk) (st : FileSys) (d : AppliedPatchDelta)
    (a : AffectedPaths) : FileSys * AppliedPatchDelta * result anyhow AffectedPaths :=
  match hunks with
  | [] => (st, d, Ok a)
  | hunk :: hunks' =>
      match apply_hunk cwd hunk st d with
      | (st, d, Ok _) => hunk_loop cwd hunks' st d (note_affected hunk a)
      | (st, d, Err e) => (st, d, Err e)
      end
  end.

Definition apply_hunks_to_files (hunks : list Hunk) (cwd : str) (st : FileSys)
    (d : AppliedPatchDelta) : FileSys * AppliedPatchDelta * result anyhow AffectedPaths :=
  match hunks with
  | [] => (st, d, Err (AnyMessage $"No files were modified."))
  | _ => hunk_loop cwd hunks st d (mkAffected [] [] [])
  end.

Context `{Write Out} `{Write ErrOut}.

(** The error the caller sees: an I/O error is kept, anything else is wrapped. *)
Definition classify_error (e : anyhow) : ApplyPatchError :=
  match e with
  | AnyIo _ io => from_io io
  | _ => IoErr (mkIoError (show_anyhow e) (Io.new Io.Other (show_anyhow e)))
  end.

Definition apply_hunks (hunks : list Hunk) (cwd : str) (stdout : Out) (stderr : ErrOut)
    (st : FileSys)
    : FileSys * Out * ErrOut * result ApplyPatchFailure AppliedPatchDelta :=
  match apply_hunks_to_files hunks cwd st empty_delta with
  | (st, d, Ok affected_paths) =>
      match print_summary affected_paths stdout with
      | (stdout, Err e) => (st, stdout, stderr, Err (mkFailure (from_io e) d))
      | (stdout, Ok _) => (st, stdout, stderr, Ok d)
      end
  | (st, d, Err e) =>
      match writeln stderr (show_anyhow e) with
      | (stderr, Err e) => (st, stdout, stderr, Err (mkFailure (from_io e) d))
      | (stderr, Ok _) => (st, stdout, stderr, Err (mkFailure (classify_error e) d))
      end
  end.

Definition invalid_message (e : ParseError) : str :=
  match e with
  | InvalidPatchError m => $"Invalid patch: " ++ m
  | InvalidHunkError m n => $"Invalid patch hunk on line " ++ Str.show_nat n ++ $": " ++ m
  end.

Definition apply_patch (patch cwd : str) (stdout : Out) (stderr : ErrOut) (st : FileSys)
    : FileSys * Out * ErrOut * result ApplyPatchFailure AppliedPatchDelta :=
  match parse_patch patch with
  | Err e =>
      match writeln stderr (invalid_message e) with
      | (stderr, Err io) => (st, stdout, stderr, Err (without_delta (from_io io)))
      | (stderr, Ok _) => (st, stdout, stderr, Err (without_delta (ParseErr e)))
      end
  | Ok source => apply_hunks (Patch.hunks source) cwd stdout stderr st
  end.

End operations.

(** ** What a list of changes says *)

Definition replay_change (v : view) (c : AppliedPatchChange) : view :=
  match change c with
  | Add content _ => set (change_path c) (Some content) v
  | Delete _ => set (change_path c) None v
  | Update None _ _ new => set (change_path c) (Some new) v
  | Update (Some dest) _ _ new => set (change_path c) None (set dest (Some new) v)
  end.
Definition undo_change (c : AppliedPatchChange) (v : view) : view :=
  match change c with
  | Add _ overwritten => set (change_path c) overwritten v
  | Delete content => set (change_path c) (Some content) v
  | Update None old _ _ => set (change_path c) (Some old) v
  | Update (Some dest) old overwritten _ => set dest overwritten (set (change_path c) (Some old) v)
  end.
Definition replay (cs : list AppliedPatchChange) (v : view) : view := fold_left replay_change cs v.
(** The last change is undone first. *)
Definition undo (cs : list AppliedPatchChange) (v : view) : view := foldr undo_change v cs.

(** ** What a list of hunks says *)

Definition spec_hunk (home_dir : option str) (cwd : str) (hunk : Hunk) (v : view) : option view :=
  let p := resolve_path home_dir cwd hunk in
  match hunk with
  | AddFile _ contents => Some (set p (Some contents) v)
  | DeleteFile _ => Some (set p None v)
  | UpdateFile _ move_path chunks =>
      old ← v p;
      match Replace.new_contents_from_chunks old p chunks, move_path with
      | Some (Ok new), None => Some (set p (Some new) v)
      | Some (Ok new), Some dest =>
          Some (set p None (set (Path.resolve_path_against_base home_dir dest cwd) (Some new) v))
      | _, _ => None
      end
  end.
Fixpoint spec_hunks (home_dir : option str) (cwd : str) (hunks : list Hunk) (v : view)
    : option view :=
  match hunks with
  | [] => Some v
  | h :: hs => v ← spec_hunk home_dir cwd h v; spec_hunks home_dir cwd hs v
  end.

(** The report: the paths of the hunks by kind, a moved file under its new name. *)
Definition report (hunks : list Hunk) : AffectedPaths :=
  mkAffected (omap (fun h => match h with AddFile p _ => Some p | _ => None end) hunks)
    (omap (fun h => match h with UpdateFile p mv _ => Some (default p mv) | _ => None end) hunks)
    (omap (fun h => match h with DeleteFile p => Some p | _ => None end) hunks).

Lemma note_affected_report hunks a :
  fold_left (fun a h => note_affected h a) hunks a =
  mkAffected (added a ++ added (report hunks)) (modified a ++ modified (report hunks))
    (deleted a ++ deleted (report hunks)).
Proof.
  revert a; induction hunks as [|h hs IH]; intros [ad mo de]; simpl; [by rewrite !app_nil_r|].
  rewrite IH. destruct h as [p c|p|p [q|] cs]; simpl; by rewrite <- ?app_assoc.
Qed.

(** The strings of a hunk are strings: lists of Unicode scalar values. *)
Definition hunk_scalar (h : Hunk) : Prop :=
  match h with
  | AddFile _ contents => Forall Utf8.scalar contents
  | DeleteFile _ => True
  | UpdateFile _ _ chunks => Forall (fun c => Forall (Forall Utf8.scalar) (new_lines c)) chunks
  end.

(** ** Lemmas: views *)

#[global] Instance replay_change_proper : Proper ((≡) ==> (=) ==> (≡)) replay_change.
Proof.
  intros v w H c ? <-. unfold replay_change. destruct (change c) as [| |[]]; by rewrite H.
Qed.
#[global] Instance undo_change_proper : Proper ((=) ==> (≡) ==> (≡)) undo_change.
Proof.
  intros c ? <- v w H. unfold undo_change. destruct (change c) as [| |[]]; by rewrite H.
Qed.
#[global] Instance replay_proper : Proper ((=) ==> (≡) ==> (≡)) replay.
Proof.
  intros cs ? <-. induction cs as [|c cs IH]; intros v w H; [done|]. simpl. apply IH. by rewrite H.
Qed.
#[global] Instance undo_proper : Proper ((=) ==> (≡) ==> (≡)) undo.
Proof.
  intros cs ? <-. induction cs as [|c cs IH]; intros v w H; [done|]. simpl. by rewrite (IH v w H).
Qed.

Lemma replay_app a b v : replay (a ++ b) v = replay b (replay a v).
Proof. apply fold_left_app. Qed.
Lemma undo_app a b v : undo (a ++ b) v = undo a (undo b v).
Proof. apply foldr_app. Qed.

Definition consistent (c : AppliedPatchChange) (v : view) : Prop :=
  match change c with
  | Add _ overwritten => overwritten = v (change_path c)
  | Delete content => Some content = v (change_path c)
  | Update None old _ _ => Some old = v (change_path c)
  | Update (Some dest) old overwritten _ => Some old = v (change_path c) /\ overwritten = v dest
  end.

Lemma undo_replay_change c v : consistent c v -> undo_change c (replay_change v c) ≡ v.
Proof.
  unfold consistent, undo_change, replay_change.
  destruct (change c) as [content ov|content|[dest|] old ov new].
  1: intros ->. 2: intros ->. 4: intros ->.
  all: try (rewrite set_set; apply set_id).
  intros [-> ->] q. unfold set. repeat case_decide; subst; done.
Qed.

(** ** Lemmas: one operation *)

Section sound.
Context `{FileSystemLaws FileSys}.
Variable home_dir : option str.

(** The part of the delta added between two states accounts for the change of the
    file system, provided the delta is still exact. *)
Definition commits (st st' : FileSys) (d d' : AppliedPatchDelta) : Prop :=
  exact d' = true ->
  exact d = true /\ exists new, changes d' = changes d ++ new /\
    text st' ≡ replay new (text st) /\ undo new (text st') ≡ text st.

Lemma commits_trans st1 st2 st3 d1 d2 d3 :
  commits st1 st2 d1 d2 -> commits st2 st3 d2 d3 -> commits st1 st3 d1 d3.
Proof.
  intros Ha Hb He. destruct (Hb He) as (He2 & n2 & Hc2 & Ht2 & Hu2).
  destruct (Ha He2) as (He1 & n1 & Hc1 & Ht1 & Hu1). split; [done|].
  exists (n1 ++ n2). rewrite Hc2, Hc1, <- app_assoc. split; [done|]. split.
  - by rewrite replay_app, <- Ht1.
  - by rewrite undo_app, Hu2.
Qed.

Lemma commits_nothing st st' d d' :
  (exact d' = true -> exact d = true /\ text st' ≡ text st) -> changes d' = changes d ->
  commits st st' d d'.
Proof.
  intros He Hc Hx. destruct (He Hx) as [? Ht]. split; [done|]. exists [].
  rewrite app_nil_r. by split_and!.
Qed.

Lemma commits_one st st' d d' c :
  (exact d' = true -> exact d = true /\ consistent c (text st)) ->
  changes d' = changes d ++ [c] -> text st' ≡ replay_change (text st) c -> commits st st' d d'.
Proof.
  intros He Hc Ht Hx. destruct (He Hx) as [? Hcons]. split; [done|]. exists [c].
  split_and!; [done|done|]. simpl. rewrite Ht. by apply undo_replay_change.
Qed.

Lemma commits_inexact st st' d d' : exact d' = false -> commits st st' d d'.
Proof. intros He Hx. congruence. Qed.

Lemma note_exact path st ex :
  note_existing_path_delta_support path (st : FileSys) ex = true -> ex = true.
Proof. unfold note_existing_path_delta_support. by repeat case_match. Qed.

Lemma read_optional_exact path st ex ov ex' :
  read_optional_file_text_for_delta path (st : FileSys) ex = (ov, ex') ->
  ex' = true -> ex = true /\ ov = text st path.
Proof.
  unfold read_optional_file_text_for_delta, text.
  destruct (read_file_text st path) as [c|e] eqn:E; simpl.
  - intros [= <- <-] Hn. by apply note_exact in Hn.
  - case_decide; intros [= <- <-] Hn; [by apply note_exact in Hn|done].
Qed.

Lemma write_retry_text st path s st' :
  Forall Utf8.scalar s ->
  write_file_with_missing_parent_retry (st : FileSys) path (Utf8.encode s) = (st', Ok tt) ->
  text st' ≡ set path (Some s) (text st).
Proof.
  intros Hs. unfold write_file_with_missing_parent_retry.
  destruct (write_file st path (Utf8.encode s)) as [st1 [[]|err]] eqn:Ew.
  { intros [= <-]. by apply write_text. }
  case_decide; [|done]. intros Hw.
  assert (text st1 ≡ set path (text st1 path) (text st)) as Hw1.
  { intros q. unfold set. case_decide; [by subst|]. by eapply write_other. }
  set (made := match Path.parent path with Some p => _ | None => _ end) in Hw.
  assert (text made.1 ≡ text st1) as Hw2.
  { unfold made. destruct (Path.parent path) as [p|]; [|done].
    destruct (create_directory st1 p _) as [st2 r] eqn:Em. simpl. by eapply create_directory_text. }
  destruct made as [st2 [[]|]]; [|done]. simpl in Hw2.
  destruct (write_file st2 path (Utf8.encode s)) as [st3 r3] eqn:Ew3.
  destruct r3 as [[]|]; [|done]. injection Hw as <-.
  rewrite (write_text _ _ _ _ Hs Ew3), Hw2, Hw1. apply set_set.
Qed.

Lemma side_effect_free_text path expected st :
  remove_failure_was_side_effect_free path expected (st : FileSys) = true -> text st path = expected.
Proof.
  unfold remove_failure_was_side_effect_free, text. destruct expected as [e|]; [|done].
  destruct (read_file_text st path); [|done]. simpl. intros H'%bool_decide_eq_true. by subst.
Qed.

Lemma remove_failed_text path st st' e f expected :
  remove st path (mkRemoveOptions false f) = (st', Err e) ->
  remove_failure_was_side_effect_free path expected (st' : FileSys) = true -> text st' ≡ text st.
Proof.
  intros Hr Hf q. destruct (decide (q = path)) as [->|Hq]; [|by eapply remove_other].
  destruct expected as [c|]; [|done]. apply side_effect_free_text in Hf.
  apply remove_err in Hr as [Hr|Hr]; [congruence|done].
Qed.

Lemma derive_Ok path chunks st old new :
  derive_new_contents_from_chunks path chunks (st : FileSys) = Ok (mkApplied old new) ->
  text st path = Some old /\ Replace.new_contents_from_chunks old path chunks = Some (Ok new).
Proof.
  unfold derive_new_contents_from_chunks, text.
  destruct (read_file_text st path) as [o|]; simpl; [|done]. intros H'. by case_all_in H'.
Qed.

Lemma derive_scalar path chunks st old new :
  Forall (fun c => Forall (Forall Utf8.scalar) (new_lines c)) chunks ->
  derive_new_contents_from_chunks path chunks (st : FileSys) = Ok (mkApplied old new) ->
  Forall Utf8.scalar new.
Proof.
  intros Hc Hd. apply derive_Ok in Hd as [Ht Hn].
  eapply Replace.new_contents_chars, Hn; [by left|by eapply text_scalar|done].
Qed.

(** ** Lemmas: one hunk *)

(** What one hunk does: its delta is accurate, and on success the file system
    changed the way the hunk says. *)
Definition hunk_sound (cwd : str) (hunk : Hunk) (st st' : FileSys) (d d' : AppliedPatchDelta)
    (r : result anyhow unit) : Prop :=
  commits st st' d d' /\
  (r = Ok tt -> exists v, spec_hunk home_dir cwd hunk (text st) = Some v /\ text st' ≡ v).

Lemma apply_add_sound cwd p contents st d st' d' r :
  Forall Utf8.scalar contents ->
  apply_add (resolve_path home_dir cwd (AddFile p contents)) contents st d = (st', d', r) ->
  hunk_sound cwd (AddFile p contents) st st' d d' r.
Proof.
  intros Hs. unfold apply_add, hunk_sound, spec_hunk. set (path := resolve_path _ _ _).
  destruct (read_optional_file_text_for_delta path st (exact d)) as [ov ex] eqn:Er.
  destruct (write_file_with_missing_parent_retry _ _ _) as [st1 [[]|e]] eqn:Ew;
    intros [= <- <- <-]; [|split; [by apply commits_inexact|done]].
  apply write_retry_text in Ew; [|done]. split; [|eauto].
  eapply commits_one; [|reflexivity|exact Ew]. simpl. intros ->.
  by eapply read_optional_exact in Er as [? ?].
Qed.

Lemma apply_delete_sound cwd p st d st' d' r :
  apply_delete (resolve_path home_dir cwd (DeleteFile p)) st d = (st', d', r) ->
  hunk_sound cwd (DeleteFile p) st st' d d' r.
Proof.
  unfold apply_delete, hunk_sound, spec_hunk. set (path := resolve_path _ _ _).
  rewrite read_text. set (d1 := set_exact d _).
  assert (exact d1 = true -> exact d = true) as Hd1 by apply note_exact.
  set (d2 := match text st path with None => set_exact d1 false | Some _ => d1 end).
  assert (exact d2 = true -> exact d = true /\ is_Some (text st path)) as Hd2.
  { unfold d2. destruct (text st path); simpl; [eauto|done]. }
  assert (changes d2 = changes d) as Hc2 by (unfold d2; by destruct (text st path)).
  clearbody d2.
  destruct (ensure_not_directory path st) as [[]|e].
  2: { intros [= <- <- <-]. split; [|done]. apply commits_nothing; [|done]. naive_solver. }
  destruct (remove st path remove_options) as [st1 [[]|e]] eqn:Er; intros [= <- <- <-].
  - apply remove_text in Er. split; [|eauto].
    destruct (text st path) as [content|] eqn:Et.
    + eapply (commits_one _ _ _ _ (mkChange path (Delete content))); [|simpl; by rewrite Hc2|exact Er].
      simpl. intros He. split; [by apply Hd2|]. unfold consistent. simpl. by rewrite Et.
    + intros Hx. by destruct (Hd2 Hx) as [_ []].
  - split; [|done]. apply commits_nothing; [|done]. simpl.
    intros [He Hf]%andb_true_iff. split; [by apply Hd2|]. by eapply remove_failed_text.
Qed.

Lemma apply_update_sound cwd p mv chunks st d st' d' r :
  Forall (fun c => Forall (Forall Utf8.scalar) (new_lines c)) chunks ->
  apply_update home_dir cwd (resolve_path home_dir cwd (UpdateFile p mv chunks)) mv chunks st d
    = (st', d', r) ->
  hunk_sound cwd (UpdateFile p mv chunks) st st' d d' r.
Proof.
  intros Hs. unfold apply_update, hunk_sound, spec_hunk. set (path := resolve_path _ _ _).
  set (d1 := set_exact d _).
  assert (exact d1 = true -> exact d = true) as Hd1 by apply note_exact.
  destruct (derive_new_contents_from_chunks path chunks st) as [[old new]|e] eqn:Ed.
  2: { intros [= <- <- <-]. split; [|done]. apply commits_nothing; [|done]. naive_solver. }
  pose proof (derive_scalar _ _ _ _ _ Hs Ed) as Hsn. apply derive_Ok in Ed as [Ht Hn].
  rewrite Ht. cbn [mbind option_bind]. rewrite Hn. destruct mv as [dest|].
  2: { destruct (write_file st path (Utf8.encode new)) as [st1 [[]|e]] eqn:Ew;
         intros [= <- <- <-]; [|split; [by apply commits_inexact|done]].
       apply write_text in Ew; [|done]. split; [|eauto].
       eapply commits_one; [|reflexivity|exact Ew]. simpl. intros He. by split; [apply Hd1|]. }
  set (dest_abs := Path.resolve_path_against_base home_dir dest cwd).
  destruct (read_optional_file_text_for_delta dest_abs st (exact d1)) as [ov ex] eqn:Er.
  destruct (write_file_with_missing_parent_retry _ _ _) as [st1 [[]|e]] eqn:Ew;
    [|intros [= <- <- <-]; split; [by apply commits_inexact|done]].
  apply write_retry_text in Ew; [|done].
  assert (ex = true -> exact d = true /\ ov = text st dest_abs) as Hex.
  { intros ->. apply read_optional_exact in Er as [? ?]; [|done]. auto. }
  assert (commits st st1 d (push_change (set_exact d1 ex) dest_abs (Add new ov))) as Hadd.
  { eapply commits_one; [|reflexivity|exact Ew]. exact Hex. }
  destruct (ensure_not_directory path st1) as [[]|e]; [|by intros [= <- <- <-]].
  destruct (remove st1 path remove_options) as [st2 [[]|e]] eqn:Em; intros [= <- <- <-].
  - apply remove_text in Em. split; [|by eexists; split; [done|rewrite Em, Ew]].
    eapply (commits_one _ _ _ _ (mkChange path (Update (Some dest_abs) old ov new))).
    + intros He. destruct (Hex He). split; [done|]. unfold consistent. simpl. by rewrite Ht.
    + simpl. rewrite insert_app_r_alt by done. by rewrite Nat.sub_diag.
    + unfold replay_change. simpl. by rewrite Em, Ew.
  - split; [|done]. simpl. eapply commits_trans; [exact Hadd|].
    apply commits_nothing; [|done]. simpl. intros [He Hf]%andb_true_iff. split; [done|].
    by apply (remove_failed_text path st1 st2 e false (Some old)).
Qed.

Lemma apply_hunk_sound cwd hunk st d st' d' r :
  hunk_scalar hunk -> apply_hunk home_dir cwd hunk st d = (st', d', r) ->
  hunk_sound cwd hunk st st' d d' r.
Proof.
  destruct hunk; simpl; intros Hs; [by apply apply_add_sound|apply apply_delete_sound|].
  by apply apply_update_sound.
Qed.

Lemma spec_hunk_proper cwd h v w v' :
  v ≡ w -> spec_hunk home_dir cwd h v = Some v' ->
  exists w', spec_hunk home_dir cwd h w = Some w' /\ v' ≡ w'.
Proof.
  intros Hv. unfold spec_hunk. destruct h as [p c|p|p mv cs].
  - intros [= <-]. eexists. split; [done|]. by rewrite Hv.
  - intros [= <-]. eexists. split; [done|]. by rewrite Hv.
  - rewrite (Hv _). destruct (w _) as [old|]; simpl; [|done].
    destruct (Replace.new_contents_from_chunks _ _ _) as [[new|]|]; [|done..].
    destruct mv; intros [= <-]; eexists; (split; [done|]); by rewrite Hv.
Qed.

Lemma hunk_loop_sound cwd hunks st d a st' d' r v :
  Forall hunk_scalar hunks -> v ≡ text st -> hunk_loop home_dir cwd hunks st d a = (st', d', r) ->
  commits st st' d d' /\
  (forall a', r = Ok a' ->
     a' = fold_left (fun a h => note_affected h a) hunks a /\
     exists v', spec_hunks home_dir cwd hunks v = Some v' /\ text st' ≡ v').
Proof.
  intros Hs. revert st d a v; induction Hs as [|h hunks Hh Hs IH]; intros st d a v Hv; simpl.
  - intros [= <- <- <-]. split; [by apply commits_nothing|]. intros a' [= <-]. split; [done|].
    by exists v.
  - destruct (apply_hunk home_dir cwd h st d) as [[st1 d1] r1] eqn:Eh.
    apply apply_hunk_sound in Eh as [Hc Hsp]; [|done].
    destruct r1 as [[]|e]; [|by intros [= <- <- <-]].
    destruct (Hsp eq_refl) as (v1 & Hv1 & Ht1).
    destruct (spec_hunk_proper cwd h (text st) v v1) as (w & Hw & Hvw); [done..|].
    rewrite Hw. simpl. intros Hl.
    destruct (IH st1 d1 _ w ltac:(by rewrite Ht1) Hl) as [Hc2 Hok].
    split; [by eapply commits_trans|done].
Qed.

(** ** Properties *)

(** C1: Whatever happens (success, a failing search, an I/O error at any point), if
    the delta that [apply_hunks] hands back is marked exact, then it accounts for
    the file system: replaying its changes on the old contents gives the new
    contents, and undoing them, last first, gives the old contents back. *)
Theorem exact_delta_is_faithful `{Write Out} `{Write ErrOut} hunks cwd
    (stdout : Out) (stderr : ErrOut) st st' out err r :
  Forall hunk_scalar hunks ->
  apply_hunks home_dir hunks cwd stdout stderr st = (st', out, err, r) ->
  let d := match r with Ok d => d | Err f => delta f end in
  exact d = true ->
  text st' ≡ replay (changes d) (text st) /\ undo (changes d) (text st') ≡ text st.
Proof.
  intros Hs Ha d Hx.
  enough (commits st st' empty_delta d) as Hc.
  { destruct (Hc Hx) as (_ & new & Hch & Ht & Hu). simpl in Hch. by rewrite Hch. }
  unfold d. clear Hx d. revert Ha. unfold apply_hunks, apply_hunks_to_files. destruct hunks as [|h hs].
  { destruct (writeln stderr _) as [? [|]]; intros [= <- <- <- <-]; simpl;
      by apply commits_nothing. }
  destruct (hunk_loop _ _ _ _ _ _) as [[st1 d1] r1] eqn:El.
  eapply hunk_loop_sound in El as [Hc _]; [|done|done].
  destruct r1; [destruct (print_summary _ _) as [? [|]]|destruct (writeln stderr _) as [? [|]]];
    intros [= <- <- <- <-]; done.
Qed.

(** When [apply_hunks_to_files] succeeds, the file system shows what the hunks
    say, applied one after the other to what it showed before: an added file has
    its contents, a deleted file is gone, an updated file has the contents
    derived from its chunks (under its new name when it moved), and every other
    file is untouched.  The report lists the paths of the hunks by kind. *)
Theorem apply_hunks_refines_spec hunks cwd st st' d a :
  Forall hunk_scalar hunks ->
  apply_hunks_to_files home_dir hunks cwd st empty_delta = (st', d, Ok a) ->
  hunks <> [] /\ a = report hunks /\
  exists v, spec_hunks home_dir cwd hunks (text st) = Some v /\ text st' ≡ v.
Proof.
  intros Hs. unfold apply_hunks_to_files. destruct hunks as [|h hs]; [done|]. intros El.
  eapply hunk_loop_sound in El as [_ Hok]; [|done|done]. destruct (Hok a eq_refl) as [-> ?].
  split_and!; [done| |done]. by rewrite note_affected_report.
Qed.

(** A patch that does not parse leaves the file system alone and reports an
    empty, exact delta; so does a patch without hunks. *)
Theorem rejected_patch_changes_nothing `{Write Out} `{Write ErrOut} patch cwd
    (stdout : Out) (stderr : ErrOut) st st' out err r :
  (exists e, parse_patch patch = Err e) \/
  (exists args, parse_patch patch = Ok args /\ Patch.hunks args = []) ->
  apply_patch home_dir patch cwd stdout stderr st = (st', out, err, r) ->
  st' = st /\ out = stdout /\ exists f, r = Err f /\ delta f = empty_delta.
Proof.
  unfold apply_patch. intros [[e ->]|(args & -> & Hh)].
  - destruct (writeln stderr _) as [? [|]]; intros [= <- <- <- <-]; eauto 6.
  - rewrite Hh. unfold apply_hunks. simpl.
    destruct (writeln stderr _) as [? [|]]; intros [= <- <- <- <-]; eauto 6.
Qed.

(** An update whose [Move to] names the file it updates ends with the file gone:
    the new contents are written and the same path is then removed. *)
Theorem move_onto_itself_deletes cwd p dest chunks st d st' d' :
  Forall (fun c => Forall (Forall Utf8.scalar) (new_lines c)) chunks ->
  Path.resolve_path_against_base home_dir dest cwd = Path.resolve_path_against_base home_dir p cwd ->
  apply_hunk home_dir cwd (UpdateFile p (Some dest) chunks) st d = (st', d', Ok tt) ->
  text st' (Path.resolve_path_against_base home_dir p cwd) = None.
Proof.
  intros Hs He Ha. apply apply_hunk_sound in Ha as [_ Hsp]; [|done].
  destruct (Hsp eq_refl) as (v & Hv & Ht). rewrite (Ht _). unfold spec_hunk in Hv.
  destruct (text st _) as [old|]; [|done]. cbn [mbind option_bind] in Hv.
  destruct (Replace.new_contents_from_chunks _ _ _) as [[new|]|]; simplify_eq.
  apply set_same.
Qed.

End sound.

(** ** Witnesses *)

#[global] Instance string_write : Write str := fun w s => (w ++ s, Ok tt).

Definition demo_fs : Memory :=
  mkMemory {[ $"/w/a" := Utf8.encode ($"one" ++ [newline] ++ $"two" ++ [newline]);
              $"/w/old" := Utf8.encode $"x" ]} {[ $"/"; $"/w" ]}.
Definition demo_hunks : list Hunk :=
  [AddFile $"sub/n" ($"hi" ++ [newline]);
   UpdateFile $"a" (Some $"b") [mkChunk None [$"two"] [$"2"] false];
   DeleteFile $"/w/old"].
Definition demo_run := apply_hunks None demo_hunks $"/w" ([] : str) ([] : str) demo_fs.

Lemma demo_hunks_scalar : Forall hunk_scalar demo_hunks.
Proof. repeat constructor; by left. Qed.

Lemma exact_delta_is_faithful_witness :
  exists d, demo_run.2 = Ok d /\ exact d = true /\
    text demo_run.1.1.1 ≡ replay (changes d) (text demo_fs) /\
    undo (changes d) (text demo_run.1.1.1) ≡ text demo_fs.
Proof.
  assert (exists d, demo_run = (demo_run.1.1.1, demo_run.1.1.2, demo_run.1.2, Ok d) /\ exact d = true)
    as (d & Hd & Hx) by (eexists; vm_compute; split; reflexivity).
  exists d. split; [by rewrite Hd|]. split; [done|].
  refine (exact_delta_is_faithful None demo_hunks $"/w" [] [] demo_fs _ _ _ (Ok d) _ Hd Hx).
  exact demo_hunks_scalar.
Defined.

Lemma apply_hunks_refines_spec_witness :
  exists st' d a, apply_hunks_to_files None demo_hunks $"/w" demo_fs empty_delta = (st', d, Ok a) /\
    exists v, spec_hunks None $"/w" demo_hunks (text demo_fs) = Some v /\ text st' ≡ v.
Proof.
  destruct (apply_hunks_to_files None demo_hunks $"/w" demo_fs empty_delta) as [[st' d] r] eqn:E.
  destruct r as [a|e]; [|vm_compute in E; discriminate E].
  exists st', d, a. split; [done|].
  apply (apply_hunks_refines_spec None demo_hunks $"/w" demo_fs st' d a demo_hunks_scalar E).
Defined.

Lemma rejected_patch_changes_nothing_witness :
  exists st' out err r, apply_patch None $"nonsense" $"/w" ([] : str) ([] : str) demo_fs
      = (st', out, err, r) /\
    st' = demo_fs /\ out = [] /\ exists f, r = Err f /\ delta f = empty_delta.
Proof.
  destruct (apply_patch None $"nonsense" $"/w" ([] : str) ([] : str) demo_fs)
    as [[[st' out] err] r] eqn:E.
  exists st', out, err, r. split; [done|].
  apply (rejected_patch_changes_nothing None $"nonsense" $"/w" [] [] demo_fs st' out err r);
    [left; eexists; vm_compute; reflexivity|exact E].
Defined.

Lemma move_onto_itself_deletes_witness :
  exists st' d', apply_hunk None $"/w" (UpdateFile $"a" (Some $"./a")
        [mkChunk None [$"two"] [$"2"] false]) demo_fs empty_delta = (st', d', Ok tt) /\
    text st' $"/w/a" = None.
Proof.
  destruct (apply_hunk None $"/w" (UpdateFile $"a" (Some $"./a")
        [mkChunk None [$"two"] [$"2"] false]) demo_fs empty_delta) as [[st' d'] r] eqn:E.
  destruct r as [[]|e]; [|vm_compute in E; discriminate E].
  exists st', d'. split; [done|].
  apply (move_onto_itself_deletes None $"/w" $"a" $"./a" [mkChunk None [$"two"] [$"2"] false]
           demo_fs empty_delta st' d'); [repeat constructor; by left|vm_compute; reflexivity|exact E].
Defined.

End Apply.
