(* ===== verification/ExecPolicyRule.v ===== *)
(** The rules of the execution policy ([codex-rs/execpolicy/src]): [decision.rs],
    [rule.rs] and [executable_name.rs].  Every rule of the crate is a prefix rule,
    so [dyn Rule] is [PrefixRule]. *)
From S2P Require Import Prelude Paths.

Module Rule.

(** ** decision.rs *)

Inductive Decision := Allow | Prompt | Forbidden.
#[global] Instance decision_eq_dec : EqDecision Decision.
Proof. solve_decision. Defined.

(** The derived order: the order of the constructors. *)
Definition rank (d : Decision) : nat := match d with Allow => 0 | Prompt => 1 | Forbidden => 2 end.
Definition decision_max (a b : Decision) : Decision := if rank a <=? rank b then b else a.

Record TextPosition := mkPosition { line : nat; column : nat }.
Record TextRange := mkRange { range_start : TextPosition; range_end : TextPosition }.
Record ErrorLocation := mkLocation { location_path : str; range : TextRange }.

(** ** rule.rs: patterns *)

Inductive PatternToken :=
| Single (expected : str)
| Alts (alternatives : list str).
#[global] Instance pattern_token_eq_dec : EqDecision PatternToken.
Proof. solve_decision. Defined.

Definition token_matches (t : PatternToken) (token : str) : bool :=
  match t with
  | Single expected => bool_decide (expected = token)
  | Alts alternatives => existsb (fun alt => bool_decide (alt = token)) alternatives
  end.
Definition alternatives (t : PatternToken) : list str :=
  match t with Single expected => [expected] | Alts l => l end.

Record PrefixPattern := mkPattern { first : str; rest : list PatternToken }.
#[global] Instance prefix_pattern_eq_dec : EqDecision PrefixPattern.
Proof. solve_decision. Defined.

Definition matches_prefix (p : PrefixPattern) (cmd : list str) : option (list str) :=
  let pattern_length := length (rest p) + 1 in
  match cmd with
  | [] => None
  | program :: args =>
      if (length cmd <? pattern_length) || negb (bool_decide (program = first p)) then None
      else if forallb (fun '(t, token) => token_matches t token)
                (zip (rest p) (take (pattern_length - 1) args))
      then Some (take pattern_length cmd)
      else None
  end.

Inductive RuleMatch :=
| PrefixRuleMatch (matched_prefix : list str) (decision : Decision)
    (resolved_program : option str) (justification : option str)
| HeuristicsRuleMatch (command : list str) (decision : Decision).

Definition match_decision (m : RuleMatch) : Decision :=
  match m with PrefixRuleMatch _ d _ _ | HeuristicsRuleMatch _ d => d end.
Definition with_resolved_program (m : RuleMatch) (program : str) : RuleMatch :=
  match m with
  | PrefixRuleMatch prefix d _ j => PrefixRuleMatch prefix d (Some program) j
  | other => other
  end.

Record PrefixRule := mkRule {
  pattern : PrefixPattern;
  rule_decision : Decision;
  rule_justification : option str
}.
#[global] Instance prefix_rule_eq_dec : EqDecision PrefixRule.
Proof. solve_decision. Defined.

(** [impl Rule for PrefixRule]. *)
Definition program (r : PrefixRule) : str := first (pattern r).
Definition rule_matches (r : PrefixRule) (cmd : list str) : option RuleMatch :=
  (fun prefix => PrefixRuleMatch prefix (rule_decision r) None (rule_justification r))
    <$> matches_prefix (pattern r) cmd.

(** ** error.rs *)

(** A failing builtin surfaces as a Starlark error that carries its cause. *)
Inductive Error :=
| InvalidDecision (raw : str)
| InvalidPattern (message : str)
| InvalidExample (message : str)
| InvalidRule (message : str)
| ExampleDidNotMatch (rules : list PrefixRule) (examples : list str)
    (location : option ErrorLocation)
| ExampleDidMatch (rule : RuleMatch) (example : str) (location : option ErrorLocation)
| Starlark (message : str)
| StarlarkBuiltin (cause : Error).

Definition with_location (e : Error) (location : ErrorLocation) : Error :=
  match e with
  | ExampleDidNotMatch rules examples None => ExampleDidNotMatch rules examples (Some location)
  | ExampleDidMatch rule example None => ExampleDidMatch rule example (Some location)
  | other => other
  end.

Definition parse_decision (raw : str) : result Error Decision :=
  if decide (raw = $"allow") then Ok Allow
  else if decide (raw = $"prompt") then Ok Prompt
  else if decide (raw = $"forbidden") then Ok Forbidden
  else Err (InvalidDecision raw).

(** ** rule.rs: network rules *)

Inductive NetworkRuleProtocol := Http | Https | Socks5Tcp | Socks5Udp.
Definition parse_protocol (raw : str) : result Error NetworkRuleProtocol :=
  if decide (raw = $"http") then Ok Http
  else if decide (raw = $"https" \/ raw = $"https_connect" \/ raw = $"http-connect") then Ok Https
  else if decide (raw = $"socks5_tcp") then Ok Socks5Tcp
  else if decide (raw = $"socks5_udp") then Ok Socks5Udp
  else Err (InvalidRule
    ($"network_rule protocol must be one of http, https, socks5_tcp, socks5_udp (got "
     ++ raw ++ $")")).
Definition as_policy_string (p : NetworkRuleProtocol) : str :=
  match p with
  | Http => $"http"
  | Https => $"https"
  | Socks5Tcp => $"socks5_tcp"
  | Socks5Udp => $"socks5_udp"
  end.

Record NetworkRule := mkNetworkRule {
  host : str;
  protocol : NetworkRuleProtocol;
  network_decision : Decision;
  network_justification : option str
}.

Definition msg_host_empty : str := $"network_rule host cannot be empty".
Definition msg_host_scheme : str :=
  $"network_rule host must be a hostname or IP literal (without scheme or path)".
Definition msg_host_bracket : str := $"network_rule host has an invalid bracketed IPv6 literal".
Definition msg_host_suffix (raw : str) : str :=
  $"network_rule host contains an unsupported suffix: " ++ raw.
Definition msg_host_wildcard : str :=
  $"network_rule host must be a specific host; wildcards are not allowed".
Definition msg_host_whitespace : str := $"network_rule host cannot contain whitespace".

Definition all_digits (s : str) : bool := negb (Str.is_empty s) && forallb Str.is_ascii_digit s.
Definition count_char (c : char) (s : str) : nat := length (filter (fun x => x = c) s).

(** The host without brackets or port. *)
Definition strip_port (raw trimmed : str) : result Error str :=
  match Str.strip_prefix $"[" trimmed with
  | Some stripped =>
      match Str.split_once (ch "]") stripped with
      | None => Err (InvalidRule msg_host_bracket)
      | Some (inside, rest) =>
          let port_ok :=
            match Str.strip_prefix $":" rest with Some port => all_digits port | None => false end in
          if negb (Str.is_empty rest) && negb port_ok then Err (InvalidRule (msg_host_suffix raw))
          else Ok inside
      end
  | None =>
      if count_char (ch ":") trimmed =? 1 then
        match Str.rsplit_once (ch ":") trimmed with
        | Some (candidate, port) =>
            if negb (Str.is_empty candidate) && all_digits port then Ok candidate else Ok trimmed
        | None => Ok trimmed
        end
      else Ok trimmed
  end.

Definition normalize_network_rule_host (raw : str) : result Error str :=
  let trimmed := Str.trim raw in
  if Str.is_empty trimmed then Err (InvalidRule msg_host_empty)
  else if Str.contains $"://" trimmed || Str.contains_char (ch "/") trimmed
          || Str.contains_char (ch "?") trimmed || Str.contains_char (ch "#") trimmed
  then Err (InvalidRule msg_host_scheme)
  else
    host ← strip_port raw trimmed;
    let normalized :=
      Str.to_ascii_lowercase (Str.trim (Str.trim_end_by (N.eqb (ch ".")) host)) in
    if Str.is_empty normalized then Err (InvalidRule msg_host_empty)
    else if Str.contains_char (ch "*") normalized then Err (InvalidRule msg_host_wildcard)
    else if existsb Str.is_whitespace normalized then Err (InvalidRule msg_host_whitespace)
    else Ok normalized.

(** ** executable_name.rs, off Windows *)

Definition executable_lookup_key (raw : str) : str := raw.
Definition executable_path_lookup_key (path : str) : option str :=
  executable_lookup_key <$> Path.file_name path.

(** ** Lemmas *)

Lemma token_matches_spec t token : token_matches t token = true <-> token ∈ alternatives t.
Proof.
  destruct t as [e|l]; simpl.
  - rewrite bool_decide_eq_true, list_elem_of_singleton. naive_solver.
  - rewrite existsb_exists. setoid_rewrite bool_decide_eq_true.
    setoid_rewrite <- list_elem_of_In. naive_solver.
Qed.

Lemma zip_matches ts tokens :
  length ts = length tokens ->
  forallb (fun '(t, token) => token_matches t token) (zip ts tokens) = true <->
  Forall2 (fun t token => token ∈ alternatives t) ts tokens.
Proof.
  revert tokens; induction ts as [|t ts IH]; intros [|token tokens]; simpl; try done.
  intros [= Hl]. by rewrite andb_true_iff, token_matches_spec, IH, Forall2_cons.
Qed.

(** The matched prefix is the start of the command, one token per pattern token. *)
Lemma matches_prefix_Some p cmd prefix :
  matches_prefix p cmd = Some prefix <->
  exists args suffix, prefix = first p :: args /\ cmd = prefix ++ suffix /\
    Forall2 (fun t token => token ∈ alternatives t) (rest p) args.
Proof.
  unfold matches_prefix. destruct cmd as [|prog args]; [naive_solver|].
  destruct (Nat.ltb_spec (length (prog :: args)) (length (rest p) + 1)) as [Hlt|Hge]; simpl in *.
  { split; [done|]. intros (a & s & -> & [= -> ->] & Hf). apply Forall2_length in Hf.
    rewrite length_app in Hlt. lia. }
  case_bool_decide as Hp; simpl; [|naive_solver].
  replace (length (rest p) + 1 - 1) with (length (rest p)) by lia.
  replace (length (rest p) + 1) with (S (length (rest p))) by lia.
  assert (length (rest p) = length (take (length (rest p)) args)) as Hl
    by (rewrite length_take; lia).
  pose proof (zip_matches (rest p) _ Hl) as Hz.
  destruct (forallb _ _).
  - destruct Hz as [Hz _]. specialize (Hz eq_refl). split.
    + intros [= <-]. subst. exists (take (length (rest p)) args), (drop (length (rest p)) args).
      split; [done|]. split; [|done]. simpl. by rewrite take_drop.
    + intros (a & s & -> & [= -> ->] & Hf). simpl. f_equal. f_equal. apply Forall2_length in Hf.
      by rewrite Hf, take_app_length.
  - split; [done|]. intros (a & s & -> & [= -> ->] & Hf).
    pose proof (Forall2_length _ _ _ Hf) as Hfl. rewrite Hfl, take_app_length in Hz.
    by apply Hz in Hf.
Qed.

Lemma rule_matches_Some r cmd m :
  rule_matches r cmd = Some m <->
  exists prefix, matches_prefix (pattern r) cmd = Some prefix /\
    m = PrefixRuleMatch prefix (rule_decision r) None (rule_justification r).
Proof. unfold rule_matches. rewrite fmap_Some. naive_solver. Qed.

Lemma decision_max_rank a b : rank (decision_max a b) = max (rank a) (rank b).
Proof. by destruct a, b. Qed.

Lemma rank_inj a b : rank a = rank b -> a = b.
Proof. by destruct a, b. Qed.

Lemma contains_char_spec c s : Str.contains_char c s = true <-> c ∈ s.
Proof.
  unfold Str.contains_char. rewrite existsb_exists. setoid_rewrite <- list_elem_of_In.
  split; [intros (x & Hx & ->%N.eqb_eq); done|]. intros H. exists c. by rewrite N.eqb_refl.
Qed.

(** ** Properties *)

(** A rule matches a command exactly when the command starts with the rule's
    program followed by one token per pattern element, each among that element's
    alternatives; the match reports that prefix with the rule's decision and
    justification, and any further arguments are ignored. *)
Theorem rule_matches_spec r cmd m :
  rule_matches r cmd = Some m <->
  exists args suffix,
    cmd = first (pattern r) :: args ++ suffix /\
    Forall2 (fun t token => token ∈ alternatives t) (rest (pattern r)) args /\
    m = PrefixRuleMatch (first (pattern r) :: args) (rule_decision r) None (rule_justification r).
Proof.
  rewrite rule_matches_Some. setoid_rewrite matches_prefix_Some. split.
  - intros (prefix & (args & suffix & -> & -> & Hf) & ->). by exists args, suffix.
  - intros (args & suffix & -> & Hf & ->). eexists. split; [|done]. by exists args, suffix.
Qed.

Lemma strip_port_incl raw trimmed h : strip_port raw trimmed = Ok h -> forall c, c ∈ h -> c ∈ trimmed.
Proof.
  assert (forall d (s a b : str), Str.split_once d s = Some (a, b) -> forall c, c ∈ a \/ c ∈ b -> c ∈ s)
    as Hsplit.
  { intros d s. induction s as [|x s IH]; intros a b; simpl; [done|].
    destruct (x =? d)%N; [intros [= <- <-] c [Hc|Hc]; set_solver|].
    intros ([a' b'] & Hs & [= <- <-])%bind_Some c Hc. pose proof (IH _ _ Hs c). set_solver. }
  unfold strip_port. destruct (Str.strip_prefix $"[" trimmed) as [s|] eqn:E.
  - apply Str.strip_prefix_Some in E as ->.
    destruct (Str.split_once (ch "]") s) as [[i r]|] eqn:Es; [|done].
    case_match; [done|]. intros [= <-] c Hc. apply elem_of_app. right.
    by eapply Hsplit; [|left].
  - destruct (_ =? 1); [|by intros [= <-]].
    destruct (Str.rsplit_once (ch ":") trimmed) as [[a b]|] eqn:Er; [|by intros [= <-]].
    case_match; [|by intros [= <-]]. intros [= <-] c Hc.
    unfold Str.rsplit_once in Er. apply bind_Some in Er as ([x y] & Hs & [= <- <-]).
    rewrite elem_of_reverse in Hc. pose proof (Hsplit _ _ _ _ Hs c (or_intror Hc)) as Hin.
    by rewrite elem_of_reverse in Hin.
Qed.

Lemma trim_incl s c : c ∈ Str.trim s -> c ∈ s.
Proof.
  unfold Str.trim, Str.trim_end, Str.trim_start. intros Hc.
  destruct (Str.trim_end_by_spec Str.is_whitespace (Str.trim_start_by Str.is_whitespace s))
    as (w & Hw & _).
  destruct (Str.trim_start_by_spec Str.is_whitespace s) as (w' & Hw' & _).
  rewrite Hw', elem_of_app. right. rewrite Hw, elem_of_app. by left.
Qed.

Lemma trim_end_by_incl p s c : c ∈ Str.trim_end_by p s -> c ∈ s.
Proof.
  intros Hc. destruct (Str.trim_end_by_spec p s) as (w & Hw & _).
  rewrite Hw, elem_of_app. by left.
Qed.

(** A host that [normalize_network_rule_host] accepts is not empty and holds no
    whitespace, no wildcard, no path, query or fragment character and no upper
    case ASCII letter, so it can be compared literally with the hosts of later rules. *)
Theorem normalized_host_is_literal raw h :
  normalize_network_rule_host raw = Ok h ->
  h <> [] /\ forall c, c ∈ h ->
    Str.is_whitespace c = false /\ c <> ch "*" /\ c <> ch "/" /\ c <> ch "?" /\ c <> ch "#" /\
    Str.char_to_ascii_lowercase c = c.
Proof.
  unfold normalize_network_rule_host. destruct (Str.is_empty (Str.trim raw)); [done|].
  destruct (_ || _) eqn:Ec; [done|]. rewrite !orb_false_iff in Ec.
  destruct Ec as [[[_ Hslash] Hq] Hhash]. intros H. apply bind_Ok in H as (host0 & Hp & H).
  set (low := Str.to_ascii_lowercase _) in H.
  destruct (Str.is_empty low) eqn:Ee; [done|]. destruct (Str.contains_char (ch "*") low) eqn:Es; [done|].
  destruct (existsb Str.is_whitespace low) eqn:Ew; [done|]. injection H as <-.
  split; [by intros E; rewrite E in Ee|]. intros c Hc.
  assert (c <> ch "*") as Hstar.
  { intros ->. apply contains_char_spec in Hc. congruence. }
  assert (Str.is_whitespace c = false) as Hws.
  { destruct (Str.is_whitespace c) eqn:E; [|done]. rewrite <- Ew. symmetry.
    apply existsb_exists. exists c. by rewrite <- list_elem_of_In. }
  unfold low, Str.to_ascii_lowercase in Hc. apply list_elem_of_fmap in Hc as (c0 & -> & Hc0).
  apply trim_incl, trim_end_by_incl, (strip_port_incl _ _ _ Hp) in Hc0.
  assert (forall x, Str.contains_char x (Str.trim raw) = false -> c0 <> x) as Hne.
  { intros x Hx ->. apply contains_char_spec in Hc0. congruence. }
  apply Hne in Hslash, Hq, Hhash. clear Hne. split_and!; try done.
  all: unfold Str.char_to_ascii_lowercase in *; unfold ch in *; simpl in *.
  all: repeat match goal with |- context [(?a <=? ?b)%N] => destruct (N.leb_spec a b) end;
    simpl in *; try lia; try congruence.
Qed.

Lemma normalized_host_is_literal_witness :
  normalize_network_rule_host $" Example.COM.:443 " = Ok $"example.com" /\
  ($"example.com" : str) <> [] /\ forall c, c ∈ ($"example.com" : str) ->
    Str.is_whitespace c = false /\ c <> ch "*" /\ c <> ch "/" /\ c <> ch "?" /\ c <> ch "#" /\
    Str.char_to_ascii_lowercase c = c.
Proof.
  split; [vm_compute; reflexivity|].
  apply (normalized_host_is_literal $" Example.COM.:443 "). vm_compute. reflexivity.
Defined.

End Rule.
