(* ===== verification/ExecPolicy.v ===== *)
(** The execution policy ([codex-rs/execpolicy/src/policy.rs]): rules by program,
    network rules and host executables; how a command is checked, how policies are
    merged and how network rules compile to domain lists.  The [MultiMap] is a
    finite map to the vector of its values; the home and current directories, which
    [AbsolutePathBuf::try_from] consults, are arguments. *)
From stdpp Require Import gmap sorting.
From S2P Require Import Prelude Paths ExecPolicyRule.
Import Rule.

Module Policy.

Record Policy := mkPolicy {
  rules_by_program : gmap str (list PrefixRule);
  network_rules : list NetworkRule;
  host_executables_by_name : gmap str (list str)
}.
Definition empty : Policy := mkPolicy ∅ [] ∅.

(** [MultiMap::get_vec] and [MultiMap::insert]. *)
Definition get_vec (m : gmap str (list PrefixRule)) (k : str) : list PrefixRule :=
  default [] (m !! k).
Definition multimap_insert (k : str) (r : PrefixRule) (m : gmap str (list PrefixRule))
    : gmap str (list PrefixRule) :=
  <[k := get_vec m k ++ [r]]> m.

Record MatchOptions := mkOptions { resolve_host_executables : bool }.
Definition default_options : MatchOptions := mkOptions false.

Record Evaluation := mkEvaluation { decision : Decision; matched_rules : list RuleMatch }.

(** ** Building a policy *)

Definition add_prefix_rule (p : Policy) (prefix : list str) (d : Decision) : result Error Policy :=
  match prefix with
  | [] => Err (InvalidPattern $"prefix cannot be empty")
  | first_token :: rest =>
      let rule := mkRule (mkPattern first_token (Single <$> rest)) d None in
      Ok (mkPolicy (multimap_insert first_token rule (rules_by_program p)) (network_rules p)
            (host_executables_by_name p))
  end.

Definition msg_justification : str := $"justification cannot be empty".

Definition add_network_rule (p : Policy) (host : str) (protocol : NetworkRuleProtocol)
    (d : Decision) (justification : option str) : result Error Policy :=
  host ← normalize_network_rule_host host;
  if from_option (fun raw => Str.is_empty (Str.trim raw)) false justification
  then Err (InvalidRule msg_justification)
  else Ok (mkPolicy (rules_by_program p)
             (network_rules p ++ [mkNetworkRule host protocol d justification])
             (host_executables_by_name p)).

Definition set_host_executable_paths (p : Policy) (name : str) (paths : list str) : Policy :=
  mkPolicy (rules_by_program p) (network_rules p)
    (<[name := paths]> (host_executables_by_name p)).

(** The rules of the overlay are inserted one by one, after those of the base. *)
Definition merge_rules (base overlay : gmap str (list PrefixRule)) : gmap str (list PrefixRule) :=
  foldr (fun '(program, rules) m => fold_left (fun m r => multimap_insert program r m) rules m)
    base (map_to_list overlay).
Definition merge_overlay (p overlay : Policy) : Policy :=
  mkPolicy (merge_rules (rules_by_program p) (rules_by_program overlay))
    (network_rules p ++ network_rules overlay)
    (host_executables_by_name overlay ∪ host_executables_by_name p).

(** ** Network domains *)

Definition retain_other (host : str) (entries : list str) : list str :=
  filter (fun e => e <> host) entries.
Definition upsert_domain (entries : list str) (host : str) : list str :=
  retain_other host entries ++ [host].
Definition domain_step (acc : list str * list str) (rule : NetworkRule) : list str * list str :=
  let '(allowed, denied) := acc in
  match network_decision rule with
  | Allow => (upsert_domain allowed (host rule), retain_other (host rule) denied)
  | Forbidden => (retain_other (host rule) allowed, upsert_domain denied (host rule))
  | Prompt => (allowed, denied)
  end.
Definition compiled_network_domains (p : Policy) : list str * list str :=
  fold_left domain_step (network_rules p) ([], []).

(** ** Allowed prefixes *)

Definition render_pattern_token (t : PatternToken) : str :=
  match t with
  | Single value => value
  | Alts l => $"[" ++ Str.join $"|" l ++ $"]"
  end.
Definition rendered_prefix (r : PrefixRule) : list str :=
  first (pattern r) :: (render_pattern_token <$> rest (pattern r)).

(** The order of [Vec<Vec<String>>]: lexicographic at both levels. *)
Definition prefix_leb : list str -> list str -> bool :=
  lex_leb str_ltb (fun a b => bool_decide (a = b)).
Definition prefix_le (a b : list str) : Prop := prefix_leb a b = true.
#[global] Instance prefix_le_dec a b : base.Decision (prefix_le a b).
Proof. unfold prefix_le. apply _. Defined.
(** [Vec::dedup]: drops an element equal to the one before it. *)
Fixpoint dedup (l : list (list str)) : list (list str) :=
  match l with
  | [] => []
  | x :: l' =>
      match dedup l' with
      | y :: t => if bool_decide (x = y) then y :: t else x :: y :: t
      | [] => [x]
      end
  end.
Definition get_allowed_prefixes (p : Policy) : list (list str) :=
  dedup (merge_sort prefix_le
    (rendered_prefix <$> filter (fun r => rule_decision r = Allow)
       (concat (snd <$> map_to_list (rules_by_program p))))).

(** ** Checking a command *)

Section check.
Variable home_dir : option str.
Variable current_dir : result Io.Error str.

Definition match_exact_rules (p : Policy) (cmd : list str) : option (list RuleMatch) :=
  first ← head cmd;
  Some (omap (fun rule => rule_matches rule cmd) (get_vec (rules_by_program p) first)).

Definition match_host_executable_rules (p : Policy) (cmd : list str) : list RuleMatch :=
  match cmd with
  | [] => []
  | first :: args =>
      match Path.from_absolute_path home_dir current_dir first with
      | Err _ => []
      | Ok program =>
          match executable_path_lookup_key program with
          | None => []
          | Some basename =>
              match rules_by_program p !! basename with
              | None => []
              | Some rules =>
                  let refused :=
                    match host_executables_by_name p !! basename with
                    | Some paths => negb (existsb (fun path => bool_decide (path = program)) paths)
                    | None => false
                    end in
                  if refused then []
                  else (fun m => with_resolved_program m program)
                         <$> omap (fun rule => rule_matches rule (basename :: args)) rules
              end
          end
      end
  end.

Definition non_empty (l : list RuleMatch) : option (list RuleMatch) :=
  match l with [] => None | _ => Some l end.

Definition matches_for_command_with_options (p : Policy) (cmd : list str)
    (heuristics_fallback : option (list str -> Decision)) (options : MatchOptions)
    : list RuleMatch :=
  let matched_rules :=
    match match_exact_rules p cmd ≫= non_empty with
    | Some l => l
    | None =>
        if resolve_host_executables options then match_host_executable_rules p cmd else []
    end in
  match matched_rules, heuristics_fallback with
  | [], Some fallback => [HeuristicsRuleMatch cmd (fallback cmd)]
  | _, _ => matched_rules
  end.
Definition matches_for_command (p : Policy) (cmd : list str)
    (heuristics_fallback : option (list str -> Decision)) : list RuleMatch :=
  matches_for_command_with_options p cmd heuristics_fallback default_options.

(** [None] is the panic of [expect] on an empty list. *)
Definition from_matches (matched_rules : list RuleMatch) : option Evaluation :=
  match matched_rules with
  | [] => None
  | m :: ms =>
      Some (mkEvaluation
              (fold_left (fun d m => decision_max d (match_decision m)) ms (match_decision m))
              matched_rules)
  end.
Definition is_match (e : Evaluation) : bool :=
  existsb (fun m => match m with HeuristicsRuleMatch _ _ => false | _ => true end)
    (matched_rules e).

Definition check_with_options (p : Policy) (cmd : list str) (fallback : list str -> Decision)
    (options : MatchOptions) : option Evaluation :=
  from_matches (matches_for_command_with_options p cmd (Some fallback) options).
Definition check (p : Policy) (cmd : list str) (fallback : list str -> Decision)
    : option Evaluation :=
  check_with_options p cmd fallback default_options.
Definition check_multiple_with_options (p : Policy) (commands : list (list str))
    (fallback : list str -> Decision) (options : MatchOptions) : option Evaluation :=
  from_matches (concat ((fun command =>
    matches_for_command_with_options p command (Some fallback) options) <$> commands)).
Definition check_multiple (p : Policy) (commands : list (list str))
    (fallback : list str -> Decision) : option Evaluation :=
  check_multiple_with_options p commands fallback default_options.

(** ** Lemmas: evaluation *)

Lemma matches_fallback_ne p cmd fallback options :
  matches_for_command_with_options p cmd (Some fallback) options <> [].
Proof. unfold matches_for_command_with_options. by repeat case_match. Qed.

Lemma max_fold ms d :
  let e := fold_left (fun d m => decision_max d (match_decision m)) ms d in
  rank d <= rank e /\ Forall (fun m => rank (match_decision m) <= rank e) ms /\
  (e = d \/ Exists (fun m => match_decision m = e) ms).
Proof.
  revert d; induction ms as [|m ms IH]; intros d; simpl.
  - split_and!; [lia|constructor|by left].
  - destruct (IH (decision_max d (match_decision m))) as (H1 & H2 & H3).
    rewrite decision_max_rank in H1. split_and!; [lia|constructor; [lia|done]|].
    destruct H3 as [H3|H3]; [|by right; right]. rewrite H3.
    unfold decision_max. destruct (_ <=? _); [by right; left|by left].
Qed.

Lemma from_matches_spec ms e :
  from_matches ms = Some e <->
  matched_rules e = ms /\ ms <> [] /\ Forall (fun m => rank (match_decision m) <= rank (decision e)) ms /\
  Exists (fun m => match_decision m = decision e) ms.
Proof.
  destruct ms as [|m ms]; simpl.
  { split; [done|]. intros (_ & ? & _). done. }
  destruct (max_fold ms (match_decision m)) as (H1 & H2 & H3). split.
  - intros [= <-]. simpl. split_and!; [done|done|by constructor|].
    destruct H3 as [H3|H3]; [by left|by right].
  - intros (He & _ & Hf & Hex). destruct e as [d rs]. simpl in *. subst rs. f_equal. f_equal.
    set (x := fold_left _ ms _) in *. apply rank_inj.
    apply Forall_cons in Hf as [Hf1 Hf2].
    assert (rank x <= rank d) as Hle.
    { destruct H3 as [->|H3]; [done|]. apply Exists_exists in H3 as (m' & Hm' & <-).
      rewrite Forall_forall in Hf2. by apply Hf2. }
    assert (rank d <= rank x); [|lia].
    apply Exists_cons in Hex as [<-|Hex]; [done|].
    apply Exists_exists in Hex as (m' & Hm' & <-). rewrite Forall_forall in H2. by apply H2.
Qed.

(** ** Lemmas: rules of a merged policy *)

Lemma get_vec_insert k r m k' :
  get_vec (multimap_insert k r m) k' = get_vec m k' ++ (if decide (k' = k) then [r] else []).
Proof.
  unfold multimap_insert, get_vec at 1. case_decide as E.
  - subst. by rewrite lookup_insert_eq.
  - rewrite lookup_insert_ne by done. by rewrite app_nil_r.
Qed.

Lemma get_vec_inserts k rs m k' :
  get_vec (fold_left (fun m r => multimap_insert k r m) rs m) k' =
  get_vec m k' ++ (if decide (k' = k) then rs else []).
Proof.
  revert m; induction rs as [|r rs IH]; intros m; simpl.
  - case_decide; by rewrite app_nil_r.
  - rewrite IH, get_vec_insert. case_decide; [by rewrite <- app_assoc|by rewrite !app_nil_r].
Qed.

Lemma get_vec_merge base overlay k :
  get_vec (merge_rules base overlay) k = get_vec base k ++ get_vec overlay k.
Proof.
  unfold merge_rules.
  assert (forall l, NoDup (l.*1) ->
    get_vec (foldr (fun '(program, rules) m =>
      fold_left (fun m r => multimap_insert program r m) rules m) base l) k =
    get_vec base k ++ default [] ((list_to_map l : gmap str (list PrefixRule)) !! k)) as H.
  { intros l. induction l as [|[q rs] l IH]; intros Hnd; simpl.
    - rewrite lookup_empty. simpl. by rewrite app_nil_r.
    - inversion Hnd; subst. rewrite get_vec_inserts, IH by done. case_decide as E.
      + subst. rewrite lookup_insert_eq. rewrite (not_elem_of_list_to_map_1 l q) by done. simpl.
        by rewrite app_nil_r.
      + rewrite lookup_insert_ne by done. by rewrite app_nil_r. }
  rewrite H by apply NoDup_fst_map_to_list. by rewrite list_to_map_to_list.
Qed.

Lemma match_exact_merge p q cmd :
  match_exact_rules (merge_overlay p q) cmd =
  match match_exact_rules p cmd, match_exact_rules q cmd with
  | Some a, Some b => Some (a ++ b)
  | _, _ => None
  end.
Proof.
  unfold match_exact_rules. destruct cmd as [|first args]; simpl; [done|].
  by rewrite get_vec_merge, omap_app.
Qed.

(** ** Lemmas: domains *)

Definition last_verdict (rules : list NetworkRule) (h : str) : option Decision :=
  last (network_decision <$> filter (fun r => host r = h /\ network_decision r <> Prompt) rules).

Lemma elem_retain h entries x : x ∈ retain_other h entries <-> x <> h /\ x ∈ entries.
Proof. unfold retain_other. by rewrite list_elem_of_filter. Qed.
Lemma elem_upsert h entries x : x ∈ upsert_domain entries h <-> x = h \/ x ∈ entries.
Proof.
  unfold upsert_domain. rewrite elem_of_app, elem_retain, list_elem_of_singleton.
  destruct (decide (x = h)); naive_solver.
Qed.
Lemma NoDup_upsert h entries : NoDup entries -> NoDup (upsert_domain entries h).
Proof.
  intros Hn. unfold upsert_domain. apply NoDup_app. split_and!.
  - by apply NoDup_filter.
  - intros x Hx. rewrite list_elem_of_singleton. apply elem_retain in Hx. naive_solver.
  - apply NoDup_singleton.
Qed.

Lemma last_verdict_snoc rules r h :
  last_verdict (rules ++ [r]) h =
  if decide (host r = h /\ network_decision r <> Prompt) then Some (network_decision r)
  else last_verdict rules h.
Proof.
  unfold last_verdict. rewrite filter_app, filter_cons, filter_nil. case_decide.
  - rewrite fmap_app. csimpl. by rewrite last_snoc.
  - by rewrite app_nil_r.
Qed.

Lemma domains_spec rules allowed denied :
  fold_left domain_step rules ([], []) = (allowed, denied) ->
  NoDup allowed /\ NoDup denied /\
  (forall h, h ∈ allowed <-> last_verdict rules h = Some Allow) /\
  (forall h, h ∈ denied <-> last_verdict rules h = Some Forbidden).
Proof.
  revert allowed denied; induction rules as [|r rules IH] using rev_ind; intros allowed denied.
  { intros [= <- <-]. split_and!; [constructor|constructor|..]; intros h; simpl;
      (split; [intros H; by apply elem_of_nil in H|done]). }
  rewrite fold_left_app. simpl.
  destruct (fold_left domain_step rules ([], [])) as [a d] eqn:E.
  destruct (IH a d eq_refl) as (Ha & Hd & Hsa & Hsd). unfold domain_step.
  assert (forall h, last_verdict (rules ++ [r]) h =
    if decide (host r = h /\ network_decision r <> Prompt) then Some (network_decision r)
    else last_verdict rules h) as Hl by (intros; apply last_verdict_snoc).
  destruct (network_decision r) eqn:Er; intros [= <- <-]; split_and!;
    try done; try (by apply NoDup_upsert); try (by apply NoDup_filter).
  all: intros h; rewrite Hl, ?elem_upsert, ?elem_retain, ?Hsa, ?Hsd.
  all: destruct (decide (host r = h)) as [<-|Hne];
    first [rewrite decide_True by done | rewrite decide_False by intuition congruence];
    intuition congruence.
Qed.

(** ** Properties *)

(** Checking a command never panics: some rule or the fallback always answers,
    and the decision is the most restrictive of the answers, itself given by one
    of them.  Checking several commands panics exactly when there is no command. *)
Theorem check_is_strictest_match p cmd fallback options :
  (exists e, check_with_options p cmd fallback options = Some e /\
    matched_rules e = matches_for_command_with_options p cmd (Some fallback) options /\
    Forall (fun m => rank (match_decision m) <= rank (decision e)) (matched_rules e) /\
    Exists (fun m => match_decision m = decision e) (matched_rules e)) /\
  (forall commands,
    check_multiple_with_options p commands fallback options = None <-> commands = []).
Proof.
  split.
  - unfold check_with_options. pose proof (matches_fallback_ne p cmd fallback options) as Hne.
    destruct (from_matches _) as [e|] eqn:E.
    + exists e. apply from_matches_spec in E as (-> & _ & ? & ?). by split_and!.
    + by destruct (matches_for_command_with_options p cmd (Some fallback) options).
  - intros commands. unfold check_multiple_with_options. destruct commands as [|c cs]; [done|].
    csimpl. pose proof (matches_fallback_ne p c fallback options) as Hne.
    by destruct (matches_for_command_with_options p c (Some fallback) options).
Qed.

(** Merging an overlay over a policy keeps every exact rule match of both, the
    base's first; so for a command that some exact rule of the base matches, the
    merged policy's decision is at least as restrictive as the base's, and as the
    overlay's when it matches too. *)
Theorem merge_overlay_only_restricts p q cmd fallback options e :
  (exists m, m ∈ default [] (match_exact_rules p cmd)) ->
  check_with_options p cmd fallback options = Some e ->
  exists e', check_with_options (merge_overlay p q) cmd fallback options = Some e' /\
    matched_rules e' = matched_rules e ++ default [] (match_exact_rules q cmd) /\
    rank (decision e) <= rank (decision e') /\
    Forall (fun m => rank (match_decision m) <= rank (decision e')) (default [] (match_exact_rules q cmd)).
Proof.
  intros [m Hm] He. unfold check_with_options in *.
  destruct (match_exact_rules p cmd) as [a|] eqn:Ea; [|by apply elem_of_nil in Hm]. simpl in Hm.
  assert (exists b, match_exact_rules q cmd = Some b) as [b Hb].
  { unfold match_exact_rules in *. destruct cmd; [done|]. simpl. eauto. }
  assert (forall r l, matches_for_command_with_options r cmd (Some fallback) options = l ->
    forall x xs, match_exact_rules r cmd = Some (x :: xs) -> l = x :: xs) as Hexact.
  { intros r l <- x xs Hr. unfold matches_for_command_with_options. by rewrite Hr. }
  destruct a as [|x xs]; [by apply elem_of_nil in Hm|].
  pose proof (Hexact p _ eq_refl x xs Ea) as Hp. rewrite Hp in He.
  pose proof (match_exact_merge p q cmd) as Hmerge. rewrite Ea, Hb in Hmerge. simpl in Hmerge.
  rewrite (Hexact _ _ eq_refl _ _ Hmerge). rewrite Hb. simpl default.
  eexists. split; [reflexivity|].
  apply from_matches_spec in He as (-> & _ & Hf & Hex). split; [done|].
  match goal with |- rank _ <= rank (decision ?e') /\ _ =>
    destruct (proj1 (from_matches_spec (x :: xs ++ b) e') eq_refl) as (_ & _ & Hf' & _) end.
  rewrite app_comm_cons in Hf'. apply Forall_app in Hf' as [H1 H2]. split; [|done].
  apply Exists_exists in Hex as (y & Hy & <-). rewrite Forall_forall in H1. by apply H1.
Qed.

(** The compiled domain lists hold no duplicates and no host in both: a host is
    allowed exactly when the last allow-or-deny rule for it allows it, and denied
    exactly when that rule forbids it; prompt rules have no influence. *)
Theorem compiled_domains_last_rule_wins p :
  let '(allowed, denied) := compiled_network_domains p in
  NoDup allowed /\ NoDup denied /\
  (forall h, h ∈ allowed <-> last_verdict (network_rules p) h = Some Allow) /\
  (forall h, h ∈ denied <-> last_verdict (network_rules p) h = Some Forbidden) /\
  (forall h, ~ (h ∈ allowed /\ h ∈ denied)).
Proof.
  unfold compiled_network_domains. destruct (fold_left _ _ _) as [a d] eqn:E.
  apply domains_spec in E as (? & ? & Ha & Hd). split_and!; try done.
  intros h [H1%Ha H2%Hd]. congruence.
Qed.

(** A command given by path uses the rules of its base name only when no exact
    rule matches, only if the path is among the host executables registered for
    that name (or none are registered), and every such match records the
    normalised program path. *)
Theorem host_executable_matches_are_registered p cmd m :
  m ∈ match_host_executable_rules p cmd ->
  exists first args program basename,
    cmd = first :: args /\
    Path.from_absolute_path home_dir current_dir first = Ok program /\
    executable_path_lookup_key program = Some basename /\
    (forall paths, host_executables_by_name p !! basename = Some paths -> program ∈ paths) /\
    exists rule m0, rule ∈ get_vec (rules_by_program p) basename /\
      rule_matches rule (basename :: args) = Some m0 /\ m = with_resolved_program m0 program /\
      match_decision m = rule_decision rule.
Proof.
  unfold match_host_executable_rules. intros Hm.
  destruct cmd as [|first args]; [by apply elem_of_nil in Hm|].
  destruct (Path.from_absolute_path _ _ _) as [program|] eqn:Ep; [|by apply elem_of_nil in Hm].
  destruct (executable_path_lookup_key program) as [base|] eqn:Eb; [|by apply elem_of_nil in Hm].
  destruct (rules_by_program p !! base) as [rules|] eqn:Er; [|by apply elem_of_nil in Hm].
  destruct (match host_executables_by_name p !! base with Some _ => _ | None => _ end) eqn:Eh;
    [by apply elem_of_nil in Hm|].
  apply list_elem_of_fmap in Hm as (m0 & -> & Hm0).
  apply list_elem_of_omap in Hm0 as (rule & Hrule & Hmatch).
  exists first, args, program, base. split_and!; [done..| |].
  - intros paths Hp. rewrite Hp in Eh. apply negb_false_iff, existsb_exists in Eh as (x & Hx & Hd).
    apply bool_decide_eq_true in Hd as ->. by apply list_elem_of_In.
  - exists rule, m0. unfold get_vec. rewrite Er. split_and!; [done..|].
    apply rule_matches_Some in Hmatch as (prefix & _ & ->). done.
Qed.

End check.

Lemma dedup_elem x l : x ∈ dedup l <-> x ∈ l.
Proof.
  induction l as [|y l IH]; simpl; [done|]. rewrite elem_of_cons, <- IH.
  destruct (dedup l) as [|z t]; [by rewrite elem_of_cons|].
  case_bool_decide; subst; rewrite !elem_of_cons; naive_solver.
Qed.

(** The reported allowed prefixes are exactly the rendered patterns of the rules
    that allow: nothing is lost or invented by the sort and the deduplication. *)
Theorem allowed_prefixes_are_the_allow_rules p prefix :
  prefix ∈ get_allowed_prefixes p <->
  exists program rules r, rules_by_program p !! program = Some rules /\ r ∈ rules /\
    rule_decision r = Allow /\ prefix = rendered_prefix r.
Proof.
  unfold get_allowed_prefixes. rewrite dedup_elem, merge_sort_Permutation, list_elem_of_fmap.
  setoid_rewrite list_elem_of_filter. setoid_rewrite list_elem_of_In at 1.
  setoid_rewrite in_concat. split.
  - intros (r & -> & Ha & rules & Hr & Hin). apply list_elem_of_In in Hr.
    apply list_elem_of_fmap in Hr as ([k rs] & -> & Hk). apply elem_of_map_to_list in Hk.
    exists k, rs, r. split_and!; try done. by apply list_elem_of_In.
  - intros (k & rules & r & Hk & Hr & Ha & ->). exists r. split_and!; try done.
    exists rules. split; [|by apply list_elem_of_In]. apply list_elem_of_In, list_elem_of_fmap.
    exists (k, rules). split; [done|]. by apply elem_of_map_to_list.
Qed.

(** ** Witnesses *)

Definition git_rule (sub : str) (d : Decision) : PrefixRule :=
  mkRule (mkPattern $"git" [Single sub]) d None.
Definition demo_policy : Policy :=
  mkPolicy {[ $"git" := [git_rule $"status" Allow] ]} [] {[ $"git" := [$"/usr/bin/git"] ]}.
Definition demo_overlay : Policy := mkPolicy {[ $"git" := [git_rule $"status" Forbidden] ]} [] ∅.

Lemma merge_overlay_only_restricts_witness :
  exists e', check_with_options None (Ok $"/") (merge_overlay demo_policy demo_overlay)
      [$"git"; $"status"; $"-s"] (fun _ => Prompt) default_options = Some e' /\
    matched_rules e' = [PrefixRuleMatch [$"git"; $"status"] Allow None None] ++
      default [] (match_exact_rules demo_overlay [$"git"; $"status"; $"-s"]) /\
    rank Allow <= rank (decision e') /\
    Forall (fun m => rank (match_decision m) <= rank (decision e'))
      (default [] (match_exact_rules demo_overlay [$"git"; $"status"; $"-s"])).
Proof.
  apply (merge_overlay_only_restricts None (Ok $"/") demo_policy demo_overlay
           [$"git"; $"status"; $"-s"] (fun _ => Prompt) default_options
           (mkEvaluation Allow [PrefixRuleMatch [$"git"; $"status"] Allow None None])).
  - eexists. vm_compute. left.
  - vm_compute. reflexivity.
Defined.

Lemma host_executable_matches_are_registered_witness :
  exists first args program basename,
    [$"/usr/bin/../bin/git"; $"status"] = first :: args /\
    Path.from_absolute_path None (Ok $"/") first = Ok program /\
    executable_path_lookup_key program = Some basename /\
    (forall paths, host_executables_by_name demo_policy !! basename = Some paths -> program ∈ paths) /\
    exists rule m0, rule ∈ get_vec (rules_by_program demo_policy) basename /\
      rule_matches rule (basename :: args) = Some m0 /\
      PrefixRuleMatch [$"git"; $"status"] Allow (Some $"/usr/bin/git") None =
        with_resolved_program m0 program /\
      match_decision (PrefixRuleMatch [$"git"; $"status"] Allow (Some $"/usr/bin/git") None)
        = rule_decision rule.
Proof.
  apply (host_executable_matches_are_registered None (Ok $"/") demo_policy
           [$"/usr/bin/../bin/git"; $"status"]
           (PrefixRuleMatch [$"git"; $"status"] Allow (Some $"/usr/bin/git") None)).
  vm_compute. left.
Defined.

End Policy.
