(* ===== verification/ExecPolicyParser.v ===== *)
(** Policy files: the builtins of [codex-rs/execpolicy/src/parser.rs] on Starlark
    values, the example validation that follows the evaluation, and the amendment of
    a policy file by [amend.rs].

    Starlark itself, [shlex] and [serde_json] are parameters.  The builtins return
    nothing to the script, so a script is the sequence of builtin calls its
    evaluation makes and, possibly, the error that ends it. *)
From stdpp Require Import gmap.
From S2P Require Import Prelude Paths ExecPolicyRule ExecPolicy.
Import Rule Policy.

Module PolicyParser.

(** ** Starlark values *)

Inductive Value :=
| VStr (s : str)
| VList (items : list Value)
| VOther (type_name : str).
Definition unpack_str (v : Value) : option str := match v with VStr s => Some s | _ => None end.
Definition get_type (v : Value) : str :=
  match v with VStr _ => $"string" | VList _ => $"list" | VOther t => t end.

(** ** The builder *)

Record PendingExampleValidation := mkPending {
  pending_rules : list PrefixRule;
  matches : list (list str);
  not_matches : list (list str);
  location : option ErrorLocation
}.
Record PolicyBuilder := mkBuilder {
  builder_rules : gmap str (list PrefixRule);
  builder_network_rules : list NetworkRule;
  builder_host_executables : gmap str (list str);
  pending_example_validations : list PendingExampleValidation
}.
Definition new_builder : PolicyBuilder := mkBuilder ∅ [] ∅ [].

Definition add_rule (b : PolicyBuilder) (rule : PrefixRule) : PolicyBuilder :=
  mkBuilder (multimap_insert (program rule) rule (builder_rules b)) (builder_network_rules b)
    (builder_host_executables b) (pending_example_validations b).
Definition builder_add_network_rule (b : PolicyBuilder) (rule : NetworkRule) : PolicyBuilder :=
  mkBuilder (builder_rules b) (builder_network_rules b ++ [rule])
    (builder_host_executables b) (pending_example_validations b).
Definition add_host_executable (b : PolicyBuilder) (name : str) (paths : list str) : PolicyBuilder :=
  mkBuilder (builder_rules b) (builder_network_rules b)
    (<[name := paths]> (builder_host_executables b)) (pending_example_validations b).
Definition add_pending_example_validation (b : PolicyBuilder) (v : PendingExampleValidation)
    : PolicyBuilder :=
  mkBuilder (builder_rules b) (builder_network_rules b) (builder_host_executables b)
    (pending_example_validations b ++ [v]).
Definition build (b : PolicyBuilder) : Policy :=
  mkPolicy (builder_rules b) (builder_network_rules b) (builder_host_executables b).

(** ** Arguments *)

Definition parse_alternative (value : Value) : result Error str :=
  ok_or (unpack_str value)
    (InvalidPattern ($"pattern alternative must be a string (got " ++ get_type value ++ $")")).
Definition parse_pattern_token (value : Value) : result Error PatternToken :=
  match value with
  | VStr s => Ok (Single s)
  | VList items =>
      tokens ← try_map parse_alternative items;
      match tokens with
      | [] => Err (InvalidPattern $"pattern alternatives cannot be empty")
      | [single] => Ok (Single single)
      | _ => Ok (Alts tokens)
      end
  | VOther t =>
      Err (InvalidPattern
             ($"pattern element must be a string or list of strings (got " ++ t ++ $")"))
  end.
Definition parse_pattern (pattern : list Value) : result Error (list PatternToken) :=
  tokens ← try_map parse_pattern_token pattern;
  match tokens with
  | [] => Err (InvalidPattern $"pattern cannot be empty")
  | _ => Ok tokens
  end.

Definition parse_network_rule_decision (raw : str) : result Error Decision :=
  if decide (raw = $"deny") then Ok Forbidden else parse_decision raw.

Definition validate_host_executable_name (name : str) : result Error unit :=
  if Str.is_empty name then Err (InvalidRule $"host_executable name cannot be empty")
  else if negb (length (Path.components name) =? 1)
          || negb (bool_decide (Path.file_name name = Some name))
  then Err (InvalidRule
              ($"host_executable name must be a bare executable name (got " ++ name ++ $")"))
  else Ok tt.

Definition parse_justification (justification : option str) : result Error (option str) :=
  match justification with
  | Some raw =>
      if Str.is_empty (Str.trim raw) then Err (InvalidRule msg_justification) else Ok (Some raw)
  | None => Ok None
  end.

Definition attach_validation_location (e : Error) (location : option ErrorLocation) : Error :=
  match location with Some l => with_location e l | None => e end.

(** [Option::transpose] followed by [unwrap_or_default]. *)
Definition optional {A B E} (f : A -> result E (list B)) (x : option A) : result E (list B) :=
  match x with Some a => f a | None => Ok [] end.

Section parser.
Variable home_dir : option str.
Variable current_dir : result Io.Error str.
(** [shlex::split] and [shlex::try_join]. *)
Variable shlex_split : str -> option (list str).
Variable shlex_join : list str -> option str.

Definition parse_string_example (raw : str) : result Error (list str) :=
  tokens ← ok_or (shlex_split raw) (InvalidExample $"example string has invalid shell syntax");
  match tokens with
  | [] => Err (InvalidExample $"example cannot be an empty string")
  | _ => Ok tokens
  end.
Definition parse_example_token (value : Value) : result Error str :=
  ok_or (unpack_str value)
    (InvalidExample ($"example tokens must be strings (got " ++ get_type value ++ $")")).
Definition parse_list_example (items : list Value) : result Error (list str) :=
  tokens ← try_map parse_example_token items;
  match tokens with
  | [] => Err (InvalidExample $"example cannot be an empty list")
  | _ => Ok tokens
  end.
Definition parse_example (value : Value) : result Error (list str) :=
  match value with
  | VStr raw => parse_string_example raw
  | VList items => parse_list_example items
  | VOther t =>
      Err (InvalidExample ($"example must be a string or list of strings (got " ++ t ++ $")"))
  end.
Definition parse_examples (examples : list Value) : result Error (list (list str)) :=
  try_map parse_example examples.

Definition parse_literal_absolute_path (raw : str) : result Error str :=
  if negb (Path.is_absolute raw) then
    Err (InvalidRule ($"host_executable paths must be absolute (got " ++ raw ++ $")"))
  else map_err (fun e => InvalidRule
                  ($"invalid absolute path `" ++ raw ++ $"`: " ++ Io.message e))
         (Path.from_absolute_path home_dir current_dir raw).

(** ** The builtins *)

Definition rules_of (tokens : list PatternToken) (d : Decision) (justification : option str)
    : result Error (list PrefixRule) :=
  match tokens with
  | [] => Err (InvalidPattern $"pattern cannot be empty")
  | first_token :: rest =>
      Ok ((fun head => mkRule (mkPattern head rest) d justification) <$> alternatives first_token)
  end.

Definition prefix_rule (b : PolicyBuilder) (pattern : list Value) (decision : option str)
    (match_ not_match : option (list Value)) (justification : option str)
    (location : option ErrorLocation) : result Error PolicyBuilder :=
  d ← match decision with Some raw => parse_decision raw | None => Ok Allow end;
  justification ← parse_justification justification;
  pattern_tokens ← parse_pattern pattern;
  matches ← optional parse_examples match_;
  not_matches ← optional parse_examples not_match;
  rules ← rules_of pattern_tokens d justification;
  let b := add_pending_example_validation b (mkPending rules matches not_matches location) in
  Ok (fold_left add_rule rules b).

Definition network_rule (b : PolicyBuilder) (host protocol decision : str)
    (justification : option str) : result Error PolicyBuilder :=
  protocol ← parse_protocol protocol;
  d ← parse_network_rule_decision decision;
  justification ← parse_justification justification;
  host ← normalize_network_rule_host host;
  Ok (builder_add_network_rule b (mkNetworkRule host protocol d justification)).

Definition msg_basename (raw name : str) : str :=
  $"host_executable path `" ++ raw ++ $"` must have basename `" ++ name ++ $"`".
Fixpoint host_paths (name : str) (values : list Value) (parsed_paths : list str)
    : result Error (list str) :=
  match values with
  | [] => Ok parsed_paths
  | value :: values' =>
      raw ← ok_or (unpack_str value)
        (InvalidRule ($"host_executable paths must be strings (got " ++ get_type value ++ $")"));
      path ← parse_literal_absolute_path raw;
      match executable_path_lookup_key path with
      | None => Err (InvalidRule (msg_basename raw name))
      | Some path_name =>
          if negb (bool_decide (path_name = executable_lookup_key name))
          then Err (InvalidRule (msg_basename raw name))
          else host_paths name values'
                 (if existsb (fun existing => bool_decide (existing = path)) parsed_paths
                  then parsed_paths else parsed_paths ++ [path])
      end
  end.
Definition host_executable (b : PolicyBuilder) (name : str) (paths : list Value)
    : result Error PolicyBuilder :=
  _ ← validate_host_executable_name name;
  parsed_paths ← host_paths name paths [];
  Ok (add_host_executable b (executable_lookup_key name) parsed_paths).

(** ** Example validation *)

Definition render_example (example : list str) : str :=
  default $"unable to render example" (shlex_join example).
Definition example_options : MatchOptions := mkOptions true.
Definition rules_matching (p : Policy) (example : list str) : list RuleMatch :=
  matches_for_command_with_options home_dir current_dir p example None example_options.

Definition validate_match_examples (p : Policy) (rules : list PrefixRule)
    (matches : list (list str)) : result Error unit :=
  let unmatched :=
    filter (fun example => rules_matching p example = []) matches in
  match unmatched with
  | [] => Ok tt
  | _ => Err (ExampleDidNotMatch rules (render_example <$> unmatched) None)
  end.
Fixpoint validate_not_match_examples (p : Policy) (not_matches : list (list str))
    : result Error unit :=
  match not_matches with
  | [] => Ok tt
  | example :: rest =>
      match rules_matching p example with
      | rule :: _ => Err (ExampleDidMatch rule (render_example example) None)
      | [] => validate_not_match_examples p rest
      end
  end.

Definition validation_policy (b : PolicyBuilder) (v : PendingExampleValidation) : Policy :=
  mkPolicy (fold_left (fun m r => multimap_insert (program r) r m) (pending_rules v) ∅) []
    (builder_host_executables b).
Fixpoint validate_all (b : PolicyBuilder) (vs : list PendingExampleValidation)
    : result Error unit :=
  match vs with
  | [] => Ok tt
  | v :: vs' =>
      let p := validation_policy b v in
      _ ← map_err (fun e => attach_validation_location e (location v))
            (validate_not_match_examples p (not_matches v));
      _ ← map_err (fun e => attach_validation_location e (location v))
            (validate_match_examples p (pending_rules v) (matches v));
      validate_all b vs'
  end.
Definition validate_pending_examples_from (b : PolicyBuilder) (start : nat) : result Error unit :=
  validate_all b (drop start (pending_example_validations b)).

(** ** Scripts *)

Inductive Call :=
| CallPrefixRule (pattern : list Value) (decision : option str)
    (match_ not_match : option (list Value)) (justification : option str)
    (location : option ErrorLocation)
| CallNetworkRule (host protocol decision : str) (justification : option str)
| CallHostExecutable (name : str) (paths : list Value).
Definition run_call (b : PolicyBuilder) (c : Call) : result Error PolicyBuilder :=
  match c with
  | CallPrefixRule p d m n j l => prefix_rule b p d m n j l
  | CallNetworkRule h p d j => network_rule b h p d j
  | CallHostExecutable n ps => host_executable b n ps
  end.
(** The builder keeps what the calls before an error did. *)
Fixpoint run_calls (b : PolicyBuilder) (calls : list Call) : PolicyBuilder * result Error unit :=
  match calls with
  | [] => (b, Ok tt)
  | c :: cs =>
      match run_call b c with
      | Ok b' => run_calls b' cs
      | Err e => (b, Err (StarlarkBuiltin e))
      end
  end.

(** What the Starlark parser and evaluator report for a policy file. *)
Record Script := mkScript { calls : list Call; failure : option str }.
Definition parse (b : PolicyBuilder) (script : result str Script)
    : PolicyBuilder * result Error unit :=
  let pending_validation_count := length (pending_example_validations b) in
  match script with
  | Err syntax_error => (b, Err (Starlark syntax_error))
  | Ok s =>
      match run_calls b (calls s), failure s with
      | (b, Err e), _ => (b, Err e)
      | (b, Ok _), Some message => (b, Err (Starlark message))
      | (b, Ok _), None => (b, validate_pending_examples_from b pending_validation_count)
      end
  end.

(** ** Lemmas: the builder *)

Definition grows (b b' : PolicyBuilder) : Prop :=
  (forall k, get_vec (builder_rules b) k `prefix_of` get_vec (builder_rules b') k) /\
  pending_example_validations b `prefix_of` pending_example_validations b'.

Lemma grows_refl b : grows b b.
Proof. by split. Qed.
Lemma grows_trans a b c : grows a b -> grows b c -> grows a c.
Proof.
  intros [Ha1 Ha2] [Hb1 Hb2]. split; [intros k; etrans; [apply Ha1|apply Hb1]|].
  etrans; [exact Ha2|exact Hb2].
Qed.

Lemma add_rule_grows b r : grows b (add_rule b r).
Proof.
  split; [|done]. intros k. simpl. rewrite get_vec_insert. by eexists.
Qed.

Lemma add_rules_grow rs b : grows b (fold_left add_rule rs b).
Proof.
  revert b; induction rs as [|r rs IH]; intros b; simpl; [apply grows_refl|].
  eapply grows_trans; [apply add_rule_grows|apply IH].
Qed.

Lemma add_rules_elem rs b r :
  r ∈ rs -> r ∈ get_vec (builder_rules (fold_left add_rule rs b)) (program r).
Proof.
  revert b; induction rs as [|r' rs IH]; intros b Hr; simpl; [by apply elem_of_nil in Hr|].
  apply elem_of_cons in Hr as [->|Hr]; [|by apply IH].
  destruct (add_rules_grow rs (add_rule b r')) as [Hg _].
  destruct (Hg (program r')) as [t ->]. apply elem_of_app. left. simpl.
  rewrite get_vec_insert, decide_True by done. set_solver.
Qed.

Lemma add_rules_pending rs b :
  pending_example_validations (fold_left add_rule rs b) = pending_example_validations b.
Proof. revert b; induction rs as [|r rs IH]; intros b; simpl; [done|]. by rewrite IH. Qed.

(** Rules that await validation are rules of the policy. *)
Definition builder_inv (b : PolicyBuilder) : Prop :=
  Forall (fun v => Forall (fun r => r ∈ get_vec (builder_rules b) (program r)) (pending_rules v))
    (pending_example_validations b).

Lemma run_call_sound b c b' :
  run_call b c = Ok b' -> builder_inv b -> builder_inv b' /\ grows b b'.
Proof.
  assert (forall b b', builder_rules b' = builder_rules b ->
    pending_example_validations b' = pending_example_validations b ->
    builder_inv b -> builder_inv b' /\ grows b b') as Hsame.
  { intros x y Hr Hp Hi. unfold builder_inv, grows in *. rewrite Hr, Hp. by split_and!. }
  destruct c as [p d m n j l|h p d j|n ps]; simpl; intros H Hi.
  - unfold prefix_rule in H. inv_bind. set (b1 := add_pending_example_validation _ _).
    split.
    + unfold builder_inv. rewrite add_rules_pending. simpl. apply Forall_app. split.
      * eapply Forall_impl; [exact Hi|]. intros v Hv. eapply Forall_impl; [exact Hv|].
        intros r Hr. cbv beta in *. destruct (add_rules_grow x4 b1) as [Hg _].
        destruct (Hg (program r)) as [t ->]. apply elem_of_app. by left.
      * apply Forall_singleton, Forall_forall. simpl. intros r Hr. by apply add_rules_elem.
    + eapply grows_trans; [|apply add_rules_grow]. split; [done|]. by eexists.
  - unfold network_rule in H. inv_bind. by apply Hsame.
  - unfold host_executable in H. inv_bind. by apply Hsame.
Qed.

Lemma run_calls_sound b cs b' :
  run_calls b cs = (b', Ok tt) -> builder_inv b -> builder_inv b' /\ grows b b'.
Proof.
  revert b; induction cs as [|c cs IH]; intros b; simpl.
  - intros [= <-] Hi. split; [done|apply grows_refl].
  - destruct (run_call b c) as [b1|e] eqn:E; [|done]. intros Hr Hi.
    apply run_call_sound in E as [Hi1 Hg]; [|done].
    destruct (IH _ Hr Hi1). split; [done|]. by eapply grows_trans.
Qed.

(** The examples of every rule call are validated. *)
Lemma run_calls_pending b cs b' p d m n j l :
  run_calls b cs = (b', Ok tt) -> builder_inv b -> CallPrefixRule p d m n j l ∈ cs ->
  exists v, v ∈ drop (length (pending_example_validations b)) (pending_example_validations b') /\
    optional parse_examples m = Ok (matches v) /\ optional parse_examples n = Ok (not_matches v).
Proof.
  revert b; induction cs as [|c cs IH]; intros b Hr Hi Hc; [by apply elem_of_nil in Hc|].
  simpl in Hr. destruct (run_call b c) as [b1|e] eqn:E; [|done].
  pose proof (run_call_sound _ _ _ E Hi) as [Hi1 [_ [t Ht]]].
  pose proof (run_calls_sound _ _ _ Hr Hi1) as [_ [_ [t' Ht']]].
  apply elem_of_cons in Hc as [<-|Hc].
  - simpl in E. unfold prefix_rule in E. inv_bind.
    rewrite add_rules_pending in Ht'. simpl in Ht'.
    exists (mkPending x4 x2 x3 l). rewrite Ht', <- app_assoc, drop_app_length.
    split_and!; [set_solver|done|done].
  - destruct (IH _ Hr Hi1 Hc) as (v & Hv & ? & ?). exists v. split; [|done].
    rewrite Ht' in *. rewrite Ht in *. rewrite drop_app_length in Hv.
    rewrite <- app_assoc, drop_app_length. apply elem_of_app. by right.
Qed.

(** ** Lemmas: validation *)

Lemma get_vec_program rs k :
  get_vec (fold_left (fun m r => multimap_insert (program r) r m) rs ∅) k =
  filter (fun r => program r = k) rs.
Proof.
  assert (forall m, get_vec (fold_left (fun m r => multimap_insert (program r) r m) rs m) k =
    get_vec m k ++ filter (fun r => program r = k) rs) as H; [|by rewrite H].
  induction rs as [|r rs IH]; intros m; simpl; [by rewrite app_nil_r|].
  rewrite IH, get_vec_insert, filter_cons, <- app_assoc. f_equal.
  repeat case_decide; naive_solver.
Qed.

Lemma omap_sub {A B} (f : A -> option B) (l k : list A) :
  (forall x, x ∈ l -> x ∈ k) -> omap f l <> [] -> omap f k <> [].
Proof.
  intros Hs Hl Hk. apply Hl. destruct (omap f l) as [|y ys] eqn:E; [done|].
  assert (y ∈ omap f l) as Hy by (rewrite E; left).
  apply list_elem_of_omap in Hy as (x & Hx & Hf).
  assert (y ∈ omap f k) as Hy' by (apply list_elem_of_omap; eauto).
  rewrite Hk in Hy'. by apply elem_of_nil in Hy'.
Qed.

(** A policy with more rules and the same host executables matches at least as much. *)
Lemma rules_matching_mono p q example :
  (forall k r, r ∈ get_vec (rules_by_program p) k -> r ∈ get_vec (rules_by_program q) k) ->
  host_executables_by_name p = host_executables_by_name q ->
  rules_matching p example <> [] -> rules_matching q example <> [].
Proof.
  intros Hr Hh. unfold rules_matching, matches_for_command_with_options. simpl.
  destruct example as [|first args]; [done|]. unfold match_exact_rules. simpl.
  assert (forall k cmd, omap (fun r => rule_matches r cmd) (get_vec (rules_by_program p) k) <> [] ->
    omap (fun r => rule_matches r cmd) (get_vec (rules_by_program q) k) <> []) as Hsub.
  { intros k cmd. apply omap_sub. apply Hr. }
  destruct (omap _ (get_vec (rules_by_program q) first)) as [|y ys] eqn:Eq; [|done].
  destruct (omap _ (get_vec (rules_by_program p) first)) as [|x xs] eqn:Ep.
  2: { destruct (Hsub first (first :: args)); by rewrite ?Ep. }
  simpl. destruct (Path.from_absolute_path _ _ _) as [prog|]; [|done].
  destruct (executable_path_lookup_key prog) as [base|]; [|done]. rewrite <- Hh.
  specialize (Hsub base (base :: args)). unfold get_vec in Hsub.
  destruct (rules_by_program p !! base) as [rs|]; [|done].
  destruct (match host_executables_by_name p !! base with Some _ => _ | None => _ end); [done|].
  simpl in Hsub. destruct (omap _ rs) as [|z zs]; [done|]. intros _.
  destruct (rules_by_program q !! base) as [rs'|]; simpl in Hsub; [|by destruct Hsub].
  by destruct (omap _ rs'); [destruct Hsub|].
Qed.

Lemma validate_not_match_Ok p l :
  validate_not_match_examples p l = Ok tt -> Forall (fun e => rules_matching p e = []) l.
Proof.
  induction l as [|e l IH]; simpl; [done|]. destruct (rules_matching p e) eqn:E; [|done].
  intros H. constructor; [done|by apply IH].
Qed.

Lemma validate_match_Ok p rules l :
  validate_match_examples p rules l = Ok tt -> Forall (fun e => rules_matching p e <> []) l.
Proof.
  unfold validate_match_examples. destruct (filter _ l) eqn:E; [|done]. intros _.
  apply Forall_forall. intros e He Hn.
  assert (e ∈ filter (fun e => rules_matching p e = []) l) as Hin by by apply list_elem_of_filter.
  rewrite E in Hin. by apply elem_of_nil in Hin.
Qed.

Lemma validate_all_Ok b vs v :
  validate_all b vs = Ok tt -> v ∈ vs ->
  Forall (fun e => rules_matching (validation_policy b v) e = []) (not_matches v) /\
  Forall (fun e => rules_matching (validation_policy b v) e <> []) (matches v).
Proof.
  induction vs as [|w vs IH]; simpl; [intros _ H; by apply elem_of_nil in H|].
  intros H Hv. inv_bind. destruct x, x0.
  destruct (validate_not_match_examples _ _) as [[]|] eqn:En; [|done].
  destruct (validate_match_examples _ _ _) as [[]|] eqn:Em; [|done].
  apply elem_of_cons in Hv as [->|Hv]; [|by apply IH].
  split; [by apply validate_not_match_Ok|by eapply validate_match_Ok].
Qed.

(** ** Properties *)

(** When a policy file is accepted, the examples written in it hold: every
    [match] example of every [prefix_rule] call is matched by some rule of the
    policy that results, and no [not_match] example is matched by the rules of its
    own call, with the host executables of the whole file taken into account. *)
Theorem accepted_examples_hold b s b' p d m n j l :
  builder_inv b -> parse b (Ok s) = (b', Ok tt) -> CallPrefixRule p d m n j l ∈ calls s ->
  exists v, optional parse_examples m = Ok (matches v) /\
    optional parse_examples n = Ok (not_matches v) /\
    Forall (fun e => rules_matching (build b') e <> []) (matches v) /\
    Forall (fun e => rules_matching (validation_policy b' v) e = []) (not_matches v).
Proof.
  intros Hi Hp Hc. unfold parse in Hp. simpl in Hp.
  destruct (run_calls b (calls s)) as [b1 [[]|e]] eqn:Er; [|done].
  destruct (failure s); [done|]. injection Hp as <- Hv.
  destruct (run_calls_pending _ _ _ _ _ _ _ _ _ Er Hi Hc) as (v & Hin & Hm & Hn).
  destruct (validate_all_Ok _ _ _ Hv Hin) as [Hno Hyes]. exists v. split_and!; try done.
  eapply Forall_impl; [exact Hyes|]. intros e. apply rules_matching_mono; [|done].
  intros k r Hr. simpl in Hr. rewrite get_vec_program in Hr.
  apply list_elem_of_filter in Hr as [<- Hr].
  apply run_calls_sound in Er as [Hi1 _]; [|done].
  assert (v ∈ pending_example_validations b1) as Hin1.
  { rewrite <- (take_drop (length (pending_example_validations b)) (pending_example_validations b1)).
    apply elem_of_app. by right. }
  unfold builder_inv in Hi1. rewrite Forall_forall in Hi1. specialize (Hi1 v Hin1). cbv beta in Hi1.
  rewrite Forall_forall in Hi1. by apply Hi1.
Qed.

Lemma host_paths_spec name values acc paths :
  host_paths name values acc = Ok paths ->
  NoDup acc -> Forall (fun q => Path.file_name q = Some name) acc ->
  NoDup paths /\ Forall (fun q => Path.file_name q = Some name) paths.
Proof.
  revert acc; induction values as [|v values IH]; intros acc; simpl.
  - by intros [= <-].
  - intros H Hn Hf. inv_bind.
    unfold executable_path_lookup_key, executable_lookup_key in H.
    destruct (Path.file_name x0) as [base|] eqn:Eb; simpl in H; [|done].
    case_bool_decide as Hb; simpl in H; [|done]. subst base.
    apply IH in H; [done| |].
    + destruct (existsb _ acc) eqn:Ee; [done|]. apply NoDup_app. split_and!; [done| |apply NoDup_singleton].
      intros q Hq. rewrite list_elem_of_singleton. intros ->.
      apply not_true_iff_false in Ee. apply Ee, existsb_exists. exists x0.
      split; [by apply list_elem_of_In|]. by apply bool_decide_eq_true.
    + destruct (existsb _ acc); [done|]. apply Forall_app. split; [done|]. by apply Forall_singleton.
Qed.

(** The paths a [host_executable] call registers are pairwise distinct and all
    end in the registered name, which is a bare file name; a call that fails
    leaves the builder as it was. *)
Theorem host_executable_registers_named_paths b name paths b' :
  host_executable b name paths = Ok b' ->
  name <> [] /\ Path.file_name name = Some name /\
  exists parsed, builder_host_executables b' = <[name := parsed]> (builder_host_executables b) /\
    NoDup parsed /\ Forall (fun q => Path.file_name q = Some name) parsed /\
    builder_rules b' = builder_rules b.
Proof.
  unfold host_executable. intros H. inv_bind.
  unfold validate_host_executable_name in Hx. destruct (Str.is_empty name) eqn:Ee; [done|].
  destruct (_ || _) eqn:Eo; [done|]. apply orb_false_iff in Eo as [_ Hn].
  apply negb_false_iff, bool_decide_eq_true in Hn.
  split; [by intros ->|]. split; [done|].
  apply host_paths_spec in Hx0 as [? ?]; [|constructor|constructor].
  exists x0. by split_and!.
Qed.

End parser.

(** ** Amending a policy file (amend.rs)

    [append_locked_line] on the contents of the file, which [open] creates empty
    when it is missing; the lock makes the read and the append one step. *)

Definition append_locked_line (contents : str) (line : str) : str :=
  if existsb (fun existing => bool_decide (existing = line)) (Str.lines contents) then contents
  else
    (if negb (Str.is_empty contents) && negb (Str.ends_with [newline] contents)
     then contents ++ [newline] else contents) ++ line ++ [newline].

Section amend.
(** [serde_json::to_string] on strings. *)
Variable to_json : str -> str.

Inductive AmendError :=
| EmptyPrefix
| InvalidNetworkRule (e : Error).

Definition quote (s : str) : str := [dquote] ++ s ++ [dquote].
Definition allow_prefix_line (prefix : list str) : str :=
  $"prefix_rule(pattern=[" ++ Str.join $", " (to_json <$> prefix) ++ $"], decision="
  ++ quote $"allow" ++ $")".
Definition append_allow_prefix_rule (contents : str) (prefix : list str) : result AmendError str :=
  match prefix with
  | [] => Err EmptyPrefix
  | _ => Ok (append_locked_line contents (allow_prefix_line prefix))
  end.

Definition network_decision_string (d : Decision) : str :=
  match d with Allow => $"allow" | Prompt => $"prompt" | Forbidden => $"deny" end.
Definition network_rule_line (host : str) (protocol : NetworkRuleProtocol) (d : Decision)
    (justification : option str) : str :=
  $"network_rule(" ++ Str.join $", "
    ([$"host=" ++ to_json host; $"protocol=" ++ to_json (as_policy_string protocol);
      $"decision=" ++ to_json (network_decision_string d)]
     ++ match justification with Some j => [$"justification=" ++ to_json j] | None => [] end)
  ++ $")".
Definition append_network_rule (contents host : str) (protocol : NetworkRuleProtocol)
    (d : Decision) (justification : option str) : result AmendError str :=
  host ← map_err InvalidNetworkRule (normalize_network_rule_host host);
  if from_option (fun raw => Str.is_empty (Str.trim raw)) false justification
  then Err (InvalidNetworkRule (InvalidRule msg_justification))
  else Ok (append_locked_line contents (network_rule_line host protocol d justification)).
End amend.

(** Completing the last line does not change the lines. *)
Lemma lines_complete s c :
  c <> newline -> c <> carriage_return ->
  Str.lines ((s ++ [c]) ++ [newline]) = Str.lines (s ++ [c]).
Proof.
  intros Hn Hc. unfold Str.lines. rewrite Str.split_app. simpl.
  assert (exists ps l, Str.split newline (s ++ [c]) = ps ++ [l ++ [c]]) as (ps & l & ->).
  { induction s as [|x s IH]; simpl.
    - destruct (N.eqb_spec c newline); [done|]. by exists [], [].
    - destruct IH as (ps & l & ->). destruct (x =? newline)%N; [by exists ([] :: ps), l|].
      destruct ps as [|p ps]; simpl; [by exists [], (x :: l)|by exists ((x :: p) :: ps), l]. }
  assert (Str.strip_cr (l ++ [c]) = l ++ [c]) as Hcr.
  { unfold Str.strip_cr. destruct (Str.strip_suffix _ _) as [t|] eqn:E; [|done].
    apply Str.strip_suffix_Some, app_inj_tail in E as [_ ->]. done. }
  assert (Str.is_empty (l ++ [c]) = false) as He by by destruct l.
  induction ps as [|p ps IH]; simpl; [by rewrite Hcr, He|].
  rewrite <- IH. destruct (ps ++ [l ++ [c]]) eqn:E1; [by destruct ps|]. done.
Qed.

(** A text that is empty or whose last line is complete. *)
Lemma lines_snoc_newline s l :
  newline ∉ l -> last l <> Some carriage_return ->
  (s = [] \/ exists t, s = t ++ [newline]) ->
  Str.lines (s ++ l ++ [newline]) = Str.lines s ++ [l].
Proof.
  intros Hn Hc Hs. unfold Str.lines.
  assert (Str.strip_cr l = l) as Hcr.
  { unfold Str.strip_cr. destruct (Str.strip_suffix _ l) as [t|] eqn:E; [|done].
    apply Str.strip_suffix_Some in E as ->. by rewrite last_snoc in Hc. }
  assert (forall ps, Str.lines_of (ps ++ [l; []]) = Str.lines_of (ps ++ [[]]) ++ [l]) as Hof.
  { intros ps. induction ps as [|p ps IH]; simpl; [by rewrite Hcr|].
    rewrite IH. destruct (ps ++ [l; []]) eqn:E1; [by destruct ps|].
    by destruct (ps ++ [[]]) eqn:E2; [destruct ps|]. }
  destruct Hs as [->|[t ->]].
  - simpl. rewrite Str.split_app_sep by done. apply (Hof []).
  - rewrite <- app_assoc. simpl. rewrite !Str.split_app, (Str.split_no_sep newline l) by done.
    simpl. apply Hof.
Qed.

(** Appending a rule line keeps every line of the policy file in order, adds the
    line at the end exactly when it is not there yet, completes an unterminated
    last line first, and is idempotent. *)
Theorem append_line_is_idempotent contents line :
  newline ∉ line -> last line <> Some carriage_return ->
  last contents <> Some carriage_return ->
  let r := append_locked_line contents line in
  Str.lines r = (if decide (line ∈ Str.lines contents) then Str.lines contents
                 else Str.lines contents ++ [line]) /\
  append_locked_line r line = r.
Proof.
  intros Hn Hc Hcc.
  assert (Str.lines (append_locked_line contents line) =
    if decide (line ∈ Str.lines contents) then Str.lines contents
    else Str.lines contents ++ [line]) as H.
  { unfold append_locked_line. case_decide as Hin.
    - assert (existsb (fun e => bool_decide (e = line)) (Str.lines contents) = true) as ->; [|done].
      apply existsb_exists. exists line. split; [by apply list_elem_of_In|by apply bool_decide_eq_true].
    - assert (existsb (fun e => bool_decide (e = line)) (Str.lines contents) = false) as ->.
      { apply not_true_iff_false. intros (x & Hx & ->%bool_decide_eq_true)%existsb_exists.
        by apply list_elem_of_In in Hx. }
      destruct contents as [|c s _] using rev_ind.
      { by apply (lines_snoc_newline []); [..|left]. }
      assert (Str.is_empty (s ++ [c]) = false) as -> by by destruct s. simpl negb.
      destruct (decide (c = newline)) as [->|Hne].
      + assert (Str.ends_with [newline] (s ++ [newline]) = true) as ->
          by (apply Str.ends_with_spec; by exists s).
        apply lines_snoc_newline; [done..|]. right. by exists s.
      + assert (Str.ends_with [newline] (s ++ [c]) = false) as ->.
        { apply not_true_iff_false. intros [t Ht]%Str.ends_with_spec.
          apply app_inj_tail in Ht as [_ ->]. done. }
        simpl. rewrite lines_snoc_newline; [|done|done|right; by eexists].
        f_equal. apply lines_complete; [done|]. rewrite last_snoc in Hcc. congruence. }
  split; [exact H|]. unfold append_locked_line at 1. rewrite H.
  assert (existsb (fun e => bool_decide (e = line))
    (if decide (line ∈ Str.lines contents) then Str.lines contents
     else Str.lines contents ++ [line]) = true) as ->; [|done].
  apply existsb_exists. exists line. split; [|by apply bool_decide_eq_true].
  apply list_elem_of_In. case_decide; [done|set_solver].
Qed.

(** ** Witnesses *)

Definition demo_call : Call :=
  CallPrefixRule [VList [VStr $"git"; VStr $"hg"]; VStr $"status"] None
    (Some [VList [VStr $"git"; VStr $"status"; VStr $"-s"]; VList [VStr $"/usr/bin/hg"; VStr $"status"]])
    (Some [VList [VStr $"git"; VStr $"push"]]) None None.
Definition demo_script : Script :=
  mkScript [demo_call; CallHostExecutable $"hg" [VStr $"/usr/bin/hg"]] None.

Lemma accepted_examples_hold_witness :
  exists b', parse None (Ok $"/") (fun _ => None) (fun _ => None) new_builder (Ok demo_script) = (b', Ok tt) /\
  exists v, optional (parse_examples (fun _ => None))
        (Some [VList [VStr $"git"; VStr $"status"; VStr $"-s"];
               VList [VStr $"/usr/bin/hg"; VStr $"status"]]) = Ok (matches v) /\
    optional (parse_examples (fun _ => None)) (Some [VList [VStr $"git"; VStr $"push"]])
      = Ok (not_matches v) /\
    Forall (fun e => rules_matching None (Ok $"/") (build b') e <> []) (matches v) /\
    Forall (fun e => rules_matching None (Ok $"/") (validation_policy b' v) e = []) (not_matches v).
Proof.
  destruct (parse None (Ok $"/") (fun _ => None) (fun _ => None) new_builder (Ok demo_script))
    as [b' r] eqn:E.
  destruct r as [[]|e]; [|vm_compute in E; discriminate E].
  exists b'. split; [done|].
  refine (accepted_examples_hold None (Ok $"/") (fun _ => None) (fun _ => None) new_builder
            demo_script b' _ _ _ _ _ _ _ E _); [constructor|left].
Defined.

Lemma host_executable_registers_named_paths_witness :
  ($"git" : str) <> [] /\ Path.file_name $"git" = Some $"git" /\
  exists parsed,
    builder_host_executables (add_host_executable new_builder $"git" [$"/usr/bin/git"])
      = <[$"git" := parsed]> (builder_host_executables new_builder) /\
    NoDup parsed /\ Forall (fun q => Path.file_name q = Some $"git") parsed /\
    builder_rules (add_host_executable new_builder $"git" [$"/usr/bin/git"]) = builder_rules new_builder.
Proof.
  apply (host_executable_registers_named_paths None (Ok $"/") new_builder $"git"
           [VStr $"/usr/bin/git"; VStr $"/usr//bin/./git"]).
  vm_compute. reflexivity.
Defined.

Lemma append_line_is_idempotent_witness :
  let r := append_locked_line $"a" $"b" in
  Str.lines r = (if decide ($"b" ∈ Str.lines $"a") then Str.lines $"a" else Str.lines $"a" ++ [$"b"]) /\
  append_locked_line r $"b" = r.
Proof.
  apply append_line_is_idempotent; [|intros H; discriminate H..].
  refine (bool_decide_eq_true_1 _ _). vm_compute. reflexivity.
Defined.

End PolicyParser.
