(* ===== verification/StreamText.v ===== *)
(** Streaming text parsers ([codex-rs/utils/stream-parser/src]): the interface of
    [stream_text.rs] as a class, the promise that the way a stream is cut into chunks
    does not matter as a second class, and what a client may conclude from it.  The
    byte adapter of [utf8_stream.rs] is proved against that promise. *)
From S2P Require Import Prelude Utf8.

Module Stream.

(** ** stream_text.rs *)

Record StreamTextChunk (E : Type) := mkStreamChunk { visible_text : str; extracted : list E }.
Arguments mkStreamChunk {E}.
Arguments visible_text {E}.
Arguments extracted {E}.

Definition default_chunk {E} : StreamTextChunk E := mkStreamChunk [] [].
Definition chunk_is_empty {E} (c : StreamTextChunk E) : bool :=
  match visible_text c, extracted c with [], [] => true | _, _ => false end.
(** [visible_text.push_str] and [extracted.append], as the callers combine chunks. *)
Definition append {E} (a b : StreamTextChunk E) : StreamTextChunk E :=
  mkStreamChunk (visible_text a ++ visible_text b) (extracted a ++ extracted b).

Lemma append_assoc {E} (a b c : StreamTextChunk E) : append a (append b c) = append (append a b) c.
Proof. unfold append. simpl. by rewrite !app_assoc. Qed.
Lemma append_default_l {E} (a : StreamTextChunk E) : append default_chunk a = a.
Proof. by destruct a. Qed.
Lemma append_default_r {E} (a : StreamTextChunk E) : append a default_chunk = a.
Proof. destruct a. unfold append. simpl. by rewrite !app_nil_r. Qed.

Class StreamTextParser (P E : Type) := {
  push_str : P -> str -> P * StreamTextChunk E;
  finish : P -> P * StreamTextChunk E
}.

(** ** Independence of the cut

    What a client observes of the extracted payloads is a homomorphic image of
    the list ([observe]; a parser may cut one payload into several pieces); on the
    states it reaches ([good]), pushing a text is pushing its parts. *)
Class ChunkInvariant (P E F : Type) `{StreamTextParser P E} := {
  observe : list E -> list F;
  good : P -> Prop;
  observe_app a b : observe (a ++ b) = observe a ++ observe b;
  good_push p s : good p -> good (push_str p s).1;
  push_app p a b : good p ->
    let '(p1, c1) := push_str p a in
    let '(p2, c2) := push_str p1 b in
    let '(p3, c3) := push_str p (a ++ b) in
    p3 = p2 /\ visible_text c3 = visible_text c1 ++ visible_text c2 /\
    observe (extracted c3) = observe (extracted c1) ++ observe (extracted c2);
  push_nil p : good p -> push_str p [] = (p, default_chunk)
}.

(** One [push_str] per chunk, the outputs appended. *)
Fixpoint push_all `{StreamTextParser P E} (p : P) (chunks : list str) : P * StreamTextChunk E :=
  match chunks with
  | [] => (p, default_chunk)
  | c :: cs =>
      let '(p, out) := push_str p c in
      let '(p, rest) := push_all p cs in
      (p, append out rest)
  end.
Definition run `{StreamTextParser P E} (p : P) (chunks : list str) : P * StreamTextChunk E :=
  let '(p, out) := push_all p chunks in
  let '(p, tail) := finish p in
  (p, append out tail).

Section invariant.
Context `{ChunkInvariant P E F}.

(** Same text shown, same payloads observed. *)
Definition same (a b : StreamTextChunk E) : Prop :=
  visible_text a = visible_text b /\ observe (extracted a) = observe (extracted b).
#[global] Instance same_equivalence : Equivalence same.
Proof.
  split.
  - by intros a.
  - intros a b [? ?]. by split.
  - intros a b c [? ?] [? ?]. split; congruence.
Qed.
#[global] Instance append_proper : Proper (same ==> same ==> same) append.
Proof.
  intros a a' [Ha Ha'] b b' [Hb Hb']. split; simpl; [by rewrite Ha, Hb|].
  by rewrite !observe_app, Ha', Hb'.
Qed.

Lemma push_all_concat p chunks :
  good p ->
  (push_all p chunks).1 = (push_str p (concat chunks)).1 /\
  same (push_all p chunks).2 (push_str p (concat chunks)).2 /\
  good (push_all p chunks).1.
Proof.
  revert p; induction chunks as [|c cs IH]; intros p Hg; simpl.
  - by rewrite push_nil.
  - pose proof (push_app p c (concat cs) Hg) as Happ.
    pose proof (good_push p c Hg) as Hg1.
    destruct (push_str p c) as [p1 c1]. simpl in Hg1.
    destruct (IH p1 Hg1) as (Hp & Hs & Hg').
    destruct (push_all p1 cs) as [p2 c2]. simpl in *.
    destruct (push_str p1 (concat cs)) as [p3 c3].
    destruct (push_str p (c ++ concat cs)) as [p4 c4]. simpl in *.
    destruct Happ as (-> & Hv & Ho). split_and!; [done| |done].
    rewrite Hs. split; simpl; [done|]. by rewrite observe_app.
Qed.

Lemma run_concat p chunks :
  good p -> (run p chunks).1 = (run p [concat chunks]).1 /\
            same (run p chunks).2 (run p [concat chunks]).2.
Proof.
  intros Hg. unfold run. simpl. destruct (push_all_concat p chunks Hg) as (Hp & Hs & _).
  destruct (push_all p chunks) as [p1 c1], (push_str p (concat chunks)) as [p2 c2].
  simpl in *. subst p2. destruct (finish p1) as [p3 c3]. simpl. split; [done|].
  by rewrite Hs, append_default_r.
Qed.
End invariant.

(** ** utf8_stream.rs *)

Inductive Utf8StreamParserError :=
| InvalidUtf8 (valid_up_to error_len : nat)
| IncompleteUtf8AtEof.

Record Utf8StreamParser (P : Type) := mkUtf8Parser { inner : P; pending_utf8 : Utf8.bytes }.
Arguments mkUtf8Parser {P}.
Arguments inner {P}.
Arguments pending_utf8 {P}.

Definition new_utf8 {P} (p : P) : Utf8StreamParser P := mkUtf8Parser p [].

Definition push_bytes `{StreamTextParser P E} (u : Utf8StreamParser P) (chunk : Utf8.bytes)
    : Utf8StreamParser P * result Utf8StreamParserError (StreamTextChunk E) :=
  let old_len := length (pending_utf8 u) in
  let pending := pending_utf8 u ++ chunk in
  let rolled_back := mkUtf8Parser (inner u) (take old_len pending) in
  match Utf8.from_utf8 pending with
  | Ok text =>
      let '(p, out) := push_str (inner u) text in (mkUtf8Parser p [], Ok out)
  | Err err =>
      match Utf8.error_len err with
      | Some error_len => (rolled_back, Err (InvalidUtf8 (Utf8.valid_up_to err) error_len))
      | None =>
          let valid_up_to := Utf8.valid_up_to err in
          if valid_up_to =? 0 then (mkUtf8Parser (inner u) pending, Ok default_chunk)
          else
            match Utf8.from_utf8 (take valid_up_to pending) with
            | Ok text =>
                let '(p, out) := push_str (inner u) text in
                (mkUtf8Parser p (drop valid_up_to pending), Ok out)
            | Err prefix_err =>
                (rolled_back, Err (InvalidUtf8 (Utf8.valid_up_to prefix_err)
                                     (default 0 (Utf8.error_len prefix_err))))
            end
      end
  end.

Definition finish_utf8 `{StreamTextParser P E} (u : Utf8StreamParser P)
    : Utf8StreamParser P * result Utf8StreamParserError (StreamTextChunk E) :=
  match pending_utf8 u with
  | [] =>
      let '(p, tail) := finish (inner u) in
      (mkUtf8Parser p [], Ok (append default_chunk tail))
  | pending =>
      match Utf8.from_utf8 pending with
      | Err err =>
          (u, Err match Utf8.error_len err with
                  | Some error_len => InvalidUtf8 (Utf8.valid_up_to err) error_len
                  | None => IncompleteUtf8AtEof
                  end)
      | Ok text =>
          let '(p, out) := push_str (inner u) text in
          let '(p, tail) := finish p in
          (mkUtf8Parser p [], Ok (append out tail))
      end
  end.

Definition into_inner {P} (u : Utf8StreamParser P) : result Utf8StreamParserError P :=
  match pending_utf8 u with
  | [] => Ok (inner u)
  | pending =>
      match Utf8.from_utf8 pending with
      | Ok _ => Ok (inner u)
      | Err err =>
          Err match Utf8.error_len err with
              | Some error_len => InvalidUtf8 (Utf8.valid_up_to err) error_len
              | None => IncompleteUtf8AtEof
              end
      end
  end.
Definition into_inner_lossy {P} (u : Utf8StreamParser P) : P := inner u.

(** One [push_bytes] per chunk, stopping at the first error. *)
Fixpoint push_all_bytes `{StreamTextParser P E} (u : Utf8StreamParser P)
    (chunks : list Utf8.bytes)
    : Utf8StreamParser P * result Utf8StreamParserError (StreamTextChunk E) :=
  match chunks with
  | [] => (u, Ok default_chunk)
  | c :: cs =>
      match push_bytes u c with
      | (u, Ok out) =>
          match push_all_bytes u cs with
          | (u, Ok rest) => (u, Ok (append out rest))
          | r => r
          end
      | r => r
      end
  end.
Definition run_bytes `{StreamTextParser P E} (u : Utf8StreamParser P) (chunks : list Utf8.bytes)
    : Utf8StreamParser P * result Utf8StreamParserError (StreamTextChunk E) :=
  match push_all_bytes u chunks with
  | (u, Ok out) =>
      match finish_utf8 u with
      | (u, Ok tail) => (u, Ok (append out tail))
      | r => r
      end
  | r => r
  end.

Section utf8.
Context `{ChunkInvariant P E F}.

(** The buffered bytes are the start of a character. *)
Definition partial (bs : Utf8.bytes) : Prop :=
  bs = [] \/ Utf8.decodes bs [] (Some (Utf8.mkUtf8Error 0 None)).

(** One chunk of bytes, by how the bytes decode. *)
Lemma push_bytes_spec (u : Utf8StreamParser P) chunk s e :
  good (inner u) -> Utf8.decodes (pending_utf8 u ++ chunk) s e ->
  push_bytes u chunk =
  match e with
  | Some (Utf8.mkUtf8Error v (Some n)) => (u, Err (InvalidUtf8 v n))
  | Some (Utf8.mkUtf8Error v None) =>
      (mkUtf8Parser (push_str (inner u) s).1 (drop v (pending_utf8 u ++ chunk)),
       Ok (push_str (inner u) s).2)
  | None => (mkUtf8Parser (push_str (inner u) s).1 [], Ok (push_str (inner u) s).2)
  end.
Proof.
  intros Hg Hd. unfold push_bytes. rewrite (Utf8.from_utf8_decodes _ _ _ Hd).
  destruct e as [[v [n|]]|]; simpl.
  - rewrite take_app_length. by destruct u.
  - apply Utf8.decodes_prefix in Hd as (Hv & Ht & Hr).
    rewrite (Utf8.from_utf8_decodes _ _ _ Ht).
    destruct (Nat.eqb_spec v 0) as [->|Hne].
    + rewrite take_0 in Ht. inversion Ht as [|bs ? ? ? ? ? ? Hne| |]; subst.
      * rewrite push_nil by done. done.
      * destruct bs; [done|]. simplify_list_eq.
    + by destruct (push_str (inner u) s).
  - by destruct (push_str (inner u) s).
Qed.

Lemma decodes_fun bs s e s' e' : Utf8.decodes bs s e -> Utf8.decodes bs s' e' -> s = s' /\ e = e'.
Proof.
  intros Ha Hb. pose proof (Utf8.decodes_decode _ _ _ 0 Ha) as H1.
  pose proof (Utf8.decodes_decode _ _ _ 0 Hb) as H2. rewrite H1 in H2. injection H2 as -> He.
  split; [done|]. destruct e as [[]|], e' as [[]|]; simplify_eq/=; done.
Qed.

(** Valid text cut anywhere: what is buffered is always the start of a character,
    and what was passed on is the text up to it. *)
Lemma push_all_bytes_valid chunks (u : Utf8StreamParser P) s :
  good (inner u) -> Utf8.decodes (pending_utf8 u ++ concat chunks) s None -> partial (pending_utf8 u) ->
  exists u' out, push_all_bytes u chunks = (u', Ok out) /\ pending_utf8 u' = [] /\
    inner u' = (push_str (inner u) s).1 /\ same out (push_str (inner u) s).2 /\ good (inner u').
Proof.
  revert u s; induction chunks as [|c cs IH]; intros u s Hg Hd Hp; simpl.
  - simpl in Hd. rewrite app_nil_r in Hd. destruct Hp as [Hp|Hp].
    + rewrite Hp in Hd. assert (s = []) as -> by (inversion Hd as [|[]| |]; by simplify_list_eq).
      exists u, default_chunk. by rewrite push_nil.
    + destruct (decodes_fun _ _ _ _ _ Hd Hp) as [_ [=]].
  - simpl in Hd. rewrite app_assoc in Hd.
    destruct (Utf8.decodes_total (pending_utf8 u ++ c)) as (s1 & e1 & Hd1).
    pose proof (Utf8.decode_app _ (concat cs) _ _ 0 Hd1) as Happ.
    rewrite (Utf8.decodes_decode _ _ _ 0 Hd) in Happ.
    rewrite (push_bytes_spec u c s1 e1 Hg Hd1).
    set (rest := match e1 with Some e => drop (Utf8.valid_up_to e) (pending_utf8 u ++ c) | None => [] end).
    assert (e1 = None \/ exists v, e1 = Some (Utf8.mkUtf8Error v None)) as Hcase.
    { destruct e1 as [[v [n|]]|]; [|eauto..]. simpl in Happ. inversion Happ. }
    assert (partial rest /\ exists s2, Utf8.decodes (rest ++ concat cs) s2 None /\ s = s1 ++ s2)
      as (Hrest & s2 & Hd2 & ->).
    { destruct (Utf8.decodes_total (rest ++ concat cs)) as (s2 & e2 & Hd2).
      destruct Hcase as [->|[v ->]]; simpl in *; unfold rest in *; simpl in *.
      - split; [by left|]. rewrite (Utf8.decodes_decode _ _ _ _ Hd2) in Happ. simpl in Happ.
        injection Happ as -> He. exists s2. split; [|done]. destruct e2; [done|exact Hd2].
      - apply Utf8.decodes_prefix in Hd1 as (_ & _ & Hr). split; [by right|].
        rewrite (Utf8.decodes_decode _ _ _ _ Hd2) in Happ. simpl in Happ.
        injection Happ as -> He. exists s2. split; [|done]. destruct e2; [done|exact Hd2]. }
    set (u1 := mkUtf8Parser (push_str (inner u) s1).1 rest).
    assert ((match e1 with
      | Some (Utf8.mkUtf8Error v (Some n)) => (u, Err (InvalidUtf8 v n))
      | Some (Utf8.mkUtf8Error v None) =>
          (mkUtf8Parser (push_str (inner u) s1).1 (drop v (pending_utf8 u ++ c)),
           Ok (push_str (inner u) s1).2)
      | None => (mkUtf8Parser (push_str (inner u) s1).1 [], Ok (push_str (inner u) s1).2)
      end) = (u1, Ok (push_str (inner u) s1).2)) as ->.
    { destruct Hcase as [->|[v ->]]; done. }
    destruct (IH u1 s2) as (u' & out & -> & Hpe & Hin & Hout & Hg');
      [by apply good_push|done|done|].
    exists u', (append (push_str (inner u) s1).2 out). split; [done|]. split; [done|].
    pose proof (push_app (inner u) s1 s2 Hg) as Hpush. unfold u1 in *. simpl in *.
    destruct (push_str (inner u) s1) as [p1 c1]. simpl in *.
    destruct (push_str p1 s2) as [p2 c2]. destruct (push_str (inner u) (s1 ++ s2)) as [p3 c3].
    simpl in *. destruct Hpush as (-> & Hv & Ho). split; [done|]. split; [|done].
    rewrite Hout. split; simpl; [done|]. by rewrite observe_app.
Qed.

(** ** Properties *)

(** However the UTF-8 bytes of a text are cut into chunks, inside characters
    too, the byte parser accepts every chunk and shows and extracts what the
    wrapped parser shows and extracts for the whole text. *)
Theorem bytes_cut_anywhere (p : P) text chunks :
  good p -> Forall Utf8.scalar text -> concat chunks = Utf8.encode text ->
  exists u out, run_bytes (new_utf8 p) chunks = (u, Ok out) /\
    pending_utf8 u = [] /\ inner u = (run p [text]).1 /\ same out (run p [text]).2.
Proof.
  intros Hg Hs Hc.
  assert (Utf8.decodes (Utf8.encode text) text None) as Hd.
  { destruct (Utf8.decodes_total (Utf8.encode text)) as (s & e & Hd).
    pose proof (Utf8.from_utf8_encode text Hs) as Hf. rewrite (Utf8.from_utf8_decodes _ _ _ Hd) in Hf.
    destruct e; [done|]. by injection Hf as ->. }
  destruct (push_all_bytes_valid chunks (new_utf8 p) text) as (u & out & Hr & Hp & Hi & Ho & Hg');
    [done|by rewrite Hc|by left|].
  unfold run_bytes. rewrite Hr. unfold finish_utf8. simpl in Hi, Ho. rewrite Hp, Hi. simpl.
  unfold run. simpl. destruct (push_str p text) as [p1 c1]. simpl in *.
  destruct (finish p1) as [p2 tail]. eexists _, _. split; [done|]. simpl. split_and!; [done..|].
  rewrite append_default_l, append_default_r. apply append_proper; [exact Ho|reflexivity].
Qed.

(** A chunk that completes an invalid UTF-8 sequence is rejected as a whole: the
    parser, buffered bytes included, is exactly as before the call. *)
Theorem invalid_chunk_is_rolled_back (u : Utf8StreamParser P) chunk u' err :
  good (inner u) -> push_bytes u chunk = (u', Err err) ->
  u' = u /\ exists v n, err = InvalidUtf8 v n /\
    Utf8.from_utf8 (pending_utf8 u ++ chunk) = Err (Utf8.mkUtf8Error v (Some n)).
Proof.
  intros Hg. destruct (Utf8.decodes_total (pending_utf8 u ++ chunk)) as (s & e & Hd).
  rewrite (push_bytes_spec _ _ _ _ Hg Hd), (Utf8.from_utf8_decodes _ _ _ Hd).
  destruct e as [[v [n|]]|]; [|done..]. intros [= <- <-]. eauto.
Qed.
End utf8.

End Stream.
