(* ===== verification/InlineTags.v ===== *)
(** Hidden inline tags ([inline_hidden_tag.rs]) and citations ([citation.rs]) of
    [codex-rs/utils/stream-parser/src].  The loop of [push_str] runs on fuel one
    larger than the buffered text: every turn that continues removes a delimiter,
    which is not empty.  Positions and lengths count characters; the source's byte
    offsets lie on the same character boundaries. *)
From S2P Require Import Prelude Utf8 StreamText.
Import Stream.

Module Inline.

(** ** Definitions *)

Section parser.
Context {T : Type}.

Record ExtractedInlineTag := mkExtracted { extracted_tag : T; extracted_content : str }.
Record InlineTagSpec := mkSpec { tag : T; open : str; close : str }.
Record ActiveTag := mkActive { active_tag : T; active_close : str; content : str }.
Record InlineHiddenTagParser := mkInline {
  specs : list InlineTagSpec;
  pending : str;
  active : option ActiveTag
}.

(** The assertions of [new] panic: [None]. *)
Definition new (specs : list InlineTagSpec) : option InlineHiddenTagParser :=
  match specs with
  | [] => None
  | _ =>
      if forallb (fun s => negb (Str.is_empty (open s)) && negb (Str.is_empty (close s))) specs
      then Some (mkInline specs [] None)
      else None
  end.

(** The longest proper prefix of [needle] that ends [s]. *)
Fixpoint suffix_prefix_from (k : nat) (s needle : str) : nat :=
  match k with
  | 0 => 0
  | S k' => if Str.ends_with (take k needle) s then k else suffix_prefix_from k' s needle
  end.
Definition longest_suffix_prefix_len (s needle : str) : nat :=
  suffix_prefix_from (min (length s) (length needle - 1)) s needle.

(** [min_by] over the specs that occur: the leftmost, then the longest opener, then
    the first spec. *)
Definition better (a : nat * InlineTagSpec) (b : option (nat * InlineTagSpec))
    : option (nat * InlineTagSpec) :=
  match b with
  | None => Some a
  | Some b =>
      if (a.1 <? b.1) || (a.1 =? b.1) && (Str.len (open b.2) <=? Str.len (open a.2))%N
      then Some a else Some b
  end.
Fixpoint best (position : InlineTagSpec -> option nat) (specs : list InlineTagSpec)
    : option (nat * InlineTagSpec) :=
  match specs with
  | [] => None
  | s :: ss =>
      match position s with
      | Some i => better (i, s) (best position ss)
      | None => best position ss
      end
  end.
Definition find_next_open (specs : list InlineTagSpec) (pending : str)
    : option (nat * InlineTagSpec) :=
  best (fun s => Str.find (open s) pending) specs.
Definition max_open_prefix_suffix_len (specs : list InlineTagSpec) (pending : str) : nat :=
  foldr (fun s m => max (longest_suffix_prefix_len pending (open s)) m) 0 specs.

Definition out_tag (t : T) (s : str) : StreamTextChunk ExtractedInlineTag :=
  mkStreamChunk [] [mkExtracted t s].
Definition out_text (s : str) : StreamTextChunk ExtractedInlineTag := mkStreamChunk s [].

Fixpoint drain (specs : list InlineTagSpec) (fuel : nat) (pending : str)
    (active : option ActiveTag) : str * option ActiveTag * StreamTextChunk ExtractedInlineTag :=
  match fuel with
  | 0 => (pending, active, default_chunk)
  | S fuel' =>
      match active with
      | Some a =>
          match Str.find (active_close a) pending with
          | Some close_idx =>
              let '(p, act, out) :=
                drain specs fuel' (drop (close_idx + length (active_close a)) pending) None in
              (p, act, append (out_tag (active_tag a) (content a ++ take close_idx pending)) out)
          | None =>
              let keep := longest_suffix_prefix_len pending (active_close a) in
              let n := length pending - keep in
              (drop n pending,
               Some (mkActive (active_tag a) (active_close a) (content a ++ take n pending)),
               default_chunk)
          end
      | None =>
          match find_next_open specs pending with
          | Some (open_idx, spec) =>
              let '(p, act, out) :=
                drain specs fuel' (drop (open_idx + length (open spec)) pending)
                  (Some (mkActive (tag spec) (close spec) [])) in
              (p, act, append (out_text (take open_idx pending)) out)
          | None =>
              let keep := max_open_prefix_suffix_len specs pending in
              let n := length pending - keep in
              (drop n pending, None, out_text (take n pending))
          end
      end
  end.

Definition inline_push_str (p : InlineHiddenTagParser) (chunk : str)
    : InlineHiddenTagParser * StreamTextChunk ExtractedInlineTag :=
  let text := pending p ++ chunk in
  let '(rest, act, out) := drain (specs p) (S (length text)) text (active p) in
  (mkInline (specs p) rest act, out).

Definition inline_finish (p : InlineHiddenTagParser)
    : InlineHiddenTagParser * StreamTextChunk ExtractedInlineTag :=
  match active p with
  | Some a =>
      (mkInline (specs p) [] None, out_tag (active_tag a) (content a ++ pending p))
  | None => (mkInline (specs p) [] None, out_text (pending p))
  end.

#[global] Instance inline_parser : StreamTextParser InlineHiddenTagParser ExtractedInlineTag := {
  push_str := inline_push_str;
  finish := inline_finish
}.

(** ** Lemmas: occurrences *)

Definition occurs (c s : str) (j : nat) : Prop := c `prefix_of` drop j s.

Lemma occurs_app c p b j : j + length c <= length p -> occurs c (p ++ b) j <-> occurs c p j.
Proof.
  intros Hj. unfold occurs. rewrite drop_app_le by lia. split.
  - intros [r Hr]. exists (drop (length c) (drop j p)).
    rewrite <- (take_drop (length c) (drop j p)) at 1. f_equal.
    apply (f_equal (take (length c))) in Hr.
    rewrite take_app_length, take_app_le in Hr by (rewrite length_drop; lia). done.
  - intros [r ->]. exists (r ++ b). by rewrite app_assoc.
Qed.

Lemma find_app c p b i : Str.find c p = Some i -> Str.find c (p ++ b) = Some i.
Proof.
  intros H. pose proof (Str.find_bound _ _ _ H) as Hb. apply Str.find_Some in H as (Hp & Hi & Hmin).
  apply Str.find_Some. split_and!.
  - by apply (occurs_app c p b i).
  - rewrite length_app. lia.
  - intros j Hj Ho. apply (Hmin j Hj). apply (occurs_app c p b j); [lia|done].
Qed.

(** Nothing is lost by looking only behind a point before which nothing occurs. *)
Lemma find_drop c s t :
  t <= length s -> (forall j, j < t -> ~ occurs c s j) ->
  Str.find c s = Nat.add t <$> Str.find c (drop t s).
Proof.
  intros Ht Hno. destruct (Str.find c (drop t s)) as [i|] eqn:E; simpl.
  - apply Str.find_Some in E as (Hp & Hi & Hmin). rewrite drop_drop in Hp. rewrite length_drop in Hi.
    apply Str.find_Some. split_and!; [done|lia|]. intros j Hj Ho.
    destruct (decide (j < t)) as [Hlt|Hge]; [by apply (Hno j)|].
    apply (Hmin (j - t)); [lia|]. rewrite drop_drop. by replace (t + (j - t)) with j by lia.
  - apply Str.find_None. intros j Hj Ho.
    destruct (decide (j < t)) as [Hlt|Hge]; [by apply (Hno j)|].
    apply Str.find_None with (j := j - t) in E; [|rewrite length_drop; lia].
    apply E. rewrite drop_drop. by replace (t + (j - t)) with j by lia.
Qed.

Lemma suffix_prefix_from_spec k s needle :
  let n := suffix_prefix_from k s needle in
  n <= k /\ take n needle `suffix_of` s /\
  forall m, m <= k -> take m needle `suffix_of` s -> m <= n.
Proof.
  induction k as [|k IH]; cbn [suffix_prefix_from].
  - split_and!; [lia|apply suffix_nil|intros; lia].
  - destruct (Str.ends_with _ s) eqn:E.
    + apply Str.ends_with_spec in E. split_and!; [lia|done|intros; lia].
    + destruct IH as (Hn & Hs & Hmax). split_and!; [lia|done|]. intros m Hm Hsuf.
      destruct (decide (m = S k)) as [->|]; [|apply Hmax; [lia|done]].
      apply Str.ends_with_spec in Hsuf. congruence.
Qed.

Lemma longest_spec s needle :
  let n := longest_suffix_prefix_len s needle in
  n <= length s /\ n <= length needle - 1 /\ take n needle `suffix_of` s /\
  forall m, m <= length s -> m <= length needle - 1 -> take m needle `suffix_of` s -> m <= n.
Proof.
  destruct (suffix_prefix_from_spec (min (length s) (length needle - 1)) s needle) as (? & ? & Hm).
  unfold longest_suffix_prefix_len. split_and!; [lia|lia|done|]. intros m ? ?. apply Hm. lia.
Qed.

Lemma suffix_shorter (a b s : str) : a `suffix_of` s -> b `suffix_of` s -> length a <= length b ->
  a `suffix_of` b.
Proof.
  intros [x ->] [y Hy] Hl. exists (drop (length y) x).
  assert (length y <= length x) by (apply (f_equal length) in Hy; rewrite !length_app in Hy; lia).
  apply (f_equal (drop (length y))) in Hy. rewrite drop_app_length, drop_app_le in Hy by done. done.
Qed.

(** An occurrence in [p ++ b] that starts before the kept suffix lies inside [p]. *)
Lemma straddle c p b j :
  c <> [] -> occurs c (p ++ b) j -> j < length p - longest_suffix_prefix_len p c ->
  j + length c <= length p.
Proof.
  intros Hc Ho Hj. destruct (decide (j + length c <= length p)) as [|Hn]; [done|exfalso].
  destruct (longest_spec p c) as (_ & _ & _ & Hmax).
  assert (length p - j <= longest_suffix_prefix_len p c); [|lia].
  apply Hmax; [lia|lia|]. exists (take j p). rewrite <- (take_drop j p) at 1. f_equal.
  destruct Ho as [r Hr]. rewrite drop_app_le in Hr by lia.
  apply (f_equal (take (length p - j))) in Hr.
  rewrite take_app_length', take_app_le in Hr by (rewrite ?length_drop; lia). done.
Qed.

Lemma no_early c p b keep :
  c <> [] -> Str.find c p = None -> longest_suffix_prefix_len p c <= keep ->
  forall j, j < length p - keep -> ~ occurs c (p ++ b) j.
Proof.
  intros Hc Hf Hk j Hj Ho. pose proof (straddle c p b j Hc Ho ltac:(lia)) as Hl.
  apply occurs_app in Ho; [|done]. apply Str.find_None with (j := j) in Hf; [done|lia].
Qed.

(** The kept suffix of the longer text fits into what is kept of [p], plus [b]. *)
Lemma longest_app c p b keep :
  c <> [] -> longest_suffix_prefix_len p c <= keep <= length p ->
  longest_suffix_prefix_len (p ++ b) c <= keep + length b.
Proof.
  intros Hc Hk. destruct (longest_spec (p ++ b) c) as (Hl & Hn & Hs & _).
  set (n := longest_suffix_prefix_len (p ++ b) c) in *. rewrite length_app in Hl.
  destruct (decide (n <= keep + length b)) as [|Hgt]; [done|exfalso].
  destruct (longest_spec p c) as (_ & _ & _ & Hmax).
  assert (n - length b <= longest_suffix_prefix_len p c); [|lia].
  apply Hmax; [lia|lia|]. destruct Hs as [x Hx].
  assert (length x + n = length p + length b) as Hlen.
  { apply (f_equal length) in Hx. rewrite !length_app, length_take in Hx. lia. }
  exists x. apply (f_equal (take (length p))) in Hx. rewrite take_app_length in Hx.
  rewrite Hx, take_app_ge by lia. f_equal. rewrite take_take. f_equal. lia.
Qed.

Lemma longest_drop c s t :
  t <= length s -> longest_suffix_prefix_len s c <= length s - t ->
  longest_suffix_prefix_len (drop t s) c = longest_suffix_prefix_len s c.
Proof.
  intros Ht Hk. destruct (longest_spec s c) as (H1 & H2 & H3 & H4).
  destruct (longest_spec (drop t s) c) as (G1 & G2 & G3 & G4). rewrite length_drop in *.
  assert (forall m, take m c `suffix_of` drop t s -> take m c `suffix_of` s) as Hup.
  { intros m [x Hx]. exists (take t s ++ x). rewrite <- app_assoc, <- Hx. by rewrite take_drop. }
  apply Nat.le_antisymm.
  - apply H4; [lia|lia|by apply Hup].
  - apply G4; [lia|lia|]. eapply suffix_shorter; [exact H3| |rewrite length_take, length_drop; lia].
    exists (take t s). by rewrite take_drop.
Qed.

(** ** Lemmas: the choice of the opener *)

Lemma best_ext f g ss : (forall s, s ∈ ss -> f s = g s) -> best f ss = best g ss.
Proof.
  induction ss as [|s ss IH]; intros H; simpl; [done|].
  rewrite H by left. rewrite IH; [done|]. intros; apply H; by right.
Qed.

Lemma best_Some f ss i s : best f ss = Some (i, s) -> s ∈ ss /\ f s = Some i.
Proof.
  induction ss as [|x ss IH]; simpl; [done|]. destruct (f x) as [k|] eqn:E.
  - unfold better. destruct (best f ss) as [[i' s']|].
    + case_match; intros [= <- <-]; [split; [left|done]|]. destruct (IH eq_refl). split; [by right|done].
    + intros [= <- <-]. split; [left|done].
  - intros H. destruct (IH H). split; [by right|done].
Qed.

Lemma best_None f ss : best f ss = None <-> Forall (fun s => f s = None) ss.
Proof.
  induction ss as [|x ss IH]; simpl; [done|]. rewrite Forall_cons, <- IH. destruct (f x).
  - unfold better. destruct (best f ss); [case_match|]; naive_solver.
  - naive_solver.
Qed.

Lemma best_shift t f ss :
  best (fun s => Nat.add t <$> f s) ss = (fun '(i, s) => (t + i, s)) <$> best f ss.
Proof.
  induction ss as [|x ss IH]; simpl; [done|]. rewrite IH. destruct (f x) as [i|]; simpl; [|done].
  destruct (best f ss) as [[j y]|]; simpl; [|done].
  assert ((t + i <? t + j) = (i <? j)) as ->.
  { destruct (Nat.ltb_spec (t + i) (t + j)), (Nat.ltb_spec i j); lia || done. }
  assert ((t + i =? t + j) = (i =? j)) as ->.
  { destruct (Nat.eqb_spec (t + i) (t + j)), (Nat.eqb_spec i j); lia || done. }
  by case_match.
Qed.

(** Openers that turn up strictly later do not change the choice. *)
Definition upto (i : nat) (r : option (nat * InlineTagSpec)) : option (nat * InlineTagSpec) :=
  '(k, s) ← r; if k <=? i then Some (k, s) else None.

Lemma upto_better i a b : upto i (better a b) =
  match upto i (Some a) with Some _ => better a (upto i b) | None => upto i b end.
Proof.
  destruct a as [k s]. unfold better, upto. destruct b as [[k' s']|]; simpl; [|by case_match].
  set (w := (k <? k') || _). assert (w = true -> k <= k') as Ht.
  { unfold w. intros [?%Nat.ltb_lt|[?%Nat.eqb_eq _]%andb_true_iff]%orb_true_iff; lia. }
  assert (w = false -> k' <= k) as Hf.
  { unfold w. intros [?%Nat.ltb_ge _]%orb_false_iff. done. }
  destruct (Nat.leb_spec k i), (Nat.leb_spec k' i); simpl; fold w; destruct w; simpl;
    rewrite ?(proj2 (Nat.leb_le k i)), ?(proj2 (Nat.leb_gt k i)),
      ?(proj2 (Nat.leb_le k' i)), ?(proj2 (Nat.leb_gt k' i)) by lia; try done.
  - specialize (Hf eq_refl). lia.
  - specialize (Ht eq_refl). lia.
Qed.

Lemma best_later i f g ss :
  (forall s, s ∈ ss -> f s = g s \/ f s = None /\ exists j, g s = Some j /\ i < j) ->
  upto i (best f ss) = upto i (best g ss).
Proof.
  induction ss as [|x ss IH]; intros H; simpl; [done|].
  assert (upto i (best f ss) = upto i (best g ss)) as IH' by (apply IH; intros; apply H; by right).
  destruct (H x ltac:(left)) as [->|(-> & j & -> & Hj)].
  - destruct (g x); [|done]. by rewrite !upto_better, IH'.
  - rewrite upto_better, IH'. unfold upto at 2. simpl. by destruct (Nat.leb_spec j i); [lia|].
Qed.

(** ** Lemmas: the loop *)

Definition active_ok (a : option ActiveTag) : Prop :=
  from_option (fun a => active_close a <> []) True a.
(** Delimiters are not empty, and no opener lies inside a different one. *)
Definition specs_ok (ss : list InlineTagSpec) : Prop :=
  (forall s, s ∈ ss -> open s <> [] /\ close s <> []) /\
  (forall s s' x y, s ∈ ss -> s' ∈ ss -> open s' = x ++ open s ++ y -> x = [] /\ y = []).

Definition prepend (o : StreamTextChunk ExtractedInlineTag)
    (r : str * option ActiveTag * StreamTextChunk ExtractedInlineTag)
    : str * option ActiveTag * StreamTextChunk ExtractedInlineTag :=
  let '(p, act, out) := r in (p, act, append o out).

Lemma prepend_prepend a b r : prepend a (prepend b r) = prepend (append a b) r.
Proof. destruct r as [[p act] out]. simpl. by rewrite append_assoc. Qed.
Lemma prepend_default r : prepend default_chunk r = r.
Proof. destruct r as [[p act] out]. simpl. by rewrite append_default_l. Qed.

Section loop.
Variable ss : list InlineTagSpec.
Hypothesis Hss : specs_ok ss.

Lemma drain_fuel n m p a :
  active_ok a -> length p < n -> length p < m -> drain ss n p a = drain ss m p a.
Proof.
  revert m p a; induction n as [|n IH]; intros m p a Ha Hn Hm; [lia|].
  destruct m as [|m]; [lia|]. cbn [drain]. destruct a as [a|].
  - destruct (Str.find (active_close a) p) as [i|] eqn:E; [|done].
    apply Str.find_bound in E. simpl in Ha.
    assert (0 < length (active_close a)) by (destruct (active_close a); simpl; [done|lia]).
    rewrite (IH m) by (done || (rewrite length_drop; lia)). done.
  - destruct (find_next_open ss p) as [[i s]|] eqn:E; [|done].
    apply best_Some in E as [Hs E]. apply Str.find_bound in E.
    destruct (proj1 Hss s Hs) as [Ho Hc].
    assert (0 < length (open s)) by (destruct (open s); simpl; [done|lia]).
    rewrite (IH m) by (done || (rewrite length_drop; lia)). done.
Qed.

Definition full (p : str) (a : option ActiveTag) := drain ss (S (length p)) p a.

Lemma full_active p a :
  active_close a <> [] ->
  full p (Some a) =
  match Str.find (active_close a) p with
  | Some i => prepend (out_tag (active_tag a) (content a ++ take i p))
                (full (drop (i + length (active_close a)) p) None)
  | None =>
      let n := length p - longest_suffix_prefix_len p (active_close a) in
      (drop n p, Some (mkActive (active_tag a) (active_close a) (content a ++ take n p)),
       default_chunk)
  end.
Proof.
  intros Hc. unfold full at 1. cbn [drain].
  destruct (Str.find (active_close a) p) as [i|] eqn:E; [|done].
  apply Str.find_bound in E.
  assert (0 < length (active_close a)) by (destruct (active_close a); simpl; [done|lia]).
  unfold full. rewrite (drain_fuel (length p) (S (length (drop (i + length (active_close a)) p))))
    by (done || (rewrite length_drop; lia)).
  by destruct (drain ss _ _ _) as [[? ?] ?].
Qed.

Lemma full_inactive p :
  full p None =
  match find_next_open ss p with
  | Some (i, s) => prepend (out_text (take i p))
      (full (drop (i + length (open s)) p) (Some (mkActive (tag s) (close s) [])))
  | None =>
      let n := length p - max_open_prefix_suffix_len ss p in
      (drop n p, None, out_text (take n p))
  end.
Proof.
  unfold full at 1. cbn [drain]. destruct (find_next_open ss p) as [[i s]|] eqn:E; [|done].
  apply best_Some in E as [Hs E]. apply Str.find_bound in E. destruct (proj1 Hss s Hs) as [Ho Hc].
  assert (0 < length (open s)) by (destruct (open s); simpl; [done|lia]).
  unfold full. rewrite (drain_fuel (length p) (S (length (drop (i + length (open s)) p))))
    by (done || (rewrite length_drop; lia)).
  by destruct (drain ss _ _ _) as [[? ?] ?].
Qed.

Lemma max_open_spec l p :
  (forall s, s ∈ l -> longest_suffix_prefix_len p (open s) <= max_open_prefix_suffix_len l p) /\
  max_open_prefix_suffix_len l p <= length p.
Proof.
  induction l as [|x l [IH1 IH2]]; simpl; [split; [intros s Hs; by apply elem_of_nil in Hs|lia]|].
  pose proof (proj1 (longest_spec p (open x))). split; [|lia].
  intros s [->|Hs]%elem_of_cons; [lia|]. specialize (IH1 s Hs). lia.
Qed.

Lemma max_open_drop l s t :
  t <= length s -> (forall x, x ∈ l -> longest_suffix_prefix_len s (open x) <= length s - t) ->
  max_open_prefix_suffix_len l (drop t s) = max_open_prefix_suffix_len l s.
Proof.
  intros Ht. induction l as [|x l IH]; intros H; simpl; [done|].
  rewrite longest_drop by (done || (apply H; left)). f_equal. apply IH. intros; apply H; by right.
Qed.

Lemma max_open_le l p n :
  (forall x, x ∈ l -> longest_suffix_prefix_len p (open x) <= n) ->
  max_open_prefix_suffix_len l p <= n.
Proof.
  induction l as [|x l IH]; intros H; simpl; [lia|].
  pose proof (H x ltac:(left)). assert (max_open_prefix_suffix_len l p <= n); [|lia].
  apply IH. intros; apply H; by right.
Qed.

(** Text before any delimiter can be handed on at once. *)
Lemma advance_active s t a :
  active_close a <> [] -> t <= length s -> (forall j, j < t -> ~ occurs (active_close a) s j) ->
  longest_suffix_prefix_len s (active_close a) <= length s - t ->
  full s (Some a) =
  full (drop t s) (Some (mkActive (active_tag a) (active_close a) (content a ++ take t s))).
Proof.
  intros Hc Ht Hno Hk. rewrite !full_active by done. simpl. rewrite (find_drop _ s t) by done.
  destruct (Str.find (active_close a) (drop t s)) as [i|]; simpl.
  - rewrite <- app_assoc, take_take_drop, drop_drop. by rewrite Nat.add_assoc.
  - rewrite longest_drop by done. rewrite length_drop.
    set (k := longest_suffix_prefix_len s (active_close a)) in *.
    rewrite drop_drop, <- app_assoc, take_take_drop.
    by replace (t + (length s - t - k)) with (length s - k) by lia.
Qed.

Lemma advance_inactive s t :
  t <= length s -> (forall x, x ∈ ss -> forall j, j < t -> ~ occurs (open x) s j) ->
  (forall x, x ∈ ss -> longest_suffix_prefix_len s (open x) <= length s - t) ->
  full s None = prepend (out_text (take t s)) (full (drop t s) None).
Proof.
  intros Ht Hno Hk. rewrite !full_inactive. unfold find_next_open.
  rewrite (best_ext _ (fun x => Nat.add t <$> Str.find (open x) (drop t s)))
    by (intros x Hx; apply find_drop; [done|by apply Hno]).
  rewrite best_shift. destruct (best _ ss) as [[i x]|]; simpl.
  - rewrite prepend_prepend, drop_drop. unfold append, out_text. simpl.
    by rewrite take_take_drop, Nat.add_assoc.
  - rewrite max_open_drop by done. rewrite length_drop.
    pose proof (max_open_le ss s _ Hk) as Hm. set (k := max_open_prefix_suffix_len ss s) in *.
    unfold append, out_text. simpl. rewrite drop_drop, take_take_drop.
    by replace (t + (length s - t - k)) with (length s - k) by lia.
Qed.

(** More text does not change which opener comes first. *)
Lemma find_next_open_app p b i x :
  find_next_open ss p = Some (i, x) -> find_next_open ss (p ++ b) = Some (i, x).
Proof.
  intros H. pose proof (best_Some _ _ _ _ H) as [Hx Hfx]. unfold find_next_open in *.
  assert (upto i (best (fun s => Str.find (open s) p) ss) =
          upto i (best (fun s => Str.find (open s) (p ++ b)) ss)) as Hu.
  { apply best_later. intros y Hy. destruct (Str.find (open y) p) as [j|] eqn:Ey.
    - left. symmetry. by apply find_app.
    - destruct (Str.find (open y) (p ++ b)) as [j|] eqn:Eb; [right|by left].
      split; [done|]. exists j. split; [done|].
      destruct (decide (i < j)) as [|Hge]; [done|exfalso].
      (* the opener found at [i] would lie inside the one at [j] *)
      pose proof (Str.find_bound _ _ _ Hfx) as Hbx. pose proof (Str.find_bound _ _ _ Eb) as Hby.
      apply Str.find_Some in Hfx as (Hox & _ & _). apply Str.find_Some in Eb as (Hoy & _ & _).
      assert (length p < j + length (open y)) as Hlong.
      { destruct (decide (j + length (open y) <= length p)) as [Hin|]; [|lia].
        apply (occurs_app _ p b j Hin) in Hoy.
        apply Str.find_None with (j := j) in Ey; [done|lia]. }
      apply (occurs_app _ p b i) in Hox; [|lia].
      destruct Hox as [r Hr], Hoy as [r' Hr'].
      assert (open y = take (i - j) (open y) ++ open x ++ drop (i - j + length (open x)) (open y)) as Hin.
      { rewrite <- (take_drop (i - j) (open y)) at 1. f_equal.
        rewrite <- (take_drop (length (open x)) (drop (i - j) (open y))) at 1.
        rewrite drop_drop. f_equal.
        apply (f_equal (drop (i - j))) in Hr'. rewrite drop_drop in Hr'.
        replace (j + (i - j)) with i in Hr' by lia. rewrite Hr in Hr'.
        rewrite drop_app_le in Hr' by lia. apply (f_equal (take (length (open x)))) in Hr'.
        rewrite take_app_length, take_app_le in Hr' by (rewrite length_drop; lia). done. }
      destruct (proj2 Hss x y _ _ Hx Hy Hin) as [H1 H2].
      apply (f_equal length) in Hin. rewrite H1, H2 in Hin. simpl in Hin. rewrite length_app in Hin.
      simpl in Hin. apply (f_equal length) in H1. rewrite length_take in H1. simpl in H1. lia. }
  rewrite H in Hu. unfold upto in Hu. simpl in Hu. rewrite Nat.leb_refl in Hu.
  destruct (best (fun s => Str.find (open s) (p ++ b)) ss) as [[k z]|]; [|done]. simpl in Hu.
  destruct (k <=? i); [|done]. by injection Hu as -> ->.
Qed.

Lemma full_app p a b :
  active_ok a ->
  let '(p', a', o) := full p a in
  full (p ++ b) a = prepend o (full (p' ++ b) a') /\ active_ok a'.
Proof.
  revert a; induction p as [p IH] using (induction_ltof1 _ (@length N)); intros a Ha.
  unfold ltof in IH. destruct a as [a|]; simpl in Ha.
  - rewrite !full_active by done. destruct (Str.find (active_close a) p) as [i|] eqn:E.
    + rewrite (find_app _ _ b _ E). pose proof (Str.find_bound _ _ _ E).
      assert (0 < length (active_close a)) by (destruct (active_close a); simpl; [done|lia]).
      rewrite take_app_le, drop_app_le by lia.
      specialize (IH (drop (i + length (active_close a)) p)). rewrite length_drop in IH.
      specialize (IH ltac:(lia) None I).
      destruct (full (drop (i + length (active_close a)) p) None) as [[p' a'] o]. simpl.
      destruct IH as [-> ?]. by rewrite prepend_prepend.
    + simpl. split; [|done]. rewrite <- full_active by done.
      destruct (longest_spec p (active_close a)) as (Hl & _).
      set (k := longest_suffix_prefix_len p (active_close a)) in *.
      rewrite (advance_active (p ++ b) (length p - k) a).
      * rewrite drop_app_le, take_app_le by lia. by rewrite prepend_default.
      * done.
      * rewrite length_app. lia.
      * by apply no_early.
      * pose proof (longest_app (active_close a) p b k Ha ltac:(lia)). rewrite length_app. lia.
  - rewrite !full_inactive. destruct (find_next_open ss p) as [[i x]|] eqn:E.
    + rewrite (find_next_open_app _ b _ _ E). apply best_Some in E as [Hx E].
      pose proof (Str.find_bound _ _ _ E). destruct (proj1 Hss x Hx) as [Ho Hc].
      assert (0 < length (open x)) by (destruct (open x); simpl; [done|lia]).
      rewrite take_app_le, drop_app_le by lia.
      specialize (IH (drop (i + length (open x)) p)). rewrite length_drop in IH.
      specialize (IH ltac:(lia) (Some (mkActive (tag x) (close x) [])) Hc).
      destruct (full (drop (i + length (open x)) p) _) as [[p' a'] o]. simpl.
      destruct IH as [-> ?]. by rewrite prepend_prepend.
    + simpl. split; [|done]. rewrite <- full_inactive.
      destruct (max_open_spec ss p) as [Hk1 Hk2].
      set (k := max_open_prefix_suffix_len ss p) in *.
      rewrite (advance_inactive (p ++ b) (length p - k)).
      * by rewrite drop_app_le, take_app_le by lia.
      * rewrite length_app. lia.
      * intros x Hx. unfold find_next_open in E. apply best_None in E. rewrite Forall_forall in E.
        apply no_early; [by apply Hss|by apply E|by apply Hk1].
      * intros x Hx. pose proof (longest_app (open x) p b k) as Hl. rewrite length_app.
        specialize (Hl ltac:(by apply Hss) ltac:(split; [by apply Hk1|done])). lia.
Qed.
End loop.

(** ** The promise of the interface *)

Definition drained (p : InlineHiddenTagParser) : Prop :=
  specs_ok (specs p) /\ active_ok (active p) /\
  full (specs p) (pending p) (active p) = (pending p, active p, default_chunk).

Lemma append_id {E} (a b : StreamTextChunk E) : append a b = a -> b = default_chunk.
Proof.
  destruct a as [va ea], b as [vb eb]. unfold append. simpl. intros [= Hv He].
  rewrite <- (app_nil_r va) in Hv at 2. apply app_inv_head in Hv.
  rewrite <- (app_nil_r ea) in He at 2. apply app_inv_head in He. by subst.
Qed.

Lemma push_full p s :
  inline_push_str p s =
  let '(rest, act, out) := full (specs p) (pending p ++ s) (active p) in
  (mkInline (specs p) rest act, out).
Proof. done. Qed.

Lemma push_drained p s : drained p -> drained (inline_push_str p s).1.
Proof.
  intros (Hs & Ha & Hd). unfold inline_push_str.
  pose proof (full_app (specs p) Hs (pending p ++ s) (active p) [] Ha) as H.
  fold (full (specs p) (pending p ++ s) (active p)).
  destruct (full (specs p) (pending p ++ s) (active p)) as [[p' a'] o] eqn:E. simpl.
  destruct H as [H Ha']. rewrite !app_nil_r in H. split_and!; [done|done|]. simpl.
  rewrite E in H. destruct (full (specs p) p' a') as [[p2 a2] o2]. simpl in H.
  injection H as <- <- Ho. symmetry in Ho. apply append_id in Ho. by subst.
Qed.

#[global] Program Instance inline_invariant
  : ChunkInvariant InlineHiddenTagParser ExtractedInlineTag ExtractedInlineTag := {
  observe l := l;
  good := drained
}.
Next Obligation. done. Qed.
Next Obligation. intros p s. apply push_drained. Qed.
Next Obligation.
  intros p a b (Hs & Ha & Hd). cbn [push_str inline_parser]. rewrite !push_full, app_assoc.
  pose proof (full_app (specs p) Hs (pending p ++ a) (active p) b Ha) as H.
  destruct (full (specs p) (pending p ++ a) (active p)) as [[p1 a1] o1].
  destruct H as [-> _]. rewrite push_full. cbn [specs pending active].
  by destruct (full (specs p) (p1 ++ b) a1) as [[p2 a2] o2].
Qed.
Next Obligation.
  intros p (Hs & Ha & Hd). simpl. unfold inline_push_str. rewrite app_nil_r.
  fold (full (specs p) (pending p) (active p)). rewrite Hd. by destruct p.
Qed.

Lemma new_drained ss p : new ss = Some p -> specs_ok ss -> drained p.
Proof.
  unfold new. destruct ss as [|x ss]; [done|]. case_match; [|done]. intros [= <-] Hs.
  split_and!; [done|done|]. cbn [specs pending active]. rewrite full_inactive by done.
  assert (find_next_open (x :: ss) [] = None) as ->.
  { unfold find_next_open. apply best_None, Forall_forall. intros y Hy.
    destruct (proj1 Hs y Hy) as [Ho _]. by destruct (open y). }
  done.
Qed.

(** ** Properties *)

(** For tag specifications in which no opener lies inside a different one, the
    way a stream is cut does not matter: feeding any chunks and finishing shows
    the same text and extracts the same tags, in order, as feeding the whole text
    at once, even when a delimiter is split between chunks. *)
Theorem inline_tags_cut_anywhere ss p chunks :
  specs_ok ss -> new ss = Some p -> run p chunks = run p [concat chunks].
Proof.
  intros Hs Hn. pose proof (new_drained _ _ Hn Hs) as Hd.
  pose proof (run_concat (F := ExtractedInlineTag) p chunks) as Hr.
  destruct (Hr Hd) as [H1 [H2 H3]].
  destruct (run p chunks) as [p1 [v1 e1]], (run p [concat chunks]) as [p2 [v2 e2]].
  simpl in *. by subst.
Qed.

End parser.
Arguments InlineTagSpec : clear implicits.
Arguments InlineHiddenTagParser : clear implicits.
Arguments ExtractedInlineTag : clear implicits.
Arguments ActiveTag : clear implicits.

(** ** citation.rs *)

Inductive CitationTag := Citation.
Definition CITATION_OPEN : str := $"<oai-mem-citation>".
Definition CITATION_CLOSE : str := $"</oai-mem-citation>".
Definition citation_specs : list (InlineTagSpec CitationTag) :=
  [mkSpec Citation CITATION_OPEN CITATION_CLOSE].

Record CitationStreamParser := mkCitation { citation_inner : InlineHiddenTagParser CitationTag }.
Definition new_citation : CitationStreamParser := mkCitation (mkInline citation_specs [] None).

Definition citation_chunk (c : StreamTextChunk (ExtractedInlineTag CitationTag))
    : StreamTextChunk str :=
  mkStreamChunk (visible_text c) (extracted_content <$> extracted c).
#[global] Instance citation_parser : StreamTextParser CitationStreamParser str := {
  push_str p chunk :=
    let '(inner, out) := inline_push_str (citation_inner p) chunk in
    (mkCitation inner, citation_chunk out);
  finish p :=
    let '(inner, out) := inline_finish (citation_inner p) in
    (mkCitation inner, citation_chunk out)
}.

Definition strip_citations (text : str) : str * list str :=
  let '(parser, out) := push_str new_citation text in
  let '(_, tail) := finish parser in
  (visible_text out ++ visible_text tail, extracted out ++ extracted tail).

#[global] Program Instance citation_invariant : ChunkInvariant CitationStreamParser str str := {
  observe l := l;
  good p := drained (citation_inner p)
}.
Next Obligation. done. Qed.
Next Obligation.
  intros p s Hd. simpl. pose proof (push_drained _ s Hd).
  by destruct (inline_push_str (citation_inner p) s).
Qed.
Next Obligation.
  intros p a b Hd. pose proof (push_app (citation_inner p) a b Hd) as H.
  cbn [push_str inline_parser citation_parser] in *.
  destruct (inline_push_str (citation_inner p) a) as [p1 c1]. cbn [citation_inner].
  destruct (inline_push_str p1 b) as [p2 c2].
  destruct (inline_push_str (citation_inner p) (a ++ b)) as [p3 c3].
  destruct H as (-> & Hv & He). simpl in *. split_and!; [done|done|]. by rewrite He, fmap_app.
Qed.
Next Obligation.
  intros p Hd. pose proof (push_nil (citation_inner p) Hd) as H.
  cbn [push_str inline_parser citation_parser] in *. rewrite H. by destruct p.
Qed.

Lemma citation_specs_ok : specs_ok citation_specs.
Proof.
  split; [intros s Hs; apply list_elem_of_singleton in Hs as ->; done|].
  intros s s' x y Hs Hs' H. apply list_elem_of_singleton in Hs as ->.
  apply list_elem_of_singleton in Hs' as ->. apply (f_equal length) in H.
  rewrite !length_app in H. destruct x, y; simpl in *; [done|lia..].
Qed.

Lemma new_citation_good : good new_citation.
Proof. by apply (new_drained citation_specs); [|apply citation_specs_ok]. Qed.

(** Text without an opener, followed by a citation: what the parser makes of it. *)
Lemma find_first_app (c p b : str) :
  c <> [] -> (forall j, j < length p -> ~ occurs c (p ++ c ++ b) j) ->
  Str.find c (p ++ c ++ b) = Some (length p).
Proof.
  intros Hc Hno. apply Str.find_Some. split_and!.
  - rewrite drop_app_length. by exists b.
  - rewrite length_app. lia.
  - exact Hno.
Qed.

Lemma strip_citations_run text :
  strip_citations text =
  (visible_text (run new_citation [text]).2, extracted (run new_citation [text]).2).
Proof.
  unfold strip_citations, run. cbn [push_all].
  destruct (push_str new_citation text) as [p1 c1]. rewrite append_default_r.
  by destruct (finish p1) as [p2 c2].
Qed.

Lemma find_none_after after : (forall j, ~ occurs CITATION_OPEN after j) ->
  find_next_open citation_specs after = None.
Proof.
  intros H. unfold find_next_open. simpl. destruct (Str.find CITATION_OPEN after) as [i|] eqn:E; [|done].
  apply Str.find_Some in E as (Ho & _). by apply H in Ho.
Qed.

Lemma run_one_citation before body after :
  (forall j, j < length before ->
     ~ occurs CITATION_OPEN (before ++ CITATION_OPEN ++ body ++ CITATION_CLOSE ++ after) j) ->
  (forall j, j < length body -> ~ occurs CITATION_CLOSE (body ++ CITATION_CLOSE ++ after) j) ->
  (forall j, ~ occurs CITATION_OPEN after j) ->
  (run new_citation [before ++ CITATION_OPEN ++ body ++ CITATION_CLOSE ++ after]).2 =
  mkStreamChunk (before ++ after) [body].
Proof.
  intros H1 H2 H3. pose proof citation_specs_ok as Hok.
  assert (full citation_specs (before ++ CITATION_OPEN ++ body ++ CITATION_CLOSE ++ after) None =
    let n := length after - max_open_prefix_suffix_len citation_specs after in
    (drop n after, None, mkStreamChunk (before ++ take n after) [mkExtracted Citation body])) as Hf.
  { rewrite full_inactive by done. unfold find_next_open at 1. cbn [best citation_specs open].
    rewrite find_first_app by done. cbn [better best].
    rewrite take_app_length, Nat.add_comm, Nat.add_comm, <- drop_drop, !drop_app_length.
    rewrite full_active by done. cbn [active_close active_tag content close tag].
    rewrite find_first_app by done.
    rewrite take_app_length, <- drop_drop, !drop_app_length.
    rewrite full_inactive, find_none_after by done. cbn. by rewrite ?app_nil_r. }
  unfold run. cbn [push_all push_str citation_parser citation_inner new_citation].
  rewrite push_full. cbn [specs pending active app]. rewrite Hf. cbn.
  rewrite append_default_r. unfold append, citation_chunk, out_text. cbn.
  by rewrite <- app_assoc, take_drop.
Qed.

(** The citation parser shows the text around a citation and extracts its body,
    on every text whose plain parts hold no citation delimiter that would end
    earlier; the result does not depend on how the text was cut into chunks. *)
Theorem citations_are_stripped before body after chunks :
  (forall j, j < length before -> ~ occurs CITATION_OPEN (before ++ CITATION_OPEN ++ body ++ CITATION_CLOSE ++ after) j) ->
  (forall j, j < length body -> ~ occurs CITATION_CLOSE (body ++ CITATION_CLOSE ++ after) j) ->
  (forall j, ~ occurs CITATION_OPEN after j) ->
  concat chunks = before ++ CITATION_OPEN ++ body ++ CITATION_CLOSE ++ after ->
  (run new_citation chunks).2 = mkStreamChunk (before ++ after) [body] /\
  strip_citations (concat chunks) = (before ++ after, [body]).
Proof.
  intros H1 H2 H3 Hc.
  assert ((run new_citation [concat chunks]).2 = mkStreamChunk (before ++ after) [body]) as Hone.
  { rewrite Hc. apply (run_one_citation before body after); done. }
  pose proof (run_concat (F := str) new_citation chunks) as Hr.
  destruct (Hr new_citation_good) as [_ [Hv He]]. split.
  - destruct (run new_citation chunks) as [? [v e]]. rewrite Hone in Hv, He. simpl in *. by subst.
  - rewrite strip_citations_run, Hone. done.
Qed.

(** ** Witnesses *)

Lemma not_occurs_below c s n :
  forallb (fun j => negb (Str.starts_with c (drop j s))) (seq 0 n) = true ->
  forall j, j < n -> ~ occurs c s j.
Proof.
  intros H j Hj Ho. rewrite forallb_forall in H. specialize (H j).
  assert (In j (seq 0 n)) as Hin by (apply in_seq; lia). apply H in Hin.
  apply Str.starts_with_spec in Ho. by rewrite Ho in Hin.
Qed.

Lemma not_occurs_find c s : c <> [] -> Str.find c s = None -> forall j, ~ occurs c s j.
Proof.
  intros Hc Hf j Ho. destruct (decide (j <= length s)) as [Hj|Hj].
  - by apply Str.find_None with (j := j) in Hf.
  - destruct Ho as [r Hr]. rewrite drop_ge in Hr by lia. by destruct c.
Qed.

Definition demo_specs : list (InlineTagSpec bool) :=
  [mkSpec true $"<a>" $"</a>"; mkSpec false $"<b>" $"</b>"].
Lemma demo_specs_ok : specs_ok demo_specs.
Proof.
  split.
  - intros s [->|[->|Hs%elem_of_nil]%elem_of_cons]%elem_of_cons; done.
  - intros s s' x y Hs Hs' H. pose proof (f_equal length H) as Hl. rewrite !length_app in Hl.
    apply elem_of_cons in Hs as [->|[->|Hs%elem_of_nil]%elem_of_cons];
    apply elem_of_cons in Hs' as [->|[->|Hs'%elem_of_nil]%elem_of_cons]; try done;
    destruct x, y; simpl in *; try done; lia.
Qed.

Lemma inline_tags_cut_anywhere_witness :
  run (mkInline demo_specs [] None) [$"1<"; $"a>x<"; $"/a>2<b>y"] =
  run (mkInline demo_specs [] None) [concat [$"1<"; $"a>x<"; $"/a>2<b>y"]].
Proof. apply (inline_tags_cut_anywhere demo_specs); [exact demo_specs_ok|reflexivity]. Defined.

Lemma citations_are_stripped_witness :
  (run new_citation [$"hi <oai-mem-"; $"citation>doc</oai"; $"-mem-citation> end"]).2 =
    mkStreamChunk ($"hi " ++ $" end") [$"doc"] /\
  strip_citations (concat [$"hi <oai-mem-"; $"citation>doc</oai"; $"-mem-citation> end"]) =
    ($"hi " ++ $" end", [$"doc"]).
Proof.
  apply citations_are_stripped;
    [apply not_occurs_below; vm_compute; reflexivity
    |apply not_occurs_below; vm_compute; reflexivity
    |apply not_occurs_find; [done|vm_compute; reflexivity]
    |vm_compute; reflexivity].
Defined.

Lemma bytes_cut_anywhere_witness :
  exists u out, run_bytes (new_utf8 new_citation) [[97; 195]; [169]; []]%N = (u, Ok out) /\
    pending_utf8 u = [] /\ inner u = (run new_citation [[97; 233]%N]).1 /\
    same out (run new_citation [[97; 233]%N]).2.
Proof.
  apply (bytes_cut_anywhere new_citation [97; 233]%N [[97; 195]; [169]; []]%N);
    [exact new_citation_good|repeat constructor|vm_compute; reflexivity].
Defined.

Lemma invalid_chunk_is_rolled_back_witness :
  mkUtf8Parser new_citation [195]%N = mkUtf8Parser new_citation [195]%N /\
  exists v n, InvalidUtf8 0 1 = InvalidUtf8 v n /\
    Utf8.from_utf8 ([195] ++ [40])%N = Err (Utf8.mkUtf8Error v (Some n)).
Proof.
  apply (invalid_chunk_is_rolled_back (mkUtf8Parser new_citation [195]%N) [40]%N);
    [exact new_citation_good|vm_compute; reflexivity].
Defined.

End Inline.
