(* ===== verification/TaggedLines.v ===== *)
(** Tags that stand alone on a line ([tagged_line_parser.rs]), the proposed plan
    blocks built on them ([proposed_plan.rs]) and the assistant text parser that
    combines them with citations ([assistant_text.rs]), all under
    [codex-rs/utils/stream-parser/src]. *)
From S2P Require Import Prelude StreamText InlineTags.
Import Stream.

Module Tagged.

(** ** tagged_line_parser.rs *)

Section parser.
Context {T : Type} `{EqDecision T}.

Record TagSpec := mkTagSpec { open : str; close : str; tag : T }.
Inductive TaggedLineSegment :=
| Normal (text : str)
| TagStart (t : T)
| TagDelta (t : T) (text : str)
| TagEnd (t : T).
Record TaggedLineParser := mkTagged {
  specs : list TagSpec;
  active_tag : option T;
  detect_tag : bool;
  line_buffer : str
}.

Definition new (specs : list TagSpec) : TaggedLineParser := mkTagged specs None true [].

(** Replaces the last segment. *)
Definition set_last (l : list TaggedLineSegment) (x : TaggedLineSegment) : list TaggedLineSegment :=
  take (length l - 1) l ++ [x].
Definition push_segment (segments : list TaggedLineSegment) (segment : TaggedLineSegment)
    : list TaggedLineSegment :=
  match segment with
  | Normal delta =>
      if Str.is_empty delta then segments
      else match last segments with
           | Some (Normal existing) => set_last segments (Normal (existing ++ delta))
           | _ => segments ++ [Normal delta]
           end
  | TagDelta t delta =>
      if Str.is_empty delta then segments
      else match last segments with
           | Some (TagDelta t' existing) =>
               if decide (t' = t) then set_last segments (TagDelta t' (existing ++ delta))
               else segments ++ [TagDelta t delta]
           | _ => segments ++ [TagDelta t delta]
           end
  | TagStart _ | TagEnd _ => segments ++ [segment]
  end.

Definition match_open (specs : list TagSpec) (slug : str) : option T :=
  tag <$> List.find (fun s => bool_decide (open s = slug)) specs.
Definition match_close (specs : list TagSpec) (slug : str) : option T :=
  tag <$> List.find (fun s => bool_decide (close s = slug)) specs.
Definition is_tag_prefix (specs : list TagSpec) (slug : str) : bool :=
  let slug := Str.trim_end slug in
  existsb (fun s => Str.starts_with slug (open s) || Str.starts_with slug (close s)) specs.

Definition text_segment (active : option T) (text : str) : TaggedLineSegment :=
  match active with Some t => TagDelta t text | None => Normal text end.
Definition push_text (active : option T) (text : str) (segments : list TaggedLineSegment)
    : list TaggedLineSegment :=
  push_segment segments (text_segment active text).

(** What a finished line is: the tag it opens or closes, or text. *)
Definition strip_newline (line : str) : str :=
  match Str.strip_suffix [newline] line with Some s => s | None => line end.
Definition line_segment (specs : list TagSpec) (active : option T) (line : str)
    : option T * TaggedLineSegment :=
  let slug := Str.trim_end (Str.trim_start (strip_newline line)) in
  match match_open specs slug, active with
  | Some t, None => (Some t, TagStart t)
  | _, _ =>
      match match_close specs slug with
      | Some t =>
          if decide (active = Some t) then (None, TagEnd t)
          else (active, text_segment active line)
      | None => (active, text_segment active line)
      end
  end.

Definition finish_line (p : TaggedLineParser) (segments : list TaggedLineSegment)
    : TaggedLineParser * list TaggedLineSegment :=
  let '(active, segment) := line_segment (specs p) (active_tag p) (line_buffer p) in
  (mkTagged (specs p) active true [], push_segment segments segment).

Fixpoint parse_loop (p : TaggedLineParser) (run : str) (segments : list TaggedLineSegment)
    (delta : str) : TaggedLineParser * list TaggedLineSegment :=
  match delta with
  | [] => (p, if Str.is_empty run then segments else push_text (active_tag p) run segments)
  | c :: delta' =>
      if detect_tag p then
        let segments := if Str.is_empty run then segments else push_text (active_tag p) run segments in
        let p := mkTagged (specs p) (active_tag p) (detect_tag p) (line_buffer p ++ [c]) in
        if (c =? newline)%N then
          let '(p, segments) := finish_line p segments in parse_loop p [] segments delta'
        else
          let slug := Str.trim_start (line_buffer p) in
          if Str.is_empty slug || is_tag_prefix (specs p) slug then parse_loop p [] segments delta'
          else
            parse_loop (mkTagged (specs p) (active_tag p) false []) []
              (push_text (active_tag p) (line_buffer p) segments) delta'
      else
        let run := run ++ [c] in
        if (c =? newline)%N then
          parse_loop (mkTagged (specs p) (active_tag p) true (line_buffer p)) []
            (push_text (active_tag p) run segments) delta'
        else parse_loop p run segments delta'
  end.
Definition parse (p : TaggedLineParser) (delta : str)
    : TaggedLineParser * list TaggedLineSegment :=
  parse_loop p [] [] delta.

Definition tagged_finish (p : TaggedLineParser) : TaggedLineParser * list TaggedLineSegment :=
  let '(active, segments) :=
    match line_buffer p with
    | [] => (active_tag p, [])
    | buffered =>
        let '(active, segment) := line_segment (specs p) (active_tag p) buffered in
        (active, push_segment [] segment)
    end in
  let segments :=
    match active with Some t => push_segment segments (TagEnd t) | None => segments end in
  (mkTagged (specs p) None true [], segments).

(** ** What is observed: text character by character *)

Inductive event :=
| ENormal (c : char)
| EDelta (t : T) (c : char)
| EStart (t : T)
| EEnd (t : T).
Definition flat_segment (s : TaggedLineSegment) : list event :=
  match s with
  | Normal text => ENormal <$> text
  | TagDelta t text => EDelta t <$> text
  | TagStart t => [EStart t]
  | TagEnd t => [EEnd t]
  end.
Definition flat (l : list TaggedLineSegment) : list event := concat (flat_segment <$> l).
Definition text_events (active : option T) (text : str) : list event :=
  flat_segment (text_segment active text).

(** One character: the next state and what it shows. *)
Definition step (p : TaggedLineParser) (c : char) : TaggedLineParser * list event :=
  if detect_tag p then
    let line := line_buffer p ++ [c] in
    if (c =? newline)%N then
      let '(active, segment) := line_segment (specs p) (active_tag p) line in
      (mkTagged (specs p) active true [], flat_segment segment)
    else if Str.is_empty (Str.trim_start line) || is_tag_prefix (specs p) (Str.trim_start line)
    then (mkTagged (specs p) (active_tag p) true line, [])
    else (mkTagged (specs p) (active_tag p) false [], text_events (active_tag p) line)
  else (mkTagged (specs p) (active_tag p) (c =? newline)%N (line_buffer p),
        text_events (active_tag p) [c]).
Fixpoint steps (p : TaggedLineParser) (cs : str) : TaggedLineParser * list event :=
  match cs with
  | [] => (p, [])
  | c :: cs' =>
      let '(p, e) := step p c in
      let '(p, es) := steps p cs' in
      (p, e ++ es)
  end.

Lemma steps_app p a b :
  steps p (a ++ b) =
  let '(p1, e1) := steps p a in let '(p2, e2) := steps p1 b in (p2, e1 ++ e2).
Proof.
  revert p; induction a as [|c a IH]; intros p; simpl; [by destruct (steps p b)|].
  destruct (step p c) as [p1 e1]. rewrite IH.
  destruct (steps p1 a) as [p2 e2]. destruct (steps p2 b) as [p3 e3]. by rewrite app_assoc.
Qed.

Lemma flat_app a b : flat (a ++ b) = flat a ++ flat b.
Proof. unfold flat. by rewrite fmap_app, concat_app. Qed.

Lemma flat_push l s : flat (push_segment l s) = flat l ++ flat_segment s.
Proof.
  assert (forall x, flat (l ++ [x]) = flat l ++ flat_segment x) as Hsnoc.
  { intros x. rewrite flat_app. unfold flat at 2. simpl. by rewrite app_nil_r. }
  assert (forall k x y, flat (set_last (k ++ [x]) y) = flat k ++ flat_segment y) as Hset.
  { intros k x y. unfold set_last. rewrite length_app. simpl.
    replace (length k + 1 - 1) with (length k) by lia.
    rewrite take_app_length, flat_app. unfold flat at 2. simpl. by rewrite app_nil_r. }
  assert (forall k x, flat (k ++ [x]) = flat k ++ flat_segment x) as Hk.
  { intros k x. rewrite flat_app. unfold flat at 2. simpl. by rewrite app_nil_r. }
  destruct s as [d|t|t d|t]; simpl; try apply Hsnoc.
  - destruct d as [|c d]; simpl; [by rewrite app_nil_r|].
    destruct l as [|x k _] using rev_ind; [apply Hsnoc|]. rewrite last_snoc.
    destruct x; try apply Hsnoc. rewrite Hset, Hk. simpl. by rewrite fmap_app, <- app_assoc.
  - destruct d as [|c d]; simpl; [by rewrite app_nil_r|].
    destruct l as [|x k _] using rev_ind; [apply Hsnoc|]. rewrite last_snoc.
    destruct x; try apply Hsnoc. case_decide; [subst|apply Hsnoc].
    rewrite Hset, Hk. simpl. by rewrite fmap_app, <- app_assoc.
Qed.

Lemma flat_text active text segs :
  flat (push_text active text segs) = flat segs ++ text_events active text.
Proof. apply flat_push. Qed.

Lemma text_events_app active a b :
  text_events active (a ++ b) = text_events active a ++ text_events active b.
Proof. unfold text_events. destruct active; simpl; by rewrite fmap_app. Qed.
Lemma text_events_nil active : text_events active [] = [].
Proof. by destruct active. Qed.

Lemma flush active run segs :
  flat (if Str.is_empty run then segs else push_text active run segs) =
  flat segs ++ text_events active run.
Proof.
  destruct run; simpl; [by rewrite text_events_nil, app_nil_r|]. apply flat_text.
Qed.

(** The batching loop does what the characters do one by one. *)
Lemma parse_loop_steps p run segs cs :
  (detect_tag p = true -> run = []) ->
  (parse_loop p run segs cs).1 = (steps p cs).1 /\
  flat (parse_loop p run segs cs).2 = flat segs ++ text_events (active_tag p) run ++ (steps p cs).2.
Proof.
  revert p run segs; induction cs as [|c cs IH]; intros p run segs Hr; simpl.
  { rewrite flush, app_nil_r. done. }
  unfold step. destruct (detect_tag p) eqn:Ed.
  - rewrite (Hr eq_refl). simpl. rewrite text_events_nil. simpl.
    destruct (c =? newline)%N.
    + unfold finish_line. simpl. destruct (line_segment _ _ _) as [act seg].
      destruct (IH (mkTagged (specs p) act true []) [] (push_segment segs seg) ltac:(done)) as [H1 H2].
      rewrite H1, H2, flat_push. simpl. rewrite text_events_nil.
      destruct (steps _ cs) as [p2 e2]. simpl. by rewrite <- app_assoc.
    + destruct (_ || _).
      * destruct (IH (mkTagged (specs p) (active_tag p) true (line_buffer p ++ [c])) [] segs
                    ltac:(done)) as [H1 H2].
        rewrite H1, H2. simpl. rewrite text_events_nil. by destruct (steps _ cs) as [p2 e2].
      * destruct (IH (mkTagged (specs p) (active_tag p) false []) []
                    (push_text (active_tag p) (line_buffer p ++ [c]) segs) ltac:(done)) as [H1 H2].
        rewrite H1, H2, flat_text. simpl. rewrite text_events_nil.
        destruct (steps _ cs) as [p2 e2]. simpl. by rewrite <- app_assoc.
  - destruct (c =? newline)%N.
    + destruct (IH (mkTagged (specs p) (active_tag p) true (line_buffer p)) []
                  (push_text (active_tag p) (run ++ [c]) segs) ltac:(done)) as [H1 H2].
      rewrite H1, H2, flat_text, text_events_app. simpl. rewrite text_events_nil.
      destruct (steps _ cs) as [p2 e2]. simpl. by rewrite <- !app_assoc.
    + destruct (IH p (run ++ [c]) segs ltac:(congruence)) as [H1 H2].
      destruct p as [ss act det buf]. simpl in *. subst det.
      rewrite H1, H2, text_events_app.
      destruct (steps _ cs) as [p2 e2]. simpl. by rewrite <- !app_assoc.
Qed.

Lemma parse_steps p delta :
  (parse p delta).1 = (steps p delta).1 /\ flat (parse p delta).2 = (steps p delta).2.
Proof.
  destruct (parse_loop_steps p [] [] delta ltac:(done)) as [H1 H2]. split; [done|].
  unfold parse. rewrite H2. simpl. by rewrite text_events_nil.
Qed.

(** ** Lines

    The reference: a line that is a tag on its own opens or closes it, any other
    line is text; the last line may lack its line feed. *)
Fixpoint line_events (ss : list TagSpec) (active : option T) (pieces : list str)
    : option T * list event :=
  match pieces with
  | [] => (active, [])
  | [l] =>
      match l with
      | [] => (active, [])
      | _ => let '(active, s) := line_segment ss active l in (active, flat_segment s)
      end
  | l :: ls =>
      let '(active, s) := line_segment ss active (l ++ [newline]) in
      let '(active, es) := line_events ss active ls in
      (active, flat_segment s ++ es)
  end.
Definition document_events (ss : list TagSpec) (text : str) : list event :=
  let '(active, es) := line_events ss None (Str.split newline text) in
  es ++ match active with Some t => [EEnd t] | None => [] end.

Lemma trim_end_prefix a b : Str.trim_end a `prefix_of` Str.trim_end (a ++ b).
Proof.
  unfold Str.trim_end. induction a as [|c a IH]; simpl; [apply prefix_nil|].
  destruct IH as [r Hr]. destruct (Str.trim_end_by Str.is_whitespace a) as [|d t] eqn:E.
  - destruct (Str.is_whitespace c) eqn:Ew; [apply prefix_nil|].
    destruct (Str.trim_end_by _ (a ++ b)); by eexists.
  - rewrite Hr. simpl. by exists r.
Qed.

(** A line whose start cannot be a tag is text. *)
Lemma not_prefix_is_text ss active q r nl :
  newline ∉ q ++ r -> nl = [] \/ nl = [newline] ->
  Str.trim_start q <> [] -> is_tag_prefix ss (Str.trim_start q) = false ->
  line_segment ss active (q ++ r ++ nl) = (active, text_segment active (q ++ r ++ nl)).
Proof.
  intros Hn Hnl Hne Hp. unfold line_segment.
  assert (strip_newline (q ++ r ++ nl) = q ++ r) as ->.
  { unfold strip_newline. destruct Hnl as [->| ->].
    - rewrite app_nil_r. destruct (Str.strip_suffix _ _) as [t|] eqn:E; [|done].
      apply Str.strip_suffix_Some in E. rewrite E in Hn. set_solver.
    - rewrite app_assoc. by rewrite (proj2 (Str.strip_suffix_Some _ _ (q ++ r)) eq_refl). }
  rewrite Str.trim_start_app by done.
  assert (forall f, (forall s, s ∈ ss -> f s = Str.trim_end (Str.trim_start q ++ r) -> False) ->
    List.find (fun s => bool_decide (f s = Str.trim_end (Str.trim_start q ++ r))) ss = None) as Hf.
  { intros f Hf. destruct (List.find _ ss) as [s|] eqn:E; [|done].
    apply find_some in E as [Hs Hd%bool_decide_eq_true]. exfalso.
    apply (Hf s); [by apply list_elem_of_In|done]. }
  assert (forall s, s ∈ ss -> open s <> Str.trim_end (Str.trim_start q ++ r) /\
                              close s <> Str.trim_end (Str.trim_start q ++ r)) as Hno.
  { intros s Hs. unfold is_tag_prefix in Hp.
    assert (Str.starts_with (Str.trim_end (Str.trim_start q)) (open s)
            || Str.starts_with (Str.trim_end (Str.trim_start q)) (close s) = false) as Hs'.
    { apply not_true_iff_false. intros Ht. apply not_true_iff_false in Hp. apply Hp.
      apply existsb_exists. exists s. split; [by apply list_elem_of_In|done]. }
    apply orb_false_iff in Hs' as [H1%Str.starts_with_false H2%Str.starts_with_false].
    pose proof (trim_end_prefix (Str.trim_start q) r) as Hpre.
    split; intros E; rewrite <- E in Hpre; done. }
  unfold match_open, match_close.
  rewrite !Hf by (intros s Hs E; destruct (Hno s Hs); congruence). done.
Qed.

(** Reading the start of a line: it is buffered, or known to be text and shown. *)
Lemma steps_line ss active q :
  newline ∉ q ->
  steps (mkTagged ss active true []) q = (mkTagged ss active true q, []) \/
  (steps (mkTagged ss active true []) q = (mkTagged ss active false [], text_events active q) /\
   exists a b, q = a ++ b /\ Str.trim_start a <> [] /\ is_tag_prefix ss (Str.trim_start a) = false).
Proof.
  induction q as [|c q IH] using rev_ind; intros Hn; [by left|].
  assert ((newline ∉ q) /\ c <> newline) as [Hq Hc] by set_solver.
  rewrite steps_app. destruct (IH Hq) as [->|(-> & a & b & -> & Ha & Hp)].
  - simpl. unfold step. simpl. destruct (N.eqb_spec c newline); [done|].
    destruct (Str.is_empty (Str.trim_start (q ++ [c]))) eqn:Ee; simpl; [by left|].
    destruct (is_tag_prefix ss (Str.trim_start (q ++ [c]))) eqn:Et; [by left|right].
    rewrite app_nil_r. split; [done|]. exists (q ++ [c]), []. rewrite app_nil_r.
    split_and!; [done| |done]. by intros E; rewrite E in Ee.
  - right. simpl. unfold step. simpl. destruct (N.eqb_spec c newline); [done|].
    rewrite app_nil_r, (text_events_app active (a ++ b)). split; [done|]. exists a, (b ++ [c]).
    by rewrite <- app_assoc.
Qed.

Lemma steps_full_line ss active l :
  newline ∉ l ->
  steps (mkTagged ss active true []) (l ++ [newline]) =
  let '(active', s) := line_segment ss active (l ++ [newline]) in
  (mkTagged ss active' true [], flat_segment s).
Proof.
  intros Hn. rewrite steps_app. destruct (steps_line ss active l Hn) as [->|(-> & a & b & -> & Ha & Hp)].
  - simpl. unfold step. simpl. destruct (line_segment _ _ _). simpl. by rewrite app_nil_r.
  - pose proof (not_prefix_is_text ss active a b [newline] Hn ltac:(by right) Ha Hp) as Ht.
    rewrite app_assoc in Ht. rewrite Ht. fold (text_events active ((a ++ b) ++ [newline])).
    rewrite (text_events_app active (a ++ b)). simpl. unfold step. simpl. by rewrite app_nil_r.
Qed.

Lemma steps_pieces ss active pieces :
  pieces <> [] -> Forall (fun l => newline ∉ l) pieces ->
  let '(p, es) := steps (mkTagged ss active true []) (Str.join [newline] pieces) in
  es ++ flat (tagged_finish p).2 =
  (let '(active', es') := line_events ss active pieces in
   es' ++ match active' with Some t => [EEnd t] | None => [] end) /\
  (tagged_finish p).1 = mkTagged ss None true [].
Proof.
  intros Hne Hw. revert active; induction Hw as [|l ls Hl Hw IH]; intros active; [done|].
  destruct ls as [|l2 ls].
  - simpl. destruct (steps_line ss active l Hl) as [->|(-> & a & b & Hab & Ha & Hp)].
    + unfold tagged_finish. simpl. destruct l as [|c l].
      * destruct active; by rewrite ?flat_push.
      * destruct (line_segment ss active (c :: l)) as [act s]. simpl. split; [|done].
        destruct act; rewrite ?flat_app, ?flat_push; simpl; rewrite ?app_nil_r; done.
    + unfold tagged_finish. simpl. split; [|done].
      pose proof (not_prefix_is_text ss active a b [] ltac:(by rewrite <- Hab) ltac:(by left) Ha Hp) as Ht.
      rewrite app_nil_r, <- Hab in Ht.
      destruct l as [|c l]; [by destruct a; [|done]|]. rewrite Ht.
      destruct active; rewrite ?flat_push; done.
  - change (Str.join [newline] (l :: l2 :: ls)) with (l ++ [newline] ++ Str.join [newline] (l2 :: ls)).
    rewrite app_assoc, steps_app, steps_full_line by done.
    change (line_events ss active (l :: l2 :: ls)) with
      (let '(active, s) := line_segment ss active (l ++ [newline]) in
       let '(active, es) := line_events ss active (l2 :: ls) in
       (active, flat_segment s ++ es)).
    destruct (line_segment ss active (l ++ [newline])) as [act s].
    specialize (IH ltac:(done) act).
    destruct (steps (mkTagged ss act true []) (Str.join [newline] (l2 :: ls))) as [p es].
    destruct (line_events ss act (l2 :: ls)) as [act' es']. destruct IH as [IH1 IH2].
    split; [|done]. by rewrite <- !app_assoc, IH1.
Qed.

End parser.
Arguments TagSpec : clear implicits.
Arguments TaggedLineParser : clear implicits.
Arguments TaggedLineSegment : clear implicits.
Arguments event : clear implicits.

(** ** proposed_plan.rs *)

Definition OPEN_TAG : str := $"<proposed_plan>".
Definition CLOSE_TAG : str := $"</proposed_plan>".

Inductive PlanTag := ProposedPlan.
#[global] Instance PlanTag_eq_dec : EqDecision PlanTag.
Proof. solve_decision. Defined.

Inductive ProposedPlanSegment :=
| PlanNormal (text : str)
| ProposedPlanStart
| ProposedPlanDelta (text : str)
| ProposedPlanEnd.

Record ProposedPlanParser := mkPlan { parser : TaggedLineParser PlanTag }.
Definition plan_specs : list (TagSpec PlanTag) := [mkTagSpec OPEN_TAG CLOSE_TAG ProposedPlan].
Definition new_plan : ProposedPlanParser := mkPlan (new plan_specs).

Definition map_segment (segment : TaggedLineSegment PlanTag) : ProposedPlanSegment :=
  match segment with
  | Normal text => PlanNormal text
  | TagStart ProposedPlan => ProposedPlanStart
  | TagDelta ProposedPlan text => ProposedPlanDelta text
  | TagEnd ProposedPlan => ProposedPlanEnd
  end.
Definition push_mapped (out : StreamTextChunk ProposedPlanSegment)
    (segment : TaggedLineSegment PlanTag) : StreamTextChunk ProposedPlanSegment :=
  let mapped := map_segment segment in
  mkStreamChunk
    match mapped with PlanNormal text => visible_text out ++ text | _ => visible_text out end
    (extracted out ++ [mapped]).
Definition map_segments (segments : list (TaggedLineSegment PlanTag))
    : StreamTextChunk ProposedPlanSegment :=
  foldl push_mapped default_chunk segments.

Definition plan_push_str (p : ProposedPlanParser) (chunk : str)
    : ProposedPlanParser * StreamTextChunk ProposedPlanSegment :=
  let '(t, segments) := parse (parser p) chunk in (mkPlan t, map_segments segments).
Definition plan_finish (p : ProposedPlanParser)
    : ProposedPlanParser * StreamTextChunk ProposedPlanSegment :=
  let '(t, segments) := tagged_finish (parser p) in (mkPlan t, map_segments segments).
#[global] Instance plan_parser : StreamTextParser ProposedPlanParser ProposedPlanSegment := {
  push_str := plan_push_str;
  finish := plan_finish
}.

Definition strip_proposed_plan_blocks (text : str) : str :=
  let '(p, out) := push_str new_plan text in
  visible_text out ++ visible_text (finish p).2.

Definition extract_step (st : str * bool) (segment : ProposedPlanSegment) : str * bool :=
  match segment with
  | ProposedPlanStart => ([], true)
  | ProposedPlanDelta delta => (st.1 ++ delta, st.2)
  | ProposedPlanEnd | PlanNormal _ => st
  end.
Definition extract_proposed_plan_text (text : str) : option str :=
  let '(p, out) := push_str new_plan text in
  let '(plan_text, saw_plan_block) :=
    foldl extract_step ([], false) (extracted out ++ extracted (finish p).2) in
  if saw_plan_block : bool then Some plan_text else None.

(** What is shown and what is extracted, from the events. *)
Definition segment_events (s : ProposedPlanSegment) : list (event PlanTag) :=
  match s with
  | PlanNormal text => ENormal <$> text
  | ProposedPlanStart => [EStart ProposedPlan]
  | ProposedPlanDelta text => EDelta ProposedPlan <$> text
  | ProposedPlanEnd => [EEnd ProposedPlan]
  end.
Definition plan_events (l : list ProposedPlanSegment) : list (event PlanTag) :=
  concat (segment_events <$> l).
Definition shown (es : list (event PlanTag)) : str :=
  omap (fun e => match e with ENormal c => Some c | _ => None end) es.
Definition plan_step (st : str * bool) (e : event PlanTag) : str * bool :=
  match e with
  | EStart _ => ([], true)
  | EDelta _ c => (st.1 ++ [c], st.2)
  | _ => st
  end.
(** The text of the last plan block, if there is one. *)
Definition last_plan (es : list (event PlanTag)) : option str :=
  let '(plan_text, saw) := foldl plan_step ([], false) es in
  if saw : bool then Some plan_text else None.

Lemma shown_app a b : shown (a ++ b) = shown a ++ shown b.
Proof. apply omap_app. Qed.
Lemma plan_events_app a b : plan_events (a ++ b) = plan_events a ++ plan_events b.
Proof. unfold plan_events. by rewrite fmap_app, concat_app. Qed.

Lemma shown_normal text : shown (ENormal <$> text) = text.
Proof. unfold shown. induction text; simpl; f_equal; done. Qed.
Lemma shown_delta t text : shown (EDelta t <$> text) = [].
Proof. unfold shown. by induction text. Qed.

Lemma map_segments_spec segs :
  visible_text (map_segments segs) = shown (flat segs) /\
  plan_events (extracted (map_segments segs)) = flat segs.
Proof.
  unfold map_segments. induction segs as [|s segs IH] using rev_ind; [done|].
  rewrite foldl_app. simpl. destruct IH as [IH1 IH2].
  rewrite flat_app, shown_app, plan_events_app, IH2, <- IH1.
  unfold flat, plan_events. simpl. rewrite !app_nil_r.
  destruct s as [text|[]|[] text|[]]; simpl;
    rewrite ?shown_normal, ?shown_delta, ?app_nil_r; done.
Qed.

Lemma parse_app {T} `{EqDecision T} (p : TaggedLineParser T) a b :
  (parse p (a ++ b)).1 = (parse (parse p a).1 b).1 /\
  flat (parse p (a ++ b)).2 = flat (parse p a).2 ++ flat (parse (parse p a).1 b).2.
Proof.
  destruct (parse_steps p (a ++ b)) as [-> ->], (parse_steps p a) as [-> ->].
  destruct (parse_steps (steps p a).1 b) as [-> ->]. rewrite steps_app.
  destruct (steps p a) as [p1 e1]. simpl. by destruct (steps p1 b).
Qed.

#[global] Program Instance plan_invariant
    : ChunkInvariant ProposedPlanParser ProposedPlanSegment (event PlanTag) := {
  observe := plan_events;
  good := fun _ => True;
  observe_app := plan_events_app
}.
Next Obligation. done. Qed.
Next Obligation.
  intros p a b _. simpl. unfold plan_push_str.
  destruct (parse_app (parser p) a b) as [H1 H2].
  destruct (parse (parser p) a) as [p1 s1]. simpl in *.
  destruct (parse p1 b) as [p2 s2], (parse (parser p) (a ++ b)) as [p3 s3]. simpl in *. subst p3.
  destruct (map_segments_spec s1) as [-> ->], (map_segments_spec s2) as [-> ->],
    (map_segments_spec s3) as [-> ->].
  by rewrite H2, shown_app.
Qed.
Next Obligation. by intros [p] _. Qed.

Lemma new_plan_good : good new_plan.
Proof. exact I. Qed.

Lemma run_plan_whole text :
  let '(p, out) := run new_plan [text] in
  p = new_plan /\ visible_text out = shown (document_events plan_specs text) /\
  plan_events (extracted out) = document_events plan_specs text.
Proof.
  unfold run. simpl. unfold plan_push_str, plan_finish.
  pose proof (steps_pieces plan_specs None (Str.split newline text) (Str.split_ne _ _)
    (Str.split_pieces newline text)) as Hs.
  rewrite Str.join_split in Hs.
  change (mkTagged plan_specs None true []) with (new plan_specs) in Hs.
  destruct (parse_steps (parser new_plan) text) as [H1 H2].
  destruct (parse (parser new_plan) text) as [p1 s1]. simpl in H1, H2 |- *.
  destruct (steps (new plan_specs) text) as [p2 es]. simpl in H1, H2. subst p1 es.
  destruct (tagged_finish p2) as [p3 s2]. simpl in Hs. destruct Hs as [He ->].
  unfold append. simpl. rewrite !app_nil_r.
  destruct (map_segments_spec s1) as [E1 E2], (map_segments_spec s2) as [E3 E4].
  rewrite plan_events_app, E1, E2, E3, E4, <- shown_app, He. done.
Qed.

Lemma strip_plan_run text :
  strip_proposed_plan_blocks text = visible_text (run new_plan [text]).2.
Proof.
  unfold strip_proposed_plan_blocks, run. simpl. destruct (plan_push_str new_plan text) as [p out].
  destruct (plan_finish p) as [p' tail]. simpl. by rewrite app_nil_r.
Qed.

Lemma extract_events st l : foldl extract_step st l = foldl plan_step st (plan_events l).
Proof.
  revert st; induction l as [|s l IH]; intros st; [done|]. simpl. rewrite IH.
  change (plan_events (s :: l)) with (segment_events s ++ plan_events l).
  rewrite foldl_app. f_equal. destruct s as [text| |text|]; simpl; try done.
  - induction text; [done|]. simpl. done.
  - revert st; induction text as [|c text IHt]; intros [a b]; simpl; [by rewrite app_nil_r|].
    rewrite <- IHt. simpl. by rewrite <- app_assoc.
Qed.

Lemma extract_plan_run text :
  extract_proposed_plan_text text = last_plan (plan_events (extracted (run new_plan [text]).2)).
Proof.
  unfold extract_proposed_plan_text, run, last_plan. simpl.
  destruct (plan_push_str new_plan text) as [p out].
  destruct (plan_finish p) as [p' tail]. simpl. by rewrite app_nil_r, extract_events.
Qed.

(** However a text is cut into chunks, the proposed plan parser shows and
    extracts, character by character, what reading the whole text line by line gives:
    a line that is a tag on its own opens or closes a block, every other line is
    text of the block it is in, an unterminated block is closed at the end; and the
    parser is as new afterwards.  The two one-shot functions give that text and the
    text of the last block. *)
Theorem plan_blocks_line_by_line chunks :
  let '(p, out) := run new_plan chunks in
  let es := document_events plan_specs (concat chunks) in
  p = new_plan /\ visible_text out = shown es /\ plan_events (extracted out) = es /\
  strip_proposed_plan_blocks (concat chunks) = shown es /\
  extract_proposed_plan_text (concat chunks) = last_plan es.
Proof.
  destruct (run_concat new_plan chunks new_plan_good) as [H1 [H2 H3]].
  rewrite strip_plan_run, extract_plan_run.
  pose proof (run_plan_whole (concat chunks)) as Hw.
  destruct (run new_plan chunks) as [p out], (run new_plan [concat chunks]) as [p' out'].
  simpl in *. destruct Hw as (-> & Hv & He). rewrite H1, H2, H3, Hv, He. done.
Qed.

(** ** One block among lines *)

(** Lines, each with its line feed. *)
Definition unlines (ls : list str) : str := concat ((fun l => l ++ [newline]) <$> ls).
Definition slug (line : str) : str := Str.trim_end (Str.trim_start line).
(** A line without line feed that is no tag on its own. *)
Definition plain (line : str) : Prop :=
  (newline ∉ line) /\ slug line <> OPEN_TAG /\ slug line <> CLOSE_TAG.

Lemma unlines_join ls rest :
  rest <> [] -> unlines ls ++ Str.join [newline] rest = Str.join [newline] (ls ++ rest).
Proof.
  intros Hr. induction ls as [|l ls IH]; [done|].
  change (unlines (l :: ls)) with ((l ++ [newline]) ++ unlines ls). rewrite <- !app_assoc, IH.
  simpl. destruct (ls ++ rest) eqn:E; [|done]. by apply app_eq_nil in E as [_ ->].
Qed.

Lemma line_segment_nl active l :
  line_segment plan_specs active (l ++ [newline]) =
  if decide (slug l = OPEN_TAG /\ active = None) then (Some ProposedPlan, TagStart ProposedPlan)
  else if decide (slug l = CLOSE_TAG /\ active = Some ProposedPlan)
  then (None, TagEnd ProposedPlan) else (active, text_segment active (l ++ [newline])).
Proof.
  unfold line_segment, strip_newline.
  rewrite (proj2 (Str.strip_suffix_Some [newline] _ l) eq_refl). fold (slug l).
  unfold match_open, match_close, plan_specs, List.find. cbn [open close tag].
  destruct (decide (slug l = OPEN_TAG)) as [Ho|Ho].
  - rewrite bool_decide_true by done. rewrite bool_decide_false by (rewrite Ho; done). simpl.
    assert (OPEN_TAG <> CLOSE_TAG) as Hoc by done.
    destruct active; repeat case_decide; destruct_and?; simplify_eq; tauto || congruence.
  - rewrite bool_decide_false by done. destruct (decide (slug l = CLOSE_TAG)).
    + rewrite bool_decide_true by done. simpl. repeat case_decide; naive_solver.
    + rewrite bool_decide_false by done. simpl. repeat case_decide; naive_solver.
Qed.

Lemma line_events_cons active l rest :
  rest <> [] ->
  line_events plan_specs active (l :: rest) =
  let '(active, s) := line_segment plan_specs active (l ++ [newline]) in
  let '(active, es) := line_events plan_specs active rest in
  (active, flat_segment s ++ es).
Proof. by destruct rest. Qed.

Lemma line_events_plain active ls rest :
  Forall plain ls -> rest <> [] ->
  line_events plan_specs active (ls ++ rest) =
  let '(active', es) := line_events plan_specs active rest in
  (active', text_events active (unlines ls) ++ es).
Proof.
  intros Hls Hr. induction Hls as [|l ls (Hn & Ho & Hc) Hls IH].
  - simpl. destruct (line_events plan_specs active rest). by rewrite text_events_nil.
  - change ((l :: ls) ++ rest) with (l :: (ls ++ rest)).
    rewrite line_events_cons by (by destruct ls). rewrite line_segment_nl.
    rewrite !decide_False by tauto. cbv beta iota. rewrite IH. destruct (line_events plan_specs active rest) as [a es].
    change (unlines (l :: ls)) with ((l ++ [newline]) ++ unlines ls).
    rewrite (text_events_app active (l ++ [newline])), <- app_assoc. done.
Qed.

Lemma block_events before o plan c after :
  Forall plain before -> Forall plain plan -> Forall plain after ->
  newline ∉ o -> newline ∉ c -> slug o = OPEN_TAG -> slug c = CLOSE_TAG ->
  document_events plan_specs (unlines (before ++ [o] ++ plan ++ [c] ++ after)) =
  text_events None (unlines before) ++ [EStart ProposedPlan] ++
  text_events (Some ProposedPlan) (unlines plan) ++ [EEnd ProposedPlan] ++
  text_events None (unlines after).
Proof.
  intros Hb Hp Ha Hno Hnc Ho Hc. unfold document_events.
  set (ls := before ++ [o] ++ plan ++ [c] ++ after).
  assert (unlines ls = Str.join [newline] (ls ++ [[]])) as ->.
  { rewrite <- unlines_join by done. simpl. by rewrite app_nil_r. }
  assert (forall k, Forall plain k -> Forall (fun l => newline ∉ l) k) as Hpl.
  { intros k Hk. apply (Forall_impl _ _ _ Hk). by intros l [? _]. }
  rewrite Str.split_join;
    [|intros E; by apply app_eq_nil in E as [_ E]|unfold ls; rewrite !Forall_app, !Forall_singleton;
                     split_and!; auto; apply not_elem_of_nil].
  unfold ls. rewrite <- !app_assoc, line_events_plain by done.
  change ([o] ++ plan ++ [c] ++ after ++ [[]]) with (o :: (plan ++ [c] ++ after ++ [[]])).
  rewrite line_events_cons by (by destruct plan).
  rewrite line_segment_nl, decide_True by done.
  rewrite (line_events_plain _ plan) by done.
  change ([c] ++ after ++ [[]]) with (c :: (after ++ [[]])).
  rewrite line_events_cons by (by destruct after).
  rewrite line_segment_nl, decide_False by naive_solver. rewrite decide_True by done.
  rewrite line_events_plain by done. simpl. rewrite <- !app_assoc. simpl. by rewrite !app_nil_r.
Qed.

Lemma fold_delta st t text : foldl plan_step st (EDelta t <$> text) = (st.1 ++ text, st.2).
Proof.
  revert st; induction text as [|c text IH]; intros [a b]; simpl; [by rewrite app_nil_r|].
  rewrite IH. simpl. by rewrite <- app_assoc.
Qed.
Lemma fold_normal st text : foldl plan_step st (ENormal <$> text) = st.
Proof. by induction text. Qed.

(** A plan block whose tags stand alone on their lines (blanks around them
    allowed), among lines that are no tags: stripping the text leaves exactly the
    other lines and extracting it gives exactly the lines between the tags. *)
Theorem plan_block_roundtrip before o plan c after :
  Forall plain before -> Forall plain plan -> Forall plain after ->
  newline ∉ o -> newline ∉ c -> slug o = OPEN_TAG -> slug c = CLOSE_TAG ->
  let text := unlines (before ++ [o] ++ plan ++ [c] ++ after) in
  strip_proposed_plan_blocks text = unlines before ++ unlines after /\
  extract_proposed_plan_text text = Some (unlines plan).
Proof.
  intros Hb Hp Ha Hno Hnc Ho Hc text.
  pose proof (block_events before o plan c after Hb Hp Ha Hno Hnc Ho Hc) as Hev.
  fold text in Hev. clearbody text. pose proof (run_plan_whole text) as Hw. rewrite strip_plan_run, extract_plan_run.
  destruct (run new_plan [text]) as [p out]. simpl in *. destruct Hw as (_ & -> & ->).
  rewrite Hev. unfold text_events. simpl. split.
  - rewrite shown_app, shown_normal. f_equal. change (shown (EStart ProposedPlan :: ?es)) with (shown es).
    rewrite shown_app, shown_delta. exact (shown_normal (unlines after)).
  - unfold last_plan. rewrite foldl_app, fold_normal. simpl.
    rewrite foldl_app, fold_delta. simpl. by rewrite fold_normal.
Qed.

(** ** assistant_text.rs *)

Record AssistantTextChunk := mkAssistantChunk {
  assistant_visible : str;
  citations : list str;
  plan_segments : list ProposedPlanSegment
}.
Definition assistant_default : AssistantTextChunk := mkAssistantChunk [] [] [].
Definition assistant_is_empty (c : AssistantTextChunk) : bool :=
  match assistant_visible c, citations c, plan_segments c with
  | [], [], [] => true
  | _, _, _ => false
  end.

Record AssistantTextStreamParser := mkAssistant {
  plan_mode : bool;
  citation_state : Inline.CitationStreamParser;
  plan : ProposedPlanParser
}.
Definition new_assistant (plan_mode : bool) : AssistantTextStreamParser :=
  mkAssistant plan_mode Inline.new_citation new_plan.

Definition parse_visible_text (p : AssistantTextStreamParser) (text : str)
    : AssistantTextStreamParser * AssistantTextChunk :=
  if plan_mode p then
    let '(pl, plan_chunk) := push_str (plan p) text in
    (mkAssistant (plan_mode p) (citation_state p) pl,
     mkAssistantChunk (visible_text plan_chunk) [] (extracted plan_chunk))
  else (p, mkAssistantChunk text [] []).

Definition assistant_push_str (p : AssistantTextStreamParser) (chunk : str)
    : AssistantTextStreamParser * AssistantTextChunk :=
  let '(ci, citation_chunk) := push_str (citation_state p) chunk in
  let '(p, out) :=
    parse_visible_text (mkAssistant (plan_mode p) ci (plan p)) (visible_text citation_chunk) in
  (p, mkAssistantChunk (assistant_visible out) (extracted citation_chunk) (plan_segments out)).

Definition assistant_finish (p : AssistantTextStreamParser)
    : AssistantTextStreamParser * AssistantTextChunk :=
  let '(ci, citation_chunk) := finish (citation_state p) in
  let '(p, out) :=
    parse_visible_text (mkAssistant (plan_mode p) ci (plan p)) (visible_text citation_chunk) in
  let '(p, out) :=
    if plan_mode p then
      let '(pl, tail) := finish (plan p) in
      (mkAssistant (plan_mode p) (citation_state p) pl,
       if chunk_is_empty tail then out
       else mkAssistantChunk (assistant_visible out ++ visible_text tail) (citations out)
              (plan_segments out ++ extracted tail))
    else (p, out) in
  (p, mkAssistantChunk (assistant_visible out) (extracted citation_chunk) (plan_segments out)).

Definition assistant_append (a b : AssistantTextChunk) : AssistantTextChunk :=
  mkAssistantChunk (assistant_visible a ++ assistant_visible b) (citations a ++ citations b)
    (plan_segments a ++ plan_segments b).
Fixpoint assistant_push_all (p : AssistantTextStreamParser) (chunks : list str)
    : AssistantTextStreamParser * AssistantTextChunk :=
  match chunks with
  | [] => (p, assistant_default)
  | c :: cs =>
      let '(p, out) := assistant_push_str p c in
      let '(p, rest) := assistant_push_all p cs in
      (p, assistant_append out rest)
  end.
Definition assistant_run (p : AssistantTextStreamParser) (chunks : list str)
    : AssistantTextStreamParser * AssistantTextChunk :=
  let '(p, out) := assistant_push_all p chunks in
  let '(p, tail) := assistant_finish p in
  (p, assistant_append out tail).

(** The visible text of each citation output is what the plan parser is fed. *)
Fixpoint fed (c : Inline.CitationStreamParser) (chunks : list str) : list str :=
  match chunks with
  | [] => []
  | s :: ss => visible_text (push_str c s).2 :: fed (push_str c s).1 ss
  end.

Lemma concat_fed c chunks : concat (fed c chunks) = visible_text (push_all c chunks).2.
Proof.
  revert c; induction chunks as [|s ss IH]; intros c; [done|].
  cbn [fed push_all concat]. rewrite IH. destruct (push_str c s) as [c1 o1]. cbn [fst snd].
  by destruct (push_all c1 ss) as [c2 o2].
Qed.

Lemma assistant_push_all_off ci pl chunks :
  assistant_push_all (mkAssistant false ci pl) chunks =
  let '(ci', out) := push_all ci chunks in
  (mkAssistant false ci' pl, mkAssistantChunk (visible_text out) (extracted out) []).
Proof.
  revert ci; induction chunks as [|s ss IH]; intros ci; [done|].
  cbn [assistant_push_all push_all]. unfold assistant_push_str. cbn [citation_state plan_mode plan].
  destruct (push_str ci s) as [c1 o1]. cbn. rewrite IH. by destruct (push_all c1 ss).
Qed.

Lemma assistant_push_all_on ci pl chunks :
  assistant_push_all (mkAssistant true ci pl) chunks =
  let '(ci', out) := push_all ci chunks in
  let '(pl', pout) := push_all pl (fed ci chunks) in
  (mkAssistant true ci' pl', mkAssistantChunk (visible_text pout) (extracted out) (extracted pout)).
Proof.
  revert ci pl; induction chunks as [|s ss IH]; intros ci pl; [done|].
  cbn [assistant_push_all push_all fed]. unfold assistant_push_str, parse_visible_text.
  cbn [citation_state plan_mode plan].
  destruct (push_str ci s) as [c1 o1]. cbn [fst snd].
  destruct (push_str pl (visible_text o1)) as [p1 po1]. cbn [assistant_visible plan_segments].
  rewrite IH. destruct (push_all c1 ss) as [c2 o2], (push_all p1 (fed c1 ss)) as [p2 po2].
  done.
Qed.

Lemma push_all_snoc {P E} `{StreamTextParser P E} (p : P) chunks c :
  push_all p (chunks ++ [c]) =
  let '(p1, out) := push_all p chunks in
  let '(p2, o) := push_str p1 c in (p2, append out o).
Proof.
  revert p; induction chunks as [|s ss IH]; intros p; simpl.
  - destruct (push_str p c) as [p2 o]. by rewrite append_default_r, append_default_l.
  - destruct (push_str p s) as [p1 o1]. rewrite IH.
    destruct (push_all p1 ss) as [p2 o2], (push_str p2 c) as [p3 o3]. by rewrite append_assoc.
Qed.

Lemma append_tail_if_nonempty out tail :
  (if chunk_is_empty tail then out
   else mkAssistantChunk (assistant_visible out ++ visible_text tail) (citations out)
          (plan_segments out ++ extracted tail)) =
  mkAssistantChunk (assistant_visible out ++ visible_text tail) (citations out)
    (plan_segments out ++ extracted tail).
Proof. destruct out, tail as [[|] [|]]; simpl; by rewrite ?app_nil_r. Qed.

Lemma assistant_run_plan chunks :
  assistant_run (new_assistant true) chunks =
  let '(ci, out) := push_all Inline.new_citation chunks in
  let '(ci', tail) := finish ci in
  let '(pl, pout) := run new_plan (fed Inline.new_citation chunks ++ [visible_text tail]) in
  (mkAssistant true ci' pl,
   mkAssistantChunk (visible_text pout) (extracted out ++ extracted tail) (extracted pout)).
Proof.
  unfold assistant_run, new_assistant. rewrite assistant_push_all_on. unfold run.
  destruct (push_all Inline.new_citation chunks) as [ci out].
  destruct (finish ci) as [ci' tail] eqn:Ef. rewrite push_all_snoc.
  destruct (push_all new_plan (fed Inline.new_citation chunks)) as [pl pout].
  unfold assistant_finish, parse_visible_text. cbn [citation_state plan_mode plan]. rewrite Ef.
  destruct (push_str pl (visible_text tail)) as [pl2 pout2]. cbn [citation_state plan_mode plan].
  destruct (finish pl2) as [pl3 ptail]. rewrite append_tail_if_nonempty.
  unfold assistant_append, append. simpl. by rewrite !app_assoc.
Qed.

Lemma run_citation_new text : (run Inline.new_citation [text]).1 = Inline.new_citation.
Proof.
  unfold run. cbn [push_all push_str Inline.citation_parser].
  change (Inline.citation_inner Inline.new_citation) with (Inline.mkInline Inline.citation_specs [] None).
  unfold Inline.inline_push_str. cbn [Inline.pending Inline.specs Inline.active app].
  generalize (Inline.drain Inline.citation_specs (S (length text)) text None).
  intros [[rest [act|]] out]; reflexivity.
Qed.

Lemma strip_citations_chunks chunks :
  (run Inline.new_citation chunks).1 = Inline.new_citation /\
  Inline.strip_citations (concat chunks) =
    (visible_text (run Inline.new_citation chunks).2, extracted (run Inline.new_citation chunks).2).
Proof.
  destruct (run_concat Inline.new_citation chunks Inline.new_citation_good) as [H1 [H2 H3]].
  rewrite run_citation_new in H1. split; [done|]. simpl in H3.
  by rewrite Inline.strip_citations_run, H2, H3.
Qed.

Lemma run_plan_chunks chunks :
  let '(p, out) := run new_plan chunks in
  p = new_plan /\ visible_text out = strip_proposed_plan_blocks (concat chunks) /\
  plan_events (extracted out) = document_events plan_specs (concat chunks).
Proof.
  destruct (run_concat new_plan chunks new_plan_good) as [H1 [H2 H3]].
  pose proof (run_plan_whole (concat chunks)) as Hw. rewrite strip_plan_run.
  destruct (run new_plan chunks) as [p out], (run new_plan [concat chunks]) as [p' out'].
  simpl in *. destruct Hw as (-> & Hv & He). by rewrite H1, H2, H3.
Qed.

(** However assistant text is cut into chunks, the streaming parser gives what
    the one-shot functions give for the whole text: the citations of
    [strip_citations]; as visible text what [strip_citations] leaves, in plan mode
    with the plan blocks stripped from that; and in plan mode the plan segments of
    that text, none otherwise.  The parser is as new afterwards. *)
Theorem assistant_text_cut_anywhere mode chunks :
  let '(p, out) := assistant_run (new_assistant mode) chunks in
  let '(visible, cited) := Inline.strip_citations (concat chunks) in
  p = new_assistant mode /\ citations out = cited /\
  assistant_visible out = (if mode then strip_proposed_plan_blocks visible else visible) /\
  plan_events (plan_segments out) = (if mode then document_events plan_specs visible else []).
Proof.
  destruct (strip_citations_chunks chunks) as [Hn ->].
  pose proof (concat_fed Inline.new_citation chunks) as Hf. pose proof (assistant_run_plan chunks) as Hp.
  pose proof (assistant_push_all_off Inline.new_citation new_plan chunks) as Hoff.
  assert (exists ci out ci' tail, push_all Inline.new_citation chunks = (ci, out) /\
    finish ci = (ci', tail) /\ run Inline.new_citation chunks = (ci', append out tail))
    as (ci & out & ci' & tail & Epush & Ef & Er).
  { unfold run. destruct (push_all Inline.new_citation chunks) as [ci out].
    destruct (finish ci) as [ci' tail] eqn:Ef. eauto 8. }
  rewrite Er in Hn |- *. rewrite Epush in *. cbn [fst snd visible_text extracted append] in *.
  subst ci'. destruct mode.
  - rewrite Hp, Ef.
    pose proof (run_plan_chunks (fed Inline.new_citation chunks ++ [visible_text tail])) as Hw.
    rewrite concat_app, Hf in Hw. cbn [concat] in Hw. rewrite app_nil_r in Hw.
    destruct (run new_plan _) as [pl pout]. destruct Hw as (-> & Hv & He).
    cbn [assistant_visible plan_segments citations]. by rewrite Hv, He.
  - unfold assistant_run, new_assistant. rewrite Hoff. unfold assistant_finish.
    cbn [citation_state plan_mode plan]. by rewrite Ef.
Qed.

(** ** Witnesses and examples *)

#[global] Instance plain_dec line : Decision (plain line).
Proof. unfold plain. apply _. Defined.

Lemma plan_block_roundtrip_witness :
  strip_proposed_plan_blocks
    (unlines ([$"before"] ++ [$"  <proposed_plan> "] ++ [$"- step"; $"<b>"] ++ [$"</proposed_plan>"]
              ++ [$"after"])) = unlines [$"before"] ++ unlines [$"after"] /\
  extract_proposed_plan_text
    (unlines ([$"before"] ++ [$"  <proposed_plan> "] ++ [$"- step"; $"<b>"] ++ [$"</proposed_plan>"]
              ++ [$"after"])) = Some (unlines [$"- step"; $"<b>"]).
Proof.
  apply (plan_block_roundtrip [$"before"] $"  <proposed_plan> " [$"- step"; $"<b>"]
           $"</proposed_plan>" [$"after"]);
    try (apply (bool_decide_unpack _); vm_compute; exact I); vm_compute; reflexivity.
Defined.

Example plan_mode_session :
  (assistant_run (new_assistant true)
     [$"Intro" ++ [newline] ++ $"<proposed"; $"_plan>" ++ [newline];
      $"- step <oai-mem-citation>doc</oai-mem-citation>" ++ [newline];
      $"</proposed_plan>" ++ [newline] ++ $"Outro"]).2 =
  mkAssistantChunk ($"Intro" ++ [newline] ++ $"Outro") [$"doc"]
    [PlanNormal ($"Intro" ++ [newline]); ProposedPlanStart;
     ProposedPlanDelta ($"- step " ++ [newline]); ProposedPlanEnd; PlanNormal $"Outro"].
Proof. vm_compute. reflexivity. Qed.

End Tagged.
