(* ===== verification/AgentPath.v ===== *)
(** Agent paths ([codex-rs/protocol/src/agent_path.rs]): the names of the agents of a
    session form a tree under [/root]. *)
From S2P Require Import Prelude.

Module AgentPath.

(** ** Definitions *)

Definition slash : char := ch "/".
Definition ROOT : str := $"/root".
Definition MORPHEUS : str := $"/morpheus".
Definition ROOT_SEGMENT : str := $"root".

Record AgentPath := mkAgentPath { as_str : str }.
#[global] Instance AgentPath_eq_dec : EqDecision AgentPath.
Proof. solve_decision. Defined.

Definition msg_absolute : str := $"absolute agent paths must start with `/root` or be `/morpheus`".
Definition is_name_char (c : char) : bool :=
  ((97 <=? c) && (c <=? 122))%N || Str.is_ascii_digit c || (c =? ch "_")%N.

Definition validate_agent_name (agent_name : str) : result str unit :=
  if Str.is_empty agent_name then Err $"agent_name must not be empty"
  else if decide (agent_name = ROOT_SEGMENT) then Err $"agent_name `root` is reserved"
  else if decide (agent_name = $"." \/ agent_name = $"..") then
    Err ($"agent_name `" ++ agent_name ++ $"` is reserved")
  else if Str.contains_char slash agent_name then Err $"agent_name must not contain `/`"
  else if forallb is_name_char agent_name then Ok tt
  else Err $"agent_name must use only lowercase letters, digits, and underscores".

Fixpoint validate_names (segments : list str) : result str unit :=
  match segments with
  | [] => Ok tt
  | s :: ss => _ ← validate_agent_name s; validate_names ss
  end.

Definition validate_absolute_path (path : str) : result str unit :=
  if decide (path = MORPHEUS) then Ok tt
  else
    match Str.strip_prefix [slash] path with
    | None => Err msg_absolute
    | Some stripped =>
        match Str.split slash stripped with
        | [] => Err $"absolute agent path must not be empty"
        | root :: segments =>
            if decide (root = ROOT_SEGMENT) then
              if Str.ends_with [slash] stripped
              then Err $"absolute agent path must not end with `/`"
              else validate_names segments
            else Err msg_absolute
        end
    end.

Definition validate_relative_reference (reference : str) : result str unit :=
  if Str.ends_with [slash] reference then Err $"relative agent path must not end with `/`"
  else validate_names (Str.split slash reference).

Definition root : AgentPath := mkAgentPath ROOT.
Definition morpheus : AgentPath := mkAgentPath MORPHEUS.
Definition from_string (path : str) : result str AgentPath :=
  _ ← validate_absolute_path path; Ok (mkAgentPath path).
Definition is_root (p : AgentPath) : bool := bool_decide (as_str p = ROOT).
Definition name (p : AgentPath) : str :=
  if is_root p then ROOT_SEGMENT
  else
    match last (Str.split slash (as_str p)) with
    | Some segment => if Str.is_empty segment then ROOT_SEGMENT else segment
    | None => ROOT_SEGMENT
    end.
Definition join (p : AgentPath) (agent_name : str) : result str AgentPath :=
  _ ← validate_agent_name agent_name; from_string (as_str p ++ [slash] ++ agent_name).
Definition resolve (p : AgentPath) (reference : str) : result str AgentPath :=
  if Str.is_empty reference then Err $"agent path must not be empty"
  else if decide (reference = ROOT) then Ok root
  else if Str.starts_with [slash] reference then from_string reference
  else
    _ ← validate_relative_reference reference;
    from_string (as_str p ++ [slash] ++ reference).

(** ** Valid paths *)

Definition good_name (n : str) : Prop := validate_agent_name n = Ok tt.
Definition valid (p : AgentPath) : Prop := validate_absolute_path (as_str p) = Ok tt.
(** The path of a chain of names below the root. *)
Definition below (names : list str) : str := [slash] ++ Str.join [slash] (ROOT_SEGMENT :: names).
Arguments below : simpl never.

Lemma good_name_spec n :
  good_name n <-> n <> [] /\ n <> ROOT_SEGMENT /\ forallb is_name_char n = true.
Proof.
  unfold good_name, validate_agent_name. destruct n as [|c n]; [by split; [|intros [[] _]]|].
  cbn [Str.is_empty]. case_decide as Hr; [by split; [|intros (_ & [] & _)]|].
  case_decide as Hd.
  { split; [done|]. intros (_ & _ & Hf). by destruct Hd as [E|E]; rewrite E in Hf. }
  destruct (Str.contains_char slash (c :: n)) eqn:Es.
  - split; [done|]. intros (_ & _ & Hf). exfalso.
    apply existsb_exists in Es as (x & Hin & Hx%N.eqb_eq).
    eapply forallb_forall in Hf; [|exact Hin]. by subst x.
  - destruct (forallb is_name_char (c :: n)); [by split|]. by split; [|intros (_ & _ & [=])].
Qed.

Lemma good_name_slash n : good_name n -> slash ∉ n.
Proof.
  intros (_ & _ & Hf)%good_name_spec Hin. apply list_elem_of_In in Hin.
  eapply forallb_forall in Hf; [|exact Hin]. done.
Qed.

Lemma validate_names_spec l : validate_names l = Ok tt <-> Forall good_name l.
Proof.
  induction l as [|s l IH]; simpl; [by split|]. rewrite Forall_cons, <- IH. unfold good_name.
  destruct (validate_agent_name s) as [[]|e]; simpl; naive_solver.
Qed.

Lemma ends_with_slash_join ls :
  ls <> [] -> Forall (fun l => slash ∉ l) ls ->
  Str.ends_with [slash] (Str.join [slash] ls) = true -> last ls = Some [].
Proof.
  intros Hne Hls [t Ht]%Str.ends_with_spec. pose proof (Str.split_join slash ls Hne Hls) as Hs.
  rewrite Ht, Str.split_app in Hs. rewrite <- Hs. apply (last_snoc []).
Qed.

Lemma join_no_end names :
  Forall good_name names -> names <> [] -> Str.ends_with [slash] (Str.join [slash] names) = false.
Proof.
  intros Hg Hne. apply not_true_iff_false. intros He%ends_with_slash_join; [|done|].
  - apply last_Some_elem_of in He. rewrite Forall_forall in Hg. by apply Hg in He.
  - eapply Forall_impl; [exact Hg|]. exact good_name_slash.
Qed.

Lemma below_ends names : Forall good_name names ->
  Str.ends_with [slash] (Str.join [slash] (ROOT_SEGMENT :: names)) = false.
Proof.
  intros Hg. apply not_true_iff_false. intros He%ends_with_slash_join; [|done|].
  - destruct names as [|n names]; [done|]. rewrite last_cons_cons in He.
    apply last_Some_elem_of in He. rewrite Forall_forall in Hg. by apply Hg in He.
  - constructor; [apply (bool_decide_unpack _); vm_compute; exact I|].
    eapply Forall_impl; [exact Hg|]. exact good_name_slash.
Qed.

Lemma split_below names : Forall good_name names ->
  Str.split slash (Str.join [slash] (ROOT_SEGMENT :: names)) = ROOT_SEGMENT :: names.
Proof.
  intros Hg. apply Str.split_join; [done|].
  constructor; [apply (bool_decide_unpack _); vm_compute; exact I|].
  eapply Forall_impl; [exact Hg|]. exact good_name_slash.
Qed.

Lemma valid_spec s :
  validate_absolute_path s = Ok tt <->
  s = MORPHEUS \/ exists names, Forall good_name names /\ s = below names.
Proof.
  unfold validate_absolute_path. case_decide as Hm; [naive_solver|]. split.
  - destruct (Str.strip_prefix [slash] s) as [r|] eqn:Ep; [|done].
    apply Str.strip_prefix_Some in Ep. destruct (Str.split slash r) as [|h t] eqn:Es; [done|].
    case_decide; [subst h|done]. destruct (Str.ends_with [slash] r); [done|].
    intros Hg%validate_names_spec. right. exists t. split; [done|].
    rewrite Ep. unfold below. by rewrite <- Es, Str.join_split.
  - intros [?|(names & Hg & ->)]; [done|]. unfold below at 1. rewrite Str.strip_prefix_app.
    rewrite split_below, decide_True, below_ends by done. by apply validate_names_spec.
Qed.

Lemma below_join names more :
  more <> [] -> below (names ++ more) = below names ++ [slash] ++ Str.join [slash] more.
Proof.
  intros Hm. unfold below. rewrite <- app_assoc. f_equal.
  cut (forall a l, Str.join [slash] ((a :: l) ++ more) =
                   Str.join [slash] (a :: l) ++ [slash] ++ Str.join [slash] more).
  { intros H. exact (H ROOT_SEGMENT names). }
  intros a l; revert a; induction l as [|b l IH]; intros a.
  - simpl. by destruct more.
  - change (Str.join [slash] ((a :: b :: l) ++ more))
      with (a ++ [slash] ++ Str.join [slash] ((b :: l) ++ more)).
    rewrite IH. change (Str.join [slash] (a :: b :: l)) with (a ++ [slash] ++ Str.join [slash] (b :: l)).
    by rewrite <- !app_assoc.
Qed.

Lemma below_inj a b : Forall good_name a -> Forall good_name b -> below a = below b -> a = b.
Proof.
  intros Ha Hb E. apply (app_inv_head [slash]) in E.
  pose proof (split_below a Ha) as Sa. rewrite E, split_below in Sa by done. by injection Sa.
Qed.

Lemma below_head names : exists t, below names = ROOT ++ t.
Proof.
  destruct names as [|n ns]; [by exists []|].
  exists ([slash] ++ Str.join [slash] (n :: ns)). done.
Qed.

Lemma morpheus_no_child s : is_ok (from_string (MORPHEUS ++ [slash] ++ s)) = false.
Proof.
  unfold from_string. destruct (validate_absolute_path _) as [[]|] eqn:E; [|done].
  apply valid_spec in E as [E|(names & _ & E)].
  - by apply (f_equal length) in E.
  - destruct (below_head names) as [t Ht]. rewrite Ht in E. discriminate E.
Qed.

Lemma from_string_below names :
  Forall good_name names -> from_string (below names) = Ok (mkAgentPath (below names)).
Proof.
  intros Hg. unfold from_string. by rewrite (proj2 (valid_spec (below names)) ltac:(eauto)).
Qed.

Lemma join_below names n q :
  Forall good_name names ->
  join (mkAgentPath (below names)) n = Ok q <->
  good_name n /\ q = mkAgentPath (below (names ++ [n])).
Proof.
  intros Hg. unfold join. cbn [as_str].
  assert (below names ++ [slash] ++ n = below (names ++ [n])) as ->
    by (by rewrite (below_join names [n])).
  destruct (validate_agent_name n) as [[]|e] eqn:En; simpl.
  - rewrite from_string_below by (apply Forall_app; by repeat constructor).
    split; [by intros [= <-]|by intros [_ ->]].
  - split; [done|]. intros [Hn _]. unfold good_name in Hn. congruence.
Qed.

Lemma join_Ok p n q :
  valid p -> join p n = Ok q ->
  exists names, Forall good_name names /\ good_name n /\
    p = mkAgentPath (below names) /\ q = mkAgentPath (below (names ++ [n])).
Proof.
  destruct p as [s]. intros Hp Hj. apply valid_spec in Hp. cbn [as_str] in Hp.
  destruct Hp as [->|(names & Hg & ->)].
  - unfold join in Hj. destruct (validate_agent_name n); [|done].
    pose proof (morpheus_no_child n) as Hm. cbn [as_str] in Hj.
    by destruct (from_string _).
  - apply join_below in Hj as [? ->]; [|done]. eauto 6.
Qed.

Fixpoint join_all (p : AgentPath) (names : list str) : result str AgentPath :=
  match names with
  | [] => Ok p
  | n :: ns => q ← join p n; join_all q ns
  end.

Lemma join_all_below names more q :
  Forall good_name names ->
  join_all (mkAgentPath (below names)) more = Ok q <->
  Forall good_name more /\ q = mkAgentPath (below (names ++ more)).
Proof.
  revert names; induction more as [|n more IH]; intros names Hg; simpl.
  { rewrite app_nil_r. split; [intros [= <-]; by split|by intros [_ ->]]. }
  rewrite Forall_cons. destruct (join (mkAgentPath (below names)) n) as [r|e] eqn:Ej; simpl.
  - apply join_below in Ej as [Hn ->]; [|done]. rewrite IH.
    + rewrite <- app_assoc. simpl. tauto.
    + apply Forall_app. by repeat constructor.
  - split; [done|]. intros [[Hn _] _].
    pose proof (proj2 (join_below names n (mkAgentPath (below (names ++ [n]))) Hg)) as H.
    rewrite Ej in H. by specialize (H (conj Hn eq_refl)).
Qed.

Lemma validate_relative_spec r :
  validate_relative_reference r = Ok tt <-> Forall good_name (Str.split slash r).
Proof.
  unfold validate_relative_reference. rewrite <- validate_names_spec.
  destruct (Str.ends_with [slash] r) eqn:E; [|done]. split; [done|].
  intros Hg%validate_names_spec. apply join_no_end in Hg; [|apply Str.split_ne].
  by rewrite Str.join_split, E in Hg.
Qed.

(** ** Properties *)

(** Agent paths form a tree: a path made by [join] is valid, is not the root, has
    the joined name, and has exactly one parent and name it can be joined from. *)
Theorem join_makes_a_tree p n q :
  valid p -> join p n = Ok q ->
  valid q /\ is_root q = false /\ name q = n /\
  forall p' n', valid p' -> join p' n' = Ok q -> p' = p /\ n' = n.
Proof.
  intros Hp (names & Hg & Hn & -> & ->)%join_Ok; [|done].
  assert (Forall good_name (names ++ [n])) as Hg' by (apply Forall_app; by repeat constructor).
  assert (is_root (mkAgentPath (below (names ++ [n]))) = false) as Hr.
  { apply bool_decide_false. simpl. change ROOT with (below []). intros E.
    apply below_inj in E; [by destruct names|done|by constructor]. }
  split; [apply valid_spec; eauto|]. split; [done|]. split.
  - unfold name. rewrite Hr. cbn [as_str]. unfold below.
    change ([slash] ++ Str.join [slash] (ROOT_SEGMENT :: names ++ [n]))
      with ([] ++ slash :: Str.join [slash] (ROOT_SEGMENT :: names ++ [n])).
    rewrite Str.split_app, split_below by done.
    change (ROOT_SEGMENT :: names ++ [n]) with ((ROOT_SEGMENT :: names) ++ [n]).
    rewrite app_assoc, last_snoc. apply good_name_spec in Hn as [Hn _]. by destruct n.
  - intros p' n' Hp' (names' & Hg2 & Hn' & -> & E)%join_Ok; [|done].
    apply (f_equal as_str) in E. cbn [as_str] in E.
    apply below_inj in E; [|done|apply Forall_app; by repeat constructor].
    by apply app_inj_tail in E as [-> ->].
Qed.

(** Resolving a relative reference succeeds exactly when joining its segments one
    after the other does, with the same path. *)
Theorem resolve_relative_is_joins p r q :
  valid p -> Str.starts_with [slash] r = false ->
  resolve p r = Ok q <-> join_all p (Str.split slash r) = Ok q.
Proof.
  intros Hp Hs. unfold resolve. destruct (Str.is_empty r) eqn:Ee.
  { apply Str.is_empty_spec in Ee as ->. split; [done|]. simpl. intros Hj.
    destruct (join p []) eqn:Ej; [|done]. by apply join_Ok in Ej as (? & _ & ? & _). }
  rewrite decide_False by (by intros ->). rewrite Hs.
  destruct p as [s]. apply valid_spec in Hp. cbn [as_str] in Hp.
  destruct Hp as [->|(names & Hg & ->)]; cbn [as_str].
  - pose proof (morpheus_no_child r) as Hm. split.
    + destruct (validate_relative_reference r); [|done]. simpl. by destruct (from_string _).
    + pose proof (Str.split_ne slash r). destruct (Str.split slash r) as [|n ns]; [done|]. simpl.
      unfold join. simpl. pose proof (morpheus_no_child n) as Hn.
      destruct (validate_agent_name n); [|done]. simpl. by destruct (from_string _).
  - rewrite join_all_below by done.
    destruct (validate_relative_reference r) as [[]|] eqn:Ev; cbn [mbind result_bind].
    + apply validate_relative_spec in Ev.
      assert (below names ++ [slash] ++ r = below (names ++ Str.split slash r)) as Eb
        by (by rewrite below_join, Str.join_split by apply Str.split_ne).
      rewrite Eb.
      rewrite from_string_below by (by apply Forall_app).
      split; [intros [= <-]; by split|by intros [_ ->]].
    + split; [done|]. intros [Hv%validate_relative_spec _]. congruence.
Qed.

Lemma join_makes_a_tree_witness :
  is_root (mkAgentPath $"/root/worker") = false /\ name (mkAgentPath $"/root/worker") = $"worker".
Proof.
  destruct (join_makes_a_tree root $"worker" (mkAgentPath $"/root/worker")) as (_ & Hr & Hn & _);
    [vm_compute; reflexivity|vm_compute; reflexivity|]. split; [exact Hr|exact Hn].
Defined.

Lemma resolve_relative_is_joins_witness :
  resolve root $"a/b_2" = Ok (mkAgentPath $"/root/a/b_2") <->
  join_all root (Str.split slash $"a/b_2") = Ok (mkAgentPath $"/root/a/b_2").
Proof.
  apply (resolve_relative_is_joins root $"a/b_2"); vm_compute; reflexivity.
Defined.

End AgentPath.
