(* ===== verification/AgentRegistry.v ===== *)
(** The registry of the agents of a session ([codex-rs/core/src/agent/registry.rs]) and
    the part of [codex-rs/core/src/agent/control.rs] that prepares a spawn: slots,
    nicknames, paths, and reservations that are committed or dropped.

    Each method of the source takes the registry lock, or does one atomic operation
    on the counter, so a session is a sequence of such steps ([step]), in any order
    the callers produce.  The compare-and-exchange loop of [try_increment_spawned] is
    also modelled at the grain of its atomic operations ([cas_step]).

    The map of the source is unordered; where the source searches it the model takes
    some order of its entries, and the search is for an identifier that at most one
    entry has ([ids_unique]).  Thread identifiers are UUIDs of a library: a type with
    decidable equality and an injective text form. *)
From S2P Require Import Prelude AgentPath.
From stdpp Require Import gmap.
Import AgentPath.

Module Registry.

(** ** Definitions *)

(** [usize] on a 64-bit machine; the atomic counter wraps. *)
Definition usize_modulus : N := 2 ^ 64.
Definition wrap (n : N) : N := (n mod usize_modulus)%N.

Inductive CodexErr :=
| AgentLimitReached (max_threads : N)
| UnsupportedOperation (message : str).

Definition format_agent_nickname (name : str) (nickname_reset_count : N) : str :=
  if (nickname_reset_count =? 0)%N then name
  else
    let value := (nickname_reset_count + 1)%N in
    let suffix :=
      if ((11 <=? value mod 100) && (value mod 100 <=? 13))%N then $"th"
      else if (value mod 10 =? 1)%N then $"st"
      else if (value mod 10 =? 2)%N then $"nd"
      else if (value mod 10 =? 3)%N then $"rd"
      else $"th" in
    name ++ $" the " ++ Str.show_N value ++ suffix.

Inductive InternalSessionSource := InternalMemoryConsolidation.

Section registry.
Context {ThreadId : Type} `{EqDecision ThreadId}.

Inductive SubAgentSource :=
| Review
| Compact
| ThreadSpawn (parent_thread_id : ThreadId) (depth : Z) (agent_path : option AgentPath)
    (agent_nickname agent_role : option str)
| MemoryConsolidation
| OtherSubAgent (name : str).
Inductive SessionSource :=
| Cli | VSCode | Exec | Mcp
| Custom (source : str)
| Internal (source : InternalSessionSource)
| SubAgent (source : SubAgentSource)
| Unknown.

Definition session_depth (session_source : SessionSource) : Z :=
  match session_source with
  | SubAgent (ThreadSpawn _ depth _ _ _) => depth
  | _ => 0
  end.
(** [i32::saturating_add]. *)
Definition next_thread_spawn_depth (session_source : SessionSource) : Z :=
  Z.min (session_depth session_source + 1) (2 ^ 31 - 1).
Definition exceeds_thread_spawn_depth_limit (depth max_depth : Z) : bool := (max_depth <? depth)%Z.

Record AgentMetadata := mkMetadata {
  agent_id : option ThreadId;
  agent_path : option AgentPath;
  agent_nickname : option str;
  agent_role : option str;
  last_task_message : option str
}.
Definition default_metadata : AgentMetadata := mkMetadata None None None None None.

Record ActiveAgents := mkActive {
  agent_tree : gmap str AgentMetadata;
  used_agent_nicknames : gset str;
  nickname_reset_count : N
}.
Record AgentRegistry := mkRegistry { active_agents : ActiveAgents; total_count : N }.
Definition default_registry : AgentRegistry := mkRegistry (mkActive ∅ ∅ 0) 0.

Definition tree (reg : AgentRegistry) : gmap str AgentMetadata := agent_tree (active_agents reg).
Definition set_tree (reg : AgentRegistry) (t : gmap str AgentMetadata) : AgentRegistry :=
  mkRegistry (mkActive t (used_agent_nicknames (active_agents reg))
                (nickname_reset_count (active_agents reg))) (total_count reg).
Definition fetch_add_1 (reg : AgentRegistry) : AgentRegistry :=
  mkRegistry (active_agents reg) (wrap (total_count reg + 1)).
Definition fetch_sub_1 (reg : AgentRegistry) : AgentRegistry :=
  mkRegistry (active_agents reg) (wrap (total_count reg + (usize_modulus - 1))).

Record SpawnReservation := mkReservation {
  active : bool;
  reserved_agent_nickname : option str;
  reserved_agent_path : option AgentPath
}.

Definition try_increment_spawned (reg : AgentRegistry) (max_threads : N) : AgentRegistry * bool :=
  if (max_threads <=? total_count reg)%N then (reg, false)
  else (mkRegistry (active_agents reg) (total_count reg + 1)%N, true).

Definition reserve_spawn_slot (reg : AgentRegistry) (max_threads : option N)
    : AgentRegistry * result CodexErr SpawnReservation :=
  match max_threads with
  | Some max_threads =>
      let '(reg, incremented) := try_increment_spawned reg max_threads in
      if incremented : bool then (reg, Ok (mkReservation true None None))
      else (reg, Err (AgentLimitReached max_threads))
  | None => (fetch_add_1 reg, Ok (mkReservation true None None))
  end.

Definition has_id (thread_id : ThreadId) (m : AgentMetadata) : bool :=
  bool_decide (agent_id m = Some thread_id).
Definition is_root_agent (m : AgentMetadata) : bool :=
  match agent_path m with Some p => is_root p | None => false end.
Definition find_entry (thread_id : ThreadId) (t : gmap str AgentMetadata)
    : option (str * AgentMetadata) :=
  List.find (fun '(_, m) => has_id thread_id m) (map_to_list t).

Definition release_spawned_thread (reg : AgentRegistry) (thread_id : ThreadId) : AgentRegistry :=
  match find_entry thread_id (tree reg) with
  | Some (key, _) =>
      match tree reg !! key with
      | Some metadata =>
          let reg := set_tree reg (delete key (tree reg)) in
          if is_root_agent metadata then reg else fetch_sub_1 reg
      | None => reg
      end
  | None => reg
  end.

Definition register_root_thread (reg : AgentRegistry) (thread_id : ThreadId) : AgentRegistry :=
  match tree reg !! ROOT with
  | Some _ => reg
  | None =>
      set_tree reg (<[ROOT := mkMetadata (Some thread_id) (Some root) None None None]> (tree reg))
  end.

Definition agent_id_for_path (reg : AgentRegistry) (p : AgentPath) : option ThreadId :=
  m ← tree reg !! as_str p; agent_id m.
Definition agent_metadata_for_thread (reg : AgentRegistry) (thread_id : ThreadId)
    : option AgentMetadata :=
  snd <$> find_entry thread_id (tree reg).

(** A registered agent that is not the root: what [live_agents] lists and what holds a
    slot. *)
Definition counted (m : AgentMetadata) : bool :=
  match agent_id m with Some _ => negb (is_root_agent m) | None => false end.
Definition live_agents (reg : AgentRegistry) : list AgentMetadata :=
  List.filter counted (map_to_list (tree reg)).*2.

Definition with_message (m : AgentMetadata) (message : str) : AgentMetadata :=
  mkMetadata (agent_id m) (agent_path m) (agent_nickname m) (agent_role m) (Some message).
Definition update_last_task_message (reg : AgentRegistry) (thread_id : ThreadId) (message : str)
    : AgentRegistry :=
  match find_entry thread_id (tree reg) with
  | Some (key, metadata) => set_tree reg (<[key := with_message metadata message]> (tree reg))
  | None => reg
  end.

Definition reserve_agent_path (reg : AgentRegistry) (p : AgentPath)
    : AgentRegistry * result CodexErr unit :=
  match tree reg !! as_str p with
  | Some _ =>
      (reg, Err (UnsupportedOperation ($"agent path `" ++ as_str p ++ $"` already exists")))
  | None =>
      (set_tree reg (<[as_str p := mkMetadata None (Some p) None None None]> (tree reg)), Ok tt)
  end.
Definition release_reserved_agent_path (reg : AgentRegistry) (p : AgentPath) : AgentRegistry :=
  match tree reg !! as_str p with
  | Some m =>
      match agent_id m with
      | None => set_tree reg (delete (as_str p) (tree reg))
      | Some _ => reg
      end
  | None => reg
  end.

(** [choose] of the rand crate, an argument: some element of a list that has one. *)
Definition reserve_agent_nickname (choose : list str -> option str) (reg : AgentRegistry)
    (names : list str) (preferred : option str) : AgentRegistry * option str :=
  let a := active_agents reg in
  let use (a : ActiveAgents) (nickname : str) :=
    (mkRegistry (mkActive (agent_tree a) ({[nickname]} ∪ used_agent_nicknames a)
                   (nickname_reset_count a)) (total_count reg), Some nickname) in
  match preferred with
  | Some preferred => use a preferred
  | None =>
      match names with
      | [] => (reg, None)
      | _ =>
          let available_names :=
            List.filter (fun n => negb (bool_decide (n ∈ used_agent_nicknames a)))
              ((fun n => format_agent_nickname n (nickname_reset_count a)) <$> names) in
          match choose available_names with
          | Some name => use a name
          | None =>
              let a := mkActive (agent_tree a) ∅ (nickname_reset_count a + 1)%N in
              match choose names with
              | Some name => use a (format_agent_nickname name (nickname_reset_count a))
              | None => (mkRegistry a (total_count reg), None)
              end
          end
      end
  end.

(** *** SpawnReservation *)

Definition reserve_agent_nickname_with_preference (choose : list str -> option str)
    (reg : AgentRegistry) (r : SpawnReservation) (names : list str) (preferred : option str)
    : AgentRegistry * SpawnReservation * result CodexErr str :=
  match reserve_agent_nickname choose reg names preferred with
  | (reg, Some nickname) =>
      (reg, mkReservation (active r) (Some nickname) (reserved_agent_path r), Ok nickname)
  | (reg, None) => (reg, r, Err (UnsupportedOperation $"no available agent nicknames"))
  end.
Definition reservation_reserve_path (reg : AgentRegistry) (r : SpawnReservation) (p : AgentPath)
    : AgentRegistry * SpawnReservation * result CodexErr unit :=
  match reserve_agent_path reg p with
  | (reg, Ok _) => (reg, mkReservation (active r) (reserved_agent_nickname r) (Some p), Ok tt)
  | (reg, Err e) => (reg, r, Err e)
  end.

Variable show_thread : ThreadId -> str.

Definition tree_key (m : AgentMetadata) (thread_id : ThreadId) : str :=
  match agent_path m with
  | Some p => as_str p
  | None => $"thread:" ++ show_thread thread_id
  end.
Definition register_spawned_thread (reg : AgentRegistry) (m : AgentMetadata) : AgentRegistry :=
  match agent_id m with
  | None => reg
  | Some thread_id =>
      let a := active_agents reg in
      let used :=
        match agent_nickname m with
        | Some nickname => {[nickname]} ∪ used_agent_nicknames a
        | None => used_agent_nicknames a
        end in
      mkRegistry (mkActive (<[tree_key m thread_id := m]> (agent_tree a)) used
                    (nickname_reset_count a)) (total_count reg)
  end.

(** [Drop], which also runs, on an inactive reservation, at the end of [commit]. *)
Definition drop_reservation (reg : AgentRegistry) (r : SpawnReservation) : AgentRegistry :=
  if active r then
    fetch_sub_1
      match reserved_agent_path r with
      | Some p => release_reserved_agent_path reg p
      | None => reg
      end
  else reg.
Definition commit (reg : AgentRegistry) (r : SpawnReservation) (m : AgentMetadata)
    : AgentRegistry :=
  drop_reservation (register_spawned_thread reg m) (mkReservation false None None).

(** *** control.rs *)

(** What [candidate_names] holds (from the configuration and the role) is an argument. *)
Definition prepare_thread_spawn (choose : list str -> option str) (reg : AgentRegistry)
    (r : SpawnReservation) (candidate_names : list str) (parent_thread_id : ThreadId) (depth : Z)
    (path : option AgentPath) (role preferred_agent_nickname : option str)
    : AgentRegistry * SpawnReservation * result CodexErr (SessionSource * AgentMetadata) :=
  let reg := if (depth =? 1)%Z then register_root_thread reg parent_thread_id else reg in
  let '(reg, r, reserved) :=
    match path with
    | Some p => reservation_reserve_path reg r p
    | None => (reg, r, Ok tt)
    end in
  match reserved with
  | Err e => (reg, r, Err e)
  | Ok _ =>
      match reserve_agent_nickname_with_preference choose reg r candidate_names
              preferred_agent_nickname with
      | (reg, r, Err e) => (reg, r, Err e)
      | (reg, r, Ok nickname) =>
          (reg, r, Ok (SubAgent (ThreadSpawn parent_thread_id depth path (Some nickname) role),
                       mkMetadata None path (Some nickname) role None))
      end
  end.

End registry.
Arguments AgentMetadata : clear implicits.
Arguments AgentRegistry : clear implicits.
Arguments ActiveAgents : clear implicits.

(** ** A session

    The registry and the reservations that are neither committed nor dropped. *)
Section session.
Context {ThreadId : Type} `{EqDecision ThreadId}.
Variable show_thread : ThreadId -> str.
Context `{!Inj (=) (=) show_thread}.

Record Session := mkSession {
  reg : AgentRegistry ThreadId;
  live : gmap nat SpawnReservation
}.
Definition start : Session := mkSession default_registry ∅.

Definition registered (t : ThreadId) (reg : AgentRegistry ThreadId) : Prop :=
  exists k m, tree reg !! k = Some m /\ agent_id m = Some t.

(** A limit is a [usize]. *)
Definition fits (max_threads : option N) : Prop :=
  match max_threads with Some m => (m < usize_modulus)%N | None => True end.

(** What the callers in [control.rs] do: a reservation takes at most one path, a valid
    path below the root; a commit is for a new thread and the reserved path.
    [allowed] holds of the limits that are passed. *)
Inductive step (allowed : option N -> Prop) : Session -> Session -> Prop :=
| step_reserve s max_threads reg' r i :
    allowed max_threads -> fits max_threads -> live s !! i = None ->
    reserve_spawn_slot (reg s) max_threads = (reg', Ok r) ->
    step allowed s (mkSession reg' (<[i := r]> (live s)))
| step_refused s max_threads reg' e :
    allowed max_threads -> reserve_spawn_slot (reg s) max_threads = (reg', Err e) ->
    step allowed s (mkSession reg' (live s))
| step_path s i r p reg' r' res :
    live s !! i = Some r -> reserved_agent_path r = None -> valid p -> is_root p = false ->
    reservation_reserve_path (reg s) r p = (reg', r', res) ->
    step allowed s (mkSession reg' (<[i := r']> (live s)))
| step_nickname s i r choose names preferred reg' r' res :
    live s !! i = Some r ->
    reserve_agent_nickname_with_preference choose (reg s) r names preferred = (reg', r', res) ->
    step allowed s (mkSession reg' (<[i := r']> (live s)))
| step_commit s i r m t :
    live s !! i = Some r -> agent_id m = Some t -> ~ registered t (reg s) ->
    agent_path m = reserved_agent_path r ->
    step allowed s (mkSession (commit show_thread (reg s) r m) (delete i (live s)))
| step_drop s i r :
    live s !! i = Some r ->
    step allowed s (mkSession (drop_reservation (reg s) r) (delete i (live s)))
| step_release s t :
    step allowed s (mkSession (release_spawned_thread (reg s) t) (live s))
| step_root s t :
    ~ registered t (reg s) ->
    step allowed s (mkSession (register_root_thread (reg s) t) (live s))
| step_message s t message :
    step allowed s (mkSession (update_last_task_message (reg s) t message) (live s)).

Definition occupied (s : Session) : nat :=
  size (live s) + size (filter (fun kv => counted kv.2 = true) (tree (reg s))).

(** The pending entry of a reserved path. *)
Definition pending (p : AgentPath) : AgentMetadata ThreadId :=
  mkMetadata None (Some p) None None None.

Record wf (s : Session) : Prop := mkWf {
  slots_ok : total_count (reg s) = wrap (N.of_nat (occupied s));
  ids_unique k k' m m' t :
    tree (reg s) !! k = Some m -> tree (reg s) !! k' = Some m' ->
    agent_id m = Some t -> agent_id m' = Some t -> k = k';
  keys_ok k m : tree (reg s) !! k = Some m ->
    match agent_path m, agent_id m with
    | Some p, _ => k = as_str p /\ valid p
    | None, Some t => k = $"thread:" ++ show_thread t
    | None, None => False
    end;
  pending_held k m : tree (reg s) !! k = Some m -> agent_id m = None ->
    exists i r p, live s !! i = Some r /\ reserved_agent_path r = Some p /\ k = as_str p;
  held_pending i r p : live s !! i = Some r -> reserved_agent_path r = Some p ->
    tree (reg s) !! as_str p = Some (pending p) /\ is_root p = false;
  held_unique i j r r' p : live s !! i = Some r -> live s !! j = Some r' ->
    reserved_agent_path r = Some p -> reserved_agent_path r' = Some p -> i = j;
  live_active i r : live s !! i = Some r -> active r = true
}.

Lemma wrap_succ n : wrap (wrap n + 1) = wrap (n + 1).
Proof. unfold wrap. by rewrite N.Div0.add_mod_idemp_l. Qed.
Lemma wrap_pred n : wrap (wrap (n + 1) + (usize_modulus - 1)) = wrap n.
Proof.
  unfold wrap. rewrite N.Div0.add_mod_idemp_l.
  replace (n + 1 + (usize_modulus - 1))%N with (n + 1 * usize_modulus)%N by (unfold usize_modulus; lia).
  apply N.Div0.mod_add.
Qed.
Lemma wrap_small n : (n < usize_modulus)%N -> wrap n = n.
Proof. apply N.mod_small. Qed.

Definition count (t : gmap str (AgentMetadata ThreadId)) : nat :=
  size (filter (fun kv => counted kv.2 = true) t).

Lemma count_insert t k m :
  t !! k = None -> count (<[k := m]> t) = (if counted m then S (count t) else count t).
Proof.
  intros Hk. unfold count. destruct (counted m) eqn:E.
  - rewrite map_filter_insert_True by done. rewrite map_size_insert_None; [done|].
    by apply map_lookup_filter_None_2; left.
  - rewrite map_filter_insert_False by (simpl; congruence). by rewrite delete_id.
Qed.
Lemma count_delete t k m :
  t !! k = Some m -> count t = (if counted m then S (count (delete k t)) else count (delete k t)).
Proof.
  intros Hk. rewrite <- (insert_delete_id t k m Hk) at 1. by rewrite count_insert by apply lookup_delete_eq.
Qed.
Lemma count_replace t k m m' :
  t !! k = Some m -> counted m = counted m' -> count (<[k := m']> t) = count t.
Proof.
  intros Hk Hm. rewrite (count_delete t k m Hk), <- insert_delete_eq, count_insert by apply lookup_delete_eq.
  by rewrite Hm.
Qed.

Lemma find_entry_Some (t : ThreadId) tr k m :
  find_entry t tr = Some (k, m) -> tr !! k = Some m /\ agent_id m = Some t.
Proof.
  intros [Hin Hm]%find_some. apply list_elem_of_In, elem_of_map_to_list in Hin.
  split; [done|]. by apply bool_decide_eq_true in Hm.
Qed.
Lemma find_entry_None (t : ThreadId) tr k m :
  find_entry t tr = None -> tr !! k = Some m -> agent_id m <> Some t.
Proof.
  intros Hf Hk Hm. apply elem_of_map_to_list, list_elem_of_In in Hk.
  eapply find_none in Hf; [|exact Hk]. simpl in Hf. unfold has_id in Hf.
  by apply bool_decide_eq_false in Hf.
Qed.

Lemma occupied_eq s : occupied s = size (live s) + count (tree (reg s)).
Proof. done. Qed.

Lemma tree_set (r : AgentRegistry ThreadId) t : tree (set_tree r t) = t.
Proof. done. Qed.
Lemma total_set (r : AgentRegistry ThreadId) t : total_count (set_tree r t) = total_count r.
Proof. done. Qed.

(** Only the tree, the counter and the held paths matter. *)
Lemma wf_ext s s' :
  tree (reg s') = tree (reg s) -> total_count (reg s') = total_count (reg s) ->
  (forall i, (fun r => (active r, reserved_agent_path r)) <$> live s' !! i =
             (fun r => (active r, reserved_agent_path r)) <$> live s !! i) ->
  size (live s') = size (live s) -> wf s -> wf s'.
Proof.
  intros Ht Hc Hl Hsz [S I K P H U A].
  assert (forall i r, live s' !! i = Some r -> exists r0, live s !! i = Some r0 /\
    active r0 = active r /\ reserved_agent_path r0 = reserved_agent_path r) as Hback.
  { intros i r Hr. specialize (Hl i). rewrite Hr in Hl. simpl in Hl. symmetry in Hl.
    apply fmap_Some in Hl as (r0 & ? & [= ? ?]). eauto. }
  assert (forall i r, live s !! i = Some r -> exists r0, live s' !! i = Some r0 /\
    active r0 = active r /\ reserved_agent_path r0 = reserved_agent_path r) as Hforth.
  { intros i r Hr. specialize (Hl i). rewrite Hr in Hl. simpl in Hl.
    apply fmap_Some in Hl as (r0 & ? & [= ? ?]). eauto. }
  split; rewrite ?Ht, ?Hc; try done.
  - by rewrite S, !occupied_eq, Ht, Hsz.
  - intros k m Hk Hm. destruct (P k m Hk Hm) as (i & r & p & Hr & Hp & ->).
    destruct (Hforth i r Hr) as (r0 & ? & _ & ?). exists i, r0, p. split_and!; congruence.
  - intros i r p Hr Hp. destruct (Hback i r Hr) as (r0 & ? & _ & ?). apply (H i r0); congruence.
  - intros i j r r' p Hr Hr' Hp Hp'. destruct (Hback i r Hr) as (r0 & ? & _ & ?).
    destruct (Hback j r' Hr') as (r1 & ? & _ & ?). apply (U i j r0 r1 p); congruence.
  - intros i r Hr. destruct (Hback i r Hr) as (r0 & ? & <- & _). by apply (A i).
Qed.

Lemma wf_start : wf start.
Proof.
  split; simpl; unfold tree; simpl; intros;
    repeat match goal with H : ∅ !! _ = Some _ |- _ => by rewrite lookup_empty in H end.
  done.
Qed.

Lemma wf_reserve s max_threads reg' r i :
  fits max_threads -> live s !! i = None ->
  reserve_spawn_slot (reg s) max_threads = (reg', Ok r) ->
  wf s -> wf (mkSession reg' (<[i := r]> (live s))).
Proof.
  intros Hfit Hi Hres [S I K P H U A].
  assert (tree reg' = tree (reg s) /\ total_count reg' = wrap (total_count (reg s) + 1) /\
          r = mkReservation true None None) as (Ht & Hc & ->).
  { destruct max_threads as [m|]; simpl in Hres; [|by injection Hres as <- <-].
    unfold try_increment_spawned in Hres. destruct (N.leb_spec m (total_count (reg s))); [done|].
    injection Hres as <- <-. simpl in *. split_and!; [done| |done].
    symmetry. apply wrap_small. lia. }
  split; simpl; rewrite ?Ht; try done.
  - rewrite Hc, S, wrap_succ, !occupied_eq. simpl. rewrite Ht, map_size_insert_None by done.
    f_equal. lia.
  - intros k m Hk Hm. destruct (P k m Hk Hm) as (j & r & p & Hj & Hp & ->).
    exists j, r, p. rewrite lookup_insert_ne by congruence. done.
  - intros j r p [[<- <-]|[? Hj]]%lookup_insert_Some Hp; [done|]. eauto.
  - intros j j' r r' p [[<- <-]|[? Hj]]%lookup_insert_Some [[<- <-]|[? Hj']]%lookup_insert_Some Hp Hp';
      [done|done|done|eauto].
  - intros j r [[<- <-]|[? Hj]]%lookup_insert_Some; [done|eauto].
Qed.

(** A nickname changes neither the tree, nor the counter, nor what is held. *)
Lemma nickname_effect choose (rg : AgentRegistry ThreadId) r names preferred reg' r' res :
  reserve_agent_nickname_with_preference choose rg r names preferred = (reg', r', res) ->
  tree reg' = tree rg /\ total_count reg' = total_count rg /\
  active r' = active r /\ reserved_agent_path r' = reserved_agent_path r.
Proof.
  unfold reserve_agent_nickname_with_preference, reserve_agent_nickname. intros Hn.
  repeat case_match; simplify_eq; done.
Qed.

Lemma wf_nickname s i r choose names preferred reg' r' res :
  live s !! i = Some r ->
  reserve_agent_nickname_with_preference choose (reg s) r names preferred = (reg', r', res) ->
  wf s -> wf (mkSession reg' (<[i := r']> (live s))).
Proof.
  intros Hi (Ht & Hc & Ha & Hp)%nickname_effect. apply wf_ext; simpl; try done.
  - intros j. destruct (decide (i = j)) as [<-|].
    + rewrite lookup_insert_eq, Hi. simpl. by rewrite Ha, Hp.
    + by rewrite lookup_insert_ne.
  - by apply map_size_insert_Some; rewrite Hi.
Qed.

Lemma wf_path s i r p reg' r' res :
  live s !! i = Some r -> reserved_agent_path r = None -> valid p -> is_root p = false ->
  reservation_reserve_path (reg s) r p = (reg', r', res) ->
  wf s -> wf (mkSession reg' (<[i := r']> (live s))).
Proof.
  intros Hi Hnone Hv Hroot Hr. unfold reservation_reserve_path, reserve_agent_path in Hr.
  destruct (tree (reg s) !! as_str p) as [m|] eqn:Et; simplify_eq.
  { rewrite insert_id by done. by destruct s. }
  intros [S I K P H U A]. split; cbn [reg live]; rewrite ?tree_set, ?total_set.
  - rewrite S, !occupied_eq. cbn [reg live]. rewrite tree_set.
    rewrite map_size_insert_Some by (by rewrite Hi). by rewrite count_insert by done.
  - intros k k' m m' t [[<- <-]|[? Hk]]%lookup_insert_Some; [done|].
    intros [[<- <-]|[? Hk']]%lookup_insert_Some; [done|]. eauto.
  - intros k m [[<- <-]|[? Hk]]%lookup_insert_Some; [done|]. by apply K.
  - intros k m [[<- <-]|[? Hk]]%lookup_insert_Some Hm.
    + exists i. rewrite lookup_insert_eq. eauto 6.
    + destruct (P k m Hk Hm) as (j & r2 & q & Hj & Hq & ->).
      exists j, r2, q. rewrite lookup_insert_ne by congruence. done.
  - intros j r2 q [[<- <-]|[? Hj]]%lookup_insert_Some Hq; simpl in *.
    + injection Hq as <-. by rewrite lookup_insert_eq.
    + destruct (H j r2 q Hj Hq) as [Hq' ?].
      rewrite lookup_insert_ne; [done|]. intros E. rewrite <- E in Hq'. congruence.
  - intros j j' r2 r3 q [[<- <-]|[? Hj]]%lookup_insert_Some [[<- <-]|[? Hj']]%lookup_insert_Some;
      simpl; intros Hp Hp'; simplify_eq; [done| | |by apply (U j j' r2 r3 q)].
    + destruct (H j' r3 q Hj' Hp') as [Hq _]. congruence.
    + destruct (H j r2 q Hj Hp) as [Hq _]. congruence.
  - intros j r2 [[<- <-]|[? Hj]]%lookup_insert_Some; simpl; eauto.
Qed.

Lemma thread_key_not_path p (t : ThreadId) : valid p -> as_str p <> $"thread:" ++ show_thread t.
Proof.
  intros Hv E. apply valid_spec in Hv as [Hm|(names & _ & Hb)].
  - rewrite Hm in E. discriminate E.
  - destruct (below_head names) as [r Hr]. rewrite Hb, Hr in E. discriminate E.
Qed.

(** Where a commit puts the agent: at its reserved path, or at a free key. *)
Lemma commit_key s i r m t :
  wf s -> live s !! i = Some r -> agent_id m = Some t -> ~ registered t (reg s) ->
  agent_path m = reserved_agent_path r ->
  match reserved_agent_path r with
  | Some p => tree_key show_thread m t = as_str p /\ tree (reg s) !! as_str p = Some (pending p) /\
              is_root p = false
  | None => tree (reg s) !! tree_key show_thread m t = None
  end.
Proof.
  intros [S I K P H U A] Hi Ht Hnew Hm. unfold tree_key. rewrite Hm.
  destruct (reserved_agent_path r) as [p|] eqn:Ep.
  - destruct (H i r p Hi Ep). done.
  - destruct (tree (reg s) !! _) as [m'|] eqn:E; [|done]. exfalso. specialize (K _ _ E).
    destruct (agent_path m') as [q|].
    + destruct K as [K Hv]. by apply (thread_key_not_path q t Hv).
    + destruct (agent_id m') as [t'|] eqn:Ei; [|done].
      apply app_inv_head in K. apply (inj show_thread) in K. subst t'.
      apply Hnew. by exists ($"thread:" ++ show_thread t), m'.
Qed.

Lemma commit_tree (rg : AgentRegistry ThreadId) r m t :
  agent_id m = Some t ->
  tree (commit show_thread rg r m) = <[tree_key show_thread m t := m]> (tree rg) /\
  total_count (commit show_thread rg r m) = total_count rg.
Proof. intros Ht. unfold commit, drop_reservation, register_spawned_thread. by rewrite Ht. Qed.

Lemma size_delete_live (l : gmap nat SpawnReservation) i r :
  l !! i = Some r -> size l = S (size (delete i l)).
Proof. intros Hi. by rewrite <- (insert_delete_id l i r Hi) at 1; rewrite map_size_insert_None by apply lookup_delete_eq. Qed.

(** A commit turns the slot of the reservation into that of the agent. *)
Lemma occupied_commit s i r m t :
  wf s -> live s !! i = Some r -> agent_id m = Some t -> ~ registered t (reg s) ->
  agent_path m = reserved_agent_path r ->
  occupied (mkSession (commit show_thread (reg s) r m) (delete i (live s))) = occupied s.
Proof.
  intros Hwf Hi Ht Hnew Hm. pose proof (commit_key s i r m t Hwf Hi Ht Hnew Hm) as Hkey.
  rewrite !occupied_eq. cbn [reg live]. rewrite (proj1 (commit_tree (reg s) r m t Ht)).
  rewrite (size_delete_live _ _ _ Hi).
  enough (count (<[tree_key show_thread m t := m]> (tree (reg s))) = S (count (tree (reg s)))) by lia.
  assert (counted m = true) as Hc.
  { unfold counted, is_root_agent. rewrite Ht, Hm.
    destruct (reserved_agent_path r) as [p|]; [|done]. by destruct Hkey as (_ & _ & ->). }
  destruct (reserved_agent_path r) as [p|].
  - destruct Hkey as (-> & Hp & _). rewrite (count_delete _ _ _ Hp). simpl.
    rewrite <- insert_delete_eq, count_insert by apply lookup_delete_eq. by rewrite Hc.
  - rewrite count_insert by done. by rewrite Hc.
Qed.

Lemma wf_commit s i r m t :
  live s !! i = Some r -> agent_id m = Some t -> ~ registered t (reg s) ->
  agent_path m = reserved_agent_path r ->
  wf s -> wf (mkSession (commit show_thread (reg s) r m) (delete i (live s))).
Proof.
  intros Hi Ht Hnew Hm Hwf. pose proof (commit_key s i r m t Hwf Hi Ht Hnew Hm) as Hkey.
  pose proof (occupied_commit s i r m t Hwf Hi Ht Hnew Hm) as Hocc.
  destruct (commit_tree (reg s) r m t Ht) as [Htree Htot]. destruct Hwf as [S I K P H U A].
  set (key := tree_key show_thread m t) in *.
  assert (forall k m', tree (reg s) !! k = Some m' -> agent_id m' = Some t -> False) as Hfresh.
  { intros k m' Hk Hid. apply Hnew. by exists k, m'. }
  split; cbn [reg live]; rewrite ?Htree, ?Htot.
  - by rewrite S, Hocc.
  - intros k k' m1 m2 t' [[<- <-]|[? Hk]]%lookup_insert_Some [[<- <-]|[? Hk']]%lookup_insert_Some
      Ht1 Ht2; [done| | |by eapply I]; exfalso; simplify_eq; eauto.
  - intros k m1 [[<- <-]|[? Hk]]%lookup_insert_Some; [|by apply K]. unfold key, tree_key. rewrite Hm, Ht.
    destruct (reserved_agent_path r) as [p|] eqn:Ep; [|done]. split; [done|].
    destruct Hkey as (_ & Hp & _). specialize (K _ _ Hp). simpl in K. by destruct K.
  - intros k m1 [[<- <-]|[? Hk]]%lookup_insert_Some Hid; [congruence|].
    destruct (P k m1 Hk Hid) as (j & r2 & q & Hj & Hq & ->). exists j, r2, q.
    split; [|done]. rewrite lookup_delete_ne; [done|]. intros <-. assert (r2 = r) as -> by congruence.
    rewrite Hq in Hkey. by destruct Hkey as (? & _).
  - intros j r2 q [Hne Hj]%lookup_delete_Some Hq. destruct (H j r2 q Hj Hq) as [Hp ?].
    split; [|done]. rewrite lookup_insert_ne; [done|]. intros E.
    destruct (reserved_agent_path r) as [p|] eqn:Ep.
    + destruct Hkey as (Hk & Hp' & _). rewrite Hk in E. rewrite E, Hp in Hp'.
      injection Hp' as <-. by apply Hne, (U i j r r2 q).
    + rewrite E in Hkey. congruence.
  - intros j j' r2 r3 q [? Hj]%lookup_delete_Some [? Hj']%lookup_delete_Some. by apply U.
  - intros j r2 [? Hj]%lookup_delete_Some. eauto.
Qed.

Lemma drop_tree s i r :
  wf s -> live s !! i = Some r ->
  tree (drop_reservation (reg s) r) =
    match reserved_agent_path r with
    | Some p => delete (as_str p) (tree (reg s))
    | None => tree (reg s)
    end /\
  total_count (drop_reservation (reg s) r) = wrap (total_count (reg s) + (usize_modulus - 1)).
Proof.
  intros [S I K P H U A] Hi. unfold drop_reservation. rewrite (A i r Hi).
  destruct (reserved_agent_path r) as [p|] eqn:Ep; [|done].
  destruct (H i r p Hi Ep) as [Hp _]. unfold release_reserved_agent_path. by rewrite Hp.
Qed.

Lemma occupied_drop s i r :
  wf s -> live s !! i = Some r ->
  S (occupied (mkSession (drop_reservation (reg s) r) (delete i (live s)))) = occupied s.
Proof.
  intros Hwf Hi. rewrite !occupied_eq. cbn [reg live].
  rewrite (proj1 (drop_tree s i r Hwf Hi)), (size_delete_live _ _ _ Hi).
  destruct (reserved_agent_path r) as [p|] eqn:Ep; [|done].
  destruct (held_pending s Hwf i r p Hi Ep) as [Hp _].
  rewrite (count_delete _ _ _ Hp). simpl. lia.
Qed.

Lemma wf_drop s i r :
  live s !! i = Some r -> wf s -> wf (mkSession (drop_reservation (reg s) r) (delete i (live s))).
Proof.
  intros Hi Hwf. destruct (drop_tree s i r Hwf Hi) as [Htree Htot].
  pose proof (occupied_drop s i r Hwf Hi) as Hocc.
  destruct Hwf as [S I K P H U A].
  assert (forall k m, tree (drop_reservation (reg s) r) !! k = Some m -> tree (reg s) !! k = Some m) as Hsub.
  { intros k m. rewrite Htree. destruct (reserved_agent_path r); [|done].
    by intros [_ ?]%lookup_delete_Some. }
  split; cbn [reg live]; rewrite ?Htot.
  - rewrite S, <- Hocc, Nat2N.inj_succ, <- N.add_1_r. apply wrap_pred.
  - intros k k' m m' t Hk Hk'. by apply I; apply Hsub.
  - intros k m Hk. by apply K, Hsub.
  - intros k m Hk Hm. destruct (P k m (Hsub _ _ Hk) Hm) as (j & r2 & q & Hj & Hq & ->).
    exists j, r2, q. split; [|done]. rewrite lookup_delete_ne; [done|]. intros <-.
    assert (r2 = r) as -> by congruence. rewrite Htree, Hq, lookup_delete_eq in Hk. done.
  - intros j r2 q [Hne Hj]%lookup_delete_Some Hq. destruct (H j r2 q Hj Hq) as [Hp ?].
    split; [|done]. rewrite Htree. destruct (reserved_agent_path r) as [p|] eqn:Ep; [|done].
    rewrite lookup_delete_ne; [done|]. intros E. destruct (H i r p Hi Ep) as [Hp' _].
    rewrite E, Hp in Hp'. injection Hp' as <-. by apply Hne, (U i j r r2 q).
  - intros j j' r2 r3 q [? Hj]%lookup_delete_Some [? Hj']%lookup_delete_Some. by apply U.
  - intros j r2 [? Hj]%lookup_delete_Some. eauto.
Qed.

Lemma release_tree (rg : AgentRegistry ThreadId) t :
  match find_entry t (tree rg) with
  | Some (k, m) =>
      tree (release_spawned_thread rg t) = delete k (tree rg) /\
      total_count (release_spawned_thread rg t) =
        if counted m then wrap (total_count rg + (usize_modulus - 1)) else total_count rg
  | None => release_spawned_thread rg t = rg
  end.
Proof.
  unfold release_spawned_thread. destruct (find_entry t (tree rg)) as [[k m]|] eqn:E; [|done].
  apply find_entry_Some in E as [-> Hid]. unfold counted. rewrite Hid.
  by destruct (is_root_agent m).
Qed.

Lemma occupied_release s t :
  occupied s =
  match find_entry t (tree (reg s)) with
  | Some (_, m) =>
      if counted m then S (occupied (mkSession (release_spawned_thread (reg s) t) (live s)))
      else occupied (mkSession (release_spawned_thread (reg s) t) (live s))
  | None => occupied (mkSession (release_spawned_thread (reg s) t) (live s))
  end.
Proof.
  pose proof (release_tree (reg s) t) as Hrel. rewrite !occupied_eq. cbn [reg live].
  destruct (find_entry t (tree (reg s))) as [[k m]|] eqn:E; [|by rewrite Hrel].
  apply find_entry_Some in E as [Hk _]. destruct Hrel as [-> _].
  rewrite (count_delete _ _ _ Hk). destruct (counted m); lia.
Qed.

Lemma wf_release s t :
  wf s -> wf (mkSession (release_spawned_thread (reg s) t) (live s)).
Proof.
  intros Hwf. pose proof (release_tree (reg s) t) as Hrel. pose proof (occupied_release s t) as Hocc.
  destruct (find_entry t (tree (reg s))) as [[k m]|] eqn:E; [|rewrite Hrel; by destruct s].
  apply find_entry_Some in E as [Hk Hid]. destruct Hrel as [Htree Htot].
  destruct Hwf as [S I K P H U A].
  split; cbn [reg live]; rewrite ?Htree, ?Htot; try done.
  - rewrite S, Hocc. destruct (counted m); [|done].
    rewrite Nat2N.inj_succ, <- N.add_1_r. apply wrap_pred.
  - intros k1 k2 m1 m2 t' [_ Hk1]%lookup_delete_Some [_ Hk2]%lookup_delete_Some. by apply I.
  - intros k1 m1 [_ Hk1]%lookup_delete_Some. by apply K.
  - intros k1 m1 [_ Hk1]%lookup_delete_Some. by apply P.
  - intros i r p Hi Hp. destruct (H i r p Hi Hp) as [Hp' ?]. split; [|done].
    rewrite lookup_delete_ne; [done|]. intros ->. rewrite Hp' in Hk. by injection Hk as <-.
Qed.

Lemma wf_root s t :
  ~ registered t (reg s) -> wf s -> wf (mkSession (register_root_thread (reg s) t) (live s)).
Proof.
  intros Hnew Hwf. unfold register_root_thread.
  destruct (tree (reg s) !! ROOT) as [m|] eqn:Er; [by destruct s|]. destruct Hwf as [S I K P H U A].
  assert (forall k m', tree (reg s) !! k = Some m' -> agent_id m' = Some t -> False) as Hfresh.
  { intros k m' Hk Hid. apply Hnew. by exists k, m'. }
  split; cbn [reg live]; rewrite ?tree_set, ?total_set; try done.
  - rewrite !occupied_eq, S. cbn [reg live]. by rewrite tree_set, count_insert.
  - intros k1 k2 m1 m2 t' [[<- <-]|[? Hk1]]%lookup_insert_Some [[<- <-]|[? Hk2]]%lookup_insert_Some
      Ht1 Ht2; [done| | |by eapply I]; exfalso; simplify_eq/=; eauto.
  - intros k m [[<- <-]|[? Hk]]%lookup_insert_Some; [done|by apply K].
  - intros k m [[<- <-]|[? Hk]]%lookup_insert_Some; [done|by apply P].
  - intros i r p Hi Hp. destruct (H i r p Hi Hp) as [Hp' ?]. split; [|done].
    rewrite lookup_insert_ne; [done|]. intros E. rewrite <- E in Hp'. congruence.
Qed.

Lemma wf_message s t message :
  wf s -> wf (mkSession (update_last_task_message (reg s) t message) (live s)).
Proof.
  intros Hwf. unfold update_last_task_message.
  destruct (find_entry t (tree (reg s))) as [[k m]|] eqn:E; [|by destruct s].
  apply find_entry_Some in E as [Hk Hid]. destruct Hwf as [S I K P H U A].
  split; cbn [reg live]; rewrite ?tree_set, ?total_set; try done.
  - rewrite !occupied_eq, S. cbn [reg live]. by rewrite tree_set, (count_replace _ _ m).
  - intros k1 k2 m1 m2 t' [[<- <-]|[? Hk1]]%lookup_insert_Some [[<- <-]|[? Hk2]]%lookup_insert_Some;
      simpl; intros ? ?; [done|by eapply I..].
  - intros k1 m1 [[<- <-]|[? Hk1]]%lookup_insert_Some; [exact (K k m Hk)|by apply K].
  - intros k1 m1 [[<- <-]|[? Hk1]]%lookup_insert_Some; [simpl; congruence|by apply P].
  - intros i r p Hi Hp. destruct (H i r p Hi Hp) as [Hp' ?]. split; [|done].
    rewrite lookup_insert_ne; [done|]. intros ->. rewrite Hp' in Hk. by injection Hk as <-.
Qed.

Lemma wf_step allowed s s' : step allowed s s' -> wf s -> wf s'.
Proof.
  destruct 1.
  - by eapply wf_reserve.
  - destruct max_threads as [m|]; [|done]. simpl in *. unfold try_increment_spawned in *.
    destruct (m <=? _)%N; simplify_eq. by destruct s.
  - by eapply wf_path.
  - by eapply wf_nickname.
  - by eapply wf_commit.
  - by apply wf_drop.
  - apply wf_release.
  - by apply wf_root.
  - apply wf_message.
Qed.

Lemma wf_reachable allowed s : rtc (step allowed) start s -> wf s.
Proof.
  intros Hr. remember start as s0 eqn:E. assert (wf s0) as Hw by (subst; apply wf_start). clear E.
  induction Hr as [|s1 s2 s3 Hs Hr IH]; [done|]. by eapply IH, wf_step.
Qed.

Lemma count_live (rg : AgentRegistry ThreadId) : count (tree rg) = length (live_agents rg).
Proof.
  unfold live_agents. induction (tree rg) as [|k m t Hk IH] using map_ind; [done|].
  assert ((map_to_list (<[k := m]> t)).*2 ≡ₚ ((k, m) :: map_to_list t).*2) as Hp
    by (by rewrite map_to_list_insert).
  rewrite count_insert, IH, (Permutation_length (filterb_perm counted _ _ Hp)) by done.
  simpl. by destruct (counted m).
Qed.

(** ** The limit *)

Lemma occupied_step max s s' :
  wf s -> step (eq (Some max)) s s' ->
  (N.of_nat (occupied s) <= max)%N -> (max < usize_modulus)%N -> (N.of_nat (occupied s') <= max)%N.
Proof.
  intros Hwf Hs Hle Hmax.
  assert (total_count (reg s) = N.of_nat (occupied s)) as Htot.
  { rewrite (slots_ok s Hwf). apply wrap_small. lia. }
  destruct Hs as [s m reg' r i Ha _ Hi Hr|s m reg' e Ha Hr|s i r p reg' r' res Hi Hn Hv Hroot Hr
    |s i r ch names pref reg' r' res Hi Hr|s i r m t Hi Ht Hnew Hm|s i r Hi|s t|s t Hnew|s t msg].
  - subst m. simpl in Hr. unfold try_increment_spawned in Hr.
    destruct (N.leb_spec max (total_count (reg s))) as [|Hlt]; [done|]. injection Hr as <- <-.
    rewrite occupied_eq in *. cbn [reg live]. rewrite map_size_insert_None by done.
    unfold tree in *. simpl in *. lia.
  - subst m. simpl in Hr. unfold try_increment_spawned in Hr.
    destruct (max <=? _)%N; [|done]. by injection Hr as <- <-.
  - enough (occupied (mkSession reg' (<[i := r']> (live s))) = occupied s) by lia.
    unfold reservation_reserve_path, reserve_agent_path in Hr.
    destruct (tree (reg s) !! as_str p) as [m|] eqn:Et; simplify_eq.
    { rewrite insert_id by done. done. }
    rewrite !occupied_eq. cbn [reg live]. rewrite tree_set, count_insert by done. simpl.
    by rewrite map_size_insert_Some by (by rewrite Hi).
  - apply nickname_effect in Hr as (Ht & _). rewrite !occupied_eq in *. cbn [reg live]. rewrite Ht.
    by rewrite map_size_insert_Some by (by rewrite Hi).
  - by rewrite (occupied_commit s i r m t).
  - pose proof (occupied_drop s i r Hwf Hi). lia.
  - pose proof (occupied_release s t) as Ho.
    destruct (find_entry t (tree (reg s))) as [[k m]|]; [destruct (counted m)|]; lia.
  - rewrite !occupied_eq in *. cbn [reg live]. unfold register_root_thread.
    destruct (tree (reg s) !! ROOT) eqn:E; [done|]. rewrite tree_set. by rewrite count_insert by done.
  - rewrite !occupied_eq in *. cbn [reg live]. unfold update_last_task_message.
    destruct (find_entry t (tree (reg s))) as [[k m]|] eqn:E; [|done].
    apply find_entry_Some in E as [Hk _]. rewrite tree_set. by rewrite (count_replace _ _ m).
Qed.

Lemma nickname_drop_tree s i r choose names preferred reg' r' res :
  wf s -> live s !! i = Some r ->
  reserve_agent_nickname_with_preference choose (reg s) r names preferred = (reg', r', res) ->
  wf (mkSession reg' (<[i := r']> (live s))) /\
  tree (drop_reservation reg' r') = tree (drop_reservation (reg s) r).
Proof.
  intros Hwf Hi Hn. pose proof (wf_nickname _ _ _ _ _ _ _ _ _ Hi Hn Hwf) as Hwf'. split; [done|].
  pose proof (proj1 (drop_tree _ i r' Hwf' (lookup_insert_eq _ _ _))) as H1. cbn [reg] in H1.
  rewrite H1, (proj1 (drop_tree _ i r Hwf Hi)).
  by apply nickname_effect in Hn as (-> & _ & _ & ->).
Qed.

(** What a preparation does to the tree is undone by dropping the reservation. *)
Lemma prepare_effect choose s i names parent depth path role preferred reg2 r2 res :
  wf s -> live s !! i = Some (mkReservation true None None) ->
  (depth = 1%Z -> tree (reg s) !! ROOT <> None) ->
  match path with Some p => valid p /\ is_root p = false | None => True end ->
  prepare_thread_spawn choose (reg s) (mkReservation true None None) names parent depth path role
    preferred = (reg2, r2, res) ->
  wf (mkSession reg2 (<[i := r2]> (live s))) /\
  tree (drop_reservation reg2 r2) = tree (reg s).
Proof.
  intros Hwf Hi Hd Hpath. unfold prepare_thread_spawn.
  assert ((if (depth =? 1)%Z then register_root_thread (reg s) parent else reg s) = reg s) as ->.
  { destruct (Z.eqb_spec depth 1) as [E|]; [|done]. specialize (Hd E). unfold register_root_thread.
    by destruct (tree (reg s) !! ROOT). }
  set (r := mkReservation true None None) in *.
  destruct path as [p|].
  - destruct (reservation_reserve_path (reg s) r p) as [[rg r1] res1] eqn:Ep.
    destruct Hpath as [Hv Hroot]. pose proof (wf_path _ _ _ _ _ _ _ Hi eq_refl Hv Hroot Ep Hwf) as Hwf1.
    pose proof (proj1 (drop_tree _ i r1 Hwf1 (lookup_insert_eq _ _ _))) as Hdt. cbn [reg] in Hdt.
    assert (tree (drop_reservation rg r1) = tree (reg s)) as Hd1.
    { rewrite Hdt. unfold reservation_reserve_path, reserve_agent_path in Ep.
      destruct (tree (reg s) !! as_str p) eqn:Et; simplify_eq/=; [done|].
      rewrite tree_set. by apply delete_insert_id. }
    destruct res1 as [[]|e]; [|by intros [= <- <- <-]].
    destruct (reserve_agent_nickname_with_preference _ _ _ _ _) as [[rg' r1'] [nick|e]] eqn:En;
      intros [= <- <- <-];
      destruct (nickname_drop_tree _ i _ _ _ _ _ _ _ Hwf1 (lookup_insert_eq _ _ _) En) as [H1 H2];
      cbn [reg live] in *; rewrite insert_insert_eq in H1; split; congruence.
  - destruct (reserve_agent_nickname_with_preference _ _ _ _ _) as [[rg' r1'] [nick|e]] eqn:En;
      intros [= <- <- <-];
      destruct (nickname_drop_tree s i _ _ _ _ _ _ _ Hwf Hi En) as [H1 H2]; split; done.
Qed.

(** ** Properties *)

(** Whatever the callers do and in whatever order, the counter of a session is the
    number of open reservations plus the number of registered agents other than the
    root; no two entries have the same thread; and a path without an agent is held
    by exactly one open reservation (so a path is never reserved forever). *)
Theorem slots_are_accounted allowed s :
  rtc (step allowed) start s ->
  total_count (reg s) = wrap (N.of_nat (size (live s) + length (live_agents (reg s)))) /\
  (forall k k' m m' t, tree (reg s) !! k = Some m -> tree (reg s) !! k' = Some m' ->
     agent_id m = Some t -> agent_id m' = Some t -> k = k') /\
  (forall k m, tree (reg s) !! k = Some m -> agent_id m = None ->
     exists! i, exists r p, live s !! i = Some r /\ reserved_agent_path r = Some p /\ k = as_str p).
Proof.
  intros Hr%wf_reachable. split_and!.
  - rewrite (slots_ok s Hr), occupied_eq. do 3 f_equal. apply count_live.
  - exact (ids_unique s Hr).
  - intros k m Hk Hm. destruct (pending_held s Hr k m Hk Hm) as (i & r & p & Hi & Hp & ->).
    exists i. split; [eauto|]. intros j (r' & p' & Hj & Hp' & E).
    destruct (held_pending s Hr i r p Hi Hp) as [H1 _], (held_pending s Hr j r' p' Hj Hp') as [H2 _].
    rewrite E, H2 in H1. injection H1 as ->. by apply (held_unique s Hr i j r r' p).
Qed.

(** A spawn that fails after its preparation leaves no trace but the nickname it
    took: once the root is registered, dropping the reservation gives back the slot
    and the path. *)
Theorem dropped_reservation_is_undone choose s max_threads reg1 r names parent depth path role
    preferred reg2 r2 res :
  wf s -> fits max_threads -> (depth = 1%Z -> tree (reg s) !! ROOT <> None) ->
  match path with Some p => valid p /\ is_root p = false | None => True end ->
  reserve_spawn_slot (reg s) max_threads = (reg1, Ok r) ->
  prepare_thread_spawn choose reg1 r names parent depth path role preferred = (reg2, r2, res) ->
  tree (drop_reservation reg2 r2) = tree (reg s) /\
  total_count (drop_reservation reg2 r2) = total_count (reg s).
Proof.
  intros Hwf Hfit Hd Hpath Hres Hprep. set (i := fresh (dom (live s))).
  assert (live s !! i = None) as Hi by (apply not_elem_of_dom, is_fresh). clearbody i.
  pose proof (wf_reserve s max_threads reg1 r i Hfit Hi Hres Hwf) as Hwf1.
  assert (tree reg1 = tree (reg s) /\ r = mkReservation true None None) as [Ht1 ->].
  { destruct max_threads as [m|]; simpl in Hres; [|by injection Hres as <- <-].
    unfold try_increment_spawned in Hres. by destruct (_ <=? _)%N; simplify_eq. }
  assert (wf (mkSession reg2 (<[i := r2]> (live s))) /\
          tree (drop_reservation reg2 r2) = tree (reg s)) as [Hwf2 Htree].
  { rewrite <- Ht1 in *.
    pose proof (prepare_effect choose _ i names parent depth path role preferred reg2 r2 res Hwf1
                  (lookup_insert_eq _ _ _) Hd Hpath Hprep) as Hp.
    cbn [reg live] in Hp. by rewrite insert_insert_eq in Hp. }
  split; [done|].
  pose proof (wf_drop (mkSession reg2 (<[i := r2]> (live s))) i r2 (lookup_insert_eq _ _ _) Hwf2) as Hwf3.
  pose proof (slots_ok _ Hwf3) as Htot. rewrite occupied_eq in Htot. cbn [reg live] in Htot.
  by rewrite Htot, Htree, delete_insert_id, (slots_ok s Hwf), occupied_eq.
Qed.

(** When every spawn of a session passes the same limit, the agents other than the
    root and the spawns in progress together never exceed it. *)
Theorem agent_limit_is_respected max s :
  (max < usize_modulus)%N -> rtc (step (eq (Some max))) start s ->
  (N.of_nat (size (live s) + length (live_agents (reg s))) <= max)%N.
Proof.
  intros Hmax Hr. rewrite <- count_live, <- occupied_eq.
  assert (wf s /\ (N.of_nat (occupied s) <= max)%N) as [_ ?]; [|done].
  remember start as s0 eqn:E.
  assert (wf s0 /\ (N.of_nat (occupied s0) <= max)%N) as Hs0.
  { subst. split; [apply wf_start|]. vm_compute. by destruct max. }
  clear E. induction Hr as [|s1 s2 s3 Hs Hr IH]; [done|]. apply IH. destruct Hs0 as [Hw Hle].
  split; [by eapply wf_step|by eapply occupied_step].
Qed.

End session.

(** ** The loop of [try_increment_spawned], one atomic operation at a time *)

Inductive worker :=
| Begin
| Looping (current : N)
| Returned (incremented : bool).
Record Race := mkRace { shared : N; workers : list worker; released : nat }.

(** A load, the test and the exchange of the loop ([compare_exchange_weak] may fail
    without cause), and a slot given back by a thread outside. *)
Inductive cas_step (max_threads : N) : Race -> Race -> Prop :=
| cas_load c ws n i :
    ws !! i = Some Begin ->
    cas_step max_threads (mkRace c ws n) (mkRace c (<[i := Looping c]> ws) n)
| cas_full c ws n i current :
    ws !! i = Some (Looping current) -> (max_threads <= current)%N ->
    cas_step max_threads (mkRace c ws n) (mkRace c (<[i := Returned false]> ws) n)
| cas_exchange c ws n i :
    ws !! i = Some (Looping c) -> (c < max_threads)%N ->
    cas_step max_threads (mkRace c ws n) (mkRace (c + 1) (<[i := Returned true]> ws) n)
| cas_retry c ws n i current :
    ws !! i = Some (Looping current) -> (current < max_threads)%N ->
    cas_step max_threads (mkRace c ws n) (mkRace c (<[i := Looping c]> ws) n)
| cas_release c ws n :
    (0 < c)%N -> cas_step max_threads (mkRace c ws n) (mkRace (c - 1) ws (S n)).

Definition is_success (w : worker) : bool :=
  match w with Returned true => true | _ => false end.
Definition successes (ws : list worker) : nat := length (List.filter is_success ws).

Lemma successes_insert ws i w w' :
  ws !! i = Some w -> is_success w = false ->
  successes (<[i := w']> ws) = successes ws + (if is_success w' then 1 else 0).
Proof.
  intros Hi Hw. unfold successes. rewrite <- (take_drop_middle ws i w Hi) at 2.
  rewrite insert_take_drop by (by eapply lookup_lt_Some).
  rewrite !List.filter_app, !length_app. simpl. rewrite Hw. destruct (is_success w'); simpl; lia.
Qed.

(** What has been read is never above what was ever taken. *)
Record race_inv (max c0 : N) (s : Race) : Prop := mkRaceInv {
  race_bound : (shared s <= max)%N;
  race_count : (shared s + N.of_nat (released s) = c0 + N.of_nat (successes (workers s)))%N;
  race_read i c : workers s !! i = Some (Looping c) -> (c <= shared s + N.of_nat (released s))%N;
  race_refused i : workers s !! i = Some (Returned false) ->
    (max <= shared s + N.of_nat (released s))%N
}.

(** A worker moves from [w] to [w'], the counter from [c] to [c']. *)
Lemma race_move max c0 c c' ws n i w w' :
  race_inv max c0 (mkRace c ws n) -> ws !! i = Some w -> is_success w = false ->
  (c <= c' <= max)%N -> (c' = c + (if is_success w' then 1 else 0))%N ->
  (forall cur, w' = Looping cur -> (cur <= c' + N.of_nat n)%N) ->
  (w' = Returned false -> (max <= c' + N.of_nat n)%N) ->
  race_inv max c0 (mkRace c' (<[i := w']> ws) n).
Proof.
  intros [B C R F] Hi Hw [Hle Hmax] Hc HR HF. simpl in *. split; simpl.
  - done.
  - rewrite (successes_insert _ _ _ _ Hi Hw). destruct (is_success w'); lia.
  - intros j cur [(_ & Hw' & _)|[? Hj]]%list_lookup_insert_Some; [by apply HR|].
    specialize (R j cur Hj). lia.
  - intros j [(_ & Hw' & _)|[? Hj]]%list_lookup_insert_Some; [by apply HF|].
    specialize (F j Hj). lia.
Qed.

Lemma race_step max c0 s s' : cas_step max s s' -> race_inv max c0 s -> race_inv max c0 s'.
Proof.
  destruct 1 as [c ws n i Hi|c ws n i cur Hi Hle|c ws n i Hi Hlt|c ws n i cur Hi Hlt|c ws n Hpos];
    intros Hinv; pose proof Hinv as [B C R F]; simpl in *.
  - eapply race_move; try done; simpl; try lia. intros cur [= <-]. lia.
  - specialize (R i cur Hi). eapply race_move; try done; simpl; try lia.
  - eapply race_move; try done; simpl; lia.
  - eapply race_move; try done; simpl; try lia. intros ? [= <-]. lia.
  - split; simpl; try lia.
    + intros i cur Hi. specialize (R i cur Hi). lia.
    + intros i Hi. specialize (F i Hi). lia.
Qed.

Lemma successes_begin n : successes (replicate n Begin) = 0.
Proof. by induction n. Qed.

(** C39: Any number of threads that run the loop at the same time, while others give
    slots back, never push the counter above the limit; the counter is what it was
    plus the successes minus what was given back; and as long as nothing is given
    back a thread is refused only when the limit is reached. *)
Theorem concurrent_increments_respect_limit max c0 n s :
  (c0 <= max)%N -> rtc (cas_step max) (mkRace c0 (replicate n Begin) 0) s ->
  (shared s <= max)%N /\
  (shared s + N.of_nat (released s) = c0 + N.of_nat (successes (workers s)))%N /\
  (released s = 0 -> Returned false ∈ workers s -> shared s = max).
Proof.
  intros Hc Hr.
  assert (race_inv max c0 s) as [B C R F].
  { remember (mkRace c0 (replicate n Begin) 0) as s0 eqn:E.
    assert (race_inv max c0 s0) as H0.
    { subst. split; simpl; [done|by rewrite successes_begin| |];
        intros i; [intros c|]; by intros [? _]%lookup_replicate. }
    clear E. induction Hr as [|s1 s2 s3 Hs Hr IH]; [done|]. by apply IH, (race_step max c0 s1). }
  split_and!; [done..|]. intros Hn [i Hi]%list_elem_of_lookup. specialize (F i Hi). lia.
Qed.

(** Alone, the loop does what [try_increment_spawned] says. *)
Lemma loop_alone {ThreadId} (rg : AgentRegistry ThreadId) max :
  let '(rg', b) := try_increment_spawned rg max in
  rtc (cas_step max) (mkRace (total_count rg) [Begin] 0)
    (mkRace (total_count rg') [Returned b] 0).
Proof.
  unfold try_increment_spawned. destruct (N.leb_spec max (total_count rg)) as [Hle|Hlt].
  - eapply rtc_l; [by apply (cas_load _ _ _ _ 0)|]. simpl.
    eapply rtc_l; [by apply (cas_full _ _ _ _ 0 (total_count rg))|]. simpl. done.
  - eapply rtc_l; [by apply (cas_load _ _ _ _ 0)|]. simpl.
    eapply rtc_l; [by apply (cas_exchange _ _ _ _ 0)|]. simpl. done.
Qed.

(** ** Witnesses: an agent [/root/worker] is spawned with a limit of two *)

Definition demo_path : AgentPath := mkAgentPath $"/root/worker".
Definition demo_metadata : AgentMetadata str :=
  mkMetadata (Some $"t1") (Some demo_path) None None None.
Definition demo_reservation : SpawnReservation := mkReservation true None None.
Definition demo1 : Session (ThreadId := str) :=
  mkSession (mkRegistry (mkActive ∅ ∅ 0) 1) (<[0 := demo_reservation]> ∅).
Definition demo2 : Session (ThreadId := str) :=
  mkSession (set_tree (reg demo1) (<[as_str demo_path := pending demo_path]> ∅))
    (<[0 := mkReservation true None (Some demo_path)]> (live demo1)).
Definition demo3 : Session (ThreadId := str) :=
  mkSession (commit id (reg demo2) (mkReservation true None (Some demo_path)) demo_metadata)
    (delete 0 (live demo2)).

Lemma demo_run : rtc (step id (eq (Some 2%N))) start demo3.
Proof.
  eapply rtc_l; [apply (step_reserve id _ start (Some 2%N) (reg demo1) demo_reservation 0); done|].
  eapply rtc_l.
  { apply (step_path id _ demo1 0 demo_reservation demo_path (reg demo2)
             (mkReservation true None (Some demo_path)) (Ok tt)); try done; vm_compute; reflexivity. }
  eapply rtc_l; [|apply rtc_refl].
  apply (step_commit id _ demo2 0 (mkReservation true None (Some demo_path)) demo_metadata $"t1");
    try done; try (vm_compute; reflexivity).
  intros (k & m & Hk & Hid). unfold demo2, tree, set_tree in Hk. simpl in Hk.
  apply lookup_insert_Some in Hk as [[_ <-]|[_ Hk]]; [done|]. by rewrite lookup_empty in Hk.
Qed.

Lemma slots_are_accounted_witness :
  total_count (reg demo3) =
    wrap (N.of_nat (size (live demo3) + length (live_agents (reg demo3)))).
Proof. apply (slots_are_accounted id (eq (Some 2%N)) demo3 demo_run). Defined.

Lemma agent_limit_is_respected_witness :
  (N.of_nat (size (live demo3) + length (live_agents (reg demo3))) <= 2)%N.
Proof. apply (agent_limit_is_respected id 2%N demo3); [done|exact demo_run]. Defined.

Lemma dropped_reservation_is_undone_witness :
  exists reg2 r2 res,
    prepare_thread_spawn (@head str)
      (mkRegistry (active_agents (reg demo3)) 2) demo_reservation
      [$"Ada"] $"root" 2 (Some (mkAgentPath $"/root/worker/helper")) None None = (reg2, r2, res) /\
    tree (drop_reservation reg2 r2) = tree (reg demo3) /\
    total_count (drop_reservation reg2 r2) = total_count (reg demo3).
Proof.
  destruct (prepare_thread_spawn (@head str) (mkRegistry (active_agents (reg demo3)) 2)
    demo_reservation [$"Ada"] $"root" 2 (Some (mkAgentPath $"/root/worker/helper")) None None)
    as [[reg2 r2] res] eqn:E.
  exists reg2, r2, res. split; [reflexivity|].
  apply (dropped_reservation_is_undone id (@head str) demo3 (Some 5%N)
           (mkRegistry (active_agents (reg demo3)) 2) demo_reservation [$"Ada"] $"root" 2
           (Some (mkAgentPath $"/root/worker/helper")) None None reg2 r2 res).
  - apply (wf_reachable id (eq (Some 2%N))), demo_run.
  - done.
  - done.
  - split; vm_compute; reflexivity.
  - vm_compute; reflexivity.
  - exact E.
Defined.

Lemma concurrent_increments_respect_limit_witness :
  (2 <= 2)%N /\ successes [Returned true; Returned false] = 1.
Proof.
  destruct (concurrent_increments_respect_limit 2 1 2 (mkRace 2 [Returned true; Returned false] 0))
    as (Hb & Hc & _); [done| |split; [exact Hb|reflexivity]].
  eapply rtc_l; [by apply (cas_load _ _ _ _ 0)|]. eapply rtc_l; [by apply (cas_load _ _ _ _ 1)|]. simpl.
  eapply rtc_l; [by apply (cas_exchange _ 1 _ _ 0)|]. simpl.
  eapply rtc_l; [by apply (cas_retry _ _ _ _ 1 1)|]. simpl.
  eapply rtc_l; [by apply (cas_full _ _ _ _ 1 2)|]. simpl. apply rtc_refl.
Defined.

End Registry.
