(* ===== verification/HeadTailBuffer.v ===== *)
(** The capped output buffer of command execution
    ([codex-rs/core/src/unified_exec/head_tail_buffer.rs]): the first half of the budget
    keeps the start of the output, the second half its end.  Counters are [usize]
    values with the saturating operations of the source. *)
From S2P Require Import Prelude Utf8.

Module HeadTail.

(** ** Definitions *)

Definition usize_max : N := (2 ^ 64 - 1)%N.
Definition saturating_add (a b : N) : N := N.min (a + b) usize_max.
Definition saturating_sub (a b : N) : N := (a - b)%N.
Definition len (chunk : Utf8.bytes) : N := N.of_nat (length chunk).

Record HeadTailBuffer := mkBuffer {
  max_bytes : N;
  head_budget : N;
  tail_budget : N;
  head : list Utf8.bytes;
  tail : list Utf8.bytes;
  head_bytes : N;
  tail_bytes : N;
  omitted_bytes : N
}.

Definition UNIFIED_EXEC_OUTPUT_MAX_BYTES : N := (1024 * 1024)%N.
Definition new (max_bytes : N) : HeadTailBuffer :=
  let head_budget := (max_bytes / 2)%N in
  let tail_budget := saturating_sub max_bytes head_budget in
  mkBuffer max_bytes head_budget tail_budget [] [] 0 0 0.
Definition default_buffer : HeadTailBuffer := new UNIFIED_EXEC_OUTPUT_MAX_BYTES.

Definition retained_bytes (b : HeadTailBuffer) : N := saturating_add (head_bytes b) (tail_bytes b).

Definition set_omitted (b : HeadTailBuffer) (n : N) : HeadTailBuffer :=
  mkBuffer (max_bytes b) (head_budget b) (tail_budget b) (head b) (tail b) (head_bytes b)
    (tail_bytes b) n.
Definition push_head (b : HeadTailBuffer) (chunk : Utf8.bytes) : HeadTailBuffer :=
  mkBuffer (max_bytes b) (head_budget b) (tail_budget b) (head b ++ [chunk]) (tail b)
    (saturating_add (head_bytes b) (len chunk)) (tail_bytes b) (omitted_bytes b).
Definition set_tail (b : HeadTailBuffer) (t : list Utf8.bytes) (bytes omitted : N) : HeadTailBuffer :=
  mkBuffer (max_bytes b) (head_budget b) (tail_budget b) (head b) t (head_bytes b) bytes omitted.

(** The loop of [trim_tail_to_budget]: the tail, its size and the omitted count. *)
Fixpoint trim_loop (excess : N) (t : list Utf8.bytes) (bytes omitted : N)
    : list Utf8.bytes * N * N :=
  if (0 <? excess)%N then
    match t with
    | front :: rest =>
        if (len front <=? excess)%N then
          trim_loop (excess - len front) rest (saturating_sub bytes (len front))
            (saturating_add omitted (len front))
        else
          (drop (N.to_nat excess) front :: rest, saturating_sub bytes excess,
           saturating_add omitted excess)
    | [] => (t, bytes, omitted)
    end
  else (t, bytes, omitted).
Definition trim_tail_to_budget (b : HeadTailBuffer) : HeadTailBuffer :=
  let excess := saturating_sub (tail_bytes b) (tail_budget b) in
  let '(t, bytes, omitted) := trim_loop excess (tail b) (tail_bytes b) (omitted_bytes b) in
  set_tail b t bytes omitted.

Definition push_to_tail (b : HeadTailBuffer) (chunk : Utf8.bytes) : HeadTailBuffer :=
  if (tail_budget b =? 0)%N then
    set_omitted b (saturating_add (omitted_bytes b) (len chunk))
  else if (tail_budget b <=? len chunk)%N then
    let start := saturating_sub (len chunk) (tail_budget b) in
    let kept := drop (N.to_nat start) chunk in
    let dropped := saturating_sub (len chunk) (len kept) in
    set_tail b [kept] (len kept)
      (saturating_add (saturating_add (omitted_bytes b) (tail_bytes b)) dropped)
  else
    trim_tail_to_budget
      (set_tail b (tail b ++ [chunk]) (saturating_add (tail_bytes b) (len chunk)) (omitted_bytes b)).

Definition push_chunk (b : HeadTailBuffer) (chunk : Utf8.bytes) : HeadTailBuffer :=
  if (max_bytes b =? 0)%N then
    set_omitted b (saturating_add (omitted_bytes b) (len chunk))
  else if (head_bytes b <? head_budget b)%N then
    let remaining_head := saturating_sub (head_budget b) (head_bytes b) in
    if (len chunk <=? remaining_head)%N then push_head b chunk
    else
      let head_part := take (N.to_nat remaining_head) chunk in
      let tail_part := drop (N.to_nat remaining_head) chunk in
      let b := match head_part with [] => b | _ => push_head b head_part end in
      push_to_tail b tail_part
  else push_to_tail b chunk.

Definition snapshot_chunks (b : HeadTailBuffer) : list Utf8.bytes := head b ++ tail b.
Definition to_bytes (b : HeadTailBuffer) : Utf8.bytes := concat (head b) ++ concat (tail b).
Definition drain_chunks (b : HeadTailBuffer) : HeadTailBuffer * list Utf8.bytes :=
  (mkBuffer (max_bytes b) (head_budget b) (tail_budget b) [] [] 0 0 0, head b ++ tail b).

(** ** What the buffer keeps of an output *)

Definition last_n (n : nat) (s : Utf8.bytes) : Utf8.bytes := drop (length s - n) s.
(** The output, cut in the middle. *)
Definition kept (max : N) (s : Utf8.bytes) : Utf8.bytes :=
  let h := N.to_nat (max / 2) in
  let t := N.to_nat max - h in
  take h s ++ last_n t (drop h s).

Lemma kept_short max s : (len s <= max)%N -> kept max s = s.
Proof.
  intros Hs. unfold kept, last_n, len in *. rewrite length_drop.
  replace (length s - _ - _) with 0; [by rewrite drop_0, take_drop|].
  pose proof (N.Div0.div_le_mono max max 2). nia.
Qed.

Lemma length_last_n n s : length (last_n n s) = min n (length s).
Proof. unfold last_n. rewrite length_drop. lia. Qed.
Lemma last_n_app n a b : last_n n (last_n n a ++ b) = last_n n (a ++ b).
Proof.
  unfold last_n. rewrite !length_app, length_drop.
  destruct (decide (length a <= n)) as [Hle|Hgt].
  - replace (length a - n) with 0 by lia. rewrite drop_0. f_equal. lia.
  - replace (a ++ b) with (take (length a - n) a ++ drop (length a - n) a ++ b)
      by (by rewrite app_assoc, take_drop).
    rewrite (drop_app_ge (take _ _)) by (rewrite length_take; lia). f_equal. rewrite length_take. lia.
Qed.
Lemma last_n_ge n s : length s <= n -> last_n n s = s.
Proof. intros H. unfold last_n. by replace (length s - n) with 0 by lia. Qed.
Lemma last_n_suffix n a b : n <= length b -> last_n n (a ++ b) = last_n n b.
Proof.
  intros H. unfold last_n. rewrite length_app, drop_app_ge by lia. f_equal. lia.
Qed.

(** ** The buffer after an output *)

Lemma bytes_len_app a b : len (a ++ b) = (len a + len b)%N.
Proof. unfold len. rewrite length_app. lia. Qed.
Lemma saturating_add_exact a b : (a + b <= usize_max)%N -> saturating_add a b = (a + b)%N.
Proof. unfold saturating_add. lia. Qed.

Lemma trim_loop_spec excess t bytes omitted :
  (excess <= len (concat t))%N -> bytes = len (concat t) -> (omitted + excess <= usize_max)%N ->
  let '(t', bytes', omitted') := trim_loop excess t bytes omitted in
  concat t' = drop (N.to_nat excess) (concat t) /\ bytes' = len (concat t') /\
  omitted' = (omitted + excess)%N.
Proof.
  revert excess bytes omitted; induction t as [|front rest IH]; intros excess bytes omitted He Hb Ho;
    simpl; destruct (N.ltb_spec 0 excess) as [Hpos|Hz].
  - unfold len in He. simpl in *. lia.
  - assert (excess = 0%N) as -> by lia. simpl. split_and!; [done|done|lia].
  - simpl in He. rewrite bytes_len_app in He.
    destruct (N.leb_spec (len front) excess) as [Hle|Hgt].
    + rewrite saturating_add_exact by lia.
      specialize (IH (excess - len front)%N (saturating_sub bytes (len front)) (omitted + len front)%N).
      destruct (trim_loop _ _ _ _) as [[t' b'] o'].
      destruct IH as (Hc & Hb' & Ho'); [lia| |lia|].
      { rewrite Hb. simpl. rewrite bytes_len_app. unfold saturating_sub. lia. }
      split_and!; [|done|lia]. rewrite Hc, drop_app_ge by (unfold len in *; lia).
      f_equal. unfold len. lia.
    + rewrite saturating_add_exact by lia. simpl.
      assert (N.to_nat excess <= length front) as Hf by (unfold len in *; lia).
      split_and!; [|rewrite Hb; simpl; rewrite !bytes_len_app; unfold saturating_sub, len in *;
                     rewrite length_drop; lia|done].
      by rewrite drop_app_le.
  - assert (excess = 0%N) as -> by lia. split_and!; [done|done|lia].
Qed.

Record holds (max : N) (s : Utf8.bytes) (b : HeadTailBuffer) : Prop := mkHolds {
  holds_max : max_bytes b = max;
  holds_head_budget : head_budget b = (max / 2)%N;
  holds_tail_budget : tail_budget b = (max - max / 2)%N;
  holds_head : concat (head b) = take (N.to_nat (max / 2)) s;
  holds_tail : concat (tail b) = last_n (N.to_nat (max - max / 2)) (drop (N.to_nat (max / 2)) s);
  holds_head_bytes : head_bytes b = len (concat (head b));
  holds_tail_bytes : tail_bytes b = len (concat (tail b));
  holds_omitted : (omitted_bytes b + head_bytes b + tail_bytes b = len s)%N
}.

Lemma holds_new max : holds max [] (new max).
Proof.
  unfold new, saturating_sub. split; simpl; try done; [by rewrite take_nil|].
  by rewrite drop_nil.
Qed.

(** The head is full: what comes goes to the tail. *)
Lemma holds_push_to_tail max s b chunk :
  holds max s b -> N.to_nat (max / 2) <= length s -> (len (s ++ chunk) <= usize_max)%N ->
  holds max (s ++ chunk) (push_to_tail b chunk).
Proof.
  intros [Hm Hh Ht Eh Et Bh Bt Ho] Hfull Hlen. rewrite bytes_len_app in Hlen.
  assert (take (N.to_nat (max / 2)) (s ++ chunk) = take (N.to_nat (max / 2)) s) as Etake
    by (by rewrite take_app_le).
  assert (drop (N.to_nat (max / 2)) (s ++ chunk) = drop (N.to_nat (max / 2)) s ++ chunk) as Edrop
    by (by rewrite drop_app_le).
  unfold push_to_tail. rewrite Ht.
  destruct (N.eqb_spec (max - max / 2) 0) as [Hz|Hnz]; [|destruct (N.leb_spec (max - max / 2) (len chunk)) as [Hbig|Hsmall]].
  - rewrite saturating_add_exact by lia.
    split; simpl; rewrite ?Etake, ?Edrop, ?bytes_len_app; try done; [|lia].
    rewrite Et, Hz. unfold last_n. by rewrite !Nat.sub_0_r, !drop_all.
  - set (kept := drop _ chunk).
    assert (len kept = (max - max / 2)%N) as Hk.
    { unfold kept, saturating_sub, len in *. rewrite length_drop. lia. }
    rewrite (saturating_add_exact (omitted_bytes b)) by lia.
    rewrite saturating_add_exact by (unfold saturating_sub; lia).
    split; simpl; rewrite ?Etake, ?Edrop, ?app_nil_r, ?bytes_len_app; try done.
    + rewrite last_n_suffix by (unfold len in *; lia). unfold kept, last_n, saturating_sub, len.
      f_equal. lia.
    + unfold saturating_sub. lia.
  - unfold trim_tail_to_budget, set_tail. cbn [tail_bytes tail_budget tail omitted_bytes].
    rewrite Ht. rewrite saturating_add_exact by lia.
    pose proof (trim_loop_spec (saturating_sub (tail_bytes b + len chunk) (max - max / 2))
      (tail b ++ [chunk]) (tail_bytes b + len chunk) (omitted_bytes b)) as Htrim.
    destruct (trim_loop _ _ _ _) as [[t' b'] o'].
    assert (concat (tail b ++ [chunk]) = concat (tail b) ++ chunk) as Ec
      by (rewrite concat_app; simpl; by rewrite app_nil_r).
    rewrite Ec, bytes_len_app in Htrim.
    destruct Htrim as (Hc & Hb & Hom); [unfold saturating_sub; lia|by rewrite Bt|unfold saturating_sub; lia|].
    split; simpl; rewrite ?Etake, ?Edrop; try done.
    + rewrite <- last_n_app, <- Et, Hc. unfold last_n. f_equal.
      rewrite length_app. unfold saturating_sub, len in *. lia.
    + rewrite Hb, Hom, Hc, bytes_len_app. unfold saturating_sub, len in *. rewrite length_drop, length_app. lia.
Qed.

Lemma holds_push_head max s b chunk :
  holds max s b -> (len s + len chunk <= max / 2)%N -> (max / 2 <= usize_max)%N ->
  holds max (s ++ chunk) (push_head b chunk).
Proof.
  intros [Hm Hh Ht Eh Et Bh Bt Ho] Hfit Hmax.
  rewrite take_ge in Eh by (unfold len in *; lia). rewrite drop_ge in Et by (unfold len in *; lia).
  split; simpl; try done.
  - rewrite concat_app, Eh. simpl. rewrite app_nil_r, take_ge; [done|].
    rewrite length_app. unfold len in *. lia.
  - rewrite drop_ge; [done|]. rewrite length_app. unfold len in *. lia.
  - rewrite concat_app, bytes_len_app. simpl. rewrite app_nil_r, <- Bh. apply saturating_add_exact.
    rewrite Bh, Eh. lia.
  - rewrite saturating_add_exact, bytes_len_app by (rewrite Bh, Eh; lia). lia.
Qed.

Lemma holds_push max s b chunk :
  (max <= usize_max)%N -> holds max s b -> (len (s ++ chunk) <= usize_max)%N ->
  holds max (s ++ chunk) (push_chunk b chunk).
Proof.
  intros Hmax Hb Hlen. assert (max / 2 <= max)%N as Hhalf by (apply N.Div0.div_le_upper_bound; lia).
  pose proof Hb as [Hm Hh Ht Eh Et Bh Bt Ho]. unfold push_chunk. rewrite Hm, Hh.
  assert (len (concat (head b)) = N.min (max / 2) (len s)) as Lh.
  { rewrite Eh. unfold len. rewrite length_take. lia. }
  rewrite bytes_len_app in Hlen.
  destruct (N.eqb_spec max 0) as [->|Hnz].
  { rewrite saturating_add_exact by lia.
    split; simpl; rewrite ?bytes_len_app; try done; [by rewrite Et; simpl; unfold last_n; rewrite !Nat.sub_0_r, !drop_all|lia]. }
  destruct (N.ltb_spec (head_bytes b) (max / 2)) as [Hlt|Hge].
  - assert (len s < max / 2)%N as Hs by lia. unfold saturating_sub.
    assert (head_bytes b = len s) as Hbs by lia. rewrite Hbs.
    destruct (N.leb_spec (len chunk) (max / 2 - len s)) as [Hfit|Hbig].
    + apply holds_push_head; [done|lia|lia].
    + set (n := N.to_nat (max / 2 - len s)).
      rewrite <- (take_drop n chunk) at 1. rewrite app_assoc.
      assert (len (take n chunk) = (max / 2 - len s)%N) as Hn.
      { unfold n, len in *. rewrite length_take. lia. }
      assert (match take n chunk with [] => b | _ => push_head b (take n chunk) end =
              push_head b (take n chunk)) as ->.
      { destruct (take n chunk); [unfold len in Hn; simpl in Hn; unfold len in *; lia|done]. }
      apply holds_push_to_tail; [apply holds_push_head; [done|lia|lia]| |].
      * rewrite length_app. unfold len in *. lia.
      * rewrite <- app_assoc, take_drop, bytes_len_app. lia.
  - apply holds_push_to_tail; [done|unfold len in *; lia|rewrite bytes_len_app; lia].
Qed.

Lemma holds_chunks max chunks s b :
  (max <= usize_max)%N -> holds max s b -> (len (s ++ concat chunks) <= usize_max)%N ->
  holds max (s ++ concat chunks) (fold_left push_chunk chunks b).
Proof.
  intros Hmax. revert s b; induction chunks as [|c cs IH]; intros s b Hb Hl; simpl in *.
  - by rewrite app_nil_r.
  - rewrite app_assoc in *. apply IH; [|done]. apply holds_push; [done|done|].
    rewrite !bytes_len_app in *. lia.
Qed.

(** ** Properties *)

(** However an output is cut into chunks, the buffer keeps the first half of the
    budget from its start and the rest of the budget from its end (all of it when it
    fits); the byte count is that of what is kept, at most the budget, and the
    omitted count is exactly the rest of the output. *)
Theorem buffer_keeps_both_ends max chunks :
  (max <= usize_max)%N -> (len (concat chunks) <= usize_max)%N ->
  let b := fold_left push_chunk chunks (new max) in
  to_bytes b = kept max (concat chunks) /\ concat (snapshot_chunks b) = to_bytes b /\
  retained_bytes b = len (to_bytes b) /\ (len (to_bytes b) <= max)%N /\
  (omitted_bytes b + retained_bytes b = len (concat chunks))%N /\
  ((len (concat chunks) <= max)%N -> to_bytes b = concat chunks).
Proof.
  intros Hmax Hlen b.
  pose proof (holds_chunks max chunks [] (new max) Hmax (holds_new max) Hlen) as Hb.
  fold b in Hb. simpl in Hb. destruct Hb as [Hm Hh Ht Eh Et Bh Bt Ho].
  assert (max / 2 <= max)%N as Hhalf by (apply N.Div0.div_le_upper_bound; lia).
  assert (to_bytes b = kept max (concat chunks)) as Hk.
  { unfold to_bytes, kept. rewrite Eh, Et. by rewrite N2Nat.inj_sub. }
  assert (len (to_bytes b) <= max)%N as Hle.
  { unfold to_bytes. rewrite Eh, Et. unfold len. rewrite length_app, length_take, length_last_n. lia. }
  assert (retained_bytes b = len (to_bytes b)) as Hr.
  { unfold retained_bytes, to_bytes in *. rewrite bytes_len_app in *. rewrite saturating_add_exact; lia. }
  split_and!; [done|by unfold snapshot_chunks; rewrite concat_app|done|done| |].
  - rewrite Hr. unfold to_bytes. rewrite bytes_len_app. lia.
  - intros Hs. by rewrite Hk, kept_short.
Qed.

Lemma buffer_keeps_both_ends_witness :
  to_bytes (fold_left push_chunk [[1; 2; 3]; [4; 5]; [6]; [7; 8; 9]]%N (new 5)) = [1; 2; 7; 8; 9]%N.
Proof.
  destruct (buffer_keeps_both_ends 5 [[1; 2; 3]; [4; 5]; [6]; [7; 8; 9]]%N) as [H _];
    [vm_compute; discriminate..|]. exact H.
Defined.

End HeadTail.
