(* ===== verification/Truncate.v ===== *)
(** Truncation of long text: [utils/string/src/truncate.rs], the prefix function of
    [utils/string/src/lib.rs], the policies of [protocol/src/protocol.rs] and
    [utils/output-truncation/src/lib.rs].  Positions and lengths are in bytes; a slice
    at a position that is not a character boundary would panic and is [None]. *)
From S2P Require Import Prelude HeadTailBuffer.
From Stdlib Require Import SpecFloat.

Module Truncate.
Import HeadTail.

Definition saturating_mul (a b : N) : N := N.min (a * b) usize_max.

Definition APPROX_BYTES_PER_TOKEN : N := 4.

Definition approx_token_count (text : str) : N :=
  (saturating_add (Str.len text) (saturating_sub APPROX_BYTES_PER_TOKEN 1)
   / APPROX_BYTES_PER_TOKEN)%N.
Definition approx_bytes_for_tokens (tokens : N) : N :=
  saturating_mul tokens APPROX_BYTES_PER_TOKEN.
Definition approx_tokens_from_byte_count (bytes : N) : N :=
  (saturating_add bytes (saturating_sub APPROX_BYTES_PER_TOKEN 1) / APPROX_BYTES_PER_TOKEN)%N.

(** [&s[..n]] and [&s[n..]]. *)
Fixpoint split_at (n : N) (s : str) : option (str * str) :=
  if (n =? 0)%N then Some ([], s)
  else match s with
       | [] => None
       | c :: s' =>
           if (n <? Str.len_utf8 c)%N then None
           else '(a, b) ← split_at (n - Str.len_utf8 c)%N s'; Some (c :: a, b)
       end.

(** The loop over [char_indices] of [split_string]. *)
Record SplitState := mkSplit {
  prefix_end : N;
  suffix_start : N;
  removed_chars : N;
  suffix_started : bool;
}.
Definition split_step (beginning_bytes tail_start_target idx : N) (c : char) (st : SplitState)
    : SplitState :=
  let char_end := (idx + Str.len_utf8 c)%N in
  if (char_end <=? beginning_bytes)%N then
    mkSplit char_end (suffix_start st) (removed_chars st) (suffix_started st)
  else if (tail_start_target <=? idx)%N then
    if negb (suffix_started st) then mkSplit (prefix_end st) idx (removed_chars st) true
    else st
  else mkSplit (prefix_end st) (suffix_start st) (saturating_add (removed_chars st) 1)
         (suffix_started st).
Fixpoint split_loop (beginning_bytes tail_start_target idx : N) (s : str) (st : SplitState)
    : SplitState :=
  match s with
  | [] => st
  | c :: s' =>
      split_loop beginning_bytes tail_start_target (idx + Str.len_utf8 c) s'
        (split_step beginning_bytes tail_start_target idx c st)
  end.

(** Removed characters, the text before and the text after. *)
Definition split_string (s : str) (beginning_bytes end_bytes : N) : option (N * str * str) :=
  if Str.is_empty s then Some (0%N, [], [])
  else
    let len := Str.len s in
    let tail_start_target := saturating_sub len end_bytes in
    let st := split_loop beginning_bytes tail_start_target 0 s (mkSplit 0 len 0 false) in
    let suffix_start :=
      if (suffix_start st <? prefix_end st)%N then prefix_end st else suffix_start st in
    '(before, _) ← split_at (prefix_end st) s;
    '(_, after) ← split_at suffix_start s;
    Some (removed_chars st, before, after).

Definition split_budget (budget : N) : N * N := let l := (budget / 2)%N in (l, (budget - l)%N).

(** The ellipsis, U+2026. *)
Definition ellipsis : char := 8230%N.
Definition format_truncation_marker (use_tokens : bool) (removed_count : N) : str :=
  [ellipsis] ++ Str.show_N removed_count ++
  (if use_tokens then $" tokens truncated" else $" chars truncated") ++ [ellipsis].

Definition removed_units (use_tokens : bool) (removed_bytes removed_chars : N) : N :=
  if use_tokens then approx_tokens_from_byte_count removed_bytes else removed_chars.

Definition assemble_truncated_output (prefix suffix marker : str) : str := prefix ++ marker ++ suffix.

Definition truncate_with_byte_estimate (s : str) (max_bytes : N) (use_tokens : bool) : option str :=
  if Str.is_empty s then Some []
  else
    let total_chars := N.of_nat (length s) in
    if (max_bytes =? 0)%N then
      Some (format_truncation_marker use_tokens (removed_units use_tokens (Str.len s) total_chars))
    else if (Str.len s <=? max_bytes)%N then Some s
    else
      let total_bytes := Str.len s in
      let '(left_budget, right_budget) := split_budget max_bytes in
      '(removed, before, after) ← split_string s left_budget right_budget;
      let marker :=
        format_truncation_marker use_tokens
          (removed_units use_tokens (saturating_sub total_bytes max_bytes) removed) in
      Some (assemble_truncated_output before after marker).

Definition truncate_middle_chars (s : str) (max_bytes : N) : option str :=
  truncate_with_byte_estimate s max_bytes false.

Definition truncate_middle_with_token_budget (s : str) (max_tokens : N)
    : option (str * option N) :=
  if Str.is_empty s then Some ([], None)
  else if (0 <? max_tokens)%N && (Str.len s <=? approx_bytes_for_tokens max_tokens)%N
  then Some (s, None)
  else
    truncated ← truncate_with_byte_estimate s (approx_bytes_for_tokens max_tokens) true;
    let total_tokens := approx_token_count s in
    if bool_decide (truncated = s) then Some (truncated, None)
    else Some (truncated, Some total_tokens).

(** [take_bytes_at_char_boundary]. *)
Fixpoint take_loop (maxb idx last_ok : N) (s : str) : N :=
  match s with
  | [] => last_ok
  | c :: s' =>
      let nb := (idx + Str.len_utf8 c)%N in
      if (maxb <? nb)%N then last_ok else take_loop maxb nb nb s'
  end.
Definition take_bytes_at_char_boundary (s : str) (maxb : N) : option str :=
  if (Str.len s <=? maxb)%N then Some s
  else fst <$> split_at (take_loop maxb 0 0 s) s.

(** ** Policies *)

Inductive TruncationPolicy := Bytes (n : N) | Tokens (n : N).

Definition token_budget (p : TruncationPolicy) : N :=
  match p with Bytes bytes => approx_tokens_from_byte_count bytes | Tokens tokens => tokens end.
Definition byte_budget (p : TruncationPolicy) : N :=
  match p with Bytes bytes => bytes | Tokens tokens => approx_bytes_for_tokens tokens end.

(** [f64]: conversion from [usize], the product, [ceil], and the saturating cast back. *)
Definition f64_of (n : N) : spec_float := binary_normalize 53 1024 (Z.of_N n) 0 false.
Definition f64_mul (x y : spec_float) : spec_float := SFmul 53 1024 x y.
Definition f64_ceil_to_usize (x : spec_float) : N :=
  match x with
  | S754_finite false m e =>
      N.min usize_max
        (if (0 <=? e)%Z then Z.to_N (Zpos m * 2 ^ e)
         else Z.to_N ((Zpos m + (2 ^ (- e) - 1)) / 2 ^ (- e)))
  | S754_infinity false => usize_max
  | _ => 0
  end.
Definition policy_mul (p : TruncationPolicy) (multiplier : spec_float) : TruncationPolicy :=
  match p with
  | Bytes bytes => Bytes (f64_ceil_to_usize (f64_mul (f64_of bytes) multiplier))
  | Tokens tokens => Tokens (f64_ceil_to_usize (f64_mul (f64_of tokens) multiplier))
  end.

(** ** utils/output-truncation *)

Inductive ImageDetail := DetailAuto | DetailLow | DetailHigh | DetailOriginal.
Inductive FunctionCallOutputContentItem :=
| OutText (text : str)
| OutImage (image_url : str) (detail : option ImageDetail)
| OutEncrypted (encrypted_content : str).

Definition truncate_text (content : str) (policy : TruncationPolicy) : option str :=
  match policy with
  | Bytes bytes => truncate_middle_chars content bytes
  | Tokens tokens => fst <$> truncate_middle_with_token_budget content tokens
  end.

Definition formatted_truncate_text (content : str) (policy : TruncationPolicy) : option str :=
  if (Str.len content <=? byte_budget policy)%N then Some content
  else
    let total_lines := length (Str.lines content) in
    result ← truncate_text content policy;
    Some ($"Total output lines: " ++ Str.show_nat total_lines ++ [newline; newline] ++ result).

Definition item_text (item : FunctionCallOutputContentItem) : option str :=
  match item with OutText text => Some text | _ => None end.
Definition is_text (item : FunctionCallOutputContentItem) : bool :=
  match item with OutText _ => true | _ => false end.

(** The texts joined by a newline, except before the first non-empty one. *)
Definition combine_texts (texts : list str) : str :=
  fold_left (fun combined text =>
    (if negb (Str.is_empty combined) then combined ++ [newline] else combined) ++ text) texts [].

Definition formatted_truncate_text_content_items_with_policy
    (items : list FunctionCallOutputContentItem) (policy : TruncationPolicy)
    : option (list FunctionCallOutputContentItem * option N) :=
  match omap item_text items with
  | [] => Some (items, None)
  | text_segments =>
      let combined := combine_texts text_segments in
      if (Str.len combined <=? byte_budget policy)%N then Some (items, None)
      else
        text ← formatted_truncate_text combined policy;
        Some (OutText text :: List.filter (fun item => negb (is_text item)) items,
              Some (approx_token_count combined))
  end.

Definition with_budget (policy : TruncationPolicy) (n : N) : TruncationPolicy :=
  match policy with Bytes _ => Bytes n | Tokens _ => Tokens n end.
Definition text_cost (policy : TruncationPolicy) (text : str) : N :=
  match policy with Bytes _ => Str.len text | Tokens _ => approx_token_count text end.

(** The loop over the items: remaining budget, output, omitted text items. *)
Fixpoint truncate_items_loop (policy : TruncationPolicy) (items : list FunctionCallOutputContentItem)
    (remaining : N) (out : list FunctionCallOutputContentItem) (omitted : N)
    : option (list FunctionCallOutputContentItem * N) :=
  match items with
  | [] => Some (out, omitted)
  | OutText text :: items' =>
      if (remaining =? 0)%N then truncate_items_loop policy items' remaining out (omitted + 1)
      else
        let cost := text_cost policy text in
        if (cost <=? remaining)%N then
          truncate_items_loop policy items' (saturating_sub remaining cost) (out ++ [OutText text])
            omitted
        else
          snippet ← truncate_text text (with_budget policy remaining);
          if Str.is_empty snippet then truncate_items_loop policy items' 0 out (omitted + 1)
          else truncate_items_loop policy items' 0 (out ++ [OutText snippet]) omitted
  | item :: items' => truncate_items_loop policy items' remaining (out ++ [item]) omitted
  end.

Definition truncate_function_output_items_with_policy (items : list FunctionCallOutputContentItem)
    (policy : TruncationPolicy) : option (list FunctionCallOutputContentItem) :=
  let budget := match policy with Bytes _ => byte_budget policy | Tokens _ => token_budget policy end in
  '(out, omitted) ← truncate_items_loop policy items budget [] 0;
  Some (if (0 <? omitted)%N
        then out ++ [OutText ($"[omitted " ++ Str.show_N omitted ++ $" text items ...]")]
        else out).

Definition i64_max : Z := 2 ^ 63 - 1.
Definition i64_min : Z := - 2 ^ 63.
Definition approx_tokens_from_byte_count_i64 (bytes : Z) : Z :=
  if (bytes <=? 0)%Z then 0
  else Z.min (Z.of_N (approx_tokens_from_byte_count (Z.to_N bytes))) i64_max.

(** ** Lemmas *)

Lemma split_at_app a b : split_at (Str.len a) (a ++ b) = Some (a, b).
Proof.
  induction a as [|c a IH]; [by destruct b|].
  assert (Str.len (c :: a) = Str.len_utf8 c + Str.len a)%N as Hl by done.
  pose proof (Str.len_utf8_bounds c) as Hc. cbn [app split_at].
  destruct (N.eqb_spec (Str.len (c :: a)) 0); [lia|].
  destruct (N.ltb_spec (Str.len (c :: a)) (Str.len_utf8 c)); [lia|].
  replace (Str.len (c :: a) - Str.len_utf8 c)%N with (Str.len a) by lia. by rewrite IH.
Qed.

(** The longest prefix within a budget. *)
Lemma longest_prefix B s :
  exists before rest, s = before ++ rest /\ (Str.len before <= B)%N /\
    (forall c r, rest = c :: r -> (B < Str.len before + Str.len_utf8 c)%N).
Proof.
  revert B. induction s as [|c s IH]; intros B; [exists [], []; naive_solver lia|].
  destruct (N.le_gt_cases (Str.len_utf8 c) B) as [Hc|Hc].
  - destruct (IH (B - Str.len_utf8 c)%N) as (b & r & -> & Hb & Hr). exists (c :: b), r.
    split; [done|]. assert (Str.len (c :: b) = Str.len_utf8 c + Str.len b)%N as -> by done.
    split; [lia|]. intros d r' E. specialize (Hr d r' E). lia.
  - exists [], (c :: s). split_and!; [done|simpl; lia|]. intros d r [= <- <-]. simpl. lia.
Qed.

Lemma loop_prefix B T idx p rest ss rc b :
  (idx + Str.len p <= B)%N ->
  split_loop B T idx (p ++ rest) (mkSplit idx ss rc b) =
  split_loop B T (idx + Str.len p) rest (mkSplit (idx + Str.len p) ss rc b).
Proof.
  revert idx. induction p as [|c p IH]; intros idx H; [by rewrite N.add_0_r|].
  assert (Str.len (c :: p) = Str.len_utf8 c + Str.len p)%N as E by done. rewrite E in *.
  cbn [app split_loop]. unfold split_step. cbn [suffix_start removed_chars suffix_started].
  destruct (N.leb_spec (idx + Str.len_utf8 c) B); [|lia].
  rewrite IH by lia. by rewrite N.add_assoc.
Qed.

Lemma loop_suffix B T idx s st :
  (B <= idx)%N -> (T <= idx)%N -> suffix_started st = true -> split_loop B T idx s st = st.
Proof.
  revert idx. induction s as [|c s IH]; intros idx HB HT Hst; [done|].
  pose proof (Str.len_utf8_bounds c). cbn [split_loop]. unfold split_step.
  destruct (N.leb_spec (idx + Str.len_utf8 c) B); [lia|].
  destruct (N.leb_spec T idx); [|lia]. rewrite Hst. simpl. apply IH; [lia..|done].
Qed.

Lemma loop_middle B T idx s pe rc :
  (forall c r, s = c :: r -> (B < idx + Str.len_utf8 c)%N) ->
  (rc <= usize_max)%N ->
  exists mid after b, s = mid ++ after /\
    split_loop B T idx s (mkSplit pe (idx + Str.len s) rc false) =
    mkSplit pe (idx + Str.len mid) (N.min (rc + N.of_nat (length mid)) usize_max) b /\
    (after <> [] -> (T <= idx + Str.len mid)%N) /\
    (forall m c, mid = m ++ [c] -> (idx + Str.len m < T)%N).
Proof.
  revert idx rc. induction s as [|c s IH]; intros idx rc HB Hrc.
  { exists [], [], false. simpl. split_and!; try done; [f_equal; lia|]. intros m c E. by destruct m. }
  pose proof (Str.len_utf8_bounds c) as Hc. specialize (HB c s eq_refl).
  assert (Str.len (c :: s) = Str.len_utf8 c + Str.len s)%N as E by done.
  cbn [split_loop]. unfold split_step at 1. cbn [suffix_started removed_chars suffix_start prefix_end].
  destruct (N.leb_spec (idx + Str.len_utf8 c) B); [lia|]. destruct (N.leb_spec T idx).
  - exists [], (c :: s), true. cbn [negb]. rewrite loop_suffix by (lia || done).
    split_and!; [done|simpl; f_equal; lia|intros; simpl; lia|]. intros m d Em. by destruct m.
  - rewrite E, N.add_assoc. unfold saturating_add.
    destruct (IH (idx + Str.len_utf8 c)%N (N.min (rc + 1) usize_max)) as (mid & after & b & -> & -> & Ha & Hm).
    { intros d r _. pose proof (Str.len_utf8_bounds d). lia. }
    { lia. }
    exists (c :: mid), after, b. assert (Str.len (c :: mid) = Str.len_utf8 c + Str.len mid)%N as E' by done.
    rewrite E', length_cons. split_and!; [done|f_equal; lia|intros; specialize (Ha ltac:(done)); lia|].
    intros m d Em. destruct m as [|x m]; [simpl; lia|]. injection Em as <- Em.
    specialize (Hm m d Em). assert (Str.len (c :: m) = Str.len_utf8 c + Str.len m)%N as -> by done. lia.
Qed.

(** What [split_string] gives: the longest start and the longest end within the budgets. *)
Lemma split_string_spec s B R :
  s <> [] ->
  exists before mid after,
    s = before ++ mid ++ after /\
    split_string s B R = Some (N.min (N.of_nat (length mid)) usize_max, before, after) /\
    (Str.len before <= B)%N /\ (Str.len after <= R)%N /\
    (forall c m, mid = c :: m -> (B < Str.len before + Str.len_utf8 c)%N) /\
    (forall c m, mid = m ++ [c] -> (R < Str.len_utf8 c + Str.len after)%N).
Proof.
  intros Hne. destruct (longest_prefix B s) as (before & rest & -> & Hb & Hmaxb).
  destruct (loop_middle B (Str.len before + Str.len rest - R) (Str.len before) rest (Str.len before) 0)
    as (mid & after & b & -> & Hloop & Ha & Hm); [done|lia|].
  exists before, mid, after. split; [done|].
  rewrite !Str.len_app in *. split_and!; try done.
  - unfold split_string. destruct (Str.is_empty (before ++ mid ++ after)) eqn:E;
      [by apply Str.is_empty_spec in E|].
    unfold saturating_sub. rewrite !Str.len_app.
    pose proof (loop_prefix B (Str.len before + (Str.len mid + Str.len after) - R) 0 before (mid ++ after)
      (Str.len before + (Str.len mid + Str.len after)) 0 false ltac:(lia)) as Hp.
    rewrite N.add_0_l in Hp. rewrite Hp, Hloop. cbn [prefix_end suffix_start removed_chars].
    destruct (N.ltb_spec (Str.len before + Str.len mid) (Str.len before)); [lia|].
    rewrite split_at_app. cbn [mbind option_bind].
    rewrite <- Str.len_app, app_assoc, split_at_app. done.
  - destruct after as [|c after]; [simpl; lia|]. specialize (Ha ltac:(done)). lia.
  - intros c m ->. apply (Hmaxb c (m ++ after)). done.
  - intros c m ->. specialize (Hm m c eq_refl). rewrite Str.len_app in *.
    assert (Str.len [c] = Str.len_utf8 c) as Ec by (simpl; lia). lia.
Qed.

(** ** Properties *)

(** Truncation never slices inside a character; a text within the budget is returned
    as it is, with no budget only the marker is left, and a longer text becomes its
    longest start of at most half the budget, the marker, and its longest end of at
    most the rest of the budget; in character mode the marker counts exactly the
    characters left out. *)
Theorem truncation_keeps_both_ends s max use_tokens :
  (Str.len s <= usize_max)%N ->
  ((Str.len s <= max)%N -> (max <> 0)%N -> truncate_with_byte_estimate s max use_tokens = Some s) /\
  (s <> [] -> truncate_with_byte_estimate s 0 use_tokens =
     Some (format_truncation_marker use_tokens
             (removed_units use_tokens (Str.len s) (N.of_nat (length s))))) /\
  ((0 < max < Str.len s)%N ->
   exists before mid after,
     s = before ++ mid ++ after /\ mid <> [] /\
     truncate_with_byte_estimate s max use_tokens =
     Some (before ++
           format_truncation_marker use_tokens
             (removed_units use_tokens (Str.len s - max) (N.of_nat (length mid))) ++ after) /\
     (Str.len before <= max / 2)%N /\ (Str.len after <= max - max / 2)%N /\
     (forall c m, mid = c :: m -> (max / 2 < Str.len before + Str.len_utf8 c)%N) /\
     (forall c m, mid = m ++ [c] -> (max - max / 2 < Str.len_utf8 c + Str.len after)%N)).
Proof.
  intros Hmax. unfold truncate_with_byte_estimate. split_and!.
  - intros Hle Hm. destruct (Str.is_empty s) eqn:E; [by apply Str.is_empty_spec in E as ->|].
    destruct (N.eqb_spec max 0); [done|]. by destruct (N.leb_spec (Str.len s) max); [|lia].
  - intros Hne. destruct (Str.is_empty s) eqn:E; [by apply Str.is_empty_spec in E|]. done.
  - intros [Hpos Hlt]. destruct (Str.is_empty s) eqn:E.
    { apply Str.is_empty_spec in E as ->. simpl in Hlt. lia. }
    destruct (N.eqb_spec max 0); [lia|]. destruct (N.leb_spec (Str.len s) max); [lia|].
    assert (s <> []) as Hne by (intros ->; done).
    destruct (split_string_spec s (max / 2) (max - max / 2) Hne)
      as (before & mid & after & Es & Hsplit & Hb & Ha & Hmb & Hma).
    pose proof (Str.len_ge_length s) as Hls. rewrite Es, !length_app in Hls.
    rewrite <- Es in Hls. rewrite N.min_l in Hsplit by lia.
    exists before, mid, after. split_and!; try done.
    + intros ->. rewrite Es, !Str.len_app in Hlt. simpl in Hlt.
      pose proof (N.Div0.div_le_upper_bound max 2 max ltac:(lia)). lia.
    + cbn [split_budget]. by rewrite Hsplit.
Qed.

Lemma truncate_estimate_total s max b :
  is_Some (truncate_with_byte_estimate s max b).
Proof.
  unfold truncate_with_byte_estimate. destruct (Str.is_empty s) eqn:E; [done|].
  destruct (max =? 0)%N; [done|]. destruct (Str.len s <=? max)%N; [done|].
  assert (s <> []) as Hne by (intros ->; done). cbn [split_budget].
  destruct (split_string_spec s (max / 2) (max - max / 2) Hne) as (? & ? & ? & _ & -> & _). done.
Qed.

Lemma truncate_text_total s p : is_Some (truncate_text s p).
Proof.
  destruct p as [n|n]; simpl; [by apply truncate_estimate_total|].
  unfold truncate_middle_with_token_budget. destruct (Str.is_empty s); [done|].
  destruct (_ && _); [done|].
  destruct (truncate_estimate_total s (approx_bytes_for_tokens n) true) as [t ->]. simpl.
  by destruct (bool_decide _).
Qed.

Definition non_text : list FunctionCallOutputContentItem -> list FunctionCallOutputContentItem :=
  List.filter (fun item => negb (is_text item)).

Definition texts_cost (policy : TruncationPolicy) (items : list FunctionCallOutputContentItem) : N :=
  foldr (fun item acc => match item with OutText t => text_cost policy t + acc | _ => acc end)%N 0%N items.

Lemma items_loop_total policy items remaining out omitted :
  exists out' omitted', truncate_items_loop policy items remaining out omitted = Some (out', omitted') /\
    non_text out' = non_text out ++ non_text items.
Proof.
  revert remaining out omitted. induction items as [|item items IH]; intros r out om; simpl.
  - exists out, om. by rewrite app_nil_r.
  - assert (forall x, non_text (out ++ [x]) = non_text out ++ non_text [x]) as Hsn
      by (intros; apply List.filter_app).
    destruct item as [t|u d|e]; simpl.
    + destruct (r =? 0)%N; [apply IH|]. destruct (text_cost policy t <=? r)%N.
      { destruct (IH (saturating_sub r (text_cost policy t)) (out ++ [OutText t]) om) as (o & m & -> & E).
        exists o, m. rewrite E, Hsn. simpl. by rewrite app_nil_r. }
      destruct (truncate_text_total t (with_budget policy r)) as [sn ->]. simpl.
      destruct (Str.is_empty sn); [apply IH|].
      destruct (IH 0%N (out ++ [OutText sn]) om) as (o & m & -> & E).
      exists o, m. rewrite E, Hsn. simpl. by rewrite app_nil_r.
    + destruct (IH r (out ++ [OutImage u d]) om) as (o & m & -> & E).
      exists o, m. rewrite E, Hsn. simpl. by rewrite <- app_assoc.
    + destruct (IH r (out ++ [OutEncrypted e]) om) as (o & m & -> & E).
      exists o, m. rewrite E, Hsn. simpl. by rewrite <- app_assoc.
Qed.

Lemma items_loop_within policy items remaining out omitted :
  (texts_cost policy items < remaining)%N ->
  truncate_items_loop policy items remaining out omitted = Some (out ++ items, omitted).
Proof.
  revert remaining out. induction items as [|item items IH]; intros r out H; simpl.
  { by rewrite app_nil_r. }
  destruct item as [t|u d|e]; simpl in *; [|by rewrite IH, <- app_assoc..].
  destruct (N.eqb_spec r 0); [lia|]. destruct (N.leb_spec (text_cost policy t) r); [|lia].
  rewrite IH by (unfold saturating_sub; lia). by rewrite <- app_assoc.
Qed.

Lemma items_truncation_total items policy :
  exists out, truncate_function_output_items_with_policy items policy = Some out /\
    non_text out = non_text items.
Proof.
  unfold truncate_function_output_items_with_policy.
  set (budget := match policy with Bytes _ => _ | Tokens _ => _ end).
  destruct (items_loop_total policy items budget [] 0) as (out & om & -> & Hn).
  cbn [mbind option_bind]. eexists. split; [done|].
  destruct (0 <? om)%N; [|done]. unfold non_text in *. rewrite List.filter_app, Hn. simpl.
  by rewrite app_nil_r.
Qed.

(** Truncating the items of a tool output never fails, keeps every image and encrypted
    item in order, and changes nothing as long as the texts stay below the budget. *)
Theorem item_truncation_keeps_images items policy :
  exists out, truncate_function_output_items_with_policy items policy = Some out /\
    non_text out = non_text items /\
    ((texts_cost policy items < match policy with Bytes n => n | Tokens n => n end)%N -> out = items).
Proof.
  destruct (items_truncation_total items policy) as (out & E & Hn).
  exists out. split_and!; [done..|]. intros Hlt. unfold truncate_function_output_items_with_policy in E.
  rewrite items_loop_within in E by (destruct policy; exact Hlt). by injection E as <-.
Qed.

(** ** Instances of the properties *)

Lemma truncation_keeps_both_ends_witness :
  truncate_with_byte_estimate $"abcdefghij" 4 false =
  Some ($"ab" ++ format_truncation_marker false 6 ++ $"ij").
Proof.
  destruct (truncation_keeps_both_ends $"abcdefghij" 4 false) as (_ & _ & H); [vm_compute; done|].
  destruct H as (b & m & a & _ & _ & _ & _); [vm_compute; done|]. vm_compute. reflexivity.
Defined.

End Truncate.
