(* ===== verification/ContextHistory.v ===== *)
(** The transcript of a thread: [core/src/context_manager/history.rs] and
    [normalize.rs], over the items of [protocol/src/models.rs].  The transcript is a
    list of items; before it is sent to the model every call gets an output and every
    output without a call is dropped; old turns are dropped from its start or its end. *)
From S2P Require Import Prelude HeadTailBuffer Truncate.
From Stdlib Require Import SpecFloat.

Module History.
Import Truncate.

(** ** Items *)

(** JSON values are kept as their text. *)
Abbreviation Value := str (only parsing).

Inductive ContentItem :=
| InputText (text : str)
| InputImage (image_url : str) (detail : option ImageDetail)
| OutputText (text : str).

Inductive MessagePhase := Commentary | FinalAnswer.
Inductive LocalShellStatus := ShellCompleted | ShellInProgress | ShellIncomplete.
Record LocalShellExecAction := mkExec {
  command : list str;
  timeout_ms : option N;
  working_directory : option str;
  shell_env : option (list (str * str));
  user : option str;
}.
Inductive LocalShellAction := Exec (action : LocalShellExecAction).
Inductive WebSearchAction :=
| SearchAction (query : option str) (queries : option (list str))
| OpenPage (url : option str)
| FindInPage (url pattern : option str)
| OtherAction.
Inductive ReasoningItemReasoningSummary := SummaryText (text : str).
Inductive ReasoningItemContent := ReasoningText (text : str) | ReasoningPlain (text : str).

Inductive FunctionCallOutputBody :=
| BodyText (content : str)
| BodyItems (items : list FunctionCallOutputContentItem).
Record FunctionCallOutputPayload := mkPayload {
  body : FunctionCallOutputBody;
  success : option bool;
}.
Definition from_text (content : str) : FunctionCallOutputPayload := mkPayload (BodyText content) None.

Inductive ResponseItem :=
| Message (id : option str) (role : str) (content : list ContentItem) (phase : option MessagePhase)
| Reasoning (id : str) (summary : list ReasoningItemReasoningSummary)
    (content : option (list ReasoningItemContent)) (encrypted_content : option str)
| LocalShellCall (id call_id : option str) (status : LocalShellStatus) (action : LocalShellAction)
| FunctionCall (id : option str) (name : str) (namespace : option str) (arguments call_id : str)
| ToolSearchCall (id call_id status : option str) (execution : str) (arguments : Value)
| FunctionCallOutput (call_id : str) (output : FunctionCallOutputPayload)
| CustomToolCall (id status : option str) (call_id name input : str)
| CustomToolCallOutput (call_id : str) (name : option str) (output : FunctionCallOutputPayload)
| ToolSearchOutput (call_id : option str) (status execution : str) (tools : list Value)
| WebSearchCall (id status : option str) (action : option WebSearchAction)
| ImageGenerationCall (id status : str) (revised_prompt : option str) (result : str)
| Compaction (encrypted_content : str)
| CompactionTrigger
| ContextCompaction (encrypted_content : option str)
| OtherItem.

Inductive InputModality := ModText | ModImage.

(** ** normalize.rs *)

Definition IMAGE_CONTENT_OMITTED_PLACEHOLDER : str :=
  $"image content omitted because you do not support image input".
Definition aborted : FunctionCallOutputPayload := from_text $"aborted".

Definition is_function_output (call_id : str) (i : ResponseItem) : bool :=
  match i with FunctionCallOutput existing _ => bool_decide (existing = call_id) | _ => false end.
Definition is_search_output (call_id : str) (i : ResponseItem) : bool :=
  match i with ToolSearchOutput (Some existing) _ _ _ => bool_decide (existing = call_id) | _ => false end.
Definition is_custom_output (call_id : str) (i : ResponseItem) : bool :=
  match i with CustomToolCallOutput existing _ _ => bool_decide (existing = call_id) | _ => false end.

(** The output to insert after a call, if it has none. *)
Definition missing_output (items : list ResponseItem) (item : ResponseItem) : option ResponseItem :=
  match item with
  | FunctionCall _ _ _ _ call_id =>
      if existsb (is_function_output call_id) items then None
      else Some (FunctionCallOutput call_id aborted)
  | ToolSearchCall _ (Some call_id) _ _ _ =>
      if existsb (is_search_output call_id) items then None
      else Some (ToolSearchOutput (Some call_id) $"completed" $"client" [])
  | CustomToolCall _ _ call_id _ _ =>
      if existsb (is_custom_output call_id) items then None
      else Some (CustomToolCallOutput call_id None aborted)
  | LocalShellCall _ (Some call_id) _ _ =>
      if existsb (is_function_output call_id) items then None
      else Some (FunctionCallOutput call_id aborted)
  | _ => None
  end.

(** [Vec::insert]. *)
Definition vec_insert {A} (idx : nat) (x : A) (l : list A) : list A := take idx l ++ x :: drop idx l.

Fixpoint missing_outputs_to_insert (items : list ResponseItem) (idx : nat) (l : list ResponseItem)
    : list (nat * ResponseItem) :=
  match l with
  | [] => []
  | item :: l' =>
      match missing_output items item with
      | Some output => (idx, output) :: missing_outputs_to_insert items (S idx) l'
      | None => missing_outputs_to_insert items (S idx) l'
      end
  end.

Definition ensure_call_outputs_present (items : list ResponseItem) : list ResponseItem :=
  fold_left (fun items '(idx, output_item) => vec_insert (idx + 1) output_item items)
    (rev (missing_outputs_to_insert items 0 items)) items.

Definition function_call_id (i : ResponseItem) : option str :=
  match i with FunctionCall _ _ _ _ call_id => Some call_id | _ => None end.
Definition tool_search_call_id (i : ResponseItem) : option str :=
  match i with ToolSearchCall _ (Some call_id) _ _ _ => Some call_id | _ => None end.
Definition local_shell_call_id (i : ResponseItem) : option str :=
  match i with LocalShellCall _ (Some call_id) _ _ => Some call_id | _ => None end.
Definition custom_tool_call_id (i : ResponseItem) : option str :=
  match i with CustomToolCall _ _ call_id _ _ => Some call_id | _ => None end.
Definition str_in (s : str) (l : list str) : bool := bool_decide (s ∈ l).

(** The predicate of [retain]. *)
Definition has_call (items : list ResponseItem) (item : ResponseItem) : bool :=
  match item with
  | FunctionCallOutput call_id _ =>
      str_in call_id (omap function_call_id items) || str_in call_id (omap local_shell_call_id items)
  | CustomToolCallOutput call_id _ _ => str_in call_id (omap custom_tool_call_id items)
  | ToolSearchOutput call_id _ execution _ =>
      if bool_decide (execution = $"server") then true
      else match call_id with
           | Some call_id => str_in call_id (omap tool_search_call_id items)
           | None => true
           end
  | _ => true
  end.
Definition remove_orphan_outputs (items : list ResponseItem) : list ResponseItem :=
  List.filter (has_call items) items.

(** [error_or_panic] panics in a debug build: a custom or shell call without output, or
    any orphan output, is reported this way. *)
Definition reports_missing (items : list ResponseItem) : bool :=
  existsb (fun item =>
    match item with
    | CustomToolCall _ _ _ _ _ | LocalShellCall _ _ _ _ =>
        bool_decide (is_Some (missing_output items item))
    | _ => false
    end) items.
Definition reports_orphan (items : list ResponseItem) : bool :=
  existsb (fun item => negb (has_call items item)) items.

Definition remove_first_matching (p : ResponseItem -> bool) (items : list ResponseItem)
    : list ResponseItem :=
  match list_find (fun i => p i = true) items with
  | Some (pos, _) => take pos items ++ drop (S pos) items
  | None => items
  end.

Definition is_function_call (call_id : str) (i : ResponseItem) : bool :=
  bool_decide (function_call_id i = Some call_id).
Definition is_local_shell_call (call_id : str) (i : ResponseItem) : bool :=
  bool_decide (local_shell_call_id i = Some call_id).
Definition is_search_call (call_id : str) (i : ResponseItem) : bool :=
  bool_decide (tool_search_call_id i = Some call_id).
Definition is_custom_call (call_id : str) (i : ResponseItem) : bool :=
  bool_decide (custom_tool_call_id i = Some call_id).

Definition remove_corresponding_for (items : list ResponseItem) (item : ResponseItem)
    : list ResponseItem :=
  match item with
  | FunctionCall _ _ _ _ call_id => remove_first_matching (is_function_output call_id) items
  | FunctionCallOutput call_id _ =>
      if existsb (is_function_call call_id) items then
        remove_first_matching (is_function_call call_id) items
      else remove_first_matching (is_local_shell_call call_id) items
  | ToolSearchCall _ (Some call_id) _ _ _ => remove_first_matching (is_search_output call_id) items
  | ToolSearchOutput (Some call_id) _ _ _ => remove_first_matching (is_search_call call_id) items
  | CustomToolCall _ _ call_id _ _ => remove_first_matching (is_custom_output call_id) items
  | CustomToolCallOutput call_id _ _ => remove_first_matching (is_custom_call call_id) items
  | LocalShellCall _ (Some call_id) _ _ => remove_first_matching (is_function_output call_id) items
  | _ => items
  end.

Definition strip_content (c : ContentItem) : ContentItem :=
  match c with InputImage _ _ => InputText IMAGE_CONTENT_OMITTED_PLACEHOLDER | _ => c end.
Definition strip_output_item (c : FunctionCallOutputContentItem) : FunctionCallOutputContentItem :=
  match c with OutImage _ _ => OutText IMAGE_CONTENT_OMITTED_PLACEHOLDER | _ => c end.
Definition strip_payload (p : FunctionCallOutputPayload) : FunctionCallOutputPayload :=
  match body p with
  | BodyText _ => p
  | BodyItems items => mkPayload (BodyItems (strip_output_item <$> items)) (success p)
  end.
Definition strip_item (item : ResponseItem) : ResponseItem :=
  match item with
  | Message id role content phase => Message id role (strip_content <$> content) phase
  | FunctionCallOutput call_id output => FunctionCallOutput call_id (strip_payload output)
  | CustomToolCallOutput call_id name output => CustomToolCallOutput call_id name (strip_payload output)
  | ImageGenerationCall id status revised_prompt _ => ImageGenerationCall id status revised_prompt []
  | _ => item
  end.
Definition supports_images (input_modalities : list InputModality) : bool :=
  existsb (fun m => match m with ModImage => true | ModText => false end) input_modalities.
Definition strip_images_when_unsupported (input_modalities : list InputModality)
    (items : list ResponseItem) : list ResponseItem :=
  if supports_images input_modalities then items else strip_item <$> items.

(** ** Token counts (protocol.rs) *)

Definition wrap_i64 (z : Z) : Z := ((z + 2 ^ 63) mod 2 ^ 64 - 2 ^ 63)%Z.
Definition sat_i64 (z : Z) : Z := Z.max i64_min (Z.min z i64_max).
Definition sat_add_i64 (a b : Z) : Z := sat_i64 (a + b).
Definition sat_sub_i64 (a b : Z) : Z := sat_i64 (a - b).
Definition i64_from_usize (n : N) : Z := Z.min (Z.of_N n) i64_max.

Record TokenUsage := mkUsage {
  input_tokens : Z;
  cached_input_tokens : Z;
  output_tokens : Z;
  reasoning_output_tokens : Z;
  total_tokens : Z;
}.
Definition usage_default : TokenUsage := mkUsage 0 0 0 0 0.
(** [+=] wraps in a release build. *)
Definition add_assign (a b : TokenUsage) : TokenUsage :=
  mkUsage (wrap_i64 (input_tokens a + input_tokens b))
    (wrap_i64 (cached_input_tokens a + cached_input_tokens b))
    (wrap_i64 (output_tokens a + output_tokens b))
    (wrap_i64 (reasoning_output_tokens a + reasoning_output_tokens b))
    (wrap_i64 (total_tokens a + total_tokens b)).

Record TokenUsageInfo := mkInfo {
  total_token_usage : TokenUsage;
  last_token_usage : TokenUsage;
  model_context_window : option Z;
}.
Definition append_last_usage (info : TokenUsageInfo) (last : TokenUsage) : TokenUsageInfo :=
  mkInfo (add_assign (total_token_usage info) last) last (model_context_window info).
Definition new_or_append (info : option TokenUsageInfo) (last : option TokenUsage)
    (window : option Z) : option TokenUsageInfo :=
  match info, last with
  | None, None => None
  | _, _ =>
      let info := from_option id (mkInfo usage_default usage_default window) info in
      let info := match last with Some last => append_last_usage info last | None => info end in
      Some match window with
           | Some w => mkInfo (total_token_usage info) (last_token_usage info) (Some w)
           | None => info
           end
  end.
Definition fill_to_context_window (info : TokenUsageInfo) (context_window : Z) : TokenUsageInfo :=
  let previous_total := total_tokens (total_token_usage info) in
  let delta := Z.max (wrap_i64 (context_window - previous_total)) 0 in
  mkInfo (mkUsage 0 0 0 0 context_window) (mkUsage 0 0 0 0 delta) (Some context_window).
Definition full_context_window (context_window : Z) : TokenUsageInfo :=
  fill_to_context_window (mkInfo usage_default usage_default (Some context_window)) context_window.

(** ** Estimates *)

Definition estimate_reasoning_length (encoded_len : N) : N :=
  HeadTail.saturating_sub (saturating_mul encoded_len 3 / 4) 650.
Definition estimate_encrypted_function_output_length (encoded_len : N) : N :=
  ((saturating_mul encoded_len 9 + 15) / 16)%N.

Definition RESIZED_IMAGE_BYTES_ESTIMATE : Z := 7373.
Definition ORIGINAL_IMAGE_PATCH_SIZE : Z := 32.
Definition ORIGINAL_IMAGE_MAX_PATCHES : N := 10000.

(** [str::get(..n)] followed by a comparison that ignores ASCII case, for an ASCII prefix. *)
Definition starts_with_ignore_case (prefix s : str) : bool :=
  Str.eq_ignore_ascii_case (take (length prefix) s) prefix.

Definition parse_base64_image_data_url (url : str) : option str :=
  if negb (starts_with_ignore_case $"data:" url) then None
  else
    '(metadata, payload) ← Str.split_once (ch ",") url;
    let metadata_without_scheme := drop (length $"data:") metadata in
    match Str.split (ch ";") metadata_without_scheme with
    | [] => None
    | mime_type :: metadata_parts =>
        let has_base64_marker :=
          existsb (fun part => Str.eq_ignore_ascii_case part $"base64") metadata_parts in
        if negb (starts_with_ignore_case $"image/" mime_type) then None
        else if negb has_base64_marker then None
        else Some payload
    end.

Definition is_api_message (message : ResponseItem) : bool :=
  match message with
  | Message _ role _ _ => negb (bool_decide (role = $"system"))
  | CompactionTrigger | OtherItem => false
  | _ => true
  end.

Definition is_model_generated_item (item : ResponseItem) : bool :=
  match item with
  | Message _ role _ _ => bool_decide (role = $"assistant")
  | Reasoning _ _ _ _ | FunctionCall _ _ _ _ _ | ToolSearchCall _ _ _ _ _ | WebSearchCall _ _ _
  | ImageGenerationCall _ _ _ _ | CustomToolCall _ _ _ _ _ | LocalShellCall _ _ _ _
  | Compaction _ | ContextCompaction _ => true
  | CompactionTrigger => false
  | FunctionCallOutput _ _ | ToolSearchOutput _ _ _ _ | CustomToolCallOutput _ _ _ | OtherItem => false
  end.

Definition is_codex_generated_item (item : ResponseItem) : bool :=
  match item with
  | FunctionCallOutput _ _ | ToolSearchOutput _ _ _ _ | CustomToolCallOutput _ _ _ => true
  | Message _ role _ _ => bool_decide (role = $"developer")
  | _ => false
  end.

(** ** Contextual messages (event_mapping.rs) *)

Definition CONTEXTUAL_DEVELOPER_PREFIXES : list str :=
  [$"<permissions instructions>"; $"<model_switch>"; $"<collaboration_mode>";
   $"<realtime_conversation>"; $"<personality_spec>"].
Definition is_contextual_dev_fragment (content_item : ContentItem) : bool :=
  match content_item with
  | InputText text =>
      let trimmed := Str.trim_start text in
      existsb (fun prefix => starts_with_ignore_case prefix trimmed) CONTEXTUAL_DEVELOPER_PREFIXES
  | _ => false
  end.
Definition is_contextual_dev_message_content (message : list ContentItem) : bool :=
  existsb is_contextual_dev_fragment message.
Definition has_non_contextual_dev_message_content (message : list ContentItem) : bool :=
  existsb (fun c => negb (is_contextual_dev_fragment c)) message.

(** ** The transcript *)

Section transcript.
(** The snapshot of the settings of a turn, which the transcript only stores. *)
Context {TurnContextItem : Type}.
(** Whether a text is one of the registered contextual fragments or a hook prompt
    (parsed as XML), and whether it is the JSON of an inter-agent message. *)
Context (is_contextual_user_text is_inter_agent_json : str -> bool).
(** The length of the JSON of an item, and the size of an image from its base64 text. *)
Context (serialized_len : ResponseItem -> N) (decode_image : str -> option (Z * Z)).

Record ContextManager := mkManager {
  items : list ResponseItem;
  history_version : N;
  token_info : option TokenUsageInfo;
  reference_context_item : option TurnContextItem;
}.

Definition new : ContextManager := mkManager [] 0 (new_or_append None None None) None.
Definition set_items (m : ContextManager) (l : list ResponseItem) : ContextManager :=
  mkManager l (history_version m) (token_info m) (reference_context_item m).
Definition set_token_info (m : ContextManager) (info : option TokenUsageInfo) : ContextManager :=
  mkManager (items m) (history_version m) info (reference_context_item m).
Definition set_reference_context_item (m : ContextManager) (item : option TurnContextItem)
    : ContextManager := mkManager (items m) (history_version m) (token_info m) item.
Definition bump (m : ContextManager) : ContextManager :=
  mkManager (items m) (HeadTail.saturating_add (history_version m) 1) (token_info m)
    (reference_context_item m).

Definition set_token_usage_full (m : ContextManager) (context_window : Z) : ContextManager :=
  set_token_info m
    (Some match token_info m with
          | Some info => fill_to_context_window info context_window
          | None => full_context_window context_window
          end).
Definition update_token_info (m : ContextManager) (usage : TokenUsage) (window : option Z)
    : ContextManager := set_token_info m (new_or_append (token_info m) (Some usage) window).

Definition truncate_function_output_payload (output : FunctionCallOutputPayload)
    (policy : TruncationPolicy) : option FunctionCallOutputPayload :=
  b ← match body output with
      | BodyText content => t ← truncate_text content policy; Some (BodyText t)
      | BodyItems l => l ← truncate_function_output_items_with_policy l policy; Some (BodyItems l)
      end;
  Some (mkPayload b (success output)).

(** [1.2f64]. *)
Definition serialization_factor : spec_float := S754_finite false 5404319552844596%positive (-52)%Z.

(** [None] is a slice inside a character, which does not happen. *)
Definition process_item (item : ResponseItem) (policy : TruncationPolicy) : option ResponseItem :=
  let policy_with_serialization_budget := policy_mul policy serialization_factor in
  match item with
  | FunctionCallOutput call_id output =>
      p ← truncate_function_output_payload output policy_with_serialization_budget;
      Some (FunctionCallOutput call_id p)
  | CustomToolCallOutput call_id name output =>
      p ← truncate_function_output_payload output policy_with_serialization_budget;
      Some (CustomToolCallOutput call_id name p)
  | _ => Some item
  end.

Fixpoint record_items (m : ContextManager) (l : list ResponseItem) (policy : TruncationPolicy)
    : option ContextManager :=
  match l with
  | [] => Some m
  | item :: l' =>
      if negb (is_api_message item) then record_items m l' policy
      else processed ← process_item item policy;
           record_items (set_items m (items m ++ [processed])) l' policy
  end.

Definition normalize_items (input_modalities : list InputModality) (l : list ResponseItem)
    : list ResponseItem :=
  strip_images_when_unsupported input_modalities
    (remove_orphan_outputs (ensure_call_outputs_present l)).
(** [None] is the panic of a debug build. *)
Definition for_prompt (debug_assertions : bool) (m : ContextManager)
    (input_modalities : list InputModality) : option (list ResponseItem) :=
  if debug_assertions &&
     (reports_missing (items m) || reports_orphan (ensure_call_outputs_present (items m)))
  then None
  else Some (normalize_items input_modalities (items m)).

Definition remove_first_item (m : ContextManager) : ContextManager :=
  match items m with
  | [] => m
  | removed :: rest => set_items m (remove_corresponding_for rest removed)
  end.

Definition remove_last_item (m : ContextManager) : ContextManager * bool :=
  match last (items m) with
  | Some removed =>
      let rest := take (length (items m) - 1) (items m) in
      (bump (set_items m (remove_corresponding_for rest removed)), true)
  | None => (m, false)
  end.

Definition replace (m : ContextManager) (l : list ResponseItem) : ContextManager :=
  bump (set_items m l).

(** ** Turns *)

Definition is_contextual_user_fragment (content_item : ContentItem) : bool :=
  match content_item with InputText text => is_contextual_user_text text | _ => false end.
Definition is_contextual_user_message_content (message : list ContentItem) : bool :=
  existsb is_contextual_user_fragment message.
Definition is_inter_agent_instruction_content (content : list ContentItem) : bool :=
  match content with
  | [InputText text] | [OutputText text] => is_inter_agent_json text
  | _ => false
  end.

Definition is_user_turn_boundary (item : ResponseItem) : bool :=
  match item with
  | Message _ role content _ =>
      (bool_decide (role = $"user") && negb (is_contextual_user_message_content content)) ||
      (bool_decide (role = $"assistant") && is_inter_agent_instruction_content content)
  | _ => false
  end.

Fixpoint positions_from (p : ResponseItem -> bool) (idx : nat) (l : list ResponseItem) : list nat :=
  match l with
  | [] => []
  | item :: l' => if p item then idx :: positions_from p (S idx) l' else positions_from p (S idx) l'
  end.
Definition user_message_positions (l : list ResponseItem) : list nat :=
  positions_from is_user_turn_boundary 0 l.

(** [Iterator::rposition]. *)
Definition rposition (p : ResponseItem -> bool) (l : list ResponseItem) : option nat :=
  last (positions_from p 0 l).

(** The [while] loop of [trim_pre_turn_context_updates]: the steps it may take are bounded
    by the distance to the first turn; the new cut and whether the baseline is cleared. *)
Fixpoint trim_pre_turn_context_updates (steps : nat) (snapshot : list ResponseItem) (cut_idx : nat)
    (clears : bool) : nat * bool :=
  match steps with
  | 0 => (cut_idx, clears)
  | S steps' =>
      match snapshot !! (cut_idx - 1) with
      | Some (Message _ role content _) =>
          if bool_decide (role = $"developer") && is_contextual_dev_message_content content then
            trim_pre_turn_context_updates steps' snapshot (cut_idx - 1)
              (clears || has_non_contextual_dev_message_content content)
          else if bool_decide (role = $"user") && is_contextual_user_message_content content then
            trim_pre_turn_context_updates steps' snapshot (cut_idx - 1) clears
          else (cut_idx, clears)
      | _ => (cut_idx, clears)
      end
  end.

Definition drop_last_n_user_turns (m : ContextManager) (num_turns : N) : ContextManager :=
  if (num_turns =? 0)%N then m
  else
    let snapshot := items m in
    let user_positions := user_message_positions snapshot in
    match user_positions with
    | [] => replace m snapshot
    | first_instruction_turn_idx :: _ =>
        let n_from_end := N.to_nat num_turns in
        let cut_idx :=
          if length user_positions <=? n_from_end then first_instruction_turn_idx
          else from_option id 0 (user_positions !! (length user_positions - n_from_end)) in
        let '(cut_idx, clears) :=
          trim_pre_turn_context_updates (cut_idx - first_instruction_turn_idx) snapshot cut_idx false in
        let m := if clears then set_reference_context_item m None else m in
        replace m (take cut_idx snapshot)
    end.

Definition replace_image (placeholder : str) (item : FunctionCallOutputContentItem)
    : FunctionCallOutputContentItem :=
  match item with OutImage _ _ => OutText placeholder | _ => item end.
Definition is_out_image (item : FunctionCallOutputContentItem) : bool :=
  match item with OutImage _ _ => true | _ => false end.

Definition replace_last_turn_images (m : ContextManager) (placeholder : str)
    : ContextManager * bool :=
  match rposition (fun item =>
          match item with
          | FunctionCallOutput _ _ => true
          | _ => is_user_turn_boundary item
          end) (items m) with
  | None => (m, false)
  | Some index =>
      match items m !! index with
      | Some (FunctionCallOutput call_id output) =>
          match body output with
          | BodyText _ => (m, false)
          | BodyItems content_items =>
              let replaced := existsb is_out_image content_items in
              let output :=
                mkPayload (BodyItems (replace_image placeholder <$> content_items)) (success output) in
              let m' := set_items m (<[index := FunctionCallOutput call_id output]> (items m)) in
              (if replaced then bump m' else m', replaced)
          end
      | _ => (m, false)
      end
  end.

(** ** Token estimates of the transcript *)

Definition estimate_original_image_bytes (image_url : str) : option Z :=
  payload ← parse_base64_image_data_url image_url;
  '(width, height) ← decode_image payload;
  let patch_size := ORIGINAL_IMAGE_PATCH_SIZE in
  let patches_wide := (sat_add_i64 width (sat_sub_i64 patch_size 1) / patch_size)%Z in
  let patches_high := (sat_add_i64 height (sat_sub_i64 patch_size 1) / patch_size)%Z in
  let patch_count := sat_i64 (patches_wide * patches_high) in
  let patch_count :=
    if (patch_count <? 0)%Z then HeadTail.usize_max else Z.to_N patch_count in
  let patch_count := N.min patch_count ORIGINAL_IMAGE_MAX_PATCHES in
  Some (i64_from_usize (approx_bytes_for_tokens patch_count)).

Definition accumulate (acc : Z * Z) (image_url : str) (detail : option ImageDetail) : Z * Z :=
  match parse_base64_image_data_url image_url with
  | None => acc
  | Some payload =>
      (sat_add_i64 (fst acc) (i64_from_usize (Str.len payload)),
       sat_add_i64 (snd acc)
         match detail with
         | Some DetailOriginal =>
             from_option id RESIZED_IMAGE_BYTES_ESTIMATE (estimate_original_image_bytes image_url)
         | _ => RESIZED_IMAGE_BYTES_ESTIMATE
         end)
  end.
Definition output_adjustment (output : FunctionCallOutputPayload) : Z * Z :=
  match body output with
  | BodyItems l =>
      fold_left (fun acc c => match c with OutImage u d => accumulate acc u d | _ => acc end) l (0, 0)%Z
  | BodyText _ => (0, 0)%Z
  end.
Definition image_data_url_estimate_adjustment (item : ResponseItem) : Z * Z :=
  match item with
  | Message _ _ content _ =>
      fold_left (fun acc c => match c with InputImage u d => accumulate acc u d | _ => acc end)
        content (0, 0)%Z
  | FunctionCallOutput _ output | CustomToolCallOutput _ _ output => output_adjustment output
  | _ => (0, 0)%Z
  end.

Definition encrypted_function_output_estimate_adjustment (item : ResponseItem) : Z * Z :=
  match item with
  | FunctionCallOutput _ output =>
      match body output with
      | BodyItems l =>
          fold_left (fun acc c =>
            match c with
            | OutEncrypted e =>
                (sat_add_i64 (fst acc) (i64_from_usize (Str.len e)),
                 sat_add_i64 (snd acc)
                   (i64_from_usize (estimate_encrypted_function_output_length (Str.len e))))
            | _ => acc
            end) l (0, 0)%Z
      | BodyText _ => (0, 0)%Z
      end
  | _ => (0, 0)%Z
  end.

Definition estimate_response_item_model_visible_bytes (item : ResponseItem) : Z :=
  match item with
  | Reasoning _ _ _ (Some content) | Compaction content | ContextCompaction (Some content) =>
      i64_from_usize (estimate_reasoning_length (Str.len content))
  | _ =>
      let raw := i64_from_usize (serialized_len item) in
      let '(image_payload_bytes, image_replacement_bytes) := image_data_url_estimate_adjustment item in
      let '(encrypted_payload_bytes, encrypted_replacement_bytes) :=
        encrypted_function_output_estimate_adjustment item in
      let raw := sat_add_i64 (sat_sub_i64 raw image_payload_bytes) image_replacement_bytes in
      sat_add_i64 (sat_sub_i64 raw encrypted_payload_bytes) encrypted_replacement_bytes
  end.
Definition estimate_item_token_count (item : ResponseItem) : Z :=
  approx_tokens_from_byte_count_i64 (estimate_response_item_model_visible_bytes item).

Definition sum_i64 (l : list Z) : Z := fold_left sat_add_i64 l 0%Z.

Definition estimate_token_count_with_base_instructions (m : ContextManager) (base_text : str)
    : option Z :=
  let base_tokens := i64_from_usize (approx_token_count base_text) in
  Some (sat_add_i64 base_tokens (sum_i64 (estimate_item_token_count <$> items m))).

Definition is_encrypted_reasoning (item : ResponseItem) : bool :=
  match item with Reasoning _ _ _ (Some _) => true | _ => false end.
Definition get_non_last_reasoning_items_tokens (m : ContextManager) : Z :=
  match rposition is_user_turn_boundary (items m) with
  | None => 0%Z
  | Some last_user_index =>
      sum_i64 (estimate_item_token_count <$>
                 List.filter is_encrypted_reasoning (take last_user_index (items m)))
  end.

Definition items_after_last_model_generated_item (m : ContextManager) : list ResponseItem :=
  let start := match rposition is_model_generated_item (items m) with
               | Some index => S index
               | None => length (items m)
               end in
  drop start (items m).

Definition get_total_token_usage (m : ContextManager) (server_reasoning_included : bool) : Z :=
  let last_tokens :=
    match token_info m with Some info => total_tokens (last_token_usage info) | None => 0%Z end in
  let after := sum_i64 (estimate_item_token_count <$> items_after_last_model_generated_item m) in
  if server_reasoning_included then sat_add_i64 last_tokens after
  else sat_add_i64 (sat_add_i64 last_tokens (get_non_last_reasoning_items_tokens m)) after.

Record TotalTokenUsageBreakdown := mkBreakdown {
  last_api_response_total_tokens : Z;
  all_history_items_model_visible_bytes : Z;
  estimated_tokens_added : Z;
  estimated_bytes_added : Z;
}.
Definition get_total_token_usage_breakdown (m : ContextManager) : TotalTokenUsageBreakdown :=
  let last_usage := match token_info m with
                    | Some info => last_token_usage info
                    | None => usage_default
                    end in
  let after := items_after_last_model_generated_item m in
  mkBreakdown (total_tokens last_usage)
    (sum_i64 (estimate_response_item_model_visible_bytes <$> items m))
    (sum_i64 (estimate_item_token_count <$> after))
    (sum_i64 (estimate_response_item_model_visible_bytes <$> after)).

End transcript.

End History.
