(* ===== verification/Transcript.v ===== *)
(** What the transcript promises: a prompt in which every call with an id has an output and
    every output a call, and which is otherwise the transcript; trimming that removes a call together with its output, rollbacks that
    stop at a turn, and recording that keeps the order of the items. *)
From S2P Require Import Prelude HeadTailBuffer Truncate ContextHistory.

Module Transcript.
Import Truncate History.

(** ** Calls and outputs by key *)

(** A function call and a local shell call are both answered by a function call output. *)
Inductive CallKind := KFunction | KSearch | KCustom.
#[global] Instance call_kind_eq_dec : EqDecision CallKind.
Proof. solve_decision. Defined.
Abbreviation key := (CallKind * str)%type (only parsing).

Definition call_key (i : ResponseItem) : option key :=
  match i with
  | FunctionCall _ _ _ _ id | LocalShellCall _ (Some id) _ _ => Some (KFunction, id)
  | ToolSearchCall _ (Some id) _ _ _ => Some (KSearch, id)
  | CustomToolCall _ _ id _ _ => Some (KCustom, id)
  | _ => None
  end.
Definition output_key (i : ResponseItem) : option key :=
  match i with
  | FunctionCallOutput id _ => Some (KFunction, id)
  | ToolSearchOutput (Some id) _ _ _ => Some (KSearch, id)
  | CustomToolCallOutput id _ _ => Some (KCustom, id)
  | _ => None
  end.
(** The outputs of searches that the server ran may stand alone. *)
Definition server_side (i : ResponseItem) : bool :=
  match i with ToolSearchOutput _ _ execution _ => bool_decide (execution = $"server") | _ => false end.
Definition required_call (i : ResponseItem) : option key :=
  if server_side i then None else output_key i.
Definition item_key (i : ResponseItem) : option key :=
  match call_key i with Some k => Some k | None => output_key i end.

Definition calls (l : list ResponseItem) : list key := omap call_key l.
Definition outputs (l : list ResponseItem) : list key := omap output_key l.

Definition synthetic (k : key) : ResponseItem :=
  match k with
  | (KFunction, id) => FunctionCallOutput id aborted
  | (KSearch, id) => ToolSearchOutput (Some id) $"completed" $"client" []
  | (KCustom, id) => CustomToolCallOutput id None aborted
  end.

(** Every call is answered and every output answers a call. *)
Definition answered (l : list ResponseItem) : Prop := forall k, k ∈ calls l -> k ∈ outputs l.
Definition called (l : list ResponseItem) : Prop :=
  forall i k, i ∈ l -> required_call i = Some k -> k ∈ calls l.
Definition balanced (l : list ResponseItem) : Prop := answered l /\ called l.

(** No image is left for a model without image input. *)
Definition content_has_image (c : ContentItem) : bool :=
  match c with InputImage _ _ => true | _ => false end.
Definition payload_has_image (p : FunctionCallOutputPayload) : bool :=
  match body p with BodyItems l => existsb is_out_image l | BodyText _ => false end.
Definition has_image (i : ResponseItem) : bool :=
  match i with
  | Message _ _ content _ => existsb content_has_image content
  | FunctionCallOutput _ p | CustomToolCallOutput _ _ p => payload_has_image p
  | ImageGenerationCall _ _ _ result => negb (Str.is_empty result)
  | _ => false
  end.

(** *** The prompt of a transcript *)

(** An output whose call is missing, and a call (with its key) whose output is. *)
Definition orphan (all : list ResponseItem) (i : ResponseItem) : Prop :=
  exists k, required_call i = Some k /\ k ∉ calls all.
Definition unanswered (all : list ResponseItem) (i : ResponseItem) (k : key) : Prop :=
  call_key i = Some k /\ k ∉ outputs all.
(** The items of a transcript, without the orphans, and with an output right behind each
    call that lacks one. *)
Inductive completed (all : list ResponseItem) : list ResponseItem -> list ResponseItem -> Prop :=
| completed_nil : completed all [] []
| completed_orphan i l l' : orphan all i -> completed all l l' -> completed all (i :: l) l'
| completed_unanswered i k l l' :
    unanswered all i k -> completed all l l' -> completed all (i :: l) (i :: synthetic k :: l')
| completed_item i l l' :
    ~ orphan all i -> (forall k, ~ unanswered all i k) -> completed all l l' -> completed all (i :: l) (i :: l').

(** An item as a model without image input is shown it: each image of a message or of an
    output is replaced by a text, and the result of an image generation is left out. *)
Definition image_replaced {C} (is_image : C -> bool) (replacement : C) (c c' : C) : Prop :=
  if is_image c then c' = replacement else c' = c.
Definition contents_replaced : list ContentItem -> list ContentItem -> Prop :=
  Forall2 (image_replaced content_has_image (InputText IMAGE_CONTENT_OMITTED_PLACEHOLDER)).
Definition outputs_replaced : list FunctionCallOutputContentItem -> list FunctionCallOutputContentItem -> Prop :=
  Forall2 (image_replaced is_out_image (OutText IMAGE_CONTENT_OMITTED_PLACEHOLDER)).
Inductive shown_without_images : ResponseItem -> ResponseItem -> Prop :=
| shown_same i : has_image i = false -> shown_without_images i i
| shown_message id role content content' phase :
    contents_replaced content content' ->
    shown_without_images (Message id role content phase) (Message id role content' phase)
| shown_output id l l' success :
    outputs_replaced l l' ->
    shown_without_images (FunctionCallOutput id (mkPayload (BodyItems l) success))
      (FunctionCallOutput id (mkPayload (BodyItems l') success))
| shown_custom id name l l' success :
    outputs_replaced l l' ->
    shown_without_images (CustomToolCallOutput id name (mkPayload (BodyItems l) success))
      (CustomToolCallOutput id name (mkPayload (BodyItems l') success))
| shown_generation id status revised_prompt result :
    shown_without_images (ImageGenerationCall id status revised_prompt result)
      (ImageGenerationCall id status revised_prompt []).
#[global] Instance modality_eq_dec : EqDecision InputModality.
Proof. solve_decision. Defined.
Definition shown (mods : list InputModality) (i i' : ResponseItem) : Prop :=
  if bool_decide (ModImage ∈ mods) then i' = i else shown_without_images i i'.

(** ** Normalisation in terms of keys *)

Lemma existsb_key (f : ResponseItem -> option key) (p : ResponseItem -> bool) k l :
  (forall i, p i = bool_decide (f i = Some k)) -> existsb p l = bool_decide (k ∈ omap f l).
Proof.
  intros H. apply eq_true_iff_eq. rewrite existsb_exists, bool_decide_eq_true, list_elem_of_omap.
  setoid_rewrite list_elem_of_In. setoid_rewrite H. setoid_rewrite bool_decide_eq_true. done.
Qed.

Lemma function_output_key id i : is_function_output id i = bool_decide (output_key i = Some (KFunction, id)).
Proof. destruct i as [| | | | | | | |[]| | | | | |]; simpl; repeat case_bool_decide; naive_solver. Qed.
Lemma search_output_key id i : is_search_output id i = bool_decide (output_key i = Some (KSearch, id)).
Proof. destruct i as [| | | | | | | |[]| | | | | |]; simpl; repeat case_bool_decide; naive_solver. Qed.
Lemma custom_output_key id i : is_custom_output id i = bool_decide (output_key i = Some (KCustom, id)).
Proof. destruct i as [| | | | | | | |[]| | | | | |]; simpl; repeat case_bool_decide; naive_solver. Qed.
Lemma search_call_key id i : is_search_call id i = bool_decide (call_key i = Some (KSearch, id)).
Proof. destruct i as [| |? []| |? []| | | | | | | | | |]; apply bool_decide_ext; simpl; naive_solver. Qed.
Lemma custom_call_key id i : is_custom_call id i = bool_decide (call_key i = Some (KCustom, id)).
Proof. destruct i as [| |? []| |? []| | | | | | | | | |]; apply bool_decide_ext; simpl; naive_solver. Qed.

Lemma missing_output_key l i :
  missing_output l i =
  match call_key i with
  | Some k => if bool_decide (k ∈ outputs l) then None else Some (synthetic k)
  | None => None
  end.
Proof.
  destruct i as [| |? []| |? []| | | | | | | | | |]; simpl; try done;
    erewrite existsb_key by (apply function_output_key || apply search_output_key || apply custom_output_key);
    done.
Qed.

Lemma elem_calls k l : k ∈ calls l <-> exists i, i ∈ l /\ call_key i = Some k.
Proof. apply list_elem_of_omap. Qed.
Lemma elem_outputs k l : k ∈ outputs l <-> exists i, i ∈ l /\ output_key i = Some k.
Proof. apply list_elem_of_omap. Qed.

Lemma function_calls_split id l :
  str_in id (omap function_call_id l) || str_in id (omap local_shell_call_id l) =
  bool_decide ((KFunction, id) ∈ calls l).
Proof.
  apply eq_true_iff_eq. unfold str_in. rewrite orb_true_iff, !bool_decide_eq_true.
  rewrite elem_calls, !list_elem_of_omap. split.
  - intros [(i & Hi & E)|(i & Hi & E)]; exists i; (split; [done|]);
      destruct i as [| |? []| |? []| | | | | | | | | |]; simpl in *; naive_solver.
  - intros (i & Hi & E). destruct i as [| |? []| |? []| | | | | | | | | |]; simpl in *; try done;
      injection E as <-; [right|left]; eexists; (split; [exact Hi|done]).
Qed.

Lemma has_call_key l i :
  has_call l i = match required_call i with Some k => bool_decide (k ∈ calls l) | None => true end.
Proof.
  destruct i as [| | | | | | | |[] ? e| | | | | |]; simpl; try done; unfold required_call; simpl.
  - apply function_calls_split.
  - apply bool_decide_ext. rewrite elem_calls, list_elem_of_omap. split; intros (j & Hj & E);
      exists j; (split; [done|]); destruct j as [| |? []| |? []| | | | | | | | | |]; simpl in *; naive_solver.
  - case_bool_decide; [done|]. apply bool_decide_ext. rewrite elem_calls, list_elem_of_omap.
    split; intros (j & Hj & E); exists j; (split; [done|]);
      destruct j as [| |? []| |? []| | | | | | | | | |]; simpl in *; naive_solver.
  - by case_bool_decide.
Qed.

(** ** The insertions *)

(** An item followed by the output it lacks. *)
Definition with_output (l : list ResponseItem) (i : ResponseItem) : list ResponseItem :=
  i :: match missing_output l i with Some o => [o] | None => [] end.

Lemma insertions_in_place all pre l :
  fold_left (fun items '(idx, o) => vec_insert (idx + 1) o items)
    (rev (missing_outputs_to_insert all (length pre) l)) (pre ++ l) =
  pre ++ flat_map (with_output all) l.
Proof.
  revert pre. induction l as [|i l IH]; intros pre; [done|].
  specialize (IH (pre ++ [i])). rewrite length_app, Nat.add_1_r, <- !app_assoc in IH.
  cbn [missing_outputs_to_insert flat_map app] in *.
  assert (with_output all i = i :: match missing_output all i with Some o => [o] | None => [] end) as -> by done.
  destruct (missing_output all i) as [o|]; [|exact IH]. cbn [rev].
  rewrite fold_left_app, IH. simpl. unfold vec_insert.
  assert (forall t, pre ++ i :: t = (pre ++ [i]) ++ t) as Hsn by (intros; by rewrite <- app_assoc).
  rewrite Hsn, take_app_length', drop_app_length' by (rewrite length_app; simpl; lia).
  by rewrite <- !app_assoc.
Qed.

Lemma ensure_outputs_flat l : ensure_call_outputs_present l = flat_map (with_output l) l.
Proof. apply (insertions_in_place l [] l). Qed.

Lemma calls_app a b : calls (a ++ b) = calls a ++ calls b.
Proof. apply omap_app. Qed.
Lemma outputs_app a b : outputs (a ++ b) = outputs a ++ outputs b.
Proof. apply omap_app. Qed.

Lemma synthetic_output k : output_key (synthetic k) = Some k.
Proof. by destruct k as [[] ?]. Qed.
Lemma synthetic_not_call k : call_key (synthetic k) = None.
Proof. by destruct k as [[] ?]. Qed.
Lemma synthetic_required k : required_call (synthetic k) = Some k.
Proof. by destruct k as [[] ?]. Qed.
Lemma call_not_required i k : call_key i = Some k -> required_call i = None.
Proof. by destruct i as [| |? []| |? []| | | | | | | | | |]. Qed.
Lemma call_not_output i k : call_key i = Some k -> output_key i = None.
Proof. by destruct i as [| |? []| |? []| | | | | | | | | |]. Qed.
Lemma required_output i k : required_call i = Some k -> output_key i = Some k.
Proof. unfold required_call. by destruct (server_side i). Qed.

Lemma calls_with_output l i : calls (with_output l i) = calls [i].
Proof.
  unfold with_output. rewrite missing_output_key. destruct (call_key i) as [k|] eqn:E; [|done].
  case_bool_decide; [done|]. unfold calls. simpl. by rewrite E, synthetic_not_call.
Qed.

Lemma calls_flat_map (f : ResponseItem -> list ResponseItem) l :
  (forall i, calls (f i) = calls [i]) -> calls (flat_map f l) = calls l.
Proof.
  intros H. induction l as [|i l IH]; [done|]. simpl. rewrite calls_app, H, IH.
  by rewrite <- calls_app.
Qed.

(** The prompt in one pass: an item without its call is dropped, a call without its
    output is followed by a synthetic one. *)
Definition normalized (l : list ResponseItem) (i : ResponseItem) : list ResponseItem :=
  if has_call l i then with_output l i else [].

Lemma filter_flat_map {A B} (p : B -> bool) (f : A -> list B) l :
  List.filter p (flat_map f l) = flat_map (fun x => List.filter p (f x)) l.
Proof. induction l as [|x l IH]; simpl; [done|]. by rewrite List.filter_app, IH. Qed.

Lemma normalise_flat l :
  remove_orphan_outputs (ensure_call_outputs_present l) = flat_map (normalized l) l.
Proof.
  unfold remove_orphan_outputs. rewrite ensure_outputs_flat.
  assert (calls (flat_map (with_output l) l) = calls l) as Hc
    by (apply calls_flat_map, calls_with_output).
  assert (forall i, has_call (flat_map (with_output l) l) i = has_call l i) as Hh
    by (intros i; by rewrite !has_call_key, Hc).
  rewrite (List.filter_ext _ _ Hh), filter_flat_map, !flat_map_concat_map. f_equal.
  apply map_ext_in. intros i Hi%list_elem_of_In. unfold normalized, with_output.
  rewrite missing_output_key. cbn [List.filter].
  destruct (call_key i) as [k|] eqn:E; [|done].
  assert (has_call l i = true) as -> by (by rewrite has_call_key, (call_not_required i k E)).
  case_bool_decide; [done|]. cbn [List.filter]. rewrite has_call_key, synthetic_required.
  rewrite bool_decide_true; [done|]. apply elem_calls. eauto.
Qed.

Lemma normalized_calls l : calls (flat_map (normalized l) l) = calls l.
Proof.
  apply calls_flat_map. intros i. unfold normalized.
  destruct (has_call l i) eqn:E; [apply calls_with_output|].
  rewrite has_call_key in E. destruct (required_call i) as [k|] eqn:Er; [|done].
  unfold calls. simpl. destruct (call_key i) eqn:Ec; [|done].
  by rewrite (call_not_required _ _ Ec) in Er.
Qed.

Lemma normalized_balanced l : balanced (flat_map (normalized l) l).
Proof.
  split.
  - intros k Hk. rewrite normalized_calls in Hk. apply elem_outputs.
    destruct (decide (k ∈ outputs l)) as [Ho|Ho].
    + apply elem_outputs in Ho as (o & Ho & E). exists o. split; [|done].
      apply list_elem_of_In, in_flat_map. exists o. split; [by apply list_elem_of_In|].
      unfold normalized. rewrite has_call_key. unfold required_call.
      destruct (server_side o); [by left|]. rewrite E, bool_decide_true by done. by left.
    + apply elem_calls in Hk as (i & Hi & E). exists (synthetic k).
      split; [|apply synthetic_output]. apply list_elem_of_In, in_flat_map.
      exists i. split; [by apply list_elem_of_In|]. unfold normalized, with_output.
      rewrite has_call_key, missing_output_key, (call_not_required i k E), E, bool_decide_false by done.
      right. by left.
  - intros i k Hi Er. rewrite normalized_calls.
    apply list_elem_of_In, in_flat_map in Hi as (j & Hj & Hi). unfold normalized in Hi.
    destruct (has_call l j) eqn:Eh; [|done]. destruct Hi as [<-|Hi].
    + rewrite has_call_key, Er in Eh. by apply bool_decide_eq_true in Eh.
    + rewrite missing_output_key in Hi. destruct (call_key j) as [k'|] eqn:Ec; [|done].
      case_bool_decide; [done|]. destruct Hi as [<-|[]]. rewrite synthetic_required in Er.
      injection Er as <-. apply elem_calls. exists j. split; [by apply list_elem_of_In|done].
Qed.

Lemma balanced_fixed l : balanced l -> flat_map (normalized l) l = l.
Proof.
  intros [Ha Hc]. rewrite flat_map_concat_map.
  assert (map (normalized l) l = map (fun i => [i]) l) as ->.
  { apply map_ext_in. intros i Hi%list_elem_of_In. unfold normalized, with_output.
    rewrite has_call_key, missing_output_key.
    assert (match required_call i with Some k => bool_decide (k ∈ calls l) | None => true end = true) as ->.
    { destruct (required_call i) as [k|] eqn:E; [|done]. apply bool_decide_eq_true, (Hc i k Hi E). }
    destruct (call_key i) as [k|] eqn:E; [|done].
    by rewrite bool_decide_true by (apply Ha, elem_calls; eauto). }
  rewrite <- flat_map_concat_map. clear. induction l as [|i l IH]; simpl; congruence.
Qed.

(** ** Stripping images *)

Lemma strip_call_key i : call_key (strip_item i) = call_key i.
Proof. by destruct i. Qed.
Lemma strip_output_key i : output_key (strip_item i) = output_key i.
Proof. by destruct i. Qed.
Lemma strip_required i : required_call (strip_item i) = required_call i.
Proof. by destruct i. Qed.
Lemma strip_no_image i : has_image (strip_item i) = false.
Proof.
  assert (forall p, payload_has_image (strip_payload p) = false) as Hp.
  { intros [[t|l] s]; [done|]. cbv [payload_has_image strip_payload body].
    induction l as [|[] l IH]; done. }
  destruct i; simpl; try done. induction content as [|[] c IH]; done.
Qed.
Lemma strip_idemp i : strip_item (strip_item i) = strip_item i.
Proof.
  assert (forall p, strip_payload (strip_payload p) = strip_payload p) as Hp.
  { intros [[t|l] s]; [done|]. cbv [strip_payload body success]. do 2 f_equal.
    rewrite <- list_fmap_compose. apply list_fmap_ext. by intros _ [] _. }
  destruct i; simpl; try done; f_equal; try apply Hp.
  rewrite <- list_fmap_compose. apply list_fmap_ext. by intros _ [] _.
Qed.

Lemma omap_fmap_same (f : ResponseItem -> option key) (g : ResponseItem -> ResponseItem)
    (l : list ResponseItem) :
  (forall i, f (g i) = f i) -> omap f (g <$> l) = omap f l.
Proof. intros H. induction l as [|i l IH]; [done|]. csimpl. by rewrite H, IH. Qed.

Lemma strip_balanced mods l : balanced l -> balanced (strip_images_when_unsupported mods l).
Proof.
  unfold strip_images_when_unsupported. destruct (supports_images mods); [done|].
  intros [Ha Hc]. unfold balanced, answered, called, calls, outputs in *.
  rewrite !omap_fmap_same by (apply strip_call_key || apply strip_output_key).
  split; [exact Ha|]. intros i k (j & -> & Hj)%list_elem_of_fmap Er.
  rewrite strip_required in Er. eauto.
Qed.

Lemma strip_images_idemp mods l :
  strip_images_when_unsupported mods (strip_images_when_unsupported mods l) =
  strip_images_when_unsupported mods l.
Proof.
  unfold strip_images_when_unsupported. destruct (supports_images mods); [done|].
  rewrite <- list_fmap_compose. apply list_fmap_ext. intros _ i _. apply strip_idemp.
Qed.

Lemma balanced_prompt mods l :
  balanced l -> normalize_items mods l = strip_images_when_unsupported mods l.
Proof. intros H. unfold normalize_items. by rewrite normalise_flat, balanced_fixed. Qed.

Lemma normalized_completed all l : completed all l (flat_map (normalized all) l).
Proof.
  induction l as [|i l IH]; simpl; [constructor|]. unfold normalized at 1, with_output.
  rewrite has_call_key, missing_output_key. destruct (call_key i) as [k|] eqn:Ec.
  - rewrite (call_not_required _ _ Ec). assert (~ orphan all i) as Ho
      by (intros (k' & E & _); by rewrite (call_not_required _ _ Ec) in E).
    case_bool_decide as Hk.
    + apply completed_item; [done| |done]. intros k' [E Hn]. rewrite Ec in E. by injection E as <-.
    + by apply completed_unanswered.
  - assert (forall k, ~ unanswered all i k) as Hu by (intros k [E _]; congruence).
    destruct (required_call i) as [k|] eqn:Er; [case_bool_decide as Hk|].
    + apply completed_item; [|done..]. intros (k' & E & Hn). rewrite Er in E. by injection E as <-.
    + apply completed_orphan; [|done]. by exists k.
    + apply completed_item; [|done..]. intros (k' & E & _). congruence.
Qed.

Lemma supports_images_spec mods : supports_images mods = bool_decide (ModImage ∈ mods).
Proof.
  apply eq_true_iff_eq. unfold supports_images. rewrite existsb_exists, bool_decide_eq_true.
  setoid_rewrite <- list_elem_of_In. split; [by intros ([] & ? & ?)|]. by exists ModImage.
Qed.
Lemma strip_contents l : contents_replaced l (strip_content <$> l).
Proof. apply Forall2_fmap_r, Forall_Forall2_diag, Forall_true. by intros []. Qed.
Lemma strip_outputs l : outputs_replaced l (strip_output_item <$> l).
Proof. apply Forall2_fmap_r, Forall_Forall2_diag, Forall_true. by intros []. Qed.
Lemma strip_shown i : shown_without_images i (strip_item i).
Proof.
  destruct i; simpl; try by constructor.
  - constructor. apply strip_contents.
  - destruct output as [[t|l] s]; [by constructor|]. constructor. apply strip_outputs.
  - destruct output as [[t|l] s]; [by constructor|]. constructor. apply strip_outputs.
Qed.
Lemma strip_shows mods l : Forall2 (shown mods) l (strip_images_when_unsupported mods l).
Proof.
  unfold strip_images_when_unsupported, shown. rewrite supports_images_spec. case_bool_decide.
  - by apply Forall_Forall2_diag, Forall_true.
  - apply Forall2_fmap_r, Forall_Forall2_diag, Forall_true. intros i. apply strip_shown.
Qed.

(** ** Trimming *)

(** No call and no output occurs twice. *)
Definition paired (l : list ResponseItem) : Prop :=
  NoDup (calls l) /\ NoDup (outputs l) /\ balanced l.

Definition without (f : ResponseItem -> option key) (k : key) (l : list ResponseItem) : list ResponseItem :=
  List.filter (fun i => negb (bool_decide (f i = Some k))) l.

Lemma without_fresh f k l : k ∉ omap f l -> without f k l = l.
Proof.
  unfold without. induction l as [|i l IH]; simpl; [done|]. intros H.
  case_bool_decide as E; simpl.
  - rewrite E in H. by destruct H; left.
  - rewrite IH; [done|]. destruct (f i); [|done]. intros Hk. apply H. by right.
Qed.

Lemma remove_first_without f p k l :
  (forall i, i ∈ l -> p i = bool_decide (f i = Some k)) -> NoDup (omap f l) ->
  remove_first_matching p l = without f k l.
Proof.
  unfold remove_first_matching. induction l as [|i l IH]; intros Hp Hn; [done|]. simpl.
  unfold without. simpl. rewrite <- (Hp i) by by left.
  destruct (decide (p i = true)) as [E|E].
  - rewrite E. simpl. rewrite drop_0. change (l = without f k l). rewrite without_fresh; [done|].
    rewrite (Hp i) in E by by left. apply bool_decide_eq_true in E. simpl in Hn. rewrite E in Hn.
    by apply NoDup_cons in Hn as [? _].
  - apply not_true_is_false in E. rewrite E. simpl. fold (without f k l). rewrite <- IH.
    + by destruct (list_find _ l) as [[]|].
    + intros j Hj. apply Hp. by right.
    + simpl in Hn. destruct (f i); [by apply NoDup_cons in Hn as [_ ?]|done].
Qed.

Lemma elem_without f k l i : i ∈ without f k l <-> i ∈ l /\ f i <> Some k.
Proof.
  unfold without. rewrite !list_elem_of_In, filter_In.
  rewrite negb_true_iff, bool_decide_eq_false. done.
Qed.

Lemma function_call_pick id l :
  NoDup (calls l) ->
  (if existsb (is_function_call id) l then remove_first_matching (is_function_call id) l
   else remove_first_matching (is_local_shell_call id) l) = without call_key (KFunction, id) l.
Proof.
  intros Hn. destruct (existsb (is_function_call id) l) eqn:E.
  - apply remove_first_without; [|done]. intros i Hi. apply existsb_exists in E as (c & Hc & E).
    apply list_elem_of_In in Hc. unfold is_function_call in *. apply bool_decide_eq_true in E.
    apply bool_decide_ext. split.
    + intros H. destruct i; simpl in *; naive_solver.
    + intros H. assert (c = i) as <-; [|done]. clear -Hn Hi Hc E H.
      assert (call_key c = Some (KFunction, id)) as Ec by (destruct c; simpl in *; naive_solver).
      clear E. unfold calls in Hn. induction l as [|x l IH]; [by apply not_elem_of_nil in Hc|].
      simpl in Hn. apply elem_of_cons in Hc as [->|Hc], Hi as [->|Hi]; try done.
      * rewrite Ec in Hn. apply NoDup_cons in Hn as [Hx _]. destruct Hx. apply elem_calls. eauto.
      * rewrite H in Hn. apply NoDup_cons in Hn as [Hx _]. destruct Hx. apply elem_calls. eauto.
      * destruct (call_key x); [apply NoDup_cons in Hn as [_ Hn]|]; auto.
  - apply remove_first_without; [|done]. intros i Hi. apply bool_decide_ext.
    assert (function_call_id i <> Some id) as Hf.
    { intros H. assert (existsb (is_function_call id) l = true); [|congruence].
      apply existsb_exists. exists i. split; [by apply list_elem_of_In|]. by apply bool_decide_eq_true. }
    destruct i as [| |? []| |? []| | | | | | | | | |]; simpl in *; naive_solver.
Qed.

(** Removing an item removes the call or the output it goes with, and nothing else. *)
Lemma remove_corresponding_without rest x :
  NoDup (calls rest) -> NoDup (outputs rest) ->
  remove_corresponding_for rest x =
  match call_key x with
  | Some k => without output_key k rest
  | None => match output_key x with Some k => without call_key k rest | None => rest end
  end.
Proof.
  intros Hc Ho. destruct x as [| |? []| |? []| | | |[]| | | | | |]; simpl; try done;
    try apply function_call_pick; try done;
    apply remove_first_without; try done; intros i _;
    auto using function_output_key, search_output_key, custom_output_key, search_call_key, custom_call_key.
Qed.

Lemma without_NoDup g (f : ResponseItem -> option key) k l : NoDup (omap f l) -> NoDup (omap f (without g k l)).
Proof.
  intros H. apply (sublist_NoDup _ (omap f l)); [done|]. clear H. unfold without.
  induction l as [|i l IH]; simpl; [done|].
  destruct (negb _); simpl; destruct (f i); first [exact IH|by constructor].
Qed.

Lemma call_item_key i k : call_key i = Some k -> item_key i = Some k.
Proof. unfold item_key. by intros ->. Qed.
Lemma output_item_key i k : output_key i = Some k -> item_key i = Some k.
Proof. unfold item_key. destruct (call_key i) eqn:E; [by rewrite (call_not_output _ _ E)|done]. Qed.
Lemma item_key_cases i k : item_key i = Some k -> call_key i = Some k \/ output_key i = Some k.
Proof. unfold item_key. destruct (call_key i); auto. Qed.
#[local] Hint Resolve call_item_key output_item_key required_output : core.

Lemma without_paired k l : paired l -> paired (without item_key k l).
Proof.
  intros (Hc & Ho & Ha & Hr). split_and!; [by apply without_NoDup..|]. split.
  - intros k' (i & [Hi Hk]%elem_without & E)%elem_calls.
    assert (k' ∈ calls l) as (o & Hol & Eo)%Ha%elem_outputs by (apply elem_calls; eauto).
    apply elem_outputs. exists o. split; [|done]. apply elem_without. split; [done|].
    rewrite (output_item_key o k' Eo). by rewrite (call_item_key i k' E) in Hk.
  - intros i k' [Hi Hk]%elem_without E.
    pose proof (Hr i k' Hi E) as (c & Hcl & Ec)%elem_calls.
    apply elem_calls. exists c. split; [|done]. apply elem_without. split; [done|].
    rewrite (call_item_key c k' Ec). by rewrite (output_item_key i k') in Hk by auto.
Qed.

(** The items that do not belong to the same call as [x]. *)
Definition unrelated (x : ResponseItem) (l : list ResponseItem) : list ResponseItem :=
  match item_key x with Some k => without item_key k l | None => l end.

Lemma without_item_key f g k l :
  (forall i k, item_key i = Some k <-> f i = Some k \/ g i = Some k) -> k ∉ omap g l ->
  without f k l = without item_key k l.
Proof.
  intros Hf Hg. apply filter_ext_in. intros i Hi%list_elem_of_In. f_equal. apply bool_decide_ext.
  rewrite Hf. split; [by left|]. intros [?|H]; [done|]. destruct Hg. apply list_elem_of_omap. eauto.
Qed.

Lemma remove_corresponding_unrelated rest x :
  NoDup (calls rest) -> NoDup (outputs rest) ->
  (forall k, call_key x = Some k -> k ∉ calls rest) ->
  (forall k, output_key x = Some k -> k ∉ outputs rest) ->
  remove_corresponding_for rest x = unrelated x rest.
Proof.
  intros Hc Ho Hxc Hxo. rewrite remove_corresponding_without by done. unfold unrelated, item_key.
  destruct (call_key x) as [k|]; [|destruct (output_key x) as [k|]; [|done]].
  - apply (without_item_key _ call_key); [|by apply Hxc].
    intros i k'. split; [intros H%item_key_cases; tauto|intros [H|H]; auto].
  - apply (without_item_key _ output_key); [|by apply Hxo].
    intros i k'. split; [intros H%item_key_cases; tauto|intros [H|H]; auto].
Qed.

Lemma calls_cons x l : calls (x :: l) = match call_key x with Some k => k :: calls l | None => calls l end.
Proof. done. Qed.
Lemma outputs_cons x l :
  outputs (x :: l) = match output_key x with Some k => k :: outputs l | None => outputs l end.
Proof. done. Qed.

(** [paired] does not depend on the order. *)
#[global] Instance paired_perm : Proper ((≡ₚ) ==> iff) paired.
Proof.
  assert (forall l l', l ≡ₚ l' -> paired l -> paired l') as H.
  { intros l l' E (Hc & Ho & Ha & Hr). unfold paired, balanced, answered, called, calls, outputs in *.
    split_and!; [by rewrite <- E..| |].
    - intros k. rewrite <- E. apply Ha.
    - intros i k. rewrite <- E. apply Hr. }
  intros l l' E. split; by apply H.
Qed.

Lemma paired_keyless x l : item_key x = None -> paired (x :: l) -> paired l.
Proof.
  unfold item_key. destruct (call_key x) eqn:Ec; [done|]. intros Eo (Hc & Ho & Ha & Hr).
  rewrite calls_cons, Ec in Hc. rewrite outputs_cons, Eo in Ho. split_and!; try done. split.
  - intros k. specialize (Ha k). by rewrite calls_cons, outputs_cons, Ec, Eo in Ha.
  - intros i k Hi E. specialize (Hr i k ltac:(by right) E). by rewrite calls_cons, Ec in Hr.
Qed.

Lemma trim_pair x rest :
  paired (x :: rest) -> remove_corresponding_for rest x = unrelated x rest /\ paired (unrelated x rest).
Proof.
  intros H. pose proof H as (Hc & Ho & _). rewrite calls_cons in Hc. rewrite outputs_cons in Ho. split.
  - apply remove_corresponding_unrelated.
    + by destruct (call_key x); [apply NoDup_cons in Hc as [_ ?]|].
    + by destruct (output_key x); [apply NoDup_cons in Ho as [_ ?]|].
    + intros k E. rewrite E in Hc. by apply NoDup_cons in Hc as [? _].
    + intros k E. rewrite E in Ho. by apply NoDup_cons in Ho as [? _].
  - unfold unrelated. destruct (item_key x) as [k|] eqn:E; [|by apply (paired_keyless x)].
    apply (without_paired k) in H. unfold without in H at 1. simpl in H.
    by rewrite E, bool_decide_true in H by done.
Qed.

(** ** Rollback *)

Section turns.
Context {TurnContextItem : Type}.
Context (is_contextual_user_text is_inter_agent_json : str -> bool).
#[local] Abbreviation boundary := (is_user_turn_boundary is_contextual_user_text is_inter_agent_json).
#[local] Abbreviation positions := (user_message_positions is_contextual_user_text is_inter_agent_json).
#[local] Abbreviation trim := (trim_pre_turn_context_updates is_contextual_user_text).

(** The messages that start a turn. *)
Definition turns (l : list ResponseItem) : list ResponseItem := List.filter boundary l.

(** What a rollback trims above a turn: contextual developer and user messages. *)
Definition context_update (i : ResponseItem) : bool :=
  match i with
  | Message _ role content _ =>
      (bool_decide (role = $"developer") && is_contextual_dev_message_content content) ||
      (bool_decide (role = $"user") && is_contextual_user_message_content is_contextual_user_text content)
  | _ => false
  end.
(** A developer message that also holds text the next turn would not restore. *)
Definition mixed_bundle (i : ResponseItem) : bool :=
  match i with
  | Message _ role content _ =>
      bool_decide (role = $"developer") && is_contextual_dev_message_content content &&
      has_non_contextual_dev_message_content content
  | _ => false
  end.

Lemma update_is_no_boundary i : context_update i = true -> boundary i = false.
Proof.
  destruct i; simpl; try done. intros [[?%bool_decide_eq_true _]%andb_true_iff|
    [?%bool_decide_eq_true E]%andb_true_iff]%orb_true_iff; subst; simpl; [done|]. by rewrite E.
Qed.

Lemma positions_lookup p start l j k :
  positions_from p start l !! j = Some k ->
  start <= k < start + length l /\
  List.filter p (take (k - start) l) = take j (List.filter p l) /\ 
  (exists x, l !! (k - start) = Some x /\ p x = true).
Proof.
  revert start j. induction l as [|i l IH]; intros start j H; simpl in *; [done|].
  assert (forall j', positions_from p (S start) l !! j' = Some k ->
    start <= k < start + S (length l) /\
    List.filter p (take (k - start) (i :: l)) =
      (if p i then i :: take j' (List.filter p l) else take j' (List.filter p l)) /\
    (exists x, (i :: l) !! (k - start) = Some x /\ p x = true)) as Hstep.
  { intros j' (Hb & Hf & Hx)%IH. replace (k - start) with (S (k - S start)) by lia.
    split; [lia|]. split; [|exact Hx]. simpl. rewrite Hf. done. }
  destruct (p i) eqn:E; [destruct j as [|j]|]; simpl in *.
  - injection H as <-. rewrite Nat.sub_diag. simpl. split; [lia|]. split; [done|]. eauto.
  - by apply Hstep.
  - apply Hstep in H as (Hb & Hf & Hx). split_and!; [lia..|exact Hf|exact Hx].
Qed.

Lemma positions_length p start l : length (positions_from p start l) = length (List.filter p l).
Proof.
  revert start. induction l as [|i l IH]; intros start; simpl; [done|].
  destruct (p i); simpl; by rewrite IH.
Qed.

(** The walk of the trim: it passes context updates only, as many as there are. *)
Lemma trim_spec first snapshot cut clears :
  first <= cut <= length snapshot ->
  exists k, trim (cut - first) snapshot cut clears =
      (k, clears || existsb mixed_bundle (drop k (take cut snapshot))) /\
    first <= k <= cut /\ forallb context_update (drop k (take cut snapshot)) = true /\
    (first < k -> exists i, snapshot !! (k - 1) = Some i /\ context_update i = false).
Proof.
  remember (cut - first) as steps eqn:Es. revert cut clears Es.
  induction steps as [|steps IH]; intros cut clears Es Hb; cbn [trim_pre_turn_context_updates].
  { exists cut. rewrite drop_ge, orb_false_r by (rewrite length_take; lia). split_and!; try done; lia. }
  destruct (lookup_lt_is_Some_2 snapshot (cut - 1) ltac:(lia)) as [i Hi]. rewrite Hi.
  assert (forall k, k <= cut - 1 ->
    drop k (take cut snapshot) = drop k (take (cut - 1) snapshot) ++ [i]) as Hsn.
  { intros k Hk. replace cut with (S (cut - 1)) at 1 by lia.
    rewrite (take_S_r _ _ _ Hi), drop_app_le by (rewrite length_take; lia). done. }
  assert (context_update i = false ->
    (cut, clears) = (cut, clears || existsb mixed_bundle (drop cut (take cut snapshot))) /\
    first <= cut <= cut /\ forallb context_update (drop cut (take cut snapshot)) = true /\
    (first < cut -> exists i, snapshot !! (cut - 1) = Some i /\ context_update i = false)) as Hstop.
  { intros E. rewrite drop_ge, orb_false_r by (rewrite length_take; lia).
    split_and!; try done; try lia. intros _. eauto. }
  assert (forall c, context_update i = true -> c = clears || mixed_bundle i ->
    exists k, trim steps snapshot (cut - 1) c =
      (k, clears || existsb mixed_bundle (drop k (take cut snapshot))) /\
    first <= k <= cut /\ forallb context_update (drop k (take cut snapshot)) = true /\
    (first < k -> exists i, snapshot !! (k - 1) = Some i /\ context_update i = false)) as Hgo.
  { intros c Hu ->. destruct (IH (cut - 1) (clears || mixed_bundle i) ltac:(lia) ltac:(lia))
      as (k & -> & Hk & Hall & Hnext). exists k. rewrite Hsn by lia.
    rewrite existsb_app, forallb_app, Hall. simpl. rewrite Hu, orb_false_r.
    split_and!; try done; try lia. f_equal. destruct clears, (mixed_bundle i); simpl; try done;
      by rewrite ?orb_true_r, ?orb_false_r. }
  destruct i as [id role content phase| | | | | | | | | | | | | |];
    try (eexists; apply Hstop; done).
  destruct (bool_decide (role = _) && is_contextual_dev_message_content content) eqn:Ed.
  - apply Hgo; simpl; by rewrite Ed.
  - destruct (bool_decide (role = $"user") && _) eqn:Eu.
    + apply Hgo; simpl; rewrite Ed, ?Eu; [done|by rewrite orb_false_r].
    + eexists. apply Hstop. simpl. by rewrite Ed, Eu.
Qed.

Lemma turns_after_trim l k cut :
  k <= cut -> forallb context_update (drop k (take cut l)) = true -> turns (take k l) = turns (take cut l).
Proof.
  intros Hk H. rewrite <- (take_drop k (take cut l)) at 1. rewrite take_take, Nat.min_l by done.
  unfold turns. rewrite List.filter_app.
  assert (forall d, forallb context_update d = true -> List.filter boundary d = []) as Hd.
  { induction d as [|i d IH]; simpl; [done|]. intros [E ?]%andb_true_iff.
    rewrite (update_is_no_boundary i E). auto. }
  by rewrite (Hd _ H), app_nil_r.
Qed.

#[local] Abbreviation rollback := (drop_last_n_user_turns is_contextual_user_text is_inter_agent_json).
#[local] Abbreviation Manager := (ContextManager (TurnContextItem := TurnContextItem)).

(** The tentative cut: the turn it starts is the first one dropped. *)
Lemma cut_spec l first rest n :
  n <> 0 -> positions l = first :: rest ->
  exists cut i,
    (if length (first :: rest) <=? n then first
     else from_option id 0 ((first :: rest) !! (length (first :: rest) - n))) = cut /\
    first <= cut < length l /\ l !! cut = Some i /\ boundary i = true /\
    turns (take cut l) = take (length (turns l) - n) (turns l).
Proof.
  intros Hn Hp. unfold turns. rewrite <- (positions_length boundary 0 l).
  fold (positions l). rewrite Hp. set (ps := first :: rest) in *.
  assert (forall j cut, ps !! j = Some cut ->
    first <= cut < length l /\ (exists i, l !! cut = Some i /\ boundary i = true) /\
    List.filter boundary (take cut l) = take j (List.filter boundary l)) as Hat.
  { intros j cut H. pose proof H as H'. rewrite <- Hp in H'.
    apply positions_lookup in H' as (Hb & Hf & Hx). rewrite Nat.sub_0_r in *.
    split_and!; try done; try lia. destruct j as [|j]; [injection H as <-; lia|].
    assert (positions l !! 0 = Some first) as H0 by (by rewrite Hp).
    apply positions_lookup in H0 as (Hb0 & Hf0 & (x & Hx0 & Ex)). rewrite Nat.sub_0_r in *.
    destruct (decide (first <= cut)) as [|Hlt]; [lia|]. exfalso.
    destruct Hx as (y & Hy & Ey). simpl in Hf0.
    assert (y ∈ List.filter boundary (take first l)) as Hin.
    { apply list_elem_of_In, filter_In. split; [|done]. apply list_elem_of_In, list_elem_of_lookup.
      exists cut. by rewrite lookup_take_lt by lia. }
    rewrite Hf0 in Hin. by apply not_elem_of_nil in Hin. }
  destruct (Nat.leb_spec (length ps) n) as [Hle|Hgt].
  - destruct (Hat 0 first eq_refl) as (Hb & (i & Hi & Ei) & Hf). exists first, i.
    replace (length ps - n) with 0 by lia. done.
  - destruct (lookup_lt_is_Some_2 ps (length ps - n) ltac:(lia)) as [cut Hcut].
    destruct (Hat _ _ Hcut) as (Hb & (i & Hi & Ei) & Hf). exists cut, i. by rewrite Hcut.
Qed.

Lemma turns_nil_positions l : positions l = [] -> turns l = [].
Proof.
  intros H. apply length_zero_iff_nil. unfold turns. rewrite <- (positions_length boundary 0 l).
  unfold user_message_positions in H. by rewrite H.
Qed.

Lemma turns_app a b : turns (a ++ b) = turns a ++ turns b.
Proof. apply List.filter_app. Qed.

(** The turns a rollback leaves. *)
Lemma rollback_turns (m : Manager) n :
  turns (items (rollback m n)) = take (length (turns (items m)) - N.to_nat n) (turns (items m)).
Proof.
  unfold drop_last_n_user_turns. destruct (N.eqb_spec n 0) as [->|Hn].
  { by rewrite Nat.sub_0_r, firstn_all. }
  destruct (positions (items m)) as [|first rest] eqn:Ep.
  { apply turns_nil_positions in Ep. simpl. by rewrite Ep, take_nil. }
  destruct (cut_spec _ first rest (N.to_nat n) ltac:(lia) Ep) as (cut & i & -> & Hb & _ & _ & Ht).
  destruct (trim_spec first (items m) cut false ltac:(lia)) as (k & -> & Hk & Hall & _).
  simpl. rewrite (turns_after_trim _ k cut) by (done || lia). exact Ht.
Qed.

(** A rollback of n > 0 turns keeps a start of the transcript with all but its last n
    turns (none when there are fewer): what is dropped starts with a turn, above which
    the contextual updates are trimmed as well, all of them, but never anything before
    the first turn; the settings baseline is forgotten exactly when a trimmed developer
    message held other text too. *)
Theorem rollback_stops_at_a_turn (m : Manager) n :
  n <> 0%N ->
  exists updates dropped,
    items m = items (rollback m n) ++ updates ++ dropped /\
    rollback m n = bump (mkManager (items (rollback m n)) (history_version m) (token_info m)
      (if existsb mixed_bundle updates then None else reference_context_item m)) /\
    turns (items (rollback m n)) = take (length (turns (items m)) - N.to_nat n) (turns (items m)) /\
    (dropped = [] \/ exists i d, dropped = i :: d /\ boundary i = true) /\
    forallb context_update updates = true /\
    (turns (items (rollback m n)) = [] -> updates = []) /\
    (turns (items (rollback m n)) <> [] -> dropped <> [] ->
     exists i, last (items (rollback m n)) = Some i /\ context_update i = false).
Proof.
  intros Hn. unfold drop_last_n_user_turns. destruct (N.eqb_spec n 0); [done|].
  destruct (positions (items m)) as [|first rest] eqn:Ep.
  { exists [], []. apply turns_nil_positions in Ep. simpl. rewrite app_nil_r, Ep, take_nil.
    split_and!; try done. by left. }
  destruct (cut_spec _ first rest (N.to_nat n) ltac:(lia) Ep) as (cut & i & -> & Hb & Hi & Ei & Ht).
  destruct (trim_spec first (items m) cut false ltac:(lia)) as (k & -> & Hk & Hall & Hnext).
  set (u := drop k (take cut (items m))) in *. exists u, (drop cut (items m)).
  assert (items (replace (if false || existsb mixed_bundle u then set_reference_context_item m None else m)
      (take k (items m))) = take k (items m)) as -> by done.
  assert (turns (take k (items m)) = turns (take cut (items m))) as Hkc by (apply turns_after_trim; [lia|done]).
  split_and!; try done.
  - unfold u. rewrite app_assoc. rewrite <- (take_drop cut (items m)) at 1. f_equal.
    rewrite <- (take_drop k (take cut (items m))) at 1. by rewrite take_take, Nat.min_l by lia.
  - simpl. by destruct (existsb mixed_bundle u).
  - by rewrite Hkc.
  - right. exists i, (drop (S cut) (items m)). split; [by apply drop_S|done].
  - intros Hnil. destruct (decide (first = cut)) as [->|Hne].
    { unfold u. apply drop_ge. rewrite length_take. lia. }
    exfalso. assert (positions (items m) !! 0 = Some first) as H0 by (by rewrite Ep).
    apply positions_lookup in H0 as (_ & _ & (x & Hx & Ex)). rewrite Nat.sub_0_r in Hx.
    assert (x ∈ turns (take cut (items m))) as Hin.
    { apply list_elem_of_In, filter_In. split; [|done]. apply list_elem_of_In, list_elem_of_lookup.
      exists first. by rewrite lookup_take_lt by lia. }
    rewrite <- Hkc, Hnil in Hin. by apply not_elem_of_nil in Hin.
  - intros Hne _. destruct (decide (first < k)) as [Hlt|Hge].
    + destruct (Hnext Hlt) as (j & Hj & Ej). exists j. split; [|done].
      rewrite last_lookup, length_take, Nat.min_l by lia.
      rewrite lookup_take_lt by lia. by replace (pred k) with (k - 1) by lia.
    + exfalso. apply Hne. replace k with first by lia.
      assert (positions (items m) !! 0 = Some first) as H0 by (by rewrite Ep).
      apply positions_lookup in H0 as (_ & Hf & _). by rewrite Nat.sub_0_r in Hf.
Qed.
End turns.

(** ** Recording *)

(** What recording keeps of an item: everything but the texts of an output. *)
Definition same_shape (i i' : ResponseItem) : Prop :=
  call_key i' = call_key i /\ output_key i' = output_key i /\ required_call i' = required_call i /\
  has_image i' = has_image i /\ (output_key i = None -> i' = i).

Lemma images_are_non_text l : existsb is_out_image l = existsb is_out_image (non_text l).
Proof. unfold non_text. induction l as [|[] l IH]; simpl; by rewrite ?IH. Qed.

Lemma truncate_payload_total p policy :
  exists p', truncate_function_output_payload p policy = Some p' /\
    payload_has_image p' = payload_has_image p.
Proof.
  destruct p as [[t|l] s]; cbv [truncate_function_output_payload body success].
  - destruct (truncate_text_total t policy) as [t' ->]. by eexists.
  - destruct (items_truncation_total l policy) as (l' & -> & E). eexists. split; [done|].
    cbv [payload_has_image body]. by rewrite images_are_non_text, E, <- images_are_non_text.
Qed.

Lemma process_item_total i policy :
  exists i', process_item i policy = Some i' /\ same_shape i i'.
Proof.
  unfold same_shape. destruct i; simpl; try (by eexists).
  all: destruct (truncate_payload_total output (policy_mul policy serialization_factor)) as (p' & -> & E);
    eexists; (split; [done|]); by simpl.
Qed.

Lemma record_items_spec {T} (m : ContextManager (TurnContextItem := T)) l policy :
  exists recorded, record_items m l policy = Some (set_items m (items m ++ recorded)) /\
    Forall2 same_shape (List.filter is_api_message l) recorded.
Proof.
  revert m. induction l as [|i l IH]; intros m; cbn [record_items].
  - exists []. rewrite app_nil_r. by destruct m.
  - cbn [List.filter]. destruct (is_api_message i); cbn [negb]; [|apply IH].
    destruct (process_item_total i policy) as (i' & -> & Es). cbn [mbind option_bind].
    destruct (IH (set_items m (items m ++ [i']))) as (r & -> & Hr).
    exists (i' :: r). split; [|by constructor]. simpl. by rewrite <- app_assoc.
Qed.

Lemma same_shape_keys l l' :
  Forall2 same_shape l l' ->
  calls l' = calls l /\ outputs l' = outputs l /\ (called l -> called l').
Proof.
  intros H. assert (calls l' = calls l) as Hc.
  { induction H as [|i i' l l' (E & _) _ IH]; [done|]. by rewrite !calls_cons, E, IH. }
  assert (outputs l' = outputs l) as Ho.
  { clear Hc. induction H as [|i i' l l' (_ & E & _) _ IH]; [done|]. by rewrite !outputs_cons, E, IH. }
  split_and!; [done..|]. intros Hr i' k (n & Hi)%list_elem_of_lookup Er. rewrite Hc.
  destruct (Forall2_lookup_r _ _ _ _ _ H Hi) as (i & Hi' & (_ & _ & E & _)).
  apply (Hr i k); [by apply list_elem_of_lookup; exists n|congruence].
Qed.

Lemma same_shape_paired l l' : Forall2 same_shape l l' -> paired l -> paired l'.
Proof.
  intros (Hc & Ho & Hr)%same_shape_keys (Nc & No & Ha & Hcl).
  unfold paired, balanced, answered. rewrite Hc, Ho. auto.
Qed.

Lemma same_shape_refl l : Forall2 same_shape l l.
Proof. apply Forall_Forall2_diag, Forall_true. by intros i. Qed.

(** ** Properties *)

(** C31: The prompt of a release build never fails, and is the transcript without the
    outputs whose call is missing, and with an output right behind each call that has
    none: "aborted" for a function, shell or custom call, a search that found no tools
    for a search.  For a model without image input the images are replaced by a text and
    no image is left; nothing else is changed.  In the result every call has an output
    and every output a call, and normalising it again changes nothing.  Shell calls and
    searches without a call id, and outputs of searches that name no call or that the
    server ran, are left as they are. *)
Theorem prompts_are_balanced {T} (m : ContextManager (TurnContextItem := T)) mods :
  exists complete prompt, for_prompt false m mods = Some prompt /\
    completed (items m) (items m) complete /\ Forall2 (shown mods) complete prompt /\
    balanced prompt /\
    (ModImage ∉ mods -> Forall (fun i => has_image i = false) prompt) /\
    normalize_items mods prompt = prompt.
Proof.
  set (complete := flat_map (normalized (items m)) (items m)).
  exists complete, (strip_images_when_unsupported mods complete).
  assert (balanced (strip_images_when_unsupported mods complete)) as Hb
    by apply strip_balanced, normalized_balanced.
  split_and!; [|apply normalized_completed|apply strip_shows|done| |].
  - unfold for_prompt, normalize_items. by rewrite normalise_flat.
  - intros Hs. unfold strip_images_when_unsupported. rewrite supports_images_spec, bool_decide_false by done.
    apply Forall_fmap, Forall_true. intros i. apply strip_no_image.
  - by rewrite balanced_prompt, strip_images_idemp.
Qed.

(** In a transcript whose calls and outputs come in pairs, dropping the oldest or the
    newest item drops the item of its pair with it and nothing else, so the pairs stay
    whole and the next prompt needs no invented output. *)
Theorem trimming_keeps_pairs {T} (m : ContextManager (TurnContextItem := T)) :
  paired (items m) ->
  (forall x rest, items m = x :: rest ->
     items (remove_first_item m) = unrelated x rest /\ paired (unrelated x rest)) /\
  (forall x rest, items m = rest ++ [x] ->
     items (fst (remove_last_item m)) = unrelated x rest /\ paired (unrelated x rest)) /\
  normalize_items [ModImage] (items (remove_first_item m)) = items (remove_first_item m).
Proof.
  intros H.
  assert (forall x rest, items m = x :: rest ->
    items (remove_first_item m) = unrelated x rest /\ paired (unrelated x rest)) as Hf.
  { intros x rest E. unfold remove_first_item. rewrite E in *. by apply trim_pair. }
  split_and!; [done| |].
  - intros x rest E. unfold remove_last_item. rewrite E, last_snoc. simpl.
    rewrite length_app, Nat.add_sub, take_app_length. apply trim_pair.
    rewrite Permutation_cons_append. by rewrite E in H.
  - destruct (items m) as [|x rest] eqn:E.
    + unfold remove_first_item. by rewrite E, E.
    + destruct (Hf x rest eq_refl) as [-> Hp]. by rewrite balanced_prompt by apply Hp.
Qed.

(** Recording items never fails; it appends the items that go to the model, in order,
    each as it was but for the texts of tool outputs, and so keeps calls and outputs
    paired. *)
Theorem recording_keeps_pairs {T} (m : ContextManager (TurnContextItem := T)) l policy :
  exists recorded, record_items m l policy = Some (set_items m (items m ++ recorded)) /\
    Forall2 same_shape (List.filter is_api_message l) recorded /\
    (paired (items m ++ List.filter is_api_message l) -> paired (items m ++ recorded)).
Proof.
  destruct (record_items_spec m l policy) as (r & E & Hr). exists r.
  split_and!; [done..|]. apply same_shape_paired, Forall2_app; [apply same_shape_refl|done].
Qed.

(** ** Instances of the properties *)

Definition said (role text : str) : ResponseItem := Message None role [InputText text] None.
Definition called_once : list ResponseItem :=
  [FunctionCall None $"shell" None $"{}" $"c1"; said $"user" $"go on";
   FunctionCallOutput $"c1" (from_text $"done")].
Definition thread : list ResponseItem :=
  [said $"developer" $"be brief"; said $"user" $"one"; said $"assistant" $"ok";
   said $"developer" $"<model_switch>"; said $"user" $"two"; said $"assistant" $"ok"].
Definition manager_of (l : list ResponseItem) : ContextManager (TurnContextItem := unit) :=
  mkManager l 0 None (Some tt).

Lemma called_once_paired : paired called_once.
Proof.
  split_and!; [by apply (bool_decide_unpack _); vm_compute..|]. split.
  - intros k Hk. exact Hk.
  - intros i k Hi E. repeat (apply elem_of_cons in Hi as [->|Hi]; [simpl in E; try done|]).
    + injection E as <-. by left.
    + by apply not_elem_of_nil in Hi.
Qed.

Lemma rollback_stops_at_a_turn_witness :
  exists updates dropped,
    thread = take 3 thread ++ updates ++ dropped /\ existsb mixed_bundle updates = false /\
    forallb (context_update (fun _ => false)) updates = true.
Proof.
  destruct (rollback_stops_at_a_turn (fun _ => false) (fun _ => false) (manager_of thread) 1)
    as (u & d & E & _ & _ & _ & Hu & _); [done|].
  exists u, d. split_and!; [exact E| |exact Hu].
  vm_compute in E. repeat (destruct u as [|? u]; [done|injection E as <- E]; try done).
Defined.

Lemma trimming_keeps_pairs_witness :
  items (remove_first_item (manager_of called_once)) = [said $"user" $"go on"] /\
  paired [said $"user" $"go on"].
Proof.
  destruct (trimming_keeps_pairs (manager_of called_once) called_once_paired) as [H _].
  exact (H _ _ eq_refl).
Defined.

(** An output is enough for a prompt wherever it stands, also before its call. *)
Example output_before_its_call :
  let l := [FunctionCallOutput $"c1" aborted; FunctionCall None $"shell" None $"{}" $"c1"] in
  normalize_items [ModText] l = l.
Proof. reflexivity. Qed.
End Transcript.
