(* ===== verification/Fragments.v ===== *)
(** The texts the program injects into a conversation: [context-fragments], the fragments
    of [core/src/context] and [core-skills], and their recognition in a transcript
    ([contextual_user_message.rs]).  A fragment is a marked text; a message made of one
    is context, not a turn of the user. *)
From S2P Require Import Prelude Paths PathOps Permissions PermissionProfile Truncate ContextHistory.
From Stdlib Require Import SpecFloat.

Module Fragments.
Import Truncate History.

(** ** context-fragments *)

(** [matches_marked_text]; markers are ASCII, so [get] cuts between characters. *)
Definition matches_marked_text (start_marker end_marker text : str) : bool :=
  if Str.is_empty start_marker || Str.is_empty end_marker then false
  else
    let trimmed := Str.trim_start text in
    let starts_with_marker := starts_with_ignore_case start_marker trimmed in
    let trimmed := Str.trim_end trimmed in
    let ends_with_marker :=
      Str.eq_ignore_ascii_case (drop (length trimmed - length end_marker) trimmed) end_marker in
    starts_with_marker && ends_with_marker.

(** The trait [ContextualUserFragment]; [markers] is [type_markers] in every
    implementation. *)
Class ContextualUserFragment (A : Type) := {
  role : A -> str;
  type_markers : str * str;
  matches_text : str -> bool;
  fragment_body : A -> str;
}.
#[global] Arguments type_markers A {_}.
#[global] Arguments matches_text A {_}.

Definition matches_by_markers (markers : str * str) : str -> bool :=
  matches_marked_text (fst markers) (snd markers).

Definition render `{ContextualUserFragment A} (x : A) : str :=
  let '(start_marker, end_marker) := type_markers A in
  if Str.is_empty start_marker && Str.is_empty end_marker then fragment_body x
  else start_marker ++ fragment_body x ++ end_marker.

Definition into `{ContextualUserFragment A} (x : A) : ResponseItem :=
  Message None (role x) [InputText (render x)] None.

(** ** The registered fragments *)

Definition nl : str := [newline].

Record UserInstructions := mkInstructions { directory : str; instructions_text : str }.
#[global] Instance user_instructions_fragment : ContextualUserFragment UserInstructions := {
  role := fun _ => $"user";
  type_markers := ($"# AGENTS.md instructions for ", $"</INSTRUCTIONS>");
  matches_text := matches_by_markers ($"# AGENTS.md instructions for ", $"</INSTRUCTIONS>");
  fragment_body := fun x =>
    directory x ++ nl ++ nl ++ $"<INSTRUCTIONS>" ++ nl ++ instructions_text x ++ nl;
}.

Record SkillInstructions := mkSkill { skill_name : str; skill_path : str; contents : str }.
#[global] Instance skill_fragment : ContextualUserFragment SkillInstructions := {
  role := fun _ => $"user";
  type_markers := ($"<skill>", $"</skill>");
  matches_text := matches_by_markers ($"<skill>", $"</skill>");
  fragment_body := fun x =>
    nl ++ $"<name>" ++ skill_name x ++ $"</name>" ++ nl ++ $"<path>" ++ skill_path x ++ $"</path>" ++
    nl ++ contents x ++ nl;
}.

Record TurnAborted := mkAborted { guidance : str }.
#[global] Instance turn_aborted_fragment : ContextualUserFragment TurnAborted := {
  role := fun _ => $"user";
  type_markers := ($"<turn_aborted>", $"</turn_aborted>");
  matches_text := matches_by_markers ($"<turn_aborted>", $"</turn_aborted>");
  fragment_body := fun x => nl ++ guidance x ++ nl;
}.

(** [AdditionalContextUserFragment]: the closing tag repeats the key. *)
Definition MAX_ADDITIONAL_CONTEXT_VALUE_TOKENS : N := 1000.
Definition clipped (value : str) : str :=
  from_option fst [] (truncate_middle_with_token_budget value MAX_ADDITIONAL_CONTEXT_VALUE_TOKENS).
Definition additional_context_body (key value : str) : str :=
  key ++ $">" ++ clipped value ++ $"</external_" ++ key.
Definition matches_additional_context (text : str) : bool :=
  match Str.strip_prefix $"<external_" (Str.trim text) with
  | None => false
  | Some rest =>
      match Str.split_once (ch ">") rest with
      | None => false
      | Some (key, value_and_close) => Str.ends_with ($"</external_" ++ key ++ $">") value_and_close
      end
  end.
Record AdditionalContextUserFragment := mkAdditionalUser { key : str; value : str }.
#[global] Instance additional_user_fragment : ContextualUserFragment AdditionalContextUserFragment := {
  role := fun _ => $"user";
  type_markers := ($"<external_", $">");
  matches_text := matches_additional_context;
  fragment_body := fun x => additional_context_body (key x) (value x);
}.

(** The developer variant has no markers. *)
Definition additional_context_developer_body (key value : str) : str :=
  $"<" ++ key ++ $">" ++ clipped value ++ $"</" ++ key ++ $">".
Record AdditionalContextDeveloperFragment := mkAdditionalDev { dev_key : str; dev_value : str }.
#[global] Instance additional_dev_fragment : ContextualUserFragment AdditionalContextDeveloperFragment := {
  role := fun _ => $"developer";
  type_markers := ([], []);
  matches_text := matches_by_markers ([], []);
  fragment_body := fun x => additional_context_developer_body (dev_key x) (dev_value x);
}.

(** [internal_model_context.rs]. *)
Definition is_ascii_lowercase (c : char) : bool := ((97 <=? c) && (c <=? 122))%N.
Definition is_valid_source (source : str) : bool :=
  match source with
  | [] => false
  | first :: chars =>
      is_ascii_lowercase first &&
      forallb (fun c => is_ascii_lowercase c || Str.is_ascii_digit c || bool_decide (c = ch "_")) chars
  end.
Definition CONTEXT_START_MARKER : str := $"<codex_internal_context".
Definition CONTEXT_END_MARKER : str := $"</codex_internal_context>".
Definition SOURCE_ATTR_START : str := $" source=" ++ [dquote].
Definition SOURCE_ATTR_END : str := dquote :: $">".
Definition matches_legacy_goal_context (text : str) : bool :=
  Str.starts_with $"<goal_context>" text && Str.ends_with $"</goal_context>" text.
Definition matches_internal_context (text : str) : bool :=
  let trimmed := Str.trim text in
  if matches_legacy_goal_context trimmed then true
  else
    match Str.strip_prefix CONTEXT_START_MARKER trimmed with
    | None => false
    | Some rest =>
        match Str.strip_prefix SOURCE_ATTR_START rest with
        | None => false
        | Some rest =>
            match Str.split_once_str SOURCE_ATTR_END rest with
            | None => false
            | Some (source, body_and_close) =>
                is_valid_source source && Str.ends_with CONTEXT_END_MARKER body_and_close
            end
        end
    end.
(** [InternalContextSource::new]. *)
Definition internal_context_source (source : str) : result str str :=
  if is_valid_source source then Ok source else Err source.
Record InternalModelContextFragment := mkInternal { source : str; internal_body : str }.
#[global] Instance internal_fragment : ContextualUserFragment InternalModelContextFragment := {
  role := fun _ => $"user";
  type_markers := (CONTEXT_START_MARKER, CONTEXT_END_MARKER);
  matches_text := matches_internal_context;
  fragment_body := fun x =>
    SOURCE_ATTR_START ++ source x ++ SOURCE_ATTR_END ++ nl ++ internal_body x ++ nl;
}.

(** Warnings of older sessions, only recognised. *)
Definition matches_apply_patch_warning (text : str) : bool :=
  let trimmed := Str.trim text in
  Str.starts_with $"Warning: apply_patch was requested via " trimmed &&
  Str.ends_with $"Use the apply_patch tool instead of exec_command." trimmed.
Definition matches_model_mismatch_warning (text : str) : bool :=
  Str.starts_with $"Warning: Your account was flagged for potentially high-risk cyber activity"
    (Str.trim text).
Definition matches_process_limit_warning (text : str) : bool :=
  Str.starts_with $"Warning: The maximum number of unified exec processes you can keep open is"
    (Str.trim text).

(** ** The environment context (environment_context.rs) *)

Import Permissions Profile.

Definition quoted (s : str) : str := [dquote] ++ s ++ [dquote].

(** [push_xml_escaped_text]. *)
Definition xml_escape_char (c : char) : str :=
  if bool_decide (c = ch "&") then $"&amp;"
  else if bool_decide (c = ch "<") then $"&lt;"
  else if bool_decide (c = ch ">") then $"&gt;"
  else if bool_decide (c = dquote) then $"&quot;"
  else if bool_decide (c = ch "'") then $"&apos;"
  else [c].
Definition push_xml_escaped_text (value : str) : str := flat_map xml_escape_char value.
Definition push_text_element (name value : str) : str :=
  $"<" ++ name ++ $">" ++ push_xml_escaped_text value ++ $"</" ++ name ++ $">".

Definition render_special_path_with_subpath (base : str) (subpath : option str) : str :=
  match subpath with Some subpath => base ++ $"/" ++ subpath | None => base end.
Definition render_special_path (value : FileSystemSpecialPath) : str :=
  match value with
  | Root => $":root"
  | Minimal => $":minimal"
  | ProjectRoots subpath => render_special_path_with_subpath $":workspace_roots" subpath
  | Tmpdir => $":tmpdir"
  | SlashTmp => $":slash_tmp"
  | Unknown path subpath => render_special_path_with_subpath path subpath
  end.
(** The access modes as [strum] prints them. *)
Definition show_access (a : FileSystemAccessMode) : str :=
  match a with Read => $"read" | Write => $"write" | Deny => $"deny" end.
Definition render_file_system_entry (entry : FileSystemSandboxEntry) : str :=
  $"<entry access=" ++ [dquote] ++ show_access (access entry) ++
  (match access entry with
   | Deny => [dquote] ++ $" escalatable=" ++ [dquote] ++ $"false"
   | _ => []
   end) ++ [dquote] ++ $">" ++
  (match entry_path entry with
   | PathEntry path => push_text_element $"path" path
   | GlobPattern pattern => push_text_element $"glob" pattern
   | Special value => push_text_element $"special" (render_special_path value)
   end) ++ $"</entry>".

Inductive ManagedFileSystemContext :=
| CtxRestricted (entries : list FileSystemSandboxEntry) (glob_scan_max_depth : option N)
| CtxUnrestricted.
Inductive FileSystemPermissionProfileContext :=
| CtxManaged (file_system : ManagedFileSystemContext)
| CtxDisabled
| CtxExternal.
Record FileSystemContext := mkFsContext {
  ctx_workspace_roots : list str;
  ctx_permission_profile : FileSystemPermissionProfileContext;
}.

(** [dedupe_file_system_entries]: the first of equal entries stays. *)
Fixpoint dedupe_file_system_entries (seen l : list FileSystemSandboxEntry) : list FileSystemSandboxEntry :=
  match l with
  | [] => []
  | e :: l' =>
      if existsb (entry_eqb e) seen then dedupe_file_system_entries seen l'
      else e :: dedupe_file_system_entries (seen ++ [e]) l'
  end.
Definition managed_context (p : ManagedFileSystemPermissions) : ManagedFileSystemContext :=
  match p with
  | ManagedRestricted entries depth =>
      CtxRestricted (dedupe_file_system_entries [] entries) (Npos <$> depth)
  | ManagedUnrestricted => CtxUnrestricted
  end.
(** [None] is the [unreachable!] of the materialisation. *)
Definition from_permission_profile (env : PathOps.Env) (p : PermissionProfile) (workspace_roots : list str)
    : option FileSystemContext :=
  p ← profile_materialize_with_workspace_roots env p workspace_roots;
  Some (mkFsContext workspace_roots
    match p with
    | Managed file_system _ => CtxManaged (managed_context file_system)
    | Disabled => CtxDisabled
    | External _ => CtxExternal
    end).

Definition render_managed (m : ManagedFileSystemContext) : str :=
  match m with
  | CtxRestricted [] None => $"<file_system type=" ++ quoted $"restricted" ++ $" />"
  | CtxRestricted entries glob_scan_max_depth =>
      $"<file_system type=" ++ quoted $"restricted" ++
      (match glob_scan_max_depth with
       | Some d => $" glob_scan_max_depth=" ++ quoted (Str.show_N d)
       | None => []
       end) ++ $">" ++ flat_map render_file_system_entry entries ++ $"</file_system>"
  | CtxUnrestricted => $"<file_system type=" ++ quoted $"unrestricted" ++ $" />"
  end.
Definition render_profile (p : FileSystemPermissionProfileContext) : str :=
  match p with
  | CtxManaged file_system =>
      $"<permission_profile type=" ++ quoted $"managed" ++ $">" ++ render_managed file_system ++
      $"</permission_profile>"
  | CtxDisabled =>
      $"<permission_profile type=" ++ quoted $"disabled" ++ $"><file_system type=" ++
      quoted $"unrestricted" ++ $" /></permission_profile>"
  | CtxExternal =>
      $"<permission_profile type=" ++ quoted $"external" ++ $"><file_system type=" ++
      quoted $"external" ++ $" /></permission_profile>"
  end.
Definition render_file_system (c : FileSystemContext) : str :=
  $"<filesystem>" ++
  (match ctx_workspace_roots c with
   | [] => []
   | roots => $"<workspace_roots>" ++ flat_map (push_text_element $"root") roots ++ $"</workspace_roots>"
   end) ++ render_profile (ctx_permission_profile c) ++ $"</filesystem>".

Record NetworkContext := mkNetwork { allowed_domains : list str; denied_domains : list str }.
Definition push_rendered_domain_element (name : str) (domains : list str) : str :=
  match domains with
  | [] => []
  | _ => $"<" ++ name ++ $">" ++ Str.join $"," domains ++ $"</" ++ name ++ $">"
  end.
Definition render_network (c : NetworkContext) : str :=
  $"<network enabled=" ++ quoted $"true" ++ $">" ++
  push_rendered_domain_element $"allowed" (allowed_domains c) ++
  push_rendered_domain_element $"denied" (denied_domains c) ++ $"</network>".

Record EnvironmentContextEnvironment := mkEnvironment { env_id : str; env_cwd : str; env_shell : str }.
Inductive EnvironmentContextEnvironments :=
| NoEnvironment
| Single (environment : EnvironmentContextEnvironment)
| Multiple (environments : list EnvironmentContextEnvironment).
Definition environments_from_vec (l : list EnvironmentContextEnvironment) : EnvironmentContextEnvironments :=
  match l with [] => NoEnvironment | [e] => Single e | _ => Multiple l end.
Definition environments_equal_except_shell (a b : EnvironmentContextEnvironments) : bool :=
  match a, b with
  | NoEnvironment, NoEnvironment => true
  | Single l, Single r => PathOps.path_eqb (env_cwd l) (env_cwd r)
  | Multiple ls, Multiple rs =>
      (length ls =? length rs) &&
      forallb (fun '(l, r) => bool_decide (env_id l = env_id r) && PathOps.path_eqb (env_cwd l) (env_cwd r))
        (zip ls rs)
  | _, _ => false
  end.

Record EnvironmentContext := mkEnvContext {
  environments : EnvironmentContextEnvironments;
  current_date : option str;
  timezone : option str;
  ctx_network : option NetworkContext;
  filesystem : option FileSystemContext;
  subagents : option str;
}.
Definition with_subagents (c : EnvironmentContext) (s : str) : EnvironmentContext :=
  if Str.is_empty s then c
  else mkEnvContext (environments c) (current_date c) (timezone c) (ctx_network c) (filesystem c) (Some s).

Definition opt_line (f : str -> str) (o : option str) : list str :=
  match o with Some s => [f s] | None => [] end.
Definition environment_lines (e : EnvironmentContextEnvironments) : list str :=
  match e with
  | Single environment =>
      [$"  <cwd>" ++ env_cwd environment ++ $"</cwd>"; $"  <shell>" ++ env_shell environment ++ $"</shell>"]
  | Multiple environments =>
      [$"  <environments>"] ++
      flat_map (fun environment =>
        [$"    <environment id=" ++ quoted (env_id environment) ++ $">";
         $"      <cwd>" ++ env_cwd environment ++ $"</cwd>";
         $"      <shell>" ++ env_shell environment ++ $"</shell>"; $"    </environment>"]) environments ++
      [$"  </environments>"]
  | NoEnvironment => []
  end.
Definition environment_body (c : EnvironmentContext) : str :=
  nl ++ Str.join nl
    (environment_lines (environments c) ++
     opt_line (fun d => $"  <current_date>" ++ d ++ $"</current_date>") (current_date c) ++
     opt_line (fun t => $"  <timezone>" ++ t ++ $"</timezone>") (timezone c) ++
     (match ctx_network c with Some n => [$"  " ++ render_network n] | None => [] end) ++
     (match filesystem c with Some f => [$"  " ++ render_file_system f] | None => [] end) ++
     (match subagents c with
      | Some s => [$"  <subagents>"] ++ map (fun line => $"    " ++ line) (Str.lines s) ++ [$"  </subagents>"]
      | None => []
      end)) ++ nl.
#[global] Instance environment_fragment : ContextualUserFragment EnvironmentContext := {
  role := fun _ => $"user";
  type_markers := ($"<environment_context>", $"</environment_context>");
  matches_text := matches_by_markers ($"<environment_context>", $"</environment_context>");
  fragment_body := environment_body;
}.

(** ** Registration and recognition (contextual_user_message.rs) *)

Record UserShellCommand := mkShellCommand {
  shell_command : str;
  exit_code : Z;
  duration_seconds : spec_float;
  shell_output : str;
}.
Record SubagentNotification {AgentStatus : Type} := mkNotification {
  agent_reference : str;
  status : AgentStatus;
}.
#[global] Arguments SubagentNotification : clear implicits.
Record HookPromptFragment := mkHook { hook_text : str; hook_run_id : str }.

Definition show_Z (z : Z) : str := lit (pretty z).

Section registered.
(** The formatting of a float with four decimals, the JSON of a notification, and the XML
    parser of hook prompts. *)
Context {AgentStatus : Type}.
Context (format_4 : spec_float -> str) (notification_json : str -> AgentStatus -> str).
Context (parse_hook_prompt_xml : str -> option HookPromptFragment).

#[global] Instance shell_command_fragment : ContextualUserFragment UserShellCommand := {
  role := fun _ => $"user";
  type_markers := ($"<user_shell_command>", $"</user_shell_command>");
  matches_text := matches_by_markers ($"<user_shell_command>", $"</user_shell_command>");
  fragment_body := fun x =>
    nl ++ $"<command>" ++ nl ++ shell_command x ++ nl ++ $"</command>" ++ nl ++ $"<result>" ++ nl ++
    $"Exit code: " ++ show_Z (exit_code x) ++ nl ++ $"Duration: " ++ format_4 (duration_seconds x) ++
    $" seconds" ++ nl ++ $"Output:" ++ nl ++ shell_output x ++ nl ++ $"</result>" ++ nl;
}.
#[global] Instance subagent_fragment : ContextualUserFragment (SubagentNotification AgentStatus) := {
  role := fun _ => $"user";
  type_markers := ($"<subagent_notification>", $"</subagent_notification>");
  matches_text := matches_by_markers ($"<subagent_notification>", $"</subagent_notification>");
  fragment_body := fun x => nl ++ notification_json (agent_reference x) (status x) ++ nl;
}.

Definition CONTEXTUAL_USER_FRAGMENTS : list (str -> bool) :=
  [matches_text UserInstructions; matches_text EnvironmentContext;
   matches_text AdditionalContextUserFragment; matches_text SkillInstructions;
   matches_text UserShellCommand; matches_text TurnAborted;
   matches_text (SubagentNotification AgentStatus); matches_text InternalModelContextFragment;
   matches_process_limit_warning; matches_apply_patch_warning; matches_model_mismatch_warning].
Definition is_standard_contextual_user_text (text : str) : bool :=
  existsb (fun matches => matches text) CONTEXTUAL_USER_FRAGMENTS.

Definition parse_hook_prompt_fragment (text : str) : option HookPromptFragment :=
  fragment ← parse_hook_prompt_xml (Str.trim text);
  if Str.is_empty (Str.trim (hook_run_id fragment)) then None else Some fragment.

(** The recogniser the transcript takes as an argument. *)
Definition is_contextual_user_text (text : str) : bool :=
  bool_decide (is_Some (parse_hook_prompt_fragment text)) || is_standard_contextual_user_text text.

Fixpoint visible_hook_fragments (content : list ContentItem) : option (list HookPromptFragment) :=
  match content with
  | [] => Some []
  | InputText text :: content' =>
      match parse_hook_prompt_fragment text with
      | Some fragment => fragments ← visible_hook_fragments content'; Some (fragment :: fragments)
      | None =>
          if is_standard_contextual_user_text text then visible_hook_fragments content' else None
      end
  | _ => None
  end.
Definition parse_visible_hook_prompt_message (content : list ContentItem)
    : option (list HookPromptFragment) :=
  match visible_hook_fragments content with
  | Some [] | None => None
  | Some fragments => Some fragments
  end.

(** ** What is injected is recognised *)

(** The fragments the program still produces as user messages. *)
Inductive Injected :=
| InjInstructions (x : UserInstructions)
| InjEnvironment (x : EnvironmentContext)
| InjAdditional (x : AdditionalContextUserFragment)
| InjSkill (x : SkillInstructions)
| InjShell (x : UserShellCommand)
| InjAborted (x : TurnAborted)
| InjSubagent (x : SubagentNotification AgentStatus)
| InjInternal (x : InternalModelContextFragment).

Definition injected_item (f : Injected) : ResponseItem :=
  match f with
  | InjInstructions x => into x
  | InjEnvironment x => into x
  | InjAdditional x => into x
  | InjSkill x => into x
  | InjShell x => into x
  | InjAborted x => into x
  | InjSubagent x => into x
  | InjInternal x => into x
  end.

(** A key holds no closing bracket; a source passed [InternalContextSource::new]. *)
Definition injected_ok (f : Injected) : Prop :=
  match f with
  | InjAdditional x => ch ">" ∉ key x
  | InjInternal x => internal_context_source (source x) = Ok (source x)
  | _ => True
  end.

(** Trimming leaves a text alone that starts and ends visibly. *)
Definition visible (c : option char) : bool :=
  match c with Some c => negb (Str.is_whitespace c) | None => false end.

Lemma eq_ignore_refl s : Str.eq_ignore_ascii_case s s = true.
Proof. by apply bool_decide_eq_true. Qed.

Lemma trim_visible start b fin :
  visible (head start) = true -> visible (last fin) = true ->
  Str.trim_start (start ++ b ++ fin) = start ++ b ++ fin /\
  Str.trim_end (start ++ b ++ fin) = start ++ b ++ fin.
Proof.
  unfold visible. intros Hs Hf.
  destruct start as [|c start]; [done|]. destruct (last fin) as [d|] eqn:E; [|done].
  apply last_Some in E as [f' ->]. simpl in Hs. apply negb_true_iff in Hs, Hf. split.
  - unfold Str.trim_start. simpl. by rewrite Hs.
  - rewrite !app_assoc. by apply Str.trim_end_by_snoc_keep.
Qed.

Lemma marked_text_matches start b fin :
  visible (head start) = true -> visible (last fin) = true -> matches_marked_text start fin (start ++ b ++ fin) = true.
Proof.
  intros Hs Hf. destruct (trim_visible start b fin Hs Hf) as [Ets Ete]. unfold matches_marked_text.
  rewrite Ets, Ete. destruct start as [|c start]; [done|]. destruct fin as [|d fin]; [done|].
  cbn [Str.is_empty orb]. unfold starts_with_ignore_case.
  rewrite take_app_length, eq_ignore_refl. cbn [andb].
  rewrite app_assoc, length_app, Nat.add_sub, drop_app_length. apply eq_ignore_refl.
Qed.

Lemma split_once_app c a b : c ∉ a -> Str.split_once c (a ++ c :: b) = Some (a, b).
Proof.
  induction a as [|x a IH]; intros H; simpl.
  - by rewrite N.eqb_refl.
  - apply not_elem_of_cons in H as [Hx Ha]. rewrite (proj2 (N.eqb_neq x c)) by congruence.
    by rewrite IH.
Qed.

Lemma ends_with_app a b : Str.ends_with b (a ++ b) = true.
Proof. apply Str.ends_with_spec. by exists a. Qed.

Lemma additional_matches k v :
  ch ">" ∉ k -> matches_additional_context ($"<external_" ++ additional_context_body k v ++ $">") = true.
Proof.
  intros Hk. destruct (trim_visible $"<external_" (additional_context_body k v) $">") as [Es Ee]; [done..|].
  unfold matches_additional_context, Str.trim. rewrite Es, Ee, Str.strip_prefix_app.
  unfold additional_context_body. rewrite <- !app_assoc.
  assert (forall x, $">" ++ x = ch ">" :: x) as Hgt by done. rewrite Hgt, split_once_app by done.
  apply ends_with_app.
Qed.

Lemma find_unfold needle s :
  Str.find needle s =
  if Str.starts_with needle s then Some 0
  else match s with [] => None | _ :: s' => S <$> Str.find needle s' end.
Proof. by destruct s. Qed.

Lemma find_here needle a b :
  (forall i, i < length a -> Str.starts_with needle (drop i a ++ needle ++ b) = false) ->
  Str.find needle (a ++ needle ++ b) = Some (length a).
Proof.
  induction a as [|x a IH]; intros H; rewrite find_unfold.
  - assert (Str.starts_with needle (needle ++ b) = true) as E
      by (apply Str.starts_with_spec; by exists b). by rewrite app_nil_l, E.
  - pose proof (H 0 ltac:(simpl; lia)) as H0. rewrite drop_0 in H0. rewrite H0.
    cbn [app]. rewrite IH; [done|]. intros i Hi. apply (H (S i)). simpl. lia.
Qed.

(** No character of a valid source is a quote. *)
Lemma valid_source_no_quote s : is_valid_source s = true -> Forall (fun c => c <> dquote) s.
Proof.
  assert (forall c, is_ascii_lowercase c = true -> c <> dquote) as Hl
    by (intros c H ->; vm_compute in H; done).
  destruct s as [|c s]; [done|]. simpl. intros [Hc Hs]%andb_true_iff. constructor; [auto|].
  apply Forall_forall. intros d Hd%list_elem_of_In. rewrite forallb_forall in Hs.
  intros ->. apply Hs in Hd. vm_compute in Hd. done.
Qed.

Lemma internal_matches s b :
  is_valid_source s = true ->
  matches_internal_context
    (CONTEXT_START_MARKER ++ (SOURCE_ATTR_START ++ s ++ SOURCE_ATTR_END ++ nl ++ b ++ nl) ++
     CONTEXT_END_MARKER) = true.
Proof.
  intros Hv. unfold matches_internal_context, Str.trim.
  destruct (trim_visible CONTEXT_START_MARKER (SOURCE_ATTR_START ++ s ++ SOURCE_ATTR_END ++ nl ++ b ++ nl)
    CONTEXT_END_MARKER) as [-> ->]; [done..|].
  destruct (matches_legacy_goal_context _); [done|].
  rewrite Str.strip_prefix_app, <- !app_assoc, Str.strip_prefix_app. unfold Str.split_once_str.
  rewrite find_here.
  - cbn [mbind option_bind]. rewrite take_app_length, Hv.
    rewrite drop_app_ge, Nat.add_comm, Nat.add_sub, drop_app_length by lia.
    apply andb_true_iff. split; [done|]. apply Str.ends_with_spec. exists (nl ++ b ++ nl).
    by rewrite <- !app_assoc.
  - intros i Hi. apply Str.starts_with_false. intros [r Er].
    destruct (lookup_lt_is_Some_2 s i Hi) as [c Hc].
    rewrite (drop_S _ _ _ Hc) in Er. injection Er as -> _.
    apply list_elem_of_lookup_2 in Hc.
    by apply (proj1 (Forall_forall _ _) (valid_source_no_quote s Hv) dquote).
Qed.

Lemma standard_text_matches p text :
  p ∈ CONTEXTUAL_USER_FRAGMENTS -> p text = true -> is_standard_contextual_user_text text = true.
Proof.
  intros Hp H. apply existsb_exists. exists p. split; [by apply list_elem_of_In|done].
Qed.

#[local] Ltac registered :=
  apply list_elem_of_In; cbv [CONTEXTUAL_USER_FRAGMENTS In]; repeat (first [left; reflexivity|right]).

Lemma marked_registered start fin b :
  matches_by_markers (start, fin) ∈ CONTEXTUAL_USER_FRAGMENTS -> visible (head start) = true -> visible (last fin) = true ->
  is_standard_contextual_user_text (start ++ b ++ fin) = true.
Proof. intros Hp Hs Hf. eapply standard_text_matches; [exact Hp|]. by apply marked_text_matches. Qed.

(** Every piece of context the program injects as a user message (instructions, the
    environment, external context, skills, shell commands, abort notes, sub-agent
    notifications, internal context) is recognised in the transcript: it never starts a
    turn, and a rollback trims it with the turn it precedes. *)
Theorem injected_context_is_no_turn is_inter_agent_json f :
  injected_ok f ->
  is_user_turn_boundary is_contextual_user_text is_inter_agent_json (injected_item f) = false /\
  exists content, injected_item f = Message None $"user" content None /\
    is_contextual_user_message_content is_contextual_user_text content = true.
Proof.
  intros Hok.
  assert (exists text, injected_item f = Message None $"user" [InputText text] None /\
    is_standard_contextual_user_text text = true) as (text & -> & Ht).
  { destruct f; (eexists; split; [reflexivity|]).
    3: { apply (standard_text_matches matches_additional_context); [registered|by apply additional_matches]. }
    7: { apply (standard_text_matches matches_internal_context); [registered|].
         apply internal_matches. simpl in Hok. unfold internal_context_source in Hok.
         by destruct (is_valid_source (source x)). }
    all: apply marked_registered; [registered|done..]. }
  assert (is_contextual_user_text text = true) as Hc
    by (unfold is_contextual_user_text; by rewrite Ht, orb_true_r).
  split.
  - unfold is_user_turn_boundary, is_contextual_user_message_content. simpl. by rewrite Hc.
  - exists [InputText text]. split; [done|]. unfold is_contextual_user_message_content. simpl.
    by rewrite Hc.
Qed.
End registered.

(** ** Escaping *)

(** What an XML reader makes of the five predefined entities. *)
Definition entities : list (str * char) :=
  [($"&amp;", ch "&"); ($"&lt;", ch "<"); ($"&gt;", ch ">"); ($"&quot;", dquote); ($"&apos;", ch "'")].
Definition read_entity (s : str) : option (char * str) :=
  foldr (fun '(e, c) acc =>
    match Str.strip_prefix e s with Some rest => Some (c, rest) | None => acc end) None entities.
Fixpoint xml_unescape (fuel : nat) (s : str) : str :=
  match fuel with
  | 0 => []
  | S fuel =>
      match s with
      | [] => []
      | c :: s' =>
          match read_entity s with
          | Some (d, rest) => d :: xml_unescape fuel rest
          | None => c :: xml_unescape fuel s'
          end
      end
  end.
Definition markup (c : char) : bool :=
  bool_decide (c ∈ [ch "<"; ch ">"; dquote; ch "'"]).

Lemma escape_char_cases c rest :
  read_entity (xml_escape_char c ++ rest) = Some (c, rest) \/
  (xml_escape_char c = [c] /\ read_entity (c :: rest) = None).
Proof.
  unfold xml_escape_char. repeat case_bool_decide; subst; try (by left).
  right. split; [done|]. unfold read_entity, entities. cbn [foldr].
  assert (forall e, Str.strip_prefix (ch "&" :: e) (c :: rest) = None) as Hn.
  { intros e. destruct (Str.strip_prefix _ _) eqn:E; [|done].
    apply Str.strip_prefix_Some in E. injection E as -> _. done. }
  change ($"&amp;") with (ch "&" :: $"amp;"). change ($"&lt;") with (ch "&" :: $"lt;").
  change ($"&gt;") with (ch "&" :: $"gt;"). change ($"&quot;") with (ch "&" :: $"quot;").
  change ($"&apos;") with (ch "&" :: $"apos;"). by rewrite !Hn.
Qed.

(** A path or pattern in the environment context is escaped so that it holds no tag
    bracket and no quote, and reads back as the text it was. *)
Theorem escaped_text_reads_back value :
  Forall (fun c => markup c = false) (push_xml_escaped_text value) /\
  xml_unescape (S (length value)) (push_xml_escaped_text value) = value.
Proof.
  unfold push_xml_escaped_text. induction value as [|c value [IH1 IH2]]; [done|]. cbn [flat_map]. split.
  - apply Forall_app. split; [|done]. unfold xml_escape_char.
    repeat case_bool_decide; [by repeat constructor..|]. constructor; [|done].
    apply bool_decide_eq_false. set_solver.
  - cbn [length]. destruct (escape_char_cases c (flat_map xml_escape_char value)) as [E|[E1 E2]].
    + destruct (xml_escape_char c ++ flat_map xml_escape_char value) as [|d s] eqn:Es.
      { vm_compute in E. done. }
      cbn [xml_unescape]. rewrite E. f_equal. exact IH2.
    + rewrite E1. cbn [app xml_unescape]. rewrite E2. f_equal. exact IH2.
Qed.

(** ** Instances of the properties *)

Lemma injected_context_is_no_turn_witness :
  let f := InjAdditional (AgentStatus := unit) (mkAdditionalUser $"k" $"v") in
  is_user_turn_boundary (is_contextual_user_text (fun _ => []) (fun _ (_ : unit) => []) (fun _ => None))
    (fun _ => false) (injected_item (fun _ => []) (fun _ (_ : unit) => []) f) = false.
Proof.
  apply (injected_context_is_no_turn (fun _ => []) (fun _ (_ : unit) => []) (fun _ => None)
    (fun _ => false) (InjAdditional (mkAdditionalUser $"k" $"v"))).
  vm_compute. intros H. inversion H; subst. by inversion H2.
Defined.

(** The keys come from the client unchecked: one with a closing bracket makes the injected
    context a turn of the user. *)
Example bracket_in_key_is_a_turn :
  let f := InjAdditional (AgentStatus := unit) (mkAdditionalUser $"a>b" $"v") in
  is_user_turn_boundary (is_contextual_user_text (fun _ => []) (fun _ (_ : unit) => []) (fun _ => None))
    (fun _ => false) (injected_item (fun _ => []) (fun _ (_ : unit) => []) f) = true.
Proof. vm_compute. reflexivity. Qed.
End Fragments.
