(* ===== verification/Rollout.v ===== *)
(** Rollouts, the persisted logs of threads: what their items mean ([event_mapping.rs]),
    compaction ([compact.rs]), cutting them at turns ([thread_rollout_truncation.rs]) and
    rebuilding a transcript from them ([session/rollout_reconstruction.rs]). *)
From S2P Require Import Prelude HeadTailBuffer Truncate ContextHistory Fragments.

Module Rollout.
Import Truncate History Fragments.

(** ** Items of a turn (event_mapping.rs) *)

(** The inputs that a stored message can hold. *)
Inductive UserInput :=
| UserText (text : str)
| UserImage (image_url : str) (detail : option ImageDetail).

(** The items a stored response item can become; fresh identifiers are left out. *)
Inductive TurnItem :=
| UserMessage (content : list UserInput)
| HookPrompt (fragments : list HookPromptFragment)
| AgentMessage (id : option str) (content : list str) (phase : option MessagePhase)
| ReasoningTurn (id : str) (summary_text raw_content : list str)
| WebSearch (id query : str) (action : WebSearchAction)
| ImageGeneration (id status : str) (revised_prompt : option str) (result : str).

(** [UserMessageItem::message]. *)
Definition message (content : list UserInput) : str :=
  flat_map (fun c => match c with UserText text => text | _ => [] end) content.

(** The tags around an image in a message (models.rs). *)
Definition IMAGE_OPEN_TAG : str := $"<image>".
Definition IMAGE_CLOSE_TAG : str := $"</image>".
Definition LOCAL_IMAGE_OPEN_TAG_PREFIX : str := $"<image name=".
Definition is_local_image_open_tag_text (text : str) : bool :=
  match Str.strip_prefix LOCAL_IMAGE_OPEN_TAG_PREFIX text with
  | Some rest => Str.ends_with $">" rest
  | None => false
  end.
Definition is_local_image_close_tag_text (text : str) : bool := bool_decide (text = IMAGE_CLOSE_TAG).
Definition is_image_open_tag_text (text : str) : bool := bool_decide (text = IMAGE_OPEN_TAG).
Definition is_image_close_tag_text (text : str) : bool := bool_decide (text = IMAGE_CLOSE_TAG).

Definition is_image (c : option ContentItem) : bool :=
  match c with Some (InputImage _ _) => true | _ => false end.
Fixpoint parse_user_content (previous : option ContentItem) (message : list ContentItem) : list UserInput :=
  match message with
  | [] => []
  | InputText text :: rest =>
      if ((is_local_image_open_tag_text text || is_image_open_tag_text text) && is_image (head rest)) ||
         ((is_local_image_close_tag_text text || is_image_close_tag_text text) && is_image previous)
      then parse_user_content (Some (InputText text)) rest
      else UserText text :: parse_user_content (Some (InputText text)) rest
  | InputImage image_url detail :: rest =>
      UserImage image_url detail :: parse_user_content (Some (InputImage image_url detail)) rest
  | OutputText text :: rest => parse_user_content (Some (OutputText text)) rest
  end.
Definition parse_agent_message (message : list ContentItem) : list str :=
  omap (fun c => match c with InputText text | OutputText text => Some text | _ => None end) message.

(** web_search.rs *)
Definition search_action_detail (query : option str) (queries : option (list str)) : str :=
  match query with
  | Some (_ :: _ as q) => q
  | _ =>
      let first := match queries with Some (q :: _) => q | _ => [] end in
      if (match queries with Some qs => 1 <? length qs | None => false end) && negb (Str.is_empty first)
      then first ++ $" ..." else first
  end.
Definition web_search_action_detail (action : WebSearchAction) : str :=
  match action with
  | SearchAction query queries => search_action_detail query queries
  | OpenPage url => from_option id [] url
  | FindInPage url pattern =>
      match pattern, url with
      | Some pattern, Some url => $"'" ++ pattern ++ $"' in " ++ url
      | Some pattern, None => $"'" ++ pattern ++ $"'"
      | None, Some url => url
      | None, None => []
      end
  | OtherAction => []
  end.

(** ** Rollout items (protocol.rs) *)

Record CompactedItem := mkCompacted {
  compacted_message : str;
  replacement_history : option (list ResponseItem);
}.

(** The settings of a turn: the fields the replay reads, and the rest. *)
Record TurnContextItem {Settings : Type} := mkTurnContext {
  ctx_turn_id : option str;
  ctx_model : str;
  ctx_realtime_active : option bool;
  ctx_settings : Settings;
}.
#[global] Arguments TurnContextItem : clear implicits.

(** The events the replay looks at; the others are [OtherEvent]. *)
Inductive EventMsg :=
| ThreadRolledBack (num_turns : N)
| TurnComplete (turn_id : str)
| TurnAbortedEvent (turn_id : option str)
| UserMessageEvent
| TurnStarted (turn_id : str)
| OtherEvent.

Inductive RolloutItem {Settings : Type} :=
| SessionMeta
| ResponseItemLine (item : ResponseItem)
| Compacted (compacted : CompactedItem)
| TurnContext (ctx : TurnContextItem Settings)
| EventLine (event : EventMsg).
#[global] Arguments RolloutItem : clear implicits.

Record PreviousTurnSettings := mkPrevious { model : str; realtime_active : option bool }.

Section rollout.
Context {Settings AgentStatus : Type}.
(** As in [Fragments]: formatting of floats, the JSON of a notification, the XML parser. *)
Context (format_4 : SpecFloat.spec_float -> str) (notification_json : str -> AgentStatus -> str).
Context (parse_hook_prompt_xml : str -> option HookPromptFragment).
(** The JSON of an inter-agent message: [Some b] when the text is one, with its
    [trigger_turn]. *)
Context (inter_agent_json : str -> option bool).

#[local] Abbreviation contextual_text :=
  (is_contextual_user_text format_4 notification_json parse_hook_prompt_xml).
#[local] Abbreviation agent_json := (fun text => bool_decide (is_Some (inter_agent_json text))).
#[local] Abbreviation boundary := (is_user_turn_boundary contextual_text agent_json).

Definition parse_user_message (message : list ContentItem) : option (list UserInput) :=
  if is_contextual_user_message_content contextual_text message then None
  else Some (parse_user_content None message).

Definition parse_turn_item (item : ResponseItem) : option TurnItem :=
  match item with
  | Message id role content phase =>
      if bool_decide (role = $"user") then
        match parse_visible_hook_prompt_message format_4 notification_json parse_hook_prompt_xml content with
        | Some fragments => Some (HookPrompt fragments)
        | None => UserMessage <$> parse_user_message content
        end
      else if bool_decide (role = $"assistant") then
        Some (AgentMessage id (parse_agent_message content) phase)
      else None
  | Reasoning id summary content _ =>
      Some (ReasoningTurn id (map (fun '(SummaryText text) => text) summary)
        (map (fun c => match c with ReasoningText text | ReasoningPlain text => text end)
           (from_option (fun c => c) [] content)))
  | WebSearchCall id _ action =>
      match action with
      | Some action => Some (WebSearch (from_option (fun s => s) [] id) (web_search_action_detail action) action)
      | None => Some (WebSearch (from_option (fun s => s) [] id) [] OtherAction)
      end
  | ImageGenerationCall id status revised_prompt result =>
      Some (ImageGeneration id status revised_prompt result)
  | _ => None
  end.

(** The message of an item that is one of the user. *)
Definition user_message (item : ResponseItem) : option str :=
  match parse_turn_item item with Some (UserMessage content) => Some (message content) | _ => None end.

(** ** compact.rs *)

Definition SUMMARY_PREFIX : str :=
  $"Another language model started to solve this problem and produced a summary of its thinking process. You also have access to the state of the tools that were used by that language model. Use this to build on the work that has already been done and avoid duplicating work. Here is the summary produced by the other language model, use the information in this summary to assist with your own analysis:".
Definition COMPACT_USER_MESSAGE_MAX_TOKENS : N := 20000.

Definition content_items_to_text (content : list ContentItem) : option str :=
  match omap (fun item =>
          match item with
          | InputText text | OutputText text => if Str.is_empty text then None else Some text
          | InputImage _ _ => None
          end) content with
  | [] => None
  | pieces => Some (Str.join [newline] pieces)
  end.

Definition is_summary_message (message : str) : bool :=
  Str.starts_with (SUMMARY_PREFIX ++ [newline]) message.
Definition collect_user_messages (items : list ResponseItem) : list str :=
  omap (fun item =>
    m ← user_message item; if is_summary_message m then None else Some m) items.

(** The scan from the end: the last message of the user or summary, and the last message
    of the user that is no summary. *)
Fixpoint last_user_indices (i : nat) (rev_items : list ResponseItem) (last_user_or_summary : option nat)
    : option nat * option nat :=
  match rev_items with
  | [] => (last_user_or_summary, None)
  | item :: rest =>
      match user_message item with
      | None => last_user_indices (i - 1) rest last_user_or_summary
      | Some m =>
          let found := match last_user_or_summary with Some j => Some j | None => Some i end in
          if negb (is_summary_message m) then (found, Some i)
          else last_user_indices (i - 1) rest found
      end
  end.
Definition is_compaction (item : ResponseItem) : bool :=
  match item with Compaction _ | ContextCompaction _ => true | _ => false end.
Definition insert_initial_context_before_last_real_user_or_summary
    (compacted_history initial_context : list ResponseItem) : list ResponseItem :=
  let '(last_user_or_summary_index, last_real_user_index) :=
    last_user_indices (length compacted_history - 1) (rev compacted_history) None in
  let last_compaction_index := rposition is_compaction compacted_history in
  let insertion_index :=
    match last_real_user_index, last_user_or_summary_index with
    | Some i, _ => Some i
    | None, Some i => Some i
    | None, None => last_compaction_index
    end in
  match insertion_index with
  | Some i => take i compacted_history ++ initial_context ++ drop i compacted_history
  | None => compacted_history ++ initial_context
  end.

Definition user_text_message (text : str) : ResponseItem := Message None $"user" [InputText text] None.

(** The messages that fit, newest first; the one that does not fit whole is truncated. *)
Fixpoint select_messages (rev_messages : list str) (remaining : N) : option (list str) :=
  match rev_messages with
  | [] => Some []
  | m :: rest =>
      if (remaining =? 0)%N then Some []
      else
        let tokens := approx_token_count m in
        if (tokens <=? remaining)%N then
          selected ← select_messages rest (HeadTail.saturating_sub remaining tokens);
          Some (m :: selected)
        else truncated ← truncate_text m (Tokens remaining); Some [truncated]
  end.
Definition build_compacted_history_with_limit (history : list ResponseItem) (user_messages : list str)
    (summary_text : str) (max_tokens : N) : option (list ResponseItem) :=
  selected ← (if (0 <? max_tokens)%N then select_messages (rev user_messages) max_tokens else Some []);
  let summary_text := if Str.is_empty summary_text then $"(no summary available)" else summary_text in
  Some (history ++ map user_text_message (rev selected) ++ [user_text_message summary_text]).
Definition build_compacted_history (initial_context : list ResponseItem) (user_messages : list str)
    (summary_text : str) : option (list ResponseItem) :=
  build_compacted_history_with_limit initial_context user_messages summary_text
    COMPACT_USER_MESSAGE_MAX_TOKENS.

(** ** thread_rollout_truncation.rs *)

#[local] Abbreviation Item := (RolloutItem Settings).

Definition rollout_item_is_user_turn_boundary (item : Item) : bool :=
  match item with ResponseItemLine item => boundary item | _ => false end.
Inductive InitialHistory := NewHistory | ClearedHistory | Resumed (history : list Item) | Forked (items : list Item).
Definition initial_history_has_prior_user_turns (h : InitialHistory) : bool :=
  match h with
  | NewHistory | ClearedHistory => false
  | Resumed items | Forked items => existsb rollout_item_is_user_turn_boundary items
  end.

Definition is_real_user_message_boundary (item : ResponseItem) : bool :=
  match parse_turn_item item with Some (UserMessage _) => true | _ => false end.
Definition is_trigger_turn_boundary (item : ResponseItem) : bool :=
  match item with
  | Message _ role content _ =>
      bool_decide (role = $"assistant") &&
      match content with
      | [InputText text] | [OutputText text] => from_option (fun b => b) false (inter_agent_json text)
      | _ => false
      end
  | _ => false
  end.

Fixpoint user_positions_loop (idx : nat) (items : list Item) (user_positions : list nat) : list nat :=
  match items with
  | [] => user_positions
  | ResponseItemLine (Message _ _ _ _ as item) :: rest =>
      user_positions_loop (S idx) rest
        (if is_real_user_message_boundary item then user_positions ++ [idx] else user_positions)
  | EventLine (ThreadRolledBack num_turns) :: rest =>
      user_positions_loop (S idx) rest (take (length user_positions - N.to_nat num_turns) user_positions)
  | _ :: rest => user_positions_loop (S idx) rest user_positions
  end.
Definition user_message_positions_in_rollout (items : list Item) : list nat :=
  user_positions_loop 0 items [].

(** The positions of the turns a rollback counts and of the turns a fork counts. *)
Definition fork_step (idx : nat) (item : Item) (acc : list nat * list nat) : list nat * list nat :=
  let '(rollback_turn_positions, fork_turn_positions) := acc in
  match item with
  | ResponseItemLine item =>
      (if boundary item then rollback_turn_positions ++ [idx] else rollback_turn_positions,
       if is_real_user_message_boundary item || is_trigger_turn_boundary item
       then fork_turn_positions ++ [idx] else fork_turn_positions)
  | EventLine (ThreadRolledBack n) =>
      let num_turns := N.to_nat n in
      if num_turns =? 0 then acc
      else
        let len := length rollback_turn_positions in
        match (if num_turns <=? len then rollback_turn_positions !! (len - num_turns)
               else head rollback_turn_positions) with
        | None => acc
        | Some rollback_start_idx =>
            (take (len - num_turns) rollback_turn_positions,
             List.filter (fun position => position <? rollback_start_idx) fork_turn_positions)
        end
  | _ => acc
  end.
Fixpoint fork_loop (idx : nat) (items : list Item) (acc : list nat * list nat) : list nat * list nat :=
  match items with
  | [] => acc
  | item :: rest => fork_loop (S idx) rest (fork_step idx item acc)
  end.
Definition fork_turn_positions_in_rollout (items : list Item) : list nat :=
  snd (fork_loop 0 items ([], [])).

Definition truncate_rollout_before_nth_user_message_from_start (items : list Item) (n_from_start : N)
    : list Item :=
  if (n_from_start =? HeadTail.usize_max)%N then items
  else
    match user_message_positions_in_rollout items !! N.to_nat n_from_start with
    | Some cut_idx => take cut_idx items
    | None => items
    end.
Definition truncate_rollout_to_last_n_fork_turns (items : list Item) (n_from_end : nat) : list Item :=
  if n_from_end =? 0 then []
  else
    let positions := fork_turn_positions_in_rollout items in
    match (if n_from_end <=? length positions then positions !! (length positions - n_from_end)
           else head positions) with
    | Some keep_idx => drop keep_idx items
    | None => []
    end.

(** ** rollout_reconstruction.rs *)

#[local] Abbreviation Ctx := (TurnContextItem Settings).
#[local] Abbreviation Manager := (ContextManager (TurnContextItem := Ctx)).

Inductive TurnReferenceContextItem := NeverSet | Cleared | Latest (ctx : Ctx).
Definition is_never_set (r : TurnReferenceContextItem) : bool :=
  match r with NeverSet => true | _ => false end.
Definition is_cleared (r : TurnReferenceContextItem) : bool :=
  match r with Cleared => true | _ => false end.

Record ActiveReplaySegment := mkSegment {
  turn_id : option str;
  counts_as_user_turn : bool;
  seg_previous_turn_settings : option PreviousTurnSettings;
  seg_reference_context_item : TurnReferenceContextItem;
  seg_base_replacement_history : option (list ResponseItem);
}.
Definition default_segment : ActiveReplaySegment := mkSegment None false None NeverSet None.
Definition set_turn_id (s : ActiveReplaySegment) (id : option str) : ActiveReplaySegment :=
  mkSegment id (counts_as_user_turn s) (seg_previous_turn_settings s) (seg_reference_context_item s)
    (seg_base_replacement_history s).
Definition set_counts (s : ActiveReplaySegment) (b : bool) : ActiveReplaySegment :=
  mkSegment (turn_id s) b (seg_previous_turn_settings s) (seg_reference_context_item s)
    (seg_base_replacement_history s).
Definition set_previous (s : ActiveReplaySegment) (p : option PreviousTurnSettings) : ActiveReplaySegment :=
  mkSegment (turn_id s) (counts_as_user_turn s) p (seg_reference_context_item s)
    (seg_base_replacement_history s).
Definition set_reference (s : ActiveReplaySegment) (r : TurnReferenceContextItem) : ActiveReplaySegment :=
  mkSegment (turn_id s) (counts_as_user_turn s) (seg_previous_turn_settings s) r
    (seg_base_replacement_history s).
Definition set_base (s : ActiveReplaySegment) (b : option (list ResponseItem)) : ActiveReplaySegment :=
  mkSegment (turn_id s) (counts_as_user_turn s) (seg_previous_turn_settings s)
    (seg_reference_context_item s) b.

(** The variables of the reverse scan. *)
Record Scan := mkScan {
  base_replacement_history : option (list ResponseItem);
  previous_turn_settings : option PreviousTurnSettings;
  scan_reference : TurnReferenceContextItem;
  pending_rollback_turns : N;
  rollout_suffix : list Item;
  active_segment : option ActiveReplaySegment;
}.
Definition set_active (st : Scan) (seg : option ActiveReplaySegment) : Scan :=
  mkScan (base_replacement_history st) (previous_turn_settings st) (scan_reference st)
    (pending_rollback_turns st) (rollout_suffix st) seg.

Definition turn_ids_are_compatible (active_turn_id item_turn_id : option str) : bool :=
  match active_turn_id, item_turn_id with
  | Some turn_id, Some item_turn_id => bool_decide (item_turn_id = turn_id)
  | _, _ => true
  end.

Definition finalize_active_segment (st : Scan) (seg : ActiveReplaySegment) : Scan :=
  if (0 <? pending_rollback_turns st)%N then
    mkScan (base_replacement_history st) (previous_turn_settings st) (scan_reference st)
      (if counts_as_user_turn seg then (pending_rollback_turns st - 1)%N else pending_rollback_turns st)
      (rollout_suffix st) (active_segment st)
  else
    mkScan
      (match base_replacement_history st with
       | Some b => Some b
       | None => seg_base_replacement_history seg
       end)
      (match previous_turn_settings st with
       | Some p => Some p
       | None => if counts_as_user_turn seg then seg_previous_turn_settings seg else None
       end)
      (if is_never_set (scan_reference st) &&
          (counts_as_user_turn seg || is_cleared (seg_reference_context_item seg))
       then seg_reference_context_item seg else scan_reference st)
      (pending_rollback_turns st) (rollout_suffix st) (active_segment st).

Definition get_or_insert (st : Scan) : ActiveReplaySegment := from_option (fun s => s) default_segment (active_segment st).

(** One item of the scan from the newest to the oldest. *)
Definition scan_item (all : list Item) (index : nat) (item : Item) (st : Scan) : Scan :=
  match item with
  | Compacted compacted =>
      let seg := get_or_insert st in
      let seg := if is_never_set (seg_reference_context_item seg) then set_reference seg Cleared else seg in
      match seg_base_replacement_history seg, replacement_history compacted with
      | None, Some replacement =>
          mkScan (base_replacement_history st) (previous_turn_settings st) (scan_reference st)
            (pending_rollback_turns st) (drop (S index) all) (Some (set_base seg (Some replacement)))
      | _, _ => set_active st (Some seg)
      end
  | EventLine (ThreadRolledBack num_turns) =>
      mkScan (base_replacement_history st) (previous_turn_settings st) (scan_reference st)
        (HeadTail.saturating_add (pending_rollback_turns st) num_turns) (rollout_suffix st)
        (active_segment st)
  | EventLine (TurnComplete id) =>
      let seg := get_or_insert st in
      set_active st (Some match turn_id seg with None => set_turn_id seg (Some id) | Some _ => seg end)
  | EventLine (TurnAbortedEvent id) =>
      match active_segment st, id with
      | Some seg, Some id =>
          set_active st (Some match turn_id seg with None => set_turn_id seg (Some id) | Some _ => seg end)
      | Some _, None => st
      | None, Some id => set_active st (Some (set_turn_id default_segment (Some id)))
      | None, None => st
      end
  | EventLine UserMessageEvent => set_active st (Some (set_counts (get_or_insert st) true))
  | TurnContext ctx =>
      let seg := get_or_insert st in
      let seg := match turn_id seg with None => set_turn_id seg (ctx_turn_id ctx) | Some _ => seg end in
      set_active st (Some
        (if turn_ids_are_compatible (turn_id seg) (ctx_turn_id ctx) then
           let seg := set_previous seg (Some (mkPrevious (ctx_model ctx) (ctx_realtime_active ctx))) in
           if is_never_set (seg_reference_context_item seg) then set_reference seg (Latest ctx) else seg
         else seg))
  | EventLine (TurnStarted id) =>
      match active_segment st with
      | Some seg =>
          if turn_ids_are_compatible (turn_id seg) (Some id)
          then finalize_active_segment (set_active st None) seg
          else st
      | None => st
      end
  | ResponseItemLine response_item =>
      let seg := get_or_insert st in
      set_active st (Some (set_counts seg (counts_as_user_turn seg || boundary response_item)))
  | EventLine OtherEvent | SessionMeta => st
  end.

Definition scan_done (st : Scan) : bool :=
  bool_decide (is_Some (base_replacement_history st)) &&
  match previous_turn_settings st with Some _ => true | None => false end &&
  negb (is_never_set (scan_reference st)).

Fixpoint scan_loop (all : list Item) (rev_items : list (nat * Item)) (st : Scan) : Scan :=
  match rev_items with
  | [] => st
  | (index, item) :: rest =>
      let st := scan_item all index item st in
      if scan_done st then st else scan_loop all rest st
  end.
Definition scan_rollout (items : list Item) : Scan :=
  let st := scan_loop items (rev (imap pair items)) (mkScan None None NeverSet 0 items None) in
  match active_segment st with
  | Some seg => finalize_active_segment (set_active st None) seg
  | None => st
  end.

(** The forward replay; [None] is a slice inside a character, which does not happen. *)
Fixpoint replay (policy : TruncationPolicy) (items : list Item) (history : Manager) (saw_legacy : bool)
    : option (Manager * bool) :=
  match items with
  | [] => Some (history, saw_legacy)
  | ResponseItemLine response_item :: rest =>
      history ← record_items history [response_item] policy;
      replay policy rest history saw_legacy
  | Compacted compacted :: rest =>
      match replacement_history compacted with
      | Some replacement => replay policy rest (History.replace history replacement) saw_legacy
      | None =>
          rebuilt ← build_compacted_history [] (collect_user_messages (History.items history))
                      (compacted_message compacted);
          replay policy rest (History.replace history rebuilt) true
      end
  | EventLine (ThreadRolledBack num_turns) :: rest =>
      replay policy rest (drop_last_n_user_turns contextual_text agent_json history num_turns) saw_legacy
  | _ :: rest => replay policy rest history saw_legacy
  end.

Record RolloutReconstruction := mkReconstruction {
  history : list ResponseItem;
  rec_previous_turn_settings : option PreviousTurnSettings;
  rec_reference_context_item : option Ctx;
}.
Definition reconstruct_history_from_rollout (policy : TruncationPolicy) (rollout_items : list Item)
    : option RolloutReconstruction :=
  let st := scan_rollout rollout_items in
  let start : Manager :=
               match base_replacement_history st with
               | Some b => History.replace History.new b
               | None => History.new
               end in
  replayed ← replay policy (rollout_suffix st) start false;
  Some (mkReconstruction (History.items (fst replayed)) (previous_turn_settings st)
    (match scan_reference st with
     | Latest ctx => if snd replayed : bool then None else Some ctx
     | NeverSet | Cleared => None
     end)).
End rollout.
End Rollout.
