(* ===== verification/Resume.v ===== *)
(** Resuming a thread: unless rollbacks drop every checkpoint, the transcript rebuilt by the
    scan from the newest item and the replay of the rest is the one a replay of the whole
    rollout gives. *)
From Stdlib Require Import Sorted.
From S2P Require Import Prelude HeadTailBuffer Truncate ContextHistory Transcript Fragments Rollout.

Module Resume.
Import Truncate History Transcript Fragments Rollout.

Section resume.
Context {Settings AgentStatus : Type}.
Context (format_4 : SpecFloat.spec_float -> str) (notification_json : str -> AgentStatus -> str).
Context (parse_hook_prompt_xml : str -> option HookPromptFragment).
Context (inter_agent_json : str -> option bool).

#[local] Abbreviation Item := (RolloutItem Settings).
#[local] Abbreviation Manager := (ContextManager (TurnContextItem := TurnContextItem Settings)).
#[local] Abbreviation replay :=
  (Rollout.replay format_4 notification_json parse_hook_prompt_xml inter_agent_json).
#[local] Abbreviation scan_item :=
  (Rollout.scan_item format_4 notification_json parse_hook_prompt_xml inter_agent_json).
#[local] Abbreviation scan_loop :=
  (Rollout.scan_loop format_4 notification_json parse_hook_prompt_xml inter_agent_json).
#[local] Abbreviation scan_rollout :=
  (Rollout.scan_rollout format_4 notification_json parse_hook_prompt_xml inter_agent_json).
#[local] Abbreviation reconstruct :=
  (reconstruct_history_from_rollout format_4 notification_json parse_hook_prompt_xml inter_agent_json).

(** ** The replay *)

Lemma select_messages_total l n : is_Some (select_messages l n).
Proof.
  revert n. induction l as [|m l IH]; intros n; cbn [select_messages]; [done|].
  destruct (n =? 0)%N; [done|].
  destruct (approx_token_count m <=? n)%N.
  - by destruct (IH (HeadTail.saturating_sub n (approx_token_count m))) as [s ->].
  - by destruct (truncate_text_total m (Tokens n)) as [t ->].
Qed.

Lemma build_compacted_total h ms t : is_Some (build_compacted_history h ms t).
Proof.
  unfold build_compacted_history, build_compacted_history_with_limit.
  destruct (0 <? COMPACT_USER_MESSAGE_MAX_TOKENS)%N; [|done].
  by destruct (select_messages_total (rev ms) COMPACT_USER_MESSAGE_MAX_TOKENS) as [s ->].
Qed.

Lemma drop_turns_items p q (m m' : Manager) n :
  History.items m = History.items m' ->
  History.items (drop_last_n_user_turns p q m n) = History.items (drop_last_n_user_turns p q m' n).
Proof.
  intros E. unfold drop_last_n_user_turns. destruct (n =? 0)%N; [done|]. rewrite E.
  destruct (user_message_positions _ _ _); [done|]. by destruct (trim_pre_turn_context_updates _ _ _ _ _).
Qed.

(** A replay always succeeds, and only the items it starts from matter. *)
Lemma replay_same policy l (m m' : Manager) b b' :
  History.items m = History.items m' ->
  exists r r' f f', replay policy l m b = Some (r, f) /\ replay policy l m' b' = Some (r', f') /\
    History.items r = History.items r'.
Proof.
  revert m m' b b'. induction l as [|x l IH]; intros m m' b b' E; cbn [Rollout.replay].
  { by exists m, m', b, b'. }
  destruct x as [|i|c|c|[]]; try (by apply IH).
  - cbn [record_items]. destruct (is_api_message i); cbn [negb]; [|by apply IH].
    destruct (process_item_total i policy) as (i' & -> & _). cbn [mbind option_bind].
    apply IH. simpl. by rewrite E.
  - destruct (replacement_history c); [by apply IH|]. rewrite E.
    destruct (build_compacted_total []
      (collect_user_messages format_4 notification_json parse_hook_prompt_xml (History.items m'))
      (compacted_message c)) as [h ->]. by apply IH.
  - apply IH. by apply drop_turns_items.
Qed.

Lemma rollout_replay_app policy l1 l2 (m : Manager) b :
  replay policy (l1 ++ l2) m b =
  match replay policy l1 m b with Some (m', b') => replay policy l2 m' b' | None => None end.
Proof.
  revert m b. induction l1 as [|x l1 IH]; intros m b; [done|].
  cbn [app Rollout.replay]. destruct x as [|i|c|c|[]]; try apply IH.
  - destruct (record_items m [i] policy); [apply IH|done].
  - destruct (replacement_history c); [apply IH|]. destruct (build_compacted_history _ _ _); [apply IH|done].
Qed.

(** ** Checkpoints *)

(** A compaction that stores the history it leaves. *)
Definition checkpoint (x : Item) : option (list ResponseItem) :=
  match x with Compacted c => replacement_history c | _ => None end.
Definition is_checkpoint (x : Item) : bool :=
  match checkpoint x with Some _ => true | None => false end.
Definition is_rollback (x : Item) : bool :=
  match x with EventLine (ThreadRolledBack _) => true | _ => false end.

(** From a checkpoint on, what came before does not matter. *)
Lemma replay_from_checkpoint policy l i x h (m m' : Manager) b b' :
  l !! i = Some x -> checkpoint x = Some h -> History.items m' = h ->
  exists r r' f f', replay policy l m b = Some (r, f) /\
    replay policy (drop (S i) l) m' b' = Some (r', f') /\ History.items r = History.items r'.
Proof.
  intros Hi Hx Hm.
  assert (replay policy l m b = replay policy (take i l ++ x :: drop (S i) l) m b) as ->
    by (by rewrite (take_drop_middle l i x Hi)).
  rewrite rollout_replay_app.
  destruct (replay_same policy (take i l) m m b b eq_refl) as (p & _ & f & _ & -> & _ & _).
  destruct x as [|j|c|c|e]; try done. cbn [Rollout.replay]. simpl in Hx. rewrite Hx.
  apply replay_same. simpl. by rewrite Hm.
Qed.

(** ** The scan *)

Definition segment_base (st : Scan (Settings := Settings)) : option (list ResponseItem) :=
  active_segment st ≫= seg_base_replacement_history.
(** The checkpoints the scan holds on to. *)
Definition carries (st : Scan (Settings := Settings)) (h : list ResponseItem) : Prop :=
  base_replacement_history st = Some h \/ segment_base st = Some h.
Definition holds (st : Scan (Settings := Settings)) : Prop := exists h, carries st h.

Lemma finalize_spec st seg :
  active_segment st = None ->
  rollout_suffix (finalize_active_segment st seg) = rollout_suffix st /\
  segment_base (finalize_active_segment st seg) = None /\
  (forall h, base_replacement_history (finalize_active_segment st seg) = Some h ->
     base_replacement_history st = Some h \/ seg_base_replacement_history seg = Some h) /\
  (pending_rollback_turns st = 0%N ->
     pending_rollback_turns (finalize_active_segment st seg) = 0%N /\
     (forall h, base_replacement_history st = Some h \/ seg_base_replacement_history seg = Some h ->
        is_Some (base_replacement_history (finalize_active_segment st seg)))).
Proof.
  intros Ha. unfold finalize_active_segment, segment_base.
  destruct (0 <? pending_rollback_turns st)%N eqn:Ep; simpl; rewrite Ha.
  - split_and!; try done; [by left|]. intros E. by rewrite E in Ep.
  - split_and!; try done.
    + intros h. destruct (base_replacement_history st); [by left|by right].
    + intros Hp. split; [done|]. intros h. destruct (base_replacement_history st); [done|].
      intros [?|?]; [done|]. by exists h.
Qed.

(** What one item does to the checkpoints and the suffix. *)
Definition item_effect (all : list Item) (n : nat) (x : Item) (st st' : Scan (Settings := Settings)) : Prop :=
  match checkpoint x with
  | Some h =>
      (segment_base st = None /\ rollout_suffix st' = drop (S n) all /\
       base_replacement_history st' = base_replacement_history st /\ segment_base st' = Some h) \/
      (is_Some (segment_base st) /\ rollout_suffix st' = rollout_suffix st /\
       forall h, carries st' h <-> carries st h)
  | None =>
      rollout_suffix st' = rollout_suffix st /\ (forall h, carries st' h -> carries st h) /\
      (pending_rollback_turns st = 0%N -> holds st -> holds st')
  end.

Lemma quiet_effect all n x st st' :
  checkpoint x = None -> rollout_suffix st' = rollout_suffix st ->
  base_replacement_history st' = base_replacement_history st -> segment_base st' = segment_base st ->
  item_effect all n x st st'.
Proof.
  intros Hx Hs Hb Hg. unfold item_effect, holds, carries. rewrite Hx, Hs, Hb, Hg. done.
Qed.

Lemma scan_item_effect all n x st : item_effect all n x st (scan_item all n x st).
Proof.
  assert (forall seg, seg_base_replacement_history seg = seg_base_replacement_history (get_or_insert st) ->
    segment_base (set_active st (Some seg)) = segment_base st) as Hg.
  { unfold get_or_insert, segment_base. intros seg H. simpl. rewrite H. by destruct (active_segment st). }
  destruct x as [|i|c|c|[k|id|id| |id|]]; cbn [Rollout.scan_item]; try (by apply quiet_effect).
  - apply quiet_effect; try done. by apply Hg.
  - unfold item_effect. cbn [checkpoint].
    set (seg := if is_never_set _ then _ else _).
    assert (seg_base_replacement_history seg = seg_base_replacement_history (get_or_insert st)) as Es
      by (unfold seg; by destruct (is_never_set _)).
    assert (seg_base_replacement_history seg = segment_base st) as Eb.
    { rewrite Es. unfold get_or_insert, segment_base. by destruct (active_segment st). }
    rewrite Eb. destruct (segment_base st) as [h0|] eqn:Esb, (replacement_history c) as [h|]; simpl.
    + right. split; [done|]. split; [done|]. intros h'. unfold carries. rewrite (Hg seg Es), Esb. done.
    + unfold holds, carries. rewrite (Hg seg Es), Esb. done.
    + by left.
    + unfold holds, carries. rewrite (Hg seg Es), Esb. done.
  - apply quiet_effect; try done. apply Hg. destruct (turn_id (get_or_insert st)); simpl;
      destruct (turn_ids_are_compatible _ _); simpl; try done; by destruct (is_never_set _).
  - apply quiet_effect; try done. apply Hg. by destruct (turn_id (get_or_insert st)).
  - destruct (active_segment st) as [seg|] eqn:Ea, id as [id|]; try (by apply quiet_effect).
    + apply quiet_effect; try done. apply Hg. unfold get_or_insert. rewrite Ea. simpl.
      by destruct (turn_id seg).
    + apply quiet_effect; try done. unfold segment_base. by rewrite Ea.
  - apply quiet_effect; try done. by apply Hg.
  - destruct (active_segment st) as [seg|] eqn:Ea; [|by apply quiet_effect].
    destruct (turn_ids_are_compatible _ _); [|by apply quiet_effect].
    destruct (finalize_spec (set_active st None) seg eq_refl) as (Hs & Hb & Hc & Hp).
    assert (segment_base st = seg_base_replacement_history seg) as Eseg
      by (unfold segment_base; by rewrite Ea).
    unfold item_effect, holds, carries. cbn [checkpoint]. rewrite Hs, Hb, Eseg. split_and!; try done.
    + intros h [H|?]; [|done]. by apply Hc in H.
    + intros H0 [h Hh]. destruct (Hp H0) as [_ Hsome]. destruct (Hsome h Hh) as [h' E]. exists h'. by left.
Qed.

Lemma scan_item_pending all n x st :
  is_rollback x = false -> pending_rollback_turns st = 0%N ->
  pending_rollback_turns (scan_item all n x st) = 0%N.
Proof.
  intros Hx H0. destruct x as [|i|c|c|[k|id|id| |id|]]; cbn [Rollout.scan_item]; try done.
  - destruct (seg_base_replacement_history _), (replacement_history c); done.
  - by destruct (active_segment st), id.
  - destruct (active_segment st) as [seg|]; [|done]. destruct (turn_ids_are_compatible _ _); [|done].
    destruct (finalize_spec (set_active st None) seg eq_refl) as (_ & _ & _ & Hp). by apply Hp.
Qed.

(** The suffix starts right after a checkpoint not newer than those the scan holds, or
    there is none among the items seen. *)
Definition at_checkpoint (all : list Item) (n : nat) (st : Scan (Settings := Settings)) : Prop :=
  exists i x h, n <= i /\ all !! i = Some x /\ checkpoint x = Some h /\
    rollout_suffix st = drop (S i) all /\
    forall h', carries st h' -> exists k y, i <= k /\ all !! k = Some y /\ checkpoint y = Some h'.
Definition no_checkpoint (all : list Item) (n : nat) (st : Scan (Settings := Settings)) : Prop :=
  rollout_suffix st = all /\ (~ holds st) /\ existsb is_checkpoint (drop n all) = false.
Definition scan_inv (all : list Item) (n : nat) (st : Scan (Settings := Settings)) : Prop :=
  no_checkpoint all n st \/ at_checkpoint all n st.

Lemma scan_inv_step all n x st :
  all !! n = Some x -> scan_inv all (S n) st -> scan_inv all n (scan_item all n x st).
Proof.
  intros Hx Hinv. pose proof (scan_item_effect all n x st) as He. unfold item_effect in He.
  destruct (checkpoint x) as [h|] eqn:Ex.
  - right. destruct He as [(Hs & Hsuf & Hb & Hseg)|(Hs & Hsuf & Hc)].
    + exists n, x, h. split_and!; try done. intros h' [H|H].
      * rewrite Hb in H. destruct Hinv as [(_ & Hno & _)|(i & y & h0 & Hi & _ & _ & _ & Hcar)].
        { destruct Hno. exists h'. by left. }
        destruct (Hcar h' (or_introl H)) as (k & z & Hk & Hz). exists k, z. split; [lia|done].
      * rewrite Hseg in H. injection H as <-. by exists n, x.
    + destruct Hinv as [(_ & Hno & _)|(i & y & h0 & Hi & Hy & Hcy & Hsu & Hcar)].
      { destruct Hno. destruct Hs as [h0 Hs]. exists h0. by right. }
      exists i, y, h0. split_and!; try done; [lia|by rewrite Hsuf|]. intros h' H. apply Hcar. by apply Hc.
  - destruct He as (Hsuf & Hc & _). destruct Hinv as [(Hs & Hno & Hall)|(i & y & h0 & Hi & Hy & Hcy & Hsu & Hcar)].
    + left. split_and!; [by rewrite Hsuf| |].
      * intros [h H]. apply Hno. exists h. by apply Hc.
      * rewrite (drop_S _ _ _ Hx). simpl. unfold is_checkpoint at 1. by rewrite Ex.
    + right. exists i, y, h0. split_and!; try done; [lia|by rewrite Hsuf|]. intros h' H. auto.
Qed.

(** With no rollback pending, a checkpoint that was seen is never lost. *)
Definition keeps (all : list Item) (n : nat) (st : Scan (Settings := Settings)) : Prop :=
  pending_rollback_turns st = 0%N /\ (existsb is_checkpoint (drop n all) = true -> holds st).

Lemma keeps_step all n x st :
  all !! n = Some x -> is_rollback x = false -> keeps all (S n) st -> keeps all n (scan_item all n x st).
Proof.
  intros Hx Hr [Hp Hk]. split; [by apply scan_item_pending|]. rewrite (drop_S _ _ _ Hx). simpl.
  pose proof (scan_item_effect all n x st) as He. unfold item_effect in He. unfold is_checkpoint at 1.
  destruct (checkpoint x) as [h|] eqn:Ex; simpl.
  - intros _. destruct He as [(_ & _ & _ & Hseg)|([h0 Hs] & _ & Hc)].
    + exists h. by right.
    + exists h0. apply Hc. by right.
  - intros H. by apply He; [|apply Hk].
Qed.

(** The loop over the items [0 .. n - 1], newest first. *)
Lemma imap_take_S (all : list Item) n x :
  all !! n = Some x -> rev (imap pair (take (S n) all)) = (n, x) :: rev (imap pair (take n all)).
Proof.
  intros Hx. rewrite (take_S_r _ _ _ Hx), imap_app, rev_app_distr. simpl.
  rewrite Nat.add_0_r, length_take, Nat.min_l; [done|]. apply lookup_lt_Some in Hx. lia.
Qed.

Lemma scan_loop_inv all (P : nat -> Scan (Settings := Settings) -> Prop) n st :
  (forall k x st, all !! k = Some x -> P (S k) st -> P k (scan_item all k x st)) ->
  n <= length all -> P n st ->
  exists k, k <= n /\ P k (scan_loop all (rev (imap pair (take n all))) st) /\
    (k = 0 \/ scan_done (scan_loop all (rev (imap pair (take n all))) st) = true).
Proof.
  intros Hstep. revert st. induction n as [|n IH]; intros st Hn HP.
  { exists 0. split; [done|]. split; [exact HP|by left]. }
  destruct (lookup_lt_is_Some_2 all n Hn) as [x Hx]. rewrite (imap_take_S _ _ _ Hx).
  cbn [Rollout.scan_loop]. destruct (scan_done (scan_item all n x st)) eqn:Ed.
  - exists n. split; [lia|]. split; [by apply Hstep|by right].
  - destruct (IH (scan_item all n x st)) as (k & Hk & Hres); [lia|by apply Hstep|].
    exists k. split; [lia|done].
Qed.

Lemma imap_all (all : list Item) : rev (imap pair all) = rev (imap pair (take (length all) all)).
Proof. by rewrite firstn_all. Qed.

Lemma scan_rollout_inv all :
  (rollout_suffix (scan_rollout all) = all /\ base_replacement_history (scan_rollout all) = None) \/
  exists i x h, all !! i = Some x /\ checkpoint x = Some h /\
    rollout_suffix (scan_rollout all) = drop (S i) all /\
    forall h', base_replacement_history (scan_rollout all) = Some h' ->
      exists k y, i <= k /\ all !! k = Some y /\ checkpoint y = Some h'.
Proof.
  unfold Rollout.scan_rollout. rewrite (imap_all all).
  destruct (scan_loop_inv all (scan_inv all) (length all) (mkScan None None NeverSet 0 all None))
    as (k & _ & Hinv & _); [apply scan_inv_step|done| |].
  { left. split_and!; [done|by intros [h [?|?]]|by rewrite drop_all]. }
  set (st := scan_loop _ _ _) in *. clearbody st.
  assert (exists st', match active_segment st with
      | Some seg => finalize_active_segment (set_active st None) seg | None => st end = st' /\
    rollout_suffix st' = rollout_suffix st /\
    (forall h, base_replacement_history st' = Some h -> carries st h)) as (st' & -> & Hs & Hb).
  { destruct (active_segment st) as [seg|] eqn:Ea.
    - destruct (finalize_spec (set_active st None) seg eq_refl) as (Hs & _ & Hc & _).
      eexists. split; [done|]. split; [done|]. intros h H. unfold carries, segment_base. rewrite Ea.
      by apply Hc.
    - exists st. split_and!; try done. intros h H. by left. }
  rewrite Hs. destruct Hinv as [(E & Hno & _)|(i & x & h & _ & Hx & Hc & Hsuf & Hcar)].
  - left. split; [done|]. destruct (base_replacement_history st') as [h|] eqn:Eh; [|done].
    destruct Hno. exists h. auto.
  - right. exists i, x, h. split_and!; try done. intros h' H. auto.
Qed.

Lemma scan_rollout_keeps all :
  existsb is_rollback all = false -> existsb is_checkpoint all = true ->
  is_Some (base_replacement_history (scan_rollout all)).
Proof.
  intros Hr Hc. unfold Rollout.scan_rollout. rewrite (imap_all all).
  destruct (scan_loop_inv all (keeps all) (length all) (mkScan None None NeverSet 0 all None))
    as (k & _ & [Hp Hk] & Hend); [|done| |].
  { intros k x st Hx. apply keeps_step; [done|]. apply not_true_is_false. intros E.
    assert (existsb is_rollback all = true); [|congruence]. apply existsb_exists.
    exists x. split; [|done]. by apply list_elem_of_In, (list_elem_of_lookup_2 _ k). }
  { split; [done|]. by rewrite drop_all. }
  set (st := scan_loop _ _ _) in *. clearbody st.
  assert (holds st) as [h Hh].
  { destruct Hend as [->|Hd]; [by apply Hk|]. unfold scan_done in Hd.
    apply andb_true_iff in Hd as [[[h Hb]%bool_decide_eq_true _]%andb_true_iff _]. exists h. by left. }
  destruct (active_segment st) as [seg|] eqn:Ea.
  - destruct (finalize_spec (set_active st None) seg eq_refl) as (_ & _ & _ & Hf).
    destruct (Hf Hp) as [_ Hsome]. apply (Hsome h). unfold carries, segment_base in Hh. by rewrite Ea in Hh.
  - destruct Hh as [Hb|Hs]; [by exists h|]. unfold segment_base in Hs. by rewrite Ea in Hs.
Qed.

(** The transcript that a replay of the whole rollout gives. *)
Definition replayed (policy : TruncationPolicy) (all : list Item) : option (list ResponseItem) :=
  '(m, _) ← replay policy all History.new false; Some (History.items m).

Lemma reconstruct_base policy all i x h0 h k y :
  all !! i = Some x -> checkpoint x = Some h0 -> i <= k -> all !! k = Some y -> checkpoint y = Some h ->
  exists r r' f f', replay policy all History.new false = Some (r, f) /\
    replay policy (drop (S i) all) (History.replace History.new h) false = Some (r', f') /\
    History.items r = History.items r'.
Proof.
  intros Hx Hc Hik Hy Hcy. set (start := History.replace History.new h : Manager).
  destruct (replay_from_checkpoint policy all k y h History.new start false false Hy Hcy eq_refl)
    as (r & r1 & f & f1 & E & E1 & Er). rewrite E.
  destruct (decide (i = k)) as [->|Hne]; [by exists r, r1, f, f1|].
  destruct (replay_from_checkpoint policy (drop (S i) all) (k - S i) y h start start false false)
    as (r2 & r3 & f2 & f3 & E2 & E3 & Er2); [rewrite lookup_drop; by replace (S i + (k - S i)) with k by lia|done..|].
  rewrite drop_drop in E3. replace (S i + S (k - S i)) with (S k) in E3 by lia.
  rewrite E1 in E3. injection E3 as <- <-. exists r, r2, f, f2. split_and!; [done..|congruence].
Qed.

(** C28: When the rollout of a thread has no rollback marker, or no checkpoint, or the scan
    for the newest checkpoint keeps one, rebuilding the thread succeeds and the scan is
    only a short cut: the rebuilt transcript is the one that replaying every item from
    the start gives.  Nothing is said of a rollout whose rollbacks drop every
    checkpoint. *)
Theorem reconstruction_is_forward_replay policy all :
  existsb is_rollback all = false \/ existsb is_checkpoint all = false \/
  is_Some (base_replacement_history (scan_rollout all)) ->
  exists r, reconstruct policy all = Some r /\ replayed policy all = Some (history r).
Proof.
  intros H. unfold reconstruct_history_from_rollout, replayed.
  destruct (base_replacement_history (scan_rollout all)) as [h|] eqn:Eb.
  - destruct (scan_rollout_inv all) as [[_ ?]|(i & x & h0 & Hx & Hc & -> & Hk)]; [congruence|].
    destruct (Hk h Eb) as (k & y & Hik & Hy & Hcy).
    destruct (reconstruct_base policy all i x h0 h k y) as (r & r' & f & f' & -> & -> & E); try done.
    eexists. split; [done|]. simpl. by rewrite E.
  - destruct (existsb is_checkpoint all) eqn:Ec.
    { destruct H as [H|[H|[h H]]]; try congruence. destruct (scan_rollout_keeps all H Ec). congruence. }
    destruct (scan_rollout_inv all) as [[-> _]|(i & x & h0 & Hx & Hc & _)].
    + destruct (replay_same policy all History.new History.new false false eq_refl)
        as (r & _ & f & _ & -> & _ & _). by eexists.
    + assert (existsb is_checkpoint all = true); [|congruence]. apply existsb_exists.
      exists x. split; [by apply list_elem_of_In, (list_elem_of_lookup_2 _ i)|].
      unfold is_checkpoint. by rewrite Hc.
Qed.

(** ** Positions of turns *)

#[local] Abbreviation contextual_text :=
  (is_contextual_user_text format_4 notification_json parse_hook_prompt_xml).
#[local] Abbreviation agent_json := (fun text => bool_decide (is_Some (inter_agent_json text))).
#[local] Abbreviation boundary := (is_user_turn_boundary contextual_text agent_json).
#[local] Abbreviation turns := (Transcript.turns contextual_text agent_json).
#[local] Abbreviation fork_step :=
  (Rollout.fork_step (Settings := Settings) format_4 notification_json parse_hook_prompt_xml inter_agent_json).
#[local] Abbreviation fork_loop :=
  (Rollout.fork_loop (Settings := Settings) format_4 notification_json parse_hook_prompt_xml inter_agent_json).
#[local] Abbreviation real_user :=
  (is_real_user_message_boundary format_4 notification_json parse_hook_prompt_xml).

(** The turns at which a thread can be forked. *)
Definition fork_boundary (i : ResponseItem) : bool :=
  real_user i || is_trigger_turn_boundary inter_agent_json i.

Lemma fork_boundary_is_boundary i : fork_boundary i = true -> boundary i = true.
Proof.
  unfold fork_boundary, is_real_user_message_boundary. intros [H|H]%orb_true_iff.
  - destruct i as [id role content phase| | | | | | | | |? ? []| | | | |]; try done. simpl in H |- *.
    case_bool_decide as Eu; [|by case_bool_decide]. simpl.
    destruct (parse_visible_hook_prompt_message _ _ _ _); [done|]. unfold parse_user_message in H.
    by destruct (is_contextual_user_message_content _ _).
  - destruct i as [id role content phase| | | | | | | | | | | | | |]; try done. simpl in H |- *.
    apply andb_true_iff in H as [Hr Hj]. rewrite Hr. apply orb_true_iff. right. simpl.
    destruct content as [|[t|? ?|t] [|]]; try done; simpl in *; by destruct (inter_agent_json t).
Qed.

Lemma boundary_same_shape i i' : same_shape i i' -> boundary i' = boundary i /\ (boundary i = true -> i' = i).
Proof.
  intros (_ & Ho & _ & _ & Hn). destruct (output_key i) as [k|] eqn:E.
  - split; [|by destruct i as [| | | | | | | |[]| | | | | |]].
    destruct i as [| | | | | | | |[]| | | | | |]; try done; destruct i' as [| | | | | | | |[]| | | | | |]; done.
  - by rewrite Hn.
Qed.

Lemma boundary_is_api i : boundary i = true -> is_api_message i = true.
Proof.
  destruct i; try done. simpl. intros [[->%bool_decide_eq_true _]%andb_true_iff|
    [->%bool_decide_eq_true _]%andb_true_iff]%orb_true_iff; done.
Qed.

Lemma turns_snoc h i : turns (h ++ [i]) = if boundary i then turns h ++ [i] else turns h.
Proof.
  rewrite turns_app. unfold Transcript.turns at 2. simpl.
  destruct (boundary i); [done|apply app_nil_r].
Qed.

Lemma record_turns (m m' : Manager) i policy :
  record_items m [i] policy = Some m' ->
  turns (History.items m') = if boundary i then turns (History.items m) ++ [i] else turns (History.items m).
Proof.
  cbn [record_items]. destruct (is_api_message i) eqn:Ea; cbn [negb].
  - destruct (process_item_total i policy) as (i' & -> & Hs). cbn [mbind option_bind]. intros [= <-].
    cbn [History.items set_items]. rewrite turns_snoc. destruct (boundary_same_shape i i' Hs) as [-> Hi].
    destruct (boundary i) eqn:Eb; [|done]. by rewrite Hi.
  - intros [= <-]. destruct (boundary i) eqn:Eb; [|done]. apply boundary_is_api in Eb. congruence.
Qed.

(** Positions that point at the turns of a transcript, and which of them a fork counts. *)
Definition fork_at (all : list Item) (p : nat) : bool :=
  match all !! p with Some (ResponseItemLine i) => fork_boundary i | _ => false end.
Definition tracks (all : list Item) (n : nat) (acc : list nat * list nat) (h : list ResponseItem) : Prop :=
  StronglySorted lt (fst acc) /\ Forall (fun p => p < n) (fst acc) /\
  (fun p => all !! p) <$> fst acc = (fun i => Some (ResponseItemLine i)) <$> turns h /\
  snd acc = List.filter (fork_at all) (fst acc).

Lemma sorted_below R k v :
  StronglySorted lt R -> R !! k = Some v -> List.filter (fun p => p <? v) R = take k R.
Proof.
  intros H. revert k. induction H as [|a R Hs IH Ha]; intros k E; [done|].
  destruct k as [|k]; simpl in *.
  - injection E as ->. rewrite Nat.ltb_irrefl. clear -Ha. induction Ha as [|b R Hb _ IH]; simpl; [done|].
    destruct (Nat.ltb_spec b v); [lia|done].
  - assert (a < v) by (by apply (proj1 (Forall_forall _ _) Ha), (list_elem_of_lookup_2 _ k)).
    destruct (Nat.ltb_spec a v); [|lia]. by rewrite (IH k E).
Qed.

Lemma filter_comm {A} (p q : A -> bool) l : List.filter p (List.filter q l) = List.filter q (List.filter p l).
Proof.
  induction l as [|x l IH]; simpl; [done|].
  destruct (p x) eqn:Ep, (q x) eqn:Eq; simpl; rewrite ?Ep, ?Eq, ?IH; done.
Qed.

Lemma sorted_take R k : StronglySorted lt R -> StronglySorted lt (take k R).
Proof.
  intros H. revert k. induction H as [|a R Hs IH Ha]; intros [|k]; simpl; constructor; [auto|].
  by apply Forall_take.
Qed.

Lemma sorted_snoc R n : StronglySorted lt R -> Forall (fun p => p < n) R -> StronglySorted lt (R ++ [n]).
Proof.
  intros H. induction H as [|a R Hs IH Ha]; simpl; intros Hn; [by repeat constructor|].
  apply Forall_cons in Hn as [Hn1 Hn2]. constructor; [auto|]. apply Forall_app. by split; [|constructor].
Qed.

Lemma tracks_item all n i acc h h' :
  all !! n = Some (ResponseItemLine i) -> tracks all n acc h ->
  turns h' = (if boundary i then turns h ++ [i] else turns h) ->
  tracks all (S n) (fork_step n (ResponseItemLine i) acc) h'.
Proof.
  intros Hn (Hs & Hb & Hl & Hf) Ht. destruct acc as [R F]. cbn [fst snd] in *. unfold Rollout.fork_step.
  fold (fork_boundary i). unfold tracks. cbn [fst snd]. rewrite Ht.
  assert (Forall (fun p => p < S n) R) as Hb' by (eapply Forall_impl; [exact Hb|simpl; lia]).
  destruct (boundary i) eqn:Eb.
  - split_and!; [by apply sorted_snoc|apply Forall_app; split; [done|repeat constructor; lia]| |].
    + rewrite !fmap_app, Hl. simpl. by rewrite Hn.
    + rewrite List.filter_app, Hf. simpl.
      assert (fork_at all n = fork_boundary i) as -> by (unfold fork_at; by rewrite Hn).
      destruct (fork_boundary i); [done|by rewrite app_nil_r].
  - split_and!; try done. destruct (fork_boundary i) eqn:Ef; [|done].
    apply fork_boundary_is_boundary in Ef. congruence.
Qed.

Lemma tracks_rollback all n k acc h h' :
  tracks all n acc h -> turns h' = take (length (turns h) - N.to_nat k) (turns h) ->
  tracks all (S n) (fork_step n (EventLine (ThreadRolledBack k)) acc) h'.
Proof.
  intros (Hs & Hb & Hl & Hf) Ht. destruct acc as [R F]. cbn [fst snd] in *. unfold Rollout.fork_step.
  assert (length R = length (turns h)) as Hlen.
  { apply (f_equal length) in Hl. by rewrite !length_fmap in Hl. }
  assert (forall m, Forall (fun p => p < S n) (take m R)) as Hb'
    by (intros m; apply Forall_take; eapply Forall_impl; [exact Hb|simpl; lia]).
  destruct (Nat.eqb_spec (N.to_nat k) 0) as [Ek|Ek].
  { rewrite Ek, Nat.sub_0_r, firstn_all in Ht. unfold tracks. cbn [fst snd]. rewrite Ht. split_and!; try done.
    specialize (Hb' (length R)). by rewrite firstn_all in Hb'. }
  assert (match (if N.to_nat k <=? length R then R !! (length R - N.to_nat k) else head R) with
    | Some v => R !! (length R - N.to_nat k) = Some v | None => R = [] end) as Hstart.
  { destruct (Nat.leb_spec (N.to_nat k) (length R)) as [Hle|Hgt].
    - destruct (lookup_lt_is_Some_2 R (length R - N.to_nat k)) as [v E]; [lia|]. by rewrite E.
    - replace (length R - N.to_nat k) with 0 by lia. by destruct R. }
  destruct (if N.to_nat k <=? length R then _ else _) as [v|]; unfold tracks; cbn [fst snd]; rewrite Ht.
  - split_and!; [by apply sorted_take|done| |].
    + by rewrite <- Hlen, !fmap_take, Hl.
    + by rewrite Hf, filter_comm, (sorted_below _ _ _ Hs Hstart).
  - subst R. destruct (turns h); [|done]. simpl in *. by subst F.
Qed.

Definition is_compacted (x : Item) : bool := match x with Compacted _ => true | _ => false end.

Lemma fork_loop_tracks policy all n l acc (m : Manager) b :
  drop n all = l -> forallb (fun x => negb (is_compacted x)) l = true ->
  tracks all n acc (History.items m) ->
  exists r f, replay policy l m b = Some (r, f) /\
    tracks all (length all) (fork_loop n l acc) (History.items r).
Proof.
  revert n acc m. induction l as [|x l IH]; intros n acc m Hd Hc Ht; cbn [Rollout.replay Rollout.fork_loop].
  { exists m, b. split; [done|]. destruct Ht as (Hs & Hb & Hl & Hf). split_and!; try done.
    apply Forall_forall. intros p Hp. assert (all !! p ∈ (fun p => all !! p) <$> fst acc) as Hin
      by (apply list_elem_of_fmap; eauto). rewrite Hl in Hin.
    apply list_elem_of_fmap in Hin as (i & E & _). by apply lookup_lt_Some in E. }
  assert (all !! n = Some x) as Hx by (by rewrite <- (Nat.add_0_r n), <- lookup_drop, Hd).
  assert (drop (S n) all = l) as Hd'.
  { replace (S n) with (n + 1) by lia. rewrite <- drop_drop, Hd. done. }
  simpl in Hc. apply andb_true_iff in Hc as [Hx' Hc].
  assert (fork_step n x acc = acc -> tracks all (S n) (fork_step n x acc) (History.items m)) as Hskip.
  { intros ->. destruct Ht as (Hs & Hb & Hl & Hf). split_and!; try done.
    eapply Forall_impl; [exact Hb|simpl; lia]. }
  destruct x as [|i|c|c|[k|id|id| |id|]]; try done;
    try (apply IH; [done..|apply Hskip; by destruct acc]).
  - destruct (record_items_spec m [i] policy) as (r & E & _). rewrite E. cbn [mbind option_bind].
    apply IH; [done..|]. eapply tracks_item; [done..|]. by apply record_turns in E.
  - apply IH; [done..|]. eapply tracks_rollback; [done|]. apply rollback_turns.
Qed.

(** In a rollout without compactions the positions kept for rollbacks and forks follow
    the rollback markers exactly as the replayed transcript does: the turns at these
    positions are, in order, the turns of the transcript a resumed thread has, and the
    fork positions are those of them that are user messages or trigger messages. *)
Theorem fork_positions_match_the_replay policy all :
  existsb is_compacted all = false ->
  exists h, replayed policy all = Some h /\
    (fun p => all !! p) <$> fst (fork_loop 0 all ([], [])) =
      (fun i => Some (ResponseItemLine i)) <$> turns h /\
    fork_turn_positions_in_rollout format_4 notification_json parse_hook_prompt_xml inter_agent_json all =
      List.filter (fork_at all) (fst (fork_loop 0 all ([], []))) /\
    StronglySorted lt
      (fork_turn_positions_in_rollout format_4 notification_json parse_hook_prompt_xml inter_agent_json all).
Proof.
  intros Hc. destruct (fork_loop_tracks policy all 0 all ([], []) History.new false)
    as (r & f & E & Hs & _ & Hl & Hf); [done| |by repeat constructor|].
  { apply forallb_forall. intros x Hx. apply negb_true_iff, not_true_is_false. intros Ex.
    assert (existsb is_compacted all = true); [|congruence]. apply existsb_exists. eauto. }
  unfold replayed. rewrite E. eexists. split_and!; [done|done|exact Hf|].
  unfold fork_turn_positions_in_rollout. rewrite Hf. clear -Hs.
  induction Hs as [|a R Hs IH Ha]; simpl; [constructor|]. destruct (fork_at all a); [|done].
  constructor; [done|]. apply Forall_forall. intros p Hp.
  apply list_elem_of_In, filter_In in Hp as [Hp _]. apply list_elem_of_In in Hp.
  by apply (proj1 (Forall_forall _ _) Ha).
Qed.

(** ** Compaction *)

Definition tokens (ms : list str) : N := foldr (fun m acc => (approx_token_count m + acc)%N) 0%N ms.

(** Which messages are selected, newest first: whole ones up to the budget, and the next
    one truncated to what is left. *)
Definition selection (rl sel : list str) (n : N) : Prop :=
  (exists rest, rl = sel ++ rest /\ (tokens sel <= n)%N /\ (rest <> [] -> tokens sel = n)) \/
  (exists whole m rest t, rl = whole ++ m :: rest /\ sel = whole ++ [t] /\ (tokens whole < n)%N /\
     (n - tokens whole < approx_token_count m)%N /\
     truncate_text m (Tokens (n - tokens whole)) = Some t).

Lemma select_messages_spec rl n : exists sel, select_messages rl n = Some sel /\ selection rl sel n.
Proof.
  revert n. induction rl as [|m rl IH]; intros n; cbn [select_messages].
  { exists []. split; [done|]. left. exists []. split_and!; try done. simpl. lia. }
  destruct (N.eqb_spec n 0) as [->|Hn].
  { exists []. split; [done|]. left. by exists (m :: rl). }
  destruct (N.leb_spec (approx_token_count m) n) as [Hle|Hgt].
  - destruct (IH (HeadTail.saturating_sub n (approx_token_count m))) as (sel & -> & Hsel).
    unfold HeadTail.saturating_sub in Hsel. exists (m :: sel). split; [done|].
    destruct Hsel as [(rest & -> & Ht & Hr)|(whole & x & rest & t & -> & -> & H1 & H2 & H3)].
    + left. exists rest. cbn [tokens foldr]. fold (tokens sel). split_and!; [done|lia|].
      intros H. specialize (Hr H). lia.
    + right. exists (m :: whole), x, rest, t. cbn [tokens foldr]. fold (tokens whole).
      rewrite <- N.sub_add_distr in H2, H3. split_and!; try done. lia.
  - destruct (truncate_text_total m (Tokens n)) as [t Et]. rewrite Et. exists [t]. split; [done|].
    right. exists [], m, rl, t. simpl. rewrite N.sub_0_r. split_and!; try done; lia.
Qed.

(** A compacted transcript is what it started with, then the newest user messages that
    fit the token budget, in order, the oldest of them cut to the tokens left when it
    does not fit whole, and the summary last. *)
Theorem compaction_keeps_newest_messages h ms summary limit :
  exists kept, build_compacted_history_with_limit h ms summary limit =
      Some (h ++ map user_text_message kept ++
            [user_text_message (if Str.is_empty summary then $"(no summary available)" else summary)]) /\
    selection (rev ms) (rev kept) limit.
Proof.
  unfold build_compacted_history_with_limit. destruct (N.ltb_spec 0 limit) as [Hl|Hl].
  - destruct (select_messages_spec (rev ms) limit) as (sel & -> & Hsel). exists (rev sel).
    split; [done|]. by rewrite rev_involutive.
  - exists []. split; [done|]. left. exists (rev ms). simpl. split_and!; try done; lia.
Qed.

#[local] Abbreviation user_message :=
  (Rollout.user_message format_4 notification_json parse_hook_prompt_xml).
Definition is_user_message (i : ResponseItem) : bool :=
  match user_message i with Some _ => true | None => false end.
Definition is_real_message (i : ResponseItem) : bool :=
  match user_message i with Some m => negb (is_summary_message m) | None => false end.

Lemma positions_app p n a b : positions_from p n (a ++ b) = positions_from p n a ++ positions_from p (n + length a) b.
Proof.
  revert n. induction a as [|x a IH]; intros n; simpl; [by rewrite Nat.add_0_r|].
  rewrite IH. replace (S n + length a) with (n + S (length a)) by lia. by destruct (p x).
Qed.

Lemma rposition_snoc p l x : rposition p (l ++ [x]) = if p x then Some (length l) else rposition p l.
Proof.
  unfold rposition. rewrite positions_app. simpl. destruct (p x); [apply last_snoc|by rewrite app_nil_r].
Qed.

Lemma rposition_spec p l :
  match rposition p l with
  | Some i => exists a x b, l = a ++ x :: b /\ i = length a /\ p x = true /\ existsb p b = false
  | None => existsb p l = false
  end.
Proof.
  induction l as [|x l IH] using rev_ind; [done|]. rewrite rposition_snoc. destruct (p x) eqn:E.
  - by exists l, x, [].
  - destruct (rposition p l) as [i|].
    + destruct IH as (a & y & b & -> & -> & Hy & Hb). exists a, y, (b ++ [x]).
      rewrite existsb_app, Hb. simpl. rewrite E. by rewrite <- app_assoc.
    + rewrite existsb_app, IH. simpl. by rewrite E.
Qed.

Lemma last_user_indices_spec l f :
  last_user_indices format_4 notification_json parse_hook_prompt_xml (length l - 1) (rev l) f =
  (match f with Some j => Some j | None => rposition is_user_message l end, rposition is_real_message l).
Proof.
  revert f. induction l as [|x l IH] using rev_ind; intros f; [by destruct f|].
  rewrite rev_app_distr, !rposition_snoc, length_app. cbn [rev app last_user_indices length].
  rewrite Nat.add_sub. unfold is_user_message at 1, is_real_message at 1.
  destruct (user_message x) as [m|]; [|apply IH].
  destruct (negb (is_summary_message m)); [by destruct f|]. rewrite IH. by destruct f.
Qed.

(** The insertion point: before the last item with the property. *)
Definition before_last (p : ResponseItem -> bool) (l a b : list ResponseItem) : Prop :=
  l = a ++ b /\ exists x b', b = x :: b' /\ p x = true /\ existsb p b' = false.

Lemma insert_at p l i ctx :
  rposition p l = Some i ->
  exists a b, before_last p l a b /\ take i l ++ ctx ++ drop i l = a ++ ctx ++ b.
Proof.
  intros H. pose proof (rposition_spec p l) as Hs. rewrite H in Hs.
  destruct Hs as (a & x & b & -> & -> & Hx & Hb). exists a, (x :: b).
  rewrite take_app_length, drop_app_length. split; [|done]. split; [done|]. by exists x, b.
Qed.

(** The initial context goes into a compacted transcript right before the last message
    of the user; without one, before the last summary; without one, before the last
    compaction item; and at the end of a transcript that has none of these.  Nothing
    else moves. *)
Theorem initial_context_precedes_the_last_message l ctx :
  exists a b,
    insert_initial_context_before_last_real_user_or_summary
      format_4 notification_json parse_hook_prompt_xml l ctx = a ++ ctx ++ b /\ l = a ++ b /\
    (if existsb is_real_message l then before_last is_real_message l a b
     else if existsb is_user_message l then before_last is_user_message l a b
     else if existsb is_compaction l then before_last is_compaction l a b
     else b = []).
Proof.
  unfold insert_initial_context_before_last_real_user_or_summary. rewrite last_user_indices_spec.
  assert (forall p, match rposition p l with
    | Some i => existsb p l = true /\ exists a b, before_last p l a b /\ take i l ++ ctx ++ drop i l = a ++ ctx ++ b
    | None => existsb p l = false end) as Hp.
  { intros p. pose proof (rposition_spec p l) as Hs. destruct (rposition p l) as [i|] eqn:E; [|done].
    split; [|by apply insert_at]. destruct Hs as (a & x & b & -> & _ & Hx & _).
    rewrite existsb_app. simpl. by rewrite Hx, orb_true_r. }
  pose proof (Hp is_real_message) as H1. pose proof (Hp is_user_message) as H2.
  pose proof (Hp is_compaction) as H3.
  destruct (rposition is_real_message l) as [i|].
  { destruct H1 as (-> & a & b & Hb & ->). exists a, b. split; [done|]. split; [apply Hb|done]. }
  rewrite H1. destruct (rposition is_user_message l) as [i|].
  { destruct H2 as (-> & a & b & Hb & ->). exists a, b. split; [done|]. split; [apply Hb|done]. }
  rewrite H2. destruct (rposition is_compaction l) as [i|].
  { destruct H3 as (-> & a & b & Hb & ->). exists a, b. split; [done|]. split; [apply Hb|done]. }
  rewrite H3. exists l, []. by rewrite !app_nil_r.
Qed.
End resume.

(** ** Instances *)

Definition fmt (f : SpecFloat.spec_float) : str := [].
Definition note (s : str) (u : unit) : str := [].
Definition no_hook (s : str) : option HookPromptFragment := None.
(** A text that starts with a brace is an inter-agent message. *)
Definition agent_message (s : str) : option bool :=
  match s with c :: _ => if (c =? ch "{")%N then Some true else None | [] => None end.

Definition user_says (text : str) : RolloutItem unit := ResponseItemLine (user_text_message text).
Definition turn_of (id : str) (body : list (RolloutItem unit)) : list (RolloutItem unit) :=
  [EventLine (TurnStarted id)] ++ body ++ [EventLine (TurnComplete id)].
Definition summary_of (text : str) : ResponseItem := user_text_message (SUMMARY_PREFIX ++ newline :: text).

(** Two turns, the second compacts in its middle. *)
Definition compacting : list (RolloutItem unit) :=
  turn_of $"t1" [user_says $"one"] ++
  turn_of $"t2" [user_says $"two";
    Compacted (mkCompacted $"sum" (Some [user_text_message $"one"; summary_of $"sum"]));
    ResponseItemLine (Message None $"assistant" [OutputText $"ok"] None)].

Lemma reconstruction_is_forward_replay_witness :
  exists r, reconstruct_history_from_rollout fmt note no_hook agent_message (Bytes 1000) compacting = Some r /\
    replayed fmt note no_hook agent_message (Bytes 1000) compacting = Some (history r).
Proof.
  apply (reconstruction_is_forward_replay fmt note no_hook agent_message (Bytes 1000) compacting).
  left. reflexivity.
Defined.

(** A rollback of the turn that compacted: the checkpoint does not survive, but the items
    before it are not replayed either: the first turn is lost, and an answer of the turn
    that was rolled back is all that is left. *)
Example rolled_back_checkpoint_loses_history :
  let all := compacting ++ [EventLine (ThreadRolledBack 1)] in
  history <$> reconstruct_history_from_rollout fmt note no_hook agent_message (Bytes 1000) all =
    Some [Message None $"assistant" [OutputText $"ok"] None] /\
  replayed fmt note no_hook agent_message (Bytes 1000) all = Some [user_text_message $"one"].
Proof. vm_compute. split; reflexivity. Qed.

(** Two turns that compact and record no settings: the scan goes on to the older checkpoint,
    and the replay meets the newer one. *)
Example older_checkpoint_reaches_the_replay :
  let checkpoint_of text := Compacted (mkCompacted text (Some [summary_of text])) in
  let all := turn_of $"t1" [user_says $"one"; checkpoint_of $"old"] ++
             turn_of $"t2" [user_says $"two"; checkpoint_of $"new"] in
  existsb is_checkpoint (rollout_suffix (scan_rollout fmt note no_hook agent_message all)) = true.
Proof. reflexivity. Qed.

Definition mixed_turns : list (RolloutItem unit) :=
  [user_says $"one"; user_says $"two";
   ResponseItemLine (Message None $"assistant" [OutputText $"{}"] None); EventLine (ThreadRolledBack 1)].

Lemma fork_positions_match_the_replay_witness :
  exists h, replayed fmt note no_hook agent_message (Bytes 1000) mixed_turns = Some h /\
    (fun p => mixed_turns !! p) <$> [0; 1] = (fun i => Some (ResponseItemLine i)) <$>
      turns (is_contextual_user_text fmt note no_hook) (fun t => bool_decide (is_Some (agent_message t))) h.
Proof.
  destruct (fork_positions_match_the_replay fmt note no_hook agent_message (Bytes 1000) mixed_turns)
    as (h & E & Hl & _); [reflexivity|].
  exists h. split; [exact E|]. exact Hl.
Defined.

(** A rollback counts the message of another agent as a turn; the positions of the user
    messages drop a user message for it, which the transcript still has. *)
Example rollback_of_agent_turn_drops_user_position :
  user_message_positions_in_rollout fmt note no_hook mixed_turns = [0] /\
  replayed fmt note no_hook agent_message (Bytes 1000) mixed_turns =
    Some [user_text_message $"one"; user_text_message $"two"].
Proof. vm_compute. split; reflexivity. Qed.
End Resume.
