(* ===== verification/TableDetect.v ===== *)
(** Pipe tables and code fences in streamed Markdown: [tui/src/table_detect.rs] and the
    incremental scanner of [tui/src/streaming/table_holdback.rs], with the scan of a
    whole source that the repository keeps as its reference. *)
From S2P Require Import Prelude HeadTailBuffer.

Module TableDetect.
Import HeadTail.

(** ** table_detect.rs *)

Definition pipe : char := ch "|".
Definition backslash : char := ch "\".

(** [split_unescaped_pipe]: the bytes after a backslash are not looked at; continuation
    bytes match neither separator, so characters can be skipped instead. *)
Fixpoint split_unescaped_pipe (content : str) : list str :=
  match content with
  | [] => [[]]
  | c :: rest =>
      if (c =? backslash)%N then
        match rest with
        | [] => [[c]]
        | d :: rest' =>
            match split_unescaped_pipe rest' with
            | seg :: segs => (c :: d :: seg) :: segs
            | [] => [[c; d]]
            end
        end
      else if (c =? pipe)%N then [] :: split_unescaped_pipe rest
      else
        match split_unescaped_pipe rest with
        | seg :: segs => (c :: seg) :: segs
        | [] => [[c]]
        end
  end.

Definition strip_prefix_or (p s : str) : str := from_option id s (Str.strip_prefix p s).
Definition strip_suffix_or (p s : str) : str := from_option id s (Str.strip_suffix p s).

Definition parse_table_segments (line : str) : option (list str) :=
  let trimmed := Str.trim line in
  if Str.is_empty trimmed then None
  else
    let has_outer_pipe := Str.starts_with [pipe] trimmed || Str.ends_with [pipe] trimmed in
    let content := strip_suffix_or [pipe] (strip_prefix_or [pipe] trimmed) in
    let raw_segments := split_unescaped_pipe content in
    if negb has_outer_pipe && (length raw_segments <=? 1) then None
    else
      match map Str.trim raw_segments with
      | [] => None
      | segments => Some segments
      end.

Definition is_table_header_line (line : str) : bool :=
  match parse_table_segments line with
  | Some segments => existsb (fun s => negb (Str.is_empty s)) segments
  | None => false
  end.

Definition is_table_delimiter_segment (segment : str) : bool :=
  let trimmed := Str.trim segment in
  if Str.is_empty trimmed then false
  else
    let without_leading := strip_prefix_or $":" trimmed in
    let without_ends := strip_suffix_or $":" without_leading in
    (3 <=? length without_ends) && forallb (fun c => (c =? ch "-")%N) without_ends.
Definition is_table_delimiter_line (line : str) : bool :=
  match parse_table_segments line with
  | Some segments => forallb is_table_delimiter_segment segments
  | None => false
  end.

Inductive FenceKind := Outside | Markdown | Other.
#[global] Instance fence_kind_eq_dec : EqDecision FenceKind.
Proof. solve_decision. Defined.

(** The marker, its length and the kind of the open fence. *)
Abbreviation FenceTracker := (option (char * nat * FenceKind)) (only parsing).

Fixpoint run_length (c : char) (s : str) : nat :=
  match s with d :: s' => if (d =? c)%N then S (run_length c s') else 0 | [] => 0 end.
Definition parse_fence_marker (line : str) : option (char * nat) :=
  match line with
  | [] => None
  | first :: _ =>
      if negb (first =? ch "`")%N && negb (first =? ch "~")%N then None
      else let len := run_length first line in if len <? 3 then None else Some (first, len)
  end.

(** The first word of the info string. *)
Fixpoint first_word (s : str) : str :=
  match s with c :: s' => if Str.is_whitespace c then [] else c :: first_word s' | [] => [] end.
Definition is_markdown_fence_info (trimmed_line : str) (marker_len : nat) : bool :=
  let info := first_word (Str.trim_start (drop marker_len trimmed_line)) in
  Str.eq_ignore_ascii_case info $"md" || Str.eq_ignore_ascii_case info $"markdown".

(** The loop removes at least one character per round. *)
Fixpoint strip_blockquotes (fuel : nat) (rest : str) : str :=
  match fuel with
  | 0 => rest
  | S fuel =>
      match Str.strip_prefix $">" rest with
      | None => rest
      | Some stripped => strip_blockquotes fuel (Str.trim_start (strip_prefix_or $" " stripped))
      end
  end.
Definition strip_blockquote_prefix (line : str) : str :=
  let rest := Str.trim_start line in strip_blockquotes (S (length rest)) rest.

Definition fence_kind (t : FenceTracker) : FenceKind :=
  match t with Some (_, _, k) => k | None => Outside end.
Definition advance (t : FenceTracker) (raw_line : str) : FenceTracker :=
  let leading_spaces := run_length (ch " ") raw_line in
  if 3 <? leading_spaces then t
  else
    let fence_scan_text := strip_blockquote_prefix (drop leading_spaces raw_line) in
    match parse_fence_marker fence_scan_text with
    | None => t
    | Some (marker, len) =>
        match t with
        | Some (open_char, open_len, _) =>
            if (marker =? open_char)%N && (open_len <=? len) &&
               Str.is_empty (Str.trim (drop len fence_scan_text))
            then None else t
        | None =>
            Some (marker, len, if is_markdown_fence_info fence_scan_text len then Markdown else Other)
        end
    end.

(** ** table_holdback.rs *)

Inductive TableHoldbackState :=
| NoTable
| PendingHeader (header_start : N)
| Confirmed (table_start : N).

Record PreviousLineState := mkPrevious {
  prev_source_start : N;
  prev_fence_kind : FenceKind;
  prev_is_header : bool;
}.
Record TableHoldbackScanner := mkScanner {
  source_offset : N;
  fence_tracker : FenceTracker;
  previous_line : option PreviousLineState;
  pending_header_start : option N;
  confirmed_table_start : option N;
}.
Definition scanner_new : TableHoldbackScanner := mkScanner 0 None None None None.
Definition scanner_state (s : TableHoldbackScanner) : TableHoldbackState :=
  match confirmed_table_start s, pending_header_start s with
  | Some table_start, _ => Confirmed table_start
  | None, Some header_start => PendingHeader header_start
  | None, None => NoTable
  end.

Definition table_candidate_text (line : str) : option str :=
  let stripped := Str.trim (strip_blockquote_prefix line) in
  match parse_table_segments stripped with Some _ => Some stripped | None => None end.
Definition candidate_is (p : str -> bool) (line : str) : bool :=
  match table_candidate_text line with Some text => p text | None => false end.
Definition in_code (k : FenceKind) : bool := bool_decide (k = Other).

Definition push_line (s : TableHoldbackScanner) (source_line : str) : TableHoldbackScanner :=
  let line := strip_suffix_or [newline] source_line in
  let source_start := source_offset s in
  let kind := fence_kind (fence_tracker s) in
  let is_header := negb (in_code kind) && candidate_is is_table_header_line line in
  let is_delimiter := negb (in_code kind) && candidate_is is_table_delimiter_line line in
  let '(confirmed, pending) :=
    match confirmed_table_start s, previous_line s with
    | None, Some p =>
        if negb (in_code (prev_fence_kind p)) && negb (in_code kind) && prev_is_header p && is_delimiter
        then (Some (prev_source_start p), None)
        else (None, pending_header_start s)
    | c, _ => (c, pending_header_start s)
    end in
  let pending :=
    match confirmed with
    | Some _ => pending
    | None =>
        if Str.is_empty (Str.trim line) then pending
        else if negb (in_code kind) && is_header then Some source_start
        else None
    end in
  mkScanner (saturating_add source_start (Str.len source_line)) (advance (fence_tracker s) line)
    (Some (mkPrevious source_start kind is_header)) pending confirmed.

(** [split_inclusive('\n')]. *)
Fixpoint split_inclusive (s : str) : list str :=
  match s with
  | [] => []
  | c :: s' =>
      if (c =? newline)%N then [c] :: split_inclusive s'
      else match split_inclusive s' with
           | l :: ls => (c :: l) :: ls
           | [] => [[c]]
           end
  end.
Definition push_source_chunk (s : TableHoldbackScanner) (source_chunk : str) : TableHoldbackScanner :=
  fold_left push_line (split_inclusive source_chunk) s.

(** The reference: a scan of the whole source. *)
Record ParsedLine := mkParsed { text : str; fence_context : FenceKind; source_start : N }.
Fixpoint parse_lines (tracker : FenceTracker) (start : N) (lines : list str) : list ParsedLine :=
  match lines with
  | [] => []
  | raw_line :: rest =>
      mkParsed raw_line (fence_kind tracker) start ::
      parse_lines (advance tracker raw_line) (saturating_add (saturating_add start (Str.len raw_line)) 1) rest
  end.
Definition parse_lines_with_fence_state (source : str) : list ParsedLine :=
  parse_lines None 0 (Str.split newline source).

Definition is_table_at (header delimiter : ParsedLine) : bool :=
  negb (in_code (fence_context header) || in_code (fence_context delimiter)) &&
  candidate_is is_table_header_line (text header) &&
  candidate_is is_table_delimiter_line (text delimiter).
Fixpoint find_table (lines : list ParsedLine) : option N :=
  match lines with
  | header :: ((delimiter :: _) as rest) =>
      if is_table_at header delimiter then Some (source_start header) else find_table rest
  | _ => None
  end.
Definition is_blank (line : str) : bool := Str.is_empty (Str.trim line).
Definition last_non_blank (lines : list ParsedLine) : option ParsedLine :=
  last (List.filter (fun l => negb (is_blank (text l))) lines).
Definition is_pending (l : ParsedLine) : bool :=
  negb (in_code (fence_context l)) && candidate_is is_table_header_line (text l).
Definition table_holdback_state (source : str) : TableHoldbackState :=
  let lines := parse_lines_with_fence_state source in
  match find_table lines with
  | Some table_start => Confirmed table_start
  | None =>
      match last_non_blank lines with
      | Some line => if is_pending line then PendingHeader (source_start line) else NoTable
      | None => NoTable
      end
  end.

(** ** The incremental scan follows the reference *)

Definition next_start (start : N) (line : str) : N := saturating_add (saturating_add start (Str.len line)) 1.

Lemma next_start_inclusive start line :
  saturating_add start (Str.len (line ++ [newline])) = next_start start line.
Proof.
  unfold next_start, saturating_add. rewrite Str.len_app. change (Str.len [newline]) with 1%N. lia.
Qed.

Lemma parse_lines_snoc t start ls l :
  parse_lines t start (ls ++ [l]) =
  parse_lines t start ls ++ [mkParsed l (fence_kind (fold_left advance ls t)) (fold_left next_start ls start)].
Proof.
  revert t start. induction ls as [|x ls IH]; intros t start; [done|]. simpl. f_equal. apply IH.
Qed.

Lemma find_table_snoc P x :
  find_table (P ++ [x]) =
  match find_table P with
  | Some n => Some n
  | None => match last P with
            | Some y => if is_table_at y x then Some (source_start y) else None
            | None => None
            end
  end.
Proof.
  induction P as [|a P IH]; [done|]. destruct P as [|b P].
  - simpl. by destruct (is_table_at a x).
  - cbn [app find_table] in *. destruct (is_table_at a b); [done|]. exact IH.
Qed.

Lemma last_non_blank_snoc P x :
  last_non_blank (P ++ [x]) = if is_blank (text x) then last_non_blank P else Some x.
Proof.
  unfold last_non_blank. rewrite List.filter_app. simpl.
  destruct (is_blank (text x)); simpl; [by rewrite app_nil_r|apply last_snoc].
Qed.

Lemma strip_inclusive line : strip_suffix_or [newline] (line ++ [newline]) = line.
Proof.
  unfold strip_suffix_or.
  assert (Str.strip_suffix [newline] (line ++ [newline]) = Some line) as -> by (by apply Str.strip_suffix_Some).
  done.
Qed.

(** What the scanner remembers after some lines. *)
Definition scans (ls : list str) (s : TableHoldbackScanner) : Prop :=
  let P := parse_lines None 0 ls in
  source_offset s = fold_left next_start ls 0%N /\
  fence_tracker s = fold_left advance ls None /\
  previous_line s = (fun l => mkPrevious (source_start l) (fence_context l) (is_pending l)) <$> last P /\
  confirmed_table_start s = find_table P /\
  (find_table P = None -> pending_header_start s =
     match last_non_blank P with
     | Some l => if is_pending l then Some (source_start l) else None
     | None => None
     end).

Lemma scans_push ls s l : scans ls s -> scans (ls ++ [l]) (push_line s (l ++ [newline])).
Proof.
  intros (Ho & Ht & Hp & Hc & Hh). unfold scans. rewrite parse_lines_snoc, !fold_left_app.
  set (P := parse_lines None 0 ls) in *.
  set (x := mkParsed l _ _). cbn [fold_left]. rewrite find_table_snoc, last_non_blank_snoc, last_snoc.
  unfold push_line. rewrite strip_inclusive, Ho, Ht, Hp, Hc, next_start_inclusive.
  change (fence_kind (fold_left advance ls None)) with (fence_context x).
  change (fold_left next_start ls 0%N) with (source_start x).
  change (candidate_is is_table_header_line l) with (candidate_is is_table_header_line (text x)).
  fold (is_pending x).
  assert (forall y, negb (in_code (fence_context y)) && negb (in_code (fence_context x)) && is_pending y &&
      (negb (in_code (fence_context x)) && candidate_is is_table_delimiter_line l) = is_table_at y x) as Hat.
  { intros y. unfold is_table_at, is_pending. change (text x) with l.
    by destruct (in_code (fence_context y)), (in_code (fence_context x)); simpl; rewrite ?andb_false_r. }
  assert (negb (in_code (fence_context x)) && is_pending x = is_pending x) as Hpx.
  { unfold is_pending. by destruct (in_code (fence_context x)). }
  destruct (find_table P) as [n|] eqn:Ef; simpl fmap.
  { destruct (last P); by split_and!. }
  specialize (Hh eq_refl). destruct (last P) as [y|] eqn:El; cbn [fmap option_fmap option_map].
  - cbn [prev_fence_kind prev_is_header prev_source_start]. rewrite Hat.
    destruct (is_table_at y x); [by split_and!|].
    cbn [source_offset fence_tracker previous_line pending_header_start confirmed_table_start].
    split_and!; try done. intros _.
    rewrite Hpx, Hh. unfold is_blank. change (text x) with l. by destruct (Str.is_empty (Str.trim l)).
  - cbn [source_offset fence_tracker previous_line pending_header_start confirmed_table_start].
    split_and!; try done. intros _.
    rewrite Hpx, Hh. unfold is_blank. change (text x) with l. by destruct (Str.is_empty (Str.trim l)).
Qed.

Lemma scans_lines ls : scans ls (fold_left push_line (map (fun l => l ++ [newline]) ls) scanner_new).
Proof.
  induction ls as [|l ls IH] using rev_ind; [done|].
  rewrite map_app, fold_left_app. simpl. by apply scans_push.
Qed.

(** The blank line after the last newline changes nothing. *)
Lemma candidate_blank p : candidate_is p [] = false.
Proof. done. Qed.

Lemma scans_state ls s :
  scans ls s ->
  scanner_state s =
  match find_table (parse_lines None 0 (ls ++ [[]])) with
  | Some n => Confirmed n
  | None =>
      match last_non_blank (parse_lines None 0 (ls ++ [[]])) with
      | Some l => if is_pending l then PendingHeader (source_start l) else NoTable
      | None => NoTable
      end
  end.
Proof.
  intros (_ & _ & _ & Hc & Hh). rewrite parse_lines_snoc, find_table_snoc, last_non_blank_snoc.
  unfold scanner_state. rewrite Hc. cbn [text].
  destruct (find_table (parse_lines None 0 ls)) as [n|]; [done|]. rewrite (Hh eq_refl).
  change (is_blank []) with true.
  assert (forall y k st, is_table_at y (mkParsed [] k st) = false) as Hno.
  { intros y k st. unfold is_table_at. cbn [text]. by rewrite candidate_blank, andb_false_r. }
  destruct (last (parse_lines None 0 ls)) as [y|]; rewrite ?Hno;
    (destruct (last_non_blank _) as [l|]; [by destruct (is_pending l)|done]).
Qed.

(** Source that ends with a newline. *)
Definition terminated (s : str) : Prop := s = [] \/ last s = Some newline.

Lemma split_inclusive_app a b : terminated a -> split_inclusive (a ++ b) = split_inclusive a ++ split_inclusive b.
Proof.
  intros [->|H]; [done|]. induction a as [|c a IH]; [done|]. simpl.
  destruct a as [|d a].
  - simpl in H. injection H as ->. done.
  - specialize (IH H). destruct (c =? newline)%N; [by rewrite IH|]. rewrite IH.
    assert (exists l ls, split_inclusive (d :: a) = l :: ls) as (l & ls & ->); [|done].
    simpl. destruct (d =? newline)%N; [eauto|]. destruct (split_inclusive a); eauto.
Qed.

Lemma split_inclusive_lines s :
  terminated s -> exists ls, split_inclusive s = map (fun l => l ++ [newline]) ls /\ Str.split newline s = ls ++ [[]].
Proof.
  intros Ht. induction s as [|c s IH]; [by exists []|].
  assert (terminated s) as Hs.
  { destruct Ht as [?|Ht]; [done|]. destruct s; [by left|by right]. }
  destruct (IH Hs) as (ls & E1 & E2). simpl. rewrite E1, E2. destruct (N.eqb_spec c newline) as [->|Hc].
  - by exists ([] :: ls).
  - destruct ls as [|l ls]; [|by exists ((c :: l) :: ls)].
    destruct s as [|d s]; [|simpl in E1; destruct (d =? newline)%N; [done|by destruct (split_inclusive s)]].
    destruct Ht as [?|Ht]; [done|]. simpl in Ht. congruence.
Qed.

Lemma terminated_app a b : terminated a -> terminated b -> terminated (a ++ b).
Proof.
  intros Ha [->|Hb]; [by rewrite app_nil_r|]. right.
  apply last_Some in Hb as [b' ->]. rewrite app_assoc. apply last_snoc.
Qed.

Lemma push_chunks s chunks :
  Forall terminated chunks ->
  fold_left push_source_chunk chunks s = fold_left push_line (split_inclusive (concat chunks)) s.
Proof.
  intros H. revert s. induction H as [|c cs Hc Hcs IH]; intros s; [done|]. simpl.
  rewrite split_inclusive_app, fold_left_app by done. apply IH.
Qed.

Lemma scanner_of_source source :
  terminated source ->
  scanner_state (fold_left push_line (split_inclusive source) scanner_new) = table_holdback_state source.
Proof.
  intros Ht. destruct (split_inclusive_lines source Ht) as (ls & -> & E).
  rewrite (scans_state ls _ (scans_lines ls)). unfold table_holdback_state, parse_lines_with_fence_state.
  by rewrite E.
Qed.

(** C30: Fed with any cut of a source into chunks of whole lines, the incremental scanner
    decides about pipe tables exactly as the scan of the whole source: the first header
    row followed by a delimiter row outside code fences, or else the last line when it
    could be a header. *)
Theorem holdback_scan_is_incremental chunks :
  Forall terminated chunks ->
  scanner_state (fold_left push_source_chunk chunks scanner_new) = table_holdback_state (concat chunks).
Proof.
  intros H. rewrite push_chunks by done. apply scanner_of_source.
  induction H as [|c cs Hc _ IH]; [by left|]. by apply terminated_app.
Qed.

Lemma holdback_scan_is_incremental_witness :
  let chunks := [$"intro" ++ [newline]; $"| a | b |" ++ [newline]; $"| --- | --- |" ++ [newline]] in
  scanner_state (fold_left push_source_chunk chunks scanner_new) = Confirmed 6.
Proof.
  intros chunks. rewrite (holdback_scan_is_incremental chunks) by (repeat constructor; by right).
  vm_compute. reflexivity.
Defined.
End TableDetect.
