(* ===== verification/StreamController.v ===== *)
(** The display of a streamed answer: the collector of whole lines
    ([tui/src/markdown_stream.rs]), the queue of lines ([streaming/mod.rs]) and the
    controllers ([streaming/controller.rs]), which render the source again with every
    line, hold back tables, and emit the stable lines one by one. *)
From S2P Require Import Prelude HeadTailBuffer Truncate TableDetect.

Module Stream.
Import HeadTail TableDetect.

(** ** MarkdownStreamCollector *)

(** The end of the last newline. *)
Fixpoint last_newline_end (s : str) : option nat :=
  match s with
  | [] => None
  | c :: s' =>
      match last_newline_end s' with
      | Some n => Some (S n)
      | None => if (c =? newline)%N then Some 1 else None
      end
  end.

Record MarkdownStreamCollector := mkCollector {
  buffer : str;
  committed_source_len : nat;
}.
Definition collector_new : MarkdownStreamCollector := mkCollector [] 0.
Definition collector_push_delta (c : MarkdownStreamCollector) (delta : str) : MarkdownStreamCollector :=
  mkCollector (buffer c ++ delta) (committed_source_len c).
Definition commit_complete_source (c : MarkdownStreamCollector)
    : MarkdownStreamCollector * option str :=
  match last_newline_end (buffer c) with
  | None => (c, None)
  | Some commit_end =>
      if commit_end <=? committed_source_len c then (c, None)
      else (mkCollector (buffer c) commit_end,
            Some (drop (committed_source_len c) (take commit_end (buffer c))))
  end.
Definition finalize_and_drain_source (c : MarkdownStreamCollector) : MarkdownStreamCollector * str :=
  if length (buffer c) <=? committed_source_len c then (collector_new, [])
  else
    let out := drop (committed_source_len c) (buffer c) in
    (collector_new, if Str.ends_with [newline] out then out else out ++ [newline]).

(** ** StreamState *)

Section stream.
(** A rendered line; the Markdown renderer (the width and the source to lines, for a fixed
    working directory); a line of plain text. *)
Context {Line : Type}.
Context (render_markdown : option N -> str -> list Line) (plain_line : str -> Line).

(** An [Instant] is a number of nanoseconds. *)
Record QueuedLine := mkQueued { line : Line; enqueued_at : N }.
Record StreamState := mkState {
  collector : MarkdownStreamCollector;
  queued : list QueuedLine;
  has_seen_delta : bool;
}.
Definition state_new : StreamState := mkState collector_new [] false.
Definition set_queue (s : StreamState) (q : list QueuedLine) : StreamState :=
  mkState (collector s) q (has_seen_delta s).
Definition step (s : StreamState) : StreamState * list Line :=
  match queued s with
  | [] => (s, [])
  | q :: rest => (set_queue s rest, [line q])
  end.
Definition drain_n (s : StreamState) (max_lines : nat) : StreamState * list Line :=
  let fin := Nat.min max_lines (length (queued s)) in
  (set_queue s (drop fin (queued s)), line <$> take fin (queued s)).
Definition clear_queue (s : StreamState) : StreamState := set_queue s [].
Definition is_idle (s : StreamState) : bool := match queued s with [] => true | _ => false end.
Definition queued_len (s : StreamState) : nat := length (queued s).
Definition oldest_queued_age (s : StreamState) (now : N) : option N :=
  match queued s with q :: _ => Some (now - enqueued_at q)%N | [] => None end.
Definition enqueue (s : StreamState) (now : N) (lines : list Line) : StreamState :=
  set_queue s (queued s ++ map (fun l => mkQueued l now) lines).

(** ** StreamCore *)

Inductive HistoryRenderMode := Rich | Raw.
#[global] Instance render_mode_eq_dec : EqDecision HistoryRenderMode.
Proof. solve_decision. Defined.

Record StablePrefixLenCache := mkCache {
  cache_source_start : N;
  cache_width : option N;
  cache_stable_prefix_len : nat;
}.
Record StreamCore := mkCore {
  state : StreamState;
  width : option N;
  raw_source : str;
  rendered_lines : list Line;
  enqueued_stable_len : nat;
  emitted_stable_len : nat;
  render_mode : HistoryRenderMode;
  stable_prefix_len_cache : option StablePrefixLenCache;
  holdback_scanner : TableHoldbackScanner;
}.
Definition core_new (w : option N) (mode : HistoryRenderMode) : StreamCore :=
  mkCore state_new w [] [] 0 0 mode None scanner_new.

Definition set_state (c : StreamCore) (s : StreamState) : StreamCore :=
  mkCore s (width c) (raw_source c) (rendered_lines c) (enqueued_stable_len c) (emitted_stable_len c)
    (render_mode c) (stable_prefix_len_cache c) (holdback_scanner c).
Definition set_rendered (c : StreamCore) (l : list Line) : StreamCore :=
  mkCore (state c) (width c) (raw_source c) l (enqueued_stable_len c) (emitted_stable_len c)
    (render_mode c) (stable_prefix_len_cache c) (holdback_scanner c).
Definition set_enqueued (c : StreamCore) (n : nat) : StreamCore :=
  mkCore (state c) (width c) (raw_source c) (rendered_lines c) n (emitted_stable_len c)
    (render_mode c) (stable_prefix_len_cache c) (holdback_scanner c).
Definition set_emitted (c : StreamCore) (n : nat) : StreamCore :=
  mkCore (state c) (width c) (raw_source c) (rendered_lines c) (enqueued_stable_len c) n
    (render_mode c) (stable_prefix_len_cache c) (holdback_scanner c).
Definition set_cache (c : StreamCore) (cache : option StablePrefixLenCache) : StreamCore :=
  mkCore (state c) (width c) (raw_source c) (rendered_lines c) (enqueued_stable_len c)
    (emitted_stable_len c) (render_mode c) cache (holdback_scanner c).
Definition push_source (c : StreamCore) (chunk : str) : StreamCore :=
  mkCore (state c) (width c) (raw_source c ++ chunk) (rendered_lines c) (enqueued_stable_len c)
    (emitted_stable_len c) (render_mode c) (stable_prefix_len_cache c)
    (push_source_chunk (holdback_scanner c) chunk).

(** history_cell: [raw_lines_from_source]. *)
Definition raw_lines_from_source (source : str) : list Line :=
  if Str.is_empty source then []
  else
    let parts := Str.split newline source in
    map plain_line
      (if Str.ends_with [newline] source then take (length parts - 1) parts else parts).
Definition render_with (mode : HistoryRenderMode) (w : option N) (source : str) : list Line :=
  match mode with Rich => render_markdown w source | Raw => raw_lines_from_source source end.
Definition render_source (c : StreamCore) (source : str) : list Line :=
  render_with (render_mode c) (width c) source.
Definition recompute_streaming_render (c : StreamCore) : StreamCore :=
  set_rendered c (render_source c (raw_source c)).

(** [&s[..n]] for an offset at the start of a line. *)
Fixpoint byte_prefix (n : N) (s : str) : str :=
  match s with
  | [] => []
  | c :: s' => if (n <? Str.len_utf8 c)%N then [] else c :: byte_prefix (n - Str.len_utf8 c)%N s'
  end.

Definition cache_hit (c : StreamCore) (source_start : N) : option nat :=
  match stable_prefix_len_cache c with
  | Some cache =>
      if (cache_source_start cache =? source_start)%N && bool_decide (cache_width cache = width c)
      then Some (cache_stable_prefix_len cache) else None
  | None => None
  end.
Definition stable_prefix_len_for_source_start (c : StreamCore) (source_start : N) : StreamCore * nat :=
  match cache_hit c source_start with
  | Some n => (c, n)
  | None =>
      let stable_prefix_len :=
        length (render_markdown (width c)
          (byte_prefix (N.min source_start (Str.len (raw_source c))) (raw_source c))) in
      (set_cache c (Some (mkCache source_start (width c) stable_prefix_len)), stable_prefix_len)
  end.
Definition tail_budget_from_source_start (c : StreamCore) (source_start : N) : StreamCore * nat :=
  if (source_start =? 0)%N then (c, length (rendered_lines c))
  else
    let '(c, stable_prefix_len) :=
      stable_prefix_len_for_source_start c (N.min source_start (Str.len (raw_source c))) in
    (c, length (rendered_lines c) - stable_prefix_len).
Definition active_tail_budget_lines (c : StreamCore) : StreamCore * nat :=
  match render_mode c with
  | Raw => (c, 0)
  | Rich =>
      match scanner_state (holdback_scanner c) with
      | Confirmed start | PendingHeader start => tail_budget_from_source_start c start
      | NoTable => (c, 0)
      end
  end.
Definition compute_target_stable_len (c : StreamCore) : StreamCore * nat :=
  let '(c, tail_budget) := active_tail_budget_lines c in
  (c, Nat.max (length (rendered_lines c) - tail_budget) (emitted_stable_len c)).

(** [rendered_lines[a..b].to_vec()]. *)
Definition slice (a b : nat) (l : list Line) : list Line := drop a (take b l).

Definition sync_stable_queue (c : StreamCore) (now : N) : StreamCore * bool :=
  let '(c, target) := compute_target_stable_len c in
  if target <? enqueued_stable_len c then
    let s := clear_queue (state c) in
    let s := if emitted_stable_len c <? target
             then enqueue s now (slice (emitted_stable_len c) target (rendered_lines c)) else s in
    (set_enqueued (set_state c s) target, 0 <? queued_len s)
  else if target =? enqueued_stable_len c then (c, false)
  else
    (set_enqueued
       (set_state c (enqueue (state c) now (slice (enqueued_stable_len c) target (rendered_lines c)))) target,
     true).
Definition rebuild_stable_queue_from_render (c : StreamCore) (now : N) : StreamCore :=
  let '(c, target) := compute_target_stable_len c in
  let s := clear_queue (state c) in
  let s := if emitted_stable_len c <? target
           then enqueue s now (slice (emitted_stable_len c) target (rendered_lines c)) else s in
  set_enqueued (set_state c s) target.

Definition push_delta (c : StreamCore) (now : N) (delta : str) : StreamCore * bool :=
  let s := state c in
  let seen := if Str.is_empty delta then has_seen_delta s else true in
  let col := collector_push_delta (collector s) delta in
  if Str.contains_char newline delta then
    match commit_complete_source col with
    | (col, Some committed_source) =>
        let c := set_state c (mkState col (queued s) seen) in
        sync_stable_queue (recompute_streaming_render (push_source c committed_source)) now
    | (col, None) => (set_state c (mkState col (queued s) seen), false)
    end
  else (set_state c (mkState col (queued s) seen), false).

Definition finalize_remaining (c : StreamCore) : StreamCore * list Line :=
  let '(col, remainder_source) := finalize_and_drain_source (collector (state c)) in
  let c := set_state c (mkState col (queued (state c)) (has_seen_delta (state c))) in
  let c := if Str.is_empty remainder_source then c else push_source c remainder_source in
  let rendered := render_source c (raw_source c) in
  (c, if length rendered <=? emitted_stable_len c then [] else drop (emitted_stable_len c) rendered).

Definition tick (c : StreamCore) : StreamCore * list Line :=
  let '(s, out) := step (state c) in
  (set_emitted (set_state c s) (emitted_stable_len c + length out), out).
Definition tick_batch (c : StreamCore) (max_lines : nat) : StreamCore * list Line :=
  if max_lines =? 0 then (c, [])
  else
    let '(s, out) := drain_n (state c) max_lines in
    match out with
    | [] => (set_state c s, [])
    | _ => (set_emitted (set_state c s) (emitted_stable_len c + length out), out)
    end.

Definition current_tail_lines (c : StreamCore) : list Line :=
  drop (Nat.min (enqueued_stable_len c) (length (rendered_lines c))) (rendered_lines c).
Definition has_tail (c : StreamCore) : bool := enqueued_stable_len c <? length (rendered_lines c).

(** The common end of [set_width] and [set_render_mode]. *)
Definition relayout (c : StreamCore) (now : N) (had_pending_queue had_live_tail : bool) : StreamCore :=
  let c := recompute_streaming_render c in
  let len := length (rendered_lines c) in
  let c := set_emitted c (Nat.min (emitted_stable_len c) len) in
  let c := if had_pending_queue && (emitted_stable_len c =? len) && (0 <? emitted_stable_len c)
           then set_emitted c (emitted_stable_len c - 1) else c in
  let c := set_state c (clear_queue (state c)) in
  if (0 <? emitted_stable_len c) && negb had_pending_queue && negb had_live_tail
  then set_enqueued c len
  else rebuild_stable_queue_from_render c now.
Definition set_width (c : StreamCore) (now : N) (w : option N) : StreamCore :=
  if bool_decide (width c = w) then c
  else
    let had_pending_queue := 0 <? queued_len (state c) in
    let had_live_tail := has_tail c in
    let c := mkCore (state c) w (raw_source c) (rendered_lines c) (enqueued_stable_len c)
               (emitted_stable_len c) (render_mode c) (stable_prefix_len_cache c) (holdback_scanner c) in
    if Str.is_empty (raw_source c) then c else relayout c now had_pending_queue had_live_tail.
Definition set_render_mode (c : StreamCore) (now : N) (mode : HistoryRenderMode) : StreamCore :=
  if bool_decide (render_mode c = mode) then c
  else
    let had_pending_queue := 0 <? queued_len (state c) in
    let had_live_tail := has_tail c in
    let c := mkCore (state c) (width c) (raw_source c) (rendered_lines c) (enqueued_stable_len c)
               (emitted_stable_len c) mode (stable_prefix_len_cache c) (holdback_scanner c) in
    if Str.is_empty (raw_source c) then c else relayout c now had_pending_queue had_live_tail.
Definition reset (c : StreamCore) : StreamCore := core_new (width c) (render_mode c).
(** [clear_queue] of the controllers. *)
Definition drop_queue (c : StreamCore) : StreamCore :=
  set_enqueued (set_state c (clear_queue (state c))) (emitted_stable_len c).

(** ** The controllers *)

(** What is emitted: a cell with its lines, and whether it starts the stream. *)
Record Cell := mkCell { cell_lines : list Line; is_first_line : bool }.

Record StreamController := mkController { core : StreamCore; header_emitted : bool }.
Definition emit (c : StreamController) (lines : list Line) : StreamController * option Cell :=
  match lines with
  | [] => (c, None)
  | _ => (mkController (core c) true, Some (mkCell lines (negb (header_emitted c))))
  end.
Definition push (c : StreamController) (now : N) (delta : str) : StreamController * bool :=
  let '(core, enqueued) := push_delta (core c) now delta in (mkController core (header_emitted c), enqueued).
Definition finalize (c : StreamController) : StreamController * (option Cell * option str) :=
  let '(co, remaining) := finalize_remaining (core c) in
  if Str.is_empty (raw_source co) then (mkController (reset co) (header_emitted c), (None, None))
  else
    let '(c, out) := emit (mkController co (header_emitted c)) remaining in
    (mkController (reset co) (header_emitted c), (out, Some (raw_source co))).
Definition on_commit_tick (c : StreamController) : StreamController * (option Cell * bool) :=
  let '(co, lines) := tick (core c) in
  let '(c, cell) := emit (mkController co (header_emitted c)) lines in
  (c, (cell, is_idle (state co))).
Definition on_commit_tick_batch (c : StreamController) (max_lines : nat)
    : StreamController * (option Cell * bool) :=
  let '(co, lines) := tick_batch (core c) max_lines in
  let '(c, cell) := emit (mkController co (header_emitted c)) lines in
  (c, (cell, is_idle (state co))).
Definition tail_starts_stream (c : StreamController) : bool :=
  negb (header_emitted c) && (enqueued_stable_len (core c) =? 0).

(** The plan controller: a title, padding, and an indented, styled body. *)
Context (plan_title blank : Line) (plan_body_line : Line -> Line).
Record PlanStreamController := mkPlan {
  plan_core : StreamCore;
  plan_header_emitted : bool;
  top_padding_emitted : bool;
}.
Definition render_display_lines (c : PlanStreamController) (lines : list Line)
    (include_bottom_padding : bool) : list Line :=
  (if negb (plan_header_emitted c) then [plan_title; blank] else []) ++
  map plan_body_line
    ((if negb (top_padding_emitted c) then [blank] else []) ++ lines ++
     (if include_bottom_padding then [blank] else [])).
(** The cell says whether it continues the stream. *)
Definition plan_emit (c : PlanStreamController) (lines : list Line) (include_bottom_padding : bool)
    : PlanStreamController * option Cell :=
  match lines, include_bottom_padding with
  | [], false => (c, None)
  | _, _ => (mkPlan (plan_core c) true true,
             Some (mkCell (render_display_lines c lines include_bottom_padding)
                     (negb (plan_header_emitted c))))
  end.
Definition plan_push (c : PlanStreamController) (now : N) (delta : str) : PlanStreamController * bool :=
  let '(core, enqueued) := push_delta (plan_core c) now delta in
  (mkPlan core (plan_header_emitted c) (top_padding_emitted c), enqueued).
Definition plan_finalize (c : PlanStreamController) : PlanStreamController * (option Cell * option str) :=
  let '(co, remaining) := finalize_remaining (plan_core c) in
  let c := mkPlan co (plan_header_emitted c) (top_padding_emitted c) in
  if Str.is_empty (raw_source co)
  then (mkPlan (reset co) (plan_header_emitted c) (top_padding_emitted c), (None, None))
  else
    let '(c, out) := plan_emit c remaining true in
    (mkPlan (reset co) (plan_header_emitted c) (top_padding_emitted c), (out, Some (raw_source co))).
Definition plan_on_commit_tick (c : PlanStreamController) : PlanStreamController * (option Cell * bool) :=
  let '(co, lines) := tick (plan_core c) in
  let '(c, cell) := plan_emit (mkPlan co (plan_header_emitted c) (top_padding_emitted c)) lines false in
  (c, (cell, is_idle (state co))).
Definition plan_on_commit_tick_batch (c : PlanStreamController) (max_lines : nat)
    : PlanStreamController * (option Cell * bool) :=
  let '(co, lines) := tick_batch (plan_core c) max_lines in
  let '(c, cell) := plan_emit (mkPlan co (plan_header_emitted c) (top_padding_emitted c)) lines false in
  (c, (cell, is_idle (state co))).
End stream.
End Stream.
