(* ===== verification/StreamLines.v ===== *)
(** What the streamed display promises: the counters of the stable region stay in order
    under every operation, and without a change of layout the lines it emits are the
    lines of the finished answer, each once and in order. *)
From S2P Require Import Prelude HeadTailBuffer Truncate TableDetect StreamController.

Module StreamLines.
Import HeadTail TableDetect Stream.

Section stream.
Context {Line : Type}.
Context (render_markdown : option N -> str -> list Line) (plain_line : str -> Line).
#[local] Abbreviation Core := (StreamCore (Line := Line)).
#[local] Abbreviation push_delta := (Stream.push_delta render_markdown plain_line).
#[local] Abbreviation finalize_remaining := (Stream.finalize_remaining render_markdown plain_line).
#[local] Abbreviation set_width := (Stream.set_width render_markdown plain_line).
#[local] Abbreviation set_render_mode := (Stream.set_render_mode render_markdown plain_line).
#[local] Abbreviation relayout := (Stream.relayout render_markdown plain_line).
#[local] Abbreviation render_with := (Stream.render_with render_markdown plain_line).
#[local] Abbreviation rebuild := (rebuild_stable_queue_from_render render_markdown).
#[local] Abbreviation target_len := (compute_target_stable_len render_markdown).

(** ** Counters *)

(** The operations of a controller on its core. *)
Inductive core_step : Core -> Core -> Prop :=
| step_push c now delta : core_step c (fst (push_delta c now delta))
| step_tick c : core_step c (fst (tick c))
| step_batch c n : core_step c (fst (tick_batch c n))
| step_width c now w : core_step c (set_width c now w)
| step_mode c now m : core_step c (set_render_mode c now m)
| step_drop c : core_step c (drop_queue c)
| step_finalize c : core_step c (fst (finalize_remaining c))
| step_reset c : core_step c (reset c).

(** The lines emitted, enqueued and rendered are in this order; the bound by the rendered
    lines gives way only to what is already emitted. *)
Definition counted (c : Core) : Prop :=
  emitted_stable_len c <= enqueued_stable_len c /\
  enqueued_stable_len c <= Nat.max (length (rendered_lines c)) (emitted_stable_len c) /\
  queued_len (state c) <= enqueued_stable_len c - emitted_stable_len c.

(** Two cores that differ in the cache only. *)
Lemma target_len_spec c :
  exists cache budget, target_len c =
    (set_cache c cache, Nat.max (length (rendered_lines c) - budget) (emitted_stable_len c)).
Proof.
  assert (exists cache budget, active_tail_budget_lines render_markdown c = (set_cache c cache, budget))
    as (cache & budget & E).
  { assert (forall n : nat, exists cache budget, (c, n) = (set_cache c cache, budget)) as Hsame
      by (intros n; exists (stable_prefix_len_cache c), n; by destruct c).
    unfold active_tail_budget_lines. destruct (render_mode c); [|apply Hsame].
    assert (forall start, exists cache budget,
      tail_budget_from_source_start render_markdown c start = (set_cache c cache, budget)) as Hb.
    { intros start. unfold tail_budget_from_source_start. destruct (start =? 0)%N; [apply Hsame|].
      unfold stable_prefix_len_for_source_start. destruct (cache_hit _ _); [apply Hsame|]. eauto. }
    destruct (scanner_state (holdback_scanner c)); [apply Hsame|apply Hb|apply Hb]. }
  exists cache, budget. unfold compute_target_stable_len. by rewrite E.
Qed.

Lemma queued_enqueue (s : StreamState (Line := Line)) now l :
  queued_len (enqueue s now l) = queued_len s + length l.
Proof. unfold queued_len, enqueue. simpl. by rewrite length_app, length_map. Qed.

Lemma queued_clear (s : StreamState (Line := Line)) : queued_len (clear_queue s) = 0.
Proof. done. Qed.

Lemma length_slice a b (l : list Line) : length (slice a b l) = Nat.min b (length l) - a.
Proof. unfold slice. by rewrite length_drop, length_take. Qed.

(** The lines waiting after the queue is rebuilt up to a target. *)
Lemma requeued_len (c : Core) now target :
  queued_len (if emitted_stable_len c <? target
    then enqueue (clear_queue (state c)) now (slice (emitted_stable_len c) target (rendered_lines c))
    else clear_queue (state c)) <= target - emitted_stable_len c.
Proof.
  destruct (_ <? _); [|rewrite queued_clear; lia]. rewrite queued_enqueue, queued_clear, length_slice. lia.
Qed.

Lemma counted_sync c now :
  emitted_stable_len c <= enqueued_stable_len c ->
  queued_len (state c) <= enqueued_stable_len c - emitted_stable_len c ->
  counted (fst (sync_stable_queue render_markdown c now)).
Proof.
  intros H1 H2. unfold sync_stable_queue.
  destruct (target_len_spec c) as (cache & budget & ->). set (target := Nat.max _ _).
  unfold set_cache. cbn [enqueued_stable_len emitted_stable_len rendered_lines state].
  destruct (Nat.ltb_spec target (enqueued_stable_len c)) as [Hlt|Hge].
  { unfold counted, set_enqueued, set_state. cbn [fst enqueued_stable_len emitted_stable_len rendered_lines state].
    pose proof (requeued_len c now target). split_and!; [lia..|done]. }
  destruct (Nat.eqb_spec target (enqueued_stable_len c)) as [He|Hne].
  - unfold counted. cbn [fst enqueued_stable_len emitted_stable_len rendered_lines state]. split_and!; lia.
  - unfold counted, set_enqueued, set_state. cbn [fst enqueued_stable_len emitted_stable_len rendered_lines state].
    rewrite queued_enqueue, length_slice. split_and!; lia.
Qed.

Lemma counted_rebuild c now : counted (rebuild c now).
Proof.
  unfold rebuild_stable_queue_from_render.
  destruct (target_len_spec c) as (cache & budget & ->). set (target := Nat.max _ _).
  unfold set_cache, counted, set_enqueued, set_state.
  cbn [enqueued_stable_len emitted_stable_len rendered_lines state].
  pose proof (requeued_len c now target). split_and!; [lia..|done].
Qed.

Lemma counted_relayout c now p t : counted (relayout c now p t).
Proof.
  unfold Stream.relayout. destruct (_ && negb t).
  - unfold counted, set_enqueued, set_state, set_emitted, recompute_streaming_render, set_rendered.
    destruct (_ && _); cbn [enqueued_stable_len emitted_stable_len rendered_lines state fst];
      (split_and!; [lia..|rewrite queued_clear; lia]).
  - apply counted_rebuild.
Qed.

Lemma counted_step c c' : core_step c c' -> counted c -> counted c'.
Proof.
  intros H Hc. destruct Hc as (H1 & H2 & H3).
  destruct H as [c now delta|c|c n|c now w|c now m|c|c|c].
  - unfold Stream.push_delta. destruct (Str.contains_char newline delta); [|by split_and!].
    destruct (commit_complete_source _) as [col [src|]]; [|by split_and!].
    apply counted_sync; done.
  - unfold tick, step. unfold queued_len in *.
    destruct (queued (state c)) as [|q rest] eqn:E; unfold counted, queued_len; cbn [fst set_emitted set_state
      emitted_stable_len enqueued_stable_len rendered_lines state set_queue queued length] in *;
      rewrite ?E; simpl; split_and!; lia.
  - unfold tick_batch. destruct (n =? 0); [by split_and!|].
    unfold drain_n. set (k := Nat.min n (length (queued (state c)))). unfold queued_len in *.
    assert (length (line <$> take k (queued (state c))) = k) as Hl
      by (rewrite length_fmap, length_take; lia).
    destruct (line <$> take k (queued (state c))) as [|x out] eqn:Eo; unfold counted, queued_len;
      cbn [fst set_emitted set_state emitted_stable_len enqueued_stable_len rendered_lines state set_queue queued];
      rewrite length_drop; simpl in *; split_and!; lia.
  - unfold Stream.set_width. case_bool_decide; [by split_and!|].
    destruct (Str.is_empty _); [by split_and!|apply counted_relayout].
  - unfold Stream.set_render_mode. case_bool_decide; [by split_and!|].
    destruct (Str.is_empty _); [by split_and!|apply counted_relayout].
  - unfold counted; cbn. split_and!; lia.
  - unfold Stream.finalize_remaining. destruct (finalize_and_drain_source _) as [col rem].
    unfold counted. cbn [fst]. by destruct (Str.is_empty rem).
  - unfold counted; cbn. lia.
Qed.

(** Under every operation of a stream (deltas, ticks, changes of the width or the
    render mode, clearing, finishing), and whatever the renderer does, the lines emitted
    are at most those enqueued, those are at most the rendered ones (or already emitted),
    and the queue never holds more than the difference. *)
Theorem stable_region_is_counted w mode c : rtc core_step (core_new w mode) c -> counted c.
Proof.
  intros H. remember (core_new w mode) as c0 eqn:E0.
  assert (counted c0) as H0 by (rewrite E0; unfold counted; cbn; lia). clear E0.
  induction H as [|c0 c1 c2 Hs _ IH]; [done|]. apply IH. by apply (counted_step c0).
Qed.

(** ** Content *)

(** The lines of a source the holdback lets through: all but those of the table it ends
    with or may end with. *)
Definition tail_budget (mode : HistoryRenderMode) (w : option N) (source : str) : nat :=
  let rendered := render_with mode w source in
  match mode with
  | Raw => 0
  | Rich =>
      match table_holdback_state source with
      | Confirmed start | PendingHeader start =>
          if (start =? 0)%N then length rendered
          else length rendered -
               length (render_markdown w (byte_prefix (N.min start (Str.len source)) source))
      | NoTable => 0
      end
  end.
Definition stable_lines (mode : HistoryRenderMode) (w : option N) (source : str) : list Line :=
  let rendered := render_with mode w source in
  take (length rendered - tail_budget mode w source) rendered.

Context (mode : HistoryRenderMode) (w : option N) (answer : str).
(** What the holdback relies on: the further lines of the answer do not change the stable
    ones. *)
Definition renders_stably : Prop := forall a b,
  terminated a -> terminated b -> a ++ b `prefix_of` answer ->
  stable_lines mode w a `prefix_of` render_with mode w (a ++ b).
Hypothesis stable_region_is_stable : renders_stably.

Lemma byte_prefix_app n a b : (n <= Str.len a)%N -> byte_prefix n (a ++ b) = byte_prefix n a.
Proof.
  revert n. induction a as [|c a IH]; intros n H.
  - assert (n = 0%N) as -> by (simpl in H; lia). destruct b as [|c b]; [done|]. simpl.
    pose proof (Str.len_utf8_bounds c). by destruct (N.ltb_spec 0 (Str.len_utf8 c)); [|lia].
  - simpl. destruct (N.ltb_spec n (Str.len_utf8 c)); [done|]. f_equal. apply IH.
    assert (Str.len (c :: a) = Str.len_utf8 c + Str.len a)%N as E by done. lia.
Qed.

(** The cache holds what it is asked for. *)
Definition cache_ok (source : str) (c : Core) : Prop :=
  match stable_prefix_len_cache c with
  | Some k =>
      (cache_source_start k <= Str.len source)%N /\
      (cache_width k = w ->
       cache_stable_prefix_len k = length (render_markdown w (byte_prefix (cache_source_start k) source)))
  | None => True
  end.

(** A core that has rendered its source. *)
Definition current (c : Core) : Prop :=
  width c = w /\ render_mode c = mode /\ terminated (raw_source c) /\
  holdback_scanner c = fold_left push_line (split_inclusive (raw_source c)) scanner_new /\
  cache_ok (raw_source c) c.

Lemma target_len_stable c :
  current c -> rendered_lines c = render_with mode w (raw_source c) ->
  exists cache, target_len c =
    (set_cache c cache, Nat.max (length (stable_lines mode w (raw_source c))) (emitted_stable_len c)) /\
    cache_ok (raw_source c) (set_cache c cache).
Proof.
  intros (Hw & Hm & Ht & Hs & Hc) Hr.
  assert (exists cache, active_tail_budget_lines render_markdown c =
      (set_cache c cache, tail_budget mode w (raw_source c)) /\ cache_ok (raw_source c) (set_cache c cache))
    as (cache & E & Hok).
  { assert (forall n : nat, exists cache, (c, n) = (set_cache c cache, n) /\ cache_ok (raw_source c) (set_cache c cache))
      as Hsame by (intros n; exists (stable_prefix_len_cache c); by destruct c).
    unfold active_tail_budget_lines, tail_budget. rewrite Hm, Hs, scanner_of_source by done.
    destruct mode; [|apply Hsame].
    assert (forall start, exists cache, tail_budget_from_source_start render_markdown c start =
      (set_cache c cache, if (start =? 0)%N then length (rendered_lines c) else length (rendered_lines c) -
        length (render_markdown w (byte_prefix (N.min start (Str.len (raw_source c))) (raw_source c)))) /\
      cache_ok (raw_source c) (set_cache c cache)) as Hb.
    { intros start. unfold tail_budget_from_source_start. destruct (start =? 0)%N; [apply Hsame|].
      unfold stable_prefix_len_for_source_start, cache_hit. set (k := N.min start _).
      rewrite (N.min_l k) by lia. unfold cache_ok in Hc.
      destruct (stable_prefix_len_cache c) as [cache|] eqn:Ec.
      - destruct ((cache_source_start cache =? k)%N && bool_decide (cache_width cache = width c)) eqn:Eh.
        + apply andb_true_iff in Eh as [Ek%N.eqb_eq Ew%bool_decide_eq_true]. destruct Hc as [Hk Hlen].
          rewrite Hlen, Ek by congruence. exists (Some cache). split; [|by split].
          rewrite <- Ec. by destruct c.
        + rewrite Hw. eexists. split; [reflexivity|]. cbn. split; [lia|done].
      - rewrite Hw. eexists. split; [reflexivity|]. cbn. split; [lia|done]. }
    rewrite <- Hr. destruct (table_holdback_state (raw_source c)); [apply Hsame|apply Hb|apply Hb]. }
  exists cache. unfold compute_target_stable_len. rewrite E. split; [|done].
  unfold set_cache. cbn [rendered_lines emitted_stable_len]. unfold stable_lines.
  rewrite length_take, Hr. do 2 f_equal. lia.
Qed.

(** ** The collector *)

Lemma last_newline_end_spec s :
  match last_newline_end s with
  | Some n => (0 < n <= length s) /\ (last (take n s) = Some newline) /\ (newline ∉ drop n s)
  | None => newline ∉ s
  end.
Proof.
  induction s as [|c s IH]; simpl; [apply not_elem_of_nil|].
  destruct (last_newline_end s) as [n|].
  - destruct IH as (Hn & Hl & Hd). split_and!; [lia..| |done]. simpl.
    destruct (take n s) as [|d t] eqn:E; [done|]. exact Hl.
  - destruct (N.eqb_spec c newline) as [->|Hc].
    + split_and!; [lia..|done|]. simpl. by rewrite drop_0.
    + apply not_elem_of_cons. split; [congruence|done].
Qed.

Lemma last_newline_end_found s : newline ∈ s -> is_Some (last_newline_end s).
Proof.
  intros H. pose proof (last_newline_end_spec s) as Hs. by destruct (last_newline_end s).
Qed.

Lemma contains_newline s : Str.contains_char newline s = bool_decide (newline ∈ s).
Proof.
  apply eq_true_iff_eq. unfold Str.contains_char. rewrite existsb_exists, bool_decide_eq_true. split.
  - intros (x & Hx & <-%N.eqb_eq). by apply list_elem_of_In.
  - intros H. exists newline. split; [by apply list_elem_of_In|apply N.eqb_refl].
Qed.

(** The collector holds all that was fed, with its whole lines committed. *)
Definition collected (c : Core) (fed : str) : Prop :=
  buffer (collector (state c)) = fed /\ committed_source_len (collector (state c)) = length (raw_source c) /\
  exists rest, fed = raw_source c ++ rest /\ newline ∉ rest.

(** A delta with a newline commits the lines it completes. *)
Lemma commit_spec c fed delta :
  collected c fed -> newline ∈ delta ->
  exists src rest, commit_complete_source (collector_push_delta (collector (state c)) delta) =
      (mkCollector (fed ++ delta) (length (raw_source c ++ src)), Some src) /\
    fed ++ delta = raw_source c ++ src ++ rest /\ (newline ∉ rest) /\ last src = Some newline.
Proof.
  intros (Hb & Hc & rest & -> & Hr) Hd. unfold commit_complete_source, collector_push_delta.
  cbn [buffer committed_source_len]. rewrite Hb, Hc. set (all := (raw_source c ++ rest) ++ delta).
  destruct (last_newline_end_found all) as [n En]; [apply elem_of_app; by right|].
  pose proof (last_newline_end_spec all) as Hs. rewrite En in *. destruct Hs as (Hn & Hl & Hno).
  assert (length (raw_source c ++ rest) < n) as Hlong.
  { destruct (Nat.lt_ge_cases (length (raw_source c ++ rest)) n) as [|Hle]; [done|]. exfalso. apply Hno.
    unfold all. rewrite drop_app_le by done. apply elem_of_app. by right. }
  rewrite length_app in Hlong. destruct (Nat.leb_spec n (length (raw_source c))); [lia|].
  assert (take n all = raw_source c ++ drop (length (raw_source c)) (take n all)) as Et.
  { unfold all. rewrite <- app_assoc, take_app_ge, drop_app_length by lia. done. }
  exists (drop (length (raw_source c)) (take n all)), (drop n all). rewrite <- Et.
  rewrite length_take, Nat.min_l by lia. split_and!; [done| |done|].
  - rewrite app_assoc, <- Et. by rewrite take_drop.
  - rewrite <- Hl. rewrite Et at 2. rewrite last_app.
    destruct (last (drop (length (raw_source c)) (take n all))) eqn:E; [done|].
    apply last_None in E. apply (f_equal length) in E. rewrite length_drop, length_take in E. simpl in E. lia.
Qed.

(** ** The run of a stream *)

(** What has been emitted and what is queued are lines that were stable at some point. *)
Definition shown (c : Core) (out : list Line) : Prop :=
  emitted_stable_len c = length out /\
  length (out ++ (line <$> queued (state c))) = enqueued_stable_len c /\
  exists a b, raw_source c = a ++ b /\ terminated a /\ terminated b /\
    out ++ (line <$> queued (state c)) `prefix_of` stable_lines mode w a.

Lemma lines_enqueue (s : StreamState (Line := Line)) now l :
  line <$> queued (enqueue s now l) = (line <$> queued s) ++ l.
Proof.
  unfold enqueue. simpl. rewrite fmap_app. f_equal. rewrite <- (list_fmap_id l) at 2.
  induction l as [|x l IH]; [done|]. simpl. by f_equal.
Qed.

Lemma prefix_take (p l : list Line) : p `prefix_of` l -> take (length p) l = p.
Proof. intros [k ->]. by rewrite take_app_length. Qed.

Lemma slice_app n m (l p : list Line) : p `prefix_of` l -> length p = n -> n <= m -> p ++ slice n m l = take m l.
Proof.
  intros Hp <- Hm. unfold slice. rewrite <- (prefix_take p l Hp) at 1.
  rewrite <- (take_drop (length p) (take m l)) at 2. by rewrite take_take, Nat.min_l.
Qed.

(** Every line shown so far is a line of the current render. *)
Lemma shown_prefix c out src :
  shown c out -> terminated src -> raw_source c ++ src `prefix_of` answer ->
  out ++ (line <$> queued (state c)) `prefix_of` render_with mode w (raw_source c ++ src).
Proof.
  intros (_ & _ & a & b & -> & Ha & Hb & Hp) Hs Hans. etrans; [exact Hp|]. rewrite <- app_assoc in *.
  apply stable_region_is_stable; [done|by apply terminated_app|done].
Qed.

Lemma sync_shown c out now :
  raw_source c `prefix_of` answer ->
  current c -> rendered_lines c = render_with mode w (raw_source c) -> shown c out ->
  let c' := fst (sync_stable_queue render_markdown c now) in
  current c' /\ shown c' out /\ raw_source c' = raw_source c /\ collector (state c') = collector (state c).
Proof.
  intros Hans Hcur Hr Hsh. pose proof (shown_prefix c out [] Hsh (or_introl eq_refl)) as Hpre.
  rewrite app_nil_r, <- Hr in Hpre. specialize (Hpre Hans). pose proof Hsh as (He & Hl & a & b & Hab & Ha & Hb & Hp).
  pose proof Hcur as (Hw & Hm & Ht & Hs & _).
  destruct (target_len_stable c Hcur Hr) as (cache & Et & Hok).
  unfold sync_stable_queue. rewrite Et. set (target := Nat.max _ _).
  set (S := stable_lines mode w (raw_source c)) in *.
  assert (take (length S) (rendered_lines c) = S) as HS.
  { rewrite Hr. unfold S, stable_lines. rewrite length_take, Nat.min_l by lia. done. }
  assert (terminated []) as Hnil by (by left).
  cbn [set_cache enqueued_stable_len emitted_stable_len rendered_lines state].
  rewrite length_app in Hl.
  destruct (Nat.ltb_spec target (enqueued_stable_len c)) as [Hlt|Hge].
  - split; [done|]. split; [|split; [done|cbn; by case_match]]. unfold shown.
    cbn [fst set_enqueued set_state emitted_stable_len enqueued_stable_len raw_source state].
    split; [done|]. destruct (Nat.ltb_spec (emitted_stable_len c) target) as [Hgt|Hle].
    + assert (out ++ (line <$> queued (enqueue (clear_queue (state c)) now
        (slice (emitted_stable_len c) target (rendered_lines c)))) = S) as ->.
      { rewrite lines_enqueue. simpl. rewrite (slice_app _ _ (rendered_lines c) out); [|..|done|lia].
        - replace target with (length S) by lia. done.
        - etrans; [|exact Hpre]. by eexists. }
      split; [lia|]. exists (raw_source c), []. rewrite app_nil_r. split_and!; done.
    + simpl. rewrite app_nil_r. split; [lia|]. exists a, b. split_and!; try done.
      etrans; [|exact Hp]. by eexists.
  - destruct (Nat.eqb_spec target (enqueued_stable_len c)) as [_|Hne]; [by split_and!|].
    split; [done|]. split; [|done]. unfold shown.
    cbn [fst set_enqueued set_state emitted_stable_len enqueued_stable_len raw_source state].
    assert (out ++ (line <$> queued (enqueue (state c) now
      (slice (enqueued_stable_len c) target (rendered_lines c)))) = S) as ->.
    { rewrite lines_enqueue, app_assoc, (slice_app _ _ (rendered_lines c)); [|done|rewrite length_app; lia|lia].
      by replace target with (length S) by lia. }
    split; [done|]. split; [lia|]. exists (raw_source c), []. rewrite app_nil_r. split_and!; done.
Qed.

(** A stream that was fed some text and has emitted some lines. *)
Definition streaming (c : Core) (fed : str) (out : list Line) : Prop :=
  current c /\ collected c fed /\ shown c out.

Lemma streaming_new : streaming (core_new w mode) [] [].
Proof.
  split_and!; [split_and!; try done; by left|split_and!; try done; exists []; split; [done|apply not_elem_of_nil]|].
  split_and!; try done. exists [], []. split_and!; try done; try (by left). apply prefix_nil.
Qed.

Lemma current_push_source c src st :
  current c -> terminated src ->
  current (recompute_streaming_render render_markdown plain_line (push_source (set_state c st) src)).
Proof.
  intros (Hw & Hm & Ht & Hs & Hc) Hsrc. split_and!; cbn; try done.
  - by apply terminated_app.
  - rewrite split_inclusive_app, fold_left_app by done. by rewrite <- Hs.
  - unfold cache_ok in *. cbn. destruct (stable_prefix_len_cache c) as [k|]; [|done].
    destruct Hc as [Hk Hlen]. rewrite Str.len_app, byte_prefix_app by done. split; [lia|done].
Qed.

Lemma push_streaming c fed out now delta :
  streaming c fed out -> fed ++ delta `prefix_of` answer ->
  streaming (fst (push_delta c now delta)) (fed ++ delta) out.
Proof.
  intros (Hcur & Hcol & Hsh) Hans. unfold Stream.push_delta. rewrite contains_newline.
  case_bool_decide as Hn.
  - destruct (commit_spec c fed delta Hcol Hn) as (src & rest & -> & Hfed & Hrest & Hlast).
    set (c1 := recompute_streaming_render _ _ _).
    assert (terminated src) as Hsrc by (by right).
    assert (current c1) as Hcur1 by (by apply current_push_source).
    assert (shown c1 out) as Hsh1.
    { destruct Hsh as (He & Hl & a & b & Hab & Ha & Hb & Hp). split_and!; [done..|].
      exists a, (b ++ src). split_and!; [|done|by apply terminated_app|done].
      cbn. by rewrite Hab, app_assoc. }
    destruct (sync_shown c1 out now) as (H1 & H2 & H3 & H4); [|done|by rewrite <- (proj1 Hcur1), <- (proj1 (proj2 Hcur1))|done|].
    { etrans; [|exact Hans]. rewrite Hfed, app_assoc. by eexists. }
    split_and!; [done| |done]. split_and!; rewrite ?H3, ?H4; cbn; [done..|].
    exists rest. by rewrite Hfed, app_assoc.
  - destruct Hcol as (Hb & Hc & rest & Hfed & Hr). split_and!; [done| |done].
    split_and!; cbn; [by rewrite Hb|done|]. exists (rest ++ delta). rewrite Hfed, app_assoc. split; [done|].
    rewrite elem_of_app. tauto.
Qed.

Lemma tick_streaming c fed out :
  streaming c fed out -> streaming (fst (tick c)) fed (out ++ snd (tick c)).
Proof.
  intros (Hcur & Hcol & He & Hl & Hsh). unfold tick, step.
  destruct (queued (state c)) as [|q rest] eqn:E; cbn [fst snd].
  - rewrite app_nil_r, Nat.add_0_r. split_and!; [done..|]. unfold shown. cbn. by rewrite E.
  - split_and!; [done..|]. unfold shown. cbn. rewrite <- app_assoc, length_app, He. done.
Qed.

Lemma tick_batch_streaming c fed out n :
  streaming c fed out -> streaming (fst (tick_batch c n)) fed (out ++ snd (tick_batch c n)).
Proof.
  intros Hst. unfold tick_batch. destruct (n =? 0); [by rewrite app_nil_r|]. unfold drain_n.
  set (k := Nat.min n _). destruct Hst as (Hcur & Hcol & He & Hl & Hsh).
  rewrite <- (take_drop k (queued (state c))), fmap_app, app_assoc in Hl, Hsh.
  destruct (line <$> take k (queued (state c))) as [|x ls] eqn:E; cbn [fst snd].
  - split_and!; [done..|]. unfold shown. cbn. by rewrite app_nil_r in *.
  - split_and!; [done..|]. unfold shown. cbn. by rewrite length_app, He.
Qed.

(** The source with its last line ended. *)
Definition finished (fed : str) : str :=
  match last fed with Some c => if (c =? newline)%N then fed else fed ++ [newline] | None => fed end.

Lemma finalize_streaming c fed out :
  streaming c fed out -> answer = finished fed ->
  out ++ snd (finalize_remaining c) = render_with mode w answer.
Proof.
  intros (Hcur & (Hb & Hc & rest & Hfed & Hr) & Hsh) Hans.
  assert (exists src, terminated src /\ raw_source c ++ src = answer /\
    raw_source (fst (finalize_remaining c)) = answer) as (src & Hsrc & Ha & Hraw).
  { destruct Hcur as (_ & _ & Ht & _). unfold Stream.finalize_remaining, finalize_and_drain_source.
    rewrite Hb, Hc, Hfed, length_app. destruct (Nat.leb_spec (length (raw_source c) + length rest) (length (raw_source c))).
    - destruct rest as [|x rest]; [|simpl in *; lia]. exists []. split; [by left|]. cbn.
      assert (raw_source c = answer) as <-; [|by rewrite app_nil_r].
      rewrite Hans, Hfed, app_nil_r. unfold finished. destruct Ht as [->|Ht]; [done|].
      by rewrite Ht, N.eqb_refl.
    - assert (last rest <> None) as Hne by (rewrite last_None; by destruct rest; [simpl in *; lia|]).
      destruct (last rest) as [x|] eqn:El; [|done]. assert (x <> newline) as Hx.
      { intros ->. apply Hr. by apply last_Some_elem_of. }
      rewrite drop_app_length. destruct (Str.ends_with [newline] rest) eqn:Ee.
      { apply Str.ends_with_spec in Ee as [k ->]. rewrite last_snoc in El. congruence. }
      exists (rest ++ [newline]). split; [right; apply last_snoc|].
      assert (raw_source c ++ rest ++ [newline] = answer) as Ha.
      { rewrite Hans, Hfed. unfold finished. rewrite last_app, El.
        destruct (N.eqb_spec x newline); [done|]. by rewrite app_assoc. }
      split; [done|]. destruct (Str.is_empty (rest ++ [newline])) eqn:Ei; [by destruct rest|]. cbn. done. }
  pose proof (shown_prefix c out src Hsh Hsrc) as Hp. rewrite Ha in Hp. specialize (Hp (reflexivity _)).
  destruct Hcur as (Hw & Hm & _). destruct Hsh as (He & _).
  revert Hraw. unfold Stream.finalize_remaining. destruct (finalize_and_drain_source _) as [col rem].
  set (c1 := if Str.is_empty rem then _ else _). cbn [fst snd].
  assert (render_mode c1 = mode /\ width c1 = w /\ emitted_stable_len c1 = length out) as (Hm1 & Hw1 & He1)
    by (unfold c1; by destruct (Str.is_empty rem)).
  intros Hraw. unfold render_source. rewrite Hm1, Hw1, He1, Hraw.
  destruct Hp as [k ->]. rewrite <- app_assoc, drop_app_length.
  destruct (Nat.leb_spec (length (out ++ (line <$> queued (state c)) ++ k)) (length out)) as [Hle|]; [|done].
  rewrite length_app in Hle. by destruct (_ ++ k) eqn:Ek; [rewrite app_nil_r|simpl in Hle; lia].
Qed.

(** ** Runs *)

Inductive Event := Delta (now : N) (delta : str) | Tick | TickBatch (max_lines : nat).
Definition run_event (c : Core) (e : Event) : Core * list Line :=
  match e with
  | Delta now delta => (fst (push_delta c now delta), [])
  | Tick => tick c
  | TickBatch n => tick_batch c n
  end.
Fixpoint run (c : Core) (events : list Event) : Core * list Line :=
  match events with
  | [] => (c, [])
  | e :: events =>
      let '(c, l1) := run_event c e in
      let '(c, l2) := run c events in
      (c, l1 ++ l2)
  end.
Fixpoint fed_by (events : list Event) : str :=
  match events with
  | [] => []
  | Delta _ delta :: events => delta ++ fed_by events
  | _ :: events => fed_by events
  end.

Lemma run_streaming events c fed out :
  streaming c fed out -> fed ++ fed_by events `prefix_of` answer ->
  streaming (fst (run c events)) (fed ++ fed_by events) (out ++ snd (run c events)).
Proof.
  revert c fed out. induction events as [|e events IH]; intros c fed out Hst Hans; simpl.
  { by rewrite !app_nil_r in *. }
  destruct (run_event c e) as [c1 l1] eqn:E1. destruct (run c1 events) as [c2 l2] eqn:E2. cbn [fst snd].
  assert (exists d, fed_by (e :: events) = d ++ fed_by events /\ streaming c1 (fed ++ d) (out ++ l1)) as (d & Hd & Hst1).
  { destruct e as [now d| |n]; cbn in E1; [exists d|exists []; rewrite app_nil_r..]; (split; [done|]).
    - injection E1 as <- <-. rewrite app_nil_r. apply push_streaming; [done|]. etrans; [|exact Hans].
      simpl. rewrite app_assoc. by eexists.
    - pose proof (tick_streaming c fed out Hst) as H. by rewrite E1 in H.
    - pose proof (tick_batch_streaming c fed out n Hst) as H. by rewrite E1 in H. }
  specialize (IH c1 (fed ++ d) (out ++ l1) Hst1). rewrite E2, <- !app_assoc in IH.
  change (match e with Delta _ delta => delta ++ fed_by events | _ => fed_by events end) with (fed_by (e :: events)) in *.
  rewrite Hd in *. by apply IH.
Qed.
End stream.

(** C29: For any cut of an answer into deltas and any interleaving with commit ticks, the
    lines emitted while streaming followed by those of the final flush are the lines of
    one render of the whole answer (with its last line ended): nothing is lost, repeated
    or reordered, whatever tables were held back, as long as the further lines of this
    answer do not change the lines the holdback declared stable. *)
Theorem streamed_lines_are_the_final_render {Line} (render_markdown : option N -> str -> list Line)
    plain_line mode w events :
  renders_stably render_markdown plain_line mode w (finished (fed_by events)) ->
  let '(c, out) := run render_markdown plain_line (core_new w mode) events in
  out ++ snd (finalize_remaining render_markdown plain_line c) =
  render_with render_markdown plain_line mode w (finished (fed_by events)).
Proof.
  intros H. pose proof (run_streaming render_markdown plain_line mode w (finished (fed_by events)) H events
    (core_new w mode) [] []) as Hrun.
  destruct (run _ _ _ events) as [c out]. simpl in Hrun.
  apply (finalize_streaming _ _ _ _ _ H _ (fed_by events)); [|done]. apply Hrun.
  - apply streaming_new.
  - unfold finished. destruct (last _) as [x|]; [|done]. destruct (x =? newline)%N; [done|by eexists].
Qed.

(** ** Plain text renders stably *)

Lemma raw_lines_app {Line} (plain_line : str -> Line) a b :
  terminated a ->
  raw_lines_from_source plain_line (a ++ b) = raw_lines_from_source plain_line a ++ raw_lines_from_source plain_line b.
Proof.
  intros [->|[a' ->]%last_Some]; [done|]. destruct b as [|x b]; [by rewrite !app_nil_r|].
  assert (Str.ends_with [newline] ((a' ++ [newline]) ++ x :: b) = Str.ends_with [newline] (x :: b)) as He.
  { apply eq_true_iff_eq. rewrite !Str.ends_with_spec. destruct (exists_last (l := x :: b)) as (b' & y & E); [done|].
    rewrite E, app_assoc. split; intros [k Hk]; apply app_inj_2 in Hk as [_ Hk]; try done; injection Hk as ->;
      by eexists. }
  assert (forall s t : str, Str.is_empty (s ++ x :: t) = false) as Hx by (intros [|] ?; done).
  unfold raw_lines_from_source. rewrite He, !Hx. replace (Str.ends_with [newline] (a' ++ [newline])) with true.
  2: { symmetry. apply Str.ends_with_spec. by eexists. }
  replace (Str.is_empty (a' ++ [newline])) with false by (by destruct a'). cbn [Str.is_empty].
  rewrite <- app_assoc, (Str.split_app newline a' []). cbn [app]. rewrite (Str.split_app newline a' (x :: b)).
  rewrite !length_app. change (length (Str.split newline [])) with 1.
  rewrite Nat.add_sub, take_app_length, <- map_app. f_equal.
  clear He. destruct (Str.ends_with [newline] (x :: b)); [|reflexivity].
  assert (length (Str.split newline (x :: b)) <> 0) as Hne
    by (intros E%nil_length_inv; by apply (Str.split_ne newline (x :: b))).
  rewrite take_app_ge by lia. f_equal. f_equal. lia.
Qed.

Lemma line_renderer_is_stable {Line} (render_markdown : option N -> str -> list Line) plain_line mode w answer :
  (forall a b, terminated a -> render_with render_markdown plain_line mode w (a ++ b) =
    render_with render_markdown plain_line mode w a ++ render_with render_markdown plain_line mode w b) ->
  renders_stably render_markdown plain_line mode w answer.
Proof.
  intros H a b Ha _ _. rewrite H by done. unfold stable_lines.
  set (r := render_with _ _ _ _ a). set (n := length r - _).
  exists (drop n r ++ render_with render_markdown plain_line mode w b). by rewrite app_assoc, take_drop.
Qed.

(** A renderer of one line per line. *)
Definition line_renderer (_ : option N) : str -> list str := raw_lines_from_source (fun l => l).

Definition table_events : list Event :=
  [Delta 0 ($"intro" ++ [newline] ++ $"| a | b"); Tick; Delta 1 ($" |" ++ [newline]); Tick;
   Delta 2 ($"| --- | --- |" ++ [newline] ++ $"| 1 "); TickBatch 4; Delta 3 $"| 2 |"].

Lemma streamed_lines_are_the_final_render_witness :
  let '(c, out) := run line_renderer (fun l => l) (core_new (Some 80%N) Rich) table_events in
  out = [$"intro"] /\
  out ++ snd (finalize_remaining line_renderer (fun l => l) c) =
  [$"intro"; $"| a | b |"; $"| --- | --- |"; $"| 1 | 2 |"].
Proof.
  pose proof (streamed_lines_are_the_final_render line_renderer (fun l => l) Rich (Some 80%N) table_events) as H.
  destruct (run line_renderer (fun l => l) (core_new (Some 80%N) Rich) table_events) as [c out] eqn:E.
  split.
  - apply (f_equal snd) in E. simpl snd in E at 2. rewrite <- E. vm_compute. reflexivity.
  - rewrite H; [vm_compute; reflexivity|]. apply line_renderer_is_stable. intros a b Ha. by apply raw_lines_app.
Defined.

Lemma stable_region_is_counted_witness :
  let c := set_width line_renderer (fun l => l)
    (fst (tick (fst (push_delta line_renderer (fun l => l) (core_new (Some 80%N) Rich) 0
      ($"a" ++ [newline] ++ $"b" ++ [newline]))))) 1 (Some 40%N) in
  emitted_stable_len c = 1 /\ counted c.
Proof.
  split; [vm_compute; reflexivity|].
  apply (stable_region_is_counted line_renderer (fun l => l) (Some 80%N) Rich).
  eapply rtc_l; [apply step_push|]. eapply rtc_l; [apply step_tick|]. eapply rtc_l; [apply step_width|].
  apply rtc_refl.
Defined.

(** ** A narrower layout replays *)

Fixpoint chunks_of (fuel n : nat) (s : str) : list str :=
  match fuel, s with
  | S fuel, _ :: _ => take n s :: chunks_of fuel n (drop n s)
  | _, _ => []
  end.
(** A renderer that wraps at the width. *)
Definition wrap_renderer (w : option N) (source : str) : list str :=
  concat (map (fun l => chunks_of (length l) (N.to_nat (default 80%N w)) l) (raw_lines_from_source (fun l => l) source)).

(** A line that was emitted whole is emitted again in part when the width shrinks before
    the stream ends, with nothing queued and no tail: [set_width] marks the new lines as
    enqueued, not as emitted. *)
Example narrower_width_replays_emitted_text :
  let c := fst (push_delta wrap_renderer (fun l => l) (core_new (Some 8%N) Rich) 0 ($"abcdefgh" ++ [newline])) in
  let '(c, out) := tick c in
  out = [$"abcdefgh"] /\ queued_len (state c) = 0 /\ has_tail c = false /\
  snd (finalize_remaining wrap_renderer (fun l => l) c) = [] /\
  snd (finalize_remaining wrap_renderer (fun l => l) (set_width wrap_renderer (fun l => l) c 1 (Some 4%N))) = [$"efgh"].
Proof. vm_compute. done. Qed.
End StreamLines.
