(* ===== verification/CommitTick.v ===== *)
(** The pace of a streamed answer: the adaptive chunking policy
    ([tui/src/streaming/chunking.rs]) and the commit ticks that apply it to the stream
    controllers ([streaming/commit_tick.rs]). *)
From S2P Require Import Prelude HeadTailBuffer Truncate TableDetect StreamController.

Module CommitTick.
Import Stream.

(** ** AdaptiveChunkingPolicy *)

(** [Duration::from_millis], in nanoseconds. *)
Definition from_millis (n : N) : N := (n * 1000000)%N.
Definition ENTER_QUEUE_DEPTH_LINES : nat := 8.
Definition ENTER_OLDEST_AGE : N := from_millis 120.
Definition EXIT_QUEUE_DEPTH_LINES : nat := 2.
Definition EXIT_OLDEST_AGE : N := from_millis 40.
Definition EXIT_HOLD : N := from_millis 250.
Definition REENTER_CATCH_UP_HOLD : N := from_millis 250.
Definition SEVERE_QUEUE_DEPTH_LINES : nat := 64.
Definition SEVERE_OLDEST_AGE : N := from_millis 300.

Inductive ChunkingMode := Smooth | CatchUp.
#[global] Instance chunking_mode_eq_dec : EqDecision ChunkingMode.
Proof. solve_decision. Defined.
Record QueueSnapshot := mkSnapshot { queued_lines : nat; oldest_age : option N }.
Inductive DrainPlan := Single | Batch (max_lines : nat).
Record ChunkingDecision := mkDecision {
  decision_mode : ChunkingMode;
  entered_catch_up : bool;
  drain_plan : DrainPlan;
}.
Record AdaptiveChunkingPolicy := mkPolicy {
  policy_mode : ChunkingMode;
  below_exit_threshold_since : option N;
  last_catch_up_exit_at : option N;
}.
Definition policy_default : AdaptiveChunkingPolicy := mkPolicy Smooth None None.
Definition policy_reset (p : AdaptiveChunkingPolicy) : AdaptiveChunkingPolicy := mkPolicy Smooth None None.

Definition age_at_least (s : QueueSnapshot) (d : N) : bool :=
  match oldest_age s with Some oldest => (d <=? oldest)%N | None => false end.
Definition should_enter_catch_up (s : QueueSnapshot) : bool :=
  (ENTER_QUEUE_DEPTH_LINES <=? queued_lines s) || age_at_least s ENTER_OLDEST_AGE.
Definition should_exit_catch_up (s : QueueSnapshot) : bool :=
  (queued_lines s <=? EXIT_QUEUE_DEPTH_LINES) &&
  match oldest_age s with Some oldest => (oldest <=? EXIT_OLDEST_AGE)%N | None => false end.
Definition is_severe_backlog (s : QueueSnapshot) : bool :=
  (SEVERE_QUEUE_DEPTH_LINES <=? queued_lines s) || age_at_least s SEVERE_OLDEST_AGE.

(** [now.saturating_duration_since(t)] is the truncated difference. *)
Definition reentry_hold_active (p : AdaptiveChunkingPolicy) (now : N) : bool :=
  match last_catch_up_exit_at p with Some exit => (now - exit <? REENTER_CATCH_UP_HOLD)%N | None => false end.
Definition note_catch_up_exit (p : AdaptiveChunkingPolicy) (now : N) : AdaptiveChunkingPolicy :=
  match policy_mode p with
  | CatchUp => mkPolicy CatchUp (below_exit_threshold_since p) (Some now)
  | Smooth => p
  end.
Definition maybe_enter_catch_up (p : AdaptiveChunkingPolicy) (s : QueueSnapshot) (now : N)
    : AdaptiveChunkingPolicy * bool :=
  if negb (should_enter_catch_up s) then (p, false)
  else if reentry_hold_active p now && negb (is_severe_backlog s) then (p, false)
  else (mkPolicy CatchUp None None, true).
Definition maybe_exit_catch_up (p : AdaptiveChunkingPolicy) (s : QueueSnapshot) (now : N)
    : AdaptiveChunkingPolicy :=
  if negb (should_exit_catch_up s) then mkPolicy (policy_mode p) None (last_catch_up_exit_at p)
  else
    match below_exit_threshold_since p with
    | Some since =>
        if (EXIT_HOLD <=? now - since)%N then mkPolicy Smooth None (Some now) else p
    | None => mkPolicy (policy_mode p) (Some now) (last_catch_up_exit_at p)
    end.
Definition decide (p : AdaptiveChunkingPolicy) (s : QueueSnapshot) (now : N)
    : AdaptiveChunkingPolicy * ChunkingDecision :=
  if queued_lines s =? 0 then
    let p := note_catch_up_exit p now in
    (mkPolicy Smooth None (last_catch_up_exit_at p), mkDecision Smooth false Single)
  else
    let '(p, entered) :=
      match policy_mode p with
      | Smooth => maybe_enter_catch_up p s now
      | CatchUp => (maybe_exit_catch_up p s now, false)
      end in
    (p, mkDecision (policy_mode p) entered
          (match policy_mode p with Smooth => Single | CatchUp => Batch (Nat.max (queued_lines s) 1) end)).

(** ** Commit ticks *)

Section ticks.
Context {Line : Type} (plan_title blank : Line) (plan_body_line : Line -> Line).
#[local] Abbreviation Controller := (StreamController (Line := Line)).
#[local] Abbreviation PlanController := (PlanStreamController (Line := Line)).

Inductive CommitTickScope := AnyMode | CatchUpOnly.
Inductive HistoryCell :=
| AgentMessageCell (c : Cell (Line := Line))
| ProposedPlanStreamCell (c : Cell (Line := Line)).
Record CommitTickOutput := mkOutput {
  cells : list HistoryCell;
  has_controller : bool;
  all_idle : bool;
}.
Definition output_default : CommitTickOutput := mkOutput [] false true.

Definition max_duration (lhs rhs : option N) : option N :=
  match lhs, rhs with
  | Some l, Some r => Some (N.max l r)
  | Some l, None => Some l
  | None, Some r => Some r
  | None, None => None
  end.
Definition add_queue (s : QueueSnapshot) (q : StreamState (Line := Line)) (now : N) : QueueSnapshot :=
  mkSnapshot (queued_lines s + queued_len q) (max_duration (oldest_age s) (oldest_queued_age q now)).
Definition stream_queue_snapshot (sc : option Controller) (pc : option PlanController) (now : N)
    : QueueSnapshot :=
  let s := mkSnapshot 0 None in
  let s := match sc with Some c => add_queue s (state (core c)) now | None => s end in
  match pc with Some c => add_queue s (state (plan_core c)) now | None => s end.

Definition drain_stream_controller (c : Controller) (plan : DrainPlan)
    : Controller * (option (Cell (Line := Line)) * bool) :=
  match plan with
  | Single => on_commit_tick c
  | Batch max_lines => on_commit_tick_batch c max_lines
  end.
Definition drain_plan_stream_controller (c : PlanController) (plan : DrainPlan)
    : PlanController * (option (Cell (Line := Line)) * bool) :=
  match plan with
  | Single => plan_on_commit_tick plan_title blank plan_body_line c
  | Batch max_lines => plan_on_commit_tick_batch plan_title blank plan_body_line c max_lines
  end.

Definition Controllers : Type := option Controller * option PlanController.
Definition push_output (o : CommitTickOutput) (cell : option HistoryCell) (idle : bool) : CommitTickOutput :=
  mkOutput (cells o ++ option_list cell) true (all_idle o && idle).
Definition apply_commit_tick_plan (plan : DrainPlan) (cs : Controllers) : Controllers * CommitTickOutput :=
  let '(sc, pc) := cs in
  let o := output_default in
  let '(sc, o) :=
    match sc with
    | Some c =>
        let '(c, (cell, idle)) := drain_stream_controller c plan in
        (Some c, push_output o (AgentMessageCell <$> cell) idle)
    | None => (None, o)
    end in
  let '(pc, o) :=
    match pc with
    | Some c =>
        let '(c, (cell, idle)) := drain_plan_stream_controller c plan in
        (Some c, push_output o (ProposedPlanStreamCell <$> cell) idle)
    | None => (None, o)
    end in
  ((sc, pc), o).

Definition run_commit_tick (p : AdaptiveChunkingPolicy) (cs : Controllers) (scope : CommitTickScope) (now : N)
    : AdaptiveChunkingPolicy * Controllers * CommitTickOutput :=
  let snapshot := stream_queue_snapshot (fst cs) (snd cs) now in
  let '(p, decision) := decide p snapshot now in
  match scope, decision_mode decision with
  | CatchUpOnly, Smooth => (p, cs, output_default)
  | _, _ =>
      let '(cs, o) := apply_commit_tick_plan (drain_plan decision) cs in (p, cs, o)
  end.

(** ** Draining *)

(** The lines a plan takes from a queue. *)
Definition drained (plan : DrainPlan) (n : nat) : nat :=
  match plan with Single => Nat.min 1 n | Batch m => Nat.min m n end.

(** The lines waiting in a controller, and how a plan shows lines. *)
Definition stream_queue (c : Controller) : list Line := line <$> queued (state (core c)).
Definition plan_queue (c : PlanController) : list Line := line <$> queued (state (plan_core c)).
Definition plan_display (c : PlanController) (lines : list Line) : list Line :=
  match lines with [] => [] | _ => render_display_lines plan_title blank plan_body_line c lines false end.

(** What both kinds of drain do to a core. *)
Definition drain_core (c : StreamCore (Line := Line)) (plan : DrainPlan) : StreamCore * list Line :=
  match plan with Single => tick c | Batch n => tick_batch c n end.

Lemma drain_core_spec c plan :
  let k := drained plan (queued_len (state c)) in
  queued (state (fst (drain_core c plan))) = drop k (queued (state c)) /\
  snd (drain_core c plan) = line <$> take k (queued (state c)).
Proof.
  unfold drained, queued_len. destruct plan as [|n]; unfold drain_core.
  - unfold tick, step. destruct (queued (state c)) as [|q rest] eqn:E; cbn; [by rewrite E|].
    by rewrite take_0, drop_0.
  - unfold tick_batch. destruct (Nat.eqb_spec n 0) as [->|Hn]; [done|]. unfold drain_n.
    by destruct (line <$> take (Nat.min n _) _).
Qed.

Lemma idle_spec (s : StreamState (Line := Line)) : is_idle s = (queued_len s =? 0).
Proof. unfold is_idle, queued_len. by destruct (queued s). Qed.

Lemma drain_stream_spec c plan :
  let k := drained plan (queued_len (state (core c))) in
  let '(c', (cell, idle)) := drain_stream_controller c plan in
  stream_queue c' = drop k (stream_queue c) /\
  from_option cell_lines [] cell = take k (stream_queue c) /\
  idle = (length (stream_queue c') =? 0).
Proof.
  intros k. destruct (drain_core_spec (core c) plan) as [H1 H2]. fold k in H1, H2.
  assert (drain_stream_controller c plan =
    let '(co, lines) := drain_core (core c) plan in
    let '(c, cell) := emit (mkController co (header_emitted c)) lines in (c, (cell, is_idle (state co)))) as ->
    by (by destruct plan).
  destruct (drain_core (core c) plan) as [co lines]. cbn [fst snd] in H1, H2.
  rewrite idle_spec. unfold stream_queue. rewrite <- fmap_take, <- fmap_drop, <- H1, <- H2.
  destruct lines; cbn; by rewrite length_fmap.
Qed.

(** Showing lines in two steps is showing them at once. *)
Lemma plan_display_app c co l1 l2 :
  let '(c', cell) := plan_emit plan_title blank plan_body_line
    (mkPlan co (plan_header_emitted c) (top_padding_emitted c)) l1 false in
  plan_core c' = co /\ from_option cell_lines [] cell = plan_display c l1 /\
  plan_display c (l1 ++ l2) = plan_display c l1 ++ plan_display c' l2.
Proof.
  destruct l1 as [|x l1]; cbn; [done|]. split_and!; [done..|]. destruct l2 as [|y l2]; [by rewrite !app_nil_r|].
  unfold render_display_lines. cbn. rewrite !app_nil_r. rewrite <- !app_assoc. f_equal.
  rewrite !map_app. cbn. by rewrite map_app, <- !app_assoc.
Qed.

Lemma drain_plan_spec c plan :
  let k := drained plan (queued_len (state (plan_core c))) in
  let '(c', (cell, idle)) := drain_plan_stream_controller c plan in
  plan_queue c' = drop k (plan_queue c) /\
  from_option cell_lines [] cell = plan_display c (take k (plan_queue c)) /\
  (forall l, plan_display c (take k (plan_queue c) ++ l) =
     plan_display c (take k (plan_queue c)) ++ plan_display c' l) /\
  idle = (length (plan_queue c') =? 0).
Proof.
  intros k. destruct (drain_core_spec (plan_core c) plan) as [H1 H2]. fold k in H1, H2.
  assert (drain_plan_stream_controller c plan =
    let '(co, lines) := drain_core (plan_core c) plan in
    let '(c, cell) := plan_emit plan_title blank plan_body_line
      (mkPlan co (plan_header_emitted c) (top_padding_emitted c)) lines false in
    (c, (cell, is_idle (state co)))) as -> by (by destruct plan).
  destruct (drain_core (plan_core c) plan) as [co lines]. cbn [fst snd] in H1, H2.
  pose proof (plan_display_app c co lines) as Hd.
  destruct (plan_emit _ _ _ _ lines false) as [c' cell]. rewrite idle_spec.
  destruct (Hd []) as (Hco & Hcell & _). unfold plan_queue.
  rewrite Hco, <- fmap_take, <- fmap_drop, <- H1, <- H2, length_fmap.
  split_and!; try done. intros l. apply Hd.
Qed.

Definition waiting (cs : Controllers) : list Line := from_option stream_queue [] (fst cs).
Definition plan_waiting (cs : Controllers) : list Line := from_option plan_queue [] (snd cs).
Definition plan_shown (cs : Controllers) (l : list Line) : list Line :=
  from_option (fun c => plan_display c l) [] (snd cs).
Definition agent_lines (l : list HistoryCell) : list Line :=
  concat (map (fun c => match c with AgentMessageCell c => cell_lines c | _ => [] end) l).
Definition plan_lines (l : list HistoryCell) : list Line :=
  concat (map (fun c => match c with ProposedPlanStreamCell c => cell_lines c | _ => [] end) l).

Lemma agent_lines_app a b : agent_lines (a ++ b) = agent_lines a ++ agent_lines b.
Proof. unfold agent_lines. by rewrite map_app, concat_app. Qed.
Lemma plan_lines_app a b : plan_lines (a ++ b) = plan_lines a ++ plan_lines b.
Proof. unfold plan_lines. by rewrite map_app, concat_app. Qed.

(** What a tick takes and shows, and what it leaves. *)
Definition tick_shows (plan : DrainPlan) (cs cs' : Controllers) (l : list HistoryCell) : Prop :=
  let k1 := drained plan (length (waiting cs)) in
  let k2 := drained plan (length (plan_waiting cs)) in
  waiting cs' = drop k1 (waiting cs) /\ agent_lines l = take k1 (waiting cs) /\
  plan_waiting cs' = drop k2 (plan_waiting cs) /\ plan_lines l = plan_shown cs (take k2 (plan_waiting cs)) /\
  forall rest, plan_shown cs (take k2 (plan_waiting cs) ++ rest) =
    plan_shown cs (take k2 (plan_waiting cs)) ++ plan_shown cs' rest.

Lemma apply_spec plan cs :
  let '(cs', o) := apply_commit_tick_plan plan cs in
  tick_shows plan cs cs' (cells o) /\
  all_idle o = (length (waiting cs') + length (plan_waiting cs') =? 0).
Proof.
  destruct cs as [sc pc]. unfold apply_commit_tick_plan, tick_shows, waiting, plan_waiting, plan_shown. cbn [fst snd].
  destruct sc as [c|].
  - pose proof (drain_stream_spec c plan) as H. unfold queued_len in H.
    destruct (drain_stream_controller c plan) as [c' [cell idle]]. destruct H as (H1 & H2 & ->).
    rewrite <- (length_fmap line) in H1, H2. change (line <$> queued (state (core c))) with (stream_queue c) in H1, H2.
    destruct pc as [d|].
    + pose proof (drain_plan_spec d plan) as G. unfold queued_len in G.
      destruct (drain_plan_stream_controller d plan) as [d' [dcell didle]]. destruct G as (G1 & G2 & G3 & ->).
      rewrite <- (length_fmap line) in G1, G2, G3.
      change (line <$> queued (state (plan_core d))) with (plan_queue d) in G1, G2, G3.
      cbn [push_output cells all_idle fst snd from_option output_default andb].
      split; [|by destruct (length (stream_queue c')), (length (plan_queue d'))].
      rewrite agent_lines_app, plan_lines_app, H1, G1, <- H2, <- G2.
      split_and!; [done| |done| |intros rest; rewrite G2; apply G3]; destruct cell, dcell; cbn; by rewrite ?app_nil_r.
    + cbn [push_output cells all_idle fst snd from_option output_default andb length].
      split; [|by rewrite Nat.add_0_r]. rewrite H1, <- H2. destruct cell; cbn; split_and!;
        rewrite ?app_nil_r, ?take_nil, ?drop_nil; done.
  - destruct pc as [d|].
    + pose proof (drain_plan_spec d plan) as G. unfold queued_len in G.
      destruct (drain_plan_stream_controller d plan) as [d' [dcell didle]]. destruct G as (G1 & G2 & G3 & ->).
      rewrite <- (length_fmap line) in G1, G2, G3.
      change (line <$> queued (state (plan_core d))) with (plan_queue d) in G1, G2, G3.
      cbn [push_output cells all_idle fst snd from_option output_default andb length].
      split; [|done]. rewrite G1, <- G2. split_and!; [by rewrite drop_nil| |done| |intros rest; rewrite G2; apply G3];
        destruct dcell; cbn; by rewrite ?app_nil_r, ?take_nil.
    + cbn. split_and!; by rewrite ?take_nil, ?drop_nil.
Qed.

Lemma snapshot_spec cs now :
  let s := stream_queue_snapshot (fst cs) (snd cs) now in
  queued_lines s = length (waiting cs) + length (plan_waiting cs) /\
  (queued_lines s = 0 -> oldest_age s = None).
Proof.
  destruct cs as [[c|] [d|]]; cbn; unfold stream_queue, plan_queue, queued_len, oldest_queued_age;
    rewrite ?length_fmap;
    (split; [lia|]); try done.
  - by destruct (queued (state (core c))), (queued (state (plan_core d))).
  - by destruct (queued (state (core c))).
  - by destruct (queued (state (plan_core d))).
Qed.

(** Every plan takes a line from a queue that has one. *)
Lemma decide_drains p s now n :
  let plan := drain_plan (snd (decide p s now)) in n <> 0 -> drained plan n <> 0.
Proof.
  unfold decide. destruct (queued_lines s =? 0); cbn -[Nat.min]; [lia|].
  destruct (match policy_mode p with Smooth => _ | CatchUp => _ end) as [p' entered]. cbn [snd drain_plan].
  destruct (policy_mode p'); unfold drained; lia.
Qed.

(** A severe backlog is caught up with. *)
Lemma decide_severe p s now :
  queued_lines s <> 0 -> is_severe_backlog s = true ->
  policy_mode (fst (decide p s now)) = CatchUp /\
  decision_mode (snd (decide p s now)) = CatchUp /\
  drain_plan (snd (decide p s now)) = Batch (queued_lines s).
Proof.
  intros Hn Hs. unfold decide. destruct (Nat.eqb_spec (queued_lines s) 0); [done|].
  assert (should_enter_catch_up s = true /\ should_exit_catch_up s = false) as [Hin Hout].
  { unfold is_severe_backlog, should_enter_catch_up, should_exit_catch_up, age_at_least in *.
    apply orb_true_iff in Hs as [Hs%Nat.leb_le|Hs].
    - unfold SEVERE_QUEUE_DEPTH_LINES in Hs. split.
      + apply orb_true_iff. left. apply Nat.leb_le. unfold ENTER_QUEUE_DEPTH_LINES. lia.
      + apply andb_false_iff. left. apply Nat.leb_gt. unfold EXIT_QUEUE_DEPTH_LINES. lia.
    - destruct (oldest_age s) as [a|]; [|done]. apply N.leb_le in Hs.
      unfold SEVERE_OLDEST_AGE, from_millis in Hs. split.
      + apply orb_true_iff. right. apply N.leb_le. unfold ENTER_OLDEST_AGE, from_millis. lia.
      + apply andb_false_iff. right. apply N.leb_gt. unfold EXIT_OLDEST_AGE, from_millis. lia. }
  unfold maybe_enter_catch_up, maybe_exit_catch_up. rewrite Hin, Hout, Hs. cbn [negb]. rewrite andb_false_r.
  destruct (policy_mode p) eqn:E; cbn; rewrite ?E; (split_and!; [done..|]); f_equal; lia.
Qed.

(** Whatever the chunking state and the scope of the tick, a severe backlog (64 lines
    in all, or a line at the head of a queue for 300 ms) is flushed completely by one
    tick: both queues are empty after it, and it shows all their lines in order, those of
    a plan under its title. *)
Theorem severe_backlog_is_flushed p cs scope now :
  is_severe_backlog (stream_queue_snapshot (fst cs) (snd cs) now) = true ->
  let '(p', cs', o) := run_commit_tick p cs scope now in
  policy_mode p' = CatchUp /\ all_idle o = true /\ waiting cs' = [] /\ plan_waiting cs' = [] /\
  agent_lines (cells o) = waiting cs /\ plan_lines (cells o) = plan_shown cs (plan_waiting cs).
Proof.
  intros Hs. unfold run_commit_tick. destruct (snapshot_spec cs now) as [Hlen Hage].
  set (s := stream_queue_snapshot _ _ now) in *.
  assert (queued_lines s <> 0) as Hn.
  { intros E. unfold is_severe_backlog, age_at_least in Hs. rewrite E, Hage in Hs; done. }
  destruct (decide_severe p s now Hn Hs) as (Hp & Hm & Hd).
  destruct (decide p s now) as [p' d]. cbn [fst snd] in *. rewrite Hm, Hd.
  pose proof (apply_spec (Batch (queued_lines s)) cs) as H.
  destruct (apply_commit_tick_plan _ cs) as [cs' o]. destruct H as [(H1 & H2 & H3 & H4 & _) H5].
  cbn in H1, H2, H3, H4. rewrite Hlen, Nat.min_r in H1, H2, H3, H4 by lia.
  rewrite drop_all in H1, H3. rewrite firstn_all in H2, H4. rewrite H1, H3 in H5.
  by destruct scope.
Qed.

(** ** Runs of ticks *)

Fixpoint run_ticks (p : AdaptiveChunkingPolicy) (cs : Controllers) (times : list N)
    : AdaptiveChunkingPolicy * Controllers * list HistoryCell :=
  match times with
  | [] => (p, cs, [])
  | now :: times =>
      let '(p, cs, o) := run_commit_tick p cs AnyMode now in
      let '(p, cs, l) := run_ticks p cs times in
      (p, cs, cells o ++ l)
  end.

(** Commit ticks drain the streams: after as many ticks as the longer queue has lines,
    at any times and from any chunking state, both queues are empty and the cells emitted
    hold exactly the lines that waited, each once and in order, those of the plan under
    one title. *)
Theorem ticks_drain_in_order p cs times :
  length (waiting cs) <= length times -> length (plan_waiting cs) <= length times ->
  let '(_, cs', l) := run_ticks p cs times in
  waiting cs' = [] /\ plan_waiting cs' = [] /\
  agent_lines l = waiting cs /\ plan_lines l = plan_shown cs (plan_waiting cs).
Proof.
  revert p cs. induction times as [|now times IH]; intros p cs Hw Hp.
  { destruct (waiting cs) eqn:E1, (plan_waiting cs) eqn:E2; cbn in Hw, Hp; try lia. cbn.
    split_and!; try done. unfold plan_shown. by destruct (snd cs). }
  cbn [run_ticks]. unfold run_commit_tick. set (s := stream_queue_snapshot _ _ now).
  pose proof (decide_drains p s now) as Hd. destruct (decide p s now) as [p' d]. cbn [snd] in Hd.
  pose proof (apply_spec (drain_plan d) cs) as H.
  destruct (apply_commit_tick_plan _ cs) as [cs1 o]. destruct H as [(H1 & H2 & H3 & H4 & H5) _].
  set (k1 := drained _ (length (waiting cs))) in *. set (k2 := drained _ (length (plan_waiting cs))) in *.
  assert (length (waiting cs1) <= length times) as Hw1.
  { rewrite H1, length_drop. destruct (Nat.eq_dec (length (waiting cs)) 0); [lia|].
    pose proof (Hd (length (waiting cs))). cbn in Hw. lia. }
  assert (length (plan_waiting cs1) <= length times) as Hp1.
  { rewrite H3, length_drop. destruct (Nat.eq_dec (length (plan_waiting cs)) 0); [lia|].
    pose proof (Hd (length (plan_waiting cs))). cbn in Hp. lia. }
  specialize (IH p' cs1 Hw1 Hp1).
  destruct (run_ticks p' cs1 times) as [[p2 cs2] l]. destruct IH as (I1 & I2 & I3 & I4). split_and!; [done..| |].
  - by rewrite agent_lines_app, H2, I3, H1, take_drop.
  - by rewrite plan_lines_app, H4, I4, <- H5, H3, take_drop.
Qed.
End ticks.

(** ** Hysteresis *)

(** The policy after decisions none of which enters catch-up. *)
Fixpoint stays_out (p : AdaptiveChunkingPolicy) (l : list (QueueSnapshot * N)) : option AdaptiveChunkingPolicy :=
  match l with
  | [] => Some p
  | (s, now) :: l =>
      let '(p, d) := decide p s now in if entered_catch_up d then None else stays_out p l
  end.

Lemma smooth_keeps_exit p s now :
  policy_mode p = Smooth -> entered_catch_up (snd (decide p s now)) = false ->
  policy_mode (fst (decide p s now)) = Smooth /\
  last_catch_up_exit_at (fst (decide p s now)) = last_catch_up_exit_at p.
Proof.
  intros Hm. unfold decide, note_catch_up_exit, maybe_enter_catch_up. rewrite Hm.
  destruct (queued_lines s =? 0); [done|]. destruct (negb _); [done|]. by destruct (_ && _).
Qed.

(** After catch-up mode is left at some time, the next entry into it is 250 ms later, or the
    backlog is severe. *)
Lemma reentry_waits p s0 t0 l p' s now :
  policy_mode p = CatchUp -> policy_mode (fst (decide p s0 t0)) = Smooth ->
  stays_out (fst (decide p s0 t0)) l = Some p' ->
  entered_catch_up (snd (decide p' s now)) = true ->
  (REENTER_CATCH_UP_HOLD <= now - t0)%N \/ is_severe_backlog s = true.
Proof.
  intros Hm Hout.
  assert (last_catch_up_exit_at (fst (decide p s0 t0)) = Some t0) as Hexit.
  { revert Hout. unfold decide, note_catch_up_exit, maybe_exit_catch_up. rewrite Hm.
    destruct (queued_lines s0 =? 0); [done|]. destruct (negb _); cbn; [done|].
    destruct (below_exit_threshold_since p); cbn; [|done]. destruct (_ <=? _)%N; [done|]. cbn. congruence. }
  revert Hout Hexit. generalize (fst (decide p s0 t0)). clear p Hm.
  induction l as [|[s1 t1] l IH]; intros p Hm Hexit; cbn [stays_out].
  - intros [= ->]. unfold decide. rewrite Hm. destruct (queued_lines s =? 0); [done|].
    unfold maybe_enter_catch_up, reentry_hold_active. rewrite Hexit.
    destruct (negb (should_enter_catch_up s)); [done|].
    destruct (N.ltb_spec (now - t0) REENTER_CATCH_UP_HOLD) as [|Hle]; [|by left].
    destruct (is_severe_backlog s); [by right|done].
  - destruct (entered_catch_up (snd (decide p s1 t1))) eqn:E; destruct (decide p s1 t1) as [p1 d] eqn:Ed;
      cbn [snd] in E; rewrite E; [done|].
    pose proof (smooth_keeps_exit p s1 t1 Hm) as H. rewrite Ed in H. destruct (H E) as [H1 H2]. cbn [fst] in H1, H2.
    apply IH; [done|by rewrite H2].
Qed.

(** ** Examples *)

Definition queue_of (l : list (nat * N)) : StreamCore (Line := nat) :=
  set_state (core_new None Rich) (mkState collector_new (map (fun '(x, t) => mkQueued x t) l) true).
Definition two_streams : Controllers (Line := nat) :=
  (Some (mkController (queue_of [(1, 0%N); (2, 5%N)]) false), Some (mkPlan (queue_of [(3, 7%N)]) false false)).
Definition example_now : N := from_millis 301.
Definition held : AdaptiveChunkingPolicy := mkPolicy Smooth None (Some (from_millis 300)).

Lemma severe_backlog_is_flushed_witness :
  let '(p', cs', o) := run_commit_tick 100 0 S held two_streams CatchUpOnly example_now in
  all_idle o = true /\ agent_lines (cells o) = [1; 2] /\ plan_lines (cells o) = [100; 0; 1; 4].
Proof.
  pose proof (severe_backlog_is_flushed 100 0 S held two_streams CatchUpOnly example_now) as H.
  destruct (run_commit_tick 100 0 S held two_streams CatchUpOnly example_now) as [[p' cs'] o].
  destruct H as (_ & H1 & _ & _ & H2 & H3); [vm_compute; reflexivity|]. split_and!; [done|by rewrite H2|by rewrite H3].
Defined.

Lemma ticks_drain_in_order_witness :
  let '(_, cs', l) := run_ticks 100 0 S policy_default two_streams [10; 20]%N in
  waiting cs' = [] /\ agent_lines l = [1; 2] /\ plan_lines l = [100; 0; 1; 4].
Proof.
  pose proof (ticks_drain_in_order 100 0 S policy_default two_streams [10; 20]%N) as H.
  destruct (run_ticks 100 0 S policy_default two_streams [10; 20]%N) as [[p' cs'] l].
  destruct H as (H1 & _ & H2 & H3); [cbn; lia..|]. split_and!; [done|by rewrite H2|by rewrite H3].
Defined.
End CommitTick.
