(* ===== verification/IpAddr.v ===== *)
(** IP addresses as the network proxy uses them: the parser of [core::net] (decimal
    octets without leading zeros, hexadecimal groups with at most one [::], an embedded
    IPv4 tail), the classes of addresses of the standard library, and the test of
    non-public addresses of [network-proxy/src/policy.rs]. *)
From S2P Require Import Prelude.

Module Ip.

(** ** Addresses *)

Record Ipv4Addr := mkV4 { o0 : N; o1 : N; o2 : N; o3 : N }.
(** Eight groups of sixteen bits. *)
Record Ipv6Addr := mkV6 { segments : list N }.
Inductive IpAddr := V4 (ip : Ipv4Addr) | V6 (ip : Ipv6Addr).

#[global] Instance ipv4_eq_dec : EqDecision Ipv4Addr.
Proof. solve_decision. Defined.
#[global] Instance ipv6_eq_dec : EqDecision Ipv6Addr.
Proof. solve_decision. Defined.
#[global] Instance ip_eq_dec : EqDecision IpAddr.
Proof. solve_decision. Defined.

(** [u32::from(ip)]. *)
Definition v4_to_u32 (ip : Ipv4Addr) : N := (((o0 ip * 256 + o1 ip) * 256 + o2 ip) * 256 + o3 ip)%N.

(** ** Parsing ([core::net::parser]) *)

Definition to_digit (radix : N) (c : char) : option N :=
  let d :=
    if Str.is_ascii_digit c then Some (c - 48)%N
    else if ((97 <=? c) && (c <=? 122))%N then Some (c - 97 + 10)%N
    else if ((65 <=? c) && (c <=? 90))%N then Some (c - 65 + 10)%N
    else None in
  match d with Some n => if (n <? radix)%N then Some n else None | None => None end.

Fixpoint read_digits (radix : N) (max_digits count : nat) (result : N) (s : str) : option (nat * N * str) :=
  match s with
  | [] => Some (count, result, [])
  | c :: s' =>
      match to_digit radix c with
      | None => Some (count, result, s)
      | Some d =>
          if max_digits <? S count then None
          else read_digits radix max_digits (S count) (result * radix + d)%N s'
      end
  end.
Definition read_number (radix : N) (max_digits : nat) (max : N) (allow_zero_prefix : bool) (s : str)
    : option (N * str) :=
  let has_leading_zero := match s with c :: _ => (c =? ch "0")%N | [] => false end in
  '(count, result, rest) ← read_digits radix max_digits 0 0 s;
  if (count =? 0) || (negb allow_zero_prefix && has_leading_zero && (1 <? count)) then None
  else if (max <? result)%N then None
  else Some (result, rest).

Definition read_given_char (c : char) (s : str) : option str :=
  match s with d :: s' => if (d =? c)%N then Some s' else None | [] => None end.
Definition read_separator {A} (sep : char) (index : nat) (inner : str -> option (A * str)) (s : str)
    : option (A * str) :=
  if 0 <? index then s' ← read_given_char sep s; inner s' else inner s.

Definition read_octet (index : nat) (s : str) : option (N * str) :=
  read_separator (ch ".") index (read_number 10 3 255 false) s.
Definition read_ipv4_addr (s : str) : option (Ipv4Addr * str) :=
  '(a, s) ← read_octet 0 s;
  '(b, s) ← read_octet 1 s;
  '(c, s) ← read_octet 2 s;
  '(d, s) ← read_octet 3 s;
  Some (mkV4 a b c d, s).

(** Reads at most [remaining] groups from the group [i] on; says whether they end with an
    embedded IPv4 address. *)
Fixpoint read_groups (remaining i : nat) (s : str) : list N * bool * str :=
  match remaining with
  | 0 => ([], false, s)
  | S r =>
      match (if 0 <? r then read_separator (ch ":") i read_ipv4_addr s else None) with
      | Some (v4, rest) => ([(o0 v4 * 256 + o1 v4)%N; (o2 v4 * 256 + o3 v4)%N], true, rest)
      | None =>
          match read_separator (ch ":") i (read_number 16 4 65535 true) s with
          | Some (g, rest) =>
              let '(gs, ipv4, rest) := read_groups r (S i) rest in (g :: gs, ipv4, rest)
          | None => ([], false, s)
          end
      end
  end.
Definition read_ipv6_addr (s : str) : option (Ipv6Addr * str) :=
  let '(head, head_ipv4, s) := read_groups 8 0 s in
  if length head =? 8 then Some (mkV6 head, s)
  else if head_ipv4 then None
  else
    s ← read_given_char (ch ":") s;
    s ← read_given_char (ch ":") s;
    let '(tail, _, s) := read_groups (8 - (length head + 1)) 0 s in
    Some (mkV6 (head ++ repeat 0%N (8 - length head - length tail) ++ tail), s).

(** [s.parse::<IpAddr>()]: the whole text, an IPv4 address first. *)
Definition parse_ip (s : str) : option IpAddr :=
  '(ip, rest) ←
    match read_ipv4_addr s with
    | Some (v4, rest) => Some (V4 v4, rest)
    | None => '(v6, rest) ← read_ipv6_addr s; Some (V6 v6, rest)
    end;
  if Str.is_empty rest then Some ip else None.

(** ** Classes of the standard library *)

Definition v4_is_loopback (ip : Ipv4Addr) : bool := (o0 ip =? 127)%N.
Definition v4_is_private (ip : Ipv4Addr) : bool :=
  ((o0 ip =? 10) || ((o0 ip =? 172) && (16 <=? o1 ip) && (o1 ip <=? 31)) ||
   ((o0 ip =? 192) && (o1 ip =? 168)))%N.
Definition v4_is_link_local (ip : Ipv4Addr) : bool := ((o0 ip =? 169) && (o1 ip =? 254))%N.
Definition v4_is_unspecified (ip : Ipv4Addr) : bool := (v4_to_u32 ip =? 0)%N.
Definition v4_is_multicast (ip : Ipv4Addr) : bool := ((224 <=? o0 ip) && (o0 ip <=? 239))%N.
Definition v4_is_broadcast (ip : Ipv4Addr) : bool := (v4_to_u32 ip =? 4294967295)%N.

Definition segment (ip : Ipv6Addr) (i : nat) : N := nth i (segments ip) 0%N.
Definition v6_is_loopback (ip : Ipv6Addr) : bool := bool_decide (segments ip = [0; 0; 0; 0; 0; 0; 0; 1]%N).
Definition v6_is_unspecified (ip : Ipv6Addr) : bool := bool_decide (segments ip = [0; 0; 0; 0; 0; 0; 0; 0]%N).
Definition v6_is_multicast (ip : Ipv6Addr) : bool := (N.shiftr (segment ip 0) 8 =? 255)%N.
Definition v6_is_unique_local (ip : Ipv6Addr) : bool := (N.land (segment ip 0) 65024 =? 64512)%N.
Definition v6_is_unicast_link_local (ip : Ipv6Addr) : bool := (N.land (segment ip 0) 65472 =? 65152)%N.
(** [to_ipv4]: the addresses [::a.b.c.d] and [::ffff:a.b.c.d]. *)
Definition to_ipv4 (ip : Ipv6Addr) : option Ipv4Addr :=
  match segments ip with
  | [s0; s1; s2; s3; s4; s5; ab; cd] =>
      if ((s0 =? 0) && (s1 =? 0) && (s2 =? 0) && (s3 =? 0) && (s4 =? 0) && ((s5 =? 0) || (s5 =? 65535)))%N
      then Some (mkV4 (ab / 256) (ab mod 256) (cd / 256) (cd mod 256))
      else None
  | _ => None
  end.
Definition is_loopback (ip : IpAddr) : bool :=
  match ip with V4 ip => v4_is_loopback ip | V6 ip => v6_is_loopback ip end.

(** ** Non-public addresses (policy.rs) *)

Definition ipv4_in_cidr (ip base : Ipv4Addr) (prefix : N) : bool :=
  let mask := if (prefix =? 0)%N then 0%N else (N.shiftl 4294967295 (32 - prefix) mod 2 ^ 32)%N in
  (N.land (v4_to_u32 ip) mask =? N.land (v4_to_u32 base) mask)%N.
Definition is_non_public_ipv4 (ip : Ipv4Addr) : bool :=
  v4_is_loopback ip || v4_is_private ip || v4_is_link_local ip || v4_is_unspecified ip ||
  v4_is_multicast ip || v4_is_broadcast ip ||
  ipv4_in_cidr ip (mkV4 0 0 0 0) 8 || ipv4_in_cidr ip (mkV4 100 64 0 0) 10 ||
  ipv4_in_cidr ip (mkV4 192 0 0 0) 24 || ipv4_in_cidr ip (mkV4 192 0 2 0) 24 ||
  ipv4_in_cidr ip (mkV4 198 18 0 0) 15 || ipv4_in_cidr ip (mkV4 198 51 100 0) 24 ||
  ipv4_in_cidr ip (mkV4 203 0 113 0) 24 || ipv4_in_cidr ip (mkV4 240 0 0 0) 4.
Definition is_non_public_ipv6 (ip : Ipv6Addr) : bool :=
  match to_ipv4 ip with
  | Some v4 => is_non_public_ipv4 v4 || v6_is_loopback ip
  | None =>
      v6_is_loopback ip || v6_is_unspecified ip || v6_is_multicast ip || v6_is_unique_local ip ||
      v6_is_unicast_link_local ip
  end.
Definition is_non_public_ip (ip : IpAddr) : bool :=
  match ip with V4 ip => is_non_public_ipv4 ip | V6 ip => is_non_public_ipv6 ip end.

(** ** Well-formed addresses *)

Definition v4_wf (ip : Ipv4Addr) : Prop := (o0 ip < 256 /\ o1 ip < 256 /\ o2 ip < 256 /\ o3 ip < 256)%N.
Definition v6_wf (ip : Ipv6Addr) : Prop := length (segments ip) = 8 /\ Forall (fun g => g < 65536)%N (segments ip).
Definition ip_wf (ip : IpAddr) : Prop := match ip with V4 ip => v4_wf ip | V6 ip => v6_wf ip end.

Lemma read_number_bound radix max_digits max allow s n rest :
  read_number radix max_digits max allow s = Some (n, rest) -> (n <= max)%N.
Proof.
  unfold read_number. intros ([[count result] r] & _ & H)%bind_Some. destruct (_ || _); [done|].
  destruct (N.ltb_spec max result); [done|]. by injection H as -> ->.
Qed.

Lemma read_separator_inner {A} sep i (inner : str -> option (A * str)) s r :
  read_separator sep i inner s = Some r -> exists s', inner s' = Some r.
Proof.
  unfold read_separator. destruct (0 <? i); [|eauto]. intros (s' & _ & H)%bind_Some. eauto.
Qed.

Lemma read_ipv4_wf s ip rest : read_ipv4_addr s = Some (ip, rest) -> v4_wf ip.
Proof.
  unfold read_ipv4_addr, read_octet. intros H.
  repeat (apply bind_Some in H as ([? ?] & ?%read_separator_inner & H)). injection H as <- _.
  repeat match goal with E : exists _, _ |- _ => destruct E as [? ?%read_number_bound] end.
  unfold v4_wf. simpl. lia.
Qed.

Lemma read_groups_wf n i s gs b rest :
  read_groups n i s = (gs, b, rest) -> length gs <= n /\ Forall (fun g => g < 65536)%N gs.
Proof.
  revert i s gs b rest. induction n as [|n IH]; intros i s gs b rest; simpl; [by intros [= <- <- <-]|].
  destruct (if 0 <? n then _ else None) as [[v4 r]|] eqn:E4.
  { intros [= <- <- <-]. destruct (Nat.ltb_spec 0 n); [|done].
    apply read_separator_inner in E4 as [s' (? & ? & ? & ?)%read_ipv4_wf].
    split; [simpl; lia|]. repeat constructor; lia. }
  destruct (read_separator _ i (read_number 16 4 65535 true) s) as [[g r]|] eqn:Eg.
  - destruct (read_groups n (S i) r) as [[gs' b'] r'] eqn:E. intros [= <- <- <-].
    apply IH in E as [Hl Hf]. apply read_separator_inner in Eg as [s' ?%read_number_bound].
    split; [simpl; lia|]. constructor; [lia|done].
  - intros [= <- <- <-]. split; [simpl; lia|constructor].
Qed.

(** What the parser accepts is an address. *)
Lemma parse_ip_wf s ip : parse_ip s = Some ip -> ip_wf ip.
Proof.
  unfold parse_ip. intros ([ip' rest] & H & Hr)%bind_Some. destruct (Str.is_empty rest); [|done].
  injection Hr as ->. destruct (read_ipv4_addr s) as [[v4 r]|] eqn:E4.
  { injection H as <- _. by apply read_ipv4_wf in E4. }
  apply bind_Some in H as ([v6 r] & H & [= <- _]). simpl.
  unfold read_ipv6_addr in H. destruct (read_groups 8 0 s) as [[head b] s1] eqn:Eh.
  apply read_groups_wf in Eh as [Hl Hf]. destruct (Nat.eqb_spec (length head) 8) as [E|Hne].
  { injection H as <- _. done. }
  destruct b; [done|]. apply bind_Some in H as (s2 & _ & (s3 & _ & H)%bind_Some).
  destruct (read_groups _ 0 s3) as [[tail b'] s4] eqn:Et. apply read_groups_wf in Et as [Hl' Hf'].
  injection H as <- _. split; simpl.
  - rewrite !length_app, repeat_length. lia.
  - rewrite !Forall_app. split_and!; [done| |done]. apply Forall_forall. intros x Hx%list_elem_of_In%repeat_spec. lia.
Qed.

(** ** The non-public ranges *)

(** Masking the low bits of a [w]-bit number away. *)
Lemma mask_width n w k :
  (n < 2 ^ w)%N -> (0 < k <= w)%N ->
  N.land n (N.shiftl (N.ones w) (w - k) mod 2 ^ w) = (n / 2 ^ (w - k) * 2 ^ (w - k))%N.
Proof.
  intros Hn Hk. rewrite <- N.shiftr_div_pow2, <- N.shiftl_mul_pow2. apply N.bits_inj. intros i.
  rewrite N.land_spec.
  assert (forall j, (w <= j)%N -> N.testbit n j = false) as Hhi.
  { intros j Hj. destruct (N.eq_dec n 0%N) as [->|Hn0]; [apply N.bits_0|]. apply N.bits_above_log2.
    apply N.log2_lt_pow2; [lia|]. eapply N.lt_le_trans; [exact Hn|]. apply N.pow_le_mono_r; lia. }
  destruct (N.lt_ge_cases i w) as [Hi|Hi].
  - rewrite N.mod_pow2_bits_low by done. destruct (N.lt_ge_cases i (w - k)%N) as [Hlt|Hge].
    + by rewrite !N.shiftl_spec_low, andb_false_r by done.
    + rewrite !N.shiftl_spec_high', N.shiftr_spec' by done. rewrite N.ones_spec_low by lia.
      rewrite andb_true_r. f_equal. lia.
  - rewrite N.mod_pow2_bits_high by done. rewrite andb_false_r.
    rewrite N.shiftl_spec_high', N.shiftr_spec' by lia. symmetry. apply Hhi. lia.
Qed.

Lemma mask_spec n k :
  (n < 2 ^ 32)%N -> (0 < k <= 32)%N ->
  N.land n (N.shiftl 4294967295 (32 - k) mod 2 ^ 32) = (n / 2 ^ (32 - k) * 2 ^ (32 - k))%N.
Proof. change 4294967295%N with (N.ones 32). apply mask_width. Qed.

Lemma v4_to_u32_bound ip : v4_wf ip -> (v4_to_u32 ip < 2 ^ 32)%N.
Proof. unfold v4_wf, v4_to_u32. change (2 ^ 32)%N with 4294967296%N. lia. Qed.

(** A CIDR block is an interval. *)
Lemma cidr_spec ip base k :
  v4_wf ip -> v4_wf base -> (0 < k <= 32)%N -> (v4_to_u32 base mod 2 ^ (32 - k) = 0)%N ->
  ipv4_in_cidr ip base k =
  ((v4_to_u32 base <=? v4_to_u32 ip) && (v4_to_u32 ip <? v4_to_u32 base + 2 ^ (32 - k)))%N.
Proof.
  intros Hi Hb Hk Hm. unfold ipv4_in_cidr. destruct (N.eqb_spec k 0%N) as [|_]; [lia|].
  rewrite !mask_spec by (done || by apply v4_to_u32_bound).
  set (n := v4_to_u32 ip). set (b := v4_to_u32 base) in *. set (w := (2 ^ (32 - k))%N) in *.
  assert (0 < w)%N as Hw by (apply N.neq_0_lt_0, N.pow_nonzero; lia).
  pose proof (N.div_mod n w ltac:(lia)) as En. pose proof (N.mod_lt n w ltac:(lia)) as Ln.
  pose proof (N.div_mod b w ltac:(lia)) as Eb. rewrite Hm in Eb.
  apply eq_true_iff_eq. rewrite N.eqb_eq, andb_true_iff, N.leb_le, N.ltb_lt.
  clearbody n b w. set (q := (n / w)%N) in *. set (r := (n mod w)%N) in *. set (p := (b / w)%N) in *.
  clearbody q r p. split; [nia|]. intros [H1 H2]. assert (q = p) as ->; [nia|done].
Qed.

(** The special-purpose IPv4 blocks, as intervals of addresses. *)
Definition NON_PUBLIC_V4 : list (Ipv4Addr * Ipv4Addr) :=
  [(mkV4 0 0 0 0, mkV4 0 255 255 255); (mkV4 10 0 0 0, mkV4 10 255 255 255);
   (mkV4 100 64 0 0, mkV4 100 127 255 255); (mkV4 127 0 0 0, mkV4 127 255 255 255);
   (mkV4 169 254 0 0, mkV4 169 254 255 255); (mkV4 172 16 0 0, mkV4 172 31 255 255);
   (mkV4 192 0 0 0, mkV4 192 0 0 255); (mkV4 192 0 2 0, mkV4 192 0 2 255);
   (mkV4 192 168 0 0, mkV4 192 168 255 255); (mkV4 198 18 0 0, mkV4 198 19 255 255);
   (mkV4 198 51 100 0, mkV4 198 51 100 255); (mkV4 203 0 113 0, mkV4 203 0 113 255);
   (mkV4 224 0 0 0, mkV4 239 255 255 255); (mkV4 240 0 0 0, mkV4 255 255 255 255)].
Definition in_range (ip : Ipv4Addr) (r : Ipv4Addr * Ipv4Addr) : bool :=
  ((v4_to_u32 (fst r) <=? v4_to_u32 ip) && (v4_to_u32 ip <=? v4_to_u32 (snd r)))%N.

(** Reads and builds boolean combinations of comparisons. *)
Ltac read_bools :=
  repeat match goal with
    | H : _ || _ = true |- _ => apply orb_prop in H as [H|H]
    | H : _ && _ = true |- _ => apply andb_prop in H as [H ?]
    | H : (_ =? _)%N = true |- _ => apply N.eqb_eq in H
    | H : (_ <=? _)%N = true |- _ => apply N.leb_le in H
    | H : (_ <? _)%N = true |- _ => apply N.ltb_lt in H
    | H : false = true |- _ => discriminate H
    end.
Ltac pick_bool :=
  lazymatch goal with
  | |- _ || _ = true => apply orb_true_intro; first [left; pick_bool | right; pick_bool]
  | |- _ && _ = true => apply andb_true_intro; split; pick_bool
  | |- (_ =? _)%N = true => apply N.eqb_eq; lia
  | |- (_ <=? _)%N = true => apply N.leb_le; lia
  | |- (_ <? _)%N = true => apply N.ltb_lt; lia
  end.

Lemma non_public_v4_spec ip : v4_wf ip -> is_non_public_ipv4 ip = existsb (in_range ip) NON_PUBLIC_V4.
Proof.
  intros Hwf. unfold is_non_public_ipv4.
  rewrite !cidr_spec by (done || (unfold v4_wf; cbn; lia) || reflexivity).
  unfold v4_is_loopback, v4_is_private, v4_is_link_local, v4_is_unspecified, v4_is_multicast, v4_is_broadcast.
  unfold v4_wf in Hwf. unfold NON_PUBLIC_V4, in_range, existsb, v4_to_u32.
  cbn [o0 o1 o2 o3 fst snd]. change (2 ^ (32 - 8))%N with 16777216%N. change (2 ^ (32 - 10))%N with 4194304%N.
  change (2 ^ (32 - 24))%N with 256%N. change (2 ^ (32 - 15))%N with 131072%N. change (2 ^ (32 - 4))%N with 268435456%N.
  destruct ip as [a b c d]. cbn [o0 o1 o2 o3] in *.
  apply eq_true_iff_eq. split; intros H; read_bools; pick_bool.
Qed.

(** ** Public addresses *)

(** An address outside every special-purpose block; IPv6 addresses that hold an IPv4
    address are judged by it. *)
Definition public (ip : IpAddr) : Prop :=
  let public_v4 v4 := Forall (fun r => in_range v4 r = false) NON_PUBLIC_V4 in
  match ip with
  | V4 v4 => public_v4 v4
  | V6 v6 =>
      match to_ipv4 v6 with
      | Some v4 => public_v4 v4
      | None => let s := segment v6 0 in ~ (64512 <= s < 65024)%N /\ ~ (65152 <= s < 65216)%N /\ ~ (65280 <= s)%N
      end
  end.

Lemma public_v4_spec v4 :
  v4_wf v4 -> is_non_public_ipv4 v4 = false <-> Forall (fun r => in_range v4 r = false) NON_PUBLIC_V4.
Proof.
  intros Hwf. rewrite non_public_v4_spec by done. generalize NON_PUBLIC_V4. intros l.
  induction l as [|r l IH]; simpl; [by split|]. rewrite orb_false_iff, Forall_cons, IH. done.
Qed.

Lemma segment_bound v6 i : v6_wf v6 -> (segment v6 i < 65536)%N.
Proof.
  intros [_ Hf]. unfold segment. destruct (nth_in_or_default i (segments v6) 0%N) as [Hin|E]; [|rewrite E; lia].
  rewrite Forall_forall in Hf. apply Hf. by apply list_elem_of_In.
Qed.

Lemma to_ipv4_wf v6 v4 : v6_wf v6 -> to_ipv4 v6 = Some v4 -> v4_wf v4.
Proof.
  intros [Hl Hf]. unfold to_ipv4. destruct (segments v6) as [|s0 [|s1 [|s2 [|s3 [|s4 [|s5 [|ab [|cd [|? ?]]]]]]]]]; try done.
  destruct (_ && _); [|done]. intros [= <-]. rewrite !Forall_cons in Hf. unfold v4_wf. cbn [o0 o1 o2 o3].
  assert (forall x, x < 65536 -> x / 256 < 256 /\ x mod 256 < 256)%N as Hx.
  { intros x Hx. split; [apply N.Div0.div_lt_upper_bound; lia|apply N.mod_lt; lia]. }
  destruct (Hx ab), (Hx cd); tauto.
Qed.

(** The test of the proxy is the membership in the special-purpose blocks. *)
Lemma non_public_spec ip : ip_wf ip -> is_non_public_ip ip = false <-> public ip.
Proof.
  destruct ip as [v4|v6]; simpl; intros Hwf; [by apply public_v4_spec|].
  unfold is_non_public_ipv6. destruct (to_ipv4 v6) as [v4|] eqn:E.
  - rewrite orb_false_iff, (public_v4_spec v4) by (by eapply to_ipv4_wf). split; [tauto|]. intros Hp. split; [done|].
    apply bool_decide_eq_false. intros E1. unfold to_ipv4 in E. rewrite E1 in E. injection E as <-.
    inversion Hp. done.
  - assert (v6_is_loopback v6 = false /\ v6_is_unspecified v6 = false) as [-> ->].
    { split; apply bool_decide_eq_false; intros E1; unfold to_ipv4 in E; by rewrite E1 in E. }
    pose proof (segment_bound v6 0 Hwf) as Hb. unfold v6_is_multicast, v6_is_unique_local, v6_is_unicast_link_local.
    set (s := segment v6 0) in *. rewrite N.shiftr_div_pow2.
    change (N.land s 65024) with (N.land s (N.shiftl (N.ones 16) (16 - 7) mod 2 ^ 16)).
    change (N.land s 65472) with (N.land s (N.shiftl (N.ones 16) (16 - 10) mod 2 ^ 16)).
    rewrite !mask_width by (done || lia). cbn [orb].
    rewrite !orb_false_iff, !N.eqb_neq. change (2 ^ 8)%N with 256%N. change (2 ^ (16 - 7))%N with 512%N.
    change (2 ^ (16 - 10))%N with 64%N.
    pose proof (N.div_mod s 256 ltac:(lia)). pose proof (N.mod_lt s 256 ltac:(lia)).
    pose proof (N.div_mod s 512 ltac:(lia)). pose proof (N.mod_lt s 512 ltac:(lia)).
    pose proof (N.div_mod s 64 ltac:(lia)). pose proof (N.mod_lt s 64 ltac:(lia)).
    generalize dependent (s / 256)%N. generalize dependent (s / 512)%N. generalize dependent (s / 64)%N.
    generalize dependent (s mod 256)%N. generalize dependent (s mod 512)%N. generalize dependent (s mod 64)%N.
    clearbody s. intros. split; [|lia]. intros [[? ?] ?]. split_and!; lia.
Qed.
End Ip.
