(* ===== verification/NetworkPolicy.v ===== *)
(** The host policy of the network proxy ([network-proxy/src/policy.rs]): the normal form
    of hosts, local addresses, patterns of domains and the sets they compile to.  The glob
    compiler and the host parser of the [url] crate are classes of their own, with what the
    policy relies on as laws. *)
From S2P Require Import Prelude IpAddr.

Module NetPolicy.
Import Ip.

Definition colon : char := ch ":".
Definition dot : char := ch ".".
Definition star : char := ch "*".

(** ** Hosts *)

Definition is_ip (s : str) : bool := match parse_ip s with Some _ => true | None => false end.

(** [split_once(delimiter)] with an address before the delimiter. *)
Definition split_scope (delimiter host : str) : option (str * str) :=
  '(ip, scope) ← Str.split_once_str delimiter host;
  if is_ip ip then Some (ip, scope) else None.
Definition normalize_ip_literal (host : str) : option str :=
  if is_ip host then Some host
  else
    match split_scope $"%25" host with
    | Some (ip, scope) => Some (ip ++ $"%" ++ scope)
    | None =>
        match split_scope $"%" host with
        | Some (ip, scope) => Some (ip ++ $"%" ++ scope)
        | None => None
        end
    end.
Definition normalize_dns_host_or_ip_literal (host : str) : str :=
  let host := Str.to_ascii_lowercase host in
  let host := Str.trim_end_by (N.eqb dot) host in
  match normalize_ip_literal host with Some ip => ip | None => host end.
Definition count_char (c : char) (s : str) : nat := length (List.filter (N.eqb c) s).
Definition normalize_host (host : str) : str :=
  let host := Str.trim host in
  match (if Str.starts_with $"[" host then Str.find $"]" host else None) with
  | Some fin => normalize_dns_host_or_ip_literal (drop 1 (take fin host))
  | None =>
      if count_char colon host =? 1 then
        normalize_dns_host_or_ip_literal (default [] (head (Str.split colon host)))
      else normalize_dns_host_or_ip_literal host
  end.

(** A [Host] is the text it wraps. *)
Inductive HostError := HostIsEmpty.
Definition host_parse (input : str) : result HostError str :=
  let normalized := normalize_host input in
  if Str.is_empty normalized then Err HostIsEmpty else Ok normalized.

Definition unscoped_ip_literal (host : str) : option str :=
  '(ip, _) ← Str.split_once (ch "%") host;
  if is_ip ip then Some ip else None.
Definition is_loopback_host (host : str) : bool :=
  let host := default host (unscoped_ip_literal host) in
  if bool_decide (host = $"localhost") then true
  else match parse_ip host with Some ip => is_loopback ip | None => false end.

(** ** Patterns *)

Definition normalize_pattern (pattern : str) : str :=
  let pattern := Str.trim pattern in
  if bool_decide (pattern = $"*") then $"*"
  else
    let '(prefix, remainder) :=
      match Str.strip_prefix $"**." pattern with
      | Some domain => ($"**.", domain)
      | None =>
          match Str.strip_prefix $"*." pattern with
          | Some domain => ($"*.", domain)
          | None => ([], pattern)
          end
      end in
    let remainder := normalize_host remainder in
    if Str.is_empty prefix then remainder else prefix ++ remainder.

Inductive DomainPattern :=
| ApexAndSubdomains (domain : str)
| SubdomainsOnly (domain : str)
| Exact (domain : str).

Definition parse_domain (domain : str) (build : str -> DomainPattern) : DomainPattern :=
  let domain := Str.trim domain in
  if Str.is_empty domain then Exact [] else build domain.
Definition pattern_parse (input : str) : DomainPattern :=
  let input := Str.trim input in
  if Str.is_empty input then Exact []
  else
    match Str.strip_prefix $"**." input with
    | Some domain => parse_domain domain ApexAndSubdomains
    | None =>
        match Str.strip_prefix $"*." input with
        | Some domain => parse_domain domain SubdomainsOnly
        | None => Exact input
        end
    end.
Definition expand_domain_pattern (pattern : str) : list str :=
  match pattern_parse pattern with
  | Exact domain => [domain]
  | SubdomainsOnly domain => [$"?*." ++ domain]
  | ApexAndSubdomains domain => [domain; $"?*." ++ domain]
  end.
Definition is_global_wildcard_domain_pattern (pattern : str) : bool :=
  existsb (fun candidate => bool_decide (candidate = $"*")) (expand_domain_pattern (normalize_pattern pattern)).

Definition normalize_domain (domain : str) : str :=
  Str.to_ascii_lowercase (Str.trim_end_by (N.eqb dot) domain).
Definition domain_eq (l r : str) : bool := bool_decide (normalize_domain l = normalize_domain r).
Definition is_subdomain_or_equal (child parent : str) : bool :=
  let child := normalize_domain child in
  let parent := normalize_domain parent in
  if bool_decide (child = parent) then true else Str.ends_with (dot :: parent) child.
Definition is_strict_subdomain (child parent : str) : bool :=
  let child := normalize_domain child in
  let parent := normalize_domain parent in
  negb (bool_decide (child = parent)) && Str.ends_with (dot :: parent) child.
Definition allows (p candidate : DomainPattern) : bool :=
  match p with
  | Exact domain => match candidate with Exact c => domain_eq c domain | _ => false end
  | SubdomainsOnly domain =>
      match candidate with
      | Exact c => is_strict_subdomain c domain
      | SubdomainsOnly c => is_subdomain_or_equal c domain
      | ApexAndSubdomains c => is_strict_subdomain c domain
      end
  | ApexAndSubdomains domain =>
      match candidate with
      | Exact c | SubdomainsOnly c | ApexAndSubdomains c => is_subdomain_or_equal c domain
      end
  end.

(** ** The crates the policy uses *)

(** The [url] crate: [Host::parse(..)] printed. *)
Class UrlHost := url_host_parse : str -> option str.
(** The [globset] crate: a case-insensitive glob, and whether a set of globs compiles. *)
Class GlobEngine := {
  build_glob : str -> option (str -> bool);
  globset_builds : list str -> bool;
}.

Section compiled.
Context `{UrlHost, GlobEngine}.

Definition parse_domain_for_constraints (domain : str) : str :=
  let domain := Str.trim_end_by (N.eqb dot) (Str.trim domain) in
  if Str.is_empty domain then []
  else
    let host :=
      if Str.starts_with $"[" domain && Str.ends_with $"]" domain
      then drop 1 (take (length domain - 1) domain) else domain in
    if Str.contains_char star host || Str.contains_char (ch "?") host || Str.contains_char (ch "%") host
    then domain
    else default [] (url_host_parse host).
Definition parse_for_constraints (input : str) : DomainPattern :=
  let input := Str.trim input in
  if Str.is_empty input then Exact []
  else
    match Str.strip_prefix $"**." input with
    | Some domain => ApexAndSubdomains (parse_domain_for_constraints domain)
    | None =>
        match Str.strip_prefix $"*." input with
        | Some domain => SubdomainsOnly (parse_domain_for_constraints domain)
        | None => Exact (parse_domain_for_constraints input)
        end
    end.

(** A compiled set is the list of its globs. *)
Definition GlobSet := list str.
Definition is_match (set : GlobSet) (host : str) : bool :=
  existsb (fun p => match build_glob p with Some m => m host | None => false end) set.

Inductive GlobalWildcard := Allow | Reject.
Inductive CompileError :=
| UnsupportedGlobalWildcard
| InvalidGlob (candidate : str)
| SetTooLarge.

Fixpoint add_candidates (set : GlobSet) (candidates : list str) : result CompileError GlobSet :=
  match candidates with
  | [] => Ok set
  | c :: candidates =>
      if bool_decide (c ∈ set) then add_candidates set candidates
      else
        match build_glob c with
        | Some _ => add_candidates (set ++ [c]) candidates
        | None => Err (InvalidGlob c)
        end
  end.
Fixpoint add_patterns (global_wildcard : GlobalWildcard) (set : GlobSet) (patterns : list str)
    : result CompileError GlobSet :=
  match patterns with
  | [] => Ok set
  | pattern :: patterns =>
      if match global_wildcard with Reject => is_global_wildcard_domain_pattern pattern | Allow => false end
      then Err UnsupportedGlobalWildcard
      else
        set ← add_candidates set (expand_domain_pattern (normalize_pattern pattern));
        add_patterns global_wildcard set patterns
  end.
Definition compile_globset_with_policy (patterns : list str) (global_wildcard : GlobalWildcard)
    : result CompileError GlobSet :=
  set ← add_patterns global_wildcard [] patterns;
  if globset_builds set then Ok set else Err SetTooLarge.
Definition compile_allowlist_globset (patterns : list str) : result CompileError GlobSet :=
  compile_globset_with_policy patterns Allow.
Definition compile_denylist_globset (patterns : list str) : result CompileError GlobSet :=
  compile_globset_with_policy patterns Reject.
End compiled.

(** ** What the policy relies on *)

Definition is_ascii (s : str) : Prop := Forall (fun c => c < 128)%N s.
Definition is_alpha (c : char) : bool := (((97 <=? c) && (c <=? 122)) || ((65 <=? c) && (c <=? 90)))%N.
Definition is_host_char (c : char) : bool :=
  is_alpha c || Str.is_ascii_digit c || (c =? ch "-")%N || (c =? dot)%N.
(** Host names: letters, digits, hyphens and dots, the last label starting with a letter and
    none being encoded. *)
Definition host_name (d : str) : Prop :=
  Forall (fun c => is_host_char c = true) d /\ head d <> Some dot /\
  (exists a c b, d = a ++ c :: b /\ is_alpha c = true /\ (dot ∉ b) /\ (a = [] \/ last a = Some dot)) /\
  Str.contains $"xn--" (Str.to_ascii_lowercase d) = false.
(** Text without characters that are special in globs. *)
Definition glob_plain (p : str) : Prop := is_ascii p /\ Forall (fun c => c ∉ $"?*[]{},!\") p.

(** A host name is its own host, in lower case. *)
Class UrlLaws `{UrlHost} :=
  url_host_name : forall d, host_name d -> url_host_parse d = Some (Str.to_ascii_lowercase d).
(** A plain glob matches itself; [?*.] before it stands for at least one character and a
    dot.  Case is ignored. *)
Class GlobLaws `{GlobEngine} := {
  glob_literal p : glob_plain p ->
    exists m, build_glob p = Some m /\
      forall h, is_ascii h -> (m h = true <-> Str.to_ascii_lowercase h = Str.to_ascii_lowercase p);
  glob_subdomain p : glob_plain p ->
    exists m, build_glob ($"?*." ++ p) = Some m /\
      forall h, is_ascii h ->
        (m h = true <-> exists c w, Str.to_ascii_lowercase h = (c :: w) ++ dot :: Str.to_ascii_lowercase p);
}.

(** ** Host names are in normal form *)

Lemma lower_idemp s : Str.to_ascii_lowercase (Str.to_ascii_lowercase s) = Str.to_ascii_lowercase s.
Proof.
  unfold Str.to_ascii_lowercase. rewrite map_map. apply map_ext. intros c.
  unfold Str.char_to_ascii_lowercase. destruct ((65 <=? c) && (c <=? 90))%N eqn:E; [|by rewrite E].
  destruct ((65 <=? c + 32) && (c + 32 <=? 90))%N eqn:E'; [|done]. exfalso.
  apply andb_prop in E as [?%N.leb_le ?%N.leb_le]. apply andb_prop in E' as [?%N.leb_le ?%N.leb_le]. lia.
Qed.

Lemma lower_app a b :
  Str.to_ascii_lowercase (a ++ b) = Str.to_ascii_lowercase a ++ Str.to_ascii_lowercase b.
Proof. apply map_app. Qed.

(** The characters of a host name, also in lower case. *)
Definition host_text (d : str) : Prop := Forall (fun c => is_host_char c = true) d.

Lemma host_char_cases c :
  is_host_char c = true ->
  ((97 <= c <= 122) \/ (65 <= c <= 90) \/ (48 <= c <= 57) \/ c = 45 \/ c = 46)%N.
Proof.
  unfold is_host_char, is_alpha, Str.is_ascii_digit. change (ch "-") with 45%N. change dot with 46%N.
  intros H. repeat (apply orb_prop in H as [H|H]); try apply andb_prop in H as [?%N.leb_le ?%N.leb_le];
    try apply N.eqb_eq in H; lia.
Qed.

Lemma lower_host_char c : is_host_char c = true -> is_host_char (Str.char_to_ascii_lowercase c) = true.
Proof.
  unfold Str.char_to_ascii_lowercase. destruct ((65 <=? c) && (c <=? 90))%N eqn:E; [|done]. intros _.
  apply andb_prop in E as [?%N.leb_le ?%N.leb_le]. unfold is_host_char, is_alpha.
  replace (97 <=? c + 32)%N with true by (symmetry; apply N.leb_le; lia).
  by replace (c + 32 <=? 122)%N with true by (symmetry; apply N.leb_le; lia).
Qed.

Lemma lower_host_text d : host_text d -> host_text (Str.to_ascii_lowercase d).
Proof. intros H. induction H as [|c d Hc _ IH]; constructor; [by apply lower_host_char|done]. Qed.

Lemma not_in_host_text c d : host_text d -> is_host_char c = false -> c ∉ d.
Proof. intros Hd Hc Hin. unfold host_text in Hd. rewrite Forall_forall in Hd. apply Hd in Hin. congruence. Qed.

Lemma host_text_plain d : host_text d -> glob_plain d.
Proof.
  intros H. split; [|]; induction H as [|c d Hc _ IH]; constructor; try done; apply host_char_cases in Hc.
  - lia.
  - let l := eval vm_compute in ($"?*[]{},!\") in change ($"?*[]{},!\") with l.
    rewrite !not_elem_of_cons. split_and!; (lia || apply not_elem_of_nil).
Qed.

Lemma host_char_not_space c : is_host_char c = true -> Str.is_whitespace c = false.
Proof.
  intros Hc%host_char_cases. unfold Str.is_whitespace.
  repeat match goal with |- context [(?a <=? ?b)%N] => destruct (N.leb_spec a b)
    | |- context [(?a =? ?b)%N] => destruct (N.eqb_spec a b) end; try done; lia.
Qed.

Lemma trim_ends s :
  (forall c, head s = Some c \/ last s = Some c -> Str.is_whitespace c = false) -> Str.trim s = s.
Proof.
  intros H. destruct s as [|c s]; [done|]. rewrite Str.trim_cons_keep, <- Str.trim_end_cons_keep by auto.
  destruct (exists_last (l := c :: s)) as (r & x & E); [done|]. rewrite E in *.
  apply Str.trim_end_by_snoc_keep, H. right. apply last_snoc.
Qed.

Lemma trim_host_text d : host_text d -> Str.trim d = d.
Proof.
  intros H. apply trim_ends. intros c Hc. apply host_char_not_space.
  unfold host_text in H. rewrite Forall_forall in H. apply H.
  destruct Hc as [Hc|Hc]; [destruct d; [done|injection Hc as ->; by left]|by apply last_Some_elem_of].
Qed.

Lemma host_name_text d : host_name d -> host_text d.
Proof. by intros []. Qed.

Lemma host_name_last d : host_name d -> exists r x, d = r ++ [x] /\ x <> dot.
Proof.
  intros (_ & _ & (a & c & b & -> & Hc & Hb & _) & _).
  destruct (exists_last (l := c :: b)) as (r & x & E); [done|]. exists (a ++ r), x.
  rewrite E, app_assoc. split; [done|]. intros ->.
  destruct r as [|y r]; [injection E as ->; done|]. apply Hb. injection E as _ ->.
  apply elem_of_app. right. by apply list_elem_of_singleton.
Qed.

(** Taking dots off the end of a name in lower case changes nothing. *)
Lemma trim_dots_name d : host_name d -> Str.trim_end_by (N.eqb dot) (Str.to_ascii_lowercase d) = Str.to_ascii_lowercase d.
Proof.
  intros Hd. destruct (host_name_last d Hd) as (r & x & -> & Hx). rewrite lower_app. simpl.
  apply Str.trim_end_by_snoc_keep. apply N.eqb_neq. intros E. apply Hx.
  unfold Str.char_to_ascii_lowercase in E. destruct ((65 <=? x) && (x <=? 90))%N eqn:Ec; [|done].
  apply andb_prop in Ec as [?%N.leb_le ?%N.leb_le]. change dot with 46%N in E. lia.
Qed.

Lemma trim_dots_name' d : host_name d -> Str.trim_end_by (N.eqb dot) d = d.
Proof.
  intros Hd. destruct (host_name_last d Hd) as (r & x & -> & Hx).
  apply Str.trim_end_by_snoc_keep. apply N.eqb_neq. congruence.
Qed.

Lemma host_name_cons d : host_name d -> exists c d', d = c :: d' /\ c <> dot /\ is_host_char c = true.
Proof.
  intros Hd. destruct (host_name_last d Hd) as (r & x & E & _). destruct d as [|c d]; [by destruct r|].
  exists c, d. destruct Hd as (Ht & Hh & _). split_and!; [done|simpl in Hh; congruence|by inversion Ht].
Qed.

Lemma split_once_str_None c needle s : c ∉ s -> Str.split_once_str (c :: needle) s = None.
Proof.
  intros Hc. unfold Str.split_once_str. destruct (Str.find (c :: needle) s) as [i|] eqn:E; [|done]. exfalso.
  apply Str.find_Some in E as [Hp _]. apply Hc. destruct Hp as [k Hk]. rewrite <- (take_drop i s).
  apply elem_of_app. right. rewrite Hk. by left.
Qed.

Lemma starts_with_head c d s : is_host_char d = true -> is_host_char c = false -> Str.starts_with [c] (d :: s) = false.
Proof.
  intros Hd Hc. apply Str.starts_with_false. intros [k [= -> _]]. congruence.
Qed.

(** A host name is normalised to lower case. *)
Lemma normalize_host_name d : host_name d -> normalize_host d = Str.to_ascii_lowercase d.
Proof.
  intros Hd. pose proof (host_name_text d Hd) as Ht. unfold normalize_host. rewrite trim_host_text by done.
  destruct (host_name_cons d Hd) as (c & d' & Ed & _ & Hc).
  assert (Str.starts_with $"[" d = false) as -> by (rewrite Ed; by apply starts_with_head).
  assert (count_char colon d = 0) as ->.
  { unfold count_char. assert (colon ∉ d) as Hcol by (by apply not_in_host_text).
    clear -Hcol. induction d as [|x d IH]; [done|]. apply not_elem_of_cons in Hcol as [H1 H2].
    cbn [List.filter]. destruct (N.eqb_spec colon x); [done|by apply IH]. }
  cbn [Nat.eqb]. unfold normalize_dns_host_or_ip_literal. rewrite trim_dots_name by done.
  unfold normalize_ip_literal. destruct (is_ip _); [done|].
  assert (ch "%" ∉ Str.to_ascii_lowercase d) as Hp by (by apply not_in_host_text; [apply lower_host_text|]).
  unfold split_scope. change ($"%25") with (ch "%" :: $"25"). change ($"%") with [ch "%"].
  rewrite !(split_once_str_None (ch "%")) by done. done.
Qed.

(** ** Scoped host names *)

(** The three forms of an entry. *)
Inductive Scope := ExactHost | Subdomains | ApexToo.
Definition scope_prefix (k : Scope) : str :=
  match k with ExactHost => [] | Subdomains => $"*." | ApexToo => $"**." end.
Definition scope_pattern (k : Scope) : str -> DomainPattern :=
  match k with ExactHost => Exact | Subdomains => SubdomainsOnly | ApexToo => ApexAndSubdomains end.
Definition entry (k : Scope) (d : str) : str := scope_prefix k ++ d.
(** The hosts an entry stands for. *)
Definition stands_for (k : Scope) (d h : str) : Prop :=
  let d := Str.to_ascii_lowercase d in
  let h := Str.to_ascii_lowercase h in
  match k with
  | ExactHost => h = d
  | Subdomains => exists c w, h = (c :: w) ++ dot :: d
  | ApexToo => h = d \/ exists c w, h = (c :: w) ++ dot :: d
  end.

Lemma trim_entry k d : host_text d -> d <> [] -> Str.trim (entry k d) = entry k d.
Proof.
  intros Hd Hne. destruct k; [by apply trim_host_text|..]; apply trim_ends; intros c [Hc|Hc];
    try (injection Hc as <-; done); unfold entry in Hc; rewrite last_app in Hc;
    destruct (last d) as [x|] eqn:E; try (by apply last_None in E); injection Hc as ->;
    apply host_char_not_space; unfold host_text in Hd; rewrite Forall_forall in Hd;
    by apply Hd, last_Some_elem_of.
Qed.

(** How the prefix of an entry is read. *)
Lemma strip_entry k d :
  host_name d ->
  Str.strip_prefix $"**." (entry k d) = (match k with ApexToo => Some d | _ => None end) /\
  (k <> ApexToo -> Str.strip_prefix $"*." (entry k d) = match k with Subdomains => Some d | _ => None end) /\
  Str.is_empty (entry k d) = false.
Proof.
  intros Hd. destruct (host_name_cons d Hd) as (c & d' & -> & _ & Hc).
  assert (forall p, Str.strip_prefix (star :: p) (c :: d') = None) as Hs.
  { intros p. destruct (Str.strip_prefix _ _) eqn:E; [|done]. apply Str.strip_prefix_Some in E as [= -> _]. done. }
  destruct k; split_and!; try done; intros; apply Hs.
Qed.

Lemma normalize_entry k d : host_name d -> normalize_pattern (entry k d) = entry k (Str.to_ascii_lowercase d).
Proof.
  intros Hd. pose proof (host_name_text d Hd) as Ht. destruct (host_name_cons d Hd) as (c & d' & Ed & _ & Hc).
  unfold normalize_pattern. rewrite trim_entry by (done || by rewrite Ed).
  case_bool_decide as E. { exfalso. rewrite Ed in E. destruct k; try done. injection E as -> _. done. }
  destruct (strip_entry k d Hd) as (-> & H2 & _).
  destruct k; rewrite ?H2 by done; cbn [Str.is_empty]; rewrite normalize_host_name by done; done.
Qed.

Lemma lower_host_name_facts d :
  host_name d -> host_text (Str.to_ascii_lowercase d) /\ Str.to_ascii_lowercase d <> [] /\
  (forall p, Str.strip_prefix (star :: p) (Str.to_ascii_lowercase d) = None).
Proof.
  intros Hd. split; [by apply lower_host_text, host_name_text|].
  destruct (host_name_cons d Hd) as (c & d' & -> & _ & Hc%lower_host_char). split; [done|].
  intros p. destruct (Str.strip_prefix _ _) eqn:E; [|done]. apply Str.strip_prefix_Some in E as [= E' _].
  rewrite E' in Hc. done.
Qed.

Lemma pattern_entry k d :
  host_name d -> pattern_parse (entry k (Str.to_ascii_lowercase d)) = scope_pattern k (Str.to_ascii_lowercase d).
Proof.
  intros Hd. destruct (lower_host_name_facts d Hd) as (Ht & Hne & Hs). unfold pattern_parse.
  rewrite trim_entry by done. destruct (Str.is_empty (entry _ _)) eqn:E.
  { exfalso. apply Str.is_empty_spec in E. destruct k; try done. }
  unfold parse_domain. destruct k; unfold entry; cbn [scope_prefix app].
  - change ($"**.") with (star :: $"*."). change ($"*.") with (star :: $".") at 2. rewrite !Hs. done.
  - rewrite Str.strip_prefix_app.
    assert (Str.strip_prefix $"**." ($"*." ++ Str.to_ascii_lowercase d) = None) as -> by done.
    rewrite trim_host_text by done. by destruct (Str.to_ascii_lowercase d).
  - rewrite Str.strip_prefix_app, trim_host_text by done. by destruct (Str.to_ascii_lowercase d).
Qed.

Section laws.
Context `{UrlLaws, GlobLaws}.

Lemma constraint_entry k d :
  host_name d -> parse_for_constraints (entry k d) = scope_pattern k (Str.to_ascii_lowercase d).
Proof.
  intros Hd. pose proof (host_name_text d Hd) as Ht. destruct (host_name_cons d Hd) as (c & d' & Ed & _ & Hc).
  assert (parse_domain_for_constraints d = Str.to_ascii_lowercase d) as Hp.
  { unfold parse_domain_for_constraints. rewrite trim_host_text, trim_dots_name' by done.
    destruct (Str.is_empty d) eqn:Ee; [by rewrite Ed in Ee|].
    assert (Str.starts_with $"[" d = false) as -> by (rewrite Ed; by apply starts_with_head).
    cbn [andb]. assert (forall x, is_host_char x = false -> Str.contains_char x d = false) as Hno.
    { intros x Hx. apply not_true_iff_false. unfold Str.contains_char. rewrite existsb_exists.
      intros (y & Hy%list_elem_of_In & <-%N.eqb_eq). by apply (not_in_host_text x d Ht Hx). }
    rewrite !Hno by done. cbn [orb]. by rewrite url_host_name. }
  unfold parse_for_constraints. rewrite trim_entry by (done || by rewrite Ed).
  destruct (strip_entry k d Hd) as (-> & Hst & ->). destruct k; rewrite ?Hst by done; cbn [entry scope_prefix app];
    by rewrite ?Hp.
Qed.

(** What the globs of an entry match. *)
Lemma entry_matches k d h :
  host_name d -> is_ascii h ->
  existsb (fun p => match build_glob p with Some m => m h | None => false end)
    (expand_domain_pattern (normalize_pattern (entry k d))) = true <-> stands_for k d h.
Proof.
  intros Hd Hh. rewrite normalize_entry by done. unfold expand_domain_pattern. rewrite pattern_entry by done.
  set (l := Str.to_ascii_lowercase d). assert (glob_plain l) as Hl by (by apply host_text_plain, lower_host_text, host_name_text).
  destruct (glob_literal l Hl) as (m1 & E1 & Hm1). destruct (glob_subdomain l Hl) as (m2 & E2 & Hm2).
  specialize (Hm1 h Hh). specialize (Hm2 h Hh). unfold l in Hm1, Hm2. rewrite lower_idemp in Hm1, Hm2. fold l in Hm1, Hm2.
  unfold stands_for. destruct k; cbn [scope_pattern existsb]; rewrite ?E1, ?E2, ?orb_false_r; fold l; [done..|].
  by rewrite orb_true_iff, Hm1, Hm2.
Qed.
End laws.

(** ** Patterns that allow patterns *)

Lemma normalize_domain_name d : host_name d -> normalize_domain (Str.to_ascii_lowercase d) = Str.to_ascii_lowercase d.
Proof. intros Hd. unfold normalize_domain. rewrite trim_dots_name by done. apply lower_idemp. Qed.

(** An entry that another allows stands for no further host. *)
Lemma allows_sound k d k' d' h :
  host_name d -> host_name d' ->
  allows (scope_pattern k' (Str.to_ascii_lowercase d')) (scope_pattern k (Str.to_ascii_lowercase d)) = true ->
  stands_for k d h -> stands_for k' d' h.
Proof.
  intros Hd Hd' Ha Hs. unfold stands_for in *.
  destruct (host_name_cons d Hd) as (c & t & Ed & Hc & _).
  assert (exists c' t', Str.to_ascii_lowercase d = c' :: t' /\ c' <> dot) as (c' & t' & El & Hc').
  { rewrite Ed. eexists _, _. split; [reflexivity|]. unfold Str.char_to_ascii_lowercase.
    destruct ((65 <=? c) && (c <=? 90))%N eqn:E; [|done]. apply andb_prop in E as [?%N.leb_le ?%N.leb_le].
    change dot with 46%N. lia. }
  set (l := Str.to_ascii_lowercase d) in *. set (l' := Str.to_ascii_lowercase d') in *.
  set (hh := Str.to_ascii_lowercase h) in *.
  assert (Str.ends_with (dot :: l') l = true -> exists x, l = (c' :: x) ++ dot :: l') as Hsub.
  { intros [x Hx]%Str.ends_with_spec. rewrite El in Hx |- *. destruct x as [|y x]; [by injection Hx as ->|].
    injection Hx as <- Hx. exists x. by rewrite Hx. }
  assert (normalize_domain l = l) as Nl by (by apply normalize_domain_name).
  assert (normalize_domain l' = l') as Nl' by (by apply normalize_domain_name).
  assert (l = l' \/ exists x, l = (c' :: x) ++ dot :: l') as Hrel.
  { destruct k, k'; cbn [scope_pattern allows] in Ha; try done;
      unfold domain_eq, is_strict_subdomain, is_subdomain_or_equal in Ha; rewrite Nl, Nl' in Ha;
      case_bool_decide; auto; cbn [negb andb] in Ha; try done; auto. }
  assert (k' = ExactHost -> k = ExactHost /\ l = l') as He.
  { intros ->. destruct k; cbn [scope_pattern allows] in Ha; try done. unfold domain_eq in Ha. rewrite Nl, Nl' in Ha.
    by case_bool_decide. }
  assert (k' = Subdomains -> l = l' -> k = Subdomains) as Hstrict.
  { intros -> E. destruct k; cbn [scope_pattern allows] in Ha; try done; unfold is_strict_subdomain in Ha;
      rewrite Nl, Nl', bool_decide_true in Ha by done; done. }
  destruct Hrel as [E|[x E]].
  - rewrite <- E. destruct k'; [destruct (He eq_refl) as [-> _]; done|by rewrite (Hstrict eq_refl E) in Hs|].
    destruct k; [by left|by right|done].
  - assert (exists a w, hh = (a :: w) ++ dot :: l') as Hm.
    { destruct k; cbn in Hs.
      - exists c', x. by rewrite Hs.
      - destruct Hs as (a & w & ->). exists a, (w ++ dot :: c' :: x). rewrite E. simpl. by rewrite <- app_assoc.
      - destruct Hs as [->|(a & w & ->)]; [by exists c', x|].
        exists a, (w ++ dot :: c' :: x). rewrite E. simpl. by rewrite <- app_assoc. }
    destruct k'; [|done|by right]. destruct (He eq_refl) as [-> El']. exfalso.
    rewrite El' in E. apply (f_equal length) in E. rewrite length_app in E. simpl in E. lia.
Qed.

(** ** Compiled sets *)

Section sets.
Context `{GlobEngine}.

Lemma add_candidates_spec cs set set' :
  add_candidates set cs = Ok set' -> forall c, c ∈ set' <-> c ∈ set \/ c ∈ cs.
Proof.
  revert set. induction cs as [|x cs IH]; intros set; simpl.
  { intros [= ->] c. split; [by left|]. intros [?|?%not_elem_of_nil]; done. }
  case_bool_decide as Hx.
  - intros E c. rewrite (IH _ E), elem_of_cons. split; [tauto|]. intros [?|[->|?]]; auto.
  - destruct (build_glob x); [|done]. intros E c.
    rewrite (IH _ E), elem_of_app, list_elem_of_singleton, elem_of_cons. tauto.
Qed.

Lemma add_patterns_spec gw ps set set' :
  add_patterns gw set ps = Ok set' ->
  forall c, c ∈ set' <-> c ∈ set \/ exists p, p ∈ ps /\ c ∈ expand_domain_pattern (normalize_pattern p).
Proof.
  revert set. induction ps as [|p ps IH]; intros set; simpl.
  { intros [= ->] c. split; [by left|]. intros [?|(p & ?%not_elem_of_nil & _)]; done. }
  destruct (match gw with Allow => _ | Reject => _ end); [done|].
  intros (set1 & E1 & E2)%bind_Ok c. rewrite (IH _ E2), (add_candidates_spec _ _ _ E1).
  setoid_rewrite elem_of_cons. split; [intros [[?|?]|(q & ? & ?)]; eauto|].
  intros [?|(q & [->|?] & ?)]; eauto.
Qed.

(** A host is in the set when a glob of one of the patterns matches it. *)
Lemma compiled_is_match ps gw set h :
  compile_globset_with_policy ps gw = Ok set ->
  is_match set h = true <->
  exists p, p ∈ ps /\
    existsb (fun g => match build_glob g with Some m => m h | None => false end)
      (expand_domain_pattern (normalize_pattern p)) = true.
Proof.
  unfold compile_globset_with_policy. intros (set1 & E & Hs)%bind_Ok.
  destruct (globset_builds set1); [|done]. injection Hs as ->.
  pose proof (add_patterns_spec _ _ _ _ E) as Hset. unfold is_match. rewrite existsb_exists. split.
  - intros (g & [Hn|(p & Hp & Hg)]%list_elem_of_In%Hset & Hm); [by apply not_elem_of_nil in Hn|].
    exists p. split; [done|]. apply existsb_exists. exists g. split; [by apply list_elem_of_In|done].
  - intros (p & Hp & (g & Hg & Hm)%existsb_exists). exists g. split; [|done].
    apply list_elem_of_In, Hset. right. exists p. split; [done|by apply list_elem_of_In].
Qed.
End sets.

(** Entries allowed by managed ones match nothing the managed ones do not match. *)
Lemma allowed_entries_sound `{UrlLaws, GlobLaws} entries managed cs ms h :
  Forall (fun e => exists k d, e = entry k d /\ host_name d) entries ->
  Forall (fun e => exists k d, e = entry k d /\ host_name d) managed ->
  Forall (fun e => exists m, m ∈ managed /\ allows (parse_for_constraints m) (parse_for_constraints e) = true) entries ->
  compile_allowlist_globset entries = Ok cs -> compile_allowlist_globset managed = Ok ms ->
  is_ascii h -> is_match cs h = true -> is_match ms h = true.
Proof.
  intros Hes Hms Hal Hcs Hcm Hh (p & Hp & Hmatch)%(compiled_is_match _ _ _ h Hcs).
  apply (compiled_is_match _ _ _ h Hcm). rewrite Forall_forall in Hes, Hms, Hal.
  destruct (Hes p Hp) as (k & d & -> & Hd). destruct (Hal _ Hp) as (m & Hm & Ha).
  destruct (Hms m Hm) as (k' & d' & -> & Hd'). exists (entry k' d'). split; [done|].
  rewrite !constraint_entry in Ha by done. apply entry_matches in Hmatch; [|done..].
  apply entry_matches; [done..|]. by apply (allows_sound k d).
Qed.

(** ** A small glob engine *)

Module Small.
(** [?] is any character, [*] any text, other characters are themselves. *)
Fixpoint glob_match (p : str) : str -> bool :=
  match p with
  | [] => Str.is_empty
  | c :: p' =>
      if (c =? star)%N then
        fix go (h : str) : bool :=
          glob_match p' h || match h with [] => false | _ :: h' => go h' end
      else fun h => match h with [] => false | x :: h' => ((c =? ch "?") || (c =? x))%N && glob_match p' h' end
  end.
#[global] Instance glob : GlobEngine := {
  build_glob p :=
    if existsb (fun c => bool_decide (c ∈ $"[]{}\")) p then None
    else Some (fun h => glob_match (Str.to_ascii_lowercase p) (Str.to_ascii_lowercase h));
  globset_builds _ := true;
}.
#[global] Instance url : UrlHost :=
  fun d => if forallb is_host_char d then Some (Str.to_ascii_lowercase d) else None.

Lemma match_plain p h : glob_plain p -> glob_match p h = true <-> h = p.
Proof.
  intros [_ Hp]. revert h. induction Hp as [|c p Hc _ IH]; intros h.
  { simpl. by rewrite Str.is_empty_spec. }
  assert (c <> star /\ c <> ch "?") as [H1 H2].
  { split; intros ->; apply Hc; apply list_elem_of_In; vm_compute; tauto. }
  simpl. rewrite (proj2 (N.eqb_neq c star) H1). destruct h as [|x h]; [done|].
  rewrite (proj2 (N.eqb_neq c (ch "?")) H2). cbn [orb]. rewrite andb_true_iff, N.eqb_eq, IH.
  split; [by intros [-> ->]|by intros [= -> ->]].
Qed.

Lemma lower_plain p : glob_plain p -> glob_plain (Str.to_ascii_lowercase p).
Proof.
  intros [Ha Hp]. split; [induction Ha as [|c p Hc _ IH]|induction Hp as [|c p Hc _ IH]]; constructor; try by apply IH;
    try (by inversion Hp); try (by inversion Ha).
  - unfold Str.char_to_ascii_lowercase. destruct (_ && _) eqn:E; [|done]. apply andb_prop in E as [?%N.leb_le ?%N.leb_le]. lia.
  - unfold Str.char_to_ascii_lowercase. destruct (_ && _) eqn:E; [|done]. apply andb_prop in E as [?%N.leb_le ?%N.leb_le].
    let l := eval vm_compute in ($"?*[]{},!\") in change ($"?*[]{},!\") with l in *.
    rewrite !not_elem_of_cons in *. split_and!; (lia || apply not_elem_of_nil || idtac).
Qed.

Lemma match_star p h : glob_match (star :: p) h = true <-> exists a b, h = a ++ b /\ glob_match p b = true.
Proof.
  change (glob_match (star :: p)) with
    (fix go (h : str) : bool := glob_match p h || match h with [] => false | _ :: h' => go h' end).
  induction h as [|x h IH]; rewrite orb_true_iff.
  - split; [intros [Hm|?]; [by exists [], []|done]|]. intros ([|] & b & E & Hm); [|done]. left. by rewrite E.
  - rewrite IH. split.
    + intros [Hm|(a & b & -> & Hm)]; [by exists [], (x :: h)|by exists (x :: a), b].
    + intros ([|y a] & b & E & Hm); [left; by rewrite E|]. injection E as -> ->. right. eauto.
Qed.

Lemma plain_builds p : glob_plain p -> existsb (fun c => bool_decide (c ∈ $"[]{}\")) p = false.
Proof.
  intros [_ Hp]. apply not_true_iff_false. intros (c & Hc%list_elem_of_In & Hb%bool_decide_eq_true)%existsb_exists.
  rewrite Forall_forall in Hp. apply (Hp c Hc). apply list_elem_of_In in Hb. apply list_elem_of_In.
  vm_compute in Hb |- *. tauto.
Qed.

#[global] Instance glob_laws : GlobLaws.
Proof.
  split; intros p Hp; pose proof (lower_plain p Hp) as Hl; unfold build_glob, glob.
  - rewrite plain_builds by done. eexists. split; [reflexivity|]. intros h _. by apply match_plain.
  - assert (existsb (fun c => bool_decide (c ∈ $"[]{}\")) ($"?*." ++ p) = false) as ->
      by (rewrite existsb_app, (plain_builds p Hp), orb_false_r; vm_compute; reflexivity).
    eexists. split; [reflexivity|]. intros h _. rewrite lower_app.
    change (Str.to_ascii_lowercase $"?*.") with (ch "?" :: star :: [dot]).
    generalize (Str.to_ascii_lowercase h). intros [|c s]; [split; [done|intros (? & ? & ?); done]|].
    change (glob_match (star :: dot :: Str.to_ascii_lowercase p) s = true <-> exists c' w, c :: s = (c' :: w) ++ dot :: Str.to_ascii_lowercase p).
    rewrite match_star. split.
    + intros (a & [|x b] & -> & Hm); [done|].
      assert (x = dot /\ b = Str.to_ascii_lowercase p) as [-> ->]; [|by exists c, a].
      apply andb_prop in Hm as [Hx Hm]. apply match_plain in Hm; [|done]. split; [|done].
      by apply N.eqb_eq in Hx.
    + intros (c' & w & [= -> ->]). exists w, (dot :: Str.to_ascii_lowercase p). split; [done|].
      apply andb_true_intro. split; [done|by apply match_plain].
Qed.

#[global] Instance url_laws : UrlLaws.
Proof.
  intros d Hd%host_name_text. unfold url_host_parse, url.
  replace (forallb is_host_char d) with true; [done|]. symmetry. apply forallb_forall.
  intros c Hc%list_elem_of_In. unfold host_text in Hd. rewrite Forall_forall in Hd. by apply Hd.
Qed.
End Small.
End NetPolicy.
