(* ===== verification/MitmHooks.v ===== *)
(** Hooks on intercepted HTTPS requests ([network-proxy/src/mitm_hook.rs], and
    [apply_mitm_hook_actions] of [mitm.rs]): their validation, their compilation with the
    secrets they inject, and which hook a request matches.  The message texts of errors are
    left out; an error is the check that fails and what it fails on. *)
From S2P Require Import Prelude Paths IpAddr NetworkPolicy.
From stdpp Require Import gmap.

Module Mitm.
Import NetPolicy.

(** ** Configuration *)

Record InjectedHeaderConfig := mkInjected {
  header_config_name : str;
  secret_env_var : option str;
  secret_file : option str;
  header_prefix : option str;
}.
Record MitmHookActionsConfig := mkActionsConfig {
  config_strip_request_headers : list str;
  config_inject_request_headers : list InjectedHeaderConfig;
}.
(** A [serde_json::Value], as its text. *)
Record MitmHookBodyConfig := mkBody { body_json : str }.
(** A [BTreeMap] is the list of its entries in the order of the keys. *)
Record MitmHookMatchConfig := mkMatchConfig {
  config_methods : list str;
  config_path_prefixes : list str;
  config_query : list (str * list str);
  config_headers : list (str * list str);
  config_body : option MitmHookBodyConfig;
}.
Record MitmHookConfig := mkHookConfig {
  config_host : str;
  config_matcher : MitmHookMatchConfig;
  config_actions : MitmHookActionsConfig;
}.
#[global] Instance injected_config_eq_dec : EqDecision InjectedHeaderConfig.
Proof. solve_decision. Defined.
#[global] Instance actions_config_eq_dec : EqDecision MitmHookActionsConfig.
Proof. solve_decision. Defined.
#[global] Instance body_config_eq_dec : EqDecision MitmHookBodyConfig.
Proof. solve_decision. Defined.
#[global] Instance match_config_eq_dec : EqDecision MitmHookMatchConfig.
Proof. solve_decision. Defined.
#[global] Instance hook_config_eq_dec : EqDecision MitmHookConfig.
Proof. solve_decision. Defined.

(** ** Compiled hooks *)

(** A compiled glob is its pattern and whether [/] must match itself. *)
Inductive PathMatcher := PathPrefix (prefix : str) | PathGlob (pattern : str).
Inductive ValueMatcher := ValueExact (value : str) | ValueGlob (pattern : str).
Record QueryConstraint := mkQuery { query_name : str; query_allowed_values : list ValueMatcher }.
Record HeaderConstraint := mkHeader { constraint_name : str; header_allowed_values : list ValueMatcher }.
Inductive SecretSource := EnvVar (name : str) | SecretFile (path : str).
Record ResolvedInjectedHeader := mkResolved {
  injected_name : str;
  injected_value : str;
  injected_source : SecretSource;
}.
Record MitmHookActions := mkActions {
  strip_request_headers : list str;
  inject_request_headers : list ResolvedInjectedHeader;
}.
Record MitmHookMatcher := mkMatcher {
  methods : list str;
  path_prefixes : list PathMatcher;
  query : list QueryConstraint;
  headers : list HeaderConstraint;
}.
Record MitmHook := mkHook { hook_host : str; matcher : MitmHookMatcher; actions : MitmHookActions }.
Abbreviation MitmHooksByHost := (gmap str (list MitmHook)).
Inductive HookEvaluation :=
| NoHooksForHost
| Matched (actions : MitmHookActions)
| HookedHostNoMatch.

(** A request, as far as hooks look at it; header names are in lower case. *)
Record Request := mkRequest {
  method : str;
  path : str;
  query_string : option str;
  request_headers : list (str * str);
}.

(** ** Errors *)

Inductive HookFieldError :=
| HostMustNotBeEmpty
| HostHasWildcard
| EmptyMethod
| NoMethods
| EmptyPathPrefix
| EmptyGlob
| InvalidHookGlob (pattern : str)
| NoPathPrefixes
| BodyUnsupported
| EmptyQueryKey
| NoQueryValues (name : str)
| InvalidHeaderName (name : str)
| EmptySecretEnvVar
| EmptySecretFile
| SecretFileNotAbsolute (path : str)
| NotExactlyOneSecret
| MissingEnvVar (name : str)
| SecretFileUnreadable (path : str)
| InvalidHeaderValue (name : str).
Inductive HookError :=
| HooksRequireMitm
| InvalidHook (hook_index : nat) (e : HookFieldError)
| HookNotCompiled (e : HookFieldError).

(** ** The crates and the system *)

Class HttpCrates := {
  (** [HeaderName::from_bytes], which gives the name in lower case. *)
  header_name_from_bytes : str -> option str;
  (** [HeaderValue::from_str] accepts the text. *)
  header_value_from_str : str -> option str;
  (** [HeaderValue::to_str]. *)
  header_value_to_str : str -> option str;
  (** [form_urlencoded::parse]. *)
  form_urlencoded_parse : str -> list (str * str);
  (** A case-sensitive glob; the flag is [literal_separator]. *)
  build_hook_glob : bool -> str -> option (str -> bool);
}.
Class SecretEnv := {
  secret_home_dir : option str;
  secret_current_dir : result Io.Error str;
  env_var : str -> option str;
  read_to_string : str -> option str;
}.

Section hooks.
Context `{HttpCrates, SecretEnv}.

(** ** Matchers *)

Definition PATTERN_PREFIX : str := $"pattern:".
Definition LITERAL_PREFIX : str := $"literal:".
Inductive MatcherPattern := PatternLiteral (s : str) | PatternGlob (s : str).

Definition parse_matcher_pattern (pattern : str) : result HookFieldError MatcherPattern :=
  match Str.strip_prefix LITERAL_PREFIX pattern with
  | Some literal => Ok (PatternLiteral literal)
  | None =>
      match Str.strip_prefix PATTERN_PREFIX pattern with
      | None => Ok (PatternLiteral pattern)
      | Some glob_pattern =>
          if Str.is_empty glob_pattern then Err EmptyGlob else Ok (PatternGlob glob_pattern)
      end
  end.
Definition compile_glob_matcher (pattern : str) (literal_separator : bool) : result HookFieldError str :=
  match build_hook_glob literal_separator pattern with
  | Some _ => Ok pattern
  | None => Err (InvalidHookGlob pattern)
  end.
Definition compile_path_matcher (prefix : str) : result HookFieldError PathMatcher :=
  p ← parse_matcher_pattern prefix;
  match p with
  | PatternLiteral prefix => if Str.is_empty prefix then Err EmptyPathPrefix else Ok (PathPrefix prefix)
  | PatternGlob glob_pattern => g ← compile_glob_matcher glob_pattern true; Ok (PathGlob g)
  end.
Definition compile_path_matchers (path_prefixes : list str) : result HookFieldError (list PathMatcher) :=
  try_map compile_path_matcher path_prefixes.
Definition compile_value_matcher (value : str) : result HookFieldError ValueMatcher :=
  p ← parse_matcher_pattern value;
  match p with
  | PatternLiteral value => Ok (ValueExact value)
  | PatternGlob glob_pattern => g ← compile_glob_matcher glob_pattern false; Ok (ValueGlob g)
  end.
Definition compile_value_matchers (values : list str) : result HookFieldError (list ValueMatcher) :=
  try_map compile_value_matcher values.

Definition glob_is_match (literal_separator : bool) (pattern candidate : str) : bool :=
  match build_hook_glob literal_separator pattern with Some m => m candidate | None => false end.
Definition path_matcher_matches (m : PathMatcher) (candidate : str) : bool :=
  match m with
  | PathPrefix prefix => Str.starts_with prefix candidate
  | PathGlob g => glob_is_match true g candidate
  end.
Definition value_matcher_matches (m : ValueMatcher) (candidate : str) : bool :=
  match m with
  | ValueExact value => bool_decide (value = candidate)
  | ValueGlob g => glob_is_match false g candidate
  end.

(** ** Validation *)

Definition normalize_hook_host (host : str) : result HookFieldError str :=
  let normalized := normalize_host host in
  if Str.is_empty normalized then Err HostMustNotBeEmpty
  else if Str.contains_char star normalized then Err HostHasWildcard
  else Ok normalized.
Definition char_to_ascii_uppercase (c : char) : char :=
  (if (97 <=? c) && (c <=? 122) then c - 32 else c)%N.
Definition to_ascii_uppercase (s : str) : str := map char_to_ascii_uppercase s.
Definition normalize_methods (methods : list str) : result HookFieldError (list str) :=
  try_map (fun method =>
    let normalized := to_ascii_uppercase (Str.trim method) in
    if Str.is_empty normalized then Err EmptyMethod else Ok normalized) methods.
Definition normalize_query_name (name : str) : result HookFieldError str :=
  if Str.is_empty name then Err EmptyQueryKey else Ok name.
Definition parse_header_name (name : str) : result HookFieldError str :=
  ok_or (header_name_from_bytes name) (InvalidHeaderName name).
Definition parse_secret_file (path : str) : result HookFieldError str :=
  if Str.is_empty (Str.trim path) then Err EmptySecretFile
  else if negb (Path.is_absolute path) then Err (SecretFileNotAbsolute path)
  else map_err (fun _ => SecretFileNotAbsolute path) (Path.from_absolute_path secret_home_dir secret_current_dir path).

(** A loop that stops at the first error. *)
Definition try_for_each {A E} (f : A -> result E unit) (l : list A) : result E unit :=
  _ ← try_map f l; Ok tt.
Definition validate_query_constraints (query : list (str * list str)) : result HookFieldError unit :=
  try_for_each (fun '(name, values) =>
    normalized ← normalize_query_name name;
    if Str.is_empty normalized then Err EmptyQueryKey
    else
      match values with
      | [] => Err (NoQueryValues name)
      | _ => _ ← compile_value_matchers values; Ok tt
      end) query.
Definition validate_header_constraints (headers : list (str * list str)) : result HookFieldError unit :=
  try_for_each (fun '(name, values) =>
    _ ← parse_header_name name; _ ← compile_value_matchers values; Ok tt) headers.
Definition validate_strip_request_headers (header_names : list str) : result HookFieldError unit :=
  try_for_each (fun name => _ ← parse_header_name name; Ok tt) header_names.
Definition validate_injected_headers (headers : list InjectedHeaderConfig) : result HookFieldError unit :=
  try_for_each (fun header =>
    _ ← parse_header_name (header_config_name header);
    match secret_env_var header, secret_file header with
    | Some secret_env_var, None =>
        if Str.is_empty (Str.trim secret_env_var) then Err EmptySecretEnvVar else Ok tt
    | None, Some secret_file => _ ← parse_secret_file secret_file; Ok tt
    | _, _ => Err NotExactlyOneSecret
    end) headers.

Definition validate_hook (hook : MitmHookConfig) : result HookFieldError unit :=
  let m := config_matcher hook in
  let a := config_actions hook in
  host ← normalize_hook_host (config_host hook);
  methods ← normalize_methods (config_methods m);
  match methods with
  | [] => Err NoMethods
  | _ =>
      path_prefixes ← compile_path_matchers (config_path_prefixes m);
      match path_prefixes with
      | [] => Err NoPathPrefixes
      | _ =>
          match config_body m with
          | Some _ => Err BodyUnsupported
          | None =>
              _ ← validate_query_constraints (config_query m);
              _ ← validate_header_constraints (config_headers m);
              _ ← validate_strip_request_headers (config_strip_request_headers a);
              _ ← validate_injected_headers (config_inject_request_headers a);
              if Str.is_empty host then Err HostMustNotBeEmpty else Ok tt
          end
      end
  end.
Fixpoint validate_hooks (hook_index : nat) (hooks : list MitmHookConfig) : result HookError unit :=
  match hooks with
  | [] => Ok tt
  | hook :: hooks =>
      _ ← map_err (InvalidHook hook_index) (validate_hook hook);
      validate_hooks (S hook_index) hooks
  end.
(** Of the configuration, the flag [mitm] and the hooks. *)
Definition validate_mitm_hook_config (mitm : bool) (hooks : list MitmHookConfig) : result HookError unit :=
  match hooks with
  | [] => Ok tt
  | _ => if negb mitm then Err HooksRequireMitm else validate_hooks 0 hooks
  end.

(** ** Compilation *)

Definition compile_injected_header (header : InjectedHeaderConfig) : result HookFieldError ResolvedInjectedHeader :=
  name ← parse_header_name (header_config_name header);
  '(secret, source) ←
    match secret_env_var header, secret_file header with
    | Some var, None =>
        value ← ok_or (env_var var) (MissingEnvVar var); Ok (value, EnvVar var)
    | None, Some file =>
        path ← parse_secret_file file;
        value ← ok_or (read_to_string path) (SecretFileUnreadable path);
        Ok (Str.trim value, SecretFile path)
    | _, _ => Err NotExactlyOneSecret
    end;
  value ← ok_or (header_value_from_str (default [] (header_prefix header) ++ secret))
            (InvalidHeaderValue (header_config_name header));
  Ok (mkResolved name value source).

Definition compile_hook (hook : MitmHookConfig) : result HookFieldError MitmHook :=
  let m := config_matcher hook in
  let a := config_actions hook in
  host ← normalize_hook_host (config_host hook);
  methods ← normalize_methods (config_methods m);
  path_prefixes ← compile_path_matchers (config_path_prefixes m);
  query ← try_map (fun '(name, values) =>
    name ← normalize_query_name name; values ← compile_value_matchers values;
    Ok (mkQuery name values)) (config_query m);
  headers ← try_map (fun '(name, values) =>
    name ← parse_header_name name; values ← compile_value_matchers values;
    Ok (mkHeader name values)) (config_headers m);
  strip ← try_map parse_header_name (config_strip_request_headers a);
  inject ← try_map compile_injected_header (config_inject_request_headers a);
  Ok (mkHook host (mkMatcher methods path_prefixes query headers) (mkActions strip inject)).
Fixpoint add_hooks (by_host : MitmHooksByHost) (hooks : list MitmHookConfig) : result HookError MitmHooksByHost :=
  match hooks with
  | [] => Ok by_host
  | config :: hooks =>
      hook ← map_err HookNotCompiled (compile_hook config);
      add_hooks (<[hook_host hook := default [] (by_host !! hook_host hook) ++ [hook]]> by_host) hooks
  end.
Definition compile_mitm_hooks (mitm : bool) (hooks : list MitmHookConfig) : result HookError MitmHooksByHost :=
  _ ← validate_mitm_hook_config mitm hooks; add_hooks ∅ hooks.

(** ** Matching *)

Definition path_matches (path_prefixes : list PathMatcher) (path : str) : bool :=
  existsb (fun m => path_matcher_matches m path) path_prefixes.
Definition query_matches (constraints : list QueryConstraint) (req : Request) : bool :=
  let actual := form_urlencoded_parse (default [] (query_string req)) in
  forallb (fun c =>
    existsb (fun '(name, candidate) =>
      bool_decide (name = query_name c) &&
      existsb (fun allowed => value_matcher_matches allowed candidate) (query_allowed_values c)) actual)
    constraints.
Definition get_all (name : str) (hs : list (str * str)) : list str :=
  map snd (List.filter (fun h => bool_decide (fst h = name)) hs).
Definition headers_match (constraints : list HeaderConstraint) (req : Request) : bool :=
  forallb (fun c =>
    match get_all (constraint_name c) (request_headers req) with
    | [] => false
    | actual =>
        match header_allowed_values c with
        | [] => true
        | allowed_values =>
            existsb (fun value =>
              match header_value_to_str value with
              | Some candidate => existsb (fun allowed => value_matcher_matches allowed candidate) allowed_values
              | None => false
              end) actual
        end
    end) constraints.
Definition hook_matches (hook : MitmHook) (req : Request) : bool :=
  let m := matcher hook in
  if negb (existsb (fun allowed => bool_decide (allowed = to_ascii_uppercase (method req))) (methods m)) then false
  else if negb (path_matches (path_prefixes m) (path req)) then false
  else if negb (query_matches (query m) req) then false
  else headers_match (headers m) req.

Fixpoint first_match (hooks : list MitmHook) (req : Request) : option MitmHook :=
  match hooks with
  | [] => None
  | hook :: hooks => if hook_matches hook req then Some hook else first_match hooks req
  end.
Definition evaluate_mitm_hooks (hooks_by_host : MitmHooksByHost) (host : str) (req : Request) : HookEvaluation :=
  match hooks_by_host !! normalize_host host with
  | None => NoHooksForHost
  | Some hooks =>
      match first_match hooks req with
      | Some hook => Matched (actions hook)
      | None => HookedHostNoMatch
      end
  end.

(** mitm.rs.  [HeaderMap::insert] replaces every value of the name; the order between
    different names does not matter. *)
Definition remove_header (name : str) (hs : list (str * str)) : list (str * str) :=
  List.filter (fun h => negb (bool_decide (fst h = name))) hs.
Definition insert_header (name value : str) (hs : list (str * str)) : list (str * str) :=
  remove_header name hs ++ [(name, value)].
Definition apply_mitm_hook_actions (hs : list (str * str)) (acts : option MitmHookActions) : list (str * str) :=
  match acts with
  | None => hs
  | Some acts =>
      fold_left (fun hs h => insert_header (injected_name h) (injected_value h) hs) (inject_request_headers acts)
        (fold_left (fun hs name => remove_header name hs) (strip_request_headers acts) hs)
  end.
End hooks.
End Mitm.
