(* ===== verification/NetworkConfig.v ===== *)
(** The configuration of the network proxy: its settings and the addresses it binds
    ([network-proxy/src/config.rs]), the constraints of a managed configuration and the
    state built from both ([network-proxy/src/state.rs]).  The texts of constraint errors
    are left out but for the name of the field. *)
From S2P Require Import Prelude Paths IpAddr NetworkPolicy MitmHooks.
From stdpp Require Import gmap.

Module NetConfig.
Import Ip NetPolicy Mitm.

(** ** Settings *)

Inductive NetworkDomainPermission := PermNone | PermAllow | PermDeny.
#[global] Instance domain_permission_eq_dec : EqDecision NetworkDomainPermission.
Proof. solve_decision. Defined.
(** The derived order, [None < Allow < Deny]. *)
Definition permission_rank (p : NetworkDomainPermission) : nat :=
  match p with PermNone => 0 | PermAllow => 1 | PermDeny => 2 end.
Record NetworkDomainPermissionEntry := mkEntry {
  pattern : str;
  permission : NetworkDomainPermission;
}.
#[global] Instance domain_entry_eq_dec : EqDecision NetworkDomainPermissionEntry.
Proof. solve_decision. Defined.
Abbreviation NetworkDomainPermissions := (list NetworkDomainPermissionEntry).

(** Every pattern once, where it first appears, with its highest permission. *)
Definition effective_permission (entries : NetworkDomainPermissions) (p : str) (first : NetworkDomainPermission)
    : NetworkDomainPermission :=
  fold_left (fun permission' e =>
    if bool_decide (pattern e = p) && (permission_rank permission' <? permission_rank (permission e))
    then permission e else permission') entries first.
Fixpoint effective_loop (seen : list str) (entries : NetworkDomainPermissions) : NetworkDomainPermissions :=
  match entries with
  | [] => []
  | e :: rest =>
      if bool_decide (pattern e ∈ seen) then effective_loop seen rest
      else mkEntry (pattern e) (effective_permission rest (pattern e) (permission e)) ::
           effective_loop (pattern e :: seen) rest
  end.
Definition effective_entries (entries : NetworkDomainPermissions) : NetworkDomainPermissions :=
  effective_loop [] entries.

Inductive NetworkUnixSocketPermission := SocketAllow | SocketDeny.
#[global] Instance socket_permission_eq_dec : EqDecision NetworkUnixSocketPermission.
Proof. solve_decision. Defined.
(** A [BTreeMap]: the list of its entries in the order of the keys. *)
Abbreviation NetworkUnixSocketPermissions := (list (str * NetworkUnixSocketPermission)).
Fixpoint btree_insert {V} (k : str) (v : V) (m : list (str * V)) : list (str * V) :=
  match m with
  | [] => [(k, v)]
  | (k', v') :: m' =>
      if bool_decide (k = k') then (k, v) :: m'
      else if str_ltb k k' then (k, v) :: m
      else (k', v') :: btree_insert k v m'
  end.

Inductive NetworkMode := Limited | Full.
#[global] Instance network_mode_eq_dec : EqDecision NetworkMode.
Proof. solve_decision. Defined.
Definition allows_method (mode : NetworkMode) (m : str) : bool :=
  match mode with
  | Full => true
  | Limited => bool_decide (m ∈ [$"GET"; $"HEAD"; $"OPTIONS"])
  end.

Record NetworkProxySettings := mkSettings {
  enabled : bool;
  proxy_url : str;
  enable_socks5 : bool;
  socks_url : str;
  enable_socks5_udp : bool;
  allow_upstream_proxy : bool;
  dangerously_allow_non_loopback_proxy : bool;
  dangerously_allow_all_unix_sockets : bool;
  mode : NetworkMode;
  domains : option NetworkDomainPermissions;
  unix_sockets : option NetworkUnixSocketPermissions;
  allow_local_binding : bool;
  mitm : bool;
  mitm_hooks : list MitmHookConfig;
}.
#[global] Instance settings_eq_dec : EqDecision NetworkProxySettings.
Proof. solve_decision. Defined.
Definition default_proxy_url : str := $"http://127.0.0.1:3128".
Definition default_socks_url : str := $"http://127.0.0.1:8081".
Definition settings_default : NetworkProxySettings :=
  mkSettings false default_proxy_url true default_socks_url true true false false Full None None false false [].
Definition set_mode (s : NetworkProxySettings) (m : NetworkMode) : NetworkProxySettings :=
  mkSettings (enabled s) (proxy_url s) (enable_socks5 s) (socks_url s) (enable_socks5_udp s)
    (allow_upstream_proxy s) (dangerously_allow_non_loopback_proxy s) (dangerously_allow_all_unix_sockets s) m
    (domains s) (unix_sockets s) (allow_local_binding s) (mitm s) (mitm_hooks s).
Definition set_domains (s : NetworkProxySettings) (d : option NetworkDomainPermissions) : NetworkProxySettings :=
  mkSettings (enabled s) (proxy_url s) (enable_socks5 s) (socks_url s) (enable_socks5_udp s)
    (allow_upstream_proxy s) (dangerously_allow_non_loopback_proxy s) (dangerously_allow_all_unix_sockets s) (mode s)
    d (unix_sockets s) (allow_local_binding s) (mitm s) (mitm_hooks s).
Definition set_unix_sockets (s : NetworkProxySettings) (u : option NetworkUnixSocketPermissions)
    : NetworkProxySettings :=
  mkSettings (enabled s) (proxy_url s) (enable_socks5 s) (socks_url s) (enable_socks5_udp s)
    (allow_upstream_proxy s) (dangerously_allow_non_loopback_proxy s) (dangerously_allow_all_unix_sockets s) (mode s)
    (domains s) u (allow_local_binding s) (mitm s) (mitm_hooks s).

Definition non_empty {A} (l : list A) : option (list A) := match l with [] => None | _ => Some l end.
Definition domain_entries (s : NetworkProxySettings) (p : NetworkDomainPermission) : option (list str) :=
  d ← domains s;
  non_empty (map pattern (List.filter (fun e => bool_decide (permission e = p)) (effective_entries d))).
Definition allowed_domains (s : NetworkProxySettings) : option (list str) := domain_entries s PermAllow.
Definition denied_domains (s : NetworkProxySettings) : option (list str) := domain_entries s PermDeny.
Definition allow_unix_sockets (s : NetworkProxySettings) : list str :=
  match unix_sockets s with
  | Some u => map fst (List.filter (fun e => bool_decide (snd e = SocketAllow)) u)
  | None => []
  end.
Definition upsert_domain_permission (s : NetworkProxySettings) (host : str) (p : NetworkDomainPermission)
    (normalize : str -> str) : NetworkProxySettings :=
  let entries := default [] (domains s) in
  let normalized_host := normalize host in
  let entries := List.filter (fun e => negb (bool_decide (normalize (pattern e) = normalized_host))) entries in
  set_domains s (non_empty (entries ++ [mkEntry host p])).
Definition set_domain_entries (s : NetworkProxySettings) (new : list str) (p : NetworkDomainPermission)
    : NetworkProxySettings :=
  let kept := List.filter (fun e => negb (bool_decide (permission e = p))) (default [] (domains s)) in
  set_domains s (non_empty (fold_left (fun entries e =>
    if bool_decide (mkEntry e p ∈ entries) then entries else entries ++ [mkEntry e p]) new kept)).
Definition set_allowed_domains (s : NetworkProxySettings) (l : list str) : NetworkProxySettings :=
  set_domain_entries s l PermAllow.
Definition set_denied_domains (s : NetworkProxySettings) (l : list str) : NetworkProxySettings :=
  set_domain_entries s l PermDeny.
Definition set_unix_socket_entries (s : NetworkProxySettings) (new : list str) (p : NetworkUnixSocketPermission)
    : NetworkProxySettings :=
  let kept := List.filter (fun e => negb (bool_decide (snd e = p))) (default [] (unix_sockets s)) in
  set_unix_sockets s (non_empty (fold_left (fun entries e => btree_insert e p entries) new kept)).
Definition set_allow_unix_sockets (s : NetworkProxySettings) (l : list str) : NetworkProxySettings :=
  set_unix_socket_entries s l SocketAllow.

(** ** Addresses to bind *)

Record SocketAddr := mkAddr { addr_ip : IpAddr; addr_port : N }.
Definition localhost_v4 : IpAddr := V4 (mkV4 127 0 0 1).
Definition clamp_non_loopback (addr : SocketAddr) (allow_non_loopback : bool) : SocketAddr :=
  if is_loopback (addr_ip addr) then addr
  else if allow_non_loopback then addr
  else mkAddr localhost_v4 (addr_port addr).
Definition clamp_bind_addrs (http_addr socks_addr : SocketAddr) (cfg : NetworkProxySettings)
    : SocketAddr * SocketAddr :=
  let http_addr := clamp_non_loopback http_addr (dangerously_allow_non_loopback_proxy cfg) in
  let socks_addr := clamp_non_loopback socks_addr (dangerously_allow_non_loopback_proxy cfg) in
  if (match allow_unix_sockets cfg with [] => true | _ => false end) && negb (dangerously_allow_all_unix_sockets cfg)
  then (http_addr, socks_addr)
  else (mkAddr localhost_v4 (addr_port http_addr), mkAddr localhost_v4 (addr_port socks_addr)).

(** On Unix every path that starts with a slash is native. *)
Inductive ValidatedUnixSocketPath := Native (path : str) | UnixStyleAbsolute (path : str).
Inductive SocketPathError := SocketPathNotNormalized | SocketPathNotAbsolute.
Definition validated_socket_path `{SecretEnv} (socket_path : str)
    : result SocketPathError ValidatedUnixSocketPath :=
  if Path.is_absolute socket_path then
    path ← map_err (fun _ => SocketPathNotNormalized)
      (Path.from_absolute_path secret_home_dir secret_current_dir socket_path);
    Ok (Native path)
  else if Str.starts_with $"/" socket_path then Ok (UnixStyleAbsolute socket_path)
  else Err SocketPathNotAbsolute.
Fixpoint validate_socket_paths `{SecretEnv} (index : nat) (paths : list str) : result (nat * SocketPathError) unit :=
  match paths with
  | [] => Ok tt
  | p :: paths => _ ← map_err (pair index) (validated_socket_path p); validate_socket_paths (S index) paths
  end.
Definition validate_unix_socket_allowlist_paths `{SecretEnv} (cfg : NetworkProxySettings)
    : result (nat * SocketPathError) unit :=
  validate_socket_paths 0 (allow_unix_sockets cfg).

(** [Url::parse]: the host, if any, and the port, if any. *)
Class UrlParse := url_parse : str -> option (option str * option N).
Record SocketAddressParts := mkParts { part_host : str; part_port : N }.
Inductive AddrError := MissingHost.

(** [str::parse::<u16>()]: an optional plus sign and decimal digits. *)
Definition parse_u16 (s : str) : option N :=
  let digits := match s with c :: s' => if (c =? ch "+")%N then s' else s | [] => [] end in
  if Str.is_empty digits then None
  else if negb (forallb Str.is_ascii_digit digits) then None
  else
    let n := fold_left (fun acc c => acc * 10 + (c - 48))%N digits 0%N in
    if (n <? 65536)%N then Some n else None.
Definition parse_host_port_fallback (input : str) (default_port : N) : result AddrError SocketAddressParts :=
  let without_scheme := match Str.split_once_str $"://" input with Some (_, rest) => rest | None => input end in
  let host_port := default without_scheme (head (Str.split (ch "/") without_scheme)) in
  let host_port := match Str.rsplit_once (ch "@") host_port with Some (_, rest) => rest | None => host_port end in
  match (if Str.starts_with $"[" host_port then Str.find $"]" host_port else None) with
  | Some fin =>
      let host := drop 1 (take fin host_port) in
      let port := default default_port (p ← Str.strip_prefix $":" (drop (fin + 1) host_port); parse_u16 p) in
      if Str.is_empty host then Err MissingHost else Ok (mkParts host port)
  | None =>
      match (if count_char colon host_port =? 1 then Str.rsplit_once colon host_port else None) with
      | Some (host, port) =>
          if Str.is_empty host then Err MissingHost
          else Ok (mkParts host (default default_port (parse_u16 port)))
      | None => if Str.is_empty host_port then Err MissingHost else Ok (mkParts host_port default_port)
      end
  end.
Definition is_bracket (c : char) : bool := (c =? ch "[")%N || (c =? ch "]")%N.
Definition parse_host_port `{UrlParse} (url : str) (default_port : N) : result AddrError SocketAddressParts :=
  let trimmed := Str.trim url in
  if Str.is_empty trimmed then Err MissingHost
  else
    match parse_ip trimmed with
    | Some (V6 _) =>
        (* The parser of addresses accepts no bracket. *)
        Ok (mkParts trimmed default_port)
    | _ =>
        let candidate := if Str.contains $"://" trimmed then trimmed else $"http://" ++ trimmed in
        match url_parse candidate with
        | Some (Some host, port) =>
            let host := Str.trim_end_by is_bracket (Str.trim_start_by is_bracket host) in
            if Str.is_empty host then Err MissingHost else Ok (mkParts host (default default_port port))
        | _ => parse_host_port_fallback trimmed default_port
        end
    end.
Definition resolve_addr `{UrlParse} (url : str) (default_port : N) : result AddrError SocketAddr :=
  addr_parts ← parse_host_port url default_port;
  let host := if Str.eq_ignore_ascii_case (part_host addr_parts) $"localhost" then $"127.0.0.1"
              else part_host addr_parts in
  match parse_ip host with
  | Some ip => Ok (mkAddr ip (part_port addr_parts))
  | None => Ok (mkAddr localhost_v4 (part_port addr_parts))
  end.
Definition format_host_and_port (host : str) (port : N) : str :=
  if Str.contains_char colon host then $"[" ++ host ++ $"]:" ++ Str.show_N port
  else host ++ $":" ++ Str.show_N port.
Definition host_and_port_from_network_addr `{UrlParse} (value : str) (default_port : N) : str :=
  let trimmed := Str.trim value in
  if Str.is_empty trimmed then $"<missing>"
  else
    match parse_host_port trimmed default_port with
    | Ok parts => format_host_and_port (part_host parts) (part_port parts)
    | Err _ => format_host_and_port trimmed default_port
    end.

Inductive RuntimeError :=
| InvalidSocketPath (e : nat * SocketPathError)
| InvalidProxyUrl (e : AddrError)
| InvalidSocksUrl (e : AddrError).
Record RuntimeConfig := mkRuntime { http_addr : SocketAddr; socks_addr : SocketAddr }.
Definition resolve_runtime `{UrlParse, SecretEnv} (cfg : NetworkProxySettings) : result RuntimeError RuntimeConfig :=
  _ ← map_err InvalidSocketPath (validate_unix_socket_allowlist_paths cfg);
  http ← map_err InvalidProxyUrl (resolve_addr (proxy_url cfg) 3128);
  socks ← map_err InvalidSocksUrl (resolve_addr (socks_url cfg) 8081);
  let '(http, socks) := clamp_bind_addrs http socks cfg in
  Ok (mkRuntime http socks).

(** ** The permission of a pattern *)

(** The highest permission a list gives to a pattern. *)
Fixpoint max_permission (p : str) (entries : NetworkDomainPermissions) : option NetworkDomainPermission :=
  match entries with
  | [] => None
  | e :: rest =>
      if bool_decide (pattern e = p) then Some (effective_permission rest p (permission e))
      else max_permission p rest
  end.

Lemma effective_loop_spec seen entries p q :
  mkEntry p q ∈ effective_loop seen entries <-> (p ∉ seen) /\ max_permission p entries = Some q.
Proof.
  revert seen. induction entries as [|e rest IH]; intros seen; simpl.
  { split; [intros ?%not_elem_of_nil; done|by intros [_ ?]]. }
  case_bool_decide as Hs; case_bool_decide as Hp.
  - rewrite IH. subst p. split; [by intros []|by intros []].
  - apply IH.
  - rewrite elem_of_cons, IH, elem_of_cons. subst p. split.
    + intros [[= ->]|[Hn _]]; [done|]. exfalso. apply Hn. by left.
    + intros [_ [= ->]]. by left.
  - rewrite elem_of_cons, IH, elem_of_cons. split.
    + intros [E|[Hn Hm]]; [by injection E as -> _|]. split; [|done]. intros Hin. apply Hn. by right.
    + intros [Hn Hm]. right. split; [|done]. intros [->|Hin]; done.
Qed.

Lemma domain_entries_spec s q p :
  p ∈ default [] (domain_entries s q) <-> max_permission p (default [] (domains s)) = Some q.
Proof.
  unfold domain_entries. destruct (domains s) as [d|]; cbn [default from_option id mbind option_bind].
  2: { split; [intros ?%not_elem_of_nil; done|done]. }
  transitivity (mkEntry p q ∈ effective_entries d).
  2: { unfold effective_entries. rewrite effective_loop_spec. split; [by intros []|]. intros Hm.
       split; [apply not_elem_of_nil|done]. }
  assert (forall l : list str, default [] (non_empty l) = l) as Hne by (by intros []). unfold id. rewrite Hne.
  rewrite list_elem_of_In, in_map_iff. split.
  - intros (e & <- & [He Hq]%filter_In). apply bool_decide_eq_true in Hq as <-. apply list_elem_of_In.
    by destruct e.
  - intros He%list_elem_of_In. exists (mkEntry p q). split; [done|]. apply filter_In. split; [done|].
    by apply bool_decide_eq_true.
Qed.

(** Entries of other patterns do not matter. *)
Lemma effective_permission_other f p l x acc :
  (forall e, pattern e = p -> f e = true) -> pattern x <> p ->
  effective_permission (List.filter f l ++ [x]) p acc = effective_permission l p acc.
Proof.
  intros Hf Hx. unfold effective_permission. rewrite fold_left_app. revert acc.
  induction l as [|e l IH]; intros acc; simpl.
  { by rewrite bool_decide_false by done. }
  destruct (f e) eqn:E; [apply IH|].
  rewrite (bool_decide_false (pattern e = p)); [apply IH|]. intros Hp. rewrite (Hf e Hp) in E. done.
Qed.

Lemma max_permission_other f p l x :
  (forall e, pattern e = p -> f e = true) -> pattern x <> p ->
  max_permission p (List.filter f l ++ [x]) = max_permission p l.
Proof.
  intros Hf Hx. induction l as [|e l IH]; simpl; [by rewrite bool_decide_false by done|].
  destruct (f e) eqn:E; simpl.
  - case_bool_decide; [by rewrite effective_permission_other|done].
  - rewrite IH. rewrite bool_decide_false; [done|]. intros Hp. rewrite (Hf e Hp) in E. done.
Qed.

Lemma max_permission_new p q l : Forall (fun e => pattern e <> p) l -> max_permission p (l ++ [mkEntry p q]) = Some q.
Proof.
  intros H. induction H as [|e l He _ IH]; simpl; [by rewrite bool_decide_true|]. by rewrite bool_decide_false.
Qed.

(** Giving a host a permission gives it to that pattern, takes every permission from the
    other patterns of the host, and leaves the rest. *)
Lemma upsert_spec s host q normalize p :
  normalize host = host ->
  max_permission p (default [] (domains (upsert_domain_permission s host q normalize))) =
  if bool_decide (p = host) then Some q
  else if bool_decide (normalize p = host) then None
  else max_permission p (default [] (domains s)).
Proof.
  intros Hn. unfold upsert_domain_permission. cbn [domains set_domains].
  assert (forall l : NetworkDomainPermissions, default [] (non_empty l) = l) as Hne by (by intros []). rewrite Hne, Hn.
  set (f := fun e => negb (bool_decide (normalize (pattern e) = host))).
  assert (Forall (fun e => normalize (pattern e) <> host) (List.filter f (default [] (domains s)))) as Hall.
  { apply Forall_forall. intros e [_ He]%list_elem_of_In%filter_In. unfold f in He.
    by apply negb_true_iff, bool_decide_eq_false in He. }
  case_bool_decide as Hp.
  - subst p. apply max_permission_new. eapply Forall_impl; [exact Hall|]. intros e He E. apply He. by rewrite E.
  - case_bool_decide as Hp'.
    + induction Hall as [|e l He _ IH]; simpl; [by rewrite bool_decide_false|].
      rewrite bool_decide_false; [done|]. intros E. apply He. by rewrite E.
    + apply max_permission_other; [|by intros E; apply Hp].
      intros e E. unfold f. by rewrite E, bool_decide_false.
Qed.
End NetConfig.
