(* ===== verification/NetworkConstraints.v ===== *)
(** Managed constraints on the network proxy ([network-proxy/src/state.rs]): the check of a
    configuration against them, and the state compiled from a configuration. *)
From S2P Require Import Prelude Paths IpAddr NetworkPolicy MitmHooks NetworkConfig.
From stdpp Require Import gmap.

Module NetState.
Import Ip NetPolicy Mitm NetConfig.

Record NetworkProxyConstraints := mkConstraints {
  max_enabled : option bool;
  max_mode : option NetworkMode;
  may_allow_upstream_proxy : option bool;
  may_allow_non_loopback_proxy : option bool;
  may_allow_all_unix_sockets : option bool;
  managed_allowed_domains : option (list str);
  allowlist_expansion_enabled : option bool;
  managed_denied_domains : option (list str);
  denylist_expansion_enabled : option bool;
  managed_allow_unix_sockets : option (list str);
  may_allow_local_binding : option bool;
}.
#[global] Instance constraints_eq_dec : EqDecision NetworkProxyConstraints.
Proof. solve_decision. Defined.
Definition constraints_default : NetworkProxyConstraints :=
  mkConstraints None None None None None None None None None None None.

(** The field a value of which is not allowed. *)
Inductive NetworkProxyConstraintError := InvalidValue (field_name : str).

Record BlockedRequest := mkBlocked {
  blocked_host : str;
  reason : str;
  client : option str;
  blocked_method : option str;
  blocked_mode : option NetworkMode;
  protocol : str;
  decision : option str;
  source : option str;
  blocked_port : option N;
  timestamp : Z;
}.
(** The interception state is only recorded as present. *)
Record ConfigState := mkState {
  config : NetworkProxySettings;
  allow_set : GlobSet;
  deny_set : GlobSet;
  mitm_state : bool;
  compiled_hooks : MitmHooksByHost;
  constraints : NetworkProxyConstraints;
  blocked : list BlockedRequest;
  blocked_total : N;
}.

(** ** Validation *)

Definition lower_set (l : list str) : gset str := list_to_set (map Str.to_ascii_lowercase l).
Definition allow_if (b : bool) (field_name : str) : result NetworkProxyConstraintError unit :=
  if b then Ok tt else Err (InvalidValue field_name).
Definition network_mode_rank (m : NetworkMode) : nat := match m with Limited => 0 | Full => 1 end.
Definition validate_non_global_wildcard_domain_patterns (field_name : str) (patterns : list str)
    : result NetworkProxyConstraintError unit :=
  allow_if (negb (existsb is_global_wildcard_domain_pattern patterns)) field_name.
(** A flag that a constraint may forbid. *)
Definition flag_within (candidate : bool) (limit : option bool) : bool :=
  match limit with Some false => negb candidate | _ => true end.

(** [MitmState::new]: whether the interception state can be set up. *)
Class MitmSetup := mitm_state_new : bool -> bool -> bool.

Section validation.
Context `{UrlHost, HttpCrates, SecretEnv}.

Definition validate_allowed_domains (cfg : NetworkProxySettings) (cs : NetworkProxyConstraints)
    : result NetworkProxyConstraintError unit :=
  let candidate := default [] (allowed_domains cfg) in
  let overrides := lower_set (default [] (denied_domains cfg)) in
  match managed_allowed_domains cs with
  | None => Ok tt
  | Some managed =>
      _ ← validate_non_global_wildcard_domain_patterns $"network.allowed_domains" managed;
      match allowlist_expansion_enabled cs with
      | Some true =>
          let missing := filter (fun e => (e ∉ lower_set candidate) /\ (e ∉ overrides)) (lower_set managed) in
          allow_if (bool_decide (missing = ∅)) $"network.allowed_domains"
      | Some false =>
          allow_if (bool_decide (lower_set candidate = lower_set managed ∖ overrides)) $"network.allowed_domains"
      | None =>
          let managed_patterns := map parse_for_constraints managed in
          let invalid :=
            List.filter (fun e => negb (existsb (fun m => allows m (parse_for_constraints e)) managed_patterns))
              candidate in
          allow_if (match invalid with [] => true | _ => false end) $"network.allowed_domains"
      end
  end.
Definition validate_denied_domains (cfg : NetworkProxySettings) (cs : NetworkProxyConstraints)
    : result NetworkProxyConstraintError unit :=
  let candidate := default [] (denied_domains cfg) in
  match managed_denied_domains cs with
  | None => Ok tt
  | Some managed =>
      _ ← validate_non_global_wildcard_domain_patterns $"network.denied_domains" managed;
      match denylist_expansion_enabled cs with
      | Some false => allow_if (bool_decide (lower_set candidate = lower_set managed)) $"network.denied_domains"
      | Some true | None =>
          let missing := filter (fun e => e ∉ lower_set candidate) (lower_set managed) in
          allow_if (bool_decide (missing = ∅)) $"network.denied_domains"
      end
  end.
Definition validate_unix_sockets (cfg : NetworkProxySettings) (cs : NetworkProxyConstraints)
    : result NetworkProxyConstraintError unit :=
  match managed_allow_unix_sockets cs with
  | None => Ok tt
  | Some managed =>
      let invalid :=
        List.filter (fun e => negb (bool_decide (Str.to_ascii_lowercase e ∈ lower_set managed)))
          (allow_unix_sockets cfg) in
      allow_if (match invalid with [] => true | _ => false end) $"network.allow_unix_sockets"
  end.

Definition validate_policy_against_constraints (cfg : NetworkProxySettings) (cs : NetworkProxyConstraints)
    : result NetworkProxyConstraintError unit :=
  _ ← map_err (fun _ => InvalidValue $"network.mitm_hooks") (validate_mitm_hook_config (mitm cfg) (mitm_hooks cfg));
  _ ← validate_non_global_wildcard_domain_patterns $"network.denied_domains" (default [] (denied_domains cfg));
  _ ← allow_if (flag_within (enabled cfg) (max_enabled cs)) $"network.enabled";
  _ ← allow_if (match max_mode cs with
                | Some m => network_mode_rank (mode cfg) <=? network_mode_rank m
                | None => true
                end) $"network.mode";
  _ ← allow_if (flag_within (allow_upstream_proxy cfg) (may_allow_upstream_proxy cs)) $"network.allow_upstream_proxy";
  _ ← allow_if (flag_within (dangerously_allow_non_loopback_proxy cfg) (may_allow_non_loopback_proxy cs))
        $"network.dangerously_allow_non_loopback_proxy";
  _ ← allow_if (flag_within (dangerously_allow_all_unix_sockets cfg)
                  (Some (default (match managed_allow_unix_sockets cs with None => true | _ => false end)
                           (may_allow_all_unix_sockets cs))))
        $"network.dangerously_allow_all_unix_sockets";
  _ ← allow_if (flag_within (allow_local_binding cfg) (may_allow_local_binding cs)) $"network.allow_local_binding";
  _ ← validate_allowed_domains cfg cs;
  _ ← validate_denied_domains cfg cs;
  validate_unix_sockets cfg cs.

(** ** The compiled state *)

Context `{GlobEngine, MitmSetup}.

Inductive BuildError :=
| BadSocketPath (e : nat * SocketPathError)
| BadConstraint (e : NetworkProxyConstraintError)
| BadGlobs (e : CompileError)
| BadHooks (e : HookError)
| MitmSetupFailed.
Definition build_config_state (cfg : NetworkProxySettings) (cs : NetworkProxyConstraints)
    : result BuildError ConfigState :=
  _ ← map_err BadSocketPath (validate_unix_socket_allowlist_paths cfg);
  let allowed := default [] (allowed_domains cfg) in
  let denied := default [] (denied_domains cfg) in
  _ ← map_err BadConstraint (validate_non_global_wildcard_domain_patterns $"network.denied_domains" denied);
  deny ← map_err BadGlobs (compile_denylist_globset denied);
  allow ← map_err BadGlobs (compile_allowlist_globset allowed);
  hooks ← map_err BadHooks (compile_mitm_hooks (mitm cfg) (mitm_hooks cfg));
  m ← (if mitm cfg
       then if mitm_state_new (allow_upstream_proxy cfg) (allow_local_binding cfg) then Ok true else Err MitmSetupFailed
       else Ok false);
  Ok (mkState cfg allow deny m hooks cs [] 0).
End validation.
End NetState.
