(* ===== verification/NetworkProxy.v ===== *)
(** The state of the network proxy ([network-proxy/src/runtime.rs]) and its decisions about
    hosts ([network-proxy/src/network_policy.rs]).  Every operation first asks the reloader
    for a newer configuration; its answers are an argument.  Operations that validate a
    snapshot and commit later are split where other tasks can run in between. *)
From S2P Require Import Prelude Paths PathOps IpAddr NetworkPolicy MitmHooks NetworkConfig NetworkConstraints.
From stdpp Require Import gmap.

Module Proxy.
Import Ip NetPolicy Mitm NetConfig NetState.

Definition MAX_BLOCKED_EVENTS : nat := 200.
Definition u64_max : N := 18446744073709551615%N.

(** ** Decisions *)

Inductive HostBlockReason := Denied | NotAllowed | NotAllowedLocal.
#[global] Instance block_reason_eq_dec : EqDecision HostBlockReason.
Proof. solve_decision. Defined.
Definition REASON_DENIED : str := $"denied".
Definition REASON_NOT_ALLOWED : str := $"not_allowed".
Definition REASON_NOT_ALLOWED_LOCAL : str := $"not_allowed_local".
Definition REASON_POLICY_DENIED : str := $"policy_denied".
Definition reason_as_str (r : HostBlockReason) : str :=
  match r with
  | Denied => REASON_DENIED
  | NotAllowed => REASON_NOT_ALLOWED
  | NotAllowedLocal => REASON_NOT_ALLOWED_LOCAL
  end.
Inductive HostBlockDecision := Allowed | Blocked (reason : HostBlockReason).
#[global] Instance block_decision_eq_dec : EqDecision HostBlockDecision.
Proof. solve_decision. Defined.

Inductive NetworkProtocol := Http | HttpsConnect | Socks5Tcp | Socks5Udp.
Definition as_policy_protocol (p : NetworkProtocol) : str :=
  match p with
  | Http => $"http"
  | HttpsConnect => $"https_connect"
  | Socks5Tcp => $"socks5_tcp"
  | Socks5Udp => $"socks5_udp"
  end.
Inductive NetworkPolicyDecision := PolicyDeny | PolicyAsk.
Definition policy_decision_as_str (d : NetworkPolicyDecision) : str :=
  match d with PolicyDeny => $"deny" | PolicyAsk => $"ask" end.
Inductive NetworkDecisionSource := BaselinePolicy | ModeGuard | ProxyState | Decider.
Definition source_as_str (s : NetworkDecisionSource) : str :=
  match s with
  | BaselinePolicy => $"baseline_policy"
  | ModeGuard => $"mode_guard"
  | ProxyState => $"proxy_state"
  | Decider => $"decider"
  end.
Record NetworkPolicyRequest := mkPolicyRequest {
  request_protocol : NetworkProtocol;
  request_host : str;
  request_port : N;
  request_client_addr : option str;
  request_method : option str;
  request_command : option str;
  request_exec_policy_hint : option str;
}.
Inductive NetworkDecision :=
| Allow
| Deny (reason : str) (source : NetworkDecisionSource) (decision : NetworkPolicyDecision).
Definition reason_or_default (reason : str) : str := if Str.is_empty reason then REASON_POLICY_DENIED else reason.
Definition deny_with_source (reason : str) (source : NetworkDecisionSource) : NetworkDecision :=
  Deny (reason_or_default reason) source PolicyDeny.
Definition ask_with_source (reason : str) (source : NetworkDecisionSource) : NetworkDecision :=
  Deny (reason_or_default reason) source PolicyAsk.
Definition deny (reason : str) : NetworkDecision := deny_with_source reason Decider.
Definition ask (reason : str) : NetworkDecision := ask_with_source reason Decider.
Definition map_decider_decision (d : NetworkDecision) : NetworkDecision :=
  match d with Allow => Allow | Deny reason _ decision => Deny reason Decider decision end.

(** ** The system *)

Class ProxyEnv := {
  (** [cfg!(target_os = "macos")]. *)
  is_macos : bool;
  (** [std::fs::canonicalize]. *)
  fs_canonicalize : str -> option str;
  (** The resolver; [None] when it fails or takes too long. *)
  lookup_host : str -> N -> option (list IpAddr);
}.

Section proxy.
Context `{UrlHost, HttpCrates, SecretEnv, GlobEngine, MitmSetup, ProxyEnv}.

(** ** Hosts *)

Definition host_resolves_to_non_public_ip (host : str) (port : N) : bool :=
  match parse_ip host with
  | Some ip => is_non_public_ip ip
  | None =>
      match lookup_host host port with
      | None => true
      | Some addrs => existsb is_non_public_ip addrs
      end
  end.
Definition globset_matches_host_or_unscoped (set : GlobSet) (host : str) : bool :=
  is_match set host || match unscoped_ip_literal host with Some ip => is_match set ip | None => false end.
Definition is_explicit_local_allowlisted (allowed : list str) (host : str) : bool :=
  existsb (fun pattern =>
    let pattern := Str.trim pattern in
    if bool_decide (pattern = $"*") || Str.starts_with $"*." pattern || Str.starts_with $"**." pattern then false
    else if Str.contains_char star pattern || Str.contains_char (ch "?") pattern then false
    else
      let normalized_pattern := normalize_host pattern in
      bool_decide (normalized_pattern = host) ||
      match unscoped_ip_literal host with Some ip => bool_decide (normalized_pattern = ip) | None => false end)
    allowed.
Definition is_local_literal (host : str) : bool :=
  let host_no_scope := default host (unscoped_ip_literal host) in
  if is_loopback_host host then true
  else match parse_ip host_no_scope with Some ip => is_non_public_ip ip | None => false end.

(** [host_blocked], after the reload. *)
Definition host_blocked (st : ConfigState) (host : str) (port : N) : HostBlockDecision :=
  match host_parse host with
  | Err _ => Blocked NotAllowed
  | Ok host =>
      let allowed := allowed_domains (config st) in
      let allowed_domains_empty := match allowed with None => true | Some _ => false end in
      if globset_matches_host_or_unscoped (deny_set st) host then Blocked Denied
      else
        let is_allowlisted := globset_matches_host_or_unscoped (allow_set st) host in
        if negb (allow_local_binding (config st)) &&
           (if is_local_literal host
            then negb (is_explicit_local_allowlisted (default [] allowed) host)
            else host_resolves_to_non_public_ip host port)
        then Blocked NotAllowedLocal
        else if allowed_domains_empty || negb is_allowlisted then Blocked NotAllowed
        else Allowed
  end.

(** [evaluate_host_policy], after the reload, without the audit event. *)
Definition evaluate_host_policy (st : ConfigState) (decider : option (NetworkPolicyRequest -> NetworkDecision))
    (request : NetworkPolicyRequest) : NetworkDecision :=
  match host_blocked st (request_host request) (request_port request) with
  | Allowed => Allow
  | Blocked NotAllowed =>
      match decider with
      | Some decide => map_decider_decision (decide request)
      | None => deny_with_source (reason_as_str NotAllowed) BaselinePolicy
      end
  | Blocked reason => deny_with_source (reason_as_str reason) BaselinePolicy
  end.

(** ** The state *)

Inductive ProxyError :=
| ReloadFailed
| InvalidNetworkHost
| Constrained (e : NetworkProxyConstraintError)
| NotCompiled (e : BuildError).
(** An answer of the reloader. *)
Abbreviation Reload := (result ProxyError (option ConfigState)).

Definition with_blocked (st : ConfigState) (b : list BlockedRequest) (total : N) : ConfigState :=
  mkState (config st) (allow_set st) (deny_set st) (mitm_state st) (compiled_hooks st) (constraints st) b total.
Definition with_config (st : ConfigState) (cfg : NetworkProxySettings) : ConfigState :=
  mkState cfg (allow_set st) (deny_set st) (mitm_state st) (compiled_hooks st) (constraints st)
    (blocked st) (blocked_total st).

(** [reload_if_needed]: what it reads of the state, and what it writes later. *)
Definition reload_commit (snapshot new_state : ConfigState) : ConfigState :=
  with_blocked new_state (blocked snapshot) (blocked_total snapshot).
Definition reload_if_needed (st : ConfigState) (answer : Reload) : ConfigState * result ProxyError unit :=
  match answer with
  | Err e => (st, Err e)
  | Ok None => (st, Ok tt)
  | Ok (Some new_state) => (reload_commit st new_state, Ok tt)
  end.
Definition force_reload (st : ConfigState) (answer : result ProxyError ConfigState)
    : ConfigState * result ProxyError unit :=
  match answer with
  | Ok new_state => (with_blocked new_state (blocked st) (blocked_total new_state), Ok tt)
  | Err e => (st, Err e)
  end.
Definition replace_config_state (st : ConfigState) (answer : Reload) (new_state : ConfigState)
    : ConfigState * result ProxyError unit :=
  match reload_if_needed st answer with
  | (st, Err e) => (st, Err e)
  | (st, Ok _) => (with_blocked new_state (blocked st) (blocked_total st), Ok tt)
  end.

(** The critical section of [record_blocked]. *)
Definition push_blocked (st : ConfigState) (entry : BlockedRequest) : ConfigState :=
  let b := blocked st ++ [entry] in
  with_blocked st (drop (length b - MAX_BLOCKED_EVENTS) b) (N.min (blocked_total st + 1) u64_max).
Definition take_blocked (st : ConfigState) : ConfigState * list BlockedRequest :=
  (with_blocked st [] (blocked_total st), blocked st).

Definition is_unix_socket_allowed (st : ConfigState) (path : str) : bool :=
  if negb is_macos then false
  else if negb (Path.is_absolute path) then false
  else if dangerously_allow_all_unix_sockets (config st) then true
  else
    match Path.from_absolute_path secret_home_dir secret_current_dir path with
    | Err _ => false
    | Ok requested_abs =>
        let requested_canonical := fs_canonicalize requested_abs in
        existsb (fun allowed =>
          match validated_socket_path allowed with
          | Ok (Native allowed_path) =>
              if PathOps.path_eqb allowed_path requested_abs then true
              else
                match requested_canonical, fs_canonicalize allowed_path with
                | Some requested, Some allowed => PathOps.path_eqb allowed requested
                | _, _ => false
                end
          | _ => false
          end) (allow_unix_sockets (config st))
    end.
Definition method_allowed (st : ConfigState) (m : str) : bool := allows_method (mode (config st)) m.
Definition host_has_mitm_hooks (st : ConfigState) (host : str) : bool :=
  match compiled_hooks st !! normalize_host host with Some _ => true | None => false end.

(** ** Changes of the policy *)

(** One turn of a loop that validates a snapshot and commits on the state of that moment. *)
Inductive Attempt := Retry | Finished (st : ConfigState) (r : result ProxyError unit).

Definition set_network_mode_attempt (snapshot current : ConfigState) (m : NetworkMode) : Attempt :=
  let candidate := set_mode (config snapshot) m in
  match validate_policy_against_constraints candidate (constraints snapshot) with
  | Err e => Finished current (Err (Constrained e))
  | Ok _ =>
      if bool_decide (constraints current = constraints snapshot)
      then Finished (with_config current (set_mode (config current) m)) (Ok tt)
      else Retry
  end.

Inductive DomainListKind := AllowList | DenyList.
Definition kind_permission (k : DomainListKind) : NetworkDomainPermission :=
  match k with AllowList => PermAllow | DenyList => PermDeny end.
Definition kind_entries (k : DomainListKind) (s : NetworkProxySettings) : list str :=
  default [] (match k with AllowList => allowed_domains s | DenyList => denied_domains s end).
Definition kind_opposite_entries (k : DomainListKind) (s : NetworkProxySettings) : list str :=
  default [] (match k with AllowList => denied_domains s | DenyList => allowed_domains s end).
Definition lists_host (entries : list str) (normalized_host : str) : bool :=
  existsb (fun e => bool_decide (normalize_host e = normalized_host)) entries.

Definition update_domain_list_attempt (snapshot current : ConfigState) (normalized_host : str) (target : DomainListKind)
    : Attempt :=
  let previous_cfg := config snapshot in
  if lists_host (kind_entries target previous_cfg) normalized_host &&
     negb (lists_host (kind_opposite_entries target previous_cfg) normalized_host)
  then Finished current (Ok tt)
  else
    let candidate := upsert_domain_permission previous_cfg normalized_host (kind_permission target) normalize_host in
    match validate_policy_against_constraints candidate (constraints snapshot) with
    | Err e => Finished current (Err (Constrained e))
    | Ok _ =>
        match build_config_state candidate (constraints snapshot) with
        | Err e => Finished current (Err (NotCompiled e))
        | Ok new_state =>
            if bool_decide (constraints current = constraints snapshot) && bool_decide (config current = previous_cfg)
            then Finished (with_blocked new_state (blocked snapshot) (blocked_total snapshot)) (Ok tt)
            else Retry
        end
    end.

(** The loops, when no other task runs in between; the first turn is then the last. *)
Definition run_attempt (st : ConfigState) (answer : Reload) (attempt : ConfigState -> ConfigState -> Attempt)
    : ConfigState * option (result ProxyError unit) :=
  match reload_if_needed st answer with
  | (st, Err e) => (st, Some (Err e))
  | (st, Ok _) =>
      match attempt st st with
      | Finished st r => (st, Some r)
      | Retry => (st, None)
      end
  end.
Definition set_network_mode (st : ConfigState) (answer : Reload) (m : NetworkMode) :=
  run_attempt st answer (fun snapshot current => set_network_mode_attempt snapshot current m).
Definition update_domain_list (st : ConfigState) (answer : Reload) (host : str) (target : DomainListKind) :=
  match host_parse host with
  | Err _ => (st, Some (Err InvalidNetworkHost))
  | Ok normalized_host =>
      run_attempt st answer (fun snapshot current => update_domain_list_attempt snapshot current normalized_host target)
  end.
Definition add_allowed_domain (st : ConfigState) (answer : Reload) (host : str) :=
  update_domain_list st answer host AllowList.
Definition add_denied_domain (st : ConfigState) (answer : Reload) (host : str) :=
  update_domain_list st answer host DenyList.
End proxy.
End Proxy.
