(* ===== verification/NetworkSafety.v ===== *)
(** What the network proxy promises: which hosts it lets through, that changes of
    its policy are neither lost nor made outside of the managed constraints under any
    interleaving of its tasks, and what its log of blocked requests keeps. *)
From S2P Require Import Prelude Paths PathOps IpAddr NetworkPolicy MitmHooks NetworkConfig NetworkConstraints.
From S2P Require Import NetworkProxy.
From stdpp Require Import gmap.

Module NetSafety.
Import Ip NetPolicy Mitm NetConfig NetState Proxy.

Section safety.
Context `{UrlHost, HttpCrates, SecretEnv, GlobEngine, MitmSetup, ProxyEnv}.

(** ** Hosts *)

(** The host test, case by case. *)
Lemma host_blocked_allowed st host port :
  host_blocked st host port = Allowed <->
  exists h allowed,
    host_parse host = Ok h /\ allowed_domains (config st) = Some allowed /\
    globset_matches_host_or_unscoped (deny_set st) h = false /\
    globset_matches_host_or_unscoped (allow_set st) h = true /\
    (allow_local_binding (config st) = true \/
     if is_local_literal h then is_explicit_local_allowlisted allowed h = true
     else host_resolves_to_non_public_ip h port = false).
Proof.
  unfold host_blocked. destruct (host_parse host) as [h|e]; [|split; [done|intros (? & ? & ? & _); done]].
  destruct (globset_matches_host_or_unscoped (deny_set st) h) eqn:Ed.
  { split; [done|]. intros (h' & ? & [= <-] & _ & E & _). congruence. }
  destruct (allowed_domains (config st)) as [allowed|]; cbn [default from_option id].
  2: { destruct (_ && _); (split; [done|]); by intros (? & ? & _ & ? & _). }
  destruct (globset_matches_host_or_unscoped (allow_set st) h) eqn:Ea.
  2: { destruct (_ && _); (split; [done|]); intros (h' & ? & [= <-] & _ & _ & E & _); congruence. }
  destruct (allow_local_binding (config st)) eqn:Eb; cbn [negb andb orb].
  { split; [|done]. intros _. exists h, allowed. auto 10. }
  destruct (is_local_literal h) eqn:El.
  - destruct (is_explicit_local_allowlisted allowed h) eqn:Ee; cbn [negb].
    + split; [|done]. intros _. exists h, allowed. rewrite El. auto 10.
    + split; [done|]. intros (h' & ? & [= <-] & [= <-] & _ & _ & [?|E]); [done|]. rewrite El in E. congruence.
  - destruct (host_resolves_to_non_public_ip h port) eqn:Ee.
    + split; [done|]. intros (h' & ? & [= <-] & [= <-] & _ & _ & [?|E]); [done|]. rewrite El in E. congruence.
    + split; [|done]. intros _. exists h, allowed. rewrite El. auto 10.
Qed.

(** An entry without wildcards that names a host, or the address of a scoped one. *)
Definition names_host (entry h : str) : Prop :=
  (star ∉ Str.trim entry) /\ (ch "?" ∉ Str.trim entry) /\
  (normalize_host (Str.trim entry) = h \/ unscoped_ip_literal h = Some (normalize_host (Str.trim entry))).
(** A host that can only lead to public addresses. *)
Definition leads_to_public (h : str) (port : N) : Prop :=
  h <> $"localhost" /\
  match parse_ip h with
  | Some ip => public ip
  | None => exists addrs, lookup_host h port = Some addrs /\ Forall (fun ip => is_non_public_ip ip = false) addrs
  end.

Lemma not_contains_char c s : Str.contains_char c s = false <-> c ∉ s.
Proof.
  unfold Str.contains_char. rewrite <- not_true_iff_false, existsb_exists. split; intros Hn Hc; apply Hn.
  - exists c. split; [by apply list_elem_of_In|apply N.eqb_refl].
  - destruct Hc as (x & Hx%list_elem_of_In & <-%N.eqb_eq). done.
Qed.

Lemma explicit_allow_spec allowed h :
  is_explicit_local_allowlisted allowed h = true -> exists e, e ∈ allowed /\ names_host e h.
Proof.
  unfold is_explicit_local_allowlisted. intros (e & Hin%list_elem_of_In & He)%existsb_exists.
  exists e. split; [done|]. destruct (_ || _ || _); [done|].
  destruct (Str.contains_char star (Str.trim e)) eqn:E1; [done|].
  destruct (Str.contains_char (ch "?") (Str.trim e)) eqn:E2; [done|]. cbn [orb] in He.
  apply not_contains_char in E1, E2. split_and!; [done..|].
  apply orb_prop in He as [He|He]; [left; by apply bool_decide_eq_true in He|right].
  destruct (unscoped_ip_literal h); [|done]. by apply bool_decide_eq_true in He as <-.
Qed.

(** With local binding off, a host the proxy lets through is listed as itself, by an
    entry without wildcards, or is not local: it is not the name localhost, it is an
    address outside every special-purpose block (also behind IPv6 forms of IPv4
    addresses), or a name whose lookup succeeds and yields such addresses only. *)
Theorem local_hosts_need_their_own_entry st host port :
  allow_local_binding (config st) = false -> host_blocked st host port = Allowed ->
  exists h allowed, host_parse host = Ok h /\ allowed_domains (config st) = Some allowed /\
    ((exists e, e ∈ allowed /\ names_host e h) \/ leads_to_public h port).
Proof.
  intros Hb (h & allowed & Hh & Hal & _ & _ & [E|Hlocal])%host_blocked_allowed; [congruence|].
  exists h, allowed. split_and!; [done..|]. destruct (is_local_literal h) eqn:El.
  { left. by apply explicit_allow_spec. }
  right. unfold is_local_literal, is_loopback_host in El. unfold host_resolves_to_non_public_ip in Hlocal.
  split.
  { intros ->. cbn in El. done. }
  destruct (parse_ip h) as [ip|] eqn:Ep.
  - apply non_public_spec; [by apply (parse_ip_wf h)|done].
  - destruct (lookup_host h port) as [addrs|]; [|done]. exists addrs. split; [done|].
    apply Forall_forall. intros ip Hin. apply not_true_iff_false. intros Hip.
    assert (existsb is_non_public_ip addrs = true) as E; [|congruence].
    apply existsb_exists. exists ip. split; [by apply list_elem_of_In|done].
Qed.

(** ** The managed constraints *)

(** A state whose configuration is within its constraints, with the globs of its lists. *)
Definition within (st : ConfigState) : Prop :=
  validate_policy_against_constraints (config st) (constraints st) = Ok tt /\
  compile_allowlist_globset (default [] (allowed_domains (config st))) = Ok (allow_set st) /\
  compile_denylist_globset (default [] (denied_domains (config st))) = Ok (deny_set st).

(** The atomic steps of the tasks that share a state.  A snapshot is any state read earlier;
    the reloader and the callers of [replace_config_state] supply states within their own
    constraints. *)
Inductive proxy_step : ConfigState -> ConfigState -> Prop :=
| step_reload snapshot st new_state : within new_state -> proxy_step st (reload_commit snapshot new_state)
| step_force st new_state : within new_state -> proxy_step st (fst (force_reload st (Ok new_state)))
| step_replace st new_state : within new_state -> proxy_step st (fst (replace_config_state st (Ok None) new_state))
| step_record st entry : proxy_step st (push_blocked st entry)
| step_drain st : proxy_step st (fst (take_blocked st))
| step_mode snapshot st m st' r :
    set_network_mode_attempt snapshot st m = Finished st' r -> proxy_step st st'
| step_domains snapshot st host target st' r :
    update_domain_list_attempt snapshot st host target = Finished st' r -> proxy_step st st'.

Lemma build_sets cfg cs st :
  build_config_state cfg cs = Ok st ->
  config st = cfg /\ constraints st = cs /\
  compile_allowlist_globset (default [] (allowed_domains cfg)) = Ok (allow_set st) /\
  compile_denylist_globset (default [] (denied_domains cfg)) = Ok (deny_set st).
Proof.
  unfold build_config_state.
  intros (? & _ & (? & _ & (deny & Hd & (allow & Ha & (hooks & _ & (m & _ & [= <-])%bind_Ok)%bind_Ok)%bind_Ok)%bind_Ok)%bind_Ok)%bind_Ok.
  cbn. unfold map_err in Hd, Ha. split_and!; [done..| |].
  - by destruct (compile_allowlist_globset _); [injection Ha as ->|].
  - by destruct (compile_denylist_globset _); [injection Hd as ->|].
Qed.

(** The mode only enters the check of the mode. *)
Lemma validate_mode cfg cfg0 m cs :
  validate_policy_against_constraints cfg cs = Ok tt ->
  validate_policy_against_constraints (set_mode cfg0 m) cs = Ok tt ->
  validate_policy_against_constraints (set_mode cfg m) cs = Ok tt.
Proof.
  intros Hc Hm. unfold validate_policy_against_constraints in *.
  repeat match type of Hm with (_ ≫= _) = _ => apply bind_Ok in Hm as ([] & ? & Hm) end.
  repeat match type of Hc with (_ ≫= _) = _ => apply bind_Ok in Hc as ([] & ? & Hc) end.
  change (validate_allowed_domains (set_mode cfg m)) with (validate_allowed_domains cfg).
  change (validate_denied_domains (set_mode cfg m)) with (validate_denied_domains cfg).
  change (validate_unix_sockets (set_mode cfg m)) with (validate_unix_sockets cfg).
  change (denied_domains (set_mode cfg m)) with (denied_domains cfg).
  cbn [mode set_mode enabled allow_upstream_proxy dangerously_allow_non_loopback_proxy
    dangerously_allow_all_unix_sockets allow_local_binding mitm mitm_hooks] in *.
  repeat match goal with E : ?r = Ok tt |- context [?r] => rewrite E; clear E; cbn [mbind result_bind] end.
  done.
Qed.

Lemma within_step st st' : proxy_step st st' -> within st -> within st'.
Proof.
  intros Hs Hw. destruct Hs as [snapshot st new_state Hn|st new_state Hn|st new_state Hn|st entry|st
    |snapshot st m st' r Hat|snapshot st host target st' r Hat]; [exact Hn|exact Hn|exact Hn|exact Hw|exact Hw| |].
  - unfold set_network_mode_attempt in Hat.
    destruct (validate_policy_against_constraints _ _) as [[]|] eqn:E; [|by injection Hat as <- _].
    case_bool_decide as Ec; [|done]. injection Hat as <- _. destruct Hw as (Hv & Ha & Hd).
    split_and!; [|exact Ha|exact Hd]. cbn. rewrite <- Ec in E. by apply (validate_mode _ (config snapshot)).
  - unfold update_domain_list_attempt in Hat. destruct (_ && _); [by injection Hat as <- _|].
    destruct (validate_policy_against_constraints _ _) as [[]|] eqn:E; [|by injection Hat as <- _].
    destruct (build_config_state _ _) as [new_state|] eqn:Eb; [|by injection Hat as <- _].
    destruct (bool_decide (constraints st = _) && _); [|done]. injection Hat as <- _.
    apply build_sets in Eb as (Ec & Es & Ha & Hd). unfold within. cbn. rewrite Ec, Es. done.
Qed.

Lemma within_steps st st' : rtc proxy_step st st' -> within st -> within st'.
Proof. intros Hs. induction Hs as [|st st1 st2 Hstep _ IH]; [done|]. intros Hw. by apply IH, (within_step st). Qed.

(** The entries of a configuration within a closed list are covered by a managed entry, or
    are one of them up to case. *)
Lemma within_allowlist st managed :
  within st -> managed_allowed_domains (constraints st) = Some managed ->
  allowlist_expansion_enabled (constraints st) <> Some true ->
  Forall (fun e => exists m, m ∈ managed /\
      (allows (parse_for_constraints m) (parse_for_constraints e) = true \/ Str.to_ascii_lowercase e = Str.to_ascii_lowercase m))
    (default [] (allowed_domains (config st))).
Proof.
  intros (Hv & _) Hm He. unfold validate_policy_against_constraints in Hv.
  do 8 apply bind_Ok in Hv as ([] & _ & Hv). apply bind_Ok in Hv as ([] & Ha & _).
  unfold validate_allowed_domains in Ha. rewrite Hm in Ha. apply bind_Ok in Ha as ([] & _ & Ha).
  apply Forall_forall. intros e Hin. unfold allow_if in Ha.
  destruct (allowlist_expansion_enabled (constraints st)) as [[]|]; [done| |].
  - case_bool_decide as Heq; [|done].
    assert (Str.to_ascii_lowercase e ∈ lower_set (default [] (allowed_domains (config st)))) as Hl.
    { unfold lower_set. apply elem_of_list_to_set, list_elem_of_fmap. by exists e. }
    rewrite Heq in Hl. apply elem_of_difference in Hl as [Hl _]. unfold lower_set in Hl.
    apply elem_of_list_to_set, list_elem_of_fmap in Hl as (m & Hme & Hmin). exists m. by split; [|right].
  - destruct (List.filter _ _) as [|x l] eqn:E; [|done].
    destruct (existsb (fun m => allows m (parse_for_constraints e)) (map parse_for_constraints managed)) eqn:Ee.
    + apply existsb_exists in Ee as (m & (m0 & <- & Hm0)%in_map_iff & Hal). exists m0.
      split; [by apply list_elem_of_In|by left].
    + assert (In e []) as []. rewrite <- E. apply filter_In. split; [by apply list_elem_of_In|by rewrite Ee].
Qed.
(** Two entries that differ in case have the same scope and the same host. *)
Lemma lower_entry k d k' d' :
  host_name d -> host_name d' -> Str.to_ascii_lowercase (entry k d) = Str.to_ascii_lowercase (entry k' d') ->
  k = k' /\ Str.to_ascii_lowercase d = Str.to_ascii_lowercase d'.
Proof.
  intros Hd Hd'. destruct (host_name_cons d Hd) as (c & t & -> & _ & Hc), (host_name_cons d' Hd') as (c' & t' & -> & _ & Hc').
  assert (forall x, is_host_char x = true -> Str.char_to_ascii_lowercase x <> star) as Hstar.
  { intros x Hx E. unfold Str.char_to_ascii_lowercase in E. destruct ((65 <=? x) && (x <=? 90))%N eqn:Er.
    - apply andb_true_iff in Er as [Hlo%N.leb_le _]. change star with 42%N in E. lia.
    - subst x. by vm_compute in Hx. }
  pose proof (Hstar c Hc) as Hs1. pose proof (Hstar c' Hc') as Hs2. change star with 42%N in *.
  destruct k, k'; simpl; intros E; try (split; [done|]); try congruence; by injection E as ?.
Qed.
Lemma lower_entry_allows `{!UrlLaws} k d k' d' :
  host_name d -> host_name d' -> Str.to_ascii_lowercase (entry k d) = Str.to_ascii_lowercase (entry k' d') ->
  allows (parse_for_constraints (entry k' d')) (parse_for_constraints (entry k d)) = true.
Proof.
  intros Hd Hd' [-> E]%lower_entry; [|done..]. rewrite !constraint_entry by done. rewrite E.
  destruct k'; simpl; unfold domain_eq, is_subdomain_or_equal; by rewrite bool_decide_true.
Qed.

Lemma is_ascii_unscoped h ip : is_ascii h -> unscoped_ip_literal h = Some ip -> is_ascii ip.
Proof.
  intros Hh. unfold unscoped_ip_literal. intros ([a b] & Hs & Hip)%bind_Some.
  destruct (is_ip a); [|done]. injection Hip as <-. revert h a b Hh Hs.
  intros h. induction h as [|c h IH]; intros a b Hh Hs; [done|]. simpl in Hs.
  apply Forall_cons in Hh as [Hc Hh]. destruct (c =? ch "%")%N; [injection Hs as <- _; constructor|].
  apply bind_Some in Hs as ([a' b'] & Hs & [= <- _]). constructor; [done|by apply (IH a' b')].
Qed.

(** C32: When an administrator fixes the allowed domains and does not let users extend them
    ([allowlist_expansion_enabled] is absent or false), a configuration that passes the check
    lets through no host outside them: for allowlists of host names and of scoped names
    ([*.] for the subdomains, [**.] for the apex too), every host of ASCII characters that is
    let through is matched by the globs of the managed list. *)
Theorem managed_allowlist_bounds_hosts `{!UrlLaws, !GlobLaws} st managed ms host port :
  within st ->
  managed_allowed_domains (constraints st) = Some managed ->
  allowlist_expansion_enabled (constraints st) <> Some true ->
  Forall (fun e => exists k d, e = entry k d /\ host_name d) managed ->
  Forall (fun e => exists k d, e = entry k d /\ host_name d) (default [] (allowed_domains (config st))) ->
  compile_allowlist_globset managed = Ok ms ->
  is_ascii (normalize_host host) ->
  host_blocked st host port = Allowed ->
  globset_matches_host_or_unscoped ms (normalize_host host) = true.
Proof.
  intros Hw Hm He Hms Hes Hc Hascii (h & allowed & Hh & Hal & _ & Hmatch & _)%host_blocked_allowed.
  assert (Forall (fun e => exists m, m ∈ managed /\ allows (parse_for_constraints m) (parse_for_constraints e) = true)
    (default [] (allowed_domains (config st)))) as Hallow.
  { pose proof (within_allowlist st managed Hw Hm He) as Hcov. rewrite Forall_forall in Hcov, Hes, Hms |- *.
    intros e Hin. destruct (Hcov e Hin) as (m & Hmin & [Ha|Hl]); exists m; (split; [done|]); [done|].
    destruct (Hes e Hin) as (k & d & -> & Hd), (Hms m Hmin) as (k' & d' & -> & Hd'). by apply lower_entry_allows. }
  destruct Hw as (_ & Hset & _).
  unfold host_parse in Hh. destruct (Str.is_empty _); [done|]. injection Hh as <-.
  unfold globset_matches_host_or_unscoped in *. apply orb_prop in Hmatch as [Hmatch|Hmatch].
  - apply orb_true_intro. left. by apply (allowed_entries_sound _ managed _ ms _ Hes Hms Hallow Hset Hc).
  - destruct (unscoped_ip_literal _) as [ip|] eqn:Eu; [|done]. apply orb_true_intro. right.
    apply (allowed_entries_sound _ managed _ ms _ Hes Hms Hallow Hset Hc); [by eapply is_ascii_unscoped|done].
Qed.

(** ** Blocked requests *)

Definition last_n {A} (n : nat) (l : list A) : list A := drop (length l - n) l.

(** The log of blocked requests never holds more than its limit: after any requests are
    recorded it holds exactly the newest ones, in order, and the total counts them all up to
    the largest 64-bit number. *)
Theorem blocked_log_keeps_the_newest st entries :
  length (blocked st) <= MAX_BLOCKED_EVENTS -> (blocked_total st <= u64_max)%N ->
  let st' := fold_left push_blocked entries st in
  blocked st' = last_n MAX_BLOCKED_EVENTS (blocked st ++ entries) /\
  length (blocked st') <= MAX_BLOCKED_EVENTS /\
  blocked_total st' = N.min (blocked_total st + N.of_nat (length entries)) u64_max /\
  config st' = config st.
Proof.
  revert st. induction entries as [|e entries IH]; intros st Hl Ht.
  - cbn. unfold last_n. rewrite app_nil_r. replace (length (blocked st) - MAX_BLOCKED_EVENTS) with 0 by lia.
    split_and!; [done..| |done]. lia.
  - cbn [fold_left]. destruct (IH (push_blocked st e)) as (Hb & Hn & Htot & Hcfg).
    { cbn. rewrite length_drop. lia. }
    { cbn. lia. }
    split_and!; [|done| |done].
    + rewrite Hb. unfold last_n. cbn [push_blocked with_blocked blocked].
      change (blocked st ++ e :: entries) with (blocked st ++ [e] ++ entries). rewrite (app_assoc _ [e]).
      set (l := blocked st ++ [e]). set (k := length l - MAX_BLOCKED_EVENTS).
      replace (drop k l ++ entries) with (drop k (l ++ entries)) by (rewrite drop_app_le by (unfold k; lia); done).
      rewrite drop_drop, length_drop, !length_app. f_equal. unfold k. lia.
    + rewrite Htot. cbn [push_blocked with_blocked blocked_total length]. lia.
Qed.

(** ** Changing the lists *)

Lemma lists_host_spec entries n : lists_host entries n = true <-> exists e, e ∈ entries /\ normalize_host e = n.
Proof.
  unfold lists_host. rewrite existsb_exists. split.
  - intros (e & He%list_elem_of_In & Hn%bool_decide_eq_true). eauto.
  - intros (e & He%list_elem_of_In & Hn). exists e. split; [done|by apply bool_decide_eq_true].
Qed.

Lemma kind_entries_spec k s p :
  p ∈ kind_entries k s <-> max_permission p (default [] (domains s)) = Some (kind_permission k).
Proof. destruct k; apply domain_entries_spec. Qed.

Definition other_kind (k : DomainListKind) : DomainListKind := match k with AllowList => DenyList | DenyList => AllowList end.
Lemma kind_opposite k s : kind_opposite_entries k s = kind_entries (other_kind k) s.
Proof. by destruct k. Qed.

(** A host that is added to a list is, afterwards, on that list and not on the opposite
    one, under any spelling; every entry that is no spelling of it stays where it was, on
    both lists; a change that is refused, because it would leave the managed constraints
    or cannot be compiled, changes nothing. *)
Theorem host_moves_between_lists st host target n st' r :
  host_parse host = Ok n -> normalize_host n = n ->
  update_domain_list st (Ok None) host target = (st', Some r) ->
  match r with
  | Ok _ =>
      lists_host (kind_entries target (config st')) n = true /\
      lists_host (kind_opposite_entries target (config st')) n = false /\
      (forall k e, normalize_host e <> n -> e ∈ kind_entries k (config st') <-> e ∈ kind_entries k (config st))
  | Err _ => st' = st
  end.
Proof.
  intros Hp Hn. unfold update_domain_list. rewrite Hp. unfold run_attempt. cbn [reload_if_needed].
  unfold update_domain_list_attempt.
  destruct (lists_host (kind_entries target (config st)) n) eqn:Et; cbn [andb].
  1: destruct (lists_host (kind_opposite_entries target (config st)) n) eqn:Eo; cbn [negb];
    [|by intros [= <- <-]].
  all: destruct (validate_policy_against_constraints _ _) as [[]|e] eqn:Ev; [|by intros [= <- <-]];
    destruct (build_config_state _ _) as [new_state|e] eqn:Eb; [|by intros [= <- <-]];
    rewrite !bool_decide_true by done; cbn [andb]; intros [= <- <-]; apply build_sets in Eb as (Ec & _);
    cbn [with_blocked config]; rewrite Ec; clear Ec new_state.
  all: split_and!;
    [apply lists_host_spec; exists n; split; [|done]; apply kind_entries_spec;
       rewrite upsert_spec by done; by rewrite bool_decide_true
    |apply not_true_iff_false; rewrite lists_host_spec, kind_opposite; intros (e & He & Hen);
       apply kind_entries_spec in He; rewrite upsert_spec in He by done;
       case_bool_decide; [by destruct target|]; by rewrite bool_decide_true in He
    |intros k e He; rewrite !kind_entries_spec, upsert_spec by done;
       rewrite bool_decide_false by (intros ->; done); by rewrite bool_decide_false].
Qed.

(** ** Changes are not lost *)

(** The configuration in force with what is compiled of it, and its constraints. *)
Definition in_force (st : ConfigState) :=
  (config st, constraints st, allow_set st, deny_set st, mitm_state st, compiled_hooks st).
Lemma mode_attempt_serial snapshot st m st' :
  within st -> set_network_mode_attempt snapshot st m = Finished st' (Ok tt) -> set_network_mode st (Ok None) m = (st', Some (Ok tt)).
Proof.
  intros (Hv & _) Hat. unfold set_network_mode_attempt in Hat.
  destruct (validate_policy_against_constraints (set_mode _ _) _) as [[]|] eqn:E; [|done].
  case_bool_decide as Ec; [|done]. injection Hat as <-. rewrite <- Ec in E.
  unfold set_network_mode, run_attempt, reload_if_needed, set_network_mode_attempt.
  rewrite (validate_mode _ _ _ _ Hv E). by rewrite bool_decide_true.
Qed.
Lemma domain_attempt_serial snapshot st host n target st' r :
  host_parse host = Ok n -> update_domain_list_attempt snapshot st n target = Finished st' r ->
  st' = st \/ r = Ok tt /\ exists st2, update_domain_list st (Ok None) host target = (st2, Some (Ok tt)) /\ in_force st' = in_force st2.
Proof.
  intros Hp Hat. unfold update_domain_list_attempt in Hat. destruct (_ && _) eqn:El; [injection Hat as <- _; by left|].
  destruct (validate_policy_against_constraints _ _) as [[]|] eqn:Ev; [|injection Hat as <- _; by left].
  destruct (build_config_state _ _) as [new_state|] eqn:Eb; [|injection Hat as <- _; by left].
  destruct (bool_decide (constraints st = _) && bool_decide (config st = _)) eqn:Eg; [|done]. injection Hat as <- <-.
  apply andb_true_iff in Eg as [Ec%bool_decide_eq_true Ef%bool_decide_eq_true]. right. split; [done|].
  exists (with_blocked new_state (blocked st) (blocked_total st)). split; [|done].
  unfold update_domain_list, run_attempt. rewrite Hp. cbn [reload_if_needed]. unfold update_domain_list_attempt.
  rewrite Ec, Ef, El, Ev, Eb. by rewrite !bool_decide_true.
Qed.
(** C33: Changes of the policy are neither lost nor made outside of the managed constraints,
    under every interleaving of mode changes, list updates, recorded blocks and reloads: a
    change that commits on a state other than the one it was validated on (any earlier state)
    leaves the policy in force as it is, or makes of it what the same call makes of it when
    nothing runs in between; in particular a host that is put on a list is then on it, not on
    the opposite list, and every entry of another host stays as it is in force at the commit
    (for hosts whose normal form is its own normal form).
    Every state reached is within the constraints in force with the compiled lists of its
    configuration, given that reloads and replacements install such states (they are not
    checked again). *)
Theorem policy_changes_are_serial st0 st :
  within st0 -> rtc proxy_step st0 st ->
  within st /\
  (forall snapshot m st' r, set_network_mode_attempt snapshot st m = Finished st' r ->
     match r with Ok _ => set_network_mode st (Ok None) m = (st', Some (Ok tt)) | Err _ => st' = st end) /\
  (forall snapshot host n target st' r,
     host_parse host = Ok n -> normalize_host n = n -> update_domain_list_attempt snapshot st n target = Finished st' r ->
     st' = st \/
     r = Ok tt /\
     (exists st2, update_domain_list st (Ok None) host target = (st2, Some (Ok tt)) /\ in_force st' = in_force st2) /\
     lists_host (kind_entries target (config st')) n = true /\
     lists_host (kind_opposite_entries target (config st')) n = false /\
     (forall k e, normalize_host e <> n -> e ∈ kind_entries k (config st') <-> e ∈ kind_entries k (config st))).
Proof.
  intros Hw0 Hrun. pose proof (within_steps _ _ Hrun Hw0) as Hw. split_and!; [done| |].
  - intros snapshot m st' [[]|e] Hat; [by eapply mode_attempt_serial|].
    unfold set_network_mode_attempt in Hat. destruct (validate_policy_against_constraints _ _) as [[]|].
    + by case_bool_decide.
    + by injection Hat as <- _.
  - intros snapshot host n target st' r Hp Hn Hat.
    destruct (domain_attempt_serial _ _ _ _ _ _ _ Hp Hat) as [?|(-> & st2 & Hup & Hf)]; [by left|right].
    destruct (host_moves_between_lists _ _ _ _ _ _ Hp Hn Hup) as (Hl1 & Hl2 & Hl3).
    assert (config st' = config st2) as -> by by injection Hf. split_and!; [done|by exists st2|done..].
Qed.
End safety.

(** ** Concrete runs *)

Module Demo.
Import NetPolicy.Small.
#[global] Instance http_crates : HttpCrates := {
  header_name_from_bytes n := Some (Str.to_ascii_lowercase n);
  header_value_from_str v := Some v;
  header_value_to_str v := Some v;
  form_urlencoded_parse _ := [];
  build_hook_glob _ p := Some (fun s => bool_decide (s = p));
}.
#[global] Instance secret_env : SecretEnv := {
  secret_home_dir := None;
  secret_current_dir := Ok $"/";
  env_var _ := None;
  read_to_string _ := None;
}.
#[global] Instance mitm_setup : MitmSetup := fun _ _ => true.
(** Every name leads to one public address, except one that leads to a private one. *)
#[global] Instance proxy_env : ProxyEnv := {
  is_macos := true;
  fs_canonicalize p := Some p;
  lookup_host h _ := Some (if bool_decide (h = $"intranet.example.com") then [V4 (mkV4 10 0 0 1)] else [V4 (mkV4 8 8 8 8)]);
}.
(** The state of a list of entries under managed allowed domains. *)
Definition demo_settings (entries : list (str * NetworkDomainPermission)) : NetworkProxySettings :=
  set_domains settings_default (non_empty (map (fun e => mkEntry (fst e) (snd e)) entries)).
Definition demo_constraints (managed : option (list str)) : NetworkProxyConstraints :=
  mkConstraints None None None None None managed None None None None None.
Definition demo_state (managed : option (list str)) (entries : list (str * NetworkDomainPermission)) : ConfigState :=
  match build_config_state (demo_settings entries) (demo_constraints managed) with
  | Ok st => st
  | Err _ => mkState settings_default [] [] false ∅ constraints_default [] 0
  end.
Definition demo_blocked (h : str) : BlockedRequest :=
  mkBlocked h REASON_NOT_ALLOWED None None None $"http" None None None 0.
End Demo.
Import NetPolicy.Small Demo.

Definition example_com : list str := [$"**.example.com"].
Definition api_state : ConfigState := demo_state (Some example_com) [($"api.example.com", PermAllow)].

Lemma local_hosts_need_their_own_entry_witness :
  host_blocked api_state $"API.example.com:443" 443 = Allowed /\
  exists h allowed, host_parse $"API.example.com:443" = Ok h /\ allowed_domains (config api_state) = Some allowed /\
    ((exists e, e ∈ allowed /\ names_host e h) \/ leads_to_public h 443).
Proof.
  assert (host_blocked api_state $"API.example.com:443" 443 = Allowed) as Ha by (vm_compute; reflexivity).
  split; [exact Ha|]. apply (local_hosts_need_their_own_entry api_state); [vm_compute; reflexivity|exact Ha].
Defined.

Lemma api_within : within api_state.
Proof. split_and!; vm_compute; reflexivity. Qed.
Definition api_next : ConfigState :=
  match update_domain_list_attempt api_state (push_blocked api_state (demo_blocked $"a.org"))
    $"www.example.com" AllowList with Finished st _ => st | Retry => api_state end.
Lemma api_next_within : within api_next.
Proof. split_and!; vm_compute; reflexivity. Qed.
Lemma api_run : rtc proxy_step api_state api_next.
Proof.
  eapply rtc_l; [apply (step_record _ (demo_blocked $"a.org"))|]. apply rtc_once.
  eapply (step_domains api_state _ $"www.example.com" AllowList _ (Ok tt)). vm_compute. reflexivity.
Qed.

(** The update of a list starts from the state before a request is recorded. *)
Lemma policy_changes_are_serial_witness :
  within api_next /\
  lists_host (kind_entries AllowList (config api_next)) $"www.example.com" = true /\
  ($"api.example.com" ∈ kind_entries AllowList (config api_next)).
Proof.
  destruct (policy_changes_are_serial api_state api_next api_within api_run) as [Hw _]. split; [exact Hw|].
  destruct (policy_changes_are_serial api_state (push_blocked api_state (demo_blocked $"a.org")) api_within
    (rtc_once _ _ (step_record _ (demo_blocked $"a.org")))) as (_ & _ & Hup).
  destruct (Hup api_state $"www.example.com" $"www.example.com" AllowList api_next (Ok tt)) as [E|(_ & _ & Hin & _ & Hrest)];
    [vm_compute; reflexivity|vm_compute; reflexivity|vm_compute; reflexivity|exfalso; vm_compute in E; discriminate E|].
  split; [exact Hin|]. apply Hrest; [intros E; vm_compute in E; discriminate E|].
  vm_compute. left.
Defined.

Lemma host_name_demo a d :
  forallb is_host_char (a ++ d) = true -> head (a ++ d) <> Some dot ->
  (a = [] \/ last a = Some dot) -> (exists c b, d = c :: b /\ is_alpha c = true /\ Str.contains_char dot b = false) ->
  Str.contains $"xn--" (Str.to_ascii_lowercase (a ++ d)) = false -> host_name (a ++ d).
Proof.
  intros Hc Hh Ha (c & b & -> & Hal & Hb%not_contains_char) Hx. split_and!; [|done| |done].
  - apply Forall_forall. intros x Hin. rewrite forallb_forall in Hc. by apply Hc, list_elem_of_In.
  - exists a, c, b. auto.
Qed.
Ltac host_name_tac :=
  apply host_name_demo;
  [ vm_compute; reflexivity | done | right; reflexivity
  | eexists _, _; split_and!; [reflexivity|reflexivity|vm_compute; reflexivity]
  | vm_compute; reflexivity].

Lemma managed_allowlist_bounds_hosts_witness :
  host_blocked api_next $"www.example.com" 443 = Allowed /\
  exists ms, compile_allowlist_globset example_com = Ok ms /\
    globset_matches_host_or_unscoped ms (normalize_host $"www.example.com") = true.
Proof.
  assert (host_blocked api_next $"www.example.com" 443 = Allowed) as Ha by (vm_compute; reflexivity).
  split; [exact Ha|]. eexists. split; [vm_compute; reflexivity|].
  apply (managed_allowlist_bounds_hosts api_next example_com _ $"www.example.com" 443);
    [exact api_next_within|vm_compute; reflexivity|vm_compute; discriminate| | |vm_compute; reflexivity| |exact Ha].
  - constructor; [|constructor]. exists ApexToo, ($"example." ++ $"com"). split; [reflexivity|host_name_tac].
  - replace (default [] (allowed_domains (config api_next))) with [$"api.example.com"; $"www.example.com"]
      by (vm_compute; reflexivity).
    constructor; [|constructor; [|constructor]].
    + exists ExactHost, ($"api.example." ++ $"com"). split; [reflexivity|host_name_tac].
    + exists ExactHost, ($"www.example." ++ $"com"). split; [reflexivity|host_name_tac].
  - apply Forall_forall. intros c Hc. assert (forallb (fun c => c <? 128)%N (normalize_host $"www.example.com") = true) as E
      by (vm_compute; reflexivity). rewrite forallb_forall in E. apply N.ltb_lt, E. by apply list_elem_of_In.
Defined.

Lemma blocked_log_keeps_the_newest_witness :
  let entries := map (fun n => demo_blocked (Str.show_N (N.of_nat n))) (seq 0 201) in
  length (blocked (fold_left push_blocked entries api_state)) <= MAX_BLOCKED_EVENTS /\
  blocked_total (fold_left push_blocked entries api_state) = N.min 201 u64_max.
Proof.
  intros entries.
  destruct (blocked_log_keeps_the_newest api_state entries) as (_ & Hl & Ht & _).
  - vm_compute. repeat constructor.
  - apply N.leb_le. vm_compute. reflexivity.
  - split; [exact Hl|]. rewrite Ht. vm_compute. reflexivity.
Defined.

Lemma host_moves_between_lists_witness :
  let st := demo_state None [($"api.example.com", PermAllow); ($"b.org", PermAllow)] in
  let st' := fst (update_domain_list st (Ok None) $"API.example.com" DenyList) in
  lists_host (kind_entries DenyList (config st')) $"api.example.com" = true /\
  lists_host (kind_opposite_entries DenyList (config st')) $"api.example.com" = false /\
  ($"b.org" ∈ kind_entries AllowList (config st')).
Proof.
  intros st st'.
  destruct (host_moves_between_lists st $"API.example.com" DenyList $"api.example.com" st' (Ok tt))
    as (Hin & Hout & Hrest); [vm_compute; reflexivity..|].
  split; [exact Hin|]. split; [exact Hout|].
  apply (Hrest AllowList); [intros E; vm_compute in E; discriminate E|].
  replace (kind_entries AllowList (config st)) with [$"api.example.com"; $"b.org"] by (vm_compute; reflexivity).
  right. left.
Defined.

(** ** Where the policy and its check part *)

(** An entry that the check reads as a subdomain of a managed one, and the compiler, which
    takes what follows a single colon for a port, as another host: the check accepts it and
    the host it then lets through is outside the managed list. *)
Example colon_entry_escapes_managed_list :
  let st := demo_state (Some example_com) [($"evil.com:*.example.com", PermAllow)] in
  validate_policy_against_constraints (config st) (constraints st) = Ok tt /\
  host_blocked st $"evil.com" 443 = Allowed /\
  (exists ms, compile_allowlist_globset example_com = Ok ms /\
     globset_matches_host_or_unscoped ms $"evil.com" = false).
Proof.
  split_and!; [vm_compute; reflexivity..|]. eexists. split; vm_compute; reflexivity.
Qed.

(** A request recorded between the snapshot of a change and its commit is not in the log
    afterwards, and not counted. *)
Example update_loses_a_recorded_request :
  let st := push_blocked api_state (demo_blocked $"a.org") in
  map blocked_host (blocked st) = [$"a.org"] /\
  match update_domain_list_attempt api_state st $"www.example.com" AllowList with
  | Finished st' r => r = Ok tt /\ blocked st' = [] /\ blocked_total st' = 0%N
  | Retry => False
  end.
Proof. split_and!; vm_compute; auto. Qed.

(** A forced reload keeps the log and takes the total of the new state. *)
Example forced_reload_resets_the_total :
  let st := push_blocked api_state (demo_blocked $"a.org") in
  let st' := fst (force_reload st (Ok api_state)) in
  length (blocked st') = 1 /\ blocked_total st' = 0%N /\
  blocked_total (fst (replace_config_state st (Ok None) api_state)) = 1%N.
Proof. split_and!; vm_compute; reflexivity. Qed.
End NetSafety.
