(* ===== verification/NetworkFront.v ===== *)
(** The doors of the network proxy: HTTP requests and tunnels
    ([network-proxy/src/http_proxy.rs]), SOCKS ([socks5.rs]), requests inside intercepted
    tunnels ([mitm.rs]), their answers ([responses.rs]), the route upstream ([upstream.rs])
    and the check of the address that is dialed ([connect_policy.rs]).

    A handler runs in a world of which other tasks change the state: each operation on the
    state first reloads, then anything may happen to the state, then the operation reads or
    writes it at once.  Audit events and log lines are left out. *)
From S2P Require Import Prelude Paths PathOps IpAddr NetworkPolicy MitmHooks NetworkConfig NetworkConstraints.
From S2P Require Import NetworkProxy.
From stdpp Require Import gmap.

Module Front.
Import Ip NetPolicy Mitm NetConfig NetState Proxy.

(** ** The world of a handler *)

Record Moment := mkMoment {
  reload_answer : result ProxyError (option ConfigState);
  interference : ConfigState -> ConfigState;
  unix_timestamp : Z;
}.
(** What happens at each operation of a handler. *)
Class Environment := moment : nat -> Moment.
Record World := mkWorld { world_state : ConfigState; tick : nat }.

Definition Op (A : Type) : Type := World -> A * World.
#[global] Instance op_ret : MRet Op := fun _ a w => (a, w).
#[global] Instance op_bind : MBind Op := fun _ _ k m w => let '(a, w) := m w in k a w.

(** ** Requests *)

(** The parts of a [RequestContext]; the port of the host is the written or the default one. *)
Record RequestContext := mkContext {
  authority_host : str;
  authority_port : option N;
  authority_host_with_port : str * N;
  authority_has_default_port : bool;
}.
(** A proxied request, with what the crates read of it: its context, and its typed [Host]
    header, which may be malformed or missing. *)
Record PlainRequest := mkPlain {
  plain_method : str;
  plain_has_scheme : bool;
  plain_context : option RequestContext;
  plain_host_header : option (option (str * option N));
  plain_headers : list (str * str);
  plain_path_and_query : option str;
  plain_client : option str;
}.
Record ConnectRequest := mkConnect {
  connect_authority : option (str * N);
  connect_client : option str;
}.
Record SocksRequest := mkSocks {
  socks_authority : str * N;
  socks_client : option str;
}.
Record MitmRequest := mkMitmRequest {
  inner : Request;
  uri_authority : option str;
  uri_path_and_query : option str;
  mitm_client : option str;
}.

(** A proxy address and, when it has a protocol, whether that is HTTP. *)
Record ProxyAddress := mkProxyAddress { proxy_address : str; proxy_is_http : option bool }.
Class FrontCrates := {
  (** Equality of [rama_net::address::Host]s. *)
  host_eqb : str -> str -> bool;
  (** [ProxyAddress::try_from]. *)
  proxy_address_try_from : str -> option ProxyAddress;
  (** [Uri::from_str] accepts the text. *)
  uri_parse : str -> bool;
}.

(** ** Responses *)

Definition REASON_METHOD_NOT_ALLOWED : str := $"method_not_allowed".
Definition REASON_MITM_HOOK_DENIED : str := $"mitm_hook_denied".
Definition REASON_MITM_REQUIRED : str := $"mitm_required".
Definition REASON_PROXY_DISABLED : str := $"proxy_disabled".
Definition REASON_UNIX_SOCKET_UNSUPPORTED : str := $"unix_socket_unsupported".

Record PolicyDecisionDetails := mkDetails {
  details_decision : NetworkPolicyDecision;
  details_source : NetworkDecisionSource;
  details_protocol : NetworkProtocol;
  details_port : N;
}.
Record BlockedResponse := mkBlockedResponse {
  response_status : str;
  response_host : str;
  response_reason : str;
  response_decision : option str;
  response_source : option str;
  response_protocol : option str;
  response_port : option N;
  response_message : option str;
}.
Inductive Body := TextBody (s : str) | JsonBody (b : BlockedResponse).
Record Response := mkResponse {
  status : N;
  content_type : str;
  x_proxy_error : option str;
  body : Body;
}.
Definition text_response (status : N) (body : str) : Response :=
  mkResponse status $"text/plain" None (TextBody body).
Definition json_response (value : BlockedResponse) : Response :=
  mkResponse 200 $"application/json" None (JsonBody value).
Definition blocked_header_value (reason : str) : str :=
  if bool_decide (reason = REASON_NOT_ALLOWED) || bool_decide (reason = REASON_NOT_ALLOWED_LOCAL)
  then $"blocked-by-allowlist"
  else if bool_decide (reason = REASON_DENIED) then $"blocked-by-denylist"
  else if bool_decide (reason = REASON_METHOD_NOT_ALLOWED) then $"blocked-by-method-policy"
  else if bool_decide (reason = REASON_MITM_HOOK_DENIED) then $"blocked-by-mitm-hook"
  else if bool_decide (reason = REASON_MITM_REQUIRED) then $"blocked-by-mitm-required"
  else $"blocked-by-policy".
Definition blocked_message (reason : str) : str :=
  if bool_decide (reason = REASON_NOT_ALLOWED) then $"Domain not in allowlist."
  else if bool_decide (reason = REASON_NOT_ALLOWED_LOCAL)
  then $"Sandbox policy blocks local/private network addresses."
  else if bool_decide (reason = REASON_DENIED) then $"Domain denied by the sandbox policy."
  else if bool_decide (reason = REASON_METHOD_NOT_ALLOWED) then $"Method not allowed in limited mode."
  else if bool_decide (reason = REASON_MITM_HOOK_DENIED) then $"HTTPS request denied by MITM hook policy."
  else if bool_decide (reason = REASON_MITM_REQUIRED) then $"MITM required for limited HTTPS."
  else if bool_decide (reason = REASON_PROXY_DISABLED) then $"network proxy is disabled"
  else $"Request blocked by network policy.".
Definition blocked_text_response (reason : str) : Response :=
  mkResponse 403 $"text/plain" (Some (blocked_header_value reason)) (TextBody (blocked_message reason)).
(** The details do not show in the message. *)
Definition blocked_message_with_policy (reason : str) (details : PolicyDecisionDetails) : str :=
  blocked_message reason.
Definition blocked_text_response_with_policy (reason : str) (details : PolicyDecisionDetails) : Response :=
  mkResponse 403 $"text/plain" (Some (blocked_header_value reason))
    (TextBody (blocked_message_with_policy reason details)).
Definition json_blocked (host reason : str) (details : option PolicyDecisionDetails) : Response :=
  let response :=
    mkBlockedResponse $"blocked" host reason
      (policy_decision_as_str ∘ details_decision <$> details) (source_as_str ∘ details_source <$> details)
      (as_policy_protocol ∘ details_protocol <$> details) (details_port <$> details)
      (blocked_message_with_policy reason <$> details) in
  let resp := json_response response in
  mkResponse 403 (content_type resp) (Some (blocked_header_value reason)) (body resp).
Definition internal_error : Response := text_response 500 $"error".

(** [BlockedRequest::new]. *)
Definition blocked_request (host reason : str) (client method : option str) (mode : option NetworkMode) (protocol : str)
    (decision source : option str) (port : N) (timestamp : Z) : BlockedRequest :=
  mkBlocked host reason client method mode protocol decision source (Some port) timestamp.

(** ** Hop-by-hop headers *)

Section headers.
Context `{HttpCrates}.

Definition header_get (name : str) (hs : list (str * str)) : option str := head (get_all name hs).
Definition connection_tokens (raw_connection : str) : list str :=
  List.filter (fun token => negb (Str.is_empty token)) (map Str.trim (Str.split (ch ",") raw_connection)).
Definition remove_token (hs : list (str * str)) (token : str) : list (str * str) :=
  match header_name_from_bytes token with Some name => remove_header name hs | None => hs end.
(** Each turn removes every [Connection] header; the fuel is the number of headers. *)
Fixpoint remove_connection_headers (fuel : nat) (hs : list (str * str)) : list (str * str) :=
  match fuel with
  | O => hs
  | S fuel =>
      match header_get $"connection" hs with
      | None => hs
      | Some raw_connection =>
          let hs := remove_header $"connection" hs in
          remove_connection_headers fuel
            match header_value_to_str raw_connection with
            | Some raw_connection => fold_left remove_token (connection_tokens raw_connection) hs
            | None => hs
            end
      end
  end.
Definition HOP_BY_HOP : list str :=
  [$"keep-alive"; $"proxy-connection"; $"proxy-authorization"; $"trailer"; $"transfer-encoding"; $"upgrade"; $"te"].
Definition remove_hop_by_hop_request_headers (hs : list (str * str)) : list (str * str) :=
  fold_left (fun hs name => remove_header name hs) HOP_BY_HOP (remove_connection_headers (length hs) hs).
End headers.

(** ** The route upstream *)

Record ProxyConfig := mkProxyConfig {
  proxy_http : option ProxyAddress;
  proxy_https : option ProxyAddress;
  proxy_all : option ProxyAddress;
}.
Definition proxy_config_default : ProxyConfig := mkProxyConfig None None None.
Definition or_else {A} (a b : option A) : option A := match a with Some _ => a | None => b end.
Definition proxy_for_protocol (c : ProxyConfig) (is_secure : bool) : option ProxyAddress :=
  if is_secure then or_else (or_else (proxy_https c) (proxy_http c)) (proxy_all c)
  else or_else (proxy_http c) (proxy_all c).

Section upstream.
Context `{SecretEnv, FrontCrates}.
Fixpoint read_proxy_env (keys : list str) : option ProxyAddress :=
  match keys with
  | [] => None
  | key :: keys =>
      match env_var key with
      | None => read_proxy_env keys
      | Some value =>
          let value := Str.trim value in
          if Str.is_empty value then read_proxy_env keys
          else
            match proxy_address_try_from value with
            | Some proxy => if default true (proxy_is_http proxy) then Some proxy else read_proxy_env keys
            | None => read_proxy_env keys
            end
      end
  end.
Definition proxy_config_from_env : ProxyConfig :=
  mkProxyConfig (read_proxy_env [$"HTTP_PROXY"; $"http_proxy"]) (read_proxy_env [$"HTTPS_PROXY"; $"https_proxy"])
    (read_proxy_env [$"ALL_PROXY"; $"all_proxy"]).
Definition proxy_for_connect : option ProxyAddress := proxy_for_protocol proxy_config_from_env true.
End upstream.

Section front.
Context `{UrlHost, HttpCrates, SecretEnv, GlobEngine, MitmSetup, ProxyEnv, FrontCrates, Environment}.

(** ** Operations on the shared state *)

Definition op_next : Op (result ProxyError ConfigState) := fun w =>
  let m := moment (tick w) in
  let '(st, r) := reload_if_needed (world_state w) (reload_answer m) in
  let st := interference m st in
  (match r with Ok _ => Ok st | Err e => Err e end, mkWorld st (S (tick w))).
Definition op_read {A} (f : ConfigState -> A) : Op (result ProxyError A) :=
  r ← op_next; mret (match r with Ok st => Ok (f st) | Err e => Err e end).
(** [let _ = app_state.record_blocked(..)]: a failed reload records nothing. *)
Definition record_blocked (entry : Z -> BlockedRequest) : Op unit := fun w =>
  let now := unix_timestamp (moment (tick w)) in
  match op_next w with
  | (Ok st, w) => (tt, mkWorld (push_blocked st (entry now)) (tick w))
  | (Err _, w) => (tt, w)
  end.

Definition Decide : Type := option (NetworkPolicyRequest -> NetworkDecision).

(** ** Tunnels *)

Record Accepted := mkAccepted {
  proxy_target : str * N;
  connect_mitm_enabled : bool;
  accepted_mode : NetworkMode;
  accepted_mitm : bool;
}.
Definition proxy_disabled_response (host : str) (port : N) (client method : option str) (protocol : NetworkProtocol)
    : Op Response :=
  _ ← record_blocked (blocked_request host REASON_PROXY_DISABLED client method None (as_policy_protocol protocol)
        (Some $"deny") (Some $"proxy_state") port);
  mret (text_response 503
    (blocked_message_with_policy REASON_PROXY_DISABLED (mkDetails PolicyDeny ProxyState protocol port))).

Definition http_connect_accept (decider : Decide) (req : ConnectRequest) : Op (result Response Accepted) :=
  match connect_authority req with
  | None => mret (Err (text_response 400 $"missing authority"))
  | Some authority =>
      let host := normalize_host (fst authority) in
      let port := snd authority in
      let client := connect_client req in
      let method := Some $"CONNECT" in
      if Str.is_empty host then mret (Err (text_response 400 $"invalid host"))
      else
        enabled ← op_read (fun st => enabled (config st));
        match enabled with
        | Err _ => mret (Err internal_error)
        | Ok false => r ← proxy_disabled_response host port client method HttpsConnect; mret (Err r)
        | Ok true =>
            let request := mkPolicyRequest HttpsConnect host port client method None None in
            decision ← op_read (fun st => evaluate_host_policy st decider request);
            match decision with
            | Err _ => mret (Err internal_error)
            | Ok (Deny reason source decision) =>
                let details := mkDetails decision source HttpsConnect port in
                _ ← record_blocked (blocked_request host reason client method None $"http-connect"
                      (Some (policy_decision_as_str decision)) (Some (source_as_str source)) port);
                mret (Err (blocked_text_response_with_policy reason details))
            | Ok Proxy.Allow =>
                network_mode ← op_read (fun st => mode (config st));
                match network_mode with
                | Err _ => mret (Err internal_error)
                | Ok network_mode =>
                    mitm ← op_read mitm_state;
                    match mitm with
                    | Err _ => mret (Err internal_error)
                    | Ok mitm =>
                        hooks ← op_read (fun st => host_has_mitm_hooks st host);
                        match hooks with
                        | Err _ => mret (Err internal_error)
                        | Ok hooks =>
                            let connect_needs_mitm := bool_decide (network_mode = Limited) || hooks in
                            if connect_needs_mitm && negb mitm then
                              _ ← record_blocked (blocked_request host REASON_MITM_REQUIRED client method
                                    (Some network_mode) $"http-connect" (Some (policy_decision_as_str PolicyDeny))
                                    (Some (source_as_str ModeGuard)) port);
                              mret (Err (blocked_text_response_with_policy REASON_MITM_REQUIRED
                                           (mkDetails PolicyDeny ModeGuard HttpsConnect port)))
                            else
                              mret (Ok (mkAccepted authority connect_needs_mitm network_mode
                                          (connect_needs_mitm && mitm)))
                        end
                    end
                end
            end
        end
  end.

(** Where an accepted tunnel goes. *)
Inductive Route :=
| MitmTunnel (target_host : str) (target_port : N) (mode : NetworkMode)
| Tunnel (target : str * N) (proxy : option ProxyAddress).
Definition http_connect_proxy (a : Accepted) : Op Route :=
  if connect_mitm_enabled a && accepted_mitm a then
    mret (MitmTunnel (normalize_host (fst (proxy_target a))) (snd (proxy_target a)) (accepted_mode a))
  else
    allow ← op_read (fun st => allow_upstream_proxy (config st));
    let allow_upstream_proxy := match allow with Ok allow => allow | Err _ => false end in
    mret (Tunnel (proxy_target a) (if allow_upstream_proxy then proxy_for_connect else None)).

(** ** Dialing *)

Inductive TargetPolicy := PolicyConfig (allow_local_binding : bool) | PolicyState.
Inductive DialError := PolicyUnreadable (e : ProxyError) | TargetRejected.
Definition target_allow_local_binding (policy : TargetPolicy) : Op (result ProxyError bool) :=
  match policy with
  | PolicyConfig allow => mret (Ok allow)
  | PolicyState => op_read (fun st => allow_local_binding (config st))
  end.
(** [TargetCheckedStreamConnector::connect], up to the connection itself. *)
Definition target_checked_connect (policy : TargetPolicy) (addr : IpAddr) : Op (result DialError unit) :=
  allow ← target_allow_local_binding policy;
  mret (match allow with
        | Err e => Err (PolicyUnreadable e)
        | Ok allow => if negb allow && is_non_public_ip addr then Err TargetRejected else Ok tt
        end).

(** ** Plain requests *)

Definition validate_absolute_form_host_header (req : PlainRequest) (ctx : RequestContext) : result str unit :=
  let mismatch := Err $"Host header does not match request target" in
  if negb (plain_has_scheme req) then Ok tt
  else
    match plain_host_header req with
    | None => Err $"invalid Host header"
    | Some None => Ok tt
    | Some (Some (host, port)) =>
        if negb (host_eqb host (authority_host ctx)) then mismatch
        else
          match port with
          | Some _ => if bool_decide (port = authority_port ctx) then Ok tt else mismatch
          | None => if authority_has_default_port ctx then Ok tt else mismatch
          end
    end.

Inductive PlainOutcome :=
| Respond (r : Response)
| ForwardUpstream (proxies : ProxyConfig) (headers : list (str * str))
| ForwardUnix (socket_path : str) (uri : str) (headers : list (str * str)).

(** [proxy_via_unix_socket], up to the connection. *)
Definition proxy_via_unix_socket (req : PlainRequest) (socket_path : str) : PlainOutcome :=
  if is_macos then
    let path := default $"/" (plain_path_and_query req) in
    if uri_parse path
    then ForwardUnix socket_path path
           (remove_hop_by_hop_request_headers (remove_header $"x-unix-socket" (plain_headers req)))
    else Respond (text_response 502 $"unix socket proxy failed")
  else Respond (text_response 502 $"unix socket proxy failed").

Definition unix_socket_request (req : PlainRequest) (method_allowed : bool) (unix_socket_header : str) : Op PlainOutcome :=
  match header_value_to_str unix_socket_header with
  | None => mret (Respond (text_response 400 $"invalid x-unix-socket header"))
  | Some socket_path =>
      enabled ← op_read (fun st => enabled (config st));
      match enabled with
      | Err _ => mret (Respond internal_error)
      | Ok false =>
          r ← proxy_disabled_response socket_path 0 (plain_client req) (Some (plain_method req)) Http; mret (Respond r)
      | Ok true =>
          if negb method_allowed
          then mret (Respond (json_blocked $"unix-socket" REASON_METHOD_NOT_ALLOWED None))
          else if negb is_macos then mret (Respond (text_response 501 $"unix sockets unsupported"))
          else
            allowed ← op_read (fun st => is_unix_socket_allowed st socket_path);
            mret match allowed with
                 | Ok true => proxy_via_unix_socket req socket_path
                 | Ok false => Respond (json_blocked $"unix-socket" REASON_NOT_ALLOWED None)
                 | Err _ => Respond internal_error
                 end
      end
  end.

Definition host_request (decider : Decide) (req : PlainRequest) (method_allowed : bool) : Op PlainOutcome :=
  match plain_context req with
  | None => mret (Respond (text_response 400 $"missing host"))
  | Some ctx =>
      let host := normalize_host (fst (authority_host_with_port ctx)) in
      let port := snd (authority_host_with_port ctx) in
      let client := plain_client req in
      let method := Some (plain_method req) in
      match validate_absolute_form_host_header req ctx with
      | Err reason => mret (Respond (text_response 400 reason))
      | Ok _ =>
          enabled ← op_read (fun st => enabled (config st));
          match enabled with
          | Err _ => mret (Respond internal_error)
          | Ok false => r ← proxy_disabled_response host port client method Http; mret (Respond r)
          | Ok true =>
              let request := mkPolicyRequest Http host port client method None None in
              decision ← op_read (fun st => evaluate_host_policy st decider request);
              match decision with
              | Err _ => mret (Respond internal_error)
              | Ok (Deny reason source decision) =>
                  _ ← record_blocked (blocked_request host reason client method None $"http"
                        (Some (policy_decision_as_str decision)) (Some (source_as_str source)) port);
                  mret (Respond (json_blocked host reason (Some (mkDetails decision source Http port))))
              | Ok Proxy.Allow =>
                  if negb method_allowed then
                    _ ← record_blocked (blocked_request host REASON_METHOD_NOT_ALLOWED client method (Some Limited)
                          $"http" (Some (policy_decision_as_str PolicyDeny)) (Some (source_as_str ModeGuard)) port);
                    mret (Respond (json_blocked host REASON_METHOD_NOT_ALLOWED
                                     (Some (mkDetails PolicyDeny ModeGuard Http port))))
                  else
                    allow ← op_read (fun st => allow_upstream_proxy (config st));
                    mret match allow with
                         | Err _ => Respond internal_error
                         | Ok allow =>
                             ForwardUpstream (if (allow : bool) then proxy_config_from_env else proxy_config_default)
                               (remove_hop_by_hop_request_headers (plain_headers req))
                         end
              end
          end
      end
  end.

Definition http_plain_proxy (decider : Decide) (req : PlainRequest) : Op PlainOutcome :=
  allowed ← op_read (fun st => method_allowed st (plain_method req));
  match allowed with
  | Err _ => mret (Respond internal_error)
  | Ok method_allowed =>
      match header_get $"x-unix-socket" (plain_headers req) with
      | Some unix_socket_header => unix_socket_request req method_allowed unix_socket_header
      | None => host_request decider req method_allowed
      end
  end.

(** ** SOCKS *)

Inductive SocksError :=
| InvalidInput
| PermissionDenied (message : str)
| ProxyFailed.
Definition policy_denied_error (reason : str) (details : PolicyDecisionDetails) : SocksError :=
  PermissionDenied (blocked_message_with_policy reason details).

(** [handle_socks5_tcp] up to the dial of its target, with its protocol names. *)
Definition socks_refusal (host reason : str) (port : N) (client : option str) (recorded_mode : option NetworkMode)
    (protocol_name : str) (protocol : NetworkProtocol) (decision : NetworkPolicyDecision) (source : NetworkDecisionSource)
    : Op (result SocksError unit) :=
  _ ← record_blocked (blocked_request host reason client None recorded_mode protocol_name
        (Some (policy_decision_as_str decision)) (Some (source_as_str source)) port);
  mret (Err (policy_denied_error reason (mkDetails decision source protocol port))).
Definition socks_host_policy (decider : Decide) (host : str) (port : N) (client : option str) (protocol_name : str)
    (protocol : NetworkProtocol) : Op (result SocksError unit) :=
  decision ← op_read (fun st => evaluate_host_policy st decider (mkPolicyRequest protocol host port client None None None));
  match decision with
  | Err _ => mret (Err ProxyFailed)
  | Ok (Deny reason source decision) => socks_refusal host reason port client None protocol_name protocol decision source
  | Ok Proxy.Allow => mret (Ok tt)
  end.
Definition handle_socks5_tcp (decider : Decide) (req : SocksRequest) : Op (result SocksError unit) :=
  let host := normalize_host (fst (socks_authority req)) in
  let port := snd (socks_authority req) in
  let client := socks_client req in
  let refuse (reason : str) (recorded_mode : option NetworkMode) := socks_refusal host reason port client recorded_mode $"socks5" Socks5Tcp PolicyDeny in
  if Str.is_empty host then mret (Err InvalidInput)
  else
    enabled ← op_read (fun st => enabled (config st));
    match enabled with
    | Err _ => mret (Err ProxyFailed)
    | Ok false => refuse REASON_PROXY_DISABLED None ProxyState
    | Ok true =>
        network_mode ← op_read (fun st => mode (config st));
        match network_mode with
        | Err _ => mret (Err ProxyFailed)
        | Ok Limited => refuse REASON_METHOD_NOT_ALLOWED (Some Limited) ModeGuard
        | Ok Full =>
            hooks ← op_read (fun st => host_has_mitm_hooks st host);
            match hooks with
            | Err _ => mret (Err ProxyFailed)
            | Ok true => refuse REASON_MITM_REQUIRED (Some Full) ModeGuard
            | Ok false => socks_host_policy decider host port client $"socks5" Socks5Tcp
            end
        end
    end.
(** The relayed payload is the one of the request. *)
Definition inspect_socks5_udp (decider : Decide) (req : SocksRequest) : Op (result SocksError unit) :=
  let host := normalize_host (fst (socks_authority req)) in
  let port := snd (socks_authority req) in
  let client := socks_client req in
  let refuse (reason : str) (recorded_mode : option NetworkMode) :=
    socks_refusal host reason port client recorded_mode $"socks5-udp" Socks5Udp PolicyDeny in
  if Str.is_empty host then mret (Err InvalidInput)
  else
    enabled ← op_read (fun st => enabled (config st));
    match enabled with
    | Err _ => mret (Err ProxyFailed)
    | Ok false => refuse REASON_PROXY_DISABLED None ProxyState
    | Ok true =>
        network_mode ← op_read (fun st => mode (config st));
        match network_mode with
        | Err _ => mret (Err ProxyFailed)
        | Ok Limited => refuse REASON_METHOD_NOT_ALLOWED (Some Limited) ModeGuard
        | Ok Full => socks_host_policy decider host port client $"socks5-udp" Socks5Udp
        end
    end.

(** ** Inside an intercepted tunnel *)

Record MitmPolicyContext := mkPolicyContext { target_host : str; target_port : N; policy_mode : NetworkMode }.
Inductive MitmPolicyDecision :=
| MitmAllow (hook_actions : option MitmHookActions)
| MitmBlock (r : Response).

Definition extract_request_host (req : MitmRequest) : option str :=
  or_else (v ← header_get $"host" (request_headers (inner req)); header_value_to_str v) (uri_authority req).
Definition authority_header_value (host : str) (port : N) : str :=
  if Str.contains_char colon host then
    if (port =? 443)%N then $"[" ++ host ++ $"]" else $"[" ++ host ++ $"]:" ++ Str.show_N port
  else if (port =? 443)%N then host else host ++ $":" ++ Str.show_N port.

Definition mitm_block (req : MitmRequest) (policy : MitmPolicyContext) (reason : str)
    : Op (result ProxyError MitmPolicyDecision) :=
  _ ← record_blocked (blocked_request (target_host policy) reason (mitm_client req) (Some (method (inner req)))
        (Some (policy_mode policy)) $"https" None None (target_port policy));
  mret (Ok (MitmBlock (blocked_text_response reason))).
Definition host_mismatch (req : MitmRequest) (policy : MitmPolicyContext) : bool :=
  match extract_request_host req with
  | Some request_host =>
      let normalized := normalize_host request_host in
      negb (Str.is_empty normalized) && negb (bool_decide (normalized = target_host policy))
  | None => false
  end.
(** The end of [evaluate_mitm_policy]: hooks, then methods. *)
Definition evaluate_mitm_hook_policy (req : MitmRequest) (policy : MitmPolicyContext)
    : Op (result ProxyError MitmPolicyDecision) :=
  let method := method (inner req) in
  let check_method (hook_actions : option MitmHookActions) : Op (result ProxyError MitmPolicyDecision) :=
    if negb (allows_method (policy_mode policy) method) then mitm_block req policy REASON_METHOD_NOT_ALLOWED
    else mret (Ok (MitmAllow hook_actions)) in
  hooks ← op_read (fun st => evaluate_mitm_hooks (compiled_hooks st) (target_host policy) (inner req));
  match hooks with
  | Err e => mret (Err e)
  | Ok (Matched actions) => check_method (Some actions)
  | Ok HookedHostNoMatch => mitm_block req policy REASON_MITM_HOOK_DENIED
  | Ok NoHooksForHost => check_method None
  end.
Definition evaluate_mitm_policy (req : MitmRequest) (policy : MitmPolicyContext)
    : Op (result ProxyError MitmPolicyDecision) :=
  if bool_decide (method (inner req) = $"CONNECT")
  then mret (Ok (MitmBlock (text_response 405 $"CONNECT not supported inside MITM")))
  else if host_mismatch req policy then mret (Ok (MitmBlock (text_response 400 $"host mismatch")))
  else
    decision ← op_read (fun st => host_blocked st (target_host policy) (target_port policy));
    match decision with
    | Err e => mret (Err e)
    | Ok (Blocked NotAllowedLocal) => mitm_block req policy (reason_as_str NotAllowedLocal)
    | Ok _ => evaluate_mitm_hook_policy req policy
    end.

Inductive MitmOutcome :=
| MitmRespond (r : Response)
| MitmForward (uri : str) (headers : list (str * str)).
(** [handle_mitm_request] and [forward_request], up to the upstream; bodies are not inspected. *)
Definition handle_mitm_request (req : MitmRequest) (policy : MitmPolicyContext) : Op MitmOutcome :=
  let failed := MitmRespond (text_response 502 $"mitm upstream error") in
  decision ← evaluate_mitm_policy req policy;
  mret match decision with
       | Err _ => failed
       | Ok (MitmBlock response) => MitmRespond response
       | Ok (MitmAllow hook_actions) =>
           let path := default $"/" (uri_path_and_query req) in
           let hs := apply_mitm_hook_actions (request_headers (inner req)) hook_actions in
           let authority := authority_header_value (target_host policy) (target_port policy) in
           let uri := $"https://" ++ authority ++ path in
           if negb (uri_parse uri) then failed
           else
             match header_value_from_str authority with
             | None => failed
             | Some value => MitmForward uri (insert_header $"host" value hs)
             end
       end.
End front.
End Front.
