(* ===== verification/NetworkDoors.v ===== *)
(** What the doors of the network proxy promise: nothing gets through that the policy in
    force did not permit, refusals are recorded, and direct connections reach public
    addresses only. *)
From S2P Require Import Prelude Paths PathOps IpAddr NetworkPolicy MitmHooks NetworkConfig NetworkConstraints.
From S2P Require Import NetworkProxy NetworkSafety NetworkFront.
From stdpp Require Import gmap.

Module Doors.
Import Ip NetPolicy Mitm NetConfig NetState Proxy Front.

Section doors.
Context `{UrlHost, HttpCrates, SecretEnv, GlobEngine, MitmSetup, ProxyEnv, FrontCrates, Environment}.

(** ** Operations *)

(** An operation that starts in the first world finds the state and leaves the second. *)
Definition sees (w : World) (st : ConfigState) (w' : World) : Prop := op_next w = (Ok st, w').

Lemma op_bind_eq {A B} (m : Op A) (k : A -> Op B) w : (m ≫= k) w = k (fst (m w)) (snd (m w)).
Proof. unfold mbind, op_bind. by destruct (m w). Qed.

Lemma op_read_Ok {A} (f : ConfigState -> A) w r w' :
  op_read f w = (r, w') ->
  match r with Ok a => exists st, sees w st w' /\ a = f st | Err _ => True end.
Proof.
  unfold op_read. rewrite op_bind_eq. destruct (op_next w) as [[st|e] w1] eqn:E; cbn; intros [= <- <-]; [|done].
  exists st. by split.
Qed.

(** Runs the next operation of a handler in a hypothesis. *)
Ltac run_op Heq :=
  lazymatch type of Heq with
  | (op_read ?f ≫= _) ?w = _ =>
      let r := fresh "r" in let w' := fresh "w" in let E := fresh "E" in
      rewrite op_bind_eq in Heq; destruct (op_read f w) as [r w'] eqn:E; cbn [fst snd] in Heq;
      apply op_read_Ok in E; destruct r; [let st := fresh "st" in destruct E as (st & E & ->)|]
  end.

(** The policy permits a request: its host is allowed, or it is merely not listed and the
    decider allows it. *)
Definition permitted (decider : Decide) (st : ConfigState) (request : NetworkPolicyRequest) : Prop :=
  host_blocked st (request_host request) (request_port request) = Allowed \/
  host_blocked st (request_host request) (request_port request) = Blocked NotAllowed /\
  exists decide, decider = Some decide /\ decide request = Proxy.Allow.
Lemma policy_allow decider st request :
  evaluate_host_policy st decider request = Proxy.Allow <-> permitted decider st request.
Proof.
  unfold evaluate_host_policy, permitted. destruct (host_blocked _ _ _) as [|[]].
  - split; [by left|done].
  - split; [done|]. intros [?|[? _]]; done.
  - destruct decider as [decide|].
    + unfold map_decider_decision. destruct (decide request) eqn:E.
      * split; [|done]. right. eauto.
      * split; [done|]. intros [?|(_ & d & [= <-] & Hd)]; [done|congruence].
    + split; [done|]. intros [?|(_ & d & ? & _)]; done.
  - split; [done|]. intros [?|[? _]]; done.
Qed.

(** ** Tunnels *)

(** C34: A tunnel opens only if, one after the other, the proxy was enabled, the policy
    permitted the host, and the mode, the interception state and the hooks let it pass: in
    limited mode, and in every mode for a hooked host, it is intercepted, and never opens
    where it cannot be.  (That a hooked host is intercepted in full mode too is what
    [http_connect_accept] says in its comments, what its test
    [http_connect_accept_blocks_hooked_host_in_full_mode_without_mitm_state] and the tests
    of mitm_tests.rs in full mode expect, and what line 36 of the README documents; the
    older comment on [NetworkMode::Full], that hooks do not make full mode intercept, is
    out of date and recorded as a divergence.) *)
Theorem tunnels_open_under_policy decider req w a w' :
  http_connect_accept decider req w = (Ok a, w') ->
  let host := normalize_host (fst (proxy_target a)) in
  let port := snd (proxy_target a) in
  connect_authority req = Some (proxy_target a) /\ host <> [] /\
  exists st1 w1 st2 w2 st3 w3 st4 w4 st5,
    sees w st1 w1 /\ sees w1 st2 w2 /\ sees w2 st3 w3 /\ sees w3 st4 w4 /\ sees w4 st5 w' /\
    enabled (config st1) = true /\
    permitted decider st2 (mkPolicyRequest HttpsConnect host port (connect_client req) (Some $"CONNECT") None None) /\
    accepted_mode a = mode (config st3) /\
    (connect_mitm_enabled a = true <-> mode (config st3) = Limited \/ host_has_mitm_hooks st5 host = true) /\
    (connect_mitm_enabled a = true -> accepted_mitm a = true /\ mitm_state st4 = true).
Proof.
  unfold http_connect_accept. destruct (connect_authority req) as [[h port]|]; [|done]. cbn [fst snd].
  destruct (Str.is_empty (normalize_host h)) eqn:Eh; [done|]. intros Hrun.
  run_op Hrun; [|done]. destruct (enabled (config st)) eqn:He.
  2: { rewrite op_bind_eq in Hrun. done. }
  run_op Hrun; [|done]. destruct (evaluate_host_policy _ _ _) eqn:E2.
  2: { rewrite op_bind_eq in Hrun. done. }
  apply policy_allow in E2. do 3 (run_op Hrun; [|done]).
  destruct (_ && negb (mitm_state st2)) eqn:Em.
  { rewrite op_bind_eq in Hrun. done. }
  injection Hrun as <- <-. cbn [proxy_target fst snd accepted_mode connect_mitm_enabled accepted_mitm].
  split; [done|]. split; [by intros E'; rewrite E' in Eh|].
  exists st, w0, st0, w1, st1, w2, st2, w3, st3. split_and!; [done..| |].
  - by rewrite orb_true_iff, bool_decide_eq_true.
  - intros Hn. rewrite Hn in *. cbn [andb] in *. apply negb_false_iff in Em. by rewrite Em.
Qed.

(** ** SOCKS *)

Lemma socks_host_policy_Ok decider host port client name protocol w w' :
  socks_host_policy decider host port client name protocol w = (Ok tt, w') ->
  exists st, sees w st w' /\ permitted decider st (mkPolicyRequest protocol host port client None None None).
Proof.
  unfold socks_host_policy. intros Hrun. run_op Hrun; [|done]. destruct (evaluate_host_policy _ _ _) eqn:E2.
  - injection Hrun as <-. exists st. split; [done|]. by apply policy_allow.
  - unfold socks_refusal in Hrun. rewrite op_bind_eq in Hrun. done.
Qed.

(** SOCKS connections, whose requests the proxy cannot read, get through only in full
    mode, to hosts without hooks, while the proxy is enabled and the policy permits the
    host. *)
Theorem socks_connects_only_unrestricted_hosts decider req w w' :
  handle_socks5_tcp decider req w = (Ok tt, w') ->
  let host := normalize_host (fst (socks_authority req)) in
  exists st1 w1 st2 w2 st3 w3 st4,
    sees w st1 w1 /\ sees w1 st2 w2 /\ sees w2 st3 w3 /\ sees w3 st4 w' /\
    enabled (config st1) = true /\ mode (config st2) = Full /\ host_has_mitm_hooks st3 host = false /\
    permitted decider st4
      (mkPolicyRequest Socks5Tcp host (snd (socks_authority req)) (socks_client req) None None None).
Proof.
  unfold handle_socks5_tcp, socks_refusal. destruct (Str.is_empty _); [done|]. intros Hrun.
  run_op Hrun; [|done]. destruct (enabled (config st)) eqn:He.
  2: { rewrite op_bind_eq in Hrun. done. }
  run_op Hrun; [|done]. destruct (mode (config st0)) eqn:Hm.
  { rewrite op_bind_eq in Hrun. done. }
  run_op Hrun; [|done]. destruct (host_has_mitm_hooks st1 _) eqn:Hh.
  { rewrite op_bind_eq in Hrun. done. }
  apply socks_host_policy_Ok in Hrun as (st4 & Hs & Hp). eauto 20.
Qed.
(** ** Plain requests *)

(** A plain request leaves the proxy only as the policy allows: upstream, after its
    method was allowed by the mode, its [Host] header agreed with its target, the proxy was
    enabled and the policy permitted the host; to a local socket, only on macOS, after the
    same checks of method and proxy, when the socket's path is allowed. *)
Theorem plain_requests_leave_under_policy decider req w o w' :
  http_plain_proxy decider req w = (o, w') ->
  match o with
  | Respond _ => True
  | ForwardUpstream proxies hs =>
      exists ctx st1 w1 st2 w2 st3 w3 st4,
        plain_context req = Some ctx /\ validate_absolute_form_host_header req ctx = Ok tt /\
        sees w st1 w1 /\ sees w1 st2 w2 /\ sees w2 st3 w3 /\ sees w3 st4 w' /\
        method_allowed st1 (plain_method req) = true /\ enabled (config st2) = true /\
        permitted decider st3
          (mkPolicyRequest Http (normalize_host (fst (authority_host_with_port ctx)))
             (snd (authority_host_with_port ctx)) (plain_client req) (Some (plain_method req)) None None) /\
        (allow_upstream_proxy (config st4) = false -> proxies = proxy_config_default)
  | ForwardUnix socket_path _ _ =>
      is_macos = true /\
      exists st1 w1 st2 w2 st3,
        sees w st1 w1 /\ sees w1 st2 w2 /\ sees w2 st3 w' /\
        method_allowed st1 (plain_method req) = true /\ enabled (config st2) = true /\
        is_unix_socket_allowed st3 socket_path = true
  end.
Proof.
  unfold http_plain_proxy. intros Hrun. run_op Hrun; [|by injection Hrun as <- <-].
  destruct (header_get _ _) as [hv|].
  - unfold unix_socket_request in Hrun. destruct (header_value_to_str hv) as [path|]; [|by injection Hrun as <- <-].
    run_op Hrun; [|by injection Hrun as <- <-]. destruct (enabled _) eqn:He.
    2: { rewrite op_bind_eq in Hrun. by injection Hrun as <- <-. }
    destruct (method_allowed st _) eqn:Hm; cbn [negb] in Hrun; [|by injection Hrun as <- <-].
    destruct is_macos eqn:Hmac; cbn [negb] in Hrun; [|by injection Hrun as <- <-].
    run_op Hrun; [|by injection Hrun as <- <-]. injection Hrun as <- <-.
    destruct (is_unix_socket_allowed _ _) eqn:Hu; [|done]. unfold proxy_via_unix_socket. rewrite Hmac.
    destruct (uri_parse _); [|done]. split; [done|]. eauto 20.
  - unfold host_request in Hrun. destruct (plain_context req) as [ctx|]; [|by injection Hrun as <- <-].
    destruct (validate_absolute_form_host_header req ctx) as [[]|] eqn:Hv; [|by injection Hrun as <- <-].
    run_op Hrun; [|by injection Hrun as <- <-]. destruct (enabled _) eqn:He.
    2: { rewrite op_bind_eq in Hrun. by injection Hrun as <- <-. }
    run_op Hrun; [|by injection Hrun as <- <-]. destruct (evaluate_host_policy _ _ _) eqn:Hp.
    2: { rewrite op_bind_eq in Hrun. by injection Hrun as <- <-. }
    destruct (method_allowed st _) eqn:Hm; cbn [negb] in Hrun.
    2: { rewrite op_bind_eq in Hrun. by injection Hrun as <- <-. }
    run_op Hrun; [|by injection Hrun as <- <-]. injection Hrun as <- <-. apply policy_allow in Hp.
    exists ctx, st, w0, st0, w1, st1, w2, st2. split_and!; try done. by intros ->.
Qed.

(** ** Inside tunnels *)

Lemma get_all_app name a b : get_all name (a ++ b) = get_all name a ++ get_all name b.
Proof. unfold get_all. by rewrite List.filter_app, map_app. Qed.
Lemma get_all_remove name name' hs :
  get_all name (remove_header name' hs) = if bool_decide (name = name') then [] else get_all name hs.
Proof.
  unfold get_all, remove_header. induction hs as [|[n v] hs IH]; simpl; [by case_bool_decide|].
  destruct (decide (n = name')) as [->|Hn].
  - rewrite (bool_decide_true (name' = name')) by done. cbn [negb]. rewrite IH.
    destruct (decide (name = name')); [by rewrite !bool_decide_true|].
    rewrite bool_decide_false, (bool_decide_false (name' = name)) by congruence. done.
  - rewrite (bool_decide_false (n = name')) by done. cbn [negb List.filter]. simpl.
    destruct (decide (n = name)) as [->|]; [|by rewrite (bool_decide_false (n = name))].
    rewrite (bool_decide_true (name = name)) by done. simpl. rewrite IH. by rewrite bool_decide_false.
Qed.
Lemma get_all_insert name name' value hs :
  get_all name (insert_header name' value hs) = if bool_decide (name = name') then [value] else get_all name hs.
Proof.
  unfold insert_header. rewrite get_all_app, get_all_remove. unfold get_all at 2. cbn.
  case_bool_decide as E.
  - subst. by rewrite bool_decide_true.
  - rewrite bool_decide_false by congruence. by rewrite app_nil_r.
Qed.

Lemma remove_names_spec names name hs :
  get_all name (fold_left (fun hs n => remove_header n hs) names hs) =
  if bool_decide (name ∈ names) then [] else get_all name hs.
Proof.
  revert hs. induction names as [|n names IH]; intros hs; simpl; [done|].
  rewrite IH, get_all_remove. destruct (decide (name ∈ names)) as [Hl|Hl]; [by rewrite !bool_decide_true by (done || by right)|].
  rewrite (bool_decide_false (name ∈ names)) by done. destruct (decide (name = n)) as [->|Hn].
  - by rewrite !bool_decide_true by (done || by left).
  - rewrite !bool_decide_false; [done| |done]. by intros [?|?]%elem_of_cons.
Qed.

(** What a hook leaves of a header: its last injection, else nothing if it strips the
    header, else what was there. *)
Definition hooked_header (acts : MitmHookActions) (name : str) (old : list str) : list str :=
  match last (List.filter (fun h => bool_decide (injected_name h = name)) (inject_request_headers acts)) with
  | Some h => [injected_value h]
  | None => if bool_decide (name ∈ strip_request_headers acts) then [] else old
  end.
Lemma hook_actions_spec acts name hs :
  get_all name (apply_mitm_hook_actions hs (Some acts)) = hooked_header acts name (get_all name hs).
Proof.
  unfold hooked_header, apply_mitm_hook_actions.
  rewrite <- remove_names_spec.
  set (hs0 := fold_left _ (strip_request_headers acts) hs). clearbody hs0.
  induction (inject_request_headers acts) as [|h l IH] using rev_ind; [done|].
  rewrite fold_left_app, List.filter_app, last_app. cbn [fold_left]. rewrite get_all_insert. cbn [List.filter].
  case_bool_decide as E.
  - subst. by rewrite bool_decide_true.
  - rewrite bool_decide_false by congruence. exact IH.
Qed.

(** The hooks' verdict on a request, and the headers they leave. *)
Definition hooked (policy : MitmPolicyContext) (req : MitmRequest) (st : ConfigState) (hs : list (str * str)) : Prop :=
  match evaluate_mitm_hooks (compiled_hooks st) (target_host policy) (inner req) with
  | NoHooksForHost => forall name, name <> $"host" -> get_all name hs = get_all name (request_headers (inner req))
  | Matched acts => forall name, name <> $"host" ->
      get_all name hs = hooked_header acts name (get_all name (request_headers (inner req)))
  | HookedHostNoMatch => False
  end.
Lemma hook_policy_Allow req policy w acts w' :
  evaluate_mitm_hook_policy req policy w = (Ok (MitmAllow acts), w') ->
  allows_method (policy_mode policy) (method (inner req)) = true /\
  exists st, sees w st w' /\ forall value,
    hooked policy req st (insert_header $"host" value (apply_mitm_hook_actions (request_headers (inner req)) acts)).
Proof.
  unfold evaluate_mitm_hook_policy, mitm_block. intros Hrun. run_op Hrun; [|done]. unfold hooked.
  destruct (evaluate_mitm_hooks _ _ _) as [|a|] eqn:Hh; [| |by rewrite op_bind_eq in Hrun];
    (destruct (allows_method _ _); cbn [negb] in Hrun; [|by rewrite op_bind_eq in Hrun]);
    injection Hrun as <- <-; (split; [done|]); exists st; (split; [done|]); rewrite Hh; intros value name Hn;
    rewrite get_all_insert, bool_decide_false by done; [done|apply hook_actions_spec].
Qed.

(** A request inside an intercepted tunnel is forwarded only to the tunnel's own host,
    with a method its mode allows, while the host does not lead to a local address; when
    the host has hooks, only if one matches, and with exactly the headers the hook says,
    the [Host] header naming the tunnel's target. *)
Theorem intercepted_requests_follow_their_hook req policy w uri hs w' :
  handle_mitm_request req policy w = (MitmForward uri hs, w') ->
  let authority := authority_header_value (target_host policy) (target_port policy) in
  method (inner req) <> $"CONNECT" /\ allows_method (policy_mode policy) (method (inner req)) = true /\
  (forall h, extract_request_host req = Some h -> normalize_host h = [] \/ normalize_host h = target_host policy) /\
  exists st1 w1 st2 value,
    sees w st1 w1 /\ sees w1 st2 w' /\
    host_blocked st1 (target_host policy) (target_port policy) <> Blocked NotAllowedLocal /\
    header_value_from_str authority = Some value /\ get_all $"host" hs = [value] /\
    hooked policy req st2 hs.
Proof.
  unfold handle_mitm_request. rewrite op_bind_eq. destruct (evaluate_mitm_policy req policy w) as [d w1] eqn:Hrun.
  cbn [fst snd]. destruct d as [[acts|]|]; try done.
  destruct (uri_parse _); cbn [negb]; [|done].
  destruct (header_value_from_str _) as [value|] eqn:Hval; [|done]. intros [= _ <- <-].
  unfold evaluate_mitm_policy in Hrun. case_bool_decide as Hc; [done|].
  destruct (host_mismatch req policy) eqn:Hmis; [done|]. run_op Hrun; [|done].
  assert (host_blocked st (target_host policy) (target_port policy) <> Blocked NotAllowedLocal /\
    evaluate_mitm_hook_policy req policy w0 = (Ok (MitmAllow acts), w1)) as [Hlocal Hhook].
  { destruct (host_blocked st _ _) as [|[]]; try done. unfold mitm_block in Hrun. by rewrite op_bind_eq in Hrun. }
  apply hook_policy_Allow in Hhook as (Ha & st2 & Hs & Hhook). split; [done|]. split; [done|]. split.
  { intros h Hh. unfold host_mismatch in Hmis. rewrite Hh in Hmis.
    apply andb_false_iff in Hmis as [Hmis|Hmis]; apply negb_false_iff in Hmis.
    - left. by apply Str.is_empty_spec.
    - right. by apply bool_decide_eq_true in Hmis. }
  exists st, w0, st2, value. split_and!; try done. by rewrite get_all_insert, bool_decide_true.
Qed.
(** ** Refusals *)

(** No other task runs and nothing is reloaded. *)
Definition quiet : Prop :=
  forall n, reload_answer (moment n) = Ok None /\ forall st, interference (moment n) st = st.

Section quiet.
Context (Hq : quiet).
Lemma quiet_next w : op_next w = (Ok (world_state w), mkWorld (world_state w) (S (tick w))).
Proof. unfold op_next. destruct (Hq (tick w)) as [-> Hi]. cbn [reload_if_needed]. by rewrite Hi. Qed.
Lemma quiet_read {A} (f : ConfigState -> A) w :
  op_read f w = (Ok (f (world_state w)), mkWorld (world_state w) (S (tick w))).
Proof. unfold op_read. by rewrite op_bind_eq, quiet_next. Qed.
Lemma quiet_record e w :
  record_blocked e w =
  (tt, mkWorld (push_blocked (world_state w) (e (unix_timestamp (moment (tick w))))) (S (tick w))).
Proof. unfold record_blocked. by rewrite quiet_next. Qed.
End quiet.

(** A refusal of a request to a host left exactly one entry, with the reason that the
    answer gives. *)
Definition recorded (w w' : World) (host : str) (port : N) (client : option str) (message : str) : Prop :=
  exists entry, world_state w' = push_blocked (world_state w) entry /\
    blocked_host entry = host /\ blocked_port entry = Some port /\ NetState.client entry = client /\
    message = blocked_message (reason entry).

Lemma socks_policy_recorded decider host port client name protocol w :
  quiet ->
  let r := socks_host_policy decider host port client name protocol w in
  match fst r with
  | Ok _ => world_state (snd r) = world_state w
  | Err (PermissionDenied message) => recorded w (snd r) host port client message
  | Err _ => False
  end.
Proof.
  intros Hq. unfold socks_host_policy, socks_refusal. rewrite op_bind_eq, quiet_read by done. cbn [fst snd].
  destruct (evaluate_host_policy _ _ _); [done|]. rewrite op_bind_eq, quiet_record by done. eexists. done.
Qed.

(** A tunnel or SOCKS request that is refused leaves exactly one entry in the log, with
    its host, its port and its client, and the client is told the recorded reason; one that
    is let through or malformed changes nothing. *)
Theorem refusals_are_recorded decider :
  quiet ->
  (forall req w,
     let r := http_connect_accept decider req w in
     match fst r with
     | Ok _ => world_state (snd r) = world_state w
     | Err resp =>
         status resp = 400%N /\ world_state (snd r) = world_state w \/
         exists authority message, connect_authority req = Some authority /\
           (status resp = 403%N \/ status resp = 503%N) /\ body resp = TextBody message /\
           recorded w (snd r) (normalize_host (fst authority)) (snd authority) (connect_client req) message
     end) /\
  forall handle, handle = handle_socks5_tcp decider \/ handle = inspect_socks5_udp decider -> forall req w,
    let r := handle req w in
    match fst r with
    | Ok _ | Err InvalidInput => world_state (snd r) = world_state w
    | Err (PermissionDenied message) =>
        recorded w (snd r) (normalize_host (fst (socks_authority req))) (snd (socks_authority req)) (socks_client req)
          message
    | Err ProxyFailed => False
    end.
Proof.
  intros Hq. split.
  - intros req w. unfold http_connect_accept, proxy_disabled_response.
    destruct (connect_authority req) as [[h port]|]; [|by left]. cbn [fst snd].
    destruct (Str.is_empty _); [by left|]. rewrite op_bind_eq, quiet_read by done. cbn [fst snd].
    destruct (enabled _).
    2: { rewrite !op_bind_eq, quiet_record by done. right. do 2 eexists. split; [done|].
         split; [by right|]. split; [done|]. eexists. done. }
    rewrite op_bind_eq, quiet_read by done. cbn [fst snd world_state]. destruct (evaluate_host_policy _ _ _).
    2: { rewrite op_bind_eq, quiet_record by done. right. do 2 eexists. split; [done|].
         split; [by left|]. split; [done|]. eexists. done. }
    do 3 (rewrite op_bind_eq, quiet_read by done; cbn [fst snd]).
    destruct (_ && negb _); [|done].
    rewrite op_bind_eq, quiet_record by done. right. do 2 eexists. split; [done|].
    split; [by left|]. split; [done|]. eexists. done.
  - intros handle Hh req w. destruct Hh as [-> | ->]; unfold handle_socks5_tcp, inspect_socks5_udp;
      (destruct (Str.is_empty _); [done|]); rewrite op_bind_eq, quiet_read by done; cbn [fst snd];
      (destruct (enabled _); [|unfold socks_refusal; rewrite op_bind_eq, quiet_record by done; eexists; done]);
      rewrite op_bind_eq, quiet_read by done; cbn [fst snd world_state];
      (destruct (mode _); [unfold socks_refusal; rewrite op_bind_eq, quiet_record by done; eexists; done|]).
    + rewrite op_bind_eq, quiet_read by done. cbn [fst snd world_state].
      destruct (host_has_mitm_hooks _ _); [unfold socks_refusal; rewrite op_bind_eq, quiet_record by done; eexists; done|].
      pose proof (socks_policy_recorded decider (normalize_host (fst (socks_authority req))) (snd (socks_authority req))
        (socks_client req) $"socks5" Socks5Tcp (mkWorld (world_state w) (S (S (S (tick w))))) Hq) as Hr.
      revert Hr. cbn [tick]. destruct (socks_host_policy _ _ _ _ _ _ _) as [[[]|[]] w']; done.
    + pose proof (socks_policy_recorded decider (normalize_host (fst (socks_authority req))) (snd (socks_authority req))
        (socks_client req) $"socks5-udp" Socks5Udp (mkWorld (world_state w) (S (S (tick w)))) Hq) as Hr.
      revert Hr. cbn [tick]. destruct (socks_host_policy _ _ _ _ _ _ _) as [[[]|[]] w']; done.
Qed.

(** ** Direct connections *)

(** Whatever a name resolved to when the policy was checked, with local binding off a
    direct connection is only made to an address outside every special-purpose block. *)
Theorem direct_connections_reach_public_addresses addr w w' :
  ip_wf addr -> target_checked_connect PolicyState addr w = (Ok tt, w') ->
  exists st, sees w st w' /\ (allow_local_binding (config st) = true \/ public addr).
Proof.
  intros Hwf. unfold target_checked_connect, target_allow_local_binding. intros Hrun. run_op Hrun; [|done].
  injection Hrun as Hrun <-. exists st. split; [done|]. destruct (allow_local_binding _); [by left|].
  right. apply non_public_spec; [done|]. cbn [negb andb] in Hrun. by destruct (is_non_public_ip addr).
Qed.

(** ** Hop-by-hop headers *)

Lemma remove_header_length name hs : length (remove_header name hs) <= length hs.
Proof. apply List.filter_length_le. Qed.
Lemma remove_header_absent name hs : get_all name hs <> [] -> length (remove_header name hs) < length hs.
Proof.
  unfold get_all, remove_header. induction hs as [|[n v] hs IH]; simpl; [done|].
  destruct (decide (n = name)) as [->|Hn].
  - rewrite bool_decide_true by done. intros _. simpl. pose proof (remove_header_length name hs) as Hl.
    unfold remove_header in Hl. lia.
  - rewrite bool_decide_false by done. simpl. intros Hg. specialize (IH Hg). lia.
Qed.
Lemma remove_token_keeps token name hs : get_all name hs = [] -> get_all name (remove_token hs token) = [].
Proof.
  intros Hn. unfold remove_token. destruct (header_name_from_bytes token); [|done].
  rewrite get_all_remove. by case_bool_decide.
Qed.
Lemma remove_tokens_keep tokens name hs : get_all name hs = [] -> get_all name (fold_left remove_token tokens hs) = [].
Proof. revert hs. induction tokens as [|t tokens IH]; intros hs Hn; simpl; [done|]. by apply IH, remove_token_keeps. Qed.

(** The loop removes the connection headers and what the first of them names. *)
Lemma connection_loop_spec fuel hs :
  length hs <= fuel ->
  remove_connection_headers fuel hs =
  match header_get $"connection" hs with
  | None => hs
  | Some raw =>
      match header_value_to_str raw with
      | Some raw => fold_left remove_token (connection_tokens raw) (remove_header $"connection" hs)
      | None => remove_header $"connection" hs
      end
  end.
Proof.
  destruct fuel as [|fuel]; intros Hf; [by destruct hs; [|simpl in Hf; lia]|].
  cbn [remove_connection_headers]. destruct (header_get _ hs) as [raw|] eqn:E; [|done].
  set (hs' := match header_value_to_str raw with Some _ => _ | None => _ end).
  assert (get_all $"connection" hs' = []) as Hn.
  { assert (get_all $"connection" (remove_header $"connection" hs) = []) as Hr by
      (by rewrite get_all_remove, bool_decide_true).
    unfold hs'. destruct (header_value_to_str raw); [by apply remove_tokens_keep|done]. }
  destruct fuel; cbn [remove_connection_headers]; [done|]. unfold header_get. by rewrite Hn.
Qed.
Lemma remove_tokens_spec tokens hs :
  fold_left remove_token tokens hs =
  fold_left (fun hs n => remove_header n hs) (omap header_name_from_bytes tokens) hs.
Proof.
  revert hs. induction tokens as [|t tokens IH]; intros hs; [done|]. cbn [fold_left].
  rewrite IH. unfold remove_token. simpl. by destruct (header_name_from_bytes t).
Qed.

(** The headers a proxy must not forward: the fixed ones, [Connection], and those that the
    first [Connection] header names. *)
Definition removed_names (hs : list (str * str)) : list str :=
  $"connection" ::
  match header_get $"connection" hs with
  | None => []
  | Some raw =>
      match header_value_to_str raw with
      | Some raw => omap header_name_from_bytes (connection_tokens raw)
      | None => []
      end
  end ++ HOP_BY_HOP.

(** Exactly the hop-by-hop headers are taken from a forwarded request, every value of
    them, and every other header is forwarded with its values in order. *)
Theorem hop_by_hop_headers_are_removed hs name :
  get_all name (remove_hop_by_hop_request_headers hs) =
  if bool_decide (name ∈ removed_names hs) then [] else get_all name hs.
Proof.
  unfold remove_hop_by_hop_request_headers. rewrite remove_names_spec, connection_loop_spec by done.
  unfold removed_names. destruct (decide (name ∈ HOP_BY_HOP)) as [Hh|Hh].
  { rewrite !bool_decide_true; [done| |done]. apply elem_of_cons. right. apply elem_of_app. by right. }
  rewrite (bool_decide_false (name ∈ HOP_BY_HOP)) by done.
  assert (forall l, (name ∈ $"connection" :: l ++ HOP_BY_HOP) <-> name = $"connection" \/ name ∈ l) as Hin.
  { intros l. rewrite elem_of_cons, elem_of_app. tauto. }
  rewrite (bool_decide_ext _ _ (Hin _)). clear Hin.
  destruct (header_get $"connection" hs) as [raw|] eqn:E.
  - destruct (header_value_to_str raw) as [text|].
    + rewrite remove_tokens_spec, remove_names_spec, get_all_remove.
      set (l := omap _ _). destruct (decide (name ∈ l)); [by rewrite !bool_decide_true by tauto|].
      rewrite (bool_decide_false (name ∈ l)) by done.
      destruct (decide (name = $"connection")); [by rewrite !bool_decide_true by tauto|].
      by rewrite !bool_decide_false by tauto.
    + rewrite get_all_remove. assert (name = $"connection" \/ name ∈ @nil str <-> name = $"connection") as Hin by (rewrite elem_of_nil; tauto).
      by rewrite (bool_decide_ext _ _ Hin).
  - destruct (decide (name = $"connection")) as [->|Hn].
    + rewrite bool_decide_true by tauto. unfold header_get in E. by destruct (get_all _ hs).
    + rewrite bool_decide_false; [done|]. rewrite elem_of_nil. tauto.
Qed.
End doors.

(** ** Concrete runs *)

Module Runs.
Import NetPolicy.Small NetSafety.Demo.
#[global] Instance front_crates : FrontCrates := {
  host_eqb a b := bool_decide (a = b);
  proxy_address_try_from s := Some (mkProxyAddress s None);
  uri_parse _ := true;
}.
#[global] Instance environment : Environment := fun n => mkMoment (Ok None) (fun st => st) (Z.of_nat n).
Lemma environment_quiet : quiet.
Proof. intros n. by split. Qed.

(** An enabled proxy that lets api.example.com through, in a mode, with a hook for
    hooked.example.com. *)
Definition door_hook : MitmHookConfig :=
  mkHookConfig $"hooked.example.com"
    (mkMatchConfig [$"GET"] [$"/v1/"] [] [] None)
    (mkActionsConfig [$"cookie"] []).
Definition door_settings (m : NetworkMode) : NetworkProxySettings :=
  mkSettings true default_proxy_url true default_socks_url true false false false m
    (Some [mkEntry $"**.example.com" PermAllow]) None false true [door_hook].
Definition door_state (m : NetworkMode) : ConfigState :=
  match build_config_state (door_settings m) constraints_default with
  | Ok st => st
  | Err _ => mkState settings_default [] [] false ∅ constraints_default [] 0
  end.
Definition door_world (m : NetworkMode) : World := mkWorld (door_state m) 0.
End Runs.
Import NetPolicy.Small NetSafety.Demo Runs.

Lemma tunnels_open_under_policy_witness :
  exists a w', http_connect_accept None (mkConnect (Some ($"API.example.com", 443%N)) None) (door_world Limited) = (Ok a, w') /\
    connect_mitm_enabled a = true /\ accepted_mitm a = true.
Proof.
  eexists _, _. split; [vm_compute; reflexivity|].
  edestruct (tunnels_open_under_policy None (mkConnect (Some ($"API.example.com", 443%N)) None) (door_world Limited))
    as (_ & _ & (st1 & w1 & st2 & w2 & st3 & w3 & st4 & w4 & st5 & _ & _ & _ & _ & _ & _ & _ & Hm & Hn & Hi));
    [vm_compute; reflexivity|].
  split; [apply Hn; left; by rewrite <- Hm|]. apply Hi. apply Hn. left. by rewrite <- Hm.
Defined.

Lemma socks_connects_only_unrestricted_hosts_witness :
  exists w', handle_socks5_tcp None (mkSocks ($"api.example.com", 22%N) None) (door_world Full) = (Ok tt, w') /\
    exists st, mode (config st) = Full.
Proof.
  eexists. split; [vm_compute; reflexivity|].
  edestruct (socks_connects_only_unrestricted_hosts None (mkSocks ($"api.example.com", 22%N) None) (door_world Full))
    as (st1 & w1 & st2 & w2 & st3 & w3 & st4 & _ & _ & _ & _ & _ & Hm & _); [vm_compute; reflexivity|].
  by exists st2.
Defined.

Definition door_plain : PlainRequest :=
  mkPlain $"GET" true (Some (mkContext $"api.example.com" None ($"api.example.com", 80%N) true))
    (Some (Some ($"api.example.com", None))) [($"host", $"api.example.com"); ($"te", $"trailers")] (Some $"/v1/") None.
Lemma plain_requests_leave_under_policy_witness :
  exists w', http_plain_proxy None door_plain (door_world Limited) =
      (ForwardUpstream proxy_config_default [($"host", $"api.example.com")], w') /\
    exists st, enabled (config st) = true.
Proof.
  eexists. split; [vm_compute; reflexivity|].
  edestruct (plain_requests_leave_under_policy None door_plain (door_world Limited)
    (ForwardUpstream proxy_config_default [($"host", $"api.example.com")]))
    as (ctx & st1 & w1 & st2 & w2 & st3 & w3 & st4 & _ & _ & _ & _ & _ & _ & _ & He & _); [vm_compute; reflexivity|].
  by exists st2.
Defined.

Lemma intercepted_requests_follow_their_hook_witness :
  let req := mkMitmRequest (mkRequest $"GET" $"/v1/me" None [($"cookie", $"a=b"); ($"accept", $"*/*")]) None
               (Some $"/v1/me") None in
  let policy := mkPolicyContext $"hooked.example.com" 443 Limited in
  exists w', handle_mitm_request req policy (door_world Limited) =
      (MitmForward $"https://hooked.example.com/v1/me" [($"accept", $"*/*"); ($"host", $"hooked.example.com")], w') /\
    get_all $"host" [($"accept", $"*/*"); ($"host", $"hooked.example.com")] = [$"hooked.example.com"].
Proof.
  intros req policy. eexists. split; [vm_compute; reflexivity|].
  edestruct (intercepted_requests_follow_their_hook req policy (door_world Limited) $"https://hooked.example.com/v1/me")
    as (_ & _ & _ & (st1 & w1 & st2 & value & _ & _ & _ & Hv & Hh & _)); [vm_compute; reflexivity|].
  vm_compute in Hv. injection Hv as <-. exact Hh.
Defined.

Definition evil_request : ConnectRequest := mkConnect (Some ($"evil.org", 443%N)) None.
Lemma refusals_are_recorded_witness :
  match fst (http_connect_accept None evil_request (door_world Full)) with
  | Ok _ => False
  | Err resp =>
      status resp = 403%N /\
      exists message, recorded (door_world Full) (snd (http_connect_accept None evil_request (door_world Full)))
        $"evil.org" 443 None message
  end.
Proof.
  pose proof (proj1 (refusals_are_recorded None environment_quiet) evil_request (door_world Full)) as Hr.
  cbv zeta in Hr. assert (exists resp, fst (http_connect_accept None evil_request (door_world Full)) = Err resp /\
    status resp = 403%N) as (resp & E & Hs)
    by (eexists; split; [vm_compute; reflexivity|reflexivity]).
  rewrite E in Hr |- *. split; [exact Hs|].
  destruct Hr as [[Hs' _]|(authority & message & Ha & _ & _ & Hm)]; [congruence|].
  exists message. injection Ha as <-. exact Hm.
Defined.

Lemma direct_connections_reach_public_addresses_witness :
  exists w', target_checked_connect PolicyState (V4 (mkV4 8 8 8 8)) (door_world Full) = (Ok tt, w') /\
    exists st, allow_local_binding (config st) = true \/ public (V4 (mkV4 8 8 8 8)).
Proof.
  eexists. split; [vm_compute; reflexivity|].
  edestruct (direct_connections_reach_public_addresses (V4 (mkV4 8 8 8 8)) (door_world Full)) as (st & _ & Hp);
    [vm_compute; auto|vm_compute; reflexivity|]. by exists st.
Defined.

(** ** Where the doors and their documentation part *)

(** A local address that is listed explicitly passes the policy, and the connection to it
    is refused all the same. *)
Example listed_local_address_is_not_dialed :
  match build_config_state (set_domains (door_settings Full) (Some [mkEntry $"127.0.0.1" PermAllow])) constraints_default with
  | Ok st =>
      host_blocked st $"127.0.0.1" 8080 = Allowed /\
      fst (target_checked_connect PolicyState (V4 (mkV4 127 0 0 1)) (mkWorld st 0)) = Err TargetRejected
  | Err _ => False
  end.
Proof. vm_compute. auto. Qed.

(** The headers a second [Connection] header names are forwarded. *)
Example second_connection_header_is_not_read :
  remove_hop_by_hop_request_headers
    [($"connection", $"x-a"); ($"connection", $"x-b"); ($"x-a", $"1"); ($"x-b", $"2")] = [($"x-b", $"2")].
Proof. vm_compute. reflexivity. Qed.

(** In full mode a tunnel to a hooked host is intercepted. *)
Example full_mode_intercepts_hooked_hosts :
  match fst (http_connect_accept None (mkConnect (Some ($"hooked.example.com", 443%N)) None) (door_world Full)) with
  | Ok a => accepted_mode a = Full /\ connect_mitm_enabled a = true
  | Err _ => False
  end.
Proof. vm_compute. auto. Qed.
End Doors.
