(* ===== verification/NetworkEnv.v ===== *)
(** The proxy as a whole ([network-proxy/src/proxy.rs], on Unix): the addresses its
    listeners are bound to, the replacement of its configuration while it runs, and the
    environment it gives to child processes. *)
From S2P Require Import Prelude Paths PathOps IpAddr NetworkPolicy MitmHooks NetworkConfig NetworkConstraints.
From S2P Require Import NetworkProxy NetworkSafety.
From stdpp Require Import gmap.

Module NetEnv.
Import Ip NetPolicy Mitm NetConfig NetState Proxy.

(** ** Addresses as text ([core::net]) *)

Definition hex_digit (n : N) : char := (if n <? 10 then 48 + n else 87 + n)%N.
Fixpoint show_hex_from (fuel : nat) (n : N) : str :=
  match fuel with
  | O => []
  | S fuel => (if (n <? 16)%N then [] else show_hex_from fuel (n / 16)) ++ [hex_digit (n mod 16)]
  end.
(** A group has at most four digits. *)
Definition show_group (n : N) : str := show_hex_from 4 n.
Definition show_v4 (ip : Ipv4Addr) : str :=
  Str.show_N (o0 ip) ++ $"." ++ Str.show_N (o1 ip) ++ $"." ++ Str.show_N (o2 ip) ++ $"." ++ Str.show_N (o3 ip).
Definition show_groups (l : list N) : str := Str.join $":" (map show_group l).
(** The first longest run of zero groups: its start and its length. *)
Fixpoint zero_span (i : nat) (segments : list N) (longest current : nat * nat) : nat * nat :=
  match segments with
  | [] => longest
  | s :: segments =>
      if (s =? 0)%N then
        let current := (if snd current =? 0 then i else fst current, snd current + 1) in
        zero_span (S i) segments (if snd longest <? snd current then current else longest) current
      else zero_span (S i) segments longest (0, 0)
  end.
Definition to_ipv4_mapped (ip : Ipv6Addr) : option Ipv4Addr :=
  match segments ip with
  | [0; 0; 0; 0; 0; 65535; ab; cd]%N => Some (mkV4 (ab / 256) (ab mod 256) (cd / 256) (cd mod 256))
  | _ => None
  end.
Definition show_v6 (ip : Ipv6Addr) : str :=
  match to_ipv4_mapped ip with
  | Some v4 => $"::ffff:" ++ show_v4 v4
  | None =>
      let '(start, len) := zero_span 0 (segments ip) (0, 0) (0, 0) in
      if 1 <? len then
        show_groups (take start (segments ip)) ++ $"::" ++ show_groups (drop (start + len) (segments ip))
      else show_groups (segments ip)
  end.
Definition show_socket_addr (a : SocketAddr) : str :=
  match addr_ip a with
  | V4 ip => show_v4 ip ++ $":" ++ Str.show_N (addr_port a)
  | V6 ip => $"[" ++ show_v6 ip ++ $"]:" ++ Str.show_N (addr_port a)
  end.
Example show_addrs :
  map (fun s => show_v6 <$> (ip ← parse_ip s; match ip with V6 v => Some v | V4 _ => None end))
    [$"::1"; $"::"; $"2001:DB8:0:0:1::1"; $"::ffff:10.0.0.1"; $"1:0:2:3:4:5:6:7"] =
  [Some $"::1"; Some $"::"; Some $"2001:db8::1:0:0:1"; Some $"::ffff:10.0.0.1"; Some $"1:0:2:3:4:5:6:7"].
Proof. vm_compute. reflexivity. Qed.

(** ** Environment keys *)

Definition PROXY_URL_ENV_KEYS : list str :=
  [$"HTTP_PROXY"; $"HTTPS_PROXY"; $"WS_PROXY"; $"WSS_PROXY"; $"ALL_PROXY"; $"FTP_PROXY"; $"YARN_HTTP_PROXY";
   $"YARN_HTTPS_PROXY"; $"NPM_CONFIG_HTTP_PROXY"; $"NPM_CONFIG_HTTPS_PROXY"; $"NPM_CONFIG_PROXY";
   $"BUNDLE_HTTP_PROXY"; $"BUNDLE_HTTPS_PROXY"; $"PIP_PROXY"; $"DOCKER_HTTP_PROXY"; $"DOCKER_HTTPS_PROXY"].
Definition ALL_PROXY_ENV_KEYS : list str := [$"ALL_PROXY"; $"all_proxy"].
Definition PROXY_ACTIVE_ENV_KEY : str := $"CODEX_NETWORK_PROXY_ACTIVE".
Definition ALLOW_LOCAL_BINDING_ENV_KEY : str := $"CODEX_NETWORK_ALLOW_LOCAL_BINDING".
Definition ELECTRON_GET_USE_PROXY_ENV_KEY : str := $"ELECTRON_GET_USE_PROXY".
Definition NODE_USE_ENV_PROXY_ENV_KEY : str := $"NODE_USE_ENV_PROXY".
Definition GIT_SSH_COMMAND_ENV_KEY : str := $"GIT_SSH_COMMAND".
Definition PROXY_ENV_KEYS : list str :=
  [PROXY_ACTIVE_ENV_KEY; ALLOW_LOCAL_BINDING_ENV_KEY; ELECTRON_GET_USE_PROXY_ENV_KEY; NODE_USE_ENV_PROXY_ENV_KEY;
   $"HTTP_PROXY"; $"HTTPS_PROXY"; $"http_proxy"; $"https_proxy"; $"YARN_HTTP_PROXY"; $"YARN_HTTPS_PROXY";
   $"npm_config_http_proxy"; $"npm_config_https_proxy"; $"npm_config_proxy"; $"NPM_CONFIG_HTTP_PROXY";
   $"NPM_CONFIG_HTTPS_PROXY"; $"NPM_CONFIG_PROXY"; $"BUNDLE_HTTP_PROXY"; $"BUNDLE_HTTPS_PROXY"; $"PIP_PROXY";
   $"DOCKER_HTTP_PROXY"; $"DOCKER_HTTPS_PROXY"; $"WS_PROXY"; $"WSS_PROXY"; $"ws_proxy"; $"wss_proxy"; $"NO_PROXY";
   $"no_proxy"; $"npm_config_noproxy"; $"NPM_CONFIG_NOPROXY"; $"YARN_NO_PROXY"; $"BUNDLE_NO_PROXY"; $"ALL_PROXY";
   $"all_proxy"; $"FTP_PROXY"; $"ftp_proxy"].
Definition FTP_PROXY_ENV_KEYS : list str := [$"FTP_PROXY"; $"ftp_proxy"].
Definition WEBSOCKET_PROXY_ENV_KEYS : list str := [$"WS_PROXY"; $"WSS_PROXY"; $"ws_proxy"; $"wss_proxy"].
Definition NO_PROXY_ENV_KEYS : list str :=
  [$"NO_PROXY"; $"no_proxy"; $"npm_config_noproxy"; $"NPM_CONFIG_NOPROXY"; $"YARN_NO_PROXY"; $"BUNDLE_NO_PROXY"].
(** The keys that are given the URL of the HTTP proxy, as the code lists them in place. *)
Definition HTTP_CLIENT_ENV_KEYS : list str :=
  [$"HTTP_PROXY"; $"HTTPS_PROXY"; $"http_proxy"; $"https_proxy"; $"YARN_HTTP_PROXY"; $"YARN_HTTPS_PROXY";
   $"npm_config_http_proxy"; $"npm_config_https_proxy"; $"npm_config_proxy"; $"NPM_CONFIG_HTTP_PROXY";
   $"NPM_CONFIG_HTTPS_PROXY"; $"NPM_CONFIG_PROXY"; $"BUNDLE_HTTP_PROXY"; $"BUNDLE_HTTPS_PROXY"; $"PIP_PROXY";
   $"DOCKER_HTTP_PROXY"; $"DOCKER_HTTPS_PROXY"].
Definition DEFAULT_NO_PROXY_VALUE : str := $"localhost,127.0.0.1,::1,10.0.0.0/8,172.16.0.0/12,192.168.0.0/16".
Definition CUSTOM_CA_ENV_KEYS : list str :=
  [$"CODEX_CA_CERTIFICATE"; $"SSL_CERT_FILE"; $"REQUESTS_CA_BUNDLE"; $"CURL_CA_BUNDLE"; $"NODE_EXTRA_CA_CERTS";
   $"GIT_SSL_CAINFO"; $"PIP_CERT"; $"BUNDLE_SSL_CA_CERT"; $"npm_config_cafile"; $"NPM_CONFIG_CAFILE"].

Abbreviation Env := (gmap str str).
(** The trust bundle: its path as text, and the values of the keys when it was made. *)
Record ManagedMitmCaTrustBundle := mkBundle { bundle_path : str; startup_env_values : Env }.
#[global] Instance bundle_eq_dec : EqDecision ManagedMitmCaTrustBundle.
Proof. solve_decision. Defined.
(** [managed_ca_trust_bundle], which writes the bundle below the home directory. *)
Class CaStore := managed_ca_trust_bundle : Env -> option ManagedMitmCaTrustBundle.

(** ** The environment of child processes *)

Definition proxy_url_env_value (env : Env) (canonical_key : str) : option str :=
  match env !! canonical_key with
  | Some value => Some value
  | None => env !! Str.to_ascii_lowercase canonical_key
  end.
Definition has_proxy_url_env_vars (env : Env) : bool :=
  existsb (fun key =>
    match proxy_url_env_value env key with
    | Some value => negb (Str.is_empty (Str.trim value))
    | None => false
    end) PROXY_URL_ENV_KEYS.
Definition set_env_keys (env : Env) (keys : list str) (value : str) : Env :=
  fold_left (fun env key => <[key := value]> env) keys env.

Definition CODEX_PROXY_GIT_SSH_COMMAND_PREFIX : str :=
  $"CODEX_PROXY_GIT_SSH_COMMAND=1 ssh -o ProxyCommand='nc -X 5 -x ".
Definition CODEX_PROXY_GIT_SSH_COMMAND_SUFFIX : str := $" %h %p'".
Definition codex_proxy_git_ssh_command (socks_addr : SocketAddr) : str :=
  CODEX_PROXY_GIT_SSH_COMMAND_PREFIX ++ show_socket_addr socks_addr ++ CODEX_PROXY_GIT_SSH_COMMAND_SUFFIX.
Definition is_codex_proxy_git_ssh_command (command : str) : bool :=
  Str.starts_with CODEX_PROXY_GIT_SSH_COMMAND_PREFIX command && Str.ends_with CODEX_PROXY_GIT_SSH_COMMAND_SUFFIX command.

Section env.
Context `{ProxyEnv}.

Definition set_git_ssh_command (env : Env) (socks_addr : SocketAddr) : Env :=
  match env !! GIT_SSH_COMMAND_ENV_KEY with
  | Some command =>
      if negb (is_codex_proxy_git_ssh_command command) then env
      else <[GIT_SSH_COMMAND_ENV_KEY := codex_proxy_git_ssh_command socks_addr]> env
  | None => <[GIT_SSH_COMMAND_ENV_KEY := codex_proxy_git_ssh_command socks_addr]> env
  end.
Definition set_ca_key (bundle : ManagedMitmCaTrustBundle) (env : Env) (key : str) : Env :=
  let managed_path := bundle_path bundle in
  if match env !! key with
     | Some value =>
         negb (Str.is_empty value) && (negb (bool_decide (value = managed_path)) &&
           negb (bool_decide (startup_env_values bundle !! key = Some value)))
     | None => false
     end
  then env else <[key := managed_path]> env.

Definition apply_proxy_env_overrides (env : Env) (http_addr socks_addr : SocketAddr)
    (socks_enabled allow_local_binding : bool) (mitm_ca_trust_bundle : option ManagedMitmCaTrustBundle) : Env :=
  let http_proxy_url := $"http://" ++ show_socket_addr http_addr in
  let socks_proxy_url := $"socks5h://" ++ show_socket_addr socks_addr in
  let env := <[PROXY_ACTIVE_ENV_KEY := $"1"]> env in
  let env := <[ALLOW_LOCAL_BINDING_ENV_KEY := if allow_local_binding then $"1" else $"0"]> env in
  let env := set_env_keys env HTTP_CLIENT_ENV_KEYS http_proxy_url in
  let env := set_env_keys env WEBSOCKET_PROXY_ENV_KEYS http_proxy_url in
  let env := set_env_keys env NO_PROXY_ENV_KEYS DEFAULT_NO_PROXY_VALUE in
  let env := <[ELECTRON_GET_USE_PROXY_ENV_KEY := $"true"]> env in
  let env := <[NODE_USE_ENV_PROXY_ENV_KEY := $"1"]> env in
  let last_url := if socks_enabled then socks_proxy_url else http_proxy_url in
  let env := set_env_keys env ALL_PROXY_ENV_KEYS last_url in
  let env := set_env_keys env FTP_PROXY_ENV_KEYS last_url in
  let env := if is_macos && socks_enabled then set_git_ssh_command env socks_addr else env in
  match mitm_ca_trust_bundle with
  | Some bundle => fold_left (set_ca_key bundle) CUSTOM_CA_ENV_KEYS env
  | None => env
  end.
End env.

(** ** The proxy *)

Record NetworkProxyRuntimeSettings := mkRuntimeSettings {
  settings_allow_local_binding : bool;
  settings_allow_unix_sockets : list str;
  settings_dangerously_allow_all_unix_sockets : bool;
  settings_mitm_ca_trust_bundle : option ManagedMitmCaTrustBundle;
}.
Record NetworkProxy := mkProxy {
  proxy_state : ConfigState;
  proxy_http_addr : SocketAddr;
  proxy_socks_addr : SocketAddr;
  socks_enabled : bool;
  runtime_settings : NetworkProxyRuntimeSettings;
}.
Record NetworkProxyBuilder := mkBuilder {
  builder_state : option ConfigState;
  builder_http_addr : option SocketAddr;
  builder_socks_addr : option SocketAddr;
  managed_by_codex : bool;
}.
Inductive BuilderError :=
| StateMissing
| StateUnreadable (e : ProxyError)
| NotResolved (e : RuntimeError)
| NoListener
| NoTrustBundle.
Inductive ReplaceError := CannotUpdate (field_name : str) | ReplaceFailed (e : ProxyError) | ReplaceNoTrustBundle.

Section proxy.
Context `{UrlHost, HttpCrates, SecretEnv, GlobEngine, MitmSetup, ProxyEnv, UrlParse, CaStore}.

Definition startup_ca_env : Env :=
  list_to_map (omap (fun key => value ← env_var key; Some (key, value)) CUSTOM_CA_ENV_KEYS).
Definition runtime_settings_from_config (cfg : NetworkProxySettings) : option NetworkProxyRuntimeSettings :=
  bundle ← (if mitm cfg then b ← managed_ca_trust_bundle startup_ca_env; Some (Some b) else Some None);
  Some (mkRuntimeSettings (allow_local_binding cfg) (allow_unix_sockets cfg) (dangerously_allow_all_unix_sockets cfg)
          bundle).

(** The ports the system gives to ephemeral listeners on the loopback address. *)
Definition reserve_loopback_ephemeral_listeners (reserve_socks_listener : bool) (http_port socks_port : option N)
    : option (SocketAddr * option SocketAddr) :=
  http ← http_port;
  if reserve_socks_listener then socks ← socks_port; Some (mkAddr localhost_v4 http, Some (mkAddr localhost_v4 socks))
  else Some (mkAddr localhost_v4 http, None).

(** [NetworkProxyBuilder::build]; the ports are those of the reserved listeners. *)
Definition build (b : NetworkProxyBuilder) (answer : result ProxyError (option ConfigState))
    (http_port socks_port : option N) : result BuilderError NetworkProxy :=
  state ← ok_or (builder_state b) StateMissing;
  let '(state, reloaded) := reload_if_needed state answer in
  _ ← map_err StateUnreadable reloaded;
  let cfg := config state in
  '(requested_http_addr, requested_socks_addr) ←
    (if managed_by_codex b then
       runtime ← map_err NotResolved (resolve_runtime cfg);
       '(http, socks) ← ok_or (reserve_loopback_ephemeral_listeners (enable_socks5 cfg) http_port socks_port) NoListener;
       Ok (http, default (socks_addr runtime) socks)
     else
       runtime ← map_err NotResolved (resolve_runtime cfg);
       Ok (default (http_addr runtime) (builder_http_addr b), default (socks_addr runtime) (builder_socks_addr b)));
  let '(http, socks) := clamp_bind_addrs requested_http_addr requested_socks_addr cfg in
  settings ← ok_or (runtime_settings_from_config cfg) NoTrustBundle;
  Ok (mkProxy state http socks (enable_socks5 cfg) settings).

Definition ensure (b : bool) (field_name : str) : result ReplaceError unit :=
  if b then Ok tt else Err (CannotUpdate field_name).
(** [NetworkProxy::replace_config_state]; the answers are those of the reloader. *)
Definition proxy_replace_config_state (p : NetworkProxy) (answer answer' : result ProxyError (option ConfigState))
    (new_state : ConfigState) : NetworkProxy * result ReplaceError unit :=
  let with_state st settings := mkProxy st (proxy_http_addr p) (proxy_socks_addr p) (socks_enabled p) settings in
  let '(st, reloaded) := reload_if_needed (proxy_state p) answer in
  let current := config st in
  let cfg := config new_state in
  let checked :=
    _ ← map_err ReplaceFailed reloaded;
    _ ← ensure (eqb (enabled cfg) (enabled current)) $"network.enabled";
    _ ← ensure (bool_decide (proxy_url cfg = proxy_url current)) $"network.proxy_url";
    _ ← ensure (bool_decide (socks_url cfg = socks_url current)) $"network.socks_url";
    _ ← ensure (eqb (enable_socks5 cfg) (enable_socks5 current)) $"network.enable_socks5";
    _ ← ensure (eqb (enable_socks5_udp cfg) (enable_socks5_udp current)) $"network.enable_socks5_udp";
    ok_or (runtime_settings_from_config cfg) ReplaceNoTrustBundle in
  match checked with
  | Err e => (with_state st (runtime_settings p), Err e)
  | Ok settings =>
      match replace_config_state st answer' new_state with
      | (st, Ok _) => (with_state st settings, Ok tt)
      | (st, Err e) => (with_state st (runtime_settings p), Err (ReplaceFailed e))
      end
  end.
Definition apply_to_env (p : NetworkProxy) (env : Env) : Env :=
  apply_proxy_env_overrides env (proxy_http_addr p) (proxy_socks_addr p) (socks_enabled p)
    (settings_allow_local_binding (runtime_settings p)) (settings_mitm_ca_trust_bundle (runtime_settings p)).

(** ** Listeners *)

Lemma clamp_non_loopback_spec addr allow :
  is_loopback (addr_ip (clamp_non_loopback addr allow)) = true \/ allow = true.
Proof. unfold clamp_non_loopback. destruct (is_loopback (addr_ip addr)) eqn:E; [left; exact E|]. destruct allow; [by right|by left]. Qed.
Lemma clamp_bind_addrs_spec http socks cfg :
  let r := clamp_bind_addrs http socks cfg in
  is_loopback (addr_ip (fst r)) = true /\ is_loopback (addr_ip (snd r)) = true \/
  dangerously_allow_non_loopback_proxy cfg = true /\ allow_unix_sockets cfg = [] /\
  dangerously_allow_all_unix_sockets cfg = false.
Proof.
  unfold clamp_bind_addrs. cbv zeta. destruct (allow_unix_sockets cfg); [|by left].
  destruct (dangerously_allow_all_unix_sockets cfg); cbn [negb andb fst snd]; [by left|].
  destruct (clamp_non_loopback_spec http (dangerously_allow_non_loopback_proxy cfg)) as [E1|E1]; [|by right].
  destruct (clamp_non_loopback_spec socks (dangerously_allow_non_loopback_proxy cfg)) as [E2|E2]; [|by right].
  by left.
Qed.

(** Unless its configuration says otherwise and it gives no access to local sockets, a
    proxy only listens on loopback addresses, whatever addresses were asked for; a proxy
    that Codex manages listens for HTTP on the loopback address in any case. *)
Theorem listeners_stay_on_loopback b answer http_port socks_port p :
  build b answer http_port socks_port = Ok p ->
  let cfg := config (proxy_state p) in
  (is_loopback (addr_ip (proxy_http_addr p)) = true /\ is_loopback (addr_ip (proxy_socks_addr p)) = true \/
   dangerously_allow_non_loopback_proxy cfg = true /\ allow_unix_sockets cfg = [] /\
   dangerously_allow_all_unix_sockets cfg = false) /\
  (managed_by_codex b = true -> addr_ip (proxy_http_addr p) = localhost_v4).
Proof.
  unfold build. intros (st0 & _ & Hb)%bind_Ok. destruct (reload_if_needed st0 answer) as [st reloaded].
  apply bind_Ok in Hb as ([] & _ & ([requested_http requested_socks] & Hr & Hb)%bind_Ok).
  pose proof (clamp_bind_addrs_spec requested_http requested_socks (config st)) as Hc. cbv zeta in Hc.
  destruct (clamp_bind_addrs _ _ _) as [http socks] eqn:Ec. apply bind_Ok in Hb as (settings & _ & [= <-]).
  cbn [proxy_state proxy_http_addr proxy_socks_addr fst snd] in *. split; [exact Hc|].
  intros Hm. rewrite Hm in Hr. apply bind_Ok in Hr as (runtime & _ & ([h s] & Hres & [= <- _])%bind_Ok).
  unfold ok_or in Hres. destruct (reserve_loopback_ephemeral_listeners _ _ _) as [[h' s']|] eqn:El; [|done].
  injection Hres as -> ->. unfold reserve_loopback_ephemeral_listeners in El.
  apply bind_Some in El as (port & _ & El).
  assert (h = mkAddr localhost_v4 port) as ->.
  { destruct (enable_socks5 _); [by apply bind_Some in El as (? & _ & [= <- _])|by injection El as <- _]. }
  unfold clamp_bind_addrs, clamp_non_loopback in Ec. cbv zeta in Ec. change (is_loopback (addr_ip _)) with true in Ec at 1.
  destruct (_ && _) in Ec; injection Ec as <- _; done.
Qed.

(** ** The environment of children *)

Lemma set_env_keys_lookup env keys v k :
  set_env_keys env keys v !! k = if bool_decide (k ∈ keys) then Some v else env !! k.
Proof.
  unfold set_env_keys. revert env. induction keys as [|key keys IH]; intros env; [done|]. cbn [fold_left]. rewrite IH.
  destruct (decide (k ∈ keys)) as [Hin|Hin]; [by rewrite !bool_decide_true by (done || by right)|].
  rewrite (bool_decide_false (k ∈ keys)) by done. destruct (decide (k = key)) as [->|Hne].
  - rewrite bool_decide_true by (by left). apply lookup_insert_eq.
  - rewrite bool_decide_false by (by intros [?|?]%elem_of_cons). by apply lookup_insert_ne.
Qed.

(** What becomes of a key of the trust bundle. *)
Definition ca_value (bundle : ManagedMitmCaTrustBundle) (key : str) (old : option str) : str :=
  match old with
  | Some value =>
      if bool_decide (value = [] \/ startup_env_values bundle !! key = Some value) then bundle_path bundle else value
  | None => bundle_path bundle
  end.
Lemma set_ca_key_lookup b env key k :
  set_ca_key b env key !! k = if bool_decide (k = key) then Some (ca_value b k (env !! k)) else env !! k.
Proof.
  unfold set_ca_key, ca_value. case_bool_decide as E.
  - subst k. destruct (env !! key) as [v|] eqn:Ev; [|by rewrite lookup_insert_eq].
    destruct (Str.is_empty v) eqn:Ee.
    { apply Str.is_empty_spec in Ee. cbn [negb andb]. rewrite lookup_insert_eq.
      rewrite bool_decide_true; [done|by left]. }
    assert (v <> []) by (intros ->; done). cbn [negb andb].
    case_bool_decide as Hp; cbn [negb andb]; [rewrite lookup_insert_eq, <- Hp; by destruct (bool_decide _)|].
    case_bool_decide as Hs; cbn [negb].
    + rewrite lookup_insert_eq, bool_decide_true; [done|by right].
    + rewrite bool_decide_false; [done|]. tauto.
  - destruct (match env !! key with Some _ => _ | None => _ end); [done|]. by rewrite lookup_insert_ne by congruence.
Qed.
Lemma ca_value_idemp b k old : ca_value b k (Some (ca_value b k old)) = ca_value b k old.
Proof.
  unfold ca_value at 1. case_bool_decide as E; [|done]. unfold ca_value in *. destruct old as [v|]; [|done].
  by case_bool_decide.
Qed.
Lemma set_ca_keys_lookup b keys env k :
  fold_left (set_ca_key b) keys env !! k = if bool_decide (k ∈ keys) then Some (ca_value b k (env !! k)) else env !! k.
Proof.
  revert env. induction keys as [|key keys IH]; intros env; [done|]. cbn [fold_left].
  rewrite IH, set_ca_key_lookup. destruct (decide (k = key)) as [->|Hne].
  - rewrite (bool_decide_true (key ∈ key :: keys)) by (by left). rewrite !(bool_decide_true (key = key)) by done.
    case_bool_decide; [by rewrite ca_value_idemp|done].
  - rewrite (bool_decide_false (k = key)) by done. by rewrite (bool_decide_ext (k ∈ key :: keys) (k ∈ keys)) by (rewrite elem_of_cons; tauto).
Qed.
Definition git_ssh_value (socks : SocketAddr) (old : option str) : str :=
  match old with
  | Some command => if is_codex_proxy_git_ssh_command command then codex_proxy_git_ssh_command socks else command
  | None => codex_proxy_git_ssh_command socks
  end.
Lemma set_git_ssh_command_lookup env socks k :
  set_git_ssh_command env socks !! k =
  if bool_decide (k = GIT_SSH_COMMAND_ENV_KEY) then Some (git_ssh_value socks (env !! k)) else env !! k.
Proof.
  unfold set_git_ssh_command, git_ssh_value. case_bool_decide as E.
  - subst k. destruct (env !! GIT_SSH_COMMAND_ENV_KEY) as [c|] eqn:Ec; [|by rewrite lookup_insert_eq].
    destruct (is_codex_proxy_git_ssh_command c); cbn [negb]; [by rewrite lookup_insert_eq|done].
  - assert (<[GIT_SSH_COMMAND_ENV_KEY:=codex_proxy_git_ssh_command socks]> env !! k = env !! k) as Hne
      by (by apply lookup_insert_ne).
    destruct (env !! GIT_SSH_COMMAND_ENV_KEY); [|done]. by destruct (negb _).
Qed.
Lemma codex_command_is_codex socks : is_codex_proxy_git_ssh_command (codex_proxy_git_ssh_command socks) = true.
Proof.
  unfold is_codex_proxy_git_ssh_command, codex_proxy_git_ssh_command. apply andb_true_intro. split.
  - unfold Str.starts_with. by rewrite Str.strip_prefix_app.
  - apply Str.ends_with_spec. rewrite app_assoc. by eexists.
Qed.

(** The value a key is given in any case. *)
Definition base_value (http_url last_url : str) (allow_local_binding : bool) (k : str) : option str :=
  if bool_decide (k ∈ FTP_PROXY_ENV_KEYS) then Some last_url
  else if bool_decide (k ∈ ALL_PROXY_ENV_KEYS) then Some last_url
  else if bool_decide (k ∈ [NODE_USE_ENV_PROXY_ENV_KEY]) then Some $"1"
  else if bool_decide (k ∈ [ELECTRON_GET_USE_PROXY_ENV_KEY]) then Some $"true"
  else if bool_decide (k ∈ NO_PROXY_ENV_KEYS) then Some DEFAULT_NO_PROXY_VALUE
  else if bool_decide (k ∈ WEBSOCKET_PROXY_ENV_KEYS) then Some http_url
  else if bool_decide (k ∈ HTTP_CLIENT_ENV_KEYS) then Some http_url
  else if bool_decide (k ∈ [ALLOW_LOCAL_BINDING_ENV_KEY]) then Some (if allow_local_binding then $"1" else $"0")
  else if bool_decide (k ∈ [PROXY_ACTIVE_ENV_KEY]) then Some $"1"
  else None.
Lemma base_value_keys http_url last_url allow k :
  base_value http_url last_url allow k = None <-> k ∉ PROXY_ENV_KEYS.
Proof.
  unfold base_value. split.
  - intros Hb Hk. revert Hb. unfold PROXY_ENV_KEYS in Hk.
    repeat (apply elem_of_cons in Hk as [->|Hk]; [by vm_compute|]). by apply not_elem_of_nil in Hk.
  - intros Hk.
    assert (forall keys : list str, Forall (fun key => key ∈ PROXY_ENV_KEYS) keys -> bool_decide (k ∈ keys) = false) as Hsub.
    { intros keys Hf. apply bool_decide_eq_false. intros Hin. apply Hk. rewrite Forall_forall in Hf. by apply Hf. }
    rewrite !Hsub; [done|..]; apply (bool_decide_unpack _); vm_compute; exact I.
Qed.

Lemma base_value_urls http_url last_url allow :
  Forall (fun key =>
    bool_decide (key ∈ CUSTOM_CA_ENV_KEYS) = false /\ bool_decide (key = GIT_SSH_COMMAND_ENV_KEY) = false /\
    base_value http_url last_url allow key =
      Some (if bool_decide (key ∈ [$"ALL_PROXY"; $"FTP_PROXY"]) then last_url else http_url)) PROXY_URL_ENV_KEYS.
Proof. repeat (constructor; [by vm_compute|]). constructor. Qed.

(** The environment of a child, key by key. *)
Lemma overrides_lookup env http socks (enabled allow : bool) bundle k :
  let http_url := $"http://" ++ show_socket_addr http in
  let last_url := if enabled then $"socks5h://" ++ show_socket_addr socks else http_url in
  apply_proxy_env_overrides env http socks enabled allow bundle !! k =
  if bool_decide (k ∈ CUSTOM_CA_ENV_KEYS) then
    match bundle with Some b => Some (ca_value b k (env !! k)) | None => env !! k end
  else if bool_decide (k = GIT_SSH_COMMAND_ENV_KEY) then
    if is_macos && enabled then Some (git_ssh_value socks (env !! k)) else env !! k
  else match base_value http_url last_url allow k with Some v => Some v | None => env !! k end.
Proof.
  intros http_url last_url. unfold apply_proxy_env_overrides. fold http_url last_url.
  set (base := set_env_keys _ FTP_PROXY_ENV_KEYS _).
  assert (forall k, base !! k = match base_value http_url last_url allow k with Some v => Some v | None => env !! k end) as Hbase.
  { clear k. intros k. unfold base, base_value.
    repeat lazymatch goal with
      | |- context [<[?key := ?v]> ?e] => change (<[key := v]> e) with (set_env_keys e [key] v)
      end.
    rewrite !set_env_keys_lookup. by repeat case_match. }
  clearbody base. assert (forall key, bool_decide (key ∈ PROXY_ENV_KEYS) = false -> base !! key = env !! key) as Hother.
  { intros key Hk. rewrite Hbase. by rewrite (proj2 (base_value_keys http_url last_url allow key) (proj1 (bool_decide_eq_false _) Hk)). }
  assert (k ∈ CUSTOM_CA_ENV_KEYS -> base !! k = env !! k /\ k <> GIT_SSH_COMMAND_ENV_KEY) as Hca.
  { intros Hin. unfold CUSTOM_CA_ENV_KEYS in Hin.
    repeat (apply elem_of_cons in Hin as [->|Hin]; [split; [apply Hother|]; by vm_compute|]). by apply not_elem_of_nil in Hin. }
  assert (forall k, (if is_macos && enabled then set_git_ssh_command base socks else base) !! k =
    if bool_decide (k = GIT_SSH_COMMAND_ENV_KEY) then
      if is_macos && enabled then Some (git_ssh_value socks (env !! k)) else env !! k
    else base !! k) as Hgit.
  { intros key. assert (base !! GIT_SSH_COMMAND_ENV_KEY = env !! GIT_SSH_COMMAND_ENV_KEY) as Hg by (apply Hother; by vm_compute).
    destruct (is_macos && enabled); [rewrite set_git_ssh_command_lookup|]; case_bool_decide; subst; by rewrite ?Hg. }
  destruct bundle as [b|].
  - rewrite set_ca_keys_lookup. case_bool_decide as Hin.
    + destruct (Hca Hin) as [E Hn]. by rewrite Hgit, bool_decide_false, E.
    + rewrite Hgit. by rewrite Hbase.
  - rewrite Hgit, <- Hbase. destruct (decide (k ∈ CUSTOM_CA_ENV_KEYS)) as [Hin|Hin].
    + destruct (Hca Hin) as [E Hn].
      by rewrite (bool_decide_true (k ∈ CUSTOM_CA_ENV_KEYS)), (bool_decide_false (k = GIT_SSH_COMMAND_ENV_KEY)).
    + by rewrite (bool_decide_false (k ∈ CUSTOM_CA_ENV_KEYS)).
Qed.

(** The environment of a child sends it through the proxy: every key that names a proxy
    gets the proxy's address, whatever was there, and clients see a proxy; other keys are
    left alone, and so are a wrapper of git's ssh command and a trust store that the
    command itself chose; and doing it again changes nothing. *)
Theorem child_environments_use_the_proxy env http socks (enabled allow : bool) bundle :
  let env' := apply_proxy_env_overrides env http socks enabled allow bundle in
  let http_url := $"http://" ++ show_socket_addr http in
  let last_url := if enabled then $"socks5h://" ++ show_socket_addr socks else http_url in
  Forall (fun key => proxy_url_env_value env' key = Some (if bool_decide (key ∈ [$"ALL_PROXY"; $"FTP_PROXY"]) then last_url else http_url))
    PROXY_URL_ENV_KEYS /\
  (forall key, (key ∉ PROXY_ENV_KEYS) -> (key ∉ CUSTOM_CA_ENV_KEYS) -> key <> GIT_SSH_COMMAND_ENV_KEY ->
     env' !! key = env !! key) /\
  (forall command, env !! GIT_SSH_COMMAND_ENV_KEY = Some command -> is_codex_proxy_git_ssh_command command = false ->
     env' !! GIT_SSH_COMMAND_ENV_KEY = Some command) /\
  (forall b key value, bundle = Some b -> key ∈ CUSTOM_CA_ENV_KEYS -> env !! key = Some value -> value <> [] ->
     startup_env_values b !! key <> Some value -> env' !! key = Some value) /\
  apply_proxy_env_overrides env' http socks enabled allow bundle = env'.
Proof.
  intros env' http_url last_url. split_and!.
  - eapply Forall_impl; [apply (base_value_urls http_url last_url allow)|]. intros key (Hc & Hg & Hb).
    unfold proxy_url_env_value, env'. rewrite overrides_lookup, Hc, Hg. fold http_url last_url. by rewrite Hb.
  - intros key Hk Hc Hg. unfold env'. rewrite overrides_lookup, !bool_decide_false by done.
    by rewrite (proj2 (base_value_keys _ _ _ key)).
  - intros command Hold Hc. unfold env'. rewrite overrides_lookup, bool_decide_false by (apply (bool_decide_unpack _); vm_compute; exact I).
    rewrite bool_decide_true by done. rewrite Hold. cbn [git_ssh_value]. rewrite Hc. by destruct (_ && _).
  - intros b key value -> Hin Hold Hne Hs. unfold env'. rewrite overrides_lookup, bool_decide_true by done.
    rewrite Hold. cbn [ca_value]. rewrite bool_decide_false; [done|tauto].
  - apply map_eq. intros k. rewrite overrides_lookup. unfold env'. rewrite !overrides_lookup.
    case_bool_decide; [destruct bundle; [by rewrite ca_value_idemp|done]|].
    case_bool_decide; [|by destruct (base_value _ _ _ k)].
    destruct (is_macos && enabled); [|done]. f_equal. cbn [git_ssh_value].
    destruct (is_codex_proxy_git_ssh_command (git_ssh_value socks (env !! k))) eqn:E; [|done].
    unfold git_ssh_value in *. destruct (env !! k) as [c|]; [|done]. by destruct (is_codex_proxy_git_ssh_command c) eqn:E';
      [|rewrite E' in E].
Qed.
End proxy.

(** ** Concrete runs *)

Module EnvRuns.
Import NetPolicy.Small NetSafety.Demo.
(** No URL is parsed, which leaves the fallback of the proxy. *)
#[global] Instance url_parse_none : UrlParse := fun _ => None.
#[global] Instance ca_store : CaStore := fun env => Some (mkBundle $"/home/u/.codex/proxy/ca-bundle.pem" env).
Definition exposed_settings (sockets : option NetworkUnixSocketPermissions) : NetworkProxySettings :=
  mkSettings true $"http://0.0.0.0:3128" true $"http://0.0.0.0:8081" true false true false Full None sockets false false [].
Definition exposed_state (sockets : option NetworkUnixSocketPermissions) : ConfigState :=
  match build_config_state (exposed_settings sockets) constraints_default with
  | Ok st => st
  | Err _ => mkState settings_default [] [] false ∅ constraints_default [] 0
  end.
Definition exposed_builder (managed : bool) : NetworkProxyBuilder :=
  mkBuilder (Some (exposed_state None)) None None managed.
End EnvRuns.
Import NetPolicy.Small NetSafety.Demo EnvRuns.

Lemma listeners_stay_on_loopback_witness :
  exists p, build (exposed_builder true) (Ok None) (Some 40001%N) (Some 40002%N) = Ok p /\
    addr_ip (proxy_http_addr p) = localhost_v4.
Proof.
  eexists. split; [vm_compute; reflexivity|].
  edestruct (listeners_stay_on_loopback (exposed_builder true) (Ok None) (Some 40001%N) (Some 40002%N)) as [_ Hm];
    [vm_compute; reflexivity|]. exact (Hm eq_refl).
Defined.

Lemma child_environments_use_the_proxy_witness :
  let env := {[ $"HTTP_PROXY" := $"http://other"; $"SSL_CERT_FILE" := $"/my/ca.pem"; $"HOME" := $"/home/u" ]} in
  let bundle := Some (mkBundle $"/b.pem" ∅) in
  let addr := mkAddr localhost_v4 3128 in
  apply_proxy_env_overrides env addr addr true false bundle !! $"SSL_CERT_FILE" = Some $"/my/ca.pem" /\
  apply_proxy_env_overrides env addr addr true false bundle !! $"HOME" = Some $"/home/u".
Proof.
  intros env bundle addr.
  destruct (child_environments_use_the_proxy env addr addr true false bundle) as (_ & Hother & _ & Hca & _). split.
  - apply (Hca (mkBundle $"/b.pem" ∅)); [reflexivity|by right; left|reflexivity|done|done].
  - rewrite Hother; [reflexivity|apply (bool_decide_unpack _); vm_compute; exact I..].
Defined.

(** A proxy that runs on outside addresses can be given local sockets: the replacement of
    its configuration does not bind it again. *)
Example replacement_opens_sockets_to_the_network :
  match build (exposed_builder false) (Ok None) None None with
  | Ok p =>
      let '(p', r) := proxy_replace_config_state p (Ok None) (Ok None)
                        (exposed_state (Some [($"/var/run/docker.sock", SocketAllow)])) in
      r = Ok tt /\ is_loopback (addr_ip (proxy_http_addr p')) = false /\
      is_unix_socket_allowed (proxy_state p') $"/var/run/docker.sock" = true
  | Err _ => False
  end.
Proof. vm_compute. auto. Qed.
End NetEnv.
