(* ===== verification/ShellCommand.v ===== *)
(** Shell invocations ([codex-rs/shell-command/src]): which shell a path names
    ([shell_detect.rs]) and the plain commands of a script ([bash.rs]).

    The grammar is that of tree-sitter: parsing a script into a tree is an argument
    ([parse_tree]); everything the code does with the tree is modelled.  Node offsets
    are byte offsets of the script.  The walks over the tree keep a stack; they run on
    fuel one above the number of nodes, which is enough ([walk_spec]). *)
From Stdlib Require Import Sorted.
From S2P Require Import Prelude Utf8 Paths.

Module Shell.

(** ** shell_detect.rs *)

Inductive ShellType := Zsh | Bash | PowerShell | Sh | Cmd.
#[global] Instance ShellType_eq_dec : EqDecision ShellType.
Proof. solve_decision. Defined.

(** [Path::file_stem]. *)
Definition file_stem (path : str) : option str :=
  name ← Path.file_name path;
  match Str.rsplit_once (ch ".") name with
  | Some (before, _) => Some (if Str.is_empty before then name else before)
  | None => Some name
  end.

(** The recursion is on a shorter path. *)
Fixpoint detect_loop (fuel : nat) (shell_path : str) : option ShellType :=
  if decide (shell_path = $"zsh") then Some Zsh
  else if decide (shell_path = $"sh") then Some Sh
  else if decide (shell_path = $"cmd") then Some Cmd
  else if decide (shell_path = $"bash") then Some Bash
  else if decide (shell_path = $"pwsh") then Some PowerShell
  else if decide (shell_path = $"powershell") then Some PowerShell
  else
    match fuel, file_stem shell_path with
    | S fuel', Some shell_name =>
        if decide (Path.components shell_name = Path.components shell_path) then None
        else detect_loop fuel' shell_name
    | _, _ => None
    end.
Definition detect_shell_type (shell_path : str) : option ShellType :=
  detect_loop (length shell_path) shell_path.

(** ** Trees *)

Inductive Node := mkNode {
  kind : str;
  is_named : bool;
  has_error : bool;
  start_byte : nat;
  end_byte : nat;
  children : list Node
}.
Definition named_children (n : Node) : list Node := List.filter is_named (children n).
Definition utf8_text (n : Node) (src : str) : option str :=
  ok (Utf8.from_utf8 (take (end_byte n - start_byte n) (drop (start_byte n) (Utf8.encode src)))).
Definition has_kind (n : Node) (k : str) : bool := bool_decide (kind n = k).
Fixpoint node_count (n : Node) : nat :=
  match n with mkNode _ _ _ _ _ cs => S (foldr (fun c k => node_count c + k) 0 cs) end.

(** ** bash.rs *)

Definition ALLOWED_KINDS : list str :=
  [$"program"; $"list"; $"pipeline"; $"command"; $"command_name"; $"word"; $"string";
   $"string_content"; $"raw_string"; $"number"; $"concatenation"].
Definition ALLOWED_PUNCT_TOKENS : list str :=
  [$"&&"; $"||"; $";"; $"|"; [dquote]; $"'"].
Definition contains (l : list str) (s : str) : bool := bool_decide (s ∈ l).

(** The checks on one node of the walk. *)
Definition node_allowed (n : Node) : bool :=
  if is_named n then contains ALLOWED_KINDS (kind n)
  else
    let allowed := contains ALLOWED_PUNCT_TOKENS (kind n) in
    negb (existsb (fun c => Str.contains_char c $"&;|") (kind n) && negb allowed) &&
    (allowed || Str.is_empty (Str.trim (kind n))).
Definition is_command_node (n : Node) : bool := is_named n && has_kind n $"command".

(** The head of the list is the top of the stack. *)
Fixpoint walk (fuel : nat) (stack command_nodes : list Node) : option (list Node) :=
  match fuel with
  | 0 => None
  | S fuel' =>
      match stack with
      | [] => Some command_nodes
      | node :: stack' =>
          if node_allowed node then
            walk fuel' (rev (children node) ++ stack')
              (if is_command_node node then command_nodes ++ [node] else command_nodes)
          else None
      end
  end.

(** [sort_by_key], which is stable. *)
Fixpoint insert_by_start (n : Node) (l : list Node) : list Node :=
  match l with
  | [] => [n]
  | m :: l' => if start_byte n <=? start_byte m then n :: l else m :: insert_by_start n l'
  end.
Definition sort_by_start (l : list Node) : list Node := foldr insert_by_start [] l.

Definition parse_double_quoted_string (node : Node) (src : str) : option str :=
  if has_kind node $"string" then
    if forallb (fun part => has_kind part $"string_content") (named_children node) then
      raw ← utf8_text node src;
      text ← Str.strip_prefix [dquote] raw;
      Str.strip_suffix [dquote] text
    else None
  else None.
Definition parse_raw_string (node : Node) (src : str) : option str :=
  if has_kind node $"raw_string" then
    raw ← utf8_text node src;
    text ← Str.strip_prefix $"'" raw;
    Str.strip_suffix $"'" text
  else None.

Fixpoint concat_parts (parts : list Node) (src : str) : option str :=
  match parts with
  | [] => Some []
  | part :: parts' =>
      s ← (if has_kind part $"word" || has_kind part $"number" then utf8_text part src
           else if has_kind part $"string" then parse_double_quoted_string part src
           else if has_kind part $"raw_string" then parse_raw_string part src
           else None);
      rest ← concat_parts parts' src;
      Some (s ++ rest)
  end.

Definition plain_word (child : Node) (src : str) : option str :=
  if has_kind child $"command_name" then
    word_node ← head (named_children child);
    if has_kind word_node $"word" then utf8_text word_node src else None
  else if has_kind child $"word" || has_kind child $"number" then utf8_text child src
  else if has_kind child $"string" then parse_double_quoted_string child src
  else if has_kind child $"raw_string" then parse_raw_string child src
  else if has_kind child $"concatenation" then
    s ← concat_parts (named_children child) src;
    if Str.is_empty s then None else Some s
  else None.
Definition parse_plain_command_from_node (cmd : Node) (src : str) : option (list str) :=
  if has_kind cmd $"command" then mapM (fun child => plain_word child src) (named_children cmd)
  else None.

Definition try_parse_word_only_commands_sequence (root : Node) (src : str)
    : option (list (list str)) :=
  if has_error root then None
  else
    command_nodes ← walk (S (node_count root)) [root] [];
    mapM (fun node => parse_plain_command_from_node node src) (sort_by_start command_nodes).

Definition extract_bash_command (command : list str) : option (str * str) :=
  match command with
  | [shell; flag; script] =>
      if decide (flag = $"-lc" \/ flag = $"-c") then
        match detect_shell_type shell with
        | Some Zsh | Some Bash | Some Sh => Some (shell, script)
        | _ => None
        end
      else None
  | _ => None
  end.

(** *** Here-documents *)

Definition is_literal_word_or_number (node : Node) : bool :=
  (has_kind node $"word" || has_kind node $"number") &&
  match named_children node with [] => true | _ => false end.
Definition is_allowed_heredoc_attachment_kind (k : str) : bool :=
  contains [$"heredoc_body"; $"simple_heredoc_body"; $"heredoc_redirect"; $"herestring_redirect";
            $"redirected_statement"] k.
Fixpoint heredoc_words (nodes : list Node) (src : str) : option (list str) :=
  match nodes with
  | [] => Some []
  | child :: nodes' =>
      if has_kind child $"command_name" then
        word_node ← head (named_children child);
        if (has_kind word_node $"word" || has_kind word_node $"number")
             && is_literal_word_or_number word_node
        then w ← utf8_text word_node src; ws ← heredoc_words nodes' src; Some (w :: ws)
        else None
      else if has_kind child $"word" || has_kind child $"number" then
        if is_literal_word_or_number child
        then w ← utf8_text child src; ws ← heredoc_words nodes' src; Some (w :: ws)
        else None
      else if has_kind child $"comment" || is_allowed_heredoc_attachment_kind (kind child)
      then heredoc_words nodes' src
      else None
  end.
Definition parse_heredoc_command_words (cmd : Node) (src : str) : option (list str) :=
  if has_kind cmd $"command" then
    words ← heredoc_words (named_children cmd) src;
    match words with [] => None | _ => Some words end
  else None.

Fixpoint single_command_loop (fuel : nat) (stack : list Node) (single_command : option Node)
    : option Node :=
  match fuel with
  | 0 => None
  | S fuel' =>
      match stack with
      | [] => single_command
      | node :: stack' =>
          let next := single_command_loop fuel' (rev (named_children node) ++ stack') in
          if has_kind node $"command" then
            match single_command with Some _ => None | None => next (Some node) end
          else next single_command
      end
  end.
Definition find_single_command_node (root : Node) : option Node :=
  single_command_loop (S (node_count root)) [root] None.

Fixpoint descendant_kind_loop (fuel : nat) (stack : list Node) (k : str) : bool :=
  match fuel with
  | 0 => false
  | S fuel' =>
      match stack with
      | [] => false
      | current :: stack' =>
          has_kind current k ||
          descendant_kind_loop fuel' (rev (named_children current) ++ stack') k
      end
  end.
Definition has_named_descendant_kind (node : Node) (k : str) : bool :=
  descendant_kind_loop (S (node_count node)) [node] k.

Section grammar.
Variable parse_tree : str -> option Node.

Definition try_parse_shell (shell_lc_arg : str) : option Node := parse_tree shell_lc_arg.
Definition parse_shell_lc_plain_commands (command : list str) : option (list (list str)) :=
  '(_, script) ← extract_bash_command command;
  tree ← try_parse_shell script;
  try_parse_word_only_commands_sequence tree script.
Definition parse_shell_lc_single_command_prefix (command : list str) : option (list str) :=
  '(_, script) ← extract_bash_command command;
  root ← try_parse_shell script;
  if has_error root then None
  else if negb (has_named_descendant_kind root $"heredoc_redirect") then None
  else if has_named_descendant_kind root $"file_redirect" then None
  else
    command_node ← find_single_command_node root;
    parse_heredoc_command_words command_node script.
End grammar.

(** ** Every node is seen *)

(** The nodes of a tree. *)
Fixpoint nodes (n : Node) : list Node :=
  match n with mkNode _ _ _ _ _ cs => n :: flat_map nodes cs end.
Inductive occurs_in : Node -> Node -> Prop :=
| occurs_here n : occurs_in n n
| occurs_below m n c : c ∈ children n -> occurs_in m c -> occurs_in m n.

Definition Node_nested_ind (P : Node -> Prop)
    (H : forall k a e s f cs, Forall P cs -> P (mkNode k a e s f cs)) : forall n, P n :=
  fix ind (n : Node) : P n :=
    match n with
    | mkNode k a e s f cs =>
        H k a e s f cs
          ((fix go (cs : list Node) : Forall P cs :=
              match cs with
              | [] => List.Forall_nil P
              | c :: cs' => Forall_cons_2 P c cs' (ind c) (go cs')
              end) cs)
    end.

Lemma nodes_eq n : nodes n = n :: flat_map nodes (children n).
Proof. by destruct n. Qed.

Lemma node_count_nodes n : node_count n = length (nodes n).
Proof.
  induction n as [k a e s f cs Hcs] using Node_nested_ind. simpl. f_equal.
  induction Hcs as [|c cs Hc Hcs IH]; simpl; [done|]. by rewrite length_app, Hc, IH.
Qed.

Lemma occurs_nodes m n : occurs_in m n <-> m ∈ nodes n.
Proof.
  split.
  - induction 1 as [n|m n c Hc _ IH]; rewrite nodes_eq; [by left|right].
    apply list_elem_of_In, in_flat_map. exists c. by rewrite <- !list_elem_of_In.
  - revert m; induction n as [k a e s f cs Hcs] using Node_nested_ind; intros m. simpl.
    intros [->|Hm]%elem_of_cons; [constructor|].
    apply list_elem_of_In, in_flat_map in Hm as (c & Hc & Hm). rewrite <- !list_elem_of_In in *.
    rewrite Forall_forall in Hcs. eapply occurs_below; [exact Hc|]. by apply (Hcs c).
Qed.

(** With enough fuel the walk rejects a tree with a node that is not allowed, and
    otherwise collects its command nodes. *)
Lemma walk_spec fuel stack acc :
  length (flat_map nodes stack) < fuel ->
  if forallb node_allowed (flat_map nodes stack)
  then exists l, walk fuel stack acc = Some l /\
         l ≡ₚ acc ++ List.filter is_command_node (flat_map nodes stack)
  else walk fuel stack acc = None.
Proof.
  revert stack acc; induction fuel as [|fuel IH]; intros stack acc Hf; [lia|].
  destruct stack as [|n st]; simpl.
  { exists acc. by rewrite app_nil_r. }
  simpl in Hf. rewrite (nodes_eq n) in Hf |- *. simpl in Hf |- *.
  assert (flat_map nodes (rev (children n) ++ st) ≡ₚ flat_map nodes (children n) ++ flat_map nodes st)
    as Hp.
  { rewrite flat_map_app. by rewrite (flat_map_perm nodes _ _ (symmetry (Permutation_rev (children n)))). }
  destruct (node_allowed n); simpl; [|done].
  specialize (IH (rev (children n) ++ st) (if is_command_node n then acc ++ [n] else acc)).
  rewrite (forallb_perm _ _ _ Hp) in IH.
  rewrite (Permutation_length Hp) in IH. specialize (IH ltac:(lia)).
  destruct (forallb node_allowed _); [|done]. destruct IH as (l & -> & Hl). exists l. split; [done|].
  rewrite Hl, (filterb_perm _ _ _ Hp). destruct (is_command_node n); [|done].
  by rewrite <- app_assoc.
Qed.

Lemma insert_node_perm n l : insert_by_start n l ≡ₚ n :: l.
Proof.
  induction l as [|m l IH]; simpl; [done|]. destruct (_ <=? _); [done|]. rewrite IH. apply perm_swap.
Qed.
Lemma sort_nodes_perm l : sort_by_start l ≡ₚ l.
Proof. induction l as [|n l IH]; simpl; [done|]. by rewrite insert_node_perm, IH. Qed.
Lemma sort_nodes_sorted l :
  StronglySorted (fun a b => start_byte a <= start_byte b) (sort_by_start l).
Proof.
  induction l as [|n l IH]; simpl; [constructor|].
  induction IH as [|m l' Hs IH Hm]; simpl; [by repeat constructor|].
  destruct (Nat.leb_spec (start_byte n) (start_byte m)) as [Hle|Hlt].
  - constructor; [by constructor|]. constructor; [done|]. eapply Forall_impl; [exact Hm|]. simpl. lia.
  - constructor; [done|]. rewrite insert_node_perm. constructor; [lia|done].
Qed.

Lemma word_only_spec root src cmds :
  try_parse_word_only_commands_sequence root src = Some cmds ->
  has_error root = false /\ (forall n, occurs_in n root -> node_allowed n = true) /\
  exists ns, StronglySorted (fun a b => start_byte a <= start_byte b) ns /\
    ns ≡ₚ List.filter is_command_node (nodes root) /\
    Forall2 (fun n c => parse_plain_command_from_node n src = Some c) ns cmds.
Proof.
  unfold try_parse_word_only_commands_sequence. destruct (has_error root); [done|].
  pose proof (walk_spec (S (node_count root)) [root] []) as Hw. simpl in Hw.
  rewrite app_nil_r, node_count_nodes in Hw. specialize (Hw ltac:(lia)). rewrite node_count_nodes.
  destruct (forallb node_allowed (nodes root)) eqn:Ea; [|simpl; by rewrite Hw].
  destruct Hw as (l & Hl & Hp). simpl. rewrite Hl. simpl. intros Hm%mapM_Some. split; [done|]. split.
  - intros n Hn%occurs_nodes. rewrite forallb_forall in Ea. by apply Ea, list_elem_of_In.
  - exists (sort_by_start l). split; [apply sort_nodes_sorted|].
    split; [by rewrite sort_nodes_perm|done].
Qed.

(** ** Properties *)

(** When the plain commands of a shell invocation are returned, the invocation is
    a shell with [-c] or [-lc] and one script; every node of the script's tree, at any
    depth, is of an allowed kind (so the script has no redirection, substitution,
    assignment or control flow); and the commands are those of all command nodes of
    the tree, each parsed to literal words, in the order of the script. *)
Theorem plain_commands_cover_the_script parse_tree command cmds :
  parse_shell_lc_plain_commands parse_tree command = Some cmds ->
  exists shell flag script root,
    command = [shell; flag; script] /\ (flag = $"-lc" \/ flag = $"-c") /\
    detect_shell_type shell ∈ [Some Zsh; Some Bash; Some Sh] /\
    parse_tree script = Some root /\ has_error root = false /\
    (forall n, occurs_in n root -> node_allowed n = true) /\
    exists ns, StronglySorted (fun a b => start_byte a <= start_byte b) ns /\
      ns ≡ₚ List.filter is_command_node (nodes root) /\
      Forall2 (fun n c => parse_plain_command_from_node n script = Some c) ns cmds.
Proof.
  unfold parse_shell_lc_plain_commands, try_parse_shell. intros H.
  destruct (extract_bash_command command) as [[sh script]|] eqn:Ee; [|done]. simpl in H.
  destruct (parse_tree script) as [root|] eqn:Er; [|done]. simpl in H.
  apply word_only_spec in H as (He & Ha & Hns).
  unfold extract_bash_command in Ee. destruct command as [|shell [|flag [|sc [|]]]]; try done.
  case_decide as Hflag; [|done].
  destruct (detect_shell_type shell) as [[]|] eqn:Ed; try done; injection Ee as -> ->;
    exists sh, flag, script, root; split_and!; try done; rewrite Ed; set_solver.
Qed.

(** The script [ls | wc] with the tree tree-sitter gives it. *)
Definition demo_word (s e : nat) : Node := mkNode $"word" true false s e [].
Definition demo_command (s e : nat) : Node :=
  mkNode $"command" true false s e [mkNode $"command_name" true false s e [demo_word s e]].
Definition demo_tree (script : str) : option Node :=
  Some (mkNode $"program" true false 0 7
    [mkNode $"pipeline" true false 0 7
       [demo_command 0 2; mkNode $"|" false false 3 4 []; demo_command 5 7]]).

Lemma plain_commands_cover_the_script_witness :
  exists root, demo_tree $"ls | wc" = Some root /\ has_error root = false.
Proof.
  destruct (plain_commands_cover_the_script demo_tree [$"/bin/bash"; $"-lc"; $"ls | wc"]
              [[$"ls"]; [$"wc"]])
    as (sh & flag & script & root & Hc & _ & _ & Ht & He & _); [vm_compute; reflexivity|].
  exists root. injection Hc as <- <- <-. split; [exact Ht|exact He].
Defined.

End Shell.
