(* ===== verification/CommandSafety.v ===== *)
(** Command approval heuristics ([codex-rs/shell-command/src/command_safety]): which
    commands run without asking ([is_safe_command.rs]) and which always ask
    ([is_dangerous_command.rs]), on Linux. *)
From S2P Require Import Prelude Paths ShellCommand.
Import Shell.

Module Safety.

(** ** is_dangerous_command.rs *)

Definition executable_name_lookup_key (raw : str) : option str := Path.file_name raw.

Definition is_git_global_option_with_value (arg : str) : bool :=
  contains [$"-C"; $"-c"; $"--config-env"; $"--exec-path"; $"--git-dir"; $"--namespace";
            $"--super-prefix"; $"--work-tree"] arg.
Definition is_git_global_option_with_inline_value (arg : str) : bool :=
  Str.starts_with $"--config-env=" arg || Str.starts_with $"--exec-path=" arg
  || Str.starts_with $"--git-dir=" arg || Str.starts_with $"--namespace=" arg
  || Str.starts_with $"--super-prefix=" arg || Str.starts_with $"--work-tree=" arg
  || ((Str.starts_with $"-C" arg || Str.starts_with $"-c" arg) && (2 <? Str.len arg)%N).

Fixpoint git_scan (idx : nat) (skip_next : bool) (args subcommands : list str)
    : option (nat * str) :=
  match args with
  | [] => None
  | arg :: args' =>
      if skip_next then git_scan (S idx) false args' subcommands
      else if is_git_global_option_with_inline_value arg then
        git_scan (S idx) false args' subcommands
      else if is_git_global_option_with_value arg then git_scan (S idx) true args' subcommands
      else if bool_decide (arg = $"--") || Str.starts_with $"-" arg then
        git_scan (S idx) false args' subcommands
      else if contains subcommands arg then Some (idx, arg)
      else None
  end.
Definition find_git_subcommand (command subcommands : list str) : option (nat * str) :=
  match command with
  | [] => None
  | cmd0 :: args =>
      if decide (executable_name_lookup_key cmd0 = Some $"git")
      then git_scan 1 false args subcommands
      else None
  end.

Fixpoint is_dangerous_to_call_with_exec (command : list str) : bool :=
  match command with
  | [] => false
  | cmd0 :: rest =>
      if decide (cmd0 = $"rm") then
        match rest with
        | arg :: _ => contains [$"-f"; $"-rf"] arg
        | [] => false
        end
      else if decide (cmd0 = $"sudo") then is_dangerous_to_call_with_exec rest
      else false
  end.

(** ** is_safe_command.rs *)

Inductive GitOptionPattern :=
| Exact (option : str)
| ShortWithInlineValue (option : str)
| Prefix (prefix : str).
Definition pattern_matches (p : GitOptionPattern) (arg : str) : bool :=
  match p with
  | Exact option => bool_decide (arg = option)
  | ShortWithInlineValue option => Str.starts_with option arg && (Str.len option <? Str.len arg)%N
  | Prefix prefix => Str.starts_with prefix arg
  end.

Definition UNSAFE_GIT_GLOBAL_OPTIONS : list GitOptionPattern :=
  [Exact $"-C"; ShortWithInlineValue $"-C"; Exact $"-c"; ShortWithInlineValue $"-c"; Exact $"-p";
   Exact $"--config-env"; Prefix $"--config-env="; Exact $"--exec-path"; Prefix $"--exec-path=";
   Exact $"--git-dir"; Prefix $"--git-dir="; Exact $"--namespace"; Prefix $"--namespace=";
   Exact $"--paginate"; Exact $"--super-prefix"; Prefix $"--super-prefix=";
   Exact $"--work-tree"; Prefix $"--work-tree="].
Definition UNSAFE_GIT_SUBCOMMAND_OPTIONS : list GitOptionPattern :=
  [Exact $"--output"; Prefix $"--output="; Exact $"--ext-diff"; Exact $"--textconv";
   Exact $"--exec"; Prefix $"--exec="].

Definition git_matches_option_pattern (arg : str) (patterns : list GitOptionPattern) : bool :=
  existsb (fun p => pattern_matches p arg) patterns.
Definition git_has_unsafe_global_option (global_args : list str) : bool :=
  existsb (fun arg => git_matches_option_pattern arg UNSAFE_GIT_GLOBAL_OPTIONS) global_args.
Definition git_subcommand_args_are_read_only (args : list str) : bool :=
  negb (existsb (fun arg => git_matches_option_pattern arg UNSAFE_GIT_SUBCOMMAND_OPTIONS) args).

Definition BRANCH_READ_ONLY_FLAGS : list str :=
  [$"--list"; $"-l"; $"--show-current"; $"-a"; $"--all"; $"-r"; $"--remotes"; $"-v"; $"-vv";
   $"--verbose"].
Fixpoint branch_loop (saw_read_only_flag : bool) (branch_args : list str) : bool :=
  match branch_args with
  | [] => saw_read_only_flag
  | arg :: args' =>
      if contains BRANCH_READ_ONLY_FLAGS arg || Str.starts_with $"--format=" arg
      then branch_loop true args'
      else false
  end.
Definition git_branch_is_read_only (branch_args : list str) : bool :=
  match branch_args with [] => true | _ => branch_loop false branch_args end.

Definition is_safe_git_command (command : list str) : bool :=
  match find_git_subcommand command [$"status"; $"log"; $"diff"; $"show"; $"branch"] with
  | None => false
  | Some (subcommand_idx, subcommand) =>
      let global_args := drop 1 (take subcommand_idx command) in
      if git_has_unsafe_global_option global_args then false
      else
        let subcommand_args := drop (subcommand_idx + 1) command in
        if contains [$"status"; $"log"; $"diff"; $"show"] subcommand then
          git_subcommand_args_are_read_only subcommand_args
        else if decide (subcommand = $"branch") then
          git_subcommand_args_are_read_only subcommand_args && git_branch_is_read_only subcommand_args
        else false
  end.

Definition all_digits (s : str) : bool := negb (Str.is_empty s) && forallb Str.is_ascii_digit s.
Definition is_valid_sed_n_arg (arg : option str) : bool :=
  match arg with
  | None => false
  | Some s =>
      match Str.strip_suffix $"p" s with
      | None => false
      | Some core =>
          match Str.split (ch ",") core with
          | [num] => all_digits num
          | [a; b] => all_digits a && all_digits b
          | _ => false
          end
      end
  end.

Definition ALWAYS_SAFE : list str :=
  [$"cat"; $"cd"; $"cut"; $"echo"; $"expr"; $"false"; $"grep"; $"head"; $"id"; $"ls"; $"nl";
   $"paste"; $"pwd"; $"rev"; $"seq"; $"stat"; $"tail"; $"tr"; $"true"; $"uname"; $"uniq"; $"wc";
   $"which"; $"whoami"].
Definition UNSAFE_FIND_OPTIONS : list str :=
  [$"-exec"; $"-execdir"; $"-ok"; $"-okdir"; $"-delete"; $"-fls"; $"-fprint"; $"-fprint0";
   $"-fprintf"].
Definition UNSAFE_RIPGREP_OPTIONS_WITH_ARGS : list str := [$"--pre"; $"--hostname-bin"].
Definition UNSAFE_RIPGREP_OPTIONS_WITHOUT_ARGS : list str := [$"--search-zip"; $"-z"].

Definition base64_arg_is_unsafe (arg : str) : bool :=
  contains [$"-o"; $"--output"] arg || Str.starts_with $"--output=" arg
  || (Str.starts_with $"-o" arg && negb (bool_decide (arg = $"-o"))).
Definition rg_arg_is_unsafe (arg : str) : bool :=
  contains UNSAFE_RIPGREP_OPTIONS_WITHOUT_ARGS arg
  || existsb (fun opt => bool_decide (arg = opt) || Str.starts_with (opt ++ $"=") arg)
       UNSAFE_RIPGREP_OPTIONS_WITH_ARGS.

Definition is_safe_to_call_with_exec (command : list str) : bool :=
  match command with
  | [] => false
  | cmd0 :: rest =>
      match executable_name_lookup_key cmd0 with
      | None => false
      | Some cmd =>
          if contains [$"numfmt"; $"tac"] cmd then true
          else if contains ALWAYS_SAFE cmd then true
          else if decide (cmd = $"base64") then negb (existsb base64_arg_is_unsafe rest)
          else if decide (cmd = $"find") then negb (existsb (contains UNSAFE_FIND_OPTIONS) command)
          else if decide (cmd = $"rg") then negb (existsb rg_arg_is_unsafe command)
          else if decide (cmd = $"git") then is_safe_git_command command
          else if decide (cmd = $"sed") then
            (length command <=? 4) && bool_decide (command !! 1 = Some $"-n")
            && is_valid_sed_n_arg (command !! 2)
          else false
      end
  end.

Section approval.
Variable parse_tree : str -> option Node.

Definition command_might_be_dangerous (command : list str) : bool :=
  is_dangerous_to_call_with_exec command ||
  match parse_shell_lc_plain_commands parse_tree command with
  | Some all_commands => existsb is_dangerous_to_call_with_exec all_commands
  | None => false
  end.

Definition zsh_as_bash (s : str) : str := if decide (s = $"zsh") then $"bash" else s.
Definition is_known_safe_command (command : list str) : bool :=
  let command := zsh_as_bash <$> command in
  is_safe_to_call_with_exec command ||
  match parse_shell_lc_plain_commands parse_tree command with
  | Some all_commands =>
      match all_commands with
      | [] => false
      | _ => forallb is_safe_to_call_with_exec all_commands
      end
  | None => false
  end.

End approval.

(** ** Lemmas *)

Definition SAFE_NAMES : list str :=
  [$"numfmt"; $"tac"] ++ ALWAYS_SAFE ++ [$"base64"; $"find"; $"rg"; $"git"; $"sed"].

Lemma contains_spec l s : contains l s = true <-> s ∈ l.
Proof. apply bool_decide_eq_true. Qed.

Lemma safe_exec_name cmd0 rest :
  is_safe_to_call_with_exec (cmd0 :: rest) = true ->
  exists w, Path.file_name cmd0 = Some w /\ w ∈ SAFE_NAMES.
Proof.
  unfold is_safe_to_call_with_exec, executable_name_lookup_key.
  destruct (Path.file_name cmd0) as [w|]; [|done]. intros H. exists w. split; [done|].
  unfold SAFE_NAMES. rewrite !elem_of_app.
  destruct (contains [$"numfmt"; $"tac"] w) eqn:E1; [left; by apply contains_spec|].
  destruct (contains ALWAYS_SAFE w) eqn:E2; [right; left; by apply contains_spec|].
  right; right. repeat (case_decide; [subst w; by repeat constructor|]). done.
Qed.

Lemma rm_sudo_not_safe cmd0 : cmd0 = $"rm" \/ cmd0 = $"sudo" ->
  forall w, Path.file_name cmd0 = Some w -> w ∉ SAFE_NAMES.
Proof.
  intros [-> | ->] w Hw; vm_compute in Hw; injection Hw as <-;
    apply (bool_decide_unpack _); vm_compute; exact I.
Qed.

Lemma safe_not_dangerous_exec command :
  is_safe_to_call_with_exec command = true -> is_dangerous_to_call_with_exec command = false.
Proof.
  destruct command as [|cmd0 rest]; [done|]. intros (w & Hw & Hin)%safe_exec_name. simpl.
  case_decide as H1; [exfalso; eapply (rm_sudo_not_safe cmd0); eauto|].
  case_decide as H2; [exfalso; eapply (rm_sudo_not_safe cmd0); eauto|done].
Qed.

Lemma dangerous_exec_head command :
  is_dangerous_to_call_with_exec command = true ->
  exists cmd0 rest, command = cmd0 :: rest /\ (cmd0 = $"rm" \/ cmd0 = $"sudo").
Proof.
  destruct command as [|cmd0 rest]; [done|]. simpl.
  case_decide; [eauto|]. case_decide; [eauto|done].
Qed.

Lemma safe_names_are_no_shells :
  Forall (fun w => Str.rsplit_once (ch ".") w = None /\ forall n, detect_loop n w = None) SAFE_NAMES.
Proof.
  repeat constructor; try (vm_compute; reflexivity); intros [|n]; vm_compute; reflexivity.
Qed.

Lemma shell_is_not_safe sh w :
  detect_shell_type sh <> None -> Path.file_name sh = Some w -> w ∉ SAFE_NAMES.
Proof.
  intros Hd Hw Hin. apply Hd. clear Hd. unfold detect_shell_type.
  pose proof safe_names_are_no_shells as Hs. rewrite Forall_forall in Hs.
  destruct (Hs w Hin) as [Hdot Hloop].
  assert (forall s, sh = s -> Path.file_name s = Some s -> detect_loop 0 s <> None -> False) as Hlit.
  { intros s -> Hf Hn. rewrite Hf in Hw. injection Hw as <-. by rewrite Hloop in Hn. }
  assert (file_stem sh = Some w) as Hstem by (unfold file_stem; rewrite Hw; simpl; by rewrite Hdot).
  destruct (length sh) as [|n]; simpl;
    repeat (case_decide as E; [exfalso; eapply Hlit; [exact E|vm_compute; reflexivity|vm_compute; discriminate]|clear E]);
    [done|].
  rewrite Hstem. case_decide; [done|]. apply Hloop.
Qed.

Lemma zsh_as_bash_shell sh :
  detect_shell_type sh <> None -> detect_shell_type (zsh_as_bash sh) <> None.
Proof. unfold zsh_as_bash. case_decide; [by vm_compute|done]. Qed.

Lemma extract_bash_Some command shell script :
  extract_bash_command command = Some (shell, script) ->
  exists flag, command = [shell; flag; script] /\ flag <> $"zsh" /\ detect_shell_type shell <> None.
Proof.
  unfold extract_bash_command. destruct command as [|sh [|flag [|sc [|]]]]; try done.
  case_decide as Hf; [|done]. intros H. exists flag.
  assert (flag <> $"zsh") as Hz by (by destruct Hf as [-> | ->]).
  destruct (detect_shell_type sh) as [[]|] eqn:Ed; try done; injection H as -> ->;
    split_and!; try done; congruence.
Qed.

(** The patterns that [find_git_subcommand] skips with a value are all unsafe. *)
Lemma skipped_is_unsafe arg :
  is_git_global_option_with_inline_value arg || is_git_global_option_with_value arg = true ->
  git_matches_option_pattern arg UNSAFE_GIT_GLOBAL_OPTIONS = true.
Proof.
  unfold git_matches_option_pattern, UNSAFE_GIT_GLOBAL_OPTIONS. cbn [existsb pattern_matches].
  intros [H|H]%orb_true_iff.
  - unfold is_git_global_option_with_inline_value in H.
    repeat (apply orb_true_iff in H as [H|H]); [by rewrite H, ?orb_true_r..|].
    apply andb_true_iff in H as [[H|H]%orb_true_iff Hl].
    + change (Str.len $"-C") with 2%N. by rewrite H, Hl, ?orb_true_r.
    + change (Str.len $"-c") with 2%N. by rewrite H, Hl, ?orb_true_r.
  - apply contains_spec in H.
    repeat (apply elem_of_cons in H as [E|H]; [rewrite (bool_decide_true _ E); by rewrite ?orb_true_r|]).
    by apply elem_of_nil in H.
Qed.

Lemma git_scan_finds idx skip args subs i sub :
  git_scan idx skip args subs = Some (i, sub) ->
  idx <= i /\ args !! (i - idx) = Some sub /\ sub ∈ subs /\ Str.starts_with $"-" sub = false.
Proof.
  revert idx skip; induction args as [|a args IH]; intros idx skip; [done|]. cbn [git_scan].
  assert (forall sk, git_scan (S idx) sk args subs = Some (i, sub) ->
    idx <= i /\ (a :: args) !! (i - idx) = Some sub /\ sub ∈ subs /\
    Str.starts_with $"-" sub = false) as Hrec.
  { intros sk (Hi & Hj & Hin & Hd)%IH. replace (i - idx) with (S (i - S idx)) by lia.
    split_and!; [lia|done..]. }
  destruct skip; [apply Hrec|]. destruct (is_git_global_option_with_inline_value a); [apply Hrec|].
  destruct (is_git_global_option_with_value a); [apply Hrec|].
  destruct (Str.starts_with $"-" a) eqn:Ed; [rewrite orb_true_r; apply Hrec|].
  destruct (bool_decide (a = $"--")); [apply Hrec|]. cbn [orb].
  destruct (contains subs a) eqn:Ec; [|done]. intros [= <- <-].
  rewrite Nat.sub_diag. split_and!; [lia|done|by apply contains_spec|done].
Qed.

(** Among arguments without an unsafe option, the scan skips only options. *)
Lemma git_scan_options idx args subs i sub :
  git_scan idx false args subs = Some (i, sub) ->
  git_has_unsafe_global_option (take (i - idx) args) = false ->
  Forall (fun a => Str.starts_with $"-" a = true) (take (i - idx) args).
Proof.
  revert idx; induction args as [|arg args IH]; intros idx; [done|]. intros Hs.
  pose proof (git_scan_finds _ _ _ _ _ _ Hs) as (Hi & _). revert Hs. cbn [git_scan].
  destruct (decide (i = idx)) as [->|Hne]; [by rewrite Nat.sub_diag|].
  replace (i - idx) with (S (i - S idx)) by lia. cbn [take]. intros Hs Hsafe.
  unfold git_has_unsafe_global_option in Hsafe. cbn [existsb] in Hsafe.
  apply orb_false_iff in Hsafe as [Harg Hrest].
  destruct (is_git_global_option_with_inline_value arg) eqn:E1; [by rewrite skipped_is_unsafe in Harg by (by rewrite E1)|].
  destruct (is_git_global_option_with_value arg) eqn:E2; [by rewrite skipped_is_unsafe in Harg by (by rewrite E1, E2)|].
  destruct (Str.starts_with $"-" arg) eqn:Ed.
  - constructor; [done|]. rewrite orb_true_r in Hs. by apply IH.
  - destruct (bool_decide (arg = $"--")) eqn:Eb.
    { apply bool_decide_eq_true in Eb. by rewrite Eb in Ed. }
    cbn [orb] in Hs. destruct (contains subs arg); [|done]. injection Hs as <- _. done.
Qed.

(** ** Properties *)

(** No command is both known to be safe and possibly dangerous, whether it is run
    directly or is a shell script of plain commands.  (The safe list reads [zsh] as
    [bash] everywhere; the hypothesis is that the grammar reads the script [zsh]
    as the one command it is.) *)
Theorem safe_commands_are_not_dangerous parse_tree command :
  (forall root, parse_tree $"zsh" = Some root ->
     try_parse_word_only_commands_sequence root $"zsh" = Some [[$"zsh"]]) ->
  is_known_safe_command parse_tree command = true ->
  command_might_be_dangerous parse_tree command = false.
Proof.
  intros Hzsh Hsafe. apply not_true_iff_false. intros Hd. unfold command_might_be_dangerous in Hd.
  apply orb_true_iff in Hd as [Hd|Hd].
  - apply dangerous_exec_head in Hd as (cmd0 & rest & -> & Hc).
    assert (zsh_as_bash cmd0 = cmd0) as Ez by (destruct Hc as [-> | ->]; done).
    unfold is_known_safe_command in Hsafe. cbn [fmap list_fmap] in Hsafe. rewrite Ez in Hsafe.
    apply orb_true_iff in Hsafe as [(w & Hw & Hin)%safe_exec_name|Hs].
    + by eapply (rm_sudo_not_safe cmd0).
    + destruct (parse_shell_lc_plain_commands _ _) as [cmds|] eqn:Ep; [|done].
      apply bind_Some in Ep as ([sh script] & (flag & Hcmd & _ & Hdet)%extract_bash_Some & _).
      injection Hcmd as -> _. destruct Hc as [-> | ->]; by vm_compute in Hdet.
  - destruct (parse_shell_lc_plain_commands parse_tree command) as [cmds|] eqn:Ep; [|done].
    apply existsb_exists in Hd as (cmd & Hcmd & Hd).
    unfold parse_shell_lc_plain_commands in Ep.
    apply bind_Some in Ep as ([sh script] & He & Ep).
    pose proof He as (flag & -> & Hflag & Hdet)%extract_bash_Some.
    unfold is_known_safe_command in Hsafe. cbn [fmap list_fmap] in Hsafe.
    apply orb_true_iff in Hsafe as [(w & Hw & Hin)%safe_exec_name|Hs].
    { by apply (shell_is_not_safe (zsh_as_bash sh) w); [apply zsh_as_bash_shell|..]. }
    destruct (decide (script = $"zsh")) as [->|Hne].
    + apply bind_Some in Ep as (root & Hroot & Ep). rewrite (Hzsh root Hroot) in Ep.
      injection Ep as <-. destruct Hcmd as [<-|[]]. done.
    + destruct (parse_shell_lc_plain_commands parse_tree _) as [cmds'|] eqn:Ep'; [|done].
      unfold parse_shell_lc_plain_commands in Ep'.
      apply bind_Some in Ep' as ([sh' script'] & (flag' & Hc' & _ & _)%extract_bash_Some & Ep').
      injection Hc' as <- <- E. unfold zsh_as_bash in E. rewrite decide_False in E by done. subst script'.
      assert (cmds' = cmds) as -> by (rewrite Ep in Ep'; by injection Ep').
      destruct cmds as [|c0 cs]; [done|]. rewrite forallb_forall in Hs.
      by rewrite (safe_not_dangerous_exec cmd (Hs cmd Hcmd)) in Hd.
Qed.

(** A git command is approved only if its subcommand, one of the five that read,
    is its first argument that is not an option; no option before it is one that
    changes the repository, the configuration or the programs git runs; no argument
    after it writes a file or runs a program; and [branch] has only listing flags. *)
Theorem safe_git_is_read_only command :
  is_safe_git_command command = true ->
  exists cmd0 globals sub args,
    command = cmd0 :: globals ++ sub :: args /\ Path.file_name cmd0 = Some $"git" /\
    sub ∈ [$"status"; $"log"; $"diff"; $"show"; $"branch"] /\
    Forall (fun a => Str.starts_with $"-" a = true /\
                     git_matches_option_pattern a UNSAFE_GIT_GLOBAL_OPTIONS = false) globals /\
    Forall (fun a => git_matches_option_pattern a UNSAFE_GIT_SUBCOMMAND_OPTIONS = false) args /\
    (sub = $"branch" -> git_branch_is_read_only args = true).
Proof.
  unfold is_safe_git_command, find_git_subcommand. destruct command as [|cmd0 rest]; [done|].
  case_decide as Hgit; [|done].
  destruct (git_scan 1 false rest _) as [[idx sub]|] eqn:Es; [|done].
  pose proof (git_scan_options _ _ _ _ _ Es) as Hopts.
  apply git_scan_finds in Es as (Hidx & Hat & Hin & _).
  destruct idx as [|i]; [lia|]. replace (S i - 1) with i in * by lia. cbn [take drop].
  rewrite drop_0.
  destruct (git_has_unsafe_global_option (take i rest)) eqn:Eg; [done|].
  replace (S i + 1) with (S (S i)) by lia. cbn [drop]. intros Hsafe.
  exists cmd0, (take i rest), sub, (drop (S i) rest).
  assert (git_subcommand_args_are_read_only (drop (S i) rest) = true /\
          (sub = $"branch" -> git_branch_is_read_only (drop (S i) rest) = true)) as [Hro Hbr].
  { destruct (contains [$"status"; $"log"; $"diff"; $"show"] sub) eqn:Ec.
    - split; [done|]. intros ->. by vm_compute in Ec.
    - case_decide; [|done]. apply andb_true_iff in Hsafe. by destruct Hsafe. }
  split_and!; [by rewrite take_drop_middle|done|done| | |done].
  - specialize (Hopts eq_refl). rewrite Forall_forall in Hopts |- *. intros a Ha. split; [by apply Hopts|].
    apply not_true_iff_false. intros Hm. apply not_true_iff_false in Eg. apply Eg.
    apply existsb_exists. exists a. by rewrite <- list_elem_of_In.
  - apply Forall_forall. intros a Ha. unfold git_subcommand_args_are_read_only in Hro.
    apply negb_true_iff, not_true_iff_false in Hro. apply not_true_iff_false. intros Hm. apply Hro.
    apply existsb_exists. exists a. by rewrite <- list_elem_of_In.
Qed.

(** The fourth argument of [sed -n 1p] is not looked at. *)
Example sed_fourth_argument_is_unchecked :
  is_known_safe_command (fun _ => None) [$"sed"; $"-n"; $"1p"; $"--expression=w/tmp/out"] = true.
Proof. vm_compute. reflexivity. Qed.

(** A grammar that knows two scripts. *)
Definition demo_grammar (script : str) : option Node :=
  if decide (script = $"zsh") then
    Some (mkNode $"program" true false 0 3 [demo_command 0 3])
  else if decide (script = $"ls | wc") then demo_tree script
  else None.

Lemma safe_commands_are_not_dangerous_witness :
  command_might_be_dangerous demo_grammar [$"zsh"; $"-lc"; $"ls | wc"] = false.
Proof.
  apply (safe_commands_are_not_dangerous demo_grammar [$"zsh"; $"-lc"; $"ls | wc"]).
  - intros root H. vm_compute in H. injection H as <-. vm_compute. reflexivity.
  - vm_compute. reflexivity.
Defined.

Lemma safe_git_is_read_only_witness :
  exists globals sub args,
    [$"--no-pager"; $"log"; $"-n"; $"1"] = globals ++ sub :: args /\ sub ∈ [$"status"; $"log"; $"diff"; $"show"; $"branch"].
Proof.
  destruct (safe_git_is_read_only [$"/usr/bin/git"; $"--no-pager"; $"log"; $"-n"; $"1"])
    as (cmd0 & globals & sub & args & H & _ & Hsub & _); [vm_compute; reflexivity|].
  exists globals, sub, args. split; [exact (f_equal tail H)|exact Hsub].
Defined.

End Safety.
