(* ===== verification/ExecApproval.v ===== *)
(** Whether a command or a patch may run: the decision of the execution policy about a
    command ([core/src/exec_policy.rs]), of the sandbox policy about a patch
    ([core/src/safety.rs]), and what follows from it for the sandbox
    ([core/src/tools/sandboxing.rs]), off Windows.  The grammar of shell scripts and the
    quoting of the [shlex] crate are arguments. *)
From S2P Require Import Prelude Paths PathOps ExecPolicyRule ExecPolicy ShellCommand CommandSafety Permissions.
From S2P Require Import AccessResolution PermissionProfile.
From stdpp Require Import gmap.

Module Approval.
Import PathOps Rule Policy Shell Safety Permissions Access Profile.

(** ** Data *)

Record GranularApprovalConfig := mkGranular {
  sandbox_approval : bool;
  rules : bool;
  skill_approval : bool;
  request_permissions : bool;
  mcp_elicitations : bool;
}.
Inductive AskForApproval :=
| UnlessTrusted
| OnFailure
| OnRequest
| Granular (c : GranularApprovalConfig)
| Never.
#[global] Instance granular_eq_dec : EqDecision GranularApprovalConfig.
Proof. solve_decision. Defined.
#[global] Instance ask_eq_dec : EqDecision AskForApproval.
Proof. solve_decision. Defined.
Definition allows_sandbox_approval (c : GranularApprovalConfig) : bool := sandbox_approval c.
Definition allows_rules_approval (c : GranularApprovalConfig) : bool := rules c.

Record ExecPolicyAmendment := mkAmendment { amendment_command : list str }.
#[global] Instance amendment_eq_dec : EqDecision ExecPolicyAmendment.
Proof. solve_decision. Defined.

Inductive ExecApprovalRequirement :=
| Skip (bypass_sandbox : bool) (proposed_execpolicy_amendment : option ExecPolicyAmendment)
| NeedsApproval (reason : option str) (proposed_execpolicy_amendment : option ExecPolicyAmendment)
| Forbid_ (reason : str).
Definition proposed_execpolicy_amendment (r : ExecApprovalRequirement) : option ExecPolicyAmendment :=
  match r with Skip _ a | NeedsApproval _ a => a | Forbid_ _ => None end.

Record UnmatchedCommandContext := mkUnmatched {
  approval_policy : AskForApproval;
  permission_profile : PermissionProfile;
  context_file_system_sandbox_policy : FileSystemSandboxPolicy;
  context_sandbox_permissions : SandboxPermissions;
  used_complex_parsing : bool;
}.
Record ExecPolicyCommands := mkCommands { commands : list (list str); commands_complex : bool }.
Record ExecApprovalRequest := mkRequest {
  request_command : list str;
  request_approval_policy : AskForApproval;
  request_permission_profile : PermissionProfile;
  request_file_system_sandbox_policy : FileSystemSandboxPolicy;
  request_sandbox_permissions : SandboxPermissions;
  prefix_rule : option (list str);
}.

(** ** Prompts *)

Definition PROMPT_CONFLICT_REASON : str := $"approval required by policy, but AskForApproval is set to Never".
Definition REJECT_SANDBOX_APPROVAL_REASON : str :=
  $"approval required by policy, but AskForApproval::Granular.sandbox_approval is false".
Definition REJECT_RULES_APPROVAL_REASON : str :=
  $"approval required by policy rule, but AskForApproval::Granular.rules is false".

Definition is_policy_match (rule_match : RuleMatch) : bool :=
  match rule_match with PrefixRuleMatch _ _ _ _ => true | HeuristicsRuleMatch _ _ => false end.
Definition prompt_is_rejected_by_policy (approval_policy : AskForApproval) (prompt_is_rule : bool) : option str :=
  match approval_policy with
  | Never => Some PROMPT_CONFLICT_REASON
  | OnFailure | OnRequest | UnlessTrusted => None
  | Granular granular_config =>
      if prompt_is_rule then
        if negb (allows_rules_approval granular_config) then Some REJECT_RULES_APPROVAL_REASON else None
      else if negb (allows_sandbox_approval granular_config) then Some REJECT_SANDBOX_APPROVAL_REASON
      else None
  end.

Definition BANNED_PREFIX_SUGGESTIONS : list (list str) :=
  [[$"python3"]; [$"python3"; $"-"]; [$"python3"; $"-c"]; [$"python"]; [$"python"; $"-"]; [$"python"; $"-c"];
   [$"py"]; [$"py"; $"-3"]; [$"pythonw"]; [$"pyw"]; [$"pypy"]; [$"pypy3"]; [$"git"]; [$"bash"]; [$"bash"; $"-lc"];
   [$"sh"]; [$"sh"; $"-c"]; [$"sh"; $"-lc"]; [$"zsh"]; [$"zsh"; $"-lc"]; [$"/bin/zsh"]; [$"/bin/zsh"; $"-lc"];
   [$"/bin/bash"]; [$"/bin/bash"; $"-lc"]; [$"pwsh"]; [$"pwsh"; $"-Command"]; [$"pwsh"; $"-c"]; [$"powershell"];
   [$"powershell"; $"-Command"]; [$"powershell"; $"-c"]; [$"powershell.exe"]; [$"powershell.exe"; $"-Command"];
   [$"powershell.exe"; $"-c"]; [$"env"]; [$"sudo"]; [$"node"]; [$"node"; $"-e"]; [$"perl"]; [$"perl"; $"-e"];
   [$"ruby"]; [$"ruby"; $"-e"]; [$"php"]; [$"php"; $"-r"]; [$"lua"]; [$"lua"; $"-e"]; [$"osascript"]].

(** [shlex::try_join]. *)
Class Shlex := shlex_try_join : list str -> option str.

Section approval.
Context `{Shlex}.
Variable parse_tree : str -> option Node.
Variable home_dir : option str.
Variable current_dir : result Io.Error str.

(** ** Commands *)

Definition commands_for_exec_policy (command : list str) : ExecPolicyCommands :=
  let rest :=
    match parse_shell_lc_single_command_prefix parse_tree command with
    | Some single_command => mkCommands [single_command] true
    | None => mkCommands [command] false
    end in
  match parse_shell_lc_plain_commands parse_tree command with
  | Some [] | None => rest
  | Some commands => mkCommands commands false
  end.

(** Off Windows an environment always has sandbox protections. *)
Definition render_decision_for_unmatched_command (command : list str) (context : UnmatchedCommandContext) : Decision :=
  let approval_policy := approval_policy context in
  let restricted_decision :=
    match kind (context_file_system_sandbox_policy context) with
    | Unrestricted | ExternalSandbox => Allow
    | Restricted =>
        if requests_sandbox_override (context_sandbox_permissions context) then Prompt else Allow
    end in
  if is_known_safe_command parse_tree command && negb (used_complex_parsing context) &&
     bool_decide (approval_policy = UnlessTrusted)
  then Allow
  else if command_might_be_dangerous parse_tree command then
    match approval_policy with
    | Never =>
        match permission_profile context with Disabled | External _ => Allow | Managed _ _ => Forbidden end
    | OnFailure | OnRequest | UnlessTrusted | Granular _ => Prompt
    end
  else
    match approval_policy with
    | Never | OnFailure => Allow
    | UnlessTrusted => Prompt
    | OnRequest => restricted_decision
    | Granular _ => restricted_decision
    end.

(** ** Amendments *)

Definition is_prompt_rule (m : RuleMatch) : bool := is_policy_match m && bool_decide (match_decision m = Prompt).
Definition first_heuristic (d : Decision) (matched_rules : list RuleMatch) : option ExecPolicyAmendment :=
  head (omap (fun m =>
    match m with
    | HeuristicsRuleMatch command d' => if bool_decide (d' = d) then Some (mkAmendment command) else None
    | PrefixRuleMatch _ _ _ _ => None
    end) matched_rules).
Definition try_derive_execpolicy_amendment_for_prompt_rules (matched_rules : list RuleMatch)
    : option ExecPolicyAmendment :=
  if existsb is_prompt_rule matched_rules then None else first_heuristic Prompt matched_rules.
Definition try_derive_execpolicy_amendment_for_allow_rules (matched_rules : list RuleMatch)
    : option ExecPolicyAmendment :=
  if existsb is_policy_match matched_rules then None else first_heuristic Allow matched_rules.

(** A check that panics does not approve; it never panics with a fallback. *)
Definition prefix_rule_would_approve_all_commands (exec_policy : Policy) (prefix_rule : list str)
    (commands : list (list str)) (fallback : list str -> Decision) (match_options : MatchOptions) : bool :=
  match add_prefix_rule exec_policy prefix_rule Allow with
  | Err _ => false
  | Ok policy_with_prefix_rule =>
      forallb (fun command =>
        match check_with_options home_dir current_dir policy_with_prefix_rule command fallback match_options with
        | Some e => bool_decide (decision e = Allow)
        | None => false
        end) commands
  end.
Definition derive_requested_execpolicy_amendment_from_prefix_rule (prefix_rule : option (list str))
    (matched_rules : list RuleMatch) (exec_policy : Policy) (commands : list (list str))
    (fallback : list str -> Decision) (match_options : MatchOptions) : option ExecPolicyAmendment :=
  prefix_rule ← prefix_rule;
  if match prefix_rule with [] => true | _ => false end then None
  else if bool_decide (prefix_rule ∈ BANNED_PREFIX_SUGGESTIONS) then None
  else if existsb is_policy_match matched_rules then None
  else if prefix_rule_would_approve_all_commands exec_policy prefix_rule commands fallback match_options
  then Some (mkAmendment prefix_rule) else None.

(** ** Reasons *)

Definition render_shlex_command (args : list str) : str := default (Str.join $" " args) (shlex_try_join args).
(** [max_by_key] keeps the last of several largest. *)
Definition most_specific (d : Decision) (matched_rules : list RuleMatch) : option (list str * option str) :=
  max_by_key (fun a b => length (fst a) <=? length (fst b))
    (omap (fun m =>
       match m with
       | PrefixRuleMatch matched_prefix d' _ justification =>
           if bool_decide (d' = d) then Some (matched_prefix, justification) else None
       | HeuristicsRuleMatch _ _ => None
       end) matched_rules).
Definition quoted (command : str) : str := $"`" ++ command ++ $"`".
Definition derive_prompt_reason (command_args : list str) (evaluation : Evaluation) : option str :=
  let command := quoted (render_shlex_command command_args) in
  match most_specific Prompt (matched_rules evaluation) with
  | Some (_, Some justification) => Some (command ++ $" requires approval: " ++ justification)
  | Some (_, None) => Some (command ++ $" requires approval by policy")
  | None => None
  end.
Definition derive_forbidden_reason (command_args : list str) (evaluation : Evaluation) : str :=
  let command := quoted (render_shlex_command command_args) in
  match most_specific Forbidden (matched_rules evaluation) with
  | Some (_, Some justification) => command ++ $" rejected: " ++ justification
  | Some (matched_prefix, None) =>
      command ++ $" rejected: policy forbids commands starting with " ++ quoted (render_shlex_command matched_prefix)
  | None => command ++ $" rejected: blocked by policy"
  end.

(** ** The requirement of a command *)

Definition resolving : MatchOptions := mkOptions true.
Definition fallback_of (req : ExecApprovalRequest) (complex : bool) (cmd : list str) : Decision :=
  render_decision_for_unmatched_command cmd
    (mkUnmatched (request_approval_policy req) (request_permission_profile req)
       (request_file_system_sandbox_policy req) (request_sandbox_permissions req) complex).
Definition explicitly_allowed (exec_policy : Policy) (command : list str) : bool :=
  existsb (fun m => is_policy_match m && bool_decide (match_decision m = Allow))
    (matches_for_command_with_options home_dir current_dir exec_policy command None resolving).

(** [None] is the panic of an evaluation without matches. *)
Definition create_exec_approval_requirement_for_command (exec_policy : Policy) (req : ExecApprovalRequest)
    : option ExecApprovalRequirement :=
  let command := request_command req in
  let parsed := commands_for_exec_policy command in
  let auto_amendment_allowed := negb (commands_complex parsed) in
  let fallback := fallback_of req (commands_complex parsed) in
  evaluation ← check_multiple_with_options home_dir current_dir exec_policy (commands parsed) fallback resolving;
  let requested_amendment :=
    if auto_amendment_allowed then
      derive_requested_execpolicy_amendment_from_prefix_rule (prefix_rule req) (matched_rules evaluation) exec_policy
        (commands parsed) fallback resolving
    else None in
  Some match decision evaluation with
       | Forbidden => Forbid_ (derive_forbidden_reason command evaluation)
       | Prompt =>
           let prompt_is_rule := existsb is_prompt_rule (matched_rules evaluation) in
           match prompt_is_rejected_by_policy (request_approval_policy req) prompt_is_rule with
           | Some reason => Forbid_ reason
           | None =>
               NeedsApproval (derive_prompt_reason command evaluation)
                 match requested_amendment with
                 | Some a => Some a
                 | None =>
                     if auto_amendment_allowed
                     then try_derive_execpolicy_amendment_for_prompt_rules (matched_rules evaluation) else None
                 end
           end
       | Allow =>
           Skip (forallb (explicitly_allowed exec_policy) (commands parsed))
             (if auto_amendment_allowed
              then try_derive_execpolicy_amendment_for_allow_rules (matched_rules evaluation) else None)
       end.

(** The policy in memory after an amendment was appended to the file
    ([append_amendment_and_update]). *)
Definition update_after_amendment (current_policy : Policy) (amendment : ExecPolicyAmendment)
    : option (result Error Policy) :=
  existing_evaluation ← check_multiple_with_options home_dir current_dir current_policy
    [amendment_command amendment] (fun _ => Forbidden) resolving;
  let already_allowed :=
    bool_decide (decision existing_evaluation = Allow) &&
    existsb (fun m => is_policy_match m && bool_decide (match_decision m = Allow))
      (matched_rules existing_evaluation) in
  Some (if already_allowed then Ok current_policy
        else add_prefix_rule current_policy (amendment_command amendment) Allow).
End approval.

(** ** Sandboxing of a tool ([tools/sandboxing.rs]) *)

Definition default_exec_approval_requirement (policy : AskForApproval) (fs : FileSystemSandboxPolicy)
    : ExecApprovalRequirement :=
  let needs_approval :=
    match policy with
    | Never | OnFailure => false
    | OnRequest | Granular _ => is_restricted fs
    | UnlessTrusted => true
    end in
  if needs_approval &&
     match policy with Granular granular_config => negb (allows_sandbox_approval granular_config) | _ => false end
  then Forbid_ $"approval policy disallowed sandbox approval prompt"
  else if needs_approval then NeedsApproval None None
  else Skip false None.

Inductive SandboxOverride := NoOverride | BypassSandboxFirstAttempt.
Definition unsandboxed_execution_allowed (fs : FileSystemSandboxPolicy) : bool :=
  negb (has_denied_read_restrictions fs).
Definition sandbox_override_for_first_attempt (sandbox_permissions : SandboxPermissions)
    (requirement : ExecApprovalRequirement) (fs : FileSystemSandboxPolicy) : SandboxOverride :=
  if negb (unsandboxed_execution_allowed fs) then NoOverride
  else
    match requirement with
    | Skip true _ => BypassSandboxFirstAttempt
    | _ => if requires_escalated_permissions sandbox_permissions then BypassSandboxFirstAttempt else NoOverride
    end.
Definition sandbox_permissions_preserving_denied_reads (sandbox_permissions : SandboxPermissions)
    (fs : FileSystemSandboxPolicy) : SandboxPermissions :=
  if requires_escalated_permissions sandbox_permissions && negb (unsandboxed_execution_allowed fs)
  then UseDefault else sandbox_permissions.
Definition managed_network_for_sandbox_permissions {NetworkProxy} (network : option NetworkProxy)
    (sandbox_permissions : SandboxPermissions) : option NetworkProxy :=
  if requires_escalated_permissions sandbox_permissions then None else network.

(** ** Patches ([safety.rs]) *)

Inductive SandboxType := SandboxNone | MacosSeatbelt | LinuxSeccomp | WindowsRestrictedToken.
#[global] Instance sandbox_type_eq_dec : EqDecision SandboxType.
Proof. solve_decision. Defined.
Inductive TargetOs := Macos | Linux | Windows | OtherOs.
Definition get_platform_sandbox (target_os : TargetOs) (windows_sandbox_enabled : bool) : option SandboxType :=
  match target_os with
  | Macos => Some MacosSeatbelt
  | Linux => Some LinuxSeccomp
  | Windows => if windows_sandbox_enabled then Some WindowsRestrictedToken else None
  | OtherOs => None
  end.

Inductive ApplyPatchFileChange :=
| AddChange (content : str)
| DeleteChange (content : str)
| UpdateChange (unified_diff : str) (move_path : option str) (new_content : str).
(** The changes of an action, by path, in any order. *)
Record ApplyPatchAction := mkAction {
  action_changes : list (str * ApplyPatchFileChange);
  action_patch : str;
  action_cwd : str;
}.
Definition action_is_empty (a : ApplyPatchAction) : bool := match action_changes a with [] => true | _ => false end.

Definition PATCH_REJECTED_OUTSIDE_PROJECT_REASON : str :=
  $"writing outside of the project; rejected by user approval settings".
Definition PATCH_REJECTED_READ_ONLY_REASON : str :=
  $"writing is blocked by read-only sandbox; rejected by user approval settings".
Inductive SafetyCheck :=
| AutoApprove (sandbox_type : SandboxType) (user_explicitly_approved : bool)
| AskUser
| Reject (reason : str).

(** [PathBuf]s rebuilt component by component; no path is refused. *)
Definition normalize_patch_path (path : str) : str := fold_left Path.normalize_step (Path.components path) [].

Section patch.
Variable env : Env.

Definition is_path_writable (fs : FileSystemSandboxPolicy) (cwd p : str) : bool :=
  can_write_path_with_cwd env fs (normalize_patch_path (Path.push cwd p)) cwd.
Definition change_is_writable (fs : FileSystemSandboxPolicy) (cwd : str) (c : str * ApplyPatchFileChange) : bool :=
  match snd c with
  | AddChange _ | DeleteChange _ => is_path_writable fs cwd (fst c)
  | UpdateChange _ move_path _ =>
      is_path_writable fs cwd (fst c) &&
      match move_path with Some dest => is_path_writable fs cwd dest | None => true end
  end.
Definition is_write_patch_constrained_to_writable_paths (action : ApplyPatchAction) (fs : FileSystemSandboxPolicy)
    (cwd : str) : bool :=
  forallb (change_is_writable fs cwd) (action_changes action).

Definition patch_rejection_reason (profile : PermissionProfile) (fs : FileSystemSandboxPolicy) (cwd : str) : str :=
  match profile with
  | Managed _ _ =>
      if negb (has_full_disk_write_access fs) &&
         match get_writable_roots_with_cwd env fs cwd with [] => true | _ => false end
      then PATCH_REJECTED_READ_ONLY_REASON else PATCH_REJECTED_OUTSIDE_PROJECT_REASON
  | Disabled | External _ => PATCH_REJECTED_OUTSIDE_PROJECT_REASON
  end.

Definition assess_patch_safety (target_os : TargetOs) (action : ApplyPatchAction) (policy : AskForApproval)
    (profile : PermissionProfile) (fs : FileSystemSandboxPolicy) (cwd : str) (windows_sandbox_enabled : bool)
    : SafetyCheck :=
  if action_is_empty action then Reject $"empty patch"
  else
    match policy with
    | UnlessTrusted => AskUser
    | _ =>
        let rejects_sandbox_approval :=
          match policy with
          | Never => true
          | Granular granular_config => negb (sandbox_approval granular_config)
          | _ => false
          end in
        let not_approved :=
          if rejects_sandbox_approval then Reject (patch_rejection_reason profile fs cwd) else AskUser in
        if is_write_patch_constrained_to_writable_paths action fs cwd || bool_decide (policy = OnFailure) then
          match profile with
          | Disabled | External _ => AutoApprove SandboxNone false
          | Managed _ _ =>
              match get_platform_sandbox target_os windows_sandbox_enabled with
              | Some sandbox_type => AutoApprove sandbox_type false
              | None => not_approved
              end
          end
        else not_approved
    end.
End patch.

(** ** Lemmas: matches of a command *)

Section lemmas.
Context `{Shlex}.
Variable parse_tree : str -> option Node.
Variable home_dir : option str.
Variable current_dir : result Io.Error str.

(** The rules that match a segment; without one the fallback decides. *)
Definition rules_for (p : Policy) (cmd : list str) : list RuleMatch :=
  matches_for_command_with_options home_dir current_dir p cmd None resolving.

Lemma rules_for_are_policy p cmd : Forall (fun m => is_policy_match m = true) (rules_for p cmd).
Proof.
  assert (forall l cmd', Forall (fun m => is_policy_match m = true) (omap (fun r => rule_matches r cmd') l)) as Hr.
  { intros l cmd'. apply Forall_forall. intros m Hm. apply list_elem_of_omap in Hm as (r & _ & Hm).
    unfold rule_matches in Hm. destruct (matches_prefix _ _); by simplify_eq/=. }
  unfold rules_for, matches_for_command_with_options.
  destruct (match_exact_rules p cmd ≫= non_empty) as [l|] eqn:El; simpl.
  - apply bind_Some in El as (l' & El' & Hne). destruct l' as [|m l']; [done|]. injection Hne as <-.
    unfold match_exact_rules in El'. destruct cmd as [|c cmd]; [done|]. injection El' as El'.
    rewrite <- El'. apply Hr.
  - assert (Forall (fun m => is_policy_match m = true)
      (match_host_executable_rules home_dir current_dir p cmd)) as Hh.
    { unfold match_host_executable_rules. repeat case_match; try apply Forall_nil_2; try done.
      all: apply Forall_fmap; eapply Forall_impl; [apply Hr|by intros []]. }
    by destruct (match_host_executable_rules _ _ _ _).
Qed.

Lemma matches_with_fallback p cmd fallback :
  matches_for_command_with_options home_dir current_dir p cmd (Some fallback) resolving =
  match rules_for p cmd with [] => [HeuristicsRuleMatch cmd (fallback cmd)] | l => l end.
Proof. unfold rules_for, matches_for_command_with_options. by repeat case_match. Qed.

Lemma explicitly_allowed_spec p cmd :
  explicitly_allowed home_dir current_dir p cmd = true <->
  Exists (fun m => match_decision m = Allow) (rules_for p cmd).
Proof.
  unfold explicitly_allowed. fold (rules_for p cmd). rewrite existsb_exists, Exists_exists.
  pose proof (rules_for_are_policy p cmd) as Hp. rewrite Forall_forall in Hp.
  setoid_rewrite <- list_elem_of_In. setoid_rewrite andb_true_iff. setoid_rewrite bool_decide_eq_true.
  naive_solver.
Qed.

Lemma commands_nonempty command : commands (commands_for_exec_policy parse_tree command) <> [].
Proof. unfold commands_for_exec_policy. by repeat case_match. Qed.

(** What the segments of a command say together. *)
Lemma evaluation_spec p cmds fallback e :
  check_multiple_with_options home_dir current_dir p cmds fallback resolving = Some e <->
  cmds <> [] /\
  matched_rules e = concat ((fun c => match rules_for p c with
                                      | [] => [HeuristicsRuleMatch c (fallback c)] | l => l end) <$> cmds) /\
  (forall c m, c ∈ cmds -> m ∈ rules_for p c -> rank (match_decision m) <= rank (decision e)) /\
  (forall c, c ∈ cmds -> rules_for p c = [] -> rank (fallback c) <= rank (decision e)) /\
  exists c, c ∈ cmds /\ ((exists m, m ∈ rules_for p c /\ match_decision m = decision e) \/
                        (rules_for p c = [] /\ fallback c = decision e)).
Proof.
  unfold check_multiple_with_options.
  set (f := fun c => match rules_for p c with [] => [HeuristicsRuleMatch c (fallback c)] | l => l end).
  replace (_ <$> cmds) with (f <$> cmds)
    by (apply list_fmap_ext; intros; symmetry; apply matches_with_fallback).
  rewrite from_matches_spec.
  assert (forall m, m ∈ concat (f <$> cmds) <->
    exists c, c ∈ cmds /\ (m ∈ rules_for p c \/ (rules_for p c = [] /\ m = HeuristicsRuleMatch c (fallback c)))) as Hin.
  { intros m. rewrite list_elem_of_In, in_concat. split.
    - intros (l & Hl & Hm). apply list_elem_of_In in Hl, Hm. apply list_elem_of_fmap in Hl as (c & -> & Hc).
      exists c. split; [done|]. unfold f in Hm. destruct (rules_for p c) eqn:E; [|by left].
      apply list_elem_of_singleton in Hm. by right.
    - intros (c & Hc & Hm). exists (f c). rewrite <- !list_elem_of_In. split; [by apply list_elem_of_fmap_2|].
      unfold f. destruct (rules_for p c) eqn:E; [|by destruct Hm as [|[]]].
      destruct Hm as [Hm|[_ ->]]; [by apply not_elem_of_nil in Hm|by apply list_elem_of_singleton]. }
  rewrite Forall_forall, Exists_exists. setoid_rewrite Hin. split.
  - intros (Hm & Hne & Hall & m & (c & Hc & Hmc) & Hd). split_and!.
    + intros ->. done.
    + done.
    + intros c' m' Hc' Hm'. apply Hall. eauto.
    + intros c' Hc' Hr. apply (Hall (HeuristicsRuleMatch c' (fallback c'))). eauto.
    + exists c. split; [done|]. destruct Hmc as [Hmc|[Hr ->]]; [left; eauto|by right].
  - intros (Hne & Hm & Hr & Hf & c & Hc & Hx). split_and!.
    + done.
    + destruct cmds as [|c0 cmds]; [done|]. simpl. unfold f at 1. by destruct (rules_for p c0).
    + intros m (c' & Hc' & [Hm'|[Hr' ->]]); [by eapply Hr|by apply Hf].
    + destruct Hx as [(m & Hm' & Hd)|[Hr' Hd]]; [exists m; eauto|].
      exists (HeuristicsRuleMatch c (fallback c)). eauto 6.
Qed.
End lemmas.

(** ** Lemmas: rules that match and amendments *)

Section amended.
Context `{Shlex}.
Variable home_dir : option str.
Variable current_dir : result Io.Error str.
Local Abbreviation rules_for := (Approval.rules_for home_dir current_dir).

(** The names under which rules apply to a program: its own, and the file name of the
    executable unless another path is registered for it. *)
Definition reaches (hosts : gmap str (list str)) (program b : str) : Prop :=
  b = program \/
  exists path, Path.from_absolute_path home_dir current_dir program = Ok path /\
    executable_path_lookup_key path = Some b /\
    match hosts !! b with Some paths => path ∈ paths | None => True end.
Definition applies (p : Policy) (program : str) (args : list str) (r : PrefixRule) : Prop :=
  exists b, reaches (host_executables_by_name p) program b /\ r ∈ get_vec (rules_by_program p) b /\
    is_Some (matches_prefix (pattern r) (b :: args)).

Lemma elem_rule_matches (rules : list PrefixRule) cmd m :
  m ∈ omap (fun r => rule_matches r cmd) rules <->
  exists r prefix, r ∈ rules /\ matches_prefix (pattern r) cmd = Some prefix /\
    m = PrefixRuleMatch prefix (rule_decision r) None (rule_justification r).
Proof.
  rewrite list_elem_of_omap. unfold rule_matches. split.
  - intros (r & Hr & Hm). destruct (matches_prefix (pattern r) cmd) as [prefix|] eqn:E; [|done].
    injection Hm as <-. eauto.
  - intros (r & prefix & Hr & E & ->). exists r. by rewrite E.
Qed.

Lemma exact_elem p program args m :
  m ∈ default [] (match_exact_rules p (program :: args)) <->
  exists r prefix, r ∈ get_vec (rules_by_program p) program /\
    matches_prefix (pattern r) (program :: args) = Some prefix /\
    m = PrefixRuleMatch prefix (rule_decision r) None (rule_justification r).
Proof. apply elem_rule_matches. Qed.

Lemma host_elem p program args m :
  m ∈ match_host_executable_rules home_dir current_dir p (program :: args) <->
  exists path b r prefix, Path.from_absolute_path home_dir current_dir program = Ok path /\
    executable_path_lookup_key path = Some b /\
    match host_executables_by_name p !! b with Some paths => path ∈ paths | None => True end /\
    r ∈ get_vec (rules_by_program p) b /\ matches_prefix (pattern r) (b :: args) = Some prefix /\
    m = PrefixRuleMatch prefix (rule_decision r) (Some path) (rule_justification r).
Proof.
  simpl. destruct (Path.from_absolute_path _ _ program) as [path|e].
  2: { split; [by intros ?%not_elem_of_nil|naive_solver]. }
  destruct (executable_path_lookup_key path) as [b|] eqn:Eb.
  2: { split; [by intros ?%not_elem_of_nil|naive_solver]. }
  unfold get_vec. destruct (rules_by_program p !! b) as [rules|] eqn:Er.
  2: { split; [by intros ?%not_elem_of_nil|]. intros (path' & b' & r & prefix & [= <-] & Eb' & _ & Hr & _).
       rewrite Eb in Eb'. injection Eb' as <-. rewrite Er in Hr. by apply not_elem_of_nil in Hr. }
  assert (match host_executables_by_name p !! b with
          | Some paths => negb (existsb (fun x => bool_decide (x = path)) paths) | None => false end = false <->
          match host_executables_by_name p !! b with Some paths => path ∈ paths | None => True end) as Href.
  { destruct (host_executables_by_name p !! b) as [paths|]; [|done].
    rewrite negb_false_iff, existsb_exists. setoid_rewrite bool_decide_eq_true.
    setoid_rewrite <- list_elem_of_In. naive_solver. }
  destruct (match host_executables_by_name p !! b with
            | Some paths => negb (existsb (fun x => bool_decide (x = path)) paths) | None => false end) eqn:Erf.
  { split; [by intros ?%not_elem_of_nil|]. intros (path' & b' & r & prefix & [= <-] & Eb' & Hp & _).
    rewrite Eb in Eb'. injection Eb' as <-. by apply Href in Hp. }
  rewrite list_elem_of_fmap. split.
  - intros (m' & -> & Hm). apply elem_rule_matches in Hm as (r & prefix & Hr & Hp & ->).
    exists path, b, r, prefix. rewrite Er. split_and!; try done. by apply Href.
  - intros (path' & b' & r & prefix & [= <-] & Eb' & _ & Hr & Hp & ->).
    rewrite Eb in Eb'. injection Eb' as <-. rewrite Er in Hr.
    exists (PrefixRuleMatch prefix (rule_decision r) None (rule_justification r)). split; [done|].
    apply elem_rule_matches. eauto.
Qed.

Lemma rules_for_cases p program args :
  rules_for p (program :: args) =
  match default [] (match_exact_rules p (program :: args)) with
  | [] => match_host_executable_rules home_dir current_dir p (program :: args)
  | l => l
  end.
Proof.
  unfold Approval.rules_for, matches_for_command_with_options.
  change (match_exact_rules p (program :: args))
    with (Some (omap (fun r => rule_matches r (program :: args)) (get_vec (rules_by_program p) program))).
  change (resolve_host_executables resolving) with true.
  generalize (omap (fun r => rule_matches r (program :: args)) (get_vec (rules_by_program p) program)).
  intros [|m l]; simpl; by repeat case_match.
Qed.

Lemma rules_for_elem p program args m :
  m ∈ rules_for p (program :: args) ->
  exists r, applies p program args r /\ match_decision m = rule_decision r.
Proof.
  rewrite rules_for_cases. destruct (default [] _) as [|m0 l] eqn:El.
  - rewrite host_elem. intros (path & b & r & prefix & Hp & Hb & Hh & Hr & Hm & ->).
    exists r. split; [|done]. exists b. split; [right; eauto|]. split; [done|by eexists].
  - rewrite <- El, exact_elem. intros (r & prefix & Hr & Hm & ->).
    exists r. split; [|done]. exists program. split; [by left|]. split; [done|by eexists].
Qed.

Lemma rules_for_ne p program args r : applies p program args r -> rules_for p (program :: args) <> [].
Proof.
  intros (b & Hb & Hr & [prefix Hm]). rewrite rules_for_cases.
  destruct (default [] _) as [|m0 l] eqn:El; [|done].
  destruct Hb as [->|(path & Hp & Hk & Hh)]; intros Hnil.
  - assert (PrefixRuleMatch prefix (rule_decision r) None (rule_justification r) ∈
            default [] (match_exact_rules p (program :: args))) as Hin by (apply exact_elem; eauto).
    rewrite El in Hin. by apply not_elem_of_nil in Hin.
  - assert (PrefixRuleMatch prefix (rule_decision r) (Some path) (rule_justification r) ∈
            match_host_executable_rules home_dir current_dir p (program :: args)) as Hin
      by (apply host_elem; eauto 10).
    rewrite Hnil in Hin. by apply not_elem_of_nil in Hin.
Qed.

(** A pattern that matches arguments matches them with more behind. *)
Lemma matches_longer pat b args suffix :
  is_Some (matches_prefix pat (b :: args)) -> is_Some (matches_prefix pat (b :: args ++ suffix)).
Proof.
  intros [prefix Hm]. apply matches_prefix_Some in Hm as (a & s & -> & Hc & Hf).
  exists (first pat :: a). apply matches_prefix_Some. exists a, (s ++ suffix). split; [done|]. split; [|done].
  rewrite app_assoc, <- Hc. done.
Qed.

Lemma literal_matches f rest b args :
  is_Some (matches_prefix (mkPattern f (Single <$> rest)) (b :: args)) <->
  b = f /\ exists suffix, args = rest ++ suffix.
Proof.
  assert (forall ts, Forall2 (fun t token => token ∈ alternatives t) (Single <$> rest) ts <-> ts = rest) as Hs.
  { intros ts. rewrite Forall2_fmap_l. simpl. split.
    - intros Hf. induction Hf as [|x y l l' Hx _ IH]; [done|]. apply list_elem_of_singleton in Hx. by subst.
    - intros ->. apply Forall2_same_length_lookup_2; [done|]. intros i x y Hx Hy. simplify_eq.
      by apply list_elem_of_singleton. }
  split.
  - intros [prefix Hm]. apply matches_prefix_Some in Hm as (a & s & -> & Hc & Hf). simpl in *.
    apply Hs in Hf as ->. injection Hc as -> ->. eauto.
  - intros [-> [s ->]]. exists (f :: rest). apply matches_prefix_Some. exists rest, s. simpl.
    split; [done|]. split; [done|by apply Hs].
Qed.

(** The policy with a literal allow rule more. *)
Definition allowing (p : Policy) (f : str) (rest : list str) : Policy :=
  Policy.mkPolicy (multimap_insert f (mkRule (mkPattern f (Single <$> rest)) Allow None) (rules_by_program p))
    (network_rules p) (host_executables_by_name p).

Lemma applies_allowing p f rest program args r :
  applies (allowing p f rest) program args r <->
  applies p program args r \/
  (r = mkRule (mkPattern f (Single <$> rest)) Allow None /\
   reaches (host_executables_by_name p) program f /\ exists suffix, args = rest ++ suffix).
Proof.
  unfold applies, allowing; simpl. setoid_rewrite get_vec_insert. setoid_rewrite elem_of_app. split.
  - intros (b & Hb & [Hr|Hr] & Hm); [left; eauto|]. case_decide as Hf; [|by apply not_elem_of_nil in Hr].
    apply list_elem_of_singleton in Hr. subst. apply literal_matches in Hm as [_ Hs]. eauto.
  - intros [(b & Hb & Hr & Hm)|(-> & Hb & Hs)]; [eauto|]. exists f. split; [done|].
    rewrite decide_True by done. split; [right; by apply list_elem_of_singleton|by apply literal_matches].
Qed.
End amended.

(** ** Properties of commands *)

Section properties.
Context `{Shlex}.
Variable parse_tree : str -> option Node.
Variable home_dir : option str.
Variable current_dir : result Io.Error str.
Local Abbreviation rules_for := (Approval.rules_for home_dir current_dir).
Local Abbreviation segments command := (commands (commands_for_exec_policy parse_tree command)).
Local Abbreviation complex command := (commands_complex (commands_for_exec_policy parse_tree command)).
Local Abbreviation create := (create_exec_approval_requirement_for_command parse_tree home_dir current_dir).

Lemma create_spec p req r :
  create p req = Some r ->
  exists e, check_multiple_with_options home_dir current_dir p (segments (request_command req))
              (fallback_of parse_tree req (complex (request_command req))) resolving = Some e /\
  match decision e with
  | Forbidden => exists reason, r = Forbid_ reason
  | Prompt =>
      match prompt_is_rejected_by_policy (request_approval_policy req) (existsb is_prompt_rule (matched_rules e)) with
      | Some reason => r = Forbid_ reason
      | None => exists reason a, r = NeedsApproval reason a
      end
  | Allow => exists a, r = Skip (forallb (explicitly_allowed home_dir current_dir p)
                                   (segments (request_command req))) a
  end.
Proof.
  unfold create_exec_approval_requirement_for_command. intros Hr.
  apply bind_Some in Hr as (e & He & [= <-]). exists e. split; [done|].
  destruct (decision e); [by eexists| |by eexists].
  destruct (prompt_is_rejected_by_policy _ _); [done|by do 2 eexists].
Qed.

Lemma fallback_under_never req c cmd :
  request_approval_policy req = Never ->
  fallback_of parse_tree req c cmd =
  if command_might_be_dangerous parse_tree cmd
  then match request_permission_profile req with Managed _ _ => Forbidden | _ => Allow end else Allow.
Proof.
  intros Hn. unfold fallback_of, render_decision_for_unmatched_command. simpl. rewrite Hn.
  rewrite (bool_decide_false (Never = UnlessTrusted)) by done. rewrite andb_false_r.
  by destruct (command_might_be_dangerous _ _), (request_permission_profile req).
Qed.

Lemma prompt_rule_spec p cmds fallback :
  existsb is_prompt_rule (concat ((fun c => match rules_for p c with
    | [] => [HeuristicsRuleMatch c (fallback c)] | l => l end) <$> cmds)) = true <->
  exists cmd m, cmd ∈ cmds /\ m ∈ rules_for p cmd /\ match_decision m = Prompt.
Proof.
  rewrite existsb_exists. unfold is_prompt_rule. setoid_rewrite andb_true_iff.
  setoid_rewrite bool_decide_eq_true. setoid_rewrite in_concat. split.
  - intros (m & (l & Hl & Hm) & Hp & Hd). apply list_elem_of_In, list_elem_of_fmap in Hl as (c & -> & Hc).
    apply list_elem_of_In in Hm. destruct (rules_for p c) eqn:E; [by apply list_elem_of_singleton in Hm as ->|].
    exists c, m. by rewrite E.
  - intros (c & m & Hc & Hm & Hd). exists m. split; [|split; [|done]].
    + exists (rules_for p c). split; [|by apply list_elem_of_In]. apply list_elem_of_In, list_elem_of_fmap.
      exists c. split; [|done]. by destruct (rules_for p c); [apply not_elem_of_nil in Hm|].
    + pose proof (rules_for_are_policy home_dir current_dir p c) as Hp. rewrite Forall_forall in Hp. by apply Hp.
Qed.

Lemma rank_allow d : rank d <= rank Allow -> d = Allow.
Proof. destruct d; simpl; [done|lia|lia]. Qed.

(** C15: A command runs without a question only when every segment of its script may: no
    rule that matches a segment prompts or forbids, and a segment no rule matches is one
    the policies let pass.  Under [UnlessTrusted] it is known to be safe and was parsed
    completely; else it was not recognised as dangerous, except under [Never] where the
    permissions are not managed here; under [OnRequest] and [Granular] it asks for no
    override of a restricted sandbox.  The sandbox is skipped only when each segment is
    matched, so allowed by a rule. *)
Theorem unasked_commands_are_allowed p req bypass a :
  create p req = Some (Skip bypass a) ->
  Forall (fun cmd =>
    Forall (fun m => match_decision m = Allow) (rules_for p cmd) /\
    (bypass = true -> rules_for p cmd <> []) /\
    (rules_for p cmd = [] ->
     let safe := is_known_safe_command parse_tree cmd = true /\ complex (request_command req) = false in
     match request_approval_policy req with
     | UnlessTrusted => safe
     | Never => command_might_be_dangerous parse_tree cmd = true ->
                forall fs net, request_permission_profile req <> Managed fs net
     | OnFailure => command_might_be_dangerous parse_tree cmd = false
     | OnRequest | Granular _ =>
         command_might_be_dangerous parse_tree cmd = false /\
         (kind (request_file_system_sandbox_policy req) = Restricted ->
          requests_sandbox_override (request_sandbox_permissions req) = false)
     end))
   (segments (request_command req)).
Proof.
  intros (e & He & Hr)%create_spec. destruct (decision e) eqn:Hd; [|by repeat case_match; naive_solver|naive_solver].
  destruct Hr as (a' & Hr). injection Hr as Hb _.
  apply evaluation_spec in He as (_ & _ & Hrules & Hfall & _).
  apply Forall_forall. intros cmd Hcmd. split; [|split].
  - apply Forall_forall. intros m Hm. specialize (Hrules cmd m Hcmd Hm). rewrite Hd in Hrules. by apply rank_allow.
  - intros -> Hnil. symmetry in Hb. rewrite forallb_forall in Hb.
    specialize (Hb cmd (proj1 (list_elem_of_In _ _) Hcmd)). apply explicitly_allowed_spec in Hb.
    rewrite Hnil in Hb. by apply Exists_nil in Hb.
  - intros Hnil. specialize (Hfall cmd Hcmd Hnil). rewrite Hd in Hfall. apply rank_allow in Hfall.
    revert Hfall. unfold fallback_of, render_decision_for_unmatched_command. simpl.
    destruct (is_known_safe_command parse_tree cmd), (complex (request_command req)),
      (command_might_be_dangerous parse_tree cmd), (request_approval_policy req); simpl;
      repeat case_bool_decide; try done; repeat case_match; done.
Qed.

(** Every command gets a requirement.  It asks only under a policy that asks: never
    under [Never], and under [Granular] only with the flag for rules when a rule prompts
    and the flag for sandboxes when none does; no rule then forbids a segment, and some
    rule or the default asks for one.  A refusal is because a rule forbids, because a
    segment is dangerous and nobody may be asked, or because the policy refuses the
    question. *)
Theorem questions_respect_the_policy p req :
  exists r, create p req = Some r /\
  let cmds := segments (request_command req) in
  let rule d := exists cmd m, cmd ∈ cmds /\ m ∈ rules_for p cmd /\ match_decision m = d in
  match r with
  | Skip _ _ => ~ rule Prompt /\ ~ rule Forbidden
  | NeedsApproval _ _ =>
      ~ rule Forbidden /\
      match request_approval_policy req with
      | Never => False
      | Granular g => (rule Prompt -> rules g = true) /\ (~ rule Prompt -> sandbox_approval g = true)
      | _ => True
      end
  | Forbid_ _ =>
      rule Forbidden \/
      (exists cmd, cmd ∈ cmds /\ rules_for p cmd = [] /\ command_might_be_dangerous parse_tree cmd = true /\
         request_approval_policy req = Never) \/
      match request_approval_policy req with
      | Never => rule Prompt
      | Granular g => (rule Prompt /\ rules g = false) \/ (~ rule Prompt /\ sandbox_approval g = false)
      | _ => False
      end
  end.
Proof.
  set (fb := fallback_of parse_tree req (complex (request_command req))).
  assert (exists e, check_multiple_with_options home_dir current_dir p (segments (request_command req)) fb
                      resolving = Some e) as [e He].
  { unfold check_multiple_with_options. pose proof (commands_nonempty parse_tree (request_command req)) as Hne.
    destruct (segments (request_command req)) as [|c cs]; [done|]. rewrite fmap_cons. simpl.
    rewrite matches_with_fallback. destruct (rules_for p c); by eexists. }
  assert (exists r, create p req = Some r) as [r Hr].
  { unfold create_exec_approval_requirement_for_command. fold fb. rewrite He. by eexists. }
  exists r. split; [done|]. apply create_spec in Hr as (e' & He' & Hr). fold fb in He'. rewrite He in He'.
  injection He' as <-. apply evaluation_spec in He as (_ & Hms & Hrules & Hfall & cmd & Hcmd & Hwho).
  pose proof (prompt_rule_spec p (segments (request_command req)) fb) as Hpr. rewrite <- Hms in Hpr.
  assert (forall d, rank (decision e) < rank d ->
    ~ exists cmd m, cmd ∈ segments (request_command req) /\ m ∈ rules_for p cmd /\ match_decision m = d) as Hno.
  { intros d Hlt (c & m & Hc & Hm & <-). specialize (Hrules c m Hc Hm). lia. }
  destruct (decision e) eqn:Hd; simpl in *.
  - destruct Hr as [a ->]. split; apply Hno; simpl; lia.
  - assert (request_approval_policy req = Never -> existsb is_prompt_rule (matched_rules e) = true) as Hnever.
    { intros Hn. apply Hpr. destruct Hwho as [(m & Hm & Hdm)|[Hnil Hfb]]; [by exists cmd, m|].
      unfold fb in Hfb. rewrite fallback_under_never in Hfb by done. by repeat case_match. }
    destruct (prompt_is_rejected_by_policy _ _) as [reason|] eqn:Ep.
    + subst r. right; right. unfold prompt_is_rejected_by_policy, allows_rules_approval, allows_sandbox_approval in Ep.
      destruct (request_approval_policy req) as [| | |g|]; try done; [|by apply Hpr, Hnever].
      rewrite <- Hpr. destruct (existsb _ _); destruct g as [[] []]; simplify_eq/=; auto.
    + destruct Hr as (reason & a & ->). split; [apply Hno; simpl; lia|].
      unfold prompt_is_rejected_by_policy, allows_rules_approval, allows_sandbox_approval in Ep.
      destruct (request_approval_policy req) as [| | |g|]; try done.
      rewrite <- Hpr. destruct (existsb _ _); destruct g as [[] []]; simplify_eq/=; auto.
  - destruct Hr as [reason ->]. destruct Hwho as [(m & Hm & Hdm)|[Hnil Hfb]]; [left; by exists cmd, m|].
    right; left. exists cmd. split; [done|]. split; [done|]. unfold fb in Hfb. revert Hfb.
    unfold fallback_of, render_decision_for_unmatched_command. simpl.
    destruct (_ && _ && _), (command_might_be_dangerous parse_tree cmd), (request_approval_policy req);
      by repeat case_match.
Qed.
Lemma single_segment p req cmd r :
  commands_for_exec_policy parse_tree (request_command req) = mkCommands [cmd] false ->
  rules_for p cmd <> [] -> Forall (fun m => match_decision m = Allow) (rules_for p cmd) ->
  create p req = r -> r = Some (Skip true None).
Proof.
  intros Hc Hne Hall <-. unfold create_exec_approval_requirement_for_command. rewrite Hc. simpl.
  assert (check_multiple_with_options home_dir current_dir p [cmd] (fallback_of parse_tree req false) resolving =
          Some (mkEvaluation Allow (rules_for p cmd))) as ->.
  { apply evaluation_spec. simpl. rewrite Forall_forall in Hall. split_and!; try done.
    - rewrite app_nil_r. by destruct (rules_for p cmd).
    - intros c m ->%list_elem_of_singleton Hm. by rewrite (Hall m Hm).
    - by intros c ->%list_elem_of_singleton Hnil.
    - exists cmd. split; [by apply list_elem_of_singleton|]. left.
      destruct (rules_for p cmd) as [|m l]; [done|]. exists m. split; [left|apply Hall; left]. }
  simpl. pose proof (rules_for_are_policy home_dir current_dir p cmd) as Hp.
  assert (explicitly_allowed home_dir current_dir p cmd = true) as ->.
  { apply explicitly_allowed_spec. destruct (rules_for p cmd) as [|m l]; [done|].
    apply Forall_cons in Hall as [Hm _]. by left. }
  unfold try_derive_execpolicy_amendment_for_allow_rules.
  destruct (rules_for p cmd) as [|m l]; [done|]. apply Forall_cons in Hp as [Hm _]. simpl. by rewrite Hm.
Qed.

(** What is known of a command for which an amendment is proposed. *)
Lemma proposed_amendment p req cmd reason a :
  commands_for_exec_policy parse_tree (request_command req) = mkCommands [cmd] false ->
  create p req = Some (NeedsApproval reason (Some a)) ->
  rules_for p cmd = [] /\
  (amendment_command a = cmd \/
   exists p', add_prefix_rule p (amendment_command a) Allow = Ok p' /\ rules_for p' cmd <> []).
Proof.
  intros Hc. unfold create_exec_approval_requirement_for_command. rewrite Hc. simpl. intros Hr.
  apply bind_Some in Hr as (e & He & Hr). apply evaluation_spec in He as (_ & Hms & _ & _ & c & Hin & Hwho).
  apply list_elem_of_singleton in Hin as ->. simpl in Hms. rewrite app_nil_r in Hms.
  pose proof (rules_for_are_policy home_dir current_dir p cmd) as Hp.
  destruct (decision e) eqn:Hd; try done. destruct (prompt_is_rejected_by_policy _ _); [done|].
  injection Hr as _ Ha. destruct (derive_requested_execpolicy_amendment_from_prefix_rule _ _ _ _ _ _ _ _) as [a'|] eqn:Er.
  - injection Ha as ->. unfold derive_requested_execpolicy_amendment_from_prefix_rule in Er.
    apply bind_Some in Er as (rule & _ & Er). destruct rule as [|f rest] eqn:Erule; [done|].
    case_bool_decide; [done|]. destruct (existsb is_policy_match (matched_rules e)) eqn:Ex; [done|].
    destruct (rules_for p cmd) as [|m l] eqn:Enil.
    2: { apply Forall_cons in Hp as [Hm _]. rewrite Hms in Ex. simpl in Ex. by rewrite Hm in Ex. }
    split; [done|]. right. unfold prefix_rule_would_approve_all_commands in Er.
    destruct (add_prefix_rule p (f :: rest) Allow) as [p'|] eqn:Eadd; [|done].
    destruct (forallb _ _) eqn:Ef; [|done]. injection Er as <-. exists p'. split; [done|]. intros Hnil.
    simpl in Ef. unfold check_with_options in Ef. rewrite matches_with_fallback, Hnil in Ef. simpl in Ef.
    destruct Hwho as [(m & Hm & _)|[_ Hfb]]; [by apply not_elem_of_nil in Hm|]. by rewrite Hfb in Ef.
  - unfold try_derive_execpolicy_amendment_for_prompt_rules in Ha. destruct (existsb _ _) eqn:Ex; [done|].
    destruct Hwho as [(m & Hm & Hdm)|[Hnil Hfb]].
    + exfalso. rewrite Forall_forall in Hp. specialize (Hp m Hm).
      assert (existsb is_prompt_rule (matched_rules e) = true); [|congruence].
      apply existsb_exists. exists m. rewrite Hms. split; [|by unfold is_prompt_rule; rewrite Hp, Hdm].
      apply list_elem_of_In. by destruct (rules_for p cmd); [apply not_elem_of_nil in Hm|].
    + rewrite Hnil in *. split; [done|]. left. rewrite Hms in Ha. unfold first_heuristic in Ha. simpl in Ha.
      rewrite Hfb in Ha. by injection Ha as <-.
Qed.

Lemma update_adds p a f rest :
  amendment_command a = f :: rest -> rules_for p (f :: rest) = [] ->
  update_after_amendment home_dir current_dir p a = Some (Ok (allowing p f rest)).
Proof.
  intros Ea Hnil. unfold update_after_amendment, check_multiple_with_options. rewrite Ea. simpl.
  by rewrite matches_with_fallback, Hnil.
Qed.

(** C17: Who accepts the amendment proposed with a question about a command of one segment
    is not asked again: the rule is added to the policy in memory, and under the new
    policy the same request runs without a question and without the sandbox.  This holds
    for each amendment that starts with the command's program. *)
Theorem accepted_amendments_settle_the_command p req cmd reason a :
  commands_for_exec_policy parse_tree (request_command req) = mkCommands [cmd] false ->
  create p req = Some (NeedsApproval reason (Some a)) ->
  cmd <> [] -> head (amendment_command a) = head cmd ->
  exists p', update_after_amendment home_dir current_dir p a = Some (Ok p') /\
    create p' req = Some (Skip true None).
Proof.
  intros Hc Hr Hne Hhead. destruct (proposed_amendment _ _ _ _ _ Hc Hr) as [Hnil Ha].
  destruct cmd as [|f args]; [done|]. destruct (amendment_command a) as [|f' rest] eqn:Ea; [done|].
  injection Hhead as ->.
  assert (forall r, ~ applies home_dir current_dir p f args r) as Hnone.
  { intros r Hr'. by apply rules_for_ne in Hr'. }
  assert (rules_for (allowing p f rest) (f :: args) <> [] /\ exists suffix, args = rest ++ suffix) as [Hnew Hpre].
  { destruct Ha as [Ha|(p' & Hadd & Hne')].
    - injection Ha as ->. assert (exists suffix, args = args ++ suffix) as Hs by (exists []; by rewrite app_nil_r).
      split; [|done]. eapply rules_for_ne, applies_allowing. right. split; [done|]. split; [by left|done].
    - injection Hadd as <-. split; [done|]. fold (allowing p f rest) in Hne'.
      destruct (rules_for (allowing p f rest) (f :: args)) as [|m l] eqn:E; [done|].
      destruct (rules_for_elem home_dir current_dir (allowing p f rest) f args m) as (r & Hr' & _).
      { rewrite E. left. }
      apply applies_allowing in Hr' as [Hr'|(_ & _ & Hs)]; [by apply Hnone in Hr'|done]. }
  exists (allowing p f rest). split.
  - destruct Hpre as [suffix ->]. apply update_adds; [done|].
    destruct (rules_for p (f :: rest)) as [|m l] eqn:E; [done|].
    destruct (rules_for_elem home_dir current_dir p f rest m) as (r & (b & Hb & Hrb & Hm) & _); [rewrite E; left|].
    exfalso. apply (Hnone r). exists b. split; [done|]. split; [done|]. by apply matches_longer.
  - eapply single_segment; [done|done| |done]. apply Forall_forall. intros m Hm.
    apply rules_for_elem in Hm as (r & Hr' & ->).
    apply applies_allowing in Hr' as [Hr'|(-> & _)]; [by apply Hnone in Hr'|done].
Qed.
End properties.

(** ** Properties of patches *)

Lemma normalize_patch_path_absolute cwd p :
  Path.is_absolute cwd = true -> normalize_patch_path (Path.push cwd p) = Path.absolutize_from p cwd.
Proof.
  intros Hc. unfold Path.absolutize_from, Path.path_with_base, normalize_patch_path, Path.normalize_path.
  assert (Path.push cwd p = if Path.is_absolute p then p else Path.push cwd p) as Hp
    by (unfold Path.push; by destruct (Path.is_absolute p)).
  pose proof (Path.push_absolute cwd p Hc) as Ha. rewrite <- Hp.
  apply Path.normalize_absolute in Ha. revert Ha. unfold Path.normalize_path.
  destruct (Str.is_empty _) eqn:E; [|done]. done.
Qed.

(** The paths a change writes. *)
Definition written_paths (c : str * ApplyPatchFileChange) : list str :=
  match snd c with
  | AddChange _ | DeleteChange _ => [fst c]
  | UpdateChange _ move_path _ => fst c :: option_list move_path
  end.

Lemma constrained_spec env action fs cwd :
  is_write_patch_constrained_to_writable_paths env action fs cwd = true <->
  Forall (fun c => Forall (fun p => is_path_writable env fs cwd p = true) (written_paths c)) (action_changes action).
Proof.
  unfold is_write_patch_constrained_to_writable_paths. rewrite forallb_forall, Forall_forall.
  setoid_rewrite list_elem_of_In. apply forall_proper. intros [path change].
  enough (change_is_writable env fs cwd (path, change) = true <->
    Forall (fun p => is_path_writable env fs cwd p = true) (written_paths (path, change))) by tauto.
  unfold change_is_writable, written_paths; simpl.
  destruct change as [| |? [dest|] ?]; simpl; rewrite ?andb_true_iff, !Forall_cons, ?Forall_nil; naive_solver.
Qed.

(** A patch is applied without a question only under a policy other than
    [UnlessTrusted], and either every path it writes, destinations of moves included,
    taken absolutely and without [.] and [..], may be written under the file-system
    policy, or the policy is [OnFailure]; with a managed profile it then runs in the
    platform's sandbox, never without one.  The user is asked only under a policy that
    asks. *)
Theorem unasked_patches_stay_writable env os action policy profile fs cwd windows :
  Path.is_absolute cwd = true ->
  match assess_patch_safety env os action policy profile fs cwd windows with
  | AutoApprove sandbox approved =>
      approved = false /\ policy <> UnlessTrusted /\
      (policy = OnFailure \/
       Forall (fun c => Forall (fun p => can_write_path_with_cwd env fs (Path.absolutize_from p cwd) cwd = true)
                          (written_paths c)) (action_changes action)) /\
      ((exists f n, profile = Managed f n) ->
       sandbox <> SandboxNone /\ get_platform_sandbox os windows = Some sandbox)
  | AskUser =>
      match policy with Never => False | Granular g => sandbox_approval g = true | _ => True end
  | Reject _ =>
      action_changes action = [] \/
      (match policy with Never => True | Granular g => sandbox_approval g = false | _ => False end /\
       ((exists c p, c ∈ action_changes action /\ p ∈ written_paths c /\
           can_write_path_with_cwd env fs (Path.absolutize_from p cwd) cwd = false) \/
        get_platform_sandbox os windows = None))
  end.
Proof.
  intros Hcwd. unfold assess_patch_safety, action_is_empty.
  destruct (action_changes action) as [|c0 cs] eqn:Ecs; [by left|]. rewrite <- Ecs. clear Ecs c0 cs.
  assert (is_write_patch_constrained_to_writable_paths env action fs cwd = true <->
    Forall (fun c => Forall (fun p => can_write_path_with_cwd env fs (Path.absolutize_from p cwd) cwd = true)
                       (written_paths c)) (action_changes action)) as Hw.
  { rewrite constrained_spec. unfold is_path_writable.
    by setoid_rewrite (normalize_patch_path_absolute cwd _ Hcwd). }
  assert (is_write_patch_constrained_to_writable_paths env action fs cwd = false ->
    exists c p, c ∈ action_changes action /\ p ∈ written_paths c /\
      can_write_path_with_cwd env fs (Path.absolutize_from p cwd) cwd = false) as Hn.
  { intros Hf. assert (~ Forall (fun c => Forall (fun p =>
      can_write_path_with_cwd env fs (Path.absolutize_from p cwd) cwd = true) (written_paths c))
      (action_changes action)) as Hnot by (rewrite <- Hw; by rewrite Hf).
    apply not_Forall_Exists, Exists_exists in Hnot as (c & Hc & Hnot); [|intros ?; apply Forall_dec; intros ?; apply _].
    apply not_Forall_Exists, Exists_exists in Hnot as (p & Hp & Hnot); [|intros ?; apply _].
    apply not_true_is_false in Hnot. eauto. }
  assert (forall s, get_platform_sandbox os windows = Some s -> s <> SandboxNone) as Hs
    by (intros s; destruct os, windows; naive_solver).
  destruct (is_write_patch_constrained_to_writable_paths env action fs cwd); simpl.
  - destruct policy as [| | |g|], profile; try done; try (destruct (get_platform_sandbox os windows) eqn:Eos);
      try (destruct g as [[] ? ? ? ?]; simpl); naive_solver.
  - destruct policy as [| | |g|]; simpl; try done; rewrite ?bool_decide_false by done; simpl;
      [destruct profile; try (destruct (get_platform_sandbox os windows) eqn:Eos)
      |destruct g as [[] ? ? ? ?]; simpl|]; naive_solver.
Qed.

Lemma override_spec sandbox_permissions requirement fs :
  sandbox_override_for_first_attempt sandbox_permissions requirement fs = BypassSandboxFirstAttempt <->
  has_denied_read_restrictions fs = false /\
  ((exists a, requirement = Skip true a) \/ requires_escalated_permissions sandbox_permissions = true).
Proof.
  unfold sandbox_override_for_first_attempt, unsandboxed_execution_allowed.
  destruct (has_denied_read_restrictions fs), requirement as [[]| |], (requires_escalated_permissions _);
    simpl; naive_solver.
Qed.

(** ** Instances of the properties *)

Module Demo.
#[export] Instance no_shlex : Shlex := fun _ => None.
Definition grammar (script : str) : option Node := None.
Definition home : option str := None.
Definition dir : result Io.Error str := Ok $"/w".
Definition cargo : list str := [$"cargo"; $"build"; $"--release"].
Definition cargo_rule : PrefixRule := mkRule (mkPattern $"cargo" [Single $"build"]) Allow None.
Definition trusting : Policy := Policy.mkPolicy {[ $"cargo" := [cargo_rule] ]} [] ∅.
Definition request (policy : AskForApproval) (rule : option (list str)) : ExecApprovalRequest :=
  mkRequest cargo policy Disabled sample UseDefault rule.
Definition patch : ApplyPatchAction :=
  mkAction [($"src/../a.rs", UpdateChange [] (Some $"/w/b.rs") [])] [] $"/w".
End Demo.
Import Demo.

Lemma unasked_commands_are_allowed_witness :
  Forall (fun m => match_decision m = Allow) (rules_for home dir trusting cargo) /\ rules_for home dir trusting cargo <> [].
Proof.
  pose proof (unasked_commands_are_allowed grammar home dir trusting (request UnlessTrusted None) true None) as Hall.
  assert (create_exec_approval_requirement_for_command grammar home dir trusting (request UnlessTrusted None) =
          Some (Skip true None)) as Hr by (vm_compute; reflexivity).
  specialize (Hall Hr).
  apply Forall_cons in Hall as [(Hm & Hne & _) _]. split; [exact Hm|exact (Hne eq_refl)].
Defined.

Lemma accepted_amendments_settle_the_command_witness :
  exists p', update_after_amendment home dir Policy.empty (mkAmendment [$"cargo"; $"build"]) = Some (Ok p') /\
    create_exec_approval_requirement_for_command grammar home dir p'
      (request UnlessTrusted (Some [$"cargo"; $"build"])) = Some (Skip true None).
Proof.
  apply (accepted_amendments_settle_the_command grammar home dir Policy.empty
           (request UnlessTrusted (Some [$"cargo"; $"build"])) cargo None (mkAmendment [$"cargo"; $"build"])).
  - vm_compute. reflexivity.
  - vm_compute. reflexivity.
  - discriminate.
  - reflexivity.
Defined.

Lemma unasked_patches_stay_writable_witness :
  assess_patch_safety plain_env Linux patch OnRequest (Managed ManagedUnrestricted NetRestricted) sample $"/w" false =
    AutoApprove LinuxSeccomp false /\
  (OnRequest = OnFailure \/
   Forall (fun c => Forall (fun p => can_write_path_with_cwd plain_env sample
     (Path.absolutize_from p $"/w") $"/w" = true) (written_paths c)) (action_changes patch)).
Proof.
  pose proof (unasked_patches_stay_writable plain_env Linux patch OnRequest (Managed ManagedUnrestricted NetRestricted)
    sample $"/w" false eq_refl) as Hp.
  assert (assess_patch_safety plain_env Linux patch OnRequest (Managed ManagedUnrestricted NetRestricted)
    sample $"/w" false = AutoApprove LinuxSeccomp false) as He by (vm_compute; reflexivity).
  rewrite He in Hp. split; [exact He|]. exact (proj1 (proj2 (proj2 Hp))).
Defined.
End Approval.
