(* ===== verification/NetworkApproval.v ===== *)
(** The approval of network access ([core/src/tools/network_approval.rs] and
    [core/src/network_policy_decision.rs]): the calls whose commands run under the proxy,
    the hosts approved and denied for the session, and the handler of a request the
    allowlist misses.  Handlers of several requests run at once, so the handler is a
    program of atomic steps, one per locked section, and the system a step relation over
    all of them; what hooks, reviewers and the session answer is an input of the step. *)
From S2P Require Import Prelude Paths ExecPolicyRule PermissionProfile ExecApproval NetworkConstraints.
From S2P Require Import NetworkProxy.
From stdpp Require Import gmap.

Module NetApproval.
Import Profile Approval.

(** ** Data of the protocol *)

Inductive NetworkApprovalProtocol := Http | Https | Socks5Tcp | Socks5Udp.
Inductive NetworkPolicyRuleAction := AllowAction | DenyAction.
Record NetworkPolicyAmendment := mkNetAmendment { amendment_host : str; action : NetworkPolicyRuleAction }.
Record NetworkApprovalContext := mkContext { context_host : str; context_protocol : NetworkApprovalProtocol }.
Inductive ReviewDecision :=
| Approved
| ApprovedExecpolicyAmendment (proposed : ExecPolicyAmendment)
| ApprovedForSession
| NetworkPolicyAmendment_ (network_policy_amendment : NetworkPolicyAmendment)
| Denied
| TimedOut
| Abort.
Inductive ApprovalsReviewer := User | AutoReview.
#[global] Instance net_protocol_eq_dec : EqDecision NetworkApprovalProtocol.
Proof. solve_decision. Defined.
#[global] Instance net_action_eq_dec : EqDecision NetworkPolicyRuleAction.
Proof. solve_decision. Defined.
#[global] Instance net_amendment_eq_dec : EqDecision NetworkPolicyAmendment.
Proof. solve_decision. Defined.
#[global] Instance net_context_eq_dec : EqDecision NetworkApprovalContext.
Proof. solve_decision. Defined.
#[global] Instance review_decision_eq_dec : EqDecision ReviewDecision.
Proof. solve_decision. Defined.
#[global] Instance reviewer_eq_dec : EqDecision ApprovalsReviewer.
Proof. solve_decision. Defined.

(** ** network_policy_decision.rs *)

Record NetworkPolicyDecisionPayload := mkPayload {
  payload_decision : Proxy.NetworkPolicyDecision;
  payload_source : Proxy.NetworkDecisionSource;
  payload_protocol : option NetworkApprovalProtocol;
  payload_host : option str;
  payload_reason : option str;
  payload_port : option N;
}.
Definition is_ask_from_decider (p : NetworkPolicyDecisionPayload) : bool :=
  match payload_decision p, payload_source p with Proxy.PolicyAsk, Proxy.Decider => true | _, _ => false end.

Definition parse_network_policy_decision (value : str) : option Proxy.NetworkPolicyDecision :=
  if decide (value = $"deny") then Some Proxy.PolicyDeny
  else if decide (value = $"ask") then Some Proxy.PolicyAsk
  else None.

Definition network_approval_context_from_payload (payload : NetworkPolicyDecisionPayload)
    : option NetworkApprovalContext :=
  if negb (is_ask_from_decider payload) then None
  else
    protocol ← payload_protocol payload;
    host ← payload_host payload;
    let host := Str.trim host in
    if Str.is_empty host then None else Some (mkContext host protocol).

Definition blocked_detail (reason : str) : str :=
  if decide (reason = $"denied")
  then $"domain is explicitly denied by policy and cannot be approved from this prompt"
  else if decide (reason = $"not_allowed") then $"domain is not on the allowlist for the current sandbox mode"
  else if decide (reason = $"not_allowed_local")
  then $"local/private network addresses are blocked by the sandbox policy"
  else if decide (reason = $"method_not_allowed") then $"request method is blocked by the current network mode"
  else if decide (reason = $"proxy_disabled") then $"network proxy is disabled"
  else $"request is blocked by network policy".
Definition in_quotes (s : str) : str := [34%N] ++ s ++ [34%N].
Definition denied_network_policy_message (blocked : NetState.BlockedRequest) : option str :=
  match NetState.decision blocked ≫= parse_network_policy_decision with
  | Some Proxy.PolicyDeny =>
      let host := Str.trim (NetState.blocked_host blocked) in
      Some (if Str.is_empty host then $"Network access was blocked by policy."
            else $"Network access to " ++ in_quotes host ++ $" was blocked: "
                 ++ blocked_detail (NetState.reason blocked) ++ $".")
  | _ => None
  end.

Record ExecPolicyNetworkRuleAmendment := mkRuleAmendment {
  rule_protocol : Rule.NetworkRuleProtocol;
  rule_decision : Rule.Decision;
  justification : str;
}.
Definition execpolicy_network_rule_amendment (amendment : NetworkPolicyAmendment)
    (network_approval_context : NetworkApprovalContext) (host : str) : ExecPolicyNetworkRuleAmendment :=
  let protocol :=
    match context_protocol network_approval_context with
    | Http => Rule.Http
    | Https => Rule.Https
    | Socks5Tcp => Rule.Socks5Tcp
    | Socks5Udp => Rule.Socks5Udp
    end in
  let (decision, action_verb) :=
    match action amendment with
    | AllowAction => (Rule.Allow, $"Allow")
    | DenyAction => (Rule.Forbidden, $"Deny")
    end in
  let protocol_label :=
    match context_protocol network_approval_context with
    | Http => $"http"
    | Https => $"https_connect"
    | Socks5Tcp => $"socks5_tcp"
    | Socks5Udp => $"socks5_udp"
    end in
  mkRuleAmendment protocol decision (action_verb ++ $" " ++ protocol_label ++ $" access to " ++ host).

(** ** Messages of the automatic reviewer ([guardian/review.rs]) *)

Definition GUARDIAN_REJECTION_INSTRUCTIONS : str :=
  $"The agent must not attempt to achieve the same outcome via workaround, indirect execution, or policy circumvention. Proceed only with a materially safer alternative, or if the user explicitly approves the action after being informed of the risk. Otherwise, stop and request user input.".
Definition GUARDIAN_TIMEOUT_INSTRUCTIONS : str :=
  $"The automatic permission approval review did not finish before its deadline. Do not assume the action is unsafe based on the timeout alone. You may retry once, or ask the user for guidance or explicit approval.".
(** The rationale recorded for the review, if any; the source is always the agent. *)
Definition guardian_rejection_message (rejection : option str) : str :=
  let rationale :=
    match rejection with
    | Some r => if Str.is_empty (Str.trim r)
                then $"Auto-reviewer denied the action without a specific rationale." else r
    | None => $"Auto-reviewer denied the action without a specific rationale."
    end in
  $"This action was rejected due to unacceptable risk." ++ [10%N] ++ $"Reason: " ++ Str.trim rationale
    ++ [10%N] ++ GUARDIAN_REJECTION_INSTRUCTIONS.
Definition guardian_timeout_message : str := GUARDIAN_TIMEOUT_INSTRUCTIONS.

(** ** Data of the service *)

Inductive NetworkApprovalMode := Immediate | Deferred.
Record GuardianNetworkAccessTrigger := mkTrigger {
  trigger_call_id : str;
  trigger_tool_name : str;
  trigger_command : list str;
  trigger_cwd : str;
  trigger_sandbox_permissions : SandboxPermissions;
  trigger_additional_permissions : option AdditionalPermissionProfile;
  trigger_justification : option str;
  trigger_tty : option bool;
}.
Record HostApprovalKey := mkKey { key_host : str; key_protocol : str; key_port : N }.
#[global] Instance host_key_eq_dec : EqDecision HostApprovalKey.
Proof. solve_decision. Defined.
#[global] Instance host_key_countable : Countable HostApprovalKey.
Proof.
  by apply (inj_countable' (fun k => (key_host k, key_protocol k, key_port k)) (fun '(h, p, n) => mkKey h p n));
    intros [].
Defined.

Definition protocol_key_label (protocol : NetworkApprovalProtocol) : str :=
  match protocol with
  | Http => $"http"
  | Https => $"https"
  | Socks5Tcp => $"socks5-tcp"
  | Socks5Udp => $"socks5-udp"
  end.
Definition from_request (request : Proxy.NetworkPolicyRequest) (protocol : NetworkApprovalProtocol)
    : HostApprovalKey :=
  mkKey (Str.to_ascii_lowercase (Proxy.request_host request)) (protocol_key_label protocol)
    (Proxy.request_port request).

Inductive PendingApprovalDecision := AllowOnce | AllowForSession | DenyPending.
#[global] Instance pending_decision_eq_dec : EqDecision PendingApprovalDecision.
Proof. solve_decision. Defined.
Definition REASON_NOT_ALLOWED : str := $"not_allowed".
Definition to_network_decision (d : PendingApprovalDecision) : Proxy.NetworkDecision :=
  match d with AllowOnce | AllowForSession => Proxy.Allow | DenyPending => Proxy.deny REASON_NOT_ALLOWED end.

Inductive NetworkApprovalOutcome := DeniedByUser | DeniedByPolicy (message : str).
#[global] Instance outcome_eq_dec : EqDecision NetworkApprovalOutcome.
Proof. solve_decision. Defined.
(** The error of a tool that was rejected carries the reason. *)
Definition network_approval_outcome_to_result (outcome : option NetworkApprovalOutcome) : result str unit :=
  match outcome with
  | Some DeniedByUser => Err $"rejected by user"
  | Some (DeniedByPolicy message) => Err message
  | None => Ok tt
  end.

Definition allows_network_approval_flow (policy : AskForApproval) : bool :=
  match policy with Never => false | _ => true end.
Definition permission_profile_allows_network_approval_flow (profile : PermissionProfile) : bool :=
  match profile with Managed _ _ => true | Disabled | External _ => false end.

(** A cancellation token is its number; see [cancelled_tokens]. *)
Record ActiveNetworkApprovalCall := mkCall {
  registration_id : str;
  turn_id : str;
  trigger : GuardianNetworkAccessTrigger;
  call_command : str;
  cancellation_token : nat;
}.
(** [IndexMap] keeps the order of insertion. *)
Record NetworkApprovalCallState := mkCalls {
  active_calls : list (str * ActiveNetworkApprovalCall);
  call_outcomes : gmap str NetworkApprovalOutcome;
}.

(** What the session is told, in order. *)
Inductive SessionEvent :=
| AskedHooks (run_id command description : str)
| AskedGuardian (id turn_id target host : str) (protocol : NetworkApprovalProtocol) (port : N)
    (trigger : option GuardianNetworkAccessTrigger) (retry_reason : str)
| AskedUser (call_id : str) (command : list str) (reason : str) (context : NetworkApprovalContext)
| PersistedAmendment (amendment : NetworkPolicyAmendment) (context : NetworkApprovalContext)
| AmendmentMessage (sub_id : str) (amendment : NetworkPolicyAmendment)
| Warned (sub_id message : str).

(** The pending approvals point to shared cells; [cells] is the store of their decisions
    and [cancelled_tokens] that of the tokens. *)
Record NetworkApprovalService := mkService {
  calls : NetworkApprovalCallState;
  pending_host_approvals : gmap HostApprovalKey nat;
  session_approved_hosts : gset HostApprovalKey;
  session_denied_hosts : gset HostApprovalKey;
  cells : list (option PendingApprovalDecision);
  cancelled_tokens : gset nat;
  session_events : list SessionEvent;
}.
Definition service_default : NetworkApprovalService := mkService (mkCalls [] ∅) ∅ ∅ ∅ [] ∅ [].

Definition with_calls (s : NetworkApprovalService) (c : NetworkApprovalCallState) : NetworkApprovalService :=
  mkService c (pending_host_approvals s) (session_approved_hosts s) (session_denied_hosts s) (cells s)
    (cancelled_tokens s) (session_events s).
Definition with_pending (s : NetworkApprovalService) (p : gmap HostApprovalKey nat) : NetworkApprovalService :=
  mkService (calls s) p (session_approved_hosts s) (session_denied_hosts s) (cells s) (cancelled_tokens s)
    (session_events s).
Definition with_approved (s : NetworkApprovalService) (a : gset HostApprovalKey) : NetworkApprovalService :=
  mkService (calls s) (pending_host_approvals s) a (session_denied_hosts s) (cells s) (cancelled_tokens s)
    (session_events s).
Definition with_denied (s : NetworkApprovalService) (d : gset HostApprovalKey) : NetworkApprovalService :=
  mkService (calls s) (pending_host_approvals s) (session_approved_hosts s) d (cells s) (cancelled_tokens s)
    (session_events s).
Definition with_cells (s : NetworkApprovalService) (c : list (option PendingApprovalDecision)) : NetworkApprovalService :=
  mkService (calls s) (pending_host_approvals s) (session_approved_hosts s) (session_denied_hosts s) c
    (cancelled_tokens s) (session_events s).
Definition with_cancelled (s : NetworkApprovalService) (c : gset nat) : NetworkApprovalService :=
  mkService (calls s) (pending_host_approvals s) (session_approved_hosts s) (session_denied_hosts s) (cells s) c
    (session_events s).
Definition tell (s : NetworkApprovalService) (es : list SessionEvent) : NetworkApprovalService :=
  mkService (calls s) (pending_host_approvals s) (session_approved_hosts s) (session_denied_hosts s) (cells s)
    (cancelled_tokens s) (session_events s ++ es).

(** ** Calls *)

Definition find_call (id : str) (l : list (str * ActiveNetworkApprovalCall)) : option ActiveNetworkApprovalCall :=
  snd <$> List.find (fun e => bool_decide (fst e = id)) l.
Definition index_insert (id : str) (c : ActiveNetworkApprovalCall) (l : list (str * ActiveNetworkApprovalCall))
    : list (str * ActiveNetworkApprovalCall) :=
  if bool_decide (id ∈ l.*1) then (fun e => if bool_decide (fst e = id) then (id, c) else e) <$> l
  else l ++ [(id, c)].
Definition shift_remove (id : str) (l : list (str * ActiveNetworkApprovalCall))
    : list (str * ActiveNetworkApprovalCall) :=
  filter (fun e => fst e <> id) l.

Definition register_call (s : NetworkApprovalService) (call : ActiveNetworkApprovalCall) : NetworkApprovalService :=
  with_calls s (mkCalls (index_insert (registration_id call) call (active_calls (calls s))) (call_outcomes (calls s))).
Definition resolve_single_active_call (s : NetworkApprovalService) : option ActiveNetworkApprovalCall :=
  match active_calls (calls s) with [(_, call)] => Some call | _ => None end.
(** The token is cancelled after the lock is released, before anything is awaited. *)
Definition record_call_outcome (s : NetworkApprovalService) (id : str) (outcome : NetworkApprovalOutcome)
    : NetworkApprovalService :=
  match find_call id (active_calls (calls s)) with
  | None => s
  | Some call =>
      if bool_decide (call_outcomes (calls s) !! id = Some DeniedByUser) then s
      else
        with_cancelled
          (with_calls s (mkCalls (active_calls (calls s)) (<[id := outcome]> (call_outcomes (calls s)))))
          ({[cancellation_token call]} ∪ cancelled_tokens s)
  end.
Definition remove_call (s : NetworkApprovalService) (id : str)
    : NetworkApprovalService * option NetworkApprovalOutcome :=
  (with_calls s (mkCalls (shift_remove id (active_calls (calls s))) (delete id (call_outcomes (calls s)))),
   call_outcomes (calls s) !! id).
Definition finish_call_outcome := remove_call.
Definition unregister_call (s : NetworkApprovalService) (id : str) : NetworkApprovalService := fst (remove_call s id).
Definition finish_call (s : NetworkApprovalService) (id : str) : NetworkApprovalService * result str unit :=
  let (s, outcome) := finish_call_outcome s id in (s, network_approval_outcome_to_result outcome).

(** ** A tool's call *)

Record NetworkApprovalSpec := mkSpec {
  spec_network : bool;
  spec_mode : NetworkApprovalMode;
  spec_trigger : GuardianNetworkAccessTrigger;
  spec_command : str;
}.
Record ActiveNetworkApproval := mkActive {
  active_registration_id : option str;
  active_mode : NetworkApprovalMode;
  active_token : nat;
}.
(** [finish_outcome] is a cell shared by the clones, set once. *)
Record DeferredNetworkApproval := mkDeferred {
  deferred_registration_id : str;
  deferred_token : nat;
  finish_outcome : option (option NetworkApprovalOutcome);
}.
Definition into_deferred (a : ActiveNetworkApproval) : option DeferredNetworkApproval :=
  match active_mode a, active_registration_id a with
  | Deferred, Some id => Some (mkDeferred id (active_token a) None)
  | _, _ => None
  end.

(** The id and the token are new. *)
Definition begin_network_approval (s : NetworkApprovalService) (turn_id : str) (managed_network_active : bool)
    (spec : option NetworkApprovalSpec) (new_id : str) (new_token : nat)
    : NetworkApprovalService * option ActiveNetworkApproval :=
  match spec with
  | None => (s, None)
  | Some spec =>
      if negb managed_network_active || negb (spec_network spec) then (s, None)
      else
        (register_call s (mkCall new_id turn_id (spec_trigger spec) (spec_command spec) new_token),
         Some (mkActive (Some new_id) (spec_mode spec) new_token))
  end.
Definition finish_immediate_network_approval (s : NetworkApprovalService) (active : ActiveNetworkApproval)
    : NetworkApprovalService * result str unit :=
  match active_registration_id active with
  | None => (s, Ok tt)
  | Some id => finish_call s id
  end.
Definition finish_deferred (s : NetworkApprovalService) (d : DeferredNetworkApproval)
    : NetworkApprovalService * DeferredNetworkApproval * result str unit :=
  match finish_outcome d with
  | Some outcome => (s, d, network_approval_outcome_to_result outcome)
  | None =>
      let (s, outcome) := finish_call_outcome s (deferred_registration_id d) in
      (s, mkDeferred (deferred_registration_id d) (deferred_token d) (Some outcome),
       network_approval_outcome_to_result outcome)
  end.
Definition finish_deferred_network_approval (s : NetworkApprovalService) (d : option DeferredNetworkApproval)
    : NetworkApprovalService * option DeferredNetworkApproval * result str unit :=
  match d with
  | None => (s, None, Ok tt)
  | Some d => let '(s, d, r) := finish_deferred s d in (s, Some d, r)
  end.

(** ** Blocked requests and other sessions *)

(** Two locked sections: the owner is looked up, then its outcome is recorded. *)
Definition record_outcome_for_single_active_call (s : NetworkApprovalService) (outcome : NetworkApprovalOutcome)
    : NetworkApprovalService :=
  match resolve_single_active_call s with
  | None => s
  | Some owner_call => record_call_outcome s (registration_id owner_call) outcome
  end.
Definition record_blocked_request (s : NetworkApprovalService) (blocked : NetState.BlockedRequest)
    : NetworkApprovalService :=
  match denied_network_policy_message blocked with
  | None => s
  | Some message => record_outcome_for_single_active_call s (DeniedByPolicy message)
  end.
Definition sync_session_approved_hosts_to (self other : NetworkApprovalService) : NetworkApprovalService :=
  with_approved other (session_approved_hosts self).

(** ** The handler of a request *)

Record TurnContext := mkTurn {
  turn_sub_id : str;
  turn_permission_profile : PermissionProfile;
  turn_approval_policy : AskForApproval;
  turn_approvals_reviewer : ApprovalsReviewer;
}.
Definition routes_approval_to_guardian (turn : TurnContext) : bool :=
  match turn_approval_policy turn with
  | OnRequest | Granular _ => bool_decide (turn_approvals_reviewer turn = AutoReview)
  | _ => false
  end.
Inductive PermissionRequestDecision := HookAllow | HookDeny (message : str).

Definition approval_protocol (p : Proxy.NetworkProtocol) : NetworkApprovalProtocol :=
  match p with
  | Proxy.Http => Http
  | Proxy.HttpsConnect => Https
  | Proxy.Socks5Tcp => Socks5Tcp
  | Proxy.Socks5Udp => Socks5Udp
  end.
Definition request_key (request : Proxy.NetworkPolicyRequest) : HostApprovalKey :=
  from_request request (approval_protocol (Proxy.request_protocol request)).
Definition format_network_target (protocol host : str) (port : N) : str :=
  protocol ++ $"://" ++ host ++ $":" ++ Str.show_N port.
Definition target_of (request : Proxy.NetworkPolicyRequest) : str :=
  let key := request_key request in
  format_network_target (key_protocol key) (Proxy.request_host request) (key_port key).
Definition approval_id_for_key (key : HostApprovalKey) : str :=
  $"network#" ++ key_protocol key ++ $"#" ++ key_host key ++ $"#" ++ Str.show_N (key_port key).
Definition policy_denial_message (request : Proxy.NetworkPolicyRequest) : str :=
  $"Network access to " ++ in_quotes (target_of request) ++ $" was blocked by policy.".
Definition prompt_reason (request : Proxy.NetworkPolicyRequest) : str :=
  Proxy.request_host request ++ $" is not in the allowed_domains".
Definition context_of (request : Proxy.NetworkPolicyRequest) : NetworkApprovalContext :=
  mkContext (Proxy.request_host request) (approval_protocol (Proxy.request_protocol request)).
Definition prompt_command (request : Proxy.NetworkPolicyRequest) : list str := [$"network-access"; target_of request].

(** The locked sections around the decision, in the order of the code. *)
Inductive Action :=
| RecordForSingle (outcome : NetworkApprovalOutcome)
| RecordFor (id : str) (outcome : NetworkApprovalOutcome)
| Persist (sub_id : str) (amendment : NetworkPolicyAmendment)
| ForgetDenied
| RememberApproved
| ForgetApproved
| RememberDenied.

(** Where a handler stands.  An owner of a pending approval holds its cell: it decides
    after the actions before, removes the pending approval, and runs those after. *)
Inductive Pc :=
| Start
| CheckApproved
| GetPending
| Waiting (cell : nat)
| FindTurn (cell : nat)
| ResolveOwner (cell : nat) (turn : TurnContext)
| AskHooks (cell : nat) (turn : TurnContext) (owner_call : option ActiveNetworkApprovalCall)
| Review (cell : nat) (turn : TurnContext) (owner_call : option ActiveNetworkApprovalCall)
| Deciding (cell : nat) (before : list Action) (decision : PendingApprovalDecision) (after : list Action)
| Removing (cell : nat) (after : list Action) (decision : PendingApprovalDecision)
| Closing (after : list Action) (decision : PendingApprovalDecision)
| Answered (decision : Proxy.NetworkDecision).

Inductive Input :=
| Tick
| NoSession
| ActiveTurn (turn : option TurnContext)
| HookAnswer (decision : option PermissionRequestDecision)
| Reviewed (decision : ReviewDecision) (rejection : option str)
| PersistResult (error : option str).

Definition record_for (owner_call : option ActiveNetworkApprovalCall) (outcome : NetworkApprovalOutcome) : list Action :=
  match owner_call with Some call => [RecordFor (registration_id call) outcome] | None => [] end.

(** What a review decides: the actions before, the decision, and whether a denial is kept
    for the session. *)
Definition resolve_review (turn : TurnContext) (owner_call : option ActiveNetworkApprovalCall)
    (approval_decision : ReviewDecision) (rejection : option str) : list Action * PendingApprovalDecision * bool :=
  match approval_decision with
  | Approved | ApprovedExecpolicyAmendment _ => ([], AllowOnce, false)
  | ApprovedForSession => ([], AllowForSession, false)
  | NetworkPolicyAmendment_ amendment =>
      match action amendment with
      | AllowAction => ([Persist (turn_sub_id turn) amendment], AllowForSession, false)
      | DenyAction =>
          (Persist (turn_sub_id turn) amendment :: record_for owner_call DeniedByUser, DenyPending, true)
      end
  | Denied | Abort =>
      (record_for owner_call
         (if routes_approval_to_guardian turn then DeniedByPolicy (guardian_rejection_message rejection)
          else DeniedByUser), DenyPending, false)
  | TimedOut => (record_for owner_call (DeniedByPolicy guardian_timeout_message), DenyPending, false)
  end.
Definition cache_actions (resolved : PendingApprovalDecision) (cache_session_deny : bool) : list Action :=
  (if bool_decide (resolved = AllowForSession) then [ForgetDenied; RememberApproved] else []) ++
  (if cache_session_deny then [ForgetApproved; RememberDenied] else []).

Definition hook_question (request : Proxy.NetworkPolicyRequest) (owner_call : option ActiveNetworkApprovalCall)
    : SessionEvent :=
  AskedHooks (approval_id_for_key (request_key request))
    match owner_call with Some call => call_command call | None => Str.join $" " (prompt_command request) end
    ($"network-access " ++ target_of request).
Definition review_question (request : Proxy.NetworkPolicyRequest) (turn : TurnContext)
    (owner_call : option ActiveNetworkApprovalCall) : SessionEvent :=
  let id := approval_id_for_key (request_key request) in
  if routes_approval_to_guardian turn then
    AskedGuardian id match owner_call with Some call => turn_id call | None => turn_sub_id turn end
      (target_of request) (Proxy.request_host request) (approval_protocol (Proxy.request_protocol request))
      (key_port (request_key request)) (trigger <$> owner_call) (policy_denial_message request)
  else AskedUser id (prompt_command request) (prompt_reason request) (context_of request).

(** One action: the new state and the actions that replace it. *)
Definition run_action (s : NetworkApprovalService) (request : Proxy.NetworkPolicyRequest) (a : Action) (i : Input)
    : option (NetworkApprovalService * list Action) :=
  let key := request_key request in
  match a, i with
  | RecordForSingle outcome, Tick =>
      Some (s, match resolve_single_active_call s with
               | Some call => [RecordFor (registration_id call) outcome] | None => [] end)
  | RecordFor id outcome, Tick => Some (record_call_outcome s id outcome, [])
  | Persist sub_id amendment, PersistResult None =>
      Some (tell s [PersistedAmendment amendment (context_of request); AmendmentMessage sub_id amendment], [])
  | Persist sub_id amendment, PersistResult (Some err) =>
      Some (tell s [Warned sub_id ($"Failed to apply network policy amendment: " ++ err)], [])
  | ForgetDenied, Tick => Some (with_denied s (session_denied_hosts s ∖ {[key]}), [])
  | RememberApproved, Tick => Some (with_approved s ({[key]} ∪ session_approved_hosts s), [])
  | ForgetApproved, Tick => Some (with_approved s (session_approved_hosts s ∖ {[key]}), [])
  | RememberDenied, Tick => Some (with_denied s ({[key]} ∪ session_denied_hosts s), [])
  | _, _ => None
  end.

Definition refuse (cell : nat) (request : Proxy.NetworkPolicyRequest) : Pc :=
  Deciding cell [] DenyPending [RecordForSingle (DeniedByPolicy (policy_denial_message request))].

(** [build_network_policy_decider] and [handle_inline_policy_request]: one atomic step of
    the handler of a request; [None] when it waits, or for an input of another place. *)
Definition handler_step (s : NetworkApprovalService) (request : Proxy.NetworkPolicyRequest) (pc : Pc) (i : Input)
    : option (NetworkApprovalService * Pc) :=
  let key := request_key request in
  match pc, i with
  | Start, NoSession => Some (s, Answered (Proxy.ask REASON_NOT_ALLOWED))
  | Start, Tick =>
      Some (s, if bool_decide (key ∈ session_denied_hosts s) then Answered (Proxy.deny REASON_NOT_ALLOWED)
               else CheckApproved)
  | CheckApproved, Tick =>
      Some (s, if bool_decide (key ∈ session_approved_hosts s) then Answered Proxy.Allow else GetPending)
  | GetPending, Tick =>
      Some match pending_host_approvals s !! key with
           | Some cell => (s, Waiting cell)
           | None =>
               let cell := length (cells s) in
               (with_cells (with_pending s (<[key := cell]> (pending_host_approvals s))) (cells s ++ [None]),
                FindTurn cell)
           end
  | Waiting cell, Tick =>
      match cells s !! cell with
      | Some (Some decision) => Some (s, Answered (to_network_decision decision))
      | _ => None
      end
  | FindTurn cell, ActiveTurn None => Some (s, refuse cell request)
  | FindTurn cell, ActiveTurn (Some turn) =>
      Some (s,
        if negb (permission_profile_allows_network_approval_flow (turn_permission_profile turn)) then refuse cell request
        else if negb (allows_network_approval_flow (turn_approval_policy turn)) then refuse cell request
        else ResolveOwner cell turn)
  | ResolveOwner cell turn, Tick => Some (s, AskHooks cell turn (resolve_single_active_call s))
  | AskHooks cell turn owner_call, HookAnswer decision =>
      Some (tell s [hook_question request owner_call],
        match decision with
        | Some HookAllow => Deciding cell [] AllowOnce []
        | Some (HookDeny message) => Deciding cell (record_for owner_call (DeniedByPolicy message)) DenyPending []
        | None => Review cell turn owner_call
        end)
  | Review cell turn owner_call, Reviewed decision rejection =>
      let '(before, resolved, cache_session_deny) := resolve_review turn owner_call decision rejection in
      Some (tell s [review_question request turn owner_call],
            Deciding cell (before ++ cache_actions resolved cache_session_deny) resolved [])
  | Deciding cell [] decision after, Tick => 
      Some (with_cells s (<[cell := Some decision]> (cells s)), Removing cell after decision)
  | Deciding cell (a :: before) decision after, i =>
      '(s, new) ← run_action s request a i; Some (s, Deciding cell (new ++ before) decision after)
  | Removing _ after decision, Tick =>
      Some (with_pending s (delete key (pending_host_approvals s)), Closing after decision)
  | Closing [] decision, Tick => Some (s, Answered (to_network_decision decision))
  | Closing (a :: after) decision, i =>
      '(s, new) ← run_action s request a i; Some (s, Closing (new ++ after) decision)
  | _, _ => None
  end.

(** ** The system *)

Inductive TraceEvent :=
| Handled (handler : nat) (request : Proxy.NetworkPolicyRequest) (pc : Pc) (i : Input)
| Synced (hosts : gset HostApprovalKey).
Record System := mkSystem {
  service : NetworkApprovalService;
  handlers : list (Proxy.NetworkPolicyRequest * Pc);
  trace : list TraceEvent;
}.
Definition initial : System := mkSystem service_default [] [].

Inductive handler_steps : System -> System -> Prop :=
| step_handler sys t request pc i s' pc' :
    handlers sys !! t = Some (request, pc) -> handler_step (service sys) request pc i = Some (s', pc') ->
    handler_steps sys
      (mkSystem s' (<[t := (request, pc')]> (handlers sys)) (trace sys ++ [Handled t request pc i])).

(** Registrations are named by new identifiers and hold new tokens. *)
Definition new_call (s : NetworkApprovalService) (call : ActiveNetworkApprovalCall) : Prop :=
  (registration_id call ∉ (active_calls (calls s)).*1) /\
  (cancellation_token call ∉ cancelled_tokens s) /\
  (cancellation_token call ∉ (fun e => cancellation_token (snd e)) <$> active_calls (calls s)).

(** A blocked request looks its owner up before it records the outcome, so by then any call
    may have it recorded. *)
Inductive step : System -> System -> Prop :=
| step_handled sys sys' : handler_steps sys sys' -> step sys sys'
| step_request sys request :
    step sys (mkSystem (service sys) (handlers sys ++ [(request, Start)]) (trace sys))
| step_register sys call :
    new_call (service sys) call ->
    step sys (mkSystem (register_call (service sys) call) (handlers sys) (trace sys))
| step_remove sys id : step sys (mkSystem (unregister_call (service sys) id) (handlers sys) (trace sys))
| step_record sys id outcome :
    step sys (mkSystem (record_call_outcome (service sys) id outcome) (handlers sys) (trace sys))
| step_sync sys other :
    step sys (mkSystem (sync_session_approved_hosts_to other (service sys)) (handlers sys)
                (trace sys ++ [Synced (session_approved_hosts other)])).
Definition reachable (sys : System) : Prop := rtc step initial sys.
End NetApproval.
