(* ===== verification/NetworkApprovalRuns.v ===== *)
(** The runs of the approval of network access: invariants of every reachable state of the
    handlers of [NetworkApproval] and what they give: who vouches for a request that passes,
    that a host is decided once at a time, that every handler ends, and which calls are
    cancelled. *)
From S2P Require Import Prelude Paths ExecPolicyRule Permissions PermissionProfile ExecApproval.
From S2P Require Import NetworkConstraints NetworkProxy NetworkApproval.
From stdpp Require Import gmap.

Module ApprovalRuns.
Import Permissions Profile Approval NetApproval.

(** ** Lemmas: one step of a handler *)

Definition owner_cell (pc : Pc) : option nat :=
  match pc with
  | FindTurn c | ResolveOwner c _ | AskHooks c _ _ | Review c _ _ | Deciding c _ _ _ | Removing c _ _ => Some c
  | _ => None
  end.
Definition cell_value (pc : Pc) : option PendingApprovalDecision :=
  match pc with Removing _ _ d => Some d | _ => None end.

Inductive effect (s : NetworkApprovalService) (r : Proxy.NetworkPolicyRequest) (pc : Pc)
    (s' : NetworkApprovalService) (pc' : Pc) : Prop :=
| eff_quiet :
    pending_host_approvals s' = pending_host_approvals s -> cells s' = cells s ->
    owner_cell pc' = owner_cell pc -> cell_value pc' = cell_value pc ->
    (forall c, pc' = Waiting c -> pc = GetPending /\ pending_host_approvals s !! request_key r = Some c) ->
    effect s r pc s' pc'
| eff_create :
    pc = GetPending -> pc' = FindTurn (length (cells s)) -> pending_host_approvals s !! request_key r = None ->
    pending_host_approvals s' = <[request_key r := length (cells s)]> (pending_host_approvals s) ->
    cells s' = cells s ++ [None] -> effect s r pc s' pc'
| eff_decide c d after :
    pc = Deciding c [] d after -> pc' = Removing c after d ->
    pending_host_approvals s' = pending_host_approvals s -> cells s' = <[c := Some d]> (cells s) ->
    effect s r pc s' pc'
| eff_remove c after d :
    pc = Removing c after d -> pc' = Closing after d ->
    pending_host_approvals s' = delete (request_key r) (pending_host_approvals s) -> cells s' = cells s ->
    effect s r pc s' pc'.

Lemma record_call_outcome_fields s id o :
  let s' := record_call_outcome s id o in
  pending_host_approvals s' = pending_host_approvals s /\ cells s' = cells s /\
  session_approved_hosts s' = session_approved_hosts s /\ session_denied_hosts s' = session_denied_hosts s.
Proof. unfold record_call_outcome. by repeat case_match. Qed.

Lemma run_action_fields s r a i s' new :
  run_action s r a i = Some (s', new) ->
  pending_host_approvals s' = pending_host_approvals s /\ cells s' = cells s.
Proof.
  destruct a, i as [| | | | |[]]; intros Ha; try discriminate Ha; injection Ha as <- <-; try done.
  destruct (record_call_outcome_fields s id outcome) as (? & ? & _). done.
Qed.

Lemma handler_effect s r pc i s' pc' : handler_step s r pc i = Some (s', pc') -> effect s r pc s' pc'.
Proof.
  intros Hs. unfold handler_step in Hs.
  destruct pc as [| | | | | | | |c [|a before] d after| |[|a after] d|].
  10,13: apply bind_Some in Hs as ([s1 new] & Ha & [= -> <-]); apply run_action_fields in Ha as [? ?];
    by apply eff_quiet.
  all: destruct i; try discriminate Hs; unfold refuse in Hs.
  all: try (repeat case_match; simplify_eq; apply eff_quiet; naive_solver).
  - destruct (pending_host_approvals s !! request_key r) as [c|] eqn:Ep; simplify_eq.
    + apply eff_quiet; try done. by intros c' [= <-].
    + by apply eff_create.
  - injection Hs as <- <-. by eapply eff_decide.
  - injection Hs as <- <-. by eapply eff_remove.
Qed.

(** ** The pending approvals *)

(** Each pending approval belongs to one handler, which will decide and remove it; its
    cell is undecided until then, and whoever waits for a cell waits for one that is
    decided or that is still pending for the same host. *)
Record pending_ok (s : NetworkApprovalService) (hs : list (Proxy.NetworkPolicyRequest * Pc)) : Prop := {
  pending_owned k c : pending_host_approvals s !! k = Some c ->
    exists t r pc, hs !! t = Some (r, pc) /\ request_key r = k /\ owner_cell pc = Some c;
  owner_pending t r pc c : hs !! t = Some (r, pc) -> owner_cell pc = Some c ->
    pending_host_approvals s !! request_key r = Some c /\ cells s !! c = Some (cell_value pc);
  owner_unique t1 t2 r1 r2 pc1 pc2 c1 c2 :
    hs !! t1 = Some (r1, pc1) -> hs !! t2 = Some (r2, pc2) -> owner_cell pc1 = Some c1 -> owner_cell pc2 = Some c2 ->
    request_key r1 = request_key r2 -> t1 = t2;
  pending_inj k1 k2 c : pending_host_approvals s !! k1 = Some c -> pending_host_approvals s !! k2 = Some c -> k1 = k2;
  waiting_ok t r c : hs !! t = Some (r, Waiting c) ->
    exists v, cells s !! c = Some v /\ (v = None -> pending_host_approvals s !! request_key r = Some c);
}.

(** The state a step of a handler leaves: its own entry is replaced. *)
Lemma lookup_replaced (hs : list (Proxy.NetworkPolicyRequest * Pc)) t r pc pc' t' x :
  hs !! t = Some (r, pc) -> <[t := (r, pc')]> hs !! t' = Some x ->
  (t' = t /\ x = (r, pc')) \/ (t' <> t /\ hs !! t' = Some x).
Proof.
  intros Ht Hx. destruct (decide (t' = t)) as [->|Hne].
  - rewrite list_lookup_insert_eq in Hx by (by eapply lookup_lt_Some). left. naive_solver.
  - rewrite list_lookup_insert_ne in Hx by done. by right.
Qed.
Lemma replaced_self (hs : list (Proxy.NetworkPolicyRequest * Pc)) t r pc pc' :
  hs !! t = Some (r, pc) -> <[t := (r, pc')]> hs !! t = Some (r, pc').
Proof. intros Ht. apply list_lookup_insert_eq. by eapply lookup_lt_Some. Qed.

Lemma pending_ok_quiet s s' hs t r pc pc' :
  pending_ok s hs -> hs !! t = Some (r, pc) ->
  pending_host_approvals s' = pending_host_approvals s -> cells s' = cells s ->
  owner_cell pc' = owner_cell pc -> cell_value pc' = cell_value pc ->
  (forall c, pc' = Waiting c -> pc = GetPending /\ pending_host_approvals s !! request_key r = Some c) ->
  pending_ok s' (<[t := (r, pc')]> hs).
Proof.
  intros [H1 H2 H3 H4 H5] Ht Hp Hc Ho Hv Hw. split; rewrite ?Hp, ?Hc; try done.
  - intros k c Hk. destruct (H1 k c Hk) as (t0 & r0 & pc0 & Ht0 & Hr0 & Ho0).
    destruct (decide (t0 = t)) as [->|Hne].
    + exists t, r0, pc'. simplify_eq. split; [by eapply replaced_self|]. by rewrite Ho.
    + exists t0, r0, pc0. by rewrite list_lookup_insert_ne.
  - intros t0 r0 pc0 c Ht0 Ho0. destruct (lookup_replaced _ _ _ _ _ _ _ Ht Ht0) as [[-> [= -> ->]]|[_ Ht']].
    + rewrite Hv. rewrite Ho in Ho0. by apply (H2 t).
    + by apply (H2 t0).
  - intros t1 t2 r1 r2 pc1 pc2 c1 c2 Ht1 Ht2 Ho1 Ho2 Hk.
    destruct (lookup_replaced _ _ _ _ _ _ _ Ht Ht1) as [[-> [= -> ->]]|[_ Ht1']];
      destruct (lookup_replaced _ _ _ _ _ _ _ Ht Ht2) as [[-> [= -> ->]]|[_ Ht2']]; rewrite ?Ho in *; eauto.
  - intros t0 r0 c Ht0. destruct (lookup_replaced _ _ _ _ _ _ _ Ht Ht0) as [[-> [= -> <-]]|[_ Ht']]; [|by apply (H5 t0)].
    destruct (Hw c eq_refl) as [-> Hpc]. destruct (H1 _ _ Hpc) as (t1 & r1 & pc1 & Ht1 & Hr1 & Ho1).
    destruct (H2 _ _ _ _ Ht1 Ho1) as [_ Hcell]. eauto.
Qed.

Lemma pending_ok_create s s' hs t r :
  pending_ok s hs -> hs !! t = Some (r, GetPending) -> pending_host_approvals s !! request_key r = None ->
  pending_host_approvals s' = <[request_key r := length (cells s)]> (pending_host_approvals s) ->
  cells s' = cells s ++ [None] -> pending_ok s' (<[t := (r, FindTurn (length (cells s)))]> hs).
Proof.
  intros [H1 H2 H3 H4 H5] Ht Hnone Hp Hc.
  assert (forall k c, pending_host_approvals s !! k = Some c -> c < length (cells s)) as Hlt.
  { intros k c Hk. destruct (H1 k c Hk) as (t0 & r0 & pc0 & Ht0 & _ & Ho0).
    destruct (H2 _ _ _ _ Ht0 Ho0) as [_ Hcell]. by eapply lookup_lt_Some. }
  split; rewrite ?Hp, ?Hc.
  - intros k c Hk. rewrite lookup_insert_Some in Hk. destruct Hk as [[<- <-]|[Hne Hk]].
    + exists t, r, (FindTurn (length (cells s))). split; [by eapply replaced_self|done].
    + destruct (H1 k c Hk) as (t0 & r0 & pc0 & Ht0 & Hr0 & Ho0). exists t0, r0, pc0. split; [|done].
      rewrite list_lookup_insert_ne; [done|]. intros ->. by simplify_eq/=.
  - intros t0 r0 pc0 c Ht0 Ho0. destruct (lookup_replaced _ _ _ _ _ _ _ Ht Ht0) as [[-> [= -> ->]]|[_ Ht']].
    + injection Ho0 as <-. split; [by rewrite lookup_insert_eq|by rewrite lookup_app_r, Nat.sub_diag].
    + destruct (H2 _ _ _ _ Ht' Ho0) as [Hp0 Hc0]. split.
      * rewrite lookup_insert_ne; [done|]. intros Heq. by rewrite Heq, Hp0 in Hnone.
      * by apply lookup_app_l_Some.
  - intros t1 t2 r1 r2 pc1 pc2 c1 c2 Ht1 Ht2 Ho1 Ho2 Hk.
    destruct (lookup_replaced _ _ _ _ _ _ _ Ht Ht1) as [[-> [= -> ->]]|[_ Ht1']];
      destruct (lookup_replaced _ _ _ _ _ _ _ Ht Ht2) as [[-> [= -> ->]]|[_ Ht2']]; [done| | |by eauto].
    + destruct (H2 _ _ _ _ Ht2' Ho2) as [Hp2 _]. by rewrite <- Hk, Hnone in Hp2.
    + destruct (H2 _ _ _ _ Ht1' Ho1) as [Hp1 _]. by rewrite Hk, Hnone in Hp1.
  - intros k1 k2 c Hk1 Hk2. rewrite lookup_insert_Some in Hk1, Hk2.
    destruct Hk1 as [[<- <-]|[_ Hk1]], Hk2 as [[<- Hl]|[_ Hk2]]; [done| | |by eauto].
    + apply Hlt in Hk2. lia.
    + apply Hlt in Hk1. lia.
  - intros t0 r0 c Ht0. destruct (lookup_replaced _ _ _ _ _ _ _ Ht Ht0) as [[-> [=]]|[_ Ht']].
    destruct (H5 _ _ _ Ht') as (v & Hv & Hn). exists v. split; [by apply lookup_app_l_Some|]. intros Hnv.
    rewrite lookup_insert_ne; [by apply Hn|]. intros Heq. by rewrite <- Heq, Hnone in Hn; specialize (Hn Hnv).
Qed.

Lemma pending_ok_decide s s' hs t r c d after :
  pending_ok s hs -> hs !! t = Some (r, Deciding c [] d after) ->
  pending_host_approvals s' = pending_host_approvals s -> cells s' = <[c := Some d]> (cells s) ->
  pending_ok s' (<[t := (r, Removing c after d)]> hs).
Proof.
  intros [H1 H2 H3 H4 H5] Ht Hp Hc. destruct (H2 _ _ _ _ Ht eq_refl) as [Hpc Hcell].
  assert (c < length (cells s)) as Hlt by (by eapply lookup_lt_Some).
  split; rewrite ?Hp, ?Hc; try done.
  - intros k c0 Hk. destruct (H1 k c0 Hk) as (t0 & r0 & pc0 & Ht0 & Hr0 & Ho0).
    destruct (decide (t0 = t)) as [->|Hne].
    + exists t, r0, (Removing c after d). simplify_eq. split; [by eapply replaced_self|done].
    + exists t0, r0, pc0. by rewrite list_lookup_insert_ne.
  - intros t0 r0 pc0 c0 Ht0 Ho0. destruct (lookup_replaced _ _ _ _ _ _ _ Ht Ht0) as [[-> [= -> ->]]|[Hne Ht']].
    + injection Ho0 as <-. split; [done|]. by rewrite list_lookup_insert_eq.
    + destruct (H2 _ _ _ _ Ht' Ho0) as [Hp0 Hc0]. split; [done|]. rewrite list_lookup_insert_ne; [done|].
      intros <-. pose proof (H4 _ _ _ Hpc Hp0) as Hk. apply Hne. by eapply (H3 _ _ _ _ _ _ _ _ Ht' Ht Ho0 eq_refl).
  - intros t1 t2 r1 r2 pc1 pc2 c1 c2 Ht1 Ht2 Ho1 Ho2 Hk.
    destruct (lookup_replaced _ _ _ _ _ _ _ Ht Ht1) as [[-> [= -> ->]]|[_ Ht1']];
      destruct (lookup_replaced _ _ _ _ _ _ _ Ht Ht2) as [[-> [= -> ->]]|[_ Ht2']]; [done| | |by eauto].
    + exact (H3 _ _ _ _ _ _ _ _ Ht Ht2' eq_refl Ho2 Hk).
    + exact (H3 _ _ _ _ _ _ _ _ Ht1' Ht Ho1 eq_refl Hk).
  - intros t0 r0 c0 Ht0. destruct (lookup_replaced _ _ _ _ _ _ _ Ht Ht0) as [[-> [=]]|[_ Ht']].
    destruct (H5 _ _ _ Ht') as (v & Hv & Hn). destruct (decide (c0 = c)) as [->|Hne].
    + exists (Some d). by rewrite list_lookup_insert_eq.
    + exists v. by rewrite list_lookup_insert_ne.
Qed.

Lemma pending_ok_remove s s' hs t r c d after :
  pending_ok s hs -> hs !! t = Some (r, Removing c after d) ->
  pending_host_approvals s' = delete (request_key r) (pending_host_approvals s) -> cells s' = cells s ->
  pending_ok s' (<[t := (r, Closing after d)]> hs).
Proof.
  intros [H1 H2 H3 H4 H5] Ht Hp Hc. destruct (H2 _ _ _ _ Ht eq_refl) as [Hpc Hcell].
  split; rewrite ?Hp, ?Hc.
  - intros k c0 Hk. rewrite lookup_delete_Some in Hk. destruct Hk as [Hne Hk].
    destruct (H1 k c0 Hk) as (t0 & r0 & pc0 & Ht0 & Hr0 & Ho0). exists t0, r0, pc0. split; [|done].
    rewrite list_lookup_insert_ne; [done|]. intros ->. by simplify_eq.
  - intros t0 r0 pc0 c0 Ht0 Ho0. destruct (lookup_replaced _ _ _ _ _ _ _ Ht Ht0) as [[-> [= -> ->]]|[Hne Ht']]; [done|].
    destruct (H2 _ _ _ _ Ht' Ho0) as [Hp0 Hc0]. split; [|done]. rewrite lookup_delete_ne; [done|].
    intros Hk. apply Hne. by eapply (H3 _ _ _ _ _ _ _ _ Ht' Ht Ho0 eq_refl).
  - intros t1 t2 r1 r2 pc1 pc2 c1 c2 Ht1 Ht2 Ho1 Ho2 Hk.
    destruct (lookup_replaced _ _ _ _ _ _ _ Ht Ht1) as [[-> [= -> ->]]|[_ Ht1']];
      destruct (lookup_replaced _ _ _ _ _ _ _ Ht Ht2) as [[-> [= -> ->]]|[_ Ht2']]; try done. by eauto.
  - intros k1 k2 c0 Hk1 Hk2. rewrite lookup_delete_Some in Hk1, Hk2. naive_solver.
  - intros t0 r0 c0 Ht0. destruct (lookup_replaced _ _ _ _ _ _ _ Ht Ht0) as [[-> [=]]|[_ Ht']].
    destruct (H5 _ _ _ Ht') as (v & Hv & Hn). exists v. split; [done|]. intros Hnv. specialize (Hn Hnv).
    rewrite lookup_delete_ne; [done|]. intros Hk. rewrite <- Hk, Hpc in Hn. injection Hn as <-.
    rewrite Hcell in Hv. by simplify_eq/=.
Qed.

Lemma pending_ok_same s s' hs :
  pending_ok s hs -> pending_host_approvals s' = pending_host_approvals s -> cells s' = cells s -> pending_ok s' hs.
Proof. intros [H1 H2 H3 H4 H5] Hp Hc. split; rewrite ?Hp, ?Hc; eauto. Qed.

Lemma lookup_request (hs : list (Proxy.NetworkPolicyRequest * Pc)) t request x :
  (hs ++ [(request, Start)]) !! t = Some x -> hs !! t = Some x \/ (t = length hs /\ x = (request, Start)).
Proof.
  rewrite lookup_app_Some. intros [?|[Hge Hx]]; [by left|]. apply list_lookup_singleton_Some in Hx as [Hz <-].
  right. split; [lia|done].
Qed.

Lemma pending_ok_request s hs request : pending_ok s hs -> pending_ok s (hs ++ [(request, Start)]).
Proof.
  intros [H1 H2 H3 H4 H5]. split; try done.
  - intros k c Hk. destruct (H1 k c Hk) as (t & r & pc & Ht & Hr). exists t, r, pc.
    split; [by apply lookup_app_l_Some|done].
  - intros t r pc c [Ht|[_ [= -> ->]]]%lookup_request Ho; [by eapply H2|done].
  - intros t1 t2 r1 r2 pc1 pc2 c1 c2 [Ht1|[_ [= -> ->]]]%lookup_request [Ht2|[_ [= -> ->]]]%lookup_request; try done.
    by eauto.
  - intros t r c [Ht|[_ [=]]]%lookup_request. by eapply H5.
Qed.

Lemma pending_ok_handler sys sys' :
  pending_ok (service sys) (handlers sys) -> handler_steps sys sys' -> pending_ok (service sys') (handlers sys').
Proof.
  intros Hok Hs. destruct Hs as [sys t r pc i s' pc' Ht Hs]. simpl.
  destruct (handler_effect _ _ _ _ _ _ Hs) as [| -> -> | c d after -> -> | c after d -> ->].
  - by eapply pending_ok_quiet.
  - by eapply pending_ok_create.
  - by eapply pending_ok_decide.
  - by eapply pending_ok_remove.
Qed.

Lemma pending_ok_step sys sys' :
  pending_ok (service sys) (handlers sys) -> step sys sys' -> pending_ok (service sys') (handlers sys').
Proof.
  intros Hok Hs. destruct Hs as [sys sys' Hs|sys request|sys call|sys id|sys id o|sys other]; simpl.
  - by eapply pending_ok_handler.
  - by apply pending_ok_request.
  - by apply (pending_ok_same (service sys)).
  - by apply (pending_ok_same (service sys)).
  - destruct (record_call_outcome_fields (service sys) id o) as (Hp & Hc & _). by apply (pending_ok_same (service sys)).
  - by apply (pending_ok_same (service sys)).
Qed.

Lemma pending_ok_initial : pending_ok (service initial) (handlers initial).
Proof. split; try done. Qed.

Lemma reachable_rule (P : System -> Prop) :
  P initial -> (forall sys sys', reachable sys -> P sys -> step sys sys' -> P sys') ->
  forall sys, reachable sys -> P sys.
Proof. intros H0 Hs. refine (rtc_ind_r P initial H0 _). eauto. Qed.

Lemma reachable_pending_ok sys : reachable sys -> pending_ok (service sys) (handlers sys).
Proof.
  apply (reachable_rule (fun sys => pending_ok (service sys) (handlers sys))); [apply pending_ok_initial|].
  intros y z _ IH Hs. by eapply pending_ok_step.
Qed.

(** ** Who vouches for an approval *)

(** The answers that let a request through. *)
Definition approving (i : Input) : bool :=
  match i with
  | HookAnswer (Some HookAllow) => true
  | Reviewed (Approved | ApprovedExecpolicyAmendment _ | ApprovedForSession) _ => true
  | Reviewed (NetworkPolicyAmendment_ amendment) _ => bool_decide (action amendment = AllowAction)
  | _ => false
  end.
Definition turn_of (pc : Pc) : option TurnContext :=
  match pc with ResolveOwner _ turn | AskHooks _ turn _ | Review _ turn _ => Some turn | _ => None end.
Definition may_ask (turn : TurnContext) : bool :=
  permission_profile_allows_network_approval_flow (turn_permission_profile turn) &&
  allows_network_approval_flow (turn_approval_policy turn).
(** Somebody approved the host of [k] in a turn whose permissions are managed and whose
    policy asks. *)
Definition granted (tr : list TraceEvent) (k : HostApprovalKey) : Prop :=
  exists t r pc turn i, Handled t r pc i ∈ tr /\ request_key r = k /\ turn_of pc = Some turn /\
    may_ask turn = true /\ approving i = true.
Definition vouched (tr : list TraceEvent) (k : HostApprovalKey) : Prop :=
  granted tr k \/ exists hosts, Synced hosts ∈ tr /\ k ∈ hosts.

Definition handler_vouched (s : NetworkApprovalService) (tr : list TraceEvent) (r : Proxy.NetworkPolicyRequest)
    (pc : Pc) : Prop :=
  let allowed d := d <> DenyPending -> granted tr (request_key r) in
  match pc with
  | Waiting c => forall d, cells s !! c = Some (Some d) -> allowed d
  | ResolveOwner _ turn | AskHooks _ turn _ | Review _ turn _ => may_ask turn = true
  | Deciding _ before d after =>
      allowed d /\ (RememberApproved ∈ before -> d <> DenyPending) /\ ~ RememberApproved ∈ after
  | Removing _ after d | Closing after d => allowed d /\ ~ RememberApproved ∈ after
  | Answered Proxy.Allow => vouched tr (request_key r)
  | _ => True
  end.
Record vouched_ok (sys : System) : Prop := {
  approved_vouched k : k ∈ session_approved_hosts (service sys) -> vouched (trace sys) k;
  handlers_vouched t r pc : handlers sys !! t = Some (r, pc) -> handler_vouched (service sys) (trace sys) r pc;
}.

Lemma granted_more tr tr' k : granted tr k -> granted (tr ++ tr') k.
Proof. intros (t & r & pc & turn & i & Hin & H). exists t, r, pc, turn, i. split; [set_solver|done]. Qed.
Lemma vouched_more tr tr' k : vouched tr k -> vouched (tr ++ tr') k.
Proof. intros [H|(hosts & Hin & Hk)]; [left; by apply granted_more|right; exists hosts; set_solver]. Qed.
Lemma handler_vouched_more s s' tr tr' r pc :
  handler_vouched s tr r pc -> (forall c, pc = Waiting c -> cells s' !! c = cells s !! c) ->
  handler_vouched s' (tr ++ tr') r pc.
Proof.
  intros H Hc. destruct pc as [| | | | | | | | | | |[]]; simpl in *; try done;
    try (rewrite (Hc _ eq_refl)); naive_solver eauto using granted_more, vouched_more.
Qed.

Lemma records_not_remembered owner_call o : ~ RememberApproved ∈ record_for owner_call o.
Proof. destruct owner_call; set_solver. Qed.

Lemma resolve_review_ok turn owner_call d rejection before resolved deny :
  resolve_review turn owner_call d rejection = (before, resolved, deny) ->
  (resolved <> DenyPending -> approving (Reviewed d rejection) = true) /\
  (RememberApproved ∈ before ++ cache_actions resolved deny -> resolved <> DenyPending).
Proof.
  intros Hr. destruct d as [| | |a| | |]; simpl in Hr; try destruct (action a) eqn:Ea; simplify_eq/=;
    rewrite ?Ea; (split; [done|]); try done; rewrite ?app_nil_r; intros Hin; exfalso; revert Hin;
    pose proof (records_not_remembered owner_call) as Hn; set_solver.
Qed.

Lemma run_action_approved s r a i s' new k :
  run_action s r a i = Some (s', new) -> k ∈ session_approved_hosts s' ->
  k ∈ session_approved_hosts s \/ (a = RememberApproved /\ k = request_key r).
Proof.
  destruct a, i as [| | | | |[]]; intros Ha; try discriminate Ha; injection Ha as <- <-; simpl; try set_solver.
  destruct (record_call_outcome_fields s id outcome) as (_ & _ & -> & _). by left.
Qed.
Lemma run_action_new s r a i s' new : run_action s r a i = Some (s', new) -> ~ RememberApproved ∈ new.
Proof.
  destruct a, i as [| | | | |[]]; intros Ha; try discriminate Ha; injection Ha as <- <-; try set_solver.
  destruct (resolve_single_active_call s); set_solver.
Qed.

Lemma run_action_vouched s tr r a i s' new before d after c e :
  handler_vouched s tr r (Deciding c (a :: before) d after) -> run_action s r a i = Some (s', new) ->
  handler_vouched s' (tr ++ [e]) r (Deciding c (new ++ before) d after).
Proof.
  intros (Hd & Hb & Ha) Hn%run_action_new. split; [|split; [|done]].
  - intros Hd'. by apply granted_more, Hd.
  - intros Hin. apply Hb. set_solver.
Qed.

Lemma handler_vouched_step s hs tr t r pc i s' pc' :
  pending_ok s hs -> hs !! t = Some (r, pc) ->
  (forall k, k ∈ session_approved_hosts s -> vouched tr k) ->
  (forall t r pc, hs !! t = Some (r, pc) -> handler_vouched s tr r pc) ->
  handler_step s r pc i = Some (s', pc') -> handler_vouched s' (tr ++ [Handled t r pc i]) r pc'.
Proof.
  intros Hok Ht Happ Hall Hs. pose proof (Hall _ _ _ Ht) as Hv. unfold handler_step in Hs.
  assert (forall turn, turn_of pc = Some turn -> may_ask turn = true -> approving i = true ->
    granted (tr ++ [Handled t r pc i]) (request_key r)) as Hgrant.
  { intros turn Hturn Hask Hi. exists t, r, pc, turn, i. split; [set_solver|done]. }
  destruct pc as [| | | | | |c turn oc|c turn oc|c [|a before] d after| |[|a after] d|].
  10: { apply bind_Some in Hs as ([s1 new] & Ha & [= -> <-]). by eapply run_action_vouched. }
  12: { apply bind_Some in Hs as ([s1 new] & Ha & [= -> <-]). apply run_action_new in Ha.
        destruct Hv as [Hd Hn]. split; [intros Hd'; by apply granted_more, Hd|set_solver]. }
  all: destruct i as [| |[turn'|]|h|rd rj|p]; try discriminate Hs.
  - injection Hs as <- <-. by case_bool_decide.
  - by injection Hs as <- <-.
  - injection Hs as <- <-. case_bool_decide as Hk; [|done]. by apply vouched_more, Happ.
  - destruct (pending_host_approvals s !! request_key r) as [c|] eqn:Ep; injection Hs as <- <-; [|done].
    intros d Hc Hd. apply granted_more. destruct (pending_owned _ _ Hok _ _ Ep) as (t0 & r0 & pc0 & Ht0 & Hr0 & Ho0).
    destruct (owner_pending _ _ Hok _ _ _ _ Ht0 Ho0) as [_ Hcell]. rewrite Hc in Hcell.
    specialize (Hall _ _ _ Ht0).
    destruct pc0; try discriminate. injection Hcell as <-. rewrite <- Hr0. by apply Hall.
  - destruct (cells s !! cell) as [[d|]|] eqn:Ec; simplify_eq. specialize (Hv d Ec).
    destruct d; simpl; try done; left; apply granted_more, Hv; done.
  - injection Hs as <- <-. repeat case_match; simpl; try done; try (split_and!; [done|set_solver|set_solver]).
    unfold may_ask. by destruct (permission_profile_allows_network_approval_flow _), (allows_network_approval_flow _).
  - injection Hs as <- <-. simpl. split_and!; [done|set_solver|set_solver].
  - by injection Hs as <- <-.
  - destruct h as [[|m]|]; injection Hs as <- <-; simpl; [|split_and!; [done| |set_solver]|done].
    + split_and!; [intros _; by eapply Hgrant|set_solver|set_solver].
    + intros Hin. by apply records_not_remembered in Hin.
  - destruct (resolve_review turn oc rd rj) as [[before resolved] deny] eqn:Er. injection Hs as <- <-.
    apply resolve_review_ok in Er as [Hr1 Hr2]. split_and!; [|done|set_solver]. intros Hd. by eapply Hgrant; eauto.
  - injection Hs as <- <-. destruct Hv as (Hd & _ & Ha). split; [intros Hd'; by apply granted_more, Hd|done].
  - injection Hs as <- <-. destruct Hv as (Hd & Ha). split; [intros Hd'; by apply granted_more, Hd|done].
  - injection Hs as <- <-. destruct Hv as (Hd & _).
    destruct d; simpl; try done; left; apply granted_more, Hd; done.
Qed.

Lemma handler_approved s tr r pc i s' pc' k :
  handler_vouched s tr r pc -> handler_step s r pc i = Some (s', pc') ->
  k ∈ session_approved_hosts s' -> k ∈ session_approved_hosts s \/ granted tr k.
Proof.
  intros Hv Hs Hk. unfold handler_step in Hs.
  destruct pc as [| | | | | | | |c [|a before] d after| |[|a after] d|].
  10: { apply bind_Some in Hs as ([s1 new] & Ha & [= -> <-]).
        destruct (run_action_approved _ _ _ _ _ _ _ Ha Hk) as [?|[-> ->]]; [by left|].
        right. destruct Hv as (Hd & Hb & _). apply Hd, Hb. set_solver. }
  12: { apply bind_Some in Hs as ([s1 new] & Ha & [= -> <-]).
        destruct (run_action_approved _ _ _ _ _ _ _ Ha Hk) as [?|[-> ->]]; [by left|].
        destruct Hv as [_ Hn]. set_solver. }
  all: destruct i; try discriminate Hs; left; repeat case_match; by simplify_eq/=.
Qed.

Lemma vouched_ok_handler sys sys' :
  pending_ok (service sys) (handlers sys) -> vouched_ok sys -> handler_steps sys sys' -> vouched_ok sys'.
Proof.
  intros Hok [Happ Hall] Hs. destruct Hs as [sys t r pc i s' pc' Ht Hs]. split; simpl.
  - intros k Hk. apply vouched_more. destruct (handler_approved _ _ _ _ _ _ _ _ (Hall _ _ _ Ht) Hs Hk) as [H|H];
      [by apply Happ|by left].
  - intros t0 r0 pc0 Ht0. destruct (lookup_replaced _ _ _ _ _ _ _ Ht Ht0) as [[-> [= -> ->]]|[_ Ht']].
    { by eapply handler_vouched_step. }
    destruct (handler_effect _ _ _ _ _ _ Hs) as [Hp Hc|Hpc _ _ _ Hc|c d after -> _ _ Hc|c after d _ _ _ Hc].
    + eapply handler_vouched_more; [by apply (Hall t0)|]. by rewrite Hc.
    + eapply handler_vouched_more; [by apply (Hall t0)|]. intros c ->.
      destruct (waiting_ok _ _ Hok _ _ _ Ht') as (v & Hv & _). rewrite Hc, Hv. by apply lookup_app_l_Some.
    + destruct pc0 as [| | |c0| | | | | | | |]; try (eapply handler_vouched_more; [by apply (Hall t0)|done]).
      destruct (decide (c0 = c)) as [->|Hne].
      * destruct (owner_pending _ _ Hok _ _ _ _ Ht eq_refl) as [Hp0 Hc0].
        destruct (waiting_ok _ _ Hok _ _ _ Ht') as (v & Hv & Hn). rewrite Hc0 in Hv. injection Hv as <-.
        intros d' Hd' Hne. rewrite Hc in Hd'. rewrite list_lookup_insert_eq in Hd' by (by eapply lookup_lt_Some).
        injection Hd' as <-. rewrite (pending_inj _ _ Hok _ _ _ (Hn eq_refl) Hp0).
        destruct (Hall _ _ _ Ht) as (Hd & _). by apply granted_more, Hd.
      * eapply handler_vouched_more; [by apply (Hall t0)|]. intros c1 [= <-]. rewrite Hc.
        by rewrite list_lookup_insert_ne.
    + eapply handler_vouched_more; [by apply (Hall t0)|]. by rewrite Hc.
Qed.

Lemma vouched_ok_step sys sys' :
  pending_ok (service sys) (handlers sys) -> vouched_ok sys -> step sys sys' -> vouched_ok sys'.
Proof.
  intros Hok Hv Hs. destruct Hs as [sys sys' Hs|sys request|sys call|sys id|sys id o|sys other].
  - by eapply vouched_ok_handler.
  - destruct Hv as [Happ Hall]. split; simpl; [done|]. intros t r pc [Ht|[_ [= -> ->]]]%lookup_request; [by eapply Hall|done].
  - destruct Hv as [Happ Hall]. by split.
  - destruct Hv as [Happ Hall]. by split.
  - destruct Hv as [Happ Hall]. destruct (record_call_outcome_fields (service sys) id o) as (_ & Hc & Ha & _).
    split; simpl; [by rewrite Ha|]. intros t r pc Ht. specialize (Hall t r pc Ht). destruct pc; simpl in *; try done.
    by rewrite Hc.
  - destruct Hv as [Happ Hall]. split; simpl.
    + intros k Hk. right. exists (session_approved_hosts other). split; [set_solver|done].
    + intros t r pc Ht. eapply handler_vouched_more; [by eapply Hall|done].
Qed.

Lemma reachable_vouched sys : reachable sys -> vouched_ok sys.
Proof.
  apply (reachable_rule vouched_ok); [split; [set_solver|done]|].
  intros y z Hy IH Hs. eapply vouched_ok_step; [by apply reachable_pending_ok|done|done].
Qed.

(** ** The hosts kept for the session *)

Definition is_record (a : Action) : bool :=
  match a with RecordForSingle _ | RecordFor _ _ | Persist _ _ => true | _ => false end.
(** The two sections that move a host come last, and the first of a pair has been done when
    only the second is left. *)
Fixpoint cache_ok (s : NetworkApprovalService) (k : HostApprovalKey) (before : list Action) : Prop :=
  match before with
  | [] | [ForgetDenied; RememberApproved] | [ForgetApproved; RememberDenied] => True
  | [RememberApproved] => k ∉ session_denied_hosts s
  | [RememberDenied] => k ∉ session_approved_hosts s
  | (RecordForSingle _ | RecordFor _ _ | Persist _ _) :: before => cache_ok s k before
  | _ => False
  end.
Definition handler_cache_ok (s : NetworkApprovalService) (r : Proxy.NetworkPolicyRequest) (pc : Pc) : Prop :=
  match pc with
  | Deciding _ before _ after => cache_ok s (request_key r) before /\ Forall (fun a => is_record a = true) after
  | Removing _ after _ | Closing after _ => Forall (fun a => is_record a = true) after
  | _ => True
  end.
Definition cached_ok (sys : System) : Prop :=
  (forall hosts, Synced hosts ∉ trace sys) ->
  session_approved_hosts (service sys) ## session_denied_hosts (service sys) /\
  forall t r pc, handlers sys !! t = Some (r, pc) -> handler_cache_ok (service sys) r pc.

Lemma cache_ok_ext s s' k before :
  (k ∈ session_approved_hosts s' <-> k ∈ session_approved_hosts s) ->
  (k ∈ session_denied_hosts s' <-> k ∈ session_denied_hosts s) -> cache_ok s k before -> cache_ok s' k before.
Proof.
  intros Ha Hd. induction before as [|a before IH]; [done|].
  destruct a; simpl; try done; destruct before as [|[] []]; try done; intros Hk Hin; apply Hk; tauto.
Qed.
Lemma cache_ok_records s k l before :
  Forall (fun a => is_record a = true) l -> cache_ok s k (l ++ before) <-> cache_ok s k before.
Proof. induction 1 as [|a l Ha _ IH]; [done|]. by destruct a. Qed.

Lemma record_for_records owner_call o : Forall (fun a => is_record a = true) (record_for owner_call o).
Proof. destruct owner_call; by repeat constructor. Qed.

Lemma resolve_review_cache s k turn owner_call d rejection before resolved deny :
  resolve_review turn owner_call d rejection = (before, resolved, deny) ->
  cache_ok s k (before ++ cache_actions resolved deny).
Proof.
  intros Hr. assert (Forall (fun a => is_record a = true) before) as Hb.
  { destruct d as [| | |a| | |]; simpl in Hr; try destruct (action a); simplify_eq/=;
      repeat constructor; apply record_for_records. }
  apply cache_ok_records; [done|]. destruct d as [| | |a| | |]; simpl in Hr; try destruct (action a); by simplify_eq/=.
Qed.

(** An action moves no host but the request's. *)
Lemma run_action_elsewhere s r a i s' new k :
  run_action s r a i = Some (s', new) -> k <> request_key r \/ is_record a = true ->
  (k ∈ session_approved_hosts s' <-> k ∈ session_approved_hosts s) /\
  (k ∈ session_denied_hosts s' <-> k ∈ session_denied_hosts s).
Proof.
  intros Ha Hk. destruct a, i as [| | | | |[]]; try discriminate Ha; injection Ha as <- <-; simpl; try done.
  1: { destruct (record_call_outcome_fields s id outcome) as (_ & _ & -> & ->). done. }
  all: destruct Hk; [set_solver|done].
Qed.
Lemma run_action_records s r a i s' new :
  run_action s r a i = Some (s', new) -> is_record a = true -> Forall (fun a => is_record a = true) new.
Proof.
  intros Ha Hr. destruct a, i as [| | | | |[]]; try discriminate; injection Ha as <- <-; try constructor.
  destruct (resolve_single_active_call s); by repeat constructor.
Qed.

(** The action of a handler that decides keeps the sets apart. *)
Lemma run_action_cache s r a i s' new before :
  session_approved_hosts s ## session_denied_hosts s -> cache_ok s (request_key r) (a :: before) ->
  run_action s r a i = Some (s', new) ->
  session_approved_hosts s' ## session_denied_hosts s' /\ cache_ok s' (request_key r) (new ++ before).
Proof.
  intros Hd Hc Ha. destruct (is_record a) eqn:Er.
  - assert (forall k, (k ∈ session_approved_hosts s' <-> k ∈ session_approved_hosts s) /\
                      (k ∈ session_denied_hosts s' <-> k ∈ session_denied_hosts s)) as He
      by (intros k; apply (run_action_elsewhere _ _ _ _ _ _ _ Ha); by right).
    split.
    + intros k Hk1 Hk2. apply He in Hk1, Hk2. by apply (Hd k).
    + apply cache_ok_records; [by eapply run_action_records|]. apply (cache_ok_ext s); [apply He..|].
      by destruct a.
  - destruct a, i as [| | | | |[]]; try discriminate; injection Ha as <- <-; simpl in *.
    + split; [set_solver|]. destruct before as [|[] []]; try done. simpl. set_solver.
    + split; [|by destruct before]. destruct before; [|done]. set_solver.
    + split; [set_solver|]. destruct before as [|[] []]; try done. simpl. set_solver.
    + split; [|by destruct before]. destruct before; [|done]. set_solver.
Qed.

(** One step of a handler that may run. *)
Lemma handler_cache_step s r pc i s' pc' :
  session_approved_hosts s ## session_denied_hosts s -> handler_cache_ok s r pc ->
  handler_step s r pc i = Some (s', pc') ->
  session_approved_hosts s' ## session_denied_hosts s' /\ handler_cache_ok s' r pc' /\
  forall k, k <> request_key r \/ owner_cell pc = None ->
    (k ∈ session_approved_hosts s' <-> k ∈ session_approved_hosts s) /\
    (k ∈ session_denied_hosts s' <-> k ∈ session_denied_hosts s).
Proof.
  intros Hd Hok Hs. unfold handler_step in Hs.
  destruct pc as [| | | | | | |c turn oc|c [|a before] d after| |[|a after] d|].
  10: { apply bind_Some in Hs as ([s1 new] & Ha & [= -> <-]). destruct Hok as [Hc Hr].
        destruct (run_action_cache _ _ _ _ _ _ _ Hd Hc Ha) as [Hd' Hc']. split; [done|]. split; [done|].
        intros k [Hk|[=]]. apply (run_action_elsewhere _ _ _ _ _ _ _ Ha). by left. }
  12: { apply bind_Some in Hs as ([s1 new] & Ha & [= -> <-]). apply Forall_cons in Hok as [Hr Hok].
        assert (forall k, (k ∈ session_approved_hosts s' <-> k ∈ session_approved_hosts s) /\
                          (k ∈ session_denied_hosts s' <-> k ∈ session_denied_hosts s)) as He
          by (intros k; apply (run_action_elsewhere _ _ _ _ _ _ _ Ha); by right).
        split; [intros k Hk1 Hk2; apply He in Hk1, Hk2; by apply (Hd k)|]. split; [|by auto].
        apply Forall_app. split; [by eapply run_action_records|done]. }
  all: destruct i as [| |[turn'|]|h|rd rj|p]; try discriminate Hs.
  all: try (injection Hs as <- <-; split; [done|]; split; [|done]; try done; by repeat case_match).
  - destruct (pending_host_approvals s !! request_key r); by injection Hs as <- <-.
  - destruct (cells s !! cell) as [[d|]|]; by simplify_eq.
  - injection Hs as <- <-. split; [done|]. split; [|done]. repeat case_match; simpl; by repeat constructor.
  - injection Hs as <- <-. split; [done|]. split; [|done]. by repeat constructor.
  - injection Hs as <- <-. split; [done|]. split; [|done]. destruct h as [[|m]|]; simpl; try by repeat constructor.
    split; [|by constructor]. by destruct owner_call.
  - destruct (resolve_review turn oc rd rj) as [[before resolved] deny] eqn:Er. injection Hs as <- <-.
    split; [done|]. split; [|done]. split; [by eapply resolve_review_cache|by constructor].
  - injection Hs as <- <-. by destruct Hok.
Qed.

Lemma handler_cache_ext s s' r pc :
  ((request_key r ∈ session_approved_hosts s' <-> request_key r ∈ session_approved_hosts s) /\
   (request_key r ∈ session_denied_hosts s' <-> request_key r ∈ session_denied_hosts s)) ->
  handler_cache_ok s r pc -> handler_cache_ok s' r pc.
Proof.
  intros [Ha Hd]. destruct pc; simpl; try done. intros [Hc Hr]. split; [by eapply cache_ok_ext|done].
Qed.

Lemma cached_ok_step sys sys' :
  pending_ok (service sys) (handlers sys) -> cached_ok sys -> step sys sys' -> cached_ok sys'.
Proof.
  intros Hp Hc Hs. destruct Hs as [sys sys' [sys0 t r pc i s' pc' Ht Hs]|sys request|sys call|sys id|sys id o|sys other];
    intros Hno; simpl in *.
  - destruct (Hc (fun hosts Hin => Hno hosts (proj2 (elem_of_app _ _ _) (or_introl Hin)))) as [Hd Hh].
    destruct (handler_cache_step _ _ _ _ _ _ Hd (Hh _ _ _ Ht) Hs) as (Hd' & Hh' & Helse).
    split; [done|]. intros t0 r0 pc0 Ht0.
    destruct (lookup_replaced _ _ _ _ _ _ _ Ht Ht0) as [[-> [= -> ->]]|[Hne Ht']]; [done|].
    destruct (owner_cell pc0) as [c0|] eqn:Eo.
    + apply (handler_cache_ext (service sys0)); [|by apply (Hh t0)]. apply Helse.
      destruct (owner_cell pc) as [c|] eqn:Eoc; [left|by right]. intros Hk.
      apply Hne. exact (owner_unique _ _ Hp _ _ _ _ _ _ _ _ Ht' Ht Eo Eoc Hk).
    + specialize (Hh _ _ _ Ht'). by destruct pc0.
  - destruct (Hc Hno) as [Hd Hh]. split; [done|]. intros t r pc [Ht|[_ [= -> ->]]]%lookup_request; [by eapply Hh|done].
  - destruct (Hc Hno) as [Hd Hh]. split; [done|]. intros t r pc Ht. by apply (handler_cache_ext (service sys)), (Hh t).
  - destruct (Hc Hno) as [Hd Hh]. split; [done|]. intros t r pc Ht. by apply (handler_cache_ext (service sys)), (Hh t).
  - destruct (Hc Hno) as [Hd Hh]. destruct (record_call_outcome_fields (service sys) id o) as (_ & _ & Ha & Hdn).
    split; [by rewrite Ha, Hdn|]. intros t r pc Ht. apply (handler_cache_ext (service sys)); [by rewrite Ha, Hdn|by apply (Hh t)].
  - exfalso. apply (Hno (session_approved_hosts other)). set_solver.
Qed.

Lemma reachable_cached_ok sys : reachable sys -> cached_ok sys.
Proof.
  apply (reachable_rule cached_ok); [split; [set_solver|done]|].
  intros y z Hy IH Hs. eapply cached_ok_step; [by apply reachable_pending_ok|done|done].
Qed.

(** ** Every handler ends *)

Definition action_weight (a : Action) : nat := match a with RecordForSingle _ => 2 | _ => 1 end.
Definition actions_weight (l : list Action) : nat := sum_list (action_weight <$> l).
Definition weight (pc : Pc) : nat :=
  match pc with
  | Start => 14
  | CheckApproved => 13
  | GetPending => 12
  | Waiting _ => 1
  | FindTurn _ => 11
  | ResolveOwner _ _ => 10
  | AskHooks _ _ _ => 9
  | Review _ _ _ => 8
  | Deciding _ before _ after => actions_weight before + actions_weight after + 3
  | Removing _ after _ => actions_weight after + 2
  | Closing after _ => actions_weight after + 1
  | Answered _ => 0
  end.
Definition work (hs : list (Proxy.NetworkPolicyRequest * Pc)) : nat := sum_list ((fun h => weight (snd h)) <$> hs).

Lemma work_insert hs t r pc pc' :
  hs !! t = Some (r, pc) -> work (<[t := (r, pc')]> hs) + weight pc = work hs + weight pc'.
Proof.
  revert t; induction hs as [|h hs IH]; intros [|t] Ht; unfold work in *; csimpl; [done|done|simplify_eq/=; lia|].
  specialize (IH _ Ht). lia.
Qed.
Lemma actions_weight_app l l' : actions_weight (l ++ l') = actions_weight l + actions_weight l'.
Proof. unfold actions_weight. rewrite fmap_app. induction l as [|a l IH]; csimpl; lia. Qed.

Lemma run_action_weight s r a i s' new : run_action s r a i = Some (s', new) -> actions_weight new < action_weight a.
Proof.
  destruct a, i as [| | | | |[]]; intros Ha; try discriminate Ha; injection Ha as <- <-; simpl; try (cbv; lia).
  destruct (resolve_single_active_call s); cbv; lia.
Qed.

Lemma resolve_review_weight turn owner_call d rejection before resolved deny :
  resolve_review turn owner_call d rejection = (before, resolved, deny) ->
  actions_weight (before ++ cache_actions resolved deny) <= 4.
Proof.
  destruct d as [| | |a| | |], owner_call; simpl; try destruct (action a); intros [= <- <- <-]; cbv; lia.
Qed.

Lemma handler_step_weight s r pc i s' pc' : handler_step s r pc i = Some (s', pc') -> weight pc' < weight pc.
Proof.
  intros Hs. unfold handler_step in Hs. destruct pc as [| | | | | |c turn oc|c turn oc|c [|a before] d after| |[|a after] d|].
  10,13: apply bind_Some in Hs as ([s1 new] & Ha & [= -> <-]); apply run_action_weight in Ha; cbn [weight];
    rewrite actions_weight_app; unfold actions_weight in *; csimpl; lia.
  all: destruct i as [| |[turn'|]|h|rd rj|p]; try discriminate Hs.
  10: { destruct (resolve_review turn oc rd rj) as [[before resolved] deny] eqn:Er. injection Hs as <- <-.
        apply resolve_review_weight in Er. simpl. change (actions_weight []) with 0. lia. }
  9: { injection Hs as <- <-. destruct h as [[|m]|], oc; cbv; lia. }
  all: repeat case_match; simplify_eq; simpl; try (cbv; lia); unfold actions_weight; simpl; lia.
Qed.

(** ** Calls and their outcomes *)

(** Identifiers and tokens of the active calls are distinct, only active calls have
    outcomes, and the token of a call is cancelled exactly when it has one. *)
Record calls_ok (s : NetworkApprovalService) : Prop := {
  ids_distinct : NoDup (active_calls (calls s)).*1;
  tokens_distinct id1 id2 c1 c2 :
    (id1, c1) ∈ active_calls (calls s) -> (id2, c2) ∈ active_calls (calls s) ->
    cancellation_token c1 = cancellation_token c2 -> id1 = id2;
  outcome_active id o : call_outcomes (calls s) !! id = Some o -> id ∈ (active_calls (calls s)).*1;
  cancelled_iff id c : (id, c) ∈ active_calls (calls s) ->
    cancellation_token c ∈ cancelled_tokens s <-> is_Some (call_outcomes (calls s) !! id);
}.

Lemma find_call_elem id l c : NoDup l.*1 -> find_call id l = Some c <-> (id, c) ∈ l.
Proof.
  unfold find_call. induction l as [|[i d] l IH]; csimpl; intros Hnd; [split; [done|by intros ?%not_elem_of_nil]|].
  inversion Hnd as [|? ? Hni Hnd']; subst. rewrite elem_of_cons. case_bool_decide as Hid; simpl.
  - subst. split; [intros [= ->]; by left|]. intros [[= ->]|Hin]; [done|].
    exfalso. apply Hni. apply list_elem_of_fmap. by exists (id, c).
  - rewrite IH by done. split; [by right|]. by intros [[= -> ->]|Hin].
Qed.

Lemma calls_ok_same s s' :
  calls_ok s -> calls s' = calls s -> cancelled_tokens s' = cancelled_tokens s -> calls_ok s'.
Proof. intros [H1 H2 H3 H4] Hc Ht. split; rewrite ?Hc, ?Ht; done. Qed.

Lemma calls_ok_register s call : calls_ok s -> new_call s call -> calls_ok (register_call s call).
Proof.
  intros [H1 H2 H3 H4] (Hid & Htok & Hact). unfold register_call, index_insert.
  rewrite bool_decide_eq_false_2 by done.
  assert (forall i c, (i, c) ∈ active_calls (calls s) -> cancellation_token c <> cancellation_token call) as Hother.
  { intros i c Hin Heq. apply Hact. apply list_elem_of_fmap. exists (i, c). by rewrite <- Heq. }
  split; simpl.
  - rewrite fmap_app. apply NoDup_app. split; [done|]. split; [|apply NoDup_singleton].
    intros x Hx Hs. simpl in Hs. apply list_elem_of_singleton in Hs as ->. done.
  - intros id1 id2 c1 c2. rewrite !elem_of_app, !list_elem_of_singleton.
    intros [Hi1|[= -> ->]] [Hi2|[= -> ->]] Heq; [by eapply H2| | |done].
    + by apply Hother in Hi1.
    + by apply Hother in Hi2.
  - intros id o Ho. rewrite fmap_app. apply elem_of_app. left. by eapply H3.
  - intros id c. rewrite elem_of_app, list_elem_of_singleton. intros [Hin|[= -> ->]]; [by apply H4|].
    split; [done|]. intros [o Ho]. by apply H3 in Ho.
Qed.

Lemma calls_ok_remove s id : calls_ok s -> calls_ok (unregister_call s id).
Proof.
  intros [H1 H2 H3 H4]. unfold unregister_call, remove_call, shift_remove. simpl.
  assert (forall e, e ∈ filter (fun e => fst e <> id) (active_calls (calls s)) <->
    fst e <> id /\ e ∈ active_calls (calls s)) as Hf by (intros; by rewrite list_elem_of_filter).
  split; simpl.
  - eapply sublist_NoDup; [exact H1|]. apply fmap_sublist, sublist_filter.
  - intros id1 id2 c1 c2 [_ Hi1]%Hf [_ Hi2]%Hf. by eapply H2.
  - intros i o [Hne Ho]%lookup_delete_Some. apply H3 in Ho. apply list_elem_of_fmap in Ho as (e & -> & He).
    apply list_elem_of_fmap. exists e. rewrite Hf. auto.
  - intros i c [Hne Hin]%Hf. simpl in Hne. rewrite lookup_delete_ne by done. by apply H4.
Qed.

Lemma calls_ok_record s id o : calls_ok s -> calls_ok (record_call_outcome s id o).
Proof.
  intros Hok. pose proof Hok as [H1 H2 H3 H4]. unfold record_call_outcome.
  destruct (find_call id (active_calls (calls s))) as [call|] eqn:Ef; [|done].
  apply find_call_elem in Ef; [|done]. case_bool_decide; [done|]. split; simpl; [done|done| |].
  - intros i o' [[<- _]|[_ Ho]]%lookup_insert_Some; [|by eapply H3].
    apply list_elem_of_fmap. by exists (id, call).
  - intros i c Hin. rewrite elem_of_union, elem_of_singleton, H4 by done. destruct (decide (i = id)) as [->|Hne].
    + rewrite lookup_insert_eq. assert (cancellation_token c = cancellation_token call) as ->; [|naive_solver].
      f_equal. apply find_call_elem in Hin, Ef; [|done..]. congruence.
    + rewrite lookup_insert_ne by done. split; [intros [Heq|Hin']; [|done]|by right].
      exfalso. by apply Hne, (H2 i id c call).
Qed.

Lemma run_action_calls s r a i s' new : calls_ok s -> run_action s r a i = Some (s', new) -> calls_ok s'.
Proof.
  intros Hok Ha. destruct a, i as [| | | | |[]]; try discriminate Ha; injection Ha as <- <-; try done;
    try (by apply (calls_ok_same s)). by apply calls_ok_record.
Qed.

Lemma handler_step_calls s r pc i s' pc' : calls_ok s -> handler_step s r pc i = Some (s', pc') -> calls_ok s'.
Proof.
  intros Hok Hs. unfold handler_step in Hs.
  destruct pc as [| | | | | | |c turn oc|c [|a before] d after| |[|a after] d|].
  10,13: apply bind_Some in Hs as ([s1 new] & Ha & [= -> <-]); by eapply run_action_calls.
  all: destruct i; try discriminate Hs; apply (calls_ok_same s); try done; repeat case_match; by simplify_eq.
Qed.

Lemma reachable_calls_ok sys : reachable sys -> calls_ok (service sys).
Proof.
  apply (reachable_rule (fun sys => calls_ok (service sys))).
  - split; simpl; try set_solver. constructor.
  - intros y z _ IH Hs. destruct Hs as [y z [? ? ? ? ? ? ? ? Hs]|y request|y call Hn|y id|y id o|y other]; simpl.
    + by eapply handler_step_calls.
    + done.
    + by apply calls_ok_register.
    + by apply calls_ok_remove.
    + by apply calls_ok_record.
    + by apply (calls_ok_same (service y)).
Qed.

(** ** Properties *)

(** C16: A request the allowlist misses passes only when somebody approved its host, with
    its protocol and port, in lower case: a hook, the user or the automatic reviewer, in a
    turn whose permissions are managed and whose policy asks; or the session took the
    approval over from another.  This holds in every interleaving of the handlers, those
    that waited for the answer given to another included. *)
Theorem requests_pass_only_when_vouched sys t r :
  reachable sys -> handlers sys !! t = Some (r, Answered Proxy.Allow) -> vouched (trace sys) (request_key r).
Proof. intros Hr Ht. exact (handlers_vouched _ (reachable_vouched _ Hr) _ _ _ Ht). Qed.

Lemma decided_stays sys sys' c d :
  pending_ok (service sys) (handlers sys) -> step sys sys' -> cells (service sys) !! c = Some (Some d) ->
  cells (service sys') !! c = Some (Some d).
Proof.
  intros Hok Hs Hc. destruct Hs as [y z [sys0 t r pc i s' pc' Ht Hs]|y request|y call Hn|y id|y id o|y other]; simpl in *;
    try done.
  - destruct (handler_effect _ _ _ _ _ _ Hs) as [_ He|_ _ _ _ He|c' d' after -> _ _ He|c' after d' _ _ _ He];
      rewrite He; [done|by apply lookup_app_l_Some| |done].
    destruct (owner_pending _ _ Hok _ _ _ _ Ht eq_refl) as [_ Hcell]. simpl in Hcell.
    rewrite list_lookup_insert_ne; [done|]. intros ->. congruence.
  - destruct (record_call_outcome_fields (service y) id o) as (_ & -> & _). done.
Qed.

(** C19: A host is decided once at a time: of the handlers of one host, protocol and port at
    most one asks; the others wait for its decision, which nothing changes; and, unless
    approvals were taken over from another session, no host is both approved and denied
    for the session. *)
Theorem hosts_are_decided_once sys :
  reachable sys ->
  (forall t1 t2 r1 r2 pc1 pc2 c1 c2,
     handlers sys !! t1 = Some (r1, pc1) -> handlers sys !! t2 = Some (r2, pc2) ->
     owner_cell pc1 = Some c1 -> owner_cell pc2 = Some c2 -> request_key r1 = request_key r2 -> t1 = t2) /\
  (forall t r c, handlers sys !! t = Some (r, Waiting c) -> cells (service sys) !! c = Some None ->
     exists t' r' pc', handlers sys !! t' = Some (r', pc') /\ request_key r' = request_key r /\ owner_cell pc' = Some c) /\
  (forall sys' c d, step sys sys' -> cells (service sys) !! c = Some (Some d) ->
     cells (service sys') !! c = Some (Some d)) /\
  ((forall hosts, Synced hosts ∉ trace sys) ->
   session_approved_hosts (service sys) ## session_denied_hosts (service sys)).
Proof.
  intros Hr. pose proof (reachable_pending_ok _ Hr) as Hok. split_and!.
  - apply (owner_unique _ _ Hok).
  - intros t r c Ht Hc. destruct (waiting_ok _ _ Hok _ _ _ Ht) as (v & Hv & Hn). rewrite Hc in Hv. injection Hv as <-.
    by apply (pending_owned _ _ Hok), Hn.
  - intros sys' c d Hs. by apply decided_stays.
  - intros Hno. by apply (reachable_cached_ok _ Hr Hno).
Qed.

Lemma handler_steps_work sys sys' : handler_steps sys sys' -> work (handlers sys') < work (handlers sys).
Proof.
  intros [sys0 t r pc i s' pc' Ht Hs]. simpl. apply handler_step_weight in Hs.
  pose proof (work_insert _ _ _ _ pc' Ht). lia.
Qed.

(** A handler that does not wait for a decision can run, on the answer it waits for. *)
Lemma handler_runs s r pc :
  (forall c, pc <> Waiting c) -> (forall d, pc <> Answered d) -> exists i s' pc', handler_step s r pc i = Some (s', pc').
Proof.
  intros Hw Ha.
  assert (forall a, exists i s' new, run_action s r a i = Some (s', new)) as Hrun.
  { intros a. destruct a; try (exists Tick; by do 2 eexists). exists (PersistResult None). by do 2 eexists. }
  destruct pc as [| | |c|c|c turn|c turn oc|c turn oc|c [|a before] d after|c after d|[|a after] d|d];
    try (by exfalso; eapply Hw); try (by exfalso; eapply Ha).
  9: { destruct (Hrun a) as (i & s' & new & E). exists i. simpl. rewrite E. by do 2 eexists. }
  11: { destruct (Hrun a) as (i & s' & new & E). exists i. simpl. rewrite E. by do 2 eexists. }
  3: { exists Tick. simpl. destruct (pending_host_approvals s !! request_key r); by do 2 eexists. }
  3: { exists (ActiveTurn None). by do 2 eexists. }
  4: { exists (HookAnswer None). by do 2 eexists. }
  4: { exists (Reviewed Abort None). by do 2 eexists. }
  all: exists Tick; by do 2 eexists.
Qed.

(** C18: As long as no handler is dropped before it answers, no request waits forever: from
    every reachable state the handlers take only
    boundedly many steps, whatever hooks, reviewers and the session answer, and when none
    can take another, every request has been answered.  In particular whoever waits for
    the answer to another request gets one.  (A handler that is dropped while others wait
    for it leaves them waiting, see [dropped_owner_blocks_its_host].) *)
Theorem every_request_is_answered sys :
  reachable sys ->
  (forall n sys', nsteps handler_steps n sys sys' -> n <= work (handlers sys)) /\
  (forall sys', rtc handler_steps sys sys' -> (forall sys'', ~ handler_steps sys' sys'') ->
     forall t r pc, handlers sys' !! t = Some (r, pc) -> exists d, pc = Answered d).
Proof.
  intros Hr. split.
  - intros n sys' Hn. enough (n + work (handlers sys') <= work (handlers sys)) by lia.
    clear Hr. induction Hn as [|n x y z Hxy _ IH]; [lia|]. apply handler_steps_work in Hxy. lia.
  - intros sys' Hrun Hstuck t r pc Ht.
    assert (reachable sys') as Hr'.
    { apply (transitivity Hr). apply (rtc_subrel handler_steps); [|exact Hrun]. intros x y Hxy. by apply step_handled. }
    pose proof (reachable_pending_ok _ Hr') as Hok.
    assert (forall t r pc, handlers sys' !! t = Some (r, pc) -> (forall c, pc <> Waiting c) -> exists d, pc = Answered d)
      as Hnow.
    { intros t0 r0 pc0 Ht0 Hw. destruct pc0 as [| | | | | | | | | | |d]; try by eexists.
      all: exfalso; destruct (handler_runs (service sys') r0 _ Hw ltac:(done)) as (i & s' & pc' & Hs);
        by eapply Hstuck, step_handler. }
    destruct pc as [| | |c| | | | | | | |]; try (by apply (Hnow _ _ _ Ht)). exfalso.
    destruct (waiting_ok _ _ Hok _ _ _ Ht) as (v & Hv & Hn). destruct v as [d|].
    + eapply Hstuck, (step_handler _ t r _ Tick); [done|]. simpl. by rewrite Hv.
    + destruct (pending_owned _ _ Hok _ _ (Hn eq_refl)) as (t0 & r0 & pc0 & Ht0 & _ & Ho).
      destruct (Hnow _ _ _ Ht0) as [d ->]; [by intros c' ->|]. done.
Qed.

(** In every reachable state the token of an active call is cancelled exactly when the
    call will be rejected at its end, the end forgets the call and its outcome, the refusal
    of a user is not overwritten by one of the policy, and the end of a deferred call may
    be asked for again with the same result. *)
Theorem calls_are_cancelled_when_refused sys id call :
  reachable sys -> find_call id (active_calls (calls (service sys))) = Some call ->
  let s := service sys in
  let (s', r) := finish_call s id in
  (cancellation_token call ∈ cancelled_tokens s <-> r <> Ok tt) /\
  find_call id (active_calls (calls s')) = None /\ call_outcomes (calls s') !! id = None /\
  (call_outcomes (calls s) !! id = Some DeniedByUser -> forall o, record_call_outcome s id o = s) /\
  (forall d s1 d1 r1, finish_deferred s d = (s1, d1, r1) -> forall s2, finish_deferred s2 d1 = (s2, d1, r1)).
Proof.
  intros Hr Hf s. pose proof (reachable_calls_ok _ Hr) as Hok. fold s in Hok, Hf.
  assert (find_call id (shift_remove id (active_calls (calls s))) = None) as Hgone.
  { unfold find_call, shift_remove. destruct (List.find _ _) as [e|] eqn:E; [|done].
    apply find_some in E as [Hin He]. apply bool_decide_eq_true in He.
    apply list_elem_of_In, list_elem_of_filter in Hin as [Hne _]. done. }
  unfold finish_call, finish_call_outcome, remove_call. simpl. split_and!.
  - apply find_call_elem in Hf; [|apply Hok]. rewrite (cancelled_iff _ Hok _ _ Hf).
    destruct (call_outcomes (calls s) !! id) as [[]|]; simpl; split; try done; by intros [? ?].
  - done.
  - by rewrite lookup_delete_eq.
  - intros Hu o. unfold record_call_outcome. rewrite Hf. by rewrite bool_decide_eq_true_2.
  - intros [did tok [out|]] s1 d1 r1; simpl.
    + by intros [= <- <- <-].
    + by intros [= <- <- <-].
Qed.

(** ** A handler that is dropped *)

(** The entry of a handler whose future was dropped: it takes no step any more. *)
Definition dropped (sys : System) (t : nat) : System :=
  mkSystem (service sys)
    (match handlers sys !! t with
     | Some (r, _) => <[t := (r, Answered (Proxy.deny REASON_NOT_ALLOWED))]> (handlers sys)
     | None => handlers sys
     end) (trace sys).
(** Nobody will decide the pending approval of [k]. *)
Definition orphaned (k : HostApprovalKey) (c : nat) (sys : System) : Prop :=
  pending_host_approvals (service sys) !! k = Some c /\ cells (service sys) !! c = Some None /\
  forall t r pc, handlers sys !! t = Some (r, pc) ->
    owner_cell pc <> Some c /\ (request_key r = k -> owner_cell pc = None).

Lemma orphaned_step k c sys sys' : orphaned k c sys -> step sys sys' -> orphaned k c sys'.
Proof.
  intros (Hp & Hc & Hh) Hs.
  destruct Hs as [y z [sys0 t r pc i s' pc' Ht Hs]|y request|y call Hn|y id|y id o|y other];
    unfold orphaned; simpl in *; try done.
  - assert (forall pc0 t0 r0, <[t := (r, pc')]> (handlers sys0) !! t0 = Some (r0, pc0) -> owner_cell pc' = owner_cell pc \/ owner_cell pc' = None ->
      owner_cell pc0 <> Some c /\ (request_key r0 = k -> owner_cell pc0 = None)) as Hkeep.
    { intros pc0 t0 r0 Ht0 Ho. destruct (lookup_replaced _ _ _ _ _ _ _ Ht Ht0) as [[-> [= -> ->]]|[_ Ht']]; [|by eapply Hh].
      destruct (Hh _ _ _ Ht) as [H1 H2]. destruct Ho as [->| ->]; [by split|by split]. }
    destruct (Hh _ _ _ Ht) as [Hne Hk].
    destruct (handler_effect _ _ _ _ _ _ Hs) as [Hp' Hc' Ho _ _| -> -> Hnone Hp' Hc'|c' d after -> -> Hp' Hc'|c' after d -> -> Hp' Hc'].
    + split_and!; [by rewrite Hp'|by rewrite Hc'|]. intros t0 r0 pc0 Ht0. by eapply Hkeep; eauto.
    + assert (request_key r <> k) as Hrk by (intros <-; congruence).
      split_and!; [by rewrite Hp', lookup_insert_ne|rewrite Hc'; by apply lookup_app_l_Some|].
      intros t0 r0 pc0 Ht0. destruct (lookup_replaced _ _ _ _ _ _ _ Ht Ht0) as [[-> [= -> ->]]|[_ Ht']]; [|by eapply Hh].
      split; [|done]. intros [= <-]. apply lookup_lt_Some in Hc. lia.
    + split_and!; [by rewrite Hp'|rewrite Hc'; apply list_lookup_insert_Some; right; split; [intros ->; by apply Hne|done]|].
      intros t0 r0 pc0 Ht0. by eapply Hkeep; eauto.
    + assert (request_key r <> k) as Hrk by (intros Heq; by specialize (Hk Heq)).
      split_and!; [by rewrite Hp', lookup_delete_ne|by rewrite Hc'|]. intros t0 r0 pc0 Ht0. by eapply Hkeep; eauto.
  - split_and!; [done..|]. intros t r pc [Ht|[_ [= -> ->]]]%lookup_request; [by eapply Hh|by split].
  - destruct (record_call_outcome_fields (service y) id o) as (-> & -> & _). done.
Qed.

(** A future that is dropped while its request is being reviewed leaves the pending
    approval behind: the host stays undecided in every later run, and each request for it
    that waits waits forever. *)
Lemma dropped_owner_blocks_its_host sys t r pc c :
  reachable sys -> handlers sys !! t = Some (r, pc) -> owner_cell pc = Some c -> cell_value pc = None ->
  forall sys', rtc step (dropped sys t) sys' ->
    pending_host_approvals (service sys') !! request_key r = Some c /\
    forall t' r', handlers sys' !! t' = Some (r', Waiting c) ->
      forall i, handler_step (service sys') r' (Waiting c) i = None.
Proof.
  intros Hr Ht Ho Hv sys' Hrun. pose proof (reachable_pending_ok _ Hr) as Hok.
  destruct (owner_pending _ _ Hok _ _ _ _ Ht Ho) as [Hp Hc]. rewrite Hv in Hc.
  assert (orphaned (request_key r) c sys') as (Hp' & Hc' & _).
  { revert sys' Hrun. refine (rtc_ind_r (orphaned (request_key r) c) (dropped sys t) _ _).
    2: { intros y z _ Hs IH. by eapply orphaned_step. }
    unfold orphaned, dropped. rewrite Ht. simpl. split_and!; [done|done|]. intros t0 r0 pc0 Ht0.
    destruct (lookup_replaced _ _ _ _ _ _ _ Ht Ht0) as [[-> [= -> ->]]|[Hne Ht']]; [by split|].
    split.
    - intros Ho0. destruct (owner_pending _ _ Hok _ _ _ _ Ht' Ho0) as [Hp0 _].
      apply Hne. exact (owner_unique _ _ Hok _ _ _ _ _ _ _ _ Ht' Ht Ho0 Ho (pending_inj _ _ Hok _ _ _ Hp0 Hp)).
    - intros Hk. destruct (owner_cell pc0) as [c0|] eqn:Ho0; [|done].
      exfalso. apply Hne. exact (owner_unique _ _ Hok _ _ _ _ _ _ _ _ Ht' Ht Ho0 Ho Hk). }
  split; [done|]. intros t' r' _ i. destruct i; simpl; try done. by rewrite Hc'.
Qed.

(** ** Instances of the properties *)

(** Runs the handlers on a list of inputs; an input that does not fit is skipped. *)
Definition play_one (sys : System) (x : nat * Input) : System :=
  let (t, i) := x in
  match handlers sys !! t with
  | Some (request, pc) =>
      match handler_step (service sys) request pc i with
      | Some (s', pc') => mkSystem s' (<[t := (request, pc')]> (handlers sys)) (trace sys ++ [Handled t request pc i])
      | None => sys
      end
  | None => sys
  end.
Definition played (sys : System) (l : list (nat * Input)) : System := fold_left play_one l sys.

Lemma played_reachable sys l : reachable sys -> reachable (played sys l).
Proof.
  revert sys; induction l as [|[t i] l IH]; intros sys Hr; [done|]. apply IH. unfold play_one.
  destruct (handlers sys !! t) as [[request pc]|] eqn:Ht; [|done].
  destruct (handler_step (service sys) request pc i) as [[s' pc']|] eqn:Hs; [|done].
  eapply rtc_r; [exact Hr|]. by apply step_handled, step_handler.
Qed.

Definition demo_request (host : str) : Proxy.NetworkPolicyRequest :=
  Proxy.mkPolicyRequest Proxy.HttpsConnect host 443%N None None None None.
Definition demo_turn : TurnContext := mkTurn $"turn" (Managed ManagedUnrestricted NetRestricted) OnRequest User.
Definition two_requests : System :=
  mkSystem service_default [(demo_request $"example.com", Start); (demo_request $"Example.com", Start)] [].
(** The second request waits for the answer to the first. *)
Definition asking : System :=
  played two_requests
    [(0, Tick); (0, Tick); (0, Tick); (1, Tick); (1, Tick); (1, Tick); (0, ActiveTurn (Some demo_turn)); (0, Tick);
     (0, HookAnswer None)].
Definition approved_run : System :=
  played asking
    [(0, Reviewed ApprovedForSession None); (0, Tick); (0, Tick); (0, Tick); (1, Tick)].
(** One step later the answer has arrived. *)
Definition asked_user : System := played asking [(0, Reviewed ApprovedForSession None)].
Definition demo_call : ActiveNetworkApprovalCall :=
  mkCall $"r1" $"turn" (mkTrigger $"c" $"shell" [] $"/w" UseDefault None None None) $"curl" 0.
Definition refused_call : System :=
  mkSystem (record_call_outcome (register_call service_default demo_call) $"r1" DeniedByUser) [] [].

Lemma two_requests_reachable : reachable two_requests.
Proof. do 2 (eapply rtc_l; [apply step_request|]). apply rtc_refl. Qed.
Lemma asking_reachable : reachable asking.
Proof. apply played_reachable, two_requests_reachable. Qed.
Lemma refused_call_reachable : reachable refused_call.
Proof.
  eapply rtc_l; [apply (step_register initial demo_call); split_and!; set_solver|].
  eapply rtc_l; [apply (step_record _ $"r1" DeniedByUser)|]. apply rtc_refl.
Qed.

Lemma requests_pass_only_when_vouched_witness :
  vouched (trace approved_run) (mkKey $"example.com" $"https" 443).
Proof.
  apply (requests_pass_only_when_vouched approved_run 1 (demo_request $"Example.com")).
  - apply played_reachable, asking_reachable.
  - vm_compute. reflexivity.
Defined.

Lemma hosts_are_decided_once_witness :
  exists t r pc, handlers asking !! t = Some (r, pc) /\ request_key r = mkKey $"example.com" $"https" 443 /\
    owner_cell pc = Some 0.
Proof.
  apply (proj1 (proj2 (hosts_are_decided_once asking asking_reachable)) 1 (demo_request $"Example.com") 0).
  - vm_compute. reflexivity.
  - vm_compute. reflexivity.
Defined.

Lemma every_request_is_answered_witness :
  nsteps handler_steps 1 asking asked_user /\ 1 <= work (handlers asking).
Proof.
  assert (nsteps handler_steps 1 asking asked_user) as Hn.
  { apply nsteps_once. apply (step_handler asking 0 (demo_request $"example.com") _ (Reviewed ApprovedForSession None)
      _ (Deciding 0 [ForgetDenied; RememberApproved] AllowForSession [])); vm_compute; reflexivity. }
  split; [exact Hn|]. exact (proj1 (every_request_is_answered asking asking_reachable) 1 asked_user Hn).
Defined.

Lemma calls_are_cancelled_when_refused_witness :
  find_call $"r1" (active_calls (calls (service refused_call))) = Some demo_call /\
  (0 ∈ cancelled_tokens (service refused_call) <-> snd (finish_call (service refused_call) $"r1") <> Ok tt).
Proof.
  split; [vm_compute; reflexivity|].
  exact (proj1 (calls_are_cancelled_when_refused refused_call $"r1" demo_call refused_call_reachable eq_refl)).
Defined.
End ApprovalRuns.
