(* ===== verification/GuardianRequests.v ===== *)
(** What the automatic reviewer is asked ([core/src/guardian/approval_request.rs]): the
    requests, the JSON of the planned action with its long strings shortened, and the
    summaries for events.  The shortening of a text is that of [guardian/prompt.rs]. *)
From S2P Require Import Prelude HeadTailBuffer Truncate Permissions PermissionProfile ExecApproval.
From S2P Require Import NetworkProxy NetworkApproval.

Module GuardianRequest.
Import Truncate Permissions Profile Approval NetApproval.

(** ** Shortened texts (prompt.rs) *)

Definition GUARDIAN_MAX_ACTION_STRING_TOKENS : N := 16000.
Definition TRUNCATION_TAG : str := $"truncated".

(** The variables of the loop over [char_indices]. *)
Record Bounds := mkBounds { prefix_end : N; suffix_start : N; suffix_started : bool }.
Definition bounds_step (prefix_bytes suffix_start_target index : N) (c : char) (b : Bounds) : Bounds :=
  let char_end := (index + Str.len_utf8 c)%N in
  if (char_end <=? prefix_bytes)%N then mkBounds char_end (suffix_start b) (suffix_started b)
  else if (suffix_start_target <=? index)%N then
    if negb (suffix_started b) then mkBounds (prefix_end b) index true else b
  else b.
Fixpoint bounds_loop (prefix_bytes suffix_start_target index : N) (content : str) (b : Bounds) : Bounds :=
  match content with
  | [] => b
  | c :: rest =>
      bounds_loop prefix_bytes suffix_start_target (index + Str.len_utf8 c) rest
        (bounds_step prefix_bytes suffix_start_target index c b)
  end.
(** [None]: a slice that is not at a character boundary. *)
Definition split_guardian_truncation_bounds (content : str) (prefix_bytes suffix_bytes : N) : option (str * str) :=
  if Str.is_empty content then Some ([], [])
  else
    let len := Str.len content in
    let suffix_start_target := HeadTail.saturating_sub len suffix_bytes in
    let b := bounds_loop prefix_bytes suffix_start_target 0 content (mkBounds 0 len false) in
    let suffix_start := if (suffix_start b <? prefix_end b)%N then prefix_end b else suffix_start b in
    '(prefix, _) ← split_at (prefix_end b) content;
    '(_, suffix) ← split_at suffix_start content;
    Some (prefix, suffix).

Definition truncation_marker (omitted_tokens : N) : str :=
  $"<" ++ TRUNCATION_TAG ++ $" omitted_approx_tokens=" ++ [dquote] ++ Str.show_N omitted_tokens ++ [dquote] ++ $" />".
Definition guardian_truncate_text (content : str) (token_cap : N) : option (str * bool) :=
  if Str.is_empty content then Some ([], false)
  else
    let max_bytes := approx_bytes_for_tokens token_cap in
    if (Str.len content <=? max_bytes)%N then Some (content, false)
    else
      let omitted_tokens := approx_tokens_from_byte_count (HeadTail.saturating_sub (Str.len content) max_bytes) in
      let marker := truncation_marker omitted_tokens in
      if (max_bytes <=? Str.len marker)%N then Some (marker, true)
      else
        let available_bytes := HeadTail.saturating_sub max_bytes (Str.len marker) in
        let prefix_budget := (available_bytes / 2)%N in
        let suffix_budget := HeadTail.saturating_sub available_bytes prefix_budget in
        '(prefix, suffix) ← split_guardian_truncation_bounds content prefix_budget suffix_budget;
        Some (prefix ++ marker ++ suffix, true).

(** ** Requests *)

Inductive Json :=
| JNull
| JBool (b : bool)
| JNumber (text : str)
| JString (text : str)
| JArray (values : list Json)
| JObject (entries : list (str * Json)).

Record RequestPermissionProfile := mkRequestProfile {
  request_network : option NetworkPermissions;
  request_file_system : option FileSystemPermissions;
}.
Inductive GuardianCommandSource := SourceShell | SourceUnifiedExec.
Record GuardianMcpAnnotations := mkAnnotations {
  destructive_hint : option bool;
  open_world_hint : option bool;
  read_only_hint : option bool;
}.

Inductive GuardianApprovalRequest :=
| GuardianShell (id : str) (command : list str) (cwd : str) (sandbox_permissions : SandboxPermissions)
    (additional_permissions : option AdditionalPermissionProfile) (justification : option str)
| GuardianExecCommand (id : str) (command : list str) (cwd : str) (sandbox_permissions : SandboxPermissions)
    (additional_permissions : option AdditionalPermissionProfile) (justification : option str) (tty : bool)
| GuardianExecve (id : str) (source : GuardianCommandSource) (program : str) (argv : list str) (cwd : str)
    (additional_permissions : option AdditionalPermissionProfile)
| GuardianApplyPatch (id cwd : str) (files : list str) (patch : str)
| GuardianNetworkAccess (id turn_id target host : str) (protocol : NetworkApprovalProtocol) (port : N)
    (trigger : option GuardianNetworkAccessTrigger)
| GuardianMcpToolCall (id server tool_name : str) (arguments : option Json)
    (connector_id connector_name connector_description tool_title tool_description : option str)
    (annotations : option GuardianMcpAnnotations)
| GuardianRequestPermissions (id turn_id : str) (reason : option str) (permissions : RequestPermissionProfile).

(** ** The JSON of the planned action *)

Definition JStrings (l : list str) : Json := JArray (JString <$> l).
(** A field skipped when it is [None]. *)
Definition optional {A} (key : str) (f : A -> Json) (value : option A) : list (str * Json) :=
  match value with Some a => [(key, f a)] | None => [] end.

Definition sandbox_permissions_json (p : SandboxPermissions) : Json :=
  JString match p with
          | UseDefault => $"use_default"
          | RequireEscalated => $"require_escalated"
          | WithAdditionalPermissions => $"with_additional_permissions"
          end.
Definition protocol_json (p : NetworkApprovalProtocol) : Json :=
  JString match p with
          | Http => $"http"
          | Https => $"https"
          | Socks5Tcp => $"socks5_tcp"
          | Socks5Udp => $"socks5_udp"
          end.
Definition annotations_json (a : GuardianMcpAnnotations) : Json :=
  JObject (optional $"destructive_hint" JBool (destructive_hint a)
           ++ optional $"open_world_hint" JBool (open_world_hint a)
           ++ optional $"read_only_hint" JBool (read_only_hint a)).
Definition guardian_command_source_tool_name (source : GuardianCommandSource) : str :=
  match source with SourceShell => $"shell" | SourceUnifiedExec => $"exec_command" end.

Section json.
(** The JSON of a permission profile, and the text of a JSON value. *)
Context (additional_json : AdditionalPermissionProfile -> Json)
        (request_profile_json : RequestPermissionProfile -> Json)
        (to_string_pretty : Json -> str).

Definition trigger_json (t : GuardianNetworkAccessTrigger) : Json :=
  JObject ([($"callId", JString (trigger_call_id t)); ($"toolName", JString (trigger_tool_name t));
            ($"command", JStrings (trigger_command t)); ($"cwd", JString (trigger_cwd t));
            ($"sandboxPermissions", sandbox_permissions_json (trigger_sandbox_permissions t))]
           ++ optional $"additionalPermissions" additional_json (trigger_additional_permissions t)
           ++ optional $"justification" JString (trigger_justification t)
           ++ optional $"tty" JBool (trigger_tty t)).

Definition serialize_command_guardian_action (tool : str) (command : list str) (cwd : str)
    (sandbox_permissions : SandboxPermissions) (additional_permissions : option AdditionalPermissionProfile)
    (justification : option str) (tty : option bool) : Json :=
  JObject ([($"tool", JString tool); ($"command", JStrings command); ($"cwd", JString cwd);
            ($"sandbox_permissions", sandbox_permissions_json sandbox_permissions)]
           ++ optional $"additional_permissions" additional_json additional_permissions
           ++ optional $"justification" JString justification
           ++ optional $"tty" JBool tty).

Definition guardian_approval_request_to_json (action : GuardianApprovalRequest) : Json :=
  match action with
  | GuardianShell _ command cwd sandbox_permissions additional_permissions justification =>
      serialize_command_guardian_action $"shell" command cwd sandbox_permissions additional_permissions
        justification None
  | GuardianExecCommand _ command cwd sandbox_permissions additional_permissions justification tty =>
      serialize_command_guardian_action $"exec_command" command cwd sandbox_permissions additional_permissions
        justification (Some tty)
  | GuardianExecve _ source program argv cwd additional_permissions =>
      JObject ([($"tool", JString (guardian_command_source_tool_name source)); ($"program", JString program);
                ($"argv", JStrings argv); ($"cwd", JString cwd)]
               ++ optional $"additional_permissions" additional_json additional_permissions)
  | GuardianApplyPatch _ cwd files patch =>
      JObject [($"tool", JString $"apply_patch"); ($"cwd", JString cwd); ($"files", JStrings files);
               ($"patch", JString patch)]
  | GuardianNetworkAccess _ _ target host protocol port trigger =>
      JObject ([($"tool", JString $"network_access"); ($"target", JString target); ($"host", JString host);
                ($"protocol", protocol_json protocol); ($"port", JNumber (Str.show_N port))]
               ++ optional $"trigger" trigger_json trigger)
  | GuardianMcpToolCall _ server tool_name arguments connector_id connector_name connector_description
      tool_title tool_description annotations =>
      JObject ([($"tool", JString $"mcp_tool_call"); ($"server", JString server);
                ($"tool_name", JString tool_name)]
               ++ optional $"arguments" (fun v => v) arguments
               ++ optional $"connector_id" JString connector_id
               ++ optional $"connector_name" JString connector_name
               ++ optional $"connector_description" JString connector_description
               ++ optional $"tool_title" JString tool_title
               ++ optional $"tool_description" JString tool_description
               ++ optional $"annotations" annotations_json annotations)
  | GuardianRequestPermissions _ turn_id reason permissions =>
      JObject ([($"tool", JString $"request_permissions"); ($"turn_id", JString turn_id)]
               ++ optional $"reason" JString reason
               ++ [($"permissions", request_profile_json permissions)])
  end.

(** Shortening leaves the keys as they are, so that sorting the entries by their keys
    afterwards gives what sorting them before gives. *)
Definition key_leb {A} (a b : str * A) : bool := str_leb a.1 b.1.
Fixpoint truncate_guardian_action_value (value : Json) : option (Json * bool) :=
  match value with
  | JString text =>
      '(text, truncated) ← guardian_truncate_text text GUARDIAN_MAX_ACTION_STRING_TOKENS;
      Some (JString text, truncated)
  | JArray values =>
      '(values, truncated) ←
        (fix go l := match l with
                     | [] => Some ([], false)
                     | v :: l' =>
                         '(v, value_truncated) ← truncate_guardian_action_value v;
                         '(vs, truncated) ← go l';
                         Some (v :: vs, value_truncated || truncated)
                     end) values;
      Some (JArray values, truncated)
  | JObject entries =>
      '(entries, truncated) ←
        (fix go l := match l with
                     | [] => Some ([], false)
                     | (key, v) :: l' =>
                         '(v, value_truncated) ← truncate_guardian_action_value v;
                         '(es, truncated) ← go l';
                         Some ((key, v) :: es, value_truncated || truncated)
                     end) entries;
      Some (JObject (sort_by key_leb entries), truncated)
  | other => Some (other, false)
  end.

Record FormattedGuardianAction := mkFormatted { action_text : str; action_truncated : bool }.
Definition format_guardian_action_pretty (action : GuardianApprovalRequest) : option FormattedGuardianAction :=
  let value := guardian_approval_request_to_json action in
  '(value, truncated) ← truncate_guardian_action_value value;
  Some (mkFormatted (to_string_pretty value) truncated).

End json.

(** ** Summaries *)

Inductive GuardianAssessmentAction :=
| ActionCommand (source : GuardianCommandSource) (command cwd : str)
| ActionExecve (source : GuardianCommandSource) (program : str) (argv : list str) (cwd : str)
| ActionApplyPatch (cwd : str) (files : list str)
| ActionNetworkAccess (target host : str) (protocol : NetworkApprovalProtocol) (port : N)
| ActionMcpToolCall (server tool_name : str) (connector_id connector_name tool_title : option str)
| ActionRequestPermissions (reason : option str) (permissions : RequestPermissionProfile).

Definition shlex_join `{Shlex} (tokens : list str) : str :=
  default $"<command included NUL byte>" (shlex_try_join tokens).
Definition command_assessment_action `{Shlex} (source : GuardianCommandSource) (command : list str) (cwd : str)
    : GuardianAssessmentAction := ActionCommand source (shlex_join command) cwd.
Definition guardian_assessment_action `{Shlex} (action : GuardianApprovalRequest) : GuardianAssessmentAction :=
  match action with
  | GuardianShell _ command cwd _ _ _ => command_assessment_action SourceShell command cwd
  | GuardianExecCommand _ command cwd _ _ _ _ => command_assessment_action SourceUnifiedExec command cwd
  | GuardianExecve _ source program argv cwd _ => ActionExecve source program argv cwd
  | GuardianApplyPatch _ cwd files _ => ActionApplyPatch cwd files
  | GuardianNetworkAccess _ _ target host protocol port _ => ActionNetworkAccess target host protocol port
  | GuardianMcpToolCall _ server tool_name _ connector_id connector_name _ tool_title _ _ =>
      ActionMcpToolCall server tool_name connector_id connector_name tool_title
  | GuardianRequestPermissions _ _ reason permissions => ActionRequestPermissions reason permissions
  end.

Inductive GuardianReviewedAction :=
| ReviewedShell (sandbox_permissions : SandboxPermissions) (additional : option AdditionalPermissionProfile)
| ReviewedUnifiedExec (sandbox_permissions : SandboxPermissions)
    (additional : option AdditionalPermissionProfile) (tty : bool)
| ReviewedExecve (source : GuardianCommandSource) (program : str) (additional : option AdditionalPermissionProfile)
| ReviewedApplyPatch
| ReviewedNetworkAccess (protocol : NetworkApprovalProtocol) (port : N)
| ReviewedMcpToolCall (server tool_name : str) (connector_id connector_name tool_title : option str)
| ReviewedRequestPermissions.
Definition guardian_reviewed_action (request : GuardianApprovalRequest) : GuardianReviewedAction :=
  match request with
  | GuardianShell _ _ _ sandbox_permissions additional _ => ReviewedShell sandbox_permissions additional
  | GuardianExecCommand _ _ _ sandbox_permissions additional _ tty =>
      ReviewedUnifiedExec sandbox_permissions additional tty
  | GuardianExecve _ source program _ _ additional => ReviewedExecve source program additional
  | GuardianApplyPatch _ _ _ _ => ReviewedApplyPatch
  | GuardianNetworkAccess _ _ _ _ protocol port _ => ReviewedNetworkAccess protocol port
  | GuardianMcpToolCall _ server tool_name _ connector_id connector_name _ tool_title _ _ =>
      ReviewedMcpToolCall server tool_name connector_id connector_name tool_title
  | GuardianRequestPermissions _ _ _ _ => ReviewedRequestPermissions
  end.

Definition guardian_request_target_item_id (request : GuardianApprovalRequest) : option str :=
  match request with
  | GuardianShell id _ _ _ _ _ | GuardianExecCommand id _ _ _ _ _ _ | GuardianApplyPatch id _ _ _
  | GuardianMcpToolCall id _ _ _ _ _ _ _ _ _ | GuardianRequestPermissions id _ _ _ => Some id
  | GuardianNetworkAccess _ _ _ _ _ _ _ => None
  | GuardianExecve id _ _ _ _ _ => Some id
  end.
Definition guardian_request_turn_id (request : GuardianApprovalRequest) (default_turn_id : str) : str :=
  match request with
  | GuardianNetworkAccess _ turn_id _ _ _ _ _ | GuardianRequestPermissions _ turn_id _ _ => turn_id
  | _ => default_turn_id
  end.

(** ** Lemmas *)

(** The loop is that of [split_string] without its counter. *)
Definition bounds_of (st : SplitState) : Bounds :=
  mkBounds (Truncate.prefix_end st) (Truncate.suffix_start st) (Truncate.suffix_started st).
Lemma bounds_loop_split B T index s st :
  bounds_loop B T index s (bounds_of st) = bounds_of (split_loop B T index s st).
Proof.
  revert index st. induction s as [|c s IH]; intros index st; [done|]. cbn [bounds_loop split_loop].
  rewrite <- IH. f_equal. unfold bounds_step, split_step. cbn [bounds_of suffix_start suffix_started prefix_end].
  destruct (_ <=? B)%N; [done|]. destruct (T <=? index)%N; [|done]. by destruct (Truncate.suffix_started st).
Qed.
Lemma split_bounds_split content B R :
  split_guardian_truncation_bounds content B R =
  (fun r : N * str * str => (r.1.2, r.2)) <$> split_string content B R.
Proof.
  unfold split_guardian_truncation_bounds, split_string. destruct (Str.is_empty content); [done|].
  change (mkBounds 0 (Str.len content) false) with (bounds_of (mkSplit 0 (Str.len content) 0 false)).
  rewrite bounds_loop_split. generalize (split_loop B (HeadTail.saturating_sub (Str.len content) R) 0 content
    (mkSplit 0 (Str.len content) 0 false)). intros st. cbn.
  destruct (split_at (Truncate.prefix_end st) content) as [[a a']|]; [|done]. cbn.
  by destruct (split_at _ content) as [[b b']|].
Qed.

(** A shortened text is within the cap, and shorter than the text. *)
Lemma truncate_text_cases content cap :
  (Str.len content <= HeadTail.usize_max)%N ->
  let max_bytes := approx_bytes_for_tokens cap in
  ((Str.len content <= max_bytes)%N -> guardian_truncate_text content cap = Some (content, false)) /\
  ((max_bytes < Str.len content)%N ->
   let marker := truncation_marker (approx_tokens_from_byte_count (Str.len content - max_bytes)) in
   ((max_bytes <= Str.len marker)%N -> guardian_truncate_text content cap = Some (marker, true)) /\
   ((Str.len marker < max_bytes)%N -> exists before mid after,
      content = before ++ mid ++ after /\ mid <> [] /\
      guardian_truncate_text content cap = Some (before ++ marker ++ after, true) /\
      (Str.len (before ++ marker ++ after) <= max_bytes)%N)).
Proof.
  intros Hmax max_bytes. destruct (decide (content = [])) as [->|Hne]; [split; [done|simpl; lia]|].
  assert (guardian_truncate_text content cap =
    if (Str.len content <=? max_bytes)%N then Some (content, false)
    else let marker := truncation_marker (approx_tokens_from_byte_count (Str.len content - max_bytes)) in
         if (max_bytes <=? Str.len marker)%N then Some (marker, true)
         else let available := (max_bytes - Str.len marker)%N in
           '(prefix, suffix) ← split_guardian_truncation_bounds content (available / 2) (available - available / 2);
           Some (prefix ++ marker ++ suffix, true)) as ->.
  { unfold guardian_truncate_text. destruct (Str.is_empty content) eqn:E; [by apply Str.is_empty_spec in E|done]. }
  split; [by intros ->%N.leb_le|]. intros Hlt marker. destruct (N.leb_spec (Str.len content) max_bytes); [lia|].
  cbn zeta. fold marker. split; [by intros ->%N.leb_le|]. intros Hm.
  destruct (N.leb_spec max_bytes (Str.len marker)); [lia|].
  set (B := ((max_bytes - Str.len marker) / 2)%N).
  destruct (split_string_spec content B (max_bytes - Str.len marker - B) Hne)
    as (before & mid & after & Es & Hsplit & Hb & Ha & _).
  assert (B <= max_bytes - Str.len marker)%N by (apply N.Div0.div_le_upper_bound; lia).
  exists before, mid, after. rewrite split_bounds_split, Hsplit.
  split_and!; [done| |done|rewrite !Str.len_app; lia].
  intros ->. rewrite Es, Str.len_app in Hlt. simpl in Hlt. lia.
Qed.

(** *** JSON values *)

Section json_induction.
Context (P : Json -> Prop).
Context (Hnull : P JNull) (Hbool : forall b, P (JBool b)) (Hnumber : forall t, P (JNumber t))
        (Hstring : forall t, P (JString t)) (Harray : forall l, Forall P l -> P (JArray l))
        (Hobject : forall l, Forall (fun e => P e.2) l -> P (JObject l)).
Fixpoint json_induction (v : Json) : P v :=
  match v with
  | JNull => Hnull
  | JBool b => Hbool b
  | JNumber t => Hnumber t
  | JString t => Hstring t
  | JArray l =>
      Harray l ((fix go l : Forall P l :=
        match l with [] => Forall_nil_2 P | v :: l' => Forall_cons_2 P v l' (json_induction v) (go l') end) l)
  | JObject l =>
      Hobject l ((fix go l : Forall (fun e => P e.2) l :=
        match l with
        | [] => Forall_nil_2 _
        | e :: l' => Forall_cons_2 (fun e => P e.2) e l' (json_induction e.2) (go l')
        end) l)
  end.
End json_induction.

(** The value with the entries of every object in the order of their keys. *)
Fixpoint sort_keys (v : Json) : Json :=
  match v with
  | JArray l => JArray (map sort_keys l)
  | JObject l => JObject (sort_by key_leb (map (fun e => (e.1, sort_keys e.2)) l))
  | v => v
  end.
(** The strings of a value. *)
Fixpoint texts (v : Json) : list str :=
  match v with
  | JString t => [t]
  | JArray l => flat_map texts l
  | JObject l => flat_map (fun e => texts e.2) l
  | _ => []
  end.
(** The value with its strings left out. *)
Fixpoint outline (v : Json) : Json :=
  match v with
  | JString _ => JString []
  | JArray l => JArray (map outline l)
  | JObject l => JObject (map (fun e => (e.1, outline e.2)) l)
  | v => v
  end.

Lemma insert_by_perm {A} (le : A -> A -> bool) x l : insert_by le x l ≡ₚ x :: l.
Proof.
  induction l as [|y l IH]; simpl; [done|]. destruct (le x y); [done|]. rewrite IH. apply perm_swap.
Qed.
Lemma sort_by_perm {A} (le : A -> A -> bool) l : sort_by le l ≡ₚ l.
Proof. induction l as [|x l IH]; simpl; [done|]. by rewrite insert_by_perm, IH. Qed.
Lemma sort_entries_map {A B} (f : A -> B) (l : list (str * A)) :
  map (fun e => (e.1, f e.2)) (sort_by key_leb l) = sort_by key_leb (map (fun e => (e.1, f e.2)) l).
Proof.
  induction l as [|x l IH]; simpl; [done|]. rewrite <- IH. generalize (sort_by key_leb l). intros s.
  induction s as [|y s IHs]; simpl; [done|]. unfold key_leb at 1 3. simpl.
  destruct (str_leb x.1 y.1); simpl; [done|]. by rewrite IHs.
Qed.

Definition MAX_ACTION_STRING_BYTES : N := approx_bytes_for_tokens GUARDIAN_MAX_ACTION_STRING_TOKENS.
Definition short (t : str) : Prop := (Str.len t <= MAX_ACTION_STRING_BYTES)%N.

(** A number below [10^k] has at most [k] digits. *)
Lemma pretty_N_go_length k n s :
  (n < 10 ^ N.of_nat k)%N -> String.length (pretty_N_go n s) <= k + String.length s.
Proof.
  revert n s. induction k as [|k IH]; intros n s Hn.
  - assert (n = 0)%N as -> by (simpl in Hn; lia). by rewrite pretty_N_go_0.
  - destruct (N.eq_0_gt_0_cases n) as [->|Hpos]; [rewrite pretty_N_go_0; lia|].
    rewrite pretty_N_go_step by done.
    assert (n `div` 10 < 10 ^ N.of_nat k)%N as Hd.
    { apply N.Div0.div_lt_upper_bound. rewrite Nat2N.inj_succ, N.pow_succ_r' in Hn. lia. }
    specialize (IH _ (String (pretty_N_char (n `mod` 10)) s) Hd). simpl in IH. lia.
Qed.
Lemma len_le_length s : (Str.len s <= 4 * N.of_nat (length s))%N.
Proof.
  induction s as [|c s IH]; [done|]. pose proof (Str.len_utf8_bounds c).
  assert (Str.len (c :: s) = Str.len_utf8 c + Str.len s)%N as -> by done. rewrite length_cons. lia.
Qed.
Lemma show_N_short n : (n <= HeadTail.usize_max)%N -> (Str.len (Str.show_N n) <= 80)%N.
Proof.
  intros Hn. pose proof (len_le_length (Str.show_N n)) as Hl.
  assert (length (Str.show_N n) <= 20); [|lia]. unfold Str.show_N, lit. rewrite length_map.
  assert (forall s, length (String.list_ascii_of_string s) = String.length s) as ->
    by (induction s as [|? ? IH]; simpl; congruence).
  unfold pretty, pretty_N. destruct (decide _); [simpl; lia|].
  pose proof (pretty_N_go_length 20 n EmptyString) as H. simpl String.length in H.
  rewrite Nat.add_0_r in H. apply H. eapply N.le_lt_trans; [exact Hn|]. vm_compute. reflexivity.
Qed.

Lemma marker_short bytes : (Str.len (truncation_marker (approx_tokens_from_byte_count bytes)) <= 118)%N.
Proof.
  assert (approx_tokens_from_byte_count bytes <= HeadTail.usize_max)%N as Hn.
  { unfold approx_tokens_from_byte_count, HeadTail.saturating_add, APPROX_BYTES_PER_TOKEN.
    apply N.Div0.div_le_upper_bound. lia. }
  apply show_N_short in Hn. unfold truncation_marker. rewrite !Str.len_app.
  change (Str.len [dquote]) with 1%N. change (Str.len ($"<")) with 1%N. change (Str.len TRUNCATION_TAG) with 9%N.
  change (Str.len ($" omitted_approx_tokens=")) with 23%N. change (Str.len ($" />")) with 3%N. lia.
Qed.

Lemma action_text_cases t :
  (Str.len t <= HeadTail.usize_max)%N ->
  exists t' b, guardian_truncate_text t GUARDIAN_MAX_ACTION_STRING_TOKENS = Some (t', b) /\ short t' /\
    (b = false <-> short t) /\ (b = false -> t' = t).
Proof.
  intros Hmax. destruct (truncate_text_cases t GUARDIAN_MAX_ACTION_STRING_TOKENS Hmax) as [Hs Hl].
  unfold short. fold MAX_ACTION_STRING_BYTES in *.
  destruct (N.le_gt_cases (Str.len t) MAX_ACTION_STRING_BYTES) as [Hle|Hgt].
  - exists t, false. rewrite Hs by done. done.
  - destruct (Hl Hgt) as [_ H]. destruct H as (before & mid & after & _ & _ & -> & Hb).
    + pose proof (marker_short (Str.len t - MAX_ACTION_STRING_BYTES)) as Hm.
      assert (MAX_ACTION_STRING_BYTES = 64000)%N as Em by done. lia.
    + eexists _, true. split; [done|]. split; [done|]. split; [|done]. split; [done|]. lia.
Qed.

(** The two recursive calls of the function, by name. *)
Fixpoint truncate_values (l : list Json) : option (list Json * bool) :=
  match l with
  | [] => Some ([], false)
  | v :: l' =>
      '(v, value_truncated) ← truncate_guardian_action_value v;
      '(vs, truncated) ← truncate_values l';
      Some (v :: vs, value_truncated || truncated)
  end.
Fixpoint truncate_entries (l : list (str * Json)) : option (list (str * Json) * bool) :=
  match l with
  | [] => Some ([], false)
  | (key, v) :: l' =>
      '(v, value_truncated) ← truncate_guardian_action_value v;
      '(es, truncated) ← truncate_entries l';
      Some ((key, v) :: es, value_truncated || truncated)
  end.
Lemma truncate_array l :
  truncate_guardian_action_value (JArray l) = '(vs, b) ← truncate_values l; Some (JArray vs, b).
Proof. done. Qed.
Lemma truncate_object l :
  truncate_guardian_action_value (JObject l) =
  '(es, b) ← truncate_entries l; Some (JObject (sort_by key_leb es), b).
Proof. done. Qed.

(** What shortening gives for a value: it succeeds, every string is within the cap, the
    mark tells whether a string was not, an unmarked value is complete, and everything
    but the strings is kept. *)
Definition shown (v : Json) (r : option (Json * bool)) : Prop :=
  exists v' b, r = Some (v', b) /\ Forall short (texts v') /\ (b = false <-> Forall short (texts v)) /\
    (b = false -> v' = sort_keys v) /\ outline v' = outline (sort_keys v).

Lemma values_shown l :
  Forall (fun v => Forall (fun t => Str.len t <= HeadTail.usize_max)%N (texts v) ->
                   shown v (truncate_guardian_action_value v)) l ->
  Forall (fun t => Str.len t <= HeadTail.usize_max)%N (flat_map texts l) ->
  exists vs b, truncate_values l = Some (vs, b) /\ Forall short (flat_map texts vs) /\
    (b = false <-> Forall short (flat_map texts l)) /\ (b = false -> vs = map sort_keys l) /\
    map outline vs = map outline (map sort_keys l).
Proof.
  induction 1 as [|v l Hv _ IH]; intros Ht; [by exists [], false|]. simpl in Ht.
  apply Forall_app in Ht as [Ht1 Ht2]. destruct (Hv Ht1) as (v' & b & E & Hs & Hb & Hc & Ho).
  destruct (IH Ht2) as (vs & b' & E' & Hs' & Hb' & Hc' & Ho'). exists (v' :: vs), (b || b'). simpl.
  rewrite E. cbn. rewrite E'. cbn. rewrite !Forall_app, orb_false_iff, Hb, Hb', Ho, Ho'.
  split_and!; try done. intros [H1 H2]. by rewrite Hc, Hc' by naive_solver.
Qed.
Lemma entries_shown l :
  Forall (fun e => Forall (fun t => Str.len t <= HeadTail.usize_max)%N (texts e.2) ->
                   shown e.2 (truncate_guardian_action_value e.2)) l ->
  Forall (fun t => Str.len t <= HeadTail.usize_max)%N (flat_map (fun e => texts e.2) l) ->
  exists es b, truncate_entries l = Some (es, b) /\ Forall short (flat_map (fun e => texts e.2) es) /\
    (b = false <-> Forall short (flat_map (fun e => texts e.2) l)) /\
    (b = false -> es = map (fun e => (e.1, sort_keys e.2)) l) /\
    map (fun e => (e.1, outline e.2)) es =
    map (fun e => (e.1, outline e.2)) (map (fun e => (e.1, sort_keys e.2)) l).
Proof.
  induction 1 as [|[k v] l Hv _ IH]; intros Ht; [by exists [], false|]. simpl in Ht.
  apply Forall_app in Ht as [Ht1 Ht2]. destruct (Hv Ht1) as (v' & b & E & Hs & Hb & Hc & Ho).
  destruct (IH Ht2) as (es & b' & E' & Hs' & Hb' & Hc' & Ho'). exists ((k, v') :: es), (b || b').
  simpl in *. rewrite E. cbn. rewrite E'. cbn. rewrite !Forall_app, orb_false_iff, Hb, Hb', Ho, Ho'.
  split_and!; try done. intros [H1 H2]. by rewrite Hc, Hc' by naive_solver.
Qed.

Lemma value_shown v :
  Forall (fun t => Str.len t <= HeadTail.usize_max)%N (texts v) -> shown v (truncate_guardian_action_value v).
Proof.
  induction v as [|b|t|t|l IH|l IH] using json_induction; intros Ht.
  1-3: eexists _, false; split_and!; try done; split; constructor.
  - simpl in Ht. inversion Ht as [|? ? Hl]; subst.
    destruct (action_text_cases t Hl) as (t' & b & E & Hs & Hb & Hc). exists (JString t'), b. simpl.
    rewrite E, !Forall_singleton. split_and!; try done. by intros ->%Hc.
  - destruct (values_shown l IH Ht) as (vs & b & E & Hs & Hb & Hc & Ho). exists (JArray vs), b.
    rewrite truncate_array, E. simpl. rewrite Ho. split_and!; try done. by intros ->%Hc.
  - destruct (entries_shown l IH Ht) as (es & b & E & Hs & Hb & Hc & Ho).
    exists (JObject (sort_by key_leb es)), b. rewrite truncate_object, E. simpl.
    rewrite !sort_entries_map, Ho. split_and!; [done| |done| |done].
    + by rewrite (flat_map_perm _ _ _ (sort_by_perm key_leb es)).
    + by intros ->%Hc.
Qed.

(** ** Properties *)

(** the planned action is shown to the automatic reviewer completely or marked as
    shortened: formatting it always succeeds; the mark is set exactly when a string of
    the action is longer than the cap; without the mark the text is that of the action's
    own JSON, with the entries of objects in the order of their keys; with it every
    string is cut down to the cap and everything else is still there. *)
Theorem actions_are_shown_or_marked additional_json request_profile_json to_string_pretty action :
  let value := guardian_approval_request_to_json additional_json request_profile_json action in
  Forall (fun t => Str.len t <= HeadTail.usize_max)%N (texts value) ->
  exists shown_value marked,
    format_guardian_action_pretty additional_json request_profile_json to_string_pretty action =
      Some (mkFormatted (to_string_pretty shown_value) marked) /\
    (marked = false <-> Forall short (texts value)) /\
    (marked = false -> shown_value = sort_keys value) /\
    Forall short (texts shown_value) /\ outline shown_value = outline (sort_keys value).
Proof.
  intros value Ht. destruct (value_shown value Ht) as (v' & b & E & Hs & Hb & Hc & Ho).
  exists v', b. unfold format_guardian_action_pretty. fold value. by rewrite E.
Qed.

(** ** Instances of the properties *)

Definition demo_text (v : Json) : str := Str.join $"," (texts v).
Lemma actions_are_shown_or_marked_witness :
  format_guardian_action_pretty (fun _ => JNull) (fun _ => JNull) demo_text
    (GuardianApplyPatch $"c" $"/w" [$"/w/b"; $"/w/a"] $"p") =
  Some (mkFormatted $"/w,/w/b,/w/a,p,apply_patch" false).
Proof.
  destruct (actions_are_shown_or_marked (fun _ => JNull) (fun _ => JNull) demo_text
    (GuardianApplyPatch $"c" $"/w" [$"/w/b"; $"/w/a"] $"p")) as (v & b & -> & Hb & Hc & _).
  - repeat constructor; vm_compute; discriminate.
  - assert (b = false) as -> by (apply Hb; repeat constructor; vm_compute; discriminate).
    rewrite Hc by done. vm_compute. reflexivity.
Defined.

End GuardianRequest.
