(* ===== verification/GuardianSelection.v ===== *)
(** What the prompt of the automatic reviewer shows of the transcript: the budgets hold,
    the first and the last words of the user are always shown, all of them when they fit,
    and of the rest the newest entries are taken. *)
From S2P Require Import Prelude HeadTailBuffer Truncate GuardianRequests GuardianPrompt.

Module Selection.
Import Truncate GuardianRequest GuardianPrompt.

(** ** Sums over the included entries *)

(** The sum of [f] over the positions of a mask that are set, counted from [i]. *)
Fixpoint weight (f : nat -> N) (i : nat) (mask : list bool) : N :=
  match mask with
  | [] => 0
  | b :: rest => (if b then f i else 0) + weight f (S i) rest
  end.

Lemma weight_insert f i j mask :
  mask !! j = Some false -> weight f i (<[j := true]> mask) = (weight f i mask + f (i + j)%nat)%N.
Proof.
  revert i j. induction mask as [|b mask IH]; intros i [|j] Hj; simplify_eq/=; [rewrite Nat.add_0_r; lia|].
  rewrite IH by done. rewrite Nat.add_succ_comm. lia.
Qed.
(** Sums agree when they do at every position; a smaller mask has a smaller sum. *)
Lemma weight_le f g i mask mask' :
  length mask = length mask' ->
  (forall k, default false (mask !! k) = true -> default false (mask' !! k) = true /\ f (i + k)%nat <= g (i + k)%nat \/
     f (i + k)%nat = 0)%N ->
  (weight f i mask <= weight g i mask')%N.
Proof.
  revert i mask'. induction mask as [|b mask IH]; intros i [|b' mask'] Hl H; simplify_eq/=; [done|].
  assert (weight f (S i) mask <= weight g (S i) mask')%N as Hr.
  { apply IH; [lia|]. intros k Hk. specialize (H (S k) Hk). by rewrite !Nat.add_succ_comm. }
  destruct b; [|lia]. destruct (H 0 eq_refl) as [[Hb Hf]|Hf]; simplify_eq/=; rewrite Nat.add_0_r in *; lia.
Qed.
Lemma weight_same f g i mask mask' :
  length mask = length mask' ->
  (forall k, (if default false (mask !! k) then f (i + k)%nat else 0) =
     (if default false (mask' !! k) then g (i + k)%nat else 0))%N ->
  weight f i mask = weight g i mask'.
Proof.
  revert i mask'. induction mask as [|b mask IH]; intros i [|b' mask'] Hl H; simplify_eq/=; [done|].
  rewrite (IH (S i) mask'); [|lia|]; last first.
  { intros k. specialize (H (S k)). by rewrite !Nat.add_succ_comm. }
  specialize (H 0). simpl in H. rewrite Nat.add_0_r in H. by rewrite H.
Qed.
Lemma weight_none f i n : weight f i (replicate n false) = 0%N.
Proof. revert i. induction n as [|n IH]; intros i; simpl; [done|]. by rewrite IH. Qed.

Section selection.
Context (entries : list GuardianTranscriptEntry) (tokens : list N).
Hypothesis Htokens : length tokens = length entries.
Hypothesis Husers : forall i, is_user (kind_at entries i) = true -> (2 * tokens_at tokens i <= 10000)%N.

Definition user_at (i : nat) : bool := is_user (kind_at entries i).
Definition tool_at (i : nat) : bool := is_tool (kind_at entries i).
Definition message_cost (i : nat) : N := if tool_at i then 0 else tokens_at tokens i.
Definition tool_cost (i : nat) : N := if tool_at i then tokens_at tokens i else 0.
Definition non_user_cost (i : nat) : N := if user_at i then 0 else 1.
Definition all_users : list bool := (fun e => is_user (entry_kind e)) <$> entries.

(** ** The invariant of the selection *)

Record consistent (s : Selection) : Prop := {
  mask_length : length (included s) = length entries;
  message_sum : message_tokens s = weight message_cost 0 (included s);
  tool_sum : tool_tokens s = weight tool_cost 0 (included s);
  non_user_count : N.of_nat (retained_non_user_entries s) = weight non_user_cost 0 (included s);
  message_bound : (message_tokens s <= GUARDIAN_MAX_MESSAGE_TRANSCRIPT_TOKENS)%N;
  tool_bound : (tool_tokens s <= GUARDIAN_MAX_TOOL_TRANSCRIPT_TOKENS)%N;
  retained_bound : retained_non_user_entries s <= GUARDIAN_RECENT_ENTRY_LIMIT;
}.
Definition grows (s s' : Selection) : Prop := forall k, included_at s k = true -> included_at s' k = true.
Definition users_only (s : Selection) : Prop := forall k, included_at s k = true -> user_at k = true.

Lemma user_not_tool i : user_at i = true -> tool_at i = false.
Proof. unfold user_at, tool_at. by destruct (kind_at entries i). Qed.
Lemma included_insert mask j k :
  default false (<[j := true]> mask !! k) = true <->
  default false (mask !! k) = true \/ (j = k /\ j < length mask).
Proof.
  destruct (decide (j = k)) as [->|Hne].
  - destruct (decide (k < length mask)) as [Hk|Hk].
    + rewrite list_lookup_insert_eq by done. naive_solver.
    + rewrite list_insert_ge by lia. split; [auto|]. naive_solver lia.
  - rewrite list_lookup_insert_ne by done. naive_solver.
Qed.
Lemma not_included s j :
  consistent s -> j < length entries -> included_at s j = false -> included s !! j = Some false.
Proof.
  intros Hc Hj Hi. unfold included_at in Hi. rewrite <- (mask_length s Hc) in Hj.
  apply lookup_lt_is_Some in Hj as [b Hb]. rewrite Hb in *. by simplify_eq/=.
Qed.

Lemma include_message_consistent s j :
  consistent s -> j < length entries -> included_at s j = false -> user_at j = true ->
  (message_tokens s + tokens_at tokens j <= GUARDIAN_MAX_MESSAGE_TRANSCRIPT_TOKENS)%N ->
  consistent (include_message tokens s j).
Proof.
  intros Hc Hj Hi Hu Hf. pose proof (not_included s j Hc Hj Hi) as Hn. pose proof (user_not_tool j Hu) as Ht.
  destruct Hc. constructor; simpl; try done; [by rewrite length_insert|..]; rewrite weight_insert by done; simpl.
  - unfold message_cost at 2. rewrite Ht. lia.
  - unfold tool_cost at 2. rewrite Ht. lia.
  - unfold non_user_cost at 2. rewrite Hu. lia.
Qed.
Lemma include_message_included s j k :
  consistent s -> j < length entries ->
  included_at (include_message tokens s j) k = true <-> included_at s k = true \/ j = k.
Proof.
  intros Hc Hj. unfold included_at. simpl. rewrite included_insert, (mask_length s Hc). naive_solver.
Qed.

(** What a step of the first part does. *)
Lemma select_user_step s j :
  consistent s -> users_only s -> j < length entries -> user_at j = true ->
  let s' := select_user tokens s j in
  consistent s' /\ users_only s' /\ grows s s' /\
  ((message_tokens s + tokens_at tokens j <= GUARDIAN_MAX_MESSAGE_TRANSCRIPT_TOKENS)%N -> included_at s' j = true).
Proof.
  intros Hc Hu Hj Huj s'. subst s'. unfold select_user, fits_message, grows.
  destruct (included_at s j) eqn:Hi; [by split_and!|].
  destruct (N.leb_spec (message_tokens s + tokens_at tokens j) GUARDIAN_MAX_MESSAGE_TRANSCRIPT_TOKENS);
    [|split_and!; try done; intros; exfalso; lia].
  split_and!; [by apply include_message_consistent| | |intros _; apply include_message_included; auto].
  - intros k [Hk| ->]%include_message_included; auto.
  - intros k Hk. apply include_message_included; auto.
Qed.

Lemma user_indices_from_spec i k l :
  i ∈ user_indices_from k l <-> exists j e, i = k + j /\ l !! j = Some e /\ is_user (entry_kind e) = true.
Proof.
  revert k. induction l as [|e l IH]; intros k; simpl; [split; [by intros ?%not_elem_of_nil|naive_solver]|].
  rewrite elem_of_app, IH. split.
  - intros [Hi|(j & e' & -> & Hj)]; [|exists (S j), e'; split; [lia|done]].
    destruct (is_user (entry_kind e)) eqn:Hu; [|by apply not_elem_of_nil in Hi].
    apply list_elem_of_singleton in Hi as ->. exists 0, e. split; [lia|done].
  - intros ([|j] & e' & -> & Hj & Hu); simplify_eq/=.
    + rewrite Hu, Nat.add_0_r. left. by apply list_elem_of_singleton.
    + right. exists j, e'. split; [lia|done].
Qed.
Lemma user_indices_spec i : i ∈ user_indices entries <-> i < length entries /\ user_at i = true.
Proof.
  unfold user_indices, user_at, kind_at. rewrite user_indices_from_spec. split.
  - intros (j & e & -> & Hj & Hu). simpl. rewrite Hj. split; [by eapply lookup_lt_Some|done].
  - intros [[e He]%lookup_lt_is_Some Hu]. rewrite He in Hu. by exists i, e.
Qed.

Lemma elem_of_rev_list {A} (x : A) l : x ∈ rev l <-> x ∈ l.
Proof. by rewrite !list_elem_of_In, <- in_rev. Qed.

(** The message tokens of included users are at most those of all users. *)
Lemma users_sum_le mask :
  length mask = length entries -> (forall k, default false (mask !! k) = true -> user_at k = true) ->
  (weight message_cost 0 mask <= weight message_cost 0 all_users)%N.
Proof.
  intros Hl Hu. apply weight_le; [unfold all_users; by rewrite length_fmap|]. intros k Hk. left. split; [|done].
  specialize (Hu k Hk). unfold all_users, user_at, kind_at in *. rewrite list_lookup_fmap.
  destruct (entries !! k) as [e|] eqn:E; [done|].
  apply lookup_ge_None in E. rewrite lookup_ge_None_2 in Hk by lia. done.
Qed.
Lemma user_fits s j :
  consistent s -> users_only s -> j < length entries -> user_at j = true -> included_at s j = false ->
  (weight message_cost 0 all_users <= GUARDIAN_MAX_MESSAGE_TRANSCRIPT_TOKENS)%N ->
  (message_tokens s + tokens_at tokens j <= GUARDIAN_MAX_MESSAGE_TRANSCRIPT_TOKENS)%N.
Proof.
  intros Hc Hu Hj Huj Hi Hall. etransitivity; [|exact Hall]. pose proof (not_included s j Hc Hj Hi) as Hn.
  etransitivity; [|apply (users_sum_le (<[j := true]> (included s)))].
  - rewrite weight_insert by done. rewrite (message_sum s Hc). unfold message_cost at 3. simpl.
    rewrite (user_not_tool j Huj). lia.
  - rewrite length_insert. apply Hc.
  - intros k [Hk|[<- _]]%included_insert; [by apply Hu|done].
Qed.

Lemma select_users_fold l s :
  consistent s -> users_only s -> (forall j, j ∈ l -> j < length entries /\ user_at j = true) ->
  let s' := fold_left (select_user tokens) l s in
  consistent s' /\ users_only s' /\ grows s s' /\
  ((weight message_cost 0 all_users <= GUARDIAN_MAX_MESSAGE_TRANSCRIPT_TOKENS)%N ->
   forall j, j ∈ l -> included_at s' j = true).
Proof.
  revert s. induction l as [|j l IH]; intros s Hc Hu Hl; simpl.
  { split_and!; try done; [by intros k|]. by intros _ j ?%not_elem_of_nil. }
  destruct (Hl j ltac:(left)) as [Hj Huj].
  destruct (select_user_step s j Hc Hu Hj Huj) as (Hc1 & Hu1 & Hg1 & Hf1).
  destruct (IH _ Hc1 Hu1) as (Hc' & Hu' & Hg' & Hf'); [intros; apply Hl; by right|].
  split_and!; try done; [intros k Hk; by apply Hg', Hg1|].
  intros Hall k [->|Hk]%elem_of_cons; [|by apply Hf']. apply Hg'.
  destruct (included_at s j) eqn:Hi; [by apply Hg1|]. by apply Hf1, user_fits.
Qed.

Definition nothing_selected : Selection := mkSelection (replicate (length entries) false) 0 0 0.
Lemma nothing_included k : included_at nothing_selected k = false.
Proof.
  unfold included_at, nothing_selected. simpl.
  destruct (decide (k < length entries)); [by rewrite lookup_replicate_2|].
  by rewrite lookup_ge_None_2 by (rewrite length_replicate; lia).
Qed.
Lemma nothing_consistent : consistent nothing_selected.
Proof.
  constructor; simpl; rewrite ?weight_none; try done; [apply length_replicate|unfold GUARDIAN_RECENT_ENTRY_LIMIT; lia].
Qed.

(** The first part as a whole: the first and the last user entry are in, all of them if
    they fit, and nothing else is. *)
Definition users_selected : Selection :=
  fold_left (select_user tokens) (rev (user_indices entries))
    (select_last entries tokens (select_first entries tokens nothing_selected)).
Lemma users_selected_spec :
  consistent users_selected /\ users_only users_selected /\
  (forall i, head (user_indices entries) = Some i \/ last (user_indices entries) = Some i ->
     included_at users_selected i = true) /\
  ((weight message_cost 0 all_users <= GUARDIAN_MAX_MESSAGE_TRANSCRIPT_TOKENS)%N ->
   forall j, j < length entries -> user_at j = true -> included_at users_selected j = true).
Proof.
  pose proof nothing_consistent as H0.
  assert (users_only nothing_selected) as Hu0 by (intros k Hk; by rewrite nothing_included in Hk).
  assert (forall j, j ∈ user_indices entries -> j < length entries /\ user_at j = true) as Hin
    by (intros j; apply user_indices_spec).
  unfold users_selected, select_last, select_first. destruct (user_indices entries) as [|f rest] eqn:Ei.
  { simpl. split_and!; [done..|naive_solver|]. intros _ j Hj Hu.
    assert (j ∈ user_indices entries) as Hjn by by apply user_indices_spec.
    rewrite Ei in Hjn. by apply not_elem_of_nil in Hjn. }
  destruct (Hin f ltac:(left)) as [Hf Huf]. pose proof (Husers f Huf) as Htf.
  assert (exists l, last (f :: rest) = Some l) as [l El].
  { destruct (last (f :: rest)) as [l|] eqn:El; [by exists l|]. by apply last_None in El. }
  rewrite El. assert (l ∈ f :: rest) as Hl.
  { apply last_Some in El as [r ->]. apply elem_of_app. right. by apply list_elem_of_singleton. }
  destruct (Hin l Hl) as [Hln Hul]. pose proof (Husers l Hul) as Htl.
  set (s1 := include_message tokens nothing_selected f).
  assert (message_tokens s1 = tokens_at tokens f) as Em1 by (simpl; lia).
  assert (consistent s1) as Hc1.
  { apply include_message_consistent; try done; [apply nothing_included|]. simpl.
    unfold GUARDIAN_MAX_MESSAGE_TRANSCRIPT_TOKENS. lia. }
  assert (users_only s1) as Hu1.
  { intros k [Hk| <-]%include_message_included; [by rewrite nothing_included in Hk|done..]. }
  destruct (select_user_step s1 l Hc1 Hu1 Hln Hul) as (Hc2 & Hu2 & Hg2 & Hf2).
  destruct (select_users_fold (rev (f :: rest)) _ Hc2 Hu2) as (Hc & Hu & Hg & Hall).
  { intros j Hj. apply Hin. by apply elem_of_rev_list. }
  split_and!; try done.
  - intros i [[= <-]|[= <-]]; apply Hg.
    + apply Hg2, include_message_included; auto.
    + apply Hf2. rewrite Em1. unfold GUARDIAN_MAX_MESSAGE_TRANSCRIPT_TOKENS. lia.
  - intros Hfit j Hj Huj. apply Hall; [done|]. rewrite <- Ei. by apply elem_of_rev_list, user_indices_spec.
Qed.

(** ** The second part: from the newest entry to the oldest *)

(** The costs of the users and of what comes after position [i]. *)
Definition newer (i : nat) (cost : nat -> N) (k : nat) : N := if user_at k || (i <? k) then cost k else 0.
(** What makes the entry at [i] one of those kept, given what is kept after it. *)
Definition has_room (mask : list bool) (i : nat) : bool :=
  (weight (newer i non_user_cost) 0 mask <? N.of_nat GUARDIAN_RECENT_ENTRY_LIMIT)%N &&
  if tool_at i
  then (weight (newer i tool_cost) 0 mask + tokens_at tokens i <=? GUARDIAN_MAX_TOOL_TRANSCRIPT_TOKENS)%N
  else (weight (newer i message_cost) 0 mask + tokens_at tokens i <=? GUARDIAN_MAX_MESSAGE_TRANSCRIPT_TOKENS)%N.
(** Nothing but users is included up to position [m]. *)
Definition below_open (m : nat) (s : Selection) : Prop :=
  forall k, k < m -> user_at k = false -> included_at s k = false.

Lemma newer_sum s mask i cost :
  length mask = length (included s) -> below_open (S i) s -> 
  (forall k, user_at k = true \/ i < k -> default false (mask !! k) = included_at s k) ->
  weight (newer i cost) 0 mask = weight cost 0 (included s).
Proof.
  intros Hl Hb Hs. apply weight_same; [done|]. intros k. simpl. unfold newer. fold (included_at s k).
  destruct (user_at k) eqn:Hu; [rewrite Hs by auto; done|]. simpl. destruct (Nat.ltb_spec i k) as [Hk|Hk].
  - rewrite Hs by auto. done.
  - rewrite (Hb k) by (lia || done). by destruct (default false (mask !! k)).
Qed.

(** One step of the second part. *)
Lemma select_non_user_step s i :
  consistent s -> i < length entries -> below_open (S i) s -> user_at i = false ->
  let s' := select_non_user entries tokens s i in
  consistent s' /\ included_at s' i = has_room (included s) i /\
  (forall k, k <> i -> included_at s' k = included_at s k).
Proof.
  intros Hc Hi Hb Hu s'. subst s'. pose proof (Hb i ltac:(lia) Hu) as Hin.
  pose proof (not_included s i Hc Hi Hin) as Hn.
  assert (forall cost, weight (newer i cost) 0 (included s) = weight cost 0 (included s)) as Hw
    by (intros; by apply newer_sum).
  unfold has_room. rewrite !Hw, <- (non_user_count s Hc), <- (tool_sum s Hc), <- (message_sum s Hc).
  unfold select_non_user, fits_tool, fits_message. fold (user_at i) (tool_at i). rewrite Hu, orb_false_l.
  destruct (Nat.leb_spec GUARDIAN_RECENT_ENTRY_LIMIT (retained_non_user_entries s)) as [Hr|Hr].
  { rewrite (proj2 (N.ltb_ge _ _)) by lia. done. }
  rewrite (proj2 (N.ltb_lt _ _)) by lia. rewrite andb_true_l.
  match goal with |- context [negb ?b] => destruct b eqn:Hf end; cbn [negb]; [|done].
  split_and!.
  - destruct Hc. constructor; simpl; [by rewrite length_insert|..]; rewrite ?weight_insert by done; simpl;
      unfold message_cost, tool_cost, non_user_cost in *; rewrite ?Hu; destruct (tool_at i) eqn:Ht;
      try (apply N.leb_le in Hf); lia || done.
  - unfold included_at. simpl. rewrite list_lookup_insert_eq; [done|]. by rewrite (mask_length s Hc).
  - intros k Hk. unfold included_at. simpl. by rewrite list_lookup_insert_ne.
Qed.

Lemma select_non_users_fold m s :
  consistent s -> m <= length entries -> below_open m s ->
  let s' := fold_left (select_non_user entries tokens) (rev (seq 0 m)) s in
  consistent s' /\ (forall k, user_at k = true \/ m <= k -> included_at s' k = included_at s k) /\
  (forall i, i < m -> user_at i = false -> included_at s' i = has_room (included s') i).
Proof.
  revert s. induction m as [|m IH]; intros s Hc Hm Hb; [simpl; split_and!; [done..|lia]|].
  rewrite seq_S, rev_app_distr. simpl.
  destruct (user_at m) eqn:Hu.
  - assert (select_non_user entries tokens s m = s) as ->.
    { unfold select_non_user. fold (user_at m). by rewrite Hu. }
    destruct (IH s Hc ltac:(lia)) as (Hc' & Hs & Hr); [intros k Hk; apply Hb; lia|].
    split_and!; [done|intros k [Hk|Hk]; apply Hs; auto with lia|].
    intros i Hi Hui. destruct (decide (i = m)) as [->|]; [congruence|]. apply Hr; [lia|done].
  - destruct (select_non_user_step s m Hc ltac:(lia) Hb Hu) as (Hc1 & Hm1 & Hs1).
    set (s1 := select_non_user entries tokens s m) in *.
    destruct (IH s1 Hc1 ltac:(lia)) as (Hc' & Hs & Hr).
    { intros k Hk Hku. rewrite Hs1 by lia. apply Hb; [lia|done]. }
    set (s' := fold_left _ _ s1) in *. split_and!; [done| |].
    { intros k Hk. rewrite Hs by naive_solver lia. apply Hs1. intros ->. destruct Hk; [congruence|lia]. }
    intros i Hi Hui. destruct (decide (i = m)) as [->|]; [|apply Hr; [lia|done]].
    rewrite Hs by (right; lia). rewrite Hm1. unfold has_room.
    assert (forall cost, weight (newer m cost) 0 (included s') = weight (newer m cost) 0 (included s)) as Hw.
    { intros cost. rewrite (newer_sum s (included s')), (newer_sum s (included s)); try done.
      - by rewrite (mask_length s Hc), (mask_length s' Hc').
      - intros k Hk. fold (included_at s' k). rewrite Hs by naive_solver lia. apply Hs1.
        intros ->. destruct Hk; [congruence|lia]. }
    by rewrite !Hw.
Qed.

(** The selection as a whole. *)
Lemma select_spec :
  let s := select entries tokens in
  consistent s /\
  (forall i, head (user_indices entries) = Some i \/ last (user_indices entries) = Some i ->
     included_at s i = true) /\
  ((weight message_cost 0 all_users <= GUARDIAN_MAX_MESSAGE_TRANSCRIPT_TOKENS)%N ->
   forall j, j < length entries -> user_at j = true -> included_at s j = true) /\
  (forall i, i < length entries -> user_at i = false -> included_at s i = has_room (included s) i).
Proof.
  destruct users_selected_spec as (Hc & Hu & Hfl & Hall).
  destruct (select_non_users_fold (length entries) users_selected Hc) as (Hc' & Hs & Hr); [done| |].
  { intros k _ Hk. destruct (included_at users_selected k) eqn:E; [|done]. by rewrite Hu in Hk. }
  change (select entries tokens) with
    (fold_left (select_non_user entries tokens) (rev (seq 0 (length entries))) users_selected).
  split_and!; [done| | |done].
  - intros i Hi. rewrite Hs; [by apply Hfl|]. left. by apply Hu, Hfl.
  - intros Hfit j Hj Huj. rewrite Hs by auto. by apply Hall.
Qed.

End selection.

(** ** Rendering *)

Lemma truncate_bound text cap :
  (Str.len text <= HeadTail.usize_max)%N -> (200 <= approx_bytes_for_tokens cap)%N ->
  exists t b, guardian_truncate_text text cap = Some (t, b) /\ (Str.len t <= approx_bytes_for_tokens cap)%N.
Proof.
  intros Hmax Hcap. destruct (truncate_text_cases text cap Hmax) as [Hs Hl].
  destruct (N.le_gt_cases (Str.len text) (approx_bytes_for_tokens cap)) as [Hle|Hgt].
  - exists text, false. by rewrite Hs.
  - destruct (Hl Hgt) as [_ H]. destruct H as (before & mid & after & _ & _ & -> & Hb); [|by eexists _, _].
    pose proof (marker_short (Str.len text - approx_bytes_for_tokens cap)) as Hm. lia.
Qed.

Definition fitting (e : GuardianTranscriptEntry) : Prop := (Str.len (entry_text e) <= HeadTail.usize_max)%N.

Lemma render_entry_total number e :
  fitting e -> (N.of_nat number <= HeadTail.usize_max)%N ->
  exists r t, render_entry number e = Some (r, t) /\
    (is_user (entry_kind e) = true -> (2 * t <= GUARDIAN_MAX_MESSAGE_TRANSCRIPT_TOKENS)%N).
Proof.
  intros Hf Hn. unfold render_entry.
  destruct (truncate_bound (entry_text e) (token_cap (entry_kind e)) Hf) as (text & b & -> & Hb).
  { unfold token_cap. destruct (is_tool _); vm_compute; discriminate. }
  eexists _, _. split; [done|]. intros Hu. destruct (entry_kind e) eqn:Ek; try done.
  change (approx_bytes_for_tokens (token_cap KindUser)) with 8000%N in Hb.
  unfold approx_token_count, HeadTail.saturating_add, APPROX_BYTES_PER_TOKEN. rewrite !Str.len_app.
  pose proof (show_N_short (N.of_nat number) Hn) as Hs. fold (Str.show_nat number) in Hs.
  change (Str.len ($"[")) with 1%N. change (Str.len ($"] ")) with 2%N. change (Str.len ($": ")) with 2%N.
  change (Str.len (role KindUser)) with 4%N. unfold GUARDIAN_MAX_MESSAGE_TRANSCRIPT_TOKENS.
  change (HeadTail.saturating_sub 4 1) with 3%N.
  match goal with |- context [(?a `div` 4)%N] => pose proof (N.Div0.mul_div_le a 4) end. lia.
Qed.

Lemma render_from_total number l :
  Forall fitting l -> (N.of_nat (number + length l) <= HeadTail.usize_max)%N ->
  exists rendered, render_from number l = Some rendered /\ length rendered = length l /\
    (forall i e, l !! i = Some e -> exists r, rendered !! i = Some r /\ render_entry (number + i) e = Some r /\
       (is_user (entry_kind e) = true -> (2 * r.2 <= GUARDIAN_MAX_MESSAGE_TRANSCRIPT_TOKENS)%N)).
Proof.
  intros Hl. revert number. induction Hl as [|e l He _ IH]; intros number Hn; simpl.
  { by exists []. }
  simpl in Hn. destruct (render_entry_total number e He ltac:(lia)) as (r & t & Er & Hu). rewrite Er. cbn.
  destruct (IH (S number) ltac:(lia)) as (rs & -> & Hlen & Hat). exists ((r, t) :: rs). cbn.
  split_and!; [done|lia|]. intros [|i] e' Hi; simplify_eq/=.
  - exists (r, t). split; [done|]. by rewrite Nat.add_0_r.
  - destruct (Hat i e' Hi) as (r' & Hr & He' & Hu'). exists r'. rewrite <- Nat.add_succ_comm. done.
Qed.


(** ** Properties *)

Lemma keep_omits mask : existsb negb mask = true <-> exists i, mask !! i = Some false.
Proof.
  rewrite existsb_exists. split.
  - intros (b & Hb & Hn). destruct b; [done|]. apply list_elem_of_In in Hb.
    by apply list_elem_of_lookup in Hb.
  - intros [i Hi]. exists false. split; [|done]. apply list_elem_of_In. by eapply list_elem_of_lookup_2.
Qed.

(** A rendering without the note shows every entry, with its number. *)
Lemma render_from_lookup number l rs :
  render_from number l = Some rs ->
  length rs = length l /\ forall i e, l !! i = Some e -> exists r, rs !! i = Some r /\ render_entry (number + i) e = Some r.
Proof.
  revert number rs. induction l as [|e l IH]; intros number rs Hr; simpl in Hr; [injection Hr as <-; by split|].
  destruct (render_entry number e) as [r|] eqn:He; [|done]. simpl in Hr.
  destruct (render_from (S number) l) as [rs'|] eqn:Hl; [|done]. injection Hr as <-. destruct (IH _ _ Hl) as [Hlen Hat].
  split; [by simpl; rewrite Hlen|]. intros [|i] e' Hi; simplify_eq/=.
  - exists r. by rewrite Nat.add_0_r.
  - destruct (Hat i e' Hi) as (r' & Hr' & He'). exists r'. by rewrite <- Nat.add_succ_comm.
Qed.
Lemma fold_mask {A} (f : GuardianPrompt.Selection -> A -> GuardianPrompt.Selection) l s :
  (forall s x, length (included (f s x)) = length (included s)) -> length (included (fold_left f l s)) = length (included s).
Proof. intros Hf. revert s. induction l as [|x l IH]; intros s; simpl; [done|]. by rewrite IH, Hf. Qed.
Lemma select_length entries tokens : length (included (select entries tokens)) = length entries.
Proof.
  assert (forall s x, length (included (select_user tokens s x)) = length (included s)) as Hu.
  { intros s x. unfold select_user, include_message. repeat case_match; simpl; by rewrite ?length_insert. }
  unfold select. rewrite fold_mask.
  - rewrite fold_mask by done. unfold select_last, select_first, include_message.
    repeat case_match; rewrite ?Hu; simpl; by rewrite ?length_insert, ?length_replicate.
  - intros s x. unfold select_non_user. cbv zeta. repeat case_match; simpl; by rewrite ?length_insert.
Qed.
Lemma keep_everything {A} mask (l : list A) : existsb negb mask = false -> length mask = length l -> keep mask l = l.
Proof.
  revert l. induction mask as [|b mask IH]; intros [|x l] Hm Hl; simplify_eq/=; [done|].
  apply orb_false_iff in Hm as [Hb Hm]. destruct b; [|done]. simpl. by rewrite IH.
Qed.
Lemma nothing_left_out entries offset placeholder lines i e :
  render_guardian_transcript_entries_with_offset entries offset placeholder = Some (lines, None) -> entries !! i = Some e ->
  exists line tokens, render_entry (offset + 1 + i) e = Some (line, tokens) /\ lines !! i = Some line.
Proof.
  unfold render_guardian_transcript_entries_with_offset. intros Hr He. destruct entries as [|e0 entries]; [done|].
  destruct (render_from (offset + 1) (e0 :: entries)) as [rs|] eqn:Hf; [|done]. cbn [mbind option_bind] in Hr.
  destruct (render_from_lookup _ _ _ Hf) as [Hlen Hat]. destruct (existsb negb _) eqn:Hn; [done|].
  rewrite keep_everything in Hr by (done || by rewrite select_length, length_fmap). injection Hr as <-.
  destruct (Hat i e He) as ([line tokens] & Hl & Hre). exists line, tokens. split; [done|].
  by rewrite list_lookup_fmap, Hl.
Qed.

(** C10: what the reviewer sees of the transcript.  Rendering succeeds and gives the
    numbered entries of a mask, with a note exactly when an entry is left out; messages
    and tool evidence stay within their budgets and at most forty entries are not the
    user's; the first and the last words of the user are always shown, and all of them
    when they fit; any other entry is shown exactly when, after the entries that are newer
    and the words of the user, there is still room for it. *)
Theorem the_reviewer_sees_the_user entries offset placeholder :
  entries <> [] -> Forall fitting entries ->
  (N.of_nat (offset + 1 + length entries) <= HeadTail.usize_max)%N ->
  exists rendered mask note,
    render_guardian_transcript_entries_with_offset entries offset placeholder =
      Some (keep mask rendered.*1, note) /\
    (forall i e, entries !! i = Some e -> render_entry (offset + 1 + i) e = rendered !! i) /\
    length mask = length entries /\ (is_Some note <-> exists i, mask !! i = Some false) /\
    let tokens := rendered.*2 in
    (weight (message_cost entries tokens) 0 mask <= GUARDIAN_MAX_MESSAGE_TRANSCRIPT_TOKENS)%N /\
    (weight (tool_cost entries tokens) 0 mask <= GUARDIAN_MAX_TOOL_TRANSCRIPT_TOKENS)%N /\
    (weight (non_user_cost entries) 0 mask <= N.of_nat GUARDIAN_RECENT_ENTRY_LIMIT)%N /\
    (forall i, head (user_indices entries) = Some i \/ last (user_indices entries) = Some i -> mask !! i = Some true) /\
    ((weight (message_cost entries tokens) 0 (all_users entries) <= GUARDIAN_MAX_MESSAGE_TRANSCRIPT_TOKENS)%N ->
     forall i e, entries !! i = Some e -> is_user (entry_kind e) = true -> mask !! i = Some true) /\
    (forall i e, entries !! i = Some e -> is_user (entry_kind e) = false ->
       mask !! i = Some (has_room entries tokens mask i)).
Proof.
  intros Hne Hfit Hn. destruct (render_from_total (offset + 1) entries Hfit Hn) as (rendered & Er & Hlen & Hat).
  set (tokens := rendered.*2).
  assert (forall i, is_user (kind_at entries i) = true -> (2 * tokens_at tokens i <= 10000)%N) as Husers.
  { intros i. unfold kind_at, tokens_at, tokens. destruct (entries !! i) as [e|] eqn:E; [|done]. simpl. intros Hu.
    destruct (Hat i e E) as (r & Hr & _ & Hb). rewrite list_lookup_fmap, Hr. simpl. by apply Hb. }
  assert (length tokens = length entries) as Hlt by (unfold tokens; by rewrite length_fmap).
  destruct (select_spec entries tokens Hlt Husers) as (Hc & Hfl & Hall & Hroom).
  set (s := select entries tokens) in *. pose proof (mask_length entries tokens s Hc) as Hml.
  assert (forall i b, i < length entries -> included_at s i = b -> included s !! i = Some b) as Hget.
  { intros i b Hi Hb. unfold included_at in Hb. rewrite <- Hml in Hi.
    apply lookup_lt_is_Some in Hi as [b' Hb']. rewrite Hb' in *. by simplify_eq/=. }
  assert (forall i e, entries !! i = Some e -> user_at entries i = is_user (entry_kind e)) as Hua.
  { intros i e He. unfold user_at, kind_at. by rewrite He. }
  exists rendered, (included s), (if existsb negb (included s) then Some $"Some conversation entries were omitted." else None).
  cbv zeta. fold tokens. split_and!.
  - unfold render_guardian_transcript_entries_with_offset. destruct entries; [done|]. by rewrite Er.
  - intros i e He. by destruct (Hat i e He) as (r & -> & Hr & _).
  - done.
  - rewrite <- keep_omits. destruct (existsb negb (included s)); split; try done; by intros [? [=]].
  - rewrite <- (message_sum _ _ s Hc). apply Hc.
  - rewrite <- (tool_sum _ _ s Hc). apply Hc.
  - rewrite <- (non_user_count _ _ s Hc). pose proof (retained_bound _ _ s Hc). lia.
  - intros i Hi. apply Hget; [|by apply Hfl]. apply (user_indices_spec entries tokens Hlt i).
    destruct Hi as [Hi|Hi]; [by apply head_Some_elem_of|by apply last_Some_elem_of].
  - intros Hw i e He Hu. pose proof (lookup_lt_Some _ _ _ He). apply Hget; [done|]. apply Hall; [done..|].
    by rewrite (Hua i e He).
  - intros i e He Hu. pose proof (lookup_lt_Some _ _ _ He). apply Hget; [done|]. apply Hroom; [done|].
    by rewrite (Hua i e He).
Qed.

(** ** Instances of the properties *)

Definition demo_entries : list GuardianTranscriptEntry :=
  [mkEntry KindUser $"run"; mkEntry (KindTool $"tool shell call") $"ls"; mkEntry KindAssistant $"done"].
Lemma the_reviewer_sees_the_user_witness :
  render_guardian_transcript_entries_with_offset demo_entries 4 $"none" =
    Some ([$"[5] user: run"; $"[6] tool shell call: ls"; $"[7] assistant: done"], None) /\
  exists (rendered : list (str * N)) mask note,
    render_guardian_transcript_entries_with_offset demo_entries 4 $"none" = Some (keep mask rendered.*1, note) /\
    mask !! 0 = Some true.
Proof.
  split; [vm_compute; reflexivity|].
  destruct (the_reviewer_sees_the_user demo_entries 4 $"none")
    as (rendered & mask & note & E & _ & _ & _ & _ & _ & _ & Hfirst & _).
  - done.
  - repeat constructor; vm_compute; discriminate.
  - vm_compute. discriminate.
  - exists rendered, mask, note. split; [exact E|]. apply Hfirst. left. vm_compute. reflexivity.
Defined.

End Selection.
