(* ===== verification/GuardianReview.v ===== *)
(** The automatic reviewer ([core/src/guardian/mod.rs], [review.rs]): the circuit breaker
    that interrupts a turn after too many refusals, and the review of one request, which
    fails closed.  Other reviews of the session run at the same time; what they do to the
    shared services while this one waits for its review session is part of the answer of
    the world. *)
From S2P Require Import Prelude HeadTailBuffer Truncate ContextHistory PermissionProfile ExecApproval.
From S2P Require Import NetworkProxy NetworkApproval GuardianRequests GuardianPrompt.
From stdpp Require Import gmap.

Module Guardian.
Import Approval NetApproval GuardianRequest GuardianPrompt.

(** ** The circuit breaker (mod.rs) *)

Definition u32_max : N := 4294967295.
Definition MAX_CONSECUTIVE_GUARDIAN_DENIALS_PER_TURN : N := 3.
Definition MAX_RECENT_AUTO_REVIEW_DENIALS_PER_TURN : N := 10.
Definition AUTO_REVIEW_DENIAL_WINDOW_SIZE : nat := 50.

Record GuardianRejectionCircuitBreakerTurn := mkBreakerTurn {
  consecutive_denials : N;
  recent_denials : list bool;
  interrupt_triggered : bool;
}.
Definition breaker_turn_default : GuardianRejectionCircuitBreakerTurn := mkBreakerTurn 0 [] false.
Abbreviation GuardianRejectionCircuitBreaker := (gmap str GuardianRejectionCircuitBreakerTurn) (only parsing).
Inductive GuardianRejectionCircuitBreakerAction :=
| Continue
| InterruptTurn (consecutive_denials recent_denials : N).

Definition clear_turn (b : GuardianRejectionCircuitBreaker) (turn_id : str) : GuardianRejectionCircuitBreaker :=
  delete turn_id b.
Definition turn_entry (b : GuardianRejectionCircuitBreaker) (turn_id : str) : GuardianRejectionCircuitBreakerTurn :=
  default breaker_turn_default (b !! turn_id).
(** [VecDeque::push_back], and [pop_front] over the window. *)
Definition record_recent_review (recent : list bool) (denied : bool) : list bool :=
  let recent := recent ++ [denied] in
  if AUTO_REVIEW_DENIAL_WINDOW_SIZE <? length recent then tail recent else recent.
Definition count_denied (recent : list bool) : N := N.of_nat (length (List.filter (fun denied => denied) recent)).

Definition record_denial (b : GuardianRejectionCircuitBreaker) (turn_id : str)
    : GuardianRejectionCircuitBreaker * GuardianRejectionCircuitBreakerAction :=
  let turn := turn_entry b turn_id in
  let consecutive := N.min (consecutive_denials turn + 1) u32_max in
  let recent := record_recent_review (recent_denials turn) true in
  let recent_count := count_denied recent in
  if negb (interrupt_triggered turn)
     && ((MAX_CONSECUTIVE_GUARDIAN_DENIALS_PER_TURN <=? consecutive)%N
         || (MAX_RECENT_AUTO_REVIEW_DENIALS_PER_TURN <=? recent_count)%N)
  then (<[turn_id := mkBreakerTurn consecutive recent true]> b, InterruptTurn consecutive recent_count)
  else (<[turn_id := mkBreakerTurn consecutive recent (interrupt_triggered turn)]> b, Continue).
Definition record_non_denial (b : GuardianRejectionCircuitBreaker) (turn_id : str)
    : GuardianRejectionCircuitBreaker :=
  let turn := turn_entry b turn_id in
  <[turn_id := mkBreakerTurn 0 (record_recent_review (recent_denials turn) false) (interrupt_triggered turn)]> b.

(** ** Data of a review (review.rs) *)

Definition GUARDIAN_REVIEWER_NAME : str := $"guardian".
Inductive GuardianReviewError :=
| PromptBuild (message : str)
| SessionError (message : str)
| Parse (message : str)
| Timeout
| Cancelled.
Inductive GuardianReviewOutcome := Completed (assessment : GuardianAssessment) | ReviewFailed (error : GuardianReviewError).
Inductive GuardianReviewSessionOutcome :=
| SessionCompleted (last_agent_message : result str (option str))
| PromptBuildFailed (err : str)
| SessionFailed (err : str)
| SessionTimedOut
| SessionAborted.

Inductive GuardianReviewDecision := ReviewApproved | ReviewDenied | ReviewAborted.
Inductive GuardianReviewTerminalStatus := StatusApproved | StatusDenied | StatusAborted | StatusTimedOut | StatusFailedClosed.
Inductive GuardianReviewFailureReason := ReasonTimeout | ReasonCancelled | PromptBuildError | SessionErrorReason | ParseError.
Inductive GuardianReviewSessionKind := TrunkNew | TrunkReused | EphemeralForked.
Inductive GuardianApprovalRequestSource := MainTurn | DelegatedSubagent.
Record GuardianReviewAnalyticsResult := mkAnalytics {
  analytics_decision : GuardianReviewDecision;
  analytics_terminal_status : GuardianReviewTerminalStatus;
  analytics_failure_reason : option GuardianReviewFailureReason;
  analytics_risk_level : option GuardianRiskLevel;
  analytics_user_authorization : option GuardianUserAuthorization;
  analytics_outcome : option GuardianAssessmentOutcome;
  guardian_thread_id : option str;
  guardian_session_kind : option GuardianReviewSessionKind;
  guardian_model : option str;
  guardian_reasoning_effort : option str;
  had_prior_review_context : option bool;
  analytics_action_truncated : bool;
  token_usage : option History.TokenUsage;
  time_to_first_token_ms : option N;
}.
Definition without_session : GuardianReviewAnalyticsResult :=
  mkAnalytics ReviewDenied StatusFailedClosed None None None None None None None None None false None None.
(** The struct update of the code: the first six fields. *)
Definition concluded (r : GuardianReviewAnalyticsResult) (decision : GuardianReviewDecision)
    (status : GuardianReviewTerminalStatus) (reason : option GuardianReviewFailureReason)
    (assessment : option GuardianAssessment) : GuardianReviewAnalyticsResult :=
  let field {A} (f : GuardianAssessment -> A) (old : option A) : option A :=
    match assessment with Some a => Some (f a) | None => old end in
  mkAnalytics decision status reason (field risk_level (analytics_risk_level r))
    (field user_authorization (analytics_user_authorization r)) (field outcome (analytics_outcome r))
    (guardian_thread_id r) (guardian_session_kind r) (guardian_model r) (guardian_reasoning_effort r)
    (had_prior_review_context r) (analytics_action_truncated r) (token_usage r) (time_to_first_token_ms r).

Definition failure_reason (e : GuardianReviewError) : GuardianReviewFailureReason :=
  match e with
  | PromptBuild _ => PromptBuildError
  | SessionError _ => SessionErrorReason
  | Parse _ => ParseError
  | Timeout => ReasonTimeout
  | Cancelled => ReasonCancelled
  end.
Definition guardian_risk_level_str (level : GuardianRiskLevel) : str :=
  match level with
  | RiskLow => $"low"
  | RiskMedium => $"medium"
  | RiskHigh => $"high"
  | RiskCritical => $"critical"
  end.
Definition user_authorization_str (a : GuardianUserAuthorization) : str :=
  match a with AuthUnknown => $"unknown" | AuthLow => $"low" | AuthMedium => $"medium" | AuthHigh => $"high" end.

Definition routes_approval_to_guardian_with_reviewer (turn : TurnContext) (approvals_reviewer : ApprovalsReviewer)
    : bool :=
  match turn_approval_policy turn with
  | OnRequest | Granular _ => bool_decide (approvals_reviewer = AutoReview)
  | _ => false
  end.
(** The label of a subagent that is neither a review, a compaction, a spawned thread nor
    a memory task. *)
Definition is_guardian_reviewer_source (other_subagent_label : option str) : bool :=
  bool_decide (other_subagent_label = Some GUARDIAN_REVIEWER_NAME).

Inductive GuardianAssessmentStatus := InProgress | AssessedApproved | AssessedDenied | AssessedTimedOut | AssessedAborted.
Inductive GuardianAssessmentDecisionSource := Agent.
Record GuardianAssessmentEvent := mkAssessmentEvent {
  event_id : str;
  event_target_item_id : option str;
  event_turn_id : str;
  event_started_at_ms : Z;
  event_completed_at_ms : option Z;
  event_status : GuardianAssessmentStatus;
  event_risk_level : option GuardianRiskLevel;
  event_user_authorization : option GuardianUserAuthorization;
  event_rationale : option str;
  event_decision_source : option GuardianAssessmentDecisionSource;
  event_action : GuardianAssessmentAction;
}.
Record GuardianRejection := mkRejection { rejection_rationale : str; rejection_source : GuardianAssessmentDecisionSource }.

(** ** One review *)

(** What the reviews of a session share. *)
Record ReviewServices := mkServices {
  circuit_breaker : GuardianRejectionCircuitBreaker;
  guardian_rejections : gmap str GuardianRejection;
}.
(** What a review does to the outside, in order. *)
Inductive Emitted :=
| SentAssessment (event : GuardianAssessmentEvent)
| SentWarning (message : str)
| Tracked (source : GuardianApprovalRequestSource) (action : GuardianReviewedAction)
    (result : GuardianReviewAnalyticsResult) (completed_at_ms : N)
| SpawnedAbort (turn_id : str).

Inductive ReasoningEffort := EffortNone | EffortMinimal | EffortLow | EffortMedium | EffortHigh | EffortXHigh.
#[global] Instance effort_eq_dec : EqDecision ReasoningEffort.
Proof. solve_decision. Defined.
Record ModelPreset := mkPreset {
  preset_model : str;
  supported_reasoning_efforts : list ReasoningEffort;
  default_reasoning_effort : ReasoningEffort;
}.
(** The parts of the turn's model information and settings that a review reads. *)
Record ReviewTurn := mkReviewTurn {
  review_turn : TurnContext;
  auto_review_model_override : option str;
  approval_review_preferred_model : str;
  model_slug : str;
  supported_reasoning_levels : list ReasoningEffort;
  turn_reasoning_effort : option ReasoningEffort;
  default_reasoning_level : option ReasoningEffort;
}.

(** The world of a review: the clock, cancellation tokens, the turns that are active, the
    settings of the network proxy, the models, and the review sessions.  While a session
    runs, other reviews may change what is shared. *)
Class ReviewWorld (W NetworkConfig Config : Type) := {
  now_unix_timestamp_ms : W -> W * Z;
  token_is_cancelled : nat -> W -> bool;
  turn_context_for_sub_id : str -> W -> bool;
  current_network_config : W -> W * option (result str NetworkConfig);
  list_models : W -> W * list ModelPreset;
  build_guardian_review_session_config : ReviewTurn -> option NetworkConfig -> str -> option ReasoningEffort ->
    result str Config;
  run_review : Config -> GuardianApprovalRequest -> option str -> str -> option ReasoningEffort -> option nat ->
    W * ReviewServices -> (W * ReviewServices) * (GuardianReviewSessionOutcome * GuardianReviewAnalyticsResult);
}.

Section review.
Context {W NetworkConfig Config : Type} `{HW : ReviewWorld W NetworkConfig Config} `{Shlex}.
Variable from_str : str -> result str GuardianAssessmentPayload.

Definition St : Type := (W * ReviewServices) * list Emitted.
Definition Op (A : Type) : Type := St -> St * A.
Definition return_ {A} (x : A) : Op A := fun st => (st, x).
Definition andThen {A B} (m : Op A) (f : A -> Op B) : Op B := fun st => let (st, x) := m st in f x st.
Local Notation "x <-- m ;; k" := (andThen m (fun x => k)) (at level 100, m at next level, right associativity).
Local Notation "m ;;; k" := (andThen m (fun _ => k)) (at level 100, right associativity).
Definition ask {A} (f : W -> W * A) : Op A := fun st =>
  let (w, x) := f (fst (fst st)) in (((w, snd (fst st)), snd st), x).
Definition look {A} (f : W -> A) : Op A := fun st => (st, f (fst (fst st))).
Definition with_services {A} (f : ReviewServices -> ReviewServices * A) : Op A := fun st =>
  let (s, x) := f (snd (fst st)) in (((fst (fst st), s), snd st), x).
Definition await {A} (f : W * ReviewServices -> (W * ReviewServices) * A) : Op A := fun st =>
  let (ws, x) := f (fst st) in ((ws, snd st), x).
Definition emit (e : Emitted) : Op unit := fun st => ((fst st, snd st ++ [e]), tt).

Definition record_guardian_non_denial (turn_id : str) : Op unit :=
  with_services (fun s =>
    (mkServices (record_non_denial (circuit_breaker s) turn_id) (guardian_rejections s), tt)).
Definition too_many_rejections (consecutive recent : N) : str :=
  $"Automatic approval review rejected too many approval requests for this turn (" ++ Str.show_N consecutive
  ++ $" consecutive, " ++ Str.show_N recent ++ $" in the last " ++ Str.show_nat AUTO_REVIEW_DENIAL_WINDOW_SIZE
  ++ $" reviews); interrupting the turn.".
Definition record_guardian_denial (turn_id : str) : Op unit :=
  action <-- with_services (fun s =>
    let (b, action) := record_denial (circuit_breaker s) turn_id in
    (mkServices b (guardian_rejections s), action)) ;;
  match action with
  | Continue => return_ tt
  | InterruptTurn consecutive recent =>
      active <-- look (turn_context_for_sub_id turn_id) ;;
      if negb active then return_ tt
      else emit (SentWarning (too_many_rejections consecutive recent)) ;;; emit (SpawnedAbort turn_id)
  end.

(** [guardian_rejection_message]: takes the recorded rejection of a review. *)
Definition take_rejection_message (review_id : str) : Op str :=
  rejection <-- with_services (fun s =>
    (mkServices (circuit_breaker s) (delete review_id (guardian_rejections s)),
     guardian_rejections s !! review_id)) ;;
  return_ (guardian_rejection_message (rejection_rationale <$> rejection)).

(** The model and the effort of the reviewer. *)
Definition preferred_reasoning_effort (supports_low : bool) (fallback : option ReasoningEffort)
    : option ReasoningEffort := if supports_low then Some EffortLow else fallback.
Definition supports_low (efforts : list ReasoningEffort) : bool := bool_decide (EffortLow ∈ efforts).
Definition guardian_model_of (turn : ReviewTurn) (available_models : list ModelPreset)
    : str * option ReasoningEffort :=
  let review_model_id := default (approval_review_preferred_model turn) (auto_review_model_override turn) in
  match List.find (fun preset => bool_decide (preset_model preset = review_model_id)) available_models with
  | Some preset =>
      (review_model_id,
       preferred_reasoning_effort (supports_low (supported_reasoning_efforts preset))
         (Some (default_reasoning_effort preset)))
  | None =>
      (default (model_slug turn) (auto_review_model_override turn),
       preferred_reasoning_effort (supports_low (supported_reasoning_levels turn))
         match turn_reasoning_effort turn with Some e => Some e | None => default_reasoning_level turn end)
  end.

Definition outcome_of_session (o : GuardianReviewSessionOutcome) : GuardianReviewOutcome :=
  match o with
  | SessionCompleted (Ok (Some last_agent_message)) =>
      match parse_guardian_assessment from_str (Some last_agent_message) with
      | Ok assessment => Completed assessment
      | Err err => ReviewFailed (Parse err)
      end
  | SessionCompleted (Ok None) =>
      ReviewFailed (SessionError $"guardian review completed without an assessment payload")
  | SessionCompleted (Err err) => ReviewFailed (SessionError err)
  | PromptBuildFailed err => ReviewFailed (PromptBuild err)
  | SessionFailed err => ReviewFailed (SessionError err)
  | SessionTimedOut => ReviewFailed Timeout
  | SessionAborted => ReviewFailed Cancelled
  end.

Definition run_guardian_review_session (turn : ReviewTurn) (request : GuardianApprovalRequest)
    (retry_reason : option str) (external_cancel : option nat)
    : Op (GuardianReviewOutcome * GuardianReviewAnalyticsResult) :=
  network <-- ask current_network_config ;;
  match network with
  | Some (Err err) => return_ (ReviewFailed (PromptBuild err), without_session)
  | _ =>
      let live_network_config := match network with Some (Ok config) => Some config | _ => None end in
      available_models <-- ask list_models ;;
      let (guardian_model, effort) := guardian_model_of turn available_models in
      match build_guardian_review_session_config turn live_network_config guardian_model effort with
      | Err err => return_ (ReviewFailed (PromptBuild err), without_session)
      | Ok guardian_config =>
          r <-- await (run_review guardian_config request retry_reason guardian_model effort external_cancel) ;;
          return_ (outcome_of_session (fst r), snd r)
      end
  end.

Definition u64_of_i64 (z : Z) : N := Z.to_N z.
Definition timed_out_rationale : str :=
  $"Automatic approval review timed out while evaluating the requested approval.".
Definition review_failed_rationale (message : str) : str := $"Automatic approval review failed: " ++ message.
Definition review_warning (a : GuardianAssessment) : str :=
  $"Automatic approval review " ++ match outcome a with Allow => $"approved" | Deny => $"denied" end
  ++ $" (risk: " ++ guardian_risk_level_str (risk_level a) ++ $", authorization: "
  ++ user_authorization_str (user_authorization a) ++ $"): " ++ rationale a.

(** The end of a review: the warning, the rejection kept for its message, the last event,
    and the circuit breaker. *)
Definition conclude (review_id turn_id : str) (event : Z -> GuardianAssessmentStatus -> option GuardianAssessment -> option str ->
    GuardianAssessmentEvent) (completed_at_ms : Z) (assessment : GuardianAssessment) (count_denial : bool)
    : Op ReviewDecision :=
  let approved := bool_decide (outcome assessment = Allow) in
  emit (SentWarning (review_warning assessment)) ;;;
  with_services (fun s =>
    (mkServices (circuit_breaker s)
       (if approved then delete review_id (guardian_rejections s)
        else <[review_id := mkRejection (rationale assessment) Agent]> (guardian_rejections s)), tt)) ;;;
  emit (SentAssessment (event completed_at_ms (if approved then AssessedApproved else AssessedDenied)
                          (Some assessment) (Some (rationale assessment)))) ;;;
  (if count_denial then record_guardian_denial turn_id else record_guardian_non_denial turn_id) ;;;
  return_ (if approved then Approved else Denied).

Definition run_guardian_review (turn : ReviewTurn) (review_id : str) (request : GuardianApprovalRequest)
    (retry_reason : option str) (approval_request_source : GuardianApprovalRequestSource)
    (external_cancel : option nat) : Op ReviewDecision :=
  let target_item_id := guardian_request_target_item_id request in
  let assessment_turn_id := guardian_request_turn_id request (turn_sub_id (review_turn turn)) in
  let action_summary := guardian_assessment_action request in
  started_at_ms <-- ask now_unix_timestamp_ms ;;
  let event completed status assessment rationale :=
    mkAssessmentEvent review_id target_item_id assessment_turn_id started_at_ms (Some completed) status
      (risk_level <$> assessment) (user_authorization <$> assessment) rationale (Some Agent) action_summary in
  emit (SentAssessment
          (mkAssessmentEvent review_id target_item_id assessment_turn_id started_at_ms None InProgress None None
             None None action_summary)) ;;;
  cancelled <-- look (fun w => from_option (fun token => token_is_cancelled token w) false external_cancel) ;;
  if cancelled then
    completed_at_ms <-- ask now_unix_timestamp_ms ;;
    emit (Tracked approval_request_source (guardian_reviewed_action request)
            (concluded without_session ReviewAborted StatusAborted (Some ReasonCancelled) None)
            (u64_of_i64 completed_at_ms)) ;;;
    emit (SentAssessment (event completed_at_ms AssessedAborted None None)) ;;;
    record_guardian_non_denial assessment_turn_id ;;;
    return_ Abort
  else
    r <-- run_guardian_review_session turn request retry_reason external_cancel ;;
    let (outcome_, analytics_result) := (r : GuardianReviewOutcome * GuardianReviewAnalyticsResult) in
    completed_at_ms <-- ask now_unix_timestamp_ms ;;
    let track decision status reason assessment :=
      emit (Tracked approval_request_source (guardian_reviewed_action request)
              (concluded analytics_result decision status reason assessment) (u64_of_i64 completed_at_ms)) in
    match outcome_ with
    | Completed assessment =>
        let approved := bool_decide (outcome assessment = Allow) in
        track (if approved then ReviewApproved else ReviewDenied)
          (if approved then StatusApproved else StatusDenied) None (Some assessment) ;;;
        conclude review_id assessment_turn_id event completed_at_ms assessment
          (bool_decide (outcome assessment = Deny))
    | ReviewFailed Timeout =>
        track ReviewDenied StatusTimedOut (Some (failure_reason Timeout)) None ;;;
        emit (SentWarning timed_out_rationale) ;;;
        emit (SentAssessment (event completed_at_ms AssessedTimedOut None (Some timed_out_rationale))) ;;;
        record_guardian_non_denial assessment_turn_id ;;;
        return_ TimedOut
    | ReviewFailed Cancelled =>
        track ReviewAborted StatusAborted (Some (failure_reason Cancelled)) None ;;;
        emit (SentAssessment (event completed_at_ms AssessedAborted None None)) ;;;
        record_guardian_non_denial assessment_turn_id ;;;
        return_ Abort
    | ReviewFailed (PromptBuild message as error)
    | ReviewFailed (SessionError message as error)
    | ReviewFailed (Parse message as error) =>
        track ReviewDenied StatusFailedClosed (Some (failure_reason error)) None ;;;
        conclude review_id assessment_turn_id event completed_at_ms
          (mkAssessment RiskHigh AuthUnknown Deny (review_failed_rationale message)) false
    end.

(** The public entry points. *)
Definition review_approval_request (turn : ReviewTurn) (review_id : str) (request : GuardianApprovalRequest)
    (retry_reason : option str) : Op ReviewDecision :=
  run_guardian_review turn review_id request retry_reason MainTurn None.
Definition review_approval_request_with_cancel (turn : ReviewTurn) (review_id : str)
    (request : GuardianApprovalRequest) (retry_reason : option str)
    (approval_request_source : GuardianApprovalRequestSource) (cancel_token : nat) : Op ReviewDecision :=
  run_guardian_review turn review_id request retry_reason approval_request_source (Some cancel_token).
(** In a thread of its own; [runtime] tells whether its runtime could be built. *)
Definition spawn_approval_request_review (runtime : bool) (turn : ReviewTurn) (review_id : str)
    (request : GuardianApprovalRequest) (retry_reason : option str)
    (approval_request_source : GuardianApprovalRequestSource) (cancel_token : nat) : Op ReviewDecision :=
  if negb runtime then return_ Denied
  else review_approval_request_with_cancel turn review_id request retry_reason approval_request_source cancel_token.

End review.


(** ** The circuit breaker against the reviews it has seen *)

(** The reviews of a turn since it was cleared, the newest last; [true] is a refusal. *)
Inductive BreakerOp := OpDenial (turn_id : str) | OpNonDenial (turn_id : str) | OpClear (turn_id : str).
Definition apply_op (b : GuardianRejectionCircuitBreaker) (o : BreakerOp) : GuardianRejectionCircuitBreaker :=
  match o with
  | OpDenial t => fst (record_denial b t)
  | OpNonDenial t => record_non_denial b t
  | OpClear t => clear_turn b t
  end.
Definition add_review (turn_id : str) (reviews : list bool) (o : BreakerOp) : list bool :=
  match o with
  | OpDenial t => if decide (t = turn_id) then reviews ++ [true] else reviews
  | OpNonDenial t => if decide (t = turn_id) then reviews ++ [false] else reviews
  | OpClear t => if decide (t = turn_id) then [] else reviews
  end.
Definition reviews_of (turn_id : str) (ops : list BreakerOp) : list bool := fold_left (add_review turn_id) ops [].

(** The refusals at the end of a list, and the window of a list. *)
Fixpoint leading (l : list bool) : N := match l with true :: l' => leading l' + 1 | _ => 0 end.
Definition trailing (l : list bool) : N := leading (reverse l).
Definition window (l : list bool) : list bool := drop (length l - AUTO_REVIEW_DENIAL_WINDOW_SIZE) l.
Definition crosses (l : list bool) : bool :=
  (MAX_CONSECUTIVE_GUARDIAN_DENIALS_PER_TURN <=? N.min (trailing l) u32_max)%N
  || (MAX_RECENT_AUTO_REVIEW_DENIALS_PER_TURN <=? count_denied (window l))%N.
(** Whether some refusal so far crossed a limit. *)
Fixpoint tripped_from (seen : list bool) (l : list bool) : bool :=
  match l with
  | [] => false
  | d :: l' => d && crosses (seen ++ [d]) || tripped_from (seen ++ [d]) l'
  end.
Definition tripped (l : list bool) : bool := tripped_from [] l.
Definition summary (l : list bool) : GuardianRejectionCircuitBreakerTurn :=
  mkBreakerTurn (N.min (trailing l) u32_max) (window l) (tripped l).

Lemma drop_tail {A} k (l : list A) : tail (drop k l) = drop (S k) l.
Proof. revert l. induction k as [|k IH]; intros [|x l]; try done. apply IH. Qed.
Lemma trailing_snoc l d : trailing (l ++ [d]) = if d then (trailing l + 1)%N else 0%N.
Proof. unfold trailing. rewrite reverse_snoc. by destruct d. Qed.
Lemma window_snoc l d : record_recent_review (window l) d = window (l ++ [d]).
Proof.
  unfold record_recent_review, window. rewrite !length_app, length_drop. simpl.
  destruct (Nat.ltb_spec AUTO_REVIEW_DENIAL_WINDOW_SIZE
    (length l - (length l - AUTO_REVIEW_DENIAL_WINDOW_SIZE) + 1)) as [H|H].
  - set (k := length l - AUTO_REVIEW_DENIAL_WINDOW_SIZE).
    replace (length l + 1 - AUTO_REVIEW_DENIAL_WINDOW_SIZE) with (S k) by lia.
    rewrite <- drop_app_le by lia. by rewrite drop_tail.
  - replace (length l + 1 - AUTO_REVIEW_DENIAL_WINDOW_SIZE) with 0 by lia.
    by replace (length l - AUTO_REVIEW_DENIAL_WINDOW_SIZE) with 0 by lia.
Qed.
Lemma tripped_from_snoc seen l d :
  tripped_from seen (l ++ [d]) = tripped_from seen l || d && crosses (seen ++ l ++ [d]).
Proof.
  revert seen. induction l as [|x l IH]; intros seen; simpl; [by rewrite orb_false_r|].
  rewrite IH, <- !app_assoc. simpl. by rewrite orb_assoc.
Qed.
Lemma tripped_snoc l d : tripped (l ++ [d]) = tripped l || d && crosses (l ++ [d]).
Proof. apply (tripped_from_snoc []). Qed.

Lemma record_denial_summary b t l :
  turn_entry b t = summary l ->
  record_denial b t =
    (<[t := summary (l ++ [true])]> b,
     if negb (tripped l) && crosses (l ++ [true])
     then InterruptTurn (N.min (trailing (l ++ [true])) u32_max) (count_denied (window (l ++ [true])))
     else Continue).
Proof.
  intros E. unfold record_denial. rewrite E. cbn [consecutive_denials recent_denials interrupt_triggered summary].
  rewrite window_snoc.
  assert (N.min (N.min (trailing l) u32_max + 1) u32_max = N.min (trailing (l ++ [true])) u32_max) as ->.
  { rewrite trailing_snoc. lia. }
  fold (crosses (l ++ [true])). unfold summary. rewrite tripped_snoc. simpl.
  destruct (tripped l); simpl; [done|]. by destruct (crosses (l ++ [true])).
Qed.

Lemma turn_entry_insert b u t turn :
  turn_entry (<[u := turn]> b) t = if decide (u = t) then turn else turn_entry b t.
Proof.
  unfold turn_entry. destruct (decide (u = t)) as [->|Hne]; [by rewrite lookup_insert_eq|].
  by rewrite lookup_insert_ne.
Qed.
Lemma apply_op_summary b o t l :
  turn_entry b t = summary l -> turn_entry (apply_op b o) t = summary (add_review t l o).
Proof.
  intros E. destruct o as [u|u|u]; cbn [apply_op add_review].
  - destruct (decide (u = t)) as [->|Hne].
    + rewrite (record_denial_summary b t l E). cbn [fst]. rewrite turn_entry_insert. by case_decide.
    + unfold record_denial. match goal with |- context [if ?c then (_, _) else _] => destruct c end; cbn [fst];
        rewrite turn_entry_insert; by case_decide.
  - unfold record_non_denial. rewrite turn_entry_insert. destruct (decide (u = t)) as [->|Hne]; [|done].
    rewrite E. cbn. rewrite window_snoc. unfold summary. by rewrite trailing_snoc, tripped_snoc, orb_false_r.
  - unfold clear_turn, turn_entry in *. destruct (decide (u = t)) as [->|Hne].
    + by rewrite lookup_delete_eq.
    + by rewrite lookup_delete_ne.
Qed.
Lemma breaker_summary ops t : turn_entry (fold_left apply_op ops ∅) t = summary (reviews_of t ops).
Proof.
  unfold reviews_of. assert (turn_entry ∅ t = summary []) as E by done. revert E.
  generalize (∅ : GuardianRejectionCircuitBreaker) ([] : list bool).
  induction ops as [|o ops IH]; intros b l E; simpl; [done|]. apply IH. by apply apply_op_summary.
Qed.

(** C9: the circuit breaker is the function of the reviews it has seen that its limits
    describe: whatever operations came before, for every turn it holds the number of the
    last refusals in a row, the last fifty reviews and whether a limit was crossed, all
    since the turn was cleared; the next refusal interrupts the turn exactly when it
    crosses a limit and no refusal before it did, so that a turn is interrupted once. *)
Theorem the_breaker_interrupts_once ops t :
  let b := fold_left apply_op ops ∅ in
  let reviews := reviews_of t ops in
  turn_entry b t = summary reviews /\
  snd (record_denial b t) =
    (if negb (tripped reviews) && crosses (reviews ++ [true])
     then InterruptTurn (N.min (trailing (reviews ++ [true])) u32_max) (count_denied (window (reviews ++ [true])))
     else Continue) /\
  tripped (reviews ++ [true]) = tripped reviews || crosses (reviews ++ [true]) /\
  length (recent_denials (turn_entry b t)) <= AUTO_REVIEW_DENIAL_WINDOW_SIZE.
Proof.
  intros b reviews. pose proof (breaker_summary ops t) as E. fold b in E. fold reviews in E.
  split_and!; [done| |apply tripped_snoc|].
  - by rewrite (record_denial_summary b t reviews E).
  - rewrite E. simpl. unfold window. rewrite length_drop. lia.
Qed.


(** ** What a review promises *)

(** The part of a text from its first opening to its last closing brace. *)
Definition braced_part (text slice : str) : Prop :=
  exists before after, text = before ++ slice ++ after /\ head slice = Some 123%N /\ last slice = Some 125%N.

Lemma find_char_spec c s i : find_char c s = Some i -> s !! i = Some c.
Proof.
  unfold find_char. intros ([j x] & E & ->)%fmap_Some. apply list_find_Some in E as (E & -> & _). done.
Qed.
Lemma rfind_char_spec c s i : rfind_char c s = Some i -> s !! i = Some c.
Proof.
  unfold rfind_char. intros (j & E%find_char_spec & ->)%fmap_Some.
  pose proof (lookup_lt_Some _ _ _ E) as Hj. rewrite length_reverse in Hj.
  rewrite reverse_lookup in E by done. rewrite <- E. f_equal. lia.
Qed.
Lemma slice_braced text i j :
  text !! i = Some 123%N -> text !! j = Some 125%N -> i < j -> braced_part text (take (j + 1 - i) (drop i text)).
Proof.
  intros Hi Hj Hlt. pose proof (lookup_lt_Some _ _ _ Hj) as Hl.
  exists (take i text), (drop (j + 1 - i) (drop i text)). split_and!.
  - by rewrite take_drop, take_drop.
  - rewrite head_lookup, lookup_take_lt, lookup_drop by lia. by rewrite Nat.add_0_r.
  - rewrite last_lookup, length_take, length_drop.
    replace (pred ((j + 1 - i) `min` (length text - i))) with (j - i) by lia.
    rewrite lookup_take_lt, lookup_drop by lia. rewrite <- Hj. f_equal. lia.
Qed.
Lemma parse_payload from_str text a :
  parse_guardian_assessment from_str (Some text) = Ok a ->
  exists slice payload, (slice = text \/ braced_part text slice) /\ from_str slice = Ok payload /\
    a = assessment_of_payload payload.
Proof.
  simpl. destruct (from_str text) as [payload|e] eqn:E.
  { intros [= <-]. exists text, payload. auto. }
  destruct (find_char 123 text) as [i|] eqn:Hi; [|done]. destruct (rfind_char 125 text) as [j|] eqn:Hj; [|done].
  destruct (Nat.ltb_spec i j) as [Hlt|]; [|done]. rewrite bind_Ok. intros (payload & Hp & [= <-]).
  exists (take (j + 1 - i) (drop i text)), payload. split_and!; [right|done..].
  by apply slice_braced; [apply find_char_spec|apply rfind_char_spec|].
Qed.

Definition assessment_events (log : list Emitted) : list GuardianAssessmentEvent :=
  omap (fun e => match e with SentAssessment event => Some event | _ => None end) log.
Definition tracked (log : list Emitted) : list GuardianReviewAnalyticsResult :=
  omap (fun e => match e with Tracked _ _ r _ => Some r | _ => None end) log.
Definition aborts (log : list Emitted) : list str :=
  omap (fun e => match e with SpawnedAbort t => Some t | _ => None end) log.
Definition status_of (d : ReviewDecision) : option GuardianAssessmentStatus :=
  match d with
  | Approved => Some AssessedApproved
  | Denied => Some AssessedDenied
  | TimedOut => Some AssessedTimedOut
  | Abort => Some AssessedAborted
  | _ => None
  end.

Section promises.
Context {W NetworkConfig Config : Type} `{HW : ReviewWorld W NetworkConfig Config} `{Shlex}.
Variable from_str : str -> result str GuardianAssessmentPayload.
Implicit Type st : St (W := W).

(** The end of a review that reaches the circuit breaker, with the breaker before it. *)
Definition counted (turn_id : str) (explicit : bool) (b : gmap str GuardianRejectionCircuitBreakerTurn)
    (ws : W * ReviewServices) (ws' : W * ReviewServices) (es : list Emitted) : Prop :=
  circuit_breaker (snd ws) = b /\ guardian_rejections (snd ws') = guardian_rejections (snd ws) /\
  circuit_breaker (snd ws') = (if explicit then fst (record_denial b turn_id) else record_non_denial b turn_id) /\
  assessment_events es = [] /\ tracked es = [] /\
  (forall t, t ∈ aborts es -> explicit = true /\ t = turn_id /\
     exists c r, snd (record_denial b turn_id) = InterruptTurn c r).

Lemma denial_counted turn_id ws log :
  exists ws' es, record_guardian_denial turn_id (ws, log) = ((ws', log ++ es), tt) /\
    counted turn_id true (circuit_breaker (snd ws)) ws ws' es.
Proof.
  destruct ws as [w s]. unfold record_guardian_denial, andThen, with_services, look, emit, return_. simpl.
  destruct (record_denial (circuit_breaker s) turn_id) as [b [|c r]] eqn:E; simpl.
  - exists (w, mkServices b (guardian_rejections s)), []. rewrite app_nil_r. split; [done|].
    unfold counted. simpl. rewrite E. split_and!; try done. by intros t ?%not_elem_of_nil.
  - destruct (turn_context_for_sub_id turn_id w); simpl.
    + eexists (w, mkServices b (guardian_rejections s)), _. rewrite <- app_assoc. split; [done|].
      unfold counted. simpl. rewrite E. split_and!; try done.
      intros t ->%list_elem_of_singleton. split_and!; [done..|]. by exists c, r.
    + exists (w, mkServices b (guardian_rejections s)), []. rewrite app_nil_r. split; [done|].
      unfold counted. simpl. rewrite E. split_and!; try done. by intros t ?%not_elem_of_nil.
Qed.
Lemma non_denial_counted turn_id ws log :
  exists ws', record_guardian_non_denial turn_id (ws, log) = ((ws', log ++ []), tt) /\
    counted turn_id false (circuit_breaker (snd ws)) ws ws' [].
Proof.
  destruct ws as [w s]. eexists. rewrite app_nil_r. split; [reflexivity|]. unfold counted. simpl.
  split_and!; try done. by intros t ?%not_elem_of_nil.
Qed.

(** What a review adds to its log, and what it leaves in the shared services. *)
Definition reported (review_id turn_id : str) (d : ReviewDecision) (log : list Emitted) (ws' : W * ReviewServices) : Prop :=
  exists started final result explicit b,
    assessment_events log = [started; final] /\ tracked log = [result] /\
    event_id started = review_id /\ event_id final = review_id /\
    event_turn_id started = turn_id /\ event_turn_id final = turn_id /\
    event_status started = InProgress /\ event_completed_at_ms started = None /\
    Some (event_status final) = status_of d /\ is_Some (event_completed_at_ms final) /\
    (explicit = true <-> analytics_terminal_status result = StatusDenied) /\ (explicit = true -> d = Denied) /\
    circuit_breaker (snd ws') = (if explicit then fst (record_denial b turn_id) else record_non_denial b turn_id) /\
    (forall t, t ∈ aborts log -> explicit = true /\ t = turn_id /\
       exists c r, snd (record_denial b turn_id) = InterruptTurn c r) /\
    (d = Approved -> guardian_rejections (snd ws') !! review_id = None) /\
    (d = Denied -> is_Some (guardian_rejections (snd ws') !! review_id)).

(** The part of a review that all its branches end with. *)
Lemma conclude_reported review_id turn_id event started result log0 ws completed a (explicit : bool) :
  (forall c status x r, event_id (event c status x r) = review_id /\ event_turn_id (event c status x r) = turn_id /\
     event_status (event c status x r) = status /\ event_completed_at_ms (event c status x r) = Some c) ->
  assessment_events log0 = [started] -> tracked log0 = [result] -> aborts log0 = [] ->
  event_id started = review_id -> event_turn_id started = turn_id ->
  event_status started = InProgress -> event_completed_at_ms started = None ->
  (explicit = true <-> analytics_terminal_status result = StatusDenied) ->
  (explicit = true -> outcome a = Deny) ->
  forall log, exists ws' es d,
    conclude review_id turn_id event completed a explicit (ws, log) = ((ws', log ++ es), d) /\
    (d = Approved <-> outcome a = Allow) /\ (d = Approved \/ d = Denied) /\
    reported review_id turn_id d (log0 ++ es) ws'.
Proof.
  intros Hev Hs Ht Hab Hi Htu Hst Hc Hx Hd log. destruct ws as [w s].
  set (approved := bool_decide (outcome a = Allow)).
  set (r := if approved then delete review_id (guardian_rejections s)
            else <[review_id := mkRejection (rationale a) Agent]> (guardian_rejections s)).
  set (final := event completed (if approved then AssessedApproved else AssessedDenied) (Some a) (Some (rationale a))).
  set (ws1 := (w, mkServices (circuit_breaker s) r)).
  assert (exists ws' es, (if explicit then record_guardian_denial turn_id else record_guardian_non_denial turn_id)
            (ws1, (log ++ [SentWarning (review_warning a)]) ++ [SentAssessment final]) =
            ((ws', ((log ++ [SentWarning (review_warning a)]) ++ [SentAssessment final]) ++ es), tt) /\
          counted turn_id explicit (circuit_breaker s) ws1 ws' es) as (ws' & es & E & Hcount).
  { destruct explicit; [apply (denial_counted turn_id ws1)|].
    destruct (non_denial_counted turn_id ws1 ((log ++ [SentWarning (review_warning a)]) ++ [SentAssessment final]))
      as (ws' & E & Hcount). by exists ws', []. }
  exists ws', (SentWarning (review_warning a) :: SentAssessment final :: es), (if approved then Approved else Denied).
  split.
  { unfold conclude, andThen, emit, with_services, return_. cbn -[record_guardian_denial record_guardian_non_denial].
    fold approved r final ws1. rewrite E. by rewrite <- !app_assoc. }
  destruct Hcount as (_ & Hrej & Hb & He1 & He2 & He3).
  destruct (Hev completed (if approved then AssessedApproved else AssessedDenied) (Some a) (Some (rationale a)))
    as (Ei & Et & Es & Ec). fold final in Ei, Et, Es, Ec.
  split; [unfold approved; case_bool_decide; naive_solver|]. split; [by destruct approved; auto|].
  exists started, final, result, explicit, (circuit_breaker s).
  unfold assessment_events, tracked, aborts in *. rewrite !omap_app, Hs, Ht, Hab. cbn.
  unfold assessment_events, tracked in He1, He2. rewrite He1, He2, Es, Ec.
  split_and!; try done.
  - by destruct approved.
  - intros Hex. unfold approved. rewrite (Hd Hex). done.
  - intros Ha. rewrite Hrej. simpl. unfold r. destruct approved; [by rewrite lookup_delete_eq|done].
  - intros Ha. rewrite Hrej. simpl. unfold r. destruct approved; [done|]. by rewrite lookup_insert_eq.
Qed.

(** The evidence for an approval: the review session answered with a text that is, or
    contains between braces, the JSON of an assessment that allows. *)
Definition allowed_by_answer (request : GuardianApprovalRequest) (retry_reason : option str)
    (external_cancel : option nat) : Prop :=
  exists config model effort (ws ws' : W * ReviewServices) text analytics slice payload,
    run_review config request retry_reason model effort external_cancel ws =
      (ws', (SessionCompleted (Ok (Some text)), analytics)) /\
    (slice = text \/ braced_part text slice) /\ from_str slice = Ok payload /\ payload_outcome payload = Allow.

Lemma session_outcome turn request retry_reason cancel ws log :
  exists ws' o analytics,
    run_guardian_review_session from_str turn request retry_reason cancel (ws, log) =
      (((ws' : W * ReviewServices), log), (o, analytics)) /\
    (forall a, o = Completed a -> outcome a = Allow -> allowed_by_answer request retry_reason cancel).
Proof.
  destruct ws as [w s]. unfold run_guardian_review_session, andThen, ask, await, return_. cbn.
  destruct (current_network_config w) as [w1 [[n|e]|]]; cbn; [|by eexists _, _, _|];
    destruct (list_models w1) as [w2 models]; cbn; destruct (guardian_model_of turn models) as [model effort];
    (match goal with |- context [build_guardian_review_session_config ?a ?b ?c ?d] =>
       destruct (build_guardian_review_session_config a b c d) as [config|e] end; [|by eexists _, _, _]);
    cbn; destruct (run_review config request retry_reason model effort cancel (w2, s)) as [ws' [o analytics]] eqn:E;
    cbn; exists ws', (outcome_of_session from_str o), analytics; (split; [done|]); intros a Ho Ha;
    (destruct o as [[[text|]|]| | | |]; simpl in Ho; try done);
    change (match parse_guardian_assessment from_str (Some text) with
            | Ok assessment => Completed assessment | Err err => ReviewFailed (Parse err) end = Completed a) in Ho;
    destruct (parse_guardian_assessment from_str (Some text)) as [a'|] eqn:Ep; try done; injection Ho as ->;
    destruct (parse_payload from_str text a Ep) as (slice & payload & Hs & Hp & ->);
    eexists config, model, effort, _, _, text, analytics, slice, payload; eauto.
Qed.

(** A review that ends without the reviewer's answer. *)
Lemma unanswered_reported review_id turn_id d started result final log0 ws log :
  assessment_events log0 = [started; final] -> tracked log0 = [result] -> aborts log0 = [] ->
  event_id started = review_id -> event_turn_id started = turn_id ->
  event_status started = InProgress -> event_completed_at_ms started = None ->
  event_id final = review_id -> event_turn_id final = turn_id -> is_Some (event_completed_at_ms final) ->
  Some (event_status final) = status_of d -> d <> Approved -> d <> Denied ->
  analytics_terminal_status result <> StatusDenied ->
  exists ws', record_guardian_non_denial turn_id (ws, log) = (((ws' : W * ReviewServices), log), tt) /\
    reported review_id turn_id d log0 ws'.
Proof.
  intros. destruct (non_denial_counted turn_id ws log) as (ws' & E & _ & _ & Hb & _). exists ws'.
  rewrite E, app_nil_r. split; [done|]. exists started, final, result, false, (circuit_breaker (snd ws)).
  split_and!; try done. intros t Ht. replace (aborts log0) with (@nil str) in Ht by done. by apply not_elem_of_nil in Ht.
Qed.

Definition review_turn_id (turn : ReviewTurn) (request : GuardianApprovalRequest) : str :=
  guardian_request_turn_id request (turn_sub_id (review_turn turn)).

(** The end of a branch that reaches [conclude]. *)
Ltac conclusion :=
  match goal with
  |- context [conclude ?i ?t ?event ?c ?a ?explicit (?ws, (?l ++ [SentAssessment ?st]) ++ [Tracked ?x ?y ?r ?m])] =>
      let ws' := fresh "ws'" in let es := fresh "es" in let d := fresh "d" in
      let E := fresh "E" in let Hd := fresh "Hd" in let Hr := fresh "Hr" in
      edestruct (conclude_reported i t event st r [SentAssessment st; Tracked x y r m] ws c a explicit)
        as (ws' & es & d & E & Hd & _ & Hr);
      [..|rewrite E; exists ws'; eexists _, d; rewrite <- !app_assoc;
          split; [reflexivity|split; [exact Hr|]]]
  end.
Lemma review_reported turn review_id request retry_reason source cancel ws log :
  exists ws' es d,
    run_guardian_review from_str turn review_id request retry_reason source cancel (ws, log) =
      (((ws' : W * ReviewServices), log ++ es), d) /\
    reported review_id (review_turn_id turn request) d es ws' /\
    (d = Approved -> allowed_by_answer request retry_reason cancel).
Proof.
  destruct ws as [w s]. unfold run_guardian_review, andThen, ask, look, emit, return_.
  cbn -[record_guardian_non_denial conclude run_guardian_review_session].
  destruct (now_unix_timestamp_ms w) as [w0 started_at].
  cbn -[record_guardian_non_denial conclude run_guardian_review_session]. fold (review_turn_id turn request).
  destruct (from_option _ false cancel); cbn [fst snd].
  - destruct (now_unix_timestamp_ms w0) as [w1 completed]. cbn [fst snd].
    cbn -[record_guardian_non_denial conclude run_guardian_review_session].
    edestruct unanswered_reported as (ws' & E & Hr); last first.
    { rewrite E. eexists ws', _, Abort. rewrite <- !app_assoc. split; [reflexivity|]. split; [exact Hr|done]. }
    all: try reflexivity. all: first [reflexivity|done|by eexists].
  - destruct (session_outcome turn request retry_reason cancel (w0, s)
      (log ++ [SentAssessment (mkAssessmentEvent review_id (guardian_request_target_item_id request)
         (review_turn_id turn request) started_at None InProgress None None None None
         (guardian_assessment_action request))])) as ([w1 s1] & o & analytics & E & Hallow). rewrite E. clear E.
    cbn -[record_guardian_non_denial conclude]. destruct (now_unix_timestamp_ms w1) as [w2 completed].
    cbn -[record_guardian_non_denial conclude].
    destruct o as [a|[message|message|message| |]]; cbn -[record_guardian_non_denial conclude].
    + conclusion; try done.
      * simpl. by destruct (outcome a).
      * intros Hden. by apply bool_decide_eq_true in Hden.
      * intros Ha%Hd. by apply (Hallow a).
    + conclusion; try done. intros Ha%Hd. done.
    + conclusion; try done. intros Ha%Hd. done.
    + conclusion; try done. intros Ha%Hd. done.
    + edestruct unanswered_reported as (ws' & E & Hr); last first.
      { rewrite E. eexists ws', _, TimedOut. rewrite <- !app_assoc. split; [reflexivity|]. split; [exact Hr|done]. }
      all: try reflexivity. all: first [reflexivity|done|by eexists].
    + edestruct unanswered_reported as (ws' & E & Hr); last first.
      { rewrite E. eexists ws', _, Abort. rewrite <- !app_assoc. split; [reflexivity|]. split; [exact Hr|done]. }
      all: try reflexivity. all: first [reflexivity|done|by eexists].
Qed.

(** ** Properties *)

(** C8: the automatic reviewer fails closed: a review returns an approval only when it
    ran on the reviewer's own answer and that answer, or the part of it between braces,
    is the JSON of an assessment whose outcome is to allow; every other end, whether the
    request was cancelled, the prompt, the session or the JSON failed, or the deadline
    passed, is a refusal, a time-out or an abort, and no answer lasts for the session. *)
Theorem the_reviewer_fails_closed turn review_id request retry_reason source cancel st :
  let d := snd (run_guardian_review from_str turn review_id request retry_reason source cancel st) in
  (d = Approved \/ d = Denied \/ d = TimedOut \/ d = Abort) /\
  (d = Approved -> allowed_by_answer request retry_reason cancel).
Proof.
  destruct st as [ws log].
  destruct (review_reported turn review_id request retry_reason source cancel ws log)
    as (ws' & es & d & -> & Hr & Hallow). simpl. split; [|done].
  destruct Hr as (? & final & ? & ? & ? & _ & _ & _ & _ & _ & _ & _ & _ & Hs & _).
  destruct d; simpl in Hs; naive_solver.
Qed.

(** every review is reported once, and counted once: it sends one event that it has
    started and one that it has ended, for the same review and turn, and the status of the
    second is the decision it returns; its result is tracked once; the circuit breaker
    counts a refusal exactly when the reviewer itself refused, and anything else as no
    refusal, also refusals because a review failed; a turn is aborted only when that
    count crosses a limit; a refusal leaves its rationale for the message to the agent,
    and an approval leaves none. *)
Theorem reviews_are_reported_once turn review_id request retry_reason source cancel ws log :
  exists ws' es d,
    run_guardian_review from_str turn review_id request retry_reason source cancel (ws, log) =
      (((ws' : W * ReviewServices), log ++ es), d) /\
    reported review_id (review_turn_id turn request) d es ws'.
Proof.
  destruct (review_reported turn review_id request retry_reason source cancel ws log)
    as (ws' & es & d & E & Hr & _). by exists ws', es, d.
Qed.

End promises.

(** ** Instances of the properties *)

(** A world whose review session answers with a fixed text, and a reader of JSON that
    knows two texts. *)
Definition demo_from_str (text : str) : result str GuardianAssessmentPayload :=
  if decide (text = $"{allow}") then Ok (mkPayload None None Allow None)
  else if decide (text = $"{deny}") then Ok (mkPayload (Some RiskCritical) None Deny (Some $"no"))
  else Err $"expected value".
#[global] Instance demo_review_world : ReviewWorld str unit unit := {
  now_unix_timestamp_ms w := (w, 5%Z);
  token_is_cancelled _ _ := false;
  turn_context_for_sub_id _ _ := true;
  current_network_config w := (w, None);
  list_models w := (w, []);
  build_guardian_review_session_config _ _ _ _ := Ok tt;
  run_review _ _ _ _ _ _ ws := (ws, (SessionCompleted (Ok (Some (fst ws))), without_session));
}.
#[global] Instance demo_shlex : Shlex := fun args => Some (Str.join $" " args).
Definition demo_review_turn : ReviewTurn :=
  mkReviewTurn (mkTurn $"turn" Profile.profile_default OnRequest AutoReview) None $"reviewer" $"model" [] None None.
Definition demo_request : GuardianApprovalRequest := GuardianShell $"call" [$"ls"] $"/w" Profile.UseDefault None None.
Definition demo_review (answer : str) : St (W := str) * ReviewDecision :=
  run_guardian_review demo_from_str demo_review_turn $"r" demo_request None MainTurn None
    ((answer, mkServices ∅ ∅), []).

Lemma the_reviewer_fails_closed_witness :
  snd (demo_review $"I think {allow} is right") = Approved /\ snd (demo_review $"{deny}") = Denied /\
  snd (demo_review $"allow") = Denied /\
  allowed_by_answer (HW := demo_review_world) demo_from_str demo_request None None.
Proof.
  split_and!; [vm_compute; reflexivity..|].
  apply (the_reviewer_fails_closed demo_from_str demo_review_turn $"r" demo_request None MainTurn None
           (($"I think {allow} is right", mkServices ∅ ∅), [])).
  vm_compute. reflexivity.
Defined.

End Guardian.
