(* ===== verification/GuardianSessions.v ===== *)
(** The sessions in which the automatic reviewer works
    ([core/src/guardian/review_session.rs]).  A trunk session is kept between reviews, so
    that a later prompt selects only from what is new in the transcript; a review that
    finds the trunk busy works in a fork of it.  Reviews run at once and may be dropped, so
    a review is a program of atomic steps and the system a step relation over all of them
    and the parent session; what the reviewer's session answers, deadlines and
    cancellations are inputs of the steps. *)
From S2P Require Import Prelude HeadTailBuffer ContextHistory GuardianPrompt GuardianReview.

Module Sessions.
Import GuardianPrompt Guardian.

(** ** Events of a review session *)

Inductive EventMsg :=
| TurnComplete (turn_id : str) (last_agent_message : option str)
| ErrorEvent (message : str)
| TurnAborted (turn_id : option str)
| OtherEvent.
Record Event := mkEvent { id : str; msg : EventMsg }.

Definition event_matches_turn (event : Event) (expected_turn_id : str) : bool :=
  if negb (bool_decide (id event = expected_turn_id)) then false
  else match msg event with
       | TurnComplete turn_id _ => bool_decide (turn_id = expected_turn_id)
       | TurnAborted turn_id => bool_decide (turn_id = Some expected_turn_id)
       | _ => true
       end.

(** One event in the loop of [wait_for_guardian_review]: the error to remember, or the
    outcome and whether the session is kept. *)
Definition wait_event (expected_turn_id : str) (last_error_message : option str) (event : Event)
    : option str + GuardianReviewSessionOutcome * bool :=
  if negb (event_matches_turn event expected_turn_id) then inl last_error_message
  else match msg event with
       | TurnComplete _ last_agent_message =>
           match last_agent_message, last_error_message with
           | None, Some error_message => inr (SessionCompleted (Err error_message), true)
           | _, _ => inr (SessionCompleted (Ok last_agent_message), true)
           end
       | ErrorEvent message => inl (Some message)
       | TurnAborted _ => inr (SessionAborted, true)
       | OtherEvent => inl last_error_message
       end.
Definition is_completed (o : GuardianReviewSessionOutcome) : bool :=
  match o with SessionCompleted _ => true | _ => false end.

Definition had_prior_review_context (prompt_mode : GuardianPromptMode) : bool :=
  match prompt_mode with Delta _ => true | Full => false end.
(** The thread of the reviewer caches its prompts under a key of the parent's thread. *)
Definition prompt_cache_key_override_for_review_session (other_subagent_label parent_thread_id : option str)
    : option str :=
  name ← other_subagent_label;
  if negb (bool_decide (name = GUARDIAN_REVIEWER_NAME)) then None
  else parent_thread_id ← parent_thread_id; Some ($"guardian:" ++ parent_thread_id).
Definition token_usage_delta (start end_ : History.TokenUsage) : History.TokenUsage :=
  let delta f := Z.max (History.wrap_i64 (f end_ - f start)) 0 in
  History.mkUsage (delta History.input_tokens) (delta History.cached_input_tokens)
    (delta History.output_tokens) (delta History.reasoning_output_tokens) (delta History.total_tokens).

Section sessions.
(** Keys of sessions that may be reused. *)
Context {K : Type} `{EqDecision K}.

(** ** State *)

(** A prompt as far as the transcript is concerned: the version and the entries of the
    parent when it was built, and the shape it was given. *)
Record Prompt := mkPrompt {
  prompt_version : N;
  shape : GuardianPromptShape;
  prompt_transcript : list GuardianTranscriptEntry;
}.
(** The entries from which the prompt selects what it shows, and their first position. *)
Definition offered_from (p : Prompt) : nat :=
  match shape p with ShapeFull => 0 | ShapeDelta already_seen_entry_count => already_seen_entry_count end.
Definition offered_entries (p : Prompt) : list GuardianTranscriptEntry := drop (offered_from p) (prompt_transcript p).
(** The lines of the transcript in the prompt, with the note that entries are left out. *)
Definition prompt_lines (p : Prompt) : option (list str * option str) :=
  match shape p with
  | ShapeFull => render_guardian_transcript_entries (prompt_transcript p)
  | ShapeDelta already_seen_entry_count =>
      render_guardian_transcript_entries_with_offset (drop already_seen_entry_count (prompt_transcript p))
        already_seen_entry_count $"<no retained transcript delta entries>"
  end.

Record GuardianReviewForkSnapshot := mkSnapshot {
  initial_history : list Prompt;
  snapshot_review_count : N;
  snapshot_cursor : option GuardianTranscriptCursor;
}.
(** [config_ephemeral] is the setting of the forked configuration; [conversation] holds
    the prompts submitted to the session's thread, or inherited with its history. *)
Record GuardianReviewSession := mkSession {
  reuse_key : K;
  config_ephemeral : bool;
  review_lock : bool;
  prior_review_count : N;
  last_reviewed_transcript_cursor : option GuardianTranscriptCursor;
  last_committed_fork_snapshot : option GuardianReviewForkSnapshot;
  conversation : list Prompt;
  followup_reminders : nat;
  is_shut_down : bool;
}.
(** The manager with the heap of its sessions, and the transcript of the parent. *)
Record GuardianReviewSessionManager := mkManager {
  heap : list GuardianReviewSession;
  trunk : option nat;
  ephemeral_reviews : list nat;
  state_locked : bool;
  parent_version : N;
  parent_entries : list GuardianTranscriptEntry;
}.

Definition set_heap (m : GuardianReviewSessionManager) (h : list GuardianReviewSession) : GuardianReviewSessionManager :=
  mkManager h (trunk m) (ephemeral_reviews m) (state_locked m) (parent_version m) (parent_entries m).
Definition set_trunk (m : GuardianReviewSessionManager) (t : option nat) : GuardianReviewSessionManager :=
  mkManager (heap m) t (ephemeral_reviews m) (state_locked m) (parent_version m) (parent_entries m).
Definition set_ephemeral (m : GuardianReviewSessionManager) (l : list nat) : GuardianReviewSessionManager :=
  mkManager (heap m) (trunk m) l (state_locked m) (parent_version m) (parent_entries m).
Definition set_state_lock (m : GuardianReviewSessionManager) (b : bool) : GuardianReviewSessionManager :=
  mkManager (heap m) (trunk m) (ephemeral_reviews m) b (parent_version m) (parent_entries m).
Definition set_parent (m : GuardianReviewSessionManager) (v : N) (es : list GuardianTranscriptEntry) : GuardianReviewSessionManager :=
  mkManager (heap m) (trunk m) (ephemeral_reviews m) (state_locked m) v es.
Definition change (s : nat) (f : GuardianReviewSession -> GuardianReviewSession) (m : GuardianReviewSessionManager)
    : GuardianReviewSessionManager := set_heap m (alter f s (heap m)).

Definition set_review_lock (b : bool) (x : GuardianReviewSession) : GuardianReviewSession :=
  mkSession (reuse_key x) (config_ephemeral x) b (prior_review_count x) (last_reviewed_transcript_cursor x)
    (last_committed_fork_snapshot x) (conversation x) (followup_reminders x) (is_shut_down x).
Definition shutdown_session (x : GuardianReviewSession) : GuardianReviewSession :=
  mkSession (reuse_key x) (config_ephemeral x) (review_lock x) (prior_review_count x)
    (last_reviewed_transcript_cursor x) (last_committed_fork_snapshot x) (conversation x) (followup_reminders x) true.
Definition append_guardian_followup_reminder (x : GuardianReviewSession) : GuardianReviewSession :=
  mkSession (reuse_key x) (config_ephemeral x) (review_lock x) (prior_review_count x)
    (last_reviewed_transcript_cursor x) (last_committed_fork_snapshot x) (conversation x)
    (S (followup_reminders x)) (is_shut_down x).
Definition submit_prompt (p : Prompt) (x : GuardianReviewSession) : GuardianReviewSession :=
  mkSession (reuse_key x) (config_ephemeral x) (review_lock x) (prior_review_count x)
    (last_reviewed_transcript_cursor x) (last_committed_fork_snapshot x) (conversation x ++ [p])
    (followup_reminders x) (is_shut_down x).
(** The state after a completed review. *)
Definition commit_review (cursor : GuardianTranscriptCursor) (x : GuardianReviewSession) : GuardianReviewSession :=
  mkSession (reuse_key x) (config_ephemeral x) (review_lock x) (HeadTail.saturating_add (prior_review_count x) 1)
    (Some cursor) (last_committed_fork_snapshot x) (conversation x) (followup_reminders x) (is_shut_down x).
Definition store_fork_snapshot (items : list Prompt) (x : GuardianReviewSession) : GuardianReviewSession :=
  mkSession (reuse_key x) (config_ephemeral x) (review_lock x) (prior_review_count x)
    (last_reviewed_transcript_cursor x)
    (Some (mkSnapshot items (prior_review_count x) (last_reviewed_transcript_cursor x)))
    (conversation x) (followup_reminders x) (is_shut_down x).
Definition spawn_guardian_review_session (key : K) (ephemeral : bool) (fork_snapshot : option GuardianReviewForkSnapshot)
    : GuardianReviewSession :=
  let '(history, count, cursor) :=
    match fork_snapshot with
    | Some f => (initial_history f, snapshot_review_count f, snapshot_cursor f)
    | None => ([], 0%N, None)
    end in
  mkSession key ephemeral false count cursor None history 0 false.

(** ** The program of a review *)

(** [run_review_on_session]: before the state is read, before the prompt is built, with
    the prompt built, waiting for the answer, draining an interrupted turn, and before a
    completed review is committed. *)
Inductive ReviewPc :=
| Opening
| Building (prompt_mode : GuardianPromptMode)
| Submitting (prompt : Prompt)
| Waiting (cursor : GuardianTranscriptCursor) (turn_id : str) (last_error_message : option str)
| Draining (outcome : GuardianReviewSessionOutcome)
| Committing (cursor : GuardianTranscriptCursor) (outcome : GuardianReviewSessionOutcome) (keep : bool).

(** [run_review] and [run_ephemeral_review]. *)
Inductive Pc :=
| Entered (key : K)
| Choosing (key : K)
| SpawningTrunk (key : K) (stale_trunk : option nat)
| Chosen (key : K) (spawned_trunk : bool) (stale_trunk trunk_candidate : option nat)
| Forking (key : K) (s : nat)
| SpawningEphemeral (key : K) (fork_snapshot : option GuardianReviewForkSnapshot)
| Registering (s : nat)
| OnSession (s : nat) (kind : GuardianReviewSessionKind) (pc : ReviewPc)
| Refreshing (s : nat) (outcome : GuardianReviewSessionOutcome)
| StoringSnapshot (s : nat) (items : list Prompt) (outcome : GuardianReviewSessionOutcome)
| Releasing (s : nat) (keep : bool) (outcome : GuardianReviewSessionOutcome)
| RemovingTrunk (s : nat) (outcome : GuardianReviewSessionOutcome)
| TakingEphemeral (s : nat) (outcome : GuardianReviewSessionOutcome)
| CleaningUp (s : nat)
| Finished (outcome : option GuardianReviewSessionOutcome).

Inductive Input :=
| Tick
| Deadline
| Cancel
| Spawned
| SpawnErr (err : str)
| BuildErr (err : str)
| Submitted (turn_id : str)
| SubmitErr (err : str)
| GotEvent (event : Event)
| EventErr (err : str)
| Drained (ok : bool)
| RolloutLoaded
| RolloutMissing.

(** [run_before_review_deadline]: the outcome when the deadline passes or the caller
    cancels first. *)
Definition interrupted (i : Input) : option GuardianReviewSessionOutcome :=
  match i with Deadline => Some SessionTimedOut | Cancel => Some SessionAborted | _ => None end.
Definition cursor_of (p : Prompt) : GuardianTranscriptCursor := mkCursor (prompt_version p) (length (prompt_transcript p)).
Definition build_prompt (m : GuardianReviewSessionManager) (prompt_mode : GuardianPromptMode) : Prompt :=
  let now := mkCursor (parent_version m) (length (parent_entries m)) in
  mkPrompt (parent_version m) (prompt_shape prompt_mode now) (parent_entries m).
Definition prompt_mode_of (x : GuardianReviewSession) : GuardianPromptMode :=
  if (prior_review_count x =? 0)%N then Full
  else match last_reviewed_transcript_cursor x with Some cursor => Delta cursor | None => Full end.

(** A step on a session: the session's change and either the next point or the outcome
    and whether the session is kept. *)
Definition review_step (m : GuardianReviewSessionManager) (x : GuardianReviewSession) (pc : ReviewPc) (i : Input)
    : option (GuardianReviewSession * (ReviewPc + GuardianReviewSessionOutcome * bool)) :=
  match pc, i with
  | Opening, Tick =>
      Some (if (prior_review_count x =? 1)%N then append_guardian_followup_reminder x else x,
            inl (Building (prompt_mode_of x)))
  | Building prompt_mode, Tick => Some (x, inl (Submitting (build_prompt m prompt_mode)))
  | Building _, BuildErr err => Some (x, inr (PromptBuildFailed err, false))
  | Submitting prompt, Submitted turn_id =>
      Some (submit_prompt prompt x, inl (Waiting (cursor_of prompt) turn_id None))
  | Submitting _, SubmitErr err => Some (x, inr (SessionFailed err, false))
  | Waiting cursor turn_id last_error_message, GotEvent event =>
      match wait_event turn_id last_error_message event with
      | inl last_error_message => Some (x, inl (Waiting cursor turn_id last_error_message))
      | inr (outcome, keep) =>
          Some (x, if is_completed outcome then inl (Committing cursor outcome keep) else inr (outcome, keep))
      end
  | Waiting cursor _ _, EventErr err => Some (x, inl (Committing cursor (SessionCompleted (Err err)) false))
  | Draining outcome, Drained ok => Some (x, inr (outcome, ok))
  | Committing cursor outcome keep, Tick => Some (commit_review cursor x, inr (outcome, keep))
  | Building _, _ | Submitting _, _ => outcome ← interrupted i; Some (x, inr (outcome, false))
  | Waiting _ _ _, _ => outcome ← interrupted i; Some (x, inl (Draining outcome))
  | _, _ => None
  end.

(** Where a review goes with its outcome. *)
Definition after_review (s : nat) (kind : GuardianReviewSessionKind) (outcome : GuardianReviewSessionOutcome) (keep : bool) : Pc :=
  match kind with
  | EphemeralForked => TakingEphemeral s outcome
  | TrunkNew | TrunkReused => if keep && is_completed outcome then Refreshing s outcome else Releasing s keep outcome
  end.
(** [take_active_ephemeral] with the shutdown of what it takes. *)
Definition swap_remove (s : nat) (l : list nat) : list nat :=
  match list_find (eq s) l with
  | Some (index, _) =>
      match last l with
      | Some final => take (length l - 1) (<[index := final]> l)
      | None => l
      end
  | None => l
  end.
Definition take_active_ephemeral (s : nat) (m : GuardianReviewSessionManager) : GuardianReviewSessionManager :=
  if bool_decide (s ∈ ephemeral_reviews m)
  then change s shutdown_session (set_ephemeral m (swap_remove s (ephemeral_reviews m)))
  else m.
Definition remove_trunk_if_current (s : nat) (m : GuardianReviewSessionManager) : GuardianReviewSessionManager :=
  if bool_decide (trunk m = Some s) then change s shutdown_session (set_trunk m None) else m.
Definition no_session : GuardianReviewSessionOutcome :=
  SessionCompleted (Err $"guardian review session was not available after spawn").

Definition thread_step (m : GuardianReviewSessionManager) (pc : Pc) (i : Input)
    : option (GuardianReviewSessionManager * Pc) :=
  match pc, i with
  | Entered key, Tick => if state_locked m then None else Some (set_state_lock m true, Choosing key)
  | Choosing key, Tick =>
      let stale :=
        t ← trunk m; x ← heap m !! t;
        if negb (bool_decide (reuse_key x = key)) && negb (review_lock x) then Some t else None in
      let m := match stale with Some _ => set_trunk m None | None => m end in
      match trunk m with
      | None => Some (m, SpawningTrunk key stale)
      | Some t => Some (set_state_lock m false, Chosen key false stale (Some t))
      end
  | SpawningTrunk key stale, Spawned =>
      let s := length (heap m) in
      let m := set_heap m (heap m ++ [spawn_guardian_review_session key false None]) in
      Some (set_state_lock (set_trunk m (Some s)) false, Chosen key true stale (Some s))
  | SpawningTrunk _ _, SpawnErr err => Some (set_state_lock m false, Finished (Some (PromptBuildFailed err)))
  | SpawningTrunk _ _, _ => outcome ← interrupted i; Some (set_state_lock m false, Finished (Some outcome))
  | Chosen key spawned_trunk stale trunk_candidate, Tick =>
      let m := match stale with Some t => change t shutdown_session m | None => m end in
      match trunk_candidate with
      | None => Some (m, Finished (Some no_session))
      | Some t =>
          x ← heap m !! t;
          if negb (bool_decide (reuse_key x = key)) then Some (m, SpawningEphemeral key None)
          else if review_lock x then Some (m, Forking key t)
          else Some (change t (set_review_lock true) m,
                     OnSession t (if spawned_trunk then TrunkNew else TrunkReused) Opening)
      end
  | Forking key t, Tick => x ← heap m !! t; Some (m, SpawningEphemeral key (last_committed_fork_snapshot x))
  | SpawningEphemeral key fork_snapshot, Spawned =>
      let s := length (heap m) in
      Some (set_heap m (heap m ++ [spawn_guardian_review_session key true fork_snapshot]), Registering s)
  | SpawningEphemeral _ _, SpawnErr err => Some (m, Finished (Some (PromptBuildFailed err)))
  | Registering s, Tick =>
      if state_locked m then None
      else Some (set_ephemeral m (ephemeral_reviews m ++ [s]), OnSession s EphemeralForked Opening)
  | OnSession s kind pc, _ =>
      x ← heap m !! s;
      '(x', next) ← review_step m x pc i;
      Some (change s (fun _ => x') m,
            match next with inl pc' => OnSession s kind pc' | inr (outcome, keep) => after_review s kind outcome keep end)
  | Refreshing s outcome, RolloutLoaded =>
      x ← heap m !! s;
      Some (m, match conversation x with
               | [] => Releasing s true outcome
               | items => StoringSnapshot s items outcome
               end)
  | Refreshing s outcome, RolloutMissing => Some (m, Releasing s true outcome)
  | StoringSnapshot s items outcome, Tick => Some (change s (store_fork_snapshot items) m, Releasing s true outcome)
  | Releasing s keep outcome, Tick =>
      Some (change s (set_review_lock false) m, if keep then Finished (Some outcome) else RemovingTrunk s outcome)
  | RemovingTrunk s outcome, Tick =>
      if state_locked m then None else Some (remove_trunk_if_current s m, Finished (Some outcome))
  | TakingEphemeral s outcome, Tick =>
      if state_locked m then None else Some (take_active_ephemeral s m, Finished (Some outcome))
  | CleaningUp s, Tick => if state_locked m then None else Some (take_active_ephemeral s m, Finished None)
  | Entered _, _ | SpawningEphemeral _ _, _ => outcome ← interrupted i; Some (m, Finished (Some outcome))
  | _, _ => None
  end.

(** A review may be dropped where it awaits something: guards release the locks they
    hold, and the guard of a registered fork leaves a task that removes it. *)
Definition awaits (pc : Pc) : bool :=
  match pc with
  | Choosing _ | Chosen _ _ _ _ | Releasing _ _ _ | CleaningUp _ | Finished _ => false
  | _ => true
  end.
Definition drop_review (m : GuardianReviewSessionManager) (pc : Pc) : GuardianReviewSessionManager * Pc :=
  match pc with
  | SpawningTrunk _ _ => (set_state_lock m false, Finished None)
  | OnSession s EphemeralForked _ | TakingEphemeral s _ => (m, CleaningUp s)
  | OnSession s _ _ | Refreshing s _ | StoringSnapshot s _ _ => (change s (set_review_lock false) m, Finished None)
  | _ => (m, Finished None)
  end.

(** [GuardianReviewSessionManager::shutdown]. *)
Definition shutdown (m : GuardianReviewSessionManager) : GuardianReviewSessionManager :=
  let taken := option_list (trunk m) ++ ephemeral_reviews m in
  foldr (fun s m => change s shutdown_session m) (set_ephemeral (set_trunk m None) []) taken.

(** The manager, the running reviews, and the transcript of the parent: entries are added
    under the same version, and any other change has a new one. *)
Record System := mkSystem { manager : GuardianReviewSessionManager; reviews : list Pc }.
Definition manager_default : GuardianReviewSessionManager := mkManager [] None [] false 0 [].
Definition initial : System := mkSystem manager_default [].

Inductive step : System -> System -> Prop :=
| step_enter m rs key : step (mkSystem m rs) (mkSystem m (rs ++ [Entered key]))
| step_review m rs r pc i m' pc' :
    rs !! r = Some pc -> thread_step m pc i = Some (m', pc') ->
    step (mkSystem m rs) (mkSystem m' (<[r := pc']> rs))
| step_drop m rs r pc m' pc' :
    rs !! r = Some pc -> awaits pc = true -> drop_review m pc = (m', pc') ->
    step (mkSystem m rs) (mkSystem m' (<[r := pc']> rs))
| step_shutdown m rs : state_locked m = false -> step (mkSystem m rs) (mkSystem (shutdown m) rs)
| step_record m rs es :
    step (mkSystem m rs) (mkSystem (set_parent m (parent_version m) (parent_entries m ++ es)) rs)
| step_rewrite m rs es :
    (parent_version m < HeadTail.usize_max)%N ->
    step (mkSystem m rs) (mkSystem (set_parent m (HeadTail.saturating_add (parent_version m) 1) es) rs).
Definition reachable (sys : System) : Prop := rtc step initial sys.

End sessions.
End Sessions.
