(* ===== verification/GuardianSessionRuns.v ===== *)
(** The runs of the review sessions: at most one review works on a session at a time, the
    reviewer of a session has been offered every entry of the transcript it is asked to
    judge by (what is offered goes through the selection of the prompt), and forks do not outlive their reviews. *)
From S2P Require Import Prelude HeadTailBuffer ContextHistory GuardianPrompt GuardianSelection GuardianReview GuardianSessions.

Module SessionRuns.
Import GuardianPrompt Guardian Sessions.

Section runs.
Context {K : Type} `{EqDecision K}.
Abbreviation Manager := (@GuardianReviewSessionManager K).
Abbreviation Session := (@GuardianReviewSession K).
Abbreviation Point := (@Pc K).

(** ** What a conversation has offered *)

(** The entry [e] at position [i] of the transcript was among those a prompt selects from. *)
Definition offers (p : Prompt) (i : nat) (e : GuardianTranscriptEntry) : Prop :=
  offered_from p <= i /\ offered_entries p !! (i - offered_from p) = Some e.
Definition offered (conv : list Prompt) (i : nat) (e : GuardianTranscriptEntry) : Prop :=
  exists p, p ∈ conv /\ offers p i e.
(** Every prompt, with those before it, offers the whole transcript it was built from. *)
Definition gapless (conv : list Prompt) : Prop :=
  forall j p, conv !! j = Some p -> forall i e, prompt_transcript p !! i = Some e -> offered (take (S j) conv) i e.
(** A prompt without the note that entries are left out shows every entry it offers, each in
    the line of its number. *)
Lemma offered_is_shown p lines i e :
  prompt_lines p = Some (lines, None) -> offers p i e ->
  exists line tokens, render_entry (S i) e = Some (line, tokens) /\ lines !! (i - offered_from p) = Some line.
Proof.
  unfold prompt_lines, offers, offered_entries, offered_from, render_guardian_transcript_entries.
  destruct (shape p) as [|n]; intros Hl [Hge He].
  - rewrite drop_0, Nat.sub_0_r in *. destruct (Selection.nothing_left_out _ _ _ _ _ _ Hl He) as (line & t & Hr & Hx).
    exists line, t. by replace (0 + 1 + i) with (S i) in Hr by lia.
  - destruct (Selection.nothing_left_out _ _ _ _ _ _ Hl He) as (line & t & Hr & Hx).
    exists line, t. by replace (n + 1 + (i - n)) with (S i) in Hr by lia.
Qed.
(** Entries recorded under a version: those of the parent extend them while it has it. *)
Definition coherent (m : Manager) (version : N) (whole : list GuardianTranscriptEntry) : Prop :=
  (version <= parent_version m)%N /\ (version = parent_version m -> whole `prefix_of` parent_entries m).
(** A cursor is justified when a conversation has offered the entries before it. *)
Definition justified (m : Manager) (conv : list Prompt) (c : GuardianTranscriptCursor) : Prop :=
  exists whole, length whole = transcript_entry_count c /\ coherent m (parent_history_version c) whole /\
    forall i e, whole !! i = Some e -> offered conv i e.

Lemma offered_app conv conv' i e : offered conv i e -> offered (conv ++ conv') i e.
Proof. intros (p & Hp & H). exists p. split; [by apply elem_of_app; left|done]. Qed.
Lemma offered_prefix conv conv' i e : conv `prefix_of` conv' -> offered conv i e -> offered conv' i e.
Proof. intros [r ->]. apply offered_app. Qed.
Lemma justified_prefix m conv conv' c : conv `prefix_of` conv' -> justified m conv c -> justified m conv' c.
Proof.
  intros Hp (whole & Hl & Hc & Hw). exists whole. split_and!; [done..|].
  intros i e Hi. by eapply offered_prefix, Hw.
Qed.
Lemma gapless_nil : gapless [].
Proof. intros j p Hj. by rewrite lookup_nil in Hj. Qed.
Lemma gapless_snoc conv p :
  gapless conv -> (forall i e, prompt_transcript p !! i = Some e -> i < offered_from p -> offered conv i e) ->
  gapless (conv ++ [p]).
Proof.
  intros Hg Hp j q Hj i e Hi. apply lookup_app_Some in Hj as [Hj|[Hlen Hj]].
  - rewrite take_app_le by (apply lookup_lt_Some in Hj; lia). by eapply Hg.
  - apply list_lookup_singleton_Some in Hj as [Hz ->]. rewrite take_ge by (rewrite length_app; simpl; lia).
    destruct (decide (i < offered_from q)) as [Hlt|Hge]; [by apply offered_app, Hp|].
    exists q. split; [apply elem_of_app; right; by left|]. split; [lia|].
    unfold offered_entries. rewrite lookup_drop. rewrite <- Hi. f_equal. lia.
Qed.

(** ** Steps of the parent and of other reviews *)

Definition parent_grows (m m' : Manager) : Prop :=
  (parent_version m' = parent_version m /\ parent_entries m `prefix_of` parent_entries m') \/
  (parent_version m < parent_version m')%N.
Lemma coherent_grows m m' v whole : parent_grows m m' -> coherent m v whole -> coherent m' v whole.
Proof.
  intros [[Hv He]|Hlt] [Hle Hp]; split; try lia.
  intros ->. etransitivity; [|exact He]. by apply Hp.
Qed.
Lemma justified_grows m m' conv c : parent_grows m m' -> justified m conv c -> justified m' conv c.
Proof.
  intros Hg (whole & Hl & Hc & Hw). exists whole. split_and!; [done| |done]. by eapply coherent_grows.
Qed.

(** What a session keeps unless its own review works on it. *)
Record same_content (x x' : Session) : Prop := {
  same_conversation : conversation x' = conversation x;
  same_cursor : last_reviewed_transcript_cursor x' = last_reviewed_transcript_cursor x;
  same_snapshot : last_committed_fork_snapshot x' = last_committed_fork_snapshot x;
  same_lock : review_lock x = true -> review_lock x' = true;
}.
Record continues (o : option nat) (s : nat) (x x' : Session) : Prop := {
  same_kind : config_ephemeral x' = config_ephemeral x;
  conversation_grows : conversation x `prefix_of` conversation x';
  content_kept : o <> Some s -> same_content x x';
  stays_down : is_shut_down x = true -> is_shut_down x' = true;
}.
(** How the manager evolves by a step of the review that owns [o]. *)
Record evolves (o : option nat) (m m' : Manager) : Prop := {
  parent_kept : parent_grows m m';
  heap_kept : forall s x, heap m !! s = Some x -> exists x', heap m' !! s = Some x' /\ continues o s x x';
}.

Lemma same_content_refl x : same_content x x.
Proof. by constructor. Qed.
Lemma same_content_trans x y z : same_content x y -> same_content y z -> same_content x z.
Proof. intros [H1 H2 H3 H4] [H5 H6 H7 H8]. constructor; try congruence. auto. Qed.
Lemma continues_same o s x x' :
  config_ephemeral x' = config_ephemeral x -> (is_shut_down x = true -> is_shut_down x' = true) ->
  same_content x x' -> continues o s x x'.
Proof. intros Hk Hd Hc. constructor; [done|by rewrite (same_conversation x x' Hc)|done|done]. Qed.
Lemma continues_trans o s x y z : continues o s x y -> continues o s y z -> continues o s x z.
Proof.
  intros [H1 H2 H3 H7] [H4 H5 H6 H8]. constructor; [congruence|by etransitivity| |auto].
  intros Ho. eapply same_content_trans; auto.
Qed.
Lemma parent_grows_refl m : parent_grows m m.
Proof. by left. Qed.
Lemma evolves_trans o m1 m2 m3 :
  parent_version m2 = parent_version m1 -> parent_entries m2 = parent_entries m1 ->
  evolves o m1 m2 -> evolves o m2 m3 -> evolves o m1 m3.
Proof.
  intros Ev Ee [_ H1] [P2 H2]. constructor; [unfold parent_grows in *; by rewrite Ev, Ee in P2|].
  intros s x Hx. destruct (H1 s x Hx) as (y & Hy & Hc). destruct (H2 s y Hy) as (z & Hz & Hc').
  exists z. split; [done|]. by eapply continues_trans.
Qed.
(** A change of one session, and steps that leave the sessions alone or add one. *)
Lemma evolves_change o s f m :
  (forall x, heap m !! s = Some x -> continues o s x (f x)) -> evolves o m (change s f m).
Proof.
  intros Hf. constructor; [by left|]. intros s' x Hx. unfold change. simpl.
  destruct (decide (s = s')) as [<-|Hne].
  - exists (f x). rewrite list_lookup_alter_eq, Hx. split; [done|]. by apply Hf.
  - exists x. rewrite list_lookup_alter_ne by done. split; [done|]. by apply continues_same; [..|apply same_content_refl].
Qed.
Lemma evolves_heap o m m' extra :
  parent_version m' = parent_version m -> parent_entries m' = parent_entries m -> heap m' = heap m ++ extra ->
  evolves o m m'.
Proof.
  intros Hv He Hh. constructor; [left; by rewrite Hv, He|]. intros s x Hx. exists x. rewrite Hh.
  split; [by apply lookup_app_l_Some|]. by apply continues_same; [..|apply same_content_refl].
Qed.
Lemma evolves_refl o m : evolves o m m.
Proof. apply (evolves_heap o m m []); [done..|]. by rewrite app_nil_r. Qed.
Lemma shutdown_continues o s x : continues o s x (shutdown_session x).
Proof. by apply continues_same; [..|constructor]. Qed.

(** The session a review has to itself. *)
Definition owner (pc : Point) : option nat :=
  match pc with
  | Registering s | OnSession s _ _ | Refreshing s _ | StoringSnapshot s _ _ | Releasing s _ _ => Some s
  | _ => None
  end.

Lemma review_step_continues m x pc i x' next s :
  review_step m x pc i = Some (x', next) -> continues (Some s) s x x' /\ review_lock x' = review_lock x.
Proof.
  intros Hs.
  assert (x' = x \/ x' = append_guardian_followup_reminder x \/ (exists p, x' = submit_prompt p x) \/
    exists c, x' = commit_review c x) as Hx.
  { destruct pc, i; simpl in Hs; repeat case_match; simplify_eq/=; eauto;
      try (destruct (wait_event _ _ _) as [?|[? ?]]); simplify_eq/=; eauto. }
  destruct Hx as [->|[->|[[p ->]|[c ->]]]]; (split; [|done]); constructor; try done. by eexists.
Qed.

Lemma take_active_evolves o s m : evolves o m (take_active_ephemeral s m).
Proof.
  unfold take_active_ephemeral. case_bool_decide; [|apply evolves_refl].
  eapply (evolves_trans _ _ (set_ephemeral m (swap_remove s (ephemeral_reviews m)))); [done..| |].
  - by apply (evolves_heap _ _ _ []); [..|rewrite app_nil_r].
  - apply evolves_change. intros. apply shutdown_continues.
Qed.
Lemma remove_trunk_evolves o s m : evolves o m (remove_trunk_if_current s m).
Proof.
  unfold remove_trunk_if_current. case_bool_decide; [|apply evolves_refl].
  eapply (evolves_trans _ _ (set_trunk m None)); [done..| |].
  - by apply (evolves_heap _ _ _ []); [..|rewrite app_nil_r].
  - apply evolves_change. intros. apply shutdown_continues.
Qed.
Lemma evolves_same_heap o m m' :
  parent_version m' = parent_version m -> parent_entries m' = parent_entries m -> heap m' = heap m -> evolves o m m'.
Proof. intros. by apply (evolves_heap _ _ _ []); [..|rewrite app_nil_r]. Qed.
Lemma stale_evolves o stale m :
  evolves o m (match stale with Some t => change t shutdown_session m | None => m end).
Proof. destruct stale; [|apply evolves_refl]. apply evolves_change. intros. apply shutdown_continues. Qed.

Lemma thread_step_evolves m pc i m' pc' :
  thread_step m pc i = Some (m', pc') -> evolves (owner pc) m m'.
Proof.
  intros Hs. destruct pc as [key|key|key stale|key spawned stale cand|key t|key f|s|s kind r|s o|s items o|s keep o|s o|s o|s|o].
  - destruct i; simpl in Hs; repeat case_match; simplify_eq/=; by apply evolves_same_heap.
  - destruct i; simpl in Hs; try done. match type of Hs with context [match ?st with Some _ => set_trunk m None | None => m end] =>
      destruct st end; case_match; simplify_eq/=; by apply evolves_same_heap.
  - destruct i; simpl in Hs; simplify_eq/=; try by apply evolves_same_heap. by eapply evolves_heap.
  - destruct i; simpl in Hs; try done. destruct cand as [t|]; [|injection Hs as <- <-; apply stale_evolves].
    match type of Hs with context [heap ?m1 !! t] => destruct (heap m1 !! t) as [x|] eqn:Hx; [|done] end.
    cbn [mbind option_bind] in Hs. destruct (negb _); [injection Hs as <- <-; apply stale_evolves|].
    destruct (review_lock x); injection Hs as <- <-; [apply stale_evolves|].
    apply (evolves_trans _ _ (match stale with Some t => change t shutdown_session m | None => m end));
      [by destruct stale..|apply stale_evolves|].
    apply evolves_change. intros y _. by apply continues_same; [..|constructor].
  - destruct i; simpl in Hs; try done. destruct (heap m !! t); simplify_eq/=. apply evolves_refl.
  - destruct i; simpl in Hs; simplify_eq/=; try apply evolves_refl. by eapply evolves_heap.
  - destruct i; simpl in Hs; repeat case_match; simplify_eq/=; by apply evolves_same_heap.
  - cbn [thread_step] in Hs. destruct (heap m !! s) as [x|] eqn:Hx; [|done]. cbn in Hs.
    destruct (review_step m x r i) as [[x' next]|] eqn:Hr; [|done]. cbn in Hs. simplify_eq/=.
    apply evolves_change. intros y Hy. rewrite Hx in Hy. injection Hy as ->.
    by apply (review_step_continues m y r i x' next s).
  - destruct i; simpl in Hs; try done; [destruct (heap m !! s); simplify_eq/=|simplify_eq/=]; apply evolves_refl.
  - destruct i; simpl in Hs; simplify_eq/=. apply evolves_change. intros x _. by constructor.
  - destruct i; simpl in Hs; simplify_eq/=. apply evolves_change. intros x _. by constructor.
  - destruct i; simpl in Hs; repeat case_match; simplify_eq/=. apply remove_trunk_evolves.
  - destruct i; simpl in Hs; repeat case_match; simplify_eq/=. apply take_active_evolves.
  - destruct i; simpl in Hs; repeat case_match; simplify_eq/=. apply take_active_evolves.
  - by destruct i.
Qed.

(** ** The invariant *)

(** The review works in a fork. *)
Definition forked (pc : Point) : bool :=
  match pc with Registering _ | OnSession _ EphemeralForked _ => true | _ => false end.
(** The session of a review exists and, unless it is a fork, is locked. *)
Definition owner_ok (m : Manager) (pc : Point) : Prop :=
  forall s, owner pc = Some s ->
    exists x, heap m !! s = Some x /\ config_ephemeral x = forked pc /\ (forked pc = false -> review_lock x = true).
Definition is_trunk (m : Manager) (t : nat) : Prop :=
  exists x, heap m !! t = Some x /\ config_ephemeral x = false.

Definition snapshot_ok (m : Manager) (f : GuardianReviewForkSnapshot) : Prop :=
  gapless (initial_history f) /\ forall c, snapshot_cursor f = Some c -> justified m (initial_history f) c.
Record session_ok (m : Manager) (x : Session) : Prop := {
  conversation_ok : gapless (conversation x);
  cursor_ok : forall c, last_reviewed_transcript_cursor x = Some c -> justified m (conversation x) c;
  snapshots_ok : forall f, last_committed_fork_snapshot x = Some f -> snapshot_ok m f;
}.
Definition review_ok (m : Manager) (conv : list Prompt) (r : ReviewPc) : Prop :=
  match r with
  | Building (Delta c) | Waiting c _ _ | Committing c _ _ => justified m conv c
  | Submitting p =>
      coherent m (prompt_version p) (prompt_transcript p) /\
      forall i e, prompt_transcript p !! i = Some e -> i < offered_from p -> offered conv i e
  | _ => True
  end.
Definition pc_ok (m : Manager) (pc : Point) : Prop :=
  match pc with
  | OnSession s _ r => forall x, heap m !! s = Some x -> review_ok m (conversation x) r
  | StoringSnapshot s items _ => forall x, heap m !! s = Some x -> conversation x = items
  | SpawningEphemeral _ (Some f) => snapshot_ok m f
  | Chosen _ _ _ (Some t) | Forking _ t => is_trunk m t
  | _ => True
  end.
Definition sessions_ok (m : Manager) : Prop := forall s x, heap m !! s = Some x -> session_ok m x.
Definition alone (rs : list Point) : Prop :=
  forall r1 r2 pc1 pc2 s, rs !! r1 = Some pc1 -> rs !! r2 = Some pc2 ->
    owner pc1 = Some s -> owner pc2 = Some s -> r1 = r2.
Record inv (sys : @System K) : Prop := {
  inv_sessions : sessions_ok (manager sys);
  inv_trunk : forall t, trunk (manager sys) = Some t -> is_trunk (manager sys) t;
  inv_owner : forall r pc, reviews sys !! r = Some pc -> owner_ok (manager sys) pc;
  inv_pc : forall r pc, reviews sys !! r = Some pc -> pc_ok (manager sys) pc;
  inv_alone : alone (reviews sys);
}.

(** *** What other steps keep *)

Lemma snapshot_grows m m' f : parent_grows m m' -> snapshot_ok m f -> snapshot_ok m' f.
Proof. intros Hg [Hf Hc]. split; [done|]. intros c Hx. by eapply justified_grows, Hc. Qed.
Lemma session_grows m m' x : parent_grows m m' -> session_ok m x -> session_ok m' x.
Proof.
  intros Hg [H1 H2 H3]. constructor; [done| |]; intros y Hy.
  - by eapply justified_grows, H2.
  - by eapply snapshot_grows, H3.
Qed.
Lemma session_same m x x' : same_content x x' -> session_ok m x -> session_ok m x'.
Proof. intros [Hc Hl Hf _] [H1 H2 H3]. constructor; rewrite ?Hc, ?Hl, ?Hf; done. Qed.
Lemma review_grows m m' conv r : parent_grows m m' -> review_ok m conv r -> review_ok m' conv r.
Proof.
  intros Hg. destruct r as [|[|c]|p|c ? ?| |c ? ?]; simpl; try done; try by apply justified_grows.
  intros [Hc Hp]. split; [by eapply coherent_grows|done].
Qed.
Lemma is_trunk_evolves o m m' t : evolves o m m' -> is_trunk m t -> is_trunk m' t.
Proof.
  intros [_ Hh] (x & Hx & Hk). destruct (Hh t x Hx) as (x' & Hx' & Hc).
  exists x'. split; [done|]. by rewrite (same_kind _ _ _ _ Hc).
Qed.
Lemma owner_ok_kept o m m' pc : evolves o m m' -> owner pc <> o \/ owner pc = None -> owner_ok m pc -> owner_ok m' pc.
Proof.
  intros [_ Hh] Ho Hok s Hs. destruct (Hok s Hs) as (x & Hx & Hk & Hl).
  destruct (Hh s x Hx) as (x' & Hx' & Hc). exists x'. split_and!; [done|by rewrite (same_kind _ _ _ _ Hc)|].
  intros Hf. eapply same_lock; [eapply content_kept; [done|]|by apply Hl]. destruct Ho; congruence.
Qed.
Lemma pc_ok_kept o m m' pc :
  evolves o m m' -> owner pc <> o \/ owner pc = None -> owner_ok m pc -> pc_ok m pc -> pc_ok m' pc.
Proof.
  intros He Ho Hown. pose proof He as [Hg Hh].
  assert (forall s, owner pc = Some s -> forall x', heap m' !! s = Some x' ->
    exists x, heap m !! s = Some x /\ conversation x' = conversation x) as Hsame.
  { intros s Hs x' Hx'. destruct (Hown s Hs) as (x & Hx & _). destruct (Hh s x Hx) as (y & Hy & Hc).
    exists x. split; [done|]. rewrite Hx' in Hy. injection Hy as ->.
    apply same_conversation. eapply content_kept; [done|]. destruct Ho; congruence. }
  destruct pc as [key|key|key stale|key spawned stale [t|]|key t|key [f|]|s|s kind r|s out|s items out|s keep out|s out|s out|s|out];
    simpl; intros Hok; try done.
  - by eapply is_trunk_evolves.
  - by eapply is_trunk_evolves.
  - by eapply snapshot_grows.
  - intros x' Hx'. destruct (Hsame s eq_refl x' Hx') as (x & Hx & ->). by eapply review_grows, Hok.
  - intros x' Hx'. destruct (Hsame s eq_refl x' Hx') as (x & Hx & ->). by apply Hok.
Qed.

(** *** Steps of a review keep the sessions *)

Lemma sessions_change m s f :
  sessions_ok m -> (forall x, heap m !! s = Some x -> session_ok m x -> session_ok m (f x)) -> sessions_ok (change s f m).
Proof.
  intros Hm Hf s' x Hx. apply (session_grows m); [by left|].
  unfold change in Hx. simpl in Hx. destruct (decide (s = s')) as [<-|Hne].
  - rewrite list_lookup_alter_eq in Hx. apply fmap_Some in Hx as (y & Hy & ->).
    by apply (Hf y Hy), (Hm s).
  - rewrite list_lookup_alter_ne in Hx by done. by apply (Hm s').
Qed.
Lemma sessions_same m s f : sessions_ok m -> (forall x, same_content x (f x)) -> sessions_ok (change s f m).
Proof. intros Hm Hf. apply sessions_change; [done|]. intros x _. by apply session_same. Qed.
Lemma sessions_heap m m' x :
  sessions_ok m -> parent_version m' = parent_version m -> parent_entries m' = parent_entries m ->
  heap m' = heap m ++ [x] -> session_ok m x -> sessions_ok m'.
Proof.
  intros Hm Hv He Hh Hx s y Hy. apply (session_grows m); [left; by rewrite Hv, He|].
  rewrite Hh in Hy. apply lookup_app_Some in Hy as [Hy|[_ Hy]]; [by apply (Hm s)|].
  by apply list_lookup_singleton_Some in Hy as [_ <-].
Qed.
Lemma sessions_same_heap m m' :
  sessions_ok m -> parent_version m' = parent_version m -> parent_entries m' = parent_entries m ->
  heap m' = heap m -> sessions_ok m'.
Proof. intros Hm Hv He Hh s y Hy. apply (session_grows m); [left; by rewrite Hv, He|]. rewrite Hh in Hy. by apply (Hm s). Qed.
Lemma shutdown_same x : same_content x (shutdown_session x).
Proof. by constructor. Qed.
Lemma spawned_ok m key eph f :
  (forall g, f = Some g -> snapshot_ok m g) -> session_ok m (spawn_guardian_review_session key eph f).
Proof.
  intros Hf. destruct f as [g|]; constructor; simpl; try done.
  - by destruct (Hf g eq_refl).
  - by destruct (Hf g eq_refl).
Qed.

(** A prompt built from a justified cursor leaves no gap. *)
Lemma build_prompt_ok m conv mode :
  review_ok m conv (Building mode) -> review_ok m conv (Submitting (build_prompt m mode)).
Proof.
  intros Hj. split; [by split|]. simpl. intros i e Hi Hlt. destruct mode as [|c]; simpl in *; [unfold offered_from in Hlt; simpl in Hlt; lia|].
  destruct Hj as (w & Hl & [_ Hc] & Hw). revert Hlt.
  unfold offered_from, build_prompt, prompt_shape. cbn [shape]. destruct (_ && _) eqn:Hb; [|simpl; lia]. apply andb_true_iff in Hb as [Hv _].
  apply N.eqb_eq in Hv. simpl in Hv. intros Hlt. destruct (Hc Hv) as [rest Hrest].
  apply Hw. rewrite Hrest in Hi. rewrite lookup_app_l in Hi by lia. done.
Qed.
Lemma submit_ok m conv p :
  gapless conv -> review_ok m conv (Submitting p) -> gapless (conv ++ [p]) /\ justified m (conv ++ [p]) (cursor_of p).
Proof.
  intros Hg [Hc Hp]. assert (gapless (conv ++ [p])) as Hgap by by apply gapless_snoc.
  split; [done|]. exists (prompt_transcript p). split_and!; [done..|]. intros i e Hi.
  specialize (Hgap (length conv) p). rewrite take_ge in Hgap by (rewrite length_app; simpl; lia).
  apply Hgap; [|done]. by rewrite lookup_app_r, Nat.sub_diag by lia.
Qed.

Lemma review_step_ok m x r i x' next :
  session_ok m x -> review_ok m (conversation x) r -> review_step m x r i = Some (x', next) ->
  session_ok m x' /\ forall r', next = inl r' -> review_ok m (conversation x') r'.
Proof.
  intros Hx Hr Hs.
  assert (x' = x /\ (forall r', next = inl r' -> review_ok m (conversation x) r') \/
    (x' = (if (prior_review_count x =? 1)%N then append_guardian_followup_reminder x else x) /\
     next = inl (Building (prompt_mode_of x))) \/
    (exists p t, r = Submitting p /\ x' = submit_prompt p x /\ next = inl (Waiting (cursor_of p) t None)) \/
    (exists c o k, r = Committing c o k /\ x' = commit_review c x /\ next = inr (o, k))) as Hcases.
  { destruct r as [|mode|p|c t e|o|c o k], i; simpl in Hs; simplify_eq/=;
      try (left; split; [done|]; intros r' Hr'; simplify_eq/=; done).
    - right; left. by case_match; simplify_eq/=.
    - left. split; [done|]. intros r' Hr'. simplify_eq/=. by apply build_prompt_ok.
    - right; right; left. eauto.
    - left. destruct (wait_event _ _ _) as [e'|[o k]]; simplify_eq/=; (split; [done|]); intros r' Hr';
        [|destruct (is_completed o)]; by simplify_eq/=.
    - right; right; right. eauto 6. }
  destruct Hcases as [[-> Hn]|[[-> ->]|[(p & t & -> & -> & ->)|(c & o & k & -> & -> & ->)]]].
  - done.
  - assert (session_ok m (if (prior_review_count x =? 1)%N then append_guardian_followup_reminder x else x)) as Hx'.
    { case_match; [|done]. eapply session_same; [|done]. by constructor. }
    split; [done|]. intros r' [= <-]. simpl. unfold prompt_mode_of.
    destruct (prior_review_count x =? 0)%N eqn:Hz; [done|].
    destruct (last_reviewed_transcript_cursor x) as [c|] eqn:Hc; [|done].
    destruct Hx as [_ Hcur _]. apply Hcur in Hc. by case_match.
  - destruct (submit_ok m (conversation x) p (conversation_ok m x Hx) Hr) as [Hg Hj].
    split; [|by intros r' [= <-]]. destruct Hx as [_ Hcur Hsn]. constructor; simpl; [done| |done].
    intros c Hc. eapply justified_prefix; [|by apply Hcur]. by eexists.
  - split; [|done]. destruct Hx as [Hg Hcur Hsn]. constructor; simpl; [done| |done]. by intros c' [= <-].
Qed.

Lemma stale_sessions stale m :
  sessions_ok m -> sessions_ok (match stale with Some t => change t shutdown_session m | None => m end).
Proof. intros Hm. destruct stale; [|done]. by apply sessions_same, shutdown_same. Qed.
Lemma take_active_sessions s m : sessions_ok m -> sessions_ok (take_active_ephemeral s m).
Proof.
  intros Hm. unfold take_active_ephemeral. case_bool_decide; [|done].
  apply sessions_same; [|apply shutdown_same]. by eapply sessions_same_heap.
Qed.
Lemma remove_trunk_sessions s m : sessions_ok m -> sessions_ok (remove_trunk_if_current s m).
Proof.
  intros Hm. unfold remove_trunk_if_current. case_bool_decide; [|done].
  apply sessions_same; [|apply shutdown_same]. by eapply sessions_same_heap.
Qed.

Lemma thread_step_sessions m pc i m' pc' :
  sessions_ok m -> pc_ok m pc -> thread_step m pc i = Some (m', pc') -> sessions_ok m'.
Proof.
  intros Hm Hpc Hs. destruct pc as [key|key|key stale|key spawned stale cand|key t|key f|s|s kind r|s o|s items o|s keep o|s o|s o|s|o].
  - destruct i; simpl in Hs; repeat case_match; simplify_eq/=; by eapply sessions_same_heap.
  - destruct i; simpl in Hs; try done. match type of Hs with context [match ?st with Some _ => set_trunk m None | None => m end] =>
      destruct st end; case_match; simplify_eq/=; by eapply sessions_same_heap.
  - destruct i; simpl in Hs; simplify_eq/=; try by eapply sessions_same_heap.
    eapply sessions_heap; [done..|]. apply (spawned_ok m _ _ None). by intros g.
  - destruct i; simpl in Hs; try done. pose proof (stale_sessions stale m Hm) as Hst.
    destruct cand as [t|]; [|by injection Hs as <- <-].
    match type of Hs with context [heap ?m1 !! t] => destruct (heap m1 !! t) as [x|] eqn:Hx; [|done] end.
    cbn [mbind option_bind] in Hs. destruct (negb _); [by injection Hs as <- <-|].
    destruct (review_lock x); injection Hs as <- <-; [done|]. apply sessions_same; [done|]. by constructor.
  - destruct i; simpl in Hs; try done. by destruct (heap m !! t); simplify_eq/=.
  - destruct i; simpl in Hs; simplify_eq/=; try done. eapply sessions_heap; [done..|].
    apply (spawned_ok m). by intros g ->.
  - destruct i; simpl in Hs; repeat case_match; simplify_eq/=; by eapply sessions_same_heap.
  - cbn [thread_step] in Hs. destruct (heap m !! s) as [x|] eqn:Hx; [|done]. cbn in Hs.
    destruct (review_step m x r i) as [[x' next]|] eqn:Hr; [|done]. cbn in Hs. injection Hs as <- _.
    apply sessions_change; [done|]. intros y _ _.
    by destruct (review_step_ok m x r i x' next (Hm _ _ Hx) (Hpc _ Hx) Hr).
  - destruct i; simpl in Hs; try done; [destruct (heap m !! s); simplify_eq/=|simplify_eq/=]; done.
  - destruct i; simpl in Hs; simplify_eq/=. apply sessions_change; [done|].
    intros x Hx [H1 H2 H3]. specialize (Hpc x Hx). subst items. constructor; simpl; [done..|].
    intros f [= <-]. by split.
  - destruct i; simpl in Hs; simplify_eq/=. apply sessions_change; [done|].
    intros x _ [H1 H2 H3]. by constructor.
  - destruct i; simpl in Hs; repeat case_match; simplify_eq/=. by apply remove_trunk_sessions.
  - destruct i; simpl in Hs; repeat case_match; simplify_eq/=. by apply take_active_sessions.
  - destruct i; simpl in Hs; repeat case_match; simplify_eq/=. by apply take_active_sessions.
  - by destruct i.
Qed.

(** *** Steps of a review keep its own point and the trunk *)

Lemma trunk_step (m : Manager) (pc : Point) i m' pc' :
  thread_step m pc i = Some (m', pc') ->
  trunk m' = trunk m \/ trunk m' = None \/
  exists x, heap m' !! length (heap m) = Some x /\ config_ephemeral x = false /\ trunk m' = Some (length (heap m)).
Proof.
  intros Hs. destruct pc as [key|key|key stale|key spawned stale cand|key t|key f|s|s kind r|s o|s items o|s keep o|s o|s o|s|o].
  - destruct i; simpl in Hs; repeat case_match; simplify_eq/=; by left.
  - destruct i; simpl in Hs; try done. match type of Hs with context [match ?st with Some _ => set_trunk m None | None => m end] =>
      destruct st end; case_match; simplify_eq/=; auto.
  - destruct i; simpl in Hs; simplify_eq/=; auto. right; right. eexists.
    rewrite lookup_app_r, Nat.sub_diag by lia. by split_and!.
  - destruct i; simpl in Hs; try done. left. destruct cand as [t|]; [|injection Hs as <- <-; by destruct stale].
    match type of Hs with context [heap ?m1 !! t] => destruct (heap m1 !! t) as [x|] eqn:Hx; [|done] end.
    cbn [mbind option_bind] in Hs. destruct (negb _); [injection Hs as <- <-; by destruct stale|].
    destruct (review_lock x); injection Hs as <- <-; by destruct stale.
  - left. destruct i; simpl in Hs; try done. by destruct (heap m !! t); simplify_eq/=.
  - left. by destruct i; simpl in Hs; simplify_eq/=.
  - left. by destruct i; simpl in Hs; repeat case_match; simplify_eq/=.
  - left. cbn [thread_step] in Hs. destruct (heap m !! s) as [x|] eqn:Hx; [|done]. cbn in Hs.
    destruct (review_step m x r i) as [[x' next]|] eqn:Hr; [|done]. cbn in Hs. by injection Hs as <- _.
  - left. destruct i; simpl in Hs; try done; [destruct (heap m !! s); simplify_eq/=|simplify_eq/=]; done.
  - left. by destruct i; simpl in Hs; simplify_eq/=.
  - left. by destruct i; simpl in Hs; simplify_eq/=.
  - destruct i; simpl in Hs; repeat case_match; simplify_eq/=.
    unfold remove_trunk_if_current. case_bool_decide; auto.
  - destruct i; simpl in Hs; repeat case_match; simplify_eq/=. unfold take_active_ephemeral. case_bool_decide; auto.
  - destruct i; simpl in Hs; repeat case_match; simplify_eq/=. unfold take_active_ephemeral. case_bool_decide; auto.
  - by destruct i.
Qed.
Lemma after_review_shape s kind o keep (pc : Point) :
  after_review s kind o keep = pc ->
  match pc with
  | Refreshing s' _ | Releasing s' _ _ => s' = s /\ kind <> EphemeralForked
  | TakingEphemeral _ _ => True
  | _ => False
  end.
Proof. intros <-. unfold after_review. by destruct kind, (keep && is_completed o). Qed.

Lemma thread_step_pc m pc i m' pc' :
  sessions_ok m -> (forall t, trunk m = Some t -> is_trunk m t) -> pc_ok m pc ->
  thread_step m pc i = Some (m', pc') -> pc_ok m' pc'.
Proof.
  intros Hm Ht Hpc Hs. destruct pc as [key|key|key stale|key spawned stale cand|key t|key f|s|s kind r|s o|s items o|s keep o|s o|s o|s|o].
  - by destruct i; simpl in Hs; repeat case_match; simplify_eq/=.
  - destruct i; simpl in Hs; try done. match type of Hs with context [match ?st with Some _ => set_trunk m None | None => m end] =>
      destruct st end; simpl in Hs; [by injection Hs as <- <-|].
    destruct (trunk m) as [t|] eqn:Htr; injection Hs as <- <-; [|done]. by apply Ht.
  - destruct i; simpl in Hs; simplify_eq/=; try done. eexists. simpl.
    by rewrite lookup_app_r, Nat.sub_diag by lia.
  - destruct i; simpl in Hs; try done. destruct cand as [t|]; [|by injection Hs as <- <-].
    match type of Hs with context [heap ?m1 !! t] => destruct (heap m1 !! t) as [x|] eqn:Hx; [|done] end.
    cbn [mbind option_bind] in Hs. destruct (negb _); [by injection Hs as <- <-|].
    destruct (review_lock x); injection Hs as <- <-; [|done].
    by eapply is_trunk_evolves; [apply (stale_evolves None stale m)|].
  - destruct i; simpl in Hs; try done. destruct (heap m !! t) as [x|] eqn:Hx; [|done]. injection Hs as <- <-. simpl.
    destruct (last_committed_fork_snapshot x) as [f|] eqn:Hf; [|done]. by apply (snapshots_ok m x (Hm _ _ Hx)).
  - by destruct i; simpl in Hs; simplify_eq/=.
  - by destruct i; simpl in Hs; repeat case_match; simplify_eq/=.
  - cbn [thread_step] in Hs. destruct (heap m !! s) as [x|] eqn:Hx; [|done]. cbn in Hs.
    destruct (review_step m x r i) as [[x' next]|] eqn:Hr; [|done]. cbn in Hs. injection Hs as <- <-.
    destruct (review_step_ok m x r i x' next (Hm _ _ Hx) (Hpc _ Hx) Hr) as [_ Hok].
    destruct next as [r'|[o keep]]; [|pose proof (after_review_shape s kind o keep _ eq_refl); by destruct (after_review _ _ _ _)].
    simpl. intros y Hy. rewrite list_lookup_alter_eq, Hx in Hy. injection Hy as <-.
    eapply review_grows; [|by apply Hok]. by left.
  - destruct i; simpl in Hs; try done; [destruct (heap m !! s) as [x|] eqn:Hx; [|done]|by injection Hs as <- <-].
    injection Hs as <- <-. destruct (conversation x) as [|p items] eqn:Hc; [done|]. simpl. intros y Hy. rewrite Hx in Hy. by injection Hy as <-.
  - by destruct i; simpl in Hs; simplify_eq/=.
  - by destruct i, keep; simpl in Hs; simplify_eq/=.
  - by destruct i; simpl in Hs; repeat case_match; simplify_eq/=.
  - by destruct i; simpl in Hs; repeat case_match; simplify_eq/=.
  - by destruct i; simpl in Hs; repeat case_match; simplify_eq/=.
  - by destruct i.
Qed.

(** A review comes to own a session only when it is a new fork or an unlocked trunk. *)
Lemma owner_ok_same m m' pc pc' :
  (forall s x, heap m !! s = Some x -> exists x', heap m' !! s = Some x' /\
     config_ephemeral x' = config_ephemeral x /\ review_lock x' = review_lock x) ->
  owner pc' = owner pc \/ owner pc' = None -> (is_Some (owner pc') -> forked pc' = forked pc) ->
  owner_ok m pc -> owner_ok m' pc'.
Proof.
  intros Hh [Ho|Ho] Hf Hok s Hs; [|congruence]. rewrite Ho in Hs. destruct (Hok s Hs) as (x & Hx & Hk & Hl).
  destruct (Hh s x Hx) as (x' & Hx' & Hk' & Hl'). exists x'.
  rewrite Hf, Hk', Hl' by (rewrite Ho; by eexists). done.
Qed.
Lemma owner_ok_none m (pc : Point) : owner pc = None -> owner_ok m pc.
Proof. intros Ho s Hs. congruence. Qed.
Lemma same_locks_refl (m : Manager) s x :
  heap m !! s = Some x -> exists x', heap m !! s = Some x' /\
    config_ephemeral x' = config_ephemeral x /\ review_lock x' = review_lock x.
Proof. eauto. Qed.
Lemma same_locks_change (m : Manager) s f :
  (forall x, heap m !! s = Some x -> config_ephemeral (f x) = config_ephemeral x /\ review_lock (f x) = review_lock x) ->
  forall s' x, heap m !! s' = Some x -> exists x', heap (change s f m) !! s' = Some x' /\
    config_ephemeral x' = config_ephemeral x /\ review_lock x' = review_lock x.
Proof.
  intros Hf s' x Hx. unfold change. simpl. destruct (decide (s = s')) as [<-|Hne].
  - exists (f x). rewrite list_lookup_alter_eq, Hx. split; [done|]. by apply Hf.
  - exists x. by rewrite list_lookup_alter_ne.
Qed.

Definition free (m : Manager) (s : nat) : Prop :=
  forall x, heap m !! s = Some x -> config_ephemeral x = false /\ review_lock x = false.
Lemma free_new (m : Manager) : free m (length (heap m)).
Proof. intros x Hx. apply lookup_lt_Some in Hx. lia. Qed.
Lemma free_not_owned m s pc : free m s -> owner_ok m pc -> owner pc <> Some s.
Proof.
  intros Hf Hok Hs. destruct (Hok s Hs) as (x & Hx & Hk & Hl). destruct (Hf x Hx) as [He Hu].
  rewrite He in Hk. specialize (Hl (eq_sym Hk)). congruence.
Qed.

Lemma review_step_fork m x r i x' next :
  review_step (K := K) m x r i = Some (x', next) ->
  config_ephemeral x' = config_ephemeral x /\ review_lock x' = review_lock x.
Proof. intros Hs. destruct (review_step_continues m x r i x' next 0 Hs) as [[Hk _ _ _] Hl]. done. Qed.

Lemma thread_step_owner m pc i m' pc' :
  owner_ok m pc -> pc_ok m pc -> thread_step m pc i = Some (m', pc') ->
  owner_ok m' pc' /\ (forall s, owner pc' = Some s -> owner pc = Some s \/ free m s).
Proof.
  intros Hok Hpc Hs. destruct pc as [key|key|key stale|key spawned stale cand|key t|key f|s|s kind r|s o|s items o|s keep o|s o|s o|s|o].
  - destruct i; simpl in Hs; repeat case_match; simplify_eq/=; (split; [by apply owner_ok_none|done]).
  - destruct i; simpl in Hs; try done. match type of Hs with context [match ?st with Some _ => set_trunk m None | None => m end] =>
      destruct st end; case_match; simplify_eq/=; (split; [by apply owner_ok_none|done]).
  - destruct i; simpl in Hs; simplify_eq/=; (split; [by apply owner_ok_none|done]).
  - destruct i; simpl in Hs; try done. destruct cand as [t|];
      [|injection Hs as <- <-; split; [by apply owner_ok_none|done]].
    match type of Hs with context [heap ?m1 !! t] => destruct (heap m1 !! t) as [x|] eqn:Hx; [|done] end.
    cbn [mbind option_bind] in Hs. destruct (negb _); [injection Hs as <- <-; split; [by apply owner_ok_none|done]|].
    destruct (review_lock x) eqn:Hl; injection Hs as <- <-; [split; [by apply owner_ok_none|done]|].
    destruct Hpc as (y & Hy & Hk).
    destruct (heap_kept _ _ _ (stale_evolves None stale m) t y Hy) as (z & Hz & Hc). rewrite Hx in Hz. injection Hz as <-.
    split.
    + intros t' Ht'. assert (t' = t) as -> by (by destruct spawned; injection Ht').
      exists (set_review_lock true x). unfold change at 1. simpl. rewrite list_lookup_alter_eq, Hx.
      split; [done|]. simpl. rewrite (same_kind _ _ _ _ Hc), Hk. by destruct spawned.
    + intros t' Ht'. assert (t' = t) as -> by (by destruct spawned; injection Ht').
      right. intros y' Hy'. rewrite Hy in Hy'. injection Hy' as <-. split; [done|].
      destruct (review_lock y) eqn:Hl'; [|done]. apply (content_kept _ _ _ _ Hc) in Hl'; [congruence|done].
  - destruct i; simpl in Hs; try done. destruct (heap m !! t); [|done]. injection Hs as <- <-.
    split; [by apply owner_ok_none|done].
  - destruct i; simpl in Hs; simplify_eq/=; try (split; [by apply owner_ok_none|done]). split.
    + intros s [= <-]. eexists. simpl. rewrite lookup_app_r, Nat.sub_diag by lia. split; [done|].
      split; [|done]. by destruct f.
    + intros s [= <-]. right. apply free_new.
  - destruct i; simpl in Hs; repeat case_match; simplify_eq/=. split; [|by left].
    apply (owner_ok_same m _ (Registering s)); [|by left|done|exact Hok]. apply (same_locks_refl m).
  - cbn [thread_step] in Hs. destruct (heap m !! s) as [x|] eqn:Hx; [|done]. cbn in Hs.
    destruct (review_step m x r i) as [[x' next]|] eqn:Hr; [|done]. cbn in Hs. injection Hs as <- <-.
    apply review_step_fork in Hr as [Hk Hl].
    assert (forall pc', owner pc' = Some s \/ owner pc' = None -> (is_Some (owner pc') -> forked pc' = forked (OnSession s kind r)) ->
      owner_ok (change s (fun _ => x') m) pc' /\ forall s', owner pc' = Some s' -> owner (OnSession s kind r) = Some s' \/ free m s')
      as Hgo.
    { intros pc' Ho Hf. split.
      - apply (owner_ok_same m _ (OnSession s kind r)); [|exact Ho|exact Hf|exact Hok]. apply same_locks_change.
        intros y Hy. rewrite Hx in Hy. by injection Hy as <-.
      - intros s' Hs'. left. simpl. destruct Ho; congruence. }
    destruct next as [r'|[o keep]]; [by apply Hgo; [left|]|].
    apply Hgo; destruct kind; simpl; try case_match; simpl; auto; by intros [? [=]].
  - destruct i; simpl in Hs; try done; [destruct (heap m !! s) as [x|] eqn:Hx; [|done]|]; injection Hs as <- <-.
    + assert (owner (match conversation x with [] => Releasing s true o | items => StoringSnapshot s items o end) = Some s) as Ho
        by by destruct (conversation x).
      split; [|intros s' Hs'; left; simpl; congruence].
      apply (owner_ok_same m m (Refreshing s o)); [apply same_locks_refl|by left|by destruct (conversation x)|exact Hok].
    + split; [|by left]. apply (owner_ok_same m m (Refreshing s o)); [apply same_locks_refl|by left|done|exact Hok].
  - destruct i; simpl in Hs; simplify_eq/=. split; [|by left].
    apply (owner_ok_same m _ (StoringSnapshot s items o)); [|by left|done|exact Hok]. by apply same_locks_change.
  - destruct i; simpl in Hs; simplify_eq/=. split; [|by destruct keep].
    apply owner_ok_none. by destruct keep.
  - destruct i; simpl in Hs; repeat case_match; simplify_eq/=; (split; [by apply owner_ok_none|done]).
  - destruct i; simpl in Hs; repeat case_match; simplify_eq/=; (split; [by apply owner_ok_none|done]).
  - destruct i; simpl in Hs; repeat case_match; simplify_eq/=; (split; [by apply owner_ok_none|done]).
  - by destruct i.
Qed.

(** *** Every step keeps the invariant *)

Lemma inv_move m rs r pc m' pc' :
  inv (mkSystem m rs) -> rs !! r = Some pc -> evolves (owner pc) m m' -> sessions_ok m' ->
  (forall t, trunk m' = Some t -> is_trunk m' t) -> owner_ok m' pc' -> pc_ok m' pc' ->
  (forall s, owner pc' = Some s -> owner pc = Some s \/ free m s) ->
  inv (mkSystem m' (<[r := pc']> rs)).
Proof.
  intros [_ _ Hown Hpc Halone] Hr He Hs' Ht' Ho' Hp' Hfree. simpl in *.
  assert (forall r2 pc2, r2 <> r -> rs !! r2 = Some pc2 -> owner pc2 <> owner pc \/ owner pc2 = None) as Hother.
  { intros r2 pc2 Hne H2. destruct (owner pc2) as [s|] eqn:Hs2; [|by right]. left. intros Heq.
    by apply Hne, (Halone r2 r pc2 pc s). }
  assert (forall r2 pc2 s, r2 <> r -> rs !! r2 = Some pc2 -> owner pc' = Some s -> owner pc2 <> Some s) as Hnew.
  { intros r2 pc2 s Hne H2 Hs. destruct (Hfree s Hs) as [Hs'1|Hf].
    - destruct (Hother r2 pc2 Hne H2); congruence.
    - eapply free_not_owned; [exact Hf|by eapply Hown]. }
  constructor; simpl; [done..| | |].
  - intros r2 pc2 H2. apply list_lookup_insert_Some in H2 as [(-> & <- & _)|[Hne H2]]; [done|].
    eapply owner_ok_kept; eauto.
  - intros r2 pc2 H2. apply list_lookup_insert_Some in H2 as [(-> & <- & _)|[Hne H2]]; [done|].
    eapply pc_ok_kept; eauto.
  - intros r1 r2 pc1 pc2 s H1 H2 Hs1 Hs2.
    apply list_lookup_insert_Some in H1 as [(-> & <- & _)|[Hne1 H1]];
      apply list_lookup_insert_Some in H2 as [(-> & <- & _)|[Hne2 H2]]; [done|..].
    + by destruct (Hnew r2 pc2 s (not_eq_sym Hne2) H2 Hs1).
    + by destruct (Hnew r1 pc1 s (not_eq_sym Hne1) H1 Hs2).
    + by eapply Halone.
Qed.
Lemma inv_evolves m rs m' :
  inv (mkSystem m rs) -> evolves None m m' -> sessions_ok m' -> (forall t, trunk m' = Some t -> is_trunk m' t) ->
  inv (mkSystem m' rs).
Proof.
  intros [_ _ Hown Hpc Halone] He Hs' Ht'. simpl in *. constructor; simpl; [done..| | |done].
  - intros r pc Hr. apply (owner_ok_kept None m); [done| |by eapply Hown].
    destruct (owner pc); [by left|by right].
  - intros r pc Hr. apply (pc_ok_kept None m); [done| |by eapply Hown|by eapply Hpc].
    destruct (owner pc); [by left|by right].
Qed.
Lemma inv_parent m rs v es :
  inv (mkSystem m rs) -> parent_grows m (set_parent m v es) -> inv (mkSystem (set_parent m v es) rs).
Proof.
  intros Hi Hg. eapply inv_evolves; [exact Hi| | |]; destruct Hi as [Hs Ht _ _ _]; simpl in *.
  - constructor; [done|]. intros s x Hx. exists x. split; [done|]. by apply continues_same; [..|apply same_content_refl].
  - intros s x Hx. by eapply session_grows, Hs.
  - done.
Qed.
Lemma inv_shutdown m rs : inv (mkSystem m rs) -> inv (mkSystem (shutdown m) rs).
Proof.
  intros Hi. unfold shutdown. set (m0 := set_ephemeral (set_trunk m None) []).
  assert (inv (mkSystem m0 rs)) as H0.
  { eapply inv_evolves; [exact Hi|by apply evolves_same_heap| |done].
    by eapply sessions_same_heap; [apply (inv_sessions _ Hi)|..]. }
  assert (trunk m0 = None) as Ht0 by done. clearbody m0. clear Hi.
  generalize (option_list (trunk m) ++ ephemeral_reviews m). intros l.
  assert (trunk (foldr (fun s m => change s shutdown_session m) m0 l) = None /\
    inv (mkSystem (foldr (fun s m => change s shutdown_session m) m0 l) rs)) as [_ ?]; [|done].
  induction l as [|s l [IHt IH]]; [done|]. simpl. split; [done|].
  eapply inv_evolves; [exact IH| | |by intros t; simpl; rewrite IHt].
  - apply evolves_change. intros. apply shutdown_continues.
  - apply sessions_same; [apply (inv_sessions _ IH)|apply shutdown_same].
Qed.
Lemma inv_unlock m rs r pc s :
  inv (mkSystem m rs) -> rs !! r = Some pc -> owner pc = Some s ->
  inv (mkSystem (change s (set_review_lock false) m) (<[r := Finished None]> rs)).
Proof.
  intros Hi Hr Hs. pose proof Hi as [Hss Ht _ _ _]. simpl in *.
  assert (evolves (owner pc) m (change s (set_review_lock false) m)) as He.
  { rewrite Hs. apply evolves_change. intros x _. by constructor. }
  eapply inv_move; [exact Hi|exact Hr|exact He| | |by apply owner_ok_none|done|done].
  - apply sessions_change; [done|]. intros x _ [H1 H2 H3]. by constructor.
  - intros t Htr. eapply is_trunk_evolves; [exact He|by apply Ht].
Qed.

Lemma step_inv sys sys' : step sys sys' -> inv sys -> inv sys'.
Proof.
  intros Hstep. destruct Hstep as [m rs key|m rs r pc i m' pc' Hr Hs|m rs r pc m' pc' Hr _ Hd|m rs _|m rs es|m rs es Hlt]; intros Hi.
  - destruct Hi as [H1 H2 H3 H4 H5]. simpl in *. constructor; simpl; [done..| | |].
    + intros r pc Hr. apply lookup_app_Some in Hr as [Hr|[_ Hr]]; [by eapply H3|].
      apply list_lookup_singleton_Some in Hr as [_ <-]. by apply owner_ok_none.
    + intros r pc Hr. apply lookup_app_Some in Hr as [Hr|[_ Hr]]; [by eapply H4|].
      by apply list_lookup_singleton_Some in Hr as [_ <-].
    + intros r1 r2 pc1 pc2 s Hr1 Hr2 Hs1 Hs2.
      apply lookup_app_Some in Hr1 as [Hr1|[_ Hr1]]; [|by apply list_lookup_singleton_Some in Hr1 as [_ <-]].
      apply lookup_app_Some in Hr2 as [Hr2|[_ Hr2]]; [|by apply list_lookup_singleton_Some in Hr2 as [_ <-]].
      by eapply H5.
  - pose proof Hi as [H1 H2 H3 H4 _]. simpl in *.
    destruct (thread_step_owner m pc i m' pc' (H3 r pc Hr) (H4 r pc Hr) Hs) as [Ho Hf].
    pose proof (thread_step_evolves m pc i m' pc' Hs) as He.
    eapply inv_move; [exact Hi|exact Hr|exact He| | |done| |done].
    + eapply thread_step_sessions; [exact H1|by eapply H4|exact Hs].
    + intros t Ht. destruct (trunk_step m pc i m' pc' Hs) as [Heq|[Heq|(x & Hx & Hk & Heq)]]; rewrite Heq in Ht; [|done|].
      * by eapply is_trunk_evolves, H2.
      * injection Ht as <-. by exists x.
    + eapply thread_step_pc; [exact H1|exact H2|by eapply H4|exact Hs].
  - assert (m' = m /\ owner pc' = None /\ pc_ok m' pc' \/ m' = set_state_lock m false /\ pc' = Finished None \/
      exists s, owner pc = Some s /\ m' = change s (set_review_lock false) m /\ pc' = Finished None) as Hcases.
    { destruct pc as [| | | | | | |s [] ?|s ?|s ? ?|s ? ?| | | |]; simpl in Hd; injection Hd as <- <-;
        first [by left|by right; left|do 2 right; eexists; by split_and!]. }
    pose proof Hi as [H1 H2 _ _ _]. simpl in *.
    destruct Hcases as [(-> & Ho & Hp)|[[-> ->]|(s & Hs & -> & ->)]]; [| |by eapply inv_unlock].
    + eapply inv_move; [exact Hi|exact Hr|apply evolves_refl|done..|by apply owner_ok_none|done|congruence].
    + eapply inv_move; [exact Hi|exact Hr|by apply evolves_same_heap|by eapply sessions_same_heap|done|by apply owner_ok_none|done|done].
  - by apply inv_shutdown.
  - apply inv_parent; [done|]. left. split; [done|]. by eexists.
  - apply inv_parent; [done|]. right. simpl. unfold HeadTail.saturating_add. lia.
Qed.

Lemma sessions_inv sys : reachable sys -> inv sys.
Proof.
  unfold reachable. intros Hr. assert (inv initial) as H0.
  { by constructor; simpl; [intros s x Hx|..|intros r1 ? ? ? ? H1]; rewrite ?lookup_nil in *; simplify_eq/=. }
  revert H0. induction Hr as [|x y z Hxy Hyz IH]; [done|]. intros Hx. by eapply IH, step_inv.
Qed.

End runs.
End SessionRuns.
