(* ===== verification/GuardianSessionEnds.v ===== *)
(** How the reviews of the review sessions end: the choice of a session is made by one
    review at a time and never left locked, so every review can finish, also when nobody answers; a fork leaves the
    registry when its review ends, and is shut down then.  Moves of the system as an
    executable function are here too, for concrete runs. *)
From S2P Require Import Prelude HeadTailBuffer ContextHistory GuardianPrompt GuardianSelection GuardianReview GuardianSessions GuardianSessionRuns.

Module SessionEnds.
Import GuardianPrompt Guardian Sessions SessionRuns.

Section ends.
Context {K : Type} `{EqDecision K}.
Abbreviation Manager := (@GuardianReviewSessionManager K).
Abbreviation Session := (@GuardianReviewSession K).
Abbreviation Point := (@Pc K).
Abbreviation Sys := (@System K).

(** ** Executable moves *)

Inductive Move :=
| Enter (key : K)
| Review (r : nat) (i : Input)
| Drop (r : nat)
| Shutdown
| Record_ (es : list GuardianTranscriptEntry)
| Rewrite_ (es : list GuardianTranscriptEntry).
Definition move (mv : Move) (sys : Sys) : option Sys :=
  let m := manager sys in
  let rs := reviews sys in
  match mv with
  | Enter key => Some (mkSystem m (rs ++ [Entered key]))
  | Review r i => pc ← rs !! r; '(m', pc') ← thread_step m pc i; Some (mkSystem m' (<[r := pc']> rs))
  | Drop r =>
      pc ← rs !! r;
      if awaits pc then let '(m', pc') := drop_review m pc in Some (mkSystem m' (<[r := pc']> rs)) else None
  | Shutdown => if state_locked m then None else Some (mkSystem (shutdown m) rs)
  | Record_ es => Some (mkSystem (set_parent m (parent_version m) (parent_entries m ++ es)) rs)
  | Rewrite_ es =>
      if (parent_version m <? HeadTail.usize_max)%N
      then Some (mkSystem (set_parent m (HeadTail.saturating_add (parent_version m) 1) es) rs) else None
  end.
Definition moves (l : list Move) (sys : Sys) : option Sys :=
  foldl (fun acc mv => sys ← acc; move mv sys) (Some sys) l.

Lemma move_step mv sys sys' : move mv sys = Some sys' -> step sys sys'.
Proof.
  destruct sys as [m rs]. destruct mv as [key|r i|r| |es|es]; simpl; intros Hm.
  - injection Hm as <-. constructor.
  - destruct (rs !! r) as [pc|] eqn:Hr; [|done]. simpl in Hm.
    destruct (thread_step m pc i) as [[m' pc']|] eqn:Hs; [|done]. injection Hm as <-. by econstructor.
  - destruct (rs !! r) as [pc|] eqn:Hr; [|done]. simpl in Hm. destruct (awaits pc) eqn:Ha; [|done].
    destruct (drop_review m pc) as [m' pc'] eqn:Hd. injection Hm as <-. by econstructor.
  - destruct (state_locked m) eqn:Hl; [done|]. injection Hm as <-. by constructor.
  - injection Hm as <-. constructor.
  - destruct (parent_version m <? HeadTail.usize_max)%N eqn:Hv; [|done]. injection Hm as <-.
    constructor. by apply N.ltb_lt.
Qed.
Lemma moves_steps l sys sys' : moves l sys = Some sys' -> rtc step sys sys'.
Proof.
  revert sys. unfold moves. induction l as [|mv l IH]; intros sys Hm; simpl in Hm.
  - injection Hm as <-. constructor.
  - destruct (move mv sys) as [sys1|] eqn:H1.
    + eapply rtc_l; [by eapply move_step|by apply IH].
    + exfalso. clear -Hm. induction l as [|mv' l IH]; simpl in Hm; [done|by apply IH].
Qed.
Lemma moves_reachable l sys : moves l initial = Some sys -> reachable sys.
Proof. apply moves_steps. Qed.

(** ** The lock of the manager *)



(** ** Progress *)

Definition finished (pc : Point) : bool := match pc with Finished _ => true | _ => false end.




(** *** Interruption *)


(** ** Forks *)

(** The fork a review has spawned, and the one it has registered. *)
Definition held (pc : Point) : option nat :=
  match pc with
  | Registering s | OnSession s EphemeralForked _ | TakingEphemeral s _ | CleaningUp s => Some s
  | _ => None
  end.
Definition fork_of (pc : Point) : option nat :=
  match pc with Registering _ => None | _ => held pc end.
Definition is_down (m : Manager) (s : nat) : Prop := exists x, heap m !! s = Some x /\ is_shut_down x = true.
Record forks (sys : Sys) : Prop := {
  held_once : forall r1 r2 pc1 pc2 s, reviews sys !! r1 = Some pc1 -> reviews sys !! r2 = Some pc2 ->
    held pc1 = Some s -> held pc2 = Some s -> r1 = r2;
  held_exists : forall r pc s, reviews sys !! r = Some pc -> held pc = Some s -> is_Some (heap (manager sys) !! s);
  registered_held : forall s, s ∈ ephemeral_reviews (manager sys) ->
    exists r pc, reviews sys !! r = Some pc /\ fork_of pc = Some s;
  registered_once : NoDup (ephemeral_reviews (manager sys));
  held_registered : forall r pc s, reviews sys !! r = Some pc -> fork_of pc = Some s ->
    s ∈ ephemeral_reviews (manager sys) \/ is_down (manager sys) s;
}.

Lemma fork_held (pc : Point) s : fork_of pc = Some s -> held pc = Some s.
Proof. by destruct pc. Qed.
Lemma is_down_evolves o m m' s : evolves o m m' -> is_down m s -> is_down m' s.
Proof.
  intros [_ Hh] (x & Hx & Hd). destruct (Hh s x Hx) as (x' & Hx' & Hc). exists x'.
  split; [done|]. by eapply stays_down.
Qed.
Lemma heap_evolves o (m m' : Manager) s : evolves o m m' -> is_Some (heap m !! s) -> is_Some (heap m' !! s).
Proof. intros [_ Hh] [x Hx]. destruct (Hh s x Hx) as (x' & Hx' & _). by exists x'. Qed.
Lemma swap_remove_perm s (l : list nat) : s ∈ l -> s :: swap_remove s l ≡ₚ l.
Proof.
  intros Hs. unfold swap_remove.
  destruct (list_find (eq s) l) as [[i y]|] eqn:Hf; [|by rewrite list_find_None, Forall_forall in Hf; destruct (Hf s Hs)].
  apply list_find_Some in Hf as (Hi & <- & _).
  destruct l as [|z l' _] using rev_ind; [done|]. rewrite last_snoc, length_app. simpl.
  replace (length l' + 1 - 1) with (length l') by lia.
  apply lookup_app_Some in Hi as [Hi|[Hlen Hi]].
  - rewrite insert_app_l by (by eapply lookup_lt_Some). rewrite take_app_length' by (by rewrite length_insert).
    rewrite <- (take_drop_middle l' i s Hi) at 2. rewrite insert_take_drop by (by eapply lookup_lt_Some).
    rewrite (Permutation_app_comm _ [z]). simpl. rewrite <- !Permutation_middle. constructor.
  - apply list_lookup_singleton_Some in Hi as [Hz <-]. rewrite insert_app_r_alt by lia.
    replace (i - length l') with 0 by lia. rewrite take_app_length. by rewrite (Permutation_app_comm _ [z]).
Qed.
Lemma take_active_down s (m : Manager) :
  is_Some (heap m !! s) -> s ∈ ephemeral_reviews m -> is_down (take_active_ephemeral s m) s.
Proof.
  intros [x Hx] Hs. unfold take_active_ephemeral. rewrite bool_decide_true by done.
  exists (shutdown_session x). split; [|done]. unfold change. simpl. by rewrite list_lookup_alter_eq, Hx.
Qed.
Lemma take_active_others s (m : Manager) :
  NoDup (ephemeral_reviews m) ->
  NoDup (ephemeral_reviews (take_active_ephemeral s m)) /\
  forall s', s' ∈ ephemeral_reviews (take_active_ephemeral s m) <-> s' ∈ ephemeral_reviews m /\ s' <> s.
Proof.
  intros Hnd. unfold take_active_ephemeral. case_bool_decide as Hs.
  - simpl. pose proof (swap_remove_perm s _ Hs) as Hp.
    generalize dependent (swap_remove s (ephemeral_reviews m)). intros l Hp. rewrite <- Hp in Hnd. apply NoDup_cons in Hnd as [Hni Hnd].
    split; [done|]. intros s'. rewrite <- Hp, elem_of_cons. split; [|by intros [[->|?] ?]].
    intros Hin. split; [by right|]. by intros ->.
  - split; [done|]. intros s'. split; [|by intros [? _]]. intros Hin. split; [done|]. by intros ->.
Qed.

Lemma thread_step_fork (m : Manager) (pc : Point) i m' pc' :
  thread_step m pc i = Some (m', pc') ->
  (ephemeral_reviews m' = ephemeral_reviews m /\ held pc' = held pc /\ fork_of pc' = fork_of pc) \/
  (ephemeral_reviews m' = ephemeral_reviews m /\ held pc = None /\ fork_of pc' = None /\
   held pc' = Some (length (heap m)) /\ is_Some (heap m' !! length (heap m))) \/
  (exists s, pc = Registering s /\ ephemeral_reviews m' = ephemeral_reviews m ++ [s] /\
     held pc' = Some s /\ fork_of pc' = Some s) \/
  (exists s, fork_of pc = Some s /\ m' = take_active_ephemeral s m /\ held pc' = None).
Proof.
  intros Hs. destruct pc as [key|key|key stale|key spawned stale cand|key t|key f|s|s kind r|s o|s items o|s keep o|s o|s o|s|o].
  - left. destruct i; simpl in Hs; repeat case_match; by simplify_eq/=.
  - left. destruct i; simpl in Hs; try done. match type of Hs with context [match ?st with Some _ => set_trunk m None | None => m end] =>
      destruct st end; case_match; by simplify_eq/=.
  - left. by destruct i; simpl in Hs; simplify_eq/=.
  - left. destruct i; simpl in Hs; try done. destruct cand as [t|]; [|injection Hs as <- <-; by destruct stale].
    match type of Hs with context [heap ?m1 !! t] => destruct (heap m1 !! t) as [x|] eqn:Hx; [|done] end.
    cbn [mbind option_bind] in Hs. destruct (negb _); [injection Hs as <- <-; by destruct stale|].
    destruct (review_lock x); injection Hs as <- <-; by destruct stale, spawned.
  - left. destruct i; simpl in Hs; try done. by destruct (heap m !! t); simplify_eq/=.
  - destruct i; simpl in Hs; simplify_eq/=; try by left. right; left. split_and!; try done.
    by rewrite lookup_app_r, Nat.sub_diag by lia.
  - right; right; left. exists s. destruct i; simpl in Hs; repeat case_match; by simplify_eq/=.
  - left. cbn [thread_step] in Hs. destruct (heap m !! s) as [x|] eqn:Hx; [|done]. cbn in Hs.
    destruct (review_step m x r i) as [[x' next]|] eqn:Hr; [|done]. cbn in Hs. injection Hs as <- <-.
    destruct next as [r'|[o keep]]; [done|]. by destruct kind, keep, o.
  - left. destruct i; simpl in Hs; try done; [|by simplify_eq/=].
    destruct (heap m !! s) as [x|]; [|done]. injection Hs as <- <-. by destruct (conversation x).
  - left. by destruct i; simpl in Hs; simplify_eq/=.
  - left. by destruct i, keep; simpl in Hs; simplify_eq/=.
  - left. destruct i; simpl in Hs; repeat case_match; simplify_eq/=. unfold remove_trunk_if_current. by case_bool_decide.
  - right; right; right. exists s. destruct i; simpl in Hs; repeat case_match; by simplify_eq/=.
  - right; right; right. exists s. destruct i; simpl in Hs; repeat case_match; by simplify_eq/=.
  - by destruct i.
Qed.

Lemma forks_move o m rs r pc m' pc' :
  forks (mkSystem m rs) -> rs !! r = Some pc -> evolves o m m' ->
  (forall s, held pc' = Some s -> (held pc = Some s \/ heap m !! s = None) /\ is_Some (heap m' !! s)) ->
  (forall s, s ∈ ephemeral_reviews m' -> fork_of pc' = Some s \/ s ∈ ephemeral_reviews m /\ fork_of pc <> Some s) ->
  NoDup (ephemeral_reviews m') ->
  (forall s, s ∈ ephemeral_reviews m \/ fork_of pc' = Some s -> s ∈ ephemeral_reviews m' \/ is_down m' s) ->
  forks (mkSystem m' (<[r := pc']> rs)).
Proof.
  intros [F1 F2 F3 F4 F5] Hr He H1 H2 Hnd H3. simpl in *. pose proof (lookup_lt_Some _ _ _ Hr) as Hlt.
  assert (forall r2 pc2 s, r2 <> r -> rs !! r2 = Some pc2 -> held pc2 = Some s -> held pc' = Some s -> False) as Hother.
  { intros r2 pc2 s Hne Hr2 Hs2 Hs. destruct (H1 s Hs) as [[Hh|Hn] _]; [by apply Hne; eapply F1|].
    destruct (F2 r2 pc2 s Hr2 Hs2) as [x Hx]. congruence. }
  constructor; simpl; [| | |done|].
  - intros r1 r2 pc1 pc2 s Hr1 Hr2 Hs1 Hs2.
    apply list_lookup_insert_Some in Hr1 as [(-> & <- & _)|[Hne1 Hr1]];
      apply list_lookup_insert_Some in Hr2 as [(-> & <- & _)|[Hne2 Hr2]]; [done|..].
    + by destruct (Hother r2 pc2 s).
    + by destruct (Hother r1 pc1 s).
    + by eapply F1.
  - intros r2 pc2 s Hr2 Hs2. apply list_lookup_insert_Some in Hr2 as [(-> & <- & _)|[Hne Hr2]]; [by apply H1|].
    eapply heap_evolves; [exact He|by eapply F2].
  - intros s Hs. destruct (H2 s Hs) as [Hf|[Hin Hnot]]; [exists r, pc'; by rewrite list_lookup_insert_eq|].
    destruct (F3 s Hin) as (r2 & pc2 & Hr2 & Hf2). exists r2, pc2.
    rewrite list_lookup_insert_ne; [done|]. intros <-. congruence.
  - intros r2 pc2 s Hr2 Hs2. apply list_lookup_insert_Some in Hr2 as [(-> & <- & _)|[Hne Hr2]]; [by apply H3; right|].
    destruct (F5 r2 pc2 s Hr2 Hs2) as [Hin|Hd]; [by apply H3; left|right; by eapply is_down_evolves].
Qed.
Lemma forks_keep o m rs r pc m' pc' :
  forks (mkSystem m rs) -> rs !! r = Some pc -> evolves o m m' -> ephemeral_reviews m' = ephemeral_reviews m ->
  held pc' = held pc \/ held pc' = None -> fork_of pc' = fork_of pc ->
  forks (mkSystem m' (<[r := pc']> rs)).
Proof.
  intros Hf Hr He Heq Hh Hfo. pose proof Hf as [F1 F2 F3 F4 F5]. simpl in *.
  eapply forks_move; [exact Hf|exact Hr|exact He|..]; rewrite ?Heq, ?Hfo; [| |done|].
  - intros s Hs. destruct Hh as [Hh|Hh]; [|congruence]. rewrite Hh in Hs.
    split; [by left|]. eapply heap_evolves; [exact He|by eapply F2].
  - intros s Hs. destruct (decide (fork_of pc = Some s)); [by left|by right].
  - intros s [Hs|Hs]; [by left|]. destruct (F5 r pc s Hr Hs) as [Hin|Hd]; [by left|right; by eapply is_down_evolves].
Qed.
Lemma thread_step_forks m rs r pc i m' pc' :
  forks (mkSystem m rs) -> rs !! r = Some pc -> thread_step m pc i = Some (m', pc') ->
  forks (mkSystem m' (<[r := pc']> rs)).
Proof.
  intros Hf Hr Hs. pose proof (thread_step_evolves m pc i m' pc' Hs) as He.
  pose proof Hf as [F1 F2 F3 F4 F5]. simpl in *.
  destruct (thread_step_fork m pc i m' pc' Hs) as
    [(Heq & Hh & Hfo)|[(Heq & Hh & Hfo & Hh' & Hx)|[(s & -> & Heq & Hh & Hfo)|(s & Hfo & -> & Hh)]]].
  - eapply forks_keep; eauto.
  - assert (fork_of pc = None) as Hn by by destruct pc as [| | | | | |?|? [] ?| | | | | | |].
    eapply forks_move; [exact Hf|exact Hr|exact He|..]; rewrite ?Heq, ?Hfo, ?Hn; [| |done|].
    + intros s Hs'. rewrite Hh' in Hs'. injection Hs' as <-. split; [right|done]. by apply lookup_ge_None.
    + intros s Hin. by right.
    + intros s [Hin|?]; [by left|done].
  - assert (s ∉ ephemeral_reviews m) as Hni.
    { intros Hin. destruct (F3 s Hin) as (r2 & pc2 & Hr2 & Hf2).
      assert (r2 = r) as -> by (eapply F1; [exact Hr2|exact Hr|by apply fork_held|done]). simplify_eq/=. }
    eapply forks_move; [exact Hf|exact Hr|exact He|..]; rewrite ?Heq, ?Hfo.
    + intros s' Hs'. rewrite Hh in Hs'. injection Hs' as <-. split; [by left|].
      eapply heap_evolves; [exact He|by eapply F2].
    + intros s' [Hin|Hin%list_elem_of_singleton]%elem_of_app; [by right|left; by rewrite Hin].
    + apply NoDup_app. split_and!; [done| |apply NoDup_singleton].
      intros s' Hin Hs'%list_elem_of_singleton. by subst.
    + intros s' [Hin|[= <-]]; left; apply elem_of_app; [by left|right; by apply list_elem_of_singleton].
  - destruct (take_active_others s m F4) as [Hnd Hmem].
    assert (fork_of pc' = None) as Hn by by destruct pc' as [| | | | | |?|? [] ?| | | | | | |].
    eapply forks_move; [exact Hf|exact Hr|exact He|..]; [|intros s' Hin; right|done|]; rewrite ?Hn.
    + intros s' Hs'. congruence.
    + apply Hmem in Hin as [? ?]. split; [done|congruence].
    + intros s' [Hin|?]; [|done]. destruct (decide (s' = s)) as [->|Hne]; [|left; by apply Hmem].
      right. apply take_active_down; [|done]. eapply F2; [exact Hr|by apply fork_held].
Qed.
Lemma shutdown_evolves (m : Manager) : evolves None m (shutdown m).
Proof.
  unfold shutdown. set (m0 := set_ephemeral (set_trunk m None) []).
  assert (forall l, evolves None m0 (foldr (fun s m => change s shutdown_session m) m0 l) /\
    parent_version (foldr (fun s m => change s shutdown_session m) m0 l) = parent_version m0 /\
    parent_entries (foldr (fun s m => change s shutdown_session m) m0 l) = parent_entries m0) as Hl.
  { induction l as [|s l (IH & Hv & He)]; [by split; [apply evolves_refl|]|]. simpl. split_and!; [|done..].
    eapply evolves_trans; [exact Hv|exact He|exact IH|]. apply evolves_change. intros. apply shutdown_continues. }
  destruct (Hl (option_list (trunk m) ++ ephemeral_reviews m)) as (He & _).
  eapply (evolves_trans _ _ m0); [done..|by apply evolves_same_heap|exact He].
Qed.
Lemma shutdown_down (m : Manager) s :
  s ∈ ephemeral_reviews m -> is_Some (heap m !! s) -> is_down (shutdown m) s.
Proof.
  intros Hs Hx. unfold shutdown. assert (s ∈ option_list (trunk m) ++ ephemeral_reviews m) as Hin by by apply elem_of_app; right.
  assert (is_Some (heap (set_ephemeral (set_trunk m None) []) !! s)) as Hx0 by done. clear Hs Hx.
  revert Hx0 Hin. generalize (option_list (trunk m) ++ ephemeral_reviews m), (set_ephemeral (set_trunk m None) []).
  intros l m0 Hx0 Hin. 
  assert (forall l, is_Some (heap (foldr (fun s m => change s shutdown_session m) m0 l) !! s)) as Hsome.
  { clear Hin l. intros l. induction l as [|s' l IH]; [done|]. simpl. destruct (decide (s' = s)) as [->|Hne].
    - rewrite list_lookup_alter_eq. by apply fmap_is_Some.
    - by rewrite list_lookup_alter_ne. }
  induction l as [|s' l IH]; [by apply elem_of_nil in Hin|]. simpl.
  destruct (decide (s' = s)) as [->|Hne].
  - destruct (Hsome l) as [x Hx]. exists (shutdown_session x). split; [|done].
    simpl. by rewrite list_lookup_alter_eq, Hx.
  - apply elem_of_cons in Hin as [->|Hin]; [done|]. destruct (IH Hin) as (x & Hx & Hd). exists x.
    split; [|done]. simpl. by rewrite list_lookup_alter_ne.
Qed.
Lemma step_forks sys sys' : step sys sys' -> forks sys -> forks sys'.
Proof.
  intros Hstep. destruct Hstep as [m rs key|m rs r pc i m' pc' Hr Hs|m rs r pc m' pc' Hr Ha Hd|m rs _|m rs es|m rs es _]; intros Hi.
  - assert (forall r pc s, (rs ++ [Entered key]) !! r = Some pc -> held pc = Some s -> rs !! r = Some pc) as Hold.
    { intros r pc s Hr Hc. apply lookup_app_Some in Hr as [Hr|[_ Hr]]; [done|].
      by apply list_lookup_singleton_Some in Hr as [_ <-]. }
    destruct Hi as [F1 F2 F3 F4 F5]. simpl in *. constructor; simpl; [| | |done|].
    + intros r1 r2 pc1 pc2 s Hr1 Hr2 Hs1 Hs2. eauto.
    + intros r pc s Hr Hs. eauto.
    + intros s Hs. destruct (F3 s Hs) as (r & pc & Hr & Hf). exists r, pc. split; [by apply lookup_app_l_Some|done].
    + intros r pc s Hr Hs. eapply F5; [eapply Hold; [done|by apply fork_held]|done].
  - by eapply thread_step_forks.
  - assert (evolves (owner pc) m m' /\ ephemeral_reviews m' = ephemeral_reviews m /\
      (held pc' = held pc \/ held pc' = None) /\ fork_of pc' = fork_of pc) as (He & Heq & Hh & Hfo).
    { destruct pc as [| | | | | | |s [] ?|s ?|s ? ?|s ? ?| | | |]; simpl in Hd; injection Hd as <- <-; try done;
        (split; [|by auto]); try apply evolves_refl; try by apply evolves_same_heap.
      all: apply evolves_change; intros; by constructor. }
    by eapply forks_keep.
  - destruct Hi as [F1 F2 F3 F4 F5]. simpl in *. pose proof (shutdown_evolves m) as He.
    assert (ephemeral_reviews (shutdown m) = []) as Hnil.
    { unfold shutdown. generalize (option_list (trunk m) ++ ephemeral_reviews m). intros l. by induction l. }
    constructor; simpl; rewrite ?Hnil; [done| | |by apply NoDup_nil|].
    + intros r pc s Hr Hs. eapply heap_evolves; [exact He|by eapply F2].
    + intros s Hin. by apply elem_of_nil in Hin.
    + intros r pc s Hr Hs. right. destruct (F5 r pc s Hr Hs) as [Hin|Hd]; [|by eapply is_down_evolves].
      apply shutdown_down; [done|]. eapply F2; [exact Hr|by apply fork_held].
  - by destruct Hi.
  - by destruct Hi.
Qed.
Lemma reachable_forks sys : reachable sys -> forks sys.
Proof.
  unfold reachable. intros Hr. assert (forks initial) as H0.
  { constructor; simpl; [intros ? ? ? ? ? H1|intros ? ? ? H1|intros s H1|constructor|intros ? ? ? H1];
      rewrite ?lookup_nil in H1; by inversion H1. }
  revert H0. induction Hr as [|x y z Hxy Hyz IH]; [done|]. intros Hx. by eapply IH, step_forks.
Qed.

(** ** What holds of every reachable system *)

(** C11: the reviewer is offered everything.  Whatever the order in which reviews start, are
    interrupted, dropped or forked, and however the parent's transcript grows or is
    rewritten meanwhile: in every conversation of a review session, each prompt together
    with the prompts before it has offered every entry of the transcript it was built from;
    and while the parent's history has the version a review was started with, the entries
    up to the position this review will commit have been offered to its session.  Offered
    entries go through the selection of their prompt: a prompt that has no note that
    entries were omitted shows each of them, in the line of its number, while an entry that
    a prompt leaves out for the budgets counts as reviewed and is not offered again. *)
Theorem the_reviewer_is_offered_everything (sys : Sys) :
  reachable sys ->
  (forall s x, heap (manager sys) !! s = Some x -> gapless (conversation x)) /\
  (forall r s kind c turn_id err x i e,
     reviews sys !! r = Some (OnSession s kind (Waiting c turn_id err)) -> heap (manager sys) !! s = Some x ->
     parent_history_version c = parent_version (manager sys) ->
     parent_entries (manager sys) !! i = Some e -> i < transcript_entry_count c ->
     offered (conversation x) i e) /\
  (forall s x p i e lines,
     heap (manager sys) !! s = Some x -> p ∈ conversation x -> offers p i e -> prompt_lines p = Some (lines, None) ->
     exists line tokens, render_entry (S i) e = Some (line, tokens) /\ lines !! (i - offered_from p) = Some line).
Proof.
  intros Hr. apply sessions_inv in Hr as [Hs _ _ Hpc _]. split_and!.
  - intros s x Hx. apply (conversation_ok _ _ (Hs s x Hx)).
  - intros r s kind c t err x i e Hrev Hx Hv He Hlt.
    destruct (Hpc _ _ Hrev x Hx) as (w & Hl & [_ Hp] & Hw). destruct (Hp Hv) as [rest Hrest].
    apply Hw. rewrite Hrest, lookup_app_l in He by lia. done.
  - intros s x p i e lines _ _ Ho Hl. by apply offered_is_shown.
Qed.

(** C12: a review has its session to itself.  No two reviews work on one session, the
    trunk it uses is locked, and no step of another review changes what its session was
    asked, where its transcript stands, or what a fork of it would inherit. *)
Theorem reviews_have_their_session_alone (sys : Sys) r pc s :
  reachable sys -> reviews sys !! r = Some pc -> owner pc = Some s ->
  (forall r' pc', reviews sys !! r' = Some pc' -> owner pc' = Some s -> r' = r) /\
  exists x, heap (manager sys) !! s = Some x /\ (config_ephemeral x = false -> review_lock x = true) /\
    forall r' pc' i m' pc'', r' <> r -> reviews sys !! r' = Some pc' ->
      thread_step (manager sys) pc' i = Some (m', pc'') ->
      exists x', heap m' !! s = Some x' /\ same_content x x'.
Proof.
  intros Hreach Hr Ho. apply sessions_inv in Hreach as [_ _ Hown _ Halone]. split.
  - intros r' pc' Hr' Ho'. by eapply Halone.
  - destruct (Hown r pc Hr s Ho) as (x & Hx & Hk & Hl). exists x. split_and!; [done|by rewrite Hk|].
    intros r' pc' i m' pc'' Hne Hr' Hs.
    destruct (heap_kept _ _ _ (thread_step_evolves _ _ _ _ _ Hs) s x Hx) as (x' & Hx' & Hc).
    exists x'. split; [done|]. apply (content_kept _ _ _ _ Hc). intros Ho'. apply Hne. by eapply Halone.
Qed.

(** forks end with their reviews.  Every fork in the registry belongs to a review
    that is still running; while its review runs it is registered, or the manager's
    shutdown has taken it down; and a step by which the review lets go of it leaves it
    out of the registry and shut down. *)
Theorem forks_end_with_their_reviews (sys : Sys) :
  reachable sys ->
  (forall s, s ∈ ephemeral_reviews (manager sys) -> exists r pc, reviews sys !! r = Some pc /\ fork_of pc = Some s) /\
  (forall r pc s, reviews sys !! r = Some pc -> fork_of pc = Some s ->
     (s ∈ ephemeral_reviews (manager sys) \/ is_down (manager sys) s) /\
     forall i m' pc', thread_step (manager sys) pc i = Some (m', pc') ->
       fork_of pc' = Some s \/ s ∉ ephemeral_reviews m' /\ is_down m' s).
Proof.
  intros Hr. apply reachable_forks in Hr as [F1 F2 F3 F4 F5]. split; [done|].
  intros r pc s Hr Hf. split; [by eapply F5|]. intros i m' pc' Hs.
  pose proof (thread_step_evolves _ _ _ _ _ Hs) as He. pose proof (fork_held pc s Hf) as Hh.
  destruct (thread_step_fork _ _ _ _ _ Hs) as [(_ & _ & ->)|[(_ & ? & _)|[(? & -> & _)|(s' & Hf' & -> & _)]]];
    [by left|congruence|done|right].
  rewrite Hf in Hf'. injection Hf' as <-. destruct (take_active_others s (manager sys) F4) as [_ Hmem].
  split; [by intros [_ ?]%Hmem|]. destruct (F5 r pc s Hr Hf) as [Hin|Hd].
  - apply take_active_down; [by eapply F2|done].
  - by eapply is_down_evolves.
Qed.


End ends.

(** ** Concrete runs *)

(** A first review on a new trunk is completed and its snapshot kept; a second works on
    the trunk when the transcript has grown, and a third in a fork of it. *)
Definition says (t : str) : GuardianTranscriptEntry := mkEntry KindUser t.
Definition ticks (r n : nat) : list (@Move nat) := repeat (Review r Tick) n.
Definition first_review : list (@Move nat) :=
  [Record_ [says $"one"; says $"two"]; Enter 0] ++ ticks 0 2 ++ [Review 0 Spawned] ++ ticks 0 3 ++
  [Review 0 (Submitted $"a"); Review 0 (GotEvent (mkEvent $"a" (TurnComplete $"a" (Some $"{}"))));
   Review 0 Tick; Review 0 RolloutLoaded] ++ ticks 0 2.
Definition three_reviews : list (@Move nat) :=
  first_review ++ [Record_ [says $"three"]; Enter 0] ++ ticks 1 5 ++ [Review 1 (Submitted $"b"); Enter 0] ++
  ticks 2 4 ++ [Review 2 Spawned] ++ ticks 2 3 ++ [Review 2 (Submitted $"c")].
Definition three_reviews_end : @System nat := default initial (moves three_reviews initial).

Lemma three_reviews_run : moves three_reviews initial = Some three_reviews_end.
Proof. vm_compute. reflexivity. Qed.
Lemma three_reviews_reached : reachable three_reviews_end.
Proof. exact (moves_reachable three_reviews three_reviews_end three_reviews_run). Qed.

Lemma the_reviewer_is_offered_everything_witness :
  exists x, heap (manager three_reviews_end) !! 1 = Some x /\ gapless (conversation x) /\
    offered (conversation x) 0 (says $"one") /\ offered (conversation x) 2 (says $"three") /\
    prompt_lines <$> conversation x = [Some ([$"[1] user: one"; $"[2] user: two"], None); Some ([$"[3] user: three"], None)] /\
    exists line tokens, render_entry 3 (says $"three") = Some (line, tokens) /\ [$"[3] user: three"] !! 0 = Some line.
Proof.
  destruct (the_reviewer_is_offered_everything three_reviews_end three_reviews_reached) as (H1 & H2 & H3).
  eexists. split; [vm_compute; reflexivity|].
  split; [apply (H1 1); vm_compute; reflexivity|].
  split; [eapply (H2 2 1 EphemeralForked); try (vm_compute; reflexivity); vm_compute; lia|].
  split; [eapply (H2 2 1 EphemeralForked); try (vm_compute; reflexivity); vm_compute; lia|].
  split; [vm_compute; reflexivity|].
  eapply (H3 1 _ (mkPrompt 0 (ShapeDelta 2) [says $"one"; says $"two"; says $"three"]) 2); [vm_compute; reflexivity|right; left| |].
  - split; [apply le_n|reflexivity].
  - vm_compute. reflexivity.
Defined.
Lemma reviews_have_their_session_alone_witness :
  exists x, heap (manager three_reviews_end) !! 0 = Some x /\ review_lock x = true /\
    forall i m' pc'', thread_step (manager three_reviews_end)
        (OnSession 1 EphemeralForked (Waiting (mkCursor 0 3) $"c" None)) i = Some (m', pc'') ->
      exists x', heap m' !! 0 = Some x' /\ same_content x x'.
Proof.
  destruct (reviews_have_their_session_alone three_reviews_end 1
    (OnSession 0 TrunkReused (Waiting (mkCursor 0 3) $"b" None)) 0 three_reviews_reached
    ltac:(vm_compute; reflexivity) ltac:(reflexivity)) as [_ (x & Hx & Hl & Hs)].
  exists x. split; [exact Hx|]. split.
  - apply Hl. vm_compute in Hx. injection Hx as <-. reflexivity.
  - intros i m' pc'' Hi. apply (Hs 2 (OnSession 1 EphemeralForked (Waiting (mkCursor 0 3) $"c" None)) i m' pc'');
      [lia|vm_compute; reflexivity|exact Hi].
Defined.
Lemma forks_end_with_their_reviews_witness :
  ephemeral_reviews (manager three_reviews_end) = [1] /\
  forall i m' pc', thread_step (manager three_reviews_end)
      (OnSession 1 EphemeralForked (Waiting (mkCursor 0 3) $"c" None)) i = Some (m', pc') ->
    fork_of pc' = Some 1 \/ 1 ∉ ephemeral_reviews m' /\ is_down m' 1.
Proof.
  split; [vm_compute; reflexivity|]. intros i m' pc' Hi.
  destruct (forks_end_with_their_reviews three_reviews_end three_reviews_reached) as [_ H2].
  apply (H2 2 (OnSession 1 EphemeralForked (Waiting (mkCursor 0 3) $"c" None)) 1 ltac:(vm_compute; reflexivity) ltac:(reflexivity))
    with (i := i). exact Hi.
Defined.

(** *** Sessions that nobody shuts down *)

(** A session that no manager or review holds, and that was never shut down. *)
Definition lost (sys : @System nat) (s : nat) : bool :=
  forallb finished (reviews sys) &&
  bool_decide (trunk (manager sys) = None /\ ephemeral_reviews (manager sys) = []) &&
  match heap (manager sys) !! s with Some x => negb (is_shut_down x) | None => false end.
(** The stale trunk is out of the manager while its successor is spawned; when the spawn
    fails, or times out, it is forgotten without being shut down. *)
Lemma a_stale_trunk_can_be_lost :
  exists sys, reachable sys /\ lost sys 0 = true.
Proof.
  exists (default initial (moves (first_review ++ [Enter 1] ++ ticks 1 2 ++ [Review 1 (SpawnErr $"no session")]) initial)).
  split; [|vm_compute; reflexivity].
  apply (moves_reachable (first_review ++ [Enter 1] ++ ticks 1 2 ++ [Review 1 (SpawnErr $"no session")])).
  vm_compute. reflexivity.
Qed.
(** A review dropped while it waits to register its fork leaves the fork behind; after
    the shutdown of the manager nothing refers to it. *)
Definition dropped_fork : list (@Move nat) :=
  first_review ++ [Enter 0] ++ ticks 1 4 ++ [Enter 0] ++ ticks 2 4 ++ [Review 2 Spawned; Drop 2; Drop 1; Shutdown].
Lemma a_fork_can_be_lost : exists sys, reachable sys /\ lost sys 1 = true.
Proof.
  exists (default initial (moves dropped_fork initial)).
  split; [|vm_compute; reflexivity]. apply (moves_reachable dropped_fork). vm_compute. reflexivity.
Qed.

End SessionEnds.
