(* ===== verification/Orchestrator.v ===== *)
(** The orchestration of a tool call ([core/src/tools/orchestrator.rs]): approval, choice of
    the sandbox, first attempt, and the retry after a denial; with the approval cache and
    the interfaces of [core/src/tools/sandboxing.rs] and the approval side of the shell,
    unified-exec and patch tools ([core/src/tools/runtimes]).  What a tool runs, what hooks
    and reviewers answer, and the identifiers drawn are operations of an interface to the
    world; every question and every attempt is recorded in a trace. *)
From S2P Require Import Prelude Paths PathOps ShellCommand Permissions PermissionProfile ExecApproval.
From S2P Require Import NetworkProxy NetworkApproval.
From stdpp Require Import gmap.

Module Orchestrator.
Import Shell Permissions Profile Approval NetApproval.

(** ** The approval cache *)

(** Keys are stored by their serialization, which may fail. *)
Definition ApprovalStore : Type := gmap str ReviewDecision.
Section cache.
Context {K : Type} (to_string : K -> option str).

Definition get (store : ApprovalStore) (key : K) : option ReviewDecision :=
  s ← to_string key; store !! s.
Definition put (store : ApprovalStore) (key : K) (value : ReviewDecision) : ApprovalStore :=
  match to_string key with Some s => <[s := value]> store | None => store end.

(** The store is read, then locked again for each write; [fetch] asks the user. *)
Definition with_cached_approval {W} (store_of : W -> ApprovalStore) (set_store : W -> ApprovalStore -> W)
    (keys : list K) (fetch : W -> W * ReviewDecision) (w : W) : W * ReviewDecision :=
  match keys with
  | [] => fetch w
  | _ =>
      if forallb (fun key => bool_decide (get (store_of w) key = Some ApprovedForSession)) keys
      then (w, ApprovedForSession)
      else
        let (w, decision) := fetch w in
        if bool_decide (decision = ApprovedForSession)
        then (set_store w (fold_left (fun st key => put st key ApprovedForSession) keys (store_of w)), decision)
        else (w, decision)
  end.
End cache.

(** ** Commands in the cache ([command_canonicalization.rs]) *)

Definition CANONICAL_BASH_SCRIPT_PREFIX : str := $"__codex_shell_script__".
Definition CANONICAL_POWERSHELL_SCRIPT_PREFIX : str := $"__codex_powershell_script__".
Definition POWERSHELL_FLAGS : list str := [$"-nologo"; $"-noprofile"; $"-command"; $"-c"].
Fixpoint powershell_script (args : list str) : option str :=
  match args with
  | flag :: ((script :: _) as rest) =>
      let lower := Str.to_ascii_lowercase flag in
      if negb (bool_decide (lower ∈ POWERSHELL_FLAGS)) then None
      else if bool_decide (lower = $"-command") || bool_decide (lower = $"-c") then Some script
      else powershell_script rest
  | _ => None
  end.
Definition extract_powershell_command (command : list str) : option (str * str) :=
  match command with
  | shell :: ((_ :: _ :: _) as args) =>
      if bool_decide (detect_shell_type shell = Some PowerShell)
      then script ← powershell_script args; Some (shell, script) else None
  | _ => None
  end.
Definition canonicalize_command_for_approval (parse_tree : str -> option Node) (command : list str) : list str :=
  let otherwise :=
    match extract_bash_command command with
    | Some (_, script) => [CANONICAL_BASH_SCRIPT_PREFIX; default [] (command !! 1); script]
    | None =>
        match extract_powershell_command command with
        | Some (_, script) => [CANONICAL_POWERSHELL_SCRIPT_PREFIX; script]
        | None => command
        end
    end in
  match parse_shell_lc_plain_commands parse_tree command with
  | Some [single_command] => single_command
  | _ => otherwise
  end.

(** ** Data *)

(** The output of a command is only passed on. *)
Inductive ToolError {Output : Type} :=
| Rejected (reason : str)
| SandboxDenied (output : Output) (network_policy_decision : option NetworkPolicyDecisionPayload)
| CodexError (message : str).
Arguments ToolError : clear implicits.

Inductive WindowsSandboxLevel := LevelDisabled | LevelRestrictedToken | LevelElevated.
#[global] Instance windows_level_eq_dec : EqDecision WindowsSandboxLevel.
Proof. solve_decision. Defined.

Record Turn := mkTurnContext {
  turn_context : TurnContext;
  turn_file_system_sandbox_policy : FileSystemSandboxPolicy;
  turn_network_sandbox_policy : NetworkSandboxPolicy;
  turn_network : bool;
  turn_windows_sandbox_level : WindowsSandboxLevel;
  turn_cwd : str;
  turn_workspace_roots : list str;
  turn_codex_linux_sandbox_exe : option str;
  turn_use_legacy_landlock : bool;
  turn_windows_sandbox_private_desktop : bool;
}.
Record ToolCtx := mkToolCtx { call_id : str; tool_name : str }.
Record ApprovalCtx := mkApprovalCtx {
  approval_call_id : str;
  guardian_review_id : option str;
  retry_reason : option str;
  network_approval_context : option NetworkApprovalContext;
}.
Record PermissionRequestPayload := mkPermissionRequest { payload_tool : str; payload_command : str; payload_description : option str }.
Record SandboxAttempt := mkAttempt {
  sandbox : SandboxType;
  attempt_permissions : PermissionProfile;
  enforce_managed_network : bool;
  attempt_sandbox_cwd : str;
  workspace_roots : list str;
  codex_linux_sandbox_exe : option str;
  use_legacy_landlock : bool;
  windows_sandbox_level : WindowsSandboxLevel;
  windows_sandbox_private_desktop : bool;
  network_denial_cancellation_token : option nat;
}.

(** ** Interfaces *)

(** What the session and the process offer: the network approvals, new identifiers and
    tokens, the hooks, the reasons of the automatic reviewer, and whether it reviews
    everything in this turn. *)
Class World (W : Type) := {
  network_service : W -> NetworkApprovalService;
  set_network_service : W -> NetworkApprovalService -> W;
  new_id : W -> W * str;
  new_token : W -> W * nat;
  run_permission_request_hooks : str -> PermissionRequestPayload -> W -> W * option PermissionRequestDecision;
  take_guardian_rejection : str -> W -> W * option str;
  strict_auto_review_enabled : W -> bool;
}.

(** [ToolRuntime] with [Approvable] and [Sandboxable]. *)
Class ToolRuntime (W Req Out Output : Type) := {
  sandbox_permissions : Req -> SandboxPermissions;
  should_bypass_approval : AskForApproval -> bool -> bool;
  exec_approval_requirement : Req -> option ExecApprovalRequirement;
  permission_request_payload : Req -> option PermissionRequestPayload;
  wants_no_sandbox_approval : AskForApproval -> bool;
  start_approval_async : Req -> ApprovalCtx -> W -> W * ReviewDecision;
  sandbox_preference : SandboxablePreference;
  escalate_on_failure : bool;
  network_approval_spec : Req -> ToolCtx -> option NetworkApprovalSpec;
  sandbox_cwd : Req -> option str;
  tool_run : Req -> SandboxAttempt -> W -> W * result (ToolError Output) Out;
}.

(** The defaults of the trait. *)
Definition default_should_bypass_approval (policy : AskForApproval) (already_approved : bool) : bool :=
  if already_approved then true else bool_decide (policy = Never).
Definition default_wants_no_sandbox_approval (policy : AskForApproval) : bool :=
  match policy with
  | OnFailure | UnlessTrusted => true
  | Never | OnRequest => false
  | Granular granular_config => sandbox_approval granular_config
  end.
(** The patch tool's own. *)
Definition apply_patch_wants_no_sandbox_approval (policy : AskForApproval) : bool :=
  match policy with
  | Never => false
  | Granular granular_config => allows_sandbox_approval granular_config
  | OnFailure | OnRequest | UnlessTrusted => true
  end.

(** ** The trace *)

Inductive Event :=
| HookAnswered (run_id : str) (decision : PermissionRequestDecision)
| ReviewAnswered (ctx : ApprovalCtx) (decision : ReviewDecision)
| Attempted (attempt : SandboxAttempt).

(** ** The orchestrator *)

Section run.
Context {W Req Out Output : Type} `{HW : World W} `{HT : ToolRuntime W Req Out Output}.
(** The platform the program runs on. *)
Variable target_os : TargetOs.

Definition St : Type := W * list Event.
Definition Op (A : Type) : Type := St -> St * result (ToolError Output) A.
Definition ok {A} (x : A) : Op A := fun st => (st, Ok x).
Definition fail {A} (e : ToolError Output) : Op A := fun st => (st, Err e).
Definition andThen {A B} (m : Op A) (f : A -> Op B) : Op B := fun st =>
  match m st with (st, Ok x) => f x st | (st, Err e) => (st, Err e) end.
Local Notation "x <-- m ;; k" := (andThen m (fun x => k)) (at level 100, m at level 90, right associativity).
Definition lift {A} (f : W -> W * A) : Op A := fun st => let (w, x) := f (fst st) in ((w, snd st), Ok x).
Definition record (e : Event) : Op unit := fun st => ((fst st, snd st ++ [e]), Ok tt).
Definition with_service {A} (f : NetworkApprovalService -> NetworkApprovalService * A) : Op A :=
  lift (fun w => let (s, x) := f (network_service w) in (set_network_service w s, x)).
(** Turns an error of a locked section into one of the tool. *)
Definition rejecting {A} (r : result str A) : Op A :=
  match r with Ok x => ok x | Err reason => fail (Rejected reason) end.

Definition windows_enabled (turn : Turn) : bool := negb (bool_decide (turn_windows_sandbox_level turn = LevelDisabled)).
Definition selected_sandbox (turn : Turn) : SandboxType :=
  default SandboxNone
    (select_initial (get_platform_sandbox target_os (windows_enabled turn)) (turn_file_system_sandbox_policy turn)
       (turn_network_sandbox_policy turn) (sandbox_preference (ToolRuntime := HT)) (turn_network turn)).

(** *** run_attempt *)

Definition attempt_with (token : option nat) (a : SandboxAttempt) : SandboxAttempt :=
  mkAttempt (sandbox a) (attempt_permissions a) (enforce_managed_network a) (attempt_sandbox_cwd a) (workspace_roots a)
    (codex_linux_sandbox_exe a) (use_legacy_landlock a) (windows_sandbox_level a) (windows_sandbox_private_desktop a) token.
Definition begin_approval (turn : Turn) (tool_ctx : ToolCtx) (req : Req) : Op (option ActiveNetworkApproval) :=
  let spec := network_approval_spec (ToolRuntime := HT) req tool_ctx in
  let registers := turn_network turn && from_option spec_network false spec in
  if registers then
    id <-- lift new_id ;;
    token <-- lift new_token ;;
    with_service (fun s =>
      begin_network_approval s (turn_sub_id (turn_context turn)) (turn_network turn) spec id token)
  else ok None.
Definition run_attempt (turn : Turn) (tool_ctx : ToolCtx) (req : Req) (attempt : SandboxAttempt)
    : Op (result (ToolError Output) Out * option DeferredNetworkApproval) :=
  network_approval <-- begin_approval turn tool_ctx req ;;
  let attempt := attempt_with (active_token <$> network_approval) attempt in
  _ <-- record (Attempted attempt) ;;
  run_result <-- lift (tool_run req attempt) ;;
  match network_approval with
  | None => ok (run_result, None)
  | Some active =>
      match active_mode active with
      | Immediate =>
          finalize_result <-- with_service (fun s => finish_immediate_network_approval s active) ;;
          ok match finalize_result with
             | Err reason => (Err (Rejected reason), None)
             | Ok _ => (run_result, None)
             end
      | Deferred =>
          let deferred := into_deferred active in
          match run_result with
          | Ok _ => ok (run_result, deferred)
          | Err _ =>
              finalize_result <-- with_service (fun s =>
                let '(s, _, r) := finish_deferred_network_approval s deferred in (s, r)) ;;
              ok match finalize_result with
                 | Err reason => (Err (Rejected reason), None)
                 | Ok _ => (run_result, None)
                 end
          end
      end
  end.

(** *** Approval *)

Definition request_approval (req : Req) (permission_request_run_id : str) (approval_ctx : ApprovalCtx)
    (evaluate_permission_request_hooks : bool) : Op ReviewDecision :=
  let ask :=
    decision <-- lift (start_approval_async req approval_ctx) ;;
    _ <-- record (ReviewAnswered approval_ctx decision) ;;
    ok decision in
  match permission_request_payload (ToolRuntime := HT) req with
  | Some payload =>
      if evaluate_permission_request_hooks then
        hook <-- lift (run_permission_request_hooks permission_request_run_id payload) ;;
        match hook with
        | Some HookAllow => _ <-- record (HookAnswered permission_request_run_id HookAllow) ;; ok Approved
        | Some (HookDeny message) =>
            _ <-- record (HookAnswered permission_request_run_id (HookDeny message)) ;; fail (Rejected message)
        | None => ask
        end
      else ask
  | None => ask
  end.
Definition reject_if_not_approved (guardian_review_id : option str) (decision : ReviewDecision) : Op unit :=
  match decision with
  | Denied | Abort =>
      match guardian_review_id with
      | Some review_id =>
          rejection <-- lift (take_guardian_rejection review_id) ;;
          fail (Rejected (guardian_rejection_message rejection))
      | None => fail (Rejected $"rejected by user")
      end
  | TimedOut => fail (Rejected guardian_timeout_message)
  | Approved | ApprovedExecpolicyAmendment _ | ApprovedForSession => ok tt
  | NetworkPolicyAmendment_ amendment =>
      match action amendment with AllowAction => ok tt | DenyAction => fail (Rejected $"rejected by user") end
  end.
Definition new_review_id (wanted : bool) : Op (option str) :=
  if wanted then id <-- lift new_id ;; ok (Some id) else ok None.

(** *** run *)

Definition build_denial_reason_from_output : str := $"command failed; retry without sandbox?".
Definition initial_approval (turn : Turn) (tool_ctx : ToolCtx) (req : Req) (strict_auto_review : bool)
    (requirement : ExecApprovalRequirement) : Op bool :=
  let use_guardian := routes_approval_to_guardian (turn_context turn) || strict_auto_review in
  let approve wanted reason hooks :=
    review_id <-- new_review_id wanted ;;
    decision <-- request_approval req (call_id tool_ctx) (mkApprovalCtx (call_id tool_ctx) review_id reason None) hooks ;;
    _ <-- reject_if_not_approved review_id decision ;;
    ok true in
  match requirement with
  | Skip _ _ => if strict_auto_review then approve true None false else ok false
  | Forbid_ reason => fail (Rejected reason)
  | NeedsApproval reason _ => approve use_guardian reason (negb strict_auto_review)
  end.
Definition attempt_of (turn : Turn) (req : Req) (sandbox : SandboxType) (exe : option str) : SandboxAttempt :=
  mkAttempt sandbox (turn_permission_profile (turn_context turn)) (turn_network turn)
    (default (turn_cwd turn) (sandbox_cwd (ToolRuntime := HT) req)) (turn_workspace_roots turn) exe
    (turn_use_legacy_landlock turn) (turn_windows_sandbox_level turn) (turn_windows_sandbox_private_desktop turn) None.
Definition context_of_denial (turn : Turn) (network_policy_decision : option NetworkPolicyDecisionPayload)
    : option NetworkApprovalContext :=
  if turn_network turn then network_policy_decision ≫= network_approval_context_from_payload else None.
(** Whether a denied attempt is retried at all. *)
Definition may_retry (turn : Turn) (approval_policy : AskForApproval)
    (network_policy_decision : option NetworkPolicyDecisionPayload) : bool :=
  let fs := turn_file_system_sandbox_policy turn in
  let context := context_of_denial turn network_policy_decision in
  let allow_on_request_network_prompt :=
    bool_decide (approval_policy = OnRequest) && bool_decide (context <> None) &&
    match default_exec_approval_requirement approval_policy fs with NeedsApproval _ _ => true | _ => false end in
  negb (bool_decide (network_policy_decision <> None) && bool_decide (context = None)) &&
  escalate_on_failure (ToolRuntime := HT) &&
  (wants_no_sandbox_approval (ToolRuntime := HT) approval_policy || allow_on_request_network_prompt) &&
  (unsandboxed_execution_allowed fs || bool_decide (context <> None)).
Definition retry (turn : Turn) (tool_ctx : ToolCtx) (req : Req) (approval_policy : AskForApproval)
    (strict_auto_review already_approved : bool) (network_policy_decision : option NetworkPolicyDecisionPayload)
    : Op (Out * option DeferredNetworkApproval) :=
  let use_guardian := routes_approval_to_guardian (turn_context turn) || strict_auto_review in
  let unsandboxed_allowed := unsandboxed_execution_allowed (turn_file_system_sandbox_policy turn) in
  let context := context_of_denial turn network_policy_decision in
  let retry_reason :=
    match context with
    | Some c => $"Network access to " ++ in_quotes (context_host c) ++ $" is blocked by policy."
    | None => build_denial_reason_from_output
    end in
  let bypass_retry_approval :=
    negb strict_auto_review && should_bypass_approval (ToolRuntime := HT) approval_policy already_approved &&
    bool_decide (context = None) in
  _ <-- (if bypass_retry_approval then ok tt
         else
           review_id <-- new_review_id use_guardian ;;
           decision <-- request_approval req (call_id tool_ctx ++ $":retry")
                          (mkApprovalCtx (call_id tool_ctx) review_id (Some retry_reason) context)
                          (negb strict_auto_review) ;;
           reject_if_not_approved review_id decision) ;;
  r <-- run_attempt turn tool_ctx req
          (attempt_of turn req (if unsandboxed_allowed then SandboxNone else selected_sandbox turn)
             (if unsandboxed_allowed then None else turn_codex_linux_sandbox_exe turn)) ;;
  match fst r with
  | Ok output => ok (output, snd r)
  | Err e => fail e
  end.
Definition run (turn : Turn) (tool_ctx : ToolCtx) (req : Req) (approval_policy : AskForApproval)
    : Op (Out * option DeferredNetworkApproval) :=
  strict_auto_review <-- lift (fun w => (w, strict_auto_review_enabled w)) ;;
  let fs := turn_file_system_sandbox_policy turn in
  let requirement :=
    default (default_exec_approval_requirement approval_policy fs) (exec_approval_requirement (ToolRuntime := HT) req) in
  already_approved <-- initial_approval turn tool_ctx req strict_auto_review requirement ;;
  let initial_sandbox :=
    match sandbox_override_for_first_attempt (sandbox_permissions (ToolRuntime := HT) req) requirement fs with
    | BypassSandboxFirstAttempt => SandboxNone
    | NoOverride => selected_sandbox turn
    end in
  first <-- run_attempt turn tool_ctx req (attempt_of turn req initial_sandbox (turn_codex_linux_sandbox_exe turn)) ;;
  match fst first with
  | Ok output => ok (output, snd first)
  | Err (SandboxDenied output network_policy_decision) =>
      if may_retry turn approval_policy network_policy_decision
      then retry turn tool_ctx req approval_policy strict_auto_review already_approved network_policy_decision
      else fail (SandboxDenied output network_policy_decision)
  | Err e => fail e
  end.
End run.

(** ** Lemmas: what an operation records *)

Section emits.
Context {W Req Out Output : Type} `{HW : World W} `{HT : ToolRuntime W Req Out Output}.
Variable target_os : TargetOs.
Local Abbreviation Op := (@Op W Output).

(** Events are only appended; those an operation appends and its result satisfy [P]. *)
Definition emits {A} (m : Op A) (P : list Event -> result (ToolError Output) A -> Prop) : Prop :=
  forall w t, exists w' es r, m (w, t) = ((w', t ++ es), r) /\ P es r.

Lemma emits_mono {A} (m : Op A) (P Q : list Event -> result (ToolError Output) A -> Prop) :
  emits m P -> (forall es r, P es r -> Q es r) -> emits m Q.
Proof. intros Hm HPQ w t. destruct (Hm w t) as (w' & es & r & E & HP). exists w', es, r. auto. Qed.
Lemma emits_ok {A} (x : A) : emits (ok x) (fun es r => es = [] /\ r = Ok x).
Proof. intros w t. exists w, [], (Ok x). by rewrite app_nil_r. Qed.
Lemma emits_fail {A} (e : ToolError Output) : emits (A := A) (fail e) (fun es r => es = [] /\ r = Err e).
Proof. intros w t. exists w, [], (Err e). by rewrite app_nil_r. Qed.
Lemma emits_lift {A} (f : W -> W * A) : emits (lift f) (fun es r => es = [] /\ exists x, r = Ok x).
Proof.
  intros w t. unfold lift. simpl. destruct (f w) as [w' x]. exists w', [], (Ok x). rewrite app_nil_r. eauto.
Qed.
Lemma emits_record (e : Event) : emits (record e) (fun es r => es = [e] /\ r = Ok tt).
Proof. intros w t. by exists w, [e], (Ok tt). Qed.
Lemma emits_then {A B} (m : Op A) (f : A -> Op B) P Q :
  emits m P -> (forall x, emits (f x) (Q x)) ->
  emits (andThen m f) (fun es r =>
    (exists e, P es (Err e) /\ r = Err e) \/
    (exists x es1 es2, es = es1 ++ es2 /\ P es1 (Ok x) /\ Q x es2 r)).
Proof.
  intros Hm Hf w t. unfold andThen. destruct (Hm w t) as (w1 & es1 & r1 & -> & HP).
  destruct r1 as [x|e].
  - destruct (Hf x w1 (t ++ es1)) as (w2 & es2 & r2 & -> & HQ). exists w2, (es1 ++ es2), r2.
    rewrite app_assoc. split; [done|]. right. eauto 10.
  - exists w1, es1, (Err e). split; [done|]. left. eauto.
Qed.

(** *** Consent *)

Definition approves (d : ReviewDecision) : bool :=
  match d with
  | Approved | ApprovedExecpolicyAmendment _ | ApprovedForSession => true
  | NetworkPolicyAmendment_ amendment => bool_decide (action amendment = AllowAction)
  | Denied | TimedOut | Abort => false
  end.
Definition consents (e : Event) : bool :=
  match e with
  | HookAnswered _ HookAllow => true
  | ReviewAnswered _ d => approves d
  | _ => false
  end.
Definition attempted (e : Event) : option SandboxAttempt := match e with Attempted a => Some a | _ => None end.

(** One question was asked; without consent the call is rejected. *)
Definition asked {A} (x : A) (es : list Event) (r : result (ToolError Output) A) : Prop :=
  exists e, es = [e] /\ attempted e = None /\
    if consents e then r = Ok x else exists reason, r = Err (Rejected reason).

Lemma emits_reject id d :
  emits (reject_if_not_approved (Output := Output) id d)
    (fun es r => es = [] /\ if approves d then r = Ok tt else exists reason, r = Err (Rejected reason)).
Proof.
  intros w t. unfold reject_if_not_approved, andThen, lift.
  destruct d as [| | |a| | |]; simpl; unfold ok, fail;
    try destruct (action a) eqn:Ea; try destruct id as [i|]; simpl;
    try destruct (take_guardian_rejection i w) as [w' rej]; do 3 eexists;
    (split; [rewrite app_nil_r; reflexivity|]); rewrite ?Ea; eauto.
Qed.

Lemma emits_request req run_id ctx hooks :
  emits (request_approval (HT := HT) req run_id ctx hooks)
    (fun es r => exists e, es = [e] /\ attempted e = None /\
       match r with
       | Ok d => consents e = approves d
       | Err err => consents e = false /\ exists reason, err = Rejected reason
       end).
Proof.
  intros w t. unfold request_approval.
  assert (forall w, exists w' es r,
    andThen (lift (start_approval_async (ToolRuntime := HT) req ctx))
      (fun decision => andThen (record (ReviewAnswered ctx decision)) (fun _ => ok decision)) (w, t) =
      ((w', t ++ es), r) /\ exists e, es = [e] /\ attempted e = None /\
       match r with
       | Ok d => consents e = approves d
       | Err err => consents e = false /\ exists reason, err = Rejected (Output := Output) reason
       end) as Hask.
  { intros w0. unfold andThen, lift, record, ok. simpl. destruct (start_approval_async req ctx w0) as [w' d].
    simpl. do 3 eexists. split; [reflexivity|]. exists (ReviewAnswered ctx d). by split_and!. }
  destruct (permission_request_payload req) as [payload|]; [|apply Hask]. destruct hooks; [|apply Hask].
  unfold andThen at 1, lift at 1. simpl. destruct (run_permission_request_hooks run_id payload w) as [w' [[|m]|]].
  - do 3 eexists. split; [reflexivity|]. by exists (HookAnswered run_id HookAllow).
  - do 3 eexists. split; [reflexivity|]. exists (HookAnswered run_id (HookDeny m)). eauto.
  - apply Hask.
Qed.

(** A question and what follows from its answer. *)
Lemma emits_question {A} (x : A) wanted req run_id (ctx : option str -> ApprovalCtx) hooks
    (finish : option str -> ReviewDecision -> Op A) :
  (forall id d, emits (finish id d)
     (fun es r => es = [] /\ if approves d then r = Ok x else exists reason, r = Err (Rejected reason))) ->
  emits
    (andThen (new_review_id (W := W) (Output := Output) wanted) (fun review_id =>
     andThen (request_approval (HT := HT) req run_id (ctx review_id) hooks) (finish review_id))) (asked x).
Proof.
  intros Hf. eapply emits_mono.
  - eapply emits_then; [|intros review_id; eapply emits_then; [apply emits_request|intros decision; apply Hf]].
    instantiate (1 := fun es r => es = [] /\ exists i, r = Ok i). unfold new_review_id. destruct wanted.
    + eapply emits_mono; [eapply emits_then; [apply emits_lift|intros i; apply emits_ok]|].
      intros es r [(e & [_ [i Hi]] & _)|(i & es1 & es2 & -> & [-> _] & -> & ->)]; [done|eauto].
    + eapply emits_mono; [apply emits_ok|]. intros es r [-> ->]. eauto.
  - intros es r [(e & [_ [i Hi]] & _)|(id & es1 & es2 & -> & [-> _] & H)]; [done|]. simpl.
    destruct H as [(err & (e & -> & Ha & Hc & reason & ->) & ->)|(d & es3 & es4 & -> & (e & -> & Ha & Hc) & [-> H])];
      exists e; rewrite Hc; eauto.
Qed.
Lemma emits_reject_then {A} (x : A) id d :
  emits (andThen (reject_if_not_approved (Output := Output) id d) (fun _ => ok x))
    (fun es r => es = [] /\ if approves d then r = Ok x else exists reason, r = Err (Rejected reason)).
Proof.
  eapply emits_mono; [eapply emits_then; [apply emits_reject|intros u; apply emits_ok]|].
  intros es r [(err & [-> Hr] & ->)|(u & es5 & es6 & -> & [-> Hr] & -> & ->)]; (split; [done|]).
  - destruct (approves d); [done|]. destruct Hr as [reason [= ->]]. eauto.
  - destruct (approves d); [done|]. by destruct Hr.
Qed.

(** *** Attempts *)

(** Operations that record nothing and succeed. *)
Definition silent {A} (es : list Event) (r : result (ToolError Output) A) : Prop := es = [] /\ exists x, r = Ok x.
Lemma emits_silent_then {A B} (m : Op A) (f : A -> Op B) P :
  emits m silent -> (forall x, emits (f x) P) -> emits (andThen m f) P.
Proof.
  intros Hm Hf. eapply emits_mono; [exact (emits_then m f silent (fun _ => P) Hm Hf)|].
  intros es r [(e & [_ [x Hx]] & _)|(x & es1 & es2 & -> & [-> _] & H)]; [done|exact H].
Qed.
Lemma emits_ok_silent {A} (x : A) : emits (ok x) silent.
Proof. eapply emits_mono; [apply emits_ok|]. intros es r [-> ->]. split; eauto. Qed.
Lemma emits_service {A} (f : NetworkApprovalService -> NetworkApprovalService * A) :
  emits (with_service (Output := Output) f) silent.
Proof. apply emits_lift. Qed.

Definition attempted_once {A} (attempt : SandboxAttempt) (es : list Event) (r : result (ToolError Output) A) : Prop :=
  exists token x, es = [Attempted (attempt_with token attempt)] /\ r = Ok x.

Lemma emits_run_attempt turn tool_ctx req attempt :
  emits (run_attempt (HT := HT) turn tool_ctx req attempt) (attempted_once attempt).
Proof.
  unfold run_attempt. apply emits_silent_then.
  { unfold begin_approval. destruct (_ && _); [|apply emits_ok_silent].
    do 2 (apply emits_silent_then; [apply emits_lift|intros ?]). apply emits_service. }
  intros active. eapply emits_mono.
  - eapply emits_then; [apply emits_record|]. intros u. apply (emits_silent_then _ _ silent); [apply emits_lift|].
    intros run_result. destruct active as [active|]; [|apply emits_ok_silent].
    destruct (active_mode active).
    + apply emits_silent_then; [apply emits_service|]. intros fin. apply emits_ok_silent.
    + destruct run_result; [apply emits_ok_silent|].
      apply emits_silent_then; [apply emits_service|]. intros fin. apply emits_ok_silent.
  - intros es r [(e & [_ [=]] & _)|(x & es1 & es2 & -> & [-> _] & -> & y & ->)]. by do 2 eexists.
Qed.

(** What a retry records: unless the approval may be bypassed, first a question. *)
Definition retried turn req policy strict already npd (es : list Event)
    (r : result (ToolError Output) (Out * option DeferredNetworkApproval)) : Prop :=
  let fs := turn_file_system_sandbox_policy turn in
  exists q,
    ((q = [] /\ should_bypass_approval (ToolRuntime := HT) policy already = true /\ strict = false /\
      context_of_denial turn npd = None) \/
     exists e, q = [e] /\ attempted e = None) /\
    ((es = q /\ q <> [] /\ Forall (fun e => consents e = false) q /\ exists reason, r = Err (Rejected reason)) \/
     (Forall (fun e => consents e = true) q /\ exists token, es = q ++ [Attempted (attempt_with token
        (attempt_of (HT := HT) turn req
           (if unsandboxed_execution_allowed fs then SandboxNone else selected_sandbox (HT := HT) target_os turn)
           (if unsandboxed_execution_allowed fs then None else turn_codex_linux_sandbox_exe turn)))])).

Lemma emits_retry turn tool_ctx req policy strict already npd :
  emits (retry (HT := HT) target_os turn tool_ctx req policy strict already npd) (retried turn req policy strict already npd).
Proof.
  unfold retry. set (bypass := negb strict && _ && _). eapply emits_mono.
  - eapply (emits_then _ _ (fun es r => (bypass = true /\ es = [] /\ r = Ok tt) \/ asked tt es r)).
    + destruct bypass.
      * eapply emits_mono; [apply emits_ok|]. intros es r [-> ->]. by left.
      * eapply emits_mono; [|intros es r H; right; exact H].
        apply (emits_question tt _ req _ (fun review_id => mkApprovalCtx (call_id tool_ctx) review_id _ _)), emits_reject.
    + intros u. apply (emits_then _ _ _ (fun _ es _ => es = []) (emits_run_attempt _ _ _ _)). intros x.
      destruct (fst x).
      * eapply emits_mono; [apply emits_ok|]. by intros ? ? [-> _].
      * eapply emits_mono; [apply emits_fail|]. by intros ? ? [-> _].
  - unfold retried. intros es r H.
    destruct H as [(err & [(_ & _ & [=])|(e & -> & Hat & Hc)] & ->)|(u & es1 & es2 & -> & Hq & H)].
    { exists [e]. split; [right; eauto|]. left. destruct (consents e) eqn:Ec; [done|].
      destruct Hc as [reason [= ->]]. split_and!; [done|done|by constructor|eauto]. }
    destruct H as [(err & (tok & x & _ & [=]) & _)|(x & es3 & es4 & -> & (tok & y & -> & _) & ->)].
    exists es1. rewrite app_nil_r. destruct Hq as [(Hb & -> & _)|(e & -> & Hat & Hc)].
    + split; [|right; split; [by constructor|eauto]]. left. unfold bypass in Hb.
      apply andb_true_iff in Hb as [[Hs%negb_true_iff Hb]%andb_true_iff Hn%bool_decide_eq_true]. by split_and!.
    + split; [right; eauto|]. right. destruct (consents e) eqn:Ec; [|by destruct Hc].
      split; [by repeat constructor|eauto].
Qed.

(** *** The whole call *)

Definition requirement_of turn req policy : ExecApprovalRequirement :=
  default (default_exec_approval_requirement policy (turn_file_system_sandbox_policy turn))
    (exec_approval_requirement (ToolRuntime := HT) req).
Definition first_sandbox turn req policy : SandboxType :=
  match sandbox_override_for_first_attempt (sandbox_permissions (ToolRuntime := HT) req) (requirement_of turn req policy)
          (turn_file_system_sandbox_policy turn) with
  | BypassSandboxFirstAttempt => SandboxNone
  | NoOverride => selected_sandbox (HT := HT) target_os turn
  end.

(** The approval before the first attempt: what it recorded and whether it approved. *)
Definition approved_first (strict : bool) (requirement : ExecApprovalRequirement) (q : list Event) (already : bool) : Prop :=
  (q = [] /\ already = false /\ strict = false /\ exists b a, requirement = Skip b a) \/
  (exists e, q = [e] /\ attempted e = None /\ consents e = true /\ already = true /\
     (forall reason, requirement <> Forbid_ reason) /\ (strict = true \/ exists m a, requirement = NeedsApproval m a)).

Definition called (strict : bool) turn req policy (es : list Event)
    (r : result (ToolError Output) (Out * option DeferredNetworkApproval)) : Prop :=
  let requirement := requirement_of turn req policy in
  (exists reason, requirement = Forbid_ reason /\ es = [] /\ r = Err (Rejected reason)) \/
  (exists e reason, es = [e] /\ attempted e = None /\ consents e = false /\ r = Err (Rejected reason) /\
     (forall reason, requirement <> Forbid_ reason) /\ (strict = true \/ exists m a, requirement = NeedsApproval m a)) \/
  (exists q already token rest, approved_first strict requirement q already /\
     es = q ++ Attempted (attempt_with token (attempt_of (HT := HT) turn req (first_sandbox turn req policy)
                                                (turn_codex_linux_sandbox_exe turn))) :: rest /\
     (rest = [] \/ exists npd, may_retry (HT := HT) turn policy npd = true /\
        retried turn req policy strict already npd rest r)).

Lemma emits_initial strict turn tool_ctx req requirement :
  emits (initial_approval (HT := HT) turn tool_ctx req strict requirement) (fun es r =>
    match requirement with
    | Forbid_ reason => es = [] /\ r = Err (Rejected reason)
    | Skip _ _ => if strict then asked true es r else es = [] /\ r = Ok false
    | NeedsApproval _ _ => asked true es r
    end).
Proof.
  unfold initial_approval. destruct requirement as [b a|reason a|reason].
  - destruct strict; [|apply emits_ok].
    apply (emits_question true _ req _ (fun review_id => mkApprovalCtx (call_id tool_ctx) review_id _ _)).
    intros id d. apply emits_reject_then.
  - apply (emits_question true _ req _ (fun review_id => mkApprovalCtx (call_id tool_ctx) review_id _ _)).
    intros id d. apply emits_reject_then.
  - apply emits_fail.
Qed.

Lemma emits_run turn tool_ctx req policy w t :
  exists w' es r, run (HT := HT) target_os turn tool_ctx req policy (w, t) = ((w', t ++ es), r) /\
    called (strict_auto_review_enabled w) turn req policy es r.
Proof.
  unfold run. unfold andThen at 1, lift at 1. simpl. generalize (strict_auto_review_enabled w) as strict. intros strict.
  fold (requirement_of turn req policy). fold (first_sandbox turn req policy).
  match goal with |- exists _ _ _, ?m (w, t) = _ /\ _ => enough (emits m (called strict turn req policy)) as H by apply H end.
  eapply emits_mono.
  - apply (emits_then _ _ _ (fun already es r => exists token rest,
      es = Attempted (attempt_with token (attempt_of turn req (first_sandbox turn req policy)
             (turn_codex_linux_sandbox_exe turn))) :: rest /\
      (rest = [] \/ exists npd, may_retry turn policy npd = true /\ retried turn req policy strict already npd rest r))
      (emits_initial strict turn tool_ctx req _)).
    intros already. eapply emits_mono.
    + apply (emits_then _ _ _ (fun _ es r => es = [] \/
        exists npd, may_retry turn policy npd = true /\ retried turn req policy strict already npd es r)
        (emits_run_attempt _ _ _ _)).
      intros x. destruct (fst x) as [out|[reason|out npd|message]].
      2: { eapply emits_mono; [apply emits_fail|]. intros ? ? [-> _]. by left. }
      3: { eapply emits_mono; [apply emits_fail|]. intros ? ? [-> _]. by left. }
      * eapply emits_mono; [apply emits_ok|]. intros ? ? [-> _]. by left.
      * destruct (may_retry turn policy npd) eqn:Em.
        -- eapply emits_mono; [apply emits_retry|]. eauto.
        -- eapply emits_mono; [apply emits_fail|]. intros ? ? [-> _]. by left.
    + intros es r [(err & (tok & x & _ & [=]) & _)|(x & es1 & es2 & -> & (tok & y & -> & _) & H)]. by exists tok, es2.
  - intros es r [(err & Hq & ->)|(already & q & es2 & -> & Hq & tok & rest & -> & Hrest)].
    + destruct (requirement_of turn req policy) as [b a|m a|reason] eqn:Er.
      * destruct strict; [|by destruct Hq]. right; left. destruct Hq as (e & -> & Ha & Hc).
        destruct (consents e) eqn:Ec; [done|]. destruct Hc as [reason [= ->]]. exists e, reason. rewrite Er. by auto 10.
      * right; left. destruct Hq as (e & -> & Ha & Hc). destruct (consents e) eqn:Ec; [done|].
        destruct Hc as [reason [= ->]]. exists e, reason. rewrite Er. split_and!; eauto.
      * left. destruct Hq as [-> [= ->]]. by exists reason.
    + right; right. exists q, already, tok, rest. split; [|done].
      destruct (requirement_of turn req policy) as [b a|m a|reason] eqn:Er.
      * destruct strict; [|destruct Hq as [-> [= ->]]; left; by eauto 10].
        right. destruct Hq as (e & -> & Ha & Hc). destruct (consents e) eqn:Ec; [|by destruct Hc].
        injection Hc as ->. exists e. by auto 10.
      * right. destruct Hq as (e & -> & Ha & Hc). destruct (consents e) eqn:Ec; [|by destruct Hc].
        injection Hc as ->. exists e. split_and!; eauto.
      * by destruct Hq.
Qed.
End emits.

(** ** Properties of a call *)

(** What the tools of the program keep of the trait's defaults: without an earlier approval
    only [Never] bypasses the question, and under [Never] no denial is retried without the
    sandbox. *)
Class LawfulTool {W Req Out Output} (T : ToolRuntime W Req Out Output) : Prop := {
  bypass_lawful policy : should_bypass_approval (ToolRuntime := T) policy false = true -> policy = Never;
  no_sandbox_lawful : wants_no_sandbox_approval (ToolRuntime := T) Never = false;
}.

Section properties.
Context {W Req Out Output : Type} `{HW : World W} `{HT : ToolRuntime W Req Out Output} `{HL : !LawfulTool HT}.
Variable target_os : TargetOs.

Lemma first_attempt q x rest before a after :
  Forall (fun e => attempted e = None) q -> q ++ Attempted x :: rest = before ++ Attempted a :: after ->
  (before = q /\ a = x /\ after = rest) \/
  exists before', before = q ++ Attempted x :: before' /\ rest = before' ++ Attempted a :: after.
Proof.
  intros Hq. revert before. induction Hq as [|e q He _ IH]; intros before E.
  - destruct before as [|e' before]; simplify_eq/=; [by left|right; by exists before].
  - destruct before as [|e' before]; simpl in E; injection E as -> E; [done|].
    destruct (IH before E) as [(-> & -> & ->)|(before' & -> & ->)]; [by left|right; by exists before'].
Qed.
Lemma no_attempt q before a after :
  Forall (fun e => attempted e = None) q -> q <> before ++ Attempted a :: after.
Proof. intros Hq ->. apply Forall_app in Hq as [_ Hq]. by inversion Hq. Qed.

Lemma approved_first_quiet strict requirement q already :
  approved_first strict requirement q already ->
  Forall (fun e => attempted e = None) q /\ Forall (fun e => consents e = true) q /\ length q <= 1 /\
  (already = true -> Exists (fun e => consents e = true) q).
Proof.
  intros [(-> & -> & _)|(e & -> & Ha & Hc & -> & _)]; simpl.
  - split_and!; [constructor|constructor|lia|done].
  - split_and!; [by repeat constructor|by repeat constructor|lia|intros _; by left].
Qed.

Lemma may_retry_not_never turn npd : may_retry (HT := HT) turn Never npd = false.
Proof.
  unfold may_retry. rewrite no_sandbox_lawful. rewrite (bool_decide_false (Never = OnRequest)) by done. simpl.
  by rewrite andb_false_r.
Qed.

(** C14: Where the policies demand a sandbox, an attempt runs without one only with consent:
    no read is denied by the file-system policy, and the approval requirement given for the
    call is to skip approval with the sandbox bypassed, or the call asked for escalation,
    or earlier in this call a hook said yes or the approval step of the tool did (which
    may ask a user or a reviewer, or answer from an approval that was given earlier for
    the session).  This holds for the first attempt and the retry of every lawful tool. *)
Theorem unsandboxed_attempts_have_consent turn tool_ctx req policy w t w' es r before a after :
  run (HT := HT) target_os turn tool_ctx req policy (w, t) = ((w', t ++ es), r) ->
  es = before ++ Attempted a :: after -> sandbox a = SandboxNone ->
  selected_sandbox (HT := HT) target_os turn <> SandboxNone ->
  has_denied_read_restrictions (turn_file_system_sandbox_policy turn) = false /\
  ((exists amendment, requirement_of turn req policy = Skip true amendment) \/
   requires_escalated_permissions (sandbox_permissions (ToolRuntime := HT) req) = true \/
   Exists (fun e => consents e = true) before).
Proof.
  intros Hrun Hes Hnone Hsel. destruct (emits_run target_os turn tool_ctx req policy w t) as (w2 & es2 & r2 & E & Hc).
  rewrite Hrun in E. injection E as <- <-%app_inv_head <-. subst es.
  destruct Hc as [(reason & _ & E & _)|[(e & reason & E & Ha & _)|(q & already & tok & rest & Hq & E & Hrest)]].
  - by destruct before.
  - symmetry in E. exfalso. eapply no_attempt; [|exact E]. by repeat constructor.
  - destruct (approved_first_quiet _ _ _ _ Hq) as (Hquiet & Hcons & _ & Hal).
    symmetry in E. destruct (first_attempt _ _ _ _ _ _ Hquiet E) as [(-> & -> & ->)|(before' & -> & ->)].
    + simpl in Hnone. unfold first_sandbox in Hnone.
      destruct (sandbox_override_for_first_attempt _ _ _) eqn:Eo; [done|]. apply override_spec in Eo as [Hd [Hs|Hs]];
        (split; [done|]); auto.
    + destruct Hrest as [E'|(npd & Hmay & q' & Hq' & Hr')]; [by destruct before'|].
      assert (Forall (fun e => attempted e = None) q') as Hquiet'.
      { destruct Hq' as [[-> _]|(e & -> & He)]; by repeat constructor. }
      destruct Hr' as [(E' & _)|(Hc' & tok' & E')].
      { symmetry in E'. exfalso. by eapply no_attempt. }
      symmetry in E'. destruct (first_attempt _ _ _ _ _ _ Hquiet' E') as [(-> & -> & ->)|(b & -> & E2)]; [|by destruct b].
      simpl in Hnone. unfold unsandboxed_execution_allowed in Hnone.
      destruct (has_denied_read_restrictions _); simpl in Hnone; [done|]. split; [done|]. right; right.
      apply Exists_app. destruct Hq' as [(-> & Hby & _)|(e & -> & _)].
      * left. apply Hal. destruct already; [done|]. apply bypass_lawful in Hby as ->.
        by rewrite may_retry_not_never in Hmay.
      * right. right. left. by inversion Hc'.
Qed.

(** C25: A refusal ends the call: a command that is forbidden is rejected with the reason and
    nothing else happens; after an answer that does not consent nothing is attempted or
    asked, and the call is rejected.  At most two attempts are made, and under [Never] a
    call that needs no approval is attempted once and nobody is asked, unless everything
    is reviewed in this turn. *)
Theorem refusals_end_the_call turn tool_ctx req policy w t :
  exists w' es r, run (HT := HT) target_os turn tool_ctx req policy (w, t) = ((w', t ++ es), r) /\
  (forall reason, requirement_of turn req policy = Forbid_ reason -> es = [] /\ r = Err (Rejected reason)) /\
  (forall before e after, es = before ++ e :: after -> attempted e = None -> consents e = false ->
     after = [] /\ exists reason, r = Err (Rejected reason)) /\
  length (omap attempted es) <= 2 /\
  (policy = Never -> strict_auto_review_enabled w = false ->
   (exists b a, requirement_of turn req policy = Skip b a) -> exists a, es = [Attempted a]).
Proof.
  destruct (emits_run target_os turn tool_ctx req policy w t) as (w' & es & r & E & Hc).
  exists w', es, r. split; [exact E|]. clear E.
  destruct Hc as [(reason & Hreq & -> & ->)|[(e & reason & -> & Ha & Hno & -> & Hnf & Hs)|(q & already & tok & rest & Hq & -> & Hrest)]].
  - rewrite Hreq. split_and!; [naive_solver|by intros []|simpl; lia|by intros _ _ (? & ? & [=])].
  - split_and!.
    + by intros r0 Hr0%Hnf.
    + intros [|e' [|]] e2 after [= <- <-]; [eauto|done..].
    + simpl. rewrite Ha. simpl. lia.
    + intros _ Hst (b & a & Hb). rewrite Hst, Hb in Hs. by destruct Hs as [|(? & ? & [=])].
  - destruct (approved_first_quiet _ _ _ _ Hq) as (Hquiet & Hcons & Hlen & _).
    assert (forall q, Forall (fun e => attempted e = None) q -> omap attempted q = []) as Homap.
    { induction 1 as [|e l He _ IH]; [done|]. csimpl. by rewrite He. }
    split_and!.
    + intros reason Hf. destruct Hq as [(_ & _ & _ & b & a & Hs)|(e & _ & _ & _ & _ & Hnf & _)]; [congruence|by apply Hnf in Hf].
    + intros before e after Ees Ha Hno.
      assert (forall before, q ++ Attempted (attempt_with tok (attempt_of turn req (first_sandbox target_os turn req policy)
                                              (turn_codex_linux_sandbox_exe turn))) :: rest = before ++ e :: after ->
              exists before', rest = before' ++ e :: after) as Hin.
      { clear -Hcons Ha Hno. induction Hcons as [|e0 q He0 _ IH]; intros [|e1 before] Eq; simpl in Eq; injection Eq as He Eq.
        - by subst e.
        - by exists before.
        - congruence.
        - by apply (IH before). }
      destruct (Hin before Ees) as [b1 ->]. destruct Hrest as [E'|(npd & _ & q' & Hq' & Hr')]; [by destruct b1|].
      destruct Hr' as [(E' & Hne & _ & Hr')|(Hc' & tok' & E')].
      * destruct Hq' as [[-> _]|(e' & -> & _)]; [done|]. destruct b1 as [|? [|]]; simplify_eq/=; eauto.
      * exfalso. assert (e ∈ q' ++ [Attempted (attempt_with tok' (attempt_of turn req
            (if unsandboxed_execution_allowed (turn_file_system_sandbox_policy turn) then SandboxNone
             else selected_sandbox target_os turn)
            (if unsandboxed_execution_allowed (turn_file_system_sandbox_policy turn) then None
             else turn_codex_linux_sandbox_exe turn)))]) as Hin' by (rewrite <- E'; set_solver).
        apply elem_of_app in Hin' as [Hin'|Hin']; [|apply list_elem_of_singleton in Hin' as ->; done].
        rewrite Forall_forall in Hc'. apply Hc' in Hin'. congruence.
    + rewrite omap_app, (Homap q Hquiet). csimpl. destruct Hrest as [->|(npd & _ & q' & Hq' & Hr')]; [simpl; lia|].
      assert (Forall (fun e => attempted e = None) q') as Hquiet'.
      { destruct Hq' as [[-> _]|(e & -> & He)]; by repeat constructor. }
      destruct Hr' as [(-> & _)|(_ & tok' & ->)]; rewrite ?omap_app, (Homap q' Hquiet'); simpl; lia.
    + intros -> Hst (b & a & Hb). destruct Hrest as [->|(npd & Hmay & _)]; [|by rewrite may_retry_not_never in Hmay].
      destruct Hq as [(-> & _)|(e & -> & _ & _ & _ & _ & Hs)]; [by eexists|].
      rewrite Hst, Hb in Hs. by destruct Hs as [|(? & ? & [=])].
Qed.
End properties.

(** ** Registrations *)

Definition active_ids {W} `{World W} (w : W) : list str := (active_calls (calls (network_service w))).*1.

(** The service is a field of the world, identifiers are new, and hooks, reviewers and tools
    leave the registered calls alone. *)
Class QuietWorld {W Req Out Output} (HW : World W) (HT : ToolRuntime W Req Out Output) : Prop := {
  service_set w s : network_service (set_network_service w s) = s;
  new_id_fresh w : snd (new_id w) ∉ active_ids w;
  new_id_quiet w : active_ids (fst (new_id w)) = active_ids w;
  new_token_quiet w : active_ids (fst (new_token w)) = active_ids w;
  hooks_quiet id payload w : active_ids (fst (run_permission_request_hooks id payload w)) = active_ids w;
  rejection_quiet id w : active_ids (fst (take_guardian_rejection id w)) = active_ids w;
  approval_quiet req ctx w : active_ids (fst (start_approval_async (ToolRuntime := HT) req ctx w)) = active_ids w;
  tool_quiet req attempt w : active_ids (fst (tool_run (ToolRuntime := HT) req attempt w)) = active_ids w;
}.

Section registrations.
Context {W Req Out Output : Type} `{HW : World W} `{HT : ToolRuntime W Req Out Output} `{HQ : !QuietWorld HW HT}.
Variable target_os : TargetOs.
Local Abbreviation Op := (@Op W Output).

(** What an operation adds to the registered calls, by its result. *)
Definition adds {A} (m : Op A) (f : result (ToolError Output) A -> list str) : Prop :=
  forall st, active_ids (fst (fst (m st))) = active_ids (fst st) ++ f (snd (m st)).
Definition quiet {A} (m : Op A) : Prop := adds m (fun _ => []).

Lemma quiet_lift {A} (f : W -> W * A) : (forall w, active_ids (fst (f w)) = active_ids w) -> quiet (lift f).
Proof. intros Hf [w t]. unfold lift. simpl. specialize (Hf w). destruct (f w). simpl in *. by rewrite app_nil_r. Qed.
Lemma quiet_ok {A} (x : A) : quiet (ok x).
Proof. intros st. simpl. by rewrite app_nil_r. Qed.
Lemma quiet_fail {A} e : quiet (A := A) (fail e).
Proof. intros st. simpl. by rewrite app_nil_r. Qed.
Lemma adds_record e : quiet (record e).
Proof. intros st. simpl. by rewrite app_nil_r. Qed.
Lemma adds_then {A B} (m : Op A) (f : A -> Op B) g :
  quiet m -> (forall x, adds (f x) g) -> (forall e, g (Err e) = []) -> adds (andThen m f) g.
Proof.
  intros Hm Hf Hg st. specialize (Hm st). unfold andThen. destruct (m st) as [st' [x|e]]; simpl in *.
  - rewrite Hf, Hm, app_nil_r. done.
  - by rewrite Hg.
Qed.
Lemma quiet_then {A B} (m : Op A) (f : A -> Op B) : quiet m -> (forall x, quiet (f x)) -> quiet (andThen m f).
Proof. intros Hm Hf. by apply adds_then. Qed.

Lemma quiet_new_id wanted : quiet (new_review_id wanted).
Proof.
  destruct wanted; simpl; [|apply quiet_ok].
  apply quiet_then; [apply quiet_lift; apply new_id_quiet|intros; apply quiet_ok].
Qed.
Lemma quiet_request req run_id ctx hooks : quiet (request_approval (HT := HT) req run_id ctx hooks).
Proof.
  unfold request_approval.
  assert (quiet (andThen (lift (start_approval_async (ToolRuntime := HT) req ctx))
    (fun decision => andThen (record (ReviewAnswered ctx decision)) (fun _ => ok decision)))) as Hask.
  { apply quiet_then; [apply quiet_lift, approval_quiet|]. intros d. apply quiet_then; [apply adds_record|].
    intros _. apply quiet_ok. }
  destruct (permission_request_payload req); [|done]. destruct hooks; [|done].
  apply quiet_then; [apply quiet_lift; intros; apply hooks_quiet|]. intros [[|m]|]; [| |done].
  - apply quiet_then; [apply adds_record|]. intros _. apply quiet_ok.
  - apply quiet_then; [apply adds_record|]. intros _. apply quiet_fail.
Qed.
Lemma quiet_reject id d : quiet (reject_if_not_approved (Output := Output) id d).
Proof.
  assert (quiet (match id with
    | Some review_id => andThen (lift (take_guardian_rejection review_id))
        (fun rejection => fail (A := unit) (Rejected (guardian_rejection_message rejection)))
    | None => fail (Rejected $"rejected by user") end)) as Hd.
  { destruct id; [|apply quiet_fail]. apply quiet_then; [apply quiet_lift; intros; apply rejection_quiet|].
    intros. apply quiet_fail. }
  destruct d as [| | |a| | |]; simpl; try apply quiet_ok; try apply quiet_fail; try exact Hd.
  destruct (action a); [apply quiet_ok|apply quiet_fail].
Qed.

Lemma ids_removed id l : (shift_remove id l).*1 = filter (fun x => x <> id) l.*1.
Proof.
  unfold shift_remove. induction l as [|[i c] l IH]; [done|]. csimpl. destruct (decide (i = id)) as [->|Hne].
  - rewrite !filter_cons_False by naive_solver. done.
  - rewrite !filter_cons_True by done. csimpl. by rewrite IH.
Qed.
Lemma filter_snoc id (l : list str) : id ∉ l -> filter (fun x => x <> id) (l ++ [id]) = l.
Proof.
  intros Hid. rewrite filter_app, (filter_cons_False _ id) by naive_solver. rewrite filter_nil, app_nil_r.
  induction l as [|x l IH]; [done|]. rewrite filter_cons_True by set_solver. f_equal. set_solver.
Qed.

(** The world after a call was registered. *)
Lemma begin_registers turn tool_ctx req w t :
  turn_network turn && from_option spec_network false (network_approval_spec (ToolRuntime := HT) req tool_ctx) = true ->
  exists w1 id token mode, begin_approval (HT := HT) turn tool_ctx req (w, t) =
      ((w1, t), Ok (Some (mkActive (Some id) mode token))) /\
    active_ids w1 = active_ids w ++ [id] /\ (id ∉ active_ids w).
Proof.
  intros Hb. unfold begin_approval. rewrite Hb. apply andb_true_iff in Hb as [Ht Hs].
  destruct (network_approval_spec req tool_ctx) as [spec|]; [|done]. simpl in Hs.
  unfold with_service, andThen, lift. simpl.
  pose proof (new_id_fresh w) as Hfresh. pose proof (new_id_quiet w) as Hid. destruct (new_id w) as [w0 id].
  simpl in *. pose proof (new_token_quiet w0) as Htok. destruct (new_token w0) as [w2 token]. simpl in *.
  rewrite Ht, Hs. simpl. do 4 eexists. split; [reflexivity|]. split; [|done].
  unfold active_ids at 1. rewrite service_set. unfold register_call, index_insert. simpl.
  assert (id ∉ (active_calls (calls (network_service w2))).*1) as Hn.
  { change (id ∉ active_ids w2). by rewrite Htok, Hid. }
  rewrite bool_decide_eq_false_2 by done. rewrite fmap_app. simpl. f_equal.
  change (active_ids w2 = active_ids w). by rewrite Htok.
Qed.

Lemma removes w w1 id :
  active_ids w1 = active_ids w ++ [id] -> (id ∉ active_ids w) ->
  active_ids (set_network_service w1 (fst (remove_call (network_service w1) id))) = active_ids w.
Proof.
  intros Hi Hn. unfold active_ids at 1. rewrite service_set. simpl. rewrite ids_removed.
  change (filter (fun x => x <> id) (active_ids w1) = active_ids w). rewrite Hi. by apply filter_snoc.
Qed.

Definition left_over (r : result (ToolError Output) (result (ToolError Output) Out * option DeferredNetworkApproval))
    : list str :=
  match r with Ok (_, Some d) => [deferred_registration_id d] | _ => [] end.

Lemma adds_run_attempt turn tool_ctx req attempt :
  adds (run_attempt (HT := HT) turn tool_ctx req attempt) left_over /\
  forall st st' x d, run_attempt (HT := HT) turn tool_ctx req attempt st = (st', Ok (x, Some d)) -> exists out, x = Ok out.
Proof.
  assert (forall st, active_ids (fst (fst (run_attempt (HT := HT) turn tool_ctx req attempt st))) =
            active_ids (fst st) ++ left_over (snd (run_attempt (HT := HT) turn tool_ctx req attempt st)) /\
          forall x d, snd (run_attempt (HT := HT) turn tool_ctx req attempt st) = Ok (x, Some d) -> exists out, x = Ok out)
    as H.
  2: { split; [intros st; apply H|]. intros st st' x d E. destruct (H st) as [_ Hx]. rewrite E in Hx. by eapply Hx. }
  intros [w t]. unfold run_attempt, andThen.
  destruct (turn_network turn && from_option spec_network false (network_approval_spec (ToolRuntime := HT) req tool_ctx)) eqn:Eb.
  - destruct (begin_registers turn tool_ctx req w t Eb) as (w1 & id & token & mode & -> & Hids & Hfresh). simpl.
    set (a := attempt_with _ attempt). unfold lift. simpl. pose proof (tool_quiet req a w1) as Hrun.
    destruct (tool_run req a w1) as [w2 out]. simpl in *. rewrite <- Hrun in Hids.
    destruct mode; simpl.
    + unfold with_service, lift, finish_immediate_network_approval, finish_call, finish_call_outcome. simpl.
      destruct (network_approval_outcome_to_result _); simpl; rewrite app_nil_r; (split; [by apply removes|done]).
    + destruct out as [out|e]; simpl; [split; [done|intros x d Hx; injection Hx as <- _; eauto]|].
      destruct (network_approval_outcome_to_result _); simpl; rewrite app_nil_r; (split; [by apply removes|done]).
  - unfold begin_approval. rewrite Eb. simpl. set (a := attempt_with None attempt). unfold lift. simpl.
    pose proof (tool_quiet req a w) as Hrun. destruct (tool_run req a w) as [w2 out]. simpl in *.
    by rewrite app_nil_r.
Qed.

(** Every registration of a call with the network approvals is released again: when the
    call ends, also by an error, a refusal or a retry, the registered calls are those from
    before, and one more exactly when the call succeeded and hands the registration over
    to be finished later. *)
Theorem registrations_are_released turn tool_ctx req policy w t :
  let '((w', _), r) := run (HT := HT) target_os turn tool_ctx req policy (w, t) in
  active_ids w' = active_ids w ++ match r with Ok (_, Some d) => [deferred_registration_id d] | _ => [] end.
Proof.
  set (f := fun r : result (ToolError Output) (Out * option DeferredNetworkApproval) =>
    match r with Ok (_, Some d) => [deferred_registration_id d] | _ => [] end).
  assert (forall attempt (k : ToolError Output -> Op (Out * option DeferredNetworkApproval)),
    (forall e, adds (k e) f) ->
    adds (andThen (run_attempt (HT := HT) turn tool_ctx req attempt) (fun x =>
      match fst x with Ok output => ok (output, snd x) | Err e => k e end)) f) as Hafter.
  { intros attempt k Hk st. destruct (adds_run_attempt turn tool_ctx req attempt) as [Ha Hok]. specialize (Ha st).
    unfold andThen. destruct (run_attempt turn tool_ctx req attempt st) as [st' [[x d]|e]] eqn:E; simpl in *; [|done].
    destruct x as [out|e]; simpl; [done|].
    destruct d as [d|]; [by apply Hok in E as [? ?]|]. rewrite Hk, Ha. by rewrite app_nil_r. }
  assert (adds (run (HT := HT) target_os turn tool_ctx req policy) f) as Hrun.
  { unfold run. apply adds_then; [by apply quiet_lift| |done]. intros strict. apply adds_then; [| |done].
    - unfold initial_approval.
      assert (forall wanted (ctx : option str -> ApprovalCtx) hooks,
        quiet (andThen (new_review_id wanted) (fun review_id =>
          andThen (request_approval (HT := HT) req (call_id tool_ctx) (ctx review_id) hooks) (fun decision =>
          andThen (reject_if_not_approved review_id decision) (fun _ => ok true))))) as Hq.
      { intros. apply quiet_then; [apply quiet_new_id|]. intros. apply quiet_then; [apply quiet_request|].
        intros. apply quiet_then; [apply quiet_reject|]. intros. apply quiet_ok. }
      destruct (default _ _); [destruct strict; [|apply quiet_ok]| |apply quiet_fail];
        apply (Hq _ (fun review_id => mkApprovalCtx (call_id tool_ctx) review_id _ _)).
    - intros already. eapply (Hafter _ (fun e => match e with
        | SandboxDenied output npd => if may_retry turn policy npd then retry target_os turn tool_ctx req policy strict already npd
                                      else fail (SandboxDenied output npd)
        | e => fail e end)).
      intros e. assert (forall e, adds (fail (A := Out * option DeferredNetworkApproval) e) f) as Hfail
        by (intros; apply quiet_fail).
      destruct e as [reason|output npd|message]; try apply Hfail. destruct (may_retry turn policy npd); [|apply Hfail].
      unfold retry. apply adds_then; [| |done].
      + destruct (_ && _ && _); [apply quiet_ok|]. apply quiet_then; [apply quiet_new_id|]. intros.
        apply quiet_then; [apply quiet_request|]. intros. apply quiet_reject.
      + intros _. apply (Hafter _ fail). intros; apply quiet_fail. }
  specialize (Hrun (w, t)). destruct (run target_os turn tool_ctx req policy (w, t)) as [[w' t'] r]. exact Hrun.
Qed.
End registrations.

(** ** Instances of the properties *)

(** A world that is only the service, where hooks are silent and reviewers approve; a tool
    that fails in every sandbox and runs under the proxy. *)
Definition longest (l : list str) : nat := foldr (fun s n => max (length s) n) 0 l.
Definition demo_id (l : list str) : str := replicate (S (longest l)) 120%N.
#[export] Instance demo_world : World NetworkApprovalService := {
  network_service w := w;
  set_network_service _ s := s;
  new_id w := (w, demo_id (active_calls (calls w)).*1);
  new_token w := (w, 0);
  run_permission_request_hooks _ _ w := (w, None);
  take_guardian_rejection _ w := (w, None);
  strict_auto_review_enabled _ := false;
}.
Definition demo_trigger : GuardianNetworkAccessTrigger := mkTrigger $"c" $"shell" [] $"/w" UseDefault None None None.
#[export] Instance demo_tool : ToolRuntime NetworkApprovalService unit unit unit := {
  sandbox_permissions _ := UseDefault;
  should_bypass_approval := default_should_bypass_approval;
  exec_approval_requirement _ := None;
  permission_request_payload _ := None;
  wants_no_sandbox_approval := default_wants_no_sandbox_approval;
  start_approval_async _ _ w := (w, ApprovedForSession);
  sandbox_preference := Auto;
  escalate_on_failure := true;
  network_approval_spec _ _ := Some (mkSpec true Deferred demo_trigger $"make");
  sandbox_cwd _ := None;
  tool_run _ a w := (w, if bool_decide (sandbox a = SandboxNone) then Ok tt else Err (SandboxDenied tt None));
}.
#[export] Instance demo_lawful : LawfulTool demo_tool.
Proof. split; [|done]. intros policy. unfold should_bypass_approval; simpl. by intros H%bool_decide_eq_true. Qed.

Lemma longest_bound l s : s ∈ l -> length s <= longest l.
Proof. induction 1; simpl; lia. Qed.
#[export] Instance demo_quiet : QuietWorld demo_world demo_tool.
Proof.
  split; try done. intros w. simpl. unfold active_ids. simpl. intros Hin. apply longest_bound in Hin.
  unfold demo_id in Hin at 1. rewrite length_replicate in Hin. lia.
Qed.

Definition demo_context : TurnContext := mkTurn $"turn" (Managed ManagedUnrestricted NetRestricted) OnFailure User.
Definition demo_turn : Turn :=
  mkTurnContext demo_context (mkPolicy Restricted None []) NetRestricted true LevelDisabled $"/w" [] None false false.
Definition demo_run : (NetworkApprovalService * list Event) * result (ToolError unit) (unit * option DeferredNetworkApproval) :=
  run Linux demo_turn (mkToolCtx $"c" $"shell") tt OnFailure (service_default, []).
(** The first attempt is denied; the user is asked and the second runs without a sandbox. *)
Definition demo_first : Event :=
  Attempted (attempt_with (Some 0) (attempt_of demo_turn tt LinuxSeccomp None)).
Definition demo_question : Event :=
  ReviewAnswered (mkApprovalCtx $"c" None (Some build_denial_reason_from_output) None) ApprovedForSession.
Definition demo_second : SandboxAttempt := attempt_with (Some 0) (attempt_of demo_turn tt SandboxNone None).

Lemma demo_run_trace : snd (fst demo_run) = [demo_first; demo_question; Attempted demo_second].
Proof. vm_compute. reflexivity. Qed.

Lemma unsandboxed_attempts_have_consent_witness :
  has_denied_read_restrictions (turn_file_system_sandbox_policy demo_turn) = false /\
  ((exists amendment, requirement_of demo_turn tt OnFailure = Skip true amendment) \/
   requires_escalated_permissions (sandbox_permissions (ToolRuntime := demo_tool) tt) = true \/
   Exists (fun e => consents e = true) [demo_first; demo_question]).
Proof.
  apply (unsandboxed_attempts_have_consent Linux demo_turn (mkToolCtx $"c" $"shell") tt OnFailure service_default []
           (fst (fst demo_run)) [demo_first; demo_question; Attempted demo_second] (snd demo_run)
           [demo_first; demo_question] demo_second []).
  - vm_compute. reflexivity.
  - reflexivity.
  - reflexivity.
  - vm_compute. discriminate.
Defined.

Lemma refusals_end_the_call_witness :
  exists w' es r, run Linux demo_turn (mkToolCtx $"c" $"shell") tt Never (service_default, []) = ((w', [] ++ es), r) /\
    length (omap attempted es) <= 2.
Proof.
  destruct (refusals_end_the_call Linux demo_turn (mkToolCtx $"c" $"shell") tt Never service_default [])
    as (w' & es & r & E & _ & _ & Hl & _).
  exists w', es, r. split; [exact E|exact Hl].
Defined.

Lemma registrations_are_released_witness :
  let '((w', _), r) := run Linux demo_turn (mkToolCtx $"c" $"shell") tt OnFailure (service_default, []) in
  active_ids w' = active_ids service_default ++ match r with Ok (_, Some d) => [deferred_registration_id d] | _ => [] end.
Proof. exact (registrations_are_released Linux demo_turn (mkToolCtx $"c" $"shell") tt OnFailure service_default []). Defined.
End Orchestrator.
