(* ===== verification/ToolRuntimes.v ===== *)
(** The tools that go through the orchestrator, as far as their approvals: shell commands,
    unified exec and patches ([core/src/tools/runtimes/shell.rs], [unified_exec.rs],
    [apply_patch.rs]).  What they run is an argument; the reviewers, the user and the store
    of session approvals are an interface to the world.  The properties of the approval
    cache and of the orchestrator's calls are instantiated here. *)
From S2P Require Import Prelude Paths PathOps ShellCommand Permissions AccessResolution PermissionProfile.
From S2P Require Import ExecApproval NetworkProxy NetworkApproval GuardianRequests Orchestrator.
From stdpp Require Import gmap.

Module Runtimes.
Import Shell Permissions Access Profile Approval NetApproval GuardianRequest Orchestrator.

(** ** Data *)

Record ShellRequest := mkShellRequest {
  shell_command : list str;
  shell_hook_command : str;
  shell_cwd : str;
  shell_network : option unit;
  shell_sandbox_permissions : SandboxPermissions;
  shell_additional_permissions : option AdditionalPermissionProfile;
  shell_justification : option str;
  shell_exec_approval_requirement : ExecApprovalRequirement;
}.
Record ApprovalKey := mkApprovalKey {
  key_command : list str;
  key_cwd : str;
  key_sandbox_permissions : SandboxPermissions;
  key_additional_permissions : option AdditionalPermissionProfile;
}.
Record UnifiedExecRequest := mkUnifiedExecRequest {
  unified_command : list str;
  unified_hook_command : str;
  unified_cwd : str;
  unified_sandbox_cwd : str;
  unified_network : option unit;
  unified_tty : bool;
  unified_sandbox_permissions : SandboxPermissions;
  unified_additional_permissions : option AdditionalPermissionProfile;
  unified_justification : option str;
  unified_exec_approval_requirement : ExecApprovalRequirement;
}.
Record UnifiedExecApprovalKey := mkUnifiedKey {
  unified_key_command : list str;
  unified_key_cwd : str;
  unified_key_tty : bool;
  unified_key_sandbox_permissions : SandboxPermissions;
  unified_key_additional_permissions : option AdditionalPermissionProfile;
}.
Inductive FileChange :=
| FileAdd (content : str)
| FileDelete (content : str)
| FileUpdate (unified_diff : str) (move_path : option str).
Record ApplyPatchRequest := mkPatchRequest {
  patch_environment_id : str;
  patch_action : ApplyPatchAction;
  patch_file_paths : list str;
  patch_changes : list (str * FileChange);
  patch_exec_approval_requirement : ExecApprovalRequirement;
  patch_permissions_preapproved : bool;
}.
Record ApplyPatchApprovalKey := mkPatchKey { patch_key_environment_id : str; patch_key_path : str }.

Record CommandQuestion := mkCommandQuestion {
  question_call_id : str;
  question_command : list str;
  question_cwd : str;
  question_reason : option str;
  question_network : option NetworkApprovalContext;
  question_amendment : option ExecPolicyAmendment;
  question_permissions : option AdditionalPermissionProfile;
}.
Record PatchQuestion := mkPatchQuestion {
  patch_question_call_id : str;
  patch_question_changes : list (str * FileChange);
  patch_question_reason : option str;
}.
Definition or_else {A} (a b : option A) : option A := match a with Some _ => a | None => b end.

(** The session's side: the automatic reviewer, the user, and the session's approvals.  A
    question whose answer is lost counts as answered by the default. *)
Class Reviewers (W : Type) := {
  review_approval_request : str -> GuardianApprovalRequest -> option str -> W -> W * ReviewDecision;
  request_command_approval : CommandQuestion -> W -> W * ReviewDecision;
  request_patch_approval : PatchQuestion -> W -> W * ReviewDecision;
  tool_approvals : W -> ApprovalStore;
  set_tool_approvals : W -> ApprovalStore -> W;
}.

Section runtimes.
Context {W Output : Type} `{HR : Reviewers W}.
Variable parse_tree : str -> option Node.
Variable turn : Turn.

(** ** Shell commands *)

Variable shell_key_to_string : ApprovalKey -> option str.
Definition shell_approval_keys (req : ShellRequest) : list ApprovalKey :=
  [mkApprovalKey (canonicalize_command_for_approval parse_tree (shell_command req)) (shell_cwd req)
     (shell_sandbox_permissions req) (shell_additional_permissions req)].
Definition shell_start_approval (req : ShellRequest) (ctx : ApprovalCtx) (w : W) : W * ReviewDecision :=
  match guardian_review_id ctx with
  | Some review_id =>
      review_approval_request review_id
        (GuardianShell (approval_call_id ctx) (shell_command req) (shell_cwd req) (shell_sandbox_permissions req)
           (shell_additional_permissions req) (shell_justification req)) (retry_reason ctx) w
  | None =>
      with_cached_approval shell_key_to_string tool_approvals set_tool_approvals (shell_approval_keys req)
        (request_command_approval
           (mkCommandQuestion (approval_call_id ctx) (shell_command req) (shell_cwd req)
              (or_else (retry_reason ctx) (shell_justification req)) (network_approval_context ctx)
              (proposed_execpolicy_amendment (shell_exec_approval_requirement req)) (shell_additional_permissions req))) w
  end.
Definition bash_payload (command : str) (description : option str) : PermissionRequestPayload :=
  mkPermissionRequest $"Bash" command description.
(** The managed network a request runs under; denied reads keep it under the proxy. *)
Definition network_of (network : option unit) (permissions : SandboxPermissions) : option unit :=
  managed_network_for_sandbox_permissions network
    (sandbox_permissions_preserving_denied_reads permissions (turn_file_system_sandbox_policy turn)).
Definition shell_network_approval_spec (req : ShellRequest) (ctx : ToolCtx) : option NetworkApprovalSpec :=
  _ ← network_of (shell_network req) (shell_sandbox_permissions req);
  Some (mkSpec true Immediate
    (mkTrigger (call_id ctx) (tool_name ctx) (shell_command req) (shell_cwd req) (shell_sandbox_permissions req)
       (shell_additional_permissions req) (shell_justification req) None) (shell_hook_command req)).
#[local] Instance shell_runtime {Out} (execute : ShellRequest -> SandboxAttempt -> W -> W * result (ToolError Output) Out)
    : ToolRuntime W ShellRequest Out Output := {
  sandbox_permissions := shell_sandbox_permissions;
  should_bypass_approval := default_should_bypass_approval;
  exec_approval_requirement req := Some (shell_exec_approval_requirement req);
  permission_request_payload req := Some (bash_payload (shell_hook_command req) (shell_justification req));
  wants_no_sandbox_approval := default_wants_no_sandbox_approval;
  start_approval_async := shell_start_approval;
  sandbox_preference := Auto;
  escalate_on_failure := true;
  network_approval_spec := shell_network_approval_spec;
  sandbox_cwd _ := None;
  tool_run := execute;
}.

(** ** Unified exec *)

Variable unified_key_to_string : UnifiedExecApprovalKey -> option str.
Definition unified_approval_keys (req : UnifiedExecRequest) : list UnifiedExecApprovalKey :=
  [mkUnifiedKey (canonicalize_command_for_approval parse_tree (unified_command req)) (unified_cwd req) (unified_tty req)
     (unified_sandbox_permissions req) (unified_additional_permissions req)].
Definition unified_start_approval (req : UnifiedExecRequest) (ctx : ApprovalCtx) (w : W) : W * ReviewDecision :=
  match guardian_review_id ctx with
  | Some review_id =>
      review_approval_request review_id
        (GuardianExecCommand (approval_call_id ctx) (unified_command req) (unified_cwd req)
           (unified_sandbox_permissions req) (unified_additional_permissions req) (unified_justification req)
           (unified_tty req)) (retry_reason ctx) w
  | None =>
      with_cached_approval unified_key_to_string tool_approvals set_tool_approvals (unified_approval_keys req)
        (request_command_approval
           (mkCommandQuestion (approval_call_id ctx) (unified_command req) (unified_cwd req)
              (or_else (retry_reason ctx) (unified_justification req)) (network_approval_context ctx)
              (proposed_execpolicy_amendment (unified_exec_approval_requirement req))
              (unified_additional_permissions req))) w
  end.
Definition unified_network_approval_spec (req : UnifiedExecRequest) (ctx : ToolCtx) : option NetworkApprovalSpec :=
  _ ← network_of (unified_network req) (unified_sandbox_permissions req);
  Some (mkSpec true Deferred
    (mkTrigger (call_id ctx) (tool_name ctx) (unified_command req) (unified_cwd req) (unified_sandbox_permissions req)
       (unified_additional_permissions req) (unified_justification req) (Some (unified_tty req)))
    (unified_hook_command req)).
#[local] Instance unified_exec_runtime {Out}
    (execute : UnifiedExecRequest -> SandboxAttempt -> W -> W * result (ToolError Output) Out)
    : ToolRuntime W UnifiedExecRequest Out Output := {
  sandbox_permissions := unified_sandbox_permissions;
  should_bypass_approval := default_should_bypass_approval;
  exec_approval_requirement req := Some (unified_exec_approval_requirement req);
  permission_request_payload req := Some (bash_payload (unified_hook_command req) (unified_justification req));
  wants_no_sandbox_approval := default_wants_no_sandbox_approval;
  start_approval_async := unified_start_approval;
  sandbox_preference := Auto;
  escalate_on_failure := true;
  network_approval_spec := unified_network_approval_spec;
  sandbox_cwd req := Some (unified_sandbox_cwd req);
  tool_run := execute;
}.

(** ** Patches *)

Variable patch_key_to_string : ApplyPatchApprovalKey -> option str.
Definition patch_approval_keys (req : ApplyPatchRequest) : list ApplyPatchApprovalKey :=
  mkPatchKey (patch_environment_id req) <$> patch_file_paths req.
Definition build_guardian_review_request (req : ApplyPatchRequest) (call_id : str) : GuardianApprovalRequest :=
  GuardianApplyPatch call_id (action_cwd (patch_action req)) (patch_file_paths req) (action_patch (patch_action req)).
Definition patch_start_approval (req : ApplyPatchRequest) (ctx : ApprovalCtx) (w : W) : W * ReviewDecision :=
  match guardian_review_id ctx with
  | Some review_id =>
      review_approval_request review_id (build_guardian_review_request req (approval_call_id ctx)) (retry_reason ctx) w
  | None =>
      match retry_reason ctx with
      | Some reason =>
          request_patch_approval (mkPatchQuestion (approval_call_id ctx) (patch_changes req) (Some reason)) w
      | None =>
          if patch_permissions_preapproved req then (w, Approved)
          else
            with_cached_approval patch_key_to_string tool_approvals set_tool_approvals (patch_approval_keys req)
              (request_patch_approval (mkPatchQuestion (approval_call_id ctx) (patch_changes req) None)) w
      end
  end.
#[local] Instance apply_patch_runtime {Out}
    (execute : ApplyPatchRequest -> SandboxAttempt -> W -> W * result (ToolError Output) Out)
    : ToolRuntime W ApplyPatchRequest Out Output := {
  sandbox_permissions _ := UseDefault;
  should_bypass_approval := default_should_bypass_approval;
  exec_approval_requirement req := Some (patch_exec_approval_requirement req);
  permission_request_payload req :=
    Some (mkPermissionRequest $"apply_patch" (action_patch (patch_action req)) None);
  wants_no_sandbox_approval := apply_patch_wants_no_sandbox_approval;
  start_approval_async := patch_start_approval;
  sandbox_preference := Auto;
  escalate_on_failure := true;
  network_approval_spec _ _ := None;
  sandbox_cwd req := Some (action_cwd (patch_action req));
  tool_run := execute;
}.

(** ** The tools are lawful *)

Lemma default_bypass policy : default_should_bypass_approval policy false = true -> policy = Never.
Proof. unfold default_should_bypass_approval. by intros H%bool_decide_eq_true. Qed.
#[export] Instance shell_lawful {Out} execute : LawfulTool (shell_runtime (Out := Out) execute).
Proof. split; [apply default_bypass|done]. Qed.
#[export] Instance unified_exec_lawful {Out} execute : LawfulTool (unified_exec_runtime (Out := Out) execute).
Proof. split; [apply default_bypass|done]. Qed.
#[export] Instance apply_patch_lawful {Out} execute : LawfulTool (apply_patch_runtime (Out := Out) execute).
Proof. split; [apply default_bypass|done]. Qed.
End runtimes.

(** ** The session's approvals *)

Section cached.
Context {W K : Type} (to_string : K -> option str) (store_of : W -> ApprovalStore) (set_store : W -> ApprovalStore -> W).
Hypothesis store_set : forall w s, store_of (set_store w s) = s.

Definition stored (store : ApprovalStore) (key : K) : Prop := get to_string store key = Some ApprovedForSession.

Lemma put_stored store key key' :
  is_Some (to_string key) -> stored store key' \/ key' = key -> stored (put to_string store key ApprovedForSession) key'.
Proof.
  unfold stored, put, get, ApprovalStore in *. intros [s Hs] H. rewrite Hs. destruct H as [H| ->].
  - destruct (to_string key') as [s'|]; [|done]. simpl in *. destruct (decide (s' = s)) as [->|Hne].
    + by rewrite lookup_insert_eq.
    + by rewrite lookup_insert_ne.
  - rewrite Hs. simpl. by rewrite lookup_insert_eq.
Qed.
Lemma puts_stored keys store key :
  Forall (fun k => is_Some (to_string k)) keys -> stored store key \/ key ∈ keys ->
  stored (fold_left (fun st k => put to_string st k ApprovedForSession) keys store) key.
Proof.
  intros Hk. revert store; induction Hk as [|k keys Hs _ IH]; intros store H; simpl.
  - destruct H as [H|H%not_elem_of_nil]; done.
  - apply IH. rewrite elem_of_cons in H. destruct H as [H|[->|H]]; [| |by right].
    + left. apply put_stored; auto.
    + left. apply put_stored; auto.
Qed.
Lemma all_stored store keys :
  forallb (fun key => bool_decide (get to_string store key = Some ApprovedForSession)) keys = true <->
  Forall (stored store) keys.
Proof.
  rewrite forallb_forall, Forall_forall. setoid_rewrite list_elem_of_In. unfold stored.
  by setoid_rewrite bool_decide_eq_true.
Qed.

(** The user is spared a question exactly when there are keys and each was approved for
    the session; then nothing changes.  Else the answer is the user's.  And an approval for
    the session of keys that serialize covers every later request for some of them, which
    is the point of storing them one by one: a patch that touches a subset of the files of
    an approved one is not asked about. *)
Theorem session_approvals_cover_subsets keys fetch w w' d :
  with_cached_approval to_string store_of set_store keys fetch w = (w', d) ->
  (keys <> [] /\ Forall (stored (store_of w)) keys -> w' = w /\ d = ApprovedForSession) /\
  (~ (keys <> [] /\ Forall (stored (store_of w)) keys) ->
   d = snd (fetch w) /\ (d <> ApprovedForSession -> w' = fst (fetch w))) /\
  (d = ApprovedForSession -> Forall (fun k => is_Some (to_string k)) keys ->
   forall keys' fetch', keys' <> [] -> keys' ⊆ keys ->
     with_cached_approval to_string store_of set_store keys' fetch' w' = (w', ApprovedForSession)).
Proof.
  intros Hw. unfold with_cached_approval in Hw. destruct keys as [|key keys].
  { split_and!; [naive_solver| |].
    - intros _. rewrite Hw. done.
    - intros _ _ keys' fetch' Hne Hsub. destruct keys' as [|k keys']; [done|].
      exfalso. apply (not_elem_of_nil k), Hsub. left. }
  set (ks := key :: keys) in *. destruct (forallb _ ks) eqn:Ef.
  - injection Hw as <- <-. apply all_stored in Ef. split_and!; [done|naive_solver|].
    intros _ _ keys' fetch' Hne Hsub. unfold with_cached_approval. destruct keys' as [|k keys']; [done|].
    rewrite (proj2 (all_stored _ _)); [done|]. apply Forall_forall. intros x Hx. rewrite Forall_forall in Ef. by apply Ef, Hsub.
  - assert (~ (ks <> [] /\ Forall (stored (store_of w)) ks)) as Hnot.
    { intros [_ Hall%all_stored]. congruence. }
    destruct (fetch w) as [w1 d1] eqn:Efetch. case_bool_decide as Hd; injection Hw as <- <-.
    + split_and!; [naive_solver|naive_solver|]. intros _ Hser keys' fetch' Hne Hsub. unfold with_cached_approval.
      destruct keys' as [|k keys']; [done|]. rewrite store_set. rewrite (proj2 (all_stored _ _)); [done|].
      apply Forall_forall. intros x Hx. apply (puts_stored ks); [exact Hser|]. right. by apply Hsub.
    + split_and!; [naive_solver|naive_solver|naive_solver].
Qed.
End cached.

(** ** Findings and instances *)

(** PowerShell runs all the arguments behind [-Command], yet the approval key keeps only the
    first: an approval for the session covers commands that do more. *)
Lemma powershell_arguments_share_an_approval parse_tree :
  canonicalize_command_for_approval parse_tree [$"pwsh"; $"-Command"; $"Get-ChildItem"; $";"; $"Remove-Item"; $"notes"] =
  canonicalize_command_for_approval parse_tree [$"pwsh"; $"-Command"; $"Get-ChildItem"].
Proof. reflexivity. Qed.

Definition demo_fetch (st : ApprovalStore) : ApprovalStore * ReviewDecision := (st, ApprovedForSession).
Lemma session_approvals_cover_subsets_witness :
  with_cached_approval Some (fun st => st) (fun _ st => st) [$"b"] (fun st => (st, Denied))
    (fst (with_cached_approval Some (fun st => st) (fun _ st => st) [$"a"; $"b"] demo_fetch ∅)) =
  (fst (with_cached_approval Some (fun st => st) (fun _ st => st) [$"a"; $"b"] demo_fetch ∅), ApprovedForSession).
Proof.
  pose proof (session_approvals_cover_subsets Some (fun st => st) (fun _ st => st) (fun _ _ => eq_refl) [$"a"; $"b"]
    demo_fetch ∅ _ _ eq_refl) as (_ & _ & H).
  apply H; [reflexivity|repeat constructor; by eexists|discriminate|].
  intros x Hx. apply list_elem_of_singleton in Hx as ->. right. left.
Defined.
End Runtimes.
