(* ===== verification/PatchInvocation.v ===== *)
(** Calls of the patch tool ([apply-patch/src/invocation.rs]): which commands are such
    calls, the patch in them, and the changes that are shown before a patch is applied;
    what is shown is related to what applying the patch does.

    The grammar of shell scripts and its queries are third-party code: [BashQuery] gives
    the captures of every match, in order, with their texts. *)
From stdpp Require Import gmap.
From S2P Require Import Prelude Utf8 Paths FileSystem PermissionProfile PatchParser PatchGrammar Replacements ApplyPatch PathOps Permissions AccessResolution ShellCommand ExecApproval.

Module Invocation.
Import Patch Grammar Fs Apply Approval.

(** ** Commands *)

Definition APPLY_PATCH_COMMANDS : list str := [$"apply_patch"; $"applypatch"].
Inductive ApplyPatchShell := Unix | PowerShell | Cmd.

Definition classify_shell_name (shell : str) : option str := Str.to_ascii_lowercase <$> Shell.file_stem shell.
Definition classify_shell (shell flag : str) : option ApplyPatchShell :=
  name ← classify_shell_name shell;
  if bool_decide (name ∈ [$"bash"; $"zsh"; $"sh"]) && bool_decide (flag ∈ [$"-lc"; $"-c"]) then Some Unix
  else if bool_decide (name ∈ [$"pwsh"; $"powershell"]) && Str.eq_ignore_ascii_case flag $"-command" then Some PowerShell
  else if bool_decide (name = $"cmd") && Str.eq_ignore_ascii_case flag $"/c" then Some Cmd
  else None.
Definition can_skip_flag (shell flag : str) : bool :=
  match classify_shell_name shell with
  | Some name => bool_decide (name ∈ [$"pwsh"; $"powershell"]) && Str.eq_ignore_ascii_case flag $"-noprofile"
  | None => false
  end.
Definition parse_shell_script (argv : list str) : option (ApplyPatchShell * str) :=
  match argv with
  | [shell; flag; script] => shell_type ← classify_shell shell flag; Some (shell_type, script)
  | [shell; skip_flag; flag; script] =>
      if can_skip_flag shell skip_flag
      then shell_type ← classify_shell shell flag; Some (shell_type, script) else None
  | _ => None
  end.

(** ** Scripts *)

Class BashQuery := {
  set_language : result str unit;
  (** [None] when the parser returns no tree. *)
  query_matches : str -> option (list (list (str * result Utf8.Utf8Error str)));
}.

Inductive ExtractHeredocError :=
| CommandDidNotStartWithApplyPatch
| FailedToLoadBashGrammar (e : str)
| HeredocNotUtf8 (e : Utf8.Utf8Error)
| FailedToParsePatchIntoAst
| FailedToFindHeredocBody.

(** What one match captures: the text of the patch and the directory. *)
Fixpoint read_captures (heredoc_text cd_path : option str) (captures : list (str * result Utf8.Utf8Error str))
    : result ExtractHeredocError (option str * option str) :=
  match captures with
  | [] => Ok (heredoc_text, cd_path)
  | (name, node) :: captures =>
      if decide (name = $"heredoc") then
        text ← map_err HeredocNotUtf8 node;
        read_captures (Some (Str.trim_end_by (N.eqb newline) text)) cd_path captures
      else if decide (name = $"cd_path") then
        text ← map_err HeredocNotUtf8 node; read_captures heredoc_text (Some text) captures
      else if decide (name = $"cd_raw_string") then
        raw ← map_err HeredocNotUtf8 node;
        let trimmed := default raw (s ← Str.strip_prefix $"'" raw; Str.strip_suffix $"'" s) in
        read_captures heredoc_text (Some trimmed) captures
      else read_captures heredoc_text cd_path captures
  end.
Fixpoint read_matches (matches : list (list (str * result Utf8.Utf8Error str)))
    : result ExtractHeredocError (str * option str) :=
  match matches with
  | [] => Err CommandDidNotStartWithApplyPatch
  | captures :: matches =>
      '(heredoc_text, cd_path) ← read_captures None None captures;
      match heredoc_text with Some heredoc => Ok (heredoc, cd_path) | None => read_matches matches end
  end.
Definition extract_apply_patch_from_bash `{BashQuery} (src : str) : result ExtractHeredocError (str * option str) :=
  _ ← map_err FailedToLoadBashGrammar set_language;
  match query_matches src with None => Err FailedToParsePatchIntoAst | Some matches => read_matches matches end.
Definition extract_apply_patch_from_shell `{BashQuery} (shell : ApplyPatchShell) (script : str)
    : result ExtractHeredocError (str * option str) :=
  match shell with Unix | PowerShell | Cmd => extract_apply_patch_from_bash script end.

Inductive MaybeApplyPatch :=
| Body (args : ApplyPatchArgs)
| ShellParseError (e : ExtractHeredocError)
| PatchParseError (e : ParseError)
| NotApplyPatch.
Definition set_workdir (workdir : option str) (source : ApplyPatchArgs) : ApplyPatchArgs :=
  mkArgs (patch source) (hunks source) workdir (environment_id source).
Definition parse_shell_form `{BashQuery} (argv : list str) : MaybeApplyPatch :=
  match parse_shell_script argv with
  | Some (shell, script) =>
      match extract_apply_patch_from_shell shell script with
      | Ok (body, workdir) =>
          match parse_patch body with
          | Ok source => Body (set_workdir workdir source)
          | Err e => PatchParseError e
          end
      | Err CommandDidNotStartWithApplyPatch => NotApplyPatch
      | Err e => ShellParseError e
      end
  | None => NotApplyPatch
  end.
Definition maybe_parse_apply_patch `{BashQuery} (argv : list str) : MaybeApplyPatch :=
  match argv with
  | [cmd; body] =>
      if decide (cmd ∈ APPLY_PATCH_COMMANDS) then
        match parse_patch body with Ok source => Body source | Err e => PatchParseError e end
      else parse_shell_form argv
  | _ => parse_shell_form argv
  end.

(** ** The changes of a patch *)

Record ApplyPatchFileUpdate := mkFileUpdate { unified_diff : str; original_content : str; content : str }.
Inductive MaybeApplyPatchVerified :=
| VerifiedBody (action : ApplyPatchAction)
| VerifiedShellParseError (e : ExtractHeredocError)
| CorrectnessError (e : ApplyPatchError)
| VerifiedNotApplyPatch.

Section verify.
Context `{ExecutorFileSystem FileSys}.
Variable home_dir : option str.
(** The printed difference of two texts, with lines of context. *)
Variable text_diff : str -> str -> nat -> str.

Definition unified_diff_from_chunks_with_context (path_abs : str) (chunks : list UpdateFileChunk) (ctx : nat) (st : FileSys)
    : result ApplyPatchError ApplyPatchFileUpdate :=
  '(mkApplied original_contents new_contents) ← derive_new_contents_from_chunks path_abs chunks st;
  Ok (mkFileUpdate (text_diff original_contents new_contents ctx) original_contents new_contents).
Definition unified_diff_from_chunks (path_abs : str) (chunks : list UpdateFileChunk) (st : FileSys)
    : result ApplyPatchError ApplyPatchFileUpdate :=
  unified_diff_from_chunks_with_context path_abs chunks 1 st.

(** The change of one hunk, from the files as they are. *)
Definition change_of_hunk (effective_cwd : str) (hunk : Hunk) (st : FileSys) : result ApplyPatchError ApplyPatchFileChange :=
  let path := resolve_path home_dir effective_cwd hunk in
  match hunk with
  | AddFile _ contents => Ok (AddChange contents)
  | DeleteFile _ =>
      map_err (fun e => IoErr (mkIoError ($"Failed to read " ++ path) e)) (read_file_text st path) ≫= fun content =>
      Ok (DeleteChange content)
  | UpdateFile _ move_path chunks =>
      update ← unified_diff_from_chunks path chunks st;
      Ok (UpdateChange (unified_diff update) (Path.join home_dir effective_cwd <$> move_path) (content update))
  end.
(** A later hunk for a path replaces what an earlier one has put there. *)
Fixpoint changes_of_hunks (effective_cwd : str) (hunks : list Hunk) (changes : gmap str ApplyPatchFileChange) (st : FileSys)
    : result ApplyPatchError (gmap str ApplyPatchFileChange) :=
  match hunks with
  | [] => Ok changes
  | hunk :: hunks =>
      change ← change_of_hunk effective_cwd hunk st;
      changes_of_hunks effective_cwd hunks (<[resolve_path home_dir effective_cwd hunk := change]> changes) st
  end.
Definition verify_apply_patch_args (args : ApplyPatchArgs) (cwd : str) (st : FileSys) : MaybeApplyPatchVerified :=
  let effective_cwd := match workdir args with Some dir => Path.join home_dir cwd dir | None => cwd end in
  match changes_of_hunks effective_cwd (hunks args) ∅ st with
  | Err e => CorrectnessError e
  | Ok changes => VerifiedBody (mkAction (map_to_list changes) (patch args) effective_cwd)
  end.
Definition is_patch (text : str) : bool := match parse_patch text with Ok _ => true | Err _ => false end.
Definition maybe_parse_apply_patch_verified `{BashQuery} (argv : list str) (cwd : str) (st : FileSys) : MaybeApplyPatchVerified :=
  if match argv with [body] => is_patch body | _ => false end then CorrectnessError ImplicitInvocation
  else if match parse_shell_script argv with Some (_, script) => is_patch script | None => false end
  then CorrectnessError ImplicitInvocation
  else
    match maybe_parse_apply_patch argv with
    | Body args => verify_apply_patch_args args cwd st
    | ShellParseError e => VerifiedShellParseError e
    | PatchParseError e => CorrectnessError (ParseErr e)
    | NotApplyPatch => VerifiedNotApplyPatch
    end.
End verify.

(** ** The text of a parsed patch is a patch again *)

Lemma lines_no_newline s : Forall (fun l => newline ∉ l) (Str.lines s).
Proof.
  unfold Str.lines. pose proof (Str.split_pieces newline s) as Hp. induction Hp as [|p ps Hp Hps IH]; simpl; [constructor|].
  destruct ps as [|q ps]; [destruct (Str.is_empty p); by repeat constructor|]. constructor; [|exact IH].
  unfold Str.strip_cr. destruct (Str.strip_suffix _ p) as [t|] eqn:E; [|done].
  apply Str.strip_suffix_Some in E as ->. intros Hin. apply Hp, elem_of_app. by left.
Qed.
Lemma elem_of_joined sep l ls c : l ∈ ls -> c ∈ l -> c ∈ Str.join sep ls.
Proof.
  intros Hl Hc. induction ls as [|a ls IH]; [by apply elem_of_nil in Hl|]. apply elem_of_cons in Hl as [->|Hl]; destruct ls as [|b ls].
  - done.
  - apply elem_of_app. by left.
  - by apply elem_of_nil in Hl.
  - apply elem_of_app. right. apply elem_of_app. right. by apply IH.
Qed.
Lemma trim_split s : exists a b, s = a ++ Str.trim s ++ b.
Proof.
  destruct (Str.trim_start_by_spec Str.is_whitespace s) as (a & Ha & _).
  destruct (Str.trim_end_by_spec Str.is_whitespace (Str.trim_start s)) as (b & Hb & _).
  exists a, b. unfold Str.trim, Str.trim_end. by rewrite <- Hb.
Qed.
(** The lines between which the first and the last are trimmed. *)
Lemma trim_joined f mid l :
  Str.trim f <> [] -> Str.trim l <> [] ->
  Str.trim (Str.join [newline] (f :: mid ++ [l])) = Str.join [newline] (Str.trim_start f :: mid ++ [Str.trim_end l]).
Proof.
  intros Hf Hl.
  assert (forall x y, exists z, Str.join [newline] (x :: mid ++ [y]) = x ++ z ++ y /\
    forall x' y', Str.join [newline] (x' :: mid ++ [y']) = x' ++ z ++ y') as Hj.
  { intros x y. rewrite !app_comm_cons. exists (match mid with [] => [] | _ => [newline] ++ Str.join [newline] mid end ++ [newline]).
    assert (forall x' y', Str.join [newline] ((x' :: mid) ++ [y']) =
      x' ++ (match mid with [] => [] | _ => [newline] ++ Str.join [newline] mid end ++ [newline]) ++ y') as Hg; [|done].
    intros x' y'. rewrite Str.join_snoc by done. destruct mid as [|m mid]; [done|]. rewrite join_cons by done. by rewrite <- !app_assoc. }
  destruct (Hj f l) as (z & -> & ->). unfold Str.trim in *.
  rewrite Str.trim_start_app by (intros Hz; by rewrite Hz in Hf).
  rewrite app_assoc. unfold Str.trim_end. rewrite Str.trim_end_by_app_keep; [by rewrite <- app_assoc|].
  intros Hz. apply Hl. apply Str.trim_end_by_nil_iff in Hz. apply Str.trim_end_by_nil_iff.
  destruct (Str.trim_start_by_spec Str.is_whitespace l) as (w & Hw & _). rewrite Hw in Hz. by apply Forall_app in Hz as [_ ?].
Qed.
Lemma trim_trim_start s : Str.trim (Str.trim_start s) = Str.trim s.
Proof.
  unfold Str.trim. f_equal. unfold Str.trim_start. induction s as [|c s IH]; simpl; [done|].
  destruct (Str.is_whitespace c) eqn:Hc; [done|]. simpl. by rewrite Hc.
Qed.
Lemma trim_trim_end s : Str.trim (Str.trim_end s) = Str.trim s.
Proof.
  destruct (Str.trim_end_by_spec Str.is_whitespace s) as (w & Hs & Hw). unfold Str.trim. fold (Str.trim_end s) in Hs. rewrite Hs at 2.
  destruct (decide (Str.trim_start (Str.trim_end s) = [])) as [Hz|Hne].
  - rewrite Hz. apply Str.trim_start_by_nil_iff in Hz. rewrite Str.trim_start_app_drop by done.
    assert (Str.trim_start w = []) as -> by by apply Str.trim_start_by_nil_iff. done.
  - rewrite Str.trim_start_app by done. unfold Str.trim_end at 3. by rewrite Str.trim_end_by_app_drop.
Qed.
(** What is read between the first line and the last. *)
Definition read_hunks (hunk_lines : list str) : result ParseError (list Hunk) :=
  '(_, remaining_lines, line_number) ← parse_environment_id_preamble hunk_lines;
  parse_hunks remaining_lines 0 line_number.
Lemma boundaries_of_parsed text source :
  parse_patch text = Ok source ->
  exists f mid l, patch source = Str.join [newline] (f :: mid ++ [l]) /\ Str.trim f = BEGIN_PATCH_MARKER /\
    Str.trim l = END_PATCH_MARKER /\ Forall (fun l => newline ∉ l) (f :: mid ++ [l]) /\ read_hunks mid = Ok (hunks source).
Proof.
  unfold parse_patch, parse_patch_text. simpl. intros Hp. inv_bind. destruct x as [pl hl]. inv_bind. destruct x as [[eid rem] ln]. inv_bind. simpl.
  assert (exists ls, check_patch_boundaries_strict ls = Ok (pl, hl) /\ Forall (fun l => newline ∉ l) ls) as (ls & Hs & Hn).
  { pose proof (lines_no_newline (Str.trim text)) as Hn. unfold check_patch_boundaries_lenient in Hx.
    destruct (check_patch_boundaries_strict (Str.lines (Str.trim text))) as [[pl' hl']|e] eqn:Hs.
    { injection Hx as -> ->. by eexists. }
    destruct (head _) as [first|]; [|done]. destruct (last _) as [lst|]; [|done]. destruct (_ && _); [|done].
    eexists. split; [exact Hx|]. apply Forall_take, Forall_tail. exact Hn. }
  apply check_patch_boundaries_strict_Ok in Hs as (f & l & -> & -> & Hf & Hl).
  exists f, hl, l. split_and!; [done..|]. unfold read_hunks. rewrite Hx0. simpl. exact Hx1.
Qed.
Lemma line_wf_trim_start s : line_wf s -> Str.trim_start s <> [] -> line_wf (Str.trim_start s).
Proof.
  intros [Hn Hl] Hne. destruct (Str.trim_start_by_spec Str.is_whitespace s) as (w & Hs & _). fold (Str.trim_start s) in Hs.
  split; [intros Hin; apply Hn; rewrite Hs; apply elem_of_app; by right|].
  destruct (Str.trim_start s) as [|c t _] using rev_ind; [done|]. rewrite last_snoc. intros [= ->].
  apply Hl. rewrite Hs, app_assoc. apply last_snoc.
Qed.
Lemma line_wf_trim_end s : newline ∉ s -> line_wf (Str.trim_end s).
Proof.
  intros Hn. destruct (Str.trim_end_by_spec Str.is_whitespace s) as (w & Hs & _). fold (Str.trim_end s) in Hs.
  split; [intros Hin; apply Hn; rewrite Hs; apply elem_of_app; by left|].
  pose proof (Str.trim_end_by_idemp Str.is_whitespace s) as Hi. fold (Str.trim_end s) in Hi.
  destruct (Str.trim_end s) as [|c t _] using rev_ind; [done|]. rewrite last_snoc. intros [= ->].
  rewrite Str.trim_end_by_app_drop in Hi by (repeat constructor).
  destruct (Str.trim_end_by_spec Str.is_whitespace t) as (w' & Ht & _). rewrite Hi in Ht.
  apply (f_equal length) in Ht. rewrite !length_app in Ht. simpl in Ht. lia.
Qed.
Lemma parse_trimmed f mid l hs :
  Str.trim f = BEGIN_PATCH_MARKER -> Str.trim l = END_PATCH_MARKER ->
  Forall line_wf (f :: mid) -> newline ∉ l -> read_hunks mid = Ok hs ->
  exists again, parse_patch (Str.join [newline] (f :: mid ++ [l])) = Ok again /\ hunks again = hs.
Proof.
  intros Hf Hl Hw Hn Hh. apply Forall_cons in Hw as [Hwf Hwm].
  set (f' := Str.trim_start f). set (l' := Str.trim_end l).
  assert (Str.trim f' = BEGIN_PATCH_MARKER /\ Str.trim l' = END_PATCH_MARKER) as [Hf' Hl'].
  { unfold f', l'. by rewrite trim_trim_start, trim_trim_end. }
  assert (Str.lines (Str.trim (Str.join [newline] (f :: mid ++ [l]))) = f' :: mid ++ [l']) as Hlines.
  { rewrite trim_joined by (by rewrite ?Hf, ?Hl). fold f' l'. rewrite app_comm_cons. apply lines_join.
    - constructor; [|apply Forall_app; split; [done|constructor; [by apply line_wf_trim_end|constructor]]].
      apply line_wf_trim_start; [done|]. intros Hz. unfold Str.trim in Hf. by rewrite Hz in Hf.
    - intros Hz. by rewrite Hz in Hl'. }
  assert (check_patch_boundaries_lenient (f' :: mid ++ [l']) = Ok (f' :: mid ++ [l'], mid)) as Hc.
  { unfold check_patch_boundaries_lenient.
    assert (check_patch_boundaries_strict (f' :: mid ++ [l']) = Ok (f' :: mid ++ [l'], mid)) as ->; [|done].
    apply check_patch_boundaries_strict_Ok. by exists f', l'. }
  change (parse_patch ?t) with (parse_patch_text t Lenient). unfold parse_patch_text. rewrite Hlines, Hc. cbn [mbind result_bind].
  unfold read_hunks in Hh. inv_bind. destruct x as [[eid rem] ln]. rewrite Hx. cbn [mbind result_bind]. rewrite Hh. cbn [mbind result_bind].
  by eexists.
Qed.
(** Unless a line of the patch ends in a carriage return. *)
Lemma parse_again text source :
  parse_patch text = Ok source -> carriage_return ∉ patch source ->
  exists again, parse_patch (patch source) = Ok again /\ hunks again = hunks source.
Proof.
  intros Hp Hcr. destruct (boundaries_of_parsed _ _ Hp) as (f & mid & l & Hpatch & Hf & Hl & Hn & Hh).
  rewrite Hpatch in Hcr |- *. rewrite app_comm_cons in Hn. apply Forall_app in Hn as [Hn Hnl].
  apply parse_trimmed; [done..| |rewrite Forall_singleton in Hnl; exact Hnl|done].
  rewrite Forall_forall in Hn |- *. intros x Hx. split; [by apply Hn|]. intros Hlast. apply Hcr.
  apply last_Some in Hlast as [y ->]. eapply elem_of_joined; [rewrite app_comm_cons; apply elem_of_app; left; exact Hx|].
  apply elem_of_app. right. by left.
Qed.

(** ** The characters of hunks are those of the lines *)

Definition chars_ok (ls : list str) : Prop := Forall (Forall Utf8.scalar) ls.
Lemma strip_prefix_chars p s t : Forall Utf8.scalar s -> Str.strip_prefix p s = Some t -> Forall Utf8.scalar t.
Proof. intros Hs Ht. apply Str.strip_prefix_Some in Ht as ->. by apply Forall_app in Hs as [_ ?]. Qed.
Lemma chunk_body_chars lines ln n chunk chunk' n' :
  chars_ok lines -> chars_ok (new_lines chunk) -> chunk_body lines ln n chunk = Ok (chunk', n') -> chars_ok (new_lines chunk').
Proof.
  intros Hls. revert n chunk. induction Hls as [|line lines Hl Hls IH]; intros n chunk Hc; simpl; [by intros [= <- _]|].
  assert (forall o w, chars_ok w -> chars_ok (new_lines (mkChunk (change_context chunk) (old_lines chunk ++ o)
    (new_lines chunk ++ w) (is_end_of_file chunk)))) as Hadd by (intros o w Hw; by apply Forall_app).
  intros H. case_all_in H;
    try (match goal with H : chunk_body _ _ _ _ = _ |- _ => revert H; apply IH, Hadd end;
         repeat match goal with H : Forall _ (_ :: _) |- _ => apply Forall_cons in H as [? ?] end; by repeat constructor).
Qed.
Lemma parse_chunk_chars lines ln allow chunk n :
  chars_ok lines -> parse_update_file_chunk lines ln allow = Ok (chunk, n) -> chars_ok (new_lines chunk).
Proof.
  unfold parse_update_file_chunk. intros Hls. destruct lines as [|first lines]; [done|].
  intros H. inv_bind. destruct x as [ctx start]. cbv beta iota in H. destruct (_ <=? _); [done|]. inv_bind.
  destruct x as [c k]. simplify_eq/=. eapply (chunk_body_chars _ _ _ (mkChunk ctx [] [] false)); [|constructor|exact Hx0]. by apply Forall_drop.
Qed.
Lemma update_chunks_chars remaining skip ln n chunks chunks' n' :
  chars_ok remaining -> Forall (fun c => chars_ok (new_lines c)) chunks ->
  update_chunks remaining skip ln n chunks = Ok (chunks', n') -> Forall (fun c => chars_ok (new_lines c)) chunks'.
Proof.
  intros Hr. revert skip n chunks. induction Hr as [|line rest Hl Hr IH]; intros skip n chunks Hc; simpl; [by intros [= <- _]|].
  destruct skip as [|skip]; [|by apply IH]. destruct (Str.is_empty _); [by apply IH|]. destruct (Str.starts_with _ _); [by intros [= <- _]|].
  intros H. inv_bind. destruct x as [c k]. revert H. apply IH. apply Forall_app. split; [done|]. constructor; [|done].
  eapply parse_chunk_chars; [|exact Hx]. by constructor.
Qed.
Lemma add_file_chars lines : chars_ok lines -> Forall Utf8.scalar (add_file_lines lines).1.
Proof.
  induction 1 as [|line lines Hl Hls IH]; simpl; [done|]. destruct (Str.strip_prefix _ line) as [t|] eqn:Ht; [|done].
  destruct (add_file_lines lines) as [contents n]. simpl in *. apply Forall_app. split; [exact (strip_prefix_chars _ _ _ Hl Ht)|]. constructor; [by left|done].
Qed.
Lemma one_hunk_chars line rest ln hunk n : chars_ok rest -> parse_one_hunk line rest ln = Ok (hunk, n) -> hunk_scalar hunk.
Proof.
  unfold parse_one_hunk. intros Hr H. destruct (Str.strip_prefix ADD_FILE_MARKER _) as [path|].
  { pose proof (add_file_chars rest Hr) as Ha. destruct (add_file_lines rest) as [contents k]. by injection H as <- _. }
  destruct (Str.strip_prefix DELETE_FILE_MARKER _) as [path|]; [by injection H as <- _|].
  destruct (Str.strip_prefix UPDATE_FILE_MARKER _) as [path|]; [|done].
  destruct (x ← head rest; _) as [mv|]; cbv zeta in H; inv_bind; destruct x as [cs k];
    (destruct cs as [|c cs]; [done|]); injection H as <- _; eapply update_chunks_chars in Hx; try done; by try apply Forall_drop.
Qed.
Lemma parse_hunks_chars remaining skip ln hs : chars_ok remaining -> parse_hunks remaining skip ln = Ok hs -> Forall hunk_scalar hs.
Proof.
  intros Hr. revert skip ln hs. induction Hr as [|line rest Hl Hr IH]; intros skip ln hs; simpl; [by intros [= <-]|].
  destruct skip as [|skip]; [|by apply IH]. intros H. inv_bind. destruct x as [h k]. inv_bind.
  constructor; [by eapply one_hunk_chars|by eapply IH].
Qed.
Lemma parsed_hunks_scalar text source :
  parse_patch text = Ok source -> Forall Utf8.scalar (patch source) -> Forall hunk_scalar (hunks source).
Proof.
  intros Hp Hs. destruct (boundaries_of_parsed _ _ Hp) as (f & mid & l & Hpatch & _ & _ & _ & Hh).
  unfold read_hunks in Hh. inv_bind. destruct x as [[eid rem] ln]. eapply parse_hunks_chars; [|exact Hh].
  assert (chars_ok mid) as Hm.
  { apply Forall_forall. intros x Hin. apply Forall_forall. intros c Hc. rewrite Forall_forall in Hs. apply Hs. rewrite Hpatch.
    eapply elem_of_joined; [|exact Hc]. right. apply elem_of_app. by left. }
  unfold parse_environment_id_preamble in Hx. destruct mid as [|m mid]; [by injection Hx as <- <- <-|].
  destruct (Str.strip_prefix _ _) as [e|]; [destruct (Str.is_empty _); [done|]|]; injection Hx as <- <- <-; [|done].
  by apply Forall_cons in Hm as [_ ?].
Qed.

(** ** What is shown and what is done *)

(** An action that is proposed: from a command, or from the text of a patch. *)
Inductive proposed `{ExecutorFileSystem FileSys} `{BashQuery} (home_dir : option str) (text_diff : str -> str -> nat -> str)
    (cwd : str) (st : FileSys) (action : ApplyPatchAction) : Prop :=
| by_command argv : maybe_parse_apply_patch_verified home_dir text_diff argv cwd st = VerifiedBody action ->
    proposed home_dir text_diff cwd st action
| by_text text source : parse_patch text = Ok source ->
    verify_apply_patch_args home_dir text_diff source cwd st = VerifiedBody action -> proposed home_dir text_diff cwd st action.

(** The paths a hunk writes or removes: its file, and the destination of a move. *)
Definition touched (home_dir : option str) (cwd : str) (hunk : Hunk) : list str :=
  resolve_path home_dir cwd hunk ::
  match hunk with
  | UpdateFile _ (Some dest) _ => [Path.resolve_path_against_base home_dir dest cwd]
  | _ => []
  end.
Definition hunks_of (text : str) : list Hunk := match parse_patch text with Ok source => hunks source | Err _ => [] end.

(** The changes describe how one view of the files becomes another. *)
Definition change_holds (text_diff : str -> str -> nat -> str) (v v' : view) (c : str * ApplyPatchFileChange) : Prop :=
  match snd c with
  | AddChange content => v' (fst c) = Some content
  | DeleteChange content => v (fst c) = Some content /\ v' (fst c) = None
  | UpdateChange diff move_path new =>
      (exists old, v (fst c) = Some old /\ diff = text_diff old new 1) /\
      match move_path with
      | None => v' (fst c) = Some new
      | Some dest => v' (fst c) = None /\ v' dest = Some new
      end
  end.
Definition describes (text_diff : str -> str -> nat -> str) (changes : list (str * ApplyPatchFileChange)) (v v' : view) : Prop :=
  Forall (change_holds text_diff v v') changes /\
  forall q, Forall (fun c => q ∉ written_paths c) changes -> v' q = v q.

Section shown.
Context `{FileSystemLaws FileSys} `{BashQuery}.
Variable home_dir : option str.
Variable text_diff : str -> str -> nat -> str.

Lemma proposed_spec cwd st action :
  proposed home_dir text_diff cwd st action ->
  exists text source changes, parse_patch text = Ok source /\ action_patch action = patch source /\
    action_changes action = map_to_list changes /\
    changes_of_hunks home_dir text_diff (action_cwd action) (hunks source) ∅ st = Ok changes /\
    (action_cwd action = cwd \/ exists dir, action_cwd action = Path.join home_dir cwd dir).
Proof.
  assert (forall text source w, parse_patch text = Ok source ->
    verify_apply_patch_args home_dir text_diff (set_workdir w source) cwd st = VerifiedBody action ->
    exists text source changes, parse_patch text = Ok source /\ action_patch action = patch source /\
      action_changes action = map_to_list changes /\
      changes_of_hunks home_dir text_diff (action_cwd action) (hunks source) ∅ st = Ok changes /\
      (action_cwd action = cwd \/ exists dir, action_cwd action = Path.join home_dir cwd dir)) as Hargs.
  { intros text source w Hp. unfold verify_apply_patch_args. simpl.
    destruct (changes_of_hunks _ _ _ _ _ _) as [changes|e] eqn:Hc; [|done]. intros [= <-]. simpl.
    exists text, source, changes. split_and!; [done..|]. destruct w as [dir|]; [right; by exists dir|by left]. }
  assert (forall source, source = set_workdir (workdir source) source) as Hself by by intros [].
  intros [argv Hv|text source Hp Hv]; [|rewrite (Hself source) in Hv; by eapply Hargs].
  unfold maybe_parse_apply_patch_verified in Hv. destruct (match argv with [body] => _ | _ => _ end); [done|].
  destruct (match parse_shell_script argv with Some (_, script) => _ | _ => _ end); [done|].
  destruct (maybe_parse_apply_patch argv) as [args| | |] eqn:Hm; [|done..].
  assert (forall argv', parse_shell_form argv' = Body args -> exists text source w, parse_patch text = Ok source /\ args = set_workdir w source) as Hshell.
  { intros argv'. unfold parse_shell_form. destruct (parse_shell_script argv') as [[sh script]|]; [|done].
    destruct (extract_apply_patch_from_shell sh script) as [[body w]|e]; [|by destruct e].
    destruct (parse_patch body) as [source|e] eqn:Hp; [|done]. intros [= <-]. by exists body, source, w. }
  assert (exists text source w, parse_patch text = Ok source /\ args = set_workdir w source) as (text & source & w & Hp & ->); [|by eapply Hargs].
  unfold maybe_parse_apply_patch in Hm. destruct argv as [|cmd [|body [|? ?]]]; try by eapply Hshell.
  destruct (decide (cmd ∈ APPLY_PATCH_COMMANDS)) as [_|_]; [|by eapply Hshell].
  destruct (parse_patch body) as [source|e] eqn:Hp; [|done]. injection Hm as <-. exists body, source, (workdir source). by split.
Qed.
Lemma proposed_absolute cwd st action :
  proposed home_dir text_diff cwd st action -> Path.is_absolute cwd = true -> Path.is_absolute (action_cwd action) = true.
Proof.
  intros (_ & _ & _ & _ & _ & _ & _ & [->|[dir ->]])%proposed_spec Hc; [done|].
  by apply Path.normal_absolute, Path.resolve_normal.
Qed.

(** *** The changes by path *)

Lemma changes_each cwd hs acc st changes :
  changes_of_hunks home_dir text_diff cwd hs acc st = Ok changes -> NoDup (resolve_path home_dir cwd <$> hs) ->
  (forall h, h ∈ hs -> exists c, change_of_hunk home_dir text_diff cwd h st = Ok c /\ changes !! resolve_path home_dir cwd h = Some c) /\
  (forall q, q ∉ resolve_path home_dir cwd <$> hs -> changes !! q = acc !! q).
Proof.
  revert acc. induction hs as [|h hs IH]; intros acc; cbn [changes_of_hunks fmap list_fmap].
  { intros [= <-] _. split; [|done]. by intros h ?%elem_of_nil. }
  intros Hc Hnd. inv_bind. apply NoDup_cons in Hnd as [Hh Hnd]. destruct (IH _ Hc Hnd) as [Heach Hrest]. split.
  - intros h' [->|Hin]%elem_of_cons; [|by apply Heach]. exists x. split; [done|].
    rewrite Hrest by done. by rewrite lookup_insert_eq.
  - intros q [Hq Hin]%not_elem_of_cons. rewrite Hrest by done. by rewrite lookup_insert_ne.
Qed.

(** *** The files by path *)

(** What a hunk finds before it and leaves behind it. *)
Definition hunk_done (cwd : str) (h : Hunk) (v v' : view) : Prop :=
  let p := resolve_path home_dir cwd h in
  match h with
  | AddFile _ contents => v' p = Some contents
  | DeleteFile _ => v' p = None
  | UpdateFile _ move_path chunks =>
      exists old new, v p = Some old /\ Replace.new_contents_from_chunks old p chunks = Some (Ok new) /\
      match move_path with
      | None => v' p = Some new
      | Some dest => v' p = None /\ v' (Path.resolve_path_against_base home_dir dest cwd) = Some new
      end
  end.
Lemma spec_hunk_done cwd h v v' :
  spec_hunk home_dir cwd h v = Some v' -> NoDup (touched home_dir cwd h) ->
  hunk_done cwd h v v' /\ forall q, q ∉ touched home_dir cwd h -> v' q = v q.
Proof.
  unfold spec_hunk, hunk_done, touched. destruct h as [p c|p|p mv cs]; cbn [hunk_source_path].
  - intros [= <-] _. split; [apply set_same|]. intros q [Hq _]%not_elem_of_cons. by apply set_other.
  - intros [= <-] _. split; [apply set_same|]. intros q [Hq _]%not_elem_of_cons. by apply set_other.
  - set (path := resolve_path home_dir cwd (UpdateFile p mv cs)). intros Hs Hnd.
    destruct (v path) as [old|] eqn:Hv; [|done]. cbn [mbind option_bind] in Hs.
    destruct (Replace.new_contents_from_chunks old path cs) as [[new|]|] eqn:Hn; [|done..].
    destruct mv as [dest|]; injection Hs as <-.
    + apply NoDup_cons in Hnd as [Hd%not_elem_of_cons _]. destruct Hd as [Hd _]. split.
      * exists old, new. split_and!; [done..|apply set_same|]. rewrite set_other by done. apply set_same.
      * intros q [Hq [Hq' _]%not_elem_of_cons]%not_elem_of_cons. by rewrite !set_other.
    + split; [exists old, new; split_and!; [done..|apply set_same]|]. intros q [Hq _]%not_elem_of_cons. by apply set_other.
Qed.
Lemma hunk_done_at cwd h v v' w w' :
  (forall q, q ∈ touched home_dir cwd h -> v q = w q /\ v' q = w' q) -> hunk_done cwd h v v' -> hunk_done cwd h w w'.
Proof.
  unfold hunk_done, touched. intros Hq. destruct (Hq (resolve_path home_dir cwd h)) as [Hp Hp']; [by left|].
  destruct h as [p c|p|p mv cs]; rewrite ?Hp, ?Hp'; [done..|]. intros (old & new & Ho & Hn & Hm).
  exists old, new. split_and!; [done..|]. destruct mv as [dest|]; [|done]. destruct Hm as [Hm1 Hm2]. split; [done|].
  destruct (Hq (Path.resolve_path_against_base home_dir dest cwd)) as [_ <-]; [right; by left|done].
Qed.
Lemma spec_hunks_done cwd hs v v' :
  spec_hunks home_dir cwd hs v = Some v' -> NoDup (concat (touched home_dir cwd <$> hs)) ->
  (forall h, h ∈ hs -> hunk_done cwd h v v') /\ (forall q, q ∉ concat (touched home_dir cwd <$> hs) -> v' q = v q).
Proof.
  revert v. induction hs as [|h hs IH]; intros v; cbn [spec_hunks fmap list_fmap concat].
  { intros [= <-] _. split; [|done]. by intros h ?%elem_of_nil. }
  intros Hs Hnd. destruct (spec_hunk home_dir cwd h v) as [v1|] eqn:Hh; [|done]. cbn [mbind option_bind] in Hs.
  apply NoDup_app in Hnd as (Hnd1 & Hdis & Hnd). destruct (spec_hunk_done _ _ _ _ Hh Hnd1) as [Hd Ho].
  destruct (IH _ Hs Hnd) as [Heach Hrest]. split.
  - intros h' [->|Hin]%elem_of_cons.
    + eapply hunk_done_at; [|exact Hd]. intros q Hq. split; [done|]. symmetry. apply Hrest. by apply Hdis.
    + eapply hunk_done_at; [|by apply Heach]. intros q Hq. split; [|done]. apply Ho. intros Hq'. apply (Hdis q Hq').
      apply list_elem_of_In, in_concat. exists (touched home_dir cwd h'). split; apply list_elem_of_In; [|done].
      by apply list_elem_of_fmap_2.
  - intros q Hq. apply not_elem_of_app in Hq as [Hq1 Hq2]. rewrite Hrest by done. by apply Ho.
Qed.

(** *** Both together *)

Lemma written_touched cwd h st c :
  change_of_hunk home_dir text_diff cwd h st = Ok c -> written_paths (resolve_path home_dir cwd h, c) = touched home_dir cwd h.
Proof.
  unfold change_of_hunk, touched. destruct h as [p ct|p|p mv cs]; intros Hc.
  - by injection Hc as <-.
  - inv_bind. done.
  - inv_bind. by destruct mv.
Qed.
Lemma done_holds cwd h st v' c :
  change_of_hunk home_dir text_diff cwd h st = Ok c -> hunk_done cwd h (text st) v' ->
  change_holds text_diff (text st) v' (resolve_path home_dir cwd h, c).
Proof.
  unfold change_of_hunk, hunk_done, change_holds. destruct h as [p ct|p|p mv cs]; intros Hc Hd.
  - by injection Hc as <-.
  - inv_bind. split; [|done]. simpl. unfold text. by destruct (read_file_text st _) as [t|]; [injection Hx as ->|].
  - destruct Hd as (old & new & Ho & Hn & Hm). inv_bind.
    unfold unified_diff_from_chunks, unified_diff_from_chunks_with_context in Hx. inv_bind. destruct x0 as [old' new'].
    apply derive_Ok in Hx0 as [Ho' Hn']. rewrite Ho in Ho'. injection Ho' as <-. rewrite Hn in Hn'. injection Hn' as <-.
    injection Hx as <-. simpl. split; [by exists old|]. by destruct mv.
Qed.
Lemma sources_nodup cwd hs : NoDup (concat (touched home_dir cwd <$> hs)) -> NoDup (resolve_path home_dir cwd <$> hs).
Proof.
  induction hs as [|h hs IH]; cbn [fmap list_fmap concat]; [constructor|]. intros (_ & Hdis & Hnd)%NoDup_app.
  constructor; [|by apply IH]. intros Hin. apply list_elem_of_fmap in Hin as (h' & Heq & Hin).
  apply (Hdis (resolve_path home_dir cwd h)); [by left|]. apply list_elem_of_In, in_concat.
  exists (touched home_dir cwd h'). split; apply list_elem_of_In; [by apply list_elem_of_fmap_2|]. rewrite Heq. by left.
Qed.
(** The changes and the hunks are the same. *)
Lemma changes_of_hunk cwd hs st changes p c :
  changes_of_hunks home_dir text_diff cwd hs ∅ st = Ok changes -> NoDup (resolve_path home_dir cwd <$> hs) ->
  (p, c) ∈ map_to_list changes ->
  exists h, h ∈ hs /\ p = resolve_path home_dir cwd h /\ change_of_hunk home_dir text_diff cwd h st = Ok c.
Proof.
  intros Hc Hnd Hin%elem_of_map_to_list. destruct (changes_each _ _ _ _ _ Hc Hnd) as [Heach Hrest].
  destruct (decide (p ∈ resolve_path home_dir cwd <$> hs)) as [Hp|Hp].
  - apply list_elem_of_fmap in Hp as (h & -> & Hh). destruct (Heach h Hh) as (c' & Hc' & Hl). exists h. split_and!; [done..|congruence].
  - rewrite Hrest in Hin by done. done.
Qed.
Lemma touched_written cwd hs st changes q :
  changes_of_hunks home_dir text_diff cwd hs ∅ st = Ok changes -> NoDup (resolve_path home_dir cwd <$> hs) ->
  Forall (fun c => q ∉ written_paths c) (map_to_list changes) -> q ∉ concat (touched home_dir cwd <$> hs).
Proof.
  intros Hc Hnd Hq Hin. apply list_elem_of_In, in_concat in Hin as (ps & Hps & Hin). apply list_elem_of_In in Hps, Hin.
  apply list_elem_of_fmap in Hps as (h & -> & Hh). destruct (changes_each _ _ _ _ _ Hc Hnd) as [Heach _].
  destruct (Heach h Hh) as (c & Hch & Hl). rewrite Forall_forall in Hq. apply (Hq (resolve_path home_dir cwd h, c)).
  - by apply elem_of_map_to_list.
  - by rewrite (written_touched _ _ _ _ Hch).
Qed.
(** The hunks the text of an action is read as. *)
Lemma proposed_hunks cwd st action :
  proposed home_dir text_diff cwd st action -> carriage_return ∉ action_patch action ->
  exists again changes, parse_patch (action_patch action) = Ok again /\ hunks_of (action_patch action) = hunks again /\
    action_changes action = map_to_list changes /\
    changes_of_hunks home_dir text_diff (action_cwd action) (hunks again) ∅ st = Ok changes.
Proof.
  intros (text & source & changes & Hp & Hpatch & Hch & Hc & _)%proposed_spec Hcr. rewrite Hpatch in Hcr |- *.
  destruct (parse_again _ _ Hp Hcr) as (again & Ha & Hh). exists again, changes. unfold hunks_of. rewrite Ha, Hh. done.
Qed.
Lemma applied_ok `{Write Out} `{Write ErrOut} text again cwd (stdout : Out) (stderr : ErrOut) st st' out err d :
  parse_patch text = Ok again -> apply_patch home_dir text cwd stdout stderr st = (st', out, err, Ok d) ->
  exists d' a, apply_hunks_to_files home_dir (hunks again) cwd st empty_delta = (st', d', Ok a).
Proof.
  unfold apply_patch, apply_hunks. intros ->. destruct (apply_hunks_to_files _ _ _ _ _) as [[st1 d1] [a|e]].
  - destruct (print_summary _ _) as [? [|]]; [|done]. intros [= <- _ _ _]. by eexists _, _.
  - by destruct (writeln stderr _) as [? [|]].
Qed.

(** C4: When a patch is applied as it was proposed, the changes that were shown describe what
    happens: an added file has the contents shown, a deleted file had them and is gone, an updated
    file has the new contents shown, under its new name when it moves, the difference shown is
    that to its old contents, and every other file is untouched.  This is for patches whose
    paths are distinct and in which no carriage return occurs anywhere. *)
Theorem shown_changes_are_applied `{Write Out} `{Write ErrOut} cwd st action (stdout : Out) (stderr : ErrOut) st' out err d :
  proposed home_dir text_diff cwd st action ->
  Forall Utf8.scalar (action_patch action) -> carriage_return ∉ action_patch action ->
  NoDup (concat (touched home_dir (action_cwd action) <$> hunks_of (action_patch action))) ->
  apply_patch home_dir (action_patch action) (action_cwd action) stdout stderr st = (st', out, err, Ok d) ->
  describes text_diff (action_changes action) (text st) (text st').
Proof.
  intros Hp Hs Hcr Hnd Ha. destruct (proposed_hunks _ _ _ Hp Hcr) as (again & changes & Hpa & Hh & Hch & Hc).
  rewrite Hh in Hnd. rewrite Hch. destruct (applied_ok (Out := Out) (ErrOut := ErrOut) _ _ _ _ _ _ _ _ _ _ Hpa Ha) as (d' & a & Happ).
  assert (exists v, spec_hunks home_dir (action_cwd action) (hunks again) (text st) = Some v /\ text st' ≡ v) as (v & Hv & Hst).
  { unfold apply_hunks_to_files in Happ. destruct (hunks again) as [|h hs] eqn:Ehs; [done|].
    assert (Forall hunk_scalar (h :: hs)) as Hsc.
    { rewrite <- Ehs. destruct (proposed_spec _ _ _ Hp) as (t & source & _ & Hps & Hpatch & _). rewrite Hpatch in *.
      destruct (parse_again _ _ Hps Hcr) as (again' & Hpa' & Hh'). rewrite Hpa in Hpa'. injection Hpa' as <-.
      rewrite Hh'. by eapply parsed_hunks_scalar. }
    eapply hunk_loop_sound in Happ as [_ Hok]; [|exact Hsc|reflexivity]. by destruct (Hok a eq_refl) as [_ ?]. }
  destruct (spec_hunks_done _ _ _ _ Hv Hnd) as [Heach Hrest]. pose proof (sources_nodup _ _ Hnd) as Hnd'. split.
  - apply Forall_forall. intros [p c] Hin. destruct (changes_of_hunk _ _ _ _ _ _ Hc Hnd' Hin) as (h & Hin' & -> & Hhc).
    eapply done_holds; [exact Hhc|]. eapply hunk_done_at; [|by apply Heach]. intros q _. split; [done|]. symmetry. apply Hst.
  - intros q Hq. rewrite (Hst q). apply Hrest. by eapply touched_written.
Qed.

(** *** Only the touched paths are written, however the application ends *)

Lemma write_retry_other st path bs st' r q :
  write_file_with_missing_parent_retry (st : FileSys) path bs = (st', r) -> q <> path -> text st' q = text st q.
Proof.
  unfold write_file_with_missing_parent_retry. intros Hw Hq.
  destruct (write_file st path bs) as [st1 [[]|e]] eqn:Ew; [injection Hw as <- _; by eapply write_other|].
  pose proof (write_other _ _ _ _ _ _ Ew Hq) as Hst1. destruct (decide _); [|by injection Hw as <- _].
  destruct (match Path.parent path with Some p => _ | None => _ end) as [st2 made] eqn:Em.
  assert (text st2 q = text st1 q) as Hst2.
  { destruct (Path.parent path); [by eapply create_directory_text|by injection Em as <- _]. }
  destruct made as [[]|e']; [|injection Hw as <- _; congruence].
  destruct (write_file st2 path bs) as [st3 r3] eqn:Ew3. injection Hw as <- _. rewrite (write_other _ _ _ _ _ _ Ew3 Hq). congruence.
Qed.
Lemma apply_hunk_other cwd h st d st' d' r q :
  apply_hunk home_dir cwd h (st : FileSys) d = (st', d', r) -> q ∉ touched home_dir cwd h -> text st' q = text st q.
Proof.
  unfold apply_hunk, touched. set (path := resolve_path home_dir cwd h). intros Ha [Hq Hq']%not_elem_of_cons. destruct h as [p c|p|p mv cs].
  - unfold apply_add in Ha. destruct (read_optional_file_text_for_delta _ _ _) as [ov ex].
    destruct (write_file_with_missing_parent_retry _ _ _) as [st1 [[]|e]] eqn:Ew; injection Ha as <- _ _; by eapply write_retry_other.
  - unfold apply_delete in Ha. destruct (ensure_not_directory _ _); [|by injection Ha as <- _ _].
    destruct (remove st path remove_options) as [st1 [[]|e]] eqn:Er; injection Ha as <- _ _; by eapply remove_other.
  - unfold apply_update in Ha. destruct (derive_new_contents_from_chunks _ _ _) as [[old new]|e]; [|by injection Ha as <- _ _].
    destruct mv as [dest|].
    + apply not_elem_of_cons in Hq' as [Hd _]. destruct (read_optional_file_text_for_delta _ _ _) as [ov ex].
      destruct (write_file_with_missing_parent_retry _ _ _) as [st1 [[]|e]] eqn:Ew; [|injection Ha as <- _ _; by eapply write_retry_other].
      pose proof (write_retry_other _ _ _ _ _ _ Ew Hd) as Hst1. destruct (ensure_not_directory _ _); [|by injection Ha as <- _ _].
      destruct (remove st1 path remove_options) as [st2 [[]|e]] eqn:Er; injection Ha as <- _ _; rewrite <- Hst1; by eapply remove_other.
    + destruct (write_file st path _) as [st1 [[]|e]] eqn:Ew; injection Ha as <- _ _; by eapply write_other.
Qed.
Lemma hunk_loop_other cwd hs st d a st' d' r q :
  hunk_loop home_dir cwd hs (st : FileSys) d a = (st', d', r) -> q ∉ concat (touched home_dir cwd <$> hs) -> text st' q = text st q.
Proof.
  revert st d a. induction hs as [|h hs IH]; intros st d a; cbn [hunk_loop fmap list_fmap concat]; [by intros [= <- _ _]|].
  intros Hl Hq. apply not_elem_of_app in Hq as [Hq1 Hq2]. destruct (apply_hunk home_dir cwd h st d) as [[st1 d1] r1] eqn:Eh.
  pose proof (apply_hunk_other _ _ _ _ _ _ _ _ Eh Hq1) as Hst1. destruct r1; [|by injection Hl as <- _ _].
  rewrite (IH _ _ _ Hl Hq2). exact Hst1.
Qed.
Lemma apply_patch_other `{Write Out} `{Write ErrOut} text0 cwd (stdout : Out) (stderr : ErrOut) (st : FileSys) st' out err r q :
  apply_patch home_dir text0 cwd stdout stderr st = (st', out, err, r) -> q ∉ concat (touched home_dir cwd <$> hunks_of text0) ->
  text st' q = text st q.
Proof.
  unfold apply_patch, hunks_of, apply_hunks. destruct (parse_patch text0) as [source|e].
  2: { destruct (writeln stderr _) as [? [|]]; by intros [= <- _ _ _]. }
  destruct (apply_hunks_to_files home_dir (hunks source) cwd st empty_delta) as [[st1 d1] r1] eqn:El. intros Ha Hq.
  assert (text st1 q = text st q) as Hst1.
  { unfold apply_hunks_to_files in El. destruct (hunks source) as [|h hs]; [by injection El as <- _ _|]. by eapply hunk_loop_other. }
  assert (st' = st1) as ->; [|done].
  destruct r1; [destruct (print_summary _ _) as [? [|]]|destruct (writeln stderr _) as [? [|]]]; by injection Ha as <- _ _ _.
Qed.
Lemma approved_is_constrained env os action policy profile fs cwd windows sandbox approved :
  assess_patch_safety env os action policy profile fs cwd windows = AutoApprove sandbox approved -> policy <> OnFailure ->
  is_write_patch_constrained_to_writable_paths env action fs cwd = true.
Proof.
  unfold assess_patch_safety. destruct (action_is_empty action); [done|]. intros Ha Hne.
  destruct (is_write_patch_constrained_to_writable_paths env action fs cwd); [done|].
  assert (bool_decide (policy = OnFailure) = false) as Hb by by apply bool_decide_eq_false. rewrite Hb in Ha.
  destruct policy; simpl in Ha; try done; by destruct (negb _).
Qed.

(** C20: When a proposed patch is approved without a question, and not because the policy
    asks only after failures, then every file that differs after it was applied, or tried to be, is one
    whose path may be written under the file-system policy.  This is for patches in which no file
    occurs in two hunks and no carriage return occurs anywhere; and it is about files by their
    paths: where a path is a hard link to a file outside, which the sandbox and not this check
    guards against, that file is written as well, and a file system with such links is excluded. *)
Theorem approved_patches_write_where_allowed `{Write Out} `{Write ErrOut} env os policy profile fs base windows sandbox approved
    cwd st action (stdout : Out) (stderr : ErrOut) st' out err r q :
  Path.is_absolute cwd = true -> Path.is_absolute base = true ->
  proposed home_dir text_diff cwd st action -> carriage_return ∉ action_patch action ->
  NoDup (resolve_path home_dir (action_cwd action) <$> hunks_of (action_patch action)) ->
  assess_patch_safety env os action policy profile fs base windows = AutoApprove sandbox approved -> policy <> OnFailure ->
  apply_patch home_dir (action_patch action) (action_cwd action) stdout stderr st = (st', out, err, r) ->
  text st' q <> text st q -> Permissions.can_write_path_with_cwd env fs q base = true.
Proof.
  intros Hcwd Hbase Hp Hcr Hnd Has Hof Ha Hq. pose proof (proposed_absolute _ _ _ Hp Hcwd) as Habs.
  destruct (proposed_hunks _ _ _ Hp Hcr) as (again & changes & Hpa & Hh & Hch & Hc). rewrite Hh in Hnd.
  assert (q ∈ concat (touched home_dir (action_cwd action) <$> hunks again)) as Hin.
  { destruct (decide (q ∈ concat (touched home_dir (action_cwd action) <$> hunks again))) as [|Hnin]; [done|].
    exfalso. apply Hq. eapply (apply_patch_other (Out := Out) (ErrOut := ErrOut)); [exact Ha|]. by rewrite Hh. }
  apply list_elem_of_In, in_concat in Hin as (ps & Hps & Hin). apply list_elem_of_In in Hps, Hin.
  apply list_elem_of_fmap in Hps as (h & -> & Hin').
  destruct (changes_each _ _ _ _ _ Hc Hnd) as [Heach _]. destruct (Heach h Hin') as (c & Hhc & Hl).
  apply approved_is_constrained in Has; [|done]. apply constrained_spec in Has. rewrite Hch in Has.
  rewrite Forall_forall in Has. specialize (Has (resolve_path home_dir (action_cwd action) h, c)).
  rewrite Forall_forall in Has. specialize (Has ltac:(by apply elem_of_map_to_list) q).
  rewrite (written_touched _ _ _ _ Hhc) in Has. specialize (Has Hin).
  unfold is_path_writable in Has. rewrite normalize_patch_path_absolute in Has by done.
  rewrite Path.absolutize_from_fixed in Has; [done|].
  unfold touched in Hin. apply elem_of_cons in Hin as [->|Hin]; [by apply Path.resolve_normal|].
  destruct h as [| |p [dest|] cs]; [by apply elem_of_nil in Hin..| |by apply elem_of_nil in Hin].
  apply list_elem_of_singleton in Hin as ->. by apply Path.resolve_normal.
Qed.

End shown.
(** ** Instances *)

Module Demo.
(** A grammar that matches no script. *)
#[export] Instance no_query : BashQuery := {| set_language := Ok tt; query_matches _ := Some [] |}.
Definition both (old new : str) (ctx : nat) : str := old ++ new.
Definition patch_text (ls : list str) : str := Str.join [newline] ([BEGIN_PATCH_MARKER] ++ ls ++ [END_PATCH_MARKER]).
Definition demo_text : str :=
  patch_text [$"*** Add File: n"; $"+x"; $"*** Update File: a"; $"*** Move to: b"; $"-two"; $"+2"; $"*** Delete File: old"].
Definition propose (text : str) : ApplyPatchAction :=
  match maybe_parse_apply_patch_verified None both [$"apply_patch"; text] $"/w" demo_fs with
  | VerifiedBody action => action
  | _ => mkAction [] [] []
  end.
Definition run (text : str) := 
  apply_patch None (action_patch (propose text)) (action_cwd (propose text)) ([] : str) ([] : str) demo_fs.
(** Two hunks for one file: the first moves it away, the second adds it again. *)
Definition twice : str :=
  patch_text [$"*** Update File: a"; $"*** Move to: /out/x"; $"-two"; $"+2"; $"*** Add File: a"; $"+new"].
(** A line that ends in two carriage returns before its line feed. *)
Definition carriage : str := patch_text [$"*** Add File: n"; $"+x" ++ [carriage_return; carriage_return]].
(** What is left to see: whether it succeeded, what was written to the error stream, and a file. *)
Definition outcome (text0 path : str) : bool * str * option str :=
  let '(st', _, err, r) := run text0 in (match r with Ok _ => true | Err _ => false end, err, text st' path).
Lemma outcome_ok text0 path x :
  outcome text0 path = (true, [], x) -> exists st' out d, run text0 = (st', out, [], Ok d) /\ text st' path = x.
Proof.
  unfold outcome. destruct (run text0) as [[[st' out] err] [d|e]]; intros H; inversion H; subst. by exists st', out, d.
Qed.
End Demo.
Import Demo.

Lemma demo_proposed : proposed None both $"/w" demo_fs (propose demo_text).
Proof. apply (by_command _ _ _ _ _ [$"apply_patch"; demo_text]). by vm_compute. Qed.
Lemma demo_plain : Forall Utf8.scalar (action_patch (propose demo_text)) /\ carriage_return ∉ action_patch (propose demo_text).
Proof. split; [by apply (bool_decide_unpack _); vm_compute|by apply (bool_decide_unpack _); vm_compute]. Qed.

Lemma shown_changes_are_applied_witness :
  exists st' out d, run demo_text = (st', out, [], Ok d) /\ length (action_changes (propose demo_text)) = 3 /\
    describes both (action_changes (propose demo_text)) (text demo_fs) (text st').
Proof.
  destruct (outcome_ok demo_text $"/w/old" None ltac:(by vm_compute)) as (st' & out & d & E & _).
  exists st', out, d. split_and!; [exact E|by vm_compute|].
  apply (shown_changes_are_applied None both $"/w" demo_fs (propose demo_text) [] [] st' out [] d demo_proposed
           (proj1 demo_plain) (proj2 demo_plain)); [|exact E].
  apply (bool_decide_unpack _). by vm_compute.
Defined.

Lemma approved_patches_write_where_allowed_witness :
  exists st' out err r, run demo_text = (st', out, err, r) /\ text st' $"/w/b" <> text demo_fs $"/w/b" /\
    Permissions.can_write_path_with_cwd Access.plain_env Access.sample $"/w/b" $"/w" = true.
Proof.
  destruct (outcome_ok demo_text $"/w/b" (Some ($"one" ++ [newline; ch "2"; newline])) ltac:(by vm_compute)) as (st' & out & d & E & Hb).
  exists st', out, [], (Ok d). assert (text st' $"/w/b" <> text demo_fs $"/w/b") as Hq by by rewrite Hb.
  split_and!; [exact E|exact Hq|].
  apply (approved_patches_write_where_allowed None both Access.plain_env Linux OnRequest
    (Profile.Managed Profile.ManagedUnrestricted Permissions.NetRestricted) Access.sample $"/w" false LinuxSeccomp false
    $"/w" demo_fs (propose demo_text) [] [] st' out [] (Ok d) $"/w/b" eq_refl eq_refl demo_proposed (proj2 demo_plain)); [..|exact Hq].
  - apply (bool_decide_unpack _). by vm_compute.
  - by vm_compute.
  - done.
  - exact E.
Defined.

(** The changes are kept by path, and each is computed from the files as they are: of two hunks
    for one file only the last is shown and checked, and a move in the first writes a file that
    was neither shown nor may be written. *)
Lemma a_second_hunk_hides_the_first :
  action_changes (propose twice) = [($"/w/a", AddChange ($"new" ++ [newline]))] /\
  assess_patch_safety Access.plain_env Linux (propose twice) OnRequest
    (Profile.Managed Profile.ManagedUnrestricted Permissions.NetRestricted) Access.sample $"/w" false =
    AutoApprove LinuxSeccomp false /\
  Permissions.can_write_path_with_cwd Access.plain_env Access.sample $"/out/x" $"/w" = false /\
  text demo_fs $"/out/x" = None /\
  exists st' out d, run twice = (st', out, [], Ok d) /\ is_Some (text st' $"/out/x").
Proof.
  split_and!; [by vm_compute..|].
  destruct (outcome_ok twice $"/out/x" (Some ($"one" ++ [newline; ch "2"; newline])) ltac:(by vm_compute)) as (st' & out & d & E & Hx).
  exists st', out, d. by rewrite Hx.
Qed.

(** The lines of a patch lose a carriage return each time they are read: the text that is kept
    for the application reads as other contents than those shown. *)
Lemma a_carriage_return_is_lost :
  action_changes (propose carriage) = [($"/w/n", AddChange ($"x" ++ [carriage_return; newline]))] /\
  exists st' out d, run carriage = (st', out, [], Ok d) /\ text st' $"/w/n" = Some ($"x" ++ [newline]).
Proof.
  split; [by vm_compute|]. apply outcome_ok. by vm_compute.
Qed.

End Invocation.
