(* ===== verification/Template.v ===== *)
(** Strict text templates ([codex-rs/utils/template/src/lib.rs]): placeholders in double
    braces, doubled braces as escapes.  Error positions are byte offsets.  The loop of
    [parse] runs on fuel one above the length of the source; every turn consumes a
    character ([parse_loop_fuel]). *)
From S2P Require Import Prelude.

Module Template.

(** ** Definitions *)

Inductive TemplateParseError :=
| EmptyPlaceholder (start : N)
| NestedPlaceholder (start : N)
| UnmatchedClosingDelimiter (start : N)
| UnterminatedPlaceholder (start : N).
Inductive TemplateRenderError :=
| DuplicateValue (name : str)
| ExtraValue (name : str)
| MissingValue (name : str).
Inductive TemplateError :=
| Parse (e : TemplateParseError)
| Render (e : TemplateRenderError).

Inductive Segment :=
| Literal (s : str)
| Placeholder (name : str).

(** [BTreeSet] and [BTreeMap]: sorted, without duplicates. *)
Fixpoint set_insert (x : str) (l : list str) : list str :=
  match l with
  | [] => [x]
  | y :: l' =>
      if decide (x = y) then l
      else if str_ltb x y then x :: l
      else y :: set_insert x l'
  end.
Fixpoint map_insert (k v : str) (m : list (str * str)) : list (str * str) :=
  match m with
  | [] => [(k, v)]
  | (k', v') :: m' =>
      if decide (k = k') then (k, v) :: m'
      else if str_ltb k k' then (k, v) :: m
      else (k', v') :: map_insert k v m'
  end.
Definition map_get (k : str) (m : list (str * str)) : option str :=
  snd <$> List.find (fun kv => bool_decide (kv.1 = k)) m.

Record Template := mkTemplate { placeholders : list str; segments : list Segment }.

Definition push_literal (segs : list Segment) (literal : str) : list Segment :=
  if Str.is_empty literal then segs
  else
    match last segs with
    | Some (Literal existing) => take (length segs - 1) segs ++ [Literal (existing ++ literal)]
    | _ => segs ++ [Literal literal]
    end.

Definition open2 : str := $"{{".
Definition close2 : str := $"}}".

(** The text of a placeholder up to its closing braces and what follows them; [acc] is
    what has been read. *)
Fixpoint placeholder_text (start : N) (acc rest : str) : result TemplateParseError (str * str) :=
  match rest with
  | [] => Err (UnterminatedPlaceholder start)
  | c :: rest' =>
      if Str.starts_with open2 rest then Err (NestedPlaceholder start)
      else if Str.starts_with close2 rest then Ok (acc, drop 2 rest)
      else placeholder_text start (acc ++ [c]) rest'
  end.
(** [rest] starts after the opening braces; the new offset is that of what follows. *)
Definition parse_placeholder (start : N) (rest : str)
    : result TemplateParseError (str * N * str) :=
  '(raw, after) ← placeholder_text start [] rest;
  let placeholder := Str.trim raw in
  if Str.is_empty placeholder then Err (EmptyPlaceholder start)
  else Ok (placeholder, (start + 2 + Str.len raw + 2)%N, after).

(** [literal] is the source between [literal_start] and [cursor]. *)
Fixpoint parse_loop (fuel : nat) (cursor : N) (literal rest : str) (names : list str)
    (segs : list Segment) : result TemplateParseError Template :=
  match fuel, rest with
  | 0, _ | _, [] => Ok (mkTemplate names (push_literal segs literal))
  | S fuel', c :: rest' =>
      if Str.starts_with (open2 ++ open2) rest then
        parse_loop fuel' (cursor + 4) [] (drop 4 rest) names
          (push_literal (push_literal segs literal) open2)
      else if Str.starts_with (close2 ++ close2) rest then
        parse_loop fuel' (cursor + 4) [] (drop 4 rest) names
          (push_literal (push_literal segs literal) close2)
      else if Str.starts_with open2 rest then
        '(placeholder, next_cursor, after) ← parse_placeholder cursor (drop 2 rest);
        parse_loop fuel' next_cursor [] after (set_insert placeholder names)
          (push_literal segs literal ++ [Placeholder placeholder])
      else if Str.starts_with close2 rest then Err (UnmatchedClosingDelimiter cursor)
      else parse_loop fuel' (cursor + Str.len_utf8 c) (literal ++ [c]) rest' names segs
  end.
Definition parse (source : str) : result TemplateParseError Template :=
  parse_loop (S (length source)) 0 [] source [] [].

Fixpoint build_variable_map (variables m : list (str * str))
    : result TemplateRenderError (list (str * str)) :=
  match variables with
  | [] => Ok m
  | (name, value) :: vs =>
      match map_get name m with
      | Some _ => Err (DuplicateValue name)
      | None => build_variable_map vs (map_insert name value m)
      end
  end.

Fixpoint render_segments (segs : list Segment) (variables : list (str * str))
    : result TemplateRenderError str :=
  match segs with
  | [] => Ok []
  | Literal literal :: segs' => rest ← render_segments segs' variables; Ok (literal ++ rest)
  | Placeholder name :: segs' =>
      value ← ok_or (map_get name variables) (MissingValue name);
      rest ← render_segments segs' variables;
      Ok (value ++ rest)
  end.
Definition render_template (t : Template) (variables : list (str * str))
    : result TemplateRenderError str :=
  vars ← build_variable_map variables [];
  match List.find (fun p => negb (bool_decide (is_Some (map_get p vars)))) (placeholders t) with
  | Some p => Err (MissingValue p)
  | None =>
      match List.find (fun n => negb (bool_decide (n ∈ placeholders t))) vars.*1 with
      | Some n => Err (ExtraValue n)
      | None => render_segments (segments t) vars
      end
  end.
Definition render (template : str) (variables : list (str * str)) : result TemplateError str :=
  t ← map_err Parse (parse template);
  map_err Render (render_template t variables).

(** ** Sources in pieces *)

Inductive piece :=
| Text (s : str)
| OpenBraces
| CloseBraces
| Hole (before name after : str).
Definition lbrace : char := ch "{".
Definition rbrace : char := ch "}".
Definition no_braces (s : str) : Prop := Forall (fun c => c <> lbrace /\ c <> rbrace) s.
Definition blank (s : str) : Prop := Forall (fun c => Str.is_whitespace c = true) s.
Definition piece_ok (p : piece) : Prop :=
  match p with
  | Text s => no_braces s
  | OpenBraces | CloseBraces => True
  | Hole before name after =>
      blank before /\ blank after /\ name <> [] /\ no_braces name /\
      Str.trim_start name = name /\ Str.trim_end name = name
  end.
Definition print_piece (p : piece) : str :=
  match p with
  | Text s => s
  | OpenBraces => open2 ++ open2
  | CloseBraces => close2 ++ close2
  | Hole before name after => open2 ++ (before ++ name ++ after) ++ close2
  end.
Definition print (ps : list piece) : str := concat (print_piece <$> ps).
Definition hole_names (ps : list piece) : list str :=
  omap (fun p => match p with Hole _ name _ => Some name | _ => None end) ps.
(** What a piece stands for, given the values. *)
Definition piece_value (variables : list (str * str)) (p : piece) : str :=
  match p with
  | Text s => s
  | OpenBraces => open2
  | CloseBraces => close2
  | Hole _ name _ => default [] (map_get name variables)
  end.

(** ** Lemmas *)

Lemma starts_with_ne (x c : char) p s : x <> c -> Str.starts_with (x :: p) (c :: s) = false.
Proof. intros H. apply Str.starts_with_false. by intros ?%prefix_cons_inv_1. Qed.
Lemma starts_with_self p s : Str.starts_with p (p ++ s) = true.
Proof. apply Str.starts_with_spec. by exists s. Qed.

Lemma placeholder_text_shorter start acc rest raw after :
  placeholder_text start acc rest = Ok (raw, after) -> length after <= length rest.
Proof.
  revert acc; induction rest as [|c rest IH]; intros acc; [done|]. cbn [placeholder_text].
  destruct (Str.starts_with open2 (c :: rest)); [done|].
  destruct (Str.starts_with close2 (c :: rest)).
  - intros [= _ <-]. rewrite length_drop. simpl. lia.
  - intros Hp%IH. simpl. lia.
Qed.

(** Every turn consumes a character: any fuel above the length gives the result. *)
Lemma parse_loop_fuel n m cursor literal rest names segs :
  length rest < n -> length rest < m ->
  parse_loop n cursor literal rest names segs = parse_loop m cursor literal rest names segs.
Proof.
  revert m cursor literal rest names segs; induction n as [|n IH];
    intros m cursor literal rest names segs Hn Hm; [lia|].
  destruct m as [|m]; [lia|]. destruct rest as [|c rest]; [done|]. cbn [parse_loop].
  simpl in Hn, Hm.
  destruct (Str.starts_with (open2 ++ open2) _); [apply IH; rewrite length_drop; simpl; lia|].
  destruct (Str.starts_with (close2 ++ close2) _); [apply IH; rewrite length_drop; simpl; lia|].
  destruct (Str.starts_with open2 _).
  - unfold parse_placeholder. destruct (placeholder_text _ _ _) as [[raw after]|e] eqn:Ep; [|done].
    apply placeholder_text_shorter in Ep. rewrite length_drop in Ep. simpl in Ep |- *.
    destruct (Str.is_empty _); [done|]. simpl. apply IH; lia.
  - destruct (Str.starts_with close2 _); [done|]. apply IH; lia.
Qed.

Lemma parse_text s fuel cursor literal rest names segs :
  no_braces s ->
  parse_loop (length s + fuel) cursor literal (s ++ rest) names segs =
  parse_loop fuel (cursor + Str.len s) (literal ++ s) rest names segs.
Proof.
  intros Hs. revert cursor literal; induction Hs as [|c s [Hl Hr] Hs IH]; intros cursor literal.
  { simpl. by rewrite N.add_0_r, app_nil_r. }
  cbn [length app Nat.add parse_loop].
  rewrite (starts_with_ne lbrace c ($"{" ++ open2)) by done.
  rewrite (starts_with_ne rbrace c ($"}" ++ close2)) by done.
  rewrite (starts_with_ne lbrace c $"{"), (starts_with_ne rbrace c $"}") by done.
  rewrite IH, <- app_assoc. f_equal. simpl. lia.
Qed.

Lemma placeholder_text_no_braces start acc raw rest :
  no_braces raw -> placeholder_text start acc (raw ++ close2 ++ rest) = Ok (acc ++ raw, rest).
Proof.
  intros Hr. revert acc; induction Hr as [|c raw [Hl Hc] Hr IH]; intros acc.
  - rewrite app_nil_r. reflexivity.
  - cbn [app placeholder_text].
    rewrite (starts_with_ne lbrace c $"{"), (starts_with_ne rbrace c $"}") by done.
    change (c :: raw ++ close2 ++ rest) with (c :: (raw ++ close2 ++ rest)).
    rewrite IH. by rewrite <- app_assoc.
Qed.

Lemma blank_no_braces s : blank s -> no_braces s.
Proof.
  intros H. apply (Forall_impl _ _ _ H). intros c Hc.
  split; intros ->; vm_compute in Hc; discriminate.
Qed.

Lemma trim_hole before name after :
  piece_ok (Hole before name after) ->
  Str.trim (before ++ name ++ after) = name /\ no_braces (before ++ name ++ after) /\
  before ++ name ++ after <> [].
Proof.
  intros (Hb & Ha & Hn & Hnb & Hs & He). split_and!.
  - unfold Str.trim. rewrite Str.trim_start_app_drop by done.
    rewrite Str.trim_start_app by (by rewrite Hs). rewrite Hs.
    unfold Str.trim_end in *. by rewrite Str.trim_end_by_app_drop.
  - apply Forall_app. split; [by apply blank_no_braces|]. apply Forall_app.
    split; [done|by apply blank_no_braces].
  - destruct before; [|done]. by destruct name.
Qed.

Lemma parse_open fuel cursor literal rest names segs :
  parse_loop (S fuel) cursor literal ((open2 ++ open2) ++ rest) names segs =
  parse_loop fuel (cursor + 4) [] rest names (push_literal (push_literal segs literal) open2).
Proof. cbn [parse_loop app open2]. by rewrite (starts_with_self (open2 ++ open2) rest : _ = _). Qed.
Lemma parse_close fuel cursor literal rest names segs :
  parse_loop (S fuel) cursor literal ((close2 ++ close2) ++ rest) names segs =
  parse_loop fuel (cursor + 4) [] rest names (push_literal (push_literal segs literal) close2).
Proof.
  change ((close2 ++ close2) ++ rest) with (rbrace :: $"}" ++ close2 ++ rest). cbn [parse_loop].
  rewrite (starts_with_ne lbrace rbrace ($"{" ++ open2)) by done.
  assert (Str.starts_with (close2 ++ close2) (rbrace :: $"}" ++ close2 ++ rest) = true) as ->
    by exact (starts_with_self (close2 ++ close2) rest).
  done.
Qed.

Lemma parse_hole before name after fuel cursor literal rest names segs :
  piece_ok (Hole before name after) ->
  exists cursor',
    parse_loop (S fuel) cursor literal (print_piece (Hole before name after) ++ rest) names segs =
    parse_loop fuel cursor' [] rest (set_insert name names)
      (push_literal segs literal ++ [Placeholder name]).
Proof.
  intros Hok. destruct (trim_hole _ _ _ Hok) as (Ht & Hnb & Hne).
  destruct Hok as (_ & _ & Hn & _). set (raw := before ++ name ++ after) in *.
  cbn [print_piece]. fold raw. exists (cursor + 2 + Str.len raw + 2)%N.
  assert ((open2 ++ raw ++ close2) ++ rest = lbrace :: $"{" ++ raw ++ close2 ++ rest) as ->
    by (by rewrite <- !app_assoc).
  cbn [parse_loop].
  assert (Str.starts_with (open2 ++ open2) (lbrace :: $"{" ++ raw ++ close2 ++ rest) = false) as ->.
  { apply Str.starts_with_false. intros [k Hk]. destruct raw as [|c raw]; [done|].
    inversion Hnb as [|? ? [Hc _] _]; subst. apply Hc.
    pose proof (f_equal (fun l => l !! 2) Hk) as E.
    change (Some c = Some lbrace) in E. by injection E. }
  rewrite (starts_with_ne rbrace lbrace ($"}" ++ close2)) by done.
  assert (Str.starts_with open2 (lbrace :: $"{" ++ raw ++ close2 ++ rest) = true) as ->
    by exact (starts_with_self open2 (raw ++ close2 ++ rest)).
  change (drop 2 (lbrace :: $"{" ++ raw ++ close2 ++ rest)) with (raw ++ close2 ++ rest).
  unfold parse_placeholder. rewrite placeholder_text_no_braces by done. simpl. rewrite Ht.
  by destruct name.
Qed.

Lemma render_app a b vars :
  render_segments (a ++ b) vars =
  x ← render_segments a vars; y ← render_segments b vars; Ok (x ++ y).
Proof.
  induction a as [|[l|n] a IH]; simpl.
  - by destruct (render_segments b vars).
  - rewrite IH. destruct (render_segments a vars), (render_segments b vars); simpl;
      by rewrite <- ?app_assoc.
  - rewrite IH. destruct (map_get n vars); simpl; [|done].
    destruct (render_segments a vars), (render_segments b vars); simpl; by rewrite <- ?app_assoc.
Qed.

Lemma render_push_literal segs l vars :
  render_segments (push_literal segs l) vars = x ← render_segments segs vars; Ok (x ++ l).
Proof.
  unfold push_literal. destruct l as [|c l]; simpl.
  { destruct (render_segments segs vars); simpl; by rewrite ?app_nil_r. }
  destruct segs as [|s segs _] using rev_ind; [simpl; by rewrite app_nil_r|]. rewrite last_snoc.
  destruct s as [e|n].
  - rewrite length_app. simpl. replace (length segs + 1 - 1) with (length segs) by lia.
    rewrite take_app_length, !render_app. simpl. destruct (render_segments segs vars); simpl; [|done].
    by rewrite !app_nil_r, <- app_assoc.
  - rewrite (render_app (segs ++ [Placeholder n])). simpl.
    destruct (render_segments (segs ++ [Placeholder n]) vars); simpl; by rewrite ?app_nil_r.
Qed.

Definition piece_result (vars : list (str * str)) (p : piece) : result TemplateRenderError str :=
  match p with
  | Text s => Ok s
  | OpenBraces => Ok open2
  | CloseBraces => Ok close2
  | Hole _ name _ => ok_or (map_get name vars) (MissingValue name)
  end.
Fixpoint pieces_result (vars : list (str * str)) (ps : list piece)
    : result TemplateRenderError str :=
  match ps with
  | [] => Ok []
  | p :: ps' => x ← piece_result vars p; y ← pieces_result vars ps'; Ok (x ++ y)
  end.

(** The loop on the source of pieces. *)
Lemma parse_pieces ps fuel cursor literal names segs :
  Forall piece_ok ps -> length (print ps) < fuel ->
  exists t, parse_loop fuel cursor literal (print ps) names segs = Ok t /\
    placeholders t = fold_left (fun l n => set_insert n l) (hole_names ps) names /\
    forall vars, render_segments (segments t) vars =
      x ← render_segments segs vars; y ← pieces_result vars ps; Ok (x ++ literal ++ y).
Proof.
  intros Hps. revert fuel cursor literal names segs.
  induction Hps as [|p ps Hp Hps IH]; intros fuel cursor literal names segs Hf.
  - exists (mkTemplate names (push_literal segs literal)). split; [by destruct fuel|].
    split; [done|]. intros vars. simpl. rewrite render_push_literal.
    destruct (render_segments segs vars); simpl; by rewrite ?app_nil_r.
  - change (print (p :: ps)) with (print_piece p ++ print ps) in *. rewrite length_app in Hf.
    destruct p as [s| | |before name after].
    + simpl in Hf. replace fuel with (length s + (fuel - length s)) by lia.
      cbn [print_piece]. rewrite parse_text by done.
      destruct (IH (fuel - length s) (cursor + Str.len s)%N (literal ++ s) names segs)
        as (t & -> & Hn & Hr); [lia|].
      exists t. split; [done|]. split; [done|]. intros vars. rewrite Hr. simpl.
      destruct (render_segments segs vars), (pieces_result vars ps); simpl; by rewrite <- ?app_assoc.
    + destruct fuel as [|fuel]; [lia|]. cbn [print_piece]. rewrite parse_open.
      destruct (IH fuel (cursor + 4)%N [] names (push_literal (push_literal segs literal) open2))
        as (t & -> & Hn & Hr); [simpl in Hf; lia|].
      exists t. split; [done|]. split; [done|]. intros vars. rewrite Hr, !render_push_literal. simpl.
      destruct (render_segments segs vars), (pieces_result vars ps); simpl; by rewrite <- ?app_assoc.
    + destruct fuel as [|fuel]; [lia|]. cbn [print_piece]. rewrite parse_close.
      destruct (IH fuel (cursor + 4)%N [] names (push_literal (push_literal segs literal) close2))
        as (t & -> & Hn & Hr); [simpl in Hf; lia|].
      exists t. split; [done|]. split; [done|]. intros vars. rewrite Hr, !render_push_literal. simpl.
      destruct (render_segments segs vars), (pieces_result vars ps); simpl; by rewrite <- ?app_assoc.
    + destruct fuel as [|fuel]; [lia|].
      destruct (parse_hole before name after fuel cursor literal (print ps) names segs Hp) as [cursor' ->].
      destruct (IH fuel cursor' [] (set_insert name names) (push_literal segs literal ++ [Placeholder name]))
        as (t & -> & Hn & Hr); [simpl in Hf; lia|].
      exists t. split; [done|]. split; [done|]. intros vars.
      rewrite Hr, render_app, render_push_literal. simpl.
      destruct (render_segments segs vars), (map_get name vars), (pieces_result vars ps);
        simpl; by rewrite <- ?app_assoc, ?app_nil_r.
Qed.

Lemma map_get_cons k n v (m : list (str * str)) :
  map_get k ((n, v) :: m) = if decide (k = n) then Some v else map_get k m.
Proof.
  unfold map_get. simpl. case_decide as E.
  - by rewrite bool_decide_true.
  - by rewrite bool_decide_false.
Qed.
Lemma map_get_keys k m : is_Some (map_get k m) <-> k ∈ m.*1.
Proof.
  induction m as [|[n v] m IH].
  - split; [by intros [? [=]]|by intros ?%elem_of_nil].
  - rewrite map_get_cons, fmap_cons, elem_of_cons, <- IH. simpl.
    case_decide as E; [by split; eauto|]. tauto.
Qed.
Lemma map_get_insert k n v m :
  map_get k (map_insert n v m) = if decide (k = n) then Some v else map_get k m.
Proof.
  induction m as [|[n' v'] m IH]; cbn [map_insert]; [apply map_get_cons|].
  destruct (decide (n = n')) as [<-|E]; [rewrite !map_get_cons; by case_decide|].
  destruct (str_ltb n n'); rewrite !map_get_cons; [done|]. rewrite IH.
  do 2 case_decide; congruence.
Qed.
Lemma set_insert_elem x y l : x ∈ set_insert y l <-> x = y \/ x ∈ l.
Proof.
  induction l as [|z l IH]; simpl.
  - rewrite list_elem_of_singleton. set_solver.
  - case_decide as E; [subst; rewrite elem_of_cons; tauto|].
    destruct (str_ltb y z); rewrite !elem_of_cons, ?IH; tauto.
Qed.
Lemma placeholders_elem x names l :
  x ∈ fold_left (fun l n => set_insert n l) names l <-> x ∈ names \/ x ∈ l.
Proof.
  revert l; induction names as [|n names IH]; intros l; simpl.
  - split; [tauto|]. by intros [?%elem_of_nil|?].
  - rewrite IH, set_insert_elem, elem_of_cons. tauto.
Qed.

Lemma build_spec variables m :
  match build_variable_map variables m with
  | Ok m' => NoDup (variables.*1) /\ (forall k, k ∈ variables.*1 -> map_get k m = None) /\
      forall k, map_get k m' =
        match map_get k variables with Some v => Some v | None => map_get k m end
  | Err _ => ~ (NoDup (variables.*1) /\ forall k, k ∈ variables.*1 -> map_get k m = None)
  end.
Proof.
  revert m; induction variables as [|[n v] vs IH]; intros m; cbn [build_variable_map].
  - split; [constructor|]. split; [by intros k ?%elem_of_nil|done].
  - destruct (map_get n m) as [w|] eqn:En.
    { intros [_ H]. specialize (H n ltac:(left)). congruence. }
    specialize (IH (map_insert n v m)).
    destruct (build_variable_map vs (map_insert n v m)) as [m'|e]; simpl.
    + destruct IH as (Hnd & Hdis & Hget). split_and!.
      * constructor; [|done]. intros Hin. specialize (Hdis n Hin).
        rewrite map_get_insert, decide_True in Hdis by done. done.
      * intros k [->|Hk]%elem_of_cons; [done|]. specialize (Hdis k Hk).
        rewrite map_get_insert in Hdis. by case_decide.
      * intros k. rewrite Hget, map_get_cons, map_get_insert.
        case_decide as E; [subst k|done]. destruct (map_get n vs) eqn:Ev; [|done].
        exfalso. assert (n ∈ vs.*1) as Hin by (apply map_get_keys; eauto).
        specialize (Hdis n Hin). by rewrite map_get_insert, decide_True in Hdis.
    + intros [Hnd Hdis]. apply NoDup_cons in Hnd as [Hni Hnd]. apply IH. split; [done|].
      intros k Hk. rewrite map_get_insert. case_decide; [by subst|]. apply Hdis. by right.
Qed.

Lemma pieces_result_values vars ps :
  (forall n, n ∈ hole_names ps -> is_Some (map_get n vars)) ->
  pieces_result vars ps = Ok (concat (piece_value vars <$> ps)).
Proof.
  induction ps as [|p ps IH]; intros H; simpl; [done|].
  rewrite IH; [|intros n Hn; apply H; destruct p; simpl; by repeat right || done].
  destruct p as [s| | |b n a]; simpl; try done.
  destruct (H n) as [v ->]; [left|]. done.
Qed.

Lemma find_None_Forall {A} (f : A -> bool) l : List.find f l = None <-> Forall (fun x => f x = false) l.
Proof.
  induction l as [|x l IH]; simpl; [by split|]. rewrite Forall_cons, <- IH.
  destruct (f x); naive_solver.
Qed.

(** ** Properties *)

(** Rendering a template made of text, escaped braces and placeholders (with
    blanks around their names) succeeds exactly when every placeholder is given
    exactly one value and nothing else is given a value; the result is the text with
    the escapes undone and the values in place. *)
Theorem render_substitutes ps variables s :
  Forall piece_ok ps ->
  render (print ps) variables = Ok s <->
  NoDup (variables.*1) /\ (forall n, n ∈ variables.*1 <-> n ∈ hole_names ps) /\
  s = concat (piece_value variables <$> ps).
Proof.
  intros Hps. unfold render, parse.
  destruct (parse_pieces ps (S (length (print ps))) 0 [] [] [] Hps ltac:(lia)) as (t & -> & Hn & Hr).
  simpl. unfold render_template. pose proof (build_spec variables []) as Hb.
  assert (forall n, n ∈ placeholders t <-> n ∈ hole_names ps) as Hpl.
  { intros n. rewrite Hn, placeholders_elem. split; [|tauto]. by intros [?|?%elem_of_nil]. }
  destruct (build_variable_map variables []) as [m|e]; simpl.
  2:{ split; [done|]. intros (Hnd & _). exfalso. by apply Hb. }
  destruct Hb as (Hnd & _ & Hget).
  assert (forall k, map_get k m = map_get k variables) as Hm by (intros k; rewrite Hget; by destruct (map_get k variables)).
  destruct (List.find _ (placeholders t)) as [p|] eqn:E1.
  { split; [done|]. intros (_ & Hk & _). exfalso. apply find_some in E1 as [Hin Hf].
    apply negb_true_iff, bool_decide_eq_false in Hf. apply Hf. rewrite Hm, map_get_keys, Hk, <- Hpl.
    by apply list_elem_of_In. }
  destruct (List.find _ m.*1) as [p|] eqn:E2.
  { split; [done|]. intros (_ & Hk & _). exfalso. apply find_some in E2 as [Hin Hf].
    apply negb_true_iff, bool_decide_eq_false in Hf. apply Hf. rewrite Hpl, <- Hk, <- map_get_keys, <- Hm, map_get_keys.
    by apply list_elem_of_In. }
  apply find_None_Forall in E1, E2. rewrite Forall_forall in E1, E2.
  assert (forall n, n ∈ variables.*1 <-> n ∈ hole_names ps) as Hk.
  { intros n. rewrite <- map_get_keys, <- Hm, <- Hpl. split.
    - intros Hs%map_get_keys. apply E2 in Hs. apply negb_false_iff, bool_decide_eq_true in Hs. done.
    - intros Hs%E1. by apply negb_false_iff, bool_decide_eq_true in Hs. }
  rewrite Hr. simpl. rewrite pieces_result_values
    by (intros n Hin; rewrite Hm, map_get_keys; by apply Hk). simpl.
  assert (piece_value m <$> ps = piece_value variables <$> ps) as ->.
  { apply list_fmap_ext. intros ? [] _; simpl; by rewrite ?Hm. }
  split; [intros [= <-]; done|by intros (_ & _ & ->)].
Qed.

Lemma render_substitutes_witness :
  render $"{{ who }}: {{{{x}}}}" [($"who", $"me")] = Ok $"me: {{x}}".
Proof.
  apply (render_substitutes
    [Hole $" " $"who" $" "; Text $": "; OpenBraces; Text $"x"; CloseBraces] [($"who", $"me")]).
  - repeat constructor; vm_compute; discriminate.
  - split_and!; [apply NoDup_singleton| |vm_compute; reflexivity].
    intros n. change (n ∈ [$"who"] <-> n ∈ [$"who"]). reflexivity.
Defined.

End Template.
