(* ===== verification/ByteText.v ===== *)
(** Strings by byte offsets: what Rust's [str] offers on positions in the UTF-8 encoding,
    on strings as lists of scalar values.  A slice at an offset inside a character or
    beyond the end panics, which is [None] here. *)
From S2P Require Import Prelude.

Module ByteText.

(** ** Operations *)

Definition width (c : char) : nat := N.to_nat (Str.len_utf8 c).
(** [str::len]. *)
Fixpoint blen (s : str) : nat := match s with [] => 0 | c :: s' => width c + blen s' end.

(** The text before and after an offset, when it is a boundary between characters. *)
Fixpoint split_at (n : nat) (s : str) : option (str * str) :=
  match n with
  | 0 => Some ([], s)
  | _ =>
      match s with
      | [] => None
      | c :: s' => if width c <=? n then '(p, q) ← split_at (n - width c) s'; Some (c :: p, q) else None
      end
  end.
Definition is_char_boundary (n : nat) (s : str) : bool := match split_at n s with Some _ => true | None => false end.
(** [&s[..n]], [&s[n..]], [&s[a..b]]. *)
Definition slice_to (n : nat) (s : str) : option str := fst <$> split_at n s.
Definition slice_from (n : nat) (s : str) : option str := snd <$> split_at n s.
Definition slice (a b : nat) (s : str) : option str := p ← slice_to b s; slice_from a p.
(** [String::insert_str] and [String::replace_range]. *)
Definition insert_str (at_ : nat) (t s : str) : option str := '(p, q) ← split_at at_ s; Some (p ++ t ++ q).
Definition replace_range (a b : nat) (t s : str) : option str :=
  '(pm, q) ← split_at b s; '(p, _) ← split_at a pm; Some (p ++ t ++ q).

(** [char_indices], and searches for a character from either end. *)
Fixpoint char_indices_from (n : nat) (s : str) : list (nat * char) :=
  match s with [] => [] | c :: s' => (n, c) :: char_indices_from (n + width c) s' end.
Definition char_indices (s : str) : list (nat * char) := char_indices_from 0 s.
Definition find_char (p : char -> bool) (s : str) : option nat :=
  fst <$> List.find (fun ic => p ic.2) (char_indices s).
Definition rfind_char (p : char -> bool) (s : str) : option (nat * char) :=
  List.find (fun ic => p ic.2) (rev (char_indices s)).

(** ** Lengths and boundaries *)

Lemma width_pos c : 1 <= width c.
Proof. unfold width. pose proof (Str.len_utf8_bounds c). lia. Qed.
Lemma width_ascii c : (c < 128)%N -> width c = 1.
Proof. intros Hc. unfold width, Str.len_utf8. by apply N.ltb_lt in Hc as ->. Qed.
Lemma blen_app a b : blen (a ++ b) = blen a + blen b.
Proof. induction a as [|c a IH]; simpl; [done|]. rewrite IH. lia. Qed.
Lemma blen_nil_iff s : blen s = 0 <-> s = [].
Proof. destruct s as [|c s]; simpl; [done|]. pose proof (width_pos c). split; [lia|done]. Qed.

Lemma split_at_Some n s p q : split_at n s = Some (p, q) <-> s = p ++ q /\ blen p = n.
Proof.
  revert s p q. induction n as [n IH] using lt_wf_ind. intros s p q.
  destruct n as [|n].
  { rewrite blen_nil_iff. assert (split_at 0 s = Some ([], s)) as -> by by destruct s.
    split; [by intros [= <- <-]|]. by intros [-> ->]. }
  destruct s as [|c s]; simpl.
  { split; [done|]. intros [Hs Hb]. destruct p; [simpl in Hb; lia|done]. }
  pose proof (width_pos c) as Hw. destruct (width c) as [|w] eqn:Hwc; [lia|].
  destruct (S w <=? S n) eqn:Hle.
  - apply Nat.leb_le in Hle. simpl. destruct (split_at (n - w) s) as [[p' q']|] eqn:Hs; simpl.
    + apply IH in Hs as [-> Hb]; [|lia]. split.
      * intros [= <- <-]. split; [done|]. simpl. lia.
      * intros [Heq Hbl]. destruct p as [|c' p]; [done|]. injection Heq as <- Heq. simpl in Hbl.
        assert (split_at (n - w) (p' ++ q') = Some (p, q)) as H1 by (apply IH; [lia|split; [done|lia]]).
        assert (split_at (n - w) (p' ++ q') = Some (p', q')) as H2 by (apply IH; [lia|split; [done|lia]]).
        rewrite H1 in H2. by injection H2 as -> ->.
    + split; [done|]. intros [Heq Hbl]. destruct p as [|c' p]; [done|]. injection Heq as <- Heq. simpl in Hbl.
      assert (split_at (n - w) s = Some (p, q)) as H1 by (apply IH; [lia|split; [done|lia]]). congruence.
  - apply Nat.leb_gt in Hle. split; [done|]. intros [Heq Hbl]. destruct p as [|c' p]; [done|].
    injection Heq as <- Heq. simpl in Hbl. lia.
Qed.
Lemma split_at_blen p q : split_at (blen p) (p ++ q) = Some (p, q).
Proof. by apply split_at_Some. Qed.
Lemma split_at_blen' n p q : n = blen p -> split_at n (p ++ q) = Some (p, q).
Proof. intros ->. apply split_at_blen. Qed.

(** [n] is a boundary between characters of [s]. *)
Definition boundary (n : nat) (s : str) : Prop := exists p q, s = p ++ q /\ blen p = n.
Lemma boundary_iff n s : is_char_boundary n s = true <-> boundary n s.
Proof.
  unfold is_char_boundary, boundary. destruct (split_at n s) as [[p q]|] eqn:Hs.
  - split; [|done]. intros _. exists p, q. by apply split_at_Some.
  - split; [done|]. intros (p & q & Heq). apply split_at_Some in Heq. congruence.
Qed.
Lemma boundary_split n s : boundary n s -> exists p q, split_at n s = Some (p, q) /\ s = p ++ q /\ blen p = n.
Proof. intros (p & q & Heq). exists p, q. split; [by apply split_at_Some|done]. Qed.
Lemma boundary_0 s : boundary 0 s.
Proof. by exists [], s. Qed.
Lemma boundary_blen s : boundary (blen s) s.
Proof. exists s, []. by rewrite app_nil_r. Qed.
Lemma boundary_le n s : boundary n s -> n <= blen s.
Proof. intros (p & q & -> & <-). rewrite blen_app. lia. Qed.
Lemma boundary_app p q n : boundary n p -> boundary n (p ++ q).
Proof. intros (a & b & -> & <-). exists a, (b ++ q). by rewrite app_assoc. Qed.
Lemma boundary_app_r p q n : boundary n q -> boundary (blen p + n) (p ++ q).
Proof. intros (a & b & -> & <-). exists (p ++ a), b. by rewrite app_assoc, blen_app. Qed.
Lemma boundary_at p q : boundary (blen p) (p ++ q).
Proof. by exists p, q. Qed.
(** Two ways to cut a text differ by the piece between them. *)
Lemma cuts_ordered (p q p' q' : str) :
  p ++ q = p' ++ q' -> blen p <= blen p' -> exists m, p' = p ++ m /\ q = m ++ q'.
Proof.
  revert p'. induction p as [|c p IH]; intros p' Heq Hle; [by exists p'|].
  destruct p' as [|c' p']; [simpl in Hle; pose proof (width_pos c); lia|].
  injection Heq as <- Heq. destruct (IH p' Heq) as (m & -> & ->); [simpl in Hle; lia|]. by exists m.
Qed.
Lemma boundary_two a b s :
  boundary a s -> boundary b s -> a <= b ->
  exists p m q, s = p ++ m ++ q /\ blen p = a /\ blen p + blen m = b.
Proof.
  intros (p & q & -> & <-) (p' & q' & Heq & <-) Hle.
  destruct (cuts_ordered p q p' q' Heq Hle) as (m & -> & ->). exists p, m, q'. by rewrite blen_app.
Qed.
Lemma boundary_app_inv_l p q n : boundary n (p ++ q) -> n <= blen p -> boundary n p.
Proof.
  intros (a & b & Heq & <-) Hle. destruct (cuts_ordered a b p q (eq_sym Heq) Hle) as (m & -> & ->). by exists a, m.
Qed.
Lemma boundary_app_inv_r p q n : boundary n (p ++ q) -> blen p <= n -> boundary (n - blen p) q.
Proof.
  intros (a & b & Heq & <-) Hle. destruct (cuts_ordered p q a b Heq Hle) as (m & -> & ->). exists m, b.
  rewrite blen_app. split; [done|lia].
Qed.

(** ** Slices *)

Lemma slice_to_app p q : slice_to (blen p) (p ++ q) = Some p.
Proof. unfold slice_to. by rewrite split_at_blen. Qed.
Lemma slice_from_app p q : slice_from (blen p) (p ++ q) = Some q.
Proof. unfold slice_from. by rewrite split_at_blen. Qed.
Lemma slice_between p m q : slice (blen p) (blen p + blen m) (p ++ m ++ q) = Some m.
Proof.
  unfold slice. rewrite <- blen_app, app_assoc, slice_to_app. simpl. by rewrite slice_from_app.
Qed.
Lemma slice_Some a b s m : slice a b s = Some m -> exists p q, s = p ++ m ++ q /\ blen p = a /\ blen p + blen m = b.
Proof.
  unfold slice, slice_to, slice_from. intros Hs. destruct (split_at b s) as [[pm q]|] eqn:Hb; [|done].
  simpl in Hs. destruct (split_at a pm) as [[p m']|] eqn:Ha; [|done]. simpl in Hs. injection Hs as ->.
  apply split_at_Some in Hb as [-> <-]. apply split_at_Some in Ha as [-> <-].
  exists p, q. by rewrite blen_app, app_assoc.
Qed.
Lemma slice_ok a b s : boundary a s -> boundary b s -> a <= b -> is_Some (slice a b s).
Proof.
  intros Ha Hb Hle. destruct (boundary_two a b s Ha Hb Hle) as (p & m & q & -> & <- & <-). rewrite slice_between. by eexists.
Qed.
Lemma insert_str_app p t q : insert_str (blen p) t (p ++ q) = Some (p ++ t ++ q).
Proof. unfold insert_str. by rewrite split_at_blen. Qed.
Lemma replace_range_app p m t q : replace_range (blen p) (blen p + blen m) t (p ++ m ++ q) = Some (p ++ t ++ q).
Proof.
  unfold replace_range. rewrite <- blen_app, app_assoc, split_at_blen. simpl. by rewrite split_at_blen.
Qed.

(** ** Searches *)

Lemma char_indices_app n a b : char_indices_from n (a ++ b) = char_indices_from n a ++ char_indices_from (n + blen a) b.
Proof.
  revert n. induction a as [|c a IH]; intros n; simpl; [by rewrite Nat.add_0_r|].
  rewrite IH. do 3 f_equal. lia.
Qed.
Lemma char_indices_elem n s i c :
  (i, c) ∈ char_indices_from n s -> exists a b, s = a ++ c :: b /\ i = n + blen a.
Proof.
  revert n. induction s as [|d s IH]; intros n Hi; simpl in Hi; [by apply elem_of_nil in Hi|].
  apply elem_of_cons in Hi as [[= -> ->]|Hi]; [exists [], s; split; [done|simpl; lia]|].
  destruct (IH _ Hi) as (a & b & -> & ->). exists (d :: a), b. split; [done|]. simpl. lia.
Qed.
Lemma find_elem {A} (f : A -> bool) l x : List.find f l = Some x -> x ∈ l /\ f x = true.
Proof. intros Hf. apply find_some in Hf as [Hin Hx]. split; [by apply list_elem_of_In|done]. Qed.
Lemma find_char_Some p s i :
  find_char p s = Some i -> exists a c b, s = a ++ c :: b /\ i = blen a /\ p c = true.
Proof.
  unfold find_char. intros Hf. apply fmap_Some in Hf as ([j c] & Hf & ->).
  apply find_elem in Hf as [Hin Hp]. destruct (char_indices_elem _ _ _ _ Hin) as (a & b & -> & ->).
  by exists a, c, b.
Qed.
Lemma find_char_first p s i :
  find_char p s = Some i -> exists a c b, s = a ++ c :: b /\ i = blen a /\ p c = true /\ Forall (fun d => p d = false) a.
Proof.
  unfold find_char, char_indices.
  assert (forall n, fst <$> List.find (fun ic => p ic.2) (char_indices_from n s) = Some (n + i) ->
    exists a c b, s = a ++ c :: b /\ i = blen a /\ p c = true /\ Forall (fun d => p d = false) a) as Hgen.
  { revert i. induction s as [|d s IH]; intros i n Hf; simpl in Hf; [done|].
    destruct (p d) eqn:Hd.
    - injection Hf as Hi. exists [], d, s. split_and!; [done|simpl; lia|done|constructor].
    - pose proof Hf as Hf'. apply fmap_Some in Hf' as ([j c] & Hf' & Hj). apply find_elem in Hf' as [Hin _].
      destruct (char_indices_elem _ _ _ _ Hin) as (a & b & _ & ->). simpl in Hj.
      destruct (IH (i - width d) (n + width d)) as (a' & c' & b' & -> & Hi & Hp & Ha).
      + rewrite Hf. f_equal. lia.
      + exists (d :: a'), c', b'. split_and!; [done|simpl; lia|done|by constructor]. }
  intros Hf. by apply (Hgen 0).
Qed.
Lemma find_char_None p s : find_char p s = None -> Forall (fun d => p d = false) s.
Proof.
  unfold find_char, char_indices. generalize 0. induction s as [|d s IH]; intros n Hf; [constructor|].
  simpl in Hf. destruct (p d) eqn:Hd; [done|]. constructor; [done|by eapply IH].
Qed.
Lemma rfind_char_Some p s i c :
  rfind_char p s = Some (i, c) -> exists a b, s = a ++ c :: b /\ i = blen a /\ p c = true.
Proof.
  unfold rfind_char. intros Hf. apply find_elem in Hf as [Hin Hp]. apply list_elem_of_In, in_rev, list_elem_of_In in Hin.
  destruct (char_indices_elem _ _ _ _ Hin) as (a & b & -> & ->). by exists a, b.
Qed.

End ByteText.
