(* ===== verification/TextKeys.v ===== *)
(** Key events and key bindings of the terminal interface ([tui/src/key_hint.rs]) and the
    bindings of the text area ([tui/src/keymap.rs]).  Keys and modifiers are those of
    crossterm: a key is a character or has a name, and modifiers are a bit set. *)
From S2P Require Import Prelude.

Module Keys.

Inductive KeyCode :=
| Char (c : char)
| Backspace | Enter | Left | Right | Up | Down | Home | End_ | Delete | Insert | Esc
| OtherKey (name : str).
#[global] Instance keycode_eq_dec : EqDecision KeyCode.
Proof. solve_decision. Defined.
Definition SHIFT : N := 1.
Definition CONTROL : N := 2.
Definition ALT : N := 4.
Inductive KeyEventKind := Press | Repeat | Release.
Record KeyEvent := mkKeyEvent { code : KeyCode; modifiers : N; kind : KeyEventKind }.
Definition pressed_kind (k : KeyEventKind) : bool := match k with Release => false | _ => true end.

(** Every bit of [m] is in [mods]. *)
Definition has_modifiers (mods m : N) : bool := (N.land mods m =? m)%N.
(** Outside Windows. *)
Definition is_altgr (mods : N) : bool := false.

Record KeyBinding := mkBinding { key : KeyCode; binding_modifiers : N }.
Definition plain (k : KeyCode) : KeyBinding := mkBinding k 0.
Definition alt (k : KeyCode) : KeyBinding := mkBinding k ALT.
Definition shift (k : KeyCode) : KeyBinding := mkBinding k SHIFT.
Definition ctrl (k : KeyCode) : KeyBinding := mkBinding k CONTROL.

Definition between (lo c hi : N) : bool := ((lo <=? c) && (c <=? hi))%N.
Definition c0_control_char_to_ctrl_char (c : char) : option char :=
  if (c =? 0)%N then Some 32%N
  else if between 1 c 26 then Some (c - 1 + 97)%N
  else if between 28 c 31 then Some (c - 28 + 52)%N
  else None.
Definition normalize_key_parts (k : KeyCode) (mods : N) : KeyCode * N :=
  match k with
  | Char c =>
      match (if (mods =? 0)%N then c0_control_char_to_ctrl_char c else None) with
      | Some ctrl_char => (Char ctrl_char, N.lor CONTROL mods)
      | None =>
          if between 65 c 90 then (Char (c + 32)%N, N.lor mods SHIFT) else (k, mods)
      end
  | _ => (k, mods)
  end.
Definition from_event (event : KeyEvent) : KeyBinding :=
  let '(k, mods) := normalize_key_parts (code event) (modifiers event) in mkBinding k mods.
Definition is_press (b : KeyBinding) (event : KeyEvent) : bool :=
  bool_decide (normalize_key_parts (key b) (binding_modifiers b) = normalize_key_parts (code event) (modifiers event))
  && pressed_kind (kind event).
Definition is_pressed (bs : list KeyBinding) (event : KeyEvent) : bool := existsb (fun b => is_press b event) bs.
Definition is_ascii_control (c : char) : bool := ((c <? 32) || (c =? 127))%N.
Definition is_plain_text_key_event (event : KeyEvent) : bool :=
  match code event with
  | Char c => negb (is_ascii_control c) && negb (has_modifiers (modifiers event) CONTROL)
              && negb (has_modifiers (modifiers event) ALT)
  | _ => false
  end.

(** ** Bindings of the text area *)

Record EditorKeymap := mkEditorKeymap {
  insert_newline : list KeyBinding; move_left : list KeyBinding; move_right : list KeyBinding;
  move_up : list KeyBinding; move_down : list KeyBinding; move_word_left : list KeyBinding;
  move_word_right : list KeyBinding; move_line_start : list KeyBinding; move_line_end : list KeyBinding;
  delete_backward_key : list KeyBinding; delete_forward_key : list KeyBinding;
  delete_backward_word_key : list KeyBinding; delete_forward_word_key : list KeyBinding;
  kill_line_start : list KeyBinding; kill_whole_line : list KeyBinding; kill_line_end : list KeyBinding;
  yank_key : list KeyBinding;
}.
Record VimNormalKeymap := mkVimNormalKeymap {
  enter_insert : list KeyBinding; append_after_cursor : list KeyBinding; append_line_end : list KeyBinding;
  insert_line_start : list KeyBinding; open_line_below : list KeyBinding; open_line_above : list KeyBinding;
  normal_left : list KeyBinding; normal_right : list KeyBinding; normal_up : list KeyBinding;
  normal_down : list KeyBinding; normal_word_forward : list KeyBinding; normal_word_backward : list KeyBinding;
  normal_word_end : list KeyBinding; normal_line_start : list KeyBinding; normal_line_end : list KeyBinding;
  delete_char : list KeyBinding; substitute_char : list KeyBinding; delete_to_line_end : list KeyBinding;
  change_to_line_end : list KeyBinding; normal_yank_line : list KeyBinding; paste_after : list KeyBinding;
  start_delete_operator : list KeyBinding; start_yank_operator : list KeyBinding;
  start_change_operator : list KeyBinding; cancel_operator : list KeyBinding;
}.
Record VimOperatorKeymap := mkVimOperatorKeymap {
  operator_delete_line : list KeyBinding; operator_yank_line : list KeyBinding; motion_left : list KeyBinding;
  motion_right : list KeyBinding; motion_up : list KeyBinding; motion_down : list KeyBinding;
  motion_word_forward : list KeyBinding; motion_word_backward : list KeyBinding; motion_word_end : list KeyBinding;
  motion_line_start : list KeyBinding; motion_line_end : list KeyBinding;
  select_inner_text_object : list KeyBinding; select_around_text_object : list KeyBinding;
  operator_cancel : list KeyBinding;
}.
Record VimTextObjectKeymap := mkVimTextObjectKeymap {
  object_word : list KeyBinding; object_big_word : list KeyBinding; object_parentheses : list KeyBinding;
  object_brackets : list KeyBinding; object_braces : list KeyBinding; object_double_quote : list KeyBinding;
  object_single_quote : list KeyBinding; object_backtick : list KeyBinding; object_cancel : list KeyBinding;
}.
(** The part of [RuntimeKeymap] the text area uses. *)
Record RuntimeKeymap := mkKeymap {
  editor : EditorKeymap; vim_normal : VimNormalKeymap;
  vim_operator : VimOperatorKeymap; vim_text_object : VimTextObjectKeymap;
}.

Definition letter (a : ascii) : KeyCode := Char (ch a).
Definition default_editor : EditorKeymap := {|
  insert_newline := [ctrl (letter "j"); ctrl (letter "m"); plain Enter; shift Enter; alt Enter];
  move_left := [plain Left; ctrl (letter "b")];
  move_right := [plain Right; ctrl (letter "f")];
  move_up := [plain Up; ctrl (letter "p")];
  move_down := [plain Down; ctrl (letter "n")];
  move_word_left := [alt (letter "b"); alt Left; ctrl Left];
  move_word_right := [alt (letter "f"); alt Right; ctrl Right];
  move_line_start := [plain Home; ctrl (letter "a")];
  move_line_end := [plain End_; ctrl (letter "e")];
  delete_backward_key := [plain Backspace; shift Backspace; ctrl (letter "h")];
  delete_forward_key := [plain Delete; shift Delete; ctrl (letter "d")];
  delete_backward_word_key :=
    [alt Backspace; ctrl Backspace; mkBinding Backspace (N.lor CONTROL SHIFT); ctrl (letter "w");
     mkBinding (letter "h") (N.lor CONTROL ALT)];
  delete_forward_word_key := [alt Delete; ctrl Delete; mkBinding Delete (N.lor CONTROL SHIFT); alt (letter "d")];
  kill_line_start := [ctrl (letter "u")];
  kill_whole_line := [];
  kill_line_end := [ctrl (letter "k")];
  yank_key := [ctrl (letter "y")];
|}.
Definition default_vim_normal : VimNormalKeymap := {|
  enter_insert := [plain (letter "i"); plain Insert];
  append_after_cursor := [plain (letter "a")];
  append_line_end := [shift (letter "a"); plain (letter "A")];
  insert_line_start := [shift (letter "i"); plain (letter "I")];
  open_line_below := [plain (letter "o")];
  open_line_above := [shift (letter "o"); plain (letter "O")];
  normal_left := [plain (letter "h"); plain Left];
  normal_right := [plain (letter "l"); plain Right];
  normal_up := [plain (letter "k"); plain Up];
  normal_down := [plain (letter "j"); plain Down];
  normal_word_forward := [plain (letter "w")];
  normal_word_backward := [plain (letter "b")];
  normal_word_end := [plain (letter "e")];
  normal_line_start := [plain (letter "0")];
  normal_line_end := [plain (letter "$"); shift (letter "$")];
  delete_char := [plain (letter "x")];
  substitute_char := [plain (letter "s")];
  delete_to_line_end := [shift (letter "d"); plain (letter "D")];
  change_to_line_end := [shift (letter "c"); plain (letter "C")];
  normal_yank_line := [shift (letter "y"); plain (letter "Y")];
  paste_after := [plain (letter "p")];
  start_delete_operator := [plain (letter "d")];
  start_yank_operator := [plain (letter "y")];
  start_change_operator := [plain (letter "c")];
  cancel_operator := [plain Esc];
|}.
Definition default_vim_operator : VimOperatorKeymap := {|
  operator_delete_line := [plain (letter "d")];
  operator_yank_line := [plain (letter "y")];
  motion_left := [plain (letter "h")];
  motion_right := [plain (letter "l")];
  motion_up := [plain (letter "k")];
  motion_down := [plain (letter "j")];
  motion_word_forward := [plain (letter "w")];
  motion_word_backward := [plain (letter "b")];
  motion_word_end := [plain (letter "e")];
  motion_line_start := [plain (letter "0")];
  motion_line_end := [plain (letter "$"); shift (letter "$")];
  select_inner_text_object := [plain (letter "i")];
  select_around_text_object := [plain (letter "a")];
  operator_cancel := [plain Esc];
|}.
Definition default_vim_text_object : VimTextObjectKeymap := {|
  object_word := [plain (letter "w")];
  object_big_word := [shift (letter "w"); plain (letter "W")];
  object_parentheses :=
    [plain (letter "("); shift (letter "("); plain (letter ")"); shift (letter ")"); plain (letter "b")];
  object_brackets := [plain (letter "["); plain (letter "]")];
  object_braces :=
    [plain (letter "{"); shift (letter "{"); plain (letter "}"); shift (letter "}"); shift (letter "b");
     plain (letter "B")];
  object_double_quote := [plain (Char dquote); shift (Char dquote)];
  object_single_quote := [plain (letter "'")];
  object_backtick := [plain (letter "`")];
  object_cancel := [plain Esc];
|}.
Definition built_in_defaults : RuntimeKeymap :=
  mkKeymap default_editor default_vim_normal default_vim_operator default_vim_text_object.

(** ** Matching *)

(** A binding matches an event exactly when both have the same parts after normalization. *)
Lemma is_press_from_event event k mods :
  pressed_kind (kind event) = true ->
  is_press (mkBinding k mods) event = bool_decide (normalize_key_parts k mods = normalize_key_parts (code event) (modifiers event)).
Proof. intros Hk. unfold is_press. simpl. by rewrite Hk, andb_true_r. Qed.
(** A released key matches nothing. *)
Lemma release_matches_nothing bs k mods : is_pressed bs (mkKeyEvent k mods Release) = false.
Proof.
  unfold is_pressed. induction bs as [|b bs IH]; simpl; [done|]. rewrite IH. unfold is_press. simpl.
  by rewrite andb_false_r.
Qed.

End Keys.
