(* ===== verification/TextArea.v ===== *)
(** The text area of the composer ([tui/src/bottom_pane/textarea.rs]): text, cursor,
    elements that are edited as one piece, the kill buffer and the cache of wrapped lines.
    Operations that can panic (a slice inside a character or beyond the end, an assertion)
    return an option.  Positions are below the size of memory, so their arithmetic does
    not wrap.  Segmentation and display width of Unicode text and the wrapping of lines
    are parameters, with their laws in [UnicodeLaws]. *)
From S2P Require Import Prelude ByteText TextKeys.

(** Third-party operations on text. *)
Module Unicode.
Import ByteText.

(** A line of [textwrap::wrap]: a slice of the text, or a string of its own. *)
Inductive WrappedLine :=
| Borrowed (from to_ : nat)
| Foreign (slice : str)
| Owned (line : str).

Class Unicode := {
  (** [GraphemeCursor::prev_boundary] and [next_boundary] with the whole text. *)
  prev_boundary : str -> nat -> result unit (option nat);
  next_boundary : str -> nat -> result unit (option nat);
  (** Graphemes, and the segments between word boundaries, with their offsets. *)
  grapheme_indices : str -> list (nat * str);
  split_word_bound_indices : str -> list (nat * str);
  (** Columns of a text on the screen. *)
  display_width : str -> nat;
  (** [textwrap::wrap] for a width, first fit. *)
  textwrap_wrap : str -> nat -> list WrappedLine;
}.
Class UnicodeLaws (U : Unicode) := {
  prev_boundary_law s n : boundary n s -> 0 < n -> exists b, prev_boundary s n = Ok (Some b) /\ boundary b s /\ b < n;
  next_boundary_law s n : boundary n s -> n < blen s -> exists b, next_boundary s n = Ok (Some b) /\ boundary b s /\ n < b;
  grapheme_indices_law s i g : (i, g) ∈ grapheme_indices s -> boundary i s;
  split_word_law s i w : (i, w) ∈ split_word_bound_indices s -> exists a b, s = a ++ w ++ b /\ blen a = i;
  wrap_law s w a b : Borrowed a b ∈ textwrap_wrap s w -> boundary a s /\ boundary b s /\ a <= b;
}.
End Unicode.

Module TextArea.
Import ByteText Unicode Keys.

(** ** Wrapped lines ([tui/src/wrapping.rs]) *)

Record Range := mkRange { start : nat; end_ : nat }.
#[global] Instance range_eq_dec : EqDecision Range.
Proof. solve_decision. Defined.

Definition first_char (s : str) : option char := head s.
(** The walk of an owned line against the source. *)
Fixpoint skip_spaces (fuel : nat) (text : str) (at_ : nat) : option nat :=
  match fuel with
  | 0 => None
  | S fuel =>
      if at_ <? blen text then
        rest ← slice_from at_ text;
        match first_char rest with
        | Some c => if (c =? 32)%N then skip_spaces fuel text (at_ + width c) else Some at_
        | None => Some at_
        end
      else Some at_
  end.
Fixpoint match_owned (text wrapped : str) (end_ : nat) (saw_source_char : bool) : option nat :=
  match wrapped with
  | [] => Some end_
  | c :: wrapped' =>
      src ← if end_ <? blen text then rest ← slice_from end_ text; s ← first_char rest; Some (Some s) else Some None;
      if bool_decide (src = Some c) then match_owned text wrapped' (end_ + width c) true
      else if (c =? 45)%N && bool_decide (wrapped' = []) then match_owned text wrapped' end_ saw_source_char
      else if negb saw_source_char then match_owned text wrapped' end_ saw_source_char
      else Some end_
  end.
(** Without a synthetic prefix, which the text area has none of. *)
Definition map_owned_wrapped_line_to_range (text : str) (cursor : nat) (wrapped : str) : option Range :=
  start ← if Str.starts_with [32%N] wrapped then Some cursor else skip_spaces (S (blen text)) text cursor;
  end_ ← match_owned text wrapped start false;
  Some (mkRange start end_).
Fixpoint leading_spaces (s : str) : nat :=
  match s with c :: s' => if (c =? 32)%N then S (leading_spaces s') else 0 | [] => 0 end.
Section area.
Context `{U : Unicode}.

Fixpoint wrap_from (text : str) (cursor : nat) (lines : list WrappedLine) : option (list Range) :=
  match lines with
  | [] => Some []
  | line :: lines =>
      range ← match line with
              | Borrowed a b => Some (mkRange a b)
              | Foreign slice | Owned slice => map_owned_wrapped_line_to_range text cursor slice
              end;
      rest ← slice_from (end_ range) text;
      let trailing_spaces := leading_spaces rest in
      ranges ← wrap_from text (end_ range + trailing_spaces) lines;
      Some (mkRange (start range) (end_ range + trailing_spaces + 1) :: ranges)
  end.
Definition wrap_ranges (text : str) (w : nat) : option (list Range) := wrap_from text 0 (textwrap_wrap text w).

(** ** Word pieces *)

Definition WORD_SEPARATORS : str := $"`~!@#$%^&*()-=+[{]}\|;:'" ++ [dquote] ++ $",.<>/?".
Definition is_word_separator (c : char) : bool := Str.contains_char c WORD_SEPARATORS.
Definition all_separators (s : str) : bool := forallb is_word_separator s.
(** The pieces of a segment: runs of separators and of other characters. *)
Fixpoint segment_pieces (piece_start at_ : nat) (piece : str) (in_separator : bool) (s : str) : list (nat * str) :=
  match s with
  | [] => [(piece_start, piece)]
  | c :: s' =>
      if Bool.eqb (is_word_separator c) in_separator
      then segment_pieces piece_start (at_ + width c) (piece ++ [c]) in_separator s'
      else (piece_start, piece) :: segment_pieces at_ (at_ + width c) [c] (is_word_separator c) s'
  end.
Definition split_segment (ws : nat * str) : list (nat * str) :=
  match snd ws with
  | [] => []
  | c :: s => segment_pieces (fst ws) (fst ws + width c) [c] (is_word_separator c) s
  end.
Definition split_word_pieces (run : str) : list (nat * str) := flat_map split_segment (split_word_bound_indices run).

(** ** State *)

Record TextElement := mkElement { element_id : N; range : Range; name : option str }.
Inductive KillBufferKind := Characterwise | Linewise.
Inductive VimMode := Normal | InsertMode.
Inductive VimOperator := OpDelete | OpYank | OpChange.
Inductive VimTextObjectScope := Inner | Around.
Inductive VimPending := PendingNone | PendingOperator (op : VimOperator) | PendingObject (op : VimOperator) (scope : VimTextObjectScope).
Record WrapCache := mkCache { cache_width : nat; cache_lines : list Range }.
Record TextArea := mkArea {
  text : str;
  cursor_pos : nat;
  wrap_cache : option WrapCache;
  preferred_col : option nat;
  elements : list TextElement;
  next_id : N;
  kill_buffer : str;
  kill_buffer_kind : KillBufferKind;
  vim_enabled : bool;
  vim_mode : VimMode;
  vim_pending : VimPending;
  keymap : RuntimeKeymap;
}.
Definition new : TextArea :=
  mkArea [] 0 None None [] 1 [] Characterwise false InsertMode PendingNone built_in_defaults.

Definition put_cursor (n : nat) (ta : TextArea) : TextArea :=
  mkArea (text ta) n (wrap_cache ta) (preferred_col ta) (elements ta) (next_id ta) (kill_buffer ta)
    (kill_buffer_kind ta) (vim_enabled ta) (vim_mode ta) (vim_pending ta) (keymap ta).
Definition put_col (c : option nat) (ta : TextArea) : TextArea :=
  mkArea (text ta) (cursor_pos ta) (wrap_cache ta) c (elements ta) (next_id ta) (kill_buffer ta)
    (kill_buffer_kind ta) (vim_enabled ta) (vim_mode ta) (vim_pending ta) (keymap ta).
Definition put_cache (c : option WrapCache) (ta : TextArea) : TextArea :=
  mkArea (text ta) (cursor_pos ta) c (preferred_col ta) (elements ta) (next_id ta) (kill_buffer ta)
    (kill_buffer_kind ta) (vim_enabled ta) (vim_mode ta) (vim_pending ta) (keymap ta).
Definition put_elements (es : list TextElement) (ta : TextArea) : TextArea :=
  mkArea (text ta) (cursor_pos ta) (wrap_cache ta) (preferred_col ta) es (next_id ta) (kill_buffer ta)
    (kill_buffer_kind ta) (vim_enabled ta) (vim_mode ta) (vim_pending ta) (keymap ta).
(** A new text: the cache of wrapped lines is dropped. *)
Definition put_text (t : str) (ta : TextArea) : TextArea :=
  mkArea t (cursor_pos ta) None (preferred_col ta) (elements ta) (next_id ta) (kill_buffer ta)
    (kill_buffer_kind ta) (vim_enabled ta) (vim_mode ta) (vim_pending ta) (keymap ta).
Definition put_mode (m : VimMode) (p : VimPending) (ta : TextArea) : TextArea :=
  mkArea (text ta) (cursor_pos ta) (wrap_cache ta) (preferred_col ta) (elements ta) (next_id ta) (kill_buffer ta)
    (kill_buffer_kind ta) (vim_enabled ta) m p (keymap ta).
Definition store_kill_buffer (t : str) (kind : KillBufferKind) (ta : TextArea) : TextArea :=
  mkArea (text ta) (cursor_pos ta) (wrap_cache ta) (preferred_col ta) (elements ta) (next_id ta) t kind
    (vim_enabled ta) (vim_mode ta) (vim_pending ta) (keymap ta).
Definition set_keymap_bindings (k : RuntimeKeymap) (ta : TextArea) : TextArea :=
  mkArea (text ta) (cursor_pos ta) (wrap_cache ta) (preferred_col ta) (elements ta) (next_id ta) (kill_buffer ta)
    (kill_buffer_kind ta) (vim_enabled ta) (vim_mode ta) (vim_pending ta) k.
Definition set_vim_enabled (enabled : bool) (ta : TextArea) : TextArea :=
  mkArea (text ta) (cursor_pos ta) (wrap_cache ta) (preferred_col ta) (elements ta) (next_id ta) (kill_buffer ta)
    (kill_buffer_kind ta) enabled (if enabled then Normal else InsertMode) PendingNone (keymap ta).
Definition enter_vim_insert_mode (ta : TextArea) : TextArea :=
  if vim_enabled ta then put_mode InsertMode PendingNone ta else ta.
Definition enter_vim_normal_mode (ta : TextArea) : TextArea :=
  if vim_enabled ta then put_col None (put_mode Normal PendingNone ta) else ta.
Definition is_vim_normal_mode (ta : TextArea) : bool :=
  vim_enabled ta && match vim_mode ta with Normal => true | InsertMode => false end.
Definition allows_paste_burst (ta : TextArea) : bool :=
  negb (vim_enabled ta) || match vim_mode ta with InsertMode => true | Normal => false end.
Definition uses_vim_insert_cursor (ta : TextArea) : bool :=
  vim_enabled ta && match vim_mode ta with InsertMode => true | Normal => false end.
Definition is_vim_operator_pending (ta : TextArea) : bool :=
  match vim_pending ta with PendingNone => false | _ => true end.
Definition should_handle_vim_insert_escape (event : KeyEvent) (ta : TextArea) : bool :=
  uses_vim_insert_cursor ta && bool_decide (code event = Esc) && (modifiers event =? 0)%N && pressed_kind (kind event).

(** ** Positions *)

Fixpoint down_to_boundary (n : nat) (t : str) : nat :=
  match n with 0 => 0 | S n' => if is_char_boundary n t then n else down_to_boundary n' t end.
Fixpoint up_to_boundary (fuel n : nat) (t : str) : nat :=
  match fuel with
  | 0 => n
  | S fuel => if (n <? blen t) && negb (is_char_boundary n t) then up_to_boundary fuel (S n) t else n
  end.
Definition clamp_pos_to_char_boundary (pos : nat) (ta : TextArea) : nat :=
  let pos := Nat.min pos (blen (text ta)) in
  if is_char_boundary pos (text ta) then pos
  else
    let prev := down_to_boundary pos (text ta) in
    let next := up_to_boundary (blen (text ta) - pos) pos (text ta) in
    if pos - prev <=? next - pos then prev else next.
Definition inside (pos : nat) (e : TextElement) : bool := (start (range e) <? pos) && (pos <? end_ (range e)).
Definition find_element_containing (pos : nat) (ta : TextArea) : option TextElement := List.find (inside pos) (elements ta).
(** The nearer edge of the element around a position. *)
Definition nearer_edge (pos : nat) (ta : TextArea) : nat :=
  match find_element_containing pos ta with
  | Some e =>
      if pos - start (range e) <=? end_ (range e) - pos
      then clamp_pos_to_char_boundary (start (range e)) ta
      else clamp_pos_to_char_boundary (end_ (range e)) ta
  | None => pos
  end.
Definition clamp_pos_to_nearest_boundary (pos : nat) (ta : TextArea) : nat :=
  nearer_edge (clamp_pos_to_char_boundary pos ta) ta.
Definition clamp_pos_for_insertion (pos : nat) (ta : TextArea) : nat :=
  nearer_edge (clamp_pos_to_char_boundary pos ta) ta.

(** One pass of [expand_range_to_element_boundaries], and its loop: every pass but the
    last brings the edges of another element in ([fuel] is one above their number). *)
Definition expand_one (r : Range) (e : TextElement) : Range :=
  if (start (range e) <? end_ r) && (start r <? end_ (range e))
  then mkRange (Nat.min (start r) (start (range e))) (Nat.max (end_ r) (end_ (range e)))
  else r.
Definition expand_pass (r : Range) (ta : TextArea) : Range := foldl expand_one r (elements ta).
Fixpoint expand_loop (fuel : nat) (r : Range) (ta : TextArea) : option Range :=
  match fuel with
  | 0 => None
  | S fuel => let r' := expand_pass r ta in if decide (r' = r) then Some r else expand_loop fuel r' ta
  end.
Definition expand_range_to_element_boundaries (r : Range) (ta : TextArea) : option Range :=
  expand_loop (S (S (2 * length (elements ta)))) r ta.

Definition shift_range (e : TextElement) (removed inserted : nat) : TextElement :=
  mkElement (element_id e) (mkRange (start (range e) + inserted - removed) (end_ (range e) + inserted - removed)) (name e).
Definition shift_element (at_ removed inserted : nat) (e : TextElement) : TextElement :=
  let end' := at_ + removed in
  if end_ (range e) <=? at_ then e
  else if end' <=? start (range e) then shift_range e removed inserted
  else mkElement (element_id e)
         (mkRange (Nat.min at_ (start (range e))) (at_ + Nat.max inserted (end_ (range e) - end'))) (name e).
Definition within (at_ end' : nat) (e : TextElement) : bool := (at_ <=? start (range e)) && (end_ (range e) <=? end').
Definition shift_elements (at_ removed inserted : nat) (ta : TextArea) : TextArea :=
  put_elements (shift_element at_ removed inserted
    <$> List.filter (fun e => negb (within at_ (at_ + removed) e)) (elements ta)) ta.
(** ** Edits *)

Definition insert_str_at (pos : nat) (t : str) (ta : TextArea) : option TextArea :=
  let pos := clamp_pos_for_insertion pos ta in
  text' ← ByteText.insert_str pos t (text ta);
  let ta := put_text text' ta in
  let ta := if pos <=? cursor_pos ta then put_cursor (cursor_pos ta + blen t) ta else ta in
  Some (put_col None (shift_elements pos 0 (blen t) ta)).
Definition insert_str (t : str) (ta : TextArea) : option TextArea := insert_str_at (cursor_pos ta) t ta.

Definition replace_range_raw (r : Range) (t : str) (ta : TextArea) : option TextArea :=
  if negb (start r <=? end_ r) then None
  else
    let start' := Nat.min (start r) (blen (text ta)) in
    let end' := Nat.min (end_ r) (blen (text ta)) in
    let removed_len := end' - start' in
    if (removed_len =? 0) && (blen t =? 0) then Some ta
    else
      text' ← ByteText.replace_range (start r) (end_ r) t (text ta);
      let ta := shift_elements start' removed_len (blen t) (put_col None (put_text text' ta)) in
      let cursor :=
        if cursor_pos ta <? start' then cursor_pos ta
        else if cursor_pos ta <=? end' then start' + blen t
        else cursor_pos ta + blen t - removed_len in
      let ta := put_cursor (Nat.min cursor (blen (text ta))) ta in
      Some (put_cursor (clamp_pos_to_nearest_boundary (cursor_pos ta) ta) ta).
Definition replace_range (r : Range) (t : str) (ta : TextArea) : option TextArea :=
  r ← expand_range_to_element_boundaries r ta; replace_range_raw r t ta.

Definition set_cursor (pos : nat) (ta : TextArea) : TextArea :=
  let ta := put_cursor (Nat.min pos (blen (text ta))) ta in
  put_col None (put_cursor (clamp_pos_to_nearest_boundary (cursor_pos ta) ta) ta).

(** The kill buffer. *)
Definition kill_range_with_kind (r : Range) (kind : KillBufferKind) (ta : TextArea) : option TextArea :=
  r ← expand_range_to_element_boundaries r ta;
  if end_ r <=? start r then Some ta
  else
    removed ← slice (start r) (end_ r) (text ta);
    if Str.is_empty removed then Some ta
    else replace_range_raw r [] (store_kill_buffer removed kind ta).
Definition kill_range (r : Range) : TextArea -> option TextArea := kill_range_with_kind r Characterwise.
Definition kill_line_range (r : Range) : TextArea -> option TextArea := kill_range_with_kind r Linewise.
Definition yank_range_with_kind (r : Range) (kind : KillBufferKind) (ta : TextArea) : option TextArea :=
  r ← expand_range_to_element_boundaries r ta;
  if end_ r <=? start r then Some ta
  else
    removed ← slice (start r) (end_ r) (text ta);
    Some (if Str.is_empty removed then ta else store_kill_buffer removed kind ta).
Definition yank_range (r : Range) : TextArea -> option TextArea := yank_range_with_kind r Characterwise.
Definition yank_line_range (r : Range) : TextArea -> option TextArea := yank_range_with_kind r Linewise.
Definition yank (ta : TextArea) : option TextArea :=
  if Str.is_empty (kill_buffer ta) then Some ta else insert_str (kill_buffer ta) ta.

(** ** Lines *)

Definition is_newline (c : char) : bool := (c =? newline)%N.
Definition beginning_of_line (pos : nat) (ta : TextArea) : option nat :=
  before ← slice_to pos (text ta);
  Some (match rfind_char is_newline before with Some (i, _) => i + 1 | None => 0 end).
Definition beginning_of_current_line (ta : TextArea) : option nat := beginning_of_line (cursor_pos ta) ta.
Definition end_of_line (pos : nat) (ta : TextArea) : option nat :=
  after ← slice_from pos (text ta);
  Some (match find_char is_newline after with Some i => i + pos | None => blen (text ta) end).
Definition end_of_current_line (ta : TextArea) : option nat := end_of_line (cursor_pos ta) ta.
Definition first_non_blank_of_current_line (ta : TextArea) : option nat :=
  bol ← beginning_of_current_line ta;
  eol ← end_of_current_line ta;
  line ← slice bol eol (text ta);
  Some (match find_char (fun c => negb (Str.is_whitespace c)) line with Some offset => bol + offset | None => eol end).
Definition current_line_range_with_newline (ta : TextArea) : option Range :=
  bol ← beginning_of_current_line ta;
  eol ← end_of_current_line ta;
  Some (mkRange bol (if eol <? blen (text ta) then eol + 1 else eol)).

(** ** Boundaries that keep elements whole *)

Definition prev_atomic_boundary (pos : nat) (ta : TextArea) : nat :=
  if pos =? 0 then 0
  else
    match List.find (fun e => (start (range e) <? pos) && (pos <=? end_ (range e))) (elements ta) with
    | Some e => start (range e)
    | None =>
        match prev_boundary (text ta) pos with
        | Ok (Some b) => match find_element_containing b ta with Some e => start (range e) | None => b end
        | Ok None => 0
        | Err _ => pos - 1
        end
    end.
Definition next_atomic_boundary (pos : nat) (ta : TextArea) : nat :=
  if blen (text ta) <=? pos then blen (text ta)
  else
    match List.find (fun e => (start (range e) <=? pos) && (pos <? end_ (range e))) (elements ta) with
    | Some e => end_ (range e)
    | None =>
        match next_boundary (text ta) pos with
        | Ok (Some b) => match find_element_containing b ta with Some e => end_ (range e) | None => b end
        | Ok None => blen (text ta)
        | Err _ => pos + 1
        end
    end.
Definition adjust_pos_out_of_elements (pos : nat) (prefer_start : bool) (ta : TextArea) : nat :=
  match find_element_containing pos ta with
  | Some e => if prefer_start then start (range e) else end_ (range e)
  | None => pos
  end.
Definition vim_normal_end_cursor (ta : TextArea) : nat :=
  if Str.is_empty (text ta) then 0 else prev_atomic_boundary (blen (text ta)) ta.

(** ** Words *)

Definition non_ws (c : char) : bool := negb (Str.is_whitespace c).
(** Over further pieces made of separators: the start or the end of the last one. *)
Fixpoint extend_back (start : nat) (run_start : nat) (pieces : list (nat * str)) : nat :=
  match pieces with
  | (idx, piece) :: pieces => if all_separators piece then extend_back (run_start + idx) run_start pieces else start
  | [] => start
  end.
Fixpoint extend_forward (end' : nat) (base : nat) (pieces : list (nat * str)) : nat :=
  match pieces with
  | (idx, piece) :: pieces => if all_separators piece then extend_forward (base + idx + blen piece) base pieces else end'
  | [] => end'
  end.
Definition beginning_of_previous_word (ta : TextArea) : option nat :=
  prefix ← slice_to (cursor_pos ta) (text ta);
  match rfind_char non_ws prefix with
  | None => Some 0
  | Some (first_non_ws_idx, c) =>
      before ← slice_to first_non_ws_idx prefix;
      let run_start := match rfind_char Str.is_whitespace before with Some (idx, d) => idx + width d | None => 0 end in
      let run_end := first_non_ws_idx + width c in
      run ← slice run_start run_end prefix;
      match rev (split_word_pieces run) with
      | [] => Some run_start
      | (piece_start, piece) :: pieces =>
          let start := run_start + piece_start in
          let start := if all_separators piece then extend_back start run_start pieces else start in
          Some (adjust_pos_out_of_elements start true ta)
      end
  end.
Definition end_of_next_word_from (pos : nat) (ta : TextArea) : option nat :=
  suffix ← slice_from pos (text ta);
  match find_char non_ws suffix with
  | None => Some (blen (text ta))
  | Some first_non_ws =>
      run ← slice_from first_non_ws suffix;
      run ← slice_to (match find_char Str.is_whitespace run with Some i => i | None => blen run end) run;
      match split_word_pieces run with
      | [] => Some (pos + first_non_ws)
      | (s, piece) :: pieces =>
          let word_start := pos + first_non_ws + s in
          let e := word_start + blen piece in
          let e := if all_separators piece then extend_forward e (pos + first_non_ws) pieces else e in
          Some (adjust_pos_out_of_elements e false ta)
      end
  end.
Definition end_of_next_word (ta : TextArea) : option nat := end_of_next_word_from (cursor_pos ta) ta.
Definition beginning_of_next_word (ta : TextArea) : option nat :=
  suffix ← slice_from (cursor_pos ta) (text ta);
  match find_char non_ws suffix with
  | None => Some (blen (text ta))
  | Some first_non_ws =>
      let word_start := cursor_pos ta + first_non_ws in
      if negb (word_start =? cursor_pos ta) then Some (adjust_pos_out_of_elements word_start true ta)
      else
        e ← end_of_next_word ta;
        if blen (text ta) <=? e then Some (blen (text ta))
        else
          rest ← slice_from e (text ta);
          match find_char non_ws rest with
          | None => Some (blen (text ta))
          | Some next_non_ws => Some (adjust_pos_out_of_elements (e + next_non_ws) true ta)
          end
  end.
Definition vim_word_end_exclusive (ta : TextArea) : option nat :=
  e ← end_of_next_word ta;
  let target := if cursor_pos ta <? e then prev_atomic_boundary e ta else e in
  if (target =? cursor_pos ta) && (e <? blen (text ta)) then end_of_next_word_from e ta else Some e.
Definition vim_word_end_cursor (ta : TextArea) : option nat :=
  e ← vim_word_end_exclusive ta; Some (if cursor_pos ta <? e then prev_atomic_boundary e ta else e).
Definition vim_line_end_cursor (ta : TextArea) : option nat :=
  bol ← beginning_of_current_line ta;
  eol ← end_of_current_line ta;
  Some (if bol <? eol then Nat.max (prev_atomic_boundary eol ta) bol else eol).

(** ** Deletion *)

(** [for _ in 0..n] with a break at the edge of the text. *)
Fixpoint atomic_steps (n : nat) (step : nat -> nat) (stop : nat -> bool) (target : nat) : nat :=
  match n with
  | 0 => target
  | S n => let target := step target in if stop target then target else atomic_steps n step stop target
  end.
Definition steps_back (n pos : nat) (ta : TextArea) : nat :=
  atomic_steps n (fun p => prev_atomic_boundary p ta) (fun p => p =? 0) pos.
Definition steps_forward (n pos : nat) (ta : TextArea) : nat :=
  atomic_steps n (fun p => next_atomic_boundary p ta) (fun p => blen (text ta) <=? p) pos.
Definition delete_backward (n : nat) (ta : TextArea) : option TextArea :=
  if (n =? 0) || (cursor_pos ta =? 0) then Some ta
  else replace_range (mkRange (steps_back n (cursor_pos ta) ta) (cursor_pos ta)) [] ta.
Definition delete_forward (n : nat) (ta : TextArea) : option TextArea :=
  if (n =? 0) || (blen (text ta) <=? cursor_pos ta) then Some ta
  else replace_range (mkRange (cursor_pos ta) (steps_forward n (cursor_pos ta) ta)) [] ta.
Definition delete_forward_kill (n : nat) (ta : TextArea) : option TextArea :=
  if (n =? 0) || (blen (text ta) <=? cursor_pos ta) then Some ta
  else kill_range (mkRange (cursor_pos ta) (steps_forward n (cursor_pos ta) ta)) ta.
Definition delete_backward_word (ta : TextArea) : option TextArea :=
  s ← beginning_of_previous_word ta; kill_range (mkRange s (cursor_pos ta)) ta.
Definition delete_forward_word (ta : TextArea) : option TextArea :=
  e ← end_of_next_word ta;
  if cursor_pos ta <? e then kill_range (mkRange (cursor_pos ta) e) ta else Some ta.
Definition kill_to_end_of_line (ta : TextArea) : option TextArea :=
  eol ← end_of_current_line ta;
  if cursor_pos ta =? eol
  then if eol <? blen (text ta) then kill_range (mkRange (cursor_pos ta) (eol + 1)) ta else Some ta
  else kill_range (mkRange (cursor_pos ta) eol) ta.
Definition vim_kill_to_end_of_line (ta : TextArea) : option TextArea :=
  eol ← end_of_current_line ta;
  if cursor_pos ta <? eol then kill_range (mkRange (cursor_pos ta) eol) ta else Some ta.
Definition kill_to_beginning_of_line (ta : TextArea) : option TextArea :=
  bol ← beginning_of_current_line ta;
  if cursor_pos ta =? bol
  then if 0 <? bol then kill_range (mkRange (bol - 1) bol) ta else Some ta
  else kill_range (mkRange bol (cursor_pos ta)) ta.
Definition yank_current_line (ta : TextArea) : option TextArea :=
  r ← current_line_range_with_newline ta; yank_line_range r ta.
Definition kill_current_line (ta : TextArea) : option TextArea :=
  r ← current_line_range_with_newline ta; kill_line_range r ta.
Definition paste_line_after_current_line (ta : TextArea) : option TextArea :=
  eol ← end_of_current_line ta;
  let inner := eol <? blen (text ta) in
  let insert_at := if inner then eol + 1 else eol in
  let cursor := if inner then insert_at else insert_at + 1 in
  let t :=
    if inner
    then if Str.ends_with [newline] (kill_buffer ta) then kill_buffer ta else kill_buffer ta ++ [newline]
    else newline :: Str.trim_end_by is_newline (kill_buffer ta) in
  ta ← insert_str_at insert_at t ta;
  Some (set_cursor (Nat.min cursor (blen (text ta))) ta).
Definition paste_after_cursor (ta : TextArea) : option TextArea :=
  if Str.is_empty (kill_buffer ta) then Some ta
  else match kill_buffer_kind ta with
       | Linewise => paste_line_after_current_line ta
       | Characterwise =>
           let ta := set_cursor (next_atomic_boundary (cursor_pos ta) ta) ta in insert_str (kill_buffer ta) ta
       end.

(** ** Movement *)

Definition move_cursor_left (ta : TextArea) : TextArea :=
  put_col None (put_cursor (prev_atomic_boundary (cursor_pos ta) ta) ta).
Definition move_cursor_right (ta : TextArea) : TextArea :=
  put_col None (put_cursor (next_atomic_boundary (cursor_pos ta) ta) ta).
(** The first grapheme that passes the column, if any. *)
Fixpoint col_offset (width_so_far target_col : nat) (gs : list (nat * str)) : option nat :=
  match gs with
  | [] => None
  | (i, g) :: gs =>
      let w := width_so_far + display_width g in
      if target_col <? w then Some i else col_offset w target_col gs
  end.
Definition move_to_display_col_on_line (line_start line_end target_col : nat) (ta : TextArea) : option TextArea :=
  line ← slice line_start line_end (text ta);
  let cursor := match col_offset 0 target_col (grapheme_indices line) with Some i => line_start + i | None => line_end end in
  let ta := put_cursor cursor ta in
  Some (put_cursor (clamp_pos_to_nearest_boundary cursor ta) ta).
(** [partition_point] on the starts of the lines, which are in order. *)
Fixpoint partition_point (pos : nat) (lines : list Range) : nat :=
  match lines with r :: lines => if start r <=? pos then S (partition_point pos lines) else 0 | [] => 0 end.
Definition wrapped_line_index_by_start (lines : list Range) (pos : nat) : option nat :=
  match partition_point pos lines with 0 => None | S i => Some i end.
Definition current_display_col (ta : TextArea) : option nat :=
  bol ← beginning_of_current_line ta; t ← slice bol (cursor_pos ta) (text ta); Some (display_width t).
(** With a cache of wrapped lines: the column, and the line to move to if there is one. *)
Definition visual_target (next : bool) (ta : TextArea) : option (option (nat * option Range)) :=
  match wrap_cache ta with
  | None => Some None
  | Some cache =>
      match wrapped_line_index_by_start (cache_lines cache) (cursor_pos ta) with
      | None => Some None
      | Some idx =>
          cur_range ← cache_lines cache !! idx;
          target_col ← match preferred_col ta with
                       | Some c => Some c
                       | None => t ← slice (start cur_range) (cursor_pos ta) (text ta); Some (display_width t)
                       end;
          Some (Some (target_col,
            line ← (if next then cache_lines cache !! S idx
                    else match idx with 0 => None | S i => cache_lines cache !! i end);
            Some (mkRange (start line) (end_ line - 1))))
      end
  end.
Definition move_to_visual (target_col : nat) (line : Range) (ta : TextArea) : option TextArea :=
  let ta := match preferred_col ta with None => put_col (Some target_col) ta | Some _ => ta end in
  move_to_display_col_on_line (start line) (end_ line) target_col ta.
(** The preferred column, set when there is none. *)
Definition logical_col (ta : TextArea) : option (nat * TextArea) :=
  match preferred_col ta with
  | Some c => Some (c, ta)
  | None => c ← current_display_col ta; Some (c, put_col (Some c) ta)
  end.
Definition move_cursor_up (ta : TextArea) : option TextArea :=
  visual ← visual_target false ta;
  match visual with
  | Some (target_col, Some line) => move_to_visual target_col line ta
  | Some (_, None) => Some (put_col None (put_cursor 0 ta))
  | None =>
      before ← slice_to (cursor_pos ta) (text ta);
      match rfind_char is_newline before with
      | Some (prev_nl, _) =>
          '(target_col, ta) ← logical_col ta;
          prev_line_start ← beginning_of_line prev_nl ta;
          move_to_display_col_on_line prev_line_start prev_nl target_col ta
      | None => Some (put_col None (put_cursor 0 ta))
      end
  end.
Definition move_cursor_down (ta : TextArea) : option TextArea :=
  visual ← visual_target true ta;
  match visual with
  | Some (target_col, Some line) => move_to_visual target_col line ta
  | Some (_, None) => Some (put_col None (put_cursor (blen (text ta)) ta))
  | None =>
      '(target_col, ta) ← logical_col ta;
      after ← slice_from (cursor_pos ta) (text ta);
      match find_char is_newline after with
      | Some i =>
          let next_line_start := i + cursor_pos ta + 1 in
          next_line_end ← end_of_line next_line_start ta;
          move_to_display_col_on_line next_line_start next_line_end target_col ta
      | None => Some (put_col None (put_cursor (blen (text ta)) ta))
      end
  end.
Definition move_cursor_to_beginning_of_line (move_up_at_bol : bool) (ta : TextArea) : option TextArea :=
  bol ← beginning_of_current_line ta;
  target ← if move_up_at_bol && (cursor_pos ta =? bol) then beginning_of_line (cursor_pos ta - 1) ta else Some bol;
  Some (put_col None (set_cursor target ta)).
Definition move_cursor_to_end_of_line (move_down_at_eol : bool) (ta : TextArea) : option TextArea :=
  eol ← end_of_current_line ta;
  target ← if move_down_at_eol && (cursor_pos ta =? eol)
           then end_of_line (Nat.min (cursor_pos ta + 1) (blen (text ta))) ta else Some eol;
  Some (set_cursor target ta).

(** ** Elements *)

Definition u64_max : N := 18446744073709551615.
Definition next_element_id (ta : TextArea) : N * TextArea :=
  (next_id ta,
   mkArea (text ta) (cursor_pos ta) (wrap_cache ta) (preferred_col ta) (elements ta)
     (N.min (next_id ta + 1) u64_max) (kill_buffer ta) (kill_buffer_kind ta) (vim_enabled ta) (vim_mode ta)
     (vim_pending ta) (keymap ta)).
(** [sort_by_key] is stable. *)
Fixpoint insert_by_start (e : TextElement) (es : list TextElement) : list TextElement :=
  match es with
  | [] => [e]
  | e' :: es' => if start (range e) <=? start (range e') then e :: es else e' :: insert_by_start e es'
  end.
Definition sort_by_start (es : list TextElement) : list TextElement := foldr insert_by_start [] es.
Definition add_element_with_id (r : Range) (name : option str) (ta : TextArea) : N * TextArea :=
  let '(id, ta) := next_element_id ta in (id, put_elements (sort_by_start (elements ta ++ [mkElement id r name])) ta).
Definition add_element (r : Range) (ta : TextArea) : N * TextArea := add_element_with_id r None ta.
Definition clamp_range (r : Range) (ta : TextArea) : Range :=
  mkRange (clamp_pos_to_char_boundary (Nat.min (start r) (blen (text ta))) ta)
          (clamp_pos_to_char_boundary (Nat.min (end_ r) (blen (text ta))) ta).

Definition set_text_inner (t : str) (new_elements : option (list Range)) (ta : TextArea) : TextArea :=
  let ta := put_text t ta in
  let ta := put_elements [] (put_cursor (Nat.min (cursor_pos ta) (blen t)) ta) in
  let ta :=
    match new_elements with
    | None => ta
    | Some rs =>
        let ta := foldl (fun ta r =>
          let r := clamp_range r ta in
          if end_ r <=? start r then ta
          else let '(id, ta) := next_element_id ta in put_elements (elements ta ++ [mkElement id r None]) ta) ta rs in
        put_elements (sort_by_start (elements ta)) ta
    end in
  put_col None (put_cursor (clamp_pos_to_nearest_boundary (cursor_pos ta) ta) ta).
Definition set_text_clearing_elements (t : str) : TextArea -> TextArea := set_text_inner t None.
Definition set_text_with_elements (t : str) (rs : list Range) : TextArea -> TextArea := set_text_inner t (Some rs).

Definition payload (e : TextElement) (ta : TextArea) : option str := slice (start (range e)) (end_ (range e)) (text ta).
Definition element_payloads (ta : TextArea) : list str := omap (fun e => payload e ta) (elements ta).
Definition text_elements (ta : TextArea) : list (Range * option str) := (fun e => (range e, payload e ta)) <$> elements ta.
Definition text_element_snapshots (ta : TextArea) : list (N * Range * str) :=
  omap (fun e => t ← payload e ta; Some (element_id e, range e, t)) (elements ta).
Definition element_id_for_exact_range (r : Range) (ta : TextArea) : option N :=
  element_id <$> List.find (fun e => bool_decide (range e = r)) (elements ta).

(** The other elements when the payload of one changes its length. *)
Definition shift_other (s e' inserted_len : nat) (e : TextElement) : TextElement :=
  if end_ (range e) <=? s then e
  else if e' <=? start (range e) then shift_range e (e' - s) inserted_len
  else mkElement (element_id e)
         (mkRange (Nat.min s (start (range e))) (Nat.max (s + inserted_len) (end_ (range e) + inserted_len - (e' - s))))
         (name e).
Definition replace_element_payload (old new_ : str) (ta : TextArea) : option (bool * TextArea) :=
  match list_find (fun e => payload e ta = Some old) (elements ta) with
  | None => Some (false, ta)
  | Some (idx, e) =>
      let s := start (range e) in
      let e' := end_ (range e) in
      if negb (s <=? e') || (blen (text ta) <? e') then Some (false, ta)
      else
        let inserted_len := blen new_ in
        text' ← ByteText.replace_range s e' new_ (text ta);
        let renamed := mkElement (element_id e) (mkRange s (s + inserted_len)) (name e) in
        let es := imap (fun j x =>
          if decide (j = idx) then renamed
          else if decide (inserted_len = e' - s) then x else shift_other s e' inserted_len x) (elements ta) in
        let ta := put_elements es (put_col None (put_text text' ta)) in
        let cursor :=
          if cursor_pos ta <? s then cursor_pos ta
          else if cursor_pos ta <=? e' then s + inserted_len
          else cursor_pos ta + inserted_len - (e' - s) in
        let ta := put_cursor (clamp_pos_to_nearest_boundary cursor ta) ta in
        Some (true, put_elements (sort_by_start (elements ta)) ta)
  end.
Definition insert_element (t : str) (ta : TextArea) : option (N * TextArea) :=
  let s := clamp_pos_for_insertion (cursor_pos ta) ta in
  ta ← insert_str_at s t ta;
  let e := s + blen t in
  let '(id, ta) := add_element (mkRange s e) ta in
  Some (id, set_cursor e ta).
Definition insert_named_element (t : str) (id : str) (ta : TextArea) : option TextArea :=
  let s := clamp_pos_for_insertion (cursor_pos ta) ta in
  ta ← insert_str_at s t ta;
  let e := s + blen t in
  Some (set_cursor e (snd (add_element_with_id (mkRange s e) (Some id) ta))).
Definition find_named (id : str) (ta : TextArea) : option TextElement :=
  List.find (fun e => bool_decide (name e = Some id)) (elements ta).
Definition replace_element_by_id (id t : str) (ta : TextArea) : option (bool * TextArea) :=
  match find_named id ta with
  | Some e =>
      ta ← replace_range_raw (range e) t ta;
      Some (true, put_elements (List.filter (fun e => negb (bool_decide (name e = Some id))) (elements ta)) ta)
  | None => Some (false, ta)
  end.
Definition update_named_element_by_id (id t : str) (ta : TextArea) : option (bool * TextArea) :=
  match find_named id ta with
  | Some e =>
      ta ← replace_range_raw (range e) t ta;
      Some (true, snd (add_element_with_id (mkRange (start (range e)) (start (range e) + blen t)) (Some id) ta))
  | None => Some (false, ta)
  end.
Definition named_element_range (id : str) (ta : TextArea) : option Range := range <$> find_named id ta.
Definition add_element_range (r : Range) (ta : TextArea) : option (N * TextArea) :=
  let r := clamp_range r ta in
  if end_ r <=? start r then None
  else if existsb (fun e => bool_decide (range e = r)) (elements ta) then None
  else if existsb (fun e => (start r <? end_ (range e)) && (start (range e) <? end_ r)) (elements ta) then None
  else Some (add_element r ta).
Definition remove_element_range (r : Range) (ta : TextArea) : bool * TextArea :=
  let r := clamp_range r ta in
  if end_ r <=? start r then (false, ta)
  else
    let es := List.filter (fun e => negb (bool_decide (range e = r))) (elements ta) in
    (negb (length (elements ta) =? length es), put_elements es ta).

(** ** The screen *)

Definition u16 (n : nat) : nat := n mod 65536.
(** Sums of 16-bit numbers; an overflow, which panics where overflow is checked, is [None]. *)
Definition add_u16 (a b : nat) : option nat := if a + b <? 65536 then Some (a + b) else None.
Definition wrapped_lines (w : nat) (ta : TextArea) : option (list Range * TextArea) :=
  match wrap_cache ta with
  | Some c =>
      if cache_width c =? w then Some (cache_lines c, ta)
      else lines ← wrap_ranges (text ta) w; Some (lines, put_cache (Some (mkCache w lines)) ta)
  | None => lines ← wrap_ranges (text ta) w; Some (lines, put_cache (Some (mkCache w lines)) ta)
  end.
Definition desired_height (w : nat) (ta : TextArea) : option (nat * TextArea) :=
  '(lines, ta) ← wrapped_lines w ta; Some (u16 (length lines), ta).
Definition effective_scroll (area_height : nat) (lines : list Range) (current_scroll : nat) (ta : TextArea) : option nat :=
  let total_lines := u16 (length lines) in
  if total_lines <=? area_height then Some 0
  else
    let cursor_line_idx := u16 (default 0 (wrapped_line_index_by_start lines (cursor_pos ta))) in
    let max_scroll := total_lines - area_height in
    let scroll := Nat.min current_scroll max_scroll in
    if cursor_line_idx <? scroll then Some cursor_line_idx
    else
      bottom ← add_u16 scroll area_height;
      if bottom <=? cursor_line_idx then below ← add_u16 cursor_line_idx 1; Some (below - area_height)
      else Some scroll.
Record Rect := mkRect { area_x : nat; area_y : nat; area_width : nat; area_height : nat }.
Definition cursor_pos_with_state (area : Rect) (state_scroll : nat) (ta : TextArea) : option (option (nat * nat) * TextArea) :=
  '(lines, ta) ← wrapped_lines (area_width area) ta;
  scroll ← effective_scroll (area_height area) lines state_scroll ta;
  match wrapped_line_index_by_start lines (cursor_pos ta) with
  | None => Some (None, ta)
  | Some i =>
      ls ← lines !! i;
      t ← slice (start ls) (cursor_pos ta) (text ta);
      let row := i - scroll in
      x ← add_u16 (area_x area) (u16 (display_width t));
      y ← add_u16 (area_y area) (if row <? 65536 then row else 0);
      Some (Some (x, y), ta)
  end.

(** ** Vim motions and text objects ([textarea/vim.rs]) *)

Inductive VimMotion :=
| MotionLeft | MotionRight | MotionUp | MotionDown | MotionWordForward | MotionWordBackward | MotionWordEnd
| MotionLineStart | MotionLineEnd.
Inductive VimTextObject :=
| Word | BigWord | Parentheses | Brackets | Braces | DoubleQuote | SingleQuote | Backtick.

Definition vim_text_object_scope_for_event (event : KeyEvent) (ta : TextArea) : option VimTextObjectScope :=
  let k := vim_operator (keymap ta) in
  if is_pressed (select_inner_text_object k) event then Some Inner
  else if is_pressed (select_around_text_object k) event then Some Around
  else None.
(** The first of the bindings that matches. *)
Fixpoint first_pressed {A} (table : list (list KeyBinding * A)) (event : KeyEvent) : option A :=
  match table with
  | (bs, a) :: table => if is_pressed bs event then Some a else first_pressed table event
  | [] => None
  end.
Definition vim_text_object_for_event (event : KeyEvent) (ta : TextArea) : option VimTextObject :=
  let k := vim_text_object (keymap ta) in
  first_pressed
    [(object_word k, Word); (object_big_word k, BigWord); (object_parentheses k, Parentheses);
     (object_brackets k, Brackets); (object_braces k, Braces); (object_double_quote k, DoubleQuote);
     (object_single_quote k, SingleQuote); (object_backtick k, Backtick)] event.
Definition vim_motion_for_event (event : KeyEvent) (ta : TextArea) : option VimMotion :=
  let k := vim_operator (keymap ta) in
  first_pressed
    [(motion_left k, MotionLeft); (motion_right k, MotionRight); (motion_down k, MotionDown); (motion_up k, MotionUp);
     (motion_word_forward k, MotionWordForward); (motion_word_backward k, MotionWordBackward);
     (motion_word_end k, MotionWordEnd); (motion_line_start k, MotionLineStart); (motion_line_end k, MotionLineEnd)] event.

(** Runs of characters that are no white space. *)
Fixpoint ws_runs (run_start : option nat) (at_ : nat) (t : str) : list Range :=
  match t with
  | [] => match run_start with Some s => [mkRange s at_] | None => [] end
  | c :: t' =>
      if Str.is_whitespace c
      then match run_start with Some s => [mkRange s at_] | None => [] end ++ ws_runs None (at_ + width c) t'
      else ws_runs (Some (default at_ run_start)) (at_ + width c) t'
  end.
Definition non_ws_runs (ta : TextArea) : list Range := ws_runs None 0 (text ta).
Definition cursor_overlaps_range (r : Range) (ta : TextArea) : bool :=
  (start r <=? cursor_pos ta) && (cursor_pos ta <? end_ r).
Definition cursor_is_at_range_end (r : Range) (ta : TextArea) : bool :=
  (start r <? end_ r) && (cursor_pos ta =? end_ r).
Definition big_word_range_at_cursor (ta : TextArea) : option Range :=
  List.find (fun r => cursor_overlaps_range r ta || cursor_is_at_range_end r ta) (non_ws_runs ta).
(** The piece under the cursor, or the last one. *)
Fixpoint piece_at (run_start : nat) (last_piece : option Range) (pieces : list (nat * str)) (ta : TextArea) : Range + option Range :=
  match pieces with
  | [] => inr last_piece
  | (piece_start, piece) :: pieces =>
      let r := mkRange (run_start + piece_start) (run_start + piece_start + blen piece) in
      if cursor_overlaps_range r ta then inl r else piece_at run_start (Some r) pieces ta
  end.
Fixpoint small_word_in (runs : list Range) (ta : TextArea) : option (option Range) :=
  match runs with
  | [] => Some None
  | run :: runs =>
      if negb (cursor_overlaps_range run ta) && negb (cursor_is_at_range_end run ta) then small_word_in runs ta
      else
        t ← slice (start run) (end_ run) (text ta);
        Some (Some match piece_at (start run) None (split_word_pieces t) ta with
                   | inl piece => piece
                   | inr last_piece =>
                       if cursor_is_at_range_end run ta then default run last_piece else run
                   end)
  end.
Definition small_word_range_at_cursor (ta : TextArea) : option (option Range) := small_word_in (non_ws_runs ta) ta.
Fixpoint leading_ws (t : str) : nat :=
  match t with c :: t' => if Str.is_whitespace c then width c + leading_ws t' else 0 | [] => 0 end.
Definition following_whitespace_end (pos : nat) (ta : TextArea) : option nat :=
  t ← slice_from pos (text ta); Some (pos + leading_ws t).
Definition preceding_whitespace_start (pos : nat) (ta : TextArea) : option nat :=
  t ← slice_to pos (text ta); Some (pos - leading_ws (rev t)).
Definition expand_word_around (inner : Range) (ta : TextArea) : option Range :=
  following ← following_whitespace_end (end_ inner) ta;
  if end_ inner <? following then Some (mkRange (start inner) following)
  else s ← preceding_whitespace_start (start inner) ta; Some (mkRange s (end_ inner)).
Definition word_text_object_range (scope : VimTextObjectScope) (big_word : bool) (ta : TextArea) : option (option Range) :=
  inner ← if big_word then Some (big_word_range_at_cursor ta) else small_word_range_at_cursor ta;
  match inner, scope with
  | None, _ => Some None
  | Some inner, Inner => Some (Some inner)
  | Some inner, Around => r ← expand_word_around inner ta; Some (Some r)
  end.
Definition is_inside_element (pos : nat) (ta : TextArea) : bool :=
  existsb (fun e => (start (range e) <=? pos) && (pos <? end_ (range e))) (elements ta).
Definition range_len (r : Range) : nat := end_ r - start r.
(** The candidate, when it is shorter than the best so far. *)
Definition better (candidate : Range) (best : option Range) : option Range :=
  if (start candidate <=? end_ candidate)
     && match best with None => true | Some current => range_len candidate <? range_len current end
  then Some candidate else best.
Fixpoint paired_loop (scope : VimTextObjectScope) (open close : char) (stack : list nat) (best : option Range)
    (cs : list (nat * char)) (ta : TextArea) : option Range :=
  match cs with
  | [] => best
  | (idx, c) :: cs =>
      if is_inside_element idx ta then paired_loop scope open close stack best cs ta
      else if (c =? open)%N then paired_loop scope open close (idx :: stack) best cs ta
      else if (c =? close)%N then
        match stack with
        | [] => paired_loop scope open close [] best cs ta
        | open_idx :: stack =>
            let best :=
              if (open_idx <=? cursor_pos ta) && (cursor_pos ta <=? idx)
              then better match scope with
                          | Inner => mkRange (open_idx + width open) idx
                          | Around => mkRange open_idx (idx + width c)
                          end best
              else best in
            paired_loop scope open close stack best cs ta
        end
      else paired_loop scope open close stack best cs ta
  end.
Definition paired_text_object_range (scope : VimTextObjectScope) (open close : char) (ta : TextArea) : option Range :=
  paired_loop scope open close [] None (char_indices (text ta)) ta.
Fixpoint leading_backslashes (t : str) : nat :=
  match t with c :: t' => if (c =? 92)%N then S (leading_backslashes t') else 0 | [] => 0 end.
Definition is_escaped (pos : nat) (ta : TextArea) : option bool :=
  t ← slice_to pos (text ta); Some (Nat.odd (leading_backslashes (rev t))).
Fixpoint quoted_loop (scope : VimTextObjectScope) (quote : char) (line_start : nat) (open : option nat)
    (best : option Range) (cs : list (nat * char)) (ta : TextArea) : option (option Range) :=
  match cs with
  | [] => Some best
  | (offset, c) :: cs =>
      let idx := line_start + offset in
      if is_inside_element idx ta || negb (c =? quote)%N then quoted_loop scope quote line_start open best cs ta
      else
        escaped ← is_escaped idx ta;
        if (escaped : bool) then quoted_loop scope quote line_start open best cs ta
        else
          match open with
          | Some open_idx =>
              let best :=
                if (open_idx <=? cursor_pos ta) && (cursor_pos ta <=? idx)
                then better match scope with
                            | Inner => mkRange (open_idx + width quote) idx
                            | Around => mkRange open_idx (idx + width quote)
                            end best
                else best in
              quoted_loop scope quote line_start None best cs ta
          | None => quoted_loop scope quote line_start (Some idx) best cs ta
          end
  end.
Definition quoted_text_object_range (scope : VimTextObjectScope) (quote : char) (ta : TextArea) : option (option Range) :=
  bol ← beginning_of_current_line ta;
  eol ← end_of_current_line ta;
  line ← slice bol eol (text ta);
  quoted_loop scope quote bol None None (char_indices line) ta.
Definition text_object_range (object : VimTextObject) (scope : VimTextObjectScope) (ta : TextArea) : option (option Range) :=
  match object with
  | Word => word_text_object_range scope false ta
  | BigWord => word_text_object_range scope true ta
  | Parentheses => Some (paired_text_object_range scope (ch "(") (ch ")") ta)
  | Brackets => Some (paired_text_object_range scope (ch "[") (ch "]") ta)
  | Braces => Some (paired_text_object_range scope (ch "{") (ch "}") ta)
  | DoubleQuote => quoted_text_object_range scope dquote ta
  | SingleQuote => quoted_text_object_range scope (ch "'") ta
  | Backtick => quoted_text_object_range scope (ch "`") ta
  end.

(** The position a motion would go to; the cursor and the column stay. *)
Definition target_for_motion (motion : VimMotion) (ta : TextArea) : option nat :=
  moved ← match motion with
          | MotionLeft => Some (move_cursor_left ta)
          | MotionRight => Some (move_cursor_right ta)
          | MotionUp => move_cursor_up ta
          | MotionDown => move_cursor_down ta
          | MotionWordForward => p ← beginning_of_next_word ta; Some (set_cursor p ta)
          | MotionWordBackward => p ← beginning_of_previous_word ta; Some (set_cursor p ta)
          | MotionWordEnd => p ← vim_word_end_exclusive ta; Some (set_cursor p ta)
          | MotionLineStart => p ← beginning_of_current_line ta; Some (set_cursor p ta)
          | MotionLineEnd => p ← end_of_current_line ta; Some (set_cursor p ta)
          end;
  Some (cursor_pos moved).
Definition linewise_range_for_vertical_motion (up : bool) (ta : TextArea) : option (option Range) :=
  current ← current_line_range_with_newline ta;
  r ← if (up : bool)
      then s ← (if start current =? 0 then Some (start current) else beginning_of_line (start current - 1) ta);
           Some (mkRange s (end_ current))
      else e ← (if blen (text ta) <=? end_ current then Some (end_ current)
                else next_eol ← end_of_line (end_ current) ta;
                     Some (if next_eol <? blen (text ta) then next_eol + 1 else next_eol));
           Some (mkRange (start current) e);
  Some (if start r <? end_ r then Some r else None).
Definition range_for_motion (motion : VimMotion) (ta : TextArea) : option (option Range) :=
  match motion with
  | MotionUp => linewise_range_for_vertical_motion true ta
  | MotionDown => linewise_range_for_vertical_motion false ta
  | _ =>
      target ← target_for_motion motion ta;
      let s := cursor_pos ta in
      Some (if s =? target then None else Some (if target <? s then mkRange target s else mkRange s target))
  end.
Definition apply_vim_operator (op : VimOperator) (motion : VimMotion) (ta : TextArea) : option TextArea :=
  r ← range_for_motion motion ta;
  match r with
  | None => Some ta
  | Some r => match op with OpDelete => kill_range r ta | OpYank => yank_range r ta | OpChange => Some ta end
  end.
Definition apply_vim_operator_to_range (op : VimOperator) (r : Range) (ta : TextArea) : option TextArea :=
  match op with
  | OpDelete => kill_range r ta
  | OpYank => yank_range r ta
  | OpChange => ta ← kill_range r ta; Some (put_mode InsertMode (vim_pending ta) ta)
  end.

(** ** Input *)

Definition set_mode (m : VimMode) (ta : TextArea) : TextArea := put_mode m (vim_pending ta) ta.
Definition set_pending (p : VimPending) (ta : TextArea) : TextArea := put_mode (vim_mode ta) p ta.

(** Which operation of the editor keymap an event selects, and what it does. *)
Definition input_with_keymap (event : KeyEvent) (k : EditorKeymap) (ta : TextArea) : option TextArea :=
  if is_pressed (insert_newline k) event then insert_str [newline] ta
  else if is_pressed (delete_backward_word_key k) event then delete_backward_word ta
  else if match code event with Char _ => is_altgr (modifiers event) | _ => false end
  then match code event with Char c => insert_str [c] ta | _ => Some ta end
  else if is_pressed (delete_backward_key k) event then delete_backward 1 ta
  else if is_pressed (delete_forward_word_key k) event then delete_forward_word ta
  else if is_pressed (delete_forward_key k) event then delete_forward 1 ta
  else if is_pressed (kill_line_start k) event then kill_to_beginning_of_line ta
  else if is_pressed (kill_whole_line k) event then kill_current_line ta
  else if is_pressed (kill_line_end k) event then kill_to_end_of_line ta
  else if is_pressed (yank_key k) event then yank ta
  else if is_pressed (move_word_left k) event then p ← beginning_of_previous_word ta; Some (set_cursor p ta)
  else if is_pressed (move_word_right k) event then p ← end_of_next_word ta; Some (set_cursor p ta)
  else if is_pressed (move_left k) event then Some (move_cursor_left ta)
  else if is_pressed (move_right k) event then Some (move_cursor_right ta)
  else if is_pressed (move_up k) event then move_cursor_up ta
  else if is_pressed (move_down k) event then move_cursor_down ta
  else if is_pressed (move_line_start k) event
  then move_cursor_to_beginning_of_line (bool_decide (code event = Char (ch "a")) && (modifiers event =? CONTROL)%N) ta
  else if is_pressed (move_line_end k) event
  then move_cursor_to_end_of_line (bool_decide (code event = Char (ch "e")) && (modifiers event =? CONTROL)%N) ta
  else
    match code event with
    | Char c =>
        if (modifiers event =? 0)%N || (modifiers event =? SHIFT)%N
        then if is_ascii_control c then Some ta else insert_str [c] ta
        else Some ta
    | _ => Some ta
    end.
Definition handle_vim_insert (event : KeyEvent) (ta : TextArea) : option TextArea :=
  if decide (code event = Esc) then
    bol ← beginning_of_current_line ta;
    let ta := if bol <? cursor_pos ta then put_cursor (Nat.max (prev_atomic_boundary (cursor_pos ta) ta) bol) ta else ta in
    Some (enter_vim_normal_mode ta)
  else input_with_keymap event (editor (keymap ta)) ta.
Definition handle_vim_operator (op : VimOperator) (event : KeyEvent) (ta : TextArea) : option TextArea :=
  let k := vim_operator (keymap ta) in
  if match op with OpDelete => is_pressed (operator_delete_line k) event | _ => false end then kill_current_line ta
  else if match op with OpYank => is_pressed (operator_yank_line k) event | _ => false end then yank_current_line ta
  else if is_pressed (operator_cancel k) event then Some ta
  else
    match vim_text_object_scope_for_event event ta with
    | Some scope => Some (set_pending (PendingObject op scope) ta)
    | None =>
        match op, vim_motion_for_event event ta with
        | OpChange, _ | _, None => Some ta
        | _, Some motion => apply_vim_operator op motion ta
        end
    end.
Definition handle_vim_text_object (op : VimOperator) (scope : VimTextObjectScope) (event : KeyEvent) (ta : TextArea) : option TextArea :=
  if is_pressed (object_cancel (vim_text_object (keymap ta))) event then Some ta
  else
    match vim_text_object_for_event event ta with
    | None => Some ta
    | Some object =>
        r ← text_object_range object scope ta;
        match r with Some r => apply_vim_operator_to_range op r ta | None => Some ta end
    end.
Definition open_line_below_cursor (ta : TextArea) : option TextArea :=
  eol ← end_of_current_line ta;
  let old_len := blen (text ta) in
  let insert_at := if eol <? old_len then eol + 1 else eol in
  ta ← insert_str_at insert_at [newline] ta;
  Some (set_mode InsertMode (set_cursor (if eol <? old_len then insert_at else insert_at + 1) ta)).
Definition open_line_above_cursor (ta : TextArea) : option TextArea :=
  bol ← beginning_of_current_line ta;
  ta ← insert_str_at bol [newline] ta;
  Some (set_mode InsertMode (set_cursor bol ta)).
(** A command of normal mode, with nothing pending. *)
Definition vim_command (event : KeyEvent) (ta : TextArea) : option TextArea :=
  let k := vim_normal (keymap ta) in
  if is_pressed (enter_insert k) event then Some (set_mode InsertMode ta)
  else if is_pressed (append_after_cursor k) event
  then Some (set_mode InsertMode (set_cursor (next_atomic_boundary (cursor_pos ta) ta) ta))
  else if is_pressed (append_line_end k) event
  then p ← end_of_current_line ta; Some (set_mode InsertMode (set_cursor p ta))
  else if is_pressed (insert_line_start k) event
  then p ← first_non_blank_of_current_line ta; Some (set_mode InsertMode (set_cursor p ta))
  else if is_pressed (open_line_below k) event then open_line_below_cursor ta
  else if is_pressed (open_line_above k) event then open_line_above_cursor ta
  else if is_pressed (normal_left k) event then Some (move_cursor_left ta)
  else if is_pressed (normal_right k) event then Some (move_cursor_right ta)
  else if is_pressed (normal_down k) event then move_cursor_down ta
  else if is_pressed (normal_up k) event then move_cursor_up ta
  else if is_pressed (normal_word_forward k) event then p ← beginning_of_next_word ta; Some (set_cursor p ta)
  else if is_pressed (normal_word_backward k) event then p ← beginning_of_previous_word ta; Some (set_cursor p ta)
  else if is_pressed (normal_word_end k) event then p ← vim_word_end_cursor ta; Some (set_cursor p ta)
  else if is_pressed (normal_line_start k) event then p ← beginning_of_current_line ta; Some (set_cursor p ta)
  else if is_pressed (normal_line_end k) event then p ← vim_line_end_cursor ta; Some (set_cursor p ta)
  else if is_pressed (delete_char k) event then delete_forward_kill 1 ta
  else if is_pressed (substitute_char k) event
  then eol ← end_of_current_line ta;
       ta ← if cursor_pos ta <? eol then delete_forward_kill 1 ta else Some ta;
       Some (set_mode InsertMode ta)
  else if is_pressed (delete_to_line_end k) event then vim_kill_to_end_of_line ta
  else if is_pressed (change_to_line_end k) event
  then ta ← vim_kill_to_end_of_line ta; Some (set_mode InsertMode ta)
  else if is_pressed (normal_yank_line k) event then yank_current_line ta
  else if is_pressed (paste_after k) event then paste_after_cursor ta
  else if is_pressed (start_delete_operator k) event then Some (set_pending (PendingOperator OpDelete) ta)
  else if is_pressed (start_yank_operator k) event then Some (set_pending (PendingOperator OpYank) ta)
  else if is_pressed (start_change_operator k) event then Some (set_pending (PendingOperator OpChange) ta)
  else if is_pressed (cancel_operator k) event then Some (set_pending PendingNone ta)
  else Some ta.
Definition handle_vim_normal (event : KeyEvent) (ta : TextArea) : option TextArea :=
  let pending := vim_pending ta in
  let ta := set_pending PendingNone ta in
  match pending with
  | PendingNone => vim_command event ta
  | PendingOperator op => handle_vim_operator op event ta
  | PendingObject op scope => handle_vim_text_object op scope event ta
  end.
Definition handle_vim_input (event : KeyEvent) (ta : TextArea) : option TextArea :=
  match vim_mode ta with InsertMode => handle_vim_insert event ta | Normal => handle_vim_normal event ta end.
Definition input (event : KeyEvent) (ta : TextArea) : option TextArea :=
  if negb (pressed_kind (kind event)) then Some ta
  else if vim_enabled ta then handle_vim_input event ta
  else input_with_keymap event (editor (keymap ta)) ta.

End area.
End TextArea.
