(* ===== verification/TextAreaEdits.v ===== *)
(** Edits of the text area: the invariant of its state, and what insertions, replacements
    and kills do to the text and to the elements in it. *)
From S2P Require Import Prelude ByteText TextKeys TextArea.

Module Edits.
Import ByteText Unicode Keys TextArea.

Section edits.
Context {U : Unicode} {UL : UnicodeLaws U}.

(** ** The invariant *)

Definition apart (e e' : TextElement) : Prop :=
  end_ (range e) <= start (range e') \/ end_ (range e') <= start (range e).
Definition element_ok (t : str) (e : TextElement) : Prop :=
  boundary (start (range e)) t /\ boundary (end_ (range e)) t /\ start (range e) < end_ (range e).
Record wf (ta : TextArea) : Prop := {
  cursor_ok : boundary (cursor_pos ta) (text ta);
  elements_ok : Forall (element_ok (text ta)) (elements ta);
  elements_apart : ForallOrdPairs apart (elements ta);
  cache_ok : forall c, wrap_cache ta = Some c -> wrap_ranges (text ta) (cache_width c) = Some (cache_lines c);
}.

Lemma apart_sym e e' : apart e e' -> apart e' e.
Proof. unfold apart. tauto. Qed.
Lemma pairs_filter {A} (R : A -> A -> Prop) f l : ForallOrdPairs R l -> ForallOrdPairs R (List.filter f l).
Proof.
  induction 1 as [|x l Hx Hl IH]; simpl; [constructor|]. destruct (f x); [|done]. constructor; [|done].
  rewrite Forall_forall in *. intros y Hy. apply Hx. apply list_elem_of_In, filter_In in Hy as [Hy _].
  by apply list_elem_of_In.
Qed.
Lemma pairs_fmap {A B} (R : A -> A -> Prop) (R' : B -> B -> Prop) (f : A -> B) l :
  ForallOrdPairs R l -> (forall x y, x ∈ l -> y ∈ l -> R x y -> R' (f x) (f y)) -> ForallOrdPairs R' (f <$> l).
Proof.
  induction 1 as [|x l Hx Hl IH]; intros Hf; simpl; [constructor|]. constructor.
  - apply Forall_fmap. rewrite Forall_forall in *. intros y Hy. apply Hf; [by left|by right|by apply Hx].
  - apply IH. intros y z Hy Hz. apply Hf; by right.
Qed.
Lemma pairs_elem {A} (R : A -> A -> Prop) l x y :
  (forall a b, R a b -> R b a) -> ForallOrdPairs R l -> x ∈ l -> y ∈ l -> x = y \/ R x y.
Proof.
  intros Hsym. induction 1 as [|z l Hz Hl IH]; intros Hx Hy; [by apply elem_of_nil in Hx|].
  rewrite Forall_forall in Hz. apply elem_of_cons in Hx as [->|Hx]; apply elem_of_cons in Hy as [->|Hy]; auto.
Qed.
Lemma pairs_perm {A} (R : A -> A -> Prop) l l' :
  (forall a b, R a b -> R b a) -> l ≡ₚ l' -> ForallOrdPairs R l -> ForallOrdPairs R l'.
Proof.
  intros Hsym. induction 1 as [|x l l' Hp IH|x y l|l1 l2 l3 _ IH1 _ IH2]; intros Hl; [done|..|auto].
  - inversion_clear Hl as [|? ? Hx Hl']. constructor; [by rewrite <- Hp|auto].
  - inversion_clear Hl as [|? ? Hx Hl']. inversion_clear Hl' as [|? ? Hy Hl''].
    apply Forall_cons in Hx as [Hxy Hx]. constructor; [constructor; auto|by constructor].
Qed.

(** ** Clamping *)

Definition not_inside (pos : nat) (es : list TextElement) : Prop :=
  Forall (fun e => pos <= start (range e) \/ end_ (range e) <= pos) es.
Lemma inside_spec pos e : inside pos e = true <-> start (range e) < pos < end_ (range e).
Proof. unfold inside. rewrite andb_true_iff, !Nat.ltb_lt. done. Qed.
Lemma find_inside pos ta e :
  find_element_containing pos ta = Some e -> e ∈ elements ta /\ start (range e) < pos < end_ (range e).
Proof. intros Hf. apply find_elem in Hf as [Hin Hi]. by rewrite <- inside_spec. Qed.
Lemma find_inside_None pos ta : find_element_containing pos ta = None -> not_inside pos (elements ta).
Proof.
  unfold find_element_containing. intros Hf. apply Forall_forall. intros e He.
  apply list_elem_of_In in He. pose proof (find_none _ _ Hf _ He) as Hi.
  destruct (decide (start (range e) < pos < end_ (range e))) as [Hin|]; [|lia]. apply inside_spec in Hin. congruence.
Qed.

Lemma down_to_boundary_ok n t : boundary (down_to_boundary n t) t.
Proof.
  induction n as [|n IH]; simpl; [apply boundary_0|]. destruct (is_char_boundary (S n) t) eqn:Hb; [|done].
  by apply boundary_iff.
Qed.
Lemma up_to_boundary_ok fuel n t : n <= blen t -> blen t <= n + fuel -> boundary (up_to_boundary fuel n t) t.
Proof.
  revert n. induction fuel as [|fuel IH]; intros n Hn Hf; simpl.
  - replace n with (blen t) by lia. apply boundary_blen.
  - destruct (n <? blen t) eqn:Hlt; simpl.
    + destruct (is_char_boundary n t) eqn:Hb; simpl; [by apply boundary_iff|]. apply Nat.ltb_lt in Hlt. apply IH; lia.
    + apply Nat.ltb_ge in Hlt. replace n with (blen t) by lia. apply boundary_blen.
Qed.
Lemma clamp_char_ok pos ta : boundary (clamp_pos_to_char_boundary pos ta) (text ta).
Proof.
  unfold clamp_pos_to_char_boundary. destruct (is_char_boundary _ _) eqn:Hb; [by apply boundary_iff|].
  destruct (_ <=? _); [apply down_to_boundary_ok|apply up_to_boundary_ok; lia].
Qed.
Lemma clamp_char_id pos ta : boundary pos (text ta) -> clamp_pos_to_char_boundary pos ta = pos.
Proof.
  intros Hb. unfold clamp_pos_to_char_boundary. rewrite Nat.min_l by by apply boundary_le.
  by apply boundary_iff in Hb as ->.
Qed.
Lemma element_in ta e : wf ta -> e ∈ elements ta -> element_ok (text ta) e.
Proof. intros [_ He _ _] Hin. rewrite Forall_forall in He. by apply He. Qed.
(** The edges of the elements are inside none. *)
Lemma edge_not_inside ta e :
  wf ta -> e ∈ elements ta -> not_inside (start (range e)) (elements ta) /\ not_inside (end_ (range e)) (elements ta).
Proof.
  intros Hwf Hin. pose proof (elements_apart _ Hwf) as Ha.
  split; apply Forall_forall; intros e' Hin'; pose proof (element_in ta e' Hwf Hin') as (_ & _ & Hlt);
    pose proof (element_in ta e Hwf Hin) as (_ & _ & Hlt');
    destruct (pairs_elem apart _ e e' apart_sym Ha Hin Hin') as [->|[?|?]]; lia.
Qed.
Lemma nearer_edge_ok pos ta :
  wf ta -> boundary pos (text ta) ->
  boundary (nearer_edge pos ta) (text ta) /\ not_inside (nearer_edge pos ta) (elements ta) /\
  (not_inside pos (elements ta) -> nearer_edge pos ta = pos).
Proof.
  intros Hwf Hb. unfold nearer_edge. destruct (find_element_containing pos ta) as [e|] eqn:Hf.
  - apply find_inside in Hf as [Hin Hi]. pose proof (element_in ta e Hwf Hin) as (Hs & He & _).
    destruct (edge_not_inside ta e Hwf Hin) as [Hns Hne]. split_and!.
    + destruct (_ <=? _); rewrite clamp_char_id; done.
    + destruct (_ <=? _); rewrite clamp_char_id; done.
    + intros Hn. unfold not_inside in Hn. rewrite Forall_forall in Hn. specialize (Hn e Hin). lia.
  - split_and!; [done|by apply find_inside_None|done].
Qed.
Lemma clamp_nearest_ok pos ta :
  wf ta -> boundary (clamp_pos_to_nearest_boundary pos ta) (text ta) /\
  not_inside (clamp_pos_to_nearest_boundary pos ta) (elements ta).
Proof.
  intros Hwf. unfold clamp_pos_to_nearest_boundary.
  destruct (nearer_edge_ok _ ta Hwf (clamp_char_ok pos ta)) as (? & ? & _). done.
Qed.
Lemma clamp_nearest_id pos ta :
  wf ta -> boundary pos (text ta) -> not_inside pos (elements ta) -> clamp_pos_to_nearest_boundary pos ta = pos.
Proof.
  intros Hwf Hb Hn. unfold clamp_pos_to_nearest_boundary. rewrite clamp_char_id by done. by apply nearer_edge_ok.
Qed.

(** ** Expansion *)

(** The element is outside the range, or all of it is in the range. *)
Definition clear_of (a b : nat) (e : TextElement) : Prop :=
  end_ (range e) <= a \/ b <= start (range e) \/ (a <= start (range e) /\ end_ (range e) <= b).
Lemma expand_one_cases r e :
  (start (range e) < end_ r /\ start r < end_ (range e) /\
   expand_one r e = mkRange (Nat.min (start r) (start (range e))) (Nat.max (end_ r) (end_ (range e)))) \/
  ((end_ r <= start (range e) \/ end_ (range e) <= start r) /\ expand_one r e = r).
Proof.
  unfold expand_one. destruct (start (range e) <? end_ r) eqn:H1; simpl.
  - destruct (start r <? end_ (range e)) eqn:H2.
    + apply Nat.ltb_lt in H1, H2. by left.
    + apply Nat.ltb_ge in H2. right. auto.
  - apply Nat.ltb_ge in H1. right. auto.
Qed.
Lemma expand_pass_ok t es seen r :
  Forall (element_ok t) (seen ++ es) -> ForallOrdPairs apart (seen ++ es) ->
  boundary (start r) t -> boundary (end_ r) t -> start r <= end_ r -> Forall (clear_of (start r) (end_ r)) seen ->
  let r' := foldl expand_one r es in
  boundary (start r') t /\ boundary (end_ r') t /\ start r' <= start r /\ end_ r <= end_ r' /\
  Forall (clear_of (start r') (end_ r')) (seen ++ es).
Proof.
  revert seen r. induction es as [|e es IH]; intros seen r Hok Hap Hs He Hle Hseen; simpl.
  { rewrite app_nil_r in *. by split_and!. }
  assert (e ∈ seen ++ e :: es) as Hin by (apply elem_of_app; right; by left).
  pose proof Hok as Hok'. rewrite Forall_forall in Hok'. destruct (Hok' e Hin) as (Hes & Hee & Helt).
  assert (boundary (start (expand_one r e)) t /\ boundary (end_ (expand_one r e)) t /\
    start (expand_one r e) <= start r /\ end_ r <= end_ (expand_one r e) /\
    Forall (clear_of (start (expand_one r e)) (end_ (expand_one r e))) (seen ++ [e])) as (Hs1 & He1 & Hle1 & Hge1 & Hc1).
  { destruct (expand_one_cases r e) as [(H1 & H2 & ->)|[H1 ->]]; simpl.
    - split_and!; [by destruct (Nat.min_spec (start r) (start (range e))) as [[_ ->]|[_ ->]]
        |by destruct (Nat.max_spec (end_ r) (end_ (range e))) as [[_ ->]|[_ ->]]|lia|lia|].
      apply Forall_app. split; [|constructor; [unfold clear_of; lia|constructor]].
      apply Forall_forall. intros e1 Hin1. rewrite Forall_forall in Hseen. specialize (Hseen e1 Hin1).
      assert (e1 ∈ seen ++ e :: es) as Hin1' by by apply elem_of_app; left.
      destruct (Hok' e1 Hin1') as (_ & _ & Hlt1).
      destruct (pairs_elem apart _ e e1 apart_sym Hap Hin Hin1') as [->|Hd]; unfold clear_of, apart in *; lia.
    - split_and!; [done..|]. apply Forall_app. split; [done|]. constructor; [unfold clear_of; lia|constructor]. }
  rewrite cons_middle, app_assoc in Hok, Hap |- *.
  destruct (IH (seen ++ [e]) (expand_one r e)) as (? & ? & ? & ? & ?); [done..|lia|done|]. split_and!; [done|done|lia|lia|done].
Qed.
Lemma expand_pass_stable es r : Forall (clear_of (start r) (end_ r)) es -> foldl expand_one r es = r.
Proof.
  induction 1 as [|e es He Hes IH]; simpl; [done|].
  assert (expand_one r e = r) as ->; [|done].
  destruct (expand_one_cases r e) as [(H1 & H2 & ->)|[H1 ->]]; [|done]. destruct r as [a b].
  unfold clear_of in He. simpl in *. f_equal; lia.
Qed.
Lemma expand_pass_least es r a b :
  not_inside a es -> not_inside b es -> a <= start r -> end_ r <= b ->
  a <= start (foldl expand_one r es) /\ end_ (foldl expand_one r es) <= b.
Proof.
  revert r. induction es as [|e es IH]; intros r Ha Hb Hs He; simpl; [done|].
  apply Forall_cons in Ha as [Ha1 Ha]. apply Forall_cons in Hb as [Hb1 Hb].
  apply IH; [done..| |]; destruct (expand_one_cases r e) as [(H1 & H2 & ->)|[_ ->]]; simpl; lia.
Qed.
Record expanded (ta : TextArea) (r r' : Range) : Prop := {
  expanded_start : boundary (start r') (text ta);
  expanded_end : boundary (end_ r') (text ta);
  expanded_left : start r' <= start r;
  expanded_right : end_ r <= end_ r';
  expanded_clear : Forall (clear_of (start r') (end_ r')) (elements ta);
  expanded_least a b : not_inside a (elements ta) -> not_inside b (elements ta) -> a <= start r -> end_ r <= b ->
    a <= start r' /\ end_ r' <= b;
}.
(** The least piece of the text that contains a range and cuts no element. *)
Definition grown (ta : TextArea) (r : Range) (a b : nat) : Prop :=
  a <= start r /\ end_ r <= b /\ not_inside a (elements ta) /\ not_inside b (elements ta) /\
  forall a' b', a' <= start r -> end_ r <= b' -> not_inside a' (elements ta) -> not_inside b' (elements ta) -> a' <= a /\ b <= b'.
Lemma expanded_grown ta r r' : wf ta -> start r <= end_ r -> expanded ta r r' -> grown ta r (start r') (end_ r').
Proof.
  intros Hwf Hle [_ _ Hl Hr Hc Hleast]. rewrite Forall_forall in Hc. split_and!; [done|done|..|by auto].
  - apply Forall_forall. intros e He. destruct (element_in ta e Hwf He) as (_ & _ & Hlt). destruct (Hc e He); lia.
  - apply Forall_forall. intros e He. destruct (element_in ta e Hwf He) as (_ & _ & Hlt). destruct (Hc e He); lia.
Qed.
Lemma expand_ok ta r :
  wf ta -> boundary (start r) (text ta) -> boundary (end_ r) (text ta) -> start r <= end_ r ->
  exists r', expand_range_to_element_boundaries r ta = Some r' /\ expanded ta r r'.
Proof.
  intros [_ Hok Hap _] Hs He Hle.
  destruct (expand_pass_ok (text ta) (elements ta) [] r) as (H1 & H2 & H3 & H4 & H5); [done..|].
  exists (expand_pass r ta). split; [|constructor; [done..|intros; by apply expand_pass_least]].
  unfold expand_range_to_element_boundaries. cbn [expand_loop]. fold (expand_pass r ta) in *.
  destruct (decide (expand_pass r ta = r)) as [->|_]; [done|].
  assert (expand_pass (expand_pass r ta) ta = expand_pass r ta) as -> by by apply expand_pass_stable.
  by destruct (decide _).
Qed.

(** ** What an edit does *)

(** Text [m] between [p] and [q] is replaced by [t]; every element is before it, after it
    or in it; those in it are removed, and those after it move with the text. *)
Definition edited_by (es es' : list TextElement) (s s' p m t q : str) : Prop :=
  s = p ++ m ++ q /\ s' = p ++ t ++ q /\ Forall (clear_of (blen p) (blen p + blen m)) es /\
  es' = shift_element (blen p) (blen m) (blen t)
          <$> List.filter (fun e => negb (within (blen p) (blen p + blen m) e)) es.
Definition edited (ta ta' : TextArea) : Prop :=
  exists p m t q, edited_by (elements ta) (elements ta') (text ta) (text ta') p m t q.

Lemma within_spec a b e : within a b e = true <-> a <= start (range e) /\ end_ (range e) <= b.
Proof. unfold within. rewrite andb_true_iff, !Nat.leb_le. done. Qed.

(** An element that is kept: whole, before or after the edit, with the same text. *)
Lemma kept_element p m t q e :
  element_ok (p ++ m ++ q) e -> clear_of (blen p) (blen p + blen m) e -> within (blen p) (blen p + blen m) e = false ->
  let e' := shift_element (blen p) (blen m) (blen t) e in
  element_ok (p ++ t ++ q) e' /\ element_id e' = element_id e /\ name e' = name e /\
  slice (start (range e')) (end_ (range e')) (p ++ t ++ q) = slice (start (range e)) (end_ (range e)) (p ++ m ++ q) /\
  ((end_ (range e) <= blen p /\ e' = e) \/
   (blen p + blen m <= start (range e) /\ start (range e') = start (range e) + blen t - blen m /\
    end_ (range e') = end_ (range e) + blen t - blen m)).
Proof.
  intros (Hs & He & Hlt) Hc Hw. destruct (boundary_two _ _ _ Hs He) as (x & y & z & Heq & Hx & Hxy); [lia|].
  assert (end_ (range e) <= blen p \/ blen p + blen m <= start (range e)) as [Hl|Hr].
  { destruct Hc as [?|[?|Hin]]; [auto..|]. apply within_spec in Hin. congruence. }
  - assert (shift_element (blen p) (blen m) (blen t) e = e) as ->.
    { unfold shift_element. by apply Nat.leb_le in Hl as ->. }
    destruct (cuts_ordered (x ++ y) z p (m ++ q)) as (w & -> & _); [by rewrite <- app_assoc|rewrite blen_app; lia|].
    simpl. split_and!; [|done|done| |by left].
    + repeat split; [..|done]; rewrite <- ?Hx, <- ?Hxy, <- ?blen_app, <- ?app_assoc; [apply boundary_at|].
      rewrite app_assoc. apply boundary_at.
    + rewrite Heq, <- !app_assoc. by rewrite <- Hx, <- Hxy, !slice_between.
  - assert (shift_element (blen p) (blen m) (blen t) e = shift_range e (blen m) (blen t)) as ->.
    { unfold shift_element. assert (end_ (range e) <=? blen p = false) as -> by (apply Nat.leb_gt; lia).
      by apply Nat.leb_le in Hr as ->. }
    destruct (cuts_ordered (p ++ m) q x (y ++ z)) as (w & -> & Hq); [by rewrite <- app_assoc|rewrite blen_app; lia|].
    subst q. rewrite !blen_app in *. simpl. split_and!; [|done|done| |by right].
    + assert (start (range e) + blen t - blen m = blen (p ++ t ++ w)) as Hs' by (rewrite !blen_app; lia).
      assert (end_ (range e) + blen t - blen m = blen ((p ++ t ++ w) ++ y)) as He' by (rewrite !blen_app; lia).
      repeat split; simpl; [rewrite Hs'|rewrite He'|lia].
      * replace (p ++ t ++ w ++ y ++ z) with ((p ++ t ++ w) ++ y ++ z) by by rewrite <- !app_assoc. apply boundary_at.
      * replace (p ++ t ++ w ++ y ++ z) with (((p ++ t ++ w) ++ y) ++ z) by by rewrite <- !app_assoc. apply boundary_at.
    + replace (p ++ t ++ w ++ y ++ z) with ((p ++ t ++ w) ++ y ++ z) by by rewrite <- !app_assoc.
      replace (p ++ m ++ w ++ y ++ z) with ((p ++ m ++ w) ++ y ++ z) by by rewrite <- !app_assoc.
      replace (start (range e) + blen t - blen m) with (blen (p ++ t ++ w)) by (rewrite !blen_app; lia).
      replace (end_ (range e) + blen t - blen m) with (blen (p ++ t ++ w) + blen y) by (rewrite !blen_app; lia).
      replace (start (range e)) with (blen (p ++ m ++ w)) by (rewrite !blen_app; lia).
      replace (end_ (range e)) with (blen (p ++ m ++ w) + blen y) by (rewrite !blen_app; lia).
      by rewrite !slice_between.
Qed.
Lemma elem_of_filterb {A} f (l : list A) x : x ∈ List.filter f l <-> x ∈ l /\ f x = true.
Proof. rewrite !list_elem_of_In. apply filter_In. Qed.
Lemma edited_elements es es' s s' p m t q :
  edited_by es es' s s' p m t q -> Forall (element_ok s) es -> ForallOrdPairs apart es ->
  Forall (element_ok s') es' /\ ForallOrdPairs apart es' /\ not_inside (blen p + blen t) es'.
Proof.
  intros (-> & -> & Hc & ->) Hok Hap. rewrite Forall_forall in Hok, Hc.
  assert (forall e, e ∈ List.filter (fun e => negb (within (blen p) (blen p + blen m) e)) es ->
    e ∈ es /\ within (blen p) (blen p + blen m) e = false) as Hin.
  { intros e [He Hw]%elem_of_filterb. by apply negb_true_iff in Hw. }
  split_and!.
  - apply Forall_fmap, Forall_forall. intros e [He Hw]%Hin. by apply kept_element; auto.
  - eapply pairs_fmap; [by apply pairs_filter|]. intros e1 e2 [H1 W1]%Hin [H2 W2]%Hin Ha.
    pose proof (Hok e1 H1) as (_ & _ & Hlt1). pose proof (Hok e2 H2) as (_ & _ & Hlt2).
    destruct (kept_element p m t q e1 (Hok e1 H1) (Hc e1 H1) W1) as (_ & _ & _ & _ & [[? ->]|(? & Hs1 & He1)]);
      destruct (kept_element p m t q e2 (Hok e2 H2) (Hc e2 H2) W2) as (_ & _ & _ & _ & [[? ->]|(? & Hs2 & He2)]);
      unfold apart in *; lia.
  - apply Forall_fmap, Forall_forall. intros e [He Hw]%Hin. simpl.
    destruct (kept_element p m t q e (Hok e He) (Hc e He) Hw) as (_ & _ & _ & _ & [[? ->]|(? & Hs & He')]); lia.
Qed.
(** A piece of nothing that is put nowhere. *)
Lemma clear_at es t n : Forall (element_ok t) es -> not_inside n es -> Forall (clear_of n n) es.
Proof.
  intros Hok Hn. apply Forall_forall. intros e He. unfold not_inside in Hn. rewrite Forall_forall in Hn.
  destruct (Hn e He); unfold clear_of; lia.
Qed.
Lemma edited_none es s p q :
  s = p ++ q -> Forall (element_ok s) es -> not_inside (blen p) es -> edited_by es es s s p [] [] q.
Proof.
  intros -> Hok Hn. split_and!; [done|done|simpl; rewrite Nat.add_0_r; by eapply clear_at|].
  induction es as [|e es IH]; [done|]. apply Forall_cons in Hok as [(Hs & He & Hlt) Hok].
  apply Forall_cons in Hn as [Hn1 Hn]. simpl.
  assert (within (blen p) (blen p + 0) e = false) as ->.
  { destruct (within _ _ _) eqn:Hw; [|done]. apply within_spec in Hw. lia. }
  simpl. f_equal; [|by apply IH]. unfold shift_element, shift_range.
  destruct (end_ (range e) <=? blen p) eqn:H1; [done|]. apply Nat.leb_gt in H1.
  assert (blen p + 0 <=? start (range e) = true) as -> by (apply Nat.leb_le; lia).
  destruct e as [i [a b] n]. simpl. repeat f_equal; lia.
Qed.
Lemma edited_same ta ta' :
  wf ta -> text ta' = text ta -> elements ta' = elements ta -> edited ta ta'.
Proof.
  intros [_ Hok _ _] Ht He. exists [], [], [], (text ta). rewrite Ht, He. apply edited_none; [done..|].
  apply Forall_forall. intros e _. left. simpl. lia.
Qed.

(** What edits leave alone. *)
Definition settings (ta : TextArea) :=
  (next_id ta, kill_buffer ta, kill_buffer_kind ta, vim_enabled ta, vim_mode ta, vim_pending ta, keymap ta).


Lemma wf_after_edit ta ta' p m t q :
  wf ta -> edited_by (elements ta) (elements ta') (text ta) (text ta') p m t q ->
  boundary (cursor_pos ta') (text ta') -> wrap_cache ta' = None -> wf ta'.
Proof.
  intros [_ Hok Hap _] Hed Hcur Hc. destruct (edited_elements _ _ _ _ _ _ _ _ Hed Hok Hap) as (? & ? & _).
  constructor; [done..|]. intros c Hc'. congruence.
Qed.
(** The cursor after an insertion at or before it, or behind it. *)
Lemma moved_boundary p t q n :
  boundary n (p ++ q) -> boundary (if blen p <=? n then n + blen t else n) (p ++ t ++ q).
Proof.
  intros Hn. destruct (blen p <=? n) eqn:Hle.
  - apply Nat.leb_le in Hle. apply boundary_app_inv_r in Hn; [|done].
    replace (n + blen t) with (blen p + (blen t + (n - blen p))) by lia. by do 2 apply boundary_app_r.
  - apply Nat.leb_gt in Hle. apply boundary_app. eapply boundary_app_inv_l; [done|lia].
Qed.
Lemma insert_str_at_spec pos t ta :
  wf ta -> exists p q ta', insert_str_at pos t ta = Some ta' /\ blen p = clamp_pos_for_insertion pos ta /\
    edited_by (elements ta) (elements ta') (text ta) (text ta') p [] t q /\ wf ta' /\ settings ta' = settings ta /\
    cursor_pos ta' = (if blen p <=? cursor_pos ta then cursor_pos ta + blen t else cursor_pos ta).
Proof.
  intros Hwf. pose proof Hwf as [Hcur Hok Hap _].
  destruct (nearer_edge_ok _ ta Hwf (clamp_char_ok pos ta)) as ((p & q & Htext & Hp) & Hn & _).
  fold (clamp_pos_for_insertion pos ta) in Hp, Hn. rewrite <- Hp in Hn.
  assert (exists ta', insert_str_at pos t ta = Some ta' /\ text ta' = p ++ t ++ q /\
    elements ta' = shift_element (blen p) 0 (blen t) <$> List.filter (fun e => negb (within (blen p) (blen p + 0) e)) (elements ta) /\
    wrap_cache ta' = None /\ settings ta' = settings ta /\
    cursor_pos ta' = (if blen p <=? cursor_pos ta then cursor_pos ta + blen t else cursor_pos ta))
    as (ta' & Hi & Ht & He & Hc & Hs & Hpos).
  { unfold insert_str_at. rewrite <- Hp, Htext, insert_str_app. cbn [mbind option_bind].
    eexists. split; [done|]. simpl. by destruct (blen p <=? cursor_pos ta). }
  assert (edited_by (elements ta) (elements ta') (text ta) (text ta') p [] t q) as Hed.
  { split_and!; [by rewrite Htext|done|simpl; rewrite Nat.add_0_r; by eapply clear_at|done]. }
  exists p, q, ta'. split_and!; [done..| |done|done]. eapply wf_after_edit; [done|exact Hed| |done].
  rewrite Hpos, Ht. apply moved_boundary. by rewrite <- Htext.
Qed.
Lemma replace_range_raw_spec r t ta p m q :
  wf ta -> text ta = p ++ m ++ q -> blen p = start r -> blen p + blen m = end_ r ->
  Forall (clear_of (start r) (end_ r)) (elements ta) ->
  exists ta', replace_range_raw r t ta = Some ta' /\
    edited_by (elements ta) (elements ta') (text ta) (text ta') p m t q /\ wf ta' /\ settings ta' = settings ta /\
    (start r <= cursor_pos ta <= end_ r -> 0 < blen m + blen t -> cursor_pos ta' = start r + blen t) /\
    (not_inside (cursor_pos ta) (elements ta) -> not_inside (cursor_pos ta') (elements ta')).
Proof.
  intros Hwf Htext Hp Hm Hclear. pose proof Hwf as [Hcur Hok Hap _].
  assert (start r <= end_ r) as Hle by lia.
  assert (boundary (start r) (text ta)) as Hs by (rewrite Htext, <- Hp; apply boundary_at).
  assert (boundary (end_ r) (text ta)) as He by (rewrite Htext, <- Hm, <- blen_app, app_assoc; apply boundary_at).
  unfold replace_range_raw. assert (start r <=? end_ r = true) as -> by by apply Nat.leb_le. simpl.
  rewrite !Nat.min_l by by apply boundary_le. replace (end_ r - start r) with (blen m) by lia.
  destruct ((blen m =? 0) && (blen t =? 0)) eqn:Hnone.
  { apply andb_true_iff in Hnone as [Hm0%Nat.eqb_eq Ht0%Nat.eqb_eq]. apply blen_nil_iff in Hm0, Ht0. subst m t. simpl in Hm, Htext.
    exists ta. split_and!; [done| |done|done|simpl; lia|done].
    apply edited_none; [done..|]. eapply Forall_impl; [exact Hclear|]. intros e. unfold clear_of. lia. }
  rewrite <- Hp, <- Hm, Htext, replace_range_app, <- Htext. cbn [mbind option_bind].
  set (cur := Nat.min (if cursor_pos _ <? _ then _ else _) _).
  set (ta1 := put_cursor cur (shift_elements _ _ _ _)).
  set (es' := shift_element (blen p) (blen m) (blen t) <$>
    List.filter (fun e => negb (within (blen p) (blen p + blen m) e)) (elements ta)).
  assert (edited_by (elements ta) es' (text ta) (p ++ t ++ q) p m t q) as Hed by (split_and!; [exact Htext|done|by rewrite Hm, Hp|done]).
  destruct (edited_elements _ _ _ _ _ _ _ _ Hed Hok Hap) as (Hok' & Hap' & Hn').
  assert (wf (put_cursor 0 ta1)) as Hwf1.
  { constructor; [apply boundary_0|exact Hok'|exact Hap'|done]. }
  destruct (clamp_nearest_ok (cursor_pos ta1) (put_cursor 0 ta1) Hwf1) as [Hb Hni].
  exists (put_cursor (clamp_pos_to_nearest_boundary (cursor_pos ta1) ta1) ta1).
  split_and!; [done|exact Hed| |done| |by intros _].
  - constructor; [exact Hb|exact Hok'|exact Hap'|done].
  - intros Hin Hpos.
    assert (cursor_pos ta1 = blen p + blen t) as Hcur1.
    { subst ta1 cur. simpl. assert (cursor_pos ta <? blen p = false) as -> by (apply Nat.ltb_ge; lia).
      assert (cursor_pos ta <=? blen p + blen m = true) as -> by (apply Nat.leb_le; lia).
      rewrite !blen_app. lia. }
    rewrite Hcur1. apply (clamp_nearest_id (blen p + blen t) (put_cursor 0 ta1)); [done| |exact Hn'].
    simpl. rewrite <- blen_app. rewrite app_assoc. apply boundary_at.
Qed.

(** ** Operations on a range *)

Lemma wf_same ta ta' :
  wf ta -> text ta' = text ta -> elements ta' = elements ta -> wrap_cache ta' = wrap_cache ta ->
  boundary (cursor_pos ta') (text ta) -> wf ta'.
Proof. intros [_ Hok Hap Hc] Ht He Hw Hb. constructor; rewrite ?Ht, ?He, ?Hw; done. Qed.
(** The cursor is inside no element. *)
Definition settled (ta : TextArea) : Prop := not_inside (cursor_pos ta) (elements ta).
(** What an operation must do: it does not panic, keeps the invariant, and makes one edit;
    and it brings the cursor into no element. *)
Definition safe (ta : TextArea) (r : option TextArea) : Prop := exists ta', r = Some ta' /\ wf ta' /\ edited ta ta'.
Definition good (ta : TextArea) (r : option TextArea) : Prop :=
  exists ta', r = Some ta' /\ wf ta' /\ edited ta ta' /\ (settled ta -> settled ta').
Lemma good_safe ta r : good ta r -> safe ta r.
Proof. intros (ta' & ? & ? & ? & _). by exists ta'. Qed.
Lemma safe_same ta ta' :
  wf ta -> text ta' = text ta -> elements ta' = elements ta -> wrap_cache ta' = wrap_cache ta ->
  boundary (cursor_pos ta') (text ta) -> safe ta (Some ta').
Proof. intros Hwf Ht He Hw Hb. exists ta'. split_and!; [done|by eapply wf_same|by apply edited_same]. Qed.
(** A new position: one that is inside no element, or the old one. *)
Definition fit (n : nat) (ta : TextArea) : Prop := n = cursor_pos ta \/ not_inside n (elements ta).
Lemma fit_settled ta ta' : elements ta' = elements ta -> fit (cursor_pos ta') ta -> settled ta -> settled ta'.
Proof. unfold settled. intros -> [->|Hn]; done. Qed.
Lemma good_same ta ta' :
  wf ta -> text ta' = text ta -> elements ta' = elements ta -> wrap_cache ta' = wrap_cache ta ->
  boundary (cursor_pos ta') (text ta) -> fit (cursor_pos ta') ta -> good ta (Some ta').
Proof.
  intros Hwf Ht He Hw Hb Hf. exists ta'. split_and!; [done|by eapply wf_same|by apply edited_same|by apply fit_settled].
Qed.
Lemma good_kept ta ta' :
  wf ta -> text ta' = text ta -> elements ta' = elements ta -> wrap_cache ta' = wrap_cache ta ->
  cursor_pos ta' = cursor_pos ta -> good ta (Some ta').
Proof. intros Hwf Ht He Hw Hc. apply good_same; [done..|rewrite Hc; by destruct Hwf|by left]. Qed.
Lemma good_refl ta : wf ta -> good ta (Some ta).
Proof. intros Hwf. by apply good_kept. Qed.
(** After a change of cursor, mode or column only. *)
Lemma good_after ta ta1 r :
  text ta1 = text ta -> elements ta1 = elements ta -> fit (cursor_pos ta1) ta -> good ta1 r -> good ta r.
Proof.
  intros Ht He Hf (ta' & Hr & Hwf & (p & m & t & q & Hed) & Hset). exists ta'. split_and!; [done|done| |].
  - exists p, m, t, q. by rewrite <- Ht, <- He.
  - intros Hs. apply Hset. by eapply fit_settled.
Qed.
Lemma good_then ta r f :
  good ta r -> (forall ta', wf ta' -> text (f ta') = text ta' /\ elements (f ta') = elements ta' /\
    wrap_cache (f ta') = wrap_cache ta' /\ boundary (cursor_pos (f ta')) (text ta') /\ fit (cursor_pos (f ta')) ta') ->
  good ta (ta' ← r; Some (f ta')).
Proof.
  intros (ta' & -> & Hwf & (p & m & t & q & Hed) & Hset) Hf. destruct (Hf ta' Hwf) as (Ht & He & Hw & Hb & Hfit).
  exists (f ta'). split_and!; [done|by eapply wf_same| |].
  - exists p, m, t, q. by rewrite Ht, He.
  - intros Hs. eapply fit_settled; [done..|]. by apply Hset.
Qed.
(** An insertion that is at or before the cursor moves it, one behind it does not. *)
Lemma inserted_settled es es' s s' p t q n :
  edited_by es es' s s' p [] t q -> Forall (element_ok s) es -> not_inside n es ->
  not_inside (if blen p <=? n then n + blen t else n) es'.
Proof.
  intros (-> & -> & Hc & ->) Hok Hn. apply Forall_fmap, Forall_forall. intros e [He Hw]%elem_of_filterb.
  unfold not_inside in Hn. rewrite Forall_forall in Hc, Hok, Hn. apply negb_true_iff in Hw. specialize (Hn e He).
  destruct (Hok e He) as (_ & _ & Hlt). unfold compose.
  destruct (kept_element p [] t q e (Hok e He) (Hc e He) Hw) as (_ & _ & _ & _ & [[Hl ->]|(Hl & Hs & He')]); simpl in *.
  - destruct (blen p <=? n) eqn:Hle; [apply Nat.leb_le in Hle; lia|done].
  - rewrite Hs, He'. destruct (blen p <=? n) eqn:Hle; [lia|apply Nat.leb_gt in Hle; lia].
Qed.

Lemma insert_good pos t ta : wf ta -> good ta (insert_str_at pos t ta).
Proof.
  intros Hwf. destruct (insert_str_at_spec pos t ta Hwf) as (p & q & ta' & -> & _ & Hed & Hwf' & _ & Hc).
  exists ta'. split_and!; [done..|by exists p, [], t, q|]. intros Hs. unfold settled. rewrite Hc.
  eapply inserted_settled; [exact Hed|by destruct Hwf|done].
Qed.
Lemma replace_spec r t ta :
  wf ta -> boundary (start r) (text ta) -> boundary (end_ r) (text ta) -> start r <= end_ r ->
  exists p m q ta', replace_range r t ta = Some ta' /\ wf ta' /\
    edited_by (elements ta) (elements ta') (text ta) (text ta') p m t q /\
    grown ta r (blen p) (blen p + blen m) /\ settings ta' = settings ta /\ (settled ta -> settled ta') /\
    (blen p <= cursor_pos ta <= blen p + blen m -> 0 < blen m + blen t -> cursor_pos ta' = blen p + blen t).
Proof.
  intros Hwf Hs He Hle. destruct (expand_ok ta r Hwf Hs He Hle) as (r' & Hr & Hx).
  pose proof (expanded_grown ta r r' Hwf Hle Hx) as Hgr. destruct Hx as [Hs' He' Hl Hg Hc _].
  unfold replace_range. rewrite Hr. simpl.
  destruct (boundary_two _ _ _ Hs' He') as (p & m & q & Htext & Hp & Hm); [lia|].
  destruct (replace_range_raw_spec r' t ta p m q Hwf Htext Hp Hm Hc) as (ta' & -> & Hed & Hwf' & Hset & Hcur & Hni).
  exists p, m, q, ta'. rewrite Hm, Hp. by split_and!.
Qed.
Lemma replace_good r t ta :
  wf ta -> boundary (start r) (text ta) -> boundary (end_ r) (text ta) -> start r <= end_ r -> good ta (replace_range r t ta).
Proof.
  intros Hwf Hs He Hle. destruct (replace_spec r t ta Hwf Hs He Hle) as (p & m & q & ta' & -> & Hwf' & Hed & _ & _ & Hset & _).
  exists ta'. split_and!; [done..|by exists p, m, t, q|done].
Qed.

Lemma kill_spec r kind ta :
  wf ta -> boundary (start r) (text ta) -> boundary (end_ r) (text ta) -> start r <= end_ r ->
  exists p m q ta', kill_range_with_kind r kind ta = Some ta' /\ wf ta' /\
    edited_by (elements ta) (elements ta') (text ta) (text ta') p m [] q /\
    grown ta r (blen p) (blen p + blen m) /\ vim_mode ta' = vim_mode ta /\ vim_pending ta' = vim_pending ta /\
    (m = [] -> ta' = ta) /\ (settled ta -> settled ta') /\
    (m <> [] -> kill_buffer ta' = m /\ kill_buffer_kind ta' = kind /\
       (blen p <= cursor_pos ta <= blen p + blen m -> cursor_pos ta' = blen p)).
Proof.
  intros Hwf Hs He Hle. destruct (expand_ok ta r Hwf Hs He Hle) as (r' & Hr & Hx). pose proof (expanded_grown ta r r' Hwf Hle Hx) as Hgr.
  destruct Hx as [Hs' He' Hl Hg Hc _].
  unfold kill_range_with_kind. rewrite Hr. cbn [mbind option_bind].
  destruct (boundary_two _ _ _ Hs' He') as (p & m & q & Htext & Hp & Hm); [lia|].
  destruct (end_ r' <=? start r') eqn:Hempty.
  { apply Nat.leb_le in Hempty. assert (m = []) as -> by (apply blen_nil_iff; lia). simpl in Htext, Hm.
    exists p, [], q, ta. split_and!; [done|done| |cbn [blen]; by rewrite Hm, Hp|done..].
    apply edited_none; [done|by destruct Hwf|]. eapply Forall_impl; [exact Hc|]. intros e. unfold clear_of. lia. }
  apply Nat.leb_gt in Hempty. rewrite Htext, <- Hp, <- Hm, slice_between, <- Htext. cbn [mbind option_bind].
  assert (m <> []) as Hne by (intros ->; simpl in Hm; lia).
  assert (Str.is_empty m = false) as -> by by destruct m.
  destruct (replace_range_raw_spec r' [] (store_kill_buffer m kind ta) p m q) as (ta' & Hrr & Hed & Hwf' & Hset & Hcur & Hni);
    [by destruct Hwf|done..|].
  injection Hset as Hid Hkb Hkk Hve Hvm Hvp Hkm.
  exists p, m, q, ta'. split_and!; [exact Hrr|done|exact Hed|by rewrite Hm, Hp|done|done|done|exact Hni|].
  intros _. split_and!; [done|done|]. intros Hin. rewrite Hp. rewrite (Hcur ltac:(simpl; lia)); [simpl; lia|].
  simpl. lia.
Qed.
Lemma kill_good r kind ta :
  wf ta -> boundary (start r) (text ta) -> boundary (end_ r) (text ta) -> start r <= end_ r ->
  good ta (kill_range_with_kind r kind ta).
Proof.
  intros Hwf Hs He Hle. destruct (kill_spec r kind ta Hwf Hs He Hle) as (p & m & q & ta' & -> & Hwf' & Hed & _ & _ & _ & _ & Hset & _).
  exists ta'. split_and!; [done..|by exists p, m, [], q|done].
Qed.
Lemma yank_range_good r kind ta :
  wf ta -> boundary (start r) (text ta) -> boundary (end_ r) (text ta) -> start r <= end_ r ->
  good ta (yank_range_with_kind r kind ta).
Proof.
  intros Hwf Hs He Hle. destruct (expand_ok ta r Hwf Hs He Hle) as (r' & Hr & [Hs' He' Hl Hg Hc _]).
  unfold yank_range_with_kind. rewrite Hr. cbn [mbind option_bind].
  destruct (end_ r' <=? start r'); [by apply good_refl|].
  destruct (slice_ok _ _ _ Hs' He') as [t ->]; [lia|]. cbn [mbind option_bind].
  destruct (Str.is_empty t); [by apply good_refl|]. by apply good_kept.
Qed.
Lemma set_cursor_ok pos ta :
  wf ta -> wf (set_cursor pos ta) /\ text (set_cursor pos ta) = text ta /\ elements (set_cursor pos ta) = elements ta /\
  settings (set_cursor pos ta) = settings ta.
Proof.
  intros Hwf. assert (wf (put_cursor 0 (put_cursor (Nat.min pos (blen (text ta))) ta))) as Hwf0.
  { eapply wf_same; [exact Hwf|done..|apply boundary_0]. }
  split_and!; [|done..]. eapply wf_same; [exact Hwf|done..|].
  by destruct (clamp_nearest_ok (Nat.min pos (blen (text ta))) _ Hwf0).
Qed.
Lemma set_cursor_settled pos ta : wf ta -> settled (set_cursor pos ta).
Proof.
  intros Hwf. assert (wf (put_cursor 0 (put_cursor (Nat.min pos (blen (text ta))) ta))) as Hwf0.
  { eapply wf_same; [exact Hwf|done..|apply boundary_0]. }
  by destruct (clamp_nearest_ok (Nat.min pos (blen (text ta))) _ Hwf0).
Qed.
Lemma set_cursor_good pos ta : wf ta -> good ta (Some (set_cursor pos ta)).
Proof.
  intros Hwf. destruct (set_cursor_ok pos ta Hwf) as (H1 & H2 & H3 & _).
  exists (set_cursor pos ta). split_and!; [done..|by apply edited_same|]. intros _. by apply set_cursor_settled.
Qed.
(** Where the cursor goes when the position is allowed. *)
Lemma set_cursor_at pos ta :
  wf ta -> boundary pos (text ta) -> not_inside pos (elements ta) -> cursor_pos (set_cursor pos ta) = pos.
Proof.
  intros Hwf Hb Hn. unfold set_cursor. simpl. rewrite Nat.min_l by by apply boundary_le.
  apply clamp_nearest_id; [|done..]. by eapply wf_same.
Qed.

End edits.
End Edits.
