(* ===== verification/TextAreaMoves.v ===== *)
(** Positions the text area moves to or edits up to: lines, graphemes and elements, words,
    and wrapped lines.  All of them are boundaries between characters, on the side of the
    cursor where they should be. *)
From S2P Require Import Prelude ByteText TextKeys TextArea TextAreaEdits.

Module Moves.
Import ByteText Unicode Keys TextArea Edits.

Section moves.
Context {U : Unicode} {UL : UnicodeLaws U}.

(** ** Lines *)

Lemma newline_width c : is_newline c = true -> width c = 1.
Proof. intros Hc. apply N.eqb_eq in Hc as ->. by apply width_ascii. Qed.
Lemma beginning_of_line_ok pos ta :
  boundary pos (text ta) ->
  exists b, beginning_of_line pos ta = Some b /\ boundary b (text ta) /\ b <= pos /\ (0 < b -> boundary (b - 1) (text ta)).
Proof.
  intros Hb. destruct (boundary_split _ _ Hb) as (p & q & Hs & Ht & Hp). unfold beginning_of_line, slice_to.
  rewrite Hs. simpl. destruct (rfind_char is_newline p) as [[i c]|] eqn:Hf.
  - destruct (rfind_char_Some _ _ _ _ Hf) as (a & b & -> & -> & Hc). exists (blen a + 1). pose proof (newline_width c Hc) as Hw.
    rewrite blen_app in Hp. simpl in Hp. rewrite Ht. split_and!; [done| |lia|].
    + replace (blen a + 1) with (blen (a ++ [c])) by (rewrite blen_app; simpl; lia).
      replace ((a ++ c :: b) ++ q) with ((a ++ [c]) ++ b ++ q) by (rewrite <- !app_assoc; done). apply boundary_at.
    + intros _. replace (blen a + 1 - 1) with (blen a) by lia. rewrite <- app_assoc. apply boundary_at.
  - exists 0. split_and!; [done|apply boundary_0|lia|lia].
Qed.
Lemma end_of_line_ok pos ta :
  boundary pos (text ta) ->
  exists e, end_of_line pos ta = Some e /\ boundary e (text ta) /\ pos <= e /\
    (e < blen (text ta) -> boundary (e + 1) (text ta)).
Proof.
  intros Hb. destruct (boundary_split _ _ Hb) as (p & q & Hs & Ht & Hp). unfold end_of_line, slice_from.
  rewrite Hs. simpl. destruct (find_char is_newline q) as [i|] eqn:Hf.
  - destruct (find_char_Some _ _ _ Hf) as (a & c & b & -> & -> & Hc). pose proof (newline_width c Hc) as Hw.
    exists (blen a + pos). rewrite Ht. split_and!; [done| |lia|].
    + replace (blen a + pos) with (blen (p ++ a)) by (rewrite blen_app; lia). rewrite app_assoc. apply boundary_at.
    + intros _. replace (blen a + pos + 1) with (blen (p ++ a ++ [c])) by (rewrite !blen_app; simpl; lia).
      replace (p ++ a ++ c :: b) with ((p ++ a ++ [c]) ++ b) by (rewrite <- !app_assoc; done). apply boundary_at.
  - exists (blen (text ta)). split_and!; [done|apply boundary_blen|by apply boundary_le|lia].
Qed.
Lemma bol_ok ta : wf ta -> exists b, beginning_of_current_line ta = Some b /\ boundary b (text ta) /\ b <= cursor_pos ta /\
  (0 < b -> boundary (b - 1) (text ta)).
Proof. intros [Hc _ _ _]. by apply beginning_of_line_ok. Qed.
Lemma eol_ok ta : wf ta -> exists e, end_of_current_line ta = Some e /\ boundary e (text ta) /\ cursor_pos ta <= e /\
  (e < blen (text ta) -> boundary (e + 1) (text ta)).
Proof. intros [Hc _ _ _]. by apply end_of_line_ok. Qed.
Lemma first_non_blank_ok ta : wf ta -> exists p, first_non_blank_of_current_line ta = Some p /\ boundary p (text ta).
Proof.
  intros Hwf. destruct (bol_ok ta Hwf) as (b & Hb & Hbb & Hbc & _). destruct (eol_ok ta Hwf) as (e & He & Hee & Hec & _).
  unfold first_non_blank_of_current_line. rewrite Hb, He. cbn [mbind option_bind].
  destruct (boundary_two b e _ Hbb Hee) as (x & l & y & Ht & Hx & Hl); [lia|].
  rewrite <- Hx, <- Hl, Ht, slice_between. cbn [mbind option_bind].
  destruct (find_char _ l) as [i|] eqn:Hf.
  - destruct (find_char_Some _ _ _ Hf) as (a & c & d & -> & -> & _). exists (blen x + blen a). split; [done|].
    rewrite <- blen_app. replace (x ++ (a ++ c :: d) ++ y) with ((x ++ a) ++ (c :: d) ++ y) by by rewrite <- !app_assoc.
    apply boundary_at.
  - exists (blen x + blen l). split; [done|]. rewrite <- blen_app, app_assoc. apply boundary_at.
Qed.
Lemma current_line_ok ta : wf ta -> exists r, current_line_range_with_newline ta = Some r /\
  boundary (start r) (text ta) /\ boundary (end_ r) (text ta) /\ start r <= cursor_pos ta <= end_ r /\
  (0 < start r -> boundary (start r - 1) (text ta)).
Proof.
  intros Hwf. destruct (bol_ok ta Hwf) as (b & Hb & Hbb & Hbc & Hb1). destruct (eol_ok ta Hwf) as (e & He & Hee & Hec & He1).
  unfold current_line_range_with_newline. rewrite Hb, He. cbn [mbind option_bind]. eexists. split; [done|]. simpl.
  destruct (e <? blen (text ta)) eqn:Hlt; [apply Nat.ltb_lt in Hlt|]; split_and!; auto; lia.
Qed.

(** ** Graphemes and elements *)

Lemma in_elements ta f e :
  wf ta -> List.find f (elements ta) = Some e -> element_ok (text ta) e /\ f e = true.
Proof. intros Hwf Hf. apply find_elem in Hf as [Hin Hx]. split; [by apply element_in|done]. Qed.
Lemma prev_atomic_ok pos ta :
  wf ta -> boundary pos (text ta) ->
  boundary (prev_atomic_boundary pos ta) (text ta) /\ prev_atomic_boundary pos ta <= pos /\
  (0 < pos -> prev_atomic_boundary pos ta < pos).
Proof.
  intros Hwf Hb. unfold prev_atomic_boundary. destruct (pos =? 0) eqn:Hz; [apply Nat.eqb_eq in Hz; subst|].
  { split_and!; [apply boundary_0|lia|lia]. }
  apply Nat.eqb_neq in Hz. destruct (List.find _ (elements ta)) as [e|] eqn:Hf.
  { destruct (in_elements ta _ e Hwf Hf) as [(Hs & _ & _) Hi]. apply andb_true_iff in Hi as [Hi%Nat.ltb_lt _].
    split_and!; [done|lia|lia]. }
  destruct (prev_boundary_law (text ta) pos Hb) as (b & -> & Hbb & Hlt); [lia|].
  destruct (find_element_containing b ta) as [e|] eqn:Hfe; [|split_and!; [done|lia|lia]].
  apply find_inside in Hfe as [Hin Hi]. destruct (element_in ta e Hwf Hin) as (Hs & _ & _). split_and!; [done|lia|lia].
Qed.
Lemma next_atomic_ok pos ta :
  wf ta -> boundary pos (text ta) ->
  boundary (next_atomic_boundary pos ta) (text ta) /\ pos <= next_atomic_boundary pos ta.
Proof.
  intros Hwf Hb. unfold next_atomic_boundary. destruct (blen (text ta) <=? pos) eqn:Hz.
  { split; [apply boundary_blen|by apply boundary_le]. }
  apply Nat.leb_gt in Hz. destruct (List.find _ (elements ta)) as [e|] eqn:Hf.
  { destruct (in_elements ta _ e Hwf Hf) as [(_ & He & _) Hi]. apply andb_true_iff in Hi as [_ Hi%Nat.ltb_lt].
    split; [done|lia]. }
  destruct (next_boundary_law (text ta) pos Hb Hz) as (b & -> & Hbb & Hlt).
  destruct (find_element_containing b ta) as [e|] eqn:Hfe; [|split; [done|lia]].
  apply find_inside in Hfe as [Hin Hi]. destruct (element_in ta e Hwf Hin) as (_ & He & _). split; [done|lia].
Qed.
Lemma adjust_start_ok pos ta :
  wf ta -> boundary pos (text ta) ->
  boundary (adjust_pos_out_of_elements pos true ta) (text ta) /\ adjust_pos_out_of_elements pos true ta <= pos.
Proof.
  intros Hwf Hb. unfold adjust_pos_out_of_elements. destruct (find_element_containing pos ta) as [e|] eqn:Hf; [|done].
  apply find_inside in Hf as [Hin Hi]. destruct (element_in ta e Hwf Hin) as (Hs & _ & _). split; [done|lia].
Qed.
Lemma adjust_end_ok pos ta :
  wf ta -> boundary pos (text ta) ->
  boundary (adjust_pos_out_of_elements pos false ta) (text ta) /\ pos <= adjust_pos_out_of_elements pos false ta.
Proof.
  intros Hwf Hb. unfold adjust_pos_out_of_elements. destruct (find_element_containing pos ta) as [e|] eqn:Hf; [|done].
  apply find_inside in Hf as [Hin Hi]. destruct (element_in ta e Hwf Hin) as (_ & He & _). split; [done|lia].
Qed.
Lemma steps_back_ok n pos ta :
  wf ta -> boundary pos (text ta) -> boundary (steps_back n pos ta) (text ta) /\ steps_back n pos ta <= pos.
Proof.
  intros Hwf. unfold steps_back. revert pos. induction n as [|n IH]; intros pos Hb; simpl; [done|].
  destruct (prev_atomic_ok pos ta Hwf Hb) as (Hb1 & Hle & _). destruct (_ =? 0); [done|].
  destruct (IH _ Hb1) as [H1 H2]. split; [done|lia].
Qed.
Lemma steps_forward_ok n pos ta :
  wf ta -> boundary pos (text ta) -> boundary (steps_forward n pos ta) (text ta) /\ pos <= steps_forward n pos ta.
Proof.
  intros Hwf. unfold steps_forward. revert pos. induction n as [|n IH]; intros pos Hb; simpl; [done|].
  destruct (next_atomic_ok pos ta Hwf Hb) as (Hb1 & Hle). destruct (_ <=? _); [done|].
  destruct (IH _ Hb1) as [H1 H2]. split; [done|lia].
Qed.

(** ** Words *)

(** Every piece of a run is in the run, where it says. *)
Lemma segment_pieces_at run x piece s y in_sep ps :
  run = x ++ piece ++ s ++ y -> blen x = ps ->
  forall i w, (i, w) ∈ segment_pieces ps (ps + blen piece) piece in_sep s ->
  exists a b, run = a ++ w ++ b /\ blen a = i.
Proof.
  revert x piece in_sep ps. induction s as [|c s IH]; intros x piece in_sep ps Hrun Hx i w Hin; simpl in Hin.
  - apply list_elem_of_singleton in Hin. injection Hin as -> ->. by exists x, y.
  - destruct (Bool.eqb _ _).
    + replace (ps + blen piece + width c) with (ps + blen (piece ++ [c])) in Hin by (rewrite blen_app; simpl; lia).
      eapply IH; [|exact Hx|exact Hin]. rewrite Hrun, <- !app_assoc. done.
    + apply elem_of_cons in Hin as [Hin|Hin]; [injection Hin as -> ->; by exists x, ((c :: s) ++ y)|].
      replace (ps + blen piece + width c) with ((ps + blen piece) + blen [c]) in Hin by (simpl; lia).
      eapply (IH (x ++ piece) [c]); [|by rewrite blen_app, Hx|exact Hin]. rewrite Hrun, <- !app_assoc. done.
Qed.
Lemma pieces_at run i w : (i, w) ∈ split_word_pieces run -> exists a b, run = a ++ w ++ b /\ blen a = i.
Proof.
  unfold split_word_pieces. intros Hin. apply list_elem_of_In, in_flat_map in Hin as ([j seg] & Hseg & Hin).
  apply list_elem_of_In in Hseg, Hin. destruct (split_word_law run j seg Hseg) as (a & b & Hrun & Ha).
  destruct seg as [|c s]; [by apply elem_of_nil in Hin|]. unfold split_segment in Hin. cbn [fst snd] in Hin.
  replace (j + width c) with (j + blen [c]) in Hin by (simpl; lia).
  eapply (segment_pieces_at run a [c] s b); [|exact Ha|exact Hin]. done.
Qed.
(** The start of a piece, and its end, are boundaries of the run. *)
Lemma piece_bounds run i w : (i, w) ∈ split_word_pieces run -> boundary i run /\ boundary (i + blen w) run.
Proof.
  intros Hin. destruct (pieces_at run i w Hin) as (a & b & -> & <-). split; [apply boundary_at|].
  rewrite <- blen_app, app_assoc. apply boundary_at.
Qed.
Lemma extend_back_ok (P : nat -> Prop) s run_start pieces :
  P s -> (forall i w, (i, w) ∈ pieces -> P (run_start + i)) -> P (extend_back s run_start pieces).
Proof.
  revert s. induction pieces as [|[i w] pieces IH]; intros s Hs Hp; simpl; [done|].
  destruct (all_separators w); [|done]. apply IH; [apply (Hp i w); by left|]. intros j v Hin. apply (Hp j v). by right.
Qed.
Lemma extend_forward_ok (P : nat -> Prop) e base pieces :
  P e -> (forall i w, (i, w) ∈ pieces -> P (base + i + blen w)) -> P (extend_forward e base pieces).
Proof.
  revert e. induction pieces as [|[i w] pieces IH]; intros e He Hp; simpl; [done|].
  destruct (all_separators w); [|done]. apply IH; [apply (Hp i w); by left|]. intros j v Hin. apply (Hp j v). by right.
Qed.
Lemma previous_word_ok ta :
  wf ta -> exists b, beginning_of_previous_word ta = Some b /\ boundary b (text ta) /\ b <= cursor_pos ta.
Proof.
  intros Hwf. pose proof (cursor_ok _ Hwf) as Hc. destruct (boundary_split _ _ Hc) as (p & q & Hs & Ht & Hp).
  unfold beginning_of_previous_word, slice_to. rewrite Hs. cbn [fmap option_fmap option_map fst mbind option_bind].
  assert (forall b, boundary b p -> boundary b (text ta) /\ b <= cursor_pos ta) as Hin.
  { intros b Hb. rewrite Ht, <- Hp. split; [by apply boundary_app|by apply boundary_le]. }
  destruct (rfind_char non_ws p) as [[i c]|] eqn:Hf; [|exists 0; split; [done|apply Hin, boundary_0]].
  destruct (rfind_char_Some _ _ _ _ Hf) as (a & d & Hpd & -> & _).
  assert (split_at (blen a) p = Some (a, c :: d)) as -> by by (rewrite Hpd; apply split_at_blen).
  cbn [fmap option_fmap option_map fst mbind option_bind].
  assert (exists x y, a = x ++ y /\ match rfind_char Str.is_whitespace a with Some (idx, e) => idx + width e | None => 0 end = blen x)
    as (x & y & Ha & ->).
  { destruct (rfind_char Str.is_whitespace a) as [[j e]|] eqn:Hr; [|by exists [], a].
    destruct (rfind_char_Some _ _ _ _ Hr) as (a1 & a2 & -> & -> & _). exists (a1 ++ [e]), a2.
    rewrite blen_app, <- app_assoc. simpl. split; [done|lia]. }
  assert (p = x ++ (y ++ [c]) ++ d) as Hpx by by rewrite Hpd, Ha, <- !app_assoc.
  assert (blen a + width c = blen x + blen (y ++ [c])) as -> by (rewrite Ha, !blen_app; simpl; lia).
  assert (slice (blen x) (blen x + blen (y ++ [c])) p = Some (y ++ [c])) as -> by by (rewrite Hpx; apply slice_between).
  cbn [mbind option_bind]. set (run := y ++ [c]) in *.
  assert (forall j w, (j, w) ∈ split_word_pieces run -> boundary (blen x + j) p) as Hpiece.
  { intros j w Hin'. rewrite Hpx. apply boundary_app_r, boundary_app. by eapply piece_bounds. }
  destruct (rev (split_word_pieces run)) as [|[j w] pieces] eqn:Hrev.
  { exists (blen x). split; [done|]. apply Hin. rewrite Hpx. apply boundary_at. }
  assert (forall k v, (k, v) ∈ (j, w) :: pieces -> boundary (blen x + k) p) as Hpieces.
  { intros k v Hkv. apply (Hpiece k v). rewrite <- Hrev in Hkv. by apply list_elem_of_In, in_rev, list_elem_of_In in Hkv. }
  eexists. split; [done|].
  match goal with |- context [adjust_pos_out_of_elements ?s true ta] => assert (boundary s p) as Hst end.
  { destruct (all_separators w); [|by apply (Hpieces j w); left].
    apply (extend_back_ok (fun n => boundary n p)); [by apply (Hpieces j w); left|].
    intros k v Hkv. apply (Hpieces k v). by right. }
  destruct (Hin _ Hst) as [Hb Hle]. destruct (adjust_start_ok _ ta Hwf Hb) as [? ?]. split; [done|lia].
Qed.
Lemma next_word_from_ok pos ta :
  wf ta -> boundary pos (text ta) ->
  exists e, end_of_next_word_from pos ta = Some e /\ boundary e (text ta) /\ pos <= e.
Proof.
  intros Hwf Hb. destruct (boundary_split _ _ Hb) as (p & q & Hs & Ht & Hp).
  unfold end_of_next_word_from, slice_from, slice_to. rewrite Hs. cbn [fmap option_fmap option_map snd mbind option_bind].
  destruct (find_char non_ws q) as [i|] eqn:Hf.
  2: { exists (blen (text ta)). split_and!; [done|apply boundary_blen|by apply boundary_le]. }
  destruct (find_char_Some _ _ _ Hf) as (a & c & d & Hq & -> & _).
  assert (split_at (blen a) q = Some (a, c :: d)) as -> by by (rewrite Hq; apply split_at_blen).
  cbn [fmap option_fmap option_map snd mbind option_bind].
  assert (exists run rest, c :: d = run ++ rest /\
    match find_char Str.is_whitespace (c :: d) with Some i => i | None => blen (c :: d) end = blen run) as (run & rest & Hrun & ->).
  { destruct (find_char Str.is_whitespace (c :: d)) as [j|] eqn:Hw; [|exists (c :: d), []; by rewrite app_nil_r].
    destruct (find_char_Some _ _ _ Hw) as (u & e & v & Huv & -> & _). by exists u, (e :: v). }
  rewrite Hrun, split_at_blen. cbn [fmap option_fmap option_map fst mbind option_bind].
  assert (text ta = (p ++ a) ++ run ++ rest) as Htr by by rewrite Ht, Hq, Hrun, <- !app_assoc.
  assert (forall n, boundary n run -> boundary (pos + blen a + n) (text ta) /\ pos <= pos + blen a + n) as Hin.
  { intros n Hn. rewrite Htr. split; [|lia]. replace (pos + blen a + n) with (blen (p ++ a) + n) by (rewrite blen_app; lia).
    by apply boundary_app_r, boundary_app. }
  destruct (split_word_pieces run) as [|[j w] pieces] eqn:Hpieces.
  { eexists. split; [done|]. specialize (Hin 0 (boundary_0 _)). by rewrite Nat.add_0_r in Hin. }
  assert (forall k v, (k, v) ∈ (j, w) :: pieces ->
    boundary (pos + blen a + k + blen v) (text ta) /\ pos <= pos + blen a + k + blen v) as Hend.
  { intros k v Hkv. rewrite <- Nat.add_assoc. apply Hin. eapply piece_bounds. rewrite Hpieces. exact Hkv. }
  eexists. split; [done|].
  match goal with |- context [adjust_pos_out_of_elements ?s false ta] => assert (boundary s (text ta) /\ pos <= s) as [Hst Hle] end.
  { destruct (all_separators w); [|by apply (Hend j w); left].
    apply (extend_forward_ok (fun n => boundary n (text ta) /\ pos <= n)); [by apply (Hend j w); left|].
    intros k v Hkv. apply (Hend k v). by right. }
  destruct (adjust_end_ok _ ta Hwf Hst) as [? ?]. split; [done|lia].
Qed.
Lemma next_word_ok ta :
  wf ta -> exists e, end_of_next_word ta = Some e /\ boundary e (text ta) /\ cursor_pos ta <= e.
Proof. intros Hwf. apply next_word_from_ok; [done|by destruct Hwf]. Qed.
Lemma find_from_ok pos ta f i :
  boundary pos (text ta) -> forall q, slice_from pos (text ta) = Some q -> find_char f q = Some i -> boundary (pos + i) (text ta).
Proof.
  intros Hb q Hq Hf. destruct (boundary_split _ _ Hb) as (p & q' & Hs & Ht & Hp). unfold slice_from in Hq. rewrite Hs in Hq.
  injection Hq as ->. destruct (find_char_Some _ _ _ Hf) as (a & c & d & -> & -> & _). rewrite Ht, <- Hp.
  apply boundary_app_r, boundary_at.
Qed.
Lemma slice_from_ok pos t : boundary pos t -> exists q, slice_from pos t = Some q.
Proof. intros Hb. destruct (boundary_split _ _ Hb) as (p & q & Hs & _). exists q. unfold slice_from. by rewrite Hs. Qed.
Lemma slice_to_ok pos t : boundary pos t -> exists q, slice_to pos t = Some q.
Proof. intros Hb. destruct (boundary_split _ _ Hb) as (p & q & Hs & _). exists p. unfold slice_to. by rewrite Hs. Qed.
Lemma beginning_of_next_word_ok ta :
  wf ta -> exists b, beginning_of_next_word ta = Some b /\ boundary b (text ta).
Proof.
  intros Hwf. pose proof (cursor_ok _ Hwf) as Hc. unfold beginning_of_next_word.
  destruct (slice_from_ok _ _ Hc) as [q Hq]. rewrite Hq. cbn [mbind option_bind].
  destruct (find_char non_ws q) as [i|] eqn:Hf; [|exists (blen (text ta)); split; [done|apply boundary_blen]].
  pose proof (find_from_ok _ _ _ _ Hc q Hq Hf) as Hi. destruct (negb _).
  { eexists. split; [done|]. by apply adjust_start_ok. }
  destruct (next_word_ok ta Hwf) as (e & -> & Hbe & _). cbn [mbind option_bind].
  destruct (_ <=? e); [exists (blen (text ta)); split; [done|apply boundary_blen]|].
  destruct (slice_from_ok _ _ Hbe) as [q' Hq']. rewrite Hq'. cbn [mbind option_bind].
  destruct (find_char non_ws q') as [j|] eqn:Hf'; [|exists (blen (text ta)); split; [done|apply boundary_blen]].
  eexists. split; [done|]. apply adjust_start_ok; [done|]. by eapply find_from_ok.
Qed.
Lemma word_end_exclusive_ok ta :
  wf ta -> exists e, vim_word_end_exclusive ta = Some e /\ boundary e (text ta).
Proof.
  intros Hwf. unfold vim_word_end_exclusive. destruct (next_word_ok ta Hwf) as (e & -> & Hb & _). cbn [mbind option_bind].
  destruct (_ && _); [|by exists e]. destruct (next_word_from_ok e ta Hwf Hb) as (e' & -> & Hb' & _). by exists e'.
Qed.
Lemma word_end_cursor_ok ta : wf ta -> exists e, vim_word_end_cursor ta = Some e /\ boundary e (text ta).
Proof.
  intros Hwf. unfold vim_word_end_cursor. destruct (word_end_exclusive_ok ta Hwf) as (e & -> & Hb). cbn [mbind option_bind].
  eexists. split; [done|]. destruct (_ <? e); [|done]. by apply prev_atomic_ok.
Qed.
Lemma line_end_cursor_ok ta : wf ta -> exists e, vim_line_end_cursor ta = Some e /\ boundary e (text ta).
Proof.
  intros Hwf. unfold vim_line_end_cursor. destruct (bol_ok ta Hwf) as (b & -> & Hb & _). destruct (eol_ok ta Hwf) as (e & -> & He & _).
  cbn [mbind option_bind]. eexists. split; [done|]. destruct (b <? e); [|done].
  destruct (prev_atomic_ok e ta Hwf He) as (Hp & _). by destruct (Nat.max_spec (prev_atomic_boundary e ta) b) as [[_ ->]|[_ ->]].
Qed.

(** ** Wrapped lines *)

(** A line of the cache: its start, and its end without the sentinel. *)
Definition line_ok (t : str) (r : Range) : Prop :=
  boundary (start r) t /\ boundary (end_ r - 1) t /\ start r <= end_ r - 1.
Lemma leading_spaces_ok n t q : slice_from n t = Some q -> boundary (n + leading_spaces q) t.
Proof.
  unfold slice_from. intros Hs. destruct (split_at n t) as [[p q']|] eqn:Hsp; [|done]. injection Hs as ->.
  apply split_at_Some in Hsp as [-> <-]. apply boundary_app_r. clear. induction q as [|c q IH]; simpl; [apply boundary_0|].
  destruct (c =? 32)%N eqn:Hc; [|apply boundary_0]. apply N.eqb_eq in Hc as ->.
  destruct IH as (a & b & -> & Ha). exists (32%N :: a), b. split; [done|].
  change (blen (32%N :: a)) with (width 32%N + blen a). rewrite width_ascii by done. lia.
Qed.
Lemma first_char_from n t q c : slice_from n t = Some q -> first_char q = Some c -> boundary (n + width c) t.
Proof.
  unfold slice_from. intros Hs Hc. destruct (split_at n t) as [[p q']|] eqn:Hsp; [|done]. injection Hs as ->.
  apply split_at_Some in Hsp as [-> <-]. destruct q as [|d q]; [done|]. injection Hc as ->.
  apply boundary_app_r. exists [c], q. split; [done|simpl; lia].
Qed.
Lemma skip_spaces_ok fuel t n m : boundary n t -> skip_spaces fuel t n = Some m -> boundary m t.
Proof.
  revert n. induction fuel as [|fuel IH]; intros n Hb Hs; simpl in Hs; [done|].
  destruct (n <? blen t); [|by injection Hs as <-]. destruct (slice_from n t) as [q|] eqn:Hq; [|done]. simpl in Hs.
  destruct (first_char q) as [c|] eqn:Hc; [|by injection Hs as <-].
  destruct (c =? 32)%N; [|by injection Hs as <-]. eapply IH; [|exact Hs]. by eapply first_char_from.
Qed.
Lemma match_owned_ok t w n saw m : boundary n t -> match_owned t w n saw = Some m -> boundary m t /\ n <= m.
Proof.
  revert n saw. induction w as [|c w IH]; intros n saw Hb Hs; simpl in Hs; [by injection Hs as <-|].
  destruct (n <? blen t) eqn:Hlt.
  - destruct (slice_from n t) as [q|] eqn:Hq; [|done]. simpl in Hs. destruct (first_char q) as [d|] eqn:Hd; [|done]. simpl in Hs.
    destruct (bool_decide (Some d = Some c)) eqn:Hdc.
    + apply bool_decide_eq_true in Hdc. injection Hdc as ->. apply IH in Hs as [? ?]; [|by eapply first_char_from]. split; [done|lia].
    + repeat case_match; simplify_eq/=; by eauto.
  - simpl in Hs. repeat case_match; simplify_eq/=; by eauto.
Qed.
Lemma wrap_from_ok t cursor ls rs :
  boundary cursor t -> (forall a b, Borrowed a b ∈ ls -> boundary a t /\ boundary b t /\ a <= b) ->
  wrap_from t cursor ls = Some rs -> Forall (line_ok t) rs.
Proof.
  revert cursor rs. induction ls as [|l ls IH]; intros cursor rs Hc Hls Hw; simpl in Hw; [injection Hw as <-; constructor|].
  assert (forall r, match l with Borrowed a b => Some (mkRange a b)
    | Foreign slice | Owned slice => map_owned_wrapped_line_to_range t cursor slice end = Some r ->
    boundary (start r) t /\ boundary (end_ r) t /\ start r <= end_ r) as Hr.
  { assert (forall w r, map_owned_wrapped_line_to_range t cursor w = Some r ->
      boundary (start r) t /\ boundary (end_ r) t /\ start r <= end_ r) as Hown.
    { intros w r. unfold map_owned_wrapped_line_to_range. intros Hm.
      destruct (if Str.starts_with [32%N] w then Some cursor else skip_spaces (S (blen t)) t cursor) as [s|] eqn:Hs; [|done].
      assert (boundary s t) as Hbs.
      { destruct (Str.starts_with _ w); [by injection Hs as <-|by eapply skip_spaces_ok]. }
      cbn [mbind option_bind] in Hm. destruct (match_owned t w s false) as [e|] eqn:He; [|done]. injection Hm as <-.
      destruct (match_owned_ok _ _ _ _ _ Hbs He). done. }
    intros r. destruct l as [a b|s|s]; intros Hm; [|by eapply Hown..]. injection Hm as <-. simpl. apply Hls. by left. }
  destruct (match l with Borrowed a b => _ | _ => _ end) as [r|] eqn:Hl; [|done]. cbn [mbind option_bind] in Hw.
  destruct (Hr r eq_refl) as (H1 & H2 & H3). destruct (slice_from (end_ r) t) as [q|] eqn:Hq; [|done]. cbn [mbind option_bind] in Hw.
  destruct (wrap_from t (end_ r + leading_spaces q) ls) as [rs'|] eqn:Hw'; [|done]. injection Hw as <-.
  pose proof (leading_spaces_ok _ _ _ Hq) as Hsp. constructor.
  - unfold line_ok. simpl. replace (end_ r + leading_spaces q + 1 - 1) with (end_ r + leading_spaces q) by lia. split_and!; [done..|lia].
  - eapply IH; [exact Hsp| |exact Hw']. intros a b Hin. apply Hls. by right.
Qed.
Lemma wrap_ranges_ok t w rs : wrap_ranges t w = Some rs -> Forall (line_ok t) rs.
Proof. apply wrap_from_ok; [apply boundary_0|]. intros a b. apply wrap_law. Qed.

End moves.
End Moves.
