(* ===== verification/TextAreaInput.v ===== *)
(** Key presses in the text area: none of them panics, each keeps the invariant and makes
    at most one edit, which takes elements whole. *)
From S2P Require Import Prelude ByteText TextKeys TextArea TextAreaEdits TextAreaMoves.

Module Input.
Import ByteText Unicode Keys TextArea Edits Moves.

Section input.
Context {U : Unicode} {UL : UnicodeLaws U}.

(** ** Movement *)

Lemma good_cursor ta n c :
  wf ta -> boundary n (text ta) -> not_inside n (elements ta) -> good ta (Some (put_col c (put_cursor n ta))).
Proof. intros Hwf Hb Hn. apply good_same; [done..|by right]. Qed.
Lemma start_fits ta : not_inside 0 (elements ta).
Proof. apply Forall_forall. lia. Qed.
Lemma end_fits ta : wf ta -> not_inside (blen (text ta)) (elements ta).
Proof.
  intros Hwf. apply Forall_forall. intros e Hin. destruct (element_in ta e Hwf Hin) as (_ & He & _). apply boundary_le in He. lia.
Qed.
Lemma prev_atomic_fits pos ta : wf ta -> boundary pos (text ta) -> not_inside (prev_atomic_boundary pos ta) (elements ta).
Proof.
  intros Hwf Hb. unfold prev_atomic_boundary. destruct (pos =? 0) eqn:Hz; [apply start_fits|]. apply Nat.eqb_neq in Hz.
  destruct (List.find _ _) as [e|] eqn:Hf.
  { apply find_elem in Hf as [Hin _]. by apply (edge_not_inside ta e). }
  destruct (prev_boundary_law (text ta) pos Hb) as (b & -> & _); [lia|].
  destruct (find_element_containing b ta) as [e|] eqn:Hfe; [|by apply find_inside_None].
  apply find_inside in Hfe as [Hin _]. by apply (edge_not_inside ta e).
Qed.
Lemma next_atomic_fits pos ta : wf ta -> boundary pos (text ta) -> not_inside (next_atomic_boundary pos ta) (elements ta).
Proof.
  intros Hwf Hb. unfold next_atomic_boundary. destruct (_ <=? pos) eqn:Hz; [by apply end_fits|]. apply Nat.leb_gt in Hz.
  destruct (List.find _ _) as [e|] eqn:Hf.
  { apply find_elem in Hf as [Hin _]. by apply (edge_not_inside ta e). }
  destruct (next_boundary_law (text ta) pos Hb) as (b & -> & _); [lia|].
  destruct (find_element_containing b ta) as [e|] eqn:Hfe; [|by apply find_inside_None].
  apply find_inside in Hfe as [Hin _]. by apply (edge_not_inside ta e).
Qed.
Lemma move_left_good ta : wf ta -> good ta (Some (move_cursor_left ta)).
Proof.
  intros Hwf. pose proof (cursor_ok _ Hwf) as Hc. apply good_cursor; [done| |by apply prev_atomic_fits]. by apply prev_atomic_ok.
Qed.
Lemma move_right_good ta : wf ta -> good ta (Some (move_cursor_right ta)).
Proof.
  intros Hwf. pose proof (cursor_ok _ Hwf) as Hc. apply good_cursor; [done| |by apply next_atomic_fits]. by apply next_atomic_ok.
Qed.
Lemma col_offset_in w target gs i : col_offset w target gs = Some i -> exists g, (i, g) ∈ gs.
Proof.
  revert w. induction gs as [|[j g] gs IH]; intros w Hc; simpl in Hc; [done|].
  destruct (_ <? _); [injection Hc as ->; exists g; by left|]. destruct (IH _ Hc) as [h Hh]. exists h. by right.
Qed.
Lemma move_to_col_good s e c ta :
  wf ta -> boundary s (text ta) -> boundary e (text ta) -> s <= e -> good ta (move_to_display_col_on_line s e c ta).
Proof.
  intros Hwf Hs He Hle. unfold move_to_display_col_on_line. destruct (slice_ok s e (text ta) Hs He Hle) as [l Hl].
  rewrite Hl. cbn [mbind option_bind].
  match goal with |- context [clamp_pos_to_nearest_boundary ?n ?x] => assert (wf x) as Hwf1 end.
  { eapply wf_same; [exact Hwf|done..|]. simpl. destruct (slice_Some _ _ _ _ Hl) as (p & q & Ht & Hp & _).
    destruct (col_offset 0 c (grapheme_indices l)) as [i|] eqn:Hc; [|done].
    destruct (col_offset_in _ _ _ _ Hc) as [g Hg]. rewrite Ht, <- Hp. apply boundary_app_r, boundary_app.
    by eapply grapheme_indices_law. }
  destruct (clamp_nearest_ok (match col_offset 0 c (grapheme_indices l) with Some i => s + i | None => e end) _ Hwf1) as [Hb Hn].
  apply good_same; [done..|exact Hb|by right].
Qed.
Lemma partition_lookup pos ls i : wrapped_line_index_by_start ls pos = Some i -> exists r, ls !! i = Some r /\ start r <= pos.
Proof.
  unfold wrapped_line_index_by_start. revert i. induction ls as [|r ls IH]; intros i Hi; simpl in Hi; [done|].
  destruct (start r <=? pos) eqn:Hle; [|done]. apply Nat.leb_le in Hle.
  destruct (partition_point pos ls) as [|n]; injection Hi as <-; [by exists r|]. by apply (IH n).
Qed.
Lemma visual_ok next ta :
  wf ta -> exists v, visual_target next ta = Some v /\
    forall c line, v = Some (c, Some line) -> boundary (start line) (text ta) /\ boundary (end_ line) (text ta) /\ start line <= end_ line.
Proof.
  intros Hwf. unfold visual_target. destruct (wrap_cache ta) as [cache|] eqn:Hcache; [|by exists None].
  pose proof (wrap_ranges_ok _ _ _ (cache_ok _ Hwf _ Hcache)) as Hlines.
  destruct (wrapped_line_index_by_start _ _) as [i|] eqn:Hi; [|by exists None].
  destruct (partition_lookup _ _ _ Hi) as (r & Hr & Hle). rewrite Hr. cbn [mbind option_bind].
  rewrite Forall_lookup in Hlines. destruct (Hlines i r Hr) as (Hs & _ & _).
  assert (exists c, match preferred_col ta with Some c => Some c
    | None => t ← slice (start r) (cursor_pos ta) (text ta); Some (display_width t) end = Some c) as [c ->].
  { destruct (preferred_col ta); [by eexists|]. destruct (slice_ok (start r) (cursor_pos ta) (text ta)) as [t ->]; [done|by destruct Hwf|done|].
    by eexists. }
  cbn [mbind option_bind]. eexists. split; [done|]. intros c' line Heq. injection Heq as <- Hline.
  destruct (if next then _ else _) as [l|] eqn:Hl; [|done]. injection Hline as <-.
  assert (exists j, cache_lines cache !! j = Some l) as [j Hj].
  { destruct next; [by eexists|]. destruct i as [|i]; [done|by eexists]. }
  destruct (Hlines j l Hj) as (H1 & H2 & H3). done.
Qed.
Lemma logical_col_ok ta :
  wf ta -> exists c ta', logical_col ta = Some (c, ta') /\ wf ta' /\ text ta' = text ta /\ elements ta' = elements ta /\
    cursor_pos ta' = cursor_pos ta.
Proof.
  intros Hwf. unfold logical_col. destruct (preferred_col ta) as [c|]; [by exists c, ta|].
  unfold current_display_col. destruct (bol_ok ta Hwf) as (b & -> & Hb & Hle & _). cbn [mbind option_bind].
  destruct (slice_ok b (cursor_pos ta) (text ta)) as [t ->]; [done|by destruct Hwf|done|]. cbn [mbind option_bind].
  eexists _, _. split_and!; [done|by destruct Hwf|done..].
Qed.
Lemma move_to_visual_good c line ta :
  wf ta -> boundary (start line) (text ta) -> boundary (end_ line) (text ta) -> start line <= end_ line ->
  good ta (move_to_visual c line ta).
Proof.
  intros Hwf Hs He Hle. unfold move_to_visual.
  assert (forall ta1, wf ta1 -> text ta1 = text ta -> elements ta1 = elements ta -> cursor_pos ta1 = cursor_pos ta ->
    good ta (move_to_display_col_on_line (start line) (end_ line) c ta1)) as Hgo.
  { intros ta1 Hwf1 Ht1 He1 Hc1. eapply good_after; [exact Ht1|exact He1|by left|]. apply move_to_col_good; rewrite ?Ht1; done. }
  destruct (preferred_col ta); apply Hgo; [done..| |done|done|done]. by destruct Hwf.
Qed.
Lemma move_up_good ta : wf ta -> good ta (move_cursor_up ta).
Proof.
  intros Hwf. pose proof (cursor_ok _ Hwf) as Hc. unfold move_cursor_up.
  destruct (visual_ok false ta Hwf) as ([[c [line|]]|] & -> & Hv); cbn [mbind option_bind].
  - destruct (Hv c line eq_refl) as (? & ? & ?). by apply move_to_visual_good.
  - apply good_cursor; [done|apply boundary_0|apply start_fits].
  - destruct (boundary_split _ _ Hc) as (p & q & Hs & Ht & Hp). unfold slice_to. rewrite Hs. cbn [fmap option_fmap option_map fst mbind option_bind].
    destruct (rfind_char is_newline p) as [[i d]|] eqn:Hf; [|apply good_cursor; [done|apply boundary_0|apply start_fits]].
    destruct (rfind_char_Some _ _ _ _ Hf) as (a & b & -> & -> & _).
    destruct (logical_col_ok ta Hwf) as (c & ta' & -> & Hwf' & Ht' & He' & Hc'). cbn [mbind option_bind].
    assert (boundary (blen a) (text ta')) as Hba by (rewrite Ht', Ht, <- app_assoc; apply boundary_at).
    destruct (beginning_of_line_ok _ _ Hba) as (s & -> & Hbs & Hle & _). cbn [mbind option_bind].
    eapply good_after; [exact Ht'|exact He'|by left|]. by apply move_to_col_good.
Qed.
Lemma move_down_good ta : wf ta -> good ta (move_cursor_down ta).
Proof.
  intros Hwf. unfold move_cursor_down.
  destruct (visual_ok true ta Hwf) as ([[c [line|]]|] & -> & Hv); cbn [mbind option_bind].
  - destruct (Hv c line eq_refl) as (? & ? & ?). by apply move_to_visual_good.
  - apply good_cursor; [done|apply boundary_blen|by apply end_fits].
  - destruct (logical_col_ok ta Hwf) as (c & ta' & -> & Hwf' & Ht' & He' & Hc'). cbn [mbind option_bind].
    eapply good_after; [exact Ht'|exact He'|by left|]. pose proof (cursor_ok _ Hwf') as Hc.
    destruct (boundary_split _ _ Hc) as (p & q & Hs & Ht & Hp). unfold slice_from. rewrite Hs. cbn [fmap option_fmap option_map snd mbind option_bind].
    destruct (find_char is_newline q) as [i|] eqn:Hf; [|apply good_cursor; [done|apply boundary_blen|by apply end_fits]].
    destruct (find_char_Some _ _ _ Hf) as (a & d & b & -> & -> & Hd). pose proof (newline_width d Hd) as Hw.
    assert (boundary (blen a + cursor_pos ta' + 1) (text ta')) as Hb.
    { rewrite Ht. replace (blen a + cursor_pos ta' + 1) with (blen (p ++ a ++ [d])) by (rewrite !blen_app; simpl; lia).
      replace (p ++ a ++ d :: b) with ((p ++ a ++ [d]) ++ b) by by rewrite <- !app_assoc. apply boundary_at. }
    destruct (end_of_line_ok _ _ Hb) as (e & -> & Hbe & Hle & _). cbn [mbind option_bind]. by apply move_to_col_good.
Qed.
Lemma move_bol_good up ta : wf ta -> good ta (move_cursor_to_beginning_of_line up ta).
Proof.
  intros Hwf. unfold move_cursor_to_beginning_of_line. destruct (bol_ok ta Hwf) as (b & -> & Hb & Hle & Hb1). cbn [mbind option_bind].
  assert (forall n, good ta (Some (put_col None (set_cursor n ta)))) as Hset by (intros n; apply set_cursor_good, Hwf).
  destruct (up && (cursor_pos ta =? b)) eqn:Hup; [|apply Hset].
  apply andb_true_iff in Hup as [_ Heq%Nat.eqb_eq]. destruct (decide (b = 0)) as [->|Hne].
  - rewrite Heq. destruct (beginning_of_line_ok 0 ta (boundary_0 _)) as (s & Hs & _). simpl. rewrite Hs. apply Hset.
  - rewrite Heq. destruct (beginning_of_line_ok (b - 1) ta) as (s & Hs & _); [apply Hb1; lia|]. rewrite Hs. apply Hset.
Qed.
Lemma move_eol_good down ta : wf ta -> good ta (move_cursor_to_end_of_line down ta).
Proof.
  intros Hwf. unfold move_cursor_to_end_of_line. destruct (eol_ok ta Hwf) as (e & -> & He & Hle & He1). cbn [mbind option_bind].
  destruct (down && (cursor_pos ta =? e)) eqn:Hd; [|by apply set_cursor_good].
  apply andb_true_iff in Hd as [_ Heq%Nat.eqb_eq]. rewrite Heq.
  assert (boundary (Nat.min (e + 1) (blen (text ta))) (text ta)) as Hb.
  { destruct (decide (e < blen (text ta))) as [Hlt|Hge].
    - rewrite Nat.min_l by lia. by apply He1.
    - rewrite Nat.min_r by lia. apply boundary_blen. }
  destruct (end_of_line_ok _ _ Hb) as (s & -> & _). by apply set_cursor_good.
Qed.

(** ** Deletion and pasting *)

Lemma delete_backward_good n ta : wf ta -> good ta (delete_backward n ta).
Proof.
  intros Hwf. pose proof (cursor_ok _ Hwf) as Hc. unfold delete_backward. destruct (_ || _); [by apply good_refl|].
  destruct (steps_back_ok n _ ta Hwf Hc). by apply replace_good.
Qed.
Lemma delete_forward_good n ta : wf ta -> good ta (delete_forward n ta).
Proof.
  intros Hwf. pose proof (cursor_ok _ Hwf) as Hc. unfold delete_forward. destruct (_ || _); [by apply good_refl|].
  destruct (steps_forward_ok n _ ta Hwf Hc). by apply replace_good.
Qed.
Lemma delete_forward_kill_good n ta : wf ta -> good ta (delete_forward_kill n ta).
Proof.
  intros Hwf. pose proof (cursor_ok _ Hwf) as Hc. unfold delete_forward_kill. destruct (_ || _); [by apply good_refl|].
  destruct (steps_forward_ok n _ ta Hwf Hc). by apply kill_good.
Qed.
Lemma delete_backward_word_good ta : wf ta -> good ta (delete_backward_word ta).
Proof.
  intros Hwf. unfold delete_backward_word. destruct (previous_word_ok ta Hwf) as (b & -> & Hb & Hle).
  apply kill_good; [done..|by destruct Hwf|done].
Qed.
Lemma delete_forward_word_good ta : wf ta -> good ta (delete_forward_word ta).
Proof.
  intros Hwf. unfold delete_forward_word. destruct (next_word_ok ta Hwf) as (e & -> & Hb & Hle). cbn [mbind option_bind].
  destruct (_ <? e); [|by apply good_refl]. apply kill_good; [done|by destruct Hwf|done..].
Qed.
Lemma kill_eol_good ta : wf ta -> good ta (kill_to_end_of_line ta).
Proof.
  intros Hwf. pose proof (cursor_ok _ Hwf) as Hc. unfold kill_to_end_of_line.
  destruct (eol_ok ta Hwf) as (e & -> & He & Hle & He1). cbn [mbind option_bind]. destruct (_ =? e); [|by apply kill_good].
  destruct (e <? blen (text ta)) eqn:Hlt; [|by apply good_refl]. apply Nat.ltb_lt in Hlt.
  apply kill_good; [done|done|by apply He1|simpl; lia].
Qed.
Lemma vim_kill_eol_good ta : wf ta -> good ta (vim_kill_to_end_of_line ta).
Proof.
  intros Hwf. pose proof (cursor_ok _ Hwf) as Hc. unfold vim_kill_to_end_of_line.
  destruct (eol_ok ta Hwf) as (e & -> & He & Hle & _). cbn [mbind option_bind].
  destruct (_ <? e); [by apply kill_good|by apply good_refl].
Qed.
Lemma kill_bol_good ta : wf ta -> good ta (kill_to_beginning_of_line ta).
Proof.
  intros Hwf. pose proof (cursor_ok _ Hwf) as Hc. unfold kill_to_beginning_of_line.
  destruct (bol_ok ta Hwf) as (b & -> & Hb & Hle & Hb1). cbn [mbind option_bind]. destruct (_ =? b); [|by apply kill_good].
  destruct (0 <? b) eqn:Hlt; [|by apply good_refl]. apply Nat.ltb_lt in Hlt.
  apply kill_good; [done|by apply Hb1|done|simpl; lia].
Qed.
Lemma kill_current_line_good ta : wf ta -> good ta (kill_current_line ta).
Proof.
  intros Hwf. unfold kill_current_line. destruct (current_line_ok ta Hwf) as (r & -> & Hs & He & Hle & _).
  apply kill_good; [done..|lia].
Qed.
Lemma yank_current_line_good ta : wf ta -> good ta (yank_current_line ta).
Proof.
  intros Hwf. unfold yank_current_line. destruct (current_line_ok ta Hwf) as (r & -> & Hs & He & Hle & _).
  apply yank_range_good; [done..|lia].
Qed.
Lemma yank_good ta : wf ta -> good ta (yank ta).
Proof. intros Hwf. unfold yank. destruct (Str.is_empty _); [by apply good_refl|by apply insert_good]. Qed.
(** An insertion, and then a position and a mode. *)
Lemma insert_then_good pos t ta f :
  wf ta -> (forall ta', wf ta' -> text (f ta') = text ta' /\ elements (f ta') = elements ta' /\
    wrap_cache (f ta') = wrap_cache ta' /\ boundary (cursor_pos (f ta')) (text ta') /\ fit (cursor_pos (f ta')) ta') ->
  good ta (ta' ← insert_str_at pos t ta; Some (f ta')).
Proof. intros Hwf Hf. by apply good_then; [apply insert_good|]. Qed.
Lemma set_cursor_fields pos ta :
  wf ta -> text (set_cursor pos ta) = text ta /\ elements (set_cursor pos ta) = elements ta /\
    wrap_cache (set_cursor pos ta) = wrap_cache ta /\ boundary (cursor_pos (set_cursor pos ta)) (text ta) /\
    fit (cursor_pos (set_cursor pos ta)) ta.
Proof.
  intros Hwf. destruct (set_cursor_ok pos ta Hwf) as ([Hc _ _ _] & Ht & _). split_and!; [done..|].
  right. by apply (set_cursor_settled pos ta).
Qed.
Lemma paste_line_good ta : wf ta -> good ta (paste_line_after_current_line ta).
Proof.
  intros Hwf. unfold paste_line_after_current_line. destruct (eol_ok ta Hwf) as (e & -> & _). cbn [mbind option_bind].
  apply insert_then_good; [done|]. intros. by apply set_cursor_fields.
Qed.
Lemma paste_good ta : wf ta -> good ta (paste_after_cursor ta).
Proof.
  intros Hwf. unfold paste_after_cursor. destruct (Str.is_empty _); [by apply good_refl|].
  destruct (kill_buffer_kind ta); [|by apply paste_line_good].
  destruct (set_cursor_ok (next_atomic_boundary (cursor_pos ta) ta) ta Hwf) as (Hwf' & Ht & He & _).
  eapply good_after; [exact Ht|exact He|by apply set_cursor_fields|by apply insert_good].
Qed.

Lemma input_with_keymap_good event k ta : wf ta -> good ta (input_with_keymap event k ta).
Proof.
  intros Hwf. unfold input_with_keymap.
  destruct (is_pressed (insert_newline k) event); [by apply insert_good|].
  destruct (is_pressed (delete_backward_word_key k) event); [by apply delete_backward_word_good|].
  destruct (match code event with Char _ => _ | _ => _ end); [destruct (code event); (by apply good_refl) || by apply insert_good|].
  destruct (is_pressed (delete_backward_key k) event); [by apply delete_backward_good|].
  destruct (is_pressed (delete_forward_word_key k) event); [by apply delete_forward_word_good|].
  destruct (is_pressed (delete_forward_key k) event); [by apply delete_forward_good|].
  destruct (is_pressed (kill_line_start k) event); [by apply kill_bol_good|].
  destruct (is_pressed (kill_whole_line k) event); [by apply kill_current_line_good|].
  destruct (is_pressed (kill_line_end k) event); [by apply kill_eol_good|].
  destruct (is_pressed (yank_key k) event); [by apply yank_good|].
  destruct (is_pressed (move_word_left k) event).
  { destruct (previous_word_ok ta Hwf) as (b & -> & _). by apply set_cursor_good. }
  destruct (is_pressed (move_word_right k) event).
  { destruct (next_word_ok ta Hwf) as (b & -> & _). by apply set_cursor_good. }
  destruct (is_pressed (move_left k) event); [by apply move_left_good|].
  destruct (is_pressed (move_right k) event); [by apply move_right_good|].
  destruct (is_pressed (move_up k) event); [by apply move_up_good|].
  destruct (is_pressed (move_down k) event); [by apply move_down_good|].
  destruct (is_pressed (move_line_start k) event); [by apply move_bol_good|].
  destruct (is_pressed (move_line_end k) event); [by apply move_eol_good|].
  destruct (code event); try by apply good_refl. destruct (_ || _); [|by apply good_refl].
  destruct (is_ascii_control c); [by apply good_refl|by apply insert_good].
Qed.

End input.
End Input.
