(* ===== verification/TextAreaVim.v ===== *)
(** Vim keys in the text area: the ranges of motions and text objects, and the theorems
    about every key press. *)
From S2P Require Import Prelude ByteText TextKeys TextArea TextAreaEdits TextAreaMoves TextAreaInput.

Module VimInput.
Import ByteText Unicode Keys TextArea Edits Moves Input.

Section vim.
Context {U : Unicode} {UL : UnicodeLaws U}.

(** ** Ranges *)

Definition range_ok (t : str) (r : Range) : Prop := boundary (start r) t /\ boundary (end_ r) t /\ start r <= end_ r.
Lemma kill_range_good r kind ta : wf ta -> range_ok (text ta) r -> good ta (kill_range_with_kind r kind ta).
Proof. intros Hwf (Hs & He & Hle). by apply kill_good. Qed.
Lemma yank_good_range r kind ta : wf ta -> range_ok (text ta) r -> good ta (yank_range_with_kind r kind ta).
Proof. intros Hwf (Hs & He & Hle). by apply yank_range_good. Qed.

(** *** Words *)

Lemma ws_runs_ok t x y run_start :
  t = x ++ y -> (forall s, run_start = Some s -> boundary s t /\ s < blen x) ->
  Forall (fun r => range_ok t r /\ start r < end_ r) (ws_runs run_start (blen x) y).
Proof.
  revert x run_start. induction y as [|c y IH]; intros x run_start Ht Hrs; simpl.
  - destruct run_start as [s|]; [|constructor]. destruct (Hrs s eq_refl) as [Hs Hlt]. constructor; [|constructor].
    unfold range_ok. simpl. split_and!; [done| |lia|lia]. rewrite Ht. apply boundary_at.
  - assert (t = (x ++ [c]) ++ y) as Ht' by by rewrite <- app_assoc.
    replace (blen x + width c) with (blen (x ++ [c])) by (rewrite blen_app; simpl; lia).
    pose proof (width_pos c) as Hw. destruct (Str.is_whitespace c).
    + apply Forall_app. split; [|by apply IH]. destruct run_start as [s|]; [|constructor].
      destruct (Hrs s eq_refl) as [Hs Hlt]. constructor; [|constructor].
      unfold range_ok. simpl. split_and!; [done| |lia|lia]. rewrite Ht. apply boundary_at.
    + apply IH; [done|]. intros s [= <-]. rewrite blen_app. simpl. destruct run_start as [s|]; simpl.
      * destruct (Hrs s eq_refl) as [Hs Hlt]. split; [done|lia].
      * split; [rewrite Ht; apply boundary_at|lia].
Qed.
Lemma runs_ok ta : Forall (fun r => range_ok (text ta) r /\ start r < end_ r) (non_ws_runs ta).
Proof. apply (ws_runs_ok (text ta) [] (text ta) None); done. Qed.
Lemma big_word_ok ta r : big_word_range_at_cursor ta = Some r -> range_ok (text ta) r.
Proof.
  unfold big_word_range_at_cursor. intros Hf. apply find_elem in Hf as [Hin _].
  pose proof (runs_ok ta) as Hr. rewrite Forall_forall in Hr. by apply Hr.
Qed.
Lemma piece_at_ok (P : Range -> Prop) run_start last pieces ta :
  (forall r, last = Some r -> P r) ->
  (forall i w, (i, w) ∈ pieces -> P (mkRange (run_start + i) (run_start + i + blen w))) ->
  match piece_at run_start last pieces ta with inl r => P r | inr (Some r) => P r | inr None => True end.
Proof.
  revert last. induction pieces as [|[i w] pieces IH]; intros last Hl Hp; simpl.
  - destruct last; [by apply Hl|done].
  - destruct (cursor_overlaps_range _ ta); [apply Hp; by left|]. apply IH; [|intros j v Hin; apply (Hp j v); by right].
    intros r [= <-]. apply Hp. by left.
Qed.
Lemma small_word_ok ta runs :
  Forall (fun r => range_ok (text ta) r) runs ->
  exists o, small_word_in runs ta = Some o /\ forall r, o = Some r -> range_ok (text ta) r.
Proof.
  induction 1 as [|run runs (Hs & He & Hle) Hruns IH]; simpl; [by exists None|].
  destruct (_ && _); [done|]. destruct (boundary_two _ _ _ Hs He Hle) as (x & t & y & Ht & Hx & Hxt).
  rewrite <- Hx, <- Hxt, Ht, slice_between, <- Ht. cbn [mbind option_bind]. eexists. split; [done|]. intros r [= <-].
  pose proof (piece_at_ok (range_ok (text ta)) (blen x) None (split_word_pieces t) ta) as Hp.
  assert (range_ok (text ta) run) as Hrun by done.
  destruct (piece_at (blen x) None (split_word_pieces t) ta) as [piece|[last|]].
  - apply Hp; [done|]. intros i w Hin. destruct (piece_bounds _ _ _ Hin) as [Hi Hiw].
    unfold range_ok. simpl. split_and!; [..|lia]; rewrite Ht; [|rewrite <- Nat.add_assoc]; by apply boundary_app_r, boundary_app.
  - destruct (cursor_is_at_range_end run ta); [|done]. apply Hp; [done|]. intros i w Hin. destruct (piece_bounds _ _ _ Hin) as [Hi Hiw].
    unfold range_ok. simpl. split_and!; [..|lia]; rewrite Ht; [|rewrite <- Nat.add_assoc]; by apply boundary_app_r, boundary_app.
  - by destruct (cursor_is_at_range_end run ta).
Qed.
Lemma leading_ws_split t : exists a b, t = a ++ b /\ leading_ws t = blen a.
Proof.
  induction t as [|c t (a & b & -> & IH)]; simpl; [by exists [], []|].
  destruct (Str.is_whitespace c); [|by exists [], (c :: a ++ b)]. exists (c :: a), b. simpl. by rewrite IH.
Qed.
Lemma blen_rev t : blen (rev t) = blen t.
Proof. induction t as [|c t IH]; simpl; [done|]. rewrite blen_app, IH. simpl. lia. Qed.
Lemma expand_word_ok inner ta :
  range_ok (text ta) inner -> exists r, expand_word_around inner ta = Some r /\ range_ok (text ta) r.
Proof.
  intros (Hs & He & Hle). unfold expand_word_around, following_whitespace_end, preceding_whitespace_start, slice_from, slice_to.
  destruct (boundary_split _ _ He) as (p & q & Hsp & Ht & Hp). rewrite Hsp. cbn [fmap option_fmap option_map snd mbind option_bind].
  destruct (leading_ws_split q) as (a & b & Hq & Hw). rewrite Hw. destruct (_ <? _).
  - eexists. split; [done|]. unfold range_ok. simpl. split_and!; [done| |lia].
    rewrite Ht, Hq, <- Hp, <- blen_app, app_assoc. apply boundary_at.
  - destruct (boundary_split _ _ Hs) as (p' & q' & Hsp' & Ht' & Hp'). rewrite Hsp'. cbn [fmap option_fmap option_map fst mbind option_bind].
    destruct (leading_ws_split (rev p')) as (c & d & Hr & Hw'). rewrite Hw'.
    eexists. split; [done|]. unfold range_ok. simpl.
    assert (p' = rev d ++ rev c) as Hpp by by rewrite <- rev_app_distr, <- Hr, rev_involutive.
    split_and!; [|done|lia]. rewrite Ht', Hpp, <- Hp', Hpp, blen_app, !blen_rev.
    replace (blen d + blen c - blen c) with (blen (rev d)) by (rewrite blen_rev; lia). rewrite <- app_assoc. apply boundary_at.
Qed.
Definition object_ok (ta : TextArea) (o : option (option Range)) : Prop :=
  exists r, o = Some r /\ forall x, r = Some x -> range_ok (text ta) x.
Lemma word_object_ok scope big ta : object_ok ta (word_text_object_range scope big ta).
Proof.
  unfold word_text_object_range.
  assert (exists inner, (if big then Some (big_word_range_at_cursor ta) else small_word_range_at_cursor ta) = Some inner /\
    forall x, inner = Some x -> range_ok (text ta) x) as (inner & -> & Hin).
  { destruct big; [exists (big_word_range_at_cursor ta); split; [done|intros x; apply big_word_ok]|].
    apply small_word_ok. eapply Forall_impl; [apply runs_ok|]. by intros r [? _]. }
  cbn [mbind option_bind]. destruct inner as [r|]; [|by exists None].
  specialize (Hin r eq_refl). destruct scope; [exists (Some r); split; [done|by intros x [= <-]]|].
  destruct (expand_word_ok r ta Hin) as (r' & -> & Hr'). exists (Some r'). split; [done|]. by intros x [= <-].
Qed.

(** *** Pairs and quotes *)

Lemma better_ok t candidate best :
  boundary (start candidate) t -> boundary (end_ candidate) t -> (forall r, best = Some r -> range_ok t r) ->
  forall r, better candidate best = Some r -> range_ok t r.
Proof.
  intros Hs He Hb r. unfold better. destruct (_ && _) eqn:Hc; [|apply Hb]. intros [= <-].
  apply andb_true_iff in Hc as [Hle%Nat.leb_le _]. by repeat split.
Qed.
(** Every character starts and ends at a boundary. *)
Lemma char_bounds n s t x y i c :
  t = x ++ s ++ y -> blen x = n -> (i, c) ∈ char_indices_from n s -> boundary i t /\ boundary (i + width c) t.
Proof.
  intros -> <- Hin. destruct (char_indices_elem _ _ _ _ Hin) as (a & b & -> & ->).
  replace (x ++ (a ++ c :: b) ++ y) with ((x ++ a) ++ [c] ++ b ++ y) by by rewrite <- !app_assoc.
  rewrite <- blen_app. split; [apply boundary_at|]. apply boundary_app_r. replace (width c) with (blen [c]) by (simpl; lia).
  apply boundary_at.
Qed.
Lemma paired_ok scope op cl stack best cs ta :
  (forall i c, (i, c) ∈ cs -> boundary i (text ta) /\ boundary (i + width c) (text ta)) ->
  Forall (fun i => boundary i (text ta) /\ boundary (i + width op) (text ta)) stack ->
  (forall r, best = Some r -> range_ok (text ta) r) ->
  forall r, paired_loop scope op cl stack best cs ta = Some r -> range_ok (text ta) r.
Proof.
  revert stack best. induction cs as [|[i c] cs IH]; intros stack best Hcs Hst Hb r; simpl; [apply Hb|].
  assert (forall j d, (j, d) ∈ cs -> boundary j (text ta) /\ boundary (j + width d) (text ta)) as Hcs'.
  { intros j d Hin. apply (Hcs j d). by right. }
  destruct (Hcs i c ltac:(by left)) as [Hi Hic]. destruct (is_inside_element i ta); [by apply IH|].
  destruct (c =? op)%N eqn:Hop; [apply N.eqb_eq in Hop as ->; apply IH; [done|by constructor|done]|].
  destruct (c =? cl)%N; [|by apply IH]. destruct stack as [|o stack]; [by apply IH|].
  apply Forall_cons in Hst as [[Ho Hoo] Hst]. apply IH; [done..|].
  destruct (_ && _); [|done]. apply better_ok; [by destruct scope..|done].
Qed.
Lemma escaped_ok pos ta : boundary pos (text ta) -> exists b, is_escaped pos ta = Some b.
Proof. intros Hb. unfold is_escaped. destruct (slice_to_ok _ _ Hb) as [p ->]. by eexists. Qed.
Lemma quoted_ok scope quote line_start op best cs ta :
  (forall i c, (i, c) ∈ cs -> boundary (line_start + i) (text ta) /\ boundary (line_start + i + width c) (text ta)) ->
  (forall i, op = Some i -> boundary i (text ta) /\ boundary (i + width quote) (text ta)) ->
  (forall r, best = Some r -> range_ok (text ta) r) ->
  object_ok ta (quoted_loop scope quote line_start op best cs ta).
Proof.
  revert op best. induction cs as [|[i c] cs IH]; intros op best Hcs Hop Hb; simpl; [by exists best|].
  assert (forall j d, (j, d) ∈ cs -> boundary (line_start + j) (text ta) /\ boundary (line_start + j + width d) (text ta)) as Hcs'.
  { intros j d Hin. apply (Hcs j d). by right. }
  destruct (Hcs i c ltac:(by left)) as [Hi Hic]. destruct (is_inside_element _ ta || _) eqn:Hskip; [by apply IH|].
  apply orb_false_iff in Hskip as [_ Hq%negb_false_iff]. apply N.eqb_eq in Hq as ->.
  destruct (escaped_ok _ _ Hi) as [[|] ->]; cbn [mbind option_bind]; [by apply IH|].
  destruct op as [o|]; [|apply IH; [done| |done]; by intros j [= <-]].
  destruct (Hop o eq_refl) as [Ho Hoo]. apply IH; [done..|]. destruct (_ && _); [|done].
  apply better_ok; [by destruct scope..|done].
Qed.
Lemma quoted_object_ok scope quote ta : wf ta -> object_ok ta (quoted_text_object_range scope quote ta).
Proof.
  intros Hwf. unfold quoted_text_object_range. destruct (bol_ok ta Hwf) as (b & -> & Hb & Hle & _).
  destruct (eol_ok ta Hwf) as (e & -> & He & Hle' & _). cbn [mbind option_bind].
  destruct (boundary_two b e _ Hb He) as (x & l & y & Ht & Hx & Hl); [lia|].
  rewrite <- Hx, <- Hl. rewrite Ht at 1. rewrite slice_between. cbn [mbind option_bind].
  apply quoted_ok; [|done|done]. intros i c Hin. unfold char_indices in Hin.
  destruct (char_indices_elem _ _ _ _ Hin) as (a & d & -> & ->). simpl.
  apply (char_bounds (blen x) (a ++ c :: d) (text ta) x y); [done..|].
  rewrite char_indices_app. apply elem_of_app. right. by left.
Qed.
Lemma text_object_ok object scope ta : wf ta -> object_ok ta (text_object_range object scope ta).
Proof.
  intros Hwf. assert (forall op cl, object_ok ta (Some (paired_text_object_range scope op cl ta))) as Hpair.
  { intros op cl. eexists. split; [done|]. apply paired_ok; [|constructor|done].
    intros i c Hin. eapply (char_bounds 0 (text ta) (text ta) [] []); [by rewrite app_nil_r|done|exact Hin]. }
  destruct object; simpl; try apply Hpair; try by apply quoted_object_ok.
  - apply word_object_ok.
  - apply word_object_ok.
Qed.

(** *** Motions *)

Lemma target_ok motion ta : wf ta -> exists n, target_for_motion motion ta = Some n /\ boundary n (text ta).
Proof.
  intros Hwf. unfold target_for_motion.
  assert (forall o, good ta o -> (forall ta', o = Some ta' -> text ta' = text ta) ->
    exists n, (moved ← o; Some (cursor_pos moved)) = Some n /\ boundary n (text ta)) as Hgo.
  { intros o (ta' & -> & Hwf' & _) Ht. eexists. split; [done|]. rewrite <- (Ht ta' eq_refl). by destruct Hwf'. }
  assert (forall n, exists m, Some (cursor_pos (set_cursor n ta)) = Some m /\ boundary m (text ta)) as Hset.
  { intros n. eexists. split; [done|]. by destruct (set_cursor_fields n ta Hwf) as (_ & _ & _ & ? & _). }
  assert (forall s e c ta1 ta', text ta1 = text ta -> move_to_display_col_on_line s e c ta1 = Some ta' -> text ta' = text ta) as Hcol.
  { intros s e c ta1 ta' Ht. unfold move_to_display_col_on_line. destruct (slice s e (text ta1)); [|done]. intros [= <-]. done. }
  assert (forall c ta1, logical_col ta = Some (c, ta1) -> text ta1 = text ta) as Hlog.
  { intros c ta1. destruct (logical_col_ok ta Hwf) as (c' & ta2 & -> & _ & Ht & _). by intros [= _ <-]. }
  assert (forall c line ta', move_to_visual c line ta = Some ta' -> text ta' = text ta) as Hvis.
  { intros c line ta'. unfold move_to_visual. apply Hcol. by destruct (preferred_col ta). }
  destruct motion.
  - apply Hgo; [by apply move_left_good|intros ta' Heq; by injection Heq as <-].
  - apply Hgo; [by apply move_right_good|intros ta' Heq; by injection Heq as <-].
  - apply Hgo; [by apply move_up_good|]. intros ta' Hm. unfold move_cursor_up in Hm.
    destruct (visual_target false ta) as [[[c [line|]]|]|]; cbn [mbind option_bind] in Hm; [by eapply Hvis|by injection Hm as <-| |done].
    destruct (slice_to _ _); [|done]. cbn [mbind option_bind] in Hm.
    destruct (rfind_char _ _) as [[i d]|]; [|by injection Hm as <-].
    destruct (logical_col ta) as [[c ta1]|] eqn:Hl; [|done]. cbn [mbind option_bind] in Hm.
    destruct (beginning_of_line _ _); [|done]. cbn [mbind option_bind] in Hm. eapply Hcol; [|exact Hm]. by eapply Hlog.
  - apply Hgo; [by apply move_down_good|]. intros ta' Hm. unfold move_cursor_down in Hm.
    destruct (visual_target true ta) as [[[c [line|]]|]|]; cbn [mbind option_bind] in Hm; [by eapply Hvis|by injection Hm as <-| |done].
    destruct (logical_col ta) as [[c ta1]|] eqn:Hl; [|done]. cbn [mbind option_bind] in Hm.
    destruct (slice_from _ _); [|done]. cbn [mbind option_bind] in Hm.
    destruct (find_char _ _) as [i|]; [|injection Hm as <-; exact (Hlog _ _ eq_refl)].
    destruct (end_of_line _ _); [|done]. cbn [mbind option_bind] in Hm. eapply Hcol; [|exact Hm]. by eapply Hlog.
  - destruct (beginning_of_next_word_ok ta Hwf) as (b & -> & _). apply Hset.
  - destruct (previous_word_ok ta Hwf) as (b & -> & _). apply Hset.
  - destruct (word_end_exclusive_ok ta Hwf) as (b & -> & _). apply Hset.
  - destruct (bol_ok ta Hwf) as (b & -> & _). apply Hset.
  - destruct (eol_ok ta Hwf) as (b & -> & _). apply Hset.
Qed.
Lemma vertical_ok up ta : wf ta -> object_ok ta (linewise_range_for_vertical_motion up ta).
Proof.
  intros Hwf. unfold linewise_range_for_vertical_motion.
  destruct (current_line_ok ta Hwf) as (r & -> & Hs & He & Hle & Hs1). cbn [mbind option_bind].
  assert (forall x, boundary (start x) (text ta) -> boundary (end_ x) (text ta) ->
    object_ok ta (Some (if start x <? end_ x then Some x else None))) as Hfin.
  { intros x Hxs Hxe. eexists. split; [done|]. intros y. destruct (start x <? end_ x) eqn:Hlt; [|done].
    apply Nat.ltb_lt in Hlt. intros [= <-]. repeat split; [done..|lia]. }
  destruct up.
  - destruct (start r =? 0) eqn:Hz; [apply Hfin; done|]. apply Nat.eqb_neq in Hz.
    destruct (beginning_of_line_ok (start r - 1) ta) as (b & -> & Hb & _); [apply Hs1; lia|]. by apply Hfin.
  - destruct (blen (text ta) <=? end_ r) eqn:Hz; [apply Hfin; done|].
    destruct (end_of_line_ok _ _ He) as (e & -> & Hbe & _ & Hbe1). cbn [mbind option_bind]. apply Hfin; [done|]. simpl.
    destruct (e <? blen (text ta)) eqn:Hlt; [apply Hbe1; by apply Nat.ltb_lt|done].
Qed.
Lemma motion_ok motion ta : wf ta -> object_ok ta (range_for_motion motion ta).
Proof.
  intros Hwf. pose proof (cursor_ok _ Hwf) as Hc.
  assert (object_ok ta (target ← target_for_motion motion ta;
    Some (if cursor_pos ta =? target then None
          else Some (if target <? cursor_pos ta then mkRange target (cursor_pos ta) else mkRange (cursor_pos ta) target)))) as Hgo.
  { destruct (target_ok motion ta Hwf) as (n & -> & Hn). cbn [mbind option_bind]. eexists. split; [done|]. intros x.
    destruct (_ =? n); [done|]. intros [= <-]. destruct (n <? cursor_pos ta) eqn:Hlt; unfold range_ok; simpl.
    - apply Nat.ltb_lt in Hlt. split_and!; [done..|lia].
    - apply Nat.ltb_ge in Hlt. split_and!; [done..|lia]. }
  destruct motion; try exact Hgo; by apply vertical_ok.
Qed.

(** ** Keys *)

Lemma good_mode ta r m p : good ta r -> good ta (ta' ← r; Some (put_mode m p ta')).
Proof. intros Hg. apply good_then; [done|]. intros ta' [Hc _ _ _]. split_and!; [done..|by left]. Qed.
Lemma good_set_mode ta r m : good ta r -> good ta (ta' ← r; Some (set_mode m ta')).
Proof. intros Hg. apply good_then; [done|]. intros ta' [Hc _ _ _]. split_and!; [done..|by left]. Qed.
Lemma good_put ta m p : wf ta -> good ta (Some (put_mode m p ta)).
Proof. intros Hwf. by apply good_kept. Qed.
Lemma good_cursor_mode ta n m : wf ta -> good ta (Some (set_mode m (set_cursor n ta))).
Proof.
  intros Hwf. apply (good_set_mode ta (Some (set_cursor n ta)) m). by apply set_cursor_good.
Qed.
Lemma operator_range_good op r ta : wf ta -> range_ok (text ta) r -> good ta (apply_vim_operator_to_range op r ta).
Proof.
  intros Hwf Hr. destruct op; simpl; [by apply kill_range_good|by apply yank_good_range|].
  apply good_then; [by apply kill_range_good|]. intros ta' [Hc _ _ _]. split_and!; [done..|by left].
Qed.
Lemma operator_good op motion ta : wf ta -> good ta (apply_vim_operator op motion ta).
Proof.
  intros Hwf. unfold apply_vim_operator. destruct (motion_ok motion ta Hwf) as (r & -> & Hr). cbn [mbind option_bind].
  destruct r as [r|]; [|by apply good_refl]. specialize (Hr r eq_refl).
  destruct op; [by apply kill_range_good|by apply yank_good_range|by apply good_refl].
Qed.
(** Escape keeps the cursor on its line, which can bring it into an element that has a
    newline; every other key keeps it out of the elements. *)
Definition insert_escape (event : KeyEvent) (ta : TextArea) : Prop :=
  vim_enabled ta = true /\ vim_mode ta = InsertMode /\ code event = Esc.
Lemma vim_escape_safe event ta : wf ta -> code event = Esc -> safe ta (handle_vim_insert event ta).
Proof.
  intros Hwf Hesc. unfold handle_vim_insert. rewrite decide_True by done.
  pose proof (cursor_ok _ Hwf) as Hc. destruct (bol_ok ta Hwf) as (b & -> & Hb & _). cbn [mbind option_bind].
  set (ta1 := if b <? cursor_pos ta then _ else ta).
  assert (text ta1 = text ta /\ elements ta1 = elements ta /\ wrap_cache ta1 = wrap_cache ta /\ boundary (cursor_pos ta1) (text ta))
    as (Ht & He & Hw & Hb1).
  { subst ta1. destruct (b <? cursor_pos ta); [|done]. split_and!; [done..|]. simpl.
    destruct (prev_atomic_ok _ ta Hwf Hc) as (Hp & _). by destruct (Nat.max_spec (prev_atomic_boundary (cursor_pos ta) ta) b) as [[_ ->]|[_ ->]]. }
  apply safe_same; [done|..]; unfold enter_vim_normal_mode; by destruct (vim_enabled ta1).
Qed.
Lemma vim_insert_good event ta : wf ta -> code event <> Esc -> good ta (handle_vim_insert event ta).
Proof. intros Hwf Hne. unfold handle_vim_insert. rewrite decide_False by done. by apply input_with_keymap_good. Qed.
Lemma vim_operator_good op event ta : wf ta -> good ta (handle_vim_operator op event ta).
Proof.
  intros Hwf. unfold handle_vim_operator.
  destruct (match op with OpDelete => _ | _ => false end); [by apply kill_current_line_good|].
  destruct (match op with OpYank => _ | _ => false end); [by apply yank_current_line_good|].
  destruct (is_pressed _ event); [by apply good_refl|].
  destruct (vim_text_object_scope_for_event event ta); [by apply good_put|].
  destruct (vim_motion_for_event event ta) as [motion|]; destruct op; (by apply good_refl) || by apply operator_good.
Qed.
Lemma vim_text_object_good op scope event ta : wf ta -> good ta (handle_vim_text_object op scope event ta).
Proof.
  intros Hwf. unfold handle_vim_text_object. destruct (is_pressed _ event); [by apply good_refl|].
  destruct (vim_text_object_for_event event ta) as [object|]; [|by apply good_refl].
  destruct (text_object_ok object scope ta Hwf) as (r & -> & Hr). cbn [mbind option_bind].
  destruct r as [r|]; [|by apply good_refl]. apply operator_range_good; [done|by apply Hr].
Qed.
Lemma open_below_good ta : wf ta -> good ta (open_line_below_cursor ta).
Proof.
  intros Hwf. unfold open_line_below_cursor. destruct (eol_ok ta Hwf) as (e & -> & _). cbn [mbind option_bind].
  apply insert_then_good; [done|]. intros ta' Hwf'. by apply set_cursor_fields.
Qed.
Lemma open_above_good ta : wf ta -> good ta (open_line_above_cursor ta).
Proof.
  intros Hwf. unfold open_line_above_cursor. destruct (bol_ok ta Hwf) as (b & -> & _). cbn [mbind option_bind].
  apply insert_then_good; [done|]. intros ta' Hwf'. by apply set_cursor_fields.
Qed.
Lemma vim_command_good event ta : wf ta -> good ta (vim_command event ta).
Proof.
  intros Hwf. unfold vim_command.
  destruct (is_pressed (enter_insert _) event); [by apply good_put|].
  destruct (is_pressed (append_after_cursor _) event); [by apply good_cursor_mode|].
  destruct (is_pressed (append_line_end _) event).
  { destruct (eol_ok ta Hwf) as (e & -> & _). by apply good_cursor_mode. }
  destruct (is_pressed (insert_line_start _) event).
  { destruct (first_non_blank_ok ta Hwf) as (e & -> & _). by apply good_cursor_mode. }
  destruct (is_pressed (open_line_below _) event); [by apply open_below_good|].
  destruct (is_pressed (open_line_above _) event); [by apply open_above_good|].
  destruct (is_pressed (normal_left _) event); [by apply move_left_good|].
  destruct (is_pressed (normal_right _) event); [by apply move_right_good|].
  destruct (is_pressed (normal_down _) event); [by apply move_down_good|].
  destruct (is_pressed (normal_up _) event); [by apply move_up_good|].
  destruct (is_pressed (normal_word_forward _) event).
  { destruct (beginning_of_next_word_ok ta Hwf) as (e & -> & _). by apply set_cursor_good. }
  destruct (is_pressed (normal_word_backward _) event).
  { destruct (previous_word_ok ta Hwf) as (e & -> & _). by apply set_cursor_good. }
  destruct (is_pressed (normal_word_end _) event).
  { destruct (word_end_cursor_ok ta Hwf) as (e & -> & _). by apply set_cursor_good. }
  destruct (is_pressed (normal_line_start _) event).
  { destruct (bol_ok ta Hwf) as (e & -> & _). by apply set_cursor_good. }
  destruct (is_pressed (normal_line_end _) event).
  { destruct (line_end_cursor_ok ta Hwf) as (e & -> & _). by apply set_cursor_good. }
  destruct (is_pressed (delete_char _) event); [by apply delete_forward_kill_good|].
  destruct (is_pressed (substitute_char _) event).
  { destruct (eol_ok ta Hwf) as (e & -> & _). cbn [mbind option_bind]. apply good_set_mode.
    destruct (_ <? e); [by apply delete_forward_kill_good|by apply good_refl]. }
  destruct (is_pressed (delete_to_line_end _) event); [by apply vim_kill_eol_good|].
  destruct (is_pressed (change_to_line_end _) event); [by apply good_set_mode, vim_kill_eol_good|].
  destruct (is_pressed (normal_yank_line _) event); [by apply yank_current_line_good|].
  destruct (is_pressed (paste_after _) event); [by apply paste_good|].
  destruct (is_pressed (start_delete_operator _) event); [by apply good_put|].
  destruct (is_pressed (start_yank_operator _) event); [by apply good_put|].
  destruct (is_pressed (start_change_operator _) event); [by apply good_put|].
  destruct (is_pressed (cancel_operator _) event); [by apply good_put|by apply good_refl].
Qed.
Lemma vim_normal_good event ta : wf ta -> good ta (handle_vim_normal event ta).
Proof.
  intros Hwf. unfold handle_vim_normal. assert (wf (set_pending PendingNone ta)) as Hwf' by by destruct Hwf.
  eapply good_after; [..|destruct (vim_pending ta); [by apply vim_command_good|by apply vim_operator_good|by apply vim_text_object_good]]; [done..|by left].
Qed.
Lemma input_good event ta : wf ta -> ~ insert_escape event ta -> good ta (input event ta).
Proof.
  intros Hwf Hne. unfold input. destruct (negb _); [by apply good_refl|].
  destruct (vim_enabled ta) eqn:Hv; [|by apply input_with_keymap_good]. unfold handle_vim_input.
  destruct (vim_mode ta) eqn:Hm; [by apply vim_normal_good|]. apply vim_insert_good; [done|]. by intros Hesc; apply Hne.
Qed.
Lemma input_safe event ta : wf ta -> safe ta (input event ta).
Proof.
  intros Hwf. destruct (decide (code event = Esc)) as [Hesc|Hne]; [|by apply good_safe, input_good; [|intros (_ & _ & ?)]].
  destruct (vim_enabled ta) eqn:Hv; [|apply good_safe, input_good; [done|by intros (Hv' & _); congruence]].
  destruct (vim_mode ta) eqn:Hm; [apply good_safe, input_good; [done|by intros (_ & Hm' & _); congruence]|].
  unfold input. destruct (negb _); [by apply good_safe, good_refl|]. rewrite Hv. unfold handle_vim_input. rewrite Hm.
  by apply vim_escape_safe.
Qed.

End vim.
End VimInput.
