(* ===== verification/TextAreaElements.v ===== *)
(** The elements of the text area and its wrapped lines: every operation that makes,
    changes or removes elements keeps the invariant, and wrapping never panics. *)
From S2P Require Import Prelude ByteText TextKeys TextArea TextAreaEdits TextAreaMoves.

Module Elements.
Import ByteText Unicode Keys TextArea Edits Moves.

Section elements.
Context {U : Unicode} {UL : UnicodeLaws U}.

(** ** Wrapping *)

Lemma slice_from_first n t : boundary n t -> n < blen t -> exists c q, slice_from n t = Some (c :: q).
Proof.
  intros Hb Hlt. destruct (boundary_split _ _ Hb) as (p & q & Hs & Ht & Hp). unfold slice_from. rewrite Hs. simpl.
  destruct q as [|c q]; [|by exists c, q]. rewrite Ht, app_nil_r in Hlt. lia.
Qed.
Lemma skip_spaces_total fuel t n : boundary n t -> blen t < n + fuel -> is_Some (skip_spaces fuel t n).
Proof.
  revert n. induction fuel as [|fuel IH]; intros n Hb Hf; simpl; [apply boundary_le in Hb; lia|].
  destruct (n <? blen t) eqn:Hlt; [|done]. apply Nat.ltb_lt in Hlt.
  destruct (slice_from_first n t Hb Hlt) as (c & q & Hq). rewrite Hq. simpl. destruct (c =? 32)%N eqn:Hc; [|done].
  apply IH; [by eapply first_char_from|]. pose proof (width_pos c). lia.
Qed.
Lemma match_owned_total t w n saw : boundary n t -> is_Some (match_owned t w n saw).
Proof.
  revert n saw. induction w as [|c w IH]; intros n saw Hb; simpl; [done|].
  destruct (n <? blen t) eqn:Hlt.
  - apply Nat.ltb_lt in Hlt. destruct (slice_from_first n t Hb Hlt) as (d & q & Hq). rewrite Hq. simpl.
    destruct (bool_decide _) eqn:Hd.
    + apply bool_decide_eq_true in Hd. injection Hd as ->. apply IH. by eapply first_char_from.
    + destruct (_ && _); [by apply IH|]. destruct (negb saw); [by apply IH|done].
  - simpl. destruct (_ && _); [by apply IH|]. destruct (negb saw); [by apply IH|done].
Qed.
Lemma owned_total t cursor w : boundary cursor t -> is_Some (map_owned_wrapped_line_to_range t cursor w).
Proof.
  intros Hb. unfold map_owned_wrapped_line_to_range.
  assert (exists s, (if Str.starts_with [32%N] w then Some cursor else skip_spaces (S (blen t)) t cursor) = Some s /\ boundary s t)
    as (s & -> & Hs).
  { destruct (Str.starts_with _ w); [by exists cursor|]. destruct (skip_spaces_total (S (blen t)) t cursor Hb) as [s Hs]; [lia|].
    exists s. split; [done|by eapply skip_spaces_ok]. }
  cbn [mbind option_bind]. by destruct (match_owned_total t w s false Hs) as [e ->].
Qed.
Lemma owned_ends t cursor w r : boundary cursor t -> map_owned_wrapped_line_to_range t cursor w = Some r -> boundary (end_ r) t.
Proof.
  unfold map_owned_wrapped_line_to_range. intros Hb Hm.
  destruct (if Str.starts_with [32%N] w then Some cursor else skip_spaces (S (blen t)) t cursor) as [s|] eqn:Hs; [|done].
  assert (boundary s t) as Hbs by (destruct (Str.starts_with _ w); [by injection Hs as <-|by eapply skip_spaces_ok]).
  cbn [mbind option_bind] in Hm. destruct (match_owned t w s false) as [e|] eqn:He; [|done]. injection Hm as <-.
  by destruct (match_owned_ok _ _ _ _ _ Hbs He).
Qed.
Lemma wrap_from_total t cursor ls :
  boundary cursor t -> (forall a b, Borrowed a b ∈ ls -> boundary a t /\ boundary b t /\ a <= b) ->
  is_Some (wrap_from t cursor ls).
Proof.
  revert cursor. induction ls as [|l ls IH]; intros cursor Hc Hls; simpl; [done|].
  assert (exists r, match l with Borrowed a b => Some (mkRange a b)
    | Foreign slice | Owned slice => map_owned_wrapped_line_to_range t cursor slice end = Some r /\ boundary (end_ r) t)
    as (r & -> & Hr).
  { destruct l as [a b|s|s]; [|destruct (owned_total t cursor s Hc) as [r Hr]; exists r; split; [done|by eapply owned_ends]..].
    exists (mkRange a b). split; [done|]. simpl. by destruct (Hls a b) as (_ & ? & _); [left|]. }
  cbn [mbind option_bind]. destruct (slice_from_ok _ _ Hr) as [q Hq]. rewrite Hq. cbn [mbind option_bind].
  destruct (IH (end_ r + leading_spaces q)) as [rs ->]; [by apply leading_spaces_ok|intros a b Hin; apply Hls; by right|done].
Qed.
Lemma wrap_ranges_total t w : is_Some (wrap_ranges t w).
Proof. apply wrap_from_total; [apply boundary_0|]. intros a b. apply wrap_law. Qed.
Lemma wrapped_lines_ok w ta :
  wf ta -> exists ls ta', wrapped_lines w ta = Some (ls, ta') /\ wf ta' /\ wrap_ranges (text ta) w = Some ls /\
    text ta' = text ta /\ elements ta' = elements ta /\ cursor_pos ta' = cursor_pos ta /\ settings ta' = settings ta.
Proof.
  intros Hwf. destruct (wrap_ranges_total (text ta) w) as [ls Hls].
  assert (wf (put_cache (Some (mkCache w ls)) ta)) as Hput.
  { destruct Hwf as [H1 H2 H3 _]. constructor; [done..|]. by intros c [= <-]. }
  unfold wrapped_lines. rewrite Hls. destruct (wrap_cache ta) as [c|] eqn:Hc; [|by eexists _, _].
  destruct (cache_width c =? w) eqn:Hw; [|by eexists _, _]. apply Nat.eqb_eq in Hw.
  exists (cache_lines c), ta. split_and!; [done..| |done|done|done|done]. rewrite <- Hls, <- Hw. by apply cache_ok.
Qed.

(** ** New elements *)

Lemma insert_element_perm e es : insert_by_start e es ≡ₚ e :: es.
Proof.
  induction es as [|e' es IH]; simpl; [done|]. destruct (_ <=? _); [done|].
  etransitivity; [apply Permutation_skip, IH|apply Permutation_swap].
Qed.
Lemma sort_elements_perm es : sort_by_start es ≡ₚ es.
Proof. induction es as [|e es IH]; simpl; [done|]. rewrite insert_element_perm. by apply Permutation_skip. Qed.
Lemma wf_elements es ta :
  wf ta -> Forall (element_ok (text ta)) es -> ForallOrdPairs apart es -> wf (put_elements (sort_by_start es) ta).
Proof.
  intros [Hc _ _ Hcache] Hok Hap. constructor; [done| | |done]; simpl.
  - by rewrite sort_elements_perm.
  - eapply pairs_perm; [apply apart_sym| |exact Hap]. symmetry. apply sort_elements_perm.
Qed.
Lemma pairs_snoc {A} (R : A -> A -> Prop) l x :
  ForallOrdPairs R l -> Forall (fun y => R y x) l -> ForallOrdPairs R (l ++ [x]).
Proof.
  induction 1 as [|y l Hy Hl IH]; intros Hx; simpl; [repeat constructor|].
  apply Forall_cons in Hx as [Hyx Hx]. constructor; [|by apply IH]. apply Forall_app. by split; [|constructor].
Qed.
Definition outside (r : Range) (e : TextElement) : Prop := end_ (range e) <= start r \/ end_ r <= start (range e).
Lemma add_ok r n ta :
  wf ta -> boundary (start r) (text ta) -> boundary (end_ r) (text ta) -> start r < end_ r ->
  Forall (outside r) (elements ta) -> wf (snd (add_element_with_id r n ta)).
Proof.
  intros Hwf Hs He Hlt Hout. unfold add_element_with_id. destruct (next_element_id ta) as [id ta1] eqn:Hid.
  assert (wf ta1 /\ text ta1 = text ta /\ elements ta1 = elements ta) as (Hwf1 & Ht & Hel).
  { injection Hid as _ <-. destruct Hwf. split; [by constructor|done]. }
  simpl. apply wf_elements; [done|..]; rewrite ?Ht, Hel.
  - apply Forall_app. split; [by destruct Hwf|]. by repeat constructor.
  - apply pairs_snoc; [by destruct Hwf|]. eapply Forall_impl; [exact Hout|]. intros e. unfold outside, apart. simpl. lia.
Qed.
(** After an edit no element reaches into the new text. *)
Lemma edited_outside es es' s s' p m t q :
  edited_by es es' s s' p m t q -> Forall (element_ok s) es ->
  Forall (outside (mkRange (blen p) (blen p + blen t))) es'.
Proof.
  intros (-> & -> & Hc & ->) Hok. apply Forall_fmap, Forall_forall. intros e [He Hw]%elem_of_filterb.
  apply negb_true_iff in Hw. rewrite Forall_forall in Hc, Hok. unfold compose.
  destruct (kept_element p m t q e (Hok e He) (Hc e He) Hw) as (_ & _ & _ & _ & [[Hl ->]|(Hl & Hs & He')]);
    unfold outside; simpl; [by left|right; lia].
Qed.
Lemma set_cursor_wf n ta : wf ta -> wf (set_cursor n ta).
Proof. intros Hwf. by apply set_cursor_ok. Qed.
Lemma insert_then_add n t ta :
  wf ta -> t <> [] ->
  exists ta', insert_str_at (clamp_pos_for_insertion (cursor_pos ta) ta) t ta = Some ta' /\
    wf (snd (add_element_with_id
      (mkRange (clamp_pos_for_insertion (cursor_pos ta) ta) (clamp_pos_for_insertion (cursor_pos ta) ta + blen t)) n ta')).
Proof.
  intros Hwf Hne. set (s := clamp_pos_for_insertion (cursor_pos ta) ta).
  assert (boundary s (text ta) /\ not_inside s (elements ta)) as [Hs Hn].
  { destruct (nearer_edge_ok _ ta Hwf (clamp_char_ok (cursor_pos ta) ta)) as (? & ? & _). done. }
  destruct (insert_str_at_spec s t ta Hwf) as (p & q & ta' & -> & Hp & Hed & Hwf' & _).
  unfold clamp_pos_for_insertion in Hp. rewrite clamp_char_id in Hp by done.
  destruct (nearer_edge_ok s ta Hwf Hs) as (_ & _ & Hid). rewrite Hid in Hp by done.
  exists ta'. split; [done|]. pose proof Hed as (_ & Ht & _). apply add_ok; [done|..]; simpl; rewrite <- ?Hp.
  - rewrite Ht. apply boundary_at.
  - rewrite Ht, <- blen_app, app_assoc. apply boundary_at.
  - destruct t as [|c t]; [done|]. simpl. pose proof (width_pos c). lia.
  - eapply edited_outside; [exact Hed|by destruct Hwf].
Qed.
Lemma insert_element_ok t ta : wf ta -> t <> [] -> exists id ta', insert_element t ta = Some (id, ta') /\ wf ta'.
Proof.
  intros Hwf Hne. unfold insert_element, add_element. destruct (insert_then_add None t ta Hwf Hne) as (ta' & -> & Hadd).
  cbn [mbind option_bind]. destruct (add_element_with_id _ None ta') as [id ta2]. simpl in Hadd.
  exists id, (set_cursor (clamp_pos_for_insertion (cursor_pos ta) ta + blen t) ta2). split; [done|by apply set_cursor_wf].
Qed.
Lemma insert_named_ok t id ta : wf ta -> t <> [] -> exists ta', insert_named_element t id ta = Some ta' /\ wf ta'.
Proof.
  intros Hwf Hne. unfold insert_named_element. destruct (insert_then_add (Some id) t ta Hwf Hne) as (ta' & -> & Hadd).
  cbn [mbind option_bind]. eexists. split; [done|]. by apply set_cursor_wf.
Qed.
Lemma find_named_in id ta e : find_named id ta = Some e -> e ∈ elements ta.
Proof. by intros [? _]%find_elem. Qed.
(** An element is clear of every other, so it can be replaced as it is. *)
Lemma clear_of_own ta e : wf ta -> e ∈ elements ta -> Forall (clear_of (start (range e)) (end_ (range e))) (elements ta).
Proof.
  intros Hwf Hin. apply Forall_forall. intros e' Hin'.
  destruct (pairs_elem apart _ e e' apart_sym (elements_apart _ Hwf) Hin Hin') as [->|[?|?]]; unfold clear_of; lia.
Qed.
Lemma replace_element_edit t ta e :
  wf ta -> e ∈ elements ta ->
  exists p m q ta', replace_range_raw (range e) t ta = Some ta' /\ blen p = start (range e) /\
    edited_by (elements ta) (elements ta') (text ta) (text ta') p m t q /\ wf ta'.
Proof.
  intros Hwf Hin. destruct (element_in ta e Hwf Hin) as (Hs & He & Hlt).
  destruct (boundary_two _ _ _ Hs He) as (p & m & q & Htext & Hp & Hm); [lia|].
  destruct (replace_range_raw_spec (range e) t ta p m q Hwf Htext Hp Hm (clear_of_own ta e Hwf Hin)) as (ta' & -> & Hed & Hwf' & _).
  by exists p, m, q, ta'.
Qed.
Lemma wf_filter f ta : wf ta -> wf (put_elements (List.filter f (elements ta)) ta).
Proof.
  intros [Hc Hok Hap Hcache]. constructor; [done| | |done]; simpl; [|by apply pairs_filter].
  apply Forall_forall. intros e [He _]%elem_of_filterb. rewrite Forall_forall in Hok. by apply Hok.
Qed.
Lemma replace_by_id_ok id t ta : wf ta -> exists b ta', replace_element_by_id id t ta = Some (b, ta') /\ wf ta'.
Proof.
  intros Hwf. unfold replace_element_by_id. destruct (find_named id ta) as [e|] eqn:Hf; [|by exists false, ta].
  destruct (replace_element_edit t ta e Hwf (find_named_in _ _ _ Hf)) as (p & m & q & ta' & -> & _ & _ & Hwf').
  cbn [mbind option_bind]. eexists _, _. split; [done|]. by apply wf_filter.
Qed.
Lemma update_by_id_ok id t ta :
  wf ta -> t <> [] -> exists b ta', update_named_element_by_id id t ta = Some (b, ta') /\ wf ta'.
Proof.
  intros Hwf Hne. unfold update_named_element_by_id. destruct (find_named id ta) as [e|] eqn:Hf; [|by exists false, ta].
  destruct (replace_element_edit t ta e Hwf (find_named_in _ _ _ Hf)) as (p & m & q & ta' & -> & Hp & Hed & Hwf').
  cbn [mbind option_bind]. eexists _, _. split; [done|]. pose proof Hed as (_ & Ht & _). rewrite <- Hp. apply add_ok; [done|..]; simpl.
  - rewrite Ht. apply boundary_at.
  - rewrite Ht, <- blen_app, app_assoc. apply boundary_at.
  - destruct t as [|c t]; [done|]. simpl. pose proof (width_pos c). lia.
  - eapply edited_outside; [exact Hed|by destruct Hwf].
Qed.

(** ** Ranges given from outside *)

Lemma clamp_range_ok r ta : boundary (start (clamp_range r ta)) (text ta) /\ boundary (end_ (clamp_range r ta)) (text ta).
Proof. split; apply clamp_char_ok. Qed.
Lemma add_range_ok r ta : wf ta -> forall id ta', add_element_range r ta = Some (id, ta') -> wf ta'.
Proof.
  intros Hwf id ta'. unfold add_element_range. destruct (clamp_range_ok r ta) as [Hs He].
  destruct (end_ _ <=? _) eqn:Hlt; [done|]. apply Nat.leb_gt in Hlt. destruct (existsb _ _); [done|].
  destruct (existsb _ _) eqn:Hov; [done|]. intros [= _ <-].
  apply (add_ok (clamp_range r ta) None ta); [done..|].
  apply Forall_forall. intros e Hin. unfold outside.
  destruct (decide (start (clamp_range r ta) < end_ (range e) /\ start (range e) < end_ (clamp_range r ta))) as [[H1 H2]|]; [|lia].
  assert (existsb (fun e => (start (clamp_range r ta) <? end_ (range e)) && (start (range e) <? end_ (clamp_range r ta))) (elements ta) = true)
    as Hex; [|congruence].
  apply existsb_exists. exists e. split; [by apply list_elem_of_In|]. apply andb_true_iff. by rewrite !Nat.ltb_lt.
Qed.
Lemma remove_range_ok r ta : wf ta -> wf (snd (remove_element_range r ta)).
Proof. intros Hwf. unfold remove_element_range. destruct (_ <=? _); [done|]. by apply wf_filter. Qed.

(** ** A new text *)

Definition ranges_ok (t : str) (rs : list Range) : Prop :=
  Forall (fun r => boundary (start r) t /\ boundary (end_ r) t /\ start r < end_ r) rs /\
  ForallOrdPairs (fun r r' => end_ r <= start r' \/ end_ r' <= start r) rs.
Definition push_element (ta : TextArea) (r : Range) : TextArea :=
  let r := clamp_range r ta in
  if end_ r <=? start r then ta
  else let '(id, ta) := next_element_id ta in put_elements (elements ta ++ [mkElement id r None]) ta.
Lemma push_elements_ok rs ta :
  ranges_ok (text ta) rs -> Forall (element_ok (text ta)) (elements ta) -> ForallOrdPairs apart (elements ta) ->
  Forall (fun e => Forall (fun r => outside r e) rs) (elements ta) ->
  let ta' := foldl push_element ta rs in
  text ta' = text ta /\ wrap_cache ta' = wrap_cache ta /\ cursor_pos ta' = cursor_pos ta /\
  Forall (element_ok (text ta)) (elements ta') /\ ForallOrdPairs apart (elements ta').
Proof.
  revert ta. induction rs as [|r rs IH]; intros ta [Hr Hp] Hok Hap Hout; simpl; [done|].
  apply Forall_cons in Hr as [(Hs & He & Hlt) Hr]. inversion_clear Hp as [|? ? Hrr Hp'].
  set (ta1 := push_element ta r).
  assert (text ta1 = text ta /\ wrap_cache ta1 = wrap_cache ta /\ cursor_pos ta1 = cursor_pos ta /\
    exists id, elements ta1 = elements ta ++ [mkElement id r None]) as (Ht & Hw & Hc & id & Hel).
  { subst ta1. unfold push_element, clamp_range. rewrite !Nat.min_l by by apply boundary_le. rewrite !clamp_char_id by done.
    simpl. assert (end_ r <=? start r = false) as -> by (apply Nat.leb_gt; lia). destruct r. split_and!; [done..|]. by eexists. }
  destruct (IH ta1) as (H1 & H2 & H3 & H4 & H5); rewrite ?Ht, ?Hel.
  - done.
  - apply Forall_app. split; [done|]. by repeat constructor.
  - apply pairs_snoc; [done|]. eapply Forall_impl; [exact Hout|]. intros e Ho. apply Forall_cons in Ho as [Ho _]. by apply Ho.
  - apply Forall_app. split; [|repeat constructor].
    + eapply Forall_impl; [exact Hout|]. intros e Ho. by apply Forall_cons in Ho as [_ Ho].
    + eapply Forall_impl; [exact Hrr|]. intros r'. unfold outside. simpl. lia.
  - rewrite Ht in *. split_and!; [congruence..|done|done].
Qed.
Lemma set_text_ok t rs ta :
  match rs with Some rs => ranges_ok t rs | None => True end -> wf (set_text_inner t rs ta) /\ text (set_text_inner t rs ta) = t.
Proof.
  intros Hrs. unfold set_text_inner.
  set (ta0 := put_elements [] (put_cursor (Nat.min (cursor_pos (put_text t ta)) (blen t)) (put_text t ta))).
  set (ta1 := match rs with None => ta0 | Some rs => _ end).
  assert (text ta1 = t /\ wrap_cache ta1 = None /\ Forall (element_ok t) (elements ta1) /\ ForallOrdPairs apart (elements ta1))
    as (Ht & Hw & Hok & Hap).
  { subst ta1. destruct rs as [rs|]; [|by repeat constructor].
    destruct (push_elements_ok rs ta0) as (H1 & H2 & _ & H4 & H5); [done|constructor..|]. simpl.
    split_and!; [done|done|by rewrite sort_elements_perm|].
    eapply pairs_perm; [apply apart_sym| |exact H5]. symmetry. apply sort_elements_perm. }
  split; [|done]. assert (wf (put_cursor 0 ta1)) as Hwf1.
  { constructor; [apply boundary_0|simpl; by rewrite Ht|done|]. intros c Hc. simpl in Hc. congruence. }
  destruct (clamp_nearest_ok (cursor_pos ta1) (put_cursor 0 ta1) Hwf1) as [Hb _].
  constructor; [exact Hb|simpl; by rewrite Ht|done|]. intros c Hc. simpl in Hc. congruence.
Qed.

(** ** A new payload *)

Lemma imap_replace {A B} (f : A -> B) (b : B) l1 x l2 :
  imap (fun j y => if decide (j = length l1) then b else f y) (l1 ++ x :: l2) = (f <$> l1) ++ b :: (f <$> l2).
Proof.
  rewrite imap_app. cbn [imap]. f_equal.
  - rewrite (imap_ext _ (fun _ => f)); [apply imap_const|]. intros i y Hi. apply lookup_lt_Some in Hi. by destruct (decide _); [lia|].
  - rewrite Nat.add_0_r. destruct (decide _); [|done]. f_equal.
    rewrite (imap_ext _ (fun _ => f)); [apply imap_const|]. intros i y _. simpl. by destruct (decide _); [lia|].
Qed.
(** What is apart from the element moves like after an edit of its range. *)
Lemma shift_other_apart s e' n x :
  s <= e' -> start (range x) < end_ (range x) -> end_ (range x) <= s \/ e' <= start (range x) ->
  (if decide (n = e' - s) then x else shift_other s e' n x) = shift_element s (e' - s) n x.
Proof.
  intros Hle Hx Hout. unfold shift_other, shift_element. replace (s + (e' - s)) with e' by lia.
  destruct (end_ (range x) <=? s) eqn:Hl; [by destruct (decide _)|]. apply Nat.leb_gt in Hl.
  assert (e' <=? start (range x) = true) as -> by (apply Nat.leb_le; lia).
  destruct (decide _) as [->|]; [|done]. destruct x as [i [a b] nm]. unfold shift_range. simpl in *. do 2 f_equal; lia.
Qed.
Lemma filter_none (es : list TextElement) a b :
  Forall (fun e => within a b e = false) es -> List.filter (fun e => negb (within a b e)) es = es.
Proof. induction 1 as [|e es He Hes IH]; simpl; [done|]. by rewrite He, IH. Qed.
Lemma replace_payload_ok old new_ ta :
  wf ta -> new_ <> [] -> exists b ta', replace_element_payload old new_ ta = Some (b, ta') /\ wf ta'.
Proof.
  intros Hwf Hne. unfold replace_element_payload.
  destruct (list_find _ _) as [[idx e]|] eqn:Hf; [|by exists false, ta].
  apply list_find_Some in Hf as (Hidx & Hpay & _). apply list_elem_of_split_length in Hidx as (l1 & l2 & Hel & ->).
  apply slice_Some in Hpay as (p & q & Htext & Hp & Hpo).
  destruct (_ || _); [by exists false, ta|]. rewrite <- Hpo, <- Hp.
  assert (ByteText.replace_range (blen p) (blen p + blen old) new_ (text ta) = Some (p ++ new_ ++ q)) as ->
    by (rewrite Htext; apply replace_range_app).
  cbn [mbind option_bind].
  rewrite Hel, imap_replace. pose proof Hwf as [_ Hok Hap _]. rewrite Hel in Hok, Hap.
  apply (pairs_perm _ _ (e :: l1 ++ l2) apart_sym) in Hap; [|symmetry; apply Permutation_middle].
  inversion_clear Hap as [|? ? He Hap0]. rewrite <- Permutation_middle in Hok. apply Forall_cons in Hok as [(_ & _ & Hlt) Hok0].
  set (f := fun x => if decide _ then x else _).
  assert (forall x, x ∈ l1 ++ l2 -> clear_of (blen p) (blen p + blen old) x /\ within (blen p) (blen p + blen old) x = false /\
    f x = shift_element (blen p) (blen old) (blen new_) x) as Hx.
  { intros x Hin. rewrite Forall_forall in He, Hok0. specialize (He x Hin). destruct (Hok0 x Hin) as (_ & _ & Hltx).
    unfold apart in He. rewrite <- Hpo in He, Hlt. rewrite <- Hp in He, Hlt. split_and!; [unfold clear_of; lia| |].
    - destruct (within _ _ x) eqn:Hw; [|done]. apply within_spec in Hw. lia.
    - subst f. simpl. rewrite shift_other_apart; [|lia..]. by replace (blen p + blen old - blen p) with (blen old) by lia. }
  assert (edited_by (l1 ++ l2) (f <$> l1 ++ l2) (text ta) (p ++ new_ ++ q) p old new_ q) as Hed.
  { split_and!; [done|done|apply Forall_forall; intros x Hin; by apply Hx|].
    rewrite filter_none by (apply Forall_forall; intros x Hin; by apply Hx).
    apply list_fmap_ext. intros i x Hi. apply Hx. by eapply list_elem_of_lookup_2. }
  destruct (edited_elements _ _ _ _ _ _ _ _ Hed Hok0 Hap0) as (Hok' & Hap' & _).
  pose proof (edited_outside _ _ _ _ _ _ _ _ Hed Hok0) as Hout. rewrite fmap_app in Hok', Hap', Hout.
  set (r := mkElement _ _ _). set (es := (f <$> l1) ++ r :: (f <$> l2)). set (ta1 := put_elements es _).
  assert (Forall (element_ok (p ++ new_ ++ q)) es /\ ForallOrdPairs apart es) as [Hoks Haps].
  { split.
    - unfold es. rewrite <- Permutation_middle. constructor; [|done]. subst r. unfold element_ok. simpl. split_and!; [apply boundary_at| |].
      + rewrite <- blen_app, app_assoc. apply boundary_at.
      + destruct new_ as [|c t]; [done|]. simpl. pose proof (width_pos c). lia.
    - eapply (pairs_perm _ (r :: (f <$> l1) ++ (f <$> l2)) _ apart_sym); [apply Permutation_middle|]. constructor; [|done].
      eapply Forall_impl; [exact Hout|]. intros x. unfold outside, apart. simpl. lia. }
  eexists _, _. split; [done|]. assert (wf (put_cursor 0 ta1)) as Hwf1 by by constructor; [apply boundary_0|..].
  apply wf_elements; [|exact Hoks|exact Haps].
  set (cur := if _ <? _ then _ else _). destruct (clamp_nearest_ok cur (put_cursor 0 ta1) Hwf1) as [Hb _].
  by constructor; [exact Hb|..].
Qed.

End elements.
End Elements.
