(* ===== verification/TextAreaCalls.v ===== *)
(** The text area as its callers use it: sequences of calls, a kill and its yank, what each
    key of the editor is for, the scrolling of the area, and the theorems on them. *)
From S2P Require Import Prelude ByteText TextKeys TextArea TextAreaEdits TextAreaMoves TextAreaInput TextAreaVim TextAreaElements.

(** A concrete [Unicode]: characters for graphemes, a whole text as one segment, one
    column per character, and no line that is wrapped. *)
Module Plain.
Import ByteText Unicode TextArea Edits.

#[global] Instance plain : Unicode := {|
  prev_boundary := fun s n => Ok (Some (down_to_boundary (n - 1) s));
  next_boundary := fun s n => Ok (Some (up_to_boundary (blen s - (n + 1)) (n + 1) s));
  grapheme_indices := fun s => (fun ic => (fst ic, [snd ic])) <$> char_indices s;
  split_word_bound_indices := fun s => [(0, s)];
  display_width := length;
  textwrap_wrap := fun s _ => [Borrowed 0 (blen s)];
|}.
Lemma down_le n s : down_to_boundary n s <= n.
Proof. induction n as [|n IH]; simpl; [done|]. destruct (is_char_boundary (S n) s); lia. Qed.
Lemma up_ge fuel n s : n <= up_to_boundary fuel n s.
Proof. revert n. induction fuel as [|fuel IH]; intros n; simpl; [done|]. destruct (_ && _); [|done]. specialize (IH (S n)). lia. Qed.
#[global] Instance plain_laws : UnicodeLaws plain.
Proof.
  split.
  - intros s n Hb Hn. eexists. split_and!; [done|apply down_to_boundary_ok|]. pose proof (down_le (n - 1) s). lia.
  - intros s n Hb Hn. eexists. split_and!; [done|apply up_to_boundary_ok; lia|]. pose proof (up_ge (blen s - (n + 1)) (n + 1) s). lia.
  - intros s i g Hin. apply list_elem_of_fmap in Hin as ([j c] & [= -> ->] & Hin).
    destruct (char_indices_elem _ _ _ _ Hin) as (a & b & -> & ->). apply boundary_at.
  - intros s i w Hin. apply list_elem_of_singleton in Hin as [= -> ->]. exists [], []. by rewrite app_nil_r.
  - intros s w a b Hin. apply list_elem_of_singleton in Hin as [= -> ->].
    split_and!; [apply boundary_0|apply boundary_blen|lia].
Qed.
End Plain.

Module Calls.
Import ByteText Unicode Keys TextArea Edits Moves Input VimInput Elements.

Section calls.
Context {U : Unicode} {UL : UnicodeLaws U}.

(** ** Calls *)

Inductive Call :=
| Press (event : KeyEvent)
| InsertStr (t : str)
| InsertStrAt (pos : nat) (t : str)
| ReplaceRange (r : Range) (t : str)
| SetCursor (pos : nat)
| DeleteBackward (n : nat)
| DeleteForward (n : nat)
| SetText (t : str)
| SetTextWithElements (t : str) (rs : list Range)
| ReplacePayload (old new_ : str)
| InsertElement (t : str)
| InsertNamed (t id : str)
| ReplaceById (id t : str)
| UpdateById (id t : str)
| AddRange (r : Range)
| RemoveRange (r : Range)
| Wrap (w : nat)
| SetVim (enabled : bool)
| EnterInsert
| EnterNormal
| SetKeymap (k : RuntimeKeymap).
Definition run_call (c : Call) (ta : TextArea) : option TextArea :=
  match c with
  | Press event => input event ta
  | InsertStr t => insert_str t ta
  | InsertStrAt pos t => insert_str_at pos t ta
  | ReplaceRange r t => replace_range r t ta
  | SetCursor pos => Some (set_cursor pos ta)
  | DeleteBackward n => delete_backward n ta
  | DeleteForward n => delete_forward n ta
  | SetText t => Some (set_text_clearing_elements t ta)
  | SetTextWithElements t rs => Some (set_text_with_elements t rs ta)
  | ReplacePayload old new_ => snd <$> replace_element_payload old new_ ta
  | InsertElement t => snd <$> insert_element t ta
  | InsertNamed t id => insert_named_element t id ta
  | ReplaceById id t => snd <$> replace_element_by_id id t ta
  | UpdateById id t => snd <$> update_named_element_by_id id t ta
  | AddRange r => Some (match add_element_range r ta with Some (_, ta') => ta' | None => ta end)
  | RemoveRange r => Some (snd (remove_element_range r ta))
  | Wrap w => snd <$> wrapped_lines w ta
  | SetVim enabled => Some (set_vim_enabled enabled ta)
  | EnterInsert => Some (enter_vim_insert_mode ta)
  | EnterNormal => Some (enter_vim_normal_mode ta)
  | SetKeymap k => Some (set_keymap_bindings k ta)
  end.
(** What a caller has to ensure: a range to replace is one of the text, given elements
    are disjoint ranges of it, and an element is not empty. *)
Definition allowed (c : Call) (ta : TextArea) : Prop :=
  match c with
  | ReplaceRange r _ => range_ok (text ta) r
  | SetTextWithElements t rs => ranges_ok t rs
  | ReplacePayload _ t | InsertElement t | InsertNamed t _ | UpdateById _ t => t <> []
  | _ => True
  end.
Fixpoint run_calls (cs : list Call) (ta : TextArea) : option TextArea :=
  match cs with [] => Some ta | c :: cs => ta' ← run_call c ta; run_calls cs ta' end.
Fixpoint all_allowed (cs : list Call) (ta : TextArea) : Prop :=
  match cs with
  | [] => True
  | c :: cs => allowed c ta /\ forall ta', run_call c ta = Some ta' -> all_allowed cs ta'
  end.

Lemma good_wf ta r : good ta r -> exists ta', r = Some ta' /\ wf ta'.
Proof. intros (ta' & ? & ? & _). by exists ta'. Qed.
Lemma wf_kept ta ta' :
  wf ta -> text ta' = text ta -> elements ta' = elements ta -> wrap_cache ta' = wrap_cache ta -> cursor_pos ta' = cursor_pos ta -> wf ta'.
Proof. intros Hwf Ht He Hw Hc. eapply wf_same; [done..|]. rewrite Hc. by destruct Hwf. Qed.
Lemma call_ok c ta : wf ta -> allowed c ta -> exists ta', run_call c ta = Some ta' /\ wf ta'.
Proof.
  intros Hwf Hal. destruct c; simpl in *.
  - by destruct (input_safe event ta Hwf) as (ta' & ? & ? & _); exists ta'.
  - by eapply good_wf, insert_good.
  - by eapply good_wf, insert_good.
  - destruct Hal as (? & ? & ?). by eapply good_wf, replace_good.
  - by eapply good_wf, set_cursor_good.
  - by eapply good_wf, delete_backward_good.
  - by eapply good_wf, delete_forward_good.
  - eexists. split; [done|]. by apply (set_text_ok t None ta).
  - eexists. split; [done|]. by apply (set_text_ok t (Some rs) ta).
  - destruct (replace_payload_ok old new_ ta Hwf Hal) as (b & ta' & -> & Hwf'). by exists ta'.
  - destruct (insert_element_ok t ta Hwf Hal) as (b & ta' & -> & Hwf'). by exists ta'.
  - by apply insert_named_ok.
  - destruct (replace_by_id_ok id t ta Hwf) as (b & ta' & -> & Hwf'). by exists ta'.
  - destruct (update_by_id_ok id t ta Hwf Hal) as (b & ta' & -> & Hwf'). by exists ta'.
  - eexists. split; [done|]. destruct (add_element_range r ta) as [[id ta']|] eqn:Hadd; [by eapply add_range_ok|done].
  - eexists. split; [done|]. by apply remove_range_ok.
  - destruct (wrapped_lines_ok w ta Hwf) as (ls & ta' & -> & Hwf' & _). by exists ta'.
  - eexists. split; [done|]. by eapply wf_kept.
  - eexists. split; [done|]. unfold enter_vim_insert_mode. destruct (vim_enabled ta); [by eapply wf_kept|done].
  - eexists. split; [done|]. unfold enter_vim_normal_mode. destruct (vim_enabled ta); [by eapply wf_kept|done].
  - eexists. split; [done|]. by eapply wf_kept.
Qed.
Lemma wf_new : wf new.
Proof. constructor; [apply boundary_0|constructor|constructor|done]. Qed.
Lemma calls_ok cs ta : wf ta -> all_allowed cs ta -> exists ta', run_calls cs ta = Some ta' /\ wf ta'.
Proof.
  revert ta. induction cs as [|c cs IH]; intros ta Hwf Hal; simpl; [by exists ta|]. destruct Hal as [Hc Hcs].
  destruct (call_ok c ta Hwf Hc) as (ta' & Hr & Hwf'). rewrite Hr. cbn [mbind option_bind]. apply IH; [done|by apply Hcs].
Qed.

(** ** Kills *)

(** The commands that fill the kill buffer. *)
Inductive Kill := KillWordBack | KillWordForward | KillLineEnd | KillLineStart | KillLine | KillForward (n : nat) | KillVimLineEnd | KillVimMotion (motion : VimMotion).
Definition run_kill (k : Kill) (ta : TextArea) : option TextArea :=
  match k with
  | KillWordBack => delete_backward_word ta
  | KillWordForward => delete_forward_word ta
  | KillLineEnd => kill_to_end_of_line ta
  | KillLineStart => kill_to_beginning_of_line ta
  | KillLine => kill_current_line ta
  | KillForward n => delete_forward_kill n ta
  | KillVimLineEnd => vim_kill_to_end_of_line ta
  | KillVimMotion motion => apply_vim_operator OpDelete motion ta
  end.
(** The text comes back, and the cursor is behind what came back; or nothing was killed. *)
Definition restored (ta : TextArea) (r : option TextArea) : Prop :=
  exists ta', r = Some ta' /\
    (ta' = ta \/
     exists ta'', yank ta' = Some ta'' /\ text ta'' = text ta /\ kill_buffer ta' <> [] /\
       cursor_pos ta'' = cursor_pos ta' + blen (kill_buffer ta') /\ cursor_pos ta' <= cursor_pos ta <= cursor_pos ta'').
Lemma restored_refl ta : restored ta (Some ta).
Proof. exists ta. by split; [|left]. Qed.
Lemma kill_restored r kind ta :
  wf ta -> boundary (start r) (text ta) -> boundary (end_ r) (text ta) -> start r <= cursor_pos ta <= end_ r ->
  restored ta (kill_range_with_kind r kind ta).
Proof.
  intros Hwf Hs He Hc.
  destruct (kill_spec r kind ta Hwf Hs He) as (p & m & q & ta' & -> & Hwf' & Hed & (Hp & Hm & _) & _ & _ & Hnil & _ & Hkill); [lia|].
  exists ta'. split; [done|]. destruct (decide (m = [])) as [Hz|Hne]; [left; by apply Hnil|right].
  destruct (Hkill Hne) as (Hkb & _ & Hcur). rewrite Hcur by lia.
  destruct (edited_elements _ _ _ _ _ _ _ _ Hed) as (_ & _ & Hn); [by destruct Hwf..|]. destruct Hed as (Ht & Ht' & _).
  simpl in Ht', Hn. rewrite Nat.add_0_r in Hn.
  unfold yank. rewrite Hkb. assert (Str.is_empty m = false) as -> by by destruct m. unfold insert_str. rewrite Hcur by lia.
  destruct (insert_str_at_spec (blen p) m ta' Hwf') as (p' & q' & ta'' & -> & Hp' & (Ht1 & Ht2 & _) & _ & _ & Hc').
  assert (boundary (blen p) (text ta')) as Hb by (rewrite Ht'; apply boundary_at).
  assert (blen p' = blen p) as Hpp.
  { rewrite Hp'. unfold clamp_pos_for_insertion. rewrite clamp_char_id by done. by apply nearer_edge_ok. }
  exists ta''. split_and!; [done| |done| |lia|].
  - rewrite Ht2, Ht. simpl in Ht1. rewrite Ht1 in Ht'. destruct (cuts_ordered p' q' p q) as (w & -> & ->); [done|lia|].
    rewrite blen_app in Hpp. assert (w = []) as -> by (apply blen_nil_iff; lia). by rewrite app_nil_r.
  - rewrite Hc', Hpp, Hcur by lia. by rewrite Nat.leb_refl.
  - rewrite Hc', Hpp, Hcur by lia. rewrite Nat.leb_refl. lia.
Qed.

(** The range of a motion has the cursor in it, or at an end. *)
Lemma motion_around motion ta x : wf ta -> range_for_motion motion ta = Some (Some x) -> start x <= cursor_pos ta <= end_ x.
Proof.
  intros Hwf. destruct (current_line_ok ta Hwf) as (r & Hr & Hs & He & Hle & Hs1).
  assert ((target ← target_for_motion motion ta;
    Some (if cursor_pos ta =? target then None
          else Some (if target <? cursor_pos ta then mkRange target (cursor_pos ta) else mkRange (cursor_pos ta) target))) = Some (Some x) ->
    start x <= cursor_pos ta <= end_ x) as Hgo.
  { intros (n & _ & Hx)%bind_Some. destruct (_ =? n); [done|]. injection Hx as <-.
    destruct (n <? cursor_pos ta) eqn:Hlt; simpl; [apply Nat.ltb_lt in Hlt|apply Nat.ltb_ge in Hlt]; lia. }
  destruct motion; try exact Hgo; simpl; unfold linewise_range_for_vertical_motion; rewrite Hr; cbn [mbind option_bind].
  - destruct (start r =? 0) eqn:Hz; cbn [mbind option_bind].
    + simpl. destruct (_ <? _); [|done]. by intros [= <-].
    + apply Nat.eqb_neq in Hz. destruct (beginning_of_line_ok (start r - 1) ta) as (b & -> & _ & Hb & _); [apply Hs1; lia|].
      simpl. destruct (_ <? _); [|done]. intros [= <-]. simpl. lia.
  - destruct (blen (text ta) <=? end_ r) eqn:Hz; cbn [mbind option_bind].
    + simpl. destruct (_ <? _); [|done]. by intros [= <-].
    + destruct (end_of_line_ok _ _ He) as (e & -> & _ & Hb & _). simpl. destruct (_ <? _); [|done].
      intros [= <-]. simpl. destruct (e <? _); lia.
Qed.

(** ** Elements across an edit *)

(** The same element, perhaps elsewhere: its number, its name and its text. *)
Definition same_element (ta ta' : TextArea) (e e' : TextElement) : Prop :=
  element_id e' = element_id e /\ name e' = name e /\ payload e' ta' = payload e ta.

(** ** Scrolling *)

Lemma partition_le pos ls : partition_point pos ls <= length ls.
Proof. induction ls as [|r ls IH]; simpl; [done|]. destruct (_ <=? _); lia. Qed.
(** The line of the cursor, counted from the first one. *)
Definition cursor_line (lines : list Range) (ta : TextArea) : nat := default 0 (wrapped_line_index_by_start lines (cursor_pos ta)).
Lemma cursor_line_lt lines ta : 0 < length lines -> cursor_line lines ta < length lines.
Proof.
  intros Hl. unfold cursor_line, wrapped_line_index_by_start. pose proof (partition_le (cursor_pos ta) lines) as Hp.
  destruct (partition_point _ _); simpl; lia.
Qed.
Lemma u16_small n : n < 65536 -> u16 n = n.
Proof. apply Nat.mod_small. Qed.
Lemma add_u16_small a b : a + b < 65536 -> add_u16 a b = Some (a + b).
Proof. intros Hlt. unfold add_u16. by apply Nat.ltb_lt in Hlt as ->. Qed.

End calls.
End Calls.

(** What the keys of the editor are for. *)
Module EditorKeys.
Import ByteText Unicode Keys TextArea Edits Moves Input VimInput Calls.

Inductive Motion := CharLeft | CharRight | WordLeft | WordRight | LineUp | LineDown | LineStart (again : bool) | LineEnd (again : bool).
Inductive Op :=
| TypeText (t : str) | EraseBack | EraseForward | KillBackWord | KillForwardWord | KillToStart | KillToEnd | KillWhole
| YankBack | Go (m : Motion) | Ignored.

(** The operation of a key, with the bindings in the order in which they are tried: a
    letter with AltGr is typed unless it is a newline or erases a word; [again] is ctrl-a
    or ctrl-e, which go on to the next line when they are repeated. *)
Definition op_of (k : EditorKeymap) (event : KeyEvent) : Op :=
  let pressed bs := is_pressed bs event in
  if pressed (insert_newline k) then TypeText [newline]
  else if pressed (delete_backward_word_key k) then KillBackWord
  else
    match code event, is_altgr (modifiers event) with
    | Char c, true => TypeText [c]
    | _, _ =>
        if pressed (delete_backward_key k) then EraseBack
        else if pressed (delete_forward_word_key k) then KillForwardWord
        else if pressed (delete_forward_key k) then EraseForward
        else if pressed (kill_line_start k) then KillToStart
        else if pressed (kill_whole_line k) then KillWhole
        else if pressed (kill_line_end k) then KillToEnd
        else if pressed (yank_key k) then YankBack
        else if pressed (move_word_left k) then Go WordLeft
        else if pressed (move_word_right k) then Go WordRight
        else if pressed (move_left k) then Go CharLeft
        else if pressed (move_right k) then Go CharRight
        else if pressed (move_up k) then Go LineUp
        else if pressed (move_down k) then Go LineDown
        else if pressed (move_line_start k) then Go (LineStart (bool_decide (code event = Char (ch "a")) && (modifiers event =? CONTROL)%N))
        else if pressed (move_line_end k) then Go (LineEnd (bool_decide (code event = Char (ch "e")) && (modifiers event =? CONTROL)%N))
        else
          match code event with
          | Char c =>
              if ((modifiers event =? 0)%N || (modifiers event =? SHIFT)%N) && negb (is_ascii_control c) then TypeText [c] else Ignored
          | _ => Ignored
          end
    end.
(** The keys that edit: those without vim, and those of its insert mode but Escape. *)
Definition edits (event : KeyEvent) (ta : TextArea) : Prop :=
  pressed_kind (kind event) = true /\ (vim_enabled ta = true -> vim_mode ta = InsertMode /\ code event <> Esc).

Section keys.
Context {U : Unicode}.
Implicit Types ta : TextArea.

(** The start and the end of the line of a position. *)
Definition line_start ta (pos s : nat) : Prop :=
  exists p l q, text ta = p ++ l ++ q /\ blen p = s /\ blen p + blen l = pos /\ newline ∉ l /\ (p = [] \/ last p = Some newline).
Definition line_end ta (pos e : nat) : Prop :=
  exists p l q, text ta = p ++ l ++ q /\ blen p = pos /\ blen p + blen l = e /\ newline ∉ l /\ (q = [] \/ head q = Some newline).
(** One step of the cursor: over an element that ends or starts there, otherwise over a
    grapheme, and over the element in which that step would end. *)
Definition left_of ta (s : nat) : Prop :=
  let c := cursor_pos ta in
  (c = 0 /\ s = 0) \/
  (exists e, e ∈ elements ta /\ end_ (range e) = c /\ s = start (range e)) \/
  (0 < c /\ (forall e, e ∈ elements ta -> end_ (range e) <> c) /\
   exists b, prev_boundary (text ta) c = Ok (Some b) /\
     ((not_inside b (elements ta) /\ s = b) \/ exists e, e ∈ elements ta /\ start (range e) < b < end_ (range e) /\ s = start (range e))).
Definition right_of ta (s : nat) : Prop :=
  let c := cursor_pos ta in
  (c = blen (text ta) /\ s = c) \/
  (exists e, e ∈ elements ta /\ start (range e) = c /\ s = end_ (range e)) \/
  (c < blen (text ta) /\ (forall e, e ∈ elements ta -> start (range e) <> c) /\
   exists b, next_boundary (text ta) c = Ok (Some b) /\
     ((not_inside b (elements ta) /\ s = b) \/ exists e, e ∈ elements ta /\ start (range e) < b < end_ (range e) /\ s = end_ (range e))).

(** The elements across the replacement of [m] behind [p] by [t]: an element that is not
    wholly in [m] is kept, and moves with the text; there are no others. *)
Definition moved_with (p m t : str) (e e' : TextElement) : Prop :=
  (end_ (range e) <= blen p /\ range e' = range e) \/
  (blen p + blen m <= start (range e) /\ start (range e') + blen m = start (range e) + blen t /\
   end_ (range e') + blen m = end_ (range e) + blen t).
Definition cut_out (p m : str) (e : TextElement) : Prop := blen p <= start (range e) /\ end_ (range e) <= blen p + blen m.
Definition carried ta (ta' : TextArea) (p m t : str) : Prop :=
  (forall e, e ∈ elements ta -> ~ cut_out p m e -> exists e', e' ∈ elements ta' /\ same_element ta ta' e e' /\ moved_with p m t e e') /\
  (forall e', e' ∈ elements ta' -> exists e, e ∈ elements ta /\ ~ cut_out p m e /\ same_element ta ta' e e' /\ moved_with p m t e e').

Definition inserts (t : str) ta (ta' : TextArea) : Prop :=
  exists p q, text ta = p ++ q /\ blen p = cursor_pos ta /\ text ta' = p ++ t ++ q /\ cursor_pos ta' = cursor_pos ta + blen t /\
    carried ta ta' p [] t /\ kill_buffer ta' = kill_buffer ta.
(** The removal of a range, and of what it cuts. *)
Definition removes (r : Range) (m : str) ta (ta' : TextArea) : Prop :=
  exists p q, text ta = p ++ m ++ q /\ text ta' = p ++ q /\ grown ta r (blen p) (blen p + blen m) /\ cursor_pos ta' = blen p /\
    carried ta ta' p m [].
Definition deletes (r : Range) ta (ta' : TextArea) : Prop :=
  exists m, removes r m ta ta' /\ kill_buffer ta' = kill_buffer ta.
Definition kills (r : Range) ta (ta' : TextArea) : Prop :=
  exists m, removes r m ta ta' /\ kill_buffer ta' = if Str.is_empty m then kill_buffer ta else m.
(** The cursor goes to a position unless it is in an element. *)
Definition lands ta (pos n : nat) : Prop := not_inside pos (elements ta) -> n = pos.
Definition goes (m : Motion) ta (n : nat) : Prop :=
  match m with
  | CharLeft => left_of ta n
  | CharRight => right_of ta n
  | WordLeft => exists s, beginning_of_previous_word ta = Some s /\ lands ta s n
  | WordRight => exists e, end_of_next_word ta = Some e /\ lands ta e n
  | LineUp | LineDown => True
  | LineStart again => exists s, line_start ta (cursor_pos ta) s /\
      if again && (cursor_pos ta =? s) then exists s', line_start ta (s - 1) s' /\ lands ta s' n else lands ta s n
  | LineEnd again => exists e, line_end ta (cursor_pos ta) e /\
      if again && (cursor_pos ta =? e) then exists e', line_end ta (Nat.min (e + 1) (blen (text ta))) e' /\ lands ta e' n else lands ta e n
  end.
Definition does (op : Op) ta (ta' : TextArea) : Prop :=
  let c := cursor_pos ta in
  match op with
  | TypeText t => inserts t ta ta'
  | YankBack => inserts (kill_buffer ta) ta ta'
  | EraseBack => exists s, left_of ta s /\ deletes (mkRange s c) ta ta'
  | EraseForward => exists e, right_of ta e /\ deletes (mkRange c e) ta ta'
  | KillBackWord => exists s, beginning_of_previous_word ta = Some s /\ kills (mkRange s c) ta ta'
  | KillForwardWord => exists e, end_of_next_word ta = Some e /\ kills (mkRange c e) ta ta'
  | KillToStart => exists s, line_start ta c s /\ kills (mkRange (if c =? s then s - 1 else s) c) ta ta'
  | KillToEnd => exists e, line_end ta c e /\ kills (mkRange c (if c =? e then Nat.min (e + 1) (blen (text ta)) else e)) ta ta'
  | KillWhole => exists s e, line_start ta c s /\ line_end ta c e /\ kills (mkRange s (Nat.min (e + 1) (blen (text ta)))) ta ta'
  | Go m => text ta' = text ta /\ elements ta' = elements ta /\ kill_buffer ta' = kill_buffer ta /\ goes m ta (cursor_pos ta')
  | Ignored => ta' = ta
  end.

(** ** Lines and steps *)

Context {UL : UnicodeLaws U}.

Lemma rfind_char_last p s :
  match rfind_char p s with
  | Some (i, c) => exists a b, s = a ++ c :: b /\ i = blen a /\ p c = true /\ Forall (fun d => p d = false) b
  | None => Forall (fun d => p d = false) s
  end.
Proof.
  unfold rfind_char, char_indices. induction s as [|d s IH] using rev_ind; [constructor|].
  rewrite char_indices_app, rev_app_distr. simpl. destruct (p d) eqn:Hd.
  { exists s, []. by split_and!. }
  destruct (List.find _ _) as [[i c]|].
  - destruct IH as (a & b & -> & -> & Hc & Hb). exists a, (b ++ [d]). rewrite <- app_assoc.
    split_and!; [done..|]. apply Forall_app; by repeat constructor.
  - apply Forall_app; by repeat constructor.
Qed.
Lemma not_newlines l : Forall (fun d => is_newline d = false) l -> newline ∉ l.
Proof. intros Hl Hin. rewrite Forall_forall in Hl. by specialize (Hl _ Hin). Qed.
Lemma line_start_of pos ta s : boundary pos (text ta) -> beginning_of_line pos ta = Some s -> line_start ta pos s.
Proof.
  intros Hb. destruct (boundary_split _ _ Hb) as (p & q & Hs & Ht & Hp). unfold beginning_of_line, slice_to. rewrite Hs. simpl.
  pose proof (rfind_char_last is_newline p) as Hf. destruct (rfind_char is_newline p) as [[i c]|]; intros [= <-].
  - destruct Hf as (a & b & -> & -> & Hc & Hn). pose proof (newline_width c Hc) as Hw. apply N.eqb_eq in Hc as ->.
    exists (a ++ [newline]), b, q. rewrite !blen_app in *. simpl in *. split_and!; [|lia|lia|by apply not_newlines|].
    + rewrite Ht, <- !app_assoc. done.
    + right. by rewrite last_snoc.
  - exists [], p, q. split_and!; [done|done|done|by apply not_newlines|by left].
Qed.
Lemma line_end_of pos ta e : boundary pos (text ta) -> end_of_line pos ta = Some e -> line_end ta pos e.
Proof.
  intros Hb. destruct (boundary_split _ _ Hb) as (p & q & Hs & Ht & Hp). unfold end_of_line, slice_from. rewrite Hs. simpl.
  destruct (find_char is_newline q) as [i|] eqn:Hf; intros [= <-].
  - destruct (find_char_first _ _ _ Hf) as (a & c & b & -> & -> & Hc & Hn). apply N.eqb_eq in Hc as ->.
    exists p, a, (newline :: b). split_and!; [done|done|lia|by apply not_newlines|by right].
  - exists p, q, []. rewrite app_nil_r. split_and!; [done|done|by rewrite Ht, blen_app|apply not_newlines; by eapply find_char_None|by left].
Qed.
Lemma bol_start ta : wf ta -> exists s, beginning_of_current_line ta = Some s /\ line_start ta (cursor_pos ta) s /\
  boundary s (text ta) /\ s <= cursor_pos ta /\ (0 < s -> boundary (s - 1) (text ta)).
Proof.
  intros Hwf. destruct (bol_ok ta Hwf) as (s & Hs & ? & ? & ?). exists s. split_and!; [done| |done..].
  apply line_start_of; [by destruct Hwf|done].
Qed.
Lemma eol_end ta : wf ta -> exists e, end_of_current_line ta = Some e /\ line_end ta (cursor_pos ta) e /\
  boundary e (text ta) /\ cursor_pos ta <= e /\ (e < blen (text ta) -> boundary (e + 1) (text ta)).
Proof.
  intros Hwf. destruct (eol_ok ta Hwf) as (e & He & ? & ? & ?). exists e. split_and!; [done| |done..].
  apply line_end_of; [by destruct Hwf|done].
Qed.
Lemma settled_edge ta e : settled ta -> e ∈ elements ta -> cursor_pos ta <= start (range e) \/ end_ (range e) <= cursor_pos ta.
Proof. unfold settled, not_inside. rewrite Forall_forall. auto. Qed.
Lemma find_none {A} (f : A -> bool) l x : List.find f l = None -> x ∈ l -> f x = false.
Proof. intros Hf Hin. by apply (find_none _ _ Hf), list_elem_of_In. Qed.
Lemma left_of_step ta : wf ta -> settled ta -> left_of ta (prev_atomic_boundary (cursor_pos ta) ta).
Proof.
  intros Hwf Hs. unfold prev_atomic_boundary. destruct (_ =? 0) eqn:Hz; [left; by apply Nat.eqb_eq in Hz|].
  apply Nat.eqb_neq in Hz. right. destruct (List.find _ _) as [e|] eqn:Hf.
  { apply find_elem in Hf as [Hin [Hl%Nat.ltb_lt Hr%Nat.leb_le]%andb_true_iff]. left. exists e.
    split_and!; [done| |done]. destruct (settled_edge ta e Hs Hin); lia. }
  right. split_and!; [lia| |].
  { intros e Hin He. apply (find_none _ _ _ Hf) in Hin as Hn. destruct (element_in ta e Hwf Hin) as (_ & _ & Hlt).
    apply andb_false_iff in Hn as [Hn%Nat.ltb_ge|Hn%Nat.leb_gt]; lia. }
  destruct (prev_boundary_law (text ta) (cursor_pos ta)) as (b & -> & _); [by destruct Hwf|lia|].
  exists b. split; [done|]. destruct (find_element_containing b ta) as [e|] eqn:Hfe.
  - apply find_inside in Hfe as [Hin Hi]. right. by exists e.
  - apply find_inside_None in Hfe. by left.
Qed.
Lemma right_of_step ta : wf ta -> settled ta -> right_of ta (next_atomic_boundary (cursor_pos ta) ta).
Proof.
  intros Hwf Hs. pose proof (cursor_ok _ Hwf) as Hc. pose proof (boundary_le _ _ Hc) as Hle.
  unfold next_atomic_boundary. destruct (_ <=? cursor_pos ta) eqn:Hz; [left; apply Nat.leb_le in Hz; lia|].
  apply Nat.leb_gt in Hz. right. destruct (List.find _ _) as [e|] eqn:Hf.
  { apply find_elem in Hf as [Hin [Hl%Nat.leb_le Hr%Nat.ltb_lt]%andb_true_iff]. left. exists e.
    split_and!; [done| |done]. destruct (settled_edge ta e Hs Hin); lia. }
  right. split_and!; [lia| |].
  { intros e Hin He. apply (find_none _ _ _ Hf) in Hin as Hn. destruct (element_in ta e Hwf Hin) as (_ & _ & Hlt).
    apply andb_false_iff in Hn as [Hn%Nat.leb_gt|Hn%Nat.ltb_ge]; lia. }
  destruct (next_boundary_law (text ta) (cursor_pos ta)) as (b & -> & _); [done|lia|].
  exists b. split; [done|]. destruct (find_element_containing b ta) as [e|] eqn:Hfe.
  - apply find_inside in Hfe as [Hin Hi]. right. by exists e.
  - apply find_inside_None in Hfe. by left.
Qed.

(** ** Edits *)

(** It does not panic, it keeps the invariant and the cursor out of the elements, and it
    does what it should. *)
Definition achieves (P : TextArea -> Prop) (r : option TextArea) : Prop :=
  exists ta', r = Some ta' /\ wf ta' /\ settled ta' /\ P ta'.
Lemma achieves_weaken (P Q : TextArea -> Prop) r : achieves P r -> (forall ta', P ta' -> Q ta') -> achieves Q r.
Proof. intros (ta' & ? & ? & ? & ?) HPQ. exists ta'. auto. Qed.
Lemma carried_by_edit ta ta' p m t q :
  wf ta -> edited_by (elements ta) (elements ta') (text ta) (text ta') p m t q -> carried ta ta' p m t.
Proof.
  intros [_ Hok _ _] (Ht & Ht' & Hc & Hel). rewrite Ht in Hok. rewrite Forall_forall in Hok, Hc.
  assert (forall e, cut_out p m e <-> within (blen p) (blen p + blen m) e = true) as Hcut by (intros e; by rewrite within_spec).
  assert (forall e, e ∈ elements ta -> within (blen p) (blen p + blen m) e = false ->
    let e' := shift_element (blen p) (blen m) (blen t) e in same_element ta ta' e e' /\ moved_with p m t e e') as Hkept.
  { intros e Hin Hw. destruct (kept_element p m t q e (Hok e Hin) (Hc e Hin) Hw) as (_ & Hid & Hn & Hs & Hpos).
    split; [unfold same_element, payload; by rewrite Ht, Ht'|].
    destruct (Hok e Hin) as (_ & _ & Hlt). unfold moved_with.
    destruct Hpos as [[? ->]|(? & -> & ->)]; [by left|right; lia]. }
  split.
  - intros e Hin Hw. rewrite Hcut, not_true_iff_false in Hw. eexists. split; [|by apply Hkept].
    rewrite Hel. apply list_elem_of_fmap. exists e. split; [done|]. apply elem_of_filterb. by rewrite Hw.
  - intros e' Hin. rewrite Hel in Hin. apply list_elem_of_fmap in Hin as (e & -> & [Hin Hw]%elem_of_filterb).
    apply negb_true_iff in Hw. exists e. rewrite Hcut, not_true_iff_false. split_and!; [done..| |]; by apply Hkept.
Qed.
Lemma nothing_edited ta : wf ta -> settled ta -> exists p q, text ta = p ++ q /\ blen p = cursor_pos ta /\ carried ta ta p [] [].
Proof.
  intros Hwf Hs. destruct (cursor_ok _ Hwf) as (p & q & Ht & Hp). exists p, q. split_and!; [done..|].
  apply (carried_by_edit _ _ _ _ _ q Hwf). apply edited_none; [done|by destruct Hwf|]. by rewrite Hp.
Qed.
Lemma insert_achieves t ta : wf ta -> settled ta -> achieves (inserts t ta) (insert_str t ta).
Proof.
  intros Hwf Hs. pose proof (cursor_ok _ Hwf) as Hc. unfold insert_str.
  destruct (insert_good (cursor_pos ta) t ta Hwf) as (ta2 & Hi & _ & _ & Hset).
  destruct (insert_str_at_spec (cursor_pos ta) t ta Hwf) as (p & q & ta' & Hi' & Hp & Hed & Hwf' & Hkept & Hcur).
  rewrite Hi' in Hi |- *. injection Hi as <-. exists ta'. split_and!; [done..|by apply Hset|].
  unfold clamp_pos_for_insertion in Hp. rewrite clamp_char_id in Hp by done.
  destruct (nearer_edge_ok _ ta Hwf Hc) as (_ & _ & Hid). rewrite Hid in Hp by done.
  rewrite Hp, Nat.leb_refl in Hcur. pose proof (carried_by_edit _ _ _ _ _ _ Hwf Hed) as Hca. destruct Hed as (Ht & Ht' & _).
  injection Hkept as _ Hkb _. exists p, q. by split_and!.
Qed.
Lemma yank_achieves ta : wf ta -> settled ta -> achieves (inserts (kill_buffer ta) ta) (yank ta).
Proof.
  intros Hwf Hs. unfold yank. destruct (kill_buffer ta) as [|c k] eqn:Hk; simpl; [|by apply insert_achieves].
  exists ta. split_and!; [done..|]. destruct (nothing_edited ta Hwf Hs) as (p & q & Ht & Hp & Hca).
  exists p, q. rewrite Nat.add_0_r. by split_and!.
Qed.
Lemma removes_nothing ta : wf ta -> settled ta -> removes (mkRange (cursor_pos ta) (cursor_pos ta)) [] ta ta.
Proof.
  intros Hwf Hs. destruct (nothing_edited ta Hwf Hs) as (p & q & Ht & Hp & Hca).
  exists p, q. simpl. rewrite Nat.add_0_r, Hp. split_and!; [done..| |done|done]. repeat split; simpl; done || lia.
Qed.
Lemma delete_achieves r ta :
  wf ta -> settled ta -> boundary (start r) (text ta) -> boundary (end_ r) (text ta) -> start r <= cursor_pos ta <= end_ r ->
  start r < end_ r -> achieves (deletes r ta) (replace_range r [] ta).
Proof.
  intros Hwf Hs Hbs Hbe Hc Hlt. destruct (replace_spec r [] ta Hwf Hbs Hbe) as (p & m & q & ta' & -> & Hwf' & Hed & Hg & Hkept & Hset & Hcur); [lia|].
  exists ta'. split_and!; [done..|by apply Hset|]. exists m. injection Hkept as _ Hkb _. split; [|done].
  pose proof Hg as (Hl & Hr & _). pose proof (carried_by_edit _ _ _ _ _ _ Hwf Hed) as Hca. destruct Hed as (Ht & Ht' & _).
  exists p, q. split_and!; [done..| |done]. rewrite Hcur by (simpl; lia). simpl. lia.
Qed.
Lemma kill_achieves r kind ta :
  wf ta -> settled ta -> boundary (start r) (text ta) -> boundary (end_ r) (text ta) -> start r <= cursor_pos ta <= end_ r ->
  achieves (kills r ta) (kill_range_with_kind r kind ta).
Proof.
  intros Hwf Hs Hbs Hbe Hc.
  destruct (kill_spec r kind ta Hwf Hbs Hbe) as (p & m & q & ta' & -> & Hwf' & Hed & Hg & _ & _ & Hnil & Hset & Hkill); [lia|].
  exists ta'. split_and!; [done..|by apply Hset|]. exists m.
  pose proof Hg as (Hl & Hr & _). pose proof (carried_by_edit _ _ _ _ _ _ Hwf Hed) as Hca. destruct Hed as (Ht & Ht' & _).
  destruct m as [|d m].
  - rewrite (Hnil eq_refl) in *. split; [|done]. exists p, q. split_and!; [done..| |done]. simpl in Hr. lia.
  - destruct Hkill as (Hkb & _ & Hcur); [done|]. split; [|done]. exists p, q. split_and!; [done..| |done]. apply Hcur. lia.
Qed.

(** ** Operations *)

Lemma set_cursor_lands pos n ta ta' : wf ta -> boundary pos (text ta) -> ta' = put_col n (set_cursor pos ta) -> lands ta pos (cursor_pos ta').
Proof. intros Hwf Hb -> Hn. simpl. by apply (set_cursor_at pos ta). Qed.
Lemma go_achieves m ta r :
  wf ta -> settled ta -> good ta r ->
  (forall ta', r = Some ta' -> text ta' = text ta /\ elements ta' = elements ta /\ kill_buffer ta' = kill_buffer ta /\ goes m ta (cursor_pos ta')) ->
  achieves (does (Go m) ta) r.
Proof. intros Hwf Hs (ta' & -> & Hwf' & _ & Hset) Hg. exists ta'. split_and!; [done..|by apply Hset|]. by apply Hg. Qed.
Lemma erase_back_achieves ta : wf ta -> settled ta -> achieves (does EraseBack ta) (delete_backward 1 ta).
Proof.
  intros Hwf Hs. pose proof (left_of_step ta Hwf Hs) as Hl. pose proof (cursor_ok _ Hwf) as Hc.
  destruct (prev_atomic_ok _ ta Hwf Hc) as (Hb & Hle & Hlt). unfold delete_backward, steps_back. cbn [Nat.eqb orb atomic_steps].
  destruct (cursor_pos ta =? 0) eqn:Hz.
  - apply Nat.eqb_eq in Hz. exists ta. split_and!; [done..|]. exists (cursor_pos ta). split; [left; lia|].
    exists []. split; [by apply removes_nothing|done].
  - apply Nat.eqb_neq in Hz. assert (forall b : bool, (if b then prev_atomic_boundary (cursor_pos ta) ta
      else prev_atomic_boundary (cursor_pos ta) ta) = prev_atomic_boundary (cursor_pos ta) ta) as -> by by intros [].
    eapply achieves_weaken; [apply delete_achieves; simpl; try done; lia|]. intros ta' Hd. by eexists.
Qed.
Lemma next_atomic_lt ta : wf ta -> cursor_pos ta < blen (text ta) -> cursor_pos ta < next_atomic_boundary (cursor_pos ta) ta.
Proof.
  intros Hwf Hlt. unfold next_atomic_boundary. apply Nat.leb_gt in Hlt as Hz. rewrite Hz.
  destruct (List.find _ _) as [e|] eqn:Hf; [by apply find_elem in Hf as [_ [_ ?%Nat.ltb_lt]%andb_true_iff]|].
  destruct (next_boundary_law (text ta) (cursor_pos ta)) as (b & -> & _ & Hb); [by destruct Hwf|done|].
  destruct (find_element_containing b ta) as [e|] eqn:Hfe; [apply find_inside in Hfe as [_ ?]; lia|done].
Qed.
Lemma erase_forward_achieves ta : wf ta -> settled ta -> achieves (does EraseForward ta) (delete_forward 1 ta).
Proof.
  intros Hwf Hs. pose proof (right_of_step ta Hwf Hs) as Hl. pose proof (cursor_ok _ Hwf) as Hc. pose proof (boundary_le _ _ Hc) as Hle.
  destruct (next_atomic_ok _ ta Hwf Hc) as (Hb & _). unfold delete_forward, steps_forward. cbn [Nat.eqb orb atomic_steps].
  destruct (_ <=? cursor_pos ta) eqn:Hz.
  - apply Nat.leb_le in Hz. exists ta. split_and!; [done..|]. exists (cursor_pos ta). split; [left; lia|].
    exists []. split; [by apply removes_nothing|done].
  - apply Nat.leb_gt in Hz. pose proof (next_atomic_lt ta Hwf Hz). assert (forall b : bool, (if b then next_atomic_boundary (cursor_pos ta) ta
      else next_atomic_boundary (cursor_pos ta) ta) = next_atomic_boundary (cursor_pos ta) ta) as -> by by intros [].
    eapply achieves_weaken; [apply delete_achieves; simpl; try done; lia|]. intros ta' Hd. by eexists.
Qed.
Lemma kills_nothing ta : wf ta -> settled ta -> achieves (kills (mkRange (cursor_pos ta) (cursor_pos ta)) ta) (Some ta).
Proof. intros Hwf Hs. exists ta. split_and!; [done..|]. exists []. split; [by apply removes_nothing|done]. Qed.
Lemma kill_words_achieve ta : wf ta -> settled ta ->
  achieves (does KillBackWord ta) (delete_backward_word ta) /\ achieves (does KillForwardWord ta) (delete_forward_word ta).
Proof.
  intros Hwf Hs. pose proof (cursor_ok _ Hwf) as Hc. unfold delete_backward_word, delete_forward_word. simpl.
  destruct (previous_word_ok ta Hwf) as (b & Hpw & Hb & Hle). destruct (next_word_ok ta Hwf) as (e & Hnw & He & Hle').
  rewrite Hpw, Hnw. cbn [mbind option_bind]. split.
  - eapply achieves_weaken; [by apply kill_achieves|]. intros ta' Hk. by exists b.
  - apply (achieves_weaken (kills (mkRange (cursor_pos ta) e) ta)); [|intros ta' Hk; by exists e].
    destruct (_ <? e) eqn:Hlt; [by apply kill_achieves|]. apply Nat.ltb_ge in Hlt. replace e with (cursor_pos ta) by lia. by apply kills_nothing.
Qed.
Lemma kill_start_achieves ta : wf ta -> settled ta -> achieves (does KillToStart ta) (kill_to_beginning_of_line ta).
Proof.
  intros Hwf Hs. pose proof (cursor_ok _ Hwf) as Hc. unfold kill_to_beginning_of_line.
  destruct (bol_start ta Hwf) as (s & -> & Hl & Hb & Hle & Hb1). cbn [mbind option_bind].
  apply (achieves_weaken (kills (mkRange (if cursor_pos ta =? s then s - 1 else s) (cursor_pos ta)) ta)); [|intros ta' Hk; by exists s].
  destruct (cursor_pos ta =? s) eqn:Heq; [|by apply kill_achieves]. apply Nat.eqb_eq in Heq. rewrite Heq. destruct (0 <? s) eqn:Hz.
  - apply Nat.ltb_lt in Hz. apply kill_achieves; [done|done|by apply Hb1|done|simpl; lia].
  - apply Nat.ltb_ge in Hz. replace (s - 1) with s by lia. rewrite <- Heq. by apply kills_nothing.
Qed.
Lemma next_line_boundary ta e :
  boundary e (text ta) -> (e < blen (text ta) -> boundary (e + 1) (text ta)) -> boundary (Nat.min (e + 1) (blen (text ta))) (text ta).
Proof.
  intros Hb Hn. apply boundary_le in Hb. destruct (decide (e < blen (text ta))).
  - rewrite Nat.min_l by lia. by apply Hn.
  - rewrite Nat.min_r by lia. apply boundary_blen.
Qed.
Lemma kill_end_achieves ta : wf ta -> settled ta -> achieves (does KillToEnd ta) (kill_to_end_of_line ta).
Proof.
  intros Hwf Hs. pose proof (cursor_ok _ Hwf) as Hc. unfold kill_to_end_of_line.
  destruct (eol_end ta Hwf) as (e & -> & Hl & Hb & Hle & Hb1). cbn [mbind option_bind]. pose proof (boundary_le _ _ Hb) as Hel.
  apply (achieves_weaken (kills (mkRange (cursor_pos ta) (if cursor_pos ta =? e then Nat.min (e + 1) (blen (text ta)) else e)) ta)); [|intros ta' Hk; by exists e].
  destruct (cursor_pos ta =? e) eqn:Heq; [|by apply kill_achieves]. apply Nat.eqb_eq in Heq. destruct (e <? blen (text ta)) eqn:Hz.
  - apply Nat.ltb_lt in Hz. rewrite Nat.min_l by lia. apply kill_achieves; [done|done|done|by apply Hb1|simpl; lia].
  - apply Nat.ltb_ge in Hz. rewrite Nat.min_r by lia. replace (blen (text ta)) with (cursor_pos ta) by lia. by apply kills_nothing.
Qed.
Lemma kill_whole_achieves ta : wf ta -> settled ta -> achieves (does KillWhole ta) (kill_current_line ta).
Proof.
  intros Hwf Hs. unfold kill_current_line, current_line_range_with_newline.
  destruct (bol_start ta Hwf) as (s & -> & Hls & Hbs & Hle & _). destruct (eol_end ta Hwf) as (e & -> & Hl & Hb & Hle' & Hb1).
  cbn [mbind option_bind]. pose proof (boundary_le _ _ Hb) as Hel. pose proof (next_line_boundary ta e Hb Hb1) as Hn.
  assert ((if e <? blen (text ta) then e + 1 else e) = Nat.min (e + 1) (blen (text ta))) as ->.
  { destruct (e <? blen (text ta)) eqn:Hz; [apply Nat.ltb_lt in Hz|apply Nat.ltb_ge in Hz]; lia. }
  eapply achieves_weaken; [apply kill_achieves; simpl; done || lia|]. intros ta' Hk. by exists s, e.
Qed.
Lemma go_start_achieves again ta : wf ta -> settled ta -> achieves (does (Go (LineStart again)) ta) (move_cursor_to_beginning_of_line again ta).
Proof.
  intros Hwf Hs. apply go_achieves; [done|done|by apply move_bol_good|]. unfold move_cursor_to_beginning_of_line.
  destruct (bol_start ta Hwf) as (s & -> & Hl & Hb & _ & Hb1). cbn [mbind option_bind goes]. intros ta'.
  destruct (again && (cursor_pos ta =? s)) eqn:Hup.
  - apply andb_true_iff in Hup as Hup'. destruct Hup' as [_ Heq%Nat.eqb_eq].
    replace (cursor_pos ta - 1) with (s - 1) by lia.
    assert (boundary (s - 1) (text ta)) as Hbb by (destruct (decide (s = 0)) as [->|]; [apply boundary_0|apply Hb1; lia]).
    destruct (beginning_of_line_ok (s - 1) ta Hbb) as (s' & Hs' & Hb' & _). rewrite Hs'. cbn [mbind option_bind]. intros [= Heq'].
    rewrite <- Heq' at 1 2 3. split_and!; [done..|]. exists s. rewrite Hup. split; [done|]. exists s'. split; [by apply line_start_of|].
    by eapply set_cursor_lands.
  - cbn [mbind option_bind]. intros [= Heq']. rewrite <- Heq' at 1 2 3. split_and!; [done..|]. exists s. rewrite Hup. split; [done|].
    by eapply set_cursor_lands.
Qed.
Lemma go_end_achieves again ta : wf ta -> settled ta -> achieves (does (Go (LineEnd again)) ta) (move_cursor_to_end_of_line again ta).
Proof.
  intros Hwf Hs. apply go_achieves; [done|done|by apply move_eol_good|]. unfold move_cursor_to_end_of_line.
  destruct (eol_end ta Hwf) as (e & -> & Hl & Hb & _ & Hb1). cbn [mbind option_bind goes]. intros ta'.
  destruct (again && (cursor_pos ta =? e)) eqn:Hup.
  - apply andb_true_iff in Hup as Hup'. destruct Hup' as [_ Heq%Nat.eqb_eq].
    replace (Nat.min (cursor_pos ta + 1)) with (Nat.min (e + 1)) by (by rewrite Heq).
    pose proof (next_line_boundary ta e Hb Hb1) as Hbb.
    destruct (end_of_line_ok _ ta Hbb) as (e' & He' & Hb' & _). rewrite He'. cbn [mbind option_bind]. intros [= Heq'].
    rewrite <- Heq' at 1 2 3. split_and!; [done..|]. exists e. rewrite Hup. split; [done|]. exists e'. split; [by apply line_end_of|].
    by eapply (set_cursor_lands _ None).
  - cbn [mbind option_bind]. intros [= Heq']. rewrite <- Heq' at 1 2 3. split_and!; [done..|]. exists e. rewrite Hup. split; [done|].
    by eapply (set_cursor_lands _ None).
Qed.
(** The state but for the cursor, its column and the cached lines. *)
Definition contents ta := (text ta, elements ta, kill_buffer ta).
Lemma col_contents s e c ta ta' : move_to_display_col_on_line s e c ta = Some ta' -> contents ta' = contents ta.
Proof. unfold move_to_display_col_on_line. intros (l & _ & [= <-])%bind_Some. done. Qed.
Lemma visual_contents c line ta ta' : move_to_visual c line ta = Some ta' -> contents ta' = contents ta.
Proof. unfold move_to_visual. by destruct (preferred_col ta); intros ->%col_contents. Qed.
Lemma logical_col_contents ta c ta' : logical_col ta = Some (c, ta') -> contents ta' = contents ta.
Proof. unfold logical_col. destruct (preferred_col ta); [by intros [= _ <-]|]. by intros (? & _ & [= _ <-])%bind_Some. Qed.
Lemma up_contents ta ta' : move_cursor_up ta = Some ta' -> contents ta' = contents ta.
Proof.
  unfold move_cursor_up. intros (v & _ & Hv)%bind_Some. destruct v as [[c [line|]]|]; [by eapply visual_contents|by injection Hv as <-|].
  apply bind_Some in Hv as (before & _ & Hv). destruct (rfind_char is_newline before) as [[i d]|]; [|by injection Hv as <-].
  apply bind_Some in Hv as ([c ta1] & Hc%logical_col_contents & Hv). apply bind_Some in Hv as (? & _ & Hv%col_contents). congruence.
Qed.
Lemma down_contents ta ta' : move_cursor_down ta = Some ta' -> contents ta' = contents ta.
Proof.
  unfold move_cursor_down. intros (v & _ & Hv)%bind_Some. destruct v as [[c [line|]]|]; [by eapply visual_contents|by injection Hv as <-|].
  apply bind_Some in Hv as ([c ta1] & Hc%logical_col_contents & Hv). apply bind_Some in Hv as (after & _ & Hv).
  destruct (find_char is_newline after) as [i|]; [|by injection Hv as <-].
  apply bind_Some in Hv as (? & _ & Hv%col_contents). congruence.
Qed.
Lemma go_lines_achieve ta : wf ta -> settled ta ->
  achieves (does (Go LineUp) ta) (move_cursor_up ta) /\ achieves (does (Go LineDown) ta) (move_cursor_down ta).
Proof.
  intros Hwf Hs. split; apply go_achieves; try done; [by apply move_up_good| |by apply move_down_good|];
    intros ta' Hm; [apply up_contents in Hm|apply down_contents in Hm]; injection Hm as ? ? ?; done.
Qed.
Lemma go_chars_achieve ta : wf ta -> settled ta ->
  achieves (does (Go CharLeft) ta) (Some (move_cursor_left ta)) /\ achieves (does (Go CharRight) ta) (Some (move_cursor_right ta)).
Proof.
  intros Hwf Hs. split; apply go_achieves; try done; [by apply move_left_good| |by apply move_right_good|]; intros ta' [= <-];
    (split_and!; [done..|]); [by apply left_of_step|by apply right_of_step].
Qed.
Lemma go_words_achieve ta : wf ta -> settled ta ->
  achieves (does (Go WordLeft) ta) (p ← beginning_of_previous_word ta; Some (set_cursor p ta)) /\
  achieves (does (Go WordRight) ta) (p ← end_of_next_word ta; Some (set_cursor p ta)).
Proof.
  intros Hwf Hs. destruct (previous_word_ok ta Hwf) as (b & Hpw & Hb & _). destruct (next_word_ok ta Hwf) as (e & Hnw & He & _).
  rewrite Hpw, Hnw. cbn [mbind option_bind]. split; apply go_achieves; try done; try by apply set_cursor_good.
  all: intros ta' Heq; injection Heq as <-; split_and!; [done..|eexists; split; [done|]; by eapply (set_cursor_lands _ None)].
Qed.
Lemma ignored_achieves ta : wf ta -> settled ta -> achieves (does Ignored ta) (Some ta).
Proof. intros Hwf Hs. by exists ta. Qed.
Lemma type_achieves t ta : wf ta -> settled ta -> achieves (does (TypeText t) ta) (insert_str t ta).
Proof. apply insert_achieves. Qed.
Lemma keymap_achieves event k ta : wf ta -> settled ta -> achieves (does (op_of k event) ta) (input_with_keymap event k ta).
Proof.
  intros Hwf Hs. unfold op_of, input_with_keymap.
  destruct (is_pressed (insert_newline k) event); [by apply type_achieves|].
  destruct (is_pressed (delete_backward_word_key k) event); [by apply kill_words_achieve|].
  destruct (match code event with Char _ => is_altgr (modifiers event) | _ => false end) eqn:Halt.
  { by destruct (code event). }
  assert (forall A (f : char -> A) (x : A), match code event, is_altgr (modifiers event) with Char c, true => f c | _, _ => x end = x) as ->.
  { intros. by destruct (code event). }
  destruct (is_pressed (delete_backward_key k) event); [by apply erase_back_achieves|].
  destruct (is_pressed (delete_forward_word_key k) event); [by apply kill_words_achieve|].
  destruct (is_pressed (delete_forward_key k) event); [by apply erase_forward_achieves|].
  destruct (is_pressed (kill_line_start k) event); [by apply kill_start_achieves|].
  destruct (is_pressed (kill_whole_line k) event); [by apply kill_whole_achieves|].
  destruct (is_pressed (kill_line_end k) event); [by apply kill_end_achieves|].
  destruct (is_pressed (yank_key k) event); [by apply yank_achieves|].
  destruct (is_pressed (move_word_left k) event); [by apply go_words_achieve|].
  destruct (is_pressed (move_word_right k) event); [by apply go_words_achieve|].
  destruct (is_pressed (move_left k) event); [by apply go_chars_achieve|].
  destruct (is_pressed (move_right k) event); [by apply go_chars_achieve|].
  destruct (is_pressed (move_up k) event); [by apply go_lines_achieve|].
  destruct (is_pressed (move_down k) event); [by apply go_lines_achieve|].
  destruct (is_pressed (move_line_start k) event); [by apply go_start_achieves|].
  destruct (is_pressed (move_line_end k) event); [by apply go_end_achieves|].
  destruct (code event); try by apply ignored_achieves. destruct (_ || _); [|by apply ignored_achieves].
  destruct (is_ascii_control c); [by apply ignored_achieves|by apply type_achieves].
Qed.

End keys.
End EditorKeys.

Module Promises.
Import ByteText Unicode Keys TextArea Edits Moves Input VimInput Elements Calls EditorKeys.

Section promises.
Context {U : Unicode} {UL : UnicodeLaws U}.

(** C36: Without vim, and in its insert mode for every key but Escape, a key press does
    what the first binding that takes it says, and never panics.  With the cursor outside
    of the elements: a letter, a newline or a yank is inserted at the cursor, which ends
    behind it; backspace and delete remove the step to the left or right of the cursor,
    which is an element as a whole or a grapheme; the kill keys remove the text up to
    where the word motions go, up to the start or end of the line (the newline when the
    cursor is there already), or the line, and put it in the kill buffer; a removal is
    widened by the elements it cuts, and by nothing else, and leaves the cursor in its
    place; motions change no text and go where they should (for up and down this is left
    open); any other key does nothing.  Every element that is not wholly in what is
    removed is kept with its number, name and text and moves with the text around it, no
    other appears, and the cursor is outside of the elements again. *)
Theorem editor_keys_do_their_work event ta :
  wf ta -> settled ta -> edits event ta ->
  exists ta', input event ta = Some ta' /\ wf ta' /\ settled ta' /\ does (op_of (editor (keymap ta)) event) ta ta'.
Proof.
  intros Hwf Hs [Hk Hvim]. apply (keymap_achieves event (editor (keymap ta))) in Hs; [|done].
  unfold input. rewrite Hk. cbn [negb]. destruct (vim_enabled ta); [|done].
  destruct Hvim as [Hm He]; [done|]. unfold handle_vim_input, handle_vim_insert. rewrite Hm. by rewrite decide_False.
Qed.

(** C37: No sequence of calls on a new text area panics, when the callers keep to their part,
    and after each the cursor and the elements are at boundaries of characters, the
    elements are disjoint and not empty, and the cached lines are those of the text. *)
Theorem no_calls_panic cs : all_allowed cs new -> exists ta, run_calls cs new = Some ta /\ wf ta.
Proof. intros Hal. apply calls_ok; [apply wf_new|done]. Qed.

(** C38: What one of these commands kills the next yank brings back: the keys that kill a
    word, the rest or the start of a line or the line, and in vim x, D, dd and d with a
    motion (d with a text object may leave the cursor elsewhere).  The text is again what
    it was, and the cursor is behind the part that came back; or nothing was killed. *)
Theorem yank_restores_the_last_kill k ta : wf ta -> restored ta (run_kill k ta).
Proof.
  intros Hwf. pose proof (cursor_ok _ Hwf) as Hc. destruct k; simpl.
  - unfold delete_backward_word. destruct (previous_word_ok ta Hwf) as (b & -> & Hb & Hle). by apply kill_restored.
  - unfold delete_forward_word. destruct (next_word_ok ta Hwf) as (e & -> & He & Hle). cbn [mbind option_bind].
    destruct (_ <? e); [by apply kill_restored|apply restored_refl].
  - unfold kill_to_end_of_line. destruct (eol_ok ta Hwf) as (e & -> & He & Hle & He1). cbn [mbind option_bind].
    destruct (_ =? e); [|by apply kill_restored]. destruct (e <? blen (text ta)) eqn:Hlt; [|apply restored_refl].
    apply Nat.ltb_lt in Hlt. apply kill_restored; [done|done|by apply He1|simpl; lia].
  - unfold kill_to_beginning_of_line. destruct (bol_ok ta Hwf) as (b & -> & Hb & Hle & Hb1). cbn [mbind option_bind].
    destruct (_ =? b) eqn:Heq; [|by apply kill_restored]. destruct (0 <? b) eqn:Hlt; [|apply restored_refl].
    apply Nat.eqb_eq in Heq. apply Nat.ltb_lt in Hlt. apply kill_restored; [done|by apply Hb1|done|simpl; lia].
  - unfold kill_current_line. destruct (current_line_ok ta Hwf) as (r & -> & Hs & He & Hle & _). by apply kill_restored.
  - unfold delete_forward_kill. destruct (_ || _); [apply restored_refl|].
    destruct (steps_forward_ok n _ ta Hwf Hc). by apply kill_restored.
  - unfold vim_kill_to_end_of_line. destruct (eol_ok ta Hwf) as (e & -> & He & Hle & _). cbn [mbind option_bind].
    destruct (_ <? e); [by apply kill_restored|apply restored_refl].
  - unfold apply_vim_operator. destruct (motion_ok motion ta Hwf) as (r & Hr & Hok). rewrite Hr. cbn [mbind option_bind].
    destruct r as [x|]; [|apply restored_refl]. destruct (Hok x eq_refl) as (Hs & He & _).
    apply kill_restored; [done..|by eapply motion_around].
Qed.

(** With fewer than 65536 lines the arithmetic of the scroll position does not overflow,
    the line of the cursor is on the screen, and no row is left empty that a line could fill. *)
Theorem the_cursor_stays_on_screen h lines scroll ta :
  0 < h -> length lines < 65536 ->
  exists s, effective_scroll h lines scroll ta = Some s /\ s <= cursor_line lines ta < s + h /\ s + h <= Nat.max (length lines) h.
Proof.
  intros Hh Hl. unfold effective_scroll. fold (cursor_line lines ta).
  assert (cursor_line lines ta < Nat.max 1 (length lines)) as Hcl.
  { destruct (decide (lines = [])) as [->|Hne]; [apply Nat.lt_0_1|].
    assert (0 < length lines) as Hpos by (destruct lines; [done|apply Nat.lt_0_succ]). pose proof (cursor_line_lt lines ta Hpos). lia. }
  rewrite !u16_small by lia. destruct (length lines <=? h) eqn:Hle.
  { apply Nat.leb_le in Hle. exists 0. split; [done|lia]. }
  apply Nat.leb_gt in Hle. destruct (cursor_line lines ta <? _) eqn:Hs1.
  { apply Nat.ltb_lt in Hs1. eexists. split; [done|lia]. }
  apply Nat.ltb_ge in Hs1. rewrite !add_u16_small by lia. cbn [mbind option_bind].
  destruct (_ <=? cursor_line lines ta) eqn:Hs2.
  - apply Nat.leb_le in Hs2. eexists. split; [done|lia].
  - apply Nat.leb_gt in Hs2. eexists. split; [done|lia].
Qed.

End promises.

(** ** Concrete text areas *)

Definition press (c : KeyCode) : KeyEvent := mkKeyEvent c 0 Keys.Press.
(** A text with an element in it, and the cursor right behind it. *)
Definition sample : TextArea := set_cursor 11 (set_text_with_elements ($"see [image] now") [mkRange 4 11] new).
Lemma sample_ranges : ranges_ok ($"see [image] now") [mkRange 4 11].
Proof.
  split; [|repeat constructor]. constructor; [|constructor]. split_and!; [by apply boundary_iff..|simpl; lia].
Qed.
Lemma sample_wf : wf sample.
Proof. apply set_cursor_wf. apply (set_text_ok _ (Some [mkRange 4 11])). apply sample_ranges. Qed.

Lemma editor_keys_do_their_work_witness :
  op_of (editor (keymap sample)) (press Backspace) = EraseBack /\
  option_map (fun ta => (text ta, elements ta)) (input (press Backspace) sample) = Some ($"see  now", []) /\
  exists ta', input (press Backspace) sample = Some ta' /\ wf ta' /\ settled ta' /\
    does (op_of (editor (keymap sample)) (press Backspace)) sample ta'.
Proof.
  split_and!; [by vm_compute..|]. apply (editor_keys_do_their_work (press Backspace) sample sample_wf); [|done].
  by apply set_cursor_settled, (set_text_ok _ (Some [mkRange 4 11])), sample_ranges.
Defined.

Definition sample_calls : list Call :=
  [SetTextWithElements ($"see [image] now") [mkRange 4 11]; Wrap 20; Press (press Left); AddRange (mkRange 0 3);
   Press (press Up); InsertStr ($"do "); SetVim true; Press (press (Char (ch "x"))); SetText ($"x")].
Lemma no_calls_panic_witness :
  all_allowed sample_calls new /\ option_map text (run_calls (take 6 sample_calls) new) = Some ($"do see [image] now") /\
  exists ta, run_calls sample_calls new = Some ta /\ wf ta.
Proof.
  assert (all_allowed sample_calls new) as Hal.
  { split; [apply sample_ranges|]. intros ? _. repeat (split; [done|intros ? _]). done. }
  split_and!; [exact Hal|by vm_compute|]. exact (no_calls_panic sample_calls Hal).
Defined.

Lemma yank_restores_the_last_kill_witness :
  option_map (fun ta => (text ta, kill_buffer ta)) (run_kill KillLineStart sample) = Some ($" now", $"see [image]") /\
  restored sample (run_kill KillLineStart sample).
Proof. split; [by vm_compute|]. exact (yank_restores_the_last_kill KillLineStart sample sample_wf). Defined.

(** Five lines of two characters and a cursor on the last, on a screen of two rows. *)
Definition five_lines : list Range := (fun i => mkRange (3 * i) (3 * i + 3)) <$> seq 0 5.
Lemma the_cursor_stays_on_screen_witness :
  effective_scroll 2 five_lines 0 sample = Some 2 /\
  exists s, effective_scroll 2 five_lines 0 sample = Some s /\ s <= cursor_line five_lines sample < s + 2 /\
    s + 2 <= Nat.max (length five_lines) 2.
Proof. split; [by vm_compute|]. apply (the_cursor_stays_on_screen 2 five_lines 0 sample); [lia|]. apply Nat.ltb_lt. by vm_compute. Defined.

(** Escape in the insert mode of vim moves the cursor by one boundary to the left, but not
    beyond the start of its line, and does not look whether that start is in an element. *)
Definition two_lines : TextArea := set_text_with_elements [97; newline; 98]%N [mkRange 0 3] new.
Definition two_lines_insert : TextArea := enter_vim_insert_mode (set_vim_enabled true (set_cursor 3 two_lines)).
Lemma two_lines_ranges : ranges_ok [97; newline; 98]%N [mkRange 0 3].
Proof.
  split; [|repeat constructor]. constructor; [|constructor]. split_and!; [by apply boundary_iff..|simpl; lia].
Qed.
Lemma escape_enters_an_element :
  wf two_lines_insert /\ settled two_lines_insert /\
  exists ta', input (press Esc) two_lines_insert = Some ta' /\ ~ settled ta'.
Proof.
  split_and!.
  - eapply (wf_kept (set_cursor 3 two_lines)); [|done..]. apply set_cursor_wf. by apply (set_text_ok _ (Some [mkRange 0 3])), two_lines_ranges.
  - by apply set_cursor_settled, (set_text_ok _ (Some [mkRange 0 3])), two_lines_ranges.
  - eexists. split; [by vm_compute|]. intros Hs. apply Forall_cons in Hs as [Hs _]. simpl in Hs. lia.
Qed.
End Promises.
