(* ===== verification/PasteBurst.v ===== *)
(** The detector of pastes that arrive as keys ([tui/src/bottom_pane/paste_burst.rs]): a state
    machine over times that holds the first fast character, collects a burst and says when
    it is flushed.  Times and durations are in nanoseconds; a difference of times is
    truncated at zero, as [Instant::duration_since] is.  Sums of times do not overflow. *)
From S2P Require Import Prelude ByteText.

Module Burst.
Import ByteText.

Definition PASTE_BURST_MIN_CHARS : N := 3.
Definition PASTE_ENTER_SUPPRESS_WINDOW : N := 120000000.
Definition PASTE_BURST_CHAR_INTERVAL : N := 8000000.
(** On systems other than Windows. *)
Definition PASTE_BURST_ACTIVE_IDLE_TIMEOUT : N := 8000000.
Definition u16_max : N := 65535.

Record PasteBurst := mkBurst {
  last_plain_char_time : option N;
  consecutive_plain_char_burst : N;
  burst_window_until : option N;
  buffer : str;
  active : bool;
  pending_first_char : option (char * N);
}.
Definition default_burst : PasteBurst := mkBurst None 0 None [] false None.

Inductive CharDecision :=
| BeginBuffer (retro_chars : N)
| BufferAppend
| RetainFirstChar
| BeginBufferFromPending.
Record RetroGrab := mkGrab { start_byte : nat; grabbed : str }.
Inductive FlushResult := Paste (s : str) | Typed (c : char) | NoFlush.

(** [self.field = value]. *)
Definition put_window (w : option N) (b : PasteBurst) : PasteBurst :=
  mkBurst (last_plain_char_time b) (consecutive_plain_char_burst b) w (buffer b) (active b) (pending_first_char b).
Definition put_buffer (s : str) (b : PasteBurst) : PasteBurst :=
  mkBurst (last_plain_char_time b) (consecutive_plain_char_burst b) (burst_window_until b) s (active b) (pending_first_char b).
Definition put_active (a : bool) (b : PasteBurst) : PasteBurst :=
  mkBurst (last_plain_char_time b) (consecutive_plain_char_burst b) (burst_window_until b) (buffer b) a (pending_first_char b).
Definition put_pending (p : option (char * N)) (b : PasteBurst) : PasteBurst :=
  mkBurst (last_plain_char_time b) (consecutive_plain_char_burst b) (burst_window_until b) (buffer b) (active b) p.

Definition is_active_internal (b : PasteBurst) : bool := active b || negb (Str.is_empty (buffer b)).
Definition is_active (b : PasteBurst) : bool :=
  is_active_internal b || match pending_first_char b with Some _ => true | None => false end.
(** Keep the burst window alive. *)
Definition extend_window (now : N) (b : PasteBurst) : PasteBurst :=
  put_window (Some (now + PASTE_ENTER_SUPPRESS_WINDOW)%N) b.

Definition note_plain_char (now : N) (b : PasteBurst) : PasteBurst :=
  let n :=
    match last_plain_char_time b with
    | Some prev =>
        if (now - prev <=? PASTE_BURST_CHAR_INTERVAL)%N
        then N.min (consecutive_plain_char_burst b + 1) u16_max else 1%N
    | None => 1%N
    end in
  mkBurst (Some now) n (burst_window_until b) (buffer b) (active b) (pending_first_char b).

Definition on_plain_char (c : char) (now : N) (b : PasteBurst) : CharDecision * PasteBurst :=
  let b := note_plain_char now b in
  if active b then (BufferAppend, extend_window now b)
  else
    let late :=
      if (PASTE_BURST_MIN_CHARS <=? consecutive_plain_char_burst b)%N
      then (BeginBuffer (consecutive_plain_char_burst b - 1), b)
      else (RetainFirstChar, put_pending (Some (c, now)) b) in
    match pending_first_char b with
    | Some (held, held_at) =>
        if (now - held_at <=? PASTE_BURST_CHAR_INTERVAL)%N
        then (BeginBufferFromPending,
              extend_window now (put_buffer (buffer b ++ [held]) (put_pending None (put_active true b))))
        else late
    | None => late
    end.
Definition on_plain_char_no_hold (now : N) (b : PasteBurst) : option CharDecision * PasteBurst :=
  let b := note_plain_char now b in
  if active b then (Some BufferAppend, extend_window now b)
  else if (PASTE_BURST_MIN_CHARS <=? consecutive_plain_char_burst b)%N
  then (Some (BeginBuffer (consecutive_plain_char_burst b - 1)), b)
  else (None, b).

Definition flush_if_due (now : N) (b : PasteBurst) : FlushResult * PasteBurst :=
  let timeout := if is_active_internal b then PASTE_BURST_ACTIVE_IDLE_TIMEOUT else PASTE_BURST_CHAR_INTERVAL in
  let timed_out := match last_plain_char_time b with Some t => (timeout <? now - t)%N | None => false end in
  if timed_out && is_active_internal b then (Paste (buffer b), put_buffer [] (put_active false b))
  else if timed_out
  then match pending_first_char b with
       | Some (c, _) => (Typed c, put_pending None b)
       | None => (NoFlush, b)
       end
  else (NoFlush, b).

Definition append_newline_if_active (now : N) (b : PasteBurst) : bool * PasteBurst :=
  if is_active b then (true, extend_window now (put_buffer (buffer b ++ [newline]) b)) else (false, b).
Definition newline_should_insert_instead_of_submit (now : N) (b : PasteBurst) : bool :=
  is_active b || match burst_window_until b with Some until => (now <=? until)%N | None => false end.
Definition direct_insert_newline_should_insert (now : N) (b : PasteBurst) : bool :=
  newline_should_insert_instead_of_submit now b
  || match last_plain_char_time b with Some t => (now - t <=? PASTE_BURST_CHAR_INTERVAL)%N | None => false end.

Definition begin_with_retro_grabbed (g : str) (now : N) (b : PasteBurst) : PasteBurst :=
  let b := if Str.is_empty g then b else put_buffer (buffer b ++ g) b in
  extend_window now (put_active true b).
Definition append_char_to_buffer (c : char) (now : N) (b : PasteBurst) : PasteBurst :=
  extend_window now (put_buffer (buffer b ++ [c]) b).
Definition try_append_char_if_active (c : char) (now : N) (b : PasteBurst) : bool * PasteBurst :=
  if active b || negb (Str.is_empty (buffer b)) then (true, append_char_to_buffer c now b) else (false, b).

(** The byte position of the [retro_chars]-th character from the end. *)
Definition retro_start_index (before : str) (retro_chars : N) : nat :=
  if (retro_chars =? 0)%N then blen before
  else default 0 (fst <$> rev (char_indices before) !! N.to_nat (retro_chars - 1)).
(** [None] if the slice panics. *)
Definition decide_begin_buffer (now : N) (before : str) (retro_chars : N) (b : PasteBurst)
    : option (option RetroGrab * PasteBurst) :=
  let start := retro_start_index before retro_chars in
  g ← slice_from start before;
  let looks_pastey := existsb Str.is_whitespace g || (16 <=? length g) in
  Some (if looks_pastey then (Some (mkGrab start g), begin_with_retro_grabbed g now b) else (None, b)).

Definition flush_before_modified_input (b : PasteBurst) : option str * PasteBurst :=
  if negb (is_active b) then (None, b)
  else
    let out := buffer b in
    let b := put_buffer [] (put_active false b) in
    match pending_first_char b with
    | Some (c, _) => (Some (out ++ [c]), put_pending None b)
    | None => (Some out, b)
    end.
(** Without emitting what is buffered. *)
Definition clear_window_after_non_char (b : PasteBurst) : PasteBurst := mkBurst None 0 None (buffer b) false None.
Definition clear_after_explicit_paste (b : PasteBurst) : PasteBurst := mkBurst None 0 None [] false None.

(** ** What is held *)

(** Characters typed and not yet in the text, in the order in which they are flushed. *)
Definition held_text (b : PasteBurst) : str :=
  buffer b ++ match pending_first_char b with Some (c, _) => [c] | None => [] end.
(** A held first character excludes a collected burst, and is as recent as the last
    character. *)
Definition held_ok (b : PasteBurst) : Prop :=
  forall c t, pending_first_char b = Some (c, t) ->
  active b = false /\ buffer b = [] /\ last_plain_char_time b = Some t.

Lemma is_active_false b : is_active b = false <-> active b = false /\ buffer b = [] /\ pending_first_char b = None.
Proof.
  unfold is_active, is_active_internal. destruct b as [l n w [|c s] [] [p|]]; simpl; split; naive_solver.
Qed.
Lemma active_internal_false b : is_active_internal b = false <-> active b = false /\ buffer b = [].
Proof. unfold is_active_internal. destruct b as [l n w [|c s] [] p]; simpl; split; naive_solver. Qed.
Lemma held_ok_default : held_ok default_burst.
Proof. by intros c t. Qed.

Lemma flush_before_spec b :
  held_ok b ->
  match flush_before_modified_input b with
  | (Some s, b') => is_active b = true /\ s = held_text b
  | (None, b') => b' = b /\ is_active b = false
  end.
Proof.
  intros Hok. unfold flush_before_modified_input. destruct (is_active b) eqn:Ha; simpl; [|done].
  unfold held_text. by destruct (pending_first_char b) as [[c t]|]; simpl; rewrite ?app_nil_r.
Qed.
Lemma flush_if_due_spec now b :
  held_ok b ->
  match flush_if_due now b with
  | (Paste s, b') => s = held_text b
  | (Typed c, b') => held_text b = [c] /\ held_text b' = [] /\ held_ok b' /\ active b = false /\ active b' = false /\
      last_plain_char_time b' = last_plain_char_time b /\
      consecutive_plain_char_burst b' = consecutive_plain_char_burst b
  | (NoFlush, b') => b' = b
  end.
Proof.
  intros Hok. unfold flush_if_due.
  destruct (match last_plain_char_time b with Some t => _ | None => false end) eqn:Ht; simpl; [|done].
  destruct (is_active_internal b) eqn:Ha.
  - unfold held_text. destruct (pending_first_char b) as [[c t]|] eqn:Hp; [|by rewrite app_nil_r].
    destruct (Hok c t Hp) as (H1 & H2 & _). assert (is_active_internal b = false) by by apply active_internal_false.
    congruence.
  - apply active_internal_false in Ha as [Ha Hb].
    destruct (pending_first_char b) as [[c t]|] eqn:Hp; [|done].
    split_and!; try done; unfold held_text; simpl; by rewrite Hb, ?Hp.
Qed.
(** After a due flush, a held character is recent. *)
Lemma flush_if_due_recent now b c t :
  held_ok b -> pending_first_char (snd (flush_if_due now b)) = Some (c, t) -> (now - t <= PASTE_BURST_CHAR_INTERVAL)%N.
Proof.
  intros Hok. unfold flush_if_due.
  destruct (match last_plain_char_time b with Some t => _ | None => false end) eqn:Ht; simpl.
  - destruct (is_active_internal b) eqn:Ha; simpl.
    + intros Hp. destruct (Hok c t Hp) as (H1 & H2 & _).
      assert (is_active_internal b = false) by by apply active_internal_false. congruence.
    + destruct (pending_first_char b) as [[c' t']|] eqn:Hp; [done|]. simpl. by rewrite Hp.
  - intros Hp. destruct (Hok c t Hp) as (H1 & H2 & H3). rewrite H3 in Ht.
    assert (is_active_internal b = false) as Hf by by apply active_internal_false. rewrite Hf in Ht.
    by apply N.ltb_ge in Ht.
Qed.

(** Long enough after the last character, a flush leaves nothing. *)
Lemma flush_if_due_late now b :
  held_ok b -> (is_active b = true -> exists t, last_plain_char_time b = Some t /\ (PASTE_BURST_CHAR_INTERVAL < now - t)%N) ->
  is_active (snd (flush_if_due now b)) = false.
Proof.
  intros Hok Hlate. unfold flush_if_due. destruct (is_active b) eqn:Ha.
  - destruct Hlate as (t & -> & Ht); [done|].
    assert (((if is_active_internal b then PASTE_BURST_ACTIVE_IDLE_TIMEOUT else PASTE_BURST_CHAR_INTERVAL) <? now - t)%N = true) as ->.
    { apply N.ltb_lt. by destruct (is_active_internal b). }
    cbn [andb]. destruct (is_active_internal b) eqn:Hi.
    + apply is_active_false. simpl. split_and!; [done|done|]. destruct (pending_first_char b) as [[c u]|] eqn:Hp; [|done].
      destruct (Hok c u Hp) as (H1 & H2 & _). assert (is_active_internal b = false) by by apply active_internal_false. congruence.
    + apply active_internal_false in Hi as [Hi Hb].
      destruct (pending_first_char b) as [[c u]|] eqn:Hp; simpl; by apply is_active_false.
  - pose proof Ha as (H1 & H2 & H3)%is_active_false. assert (is_active_internal b = false) as -> by by apply active_internal_false.
    rewrite andb_false_r, H3. by case_match.
Qed.

(** *** Where a retroactive grab begins *)

Lemma char_indices_last n s c : char_indices_from n (s ++ [c]) = char_indices_from n s ++ [(n + blen s, c)].
Proof. rewrite char_indices_app. reflexivity. Qed.
Lemma char_indices_length n s : length (char_indices_from n s) = length s.
Proof. revert n. induction s as [|c s IH]; intros n; simpl; [done|]. by rewrite IH. Qed.
(** The position cuts off the last characters, or everything if there are fewer. *)
Lemma retro_start_spec s k :
  exists p q, s = p ++ q /\ retro_start_index s k = blen p /\ length q = Nat.min (N.to_nat k) (length s).
Proof.
  unfold retro_start_index. destruct (N.eqb_spec k 0) as [->|Hk].
  { exists s, []. rewrite app_nil_r. split_and!; [done|done|by simpl]. }
  destruct (decide (N.to_nat k <= length s)) as [Hle|Hgt].
  - exists (take (length s - N.to_nat k) s), (drop (length s - N.to_nat k) s).
    rewrite take_drop, length_drop. split_and!; [done| |lia].
    assert (exists c q, drop (length s - N.to_nat k) s = c :: q) as (c & q & Hd).
    { destruct (drop (length s - N.to_nat k) s) as [|c q] eqn:Hd; [|by eexists _, _].
      apply (f_equal length) in Hd. rewrite length_drop in Hd. simpl in Hd. lia. }
    set (p := take (length s - N.to_nat k) s) in *.
    assert (s = p ++ c :: q) as Hs by by rewrite <- Hd; subst p; rewrite take_drop.
    assert (length q = N.to_nat (k - 1)) as Hq.
    { apply (f_equal length) in Hd. rewrite length_drop in Hd. simpl in Hd. lia. }
    unfold char_indices. rewrite Hs at 1. rewrite char_indices_app. simpl.
    rewrite rev_app_distr. simpl. rewrite <- app_assoc.
    rewrite lookup_app_r; rewrite length_rev, char_indices_length; [|lia].
    by replace (N.to_nat (k - 1) - length q) with 0 by lia.
  - exists [], s. split_and!; [done| |lia].
    rewrite lookup_ge_None_2; [done|]. unfold char_indices. rewrite length_rev, char_indices_length. lia.
Qed.

End Burst.
