(* ===== verification/ComposerText.v ===== *)
(** Texts with elements, as the composer submits them: the elements of a message
    ([protocol/src/user_input.rs]), and the functions of the composer
    ([tui/src/bottom_pane/chat_composer.rs]) that replace placeholders of pastes, trim and
    shift them.  Positions are byte positions; a slice off a boundary panics ([None]). *)
From stdpp Require Import gmap.
From S2P Require Import Prelude ByteText TextArea.

Module ComposerText.
Import ByteText TextArea.

(** [TextElement] of a message: its range and its stored placeholder. *)
Record TextElement := mkTextElement { byte_range : Range; stored_placeholder : option str }.
Definition map_range (f : Range -> Range) (e : TextElement) : TextElement :=
  mkTextElement (f (byte_range e)) (stored_placeholder e).
Definition placeholder (text : str) (e : TextElement) : option str :=
  match stored_placeholder e with Some p => Some p | None => slice (start (byte_range e)) (end_ (byte_range e)) text end.
(** [TextArea::text_elements] and [set_text_with_elements] exchange such elements. *)
Definition text_elements (ta : TextArea) : list TextElement :=
  (fun '(r, p) => mkTextElement r p) <$> TextArea.text_elements ta.
Definition set_text_with_elements (t : str) (es : list TextElement) (ta : TextArea) : TextArea :=
  TextArea.set_text_with_elements t (byte_range <$> es) ta.

(** [str::parse::<usize>]. *)
Definition usize_bound : N := 2 ^ 64.
Fixpoint parse_digits (acc : N) (s : str) : option N :=
  match s with
  | [] => Some acc
  | c :: s' => if Str.is_ascii_digit c
               then let n := (acc * 10 + (c - 48))%N in if (n <? usize_bound)%N then parse_digits n s' else None
               else None
  end.
Definition parse_usize (s : str) : option N :=
  match s with
  | [] => None
  | c :: s' => if (c =? 43)%N then if Str.is_empty s' then None else parse_digits 0 s' else parse_digits 0 s
  end.

Definition shift_text_element (e : TextElement) (shift : Z) : option TextElement :=
  let s := (Z.of_nat (start (byte_range e)) + shift)%Z in
  let e' := (Z.of_nat (end_ (byte_range e)) + shift)%Z in
  if (s <? 0)%Z || (e' <? 0)%Z then None
  else if (e' <=? s)%Z then None
  else Some (map_range (fun _ => mkRange (Z.to_nat s) (Z.to_nat e')) e).

(** The elements of a trimmed text. *)
Definition trim_element (trimmed : str) (trimmed_start : nat) (e : TextElement) : option TextElement :=
  let s := start (byte_range e) in
  let e' := end_ (byte_range e) in
  let trimmed_end := trimmed_start + blen trimmed in
  if (e' <=? trimmed_start) || (trimmed_end <=? s) then None
  else
    let new_start := s - trimmed_start in
    let new_end := Nat.min (e' - trimmed_start) (blen trimmed) in
    if new_end <=? new_start then None
    else Some (mkTextElement (mkRange new_start new_end) (slice new_start new_end trimmed)).
Definition trim_text_elements (original trimmed : str) (es : list TextElement) : list TextElement :=
  if Str.is_empty trimmed || bool_decide (es = []) then []
  else omap (trim_element trimmed (blen original - blen (Str.trim_start original))) es.

(** ** Placeholders of pastes *)

(** Pastes by placeholder, each a queue. *)
Abbreviation Queues := (gmap (list N) (list (list N))).
Definition push_paste (m : Queues) (p : str * str) : Queues := <[fst p := (m !!! fst p) ++ [snd p]]> m.
Definition index_pastes (pending : list (str * str)) : Queues := foldl push_paste ∅ pending.
(** [get_mut] and [pop_front]. *)
Definition pop_paste (m : Queues) (ph : str) : option str * Queues :=
  match m !! ph with Some (a :: q) => (Some a, <[ph := q]> m) | _ => (None, m) end.

Fixpoint insert_sorted (e : TextElement) (es : list TextElement) : list TextElement :=
  match es with
  | [] => [e]
  | e' :: es' => if start (byte_range e) <=? start (byte_range e') then e :: es else e' :: insert_sorted e es'
  end.
(** [sort_by_key], which is stable. *)
Definition sort_elements (es : list TextElement) : list TextElement := foldr insert_sorted [] es.

Record Rebuilt := mkRebuilt { rebuilt : str; rebuilt_elements : list TextElement; cursor : nat; pending_by_placeholder : Queues }.
Definition expand_step (text : str) (st : Rebuilt) (elem : TextElement) : option Rebuilt :=
  let s := Nat.min (start (byte_range elem)) (blen text) in
  let e := Nat.min (end_ (byte_range elem)) (blen text) in
  if e <? s then Some st
  else
    out ← if cursor st <? s then between ← slice (cursor st) s text; Some (rebuilt st ++ between) else Some (rebuilt st);
    elem_text ← slice s e text;
    let ph := placeholder text elem in
    let '(replacement, m) :=
      match ph with Some p => pop_paste (pending_by_placeholder st) p | None => (None, pending_by_placeholder st) end in
    Some match replacement with
         | Some actual => mkRebuilt (out ++ actual) (rebuilt_elements st) e m
         | None =>
             let new_start := blen out in
             let out := out ++ elem_text in
             let ph := match ph with Some p => Some p | None => Some elem_text end in
             mkRebuilt out (rebuilt_elements st ++ [mkTextElement (mkRange new_start (blen out)) ph]) e m
         end.
Fixpoint expand_loop (text : str) (st : Rebuilt) (es : list TextElement) : option Rebuilt :=
  match es with
  | [] => Some st
  | e :: es => st ← expand_step text st e; expand_loop text st es
  end.
Definition expand_pending_pastes (text : str) (es : list TextElement) (pending : list (str * str))
    : option (str * list TextElement) :=
  if bool_decide (pending = []) || bool_decide (es = []) then Some (text, es)
  else
    st ← expand_loop text (mkRebuilt [] [] 0 (index_pastes pending)) (sort_elements es);
    out ← if cursor st <? blen text then rest ← slice_from (cursor st) text; Some (rebuilt st ++ rest) else Some (rebuilt st);
    Some (out, rebuilt_elements st).

(** [\[Pasted Content n chars\]], numbered if there is one of this size already. *)
Definition paste_base (char_count : nat) : str := $"[Pasted Content " ++ Str.show_nat char_count ++ $" chars]".
Definition max_suffix_step (base prefix : str) (max_suffix : N) (p : str * str) : N :=
  if bool_decide (fst p = base) then N.max max_suffix 1
  else match Str.strip_prefix prefix (fst p) with
       | Some suffix => match parse_usize suffix with Some v => N.max max_suffix v | None => max_suffix end
       | None => max_suffix
       end.
Definition next_large_paste_placeholder (pending : list (str * str)) (char_count : nat) : str :=
  let base := paste_base char_count in
  let max_suffix := foldl (max_suffix_step base (base ++ $" #")) 0%N pending in
  if (max_suffix =? 0)%N then base else base ++ $" #" ++ Str.show_N (max_suffix + 1).

(** ** Texts in pieces

    A text with its elements, as a list of plain pieces and of elements, and what replacing
    the placeholders means on it. *)

Inductive Piece := Plain (s : str) | Elem (s : str).
Definition piece_text (p : Piece) : str := match p with Plain s | Elem s => s end.
Definition render (ps : list Piece) : str := flat_map piece_text ps.
Fixpoint elements_from (n : nat) (ps : list Piece) : list TextElement :=
  match ps with
  | [] => []
  | Plain s :: ps => elements_from (n + blen s) ps
  | Elem s :: ps => mkTextElement (mkRange n (n + blen s)) (Some s) :: elements_from (n + blen s) ps
  end.
(** The first paste of a placeholder, and the other pastes. *)
Fixpoint take_paste (ph : str) (pending : list (str * str)) : option (str * list (str * str)) :=
  match pending with
  | [] => None
  | (p, a) :: pending => if bool_decide (p = ph) then Some (a, pending)
                         else '(b, pending) ← take_paste ph pending; Some (b, (p, a) :: pending)
  end.
Fixpoint expand_pieces (pending : list (str * str)) (ps : list Piece) : list Piece :=
  match ps with
  | [] => []
  | Plain s :: ps => Plain s :: expand_pieces pending ps
  | Elem s :: ps =>
      match take_paste s pending with
      | Some (a, pending) => Plain a :: expand_pieces pending ps
      | None => Elem s :: expand_pieces pending ps
      end
  end.

Lemma render_cat a b : render (a ++ b) = render a ++ render b.
Proof. apply flat_map_app. Qed.
Lemma elements_from_app n a b : elements_from n (a ++ b) = elements_from n a ++ elements_from (n + blen (render a)) b.
Proof.
  revert n. induction a as [|[s|s] a IH]; intros n; simpl; [by rewrite Nat.add_0_r| |];
    by rewrite IH, blen_app, Nat.add_assoc.
Qed.
Lemma elements_from_ge n ps : Forall (fun e => n <= start (byte_range e)) (elements_from n ps).
Proof.
  revert n. induction ps as [|[s|s] ps IH]; intros n; simpl; [constructor| |constructor; [done|]];
    (eapply Forall_impl; [apply IH|simpl; lia]).
Qed.
Lemma insert_sorted_first e es : Forall (fun x => start (byte_range e) <= start (byte_range x)) es -> insert_sorted e es = e :: es.
Proof. destruct es as [|x es]; simpl; [done|]. intros [H _]%Forall_cons. by apply Nat.leb_le in H as ->. Qed.
Lemma sort_elements_from n ps : sort_elements (elements_from n ps) = elements_from n ps.
Proof.
  revert n. induction ps as [|[s|s] ps IH]; intros n; simpl; [done|apply IH|].
  rewrite IH. apply insert_sorted_first. eapply Forall_impl; [apply elements_from_ge|simpl; lia].
Qed.

(** The queues of the code and the list of pastes. *)
Definition queue_of (ph : str) (pending : list (str * str)) : list str :=
  snd <$> List.filter (fun p => bool_decide (fst p = ph)) pending.
Definition agrees (m : Queues) (pending : list (str * str)) : Prop := forall ph, m !!! ph = queue_of ph pending.
Lemma push_agrees m pending p : agrees m pending -> agrees (push_paste m p) (pending ++ [p]).
Proof.
  intros H ph. unfold queue_of. rewrite List.filter_app, fmap_app. simpl. unfold push_paste.
  case_bool_decide as Hp.
  - subst ph. rewrite lookup_total_insert_eq, H. done.
  - rewrite lookup_total_insert_ne by done. rewrite H. simpl. by rewrite app_nil_r.
Qed.
Lemma index_agrees pending : agrees (index_pastes pending) pending.
Proof.
  unfold index_pastes.
  enough (forall m done, agrees m done -> agrees (foldl push_paste m pending) (done ++ pending)) as H by by apply (H ∅ []).
  induction pending as [|p pending IH]; intros m l H; simpl; [by rewrite app_nil_r|].
  replace (l ++ p :: pending) with ((l ++ [p]) ++ pending) by by rewrite <- app_assoc.
  apply IH. by apply push_agrees.
Qed.
Lemma take_paste_None ph pending : take_paste ph pending = None -> queue_of ph pending = [].
Proof.
  induction pending as [|[p a] pending IH]; simpl; [done|]. unfold queue_of. simpl. case_bool_decide; [done|].
  destruct (take_paste ph pending) as [[b l]|]; [done|]. intros _. by apply IH.
Qed.
Lemma take_paste_Some ph pending a rest :
  take_paste ph pending = Some (a, rest) ->
  queue_of ph pending = a :: queue_of ph rest /\ forall q, q <> ph -> queue_of q pending = queue_of q rest.
Proof.
  revert rest. induction pending as [|[p b] pending IH]; intros rest; simpl; [done|]. unfold queue_of. simpl.
  case_bool_decide as Hp.
  - intros [= <- <-]. simpl. split; [done|]. intros q Hq. rewrite bool_decide_false by congruence. done.
  - destruct (take_paste ph pending) as [[b' l]|]; [|done]. intros [= -> <-]. simpl.
    rewrite bool_decide_false by done. destruct (IH l eq_refl) as [H1 H2]. split; [done|].
    intros q Hq. case_bool_decide; simpl; [f_equal|]; by apply H2.
Qed.
Lemma pop_agrees m pending ph :
  agrees m pending ->
  match take_paste ph pending with
  | Some (a, rest) => fst (pop_paste m ph) = Some a /\ agrees (snd (pop_paste m ph)) rest
  | None => pop_paste m ph = (None, m)
  end.
Proof.
  intros H. pose proof (H ph) as Hq. unfold pop_paste. unfold lookup_total, map_lookup_total in Hq.
  destruct (take_paste ph pending) as [[a rest]|] eqn:Ht.
  - apply take_paste_Some in Ht as [H1 H2]. rewrite H1 in Hq.
    destruct (m !! ph) as [q|]; simpl in Hq; [|done]. subst q. simpl. split; [done|]. intros q.
    destruct (decide (q = ph)) as [->|Hne]; [by rewrite lookup_total_insert_eq|].
    rewrite lookup_total_insert_ne by done. rewrite H. by apply H2.
  - apply take_paste_None in Ht. rewrite Ht in Hq. by destruct (m !! ph) as [q|]; simpl in Hq; [subst q|].
Qed.

(** One element, with a gap between what is copied and it. *)
Lemma expand_step_spec pre gap s post out els m :
  let '(rep, m') := pop_paste m s in
  expand_step (pre ++ gap ++ s ++ post) (mkRebuilt out els (blen pre) m)
    (mkTextElement (mkRange (blen pre + blen gap) (blen pre + blen gap + blen s)) (Some s))
  = Some match rep with
         | Some a => mkRebuilt (out ++ gap ++ a) els (blen (pre ++ gap ++ s)) m'
         | None => mkRebuilt (out ++ gap ++ s)
             (els ++ [mkTextElement (mkRange (blen out + blen gap) (blen out + blen gap + blen s)) (Some s)]) (blen (pre ++ gap ++ s)) m'
         end.
Proof.
  destruct (pop_paste m s) as [rep m'] eqn:Hpop. unfold expand_step.
  assert (blen (pre ++ gap ++ s ++ post) = blen pre + blen gap + blen s + blen post) as Hl by (rewrite !blen_app; lia).
  cbn [byte_range start end_ cursor rebuilt pending_by_placeholder rebuilt_elements].
  rewrite Hl, !Nat.min_l by lia. rewrite (proj2 (Nat.ltb_ge _ _)) by lia.
  assert ((if blen pre <? blen pre + blen gap
           then between ← slice (blen pre) (blen pre + blen gap) (pre ++ gap ++ s ++ post); Some (out ++ between)
           else Some out) = Some (out ++ gap)) as ->.
  { destruct (Nat.ltb_spec (blen pre) (blen pre + blen gap)) as [Hlt|Hge]; [by rewrite slice_between|].
    assert (gap = []) as -> by (apply blen_nil_iff; lia). by rewrite app_nil_r. }
  cbn [mbind option_bind].
  assert (slice (blen pre + blen gap) (blen pre + blen gap + blen s) (pre ++ gap ++ s ++ post) = Some s) as ->.
  { rewrite <- blen_app, app_assoc. apply slice_between. }
  cbn [mbind option_bind placeholder stored_placeholder]. rewrite Hpop.
  assert (blen pre + blen gap + blen s = blen (pre ++ gap ++ s)) as -> by (rewrite !blen_app; lia).
  destruct rep; rewrite <- ?app_assoc; [done|]. rewrite !blen_app. by rewrite Nat.add_assoc.
Qed.
Lemma expand_loop_elem pre gap s ps out els m :
  expand_loop (pre ++ gap ++ render (Elem s :: ps)) (mkRebuilt out els (blen pre) m)
    (elements_from (blen pre + blen gap) (Elem s :: ps))
  = let '(rep, m') := pop_paste m s in
    expand_loop ((pre ++ gap ++ s) ++ [] ++ render ps)
      match rep with
      | Some a => mkRebuilt (out ++ gap ++ a) els (blen (pre ++ gap ++ s)) m'
      | None => mkRebuilt (out ++ gap ++ s)
          (els ++ [mkTextElement (mkRange (blen out + blen gap) (blen out + blen gap + blen s)) (Some s)]) (blen (pre ++ gap ++ s)) m'
      end (elements_from (blen (pre ++ gap ++ s) + blen []) ps).
Proof.
  pose proof (expand_step_spec pre gap s (render ps) out els m) as Hstep. destruct (pop_paste m s) as [rep m'].
  cbn [elements_from expand_loop]. change (render (Elem s :: ps)) with (s ++ render ps). rewrite Hstep. cbn [mbind option_bind].
  rewrite <- !app_assoc. f_equal. rewrite !blen_app. simpl. f_equal. lia.
Qed.

(** The loop, with a gap between what is copied and the next piece. *)
Lemma expand_loop_spec ps pending m pre gap out els :
  agrees m pending ->
  let text := pre ++ gap ++ render ps in
  exists st, expand_loop text (mkRebuilt out els (blen pre) m) (elements_from (blen pre + blen gap) ps) = Some st /\
  exists before rest, text = before ++ rest /\ cursor st = blen before /\
    rebuilt st ++ rest = out ++ gap ++ render (expand_pieces pending ps) /\
    rebuilt_elements st = els ++ elements_from (blen out + blen gap) (expand_pieces pending ps).
Proof.
  revert pending m pre gap out els. induction ps as [|[s|s] ps IH]; intros pending m pre gap out els Hm; cbn zeta.
  - simpl. eexists. split; [done|]. exists pre, gap. rewrite !app_nil_r. done.
  - specialize (IH pending m pre (gap ++ s) out els Hm). cbn zeta in IH. rewrite !blen_app, !Nat.add_assoc, <- !app_assoc in IH.
    exact IH.
  - rewrite (expand_loop_elem pre gap s ps). pose proof (pop_agrees m pending s Hm) as Hp. cbn [expand_pieces].
    destruct (take_paste s pending) as [[a rest]|].
    + destruct (pop_paste m s) as [rep m']. cbn [fst snd] in Hp. destruct Hp as [-> Hm'].
      destruct (IH rest m' (pre ++ gap ++ s) [] (out ++ gap ++ a) els Hm') as (st & Hst & before & after & H1 & H2 & H3 & H4).
      exists st. split; [exact Hst|]. exists before, after. rewrite H3, H4. split_and!; [by rewrite <- H1, <- !app_assoc|done|..].
      * cbn [render flat_map piece_text]. by rewrite <- !app_assoc.
      * cbn [elements_from]. rewrite !blen_app. do 2 f_equal. simpl. lia.
    + rewrite Hp.
      edestruct (IH pending m (pre ++ gap ++ s) [] (out ++ gap ++ s)) as (st & Hst & before & after & H1 & H2 & H3 & H4); [done|].
      exists st. split; [exact Hst|]. exists before, after. rewrite H3, H4. split_and!; [by rewrite <- H1, <- !app_assoc|done|..].
      * cbn [render flat_map piece_text]. by rewrite <- !app_assoc.
      * cbn [elements_from]. rewrite !blen_app, <- app_assoc. simpl. do 3 f_equal. lia.
Qed.
Lemma expand_pieces_none ps : expand_pieces [] ps = ps.
Proof. induction ps as [|[s|s] ps IH]; simpl; [done| |]; by rewrite IH. Qed.
Lemma elements_from_nil n ps pending : elements_from n ps = [] -> expand_pieces pending ps = ps.
Proof. revert n. induction ps as [|[s|s] ps IH]; intros n; simpl; [done| |done]. intros H. by rewrite (IH _ H). Qed.
(** Replacing the placeholders of a text in pieces is replacing the pieces. *)
Lemma expand_pending_spec ps pending :
  expand_pending_pastes (render ps) (elements_from 0 ps) pending
  = Some (render (expand_pieces pending ps), elements_from 0 (expand_pieces pending ps)).
Proof.
  unfold expand_pending_pastes. case_bool_decide as Hp; simpl.
  { subst pending. by rewrite expand_pieces_none. }
  case_bool_decide as He; simpl.
  { by rewrite (elements_from_nil _ _ _ He). }
  rewrite sort_elements_from.
  destruct (expand_loop_spec ps pending (index_pastes pending) [] [] [] [] (index_agrees pending))
    as (st & Hst & before & rest & H1 & H2 & H3 & H4).
  cbn [blen app Nat.add] in *. rewrite Hst. cbn [mbind option_bind].
  assert ((if cursor st <? blen (render ps) then r ← slice_from (cursor st) (render ps); Some (rebuilt st ++ r) else Some (rebuilt st))
          = Some (rebuilt st ++ rest)) as ->.
  { rewrite H1, H2, blen_app. destruct (Nat.ltb_spec (blen before) (blen before + blen rest)) as [Hlt|Hge].
    - by rewrite slice_from_app.
    - assert (rest = []) as -> by (apply blen_nil_iff; lia). by rewrite app_nil_r. }
  cbn [mbind option_bind]. by rewrite H3, H4.
Qed.

End ComposerText.
