(* ===== verification/SlashCommands.v ===== *)
(** Slash commands of the composer: the built-in commands ([tui/src/slash_command.rs]),
    which of them an input may use ([bottom_pane/slash_commands.rs]), and how they are read
    from a text ([bottom_pane/prompt_args.rs], [chat_composer/slash_input.rs]).  The popup
    that lists commands is not modelled. *)
From S2P Require Import Prelude ByteText TextArea ComposerText.

Module Slash.
Import ByteText TextArea ComposerText.

Inductive SlashCommand :=
| Model | Ide | Permissions | Keymap | Vim | ElevateSandbox | SandboxReadRoot | Experimental | AutoReview | Memories
| Skills | Hooks | Review | Rename | New | Archive | Resume | Fork | Init | Compact | Plan | Goal | Agent | Side | Btw
| Copy | Raw | Diff | Mention | Status | DebugConfig | Title | Statusline | Theme | Pets | Mcp | Apps | Plugins | Logout
| Quit | Exit | Feedback | Rollout | Ps | Stop | Clear | Personality | Realtime | Settings | TestApproval | MultiAgents
| MemoryDrop | MemoryUpdate.
#[global] Instance slash_command_eq_dec : EqDecision SlashCommand.
Proof. solve_decision. Defined.
(** [SlashCommand::iter]: declaration order. *)
Definition iter : list SlashCommand :=
  [Model; Ide; Permissions; Keymap; Vim; ElevateSandbox; SandboxReadRoot; Experimental; AutoReview; Memories;
   Skills; Hooks; Review; Rename; New; Archive; Resume; Fork; Init; Compact; Plan; Goal; Agent; Side; Btw;
   Copy; Raw; Diff; Mention; Status; DebugConfig; Title; Statusline; Theme; Pets; Mcp; Apps; Plugins; Logout;
   Quit; Exit; Feedback; Rollout; Ps; Stop; Clear; Personality; Realtime; Settings; TestApproval; MultiAgents;
   MemoryDrop; MemoryUpdate].
Definition command (c : SlashCommand) : str :=
  match c with
  | Model => $"model" | Ide => $"ide" | Permissions => $"permissions" | Keymap => $"keymap" | Vim => $"vim"
  | ElevateSandbox => $"setup-default-sandbox" | SandboxReadRoot => $"sandbox-add-read-dir"
  | Experimental => $"experimental" | AutoReview => $"approve" | Memories => $"memories" | Skills => $"skills"
  | Hooks => $"hooks" | Review => $"review" | Rename => $"rename" | New => $"new" | Archive => $"archive"
  | Resume => $"resume" | Fork => $"fork" | Init => $"init" | Compact => $"compact" | Plan => $"plan" | Goal => $"goal"
  | Agent => $"agent" | Side => $"side" | Btw => $"btw" | Copy => $"copy" | Raw => $"raw" | Diff => $"diff"
  | Mention => $"mention" | Status => $"status" | DebugConfig => $"debug-config" | Title => $"title"
  | Statusline => $"statusline" | Theme => $"theme" | Pets => $"pets" | Mcp => $"mcp" | Apps => $"apps"
  | Plugins => $"plugins" | Logout => $"logout" | Quit => $"quit" | Exit => $"exit" | Feedback => $"feedback"
  | Rollout => $"rollout" | Ps => $"ps" | Stop => $"stop" | Clear => $"clear" | Personality => $"personality"
  | Realtime => $"realtime" | Settings => $"settings" | TestApproval => $"test-approval" | MultiAgents => $"subagents"
  | MemoryDrop => $"debug-m-drop" | MemoryUpdate => $"debug-m-update"
  end.
(** Names that are read besides the name that is shown. *)
Definition alias (c : SlashCommand) : option str :=
  match c with Pets => Some $"pet" | Stop => Some $"clean" | _ => None end.
Definition from_str (s : str) : option SlashCommand :=
  List.find (fun c => bool_decide (command c = s) || bool_decide (alias c = Some s)) iter.

Definition supports_inline_args (c : SlashCommand) : bool :=
  match c with
  | Review | Rename | Plan | Goal | Ide | Keymap | Mcp | Raw | Pets | Side | Btw | Resume | SandboxReadRoot => true
  | _ => false
  end.
Definition available_in_side_conversation (c : SlashCommand) : bool :=
  match c with Copy | Raw | Diff | Mention | Status | Ide => true | _ => false end.
Definition available_during_task (c : SlashCommand) : bool :=
  match c with
  | New | Archive | Resume | Fork | Init | Compact | Model | Personality | Permissions | Keymap | Vim | ElevateSandbox
  | SandboxReadRoot | Experimental | Memories | Review | Plan | Clear | Logout | MemoryDrop | MemoryUpdate => false
  | Theme | Pets => false
  | _ => true
  end.
(** A release build for a Unix system other than Android. *)
Definition is_visible (c : SlashCommand) : bool :=
  match c with SandboxReadRoot | Rollout | TestApproval => false | _ => true end.
Definition built_in_slash_commands : list SlashCommand := List.filter is_visible iter.

Record ServiceTierCommand := mkTier { tier_id : str; tier_name : str; description : str }.
Inductive SlashCommandItem := Builtin (c : SlashCommand) | ServiceTier (t : ServiceTierCommand).
Definition item_command (i : SlashCommandItem) : str := match i with Builtin c => command c | ServiceTier t => tier_name t end.
Definition item_supports_inline_args (i : SlashCommandItem) : bool :=
  match i with Builtin c => supports_inline_args c | ServiceTier _ => false end.
Definition item_available_in_side_conversation (i : SlashCommandItem) : bool :=
  match i with Builtin c => available_in_side_conversation c | ServiceTier _ => false end.
Definition item_available_during_task (i : SlashCommandItem) : bool :=
  match i with Builtin c => available_during_task c | ServiceTier _ => false end.

Record BuiltinCommandFlags := mkFlags {
  collaboration_modes_enabled : bool;
  connectors_enabled : bool;
  plugins_command_enabled : bool;
  service_tier_commands_enabled : bool;
  goal_command_enabled : bool;
  personality_command_enabled : bool;
  realtime_conversation_enabled : bool;
  audio_device_selection_enabled : bool;
  allow_elevate_sandbox : bool;
  side_conversation_active : bool;
}.
Definition builtin_allowed (f : BuiltinCommandFlags) (c : SlashCommand) : bool :=
  (allow_elevate_sandbox f || negb (bool_decide (c = ElevateSandbox)))
  && (collaboration_modes_enabled f || negb (bool_decide (c = Plan)))
  && (connectors_enabled f || negb (bool_decide (c = Apps)))
  && (plugins_command_enabled f || negb (bool_decide (c = Plugins)))
  && (goal_command_enabled f || negb (bool_decide (c = Goal)))
  && (personality_command_enabled f || negb (bool_decide (c = Personality)))
  && (realtime_conversation_enabled f || negb (bool_decide (c = Realtime)))
  && (audio_device_selection_enabled f || negb (bool_decide (c = Settings)))
  && (negb (side_conversation_active f) || available_in_side_conversation c).
Definition builtins_for_input (f : BuiltinCommandFlags) : list SlashCommand :=
  List.filter (builtin_allowed f) built_in_slash_commands.
Definition commands_for_input (f : BuiltinCommandFlags) (tiers : list ServiceTierCommand) : list SlashCommandItem :=
  List.filter (fun i => negb (side_conversation_active f) || item_available_in_side_conversation i)
    (flat_map (fun c => Builtin c :: if bool_decide (c = Model) && service_tier_commands_enabled f then ServiceTier <$> tiers else [])
       (builtins_for_input f)).
Definition outside_side_conversation (f : BuiltinCommandFlags) : BuiltinCommandFlags :=
  mkFlags (collaboration_modes_enabled f) (connectors_enabled f) (plugins_command_enabled f)
    (service_tier_commands_enabled f) (goal_command_enabled f) (personality_command_enabled f)
    (realtime_conversation_enabled f) (audio_device_selection_enabled f) (allow_elevate_sandbox f) false.
Definition find_builtin_command (name : str) (f : BuiltinCommandFlags) : option SlashCommand :=
  c ← from_str name;
  if existsb (fun v => bool_decide (v = c)) (builtins_for_input (outside_side_conversation f)) then Some c else None.
Definition find_slash_command (name : str) (f : BuiltinCommandFlags) (tiers : list ServiceTierCommand) : option SlashCommandItem :=
  match find_builtin_command name f with
  | Some c => Some (Builtin c)
  | None =>
      if service_tier_commands_enabled f
      then ServiceTier <$> List.find (fun t => bool_decide (tier_name t = name)) tiers
      else None
  end.

(** ** Reading a command *)

Fixpoint until_whitespace (s : str) : str * str :=
  match s with
  | [] => ([], [])
  | c :: s' => if Str.is_whitespace c then ([], s) else let '(a, b) := until_whitespace s' in (c :: a, b)
  end.
(** [/name rest], with the byte position of [rest]. *)
Definition parse_slash_name (line : str) : option (str * str * nat) :=
  stripped ← Str.strip_prefix $"/" line;
  let '(name, rest_untrimmed) := until_whitespace stripped in
  if Str.is_empty name then None
  else
    let rest := Str.trim_start rest_untrimmed in
    Some (name, rest, blen name + (blen rest_untrimmed - blen rest) + 1).

Inductive SlashValidation := Immediate | Deferred.
Inductive SubmissionValidation := Valid | UnknownCommand (name : str).
Record InlineCommand := mkInline { inline : SlashCommandItem; inline_rest : str; rest_offset : nat }.
Inductive QueuedInputAction := PlainInput | ParseSlash | RunShell.

Record SlashInput := mkSlashInput {
  enabled : bool;
  is_bash_mode : bool;
  command_flags : BuiltinCommandFlags;
  service_tier_commands : list ServiceTierCommand;
}.
Definition slash_command (i : SlashInput) (name : str) : option SlashCommandItem :=
  find_slash_command name (command_flags i) (service_tier_commands i).
Definition has_slash (name : str) : bool := Str.contains_char (ch "/") name.
Definition validate_submission (i : SlashInput) (text : str) (input_starts_with_space : bool) : SubmissionValidation :=
  if negb (enabled i) then Valid
  else match parse_slash_name text with
       | None => Valid
       | Some (name, _, _) =>
           if input_starts_with_space || has_slash name then Valid
           else match slash_command i name with Some _ => Valid | None => UnknownCommand name end
       end.
Definition first_line (text : str) : str := default [] (head (Str.lines text)).
Definition bare_command (i : SlashInput) (text : str) : option SlashCommandItem :=
  if negb (enabled i) || is_bash_mode i then None
  else
    '(name, rest, _) ← parse_slash_name (first_line text);
    if negb (Str.is_empty rest) then None
    else
      c ← slash_command i name;
      if item_supports_inline_args c
         && match parse_slash_name text with Some (_, full_rest, _) => negb (Str.is_empty full_rest) | None => false end
      then None else Some c.
Definition inline_command (i : SlashInput) (text : str) : option InlineCommand :=
  if negb (enabled i) || is_bash_mode i || Str.starts_with $" " text then None
  else
    '(name, rest, offset) ← parse_slash_name text;
    if Str.is_empty rest || has_slash name then None
    else
      c ← slash_command i name;
      if item_supports_inline_args c then Some (mkInline c rest offset) else None.
Definition should_parse_on_dequeue (i : SlashInput) (text : str) : bool :=
  enabled i && negb (Str.starts_with $" " text) && Str.starts_with $"/" (Str.trim text).
(** The command at the start of the first line, when it is marked as an element. *)
Definition command_element_range (i : SlashInput) (line : str) (cursor : nat) : option Range :=
  if is_bash_mode i then None
  else
    '(name, _, _) ← parse_slash_name line;
    if has_slash name then None
    else
      let element_end := 1 + blen name in
      if (cursor <=? blen line) && (1 <=? cursor) && (cursor <? element_end) then None
      else
        let has_space_after :=
          match slice_from element_end line with Some (c :: _) => Str.is_whitespace c | _ => false end in
        if negb has_space_after then None
        else match slash_command i name with Some _ => Some (mkRange 0 element_end) | None => None end.

Definition queued_input_action (prepared_text : str) (defer_slash_validation : bool) : QueuedInputAction :=
  if defer_slash_validation && Str.starts_with $"/" prepared_text then ParseSlash
  else if Str.starts_with $"!" prepared_text then RunShell
  else PlainInput.
Definition prepared_args (prepared_text : str) : option (str * nat) :=
  '(_, rest, offset) ← parse_slash_name prepared_text; Some (rest, offset).
(** The elements of the arguments, by positions in the arguments. *)
Definition args_element (rest : str) (rest_offset : nat) (e : TextElement) : option TextElement :=
  if end_ (byte_range e) <=? rest_offset then None
  else
    let s := start (byte_range e) - rest_offset in
    let e' := Nat.min (end_ (byte_range e) - rest_offset) (blen rest) in
    if blen rest <=? s then None
    else if s <? e' then Some (map_range (fun _ => mkRange s e') e) else None.
Definition args_elements (rest : str) (rest_offset : nat) (es : list TextElement) : list TextElement :=
  if Str.is_empty rest || bool_decide (es = []) then [] else omap (args_element rest rest_offset) es.

(** ** Facts *)

Lemma from_str_command c : from_str (command c) = Some c.
Proof. by destruct c; vm_compute. Qed.
Lemma parse_no_slash c s : c <> ch "/" -> parse_slash_name (c :: s) = None.
Proof.
  intros Hc. unfold parse_slash_name. destruct (Str.strip_prefix ($"/") (c :: s)) as [t|] eqn:Hs; [|done].
  apply Str.strip_prefix_Some in Hs. by injection Hs as ->.
Qed.
Lemma parse_nil : parse_slash_name [] = None.
Proof. done. Qed.

End Slash.
