(* ===== verification/MentionCodec.v ===== *)
(** Mentions in the persistent history ([tui/src/mention_codec.rs]): a bound mention is
    written as a link, [\[$name\](path)], and read back as a mention and its target.  The
    source walks bytes; every byte it looks for is an ASCII character. *)
From stdpp Require Import gmap.
From S2P Require Import Prelude.

Module Mentions.

(** [utils/plugins/src/mention_syntax.rs]. *)
Definition TOOL_MENTION_SIGIL : char := ch "$".
Definition PLUGIN_TEXT_MENTION_SIGIL : char := ch "@".

Record LinkedMention := mkMention { sigil : char; mention : str; path : str }.
#[global] Instance linked_mention_eq_dec : EqDecision LinkedMention.
Proof. solve_decision. Defined.

Definition is_mention_name_char (c : char) : bool :=
  Str.is_ascii_alphanumeric c || (c =? ch "_")%N || (c =? ch "-")%N.
Definition is_ascii_whitespace (c : char) : bool :=
  ((c =? 32) || (c =? 9) || (c =? 10) || (c =? 12) || (c =? 13))%N.
(** Whether a mention can start after [prev], the character before it. *)
Definition starts_plaintext_mention (prev : option char) : bool :=
  match prev with None => true | Some c => Str.is_whitespace c || negb (is_mention_name_char c) end.
(** Whether a mention can end before the text [rest]. *)
Definition ends_plaintext_mention (rest : str) : bool :=
  match rest with
  | [] => true
  | c :: rest =>
      is_ascii_whitespace c
      || (c =? ch ".")%N && match rest with
                             | [] => true
                             | next :: _ => is_ascii_whitespace next || negb (is_mention_name_char next)
                             end
      || negb ((c =? ch ".") || (c =? ch "/") || (c =? ch "\"))%N && negb (is_mention_name_char c)
  end.
(** The longest prefix of characters that satisfy [p]. *)
Fixpoint span (p : char -> bool) (s : str) : str * str :=
  match s with
  | [] => ([], [])
  | c :: s' => if p c then let '(a, b) := span p s' in (c :: a, b) else ([], s)
  end.

(** ** Writing *)

Abbreviation Paths := (gmap (N * list N) (list (list N))).
Definition index_mention (m : Paths) (l : LinkedMention) : Paths :=
  if bool_decide (sigil l = TOOL_MENTION_SIGIL) || bool_decide (sigil l = PLUGIN_TEXT_MENTION_SIGIL)
  then <[(sigil l, mention l) := (m !!! (sigil l, mention l)) ++ [path l]]> m
  else m.
Definition pop_path (m : Paths) (k : N * list N) : option (str * Paths) :=
  match m !! k with Some (p :: q) => Some (p, <[k := q]> m) | _ => None end.
(** The mention of [m] that starts here, with what follows it. *)
Definition mention_here (prev : option char) (s : str) (m : Paths) : option (char * str * str * str * Paths) :=
  match s with
  | c :: s' =>
      if (c =? TOOL_MENTION_SIGIL)%N || (c =? PLUGIN_TEXT_MENTION_SIGIL)%N && starts_plaintext_mention prev
      then
        let '(name, rest) := span is_mention_name_char s' in
        if Str.is_empty name then None
        else if (c =? TOOL_MENTION_SIGIL)%N || ends_plaintext_mention rest
        then '(p, m) ← pop_path m (c, name); Some (c, name, p, rest, m)
        else None
      else None
  | [] => None
  end.
Definition link (c : char) (name p : str) : str := $"[" ++ [c] ++ name ++ $"](" ++ p ++ $")".
Fixpoint encode_loop (fuel : nat) (prev : option char) (s : str) (m : Paths) : str :=
  match fuel, s with
  | S fuel, c :: s' =>
      match mention_here prev s m with
      | Some (c, name, p, rest, m) => link c name p ++ encode_loop fuel (last name) rest m
      | None => c :: encode_loop fuel (Some c) s' m
      end
  | _, _ => []
  end.
Definition encode_history_mentions (text : str) (mentions : list LinkedMention) : str :=
  if bool_decide (mentions = []) || Str.is_empty text then text
  else encode_loop (length text) None text (foldl index_mention ∅ mentions).

(** ** Reading *)

Definition ascii_uppercase (c : char) : char := (if (97 <=? c) && (c <=? 122) then c - 32 else c)%N.
Definition common_env_vars : list str :=
  [$"PATH"; $"HOME"; $"USER"; $"SHELL"; $"PWD"; $"TMPDIR"; $"TEMP"; $"TMP"; $"LANG"; $"TERM"; $"XDG_CONFIG_HOME"].
Definition is_common_env_var (name : str) : bool := bool_decide (map ascii_uppercase name ∈ common_env_vars).
Definition last_segment (p : str) : str :=
  foldl (fun seg c => if (c =? ch "/")%N || (c =? ch "\")%N then [] else seg ++ [c]) [] p.
Definition is_tool_path (p : str) : bool :=
  Str.starts_with $"app://" p || Str.starts_with $"mcp://" p || Str.starts_with $"plugin://" p || Str.starts_with $"skill://" p
  || Str.eq_ignore_ascii_case (last_segment p) $"SKILL.md".
(** A link at the start of [s]: its name, its path and what follows. *)
Definition parse_linked_tool_mention (s : str) (sigil : char) : option (str * str * str) :=
  match s with
  | _ :: c :: s =>
      if negb (c =? sigil)%N then None
      else
        let '(name, s) := span is_mention_name_char s in
        if Str.is_empty name then None
        else
          s ← Str.strip_prefix $"]" s;
          s ← Str.strip_prefix $"(" (snd (span is_ascii_whitespace s));
          let '(p, s) := span (fun c => negb (c =? ch ")")%N) s in
          s ← Str.strip_prefix $")" s;
          let p := Str.trim p in
          if Str.is_empty p then None else Some (name, p, s)
  | _ => None
  end.
Definition parse_history_linked_mention (s : str) (at_mentions_enabled : bool) : option (char * str * str * str) :=
  let tool :=
    '(name, p, rest) ← parse_linked_tool_mention s TOOL_MENTION_SIGIL;
    if negb (is_common_env_var name) && is_tool_path p then Some (TOOL_MENTION_SIGIL, name, p, rest) else None in
  match tool with
  | Some r => Some r
  | None =>
      '(name, p, rest) ← parse_linked_tool_mention s PLUGIN_TEXT_MENTION_SIGIL;
      if at_mentions_enabled
      then if negb (is_common_env_var name) && is_tool_path p then Some (PLUGIN_TEXT_MENTION_SIGIL, name, p, rest) else None
      else if negb (is_common_env_var name) && Str.starts_with $"plugin://" p then Some (TOOL_MENTION_SIGIL, name, p, rest) else None
  end.
Fixpoint decode_loop (fuel : nat) (s : str) (at_mentions_enabled : bool) : str * list LinkedMention :=
  match fuel, s with
  | S fuel, c :: s' =>
      match (if (c =? ch "[")%N then parse_history_linked_mention s at_mentions_enabled else None) with
      | Some (sg, name, p, rest) =>
          let '(out, ms) := decode_loop fuel rest at_mentions_enabled in (sg :: name ++ out, mkMention sg name p :: ms)
      | None => let '(out, ms) := decode_loop fuel s' at_mentions_enabled in (c :: out, ms)
      end
  | _, _ => ([], [])
  end.
Definition decode_history_mentions_with_at_mentions (text : str) (at_mentions_enabled : bool) : str * list LinkedMention :=
  decode_loop (length text) text at_mentions_enabled.


(** ** Reading what is written *)

Lemma span_Some p s a b : span p s = (a, b) -> s = a ++ b /\ Forall (fun c => p c = true) a.
Proof.
  revert a b. induction s as [|c s IH]; intros a b; simpl; [by intros [= <- <-]|].
  destruct (p c) eqn:Hc; [|by intros [= <- <-]]. destruct (span p s) as [a' b'] eqn:Hs. intros [= <- <-].
  destruct (IH a' b' eq_refl) as [-> Ha]. split; [done|by constructor].
Qed.
Lemma span_stop p a d b : Forall (fun c => p c = true) a -> p d = false -> span p (a ++ d :: b) = (a, d :: b).
Proof. intros Ha Hd. induction Ha as [|c a Hc _ IH]; simpl; [by rewrite Hd|]. by rewrite Hc, IH. Qed.

(** A path that a link can carry: it names a tool, and is read back as it is written. *)
Definition path_ok (p : str) : bool :=
  forallb (fun c => negb (c =? ch ")")%N) p && bool_decide (Str.trim p = p) && negb (Str.is_empty p) && is_tool_path p.
Definition mention_ok (l : LinkedMention) : bool := path_ok (path l) && negb (is_common_env_var (mention l)).
Lemma parse_link c name p rest :
  Forall (fun d => is_mention_name_char d = true) name -> name <> [] -> path_ok p = true ->
  forall sg, parse_linked_tool_mention (link c name p ++ rest) sg = if (c =? sg)%N then Some (name, p, rest) else None.
Proof.
  intros Hn Hne Hp sg. unfold path_ok in Hp. rewrite !andb_true_iff in Hp. destruct Hp as (((Hp & Ht%bool_decide_eq_true) & He%negb_true_iff) & _).
  assert (link c name p ++ rest = ch "[" :: c :: name ++ ch "]" :: ch "(" :: p ++ ch ")" :: rest) as ->.
  { unfold link. by rewrite <- !app_assoc. }
  cbn [parse_linked_tool_mention]. destruct (c =? sg)%N; [|done]. cbn [negb].
  rewrite span_stop by (done || by vm_compute).
  assert (Str.is_empty name = false) as -> by by destruct name.
  rewrite (Str.strip_prefix_app ($"]") (ch "(" :: p ++ ch ")" :: rest) : Str.strip_prefix ($"]") (ch "]" :: _) = _). cbn [mbind option_bind].
  assert (snd (span is_ascii_whitespace (ch "(" :: p ++ ch ")" :: rest)) = ch "(" :: p ++ ch ")" :: rest) as -> by done.
  rewrite (Str.strip_prefix_app ($"(") (p ++ ch ")" :: rest) : Str.strip_prefix ($"(") (ch "(" :: _) = _). cbn [mbind option_bind].
  rewrite span_stop; [|apply Forall_forall; intros d Hd; rewrite forallb_forall in Hp; by apply Hp, list_elem_of_In|done].
  rewrite (Str.strip_prefix_app ($")") rest : Str.strip_prefix ($")") (ch ")" :: _) = _). cbn [mbind option_bind]. by rewrite Ht, He.
Qed.
Lemma read_link c name p rest :
  (c = TOOL_MENTION_SIGIL \/ c = PLUGIN_TEXT_MENTION_SIGIL) -> Forall (fun d => is_mention_name_char d = true) name -> name <> [] ->
  mention_ok (mkMention c name p) = true -> parse_history_linked_mention (link c name p ++ rest) true = Some (c, name, p, rest).
Proof.
  intros Hc Hn Hne [Hp Hv]%andb_true_iff. simpl in Hp, Hv. pose proof Hp as Hp'. unfold path_ok in Hp'.
  apply andb_true_iff in Hp' as [_ Ht]. unfold parse_history_linked_mention. rewrite !parse_link by done.
  destruct Hc as [-> | ->].
  - rewrite N.eqb_refl. cbn [mbind option_bind]. by rewrite Hv, Ht.
  - change (PLUGIN_TEXT_MENTION_SIGIL =? TOOL_MENTION_SIGIL)%N with false. rewrite N.eqb_refl. cbn [mbind option_bind]. by rewrite Hv, Ht.
Qed.

(** ** Which mentions of a text have a target *)

(** The mention that starts here, whether or not it has a target: a sigil, where an at sign
    needs a boundary on both sides, and the longest name after it. *)
Definition mention_at (prev : option char) (s : str) : option (char * str) :=
  match s with
  | [] => None
  | c :: s' =>
      let '(name, rest) := span is_mention_name_char s' in
      if negb (Str.is_empty name)
         && ((c =? TOOL_MENTION_SIGIL)%N
             || (c =? PLUGIN_TEXT_MENTION_SIGIL)%N && starts_plaintext_mention prev && ends_plaintext_mention rest)
      then Some (c, name) else None
  end.
(** The mentions of a text, in its order. *)
Fixpoint mentions_of (prev : option char) (s : str) : list (char * str) :=
  match s with
  | [] => []
  | c :: s' => match mention_at prev s with Some k => [k] | None => [] end ++ mentions_of (Some c) s'
  end.
Definition names (k : char * str) (l : LinkedMention) : bool := bool_decide ((sigil l, mention l) = k).
(** The first of the mentions with a token, and the others. *)
Fixpoint take_first (k : char * str) (ms : list LinkedMention) : option (LinkedMention * list LinkedMention) :=
  match ms with
  | [] => None
  | l :: ms =>
      if names k l then Some (l, ms)
      else '(x, ms) ← take_first k ms; Some (x, l :: ms)
  end.
(** Each mention of the text takes the first target that is left for it. *)
Fixpoint bind_targets (ks : list (char * str)) (ms : list LinkedMention) : list LinkedMention :=
  match ks with
  | [] => []
  | k :: ks => match take_first k ms with Some (l, ms) => l :: bind_targets ks ms | None => bind_targets ks ms end
  end.

Lemma take_first_None k ms : List.filter (names k) ms = [] -> take_first k ms = None.
Proof. induction ms as [|l ms IH]; simpl; [done|]. destruct (names k l); [done|]. intros H. by rewrite IH. Qed.
Lemma take_first_Some k ms l r :
  List.filter (names k) ms = l :: r ->
  exists ms', take_first k ms = Some (l, ms') /\ List.filter (names k) ms' = r /\ ms' ⊆ ms /\
    forall k', k' <> k -> List.filter (names k') ms' = List.filter (names k') ms.
Proof.
  induction ms as [|x ms IH]; simpl; [done|]. destruct (names k x) eqn:Hx.
  - intros [= -> <-]. exists ms. split_and!; [done|done|set_solver|]. intros k' Hk'. 
    unfold names in Hx |- * at 2. apply bool_decide_eq_true in Hx. by rewrite bool_decide_false by congruence.
  - intros Hf. destruct (IH Hf) as (ms' & -> & Hr & Hs & Ho). exists (x :: ms'). cbn [mbind option_bind List.filter].
    rewrite Hx. split_and!; [done|done|set_solver|]. intros k' Hk'. by rewrite Ho.
Qed.
Lemma mentions_of_name prev name rest :
  Forall (fun d => is_mention_name_char d = true) name ->
  mentions_of prev (name ++ rest) = mentions_of (if decide (name = []) then prev else last name) rest.
Proof.
  intros Hn. revert prev. induction Hn as [|d name Hd Hn IH]; intros prev; [done|].
  rewrite decide_False by done. cbn [app mentions_of mention_at].
  assert ((d =? TOOL_MENTION_SIGIL)%N = false /\ (d =? PLUGIN_TEXT_MENTION_SIGIL)%N = false) as [-> ->].
  { split; apply N.eqb_neq; intros ->; by vm_compute in Hd. }
  rewrite IH. destruct (span _ _). cbn [andb orb]. rewrite andb_false_r. cbn [app].
  case_decide as E; [by subst|]. by destruct name.
Qed.

(** The queues of targets, by token, are those of the mentions. *)
Definition queues (ms : list LinkedMention) (m : Paths) : Prop :=
  forall c name, c = TOOL_MENTION_SIGIL \/ c = PLUGIN_TEXT_MENTION_SIGIL ->
    m !!! (c, name) = path <$> List.filter (names (c, name)) ms.
Lemma index_queues ms : queues ms (foldl index_mention ∅ ms).
Proof.
  enough (forall l m, queues l m -> forall l', queues (l ++ l') (foldl index_mention m l')) as H.
  { apply (H [] ∅). intros c name _. by rewrite lookup_total_empty. }
  intros l m Hm l'. revert l m Hm. induction l' as [|[c name p] l' IH]; intros l m Hm; [by rewrite app_nil_r|].
  cbn [foldl]. replace (l ++ mkMention c name p :: l') with ((l ++ [mkMention c name p]) ++ l') by by rewrite <- app_assoc.
  apply IH. intros c' name' Hc'. rewrite List.filter_app, fmap_app, <- Hm by done. unfold index_mention. simpl.
  unfold names. simpl. destruct (decide ((c, name) = (c', name'))) as [[= <- <-]|Hne].
  - rewrite (bool_decide_true ((c, name) = (c, name))) by done. destruct (bool_decide _ || bool_decide _) eqn:Hc.
    + by rewrite lookup_total_insert_eq.
    + apply orb_false_iff in Hc as [?%bool_decide_eq_false ?%bool_decide_eq_false]. by destruct Hc'.
  - rewrite (bool_decide_false ((c, name) = (c', name'))) by done. simpl. rewrite app_nil_r.
    destruct (bool_decide _ || bool_decide _); [by rewrite lookup_total_insert_ne|done].
Qed.
Lemma pop_queues ms m c name :
  queues ms m -> c = TOOL_MENTION_SIGIL \/ c = PLUGIN_TEXT_MENTION_SIGIL ->
  match pop_path m (c, name) with
  | None => take_first (c, name) ms = None
  | Some (p, m') => exists ms', take_first (c, name) ms = Some (mkMention c name p, ms') /\ queues ms' m' /\ ms' ⊆ ms
  end.
Proof.
  intros Hm Hc. pose proof (Hm c name Hc) as Hk. unfold pop_path.
  unfold lookup_total, map_lookup_total in Hk. destruct (m !! (c, name)) as [[|p q]|] eqn:Hl; simpl in Hk.
  1, 3: symmetry in Hk; apply fmap_nil_inv in Hk; by apply take_first_None.
  destruct (List.filter (names (c, name)) ms) as [|[c1 name1 p1] r] eqn:Hf; [done|]. injection Hk as -> ->.
  assert (names (c, name) (mkMention c1 name1 p1) = true) as [= <- <-]%bool_decide_eq_true.
  { assert (In (mkMention c1 name1 p1) (List.filter (names (c, name)) ms)) as [_ ?]%filter_In by (rewrite Hf; by left). done. }
  destruct (take_first_Some _ _ _ _ Hf) as (ms' & Ht & Hr & Hs & Ho). exists ms'. split_and!; [done| |done].
  intros c' name' Hc'. destruct (decide ((c1, name1) = (c', name'))) as [[= <- <-]|Hne].
  - by rewrite lookup_total_insert_eq, Hr.
  - rewrite lookup_total_insert_ne, Ho by done. by apply Hm.
Qed.
(** What the writer does with a position is decided by the mention that starts there. *)
Lemma mention_here_spec prev s m ms :
  queues ms m ->
  match mention_here prev s m with
  | None => forall k, mention_at prev s = Some k -> take_first k ms = None
  | Some (c, name, p, rest, m') =>
      s = c :: name ++ rest /\ name <> [] /\ Forall (fun d => is_mention_name_char d = true) name /\
      (c = TOOL_MENTION_SIGIL \/ c = PLUGIN_TEXT_MENTION_SIGIL) /\ mention_at prev s = Some (c, name) /\
      exists ms', take_first (c, name) ms = Some (mkMention c name p, ms') /\ queues ms' m' /\ ms' ⊆ ms
  end.
Proof.
  intros Hm. unfold mention_here, mention_at. destruct s as [|c s]; [done|].
  destruct (span is_mention_name_char s) as [name rest] eqn:Hs. apply span_Some in Hs as [-> Hn].
  destruct ((c =? TOOL_MENTION_SIGIL)%N) eqn:Ht; cbn [orb].
  - apply N.eqb_eq in Ht as ->. destruct (Str.is_empty name) eqn:He; cbn [negb andb]; [done|].
    pose proof (pop_queues ms m TOOL_MENTION_SIGIL name Hm (or_introl eq_refl)) as Hp.
    destruct (pop_path m _) as [[p m']|]; cbn [mbind option_bind]; [|by intros k [= <-]].
    split_and!; [done|by intros ->|done|by left|done|done].
  - destruct ((c =? PLUGIN_TEXT_MENTION_SIGIL)%N) eqn:Hpl; cbn [andb]; [|by rewrite andb_false_r].
    apply N.eqb_eq in Hpl as ->. destruct (starts_plaintext_mention prev); cbn [andb]; [|by rewrite andb_false_r].
    destruct (Str.is_empty name) eqn:He; cbn [negb andb]; [done|].
    destruct (ends_plaintext_mention rest); [|done].
    pose proof (pop_queues ms m PLUGIN_TEXT_MENTION_SIGIL name Hm (or_intror eq_refl)) as Hp.
    destruct (pop_path m _) as [[p m']|]; cbn [mbind option_bind]; [|by intros k [= <-]].
    split_and!; [done|by intros ->|done|by right|done|done].
Qed.
Lemma take_first_in k ms l ms' : take_first k ms = Some (l, ms') -> l ∈ ms.
Proof.
  revert l ms'. induction ms as [|x ms IH]; intros l ms'; simpl; [done|]. destruct (names k x); [intros [= <- _]; left|].
  destruct (take_first k ms) as [[y ys]|]; [|done]. intros [= <- _]. right. by eapply IH.
Qed.
Lemma decode_encode_loop n prev s m ms fuel :
  Forall (fun l => mention_ok l = true) ms -> queues ms m -> ch "[" ∉ s -> length s <= n -> length (encode_loop n prev s m) <= fuel ->
  decode_loop fuel (encode_loop n prev s m) true = (s, bind_targets (mentions_of prev s) ms).
Proof.
  revert prev s m ms fuel. induction n as [|n IH]; intros prev s m ms fuel Hok Hm Hb Hn Hf.
  { destruct s; simpl in *; [|lia]. by destruct fuel. }
  destruct s as [|c s]; [by destruct fuel|]. cbn [encode_loop] in *.
  pose proof (mention_here_spec prev (c :: s) m ms Hm) as Hh.
  destruct (mention_here prev (c :: s) m) as [[[[[c' name] p] rest] m']|].
  - destruct Hh as ([= -> ->] & Hne & Hnm & Hc & Hat & ms' & Ht & Hm' & Hsub).
    destruct fuel as [|fuel]; [simpl in Hf; lia|]. rewrite length_app in Hf.
    assert (2 <= length (link c' name p)) as Hlk by (unfold link; rewrite !length_app; simpl; lia).
    cbn [mentions_of]. rewrite Hat. cbn [app bind_targets]. rewrite Ht, mentions_of_name, decide_False by done.
    assert (link c' name p ++ encode_loop n (last name) rest m' = ch "[" :: tail (link c' name p ++ encode_loop n (last name) rest m')) as Hhd by done.
    rewrite Hhd. cbn [decode_loop]. rewrite <- Hhd. rewrite N.eqb_refl, read_link; [|done|done|done|].
    + rewrite (IH (last name) rest m' ms'); [done| |done|set_solver| |lia].
      * rewrite Forall_forall in *. intros x Hx. by apply Hok, Hsub.
      * simpl in Hn. rewrite length_app in Hn. lia.
    + rewrite Forall_forall in Hok. eapply Hok, take_first_in, Ht.
  - destruct fuel as [|fuel]; [simpl in Hf; lia|]. cbn [decode_loop]. simpl in Hf, Hn.
    assert ((c =? ch "[")%N = false) as -> by (apply N.eqb_neq; set_solver).
    rewrite (IH (Some c) s m ms fuel); [|done|done|set_solver|lia|lia]. cbn [mentions_of].
    destruct (mention_at prev (c :: s)) as [k|]; [|done]. cbn [app bind_targets]. by rewrite (Hh k).
Qed.
Lemma decode_plain fuel s : ch "[" ∉ s -> length s <= fuel -> decode_loop fuel s true = (s, []).
Proof.
  revert s. induction fuel as [|fuel IH]; intros [|c s] Hs Hf; simpl in *; [done|lia|done|].
  assert ((c =? ch "[")%N = false) as -> by (apply N.eqb_neq; set_solver). rewrite IH; [done|set_solver|lia].
Qed.
Lemma bind_nothing ks : bind_targets ks [] = [].
Proof. by induction ks as [|k ks IH]. Qed.
(** C23: A message written in the history with the targets of its mentions is read back as the
    same text with the same targets: each mention of the text, in its order (a dollar or an at
    sign with the longest name after it; the at sign needs a boundary on both sides), comes
    back with the first target given for its sigil and name that no mention before it took, and
    nothing else comes back.  This is for a text without an opening bracket, for targets that name a tool,
    have no closing parenthesis and no blanks around them, for names that are no common
    environment variables, and for reading with at-mentions enabled. *)
Theorem history_mentions_roundtrip text ms :
  ch "[" ∉ text -> Forall (fun l => mention_ok l = true) ms ->
  decode_history_mentions_with_at_mentions (encode_history_mentions text ms) true
  = (text, bind_targets (mentions_of None text) ms).
Proof.
  intros Hb Hok. unfold decode_history_mentions_with_at_mentions, encode_history_mentions.
  destruct (bool_decide (ms = []) || Str.is_empty text) eqn:He.
  - rewrite decode_plain by done. apply orb_true_iff in He as [->%bool_decide_eq_true|He]; [by rewrite bind_nothing|by destruct text].
  - by eapply decode_encode_loop; [|apply index_queues|..].
Qed.
Definition sample_mentions : list LinkedMention :=
  [mkMention (ch "$") $"docs" $"app://docs"; mkMention (ch "@") $"review" $"plugin://review"].
Lemma history_mentions_roundtrip_witness :
  encode_history_mentions $"ask $docs and $docs for @review." sample_mentions
  = $"ask [$docs](app://docs) and $docs for [@review](plugin://review)." /\
  bind_targets (mentions_of None $"ask $docs and $docs for @review.") sample_mentions = sample_mentions /\
  decode_history_mentions_with_at_mentions (encode_history_mentions $"ask $docs and $docs for @review." sample_mentions) true
    = ($"ask $docs and $docs for @review.", bind_targets (mentions_of None $"ask $docs and $docs for @review.") sample_mentions).
Proof.
  split; [by vm_compute|]. split; [by vm_compute|].
  apply (history_mentions_roundtrip $"ask $docs and $docs for @review." sample_mentions).
  - apply (bool_decide_unpack _). by vm_compute.
  - repeat constructor.
Defined.

End Mentions.
