(* ===== verification/ComposerHistory.v ===== *)
(** The history of the composer ([tui/src/bottom_pane/chat_composer_history.rs]): entries of
    this session and of the persistent log in one space of offsets, walked with Up and Down
    and searched incrementally.  Entries of the log are fetched by events and arrive later.
    Lower case, and the text of log entries, come from outside. *)
From stdpp Require Import gmap.
From S2P Require Import Prelude TextArea ComposerText MentionCodec.

Module History.
Import ComposerText Mentions.

Abbreviation MentionBinding := LinkedMention.
Record HistoryEntry := mkEntry {
  entry_text : str;
  entry_elements : list TextElement;
  local_image_paths : list str;
  remote_image_urls : list str;
  mention_bindings : list MentionBinding;
  pending_pastes : list (str * str);
}.
#[global] Instance text_element_eq_dec : EqDecision TextElement.
Proof. solve_decision. Defined.
#[global] Instance history_entry_eq_dec : EqDecision HistoryEntry.
Proof. solve_decision. Defined.

Definition new_with_at_mentions (text : str) (at_mentions_enabled : bool) : HistoryEntry :=
  let '(text, ms) := decode_history_mentions_with_at_mentions text at_mentions_enabled in mkEntry text [] [] [] ms [].
Definition new_entry (text : str) : HistoryEntry := new_with_at_mentions text true.

Inductive HistorySearchDirection := Older | Newer.
#[global] Instance direction_eq_dec : EqDecision HistorySearchDirection.
Proof. solve_decision. Defined.
Inductive HistorySearchResult := FoundMatch (e : HistoryEntry) | SearchPending | AtBoundary | NotFound.
Inductive HistoryEntryResponse := FoundEntry (e : HistoryEntry) | SearchResponse (r : HistorySearchResult) | Ignored.
Record PendingHistorySearch := mkPendingSearch {
  awaited_offset : nat;
  direction : HistorySearchDirection;
  boundary_if_exhausted : bool;
}.
Record HistorySearchState := mkSearch {
  query : str;
  query_lower : str;
  selected_offset : option nat;
  unique_matches : list (nat * HistoryEntry);
  selected_match_index : option nat;
  seen_texts : gset (list N);
  awaiting : option PendingHistorySearch;
  exhausted_older : bool;
  exhausted_newer : bool;
}.
Record ChatComposerHistory := mkHistory {
  thread_id : option N;
  persistent_log_id : option N;
  persistent_entry_count : nat;
  local_history : list HistoryEntry;
  replay_seeded_history : list HistoryEntry;
  fetched_history : gmap nat HistoryEntry;
  history_cursor : option nat;
  pending_navigation_direction : option HistorySearchDirection;
  last_history_text : option str;
  search_state : option HistorySearchState;
  at_mention_restore_enabled : bool;
}.
(** [AppEvent::LookupMessageHistoryEntry]. *)
Record Lookup := mkLookup { lookup_thread : N; lookup_offset : nat; lookup_log : N }.

Definition new_history : ChatComposerHistory := mkHistory None None 0 [] [] ∅ None None None None false.

(** [self.field = value]. *)
Definition put_search (s : option HistorySearchState) (h : ChatComposerHistory) : ChatComposerHistory :=
  mkHistory (thread_id h) (persistent_log_id h) (persistent_entry_count h) (local_history h) (replay_seeded_history h)
    (fetched_history h) (history_cursor h) (pending_navigation_direction h) (last_history_text h) s (at_mention_restore_enabled h).
Definition put_position (c : option nat) (d : option HistorySearchDirection) (t : option str) (h : ChatComposerHistory) : ChatComposerHistory :=
  mkHistory (thread_id h) (persistent_log_id h) (persistent_entry_count h) (local_history h) (replay_seeded_history h)
    (fetched_history h) c d t (search_state h) (at_mention_restore_enabled h).
Definition put_entries (local replayed : list HistoryEntry) (fetched : gmap nat HistoryEntry) (h : ChatComposerHistory) : ChatComposerHistory :=
  mkHistory (thread_id h) (persistent_log_id h) (persistent_entry_count h) local replayed fetched (history_cursor h)
    (pending_navigation_direction h) (last_history_text h) (search_state h) (at_mention_restore_enabled h).
Definition put_cursor (c : option nat) (h : ChatComposerHistory) : ChatComposerHistory :=
  put_position c (pending_navigation_direction h) (last_history_text h) h.
Definition put_direction (d : option HistorySearchDirection) (h : ChatComposerHistory) : ChatComposerHistory :=
  put_position (history_cursor h) d (last_history_text h) h.
Definition put_last_text (t : option str) (h : ChatComposerHistory) : ChatComposerHistory :=
  put_position (history_cursor h) (pending_navigation_direction h) t h.

Definition reset_navigation (h : ChatComposerHistory) : ChatComposerHistory := put_search None (put_position None None None h).
Definition reset_search (h : ChatComposerHistory) : ChatComposerHistory := put_search None h.
Definition set_at_mention_restore_enabled (enabled : bool) (h : ChatComposerHistory) : ChatComposerHistory :=
  if Bool.eqb (at_mention_restore_enabled h) enabled then h
  else mkHistory (thread_id h) (persistent_log_id h) (persistent_entry_count h) (local_history h) (replay_seeded_history h)
         ∅ None (pending_navigation_direction h) None None enabled.
Definition set_metadata (thread log : N) (entry_count : nat) (h : ChatComposerHistory) : ChatComposerHistory :=
  mkHistory (Some thread) (Some log) entry_count [] [] ∅ None None None None (at_mention_restore_enabled h).

Definition is_blank (e : HistoryEntry) : bool :=
  bool_decide (entry_text e = []) && bool_decide (entry_elements e = []) && bool_decide (local_image_paths e = [])
  && bool_decide (remote_image_urls e = []) && bool_decide (mention_bindings e = []) && bool_decide (pending_pastes e = []).
Definition record_local_submission_inner (e : HistoryEntry) (h : ChatComposerHistory) : bool * ChatComposerHistory :=
  if is_blank e then (false, h)
  else
    let h := reset_navigation h in
    if bool_decide (last (local_history h) = Some e) then (false, h)
    else (true, put_entries (local_history h ++ [e]) (replay_seeded_history h) (fetched_history h) h).
Definition record_local_submission (e : HistoryEntry) (h : ChatComposerHistory) : ChatComposerHistory :=
  snd (record_local_submission_inner e h).
Definition record_replayed_submission (e : HistoryEntry) (h : ChatComposerHistory) : ChatComposerHistory :=
  let '(recorded, h) := record_local_submission_inner e h in
  if recorded then put_entries (local_history h) (replay_seeded_history h ++ [e]) (fetched_history h) h else h.

(** The cursor is a byte position. *)
Definition should_handle_navigation (text : str) (cursor : nat) (h : ChatComposerHistory) : bool :=
  if (persistent_entry_count h =? 0) && bool_decide (local_history h = []) then false
  else if Str.is_empty text then true
  else if negb (cursor =? 0) && negb (cursor =? ByteText.ByteText.blen text) then false
  else bool_decide (last_history_text h = Some text).

(** ** Up and Down *)

Definition total_entries (h : ChatComposerHistory) : nat := persistent_entry_count h + length (local_history h).
Definition entry_at_cached_offset (offset : nat) (h : ChatComposerHistory) : option HistoryEntry :=
  if persistent_entry_count h <=? offset then local_history h !! (offset - persistent_entry_count h)
  else fetched_history h !! offset.
Definition next_history_offset (offset : nat) (d : HistorySearchDirection) (h : ChatComposerHistory) : option nat :=
  match d with
  | Older => if offset =? 0 then None else Some (offset - 1)
  | Newer => if offset + 1 <? total_entries h then Some (offset + 1) else None
  end.
Definition persistent_entry_duplicates_local (e : HistoryEntry) (h : ChatComposerHistory) : bool :=
  existsb (fun l => bool_decide (entry_text l = entry_text e) && bool_decide (mention_bindings l = mention_bindings e))
    (replay_seeded_history h).
(** Steps that are left in a direction. *)
Definition steps_left (offset : nat) (d : HistorySearchDirection) (h : ChatComposerHistory) : nat :=
  match d with Older => S offset | Newer => S (total_entries h - offset) end.
Fixpoint populate_loop (fuel : nat) (idx : nat) (d : HistorySearchDirection) (h : ChatComposerHistory)
    : option HistoryEntry * ChatComposerHistory * list Lookup :=
  match fuel with
  | 0 => (None, h, [])
  | S fuel =>
      match entry_at_cached_offset idx h with
      | Some e =>
          if (idx <? persistent_entry_count h) && persistent_entry_duplicates_local e h
          then match next_history_offset idx d h with
               | None => (None, put_direction None h, [])
               | Some next => populate_loop fuel next d (put_cursor (Some next) h)
               end
          else (Some e, put_last_text (Some (entry_text e)) (put_direction None h), [])
      | None =>
          if persistent_entry_count h <=? idx then (None, h, [])
          else match thread_id h, persistent_log_id h with
               | Some t, Some l => (None, put_direction (Some d) h, [mkLookup t idx l])
               | _, _ => (None, h, [])
               end
      end
  end.
Definition populate_history_at_index (idx : nat) (d : HistorySearchDirection) (h : ChatComposerHistory)
    : option HistoryEntry * ChatComposerHistory * list Lookup := populate_loop (steps_left idx d h) idx d h.
Definition navigate_up (h : ChatComposerHistory) : option HistoryEntry * ChatComposerHistory * list Lookup :=
  let h := put_search None h in
  if total_entries h =? 0 then (None, h, [])
  else
    match history_cursor h with
    | Some 0 => (None, h, [])
    | Some idx => populate_history_at_index (idx - 1) Older (put_cursor (Some (idx - 1)) h)
    | None => populate_history_at_index (total_entries h - 1) Older (put_cursor (Some (total_entries h - 1)) h)
    end.
Definition navigate_down (h : ChatComposerHistory) : option HistoryEntry * ChatComposerHistory * list Lookup :=
  let h := put_search None h in
  if total_entries h =? 0 then (None, h, [])
  else
    match history_cursor h with
    | None => (None, h, [])
    | Some idx =>
        if total_entries h <=? idx + 1
        then (Some (new_entry []), put_position None None None h, [])
        else populate_history_at_index (idx + 1) Newer (put_cursor (Some (idx + 1)) h)
    end.

(** ** Incremental search *)

Definition update_search (f : HistorySearchState -> HistorySearchState) (h : ChatComposerHistory) : ChatComposerHistory :=
  put_search (f <$> search_state h) h.
Definition put_awaiting (a : option PendingHistorySearch) (s : HistorySearchState) : HistorySearchState :=
  mkSearch (query s) (query_lower s) (selected_offset s) (unique_matches s) (selected_match_index s) (seen_texts s) a
    (exhausted_older s) (exhausted_newer s).
Definition put_selected (o : option nat) (s : HistorySearchState) : HistorySearchState :=
  mkSearch (query s) (query_lower s) o (unique_matches s) (selected_match_index s) (seen_texts s) (awaiting s)
    (exhausted_older s) (exhausted_newer s).
Definition clear_exhausted (s : HistorySearchState) : HistorySearchState :=
  mkSearch (query s) (query_lower s) (selected_offset s) (unique_matches s) (selected_match_index s) (seen_texts s) (awaiting s) false false.
Definition is_exhausted (d : HistorySearchDirection) (s : HistorySearchState) : bool :=
  match d with Older => exhausted_older s | Newer => exhausted_newer s end.
Definition mark_exhausted (d : HistorySearchDirection) (s : HistorySearchState) : HistorySearchState :=
  mkSearch (query s) (query_lower s) (selected_offset s) (unique_matches s) (selected_match_index s) (seen_texts s) (awaiting s)
    (match d with Older => true | Newer => exhausted_older s end) (match d with Newer => true | Older => exhausted_newer s end).
Definition select_match (index : nat) (s : HistorySearchState) : HistorySearchState :=
  match unique_matches s !! index with
  | None => s
  | Some (offset, _) =>
      mkSearch (query s) (query_lower s) (Some offset) (unique_matches s) (Some index) (seen_texts s) None false false
  end.
(** Matches are kept from the newest to the oldest. *)
Fixpoint partition_newer (offset : nat) (ms : list (nat * HistoryEntry)) : nat :=
  match ms with
  | [] => 0
  | (o, _) :: ms => if offset <? o then S (partition_newer offset ms) else 0
  end.
Definition record_match (offset : nat) (e : HistoryEntry) (s : HistorySearchState) : HistorySearchState :=
  match list_find (fun m => fst m = offset) (unique_matches s) with
  | Some (index, _) => select_match index s
  | None =>
      let index := partition_newer offset (unique_matches s) in
      select_match index
        (mkSearch (query s) (query_lower s) (selected_offset s)
           (take index (unique_matches s) ++ (offset, e) :: drop index (unique_matches s))
           (selected_match_index s) ({[entry_text e]} ∪ seen_texts s) (awaiting s) (exhausted_older s) (exhausted_newer s))
  end.

Section search.
Variable to_lowercase : str -> str.

Definition new_search (query : str) : HistorySearchState :=
  mkSearch query (to_lowercase query) None [] None ∅ None false false.
Definition search_matches (e : HistoryEntry) (h : ChatComposerHistory) : bool :=
  match search_state h with
  | None => false
  | Some s => Str.is_empty (query s) || Str.contains (query_lower s) (to_lowercase (entry_text e))
  end.
Definition search_result_is_unique (e : HistoryEntry) (h : ChatComposerHistory) : bool :=
  match search_state h with None => true | Some s => negb (bool_decide (entry_text e ∈ seen_texts s)) end.
Definition search_match (offset : nat) (e : HistoryEntry) (h : ChatComposerHistory) : HistorySearchResult * ChatComposerHistory :=
  let h := put_last_text (Some (entry_text e)) (put_cursor (Some offset) h) in
  (FoundMatch e,
   update_search (fun s => clear_exhausted (put_awaiting None (record_match offset e (put_selected (Some offset) s)))) h).
Definition exhausted_search_result (d : HistorySearchDirection) (boundary : bool) (h : ChatComposerHistory)
    : HistorySearchResult * ChatComposerHistory :=
  (if boundary then AtBoundary else NotFound,
   update_search (fun s => let s := put_awaiting None s in if boundary then mark_exhausted d s else s) h).
Definition select_cached_unique_match (d : HistorySearchDirection) (h : ChatComposerHistory)
    : option (HistorySearchResult * ChatComposerHistory) :=
  s ← search_state h;
  selected_index ← selected_match_index s;
  next_index ←
    match d with
    | Older => if selected_index + 1 <? length (unique_matches s) then Some (selected_index + 1) else None
    | Newer => if selected_index =? 0 then None else Some (selected_index - 1)
    end;
  '(offset, e) ← unique_matches s !! next_index;
  let h := put_last_text (Some (entry_text e)) (put_cursor (Some offset) h) in
  Some (FoundMatch e, update_search (select_match next_index) h).
Fixpoint advance_loop (fuel : nat) (offset : nat) (d : HistorySearchDirection) (boundary : bool) (h : ChatComposerHistory)
    : HistorySearchResult * ChatComposerHistory * list Lookup :=
  match fuel with
  | 0 => (NotFound, h, [])
  | S fuel =>
      if negb (offset <? total_entries h) then (NotFound, h, [])
      else
        let continue :=
          match next_history_offset offset d h with
          | None => (NotFound, h, [])
          | Some next => advance_loop fuel next d boundary h
          end in
        match entry_at_cached_offset offset h with
        | Some e =>
            if search_matches e h && search_result_is_unique e h
            then let '(r, h) := search_match offset e h in (r, h, [])
            else continue
        | None =>
            match (if offset <? persistent_entry_count h then Some tt else None), thread_id h, persistent_log_id h with
            | Some tt, Some t, Some l =>
                (SearchPending, update_search (put_awaiting (Some (mkPendingSearch offset d boundary))) h, [mkLookup t offset l])
            | _, _, _ => continue
            end
        end
  end.
Definition advance_search_from (offset : nat) (d : HistorySearchDirection) (boundary : bool) (h : ChatComposerHistory)
    : HistorySearchResult * ChatComposerHistory * list Lookup := advance_loop (steps_left offset d h) offset d boundary h.
Definition or_exhausted (d : HistorySearchDirection) (boundary : bool)
    (r : HistorySearchResult * ChatComposerHistory * list Lookup) : HistorySearchResult * ChatComposerHistory * list Lookup :=
  let '(result, h, ls) := r in
  match result with
  | NotFound => let '(result, h) := exhausted_search_result d boundary h in (result, h, ls)
  | _ => (result, h, ls)
  end.
Definition advance_search_after (offset : nat) (d : HistorySearchDirection) (boundary : bool) (h : ChatComposerHistory)
    : HistorySearchResult * ChatComposerHistory * list Lookup :=
  match next_history_offset offset d h with
  | None => let '(r, h) := exhausted_search_result d boundary h in (r, h, [])
  | Some next => or_exhausted d boundary (advance_search_from next d boundary h)
  end.
Definition search_start_offset (total : nat) (d : HistorySearchDirection) (restart : bool) (h : ChatComposerHistory) : option nat :=
  let selected := s ← search_state h; selected_offset s in
  match d with
  | Older => if restart then if total =? 0 then None else Some (total - 1)
             else o ← selected; if o =? 0 then None else Some (o - 1)
  | Newer => if restart then Some 0 else o ← selected; if o + 1 <? total then Some (o + 1) else None
  end.
Definition search (q : str) (d : HistorySearchDirection) (restart : bool) (h : ChatComposerHistory)
    : HistorySearchResult * ChatComposerHistory * list Lookup :=
  if total_entries h =? 0 then (NotFound, put_search (Some (new_search q)) h, [])
  else
    let query_changed := match search_state h with Some s => negb (bool_decide (query s = q)) | None => true end in
    if negb query_changed && negb restart && match s ← search_state h; awaiting s with Some _ => true | None => false end
    then (SearchPending, h, [])
    else
      let h := if query_changed || restart then put_search (Some (new_search q)) h else update_search (put_awaiting None) h in
      let boundary := negb restart && match s ← search_state h; selected_offset s with Some _ => true | None => false end in
      match (if negb restart && negb query_changed then select_cached_unique_match d h else None) with
      | Some (r, h) => (r, h, [])
      | None =>
          if boundary && match search_state h with Some s => is_exhausted d s | None => false end then (AtBoundary, h, [])
          else
            match search_start_offset (total_entries h) d (query_changed || restart) h with
            | None => let '(r, h) := exhausted_search_result d boundary h in (r, h, [])
            | Some start => or_exhausted d boundary (advance_search_from start d boundary h)
            end
      end.

(** A response of the persistent log. *)
Definition on_entry_response (log_id : N) (offset : nat) (entry : option str) (h : ChatComposerHistory)
    : HistoryEntryResponse * ChatComposerHistory * list Lookup :=
  if negb (bool_decide (persistent_log_id h = Some log_id)) then (Ignored, h, [])
  else
    let entry := (fun t => new_with_at_mentions t (at_mention_restore_enabled h)) <$> entry in
    let h := match entry with
             | Some e => put_entries (local_history h) (replay_seeded_history h) (<[offset := e]> (fetched_history h)) h
             | None => h
             end in
    match (a ← (s ← search_state h; awaiting s); if awaited_offset a =? offset then Some a else None) with
    | Some pending =>
        let continue :=
          let '(r, h, ls) := advance_search_after offset (direction pending) (boundary_if_exhausted pending) h in (SearchResponse r, h, ls) in
        match entry with
        | Some e => if search_matches e h && search_result_is_unique e h
                    then let '(r, h) := search_match offset e h in (SearchResponse r, h, [])
                    else continue
        | None => continue
        end
    | None =>
        if negb (bool_decide (history_cursor h = Some offset)) then (Ignored, h, [])
        else
          let d := pending_navigation_direction h in
          let h := put_direction None h in
          match entry with
          | None => (Ignored, h, [])
          | Some e =>
              match (if persistent_entry_duplicates_local e h then d else None) with
              | Some d =>
                  match next_history_offset offset d h with
                  | None => (Ignored, h, [])
                  | Some next =>
                      let '(r, h, ls) := populate_history_at_index next d (put_cursor (Some next) h) in
                      (match r with Some e => FoundEntry e | None => Ignored end, h, ls)
                  end
              | None => (FoundEntry e, put_last_text (Some (entry_text e)) h, [])
              end
          end
    end.
End search.

End History.
