(* ===== verification/Composer.v ===== *)
(** The composer's draft ([tui/src/bottom_pane/chat_composer.rs]): the text area with the
    images ([chat_composer/attachment_state.rs]), the large pastes and the mentions that stand
    behind its elements, the history, the popups and the footer.  A panic is [None].  The
    widgets of the popups are abstract: [PopupWidgets] says how they follow the text.  What
    is asked of the system and of other crates is in the class [Desktop]. *)
From stdpp Require Import gmap.
From S2P Require Import Prelude ByteText TextKeys TextArea PasteBurst ComposerText SlashCommands MentionCodec ComposerHistory.

Module Composer.
Import ByteText Unicode ComposerText Slash Mentions History.

(** What the composer asks of the system and of other crates. *)
Class Desktop := {
  (** [url::Url::parse] of a [file] URL with its path, if it has one. *)
  file_url_path : str -> option (option str);
  (** The words [shlex::Shlex] yields. *)
  shlex_words : str -> list str;
  is_probably_wsl : bool;
  (** Whether [image::image_dimensions] reads an image. *)
  is_image : str -> bool;
  (** [str::to_lowercase]. *)
  to_lowercase : str -> str;
}.

(** ** State *)

Record AttachedImage := mkImage { image_placeholder : str; image_path : str }.
Record AttachmentState := mkAttachments {
  local_images : list AttachedImage;
  remote_images : list str;
  selected_remote_image_index : option nat;
}.
Record DraftState := mkDraft {
  textarea : TextArea.TextArea;
  in_bash_mode : bool;
  draft_pastes : list (str * str);
  paste_burst : Burst.PasteBurst;
  disable_paste_burst : bool;
  draft_mentions : gmap N MentionBinding;
  recent_submission_mention_bindings : list MentionBinding;
  input_enabled : bool;
}.
Inductive FooterMode := HistorySearch | QuitShortcutReminder | ShortcutOverlay | EscHint | ComposerEmpty | ComposerHasDraft.
#[global] Instance footer_mode_eq_dec : EqDecision FooterMode.
Proof. solve_decision. Defined.
Record ChatComposerConfig := mkConfig { popups_enabled : bool; slash_commands_enabled : bool; image_paste_enabled : bool }.
Definition default_config : ChatComposerConfig := mkConfig true true true.
Definition plain_text : ChatComposerConfig := mkConfig false false false.
(** The cells the composer inserts in the transcript, and history lookups. *)
Inductive AppEvent := InfoCell (message : str) | ErrorCell (message : str) | LookupEntry (l : Lookup).
Record ComposerKeys := mkKeys {
  submit_keys : list Keys.KeyBinding;
  queue_keys : list Keys.KeyBinding;
  toggle_shortcuts_keys : list Keys.KeyBinding;
  editor_keymap : Keys.EditorKeymap;
  vim_normal_keymap : Keys.VimNormalKeymap;
  history_search_previous_keys : list Keys.KeyBinding;
  history_search_next_keys : list Keys.KeyBinding;
}.
Record ComposerDraft := mkSavedDraft {
  saved_text : str;
  saved_elements : list TextElement;
  saved_image_paths : list str;
  saved_remote_urls : list str;
  saved_mentions : list MentionBinding;
  saved_pastes : list (str * str);
  saved_cursor : nat;
}.
(** The interactive search ([chat_composer/history_search.rs]). *)
Inductive HistorySearchStatus := SearchIdle | Searching | SearchMatch | NoMatch.
Record HistorySearchSession := mkSession {
  original_draft : ComposerDraft;
  search_query : str;
  search_status : HistorySearchStatus;
}.
Record ChatComposer (P : Type) := mkComposer {
  draft : DraftState;
  popups : P;
  history : ChatComposerHistory;
  footer_mode : FooterMode;
  quit_shortcut_expires_at : option N;
  attachments : AttachmentState;
  is_task_running : bool;
  queue_submissions : bool;
  pending_slash_command_history : option HistoryEntry;
  config : ChatComposerConfig;
  builtin_command_flags : BuiltinCommandFlags;
  tier_commands : list ServiceTierCommand;
  keys : ComposerKeys;
  sent : list AppEvent;
  history_search : option HistorySearchSession;
}.
Arguments mkComposer {P}.
Arguments draft {P}.
Arguments popups {P}.
Arguments history {P}.
Arguments footer_mode {P}.
Arguments quit_shortcut_expires_at {P}.
Arguments attachments {P}.
Arguments is_task_running {P}.
Arguments queue_submissions {P}.
Arguments pending_slash_command_history {P}.
Arguments config {P}.
Arguments builtin_command_flags {P}.
Arguments tier_commands {P}.
Arguments keys {P}.
Arguments sent {P}.
Arguments history_search {P}.

(** The popup that is shown ([chat_composer/popup_state.rs]), at most one. *)
Inductive ActivePopup := NoPopup | CommandPopup | FilePopup | SkillPopup | MentionV2Popup.
(** The state of the popups: which one is shown, how it follows the composer after a change
    of the draft, and how all are closed. *)
Class PopupWidgets (P : Type) := {
  active_popup : P -> ActivePopup;
  sync_popup_widgets : ChatComposer P -> P;
  close_popups : P -> P;
}.

(** [self.field = value]. *)
Section setters.
Context {P : Type}.
Definition put_session (s : option HistorySearchSession) (c : ChatComposer P) : ChatComposer P :=
  mkComposer (draft c) (popups c) (history c) (footer_mode c) (quit_shortcut_expires_at c) (attachments c) (is_task_running c)
    (queue_submissions c) (pending_slash_command_history c) (config c) (builtin_command_flags c) (tier_commands c) (keys c) (sent c) s.
Definition put_draft (d : DraftState) (c : ChatComposer P) : ChatComposer P :=
  mkComposer d (popups c) (history c) (footer_mode c) (quit_shortcut_expires_at c) (attachments c) (is_task_running c)
    (queue_submissions c) (pending_slash_command_history c) (config c) (builtin_command_flags c) (tier_commands c) (keys c) (sent c) (history_search c).
Definition put_popups (p : P) (c : ChatComposer P) : ChatComposer P :=
  mkComposer (draft c) p (history c) (footer_mode c) (quit_shortcut_expires_at c) (attachments c) (is_task_running c)
    (queue_submissions c) (pending_slash_command_history c) (config c) (builtin_command_flags c) (tier_commands c) (keys c) (sent c) (history_search c).
Definition put_history (h : ChatComposerHistory) (c : ChatComposer P) : ChatComposer P :=
  mkComposer (draft c) (popups c) h (footer_mode c) (quit_shortcut_expires_at c) (attachments c) (is_task_running c)
    (queue_submissions c) (pending_slash_command_history c) (config c) (builtin_command_flags c) (tier_commands c) (keys c) (sent c) (history_search c).
Definition put_footer (m : FooterMode) (c : ChatComposer P) : ChatComposer P :=
  mkComposer (draft c) (popups c) (history c) m (quit_shortcut_expires_at c) (attachments c) (is_task_running c)
    (queue_submissions c) (pending_slash_command_history c) (config c) (builtin_command_flags c) (tier_commands c) (keys c) (sent c) (history_search c).
Definition put_attachments (a : AttachmentState) (c : ChatComposer P) : ChatComposer P :=
  mkComposer (draft c) (popups c) (history c) (footer_mode c) (quit_shortcut_expires_at c) a (is_task_running c)
    (queue_submissions c) (pending_slash_command_history c) (config c) (builtin_command_flags c) (tier_commands c) (keys c) (sent c) (history_search c).
Definition put_staged (e : option HistoryEntry) (c : ChatComposer P) : ChatComposer P :=
  mkComposer (draft c) (popups c) (history c) (footer_mode c) (quit_shortcut_expires_at c) (attachments c) (is_task_running c)
    (queue_submissions c) e (config c) (builtin_command_flags c) (tier_commands c) (keys c) (sent c) (history_search c).
Definition send (e : AppEvent) (c : ChatComposer P) : ChatComposer P :=
  mkComposer (draft c) (popups c) (history c) (footer_mode c) (quit_shortcut_expires_at c) (attachments c) (is_task_running c)
    (queue_submissions c) (pending_slash_command_history c) (config c) (builtin_command_flags c) (tier_commands c) (keys c) (sent c ++ [e]) (history_search c).
Definition put_textarea_in (ta : TextArea.TextArea) (d : DraftState) : DraftState :=
  mkDraft ta (in_bash_mode d) (draft_pastes d) (paste_burst d) (disable_paste_burst d) (draft_mentions d) (recent_submission_mention_bindings d) (input_enabled d).
Definition put_bash_in (b : bool) (d : DraftState) : DraftState :=
  mkDraft (textarea d) b (draft_pastes d) (paste_burst d) (disable_paste_burst d) (draft_mentions d) (recent_submission_mention_bindings d) (input_enabled d).
Definition put_pastes_in (ps : list (str * str)) (d : DraftState) : DraftState :=
  mkDraft (textarea d) (in_bash_mode d) ps (paste_burst d) (disable_paste_burst d) (draft_mentions d) (recent_submission_mention_bindings d) (input_enabled d).
Definition put_burst_in (b : Burst.PasteBurst) (d : DraftState) : DraftState :=
  mkDraft (textarea d) (in_bash_mode d) (draft_pastes d) b (disable_paste_burst d) (draft_mentions d) (recent_submission_mention_bindings d) (input_enabled d).
Definition put_disabled_in (b : bool) (d : DraftState) : DraftState :=
  mkDraft (textarea d) (in_bash_mode d) (draft_pastes d) (paste_burst d) b (draft_mentions d) (recent_submission_mention_bindings d) (input_enabled d).
Definition put_mentions_in (m : gmap N MentionBinding) (d : DraftState) : DraftState :=
  mkDraft (textarea d) (in_bash_mode d) (draft_pastes d) (paste_burst d) (disable_paste_burst d) m (recent_submission_mention_bindings d) (input_enabled d).
Definition put_recent_in (m : list MentionBinding) (d : DraftState) : DraftState :=
  mkDraft (textarea d) (in_bash_mode d) (draft_pastes d) (paste_burst d) (disable_paste_burst d) (draft_mentions d) m (input_enabled d).
Definition on_draft (f : DraftState -> DraftState) (c : ChatComposer P) : ChatComposer P := put_draft (f (draft c)) c.
Definition put_textarea (ta : TextArea.TextArea) : ChatComposer P -> ChatComposer P := on_draft (put_textarea_in ta).
Definition put_bash (b : bool) : ChatComposer P -> ChatComposer P := on_draft (put_bash_in b).
Definition put_pastes (ps : list (str * str)) : ChatComposer P -> ChatComposer P := on_draft (put_pastes_in ps).
Definition put_burst (b : Burst.PasteBurst) : ChatComposer P -> ChatComposer P := on_draft (put_burst_in b).
Definition put_mentions (m : gmap N MentionBinding) : ChatComposer P -> ChatComposer P := on_draft (put_mentions_in m).
Definition put_recent (m : list MentionBinding) : ChatComposer P -> ChatComposer P := on_draft (put_recent_in m).
End setters.

(** ** The footer ([bottom_pane/footer.rs]) *)

Definition toggle_shortcut_mode (current : FooterMode) (ctrl_c_hint is_empty : bool) : FooterMode :=
  if ctrl_c_hint && bool_decide (current = QuitShortcutReminder) then current
  else match current with
       | ShortcutOverlay | QuitShortcutReminder => if is_empty then ComposerEmpty else ComposerHasDraft
       | _ => ShortcutOverlay
       end.
Definition esc_hint_mode (current : FooterMode) (task_running : bool) : FooterMode := if task_running then current else EscHint.
Definition reset_mode_after_activity (current : FooterMode) : FooterMode :=
  match current with
  | EscHint | ShortcutOverlay | QuitShortcutReminder | HistorySearch | ComposerHasDraft => ComposerEmpty
  | ComposerEmpty => ComposerEmpty
  end.

(** ** Paths that are pasted ([tui/src/clipboard_paste.rs]) *)

Definition is_ascii_alphabetic (c : char) : bool := ((65 <=? c) && (c <=? 90) || (97 <=? c) && (c <=? 122))%N.
Definition is_path_separator (c : char) : bool := (c =? ch "/")%N || (c =? ch "\")%N.
Fixpoint path_components (cur : str) (s : str) : list str :=
  match s with
  | [] => [cur]
  | c :: s => if is_path_separator c then cur :: path_components [] s else path_components (cur ++ [c]) s
  end.
Definition is_drive_letter (c : char) : bool := ((97 <=? c) && (c <=? 122))%N.
(** [C:\\dir] under the Windows Subsystem for Linux; [push] appends a component. *)
Definition convert_windows_path_to_wsl (input : str) : option str :=
  if Str.starts_with $"\\" input then None
  else
    match input with
    | d :: c :: rest =>
        let drive := Str.char_to_ascii_lowercase d in
        if negb (is_drive_letter drive) then None
        else if negb (c =? ch ":")%N then None
        else Some (foldl (fun p part => p ++ $"/" ++ part) ($"/mnt/" ++ [drive])
               (List.filter (fun part => negb (Str.is_empty part)) (path_components [] (Str.trim_start_by is_path_separator rest))))
    | _ => None
    end.
Section desktop.
Context `{D : Desktop}.
Definition normalize_windows_path (input : str) : option str :=
  let drive := match input with
               | d :: c :: sep :: _ => is_ascii_alphabetic d && (c =? ch ":")%N && is_path_separator sep
               | _ => false
               end in
  let unc := Str.starts_with $"\\" input in
  if negb drive && negb unc then None
  else match (if is_probably_wsl then convert_windows_path_to_wsl input else None) with
       | Some converted => Some converted
       | None => Some input
       end.
Definition unquoted_by (q : str) (s : str) : option str := t ← Str.strip_prefix q s; Str.strip_suffix q t.
Definition normalize_pasted_path (pasted : str) : option str :=
  let pasted := Str.trim pasted in
  let unquoted :=
    match unquoted_by [dquote] pasted with
    | Some s => s
    | None => default pasted (unquoted_by $"'" pasted)
    end in
  match file_url_path unquoted with
  | Some path => path
  | None =>
      match normalize_windows_path unquoted with
      | Some path => Some path
      | None =>
          match shlex_words pasted with
          | [part] => Some (default part (normalize_windows_path part))
          | _ => None
          end
      end
  end.
End desktop.

(** ** Images ([chat_composer/attachment_state.rs]) *)

(** [local_image_label_text]. *)
Definition local_image_label_text (n : nat) : str := $"[Image #" ++ Str.show_nat n ++ $"]".
Definition no_attachments (a : AttachmentState) : bool := bool_decide (local_images a = []) && bool_decide (remote_images a = []).
Definition image_paths (a : AttachmentState) : list str := image_path <$> local_images a.
Definition clear_remote_image_selection (a : AttachmentState) : AttachmentState := mkAttachments (local_images a) (remote_images a) None.
Definition clear_remote_image_urls (a : AttachmentState) : AttachmentState := mkAttachments (local_images a) [] None.
Definition put_images (imgs : list AttachedImage) (a : AttachmentState) : AttachmentState :=
  mkAttachments imgs (remote_images a) (selected_remote_image_index a).

Section images.
Context `{U : Unicode}.

Fixpoint relabel_loop (index : nat) (imgs : list AttachedImage) (ta : TextArea.TextArea) : option (list AttachedImage * TextArea.TextArea) :=
  match imgs with
  | [] => Some ([], ta)
  | i :: imgs =>
      let expected := local_image_label_text (index + 1) in
      if bool_decide (image_placeholder i = expected)
      then '(imgs, ta) ← relabel_loop (S index) imgs ta; Some (i :: imgs, ta)
      else
        '(_, ta) ← TextArea.replace_element_payload (image_placeholder i) expected ta;
        '(imgs, ta) ← relabel_loop (S index) imgs ta;
        Some (mkImage expected (image_path i) :: imgs, ta)
  end.
Definition relabel_local_images (a : AttachmentState) (ta : TextArea.TextArea) : option (AttachmentState * TextArea.TextArea) :=
  '(imgs, ta) ← relabel_loop (length (remote_images a)) (local_images a) ta;
  Some (put_images imgs a, ta).
Definition set_attached_urls (urls : list str) (a : AttachmentState) (ta : TextArea.TextArea) : option (AttachmentState * TextArea.TextArea) :=
  relabel_local_images (mkAttachments (local_images a) urls None) ta.
Definition reset_local_images (paths : list str) (a : AttachmentState) (ta : TextArea.TextArea) : option (AttachmentState * TextArea.TextArea) :=
  relabel_local_images
    (mkAttachments (imap (fun i p => mkImage (local_image_label_text (length (remote_images a) + i + 1)) p) paths) (remote_images a) None) ta.
Definition attach_local_image (path : str) (a : AttachmentState) (ta : TextArea.TextArea) : option (AttachmentState * TextArea.TextArea) :=
  let label := local_image_label_text (length (remote_images a) + length (local_images a) + 1) in
  '(_, ta) ← TextArea.insert_element label ta;
  Some (put_images (local_images a ++ [mkImage label path]) a, ta).
Definition prune_local_images_for_submission (text : str) (es : list TextElement) (a : AttachmentState) : AttachmentState :=
  if bool_decide (local_images a = []) then a
  else put_images (List.filter (fun i => bool_decide (image_placeholder i ∈ omap (placeholder text) es)) (local_images a)) a.
Definition remove_deleted_local_placeholders (removed : list str) (a : AttachmentState) (ta : TextArea.TextArea)
    : option (AttachmentState * TextArea.TextArea) :=
  let kept := List.filter (fun i => negb (bool_decide (image_placeholder i ∈ removed))) (local_images a) in
  if length kept =? length (local_images a) then Some (put_images kept a, ta) else relabel_local_images (put_images kept a) ta.
Definition remove_selected_remote_image (selected : nat) (a : AttachmentState) (ta : TextArea.TextArea)
    : option (AttachmentState * TextArea.TextArea) :=
  if length (remote_images a) <=? selected then Some (clear_remote_image_selection a, ta)
  else
    let urls := take selected (remote_images a) ++ drop (S selected) (remote_images a) in
    relabel_local_images
      (mkAttachments (local_images a) urls (if bool_decide (urls = []) then None else Some (Nat.min selected (length urls - 1)))) ta.
(** [None] when the key is not for the rows of remote images. *)
Definition remote_image_selection_key (event : Keys.KeyEvent) (a : AttachmentState) (ta : TextArea.TextArea)
    : option (option (AttachmentState * TextArea.TextArea)) :=
  if bool_decide (remote_images a = []) || negb (Keys.modifiers event =? 0)%N
     || negb match Keys.kind event with Keys.Press => true | _ => false end
  then Some None
  else
    let select i := Some (Some (mkAttachments (local_images a) (remote_images a) i, ta)) in
    match Keys.code event with
    | Keys.Up =>
        match selected_remote_image_index a with
        | Some selected => select (Some (selected - 1))
        | None => if TextArea.cursor_pos ta =? 0 then select (Some (length (remote_images a) - 1)) else Some None
        end
    | Keys.Down =>
        match selected_remote_image_index a with
        | Some selected => select (if selected + 1 <? length (remote_images a) then Some (selected + 1) else None)
        | None => Some None
        end
    | Keys.Delete | Keys.Backspace =>
        match selected_remote_image_index a with
        | Some selected => r ← remove_selected_remote_image selected a ta; Some (Some r)
        | None => Some None
        end
    | _ => Some None
    end.
End images.

(** ** Mentions in a text *)

(** The next place of [token] at or after [at_], where [prev] is the character before [s]. *)
Fixpoint find_mention (fuel : nat) (token : str) (prev : option char) (at_ : nat) (s : str) : option TextArea.Range :=
  match fuel, s, token with
  | S fuel, c :: s', sigil :: _ =>
      if negb (c =? sigil)%N then find_mention fuel token (Some c) (at_ + width c) s'
      else if blen s <? blen token then None
      else
        match Str.strip_prefix token s with
        | None => find_mention fuel token (Some c) (at_ + width c) s'
        | Some rest =>
            let starts := if (sigil =? ch "@")%N then starts_plaintext_mention prev else true in
            let ends := if (sigil =? ch "@")%N then ends_plaintext_mention rest
                        else match rest with d :: _ => negb (is_mention_name_char d) | [] => true end in
            if starts && ends then Some (TextArea.mkRange at_ (at_ + blen token))
            else find_mention fuel token (last token) (at_ + blen token) rest
        end
  | _, _, _ => None
  end.
(** [None] if the position is inside a character. *)
Definition find_next_mention_token_range (text token : str) (from : nat) : option (option TextArea.Range) :=
  if Str.is_empty token || (blen text <=? from) then Some None
  else '(before, s) ← split_at from text; Some (find_mention (length s) token (last before) from s).
Definition mention_token_from_insert_text (t : str) : option (char * str) :=
  match t with
  | s :: name =>
      if negb ((s =? ch "$") || (s =? ch "@"))%N || Str.is_empty name then None
      else if forallb is_mention_name_char name then Some (s, name) else None
  | [] => None
  end.

(** ** The draft *)

Section composer.
Context `{U : Unicode} {P : Type} {W : PopupWidgets P}.

Definition is_empty (c : ChatComposer P) : bool :=
  Str.is_empty (TextArea.text (textarea (draft c))) && negb (in_bash_mode (draft c)) && no_attachments (attachments c).
Definition current_text (c : ChatComposer P) : str :=
  if in_bash_mode (draft c) then $"!" ++ TextArea.text (textarea (draft c)) else TextArea.text (textarea (draft c)).
Definition current_cursor (c : ChatComposer P) : nat :=
  TextArea.cursor_pos (textarea (draft c)) + if in_bash_mode (draft c) then 1 else 0.
Definition current_text_elements (c : ChatComposer P) : list TextElement :=
  omap (fun e => shift_text_element e (if in_bash_mode (draft c) then 1 else 0)) (text_elements (textarea (draft c))).
Definition current_text_with_pending (c : ChatComposer P) : option str :=
  if bool_decide (draft_pastes (draft c) = []) then Some (current_text c)
  else fst <$> expand_pending_pastes (current_text c) (current_text_elements c) (draft_pastes (draft c)).
Definition history_navigation_cursor (c : ChatComposer P) : nat :=
  let ta := textarea (draft c) in
  if in_bash_mode (draft c) && (TextArea.cursor_pos ta =? 0) then 0
  else if TextArea.is_vim_normal_mode ta && negb (Str.is_empty (TextArea.text ta))
          && (TextArea.cursor_pos ta =? TextArea.vim_normal_end_cursor ta)
  then blen (current_text c)
  else current_cursor c.

Definition slash_input (c : ChatComposer P) : SlashInput :=
  mkSlashInput (slash_commands_enabled (config c)) (in_bash_mode (draft c)) (builtin_command_flags c) (tier_commands c).

(** Keep the elements of slash commands aligned with the first line. *)
Definition stale_ranges (text : str) (desired : option TextArea.Range) (es : list TextElement) : list TextArea.Range :=
  omap (fun e =>
    p ← placeholder text e;
    _ ← Str.strip_prefix $"/" p;
    if bool_decide (desired = Some (byte_range e)) then None else Some (byte_range e)) es.
Definition has_desired (text : str) (desired : option TextArea.Range) (es : list TextElement) : bool :=
  existsb (fun e => match p ← placeholder text e; Str.strip_prefix $"/" p with
                    | Some _ => bool_decide (desired = Some (byte_range e)) | None => false end) es.
Definition sync_slash_command_elements (c : ChatComposer P) : option (ChatComposer P) :=
  if negb (slash_commands_enabled (config c)) then Some c
  else
    let ta := textarea (draft c) in
    let text := TextArea.text ta in
    let first_line_end := default (blen text) (find_char TextArea.is_newline text) in
    line ← slice_to first_line_end text;
    let desired := command_element_range (slash_input c) line (TextArea.cursor_pos ta) in
    let es := text_elements ta in
    let ta := foldl (fun ta r => snd (TextArea.remove_element_range r ta)) ta (stale_ranges text desired es) in
    let ta := match desired with
              | Some r => if has_desired text desired es then ta
                          else match TextArea.add_element_range r ta with Some (_, ta) => ta | None => ta end
              | None => ta
              end in
    Some (put_textarea ta c).
(** The elements of commands, then the widgets. *)
Definition sync_popups (c : ChatComposer P) : option (ChatComposer P) :=
  c ← sync_slash_command_elements c;
  Some (put_popups (sync_popup_widgets c) c).

Definition on_images (f : AttachmentState -> TextArea.TextArea -> option (AttachmentState * TextArea.TextArea)) (c : ChatComposer P)
    : option (ChatComposer P) :=
  '(a, ta) ← f (attachments c) (textarea (draft c));
  Some (put_attachments a (put_textarea ta c)).
Definition set_remote_image_urls (urls : list str) (c : ChatComposer P) : option (ChatComposer P) :=
  c ← on_images (set_attached_urls urls) c; sync_popups c.
Definition take_remote_image_urls (c : ChatComposer P) : option (list str * ChatComposer P) :=
  let urls := remote_images (attachments c) in
  c ← on_images (set_attached_urls []) c;
  c ← sync_popups c;
  Some (urls, c).
Definition attach_image (path : str) : ChatComposer P -> option (ChatComposer P) := on_images (attach_local_image path).
Definition set_pending_pastes (ps : list (str * str)) (c : ChatComposer P) : ChatComposer P :=
  put_pastes (List.filter (fun p => Str.contains (fst p) (current_text c)) ps) c.

Definition current_mention_elements (c : ChatComposer P) : list (N * char * str) :=
  omap (fun '(id, _, t) => '(s, m) ← mention_token_from_insert_text t; Some (id, s, m))
    (TextArea.text_element_snapshots (textarea (draft c))).
Definition snapshot_mention_bindings (c : ChatComposer P) : list MentionBinding :=
  omap (fun '(id, s, m) =>
    b ← draft_mentions (draft c) !! id;
    if (sigil b =? s)%N && bool_decide (mention b = m) then Some b else None) (current_mention_elements c).
Fixpoint bind_mentions (text : str) (scan_from : nat) (bs : list MentionBinding) (ta : TextArea.TextArea) (m : gmap N MentionBinding)
    : option (TextArea.TextArea * gmap N MentionBinding) :=
  match bs with
  | [] => Some (ta, m)
  | b :: bs =>
      found ← find_next_mention_token_range text (sigil b :: mention b) scan_from;
      match found with
      | None => bind_mentions text scan_from bs ta m
      | Some r =>
          let '(id, ta) := match TextArea.add_element_range r ta with
                           | Some (id, ta) => (Some id, ta)
                           | None => (TextArea.element_id_for_exact_range r ta, ta)
                           end in
          match id with
          | Some id => bind_mentions text (TextArea.end_ r) bs ta (<[id := b]> m)
          | None => bind_mentions text scan_from bs ta m
          end
      end
  end.
Definition bind_mentions_from_snapshot (bs : list MentionBinding) (c : ChatComposer P) : option (ChatComposer P) :=
  let c := put_mentions ∅ c in
  if bool_decide (bs = []) then Some c
  else
    let ta := textarea (draft c) in
    '(ta, m) ← bind_mentions (TextArea.text ta) 0 bs ta ∅;
    Some (put_mentions m (put_textarea ta c)).

(** The leading [!] of shell mode is state, not text. *)
Definition imported_text_for_textarea (text : str) (es : list TextElement) (c : ChatComposer P) : str * list TextElement * ChatComposer P :=
  match Str.strip_prefix $"!" text with
  | Some stripped => (stripped, omap (fun e => shift_text_element e (-1)) es, put_bash true c)
  | None => (text, es, put_bash false c)
  end.
Definition set_text_content_with_mention_bindings (text : str) (es : list TextElement) (paths : list str) (bs : list MentionBinding)
    (c : ChatComposer P) : option (ChatComposer P) :=
  let c := put_textarea (TextArea.set_text_clearing_elements [] (textarea (draft c))) c in
  let c := put_mentions ∅ (put_pastes [] (put_bash false c)) in
  let '(text, es, c) := imported_text_for_textarea text es c in
  let c := put_textarea (set_text_with_elements text es (textarea (draft c))) c in
  c ← on_images (reset_local_images paths) c;
  c ← bind_mentions_from_snapshot bs c;
  let c := put_textarea (TextArea.set_cursor 0 (textarea (draft c))) c in
  sync_popups c.
Definition set_text_content (text : str) (es : list TextElement) (paths : list str) : ChatComposer P -> option (ChatComposer P) :=
  set_text_content_with_mention_bindings text es paths [].
Definition set_textarea_cursor (n : nat) (c : ChatComposer P) : ChatComposer P :=
  put_textarea (TextArea.set_cursor n (textarea (draft c))) c.
Definition set_current_cursor (cursor : nat) (c : ChatComposer P) : ChatComposer P :=
  let visible := if in_bash_mode (draft c) then cursor - 1 else cursor in
  set_textarea_cursor (Nat.min visible (blen (TextArea.text (textarea (draft c))))) c.
Definition move_cursor_to_end (c : ChatComposer P) : option (ChatComposer P) :=
  sync_popups (set_textarea_cursor (blen (TextArea.text (textarea (draft c)))) c).
Definition move_cursor_to_history_entry_end (c : ChatComposer P) : option (ChatComposer P) :=
  let ta := textarea (draft c) in
  sync_popups (set_textarea_cursor
    (if TextArea.is_vim_normal_mode ta then TextArea.vim_normal_end_cursor ta else blen (TextArea.text ta)) c).

Definition snapshot_draft (c : ChatComposer P) : ComposerDraft :=
  mkSavedDraft (current_text c) (current_text_elements c) (image_paths (attachments c)) (remote_images (attachments c))
    (snapshot_mention_bindings c) (draft_pastes (draft c)) (current_cursor c).
Definition restore_draft (d : ComposerDraft) (c : ChatComposer P) : option (ChatComposer P) :=
  c ← set_remote_image_urls (saved_remote_urls d) c;
  c ← set_text_content_with_mention_bindings (saved_text d) (saved_elements d) (saved_image_paths d) (saved_mentions d) c;
  sync_popups (set_current_cursor (saved_cursor d) (set_pending_pastes (saved_pastes d) c)).
Definition apply_history_entry (e : HistoryEntry) (c : ChatComposer P) : option (ChatComposer P) :=
  c ← set_remote_image_urls (remote_image_urls e) c;
  c ← set_text_content_with_mention_bindings (entry_text e) (entry_elements e) (local_image_paths e) (mention_bindings e) c;
  move_cursor_to_history_entry_end (set_pending_pastes (pending_pastes e) c).
(** The entry of the draft, with the given pastes. *)
Definition draft_entry (text : str) (es : list TextElement) (ps : list (str * str)) (c : ChatComposer P) : HistoryEntry :=
  mkEntry text es (image_paths (attachments c)) (remote_images (attachments c)) (snapshot_mention_bindings c) ps.
Definition clear_for_ctrl_c (c : ChatComposer P) : option (option str * ChatComposer P) :=
  if is_empty c then Some (None, c)
  else
    let previous := current_text c in
    let entry := draft_entry previous (current_text_elements c) (draft_pastes (draft c)) c in
    c ← set_text_content [] [] [] (put_pastes [] c);
    let c := put_attachments (clear_remote_image_urls (attachments c)) c in
    Some (Some previous, put_history (record_local_submission entry (reset_navigation (history c))) c).
Definition set_vim_enabled (enabled : bool) (c : ChatComposer P) : ChatComposer P :=
  let c := put_textarea (TextArea.set_vim_enabled enabled (textarea (draft c))) c in
  let c := put_burst (Burst.clear_after_explicit_paste (paste_burst (draft c))) c in
  put_footer (reset_mode_after_activity (footer_mode c)) c.
Definition toggle_vim_enabled (c : ChatComposer P) : bool * ChatComposer P :=
  let enabled := negb (TextArea.vim_enabled (textarea (draft c))) in (enabled, set_vim_enabled enabled c).
Definition record_pending_slash_command_history (c : ChatComposer P) : ChatComposer P :=
  match pending_slash_command_history c with
  | Some e => put_history (record_local_submission e (history c)) (put_staged None c)
  | None => c
  end.
End composer.

End Composer.
