(* ===== verification/ComposerInput.v ===== *)
(** Input of the composer ([tui/src/bottom_pane/chat_composer.rs]): pastes, keys with the
    detection of bursts, submission, the routing of keys when no popup is shown, and the
    interactive search.  What a popup that is shown does with a key is an argument, about
    which nothing is assumed.  The time of a key is an argument; a panic is [None]. *)
From stdpp Require Import gmap.
From S2P Require Import Prelude ByteText TextKeys TextArea PasteBurst ComposerText SlashCommands MentionCodec ComposerHistory Composer.

Module ComposerInput.
Import ByteText Unicode Burst ComposerText Slash Mentions History Composer.

Definition LARGE_PASTE_CHAR_THRESHOLD : nat := 1000.
(** [protocol/src/user_input.rs]. *)
Definition MAX_USER_INPUT_TEXT_CHARS : N := 1048576.
(** [replace] of a carriage return with a newline, then of the other carriage returns. *)
Fixpoint replace_crlf (s : str) : str :=
  match s with
  | [] => []
  | c :: s' =>
      match s' with
      | d :: s'' => if (c =? carriage_return)%N && (d =? newline)%N then newline :: replace_crlf s'' else c :: replace_crlf s'
      | [] => [c]
      end
  end.
Definition normalize_newlines (s : str) : str :=
  map (fun c => if (c =? carriage_return)%N then newline else c) (replace_crlf s).

Inductive InputResult :=
| Submitted (text : str) (es : list TextElement)
| Queued (text : str) (es : list TextElement) (action : QueuedInputAction)
| Command (c : SlashCommand)
| ServiceTierResult (t : ServiceTierCommand)
| CommandWithArgs (c : SlashCommand) (args : str) (es : list TextElement)
| NoResult.

(** A position is moved back to the start of the character it is in. *)
Fixpoint char_start (at_ pos : nat) (s : str) : nat :=
  match s with
  | [] => 0
  | c :: s => if at_ + width c <=? pos then match s with [] => at_ | _ => char_start (at_ + width c) pos s end else at_
  end.
Definition clamp_to_char_boundary (text : str) (pos : nat) : nat :=
  let p := Nat.min pos (blen text) in
  if (p <? blen text) && negb (is_char_boundary p text) then char_start 0 p text else p.
Definition has_ctrl_or_alt (mods : N) : bool :=
  (Keys.has_modifiers mods Keys.CONTROL || Keys.has_modifiers mods Keys.ALT) && negb (Keys.is_altgr mods).

Section input.
Context `{U : Unicode} `{D : Desktop} {P : Type} {W : PopupWidgets P}.

(** ** Pastes *)

Definition sync_bash_mode_from_text (c : ChatComposer P) : option (ChatComposer P) :=
  if negb (in_bash_mode (draft c)) && Str.starts_with $"!" (TextArea.text (textarea (draft c)))
  then ta ← TextArea.replace_range (TextArea.mkRange 0 1) [] (textarea (draft c)); Some (put_bash true (put_textarea ta c))
  else Some c.
Definition insert_in_textarea (t : str) (c : ChatComposer P) : option (ChatComposer P) :=
  ta ← TextArea.insert_str t (textarea (draft c)); Some (put_textarea ta c).
Definition insert_str (t : str) (c : ChatComposer P) : option (ChatComposer P) :=
  c ← insert_in_textarea t c;
  c ← sync_bash_mode_from_text c;
  sync_popups c.
Definition handle_paste_image_path (pasted : str) (c : ChatComposer P) : option (bool * ChatComposer P) :=
  match normalize_pasted_path pasted with
  | None => Some (false, c)
  | Some path => if is_image path then c ← attach_image path c; Some (true, c) else Some (false, c)
  end.
Definition handle_paste (pasted : str) (c : ChatComposer P) : option (ChatComposer P) :=
  let pasted := normalize_newlines pasted in
  let char_count := length pasted in
  c ← if LARGE_PASTE_CHAR_THRESHOLD <? char_count
      then
        let ph := next_large_paste_placeholder (draft_pastes (draft c)) char_count in
        '(_, ta) ← TextArea.insert_element ph (textarea (draft c));
        Some (put_pastes (draft_pastes (draft c) ++ [(ph, pasted)]) (put_textarea ta c))
      else
        '(attached, c) ← (if (1 <? char_count) && image_paste_enabled (config c) then handle_paste_image_path pasted c else Some (false, c));
        if (attached : bool) then insert_in_textarea $" " c else insert_str pasted c;
  sync_popups (put_burst (clear_after_explicit_paste (paste_burst (draft c))) c).

(** What [flush_before_modified_input] returns is pasted. *)
Definition flush_before (c : ChatComposer P) : option (ChatComposer P) :=
  match flush_before_modified_input (paste_burst (draft c)) with
  | (Some pasted, b) => handle_paste pasted (put_burst b c)
  | (None, b) => Some (put_burst b c)
  end.
Definition set_disable_paste_burst (disabled : bool) (c : ChatComposer P) : option (ChatComposer P) :=
  let was_disabled := disable_paste_burst (draft c) in
  let c := on_draft (put_disabled_in disabled) c in
  if disabled && negb was_disabled
  then c ← flush_before c; Some (put_burst (clear_after_explicit_paste (paste_burst (draft c))) c)
  else Some c.
Definition handle_paste_burst_flush (now : N) (c : ChatComposer P) : option (bool * ChatComposer P) :=
  match flush_if_due now (paste_burst (draft c)) with
  | (Paste pasted, b) => c ← handle_paste pasted (put_burst b c); Some (true, c)
  | (Typed ch, b) => c ← insert_str [ch] (put_burst b c); Some (true, c)
  | (NoFlush, b) => Some (false, put_burst b c)
  end.

(** ** Keys *)

Definition retain_pastes (c : ChatComposer P) : ChatComposer P :=
  put_pastes (List.filter (fun p => Str.contains (fst p) (TextArea.text (textarea (draft c)))) (draft_pastes (draft c))) c.
Definition input_textarea (event : Keys.KeyEvent) (c : ChatComposer P) : option (ChatComposer P) :=
  ta ← TextArea.input event (textarea (draft c)); Some (put_textarea ta c).
(** Start a burst with what is before the cursor; [None] inside if it does not look pasted. *)
Definition begin_buffer (ch : char) (now retro_chars : N) (c : ChatComposer P) : option (option (ChatComposer P)) :=
  let ta := textarea (draft c) in
  let safe_cur := clamp_to_char_boundary (TextArea.text ta) (TextArea.cursor_pos ta) in
  before ← slice_to safe_cur (TextArea.text ta);
  '(grab, b) ← decide_begin_buffer now before retro_chars (paste_burst (draft c));
  match grab with
  | Some g =>
      ta ← if Str.is_empty (grabbed g) then Some ta else TextArea.replace_range (TextArea.mkRange (start_byte g) safe_cur) [] ta;
      Some (Some (put_burst (append_char_to_buffer ch now b) (put_textarea ta c)))
  | None => Some None
  end.
Definition insert_non_ascii (event : Keys.KeyEvent) (c : ChatComposer P) : option (InputResult * bool * ChatComposer P) :=
  c ← flush_before c;
  c ← input_textarea event c;
  Some (NoResult, true, retain_pastes c).
Definition handle_non_ascii_char (event : Keys.KeyEvent) (now : N) (c : ChatComposer P) : option (InputResult * bool * ChatComposer P) :=
  if disable_paste_burst (draft c)
  then c ← input_textarea event c; Some (NoResult, true, retain_pastes c)
  else
    match Keys.code event with
    | Keys.Char ch =>
        let '(appended, b) := try_append_char_if_active ch now (paste_burst (draft c)) in
        let c := put_burst b c in
        if appended then Some (NoResult, true, c)
        else
          c ← flush_before c;
          let '(decision, b) := on_plain_char_no_hold now (paste_burst (draft c)) in
          let c := put_burst b c in
          match decision with
          | Some BufferAppend => Some (NoResult, true, put_burst (append_char_to_buffer ch now (paste_burst (draft c))) c)
          | Some (BeginBuffer retro_chars) =>
              r ← begin_buffer ch now retro_chars c;
              match r with Some c => Some (NoResult, true, c) | None => insert_non_ascii event c end
          | Some _ => None
          | None => insert_non_ascii event c
          end
    | _ => insert_non_ascii event c
    end.

Definition reconcile_deleted_elements (elements_before : list str) (c : ChatComposer P) : option (ChatComposer P) :=
  let elements_after := TextArea.element_payloads (textarea (draft c)) in
  let removed := List.filter (fun p => negb (bool_decide (p ∈ elements_after))) elements_before in
  let c := put_pastes (List.filter (fun p => negb (bool_decide (fst p ∈ removed))) (draft_pastes (draft c))) c in
  on_images (remove_deleted_local_placeholders removed) c.
(** The key is applied to the text area, after what was collected. *)
Definition apply_key (event : Keys.KeyEvent) (c : ChatComposer P) : option (InputResult * bool * ChatComposer P) :=
  c ← match Keys.code event with
      | Keys.Char _ | Keys.Enter => Some c
      | _ => flush_before c
      end;
  let elements_before :=
    if bool_decide (draft_pastes (draft c) = []) && no_attachments (attachments c) then None
    else Some (TextArea.element_payloads (textarea (draft c))) in
  if in_bash_mode (draft c) && bool_decide (Keys.code event = Keys.Backspace) && (TextArea.cursor_pos (textarea (draft c)) =? 0)
  then Some (NoResult, true, put_bash false c)
  else
    c ← input_textarea event c;
    c ← sync_bash_mode_from_text c;
    c ← match elements_before with Some before => reconcile_deleted_elements before c | None => Some c end;
    let clear := put_burst (clear_window_after_non_char (paste_burst (draft c))) c in
    Some (NoResult, true,
          match Keys.code event with
          | Keys.Char _ => if has_ctrl_or_alt (Keys.modifiers event) then clear else c
          | Keys.Enter => c
          | _ => clear
          end).
Definition handle_input_basic_with_time (event : Keys.KeyEvent) (now : N) (c : ChatComposer P) : option (InputResult * bool * ChatComposer P) :=
  '(_, c) ← handle_paste_burst_flush now c;
  let c := if bool_decide (Keys.code event = Keys.Esc) then c else put_footer (reset_mode_after_activity (footer_mode c)) c in
  let '(appended, b) :=
    if bool_decide (Keys.code event = Keys.Enter) && negb (disable_paste_burst (draft c)) && is_active (paste_burst (draft c))
    then append_newline_if_active now (paste_burst (draft c)) else (false, paste_burst (draft c)) in
  let c := put_burst b c in
  if appended then Some (NoResult, true, c)
  else
    match Keys.code event with
    | Keys.Char ch =>
        if negb (has_ctrl_or_alt (Keys.modifiers event)) && negb (disable_paste_burst (draft c))
           && TextArea.allows_paste_burst (textarea (draft c))
        then
          if negb (ch <? 128)%N then handle_non_ascii_char event now c
          else
            let '(decision, b) := on_plain_char ch now (paste_burst (draft c)) in
            let c := put_burst b c in
            match decision with
            | BufferAppend | BeginBufferFromPending =>
                Some (NoResult, true, put_burst (append_char_to_buffer ch now (paste_burst (draft c))) c)
            | RetainFirstChar => Some (NoResult, true, c)
            | BeginBuffer retro_chars =>
                r ← begin_buffer ch now retro_chars c;
                match r with
                | Some c => Some (NoResult, true, c)
                | None => c ← flush_before c; apply_key event c
                end
            end
        else c ← flush_before c; apply_key event c
    | _ => apply_key event c
    end.
Definition handle_input_basic (event : Keys.KeyEvent) (now : N) (c : ChatComposer P) : option (InputResult * bool * ChatComposer P) :=
  if negb (Keys.pressed_kind (Keys.kind event)) then Some (NoResult, false, c)
  else handle_input_basic_with_time event now c.

(** ** Submission *)

Definition unknown_command_message (name : str) : str :=
  $"Unrecognized command '/" ++ name ++ $"'. Type " ++ [dquote] ++ $"/" ++ [dquote] ++ $" for a list of supported commands.".
Definition user_input_too_large_message (actual_chars : nat) : str :=
  $"Message exceeds the maximum length of " ++ Str.show_N MAX_USER_INPUT_TEXT_CHARS ++ $" characters ("
  ++ Str.show_nat actual_chars ++ $" provided).".
(** The draft is put back, with its pastes and the cursor at its end. *)
Definition put_back (text : str) (es : list TextElement) (paths : list str) (bs : list MentionBinding) (ps : list (str * str))
    (c : ChatComposer P) : option (ChatComposer P) :=
  c ← set_text_content_with_mention_bindings text es paths bs c;
  Some (set_textarea_cursor (blen text) (put_pastes ps c)).
Definition prepare_submission_text_with_options (record_history : bool) (validation : SlashValidation) (c : ChatComposer P)
    : option (option (str * list TextElement) * ChatComposer P) :=
  let original_input := current_text c in
  let original_elements := current_text_elements c in
  let original_mentions := snapshot_mention_bindings c in
  let original_paths := image_paths (attachments c) in
  let original_pastes := draft_pastes (draft c) in
  let c := put_recent [] c in
  let c := put_bash false (put_textarea (TextArea.set_text_clearing_elements [] (textarea (draft c))) c) in
  '(expanded, es) ←
    if bool_decide (original_pastes = []) then Some (original_input, original_elements)
    else expand_pending_pastes original_input original_elements original_pastes;
  let text := Str.trim expanded in
  let es := trim_text_elements expanded text es in
  let reject message := c ← put_back original_input original_elements original_paths original_mentions original_pastes (send message c);
                        Some (None, c) in
  match (match validation with
         | Immediate => match validate_submission (slash_input c) text (Str.starts_with $" " original_input) with
                        | UnknownCommand name => Some name | Valid => None end
         | Deferred => None
         end) with
  | Some name => reject (InfoCell (unknown_command_message name))
  | None =>
      if (MAX_USER_INPUT_TEXT_CHARS <? N.of_nat (length text))%N
      then reject (ErrorCell (user_input_too_large_message (length text)))
      else
        let c := put_attachments (prune_local_images_for_submission text es (attachments c)) c in
        if Str.is_empty text && no_attachments (attachments c) then Some (None, c)
        else
          let c := put_recent original_mentions c in
          let c :=
            if record_history
            then put_history (record_local_submission
                   (mkEntry text es (image_paths (attachments c)) (remote_images (attachments c)) original_mentions []) (history c)) c
            else c in
          Some (Some (text, es), put_pastes [] c)
  end.
Definition prepare_submission_text (record_history : bool) : ChatComposer P -> option (option (str * list TextElement) * ChatComposer P) :=
  prepare_submission_text_with_options record_history Immediate.

Definition stage_slash_command_history_text (text : str) (c : ChatComposer P) : ChatComposer P :=
  put_staged (Some (draft_entry text (text_elements (textarea (draft c))) (draft_pastes (draft c)) c)) c.
Definition stage_slash_command_history (cmd : SlashCommandItem) (c : ChatComposer P) : ChatComposer P :=
  match cmd with
  | Builtin Clear => c
  | _ => stage_slash_command_history_text (Str.trim (TextArea.text (textarea (draft c)))) c
  end.
Definition reject_slash_command_if_unavailable (cmd : SlashCommandItem) (c : ChatComposer P) : bool * ChatComposer P :=
  if negb (is_task_running c) || item_available_during_task cmd then (false, c)
  else (true, send (ErrorCell ($"'/" ++ item_command cmd ++ $"' is disabled while a task is in progress.")) c).
Definition try_dispatch_bare_slash_command (c : ChatComposer P) : option InputResult * ChatComposer P :=
  match bare_command (slash_input c) (TextArea.text (textarea (draft c))) with
  | None => (None, c)
  | Some cmd =>
      let '(rejected, c) := reject_slash_command_if_unavailable cmd c in
      if rejected then (Some NoResult, record_pending_slash_command_history (stage_slash_command_history cmd c))
      else
        let c := stage_slash_command_history cmd c in
        let c := put_bash false (put_textarea (TextArea.set_text_clearing_elements [] (textarea (draft c))) c) in
        (Some match cmd with Builtin b => Command b | ServiceTier t => ServiceTierResult t end, c)
  end.
Definition try_dispatch_slash_command_with_args (c : ChatComposer P) : option InputResult * ChatComposer P :=
  match inline_command (slash_input c) (TextArea.text (textarea (draft c))) with
  | None => (None, c)
  | Some i =>
      let '(rejected, c) := reject_slash_command_if_unavailable (inline i) c in
      if rejected then (Some NoResult, record_pending_slash_command_history (stage_slash_command_history (inline i) c))
      else
        let c := stage_slash_command_history (inline i) c in
        let es := args_elements (inline_rest i) (rest_offset i) (text_elements (textarea (draft c))) in
        let trimmed := Str.trim (inline_rest i) in
        (match inline i with
         | Builtin b => Some (CommandWithArgs b trimmed (trim_text_elements (inline_rest i) trimmed es))
         | ServiceTier _ => None
         end, c)
  end.
Definition prepare_inline_args_submission (record_history : bool) (c : ChatComposer P)
    : option (option (str * list TextElement) * ChatComposer P) :=
  '(prepared, c) ← prepare_submission_text record_history c;
  Some (match prepared with
        | Some (text, es) =>
            '(rest, offset) ← prepared_args text;
            let trimmed := Str.trim rest in
            Some (trimmed, trim_text_elements rest trimmed (args_elements rest offset es))
        | None => None
        end, c).

Definition command_popup_shown (p : P) : bool := match active_popup p with CommandPopup => true | _ => false end.
Definition in_slash_context (c : ChatComposer P) : bool :=
  slash_commands_enabled (config c) && negb (in_bash_mode (draft c))
  && (command_popup_shown (popups c) || Str.starts_with $"/" (first_line (TextArea.text (textarea (draft c))))).
Definition handle_submission_with_time (should_queue : bool) (now : N) (c : ChatComposer P) : option (InputResult * bool * ChatComposer P) :=
  if should_queue
  then
    c ← flush_before c;
    let defer := should_parse_on_dequeue (slash_input c) (TextArea.text (textarea (draft c))) in
    '(prepared, c) ← prepare_submission_text_with_options true (if defer then Deferred else Immediate) c;
    Some (match prepared with
          | Some (text, es) => Queued text es (queued_input_action text defer)
          | None => NoResult
          end, true, c)
  else
    match try_dispatch_bare_slash_command c with
    | (Some result, c) => Some (result, true, c)
    | (None, c) =>
        let '(appended, b) :=
          if negb (disable_paste_burst (draft c)) && is_active (paste_burst (draft c)) && negb (in_slash_context c)
          then append_newline_if_active now (paste_burst (draft c)) else (false, paste_burst (draft c)) in
        let c := put_burst b c in
        if appended then Some (NoResult, true, c)
        else if negb (in_slash_context c) && negb (disable_paste_burst (draft c))
                && newline_should_insert_instead_of_submit now (paste_burst (draft c))
        then
          c ← insert_in_textarea [newline] c;
          Some (NoResult, true, put_burst (extend_window now (paste_burst (draft c))) c)
        else
          let original_input := current_text c in
          let original_elements := current_text_elements c in
          let original_mentions := snapshot_mention_bindings c in
          let original_paths := image_paths (attachments c) in
          let original_pastes := draft_pastes (draft c) in
          match try_dispatch_slash_command_with_args c with
          | (Some result, c) => Some (result, true, c)
          | (None, c) =>
              '(prepared, c) ← prepare_submission_text true c;
              match prepared with
              | Some (text, es) => Some (Submitted text es, true, c)
              | None =>
                  c ← set_text_content_with_mention_bindings original_input original_elements original_paths original_mentions c;
                  Some (NoResult, true, put_pastes original_pastes c)
              end
          end
    end.
Definition reset_vim_mode_after_successful_dispatch (r : InputResult) (c : ChatComposer P) : ChatComposer P :=
  match r with
  | NoResult => c
  | _ => put_textarea (TextArea.enter_vim_normal_mode (textarea (draft c))) c
  end.
Definition handle_submission (should_queue : bool) (now : N) (c : ChatComposer P) : option (InputResult * bool * ChatComposer P) :=
  '(r, redraw, c) ← handle_submission_with_time should_queue now c;
  Some (r, redraw, reset_vim_mode_after_successful_dispatch r c).

(** ** Keys without a popup *)

Definition quit_shortcut_hint_visible (now : N) (c : ChatComposer P) : bool :=
  match quit_shortcut_expires_at c with Some t => (now <? t)%N | None => false end.
Definition handle_shortcut_overlay_key (event : Keys.KeyEvent) (now : N) (c : ChatComposer P) : bool * ChatComposer P :=
  if negb match Keys.kind event with Keys.Press => true | _ => false end then (false, c)
  else if negb (Keys.is_pressed (toggle_shortcuts_keys (keys c)) event && is_empty c && negb (is_active (paste_burst (draft c))))
  then (false, c)
  else
    let next := toggle_shortcut_mode (footer_mode c) (quit_shortcut_hint_visible now c) (is_empty c) in
    (negb (bool_decide (next = footer_mode c)), put_footer next c).
Definition is_bang_shell_command (c : ChatComposer P) : bool := Str.starts_with $"!" (Str.trim_start (current_text c)).
(** [Char(k)] without modifiers, pressed or repeated. *)
Definition plain_press (k : char) (event : Keys.KeyEvent) : bool :=
  bool_decide (Keys.code event = Keys.Char k) && (Keys.modifiers event =? 0)%N && Keys.pressed_kind (Keys.kind event).
(** Up and Down recall history when the draft allows it. *)
Definition handle_vertical_key (up : bool) (event : Keys.KeyEvent) (now : N) (c : ChatComposer P) : option (InputResult * bool * ChatComposer P) :=
  if should_handle_navigation (current_text c) (history_navigation_cursor c) (history c)
  then
    let '(entry, h, lookups) := if up then navigate_up (history c) else navigate_down (history c) in
    let c := foldl (fun c l => send (LookupEntry l) c) (put_history h c) lookups in
    match entry with
    | Some e => c ← apply_history_entry e c; Some (NoResult, true, c)
    | None => handle_input_basic event now c
    end
  else handle_input_basic event now c.
Definition route_key (event : Keys.KeyEvent) (now : N) (c : ChatComposer P) : option (InputResult * bool * ChatComposer P) :=
  let ta := textarea (draft c) in
  if Keys.is_pressed (queue_keys (keys c)) event && (is_task_running c || queue_submissions c || negb (is_bang_shell_command c))
  then handle_submission (is_task_running c || queue_submissions c) now c
  else if Keys.is_pressed (submit_keys (keys c)) event then handle_submission (queue_submissions c) now c
  else if bool_decide (Keys.code event = Keys.Char (ch "d")) && (Keys.modifiers event =? Keys.CONTROL)%N
          && match Keys.kind event with Keys.Press => true | _ => false end && is_empty c
  then Some (NoResult, false, c)
  else
    let '(up, down) :=
      if TextArea.is_vim_normal_mode ta
      then if TextArea.is_vim_operator_pending ta then (false, false)
           else (Keys.is_pressed (Keys.normal_up (vim_normal_keymap (keys c))) event,
                 Keys.is_pressed (Keys.normal_down (vim_normal_keymap (keys c))) event)
      else (Keys.is_pressed (Keys.move_up (editor_keymap (keys c))) event,
            Keys.is_pressed (Keys.move_down (editor_keymap (keys c))) event) in
    if up || down then handle_vertical_key up event now c else handle_input_basic event now c.
Definition handle_key_event_without_popup (event : Keys.KeyEvent) (now : N) (c : ChatComposer P) : option (InputResult * bool * ChatComposer P) :=
  selection ← remote_image_selection_key event (attachments c) (textarea (draft c));
  match selection with
  | Some (a, ta) => Some (NoResult, true, put_attachments a (put_textarea ta c))
  | None =>
      let c := match selected_remote_image_index (attachments c) with
               | Some _ => put_attachments (clear_remote_image_selection (attachments c)) c
               | None => c
               end in
      let '(toggled, c) := handle_shortcut_overlay_key event now c in
      if toggled then Some (NoResult, true, c)
      else
        let esc := bool_decide (Keys.code event = Keys.Esc) in
        c ← if in_bash_mode (draft c) && esc then flush_before c else Some c;
        if in_bash_mode (draft c) && esc && Str.is_empty (TextArea.text (textarea (draft c)))
        then Some (NoResult, true, put_bash false c)
        else
          let ta := textarea (draft c) in
          if TextArea.should_handle_vim_insert_escape event ta then handle_input_basic event now c
          else if TextArea.is_vim_normal_mode ta && TextArea.is_vim_operator_pending ta then handle_input_basic event now c
          else if TextArea.is_vim_normal_mode ta && is_empty c && plain_press (ch "/") event
          then
            let ta := TextArea.set_text_clearing_elements $"/" ta in
            let ta := TextArea.enter_vim_insert_mode (TextArea.set_cursor (blen (TextArea.text ta)) ta) in
            Some (NoResult, true, put_textarea ta (put_footer (reset_mode_after_activity (footer_mode c)) c))
          else if TextArea.is_vim_normal_mode ta && is_empty c && plain_press (ch "!") event
          then Some (NoResult, true, put_textarea (TextArea.enter_vim_insert_mode ta)
                 (put_bash true (put_footer (reset_mode_after_activity (footer_mode c)) c)))
          else
            let hint := esc_hint_mode (footer_mode c) (is_task_running c) in
            if esc && is_empty c && negb (bool_decide (hint = footer_mode c)) then Some (NoResult, true, put_footer hint c)
            else route_key event now (if esc then c else put_footer (reset_mode_after_activity (footer_mode c)) c)
  end.

(** ** The interactive search ([chat_composer/history_search.rs]) *)

Definition begin_history_search (c : ChatComposer P) : option (InputResult * bool * ChatComposer P) :=
  c ← flush_before c;
  let c := put_burst (clear_window_after_non_char (paste_burst (draft c))) c in
  let c := put_popups (close_popups (popups c)) c in
  let c := put_attachments (clear_remote_image_selection (attachments c)) c in
  let c := put_session (Some (mkSession (snapshot_draft c) [] SearchIdle)) c in
  Some (NoResult, true, put_history (reset_search (history c)) c).
Definition put_status (st : HistorySearchStatus) (c : ChatComposer P) : ChatComposer P :=
  put_session ((fun s => mkSession (original_draft s) (search_query s) st) <$> history_search c) c.
Definition restore_original (c : ChatComposer P) : option (ChatComposer P) :=
  match history_search c with Some s => restore_draft (original_draft s) c | None => Some c end.
Definition cancel_history_search (c : ChatComposer P) : option (bool * ChatComposer P) :=
  match history_search c with
  | None => Some (false, c)
  | Some s =>
      let c := put_history (reset_navigation (history c)) (put_session None c) in
      let c := put_footer (reset_mode_after_activity (footer_mode c)) c in
      c ← restore_draft (original_draft s) c; Some (true, c)
  end.
Definition apply_history_search_result (r : HistorySearchResult) (c : ChatComposer P) : option (ChatComposer P) :=
  match r with
  | FoundMatch e => apply_history_entry e (put_status SearchMatch c)
  | SearchPending => Some (put_status Searching c)
  | AtBoundary => Some (put_status SearchMatch c)
  | NotFound => restore_original (put_status NoMatch c)
  end.
Definition run_search (q : str) (d : HistorySearchDirection) (restart : bool) (c : ChatComposer P) : option (ChatComposer P) :=
  let '(r, h, lookups) := search to_lowercase q d restart (history c) in
  apply_history_search_result r (foldl (fun c l => send (LookupEntry l) c) (put_history h c) lookups).
Definition history_search_in_direction (d : HistorySearchDirection) (c : ChatComposer P) : option (ChatComposer P) :=
  match history_search c with
  | None => Some c
  | Some s =>
      if Str.is_empty (search_query s)
      then restore_original (put_status SearchIdle (put_history (reset_search (history c)) c))
      else run_search (search_query s) d false c
  end.
Definition update_history_search_query (q : str) (c : ChatComposer P) : option (ChatComposer P) :=
  match history_search c with
  | None => Some c
  | Some s =>
      c ← restore_draft (original_draft s) (put_session (Some (mkSession (original_draft s) q Searching)) c);
      if Str.is_empty q then Some (put_status SearchIdle (put_history (reset_search (history c)) c))
      else run_search q Older true c
  end.
Definition searched (c : option (ChatComposer P)) : option (InputResult * bool * ChatComposer P) :=
  c ← c; Some (NoResult, true, c).
(** The query with a change. *)
Definition edit_query (f : str -> str) (c : ChatComposer P) : option (ChatComposer P) :=
  match history_search c with Some s => update_history_search_query (f (search_query s)) c | None => Some c end.
Definition handle_history_search_key (event : Keys.KeyEvent) (c : ChatComposer P) : option (InputResult * bool * ChatComposer P) :=
  let mods := Keys.modifiers event in
  if match Keys.kind event with Keys.Release => true | _ => false end then Some (NoResult, false, c)
  else if Keys.is_pressed (history_search_previous_keys (keys c)) event || bool_decide (Keys.code event = Keys.Up)
  then searched (history_search_in_direction Older c)
  else if Keys.is_pressed (history_search_next_keys (keys c)) event || bool_decide (Keys.code event = Keys.Down)
  then searched (history_search_in_direction Newer c)
  else
    match Keys.code event with
    | Keys.Esc => '(_, c) ← cancel_history_search c; Some (NoResult, true, c)
    | Keys.Enter =>
        if (mods =? 0)%N && match history_search c with Some (mkSession _ _ SearchMatch) => true | _ => false end
        then
          let c := put_history (reset_search (history c)) (put_session None c) in
          searched (move_cursor_to_end (put_footer (reset_mode_after_activity (footer_mode c)) c))
        else Some (NoResult, true, c)
    | Keys.Backspace => searched (edit_query (@removelast _) c)
    | Keys.Char k =>
        if Keys.has_modifiers mods Keys.CONTROL && ((k =? ch "c")%N || (k =? ch "C")%N) || (k =? 3)%N && (mods =? 0)%N
        then '(_, c) ← cancel_history_search c; Some (NoResult, true, c)
        else if (k =? ch "h")%N && (mods =? Keys.CONTROL)%N then searched (edit_query (@removelast _) c)
        else if (k =? ch "u")%N && (mods =? Keys.CONTROL)%N then searched (update_history_search_query [] c)
        else if negb (has_ctrl_or_alt mods) then searched (edit_query (fun q => q ++ [k]) c)
        else Some (NoResult, true, c)
    | _ => Some (NoResult, true, c)
    end.

(** ** Keys *)

(** [handle_key_event_with_slash_popup] and its likes: what a popup that is shown does with a
    key is not modelled; nothing is assumed of it. *)
Variable handle_key_event_with_popup : ActivePopup -> Keys.KeyEvent -> N -> ChatComposer P -> option (InputResult * bool * ChatComposer P).

Definition handle_key_event (event : Keys.KeyEvent) (now : N) (c : ChatComposer P) : option (InputResult * bool * ChatComposer P) :=
  if negb (input_enabled (draft c)) then Some (NoResult, false, c)
  else if match Keys.kind event with Keys.Release => true | _ => false end then Some (NoResult, false, c)
  else if match history_search c with Some _ => true | None => false end then handle_history_search_key event c
  else if Keys.is_pressed (history_search_previous_keys (keys c)) event then begin_history_search c
  else
    '(r, redraw, c) ← match active_popup (popups c) with
                      | NoPopup => handle_key_event_without_popup event now c
                      | p => handle_key_event_with_popup p event now c
                      end;
    c ← sync_popups (reset_vim_mode_after_successful_dispatch r c);
    Some (r, redraw, c).
End input.

End ComposerInput.
