(* ===== verification/ComposerTyping.v ===== *)
(** Typing in the composer: what has been typed is in the text, in the collected burst or
    held, in its order, through inserts, pastes and retroactive grabs. *)
From stdpp Require Import gmap.
From S2P Require Import Prelude ByteText TextKeys TextArea TextAreaEdits TextAreaElements PasteBurst ComposerText SlashCommands MentionCodec ComposerHistory Composer ComposerInput.

(** The text area while text is only added at its end and taken from there: its elements
    stay where they are laid out. *)
Module Layout.
Import ByteText Unicode TextArea Edits Elements.

Section layout.
Context {U : Unicode}.

(** Ranges one after the other, none empty, between two positions. *)
Fixpoint chain (lo hi : nat) (rs : list Range) : Prop :=
  match rs with
  | [] => lo <= hi
  | r :: rs => lo <= start r < end_ r /\ chain (end_ r) hi rs
  end.
Lemma chain_le lo hi rs : chain lo hi rs -> lo <= hi.
Proof. revert lo. induction rs as [|r rs IH]; intros lo; simpl; [done|]. intros [H Hc]. apply IH in Hc. lia. Qed.
Lemma chain_weaken lo hi hi' rs : chain lo hi rs -> hi <= hi' -> chain lo hi' rs.
Proof. revert lo. induction rs as [|r rs IH]; intros lo; simpl; [lia|]. intros [H Hc] Hle. split; [done|]. by apply IH. Qed.
Lemma chain_snoc lo hi rs s e : chain lo hi rs -> hi <= s < e -> chain lo e (rs ++ [mkRange s e]).
Proof. revert lo. induction rs as [|r rs IH]; intros lo; simpl; [lia|]. intros [H Hc] Hle. split; [done|]. by apply IH. Qed.
Lemma chain_bounds lo hi rs : chain lo hi rs -> Forall (fun r => lo <= start r < end_ r /\ end_ r <= hi) rs.
Proof.
  revert lo. induction rs as [|r rs IH]; intros lo; simpl; [constructor|]. intros [H Hc].
  pose proof (chain_le _ _ _ Hc). constructor; [lia|]. eapply Forall_impl; [by apply IH|simpl; lia].
Qed.

(** What these operations leave alone. *)
Definition modes (ta : TextArea) := (vim_enabled ta, vim_mode ta, vim_pending ta, keymap ta).
Definition ranges (ta : TextArea) : list Range := range <$> elements ta.
Lemma on_ranges (Q : Range -> Prop) ta : Forall Q (ranges ta) -> Forall (fun e => Q (range e)) (elements ta).
Proof. unfold ranges. by rewrite Forall_fmap. Qed.

Lemma clamp_here n ta :
  boundary n (text ta) -> Forall (fun e => end_ (range e) <= n \/ n <= start (range e)) (elements ta) ->
  clamp_pos_to_nearest_boundary n ta = n.
Proof.
  intros Hb Hout. unfold clamp_pos_to_nearest_boundary. rewrite clamp_char_id by done.
  unfold nearer_edge. destruct (find_element_containing n ta) as [e|] eqn:Hf; [|done].
  apply find_inside in Hf as [Hin Hi]. rewrite Forall_forall in Hout. destruct (Hout e Hin); lia.
Qed.
Lemma kept_before at_ removed inserted es :
  Forall (fun e => start (range e) < end_ (range e) /\ end_ (range e) <= at_) es ->
  shift_element at_ removed inserted <$> List.filter (fun e => negb (within at_ (at_ + removed) e)) es = es.
Proof.
  induction 1 as [|e es [H1 H2] _ IH]; [done|]. cbn [List.filter].
  assert (within at_ (at_ + removed) e = false) as -> by (unfold within; apply andb_false_iff; left; apply Nat.leb_gt; lia).
  cbn [negb]. rewrite fmap_cons, IH. f_equal. unfold shift_element. by rewrite (proj2 (Nat.leb_le _ _)).
Qed.
Lemma shift_before at_ removed inserted ta :
  Forall (fun e => start (range e) < end_ (range e) /\ end_ (range e) <= at_) (elements ta) ->
  shift_elements at_ removed inserted ta = put_elements (elements ta) ta.
Proof. intros H. unfold shift_elements. by rewrite kept_before. Qed.
Lemma insert_at_end t s : ByteText.insert_str (blen s) t s = Some (s ++ t).
Proof. pose proof (insert_str_app s t []) as H. by rewrite !app_nil_r in H. Qed.

(** ** Adding text *)

Lemma insert_end t ta :
  chain 0 (blen (text ta)) (ranges ta) -> cursor_pos ta = blen (text ta) ->
  exists ta', insert_str t ta = Some ta' /\ text ta' = text ta ++ t /\ elements ta' = elements ta /\
    cursor_pos ta' = blen (text ta') /\ modes ta' = modes ta.
Proof.
  intros Hc%chain_bounds%on_ranges Hcur. unfold insert_str, insert_str_at, clamp_pos_for_insertion.
  fold (clamp_pos_to_nearest_boundary (cursor_pos ta) ta). rewrite Hcur, clamp_here; [|apply boundary_blen|].
  2: { eapply Forall_impl; [exact Hc|]. simpl. lia. }
  rewrite insert_at_end. cbn [mbind option_bind]. eexists. split; [done|].
  assert (blen (text ta) <=? cursor_pos (put_text (text ta ++ t) ta) = true) as -> by (apply Nat.leb_le; simpl; lia).
  simpl. rewrite Hcur, blen_app. split_and!; [done| |done|done].
  apply kept_before. eapply Forall_impl; [exact Hc|]. simpl. lia.
Qed.
Lemma insert_sorted_last e es : Forall (fun x => start (range x) < start (range e)) es -> insert_by_start e es = es ++ [e].
Proof.
  induction 1 as [|x es Hx _ IH]; simpl; [done|].
  assert (start (range e) <=? start (range x) = false) as -> by by apply Nat.leb_gt. by rewrite IH.
Qed.
Lemma sort_chain lo hi es : chain lo hi (range <$> es) -> sort_by_start es = es.
Proof.
  revert lo. induction es as [|e es IH]; intros lo; simpl; [done|]. intros [H Hc]. rewrite (IH _ Hc).
  destruct es as [|x es]; simpl; [done|]. simpl in Hc. destruct Hc as [Hx _].
  assert (start (range e) <=? start (range x) = true) as -> by (apply Nat.leb_le; lia). done.
Qed.
Lemma insert_element_end t ta :
  t <> [] -> chain 0 (blen (text ta)) (ranges ta) -> cursor_pos ta = blen (text ta) ->
  exists id ta', insert_element t ta = Some (id, ta') /\ text ta' = text ta ++ t /\
    ranges ta' = ranges ta ++ [mkRange (blen (text ta)) (blen (text ta) + blen t)] /\
    cursor_pos ta' = blen (text ta') /\ modes ta' = modes ta.
Proof.
  intros Ht Hc Hcur. pose proof (on_ranges _ _ (chain_bounds _ _ _ Hc)) as Hb. simpl in Hb.
  assert (clamp_pos_for_insertion (cursor_pos ta) ta = blen (text ta)) as Hpos.
  { change (clamp_pos_for_insertion (cursor_pos ta) ta) with (clamp_pos_to_nearest_boundary (cursor_pos ta) ta).
    rewrite Hcur. apply clamp_here; [apply boundary_blen|]. eapply Forall_impl; [exact Hb|]. simpl. lia. }
  unfold insert_element. rewrite Hpos.
  destruct (insert_end t ta Hc Hcur) as (ta1 & Hi & Htx & Hel & Hcur1 & Hset).
  unfold insert_str in Hi. rewrite Hcur in Hi. rewrite Hi. cbn [mbind option_bind].
  unfold add_element, add_element_with_id. destruct (next_element_id ta1) as [id ta2] eqn:Hid.
  assert (text ta2 = text ta1 /\ elements ta2 = elements ta1 /\ modes ta2 = modes ta1) as (H1 & H2 & H3).
  { unfold next_element_id in Hid. by injection Hid as _ <-. }
  assert (0 < blen t) as Hlt. { destruct t as [|c t]; [done|]. simpl. pose proof (width_pos c). lia. }
  set (e := mkElement id (mkRange (blen (text ta)) (blen (text ta) + blen t)) None).
  assert (sort_by_start (elements ta2 ++ [e]) = elements ta ++ [e]) as Hsort.
  { rewrite H2, Hel. apply (sort_chain 0 (blen (text ta) + blen t)). rewrite fmap_app. simpl.
    apply (chain_snoc _ (blen (text ta))); [done|lia]. }
  eexists id, _. split; [done|]. rewrite Hsort. unfold set_cursor. simpl.
  rewrite H1, Htx, blen_app, Nat.min_id. split_and!; [done| | |by rewrite <- Hset, <- H3].
  - unfold ranges. simpl. by rewrite fmap_app.
  - apply clamp_here; simpl.
    + rewrite H1, Htx, <- blen_app. apply boundary_blen.
    + apply Forall_app. split; [|repeat constructor; simpl; lia]. eapply Forall_impl; [exact Hb|]. simpl. lia.
Qed.

(** ** Taking text away *)

Lemma expand_clear r ta :
  Forall (clear_of (start r) (end_ r)) (elements ta) -> expand_range_to_element_boundaries r ta = Some r.
Proof.
  intros Hc. unfold expand_range_to_element_boundaries. cbn [expand_loop]. unfold expand_pass.
  rewrite expand_pass_stable by done. by destruct (decide (r = r)).
Qed.
Lemma remove_end a b ta :
  text ta = a ++ b -> chain 0 (blen a) (ranges ta) -> cursor_pos ta = blen (text ta) ->
  exists ta', replace_range (mkRange (blen a) (blen (text ta))) [] ta = Some ta' /\ text ta' = a /\
    elements ta' = elements ta /\ cursor_pos ta' = blen a /\ modes ta' = modes ta.
Proof.
  intros Htext Hc%chain_bounds%on_ranges Hcur. simpl in Hc. unfold replace_range.
  rewrite expand_clear by (eapply Forall_impl; [exact Hc|]; unfold clear_of; simpl; lia).
  cbn [mbind option_bind]. unfold replace_range_raw. cbn [start end_].
  assert (blen (text ta) = blen a + blen b) as Hl by by rewrite Htext, blen_app.
  rewrite Hl, (proj2 (Nat.leb_le _ _)), !Nat.min_l by lia. cbn [negb].
  replace (blen a + blen b - blen a) with (blen b) by lia.
  destruct ((blen b =? 0) && (blen [] =? 0)) eqn:Hnone.
  { apply andb_true_iff in Hnone as [->%Nat.eqb_eq%blen_nil_iff _]. exists ta. rewrite app_nil_r in Htext.
    rewrite Hcur, Htext. done. }
  pose proof (replace_range_app a b [] []) as Hr. simpl in Hr. rewrite !app_nil_r in Hr.
  rewrite Htext, Hr. cbn [mbind option_bind]. eexists. split; [done|].
  rewrite (proj2 (Nat.ltb_ge _ _)), (proj2 (Nat.leb_le _ _)) by (simpl; lia).
  rewrite shift_before by (simpl; eapply Forall_impl; [exact Hc|]; simpl; lia).
  simpl. split_and!; [done|done| |done]. rewrite Nat.add_0_r, Nat.min_id.
  apply clamp_here; simpl; [apply boundary_blen|]. eapply Forall_impl; [exact Hc|]. simpl. lia.
Qed.
Definition back_one (r : Range) : Range := mkRange (start r - 1) (end_ r - 1).
Lemma remove_first c t ta :
  text ta = c :: t -> width c = 1 -> chain 1 (blen (text ta)) (ranges ta) -> cursor_pos ta = blen (text ta) ->
  exists ta', replace_range (mkRange 0 1) [] ta = Some ta' /\ text ta' = t /\
    ranges ta' = back_one <$> ranges ta /\ cursor_pos ta' = blen t /\ modes ta' = modes ta.
Proof.
  intros Htext Hw Hc%chain_bounds%on_ranges Hcur. simpl in Hc. unfold replace_range.
  rewrite expand_clear by (eapply Forall_impl; [exact Hc|]; unfold clear_of; simpl; lia).
  cbn [mbind option_bind]. unfold replace_range_raw. cbn [start end_].
  assert (blen (text ta) = 1 + blen t) as Hl by (rewrite Htext; simpl; lia).
  rewrite Hl, (proj2 (Nat.leb_le _ _)), !Nat.min_l by lia. cbn [negb Nat.sub Nat.eqb andb].
  pose proof (replace_range_app [] [c] [] t) as Hr. simpl in Hr. rewrite Hw in Hr. simpl in Hr.
  rewrite Htext, Hr. cbn [mbind option_bind]. eexists. split; [done|].
  assert (range <$> (shift_element 0 1 (blen []) <$> List.filter (fun e => negb (within 0 (0 + 1) e)) (elements ta))
          = back_one <$> ranges ta) as Hel.
  { clear - Hc. unfold ranges. induction Hc as [|e es He _ IH]; [done|]. cbn [List.filter]. unfold within at 1.
    assert ((0 <=? start (range e)) && (end_ (range e) <=? 0 + 1) = false) as ->.
    { apply andb_false_iff. right. apply Nat.leb_gt. lia. }
    cbn [negb]. rewrite !fmap_cons, IH. f_equal. unfold shift_element.
    rewrite (proj2 (Nat.leb_gt _ _)), (proj2 (Nat.leb_le _ _)) by lia. unfold back_one. simpl. f_equal; lia. }
  set (cur := if cursor_pos _ <? 0 then _ else _).
  assert (cur = blen t) as Hcur'.
  { subst cur. simpl. destruct (Nat.leb_spec (cursor_pos ta) 1); lia. }
  rewrite Hcur'. simpl. split_and!; [done|exact Hel| |done]. rewrite Nat.min_id.
  apply clamp_here; simpl; [apply boundary_blen|].
  assert (Forall (fun r => end_ r <= blen t \/ blen t <= start r)
            (range <$> (shift_element 0 1 (blen []) <$> List.filter (fun e => negb (within 0 (0 + 1) e)) (elements ta)))) as Hall.
  { rewrite Hel. unfold ranges. apply Forall_fmap, Forall_fmap. eapply Forall_impl; [exact Hc|]. simpl. lia. }
  by apply Forall_fmap in Hall.
Qed.

(** ** Setting the text *)

Lemma push_ranges rs ta lo hi :
  hi <= blen (text ta) -> Forall (fun r => boundary (start r) (text ta) /\ boundary (end_ r) (text ta)) rs -> chain lo hi rs ->
  let ta' := foldl push_element ta rs in
  text ta' = text ta /\ ranges ta' = ranges ta ++ rs /\ cursor_pos ta' = cursor_pos ta /\ modes ta' = modes ta.
Proof.
  cbn zeta. revert ta lo. induction rs as [|r rs IH]; intros ta lo Hle Hb Hc; cbn [foldl].
  { by rewrite app_nil_r. }
  apply Forall_cons in Hb as [[Hs He] Hb]. destruct Hc as [Hlt Hc].
  assert (text (push_element ta r) = text ta /\ ranges (push_element ta r) = ranges ta ++ [r] /\
          cursor_pos (push_element ta r) = cursor_pos ta /\ modes (push_element ta r) = modes ta) as (H1 & H2 & H3 & H4).
  { unfold push_element, clamp_range. rewrite !Nat.min_l by by apply boundary_le. rewrite !clamp_char_id by done. simpl.
    rewrite (proj2 (Nat.leb_gt _ _)) by lia. split_and!; try done. unfold ranges. simpl. rewrite fmap_app. by destruct r. }
  destruct (IH (push_element ta r) (end_ r)) as (H1' & H2' & H3' & H4'); rewrite ?H1; [done..|].
  rewrite H1', H2', H3', H4', H1, H2, H3, H4, <- app_assoc. done.
Qed.
Lemma chain_boundaries n ps :
  Forall (fun p => match p with ComposerText.Elem s => s <> [] | _ => True end) ps ->
  chain n (n + blen (ComposerText.render ps)) (ComposerText.byte_range <$> ComposerText.elements_from n ps).
Proof.
  intros Hps. revert n. induction Hps as [|[s|s] ps Hp _ IH]; intros n; simpl; [lia| |].
  - rewrite blen_app, Nat.add_assoc. specialize (IH (n + blen s)).
    destruct (ComposerText.byte_range <$> ComposerText.elements_from (n + blen s) ps) as [|r rs]; simpl in *; [lia|].
    destruct IH as [IH1 IH2]. split; [lia|done].
  - rewrite blen_app, Nat.add_assoc. split; [|apply IH]. simpl.
    destruct s as [|c s]; [done|]. simpl. pose proof (width_pos c). lia.
Qed.
Lemma element_boundaries pre ps :
  Forall (fun r => boundary (start r) (pre ++ ComposerText.render ps) /\ boundary (end_ r) (pre ++ ComposerText.render ps))
    (ComposerText.byte_range <$> ComposerText.elements_from (blen pre) ps).
Proof.
  revert pre. induction ps as [|[s|s] ps IH]; intros pre; simpl; [constructor| |].
  - rewrite app_assoc, <- blen_app. apply IH.
  - constructor; [simpl; split|].
    + apply boundary_at.
    + rewrite <- blen_app, app_assoc. apply boundary_at.
    + rewrite app_assoc, <- blen_app. apply IH.
Qed.
Lemma set_text_layout ps ta :
  Forall (fun p => match p with ComposerText.Elem s => s <> [] | _ => True end) ps ->
  let ta' := ComposerText.set_text_with_elements (ComposerText.render ps) (ComposerText.elements_from 0 ps) ta in
  text ta' = ComposerText.render ps /\ ranges ta' = ComposerText.byte_range <$> ComposerText.elements_from 0 ps /\
  modes ta' = modes ta.
Proof.
  intros Hps. cbn zeta. unfold ComposerText.set_text_with_elements, set_text_with_elements, set_text_inner.
  fold push_element. set (rs := ComposerText.byte_range <$> ComposerText.elements_from 0 ps).
  set (ta0 := put_elements [] (put_cursor _ (put_text _ ta))).
  assert (chain 0 (blen (ComposerText.render ps)) rs) as Hc by by apply (chain_boundaries 0 ps).
  destruct (push_ranges rs ta0 0 (blen (ComposerText.render ps))) as (H1 & H2 & H3 & H4); [done|apply (element_boundaries [] ps)|done|].
  simpl in H2. simpl. rewrite H1. split_and!; [done| |exact H4].
  unfold ranges. simpl. rewrite (sort_chain 0 (blen (ComposerText.render ps))) by by unfold ranges in H2; rewrite H2. exact H2.
Qed.

(** The elements of a text area are those of the pieces of its text. *)
Lemma slices_from pre ps post :
  (fun r => ComposerText.mkTextElement r (slice (start r) (end_ r) (pre ++ ComposerText.render ps ++ post)))
    <$> (ComposerText.byte_range <$> ComposerText.elements_from (blen pre) ps) = ComposerText.elements_from (blen pre) ps.
Proof.
  revert pre. induction ps as [|[s|s] ps IH]; intros pre; simpl; [done| |].
  - rewrite <- blen_app. specialize (IH (pre ++ s)). by rewrite <- !app_assoc in *.
  - rewrite <- app_assoc, slice_between, <- blen_app. f_equal. specialize (IH (pre ++ s)). by rewrite <- !app_assoc in IH.
Qed.
Lemma text_elements_layout ps ta :
  text ta = ComposerText.render ps -> ranges ta = ComposerText.byte_range <$> ComposerText.elements_from 0 ps ->
  ComposerText.text_elements ta = ComposerText.elements_from 0 ps.
Proof.
  intros Ht Hr. pose proof (slices_from [] ps []) as Hs. simpl in Hs. rewrite app_nil_r in Hs.
  rewrite <- Hr, <- Ht in Hs. rewrite <- Hs. unfold ComposerText.text_elements, text_elements, ranges.
  rewrite <- !list_fmap_compose. done.
Qed.

End layout.
End Layout.

Module Typing.
Import ByteText Unicode Edits Layout Burst ComposerText Slash Mentions History Composer ComposerInput.

(** ** Texts with pastes *)

(** A paste with the text before it and its placeholder. *)
Record Segment := mkSegment { before : str; label : str; pasted : str }.
Definition segment_pieces (g : Segment) : list Piece := [Plain (before g); Elem (label g)].
Definition pieces (segs : list Segment) (tail : str) : list Piece := flat_map segment_pieces segs ++ [Plain tail].
Definition full (segs : list Segment) (tail : str) : str := flat_map (fun g => before g ++ pasted g) segs ++ tail.
Definition pastes (segs : list Segment) : list (str * str) := (fun g => (label g, pasted g)) <$> segs.
Definition bang (b : bool) : str := if b then [ch "!"] else [].
Definition bang_piece (b : bool) : list Piece := if b then [Plain [ch "!"]] else [].
Definition labels_ok (segs : list Segment) : Prop := Forall (fun g => exists l, label g = ch "[" :: l) segs.

Lemma render_pieces segs tail : render (pieces segs tail) = render (flat_map segment_pieces segs) ++ tail.
Proof. unfold pieces. rewrite render_cat. simpl. by rewrite app_nil_r. Qed.
Lemma render_bang b ps : render (bang_piece b ++ ps) = bang b ++ render ps.
Proof. by destruct b. Qed.
Lemma pieces_elements n segs tail : elements_from n (pieces segs tail) = elements_from n (flat_map segment_pieces segs).
Proof. unfold pieces. rewrite elements_from_app. simpl. by rewrite app_nil_r. Qed.
Lemma expand_all segs tail : expand_pieces (pastes segs) (pieces segs tail) = flat_map (fun g => [Plain (before g); Plain (pasted g)]) segs ++ [Plain tail].
Proof.
  induction segs as [|g segs IH]; [done|].
  change (pieces (g :: segs) tail) with (Plain (before g) :: Elem (label g) :: pieces segs tail).
  change (pastes (g :: segs)) with ((label g, pasted g) :: pastes segs).
  cbn [expand_pieces take_paste]. rewrite bool_decide_true by done. by rewrite IH.
Qed.
Lemma render_full segs tail : render (flat_map (fun g => [Plain (before g); Plain (pasted g)]) segs ++ [Plain tail]) = full segs tail.
Proof.
  unfold full. rewrite render_cat. simpl. rewrite app_nil_r. f_equal.
  induction segs as [|g segs IH]; simpl; [done|]. rewrite IH. by rewrite app_assoc.
Qed.
Lemma no_elements n segs tail : elements_from n (flat_map (fun g => [Plain (before g); Plain (pasted g)]) segs ++ [Plain tail]) = [].
Proof. revert n. induction segs as [|g segs IH]; intros n; simpl; [done|apply IH]. Qed.
(** Expanding the placeholders gives the text that was typed and pasted. *)
Lemma expand_says b segs tail :
  expand_pending_pastes (bang b ++ render (pieces segs tail)) (elements_from (length (bang b)) (pieces segs tail)) (pastes segs)
  = Some (bang b ++ full segs tail, []).
Proof.
  pose proof (expand_pending_spec (bang_piece b ++ pieces segs tail) (pastes segs)) as H.
  rewrite render_bang in H.
  assert (elements_from 0 (bang_piece b ++ pieces segs tail) = elements_from (length (bang b)) (pieces segs tail)) as He by by destruct b.
  rewrite He in H. rewrite H.
  assert (expand_pieces (pastes segs) (bang_piece b ++ pieces segs tail) = bang_piece b ++ expand_pieces (pastes segs) (pieces segs tail)) as Hx by by destruct b.
  rewrite Hx, expand_all, render_bang, render_full. f_equal. f_equal.
  destruct b; simpl; apply no_elements.
Qed.
Lemma full_tail segs a b : full segs (a ++ b) = full segs a ++ b.
Proof. unfold full. by rewrite app_assoc. Qed.
Lemma full_snoc segs tail l p : full (segs ++ [mkSegment tail l p]) [] = full segs tail ++ p.
Proof. unfold full. rewrite flat_map_app. simpl. by rewrite !app_nil_r, <- !app_assoc. Qed.
Lemma pieces_snoc segs tail l p : render (pieces (segs ++ [mkSegment tail l p]) []) = render (pieces segs tail) ++ l.
Proof.
  rewrite !render_pieces, flat_map_app. simpl. rewrite render_cat. simpl. by rewrite !app_nil_r, <- app_assoc.
Qed.
Lemma elements_snoc segs tail l p :
  elements_from 0 (pieces (segs ++ [mkSegment tail l p]) []) = elements_from 0 (pieces segs tail)
  ++ [mkTextElement (TextArea.mkRange (blen (render (pieces segs tail))) (blen (render (pieces segs tail)) + blen l)) (Some l)].
Proof.
  rewrite !pieces_elements, flat_map_app, elements_from_app, render_pieces, blen_app. simpl. done.
Qed.
Lemma labels_nonempty segs tail : labels_ok segs -> Forall (fun p => match p with Elem s => s <> [] | _ => True end) (pieces segs tail).
Proof.
  intros Hl. unfold pieces. apply Forall_app. split; [|by repeat constructor].
  induction Hl as [|g segs [l Hg] _ IH]; simpl; [constructor|]. repeat constructor; [|done]. by rewrite Hg.
Qed.
Lemma pieces_chain segs tail :
  labels_ok segs -> chain 0 (blen (render (flat_map segment_pieces segs))) (byte_range <$> elements_from 0 (pieces segs tail)).
Proof.
  intros Hl. rewrite pieces_elements. apply (chain_boundaries 0). apply (labels_nonempty _ []) in Hl.
  unfold pieces in Hl. by apply Forall_app in Hl as [Hl _].
Qed.
(** What the text begins with, the typed text begins with. *)
Lemma pieces_head segs tail c t :
  labels_ok segs -> c <> ch "[" -> render (pieces segs tail) = c :: t -> exists u, full segs tail = c :: u.
Proof.
  intros Hl Hc. destruct Hl as [|g segs [l Hg] _]; simpl.
  { rewrite app_nil_r. intros ->. by eexists. }
  rewrite Hg. unfold full. simpl. destruct (before g) as [|d b]; simpl.
  - intros [= Hd _]. congruence.
  - intros [= -> _]. by eexists.
Qed.
Lemma pieces_nil segs tail : labels_ok segs -> render (pieces segs tail) = [] -> segs = [] /\ tail = [].
Proof.
  intros Hl. rewrite render_pieces. intros [Hr ->]%app_eq_nil. split; [|done].
  destruct Hl as [|g segs [l Hg] _]; [done|]. simpl in Hr. rewrite Hg in Hr. by destruct (before g).
Qed.

(** Shifting elements by the exclamation mark of the shell mode. *)
Definition solid (p : Piece) : Prop := match p with Elem s => s <> [] | Plain _ => True end.
Lemma shift_up n ps : Forall solid ps -> omap (fun e => shift_text_element e 1) (elements_from n ps) = elements_from (S n) ps.
Proof.
  intros Hps. revert n. induction Hps as [|[s|s] ps Hp _ IH]; intros n; simpl; [done|apply IH|].
  unfold shift_text_element at 1. cbn [byte_range TextArea.start TextArea.end_].
  assert (0 < blen s). { destruct s as [|c s]; [done|]. simpl. pose proof (width_pos c). lia. }
  rewrite !(proj2 (Z.ltb_ge _ _)), (proj2 (Z.leb_gt _ _)) by lia. simpl. rewrite IH. unfold map_range. simpl. do 3 f_equal; lia.
Qed.
Lemma omap_first {A B} (f : A -> option B) x l : omap f (x :: l) = match f x with Some y => y :: omap f l | None => omap f l end.
Proof. done. Qed.
Lemma shift_down n ps : Forall solid ps -> omap (fun e => shift_text_element e (-1)) (elements_from (S n) ps) = elements_from n ps.
Proof.
  intros Hps. revert n. induction Hps as [|[s|s] ps Hp _ IH]; intros n; [done|apply (IH (n + blen s))|].
  cbn [elements_from]. rewrite omap_first.
  assert (0 < blen s). { destruct s as [|c s]; [done|]. simpl. pose proof (width_pos c). lia. }
  assert (shift_text_element (mkTextElement (TextArea.mkRange (S n) (S n + blen s)) (Some s)) (-1)
          = Some (mkTextElement (TextArea.mkRange n (n + blen s)) (Some s))) as ->.
  { unfold shift_text_element. cbn [byte_range TextArea.start TextArea.end_].
    rewrite !(proj2 (Z.ltb_ge _ _)), (proj2 (Z.leb_gt _ _)) by lia. unfold map_range. cbn [stored_placeholder]. do 3 f_equal; lia. }
  f_equal. apply (IH (n + blen s)).
Qed.
Lemma back_one_from n ps : back_one <$> (byte_range <$> elements_from (S n) ps) = byte_range <$> elements_from n ps.
Proof.
  revert n. induction ps as [|[s|s] ps IH]; intros n; cbn [elements_from]; [done|apply (IH (n + blen s))|].
  rewrite !fmap_cons. specialize (IH (n + blen s)). f_equal; [unfold back_one; simpl; f_equal; lia|exact IH].
Qed.

(** ** Keys that type *)

(** Bindings that no plain character matches. *)
Definition never_plain (b : Keys.KeyBinding) : bool :=
  match Keys.normalize_key_parts (Keys.key b) (Keys.binding_modifiers b) with (Keys.Char _, m) => (1 <? m)%N | _ => true end.
Lemma never_pressed bs event c m :
  forallb never_plain bs = true -> Keys.normalize_key_parts (Keys.code event) (Keys.modifiers event) = (Keys.Char c, m) -> (m <= 1)%N ->
  Keys.is_pressed bs event = false.
Proof.
  intros Hbs He Hm. unfold Keys.is_pressed. induction bs as [|b bs IH]; simpl in *; [done|].
  apply andb_true_iff in Hbs as [Hb Hbs]. rewrite IH by done. rewrite orb_false_r. unfold Keys.is_press. rewrite He.
  unfold never_plain in Hb. case_bool_decide as Heq; [|done]. rewrite Heq in Hb. by apply N.ltb_lt in Hb; lia.
Qed.
Definition printable (c : char) : Prop := (32 <= c)%N /\ c <> 127%N.
(** The key of a character, with or without Shift. *)
Definition typing_key (c : char) (shifted : bool) (k : Keys.KeyEventKind) : Keys.KeyEvent :=
  Keys.mkKeyEvent (Keys.Char c) (if shifted then Keys.SHIFT else 0%N) k.
Lemma typing_parts c shifted k :
  printable c -> exists d m, Keys.normalize_key_parts (Keys.code (typing_key c shifted k)) (Keys.modifiers (typing_key c shifted k)) = (Keys.Char d, m) /\ (m <= 1)%N.
Proof.
  intros [H1 H2]. simpl.
  assert (Keys.c0_control_char_to_ctrl_char c = None) as Hc0.
  { unfold Keys.c0_control_char_to_ctrl_char, Keys.between.
    rewrite (proj2 (N.eqb_neq _ _)), !(proj2 (N.leb_gt c _)), !andb_false_r by lia. done. }
  destruct shifted; simpl; rewrite ?Hc0; destruct (Keys.between 65 c 90); by eexists _, _.
Qed.

Section typing.
Context {U : Unicode}.
Lemma typing_inserts c shifted k ta :
  printable c -> k <> Keys.Release -> TextArea.vim_enabled ta = false -> Keys.editor (TextArea.keymap ta) = Keys.default_editor ->
  TextArea.input (typing_key c shifted k) ta = TextArea.insert_str [c] ta.
Proof.
  intros Hc Hk Hvim Hmap. destruct (typing_parts c shifted k Hc) as (d & m & Hp & Hm).
  assert (Keys.is_ascii_control c = false) as Hctl.
  { destruct Hc. unfold Keys.is_ascii_control. rewrite (proj2 (N.ltb_ge _ _)), (proj2 (N.eqb_neq _ _)) by lia. done. }
  unfold TextArea.input. rewrite Hvim, Hmap.
  assert (Keys.pressed_kind (Keys.kind (typing_key c shifted k)) = true) as -> by by destruct k.
  cbn [negb]. unfold TextArea.input_with_keymap.
  repeat match goal with
  | |- context [Keys.is_pressed ?bs _] => rewrite (never_pressed bs _ d m) by (try exact Hp; try exact Hm; vm_compute; reflexivity)
  end.
  simpl. rewrite Hctl. by destruct shifted.
Qed.
End typing.

(** ** A draft that is typed *)

(** What typing does not change. *)
Record Settings := mkSettings { set_config : ChatComposerConfig; set_keys : ComposerKeys }.

Section draft.
Context {U : Unicode} {D : Desktop} {P : Type} {W : PopupWidgets P}.
Implicit Types c : ChatComposer P.
Variable cfg : Settings.
Hypothesis no_images : image_paste_enabled (set_config cfg) = true -> forall p, is_image p = false.

(** Neither a carriage return nor a command. *)
Definition ordinary (s : str) : Prop :=
  carriage_return ∉ s /\ (slash_commands_enabled (set_config cfg) = true -> forall t, Str.trim_start s <> ch "/" :: t).
Lemma ordinary_prefix a b : ordinary (a ++ b) -> ordinary a.
Proof.
  intros [H1 H2]. split; [set_solver|]. intros Hs t Ht. apply (H2 Hs (t ++ b)).
  by rewrite Str.trim_start_app, Ht by by rewrite Ht.
Qed.

Record written (c : ChatComposer P) (segs : list Segment) (tail : str) : Prop := {
  w_text : TextArea.text (textarea (draft c)) = render (pieces segs tail);
  w_ranges : ranges (textarea (draft c)) = byte_range <$> elements_from 0 (pieces segs tail);
  w_labels : labels_ok segs;
  w_vim : TextArea.vim_enabled (textarea (draft c)) = false;
  w_keymap : Keys.editor (TextArea.keymap (textarea (draft c))) = Keys.default_editor;
  w_attached : local_images (attachments c) = [] /\ remote_images (attachments c) = [];
  w_mentions : draft_mentions (draft c) = ∅;
  w_config : config c = set_config cfg;
  w_keys : keys c = set_keys cfg /\ queue_submissions c = false;
}.
Definition at_end (c : ChatComposer P) : Prop :=
  TextArea.cursor_pos (textarea (draft c)) = blen (TextArea.text (textarea (draft c))).
Definition says (c : ChatComposer P) (segs : list Segment) (tail : str) : str := bang (in_bash_mode (draft c)) ++ full segs tail.
(** The shell mode has taken an exclamation mark at the start. *)
Definition no_bang (c : ChatComposer P) : Prop :=
  in_bash_mode (draft c) = false -> forall t, TextArea.text (textarea (draft c)) <> ch "!" :: t.
(** The text, whose last [n] characters are outside of placeholders. *)
Definition text_is (c : ChatComposer P) (s : str) (n : nat) : Prop :=
  exists segs tail, written c segs tail /\ draft_pastes (draft c) = pastes segs /\ at_end c /\ no_bang c /\
  s = says c segs tail /\ (segs = [] \/ n <= length tail).
Definition same_burst (c c' : ChatComposer P) : Prop :=
  paste_burst (draft c') = paste_burst (draft c) /\ disable_paste_burst (draft c') = disable_paste_burst (draft c).

Lemma w_chain c segs tail : written c segs tail -> chain 0 (blen (render (flat_map segment_pieces segs))) (ranges (textarea (draft c))).
Proof. intros Hw. rewrite (w_ranges _ _ _ Hw). apply pieces_chain. by apply (w_labels _ _ _ Hw). Qed.
Lemma w_chain_end c segs tail : written c segs tail -> chain 0 (blen (TextArea.text (textarea (draft c)))) (ranges (textarea (draft c))).
Proof. intros Hw. eapply chain_weaken; [by eapply w_chain|]. rewrite (w_text _ _ _ Hw), render_pieces, blen_app. lia. Qed.
Lemma w_elements c segs tail : written c segs tail -> text_elements (textarea (draft c)) = elements_from 0 (pieces segs tail).
Proof. intros Hw. apply text_elements_layout; [apply Hw|apply Hw]. Qed.
(** An ordinary text does not start as a command. *)
Lemma no_command c segs tail more :
  written c segs tail -> ordinary (says c segs tail ++ more) -> slash_commands_enabled (set_config cfg) = true -> in_bash_mode (draft c) = false ->
  forall t, TextArea.text (textarea (draft c)) <> ch "/" :: t.
Proof.
  intros Hw Ho Hs Hb t Ht. rewrite (w_text _ _ _ Hw) in Ht.
  apply pieces_head in Ht as [u Hu]; [|by apply (w_labels _ _ _ Hw)|done].
  destruct Ho as [_ Ho]. unfold says in Ho. rewrite Hb, Hu in Ho. simpl in Ho. by eapply Ho.
Qed.
Lemma command_range_none c line cursor :
  (slash_commands_enabled (set_config cfg) = true -> in_bash_mode (draft c) = false -> forall t, TextArea.text (textarea (draft c)) <> ch "/" :: t) ->
  config c = set_config cfg -> slash_commands_enabled (set_config cfg) = true -> (exists rest, TextArea.text (textarea (draft c)) = line ++ rest) ->
  command_element_range (slash_input c) line cursor = None.
Proof.
  intros Hno Hcfg Hs [rest Hl]. unfold command_element_range, slash_input. simpl.
  destruct (in_bash_mode (draft c)); [done|]. destruct line as [|d line]; [done|].
  rewrite parse_no_slash; [done|]. intros ->. by eapply Hno.
Qed.
Lemma stale_none text segs tail : labels_ok segs -> stale_ranges text None (elements_from 0 (pieces segs tail)) = [].
Proof.
  rewrite pieces_elements. generalize 0. intros n Hl. revert n.
  induction Hl as [|g segs [l Hg] _ IH]; intros n; [done|]. cbn [flat_map segment_pieces app elements_from].
  unfold stale_ranges. rewrite omap_first. cbn [placeholder stored_placeholder mbind option_bind]. rewrite Hg.
  assert (Str.strip_prefix $"/" (ch "[" :: l) = None) as -> by done. cbn [mbind option_bind]. apply IH.
Qed.
Lemma first_line_slice t :
  exists line rest, slice_to (default (blen t) (find_char TextArea.is_newline t)) t = Some line /\ t = line ++ rest.
Proof.
  destruct (find_char TextArea.is_newline t) as [i|] eqn:Hf; simpl.
  - apply find_char_Some in Hf as (a & d & b & -> & -> & _). exists a, (d :: b). by rewrite slice_to_app.
  - exists t, []. pose proof (slice_to_app t []) as H. by rewrite app_nil_r in *.
Qed.
Lemma sync_popups_ok c segs tail more :
  written c segs tail -> ordinary (says c segs tail ++ more) ->
  exists c', sync_popups c = Some c' /\ draft c' = draft c /\ written c' segs tail.
Proof.
  intros Hw Ho. pose proof (no_command _ _ _ _ Hw Ho) as Hno.
  assert (exists c1, sync_slash_command_elements c = Some c1 /\ draft c1 = draft c /\ attachments c1 = attachments c /\ config c1 = config c /\
    keys c1 = keys c /\ queue_submissions c1 = queue_submissions c) as (c1 & Hs & Hd & Ha & Hc & Hk & Hq).
  { unfold sync_slash_command_elements. destruct (slash_commands_enabled (config c)) eqn:Hse; cbn [negb]; [|by eexists].
    destruct (first_line_slice (TextArea.text (textarea (draft c)))) as (line & rest & -> & Hl). cbn [mbind option_bind].
    rewrite (w_config _ _ _ Hw) in Hse.
    rewrite command_range_none; [|done|by apply Hw|done|by eexists]. rewrite (w_elements _ _ _ Hw), stale_none by by apply (w_labels _ _ _ Hw).
    eexists. split; [done|]. simpl. split_and!; [|done..]. by destruct (draft c). }
  unfold sync_popups. rewrite Hs. cbn [mbind option_bind]. eexists. split; [done|]. simpl. split; [done|].
  destruct Hw. constructor; simpl; rewrite ?Hd, ?Ha, ?Hc, ?Hk, ?Hq; try done.
Qed.

(** *** Inserting at the end *)

Lemma insert_ok t c segs tail :
  written c segs tail -> at_end c ->
  exists c', insert_in_textarea t c = Some c' /\ written c' segs (tail ++ t) /\ at_end c' /\
    says c' segs (tail ++ t) = says c segs tail ++ t /\ same_burst c c' /\ in_bash_mode (draft c') = in_bash_mode (draft c) /\
    exists ta', TextArea.insert_str t (textarea (draft c)) = Some ta' /\ c' = put_textarea ta' c.
Proof.
  intros Hw He. destruct (insert_end t (textarea (draft c)) (w_chain_end _ _ _ Hw) He) as (ta' & Hi & Ht & Hel & Hcur & Hm).
  unfold insert_in_textarea. rewrite Hi. cbn [mbind option_bind]. eexists. split; [done|].
  injection Hm as Hv _ _ Hk. destruct Hw. split_and!; [|done| |done|done|by eexists].
  - constructor; simpl; try done.
    + rewrite Ht, w_text0, !render_pieces. by rewrite app_assoc.
    + unfold ranges. rewrite Hel. fold (ranges (textarea (draft c))). by rewrite w_ranges0, !pieces_elements.
    + by rewrite Hv.
    + by rewrite Hk.
  - unfold says. simpl. by rewrite full_tail, app_assoc.
Qed.
(** The exclamation mark at the start becomes the shell mode. *)
Lemma sync_bash_ok c segs tail n :
  written c segs tail -> draft_pastes (draft c) = pastes segs -> at_end c -> segs = [] \/ n <= length tail -> (no_bang c \/ segs = []) ->
  exists c', sync_bash_mode_from_text c = Some c' /\ text_is c' (says c segs tail) n /\ same_burst c c' /\
    draft_pastes (draft c') = draft_pastes (draft c).
Proof.
  intros Hw Hp He Hn Hb. unfold sync_bash_mode_from_text.
  destruct (negb (in_bash_mode (draft c)) && Str.starts_with $"!" (TextArea.text (textarea (draft c)))) eqn:Hcond.
  - apply andb_true_iff in Hcond as [Hbash Hst]. apply negb_true_iff in Hbash.
    apply Str.starts_with_spec in Hst as [t Ht]. change ($"!" ++ t) with (ch "!" :: t) in Ht.
    destruct Hb as [Hb| ->]; [exfalso; by eapply Hb|].
    assert (tail = ch "!" :: t) as ->. { rewrite (w_text _ _ _ Hw) in Ht. simpl in Ht. by rewrite app_nil_r in Ht. }
    destruct (remove_first (ch "!") t (textarea (draft c))) as (ta' & Hr & Htx & Hra & Hcur & Hm); [done|done| |done|].
    { rewrite (w_ranges _ _ _ Hw). simpl. rewrite Ht. simpl. lia. }
    rewrite Hr. cbn [mbind option_bind]. eexists. split; [done|].
    injection Hm as Hv _ _ Hk. rewrite (w_ranges _ _ _ Hw) in Hra. simpl in Hra. destruct Hw.
    split_and!; [|done|done]. exists [], t. split_and!; [|done| | |by unfold says; simpl; rewrite Hbash|by left].
    + constructor; simpl; try done; [by rewrite app_nil_r|by rewrite Hv|by rewrite Hk].
    + unfold at_end. simpl. by rewrite Htx.
    + by intros ?.
  - eexists. split; [done|]. split_and!; [|done|done]. exists segs, tail. split_and!; [done|done|done| |done|done].
    intros Hbash t Ht. rewrite Hbash in Hcond. simpl in Hcond. apply Str.starts_with_false in Hcond. apply Hcond.
    rewrite Ht. by exists t.
Qed.
Lemma text_segs_nil c segs tail t :
  written c segs tail -> no_bang c -> forall c', written c' segs (tail ++ t) -> in_bash_mode (draft c') = in_bash_mode (draft c) ->
  no_bang c' \/ segs = [].
Proof.
  intros Hw Hb c' Hw' Hbash. destruct (decide (segs = [])) as [|Hne]; [by right|]. left.
  intros Hbf u Hu. rewrite Hbash in Hbf. specialize (Hb Hbf). rewrite (w_text _ _ _ Hw'), render_pieces in Hu.
  destruct (render (flat_map segment_pieces segs)) as [|d r] eqn:Hr.
  - destruct (pieces_nil segs []) as [? _]; [apply (w_labels _ _ _ Hw)| |done]. by rewrite render_pieces, Hr.
  - apply (Hb (r ++ tail)). rewrite (w_text _ _ _ Hw), render_pieces, Hr. simpl in Hu. injection Hu as -> _. done.
Qed.
Lemma room_more (segs : list Segment) (tail t : str) n : segs = [] \/ n <= length tail -> segs = [] \/ n + length t <= length (tail ++ t).
Proof. rewrite length_app. intros [?|?]; [by left|right; lia]. Qed.
(** Text is typed: inserted, with the mark of the shell mode taken out. *)
Lemma type_ok t c s n :
  text_is c s n ->
  exists c1 c2, insert_in_textarea t c = Some c1 /\ sync_bash_mode_from_text c1 = Some c2 /\
    text_is c2 (s ++ t) (n + length t) /\ same_burst c c2 /\ draft_pastes (draft c2) = draft_pastes (draft c).
Proof.
  intros (segs & tail & Hw & Hp & He & Hb & -> & Hn).
  destruct (insert_ok t _ _ _ Hw He) as (c1 & H1 & Hw1 & He1 & Hs1 & Hsb1 & Hbash & ta' & Hta & ->).
  destruct (sync_bash_ok _ segs (tail ++ t) (n + length t) Hw1 Hp He1) as (c2 & H2 & Ht2 & Hsb2 & Hp2).
  { by apply room_more. } { eapply text_segs_nil; [exact Hw|exact Hb|exact Hw1|exact Hbash]. }
  exists (put_textarea ta' c), c2. rewrite <- Hs1. split_and!; [done|done|done|..].
  - destruct Hsb1 as [E1 E2], Hsb2 as [E3 E4]. by split; congruence.
  - by rewrite Hp2.
Qed.
(** Text that does not start with an exclamation mark needs no synchronisation. *)
Lemma insert_plain_ok c d s n :
  text_is c s n -> d <> ch "!" ->
  exists c', insert_in_textarea [d] c = Some c' /\ text_is c' (s ++ [d]) (n + 1) /\ same_burst c c' /\
    draft_pastes (draft c') = draft_pastes (draft c).
Proof.
  intros (segs & tail & Hw & Hp & He & Hb & -> & Hn) Hd.
  destruct (insert_ok [d] _ _ _ Hw He) as (c1 & H1 & Hw1 & He1 & Hs1 & Hsb1 & Hbash & ta' & Hta & ->).
  exists (put_textarea ta' c). split_and!; [done| |done|done].
  exists segs, (tail ++ [d]). split_and!; [done|done|done| |done|by apply (room_more _ _ [d])].
  intros Hbf u Hu. rewrite Hbash in Hbf. specialize (Hb Hbf).
  destruct (insert_end [d] (textarea (draft c)) (w_chain_end _ _ _ Hw) He) as (ta2 & Hi2 & Ht2 & _).
  assert (ta2 = ta') as -> by congruence. simpl in Hu. rewrite Ht2 in Hu.
  destruct (TextArea.text (textarea (draft c))) as [|e t] eqn:Htx; simpl in Hu; injection Hu as -> _; [done|]. by eapply Hb.
Qed.
Lemma insert_str_ok t c s n :
  text_is c s n -> ordinary (s ++ t) ->
  exists c', insert_str t c = Some c' /\ text_is c' (s ++ t) (n + length t) /\ same_burst c c'.
Proof.
  intros Ht Ho. destruct (type_ok t c s n Ht) as (c1 & c2 & H1 & H2 & (segs & tail & Hw & Hp & He & Hb & Hs & Hn) & Hsb & _).
  unfold insert_str. rewrite H1. cbn [mbind option_bind]. rewrite H2. cbn [mbind option_bind].
  rewrite Hs in Ho. destruct (sync_popups_ok c2 segs tail []) as (c3 & H3 & Hd & Hw3); [done|by rewrite app_nil_r|].
  exists c3. split_and!; [done| |].
  - exists segs, tail. split_and!; [done|by rewrite Hd|by unfold at_end; rewrite Hd|by unfold no_bang; rewrite Hd| |done].
    rewrite Hs. unfold says. by rewrite Hd.
  - unfold same_burst. by rewrite Hd.
Qed.
End draft.

End Typing.
