(* ===== verification/ComposerBursts.v ===== *)
(** Bursts in the composer: pastes, flushes, retroactive grabs and the keys of characters
    keep what has been typed, in its order. *)
From stdpp Require Import gmap.
From S2P Require Import Prelude ByteText TextKeys TextArea TextAreaEdits PasteBurst ComposerText SlashCommands MentionCodec ComposerHistory Composer ComposerInput ComposerTyping.

Module Bursts.
Import ByteText Unicode Edits Layout Burst ComposerText Slash Mentions History Composer ComposerInput Typing.

Lemma normalize_id s : carriage_return ∉ s -> normalize_newlines s = s.
Proof.
  intros Hs. unfold normalize_newlines.
  assert (replace_crlf s = s) as ->.
  { induction s as [|c s IH]; [done|]. destruct s as [|d s]; [done|]. cbn [replace_crlf].
    assert (c <> carriage_return) as Hc by set_solver. apply N.eqb_neq in Hc as ->. cbn [andb]. f_equal. apply IH. set_solver. }
  induction s as [|c s IH]; [done|]. cbn [map]. rewrite IH by set_solver.
  assert (c <> carriage_return) as Hc by set_solver. by apply N.eqb_neq in Hc as ->.
Qed.
Lemma next_label ps n : exists l, next_large_paste_placeholder ps n = ch "[" :: l.
Proof. unfold next_large_paste_placeholder, paste_base. destruct (_ =? 0)%N; by eexists. Qed.

Lemma contains_middle x a b : Str.contains x (a ++ x ++ b) = true.
Proof.
  assert (forall t, Str.find x t = if Str.starts_with x t then Some 0 else match t with [] => None | _ :: t => S <$> Str.find x t end) as Hf by by intros [].
  unfold Str.contains. assert (is_Some (Str.find x (a ++ x ++ b))) as [i ->]; [|done].
  induction a as [|d a [i Hi]]; cbn [app]; rewrite Hf.
  - assert (Str.starts_with x (x ++ b) = true) as -> by (apply Str.starts_with_spec; by eexists). by eexists.
  - destruct (Str.starts_with x _); [by eexists|]. rewrite Hi. by eexists.
Qed.
Lemma filter_all {A} (f : A -> bool) l : Forall (fun x => f x = true) l -> List.filter f l = l.
Proof. induction 1 as [|x l Hx _ IH]; [done|]. simpl. by rewrite Hx, IH. Qed.
Lemma labels_inside segs tail : Forall (fun p => Str.contains (fst p) (render (pieces segs tail)) = true) (pastes segs).
Proof.
  apply Forall_forall. intros q (g & -> & Hg)%list_elem_of_fmap. apply list_elem_of_split in Hg as (a & b & ->).
  rewrite render_pieces, flat_map_app, render_cat. simpl. rewrite <- !app_assoc.
  rewrite (app_assoc (render (flat_map segment_pieces a)) (before g)). apply contains_middle.
Qed.
Lemma pieces_payloads n segs tail : omap stored_placeholder (elements_from n (pieces segs tail)) = fst <$> pastes segs.
Proof.
  unfold pastes. rewrite <- list_fmap_compose, pieces_elements. revert n.
  induction segs as [|g segs IH]; intros n; [done|]. cbn [flat_map segment_pieces app elements_from]. rewrite omap_first. simpl.
  f_equal. apply IH.
Qed.

Section bursts.
Context {U : Unicode} {D : Desktop} {P : Type} {W : PopupWidgets P}.
Implicit Types c : ChatComposer P.
Variable cfg : Settings.
Hypothesis no_images : image_paste_enabled (set_config cfg) = true -> forall p, is_image p = false.
Abbreviation written := (written cfg).
Abbreviation text_is := (text_is cfg).
Abbreviation ordinary := (ordinary cfg).

(** ** Pastes *)

Lemma text_weaken c s n m : text_is c s n -> m <= n -> text_is c s m.
Proof. intros (segs & tail & H1 & H2 & H3 & H4 & H5 & H6) Hle. exists segs, tail. split_and!; [done..|]. destruct H6; [by left|right; lia]. Qed.
Lemma written_draft c c' segs tail :
  written c segs tail -> textarea (draft c') = textarea (draft c) -> attachments c' = attachments c ->
  draft_mentions (draft c') = draft_mentions (draft c) -> config c' = config c ->
  keys c' = keys c -> queue_submissions c' = queue_submissions c -> written c' segs tail.
Proof. intros [] H1 H2 H3 H4 H5 H6. constructor; rewrite ?H1, ?H2, ?H3, ?H4, ?H5, ?H6; done. Qed.
Lemma text_is_burst c s n b : text_is c s n -> text_is (put_burst b c) s n.
Proof. intros (segs & tail & H1 & H2 & H3 & H4 & H5 & H6). exists segs, tail. split_and!; [by apply (written_draft c)|done..]. Qed.
Lemma text_is_footer c s n m : text_is c s n -> text_is (put_footer m c) s n.
Proof. intros (segs & tail & H1 & H2 & H3 & H4 & H5 & H6). exists segs, tail. split_and!; [by apply (written_draft c)|done..]. Qed.
Lemma sync_text_ok c s n :
  text_is c s n -> ordinary s -> exists c', sync_popups c = Some c' /\ draft c' = draft c /\ text_is c' s n.
Proof.
  intros (segs & tail & Hw & Hp & He & Hb & Hs & Hn) Ho. rewrite Hs in Ho.
  destruct (sync_popups_ok cfg c segs tail [] Hw) as (c' & Hc & Hd & Hw'); [by rewrite app_nil_r|].
  exists c'. split_and!; [done|done|]. exists segs, tail.
  split_and!; [done|by rewrite Hd|by unfold at_end; rewrite Hd|by unfold no_bang; rewrite Hd| |done]. rewrite Hs. unfold says. by rewrite Hd.
Qed.
Lemma image_path_none c p : config c = set_config cfg -> image_paste_enabled (set_config cfg) = true -> handle_paste_image_path p c = Some (false, c).
Proof.
  intros Hc Hi. unfold handle_paste_image_path. destruct (normalize_pasted_path p) as [path|]; [|done]. by rewrite no_images.
Qed.
(** A large paste is a placeholder at the end. *)
Lemma paste_element_ok c s n p :
  text_is c s n ->
  exists id ta, TextArea.insert_element (next_large_paste_placeholder (draft_pastes (draft c)) (length p)) (textarea (draft c)) = Some (id, ta) /\
    text_is (put_pastes (draft_pastes (draft c) ++ [(next_large_paste_placeholder (draft_pastes (draft c)) (length p), p)]) (put_textarea ta c)) (s ++ p) 0.
Proof.
  intros (segs & tail & Hw & Hp & He & Hb & -> & Hn). set (l := next_large_paste_placeholder _ _).
  destruct (next_label (draft_pastes (draft c)) (length p)) as [l' Hl]. fold l in Hl.
  destruct (insert_element_end l (textarea (draft c))) as (id & ta & Hi & Ht & Hr & Hcur & Hm); [by rewrite Hl|by eapply w_chain_end|done|].
  exists id, ta. split; [done|]. injection Hm as Hv _ _ Hk. pose proof Hw as [].
  exists (segs ++ [mkSegment tail l p]), []. split_and!.
  - constructor; simpl; try done.
    + by rewrite Ht, w_text0, pieces_snoc.
    + by rewrite Hr, w_ranges0, w_text0, elements_snoc, fmap_app.
    + apply Forall_app. split; [done|]. repeat constructor. by eexists.
    + by rewrite Hv.
    + by rewrite Hk.
  - simpl. rewrite Hp. unfold pastes. by rewrite fmap_app.
  - done.
  - intros Hbf u Hu. simpl in Hu. rewrite Ht in Hu. specialize (Hb Hbf).
    destruct (TextArea.text (textarea (draft c))) as [|d t]; simpl in Hu; [rewrite Hl in Hu; done|]. injection Hu as -> _. by eapply Hb.
  - unfold says. simpl. rewrite full_snoc. by rewrite app_assoc.
  - right. simpl. lia.
Qed.
Lemma handle_paste_ok c s n p :
  text_is c s n -> ordinary (s ++ p) ->
  exists c', handle_paste p c = Some c' /\ text_is c' (s ++ p) 0 /\ paste_burst (draft c') = default_burst /\
    disable_paste_burst (draft c') = disable_paste_burst (draft c).
Proof.
  intros Ht Ho. assert (carriage_return ∉ p) as Hcr. { destruct Ho as [Ho _]. set_solver. }
  unfold handle_paste. rewrite normalize_id by done.
  cbv zeta. match goal with |- context [if LARGE_PASTE_CHAR_THRESHOLD <? length p then ?a else ?b] => set (step := if LARGE_PASTE_CHAR_THRESHOLD <? length p then a else b) end.
  assert (exists c1, step = Some c1 /\ text_is c1 (s ++ p) 0 /\
    disable_paste_burst (draft c1) = disable_paste_burst (draft c)) as (c1 & Hc1 & Ht1 & Hd1); cycle 1.
  { rewrite Hc1. cbn [mbind option_bind].
    destruct (sync_text_ok (put_burst (clear_after_explicit_paste (paste_burst (draft c1))) c1) (s ++ p) 0) as (c' & Hs & Hd & Ht');
      [by apply text_is_burst|done|].
    exists c'. split_and!; [done|done|by rewrite Hd|by rewrite Hd]. }
  subst step. destruct (LARGE_PASTE_CHAR_THRESHOLD <? length p).
  - destruct (paste_element_ok c s n p Ht) as (id & ta & -> & Ht1). cbn [mbind option_bind]. by eexists.
  - assert ((if (1 <? length p) && image_paste_enabled (config c) then handle_paste_image_path p c else Some (false, c)) = Some (false, c)) as ->.
    { destruct ((1 <? length p) && image_paste_enabled (config c)) eqn:Hi; [|done].
      apply andb_true_iff in Hi as [_ Hi]. destruct Ht as (? & ? & Hw & _). rewrite (w_config _ _ _ _ Hw) in Hi.
      apply image_path_none; [by apply (w_config _ _ _ _ Hw)|done]. }
    cbn [mbind option_bind]. destruct (insert_str_ok cfg p c s n Ht Ho) as (c1 & -> & Ht1 & Hb1 & Hd1).
    exists c1. split_and!; [done| |done]. eapply text_weaken; [exact Ht1|lia].
Qed.

(** ** What is typed *)

(** Characters before the cursor that a retroactive grab may take. *)
Definition room (b : PasteBurst) : nat :=
  if active b then 0
  else N.to_nat (consecutive_plain_char_burst b) - match pending_first_char b with Some _ => 1 | None => 0 end.
Record burst_ok (b : PasteBurst) (disabled : bool) : Prop := {
  ok_held : held_ok b;
  ok_buffer : active b = false -> buffer b = [];
  ok_disabled : disabled = true -> is_active b = false;
  ok_timed : is_active b = true -> is_Some (last_plain_char_time b);
}.
(** The text followed by what is held is what has been typed. *)
Definition holds c (s : str) : Prop :=
  burst_ok (paste_burst (draft c)) (disable_paste_burst (draft c)) /\
  exists s0, s = s0 ++ held_text (paste_burst (draft c)) /\ text_is c s0 (room (paste_burst (draft c))).
Lemma default_ok d : burst_ok default_burst d.
Proof. constructor; [apply held_ok_default|done..]. Qed.
Lemma inactive_held b : is_active b = false -> held_text b = [].
Proof. intros (_ & Hb & Hp)%is_active_false. unfold held_text. by rewrite Hb, Hp. Qed.
Lemma holds_default c s : text_is c s 0 -> paste_burst (draft c) = default_burst -> holds c s.
Proof. intros Ht Hb. unfold holds. rewrite Hb. split; [apply default_ok|]. exists s. by rewrite app_nil_r. Qed.
Lemma put_same_burst c : put_burst (paste_burst (draft c)) c = c.
Proof. destruct c as [[]]. done. Qed.
Lemma holds_footer c s m : holds c s -> holds (put_footer m c) s.
Proof. intros [H1 (s0 & H2 & H3)]. split; [done|]. exists s0. split; [done|]. by apply text_is_footer. Qed.

Lemma flush_before_ok c s :
  holds c s -> ordinary s ->
  exists c', flush_before c = Some c' /\ holds c' s /\ is_active (paste_burst (draft c')) = false /\
    disable_paste_burst (draft c') = disable_paste_burst (draft c) /\ (is_active (paste_burst (draft c)) = false -> c' = c).
Proof.
  intros (Hb & s0 & Hs & Ht) Ho. unfold flush_before. pose proof (flush_before_spec _ (ok_held _ _ Hb)) as Hf.
  destruct (flush_before_modified_input (paste_burst (draft c))) as [[p|] b].
  - destruct Hf as [Ha ->]. rewrite Hs in Ho.
    destruct (handle_paste_ok (put_burst b c) s0 (room (paste_burst (draft c))) (held_text (paste_burst (draft c)))) as (c' & Hc & Ht' & Hb' & Hd');
      [by apply text_is_burst|done|].
    exists c'. rewrite Hb', Hs. split_and!; [done|by apply holds_default|done|done|congruence].
  - destruct Hf as [-> Ha]. rewrite put_same_burst. exists c. split_and!; [done| |done|done|done]. split; [done|]. by exists s0.
Qed.
Lemma tick_ok now c s :
  holds c s -> ordinary s ->
  exists r c', handle_paste_burst_flush now c = Some (r, c') /\ holds c' s /\
    disable_paste_burst (draft c') = disable_paste_burst (draft c) /\
    (forall d t, pending_first_char (paste_burst (draft c')) = Some (d, t) -> (now - t <= PASTE_BURST_CHAR_INTERVAL)%N) /\
    (is_active (snd (flush_if_due now (paste_burst (draft c)))) = false -> is_active (paste_burst (draft c')) = false).
Proof.
  intros (Hb & s0 & Hs & Ht) Ho. pose proof (ok_held _ _ Hb) as Hok. unfold handle_paste_burst_flush.
  pose proof (flush_if_due_spec now _ Hok) as Hf. pose proof (fun d t => flush_if_due_recent now _ d t Hok) as Hr.
  destruct (flush_if_due now (paste_burst (draft c))) as [[p|d|] b].
  - subst p. rewrite Hs in Ho.
    destruct (handle_paste_ok (put_burst b c) s0 (room (paste_burst (draft c))) (held_text (paste_burst (draft c)))) as (c' & Hc & Ht' & Hb' & Hd');
      [by apply text_is_burst|done|].
    rewrite Hc. eexists true, c'. rewrite Hb', Hs. split_and!; [done|by apply holds_default|done..].
  - destruct Hf as (Hh & Hh' & Hok' & Hact & Ha & Hl & Hk). rewrite Hs, Hh in Ho.
    destruct (insert_str_ok cfg [d] (put_burst b c) s0 (room (paste_burst (draft c)))) as (c' & Hc & Ht' & Hb' & Hd');
      [by apply text_is_burst|done|]. simpl in Hb', Hd'.
    rewrite Hc. eexists true, c'. rewrite Hs, Hh. apply app_eq_nil in Hh' as [Hbuf Hpend].
    assert (pending_first_char b = None) as Hp by by destruct (pending_first_char b) as [[]|].
    split_and!; [done| |done|by rewrite Hb', Hp|by rewrite Hb'].
    unfold holds. rewrite Hb'. split.
    { assert (is_active b = false) by by apply is_active_false. by constructor; [|done|..]; congruence. }
    exists (s0 ++ [d]). split; [unfold held_text; by rewrite Hbuf, Hp, app_nil_r|].
    eapply text_weaken; [exact Ht'|]. unfold room. rewrite Ha, Hp, Hk. simpl.
    rewrite Hact. destruct (pending_first_char (paste_burst (draft c))); lia.
  - subst b. rewrite put_same_burst. eexists false, c. split_and!; [done| |done|exact Hr|done]. split; [done|]. by exists s0.
Qed.
(** ** Retroactive grabs *)

Lemma clamp_at_end t : clamp_to_char_boundary t (blen t) = blen t.
Proof. unfold clamp_to_char_boundary. rewrite Nat.min_id. by rewrite (proj2 (Nat.ltb_ge _ _)). Qed.
(** The text before the cursor of which a grab takes the end. *)
Lemma grab_split c s n k :
  text_is c s n -> N.to_nat k <= n ->
  exists p q s', TextArea.text (textarea (draft c)) = p ++ q /\ retro_start_index (p ++ q) k = blen p /\ s = s' ++ q /\
    exists ta, TextArea.replace_range (TextArea.mkRange (blen p) (blen (p ++ q))) [] (textarea (draft c)) = Some ta /\
      text_is (put_textarea ta c) s' 0.
Proof.
  intros (segs & tail & Hw & Hp & He & Hb & -> & Hn) Hk. pose proof (w_text _ _ _ _ Hw) as Ht. rewrite render_pieces in Ht.
  set (R := render (flat_map segment_pieces segs)) in *.
  destruct (retro_start_spec (TextArea.text (textarea (draft c))) k) as (p & q & Hpq & Hr & Hq).
  assert (exists t1, tail = t1 ++ q /\ p = R ++ t1) as (t1 & Htl & Hpt).
  { assert (length q <= length tail) as Hle.
    { destruct Hn as [-> |Hn]; [|lia]. simpl in Ht. rewrite <- Ht, Hpq, length_app. lia. }
    rewrite Ht in Hpq. exists (take (length tail - length q) tail).
    assert (drop (length tail - length q) tail = q) as Hd.
    { pose proof (f_equal length Hpq) as Hlen. rewrite !length_app in Hlen.
      transitivity (drop (length p) (R ++ tail)); [rewrite drop_app_ge by lia; f_equal; lia|].
      by rewrite Hpq, drop_app_length. }
    split; [by rewrite <- Hd at 2; rewrite take_drop|].
    apply (app_inv_tail q). rewrite <- Hpq, <- app_assoc. f_equal. rewrite <- Hd at 2. by rewrite take_drop. }
  exists p, q, (says c segs t1). split_and!; [done|by rewrite <- Hpq|unfold says; by rewrite Htl, full_tail, app_assoc|].
  destruct (remove_end p q (textarea (draft c))) as (ta & Hta & Htx & Hel & Hcur & Hm); [done| |exact He|].
  { eapply chain_weaken; [by eapply w_chain|]. fold R. rewrite Hpt, blen_app. lia. }
  exists ta. rewrite <- Hpq. split; [done|]. injection Hm as Hv _ _ Hkm. pose proof Hw as [].
  exists segs, t1. split_and!; [| done| | |done|right; lia].
  - constructor; simpl; try done.
    + by rewrite Htx, render_pieces.
    + unfold ranges. rewrite Hel. fold (ranges (textarea (draft c))). by rewrite w_ranges0, !pieces_elements.
    + by rewrite Hv.
    + by rewrite Hkm.
  - unfold at_end. simpl. by rewrite Hcur, Htx.
  - intros Hbf u Hu. simpl in Hbf, Hu. rewrite Htx in Hu. apply (Hb Hbf (u ++ q)). by rewrite Hpq, Hu.
Qed.
Lemma begin_buffer_ok c s n k d now :
  text_is c s n -> N.to_nat k <= n -> is_active (paste_burst (draft c)) = false -> disable_paste_burst (draft c) = false ->
  is_Some (last_plain_char_time (paste_burst (draft c))) ->
  exists r, begin_buffer d now k c = Some r /\
    match r with Some c' => holds c' (s ++ [d]) /\ disable_paste_burst (draft c') = false | None => True end.
Proof.
  intros Ht Hk (Ha & Hbuf & Hpend)%is_active_false Hdis Hlast. unfold begin_buffer. cbv zeta.
  assert (TextArea.cursor_pos (textarea (draft c)) = blen (TextArea.text (textarea (draft c)))) as ->.
  { by destruct Ht as (? & ? & ? & ? & He & _). }
  rewrite clamp_at_end. destruct (grab_split _ _ _ _ Ht Hk) as (p & q & s' & Htx & Hr & -> & ta & Hta & Hrm). rewrite Htx.
  pose proof (slice_to_app (p ++ q) []) as Hsl. rewrite app_nil_r in Hsl. rewrite Hsl. cbn [mbind option_bind].
  unfold decide_begin_buffer. cbv zeta. rewrite Hr, slice_from_app. cbn [mbind option_bind].
  destruct (existsb Str.is_whitespace q || (16 <=? length q)) eqn:Hlooks; [|by eexists].
  assert (Str.is_empty q = false) as Hne by by destruct q. cbn [grabbed start_byte]. rewrite Hne.
  rewrite Hta. cbn [mbind option_bind].
  eexists. split; [done|]. cbn beta iota. split; [|done]. split.
  - simpl. unfold begin_with_retro_grabbed. rewrite Hne. constructor; simpl; [|done|congruence|done].
    intros c' t. simpl. by rewrite Hpend.
  - exists s'. simpl. unfold begin_with_retro_grabbed, held_text. rewrite Hne. simpl. rewrite Hpend, Hbuf, app_nil_r, <- app_assoc.
    split; [done|]. by apply text_is_burst.
Qed.
(** ** Keys of characters *)

Lemma payloads_ok c s n : text_is c s n -> TextArea.element_payloads (textarea (draft c)) = fst <$> draft_pastes (draft c).
Proof.
  intros (segs & tail & Hw & -> & _). rewrite <- (pieces_payloads 0 segs tail), <- (w_elements _ _ _ _ Hw).
  unfold text_elements, TextArea.text_elements, TextArea.element_payloads. generalize (TextArea.elements (textarea (draft c))).
  intros es. induction es as [|e es IH]; [done|]. rewrite !fmap_cons, !omap_first, IH. done.
Qed.
Lemma retain_ok c s n : text_is c s n -> retain_pastes c = c.
Proof.
  intros (segs & tail & Hw & Hp & _). unfold retain_pastes. rewrite filter_all; [by destruct c as [[]]|].
  rewrite Hp, (w_text _ _ _ _ Hw). apply labels_inside.
Qed.
Lemma text_is_same c c' s n :
  text_is c s n -> draft c' = draft c -> attachments c' = attachments c -> config c' = config c ->
  keys c' = keys c -> queue_submissions c' = queue_submissions c -> text_is c' s n.
Proof.
  intros (segs & tail & Hw & Hp & He & Hb & Hs & Hn) Hd Ha Hc Hk Hq. exists segs, tail.
  split_and!; [apply (written_draft c); by rewrite ?Hd|by rewrite Hd|by unfold at_end; rewrite Hd|by unfold no_bang; rewrite Hd| |done].
  rewrite Hs. unfold says. by rewrite Hd.
Qed.
Lemma reconcile_ok c s n :
  text_is c s n ->
  exists c', reconcile_deleted_elements (fst <$> draft_pastes (draft c)) c = Some c' /\ text_is c' s n /\ same_burst c c'.
Proof.
  intros Ht. unfold reconcile_deleted_elements. rewrite (payloads_ok _ _ _ Ht).
  assert (List.filter (fun p => negb (bool_decide (p ∈ fst <$> draft_pastes (draft c)))) (fst <$> draft_pastes (draft c)) = []) as ->.
  { enough (forall l k : list str, (forall x, x ∈ l -> x ∈ k) -> List.filter (fun p => negb (bool_decide (p ∈ k))) l = []) as H by by apply H.
    induction l as [|x l IH]; intros k Hk; [done|]. simpl. rewrite bool_decide_true by (apply Hk; left). apply IH. intros y Hy. apply Hk. by right. }
  rewrite filter_all by by apply Forall_forall; intros; rewrite bool_decide_false; set_solver.
  unfold on_images, remove_deleted_local_placeholders.
  destruct Ht as (segs & tail & Hw & Ht). destruct (w_attached _ _ _ _ Hw) as [Hl Hr]. simpl. rewrite Hl. simpl.
  eexists. split; [done|]. split; [|done].
  eapply (text_is_same c); [by exists segs, tail| | |done..].
  - by destruct c as [[]].
  - simpl. unfold put_images. rewrite <- Hl. by destruct (attachments c).
Qed.
Lemma input_ok c s n d shifted kind :
  text_is c s n -> printable d -> kind <> Keys.Release -> input_textarea (typing_key d shifted kind) c = insert_in_textarea [d] c.
Proof.
  intros (segs & tail & Hw & _) Hd Hk. unfold input_textarea, insert_in_textarea. rewrite typing_inserts; [done|done|done|apply Hw|apply Hw].
Qed.
Lemma apply_key_ok c s n d shifted kind :
  text_is c s n -> printable d -> kind <> Keys.Release ->
  exists c', apply_key (typing_key d shifted kind) c = Some (NoResult, true, c') /\ text_is c' (s ++ [d]) (n + 1) /\ same_burst c c'.
Proof.
  intros Ht Hd Hk. unfold apply_key. cbn [Keys.code typing_key mbind option_bind].
  rewrite (input_ok _ _ _ _ _ _ Ht Hd Hk), (payloads_ok _ _ _ Ht), andb_false_r. cbn [andb].
  destruct (type_ok cfg [d] _ _ _ Ht) as (c1 & c2 & -> & H2 & Ht2 & [Hb Hdis] & Hp). cbn [mbind option_bind].
  rewrite H2. cbn [mbind option_bind].
  assert (has_ctrl_or_alt (Keys.modifiers (typing_key d shifted kind)) = false) as -> by by destruct shifted.
  destruct (bool_decide (draft_pastes (draft c) = []) && no_attachments (attachments c)).
  - exists c2. cbn [mbind option_bind]. split_and!; [done|done|split; congruence].
  - rewrite <- Hp. destruct (reconcile_ok _ _ _ Ht2) as (c3 & -> & Ht3 & [Hb3 Hdis3]). cbn [mbind option_bind].
    exists c3. split_and!; [done|done|split; congruence].
Qed.
(** Where the key goes when nothing is collected. *)
Lemma flush_inactive c : is_active (paste_burst (draft c)) = false -> flush_before c = Some c.
Proof. intros Ha. unfold flush_before, flush_before_modified_input. rewrite Ha. simpl. by rewrite put_same_burst. Qed.
Lemma direct_ok c s n d shifted kind :
  text_is c s n -> is_active (paste_burst (draft c)) = false -> printable d -> kind <> Keys.Release ->
  exists c', (c ← flush_before c; apply_key (typing_key d shifted kind) c) = Some (NoResult, true, c') /\
    text_is c' (s ++ [d]) (n + 1) /\ same_burst c c'.
Proof. intros Ht Ha Hd Hk. rewrite flush_inactive by done. cbn [mbind option_bind]. by eapply apply_key_ok. Qed.
Lemma insert_non_ascii_ok c s n d shifted kind :
  text_is c s n -> is_active (paste_burst (draft c)) = false -> printable d -> (128 <= d)%N -> kind <> Keys.Release ->
  exists c', insert_non_ascii (typing_key d shifted kind) c = Some (NoResult, true, c') /\
    text_is c' (s ++ [d]) (n + 1) /\ same_burst c c'.
Proof.
  intros Ht Ha Hd Hbig Hk. unfold insert_non_ascii. rewrite flush_inactive by done. cbn [mbind option_bind].
  rewrite (input_ok _ _ _ _ _ _ Ht Hd Hk). destruct (insert_plain_ok cfg c d _ _ Ht) as (c' & -> & Ht' & Hsb & _).
  { intros ->. done. }
  cbn [mbind option_bind]. exists c'. by rewrite (retain_ok _ _ _ Ht').
Qed.

Lemma noted now b :
  active (note_plain_char now b) = active b /\ buffer (note_plain_char now b) = buffer b /\
  pending_first_char (note_plain_char now b) = pending_first_char b /\
  last_plain_char_time (note_plain_char now b) = Some now /\
  N.to_nat (consecutive_plain_char_burst (note_plain_char now b)) <= N.to_nat (consecutive_plain_char_burst b) + 1.
Proof.
  unfold note_plain_char. simpl. split_and!; try done. destruct (last_plain_char_time b); [|lia]. destruct (_ <=? _)%N; lia.
Qed.
Lemma holds_inactive c s n :
  text_is c s n -> is_active (paste_burst (draft c)) = false -> N.to_nat (consecutive_plain_char_burst (paste_burst (draft c))) <= n -> holds c s.
Proof.
  intros Ht Ha Hn. split.
  - constructor; [|by intros; apply is_active_false|done|congruence]. apply is_active_false in Ha as (_ & _ & Hp). intros d t. by rewrite Hp.
  - exists s. rewrite inactive_held, app_nil_r by done. split; [done|]. eapply text_weaken; [exact Ht|]. unfold room. destruct (active _); lia.
Qed.
Lemma holds_collected c b s n :
  text_is c s n -> active b = true -> pending_first_char b = None -> is_Some (last_plain_char_time b) ->
  disable_paste_burst (draft c) = false -> holds (put_burst b c) (s ++ buffer b).
Proof.
  intros Ht Ha Hp Hl Hd. split.
  - constructor; simpl; [|congruence|congruence|done]. intros d t. by rewrite Hp.
  - exists s. simpl. unfold held_text, room. rewrite Hp, Ha, app_nil_r. split; [done|]. apply text_is_burst. eapply text_weaken; [exact Ht|lia].
Qed.
(** The key of an ASCII character, when nothing held is old. *)
Definition recent (now : N) c : Prop :=
  forall d t, pending_first_char (paste_burst (draft c)) = Some (d, t) -> (now - t <= PASTE_BURST_CHAR_INTERVAL)%N.
Lemma begun_ok c s n d now k shifted kind otherwise :
  text_is c s n -> N.to_nat k <= n -> is_active (paste_burst (draft c)) = false -> disable_paste_burst (draft c) = false ->
  N.to_nat (consecutive_plain_char_burst (paste_burst (draft c))) <= n + 1 -> is_Some (last_plain_char_time (paste_burst (draft c))) ->
  (exists c', otherwise (typing_key d shifted kind) c = Some (NoResult, true, c') /\ text_is c' (s ++ [d]) (n + 1) /\ same_burst c c') ->
  exists c', (r ← begin_buffer d now k c; match r with Some c' => Some (NoResult, true, c') | None => otherwise (typing_key d shifted kind) c end)
    = Some (NoResult, true, c') /\ holds c' (s ++ [d]) /\ disable_paste_burst (draft c') = false.
Proof.
  intros Ht Hk Ha Hdis Hn Hlast (c' & Ho & Ht' & Hb & Hd').
  destruct (begin_buffer_ok _ _ _ _ d now Ht Hk Ha Hdis Hlast) as ([c1|] & -> & Hr); cbn [mbind option_bind].
  - exists c1. by destruct Hr.
  - rewrite Ho. exists c'. split; [done|]. split; [|congruence]. eapply holds_inactive; [exact Ht'|by rewrite Hb|by rewrite Hb].
Qed.
Lemma ascii_ok now c s d shifted kind :
  holds c s -> recent now c -> disable_paste_burst (draft c) = false -> printable d -> kind <> Keys.Release ->
  exists c',
    (let '(decision, b) := on_plain_char d now (paste_burst (draft c)) in
     let c := put_burst b c in
     match decision with
     | BufferAppend | BeginBufferFromPending =>
         Some (NoResult, true, put_burst (append_char_to_buffer d now (paste_burst (draft c))) c)
     | RetainFirstChar => Some (NoResult, true, c)
     | BeginBuffer retro_chars =>
         r ← begin_buffer d now retro_chars c;
         match r with
         | Some c => Some (NoResult, true, c)
         | None => c ← flush_before c; apply_key (typing_key d shifted kind) c
         end
     end) = Some (NoResult, true, c') /\ holds c' (s ++ [d]) /\ disable_paste_burst (draft c') = false.
Proof.
  intros ([Hheld Hbuf _ _] & s0 & -> & Ht) Hrec Hdis Hd Hk. unfold on_plain_char. cbv zeta.
  destruct (noted now (paste_burst (draft c))) as (Ea & Eb & Ep & El & Ec). set (b := note_plain_char now _) in *. clearbody b. rewrite Ea, Ep.
  unfold held_text. destruct (active (paste_burst (draft c))) eqn:Hact.
  { assert (pending_first_char (paste_burst (draft c)) = None) as Hp.
    { destruct (pending_first_char (paste_burst (draft c))) as [[x t]|] eqn:Hp; [|done]. destruct (Hheld x t Hp). congruence. }
    eexists. split; [done|]. split; [|done]. rewrite Hp, app_nil_r, <- app_assoc.
    replace (buffer (paste_burst (draft c)) ++ [d]) with (buffer (append_char_to_buffer d now (extend_window now b))) by by simpl; rewrite Eb.
    eapply holds_collected; [by apply text_is_burst|by rewrite <- Ea|by rewrite <- Hp|simpl; by rewrite El|done]. }
  rewrite (Hbuf eq_refl) in *. unfold room in Ht. rewrite Hact in Ht.
  destruct (pending_first_char (paste_burst (draft c))) as [[x t]|] eqn:Hp.
  { rewrite (proj2 (N.leb_le _ _)) by by eapply Hrec. eexists. split; [done|]. split; [|done]. rewrite <- app_assoc.
    match goal with |- holds (put_burst ?b' _) _ => replace (([] ++ [x]) ++ [d]) with (buffer b') by by simpl; rewrite Eb end.
    eapply holds_collected; [by apply text_is_burst|done|done|simpl; by rewrite El|done]. }
  rewrite app_nil_r. destruct (_ <=? consecutive_plain_char_burst b)%N.
  - apply (begun_ok _ _ (N.to_nat (consecutive_plain_char_burst (paste_burst (draft c))))
             _ _ _ shifted kind (fun event c => c ← flush_before c; apply_key event c)); simpl; try done; try lia.
    + apply text_is_burst. eapply text_weaken; [exact Ht|lia].
    + apply is_active_false. by rewrite Ea, Eb, Ep.
    + apply direct_ok; [|apply is_active_false; simpl; by rewrite Ea, Eb, Ep|done..]. apply text_is_burst. eapply text_weaken; [exact Ht|lia].
  - eexists. split; [done|]. split; [|done]. split.
    + constructor; simpl; [|by rewrite Eb|congruence|by rewrite El]. intros y t [= <- <-]. simpl. by rewrite Ea, Eb, El.
    + exists s0. simpl. unfold held_text. simpl. rewrite Eb. split; [done|]. apply text_is_burst.
      eapply text_weaken; [exact Ht|]. unfold room. simpl. rewrite Ea. lia.
Qed.
Lemma non_ascii_ok now c s d shifted kind :
  holds c s -> ordinary s -> disable_paste_burst (draft c) = false -> printable d -> (128 <= d)%N -> kind <> Keys.Release ->
  exists c', handle_non_ascii_char (typing_key d shifted kind) now c = Some (NoResult, true, c') /\ holds c' (s ++ [d]) /\
    disable_paste_burst (draft c') = false.
Proof.
  intros Hh Ho Hdis Hd Hbig Hk. unfold handle_non_ascii_char. rewrite Hdis. cbn [Keys.code typing_key].
  unfold try_append_char_if_active. destruct (active (paste_burst (draft c)) || negb (Str.is_empty (buffer (paste_burst (draft c))))) eqn:Hin.
  { destruct Hh as ([Hheld Hbuf _ Htimed] & s0 & -> & Ht).
    assert (active (paste_burst (draft c)) = true) as Ha.
    { destruct (active _); [done|]. by rewrite Hbuf in Hin. }
    assert (pending_first_char (paste_burst (draft c)) = None) as Hp.
    { destruct (pending_first_char (paste_burst (draft c))) as [[x t]|] eqn:Hp; [|done]. destruct (Hheld x t Hp). congruence. }
    eexists. split; [done|]. split; [|done]. unfold held_text. rewrite Hp, app_nil_r, <- app_assoc.
    change (buffer (paste_burst (draft c)) ++ [d]) with (buffer (append_char_to_buffer d now (paste_burst (draft c)))).
    eapply holds_collected; [done|done|done| |done]. apply Htimed. unfold is_active, is_active_internal. by rewrite Ha. }
  rewrite put_same_burst. destruct (flush_before_ok _ _ Hh Ho) as (c1 & -> & Hh1 & Ha1 & Hdis1 & _). cbn [mbind option_bind].
  rewrite Hdis in Hdis1. clear Hh Hdis Hin c. rename c1 into c.
  destruct Hh1 as (_ & s0 & -> & Ht). rewrite (inactive_held _ Ha1), app_nil_r.
  pose proof Ha1 as (Ha & Hb & Hp)%is_active_false. unfold on_plain_char_no_hold. cbv zeta.
  destruct (noted now (paste_burst (draft c))) as (Ea & Eb & Ep & El & Ec). set (b := note_plain_char now _) in *. clearbody b.
  rewrite Ea, Ha. unfold room in Ht. rewrite Ha, Hp, Nat.sub_0_r in Ht.
  assert (is_active (paste_burst (draft (put_burst b c))) = false) as Hna.
  { apply is_active_false. simpl. by rewrite Ea, Eb, Ep. }
  apply (fun b => text_is_burst _ _ _ b) with (b := b) in Ht.
  pose proof (insert_non_ascii_ok _ _ _ _ shifted kind Ht Hna Hd Hbig Hk) as Hins.
  destruct (_ <=? consecutive_plain_char_burst b)%N.
  - eapply begun_ok; simpl; [exact Ht|lia|done|done|lia|simpl; by rewrite El|exact Hins].
  - destruct Hins as (c' & -> & Ht' & Hbb & Hd'). exists c'. split; [done|]. split; [|simpl in *; congruence].
    eapply holds_inactive; [exact Ht'|by rewrite Hbb|by rewrite Hbb].
Qed.

(** A key of a character adds the character to what has been typed. *)
Lemma press_ok now c s d shifted kind :
  holds c s -> ordinary (s ++ [d]) -> printable d -> kind <> Keys.Release ->
  exists c', handle_input_basic_with_time (typing_key d shifted kind) now c = Some (NoResult, true, c') /\ holds c' (s ++ [d]) /\
    disable_paste_burst (draft c') = disable_paste_burst (draft c).
Proof.
  intros Hh Ho Hd Hk. unfold handle_input_basic_with_time.
  assert (ordinary s) as Ho' by by eapply ordinary_prefix.
  destruct (tick_ok now _ _ Hh Ho') as (r & c1 & -> & Hh1 & Hdis1 & Hrec & _). cbn [mbind option_bind Keys.code typing_key]. cbv zeta.
  rewrite !(bool_decide_false (Keys.Char d = _)) by done. cbn [andb].
  apply (fun m => holds_footer _ _ m) with (m := reset_mode_after_activity (footer_mode c1)) in Hh1.
  change (disable_paste_burst (draft c1)) with (disable_paste_burst (draft (put_footer (reset_mode_after_activity (footer_mode c1)) c1))) in Hdis1.
  change (recent now (put_footer (reset_mode_after_activity (footer_mode c1)) c1)) in Hrec.
  set (c2 := put_footer _ _) in *. clearbody c2. clear Hh c1. rewrite <- Hdis1. clear Hdis1 c. rename c2 into c.
  rewrite put_same_burst.
  assert (has_ctrl_or_alt (Keys.modifiers (typing_key d shifted kind)) = false) as -> by by destruct shifted.
  destruct (disable_paste_burst (draft c)) eqn:Hdis; cbn [negb andb].
  - destruct Hh1 as ([Hok Hbuf Hd' _] & s0 & -> & Ht). specialize (Hd' Hdis). rewrite (inactive_held _ Hd'), app_nil_r.
    destruct (direct_ok _ _ _ _ shifted kind Ht Hd' Hd Hk) as (c' & -> & Ht' & Hb & Hdd). exists c'. split_and!; [done| |congruence].
    eapply holds_inactive; [exact Ht'|by rewrite Hb|]. rewrite Hb. apply is_active_false in Hd' as (H1 & _ & H3). unfold room. rewrite H1, H3. lia.
  - assert (TextArea.allows_paste_burst (textarea (draft c)) = true) as ->.
    { destruct Hh1 as (_ & s0 & _ & segs & tail & Hw & _). unfold TextArea.allows_paste_burst. by rewrite (w_vim _ _ _ _ Hw). }
    destruct (N.ltb_spec d 128); cbn [negb]; [by apply ascii_ok|by apply non_ascii_ok].
Qed.
End bursts.

End Bursts.
