(* ===== verification/ComposerSubmit.v ===== *)
(** Submission in the composer: a message that cannot be sent is put back as it was, and what
    is sent is what has been typed. *)
From stdpp Require Import gmap.
From S2P Require Import Prelude ByteText TextKeys TextArea TextAreaEdits PasteBurst ComposerText SlashCommands MentionCodec ComposerHistory Composer ComposerInput ComposerTyping ComposerBursts.

Module Submit.
Import ByteText Unicode Edits Layout Burst ComposerText Slash Mentions History Composer ComposerInput Typing Bursts.

(** ** Heads of texts *)

Lemma first_line_head t u : first_line t = ch "/" :: u -> exists v, t = ch "/" :: v.
Proof.
  unfold first_line, Str.lines. destruct t as [|d t]; [done|]. cbn [Str.split].
  destruct (N.eqb_spec d newline) as [->|Hd].
  { destruct (Str.split newline t) as [|x l]; simpl; intros H; [done|]. by unfold Str.strip_cr in H. }
  assert (forall w x, default [] (head (Str.lines_of ((d :: w) :: x))) = ch "/" :: u -> d = ch "/") as Hhead.
  { intros w x. destruct x as [|y x]; simpl; [by intros [= -> _]|]. unfold Str.strip_cr.
    destruct (Str.strip_suffix [carriage_return] (d :: w)) as [v|] eqn:Hs; [|by intros [= -> _]].
    apply Str.strip_suffix_Some in Hs. intros ->. by injection Hs as -> _. }
  intros H. exists t. f_equal. destruct (Str.split newline t) as [|w x]; by eapply Hhead.
Qed.
Lemma trim_head s c t : Str.trim s = c :: t -> exists u, Str.trim_start s = c :: u.
Proof.
  unfold Str.trim. destruct (Str.trim_start s) as [|d v]; [done|].
  destruct (Str.trim_end_head d v) as [->|[w ->]]; [done|]. intros [= -> _]. by eexists.
Qed.
Lemma no_slash_name s : (forall t, s <> ch "/" :: t) -> parse_slash_name s = None.
Proof. intros Hs. destruct s as [|c s]; [done|]. apply parse_no_slash. intros ->. by eapply Hs. Qed.

(** Shifting by the exclamation mark, if there is one. *)
Lemma shift_none n ps : Forall solid ps -> omap (fun e => shift_text_element e 0) (elements_from n ps) = elements_from n ps.
Proof.
  intros Hps. revert n. induction Hps as [|[s|s] ps Hp _ IH]; intros n; [done|apply IH|].
  cbn [elements_from]. rewrite omap_first.
  assert (0 < blen s). { destruct s as [|c s]; [done|]. simpl. pose proof (width_pos c). lia. }
  assert (shift_text_element (mkTextElement (TextArea.mkRange n (n + blen s)) (Some s)) 0
          = Some (mkTextElement (TextArea.mkRange n (n + blen s)) (Some s))) as ->.
  { unfold shift_text_element. cbn [byte_range TextArea.start TextArea.end_].
    rewrite !(proj2 (Z.ltb_ge _ _)), (proj2 (Z.leb_gt _ _)) by lia. unfold map_range. cbn [stored_placeholder]. do 3 f_equal; lia. }
  f_equal. apply IH.
Qed.
Lemma pieces_solid segs tail : labels_ok segs -> Forall solid (pieces segs tail).
Proof. intros Hl. eapply Forall_impl; [by apply labels_nonempty|]. by intros [s|s]. Qed.

Section submit.
Context {U : Unicode} {D : Desktop} {P : Type} {W : PopupWidgets P}.
Implicit Types c : ChatComposer P.
Variable cfg : Settings.
Hypothesis no_images : image_paste_enabled (set_config cfg) = true -> forall p, is_image p = false.
Abbreviation written := (written cfg).
Abbreviation text_is := (text_is cfg).
Abbreviation ordinary := (ordinary cfg).
Abbreviation holds := (holds cfg).

(** ** The text with its pastes *)

Lemma current_ok c segs tail :
  written c segs tail ->
  current_text c = bang (in_bash_mode (draft c)) ++ render (pieces segs tail) /\
  current_text_elements c = elements_from (length (bang (in_bash_mode (draft c)))) (pieces segs tail).
Proof.
  intros Hw. unfold current_text, current_text_elements. rewrite (w_text _ _ _ _ Hw), (w_elements _ _ _ _ Hw).
  pose proof (pieces_solid segs tail (w_labels _ _ _ _ Hw)) as Hs.
  destruct (in_bash_mode (draft c)); split; [done|by apply shift_up|done|by apply shift_none].
Qed.
Lemma expanded_ok c segs tail :
  written c segs tail -> draft_pastes (draft c) = pastes segs ->
  (if bool_decide (draft_pastes (draft c) = []) then Some (current_text c, current_text_elements c)
   else expand_pending_pastes (current_text c) (current_text_elements c) (draft_pastes (draft c))) = Some (says c segs tail, []).
Proof.
  intros Hw Hp. destruct (current_ok _ _ _ Hw) as [-> ->]. rewrite Hp. unfold says. case_bool_decide as Hnil; [|apply expand_says].
  apply fmap_nil_inv in Hnil as ->. unfold full, pieces. simpl. by rewrite app_nil_r.
Qed.
(** What the composer itself says its text is. *)
Lemma with_pending_ok c segs tail : written c segs tail -> draft_pastes (draft c) = pastes segs -> current_text_with_pending c = Some (says c segs tail).
Proof.
  intros Hw Hp. pose proof (expanded_ok _ _ _ Hw Hp) as He. unfold current_text_with_pending.
  case_bool_decide; [|by rewrite He]. by injection He as -> _.
Qed.
Lemma pending_ok c s n : text_is c s n -> current_text_with_pending c = Some s.
Proof. intros (segs & tail & Hw & Hp & _ & _ & -> & _). by apply with_pending_ok. Qed.
Lemma snapshot_ok c segs tail : written c segs tail -> snapshot_mention_bindings c = [].
Proof.
  intros Hw. unfold snapshot_mention_bindings. rewrite (w_mentions _ _ _ _ Hw).
  induction (current_mention_elements c) as [|[[i s] m] l IH]; [done|]. rewrite omap_first, lookup_empty. simpl. exact IH.
Qed.
(** ** Putting a draft back *)

(** Everything but the text is as typing leaves it. *)
Record plain_draft (c : ChatComposer P) : Prop := {
  p_vim : TextArea.vim_enabled (textarea (draft c)) = false;
  p_keymap : Keys.editor (TextArea.keymap (textarea (draft c))) = Keys.default_editor;
  p_attached : local_images (attachments c) = [] /\ remote_images (attachments c) = [];
  p_config : config c = set_config cfg;
  p_keys : keys c = set_keys cfg /\ queue_submissions c = false;
}.
Lemma written_plain c segs tail : written c segs tail -> plain_draft c.
Proof. intros []. by constructor. Qed.
(** The draft without its position in the text. *)
Definition kept c (segs : list Segment) (tail : str) (bash : bool) : Prop :=
  written c segs tail /\ in_bash_mode (draft c) = bash.
Lemma imported_ok c b segs tail :
  labels_ok segs -> (b = false -> forall t, render (pieces segs tail) <> ch "!" :: t) ->
  imported_text_for_textarea (bang b ++ render (pieces segs tail)) (elements_from (length (bang b)) (pieces segs tail)) c
  = (render (pieces segs tail), elements_from 0 (pieces segs tail), put_bash b c).
Proof.
  intros Hl Hb. unfold imported_text_for_textarea. destruct b; simpl.
  - rewrite shift_down by by apply pieces_solid. done.
  - destruct (Str.strip_prefix ($"!") (render (pieces segs tail))) as [t|] eqn:Hs; [|done].
    apply Str.strip_prefix_Some in Hs. by eapply Hb in Hs.
Qed.
Lemma text_set_ok c b segs tail :
  plain_draft c -> labels_ok segs -> (b = false -> forall t, render (pieces segs tail) <> ch "!" :: t) ->
  ordinary (bang b ++ full segs tail) ->
  exists c', set_text_content_with_mention_bindings (bang b ++ render (pieces segs tail))
      (elements_from (length (bang b)) (pieces segs tail)) [] [] c = Some c' /\ kept c' segs tail b /\ same_burst c c'.
Proof.
  intros [] Hl Hb Ho. unfold set_text_content_with_mention_bindings. cbv zeta. rewrite imported_ok by done.
  pose proof (set_text_layout (pieces segs tail) (TextArea.set_text_clearing_elements [] (textarea (draft c))) (pieces_solid _ _ Hl))
    as (Ht & Hr & Hm).
  injection Hm as Hv _ _ Hk. unfold on_images, reset_local_images, relabel_local_images. simpl. simpl in Ht, Hr, Hv, Hk.
  unfold bind_mentions_from_snapshot. simpl.
  match goal with |- context [sync_popups ?c0] => destruct (sync_popups_ok cfg c0 segs tail []) as (c' & Hs & Hd & Hw) end.
  - destruct p_attached0 as [_ Hrem]. constructor; simpl; try done.
    + by rewrite Hv.
    + by rewrite Hk.
  - unfold says. simpl. by rewrite app_nil_r.
  - exists c'. split_and!; [exact Hs|split; [done|by rewrite Hd]|]. unfold same_burst. by rewrite Hd.
Qed.
Lemma written_pastes c segs tail ps : written c segs tail -> written (put_pastes ps c) segs tail.
Proof. intros Hw. by apply (written_draft cfg c). Qed.
(** ** Enter *)

Lemma no_dispatch c segs tail more :
  command_popup_shown (popups c) = false -> written c segs tail -> ordinary (says c segs tail ++ more) ->
  try_dispatch_bare_slash_command c = (None, c) /\ try_dispatch_slash_command_with_args c = (None, c) /\ in_slash_context c = false.
Proof.
  intros Hp Hw Ho. pose proof (no_command cfg _ _ _ _ Hw Ho) as Hno. pose proof (w_config _ _ _ _ Hw) as Hc.
  assert (slash_commands_enabled (set_config cfg) = true -> in_bash_mode (draft c) = false ->
          parse_slash_name (TextArea.text (textarea (draft c))) = None /\
          parse_slash_name (first_line (TextArea.text (textarea (draft c)))) = None) as Hparse.
  { intros Hse Hb. split; apply no_slash_name; [by apply Hno|]. intros t [u Hu]%first_line_head. by eapply Hno in Hu. }
  unfold try_dispatch_bare_slash_command, try_dispatch_slash_command_with_args, bare_command, inline_command, in_slash_context, slash_input.
  simpl. rewrite Hc, Hp. destruct (slash_commands_enabled (set_config cfg)) eqn:Hse; [|done].
  destruct (in_bash_mode (draft c)) eqn:Hb; [done|]. destruct (Hparse eq_refl eq_refl) as [-> ->]. simpl. split_and!; [done|by destruct (Str.starts_with _ _)|].
  destruct (Str.starts_with _ _) eqn:Hs; [|done]. apply Str.starts_with_spec in Hs as [t Ht].
  apply first_line_head in Ht as [u Hu]. by eapply Hno in Hu.
Qed.
(** What can be sent: something that is not too long. *)
Definition sendable (s : str) : bool :=
  negb (Str.is_empty (Str.trim s)) && negb (MAX_USER_INPUT_TEXT_CHARS <? N.of_nat (length (Str.trim s)))%N.
Lemma valid_submission c s b : config c = set_config cfg -> ordinary s -> validate_submission (slash_input c) (Str.trim s) b = Valid.
Proof.
  intros Hc [_ Ho]. unfold validate_submission, slash_input. simpl. rewrite Hc.
  destruct (slash_commands_enabled (set_config cfg)); [|done]. simpl. rewrite no_slash_name; [done|].
  intros t [u Hu]%trim_head. by eapply Ho.
Qed.
(** The draft after its text has been taken out. *)
Definition cleared c : ChatComposer P :=
  put_bash false (put_textarea (TextArea.set_text_clearing_elements [] (textarea (draft (put_recent [] c)))) (put_recent [] c)).
Lemma cleared_plain c segs tail : written c segs tail -> plain_draft (cleared c).
Proof. intros []. by constructor. Qed.
Lemma cleared_empty c c' segs tail n :
  written c segs tail -> textarea (draft c') = textarea (draft (cleared c)) -> in_bash_mode (draft c') = false ->
  draft_pastes (draft c') = [] -> draft_mentions (draft c') = draft_mentions (draft c) -> attachments c' = attachments c ->
  config c' = config c -> keys c' = keys c -> queue_submissions c' = queue_submissions c -> text_is c' [] n.
Proof.
  intros [] Ht Hb Hp Hm Ha Hc Hk Hq. exists [], []. unfold at_end, no_bang, says. rewrite Ht, Hb, Hp. simpl.
  split_and!; [|done|rewrite Nat.min_0_r; apply clamp_here; [apply boundary_0|constructor]|by intros _ t|done|by left]. constructor; rewrite ?Ht, ?Hm, ?Ha, ?Hc, ?Hk, ?Hq; simpl; try done; constructor.
Qed.
Lemma prepare_ok c segs tail :
  written c segs tail -> draft_pastes (draft c) = pastes segs -> no_bang c -> ordinary (says c segs tail) ->
  exists r c', prepare_submission_text true c = Some (r, c') /\ same_burst c c' /\
    if sendable (says c segs tail)
    then r = Some (Str.trim (says c segs tail), []) /\ forall n, text_is c' [] n
    else r = None /\ plain_draft c'.
Proof.
  intros Hw Hp Hb Ho. destruct (current_ok _ _ _ Hw) as [Hcur Hels]. pose proof (w_attached _ _ _ _ Hw) as [Hli Hri].
  unfold prepare_submission_text, prepare_submission_text_with_options. cbv zeta.
  rewrite (expanded_ok _ _ _ Hw Hp), (snapshot_ok _ _ _ Hw). cbn [mbind option_bind]. fold (cleared c).
  rewrite valid_submission; [|by apply (w_config _ _ _ _ Hw)|done].
  assert (image_paths (attachments c) = []) as -> by (unfold image_paths; by rewrite Hli).
  assert (trim_text_elements (says c segs tail) (Str.trim (says c segs tail)) [] = []) as ->.
  { unfold trim_text_elements. rewrite bool_decide_true by done. by rewrite orb_true_r. }
  unfold sendable. destruct (_ <? N.of_nat _)%N.
  - rewrite andb_false_r. unfold put_back. rewrite Hcur, Hels.
    match goal with |- context [set_text_content_with_mention_bindings _ _ _ _ ?c0] =>
      destruct (text_set_ok c0 (in_bash_mode (draft c)) segs tail) as (c' & -> & [Hw' _] & Hsb) end.
    + by destruct (cleared_plain _ _ _ Hw); constructor.
    + apply Hw.
    + rewrite <- (w_text _ _ _ _ Hw). exact Hb.
    + exact Ho.
    + cbn [mbind option_bind]. eexists _, _. split; [done|]. split; [exact Hsb|]. split; [done|].
      by destruct Hw'; constructor.
  - assert (prune_local_images_for_submission (Str.trim (says c segs tail)) [] (attachments (cleared c)) = attachments c) as ->.
    { unfold prune_local_images_for_submission. simpl. by rewrite Hli. }
    assert (no_attachments (attachments (put_attachments (attachments c) (cleared c))) = true) as ->.
    { unfold no_attachments. simpl. by rewrite Hli, Hri. }
    rewrite !andb_true_r. destruct (Str.is_empty _); cbn [negb].
    + eexists _, _. split; [done|]. split; [done|]. split; [done|]. by destruct (cleared_plain _ _ _ Hw); constructor.
    + eexists _, _. split; [done|]. split; [done|]. split; [done|]. intros n. by eapply cleared_empty.
Qed.
(** Enter is a newline while a paste is being typed. *)
Definition newline_mode (now : N) c : bool :=
  negb (disable_paste_burst (draft c)) && newline_should_insert_instead_of_submit now (paste_burst (draft c)).
Lemma put_same_textarea c : put_textarea (textarea (draft c)) c = c.
Proof. by destruct c as [[]]. Qed.
Lemma no_vim_reset r c s n : text_is c s n -> reset_vim_mode_after_successful_dispatch r c = c.
Proof.
  intros (segs & tail & Hw & _). unfold reset_vim_mode_after_successful_dispatch, TextArea.enter_vim_normal_mode.
  rewrite (w_vim _ _ _ _ Hw), put_same_textarea. by destruct r.
Qed.
Lemma newline_ok now c s :
  command_popup_shown (popups c) = false -> holds c s -> ordinary s -> pending_first_char (paste_burst (draft c)) = None -> newline_mode now c = true ->
  exists c', handle_submission false now c = Some (NoResult, true, c') /\ holds c' (s ++ [newline]) /\
    disable_paste_burst (draft c') = disable_paste_burst (draft c).
Proof.
  intros Hpop ([Hheld Hbuf Hdis Htimed] & s0 & -> & Ht) Ho Hpend [Hd Hn]%andb_true_iff. apply negb_true_iff in Hd.
  unfold held_text in *. rewrite Hpend, app_nil_r in *.
  unfold handle_submission, handle_submission_with_time.
  destruct Ht as (segs & tail & Hw & Hp & He & Hb & Hs & Hroom). pose proof Ho as Ho'. rewrite Hs in Ho'.
  destruct (no_dispatch _ _ _ _ Hpop Hw Ho') as (-> & _ & Hctx). rewrite Hctx, Hd. cbn [negb andb].
  assert (text_is c s0 (room (paste_burst (draft c)))) as Ht by by exists segs, tail.
  unfold append_newline_if_active, newline_should_insert_instead_of_submit in *. destruct (is_active (paste_burst (draft c))) eqn:Ha.
  - assert (active (paste_burst (draft c)) = true) as Hact.
    { destruct (active _) eqn:Hact; [done|]. exfalso. assert (is_active (paste_burst (draft c)) = false); [|congruence].
      apply is_active_false. by rewrite (Hbuf eq_refl). }
    eexists. split; [done|]. split; [|done]. rewrite <- app_assoc.
    match goal with |- context [put_burst ?b' _] => replace (buffer (paste_burst (draft c)) ++ [newline]) with (buffer b') by done end.
    eapply holds_collected; [done|done|done|by apply Htimed|done].
  - cbn [negb andb]. rewrite put_same_burst, Hctx, Hd, Ha. cbn [negb andb orb]. simpl in Hn. rewrite Hn.
    destruct (insert_plain_ok cfg c newline _ _ Ht) as (c' & -> & Ht' & [Hb' Hd'] & _); [done|]. cbn [mbind option_bind].
    eexists. split; [done|]. split; [|simpl; congruence]. pose proof Ha as (H1 & H2 & H3)%is_active_false. rewrite H2, app_nil_r.
    eapply holds_inactive; [by apply text_is_burst| |].
    + simpl. rewrite Hb'. by apply is_active_false.
    + simpl. rewrite Hb'. unfold room. rewrite H1, H3. lia.
Qed.
Lemma submitted_ok now c s :
  command_popup_shown (popups c) = false -> holds c s -> ordinary s -> newline_mode now c = false -> (disable_paste_burst (draft c) = false -> is_active (paste_burst (draft c)) = false) ->
  exists r c', handle_submission false now c = Some (r, true, c') /\ same_burst c c' /\
    if sendable s then r = Submitted (Str.trim s) [] /\ holds c' []
    else r = NoResult /\ exists segs tail, written c' segs tail /\ draft_pastes (draft c') = pastes segs /\ s = says c' segs tail /\
      TextArea.text (textarea (draft c')) = TextArea.text (textarea (draft c)).
Proof.
  intros Hpop (Hok & s0 & -> & Ht) Ho Hn Ha. unfold newline_mode in Hn.
  assert (is_active (paste_burst (draft c)) = false) as Hina.
  { destruct (disable_paste_burst (draft c)) eqn:Hd; [by apply (ok_disabled _ _ Hok)|by apply Ha]. }
  rewrite (inactive_held _ Hina), app_nil_r in *. pose proof Ht as (segs & tail & Hw & Hp & He & Hb & Hs & Hroom).
  unfold handle_submission, handle_submission_with_time. rewrite <- (app_nil_r s0), Hs in Ho.
  destruct (no_dispatch _ _ _ _ Hpop Hw Ho) as (-> & Hargs & Hctx). rewrite Hctx, Hina, andb_false_r. cbn [negb andb]. rewrite put_same_burst, Hctx.
  cbn [negb andb]. rewrite Hn, Hargs. rewrite app_nil_r, <- Hs in Ho.
  destruct (prepare_ok c segs tail) as (r & c' & -> & [Hb' Hd'] & Hr); [done|done|done|by rewrite <- Hs|].
  rewrite <- Hs in Hr. cbn [mbind option_bind]. destruct (sendable s0).
  - destruct Hr as [-> Ht']. eexists _, _. split; [done|]. rewrite (no_vim_reset _ _ [] 0) by apply Ht'. split; [done|].
    split; [done|]. eapply (holds_inactive cfg _ _ (N.to_nat (consecutive_plain_char_burst (paste_burst (draft c'))))); [apply Ht'|by rewrite Hb'|done].
  - destruct Hr as [-> Hpl]. destruct (current_ok _ _ _ Hw) as [-> ->]. rewrite (snapshot_ok _ _ _ Hw).
    assert (image_paths (attachments c) = []) as -> by (unfold image_paths; by destruct (w_attached _ _ _ _ Hw) as [-> _]).
    destruct (text_set_ok c' (in_bash_mode (draft c)) segs tail) as (c2 & -> & [Hw2 Hbash] & [Hb2 Hd2]); [done|apply Hw| | |].
    + rewrite <- (w_text _ _ _ _ Hw). exact Hb.
    + by rewrite Hs in Ho.
    + cbn [mbind option_bind]. eexists _, _. split; [done|]. split; [split; simpl; congruence|]. split; [done|].
      exists segs, tail. split_and!; [by apply written_pastes|done|unfold says; simpl; by rewrite Hbash|].
      simpl. by rewrite (w_text _ _ _ _ Hw), (w_text _ _ _ _ Hw2).
Qed.
End submit.

End Submit.
