(* ===== verification/ComposerPromises.v ===== *)
(** What the composer promises to who types: every character typed or pasted is kept in its
    order, and Enter sends exactly what has been typed. *)
From stdpp Require Import gmap.
From S2P Require Import Prelude ByteText TextKeys TextArea TextAreaEdits TextAreaCalls PasteBurst ComposerText SlashCommands MentionCodec ComposerHistory Composer ComposerInput ComposerTyping ComposerBursts ComposerSubmit.

Module Composing.
Import ByteText Unicode Edits Layout Burst ComposerText Slash Mentions History Composer ComposerInput Typing Bursts Submit.

(** The key that submits, in the default keymap. *)
Definition enter_key : Keys.KeyEvent := Keys.mkKeyEvent Keys.Enter 0%N Keys.Press.
(** No binding of the composer takes a plain character, apart from the one that shows the
    shortcuts; Enter submits and does not begin a search. *)
Definition keys_ok (ks : ComposerKeys) : bool :=
  forallb never_plain (history_search_previous_keys ks ++ queue_keys ks ++ submit_keys ks ++ Keys.move_up (editor_keymap ks) ++ Keys.move_down (editor_keymap ks))
  && Keys.is_pressed (submit_keys ks) enter_key && negb (Keys.is_pressed (queue_keys ks) enter_key)
  && negb (Keys.is_pressed (toggle_shortcuts_keys ks) enter_key) && negb (Keys.is_pressed (history_search_previous_keys ks) enter_key).

(** What reaches the composer: the key of a character, Enter, a paste of the terminal, a tick
    of the interface, and the setting that turns the detection of bursts off or on. *)
Inductive Input :=
| Press (d : char) (shifted : bool) (kind : Keys.KeyEventKind)
| PressEnter
| Pasted (p : str)
| Tick
| SetDisabled (b : bool).

Section promises.
Context {U : Unicode} {D : Desktop} {P : Type} {W : PopupWidgets P}.
Variable with_popup : ActivePopup -> Keys.KeyEvent -> N -> ChatComposer P -> option (InputResult * bool * ChatComposer P).
Implicit Types c : ChatComposer P.
Variable cfg : Settings.
Hypothesis no_images : image_paste_enabled (set_config cfg) = true -> forall p, is_image p = false.
Hypothesis keymap_ok : keys_ok (set_keys cfg) = true.
Abbreviation written := (written cfg).
Abbreviation text_is := (text_is cfg).
Abbreviation ordinary := (ordinary cfg).
Abbreviation holds := (holds cfg).

(** ** Keys reach the text *)

(** Keys go to the text: the composer takes input, and neither a popup nor the search is open. *)
Definition editing c : Prop :=
  input_enabled (draft c) = true /\ history_search c = None /\ active_popup (popups c) = NoPopup.
Lemma dispatch c event now :
  editing c -> Keys.kind event <> Keys.Release -> Keys.is_pressed (history_search_previous_keys (keys c)) event = false ->
  handle_key_event with_popup event now c =
    ('(r, redraw, c) ← handle_key_event_without_popup event now c;
     c ← sync_popups (reset_vim_mode_after_successful_dispatch r c); Some (r, redraw, c)).
Proof.
  intros (He & Hs & Hp) Hk Hq. unfold handle_key_event. rewrite He, Hs, Hp, Hq. by destruct (Keys.kind event).
Qed.

Lemma holds_sync c s : holds c s -> ordinary s -> exists c', sync_popups c = Some c' /\ draft c' = draft c /\ holds c' s.
Proof.
  intros (Hok & s0 & -> & Ht) Ho. destruct (sync_text_ok cfg _ _ _ Ht) as (c' & Hs & Hd & Ht').
  { by eapply ordinary_prefix. }
  exists c'. split_and!; [done|done|]. unfold holds. rewrite Hd. split; [done|]. by exists s0.
Qed.
Lemma holds_selection c s : holds c s -> holds (put_attachments (clear_remote_image_selection (attachments c)) c) s.
Proof.
  intros (Hok & s0 & -> & segs & tail & Hw & Hp & He & Hb & Hs & Hn). split; [done|]. exists s0. split; [done|].
  exists segs, tail. split_and!; [by destruct Hw; constructor|done..].
Qed.
Lemma sendless_route c s event now :
  holds c s -> Keys.is_pressed (toggle_shortcuts_keys (keys c)) event = false -> Keys.code event <> Keys.Esc ->
  exists c1, holds c1 s /\ keys c1 = keys c /\ draft c1 = draft c /\ popups c1 = popups c /\
    handle_key_event_without_popup event now c = route_key event now c1.
Proof.
  intros Hh Htog Hesc. pose proof Hh as (_ & s0 & _ & segs & tail & Hw & _).
  pose proof (w_attached _ _ _ _ Hw) as [_ Hr]. pose proof (w_vim _ _ _ _ Hw) as Hv.
  unfold handle_key_event_without_popup, remote_image_selection_key. rewrite Hr. cbn [mbind option_bind]. 
  rewrite (bool_decide_true (@nil str = [])) by done. cbn [orb mbind option_bind].
  set (c0 := match selected_remote_image_index (attachments c) with Some _ => _ | None => _ end).
  assert (holds c0 s /\ keys c0 = keys c /\ draft c0 = draft c /\ popups c0 = popups c) as (Hh0 & Hk0 & Hd0 & Hp0).
  { subst c0. destruct (selected_remote_image_index _); [split; [by apply holds_selection|done]|done]. }
  clearbody c0. assert (handle_shortcut_overlay_key event now c0 = (false, c0)) as ->.
  { unfold handle_shortcut_overlay_key. rewrite Hk0, Htog. cbn [andb negb]. by destruct (negb _). }
  rewrite (bool_decide_false (Keys.code event = Keys.Esc)) by done. rewrite andb_false_r. cbn [andb mbind option_bind].
  unfold TextArea.should_handle_vim_insert_escape, TextArea.uses_vim_insert_cursor, TextArea.is_vim_normal_mode. rewrite Hd0, Hv. cbn [andb].
  exists (put_footer (reset_mode_after_activity (footer_mode c0)) c0). split_and!; [by apply holds_footer|done|done|done|].
  by destruct (in_bash_mode _).
Qed.
Lemma holds_keys c s : holds c s -> keys c = set_keys cfg /\ queue_submissions c = false /\ TextArea.vim_enabled (textarea (draft c)) = false.
Proof. intros (_ & s0 & _ & segs & tail & Hw & _). pose proof (w_keys _ _ _ _ Hw) as []. split_and!; [done|done|apply Hw]. Qed.
Lemma route_typed c s d shifted kind now :
  holds c s -> printable d -> kind <> Keys.Release ->
  route_key (typing_key d shifted kind) now c = handle_input_basic_with_time (typing_key d shifted kind) now c.
Proof.
  intros Hh Hd Hk. destruct (holds_keys _ _ Hh) as (Hks & _ & Hv). pose proof keymap_ok as Hok.
  unfold keys_ok in Hok. rewrite !andb_true_iff, !forallb_app, !andb_true_iff in Hok.
  destruct Hok as (((((_ & Hq & Hs & Hup & Hdown) & _) & _) & _) & _).
  destruct (typing_parts d shifted kind Hd) as (e & m & Hp & Hm).
  unfold route_key, TextArea.is_vim_normal_mode. rewrite Hks, Hv. cbn [andb].
  rewrite !(never_pressed _ _ e m); [|by eassumption..]. cbn [andb orb].
  assert ((Keys.modifiers (typing_key d shifted kind) =? Keys.CONTROL)%N = false) as -> by by destruct shifted.
  rewrite andb_false_r. cbn [andb]. unfold handle_input_basic. by destruct kind.
Qed.
Lemma route_enter c s now : holds c s -> route_key enter_key now c = handle_submission false now c.
Proof.
  intros Hh. destruct (holds_keys _ _ Hh) as (Hks & Hqs & _). pose proof keymap_ok as Hok. unfold keys_ok in Hok.
  rewrite !andb_true_iff in Hok. destruct Hok as ((((_ & Hs) & Hq%negb_true_iff) & _) & _).
  unfold route_key. rewrite Hks, Hq, Hs, Hqs. done.
Qed.
Lemma typed_not_search c s d shifted kind :
  holds c s -> printable d -> Keys.is_pressed (history_search_previous_keys (keys c)) (typing_key d shifted kind) = false.
Proof.
  intros Hh Hd. destruct (holds_keys _ _ Hh) as [-> _]. pose proof keymap_ok as Hok.
  unfold keys_ok in Hok. rewrite !andb_true_iff, !forallb_app, !andb_true_iff in Hok.
  destruct Hok as (((((Hr & _) & _) & _) & _) & _). destruct (typing_parts d shifted kind Hd) as (e & m & Hp & Hm).
  by eapply never_pressed.
Qed.
Lemma key_ok c s d shifted kind now :
  editing c -> holds c s -> ordinary (s ++ [d]) -> printable d -> kind <> Keys.Release ->
  Keys.is_pressed (toggle_shortcuts_keys (set_keys cfg)) (typing_key d shifted kind) = false ->
  exists c', handle_key_event with_popup (typing_key d shifted kind) now c = Some (NoResult, true, c') /\ holds c' (s ++ [d]) /\
    disable_paste_burst (draft c') = disable_paste_burst (draft c).
Proof.
  intros Hed Hh Ho Hd Hk Htog. rewrite dispatch; [|done|done|by eapply typed_not_search].
  destruct (sendless_route c s (typing_key d shifted kind) now Hh) as (c1 & Hh1 & Hk1 & Hd1 & _ & ->); [|done|].
  { by destruct (holds_keys _ _ Hh) as [-> _]. }
  rewrite (route_typed _ _ _ _ _ _ Hh1 Hd Hk).
  destruct (press_ok cfg no_images now _ _ _ shifted kind Hh1 Ho Hd Hk) as (c2 & -> & Hh2 & Hd2). cbn [mbind option_bind].
  destruct (holds_sync _ _ Hh2 Ho) as (c3 & Hs & Hd3 & Hh3). simpl. rewrite Hs. cbn [mbind option_bind].
  exists c3. split; [done|]. split; [done|]. congruence.
Qed.
Lemma enter_free c s :
  holds c s -> Keys.is_pressed (toggle_shortcuts_keys (keys c)) enter_key = false /\
  Keys.is_pressed (history_search_previous_keys (keys c)) enter_key = false.
Proof.
  intros Hh. destruct (holds_keys _ _ Hh) as [-> _]. pose proof keymap_ok as Hok. unfold keys_ok in Hok.
  rewrite !andb_true_iff, !negb_true_iff in Hok. split; apply Hok.
Qed.
Lemma no_command_list c : editing c -> command_popup_shown (popups c) = false.
Proof. intros (_ & _ & Hp). unfold command_popup_shown. by rewrite Hp. Qed.
Lemma enter_route c s now :
  editing c -> holds c s ->
  exists c1, holds c1 s /\ draft c1 = draft c /\ command_popup_shown (popups c1) = false /\
    handle_key_event with_popup enter_key now c =
      ('(r, redraw, c) ← handle_submission false now c1;
       c ← sync_popups (reset_vim_mode_after_successful_dispatch r c); Some (r, redraw, c)).
Proof.
  intros Hed Hh. destruct (enter_free _ _ Hh) as [Ht Hq]. rewrite dispatch by done.
  destruct (sendless_route c s enter_key now Hh) as (c1 & Hh1 & _ & Hd1 & Hp1 & ->); [done..|].
  exists c1. split_and!; [done|done|rewrite Hp1; by apply no_command_list|by rewrite (route_enter _ _ _ Hh1)].
Qed.
(** Enter, when no first character is held. *)
Lemma enter_newline c s now :
  editing c -> holds c s -> ordinary (s ++ [newline]) -> pending_first_char (paste_burst (draft c)) = None -> newline_mode now c = true ->
  exists c', handle_key_event with_popup enter_key now c = Some (NoResult, true, c') /\ holds c' (s ++ [newline]).
Proof.
  intros Hed Hh Ho Hp Hn. destruct (enter_route c s now Hed Hh) as (c1 & Hh1 & Hd1 & Hpop & ->). unfold newline_mode in Hn. rewrite <- Hd1 in Hp, Hn.
  destruct (newline_ok cfg now _ _ Hpop Hh1) as (c2 & -> & Hh2 & _); [by eapply ordinary_prefix|done|done|]. cbn [mbind option_bind].
  destruct (holds_sync _ _ Hh2 Ho) as (c3 & Hs & _ & Hh3). simpl. rewrite Hs. cbn [mbind option_bind]. by exists c3.
Qed.
Lemma ordinary_nil : ordinary [].
Proof. split; [set_solver|]. by intros _ t. Qed.
Lemma not_active c now s :
  holds c s -> newline_mode now c = false -> disable_paste_burst (draft c) = false -> is_active (paste_burst (draft c)) = false.
Proof.
  intros _ Hn Hd. unfold newline_mode, newline_should_insert_instead_of_submit in Hn. rewrite Hd in Hn. simpl in Hn.
  by apply orb_false_iff in Hn as [-> _].
Qed.
(** The draft of a message that cannot be sent. *)
Definition put_back_draft c c' (s : str) : Prop :=
  TextArea.text (textarea (draft c')) = TextArea.text (textarea (draft c)) /\ current_text_with_pending c' = Some s.
Lemma enter_submit c s now :
  editing c -> holds c s -> ordinary s -> newline_mode now c = false ->
  exists r c', handle_key_event with_popup enter_key now c = Some (r, true, c') /\
    if sendable s then r = Submitted (Str.trim s) [] /\ holds c' [] else r = NoResult /\ put_back_draft c c' s.
Proof.
  intros Hed Hh Ho Hn. destruct (enter_route c s now Hed Hh) as (c1 & Hh1 & Hd1 & Hpop & ->). assert (newline_mode now c1 = false) as Hn1 by by unfold newline_mode; rewrite Hd1.
  destruct (submitted_ok cfg now _ _ Hpop Hh1 Ho Hn1 (not_active _ _ _ Hh1 Hn1)) as (r & c2 & -> & _ & Hr). cbn [mbind option_bind].
  destruct (sendable s).
  - destruct Hr as [-> Hh2]. destruct (holds_sync _ _ Hh2 ordinary_nil) as (c3 & Hs & _ & Hh3).
    assert (reset_vim_mode_after_successful_dispatch (Submitted (Str.trim s) []) c2 = c2) as ->.
    { destruct Hh2 as (_ & s0 & _ & Ht). by eapply no_vim_reset. }
    rewrite Hs. cbn [mbind option_bind]. by exists (Submitted (Str.trim s) []), c3.
  - destruct Hr as (-> & segs & tail & Hw & Hp & Hs & Ht). simpl.
    destruct (sync_popups_ok cfg c2 segs tail []) as (c3 & Hsy & Hd & Hw3); [done|by rewrite app_nil_r, <- Hs|].
    rewrite Hsy. cbn [mbind option_bind]. eexists _, c3. split; [done|]. split; [done|]. split; [by rewrite Hd, Ht, Hd1|].
    rewrite (with_pending_ok cfg _ segs tail), Hs; [by unfold says; rewrite Hd|done|by rewrite Hd].
Qed.
(** Disabling the detection flushes what is held. *)
Lemma disable_ok b c s :
  holds c s -> ordinary s -> exists c', set_disable_paste_burst b c = Some c' /\ holds c' s.
Proof.
  intros (Hok & s0 & -> & Ht) Ho. unfold set_disable_paste_burst.
  set (c1 := on_draft (put_disabled_in b) c).
  assert (text_is c1 s0 (room (paste_burst (draft c)))) as Ht1.
  { destruct Ht as (segs & tail & Hw & Ht). exists segs, tail. split; [by destruct Hw; constructor|exact Ht]. }
  destruct (b && negb (disable_paste_burst (draft c))) eqn:Hb.
  - unfold flush_before. pose proof (flush_before_spec _ (ok_held _ _ Hok)) as Hf.
    change (paste_burst (draft c1)) with (paste_burst (draft c)).
    destruct (flush_before_modified_input (paste_burst (draft c))) as [[p|] b'].
    + destruct Hf as [_ ->].
      destruct (handle_paste_ok cfg no_images (put_burst b' c1) s0 (room (paste_burst (draft c))) (held_text (paste_burst (draft c))))
        as (c2 & -> & Ht2 & _); [by apply text_is_burst|done|]. cbn [mbind option_bind].
      eexists. split; [done|]. by eapply holds_default; [apply text_is_burst|].
    + destruct Hf as [-> Ha]. cbn [mbind option_bind]. eexists. split; [done|]. rewrite (inactive_held _ Ha), app_nil_r.
      eapply holds_default; [|done]. do 2 apply text_is_burst. eapply text_weaken; [exact Ht1|lia].
  - eexists. split; [done|]. split; [|by exists s0]. simpl. destruct Hok as [H1 H2 H3 H4]. constructor; [done|done| |done].
    intros ->. simpl in Hb. apply negb_false_iff in Hb. by apply H3.
Qed.

(** ** Runs *)

Definition perform (now : N) (i : Input) c : option (InputResult * ChatComposer P) :=
  match i with
  | Press d shifted kind => '(r, _, c) ← handle_key_event with_popup (typing_key d shifted kind) now c; Some (r, c)
  | PressEnter => '(r, _, c) ← handle_key_event with_popup enter_key now c; Some (r, c)
  | Pasted p => c ← handle_paste p c; Some (NoResult, c)
  | Tick => '(_, c) ← handle_paste_burst_flush now c; Some (NoResult, c)
  | SetDisabled b => c ← set_disable_paste_burst b c; Some (NoResult, c)
  end.
(** What has been typed since the last message, and what an input gives. *)
Definition typed_after (now : N) (i : Input) c (s : str) : str :=
  match i with
  | Press d _ _ => s ++ [d]
  | PressEnter => if newline_mode now c then s ++ [newline] else []
  | Pasted p => s ++ p
  | Tick | SetDisabled _ => s
  end.
Definition given (now : N) (i : Input) c (s : str) : InputResult :=
  match i with
  | PressEnter => if newline_mode now c then NoResult else Submitted (Str.trim s) []
  | _ => NoResult
  end.
(** The inputs of a run: while keys go to the text, printable characters but the key that
    shows the shortcuts, and Enter while no first character is held, on a message that can be
    sent; pastes while nothing is held or collected; ticks and the setting.  What is typed has
    no carriage return and does not start a command. *)
Definition allowed (now : N) (i : Input) c (s : str) : Prop :=
  match i with
  | Press d shifted kind =>
      editing c /\ printable d /\ kind <> Keys.Release /\ Keys.is_pressed (toggle_shortcuts_keys (set_keys cfg)) (typing_key d shifted kind) = false
  | PressEnter => editing c /\ pending_first_char (paste_burst (draft c)) = None /\ (newline_mode now c = false -> sendable s = true)
  | Pasted _ => is_active (paste_burst (draft c)) = false
  | Tick | SetDisabled _ => True
  end /\ ordinary (typed_after now i c s).
(** An empty draft. *)
Definition fresh c : Prop := text_is c [] 0 /\ paste_burst (draft c) = default_burst.
(** The drafts that are reached, with what has been typed since the last message. *)
Inductive typing : str -> ChatComposer P -> Prop :=
| typing_start c : fresh c -> typing [] c
| typing_step s c now i r c' :
    typing s c -> allowed now i c s -> perform now i c = Some (r, c') -> typing (typed_after now i c s) c'.

Lemma perform_ok now i c s :
  holds c s -> ordinary s -> allowed now i c s ->
  exists c', perform now i c = Some (given now i c s, c') /\ holds c' (typed_after now i c s).
Proof.
  intros Hh Ho [Hi Ho']. destruct i as [d shifted kind| |p| |b]; simpl in *.
  - destruct Hi as (Hed & Hd & Hk & Htog). destruct (key_ok _ _ _ _ _ now Hed Hh Ho' Hd Hk Htog) as (c' & -> & Hh' & _). by exists c'.
  - destruct Hi as (Hed & Hp & Hs). destruct (newline_mode now c) eqn:Hn.
    + destruct (enter_newline _ _ _ Hed Hh Ho' Hp Hn) as (c' & -> & Hh'). by exists c'.
    + destruct (enter_submit _ _ _ Hed Hh Ho Hn) as (r & c' & -> & Hr). rewrite (Hs eq_refl) in Hr. destruct Hr as [-> Hh']. by exists c'.
  - destruct Hh as (Hok & s0 & -> & Ht). rewrite (inactive_held _ Hi), app_nil_r in *.
    destruct (handle_paste_ok cfg no_images _ _ _ _ Ht Ho') as (c' & -> & Ht' & Hb & _). exists c'. split; [done|]. by apply holds_default.
  - destruct (tick_ok cfg no_images now _ _ Hh Ho) as (r & c' & -> & Hh' & _). by exists c'.
  - destruct (disable_ok b _ _ Hh Ho) as (c' & -> & Hh'). by exists c'.
Qed.
Lemma typing_holds s c : typing s c -> holds c s /\ ordinary s.
Proof.
  induction 1 as [c [Ht Hb]|s c now i r c' _ [Hh Ho] Ha Hp]; [split; [by apply holds_default|by apply ordinary_nil]|].
  destruct (perform_ok _ _ _ _ Hh Ho Ha) as (c1 & Hp1 & Hh1). assert (c1 = c') as -> by congruence. split; [done|apply Ha].
Qed.
(** The draft that an input leaves. *)
Definition next (now : N) (i : Input) c : ChatComposer P := match perform now i c with Some (_, c') => c' | None => c end.
Lemma typing_next now i s c t c' :
  typing s c -> allowed now i c s -> t = typed_after now i c s -> c' = next now i c -> typing t c'.
Proof.
  intros Ht Ha -> ->. destruct (typing_holds _ _ Ht) as [Hh Ho]. destruct (perform_ok _ _ _ _ Hh Ho Ha) as (c1 & Hp & _).
  unfold next. rewrite Hp. by eapply typing_step.
Qed.

(** ** The promises *)

(** C2: in a run of inputs nothing typed is lost or reordered, whatever the times of the
    inputs: the text of the draft, with its pastes in place of their placeholders, followed by
    what the detection of bursts holds, is what was typed and pasted since the last message.
    The inputs of a run ([allowed]) are the keys of printable characters (but not the key that
    shows the shortcuts), Enter while the detection holds no first character and the message
    can be sent, pastes of the terminal while nothing is held or collected, ticks, and the
    setting of the detection; keys come while the composer takes input and neither a popup nor
    the history search is open; what is typed has no carriage return and does not start a slash
    command; bindings are such that plain characters are text, vim mode is off, nothing pasted
    is the path of an image, and no image or mention is attached.  (Enter while a first
    character is held and pastes while characters are held do lose them, see
    [enter_loses_the_held_character] and [paste_loses_the_held_characters].) *)
Theorem typing_keeps_all s c :
  typing s c -> exists t, current_text_with_pending c = Some t /\ t ++ held_text (paste_burst (draft c)) = s.
Proof.
  intros [(_ & s0 & -> & Ht) _]%typing_holds. exists s0. split; [by eapply pending_ok|done].
Qed.
(** C22: in the same runs (Enter only while no first character is held, pastes of the terminal
    only while nothing is held or collected), a tick that comes more than the interval of a
    burst after the last character puts everything typed since the last message in the text,
    and nothing stays held. *)
Theorem quiet_tick_shows_all now s c :
  typing s c ->
  (forall t, last_plain_char_time (paste_burst (draft c)) = Some t -> (PASTE_BURST_CHAR_INTERVAL < now - t)%N) ->
  exists c', perform now Tick c = Some (NoResult, c') /\ is_active (paste_burst (draft c')) = false /\ current_text_with_pending c' = Some s.
Proof.
  intros [Hh Ho]%typing_holds Hlate. destruct (tick_ok cfg no_images now _ _ Hh Ho) as (r & c' & Ht & Hh' & _ & _ & Hq).
  assert (is_active (paste_burst (draft c')) = false) as Ha.
  { destruct Hh as [Hok _]. apply Hq, flush_if_due_late; [apply Hok|]. intros [t Hl]%(ok_timed _ _ Hok). eauto. }
  exists c'. simpl. rewrite Ht. split_and!; [done|done|]. destruct Hh' as (_ & s0 & -> & Ht').
  rewrite (inactive_held _ Ha), app_nil_r. by eapply pending_ok.
Qed.
End promises.

(** ** Examples *)

(** A desktop without images, no popups, and the default keys. *)
#[global] Instance desk : Desktop := Build_Desktop (fun _ => None) (fun s => [s]) false (fun _ => false) (fun s => s).
#[global] Instance no_popups : PopupWidgets unit := {| active_popup _ := NoPopup; sync_popup_widgets _ := tt; close_popups _ := tt |}.
(** Popups that are never shown get no keys. *)
Definition no_keys (p : ActivePopup) (event : Keys.KeyEvent) (now : N) (c : ChatComposer unit) : option (InputResult * bool * ChatComposer unit) :=
  None.
Definition default_keys : ComposerKeys :=
  mkKeys [Keys.plain Keys.Enter] [Keys.ctrl Keys.Enter] [Keys.plain (Keys.Char (ch "?"))] Keys.default_editor Keys.default_vim_normal
    [Keys.ctrl (Keys.Char (ch "r"))] [Keys.ctrl (Keys.Char (ch "s"))].
Definition settings : Settings := mkSettings default_config default_keys.
Definition no_flags : BuiltinCommandFlags := mkFlags false false false false false false false false false false.
Definition empty_composer : ChatComposer unit :=
  mkComposer (mkDraft TextArea.new false [] default_burst false ∅ [] true) tt new_history ComposerEmpty None (mkAttachments [] [] None)
    false false None default_config no_flags [] default_keys [] None.
Lemma desk_no_images : image_paste_enabled (set_config settings) = true -> forall p, is_image p = false.
Proof. done. Qed.
Lemma default_keys_ok : keys_ok (set_keys settings) = true.
Proof. by vm_compute. Qed.
Lemma empty_fresh : fresh settings empty_composer.
Proof.
  split; [|done]. exists [], []. split_and!; [by constructor; try constructor|done|done|by intros _ t|done|by left].
Qed.
Definition ms (n : N) : N := (n * 1000000)%N.
Definition ordinary_text (s : str) : bool := negb (bool_decide (carriage_return ∈ s)) && negb (Str.starts_with $"/" (Str.trim_start s)).
Lemma ordinary_text_ok cfg s : ordinary_text s = true -> ordinary cfg s.
Proof.
  intros [H1%negb_true_iff%bool_decide_eq_false H2%negb_true_iff%Str.starts_with_false]%andb_true_iff.
  split; [done|]. intros _ t Ht. apply H2. rewrite Ht. by exists t.
Qed.
(** Two keys a millisecond apart, a tick later. *)
Definition typed_h : ChatComposer unit := next no_keys 0%N (Press (ch "h") false Keys.Press) empty_composer.
Definition typed_hi : ChatComposer unit := next no_keys (ms 1) (Press (ch "i") false Keys.Press) typed_h.
Lemma press_allowed now d c s :
  ordinary_text (s ++ [d]) = true -> (97 <=? d)%N && (d <=? 122)%N = true ->
  Keys.is_pressed (toggle_shortcuts_keys default_keys) (typing_key d false Keys.Press) = false ->
  editing c -> allowed (P := unit) settings now (Press d false Keys.Press) c s.
Proof.
  intros Ho [H1%N.leb_le H2%N.leb_le]%andb_true_iff Ht Hed. split; [|by apply ordinary_text_ok]. split; [done|].
  split_and!; [split; lia|done|done].
Qed.
Lemma typing_h : typing no_keys settings $"h" typed_h.
Proof.
  eapply (typing_next no_keys settings desk_no_images default_keys_ok 0%N (Press (ch "h") false Keys.Press) []);
    [apply typing_start, empty_fresh|by apply press_allowed; repeat split|done..].
Qed.
Lemma typing_hi : typing no_keys settings $"hi" typed_hi.
Proof. eapply (typing_next no_keys settings desk_no_images default_keys_ok (ms 1) (Press (ch "i") false Keys.Press)); [apply typing_h|by apply press_allowed; repeat split|done..]. Qed.
Lemma typing_keeps_all_witness :
  held_text (paste_burst (draft typed_hi)) = $"hi" /\
  exists t, current_text_with_pending typed_hi = Some t /\ t ++ held_text (paste_burst (draft typed_hi)) = $"hi".
Proof. split; [by vm_compute|]. exact (typing_keeps_all no_keys settings desk_no_images default_keys_ok $"hi" typed_hi typing_hi). Defined.
Lemma quiet_tick_shows_all_witness :
  exists c', perform no_keys (ms 30) Tick typed_hi = Some (NoResult, c') /\ is_active (paste_burst (draft c')) = false /\
    current_text_with_pending c' = Some $"hi".
Proof.
  assert (forall t, last_plain_char_time (paste_burst (draft typed_hi)) = Some t -> (PASTE_BURST_CHAR_INTERVAL < ms 30 - t)%N) as Hlate.
  { assert (last_plain_char_time (paste_burst (draft typed_hi)) = Some (ms 1)) as -> by by vm_compute. by intros t [= <-]. }
  exact (quiet_tick_shows_all no_keys settings desk_no_images default_keys_ok (ms 30) $"hi" typed_hi typing_hi Hlate).
Defined.

(** A held first character is overtaken by Enter, and then lost: [append_newline_if_active]
    puts the newline in the buffer while the character stays held, and the flush of the buffer
    clears what is held. *)
Definition overtaken : ChatComposer unit := next no_keys (ms 30) Tick (next no_keys (ms 1) PressEnter typed_h).
Lemma enter_loses_the_held_character :
  held_text (paste_burst (draft typed_h)) = $"h" /\ current_text_with_pending overtaken = Some [newline] /\
  held_text (paste_burst (draft overtaken)) = [].
Proof. by vm_compute. Qed.
(** A paste of the terminal drops what the detection holds. *)
Lemma paste_loses_the_held_characters :
  held_text (paste_burst (draft typed_hi)) = $"hi" /\
  current_text_with_pending (next no_keys (ms 2) (Pasted $"!") typed_hi) = Some $"!" /\
  held_text (paste_burst (draft (next no_keys (ms 2) (Pasted $"!") typed_hi))) = [].
Proof. by vm_compute. Qed.

End Composing.
